(* ===== verification/_CoqProject ===== *)
-Q . S2P
Prelude.v
MessageQueue.v
Scheduler.v
Timer.v
HandleStorage.v
Netpack.v
LuaSeri.v
Crypt.v
SprotoPack.v
Libc.v
SprotoTypes.v
SprotoCodec.v
SprotoWire.v
SprotoEncode.v
SprotoLua.v
SprotoDecode.v
SprotoRound.v
Xtea.v
SprotoSafe.v
SprotoDefault.v
Cluster.v
HashId.v
DataBuffer.v
Gate.v
Majiang.v
MjHuTable.v
LandCards.v
LandTable.v
Server.v
HarborService.v
HarborProof.v
HarborSpec.v
HarborLink.v
SocketServer.v
SocketProof.v
SocketEvents.v
SocketInv.v
SocketRuns.v
SocketLive.v
SocketSpec.v
SkynetSocket.v
SocketBuffer.v
SocketDriver.v
