(* ===== verification/Prelude.v ===== *)
(** * Verification of the C and C++ code of the JY_QiPai server

    The JY_QiPai server is a set of game services in Lua that run on skynet, an
    actor framework in C: src/skynet/skynet-src (message queues, scheduler,
    timer, handles, sockets), src/skynet/lualib-src (the C libraries the Lua
    services call) and src/skynet/service-src (the services in C).  The rules
    of the games are C++ libraries of the project under src/skynet/3rd: mahjong
    in 3rd/majiang and the card game Dou Dizhu in 3rd/land.  This development
    models the parts of that code that hold the system's own logic and proves
    that they do what they are for.

    ** How the parts interact

    A service is a context with a handle and a message queue.  The handle
    storage finds a context by its handle or name.  A message for a service is
    pushed to its queue; a queue with messages sits in the global queue, from
    which worker threads take queues, run the service on their messages and
    put them back.  The timer thread pushes a message when a timeout expires.
    The socket thread reads and writes the sockets for all services and reports
    to their owners.  The gate and the netpack library cut the byte streams of sockets into
    packets and hand them to services; these encode values with the
    serialization library and sproto, and secure connections with the crypt
    library.  The game services ask the libraries of the games which hands win,
    which plays are legal and what a computer player plays.

    ** Conventions

    C integers are [Z], with the width written out where an operation can leave
    it ([u32], [i32], ...; [chk32] for signed overflow, which is undefined).
    Arrays are lists, pointers into them indices, NULL [None].  A function that
    can fail an assertion, access memory outside an object, follow NULL or read
    memory never written returns an [option] and is [None] then; so a theorem
    that a function returns [Some] is also the theorem that none of this
    happens.  (The sproto files tell a failure from undefined behaviour, [Fail]
    from [Undef].)  State is passed explicitly.  Loops are structural on a counter,
    or on fuel where the code's bound is not a counter; every theorem says that
    the result is reached, so the fuel is enough.

    ** Files

    - [Prelude]: machine integers, arrays, buffers, byte orders, tactics.
    - [MessageQueue]: skynet-src/skynet_mq.c.  The ring buffer of a queue
      refines a FIFO list ([mq_fifo]); the linked global queue refines a FIFO
      of queues ([globalmq_fifo]).
    - [Scheduler]: skynet_context_message_dispatch of skynet_server.c and
      thread_worker of skynet_start.c as a step relation between atomic
      actions of any number of workers, senders, launches and exits.  In every
      reachable state no assertion of the queues can fail ([sched_no_crash])
      and a queue with messages has exactly one owner ([sched_no_lost_queue]).
    - [Timer]: skynet_timer.c.  The hierarchical wheel refines a list of
      absolute expiry times, across the carries of its levels and the wrap of
      the 32-bit clock ([timer_wheel_refines], [timer_on_time]).
    - [HandleStorage]: skynet_handle.c.  The open-addressed table and the
      sorted array of names refine two maps ([handle_storage_refines]);
      skynet_handle_retireall ends and leaves nothing ([retireall_ok]).
    - [Netpack]: lualib-src/lua-netpack.c.  For any cutting and interleaving of
      the data of any sockets the packets come out whole and in order
      ([netpack_framing], [netpack_roundtrip]).
    - [LuaSeri]: lualib-src/lua-seri.c.  Unpacking restores packed values
      ([seri_roundtrip]) and terminates on every input ([unpack_terminates]).
    - [Crypt]: lualib-src/lua-crypt.c.  DES, base 64, hexadecimal and xor
      round trips, exponentiation modulo a prime on 64-bit words, agreement of
      the key exchange, random keys.
    - [SprotoPack]: sproto_pack and sproto_unpack of
      lualib-src/sproto/sproto.c; packing fits its buffer and unpacks to the
      message ([pack_roundtrip]).
    - [Libc]: the functions of the C library on text that the services use.
    - [SprotoTypes]: the loader and the queries of schemas of
      lualib-src/sproto/sproto.c, in a monad with failure and undefined
      behaviour.
    - [SprotoCodec]: sproto_encode and sproto_decode with the callbacks of
      lualib-src/sproto/lsproto.c that read and build Lua tables, and the entry
      points lencode, ldecode, lpack and lunpack.
    - [SprotoWire], [SprotoEncode]: messages and their bytes; [CallbackSpec] is
      the interface between the encoder and a callback, and with any callback
      that satisfies it the encoder writes the bytes of the message.
    - [SprotoLua], [SprotoDecode]: the callback of lencode satisfies the
      interface; the decoder builds the table of the message.
    - [SprotoRound]: the theorems.  A loaded schema is well formed
      ([schema_loaded]); lencode returns the bytes of the message or raises
      ([lencode_correct]); for schemas without decimals, encoding and decoding
      give the message back, also with packing and unpacking in between where
      the bytes are [packable] ([message_roundtrip]).
    - [Xtea]: the encryption of messages added to sproto.c and lsproto.c
      ([xtea_roundtrip]).
    - [SprotoSafe]: decoding is safe on bytes from anywhere without the lengths
      at which its additions wrap ([ldecode_any_bytes]).
    - [SprotoDefault]: the tables of default values, a second implementation of
      the interface ([ldefault_correct]), and the array of shared schemas.
    - [Cluster]: lualib-src/lua-cluster.c, the requests and responses between
      clusters; they arrive whole through [Netpack]
      ([cluster_request_arrives], [cluster_response_arrives]); unpacking bytes
      from anywhere gives the fields of a well-formed message, and raises or
      returns nothing for any other ([cluster_unpack_any]).
    - [HashId]: service-src/hashid.h, a chained hash of socket ids that refines
      a map to distinct slots ([hashid_refines]).
    - [DataBuffer]: service-src/databuffer.h, linked data blocks on a shared
      pool of cells that refine independent byte queues ([databuffer_fifo]).
    - [Gate]: service-src/service_gate.c.  The whole service, on top of the
      two, refines a map from socket ids to connections with a stream each,
      including where the process aborts ([gate_refines]); packets arrive
      however they are cut ([gate_framing]).

    - [Majiang]: 3rd/majiang/majiang.cpp.  The search for winning hands finds
      exactly the splittings into a pair and sets of three ([hu_search_exact]);
      what a hand wins with is the best of them ([get_hupai_info_ok]); the
      list of waiting tiles is never computed ([ting_never]).
    - [MjHuTable]: 3rd/majiang/mj_hupai_typ_compute.cpp, the table of all
      winning hands of a suit and its relations ([hp_types_exact],
      [hp_list_bounds], [hu_relation_exact]).
    - [LandCards]: the rules part of 3rd/land/GameLogic.cpp.  Sorting
      ([sort_card_list_ok]), recognising ([card_type_ok]) and comparing plays
      ([compare_order]).
    - [LandTable]: dealing, hands and the state of a computer player, from
      GameLogic.cpp and 3rd/land/GameUserItemSink.cpp.  Deals are permutations
      of the deck ([rand_card_list_ok]; [rand_good_fails] for the one that is
      wrong); the player's arrays refine the hands of the table
      ([land_table_refines]); what is done with a result of the search for a
      play ([calc_out_card_ok]).
    - [Server]: the contexts of skynet-src/skynet_server.c and the messages
      between them and to other nodes (skynet_harbor.c), on top of the
      interface [HandleTable], which [HandleStorage] implements.  Under the
      interleavings of [cstep], in which a context is not retired before its
      launch is over, no freed context is accessed and none is leaked
      ([context_lifetime]; [launch_race], [push_too_early] and [growth_race]
      are what is left out); a message arrives with the type, session, source
      and content it was sent with ([send_delivers]).

    - [HarborService]: service-src/service_harbor.c, the service that links the
      nodes of a network: queues, the hash of global names, links with their
      handshake and their reader of frames, commands and the callback.
    - [HarborProof], [HarborSpec]: its rings are lists, its chains a map; the
      specification is an array of links and a map of names, and every handler
      refines it.
    - [HarborLink]: the theorems.  The service behaves as specified
      ([harbor_refines]); messages to handles of another node arrive as they were
      sent ([harbor_delivers]); blocks are freed or given away once
      ([harbor_buffers_once]); a closed link is not reported
      ([harbor_down_unreported]).

    - [SocketServer]: skynet-src/socket_server.c, the thread that owns the
      sockets of a node: slots, queues of data, requests from other threads and
      events, in a monad of state and failure; the kernel is a parameter, the
      record [OS], with its documented behaviour in the class [OSLaws].
    - [SocketProof], [SocketEvents]: what each function does to its socket, to
      the bytes it has to send and to the buffers it holds, with a calculus of
      weakest preconditions for the monad.
    - [SocketInv], [SocketRuns]: runs, as sequences of the calls of any number
      of threads and of rounds of the poll thread, and the invariant of all
      reachable states.
    - [SocketLive], [SocketSpec]: the theorems, for callers that keep to
      [allowed].  No assertion fails ([socket_server_no_crash]); slots stay well formed ([socket_slots_ok]);
      each socket sends whole packets in order ([socket_stream_order]); each
      buffer is freed once ([socket_buffers_once]); a socket that is closed
      writes its data at every event where the kernel takes some
      ([half_close_drains]); identifiers are found ([reserve_id_result]); and
      what goes wrong outside the rules ([send_before_open],
      [udp_send_overread]).
    - [SkynetSocket]: skynet-src/skynet_socket.c, the messages to services
      ([udp_reply_address]).
    - [SocketBuffer]: the buffers of lualib-src/lua-socket.c, linked nodes of a
      pool that all sockets of a Lua service share; they refine independent
      queues of bytes ([buffers_refine]).
    - [SocketDriver]: the rest of that file: addresses in text are read back
      ([address_roundtrip]), the strings of a table are joined.

    ** Fuel

    overload_loop: 32 (an int doubles at most 31 times); shift_loop: 4 (the
    levels of the wheel); execute_loop: 2 (a slot of the wheel is empty after
    one pass); register_loop: 24 (doublings up to the handle mask); drop_loop:
    the capacity plus one; retireall: 2 passes; push_more: the length of the
    buffer; unpacking of values: three times the length of the block plus four;
    des_padding: 10; mul_mod_loop and pow_mod_p: 64 (bits); the loops of base
    64, DES, sproto and XTEA: the length of the text or the number of rounds;
    hashcap_loop: 32 (doublings); chain walks: the number of nodes plus one;
    dispatch_loop: twice the buffered bytes plus three (a round takes a header
    or leaves one to take); the search for winning hands: the number of tiles
    plus one; the enumeration of winning hands: 8 (at most 14 tiles, in sets of
    two or three), its relations: 6 (levels); sort_loop: the number of cards
    plus one (each round places one); reserve_loop: 65536 (the slots);
    nested sproto structures: 65 (the code raises at 64); lencode_loop: 32 and
    ldefault_loop: 24 (an int doubles); the loops over the elements of sproto
    arrays: the bytes left plus one (an element takes a byte or more);
    calc_pow: 32 (halvings); while_pop: the size of the ring plus one; data_loop: the bytes of the data
    plus two (a round takes a byte, but for the handshake); write_retry: the bound of the kernel on interruptions in a row;
    the loops over the nodes of a buffer of [SocketBuffer]: the nodes of the pool;
    socket_server_poll: rounds, chosen by the caller.

    ** Not modelled

    Bson, shared data, the pool of memory and the printing
    of sproto schemas, the text commands of skynet_server.c, start-up, logging and memory
    accounting.  The search for plays of the Dou Dizhu player (3rd/land from
    line 1127 on, 3rd/tgland) and the helpers of the mahjong player.  The rest
    of 3rd/ are other projects.  The Lua stack of the callbacks of sproto (a nil
    array leaves a slot on it).

    Locks appear as the atomicity of the actions they protect.  Some actions
    are larger than the critical sections of the code: a round of the socket
    thread ([poll_round], so that no other thread reserves a slot between
    [ctrl_cmd] and [clear_closed_event]) with the steps of [report_connect]; a
    tick of the timer ([timer_update], which lets go of the lock while it
    dispatches); and the pop, the length and the overload of a queue
    ([worker_step]).  Frees are tracked for contexts and their messages,
    for the buffers handed to the socket server and for the blocks handed to the
    harbor service. *)

From Stdlib Require Import ZArith Lia.
From stdpp Require Import base tactics option numbers gmap strings list.

#[global] Open Scope Z_scope.

(** ** Machine integers

    A C integer is a [Z]; the width is written out at every operation that
    can leave it.  Unsigned arithmetic wraps ([u8] .. [u64]); converting to a
    signed type reinterprets the bits ([i32], [i64]); signed arithmetic that
    overflows is undefined behaviour, which [chk32] turns into [None]. *)

Definition u8 (z : Z) : Z := z mod 2 ^ 8.
Definition u16 (z : Z) : Z := z mod 2 ^ 16.
Definition u32 (z : Z) : Z := z mod 2 ^ 32.
Definition u64 (z : Z) : Z := z mod 2 ^ 64.

Definition i32 (z : Z) : Z := (z + 2 ^ 31) mod 2 ^ 32 - 2 ^ 31.
Definition i64 (z : Z) : Z := (z + 2 ^ 63) mod 2 ^ 64 - 2 ^ 63.

Definition INT_MAX : Z := 2147483647.
Definition INT_MIN : Z := -2147483648.

(** The result of a signed 32-bit operation: [None] when it overflows. *)
Definition chk32 (z : Z) : option Z :=
  if (INT_MIN <=? z) && (z <=? INT_MAX) then Some z else None.

(** ** Arrays

    A C array is a list; an access outside its bounds is [None]. *)

Definition arr_get {A} (l : list A) (i : Z) : option A :=
  if 0 <=? i then l !! Z.to_nat i else None.

Definition arr_set {A} (l : list A) (i : Z) (x : A) : option (list A) :=
  if (0 <=? i) && (i <? Z.of_nat (length l)) then Some (<[Z.to_nat i := x]> l) else None.

(** C's [assert]. *)
Definition c_assert (b : bool) : option unit := if b then Some tt else None.

(** ** Bytes and byte orders *)

Definition is_byte (b : Z) : Prop := 0 <= b < 256.
#[global] Instance is_byte_dec b : Decision (is_byte b).
Proof. unfold is_byte; apply _. Defined.

(** The [n] bytes of [z], least significant first, as a little-endian machine
    stores them. *)
Fixpoint le_bytes (n : nat) (z : Z) : list Z :=
  match n with
  | O => []
  | S n' => z mod 256 :: le_bytes n' (z / 256)
  end.

Fixpoint le_val (l : list Z) : Z :=
  match l with
  | [] => 0
  | b :: l' => b + 256 * le_val l'
  end.

(** ** Buffers

    A block from [malloc] is a list of cells, [None] until written. *)

(** [memcpy(dst + off, src, n)] *)
Definition memcpy (dst : list (option Z)) (off : Z) (src : list Z) (n : Z) : option (list (option Z)) :=
  if (0 <=? n) && (n <=? Z.of_nat (length src)) && (0 <=? off) && (off + n <=? Z.of_nat (length dst))
  then Some (take (Z.to_nat off) dst ++ (Some <$> take (Z.to_nat n) src) ++ drop (Z.to_nat (off + n)) dst)
  else None.

(** The same from a block whose cells may be unwritten. *)
Definition memcpy_cells (dst : list (option Z)) (off : Z) (src : list (option Z)) (n : Z) : option (list (option Z)) :=
  if (0 <=? n) && (n <=? Z.of_nat (length src)) && (0 <=? off) && (off + n <=? Z.of_nat (length dst))
  then Some (take (Z.to_nat off) dst ++ take (Z.to_nat n) src ++ drop (Z.to_nat (off + n)) dst)
  else None.

(** [skynet_malloc(n)] *)
Definition malloc (n : Z) : list (option Z) := replicate (Z.to_nat n) None.

(** A buffer of [n] bytes whose first bytes [t] are written. *)
Definition partial (n : Z) (t : list Z) : list (option Z) :=
  (Some <$> t) ++ replicate (Z.to_nat n - length t) None.

(** ** Tactics of the development *)

(** [lia] with division and remainder by constants. *)
Ltac dlia := Z.to_euclidean_division_equations; lia.

(** Turns the boolean tests of the code in the context into propositions. *)
Ltac bool_to_prop :=
  repeat match goal with
  | H : (_ && _)%bool = true |- _ => apply andb_true_iff in H; destruct H
  | H : (_ && _)%bool = false |- _ => apply andb_false_iff in H
  | H : (_ || _)%bool = true |- _ => apply orb_true_iff in H
  | H : (_ || _)%bool = false |- _ => apply orb_false_iff in H; destruct H
  | H : negb _ = true |- _ => apply negb_true_iff in H
  | H : negb _ = false |- _ => apply negb_false_iff in H
  | H : (_ =? _)%Z = true |- _ => apply Z.eqb_eq in H
  | H : (_ =? _)%Z = false |- _ => apply Z.eqb_neq in H
  | H : (_ <=? _)%Z = true |- _ => apply Z.leb_le in H
  | H : (_ <=? _)%Z = false |- _ => apply Z.leb_gt in H
  | H : (_ <? _)%Z = true |- _ => apply Z.ltb_lt in H
  | H : (_ <? _)%Z = false |- _ => apply Z.ltb_ge in H
  | H : bool_decide _ = true |- _ => apply bool_decide_eq_true in H
  | H : bool_decide _ = false |- _ => apply bool_decide_eq_false in H
  end.

(** Succeeds on a term without conditionals. *)
Ltac no_if t :=
  lazymatch t with
  | context [if _ then _ else _] => fail
  | _ => idtac
  end.

(** Decides every integer test of the goal, the innermost ones first, closing
    the impossible branches. *)
Ltac zcases :=
  repeat match goal with
  | |- context [(?a =? ?b)%Z] => no_if a; no_if b; destruct (Z.eqb_spec a b); try lia
  | |- context [(?a <=? ?b)%Z] => no_if a; no_if b; destruct (Z.leb_spec a b); try lia
  | |- context [(?a <? ?b)%Z] => no_if a; no_if b; destruct (Z.ltb_spec a b); try lia
  end.

(** Splits a hypothesis that a chain of option binds succeeds. *)
Ltac bind_inv :=
  repeat match goal with
  | H : mbind _ _ = Some _ |- _ => apply bind_Some in H
  | H : (_ ≫= _) = Some _ |- _ => apply bind_Some in H
  | H : ex _ |- _ => destruct H
  | H : _ ∧ _ |- _ => destruct H
  | H : Some _ = Some _ |- _ => injection H as H; subst
  end.

Create HintDb machine discriminated.

(** ** Lemmas on machine integers *)

Lemma u8_range z : 0 <= u8 z < 256.
Proof. apply Z.mod_pos_bound. lia. Qed.

Lemma u16_range z : 0 <= u16 z < 2 ^ 16.
Proof. apply Z.mod_pos_bound. lia. Qed.

Lemma u32_range z : 0 <= u32 z < 2 ^ 32.
Proof. apply Z.mod_pos_bound. lia. Qed.

Lemma u64_range z : 0 <= u64 z < 2 ^ 64.
Proof. apply Z.mod_pos_bound. lia. Qed.

#[export] Hint Resolve u8_range u16_range u32_range u64_range : machine.

Lemma u8_small z : 0 <= z < 256 → u8 z = z.
Proof. apply Z.mod_small. Qed.

Lemma u16_small z : 0 <= z < 2 ^ 16 → u16 z = z.
Proof. apply Z.mod_small. Qed.

Lemma u32_small z : 0 <= z < 2 ^ 32 → u32 z = z.
Proof. apply Z.mod_small. Qed.

Lemma u64_small z : 0 <= z < 2 ^ 64 → u64 z = z.
Proof. apply Z.mod_small. Qed.

Lemma i32_small z : INT_MIN <= z <= INT_MAX → i32 z = z.
Proof. unfold i32, INT_MIN, INT_MAX. intros. rewrite Z.mod_small; lia. Qed.

Lemma i64_small z : - 2 ^ 63 <= z < 2 ^ 63 → i64 z = z.
Proof. unfold i64. intros. rewrite Z.mod_small; lia. Qed.

Lemma chk32_some z : INT_MIN <= z <= INT_MAX → chk32 z = Some z.
Proof. intros. unfold chk32. zcases; reflexivity. Qed.

Lemma chk32_inv z r : chk32 z = Some r → r = z ∧ INT_MIN <= z <= INT_MAX.
Proof.
  unfold chk32. destruct (_ && _)%bool eqn:E; [|discriminate].
  intros [= <-]. bool_to_prop. lia.
Qed.

(** ** Lemmas on arrays *)

Lemma arr_get_lookup {A} (l : list A) i : 0 <= i → arr_get l i = l !! Z.to_nat i.
Proof. intros. unfold arr_get. zcases. reflexivity. Qed.

Lemma arr_set_some {A} (l : list A) i x :
  0 <= i < Z.of_nat (length l) → arr_set l i x = Some (<[Z.to_nat i := x]> l).
Proof. intros. unfold arr_set. zcases. reflexivity. Qed.

Lemma arr_get_some {A} (l : list A) i :
  0 <= i < Z.of_nat (length l) → is_Some (arr_get l i).
Proof.
  intros. rewrite arr_get_lookup by lia. apply lookup_lt_is_Some_2. lia.
Qed.

(** ** Lemmas on byte orders *)

Lemma le_bytes_length n z : length (le_bytes n z) = n.
Proof. revert z. induction n; intros; simpl; auto. Qed.

Lemma le_bytes_bytes n z : Forall is_byte (le_bytes n z).
Proof.
  revert z. induction n; intros; simpl; constructor; auto.
  apply Z.mod_pos_bound. lia.
Qed.

Lemma le_val_bytes n z : le_val (le_bytes n z) = z mod 256 ^ Z.of_nat n.
Proof.
  revert z. induction n as [|n IH]; intros z.
  - simpl. rewrite Z.mod_1_r. reflexivity.
  - cbn [le_bytes le_val]. rewrite IH, Nat2Z.inj_succ, Z.pow_succ_r by lia.
    assert (0 < 256 ^ Z.of_nat n) by (apply Z.pow_pos_nonneg; lia).
    rewrite Z.rem_mul_r by lia. lia.
Qed.

Lemma le_bytes_val l : Forall is_byte l → le_bytes (length l) (le_val l) = l.
Proof.
  unfold is_byte. induction 1 as [|b l Hb _ IH]; simpl; [reflexivity|].
  replace ((b + 256 * le_val l) / 256) with (le_val l)
    by (rewrite Z.mul_comm, Z.div_add, Z.div_small; lia).
  rewrite IH, Z.mul_comm, Z_mod_plus_full, Z.mod_small by lia. reflexivity.
Qed.

Lemma le_val_range l : Forall is_byte l → 0 <= le_val l < 256 ^ Z.of_nat (length l).
Proof.
  unfold is_byte. induction 1 as [|b l Hb _ IH]; [simpl; lia|].
  cbn [le_val length]. rewrite Nat2Z.inj_succ, Z.pow_succ_r by lia. lia.
Qed.

#[export] Hint Resolve le_bytes_length le_bytes_bytes le_val_range : machine.

(** ** Bit masks as division and remainder *)

Lemma land_ones_mod a k : 0 <= k → Z.land a (2 ^ k - 1) = a mod 2 ^ k.
Proof. intros. rewrite <- Z.land_ones, Z.ones_equiv by lia. f_equal. Qed.

Lemma land_255 v : Z.land v 255 = v mod 256.
Proof. by apply (land_ones_mod v 8). Qed.

Lemma lor_ones_div a k : 0 <= k → Z.lor a (2 ^ k - 1) = a / 2 ^ k * 2 ^ k + (2 ^ k - 1).
Proof.
  intros Hk. replace (2 ^ k - 1) with (Z.ones k) by (rewrite Z.ones_equiv; lia).
  rewrite <- Z.shiftr_div_pow2, <- Z.shiftl_mul_pow2 by lia.
  rewrite Z.add_nocarry_lxor, Z.lxor_lor.
  - apply Z.bits_inj'. intros n Hn. rewrite !Z.lor_spec, Z.shiftl_spec, Z.testbit_ones_nonneg by lia.
    destruct (Z.ltb_spec n k).
    + by rewrite !orb_true_r.
    + rewrite Z.shiftr_spec, !orb_false_r by lia. f_equal. lia.
  - apply Z.bits_inj'. intros n Hn. rewrite Z.land_spec, Z.shiftl_spec, Z.testbit_ones_nonneg, Z.bits_0 by lia.
    destruct (Z.ltb_spec n k); [|by rewrite andb_false_r].
    rewrite Z.testbit_neg_r by lia. done.
  - apply Z.bits_inj'. intros n Hn. rewrite Z.land_spec, Z.shiftl_spec, Z.testbit_ones_nonneg, Z.bits_0 by lia.
    destruct (Z.ltb_spec n k); [|by rewrite andb_false_r].
    rewrite Z.testbit_neg_r by lia. done.
Qed.

(** Bits that do not overlap: [or] and exclusive [or] are addition. *)
Lemma land_shiftl_low a b k : 0 <= k → 0 <= b < 2 ^ k → Z.land (Z.shiftl a k) b = 0.
Proof.
  intros Hk Hb. apply Z.bits_inj'. intros n Hn. rewrite Z.land_spec, Z.shiftl_spec, Z.bits_0 by lia.
  destruct (Z.ltb_spec n k).
  - by rewrite Z.testbit_neg_r by lia.
  - rewrite <- (Z.mod_small b (2 ^ k)), Z.mod_pow2_bits_high, andb_false_r by lia. done.
Qed.

Lemma lor_shiftl_add a b k : 0 <= k → 0 <= b < 2 ^ k → Z.lor (Z.shiftl a k) b = a * 2 ^ k + b.
Proof.
  intros Hk Hb. pose proof (land_shiftl_low a b k Hk Hb) as Hz.
  rewrite <- Z.lxor_lor, <- Z.add_nocarry_lxor, Z.shiftl_mul_pow2 by done. reflexivity.
Qed.

Lemma lor_ones_eqb a b k :
  0 <= k → (Z.lor a (2 ^ k - 1) =? Z.lor b (2 ^ k - 1)) = (a / 2 ^ k =? b / 2 ^ k).
Proof.
  intros Hk. rewrite !lor_ones_div by lia. assert (0 < 2 ^ k) by (apply Z.pow_pos_nonneg; lia).
  destruct (Z.eqb_spec (a / 2 ^ k) (b / 2 ^ k)) as [->|Hne]; [apply Z.eqb_refl|].
  apply Z.eqb_neq. nia.
Qed.

(** ** Lemmas on buffers *)

Lemma memcpy_partial n t src m :
  0 <= m <= Z.of_nat (length src) → Z.of_nat (length t) + m <= n →
  memcpy (partial n t) (Z.of_nat (length t)) src m = Some (partial n (t ++ take (Z.to_nat m) src)).
Proof.
  intros Hm Hn. unfold memcpy, partial. rewrite length_app, length_fmap, length_replicate. zcases. simpl. f_equal.
  rewrite fmap_app, <- app_assoc. f_equal.
  - rewrite take_app_le by (rewrite length_fmap; lia). rewrite take_ge; [done|rewrite length_fmap; lia].
  - f_equal. rewrite drop_app_ge by (rewrite length_fmap; lia). rewrite length_fmap, drop_replicate. f_equal.
    rewrite length_app, length_take. lia.
Qed.

Lemma malloc_partial n : malloc n = partial n [].
Proof. unfold malloc, partial. simpl. by rewrite Nat.sub_0_r. Qed.

Lemma partial_full p : partial (Z.of_nat (length p)) p = Some <$> p.
Proof. unfold partial. rewrite Nat2Z.id, Nat.sub_diag. simpl. by rewrite app_nil_r. Qed.

Lemma memcpy_new n src m :
  0 <= m <= Z.of_nat (length src) → m <= n →
  memcpy (malloc n) 0 src m = Some (partial n (take (Z.to_nat m) src)).
Proof. intros. rewrite malloc_partial. apply (memcpy_partial n [] src m); simpl; lia. Qed.

Lemma memcpy_cells_written dst off src n t :
  take (Z.to_nat n) src = Some <$> t → 0 <= n → Z.of_nat (length t) = n →
  memcpy_cells dst off src n = memcpy dst off t n.
Proof.
  intros Ht Hn Hl. unfold memcpy_cells, memcpy. rewrite Ht.
  assert (Hle : Z.of_nat (length (take (Z.to_nat n) src)) = n) by (rewrite Ht, length_fmap; lia).
  rewrite length_take in Hle. rewrite (firstn_all2 t) by lia. zcases; done.
Qed.

(** A block whose cells were all written. *)
Lemma mapM_written (l : list Z) : mapM id (Some <$> l) = Some l.
Proof. induction l as [|x l IH]; [done|]. cbn. by rewrite IH. Qed.
