(* ===== verification/MessageQueue.v ===== *)
(** * Message queues: skynet-src/skynet_mq.c

    Every service owns a [message_queue], a growing ring buffer of messages
    protected by a spin lock; the queues that have work are linked through
    their [next] field into the one [global_queue] the worker threads take
    from.  A pointer to a queue is an [mqid], the C heap that holds the queues
    is a finite map, and each operation is one critical section of its lock.

    The abstract specification is a FIFO list: [mq_repr q l] relates a ring
    buffer to the list of its messages, [gq_repr s l] the linked list to the
    list of the queues in it. *)

From Stdlib Require Import ZArith Lia.
From stdpp Require Import base tactics option numbers gmap list.
From S2P Require Import Prelude.

(** ** Data *)

(** [struct skynet_message]; [data] is an address, 0 for [NULL], and the type
    of the message is the high byte of [sz]. *)
Record skynet_message := mk_message {
  source : Z;
  session : Z;
  data : Z;
  sz : Z
}.

#[global] Instance skynet_message_eq_dec : EqDecision skynet_message.
Proof. solve_decision. Defined.

Definition MESSAGE_TYPE_MASK : Z := 2 ^ 56 - 1.
Definition MESSAGE_TYPE_SHIFT : Z := 56.

(** Types of messages and the tags of [skynet_send]. *)
Definition PTYPE_TEXT : Z := 0.
Definition PTYPE_RESPONSE : Z := 1.
Definition PTYPE_CLIENT : Z := 3.
Definition PTYPE_SYSTEM : Z := 4.
Definition PTYPE_HARBOR : Z := 5.
Definition PTYPE_SOCKET : Z := 6.
Definition PTYPE_ERROR : Z := 7.
Definition PTYPE_TAG_DONTCOPY : Z := 0x10000.
Definition PTYPE_TAG_ALLOCSESSION : Z := 0x20000.

Definition DEFAULT_QUEUE_SIZE : Z := 64.
Definition MQ_IN_GLOBAL : Z := 1.
Definition MQ_OVERLOAD : Z := 1024.

(** An address of a [struct message_queue]. *)
Abbreviation mqid := positive (only parsing).

(** [struct message_queue]; a cell of [queue] that was never written is
    [None], so that reading uninitialised memory is visible. *)
Record message_queue := mk_mq {
  mq_handle : Z;
  cap : Z;
  head : Z;
  tail : Z;
  release : Z;
  in_global : Z;
  overload : Z;
  overload_threshold : Z;
  queue : list (option skynet_message);
  next : option mqid
}.

Record global_queue := mk_gq { gq_head : option mqid; gq_tail : option mqid }.

(** The C heap of message queues and the global queue [Q]. *)
Record mq_state := mk_mqs { mq_heap : gmap mqid message_queue; Q : global_queue }.

Definition set_next (q : message_queue) (n : option mqid) : message_queue :=
  mk_mq (mq_handle q) (cap q) (head q) (tail q) (release q) (in_global q)
    (overload q) (overload_threshold q) (queue q) n.

Definition set_in_global (q : message_queue) (g : Z) : message_queue :=
  mk_mq (mq_handle q) (cap q) (head q) (tail q) (release q) g
    (overload q) (overload_threshold q) (queue q) (next q).

Definition set_release (q : message_queue) (r : Z) : message_queue :=
  mk_mq (mq_handle q) (cap q) (head q) (tail q) r (in_global q)
    (overload q) (overload_threshold q) (queue q) (next q).

Definition set_overload (q : message_queue) (o t : Z) : message_queue :=
  mk_mq (mq_handle q) (cap q) (head q) (tail q) (release q) (in_global q)
    o t (queue q) (next q).

Definition set_ring (q : message_queue) (c h t : Z) (b : list (option skynet_message)) : message_queue :=
  mk_mq (mq_handle q) c h t (release q) (in_global q)
    (overload q) (overload_threshold q) b (next q).

Definition put_mq (s : mq_state) (p : mqid) (q : message_queue) : mq_state :=
  mk_mqs (<[p := q]> (mq_heap s)) (Q s).

(** ** The global queue *)

Definition skynet_globalmq_push (p : mqid) (s : mq_state) : option mq_state :=
  q ← mq_heap s !! p;
  _ ← c_assert (bool_decide (next q = None));
  match gq_tail (Q s) with
  | Some t =>
      qt ← mq_heap s !! t;
      Some (mk_mqs (<[t := set_next qt (Some p)]> (mq_heap s))
                   (mk_gq (gq_head (Q s)) (Some p)))
  | None => Some (mk_mqs (mq_heap s) (mk_gq (Some p) (Some p)))
  end.

Definition skynet_globalmq_pop (s : mq_state) : option (option mqid * mq_state) :=
  match gq_head (Q s) with
  | None => Some (None, s)
  | Some p =>
      q ← mq_heap s !! p;
      t' ← match next q with
           | None => _ ← c_assert (bool_decide (gq_tail (Q s) = Some p)); Some None
           | Some _ => Some (gq_tail (Q s))
           end;
      Some (Some p, mk_mqs (<[p := set_next q None]> (mq_heap s)) (mk_gq (next q) t'))
  end.

Definition skynet_mq_init : mq_state := mk_mqs ∅ (mk_gq None None).

(** ** The queue of one service *)

Definition mq_new (handle : Z) : message_queue :=
  mk_mq handle DEFAULT_QUEUE_SIZE 0 0 0 MQ_IN_GLOBAL 0 MQ_OVERLOAD
    (replicate (Z.to_nat DEFAULT_QUEUE_SIZE) None) None.

(** [skynet_mq_create] allocates the queue at an address not in use. *)
Definition skynet_mq_create (handle : Z) (s : mq_state) : mqid * mq_state :=
  let p := fresh (dom (mq_heap s)) in
  (p, put_mq s p (mq_new handle)).

(** [_release] returns the memory of the queue. *)
Definition _release (p : mqid) (s : mq_state) : option mq_state :=
  q ← mq_heap s !! p;
  _ ← c_assert (bool_decide (next q = None));
  Some (mk_mqs (delete p (mq_heap s)) (Q s)).

Definition skynet_mq_handle (q : message_queue) : Z := mq_handle q.

Definition skynet_mq_length (q : message_queue) : Z :=
  if head q <=? tail q then tail q - head q else tail q + cap q - head q.

Definition skynet_mq_overload (q : message_queue) : Z * message_queue :=
  if overload q =? 0 then (0, q)
  else (overload q, set_overload q 0 (overload_threshold q)).

(** The loop [while (length > q->overload_threshold)]. *)
Fixpoint overload_loop (fuel : nat) (length ov th : Z) : option (Z * Z) :=
  if length <=? th then Some (ov, th)
  else match fuel with
       | O => None
       | S f => th' ← chk32 (th * 2); overload_loop f length length th'
       end.

(** [skynet_mq_pop]: [Some (None, q')] is the return value 1 (the queue was
    empty), [Some (Some m, q')] the return value 0 with [*message = m]. *)
Definition skynet_mq_pop (q : message_queue) : option (option skynet_message * message_queue) :=
  if head q =? tail q then
    Some (None, set_in_global (set_overload q (overload q) MQ_OVERLOAD) 0)
  else
    c ← arr_get (queue q) (head q);
    m ← c;
    h ← chk32 (head q + 1);
    let hd := if cap q <=? h then 0 else h in
    let len0 := tail q - hd in
    let len := if len0 <? 0 then len0 + cap q else len0 in
    '(ov, th) ← overload_loop 32 len (overload q) (overload_threshold q);
    Some (Some m, set_overload (set_ring q (cap q) hd (tail q) (queue q)) ov th).

Definition expand_queue (q : message_queue) : option message_queue :=
  c2 ← chk32 (cap q * 2);
  cells ← mapM (λ i, arr_get (queue q) ((head q + i) mod cap q)) (seqZ 0 (cap q));
  Some (set_ring q c2 0 (cap q) (cells ++ replicate (Z.to_nat (cap q)) None)).

(** The part of [skynet_mq_push] that stores the message (lines 194 to 201). *)
Definition mq_enqueue (q : message_queue) (m : skynet_message) : option message_queue :=
  b ← arr_set (queue q) (tail q) (Some m);
  t ← chk32 (tail q + 1);
  let tl := if cap q <=? t then 0 else t in
  let q1 := set_ring q (cap q) (head q) tl b in
  if head q1 =? tail q1 then expand_queue q1 else Some q1.

Definition skynet_mq_push (p : mqid) (m : skynet_message) (s : mq_state) : option mq_state :=
  q ← mq_heap s !! p;
  q1 ← mq_enqueue q m;
  if in_global q1 =? 0
  then skynet_globalmq_push p (put_mq s p (set_in_global q1 MQ_IN_GLOBAL))
  else Some (put_mq s p q1).

Definition skynet_mq_mark_release (p : mqid) (s : mq_state) : option mq_state :=
  q ← mq_heap s !! p;
  _ ← c_assert (release q =? 0);
  let s1 := put_mq s p (set_release q 1) in
  if in_global q =? MQ_IN_GLOBAL then Some s1 else skynet_globalmq_push p s1.

(** The loop of [_drop_queue]: the messages handed to [drop_func], in order. *)
Fixpoint drop_loop (fuel : nat) (q : message_queue) : option (list skynet_message * message_queue) :=
  match fuel with
  | O => None
  | S f =>
      '(r, q') ← skynet_mq_pop q;
      match r with
      | None => Some ([], q')
      | Some m => '(ms, q'') ← drop_loop f q'; Some (m :: ms, q'')
      end
  end.

Definition _drop_queue (p : mqid) (s : mq_state) : option (list skynet_message * mq_state) :=
  q ← mq_heap s !! p;
  '(ms, q') ← drop_loop (S (Z.to_nat (cap q))) q;
  s' ← _release p (put_mq s p q');
  Some (ms, s').

(** [skynet_mq_release] with the messages it drops. *)
Definition skynet_mq_release (p : mqid) (s : mq_state) : option (list skynet_message * mq_state) :=
  q ← mq_heap s !! p;
  if release q =? 0 then s' ← skynet_globalmq_push p s; Some ([], s')
  else _drop_queue p s.

(** ** Specification of one queue: a FIFO list *)

(** [mq_repr q l]: the ring buffer is well formed and holds the messages [l],
    oldest first. *)
Record mq_repr (q : message_queue) (l : list skynet_message) : Prop := mk_repr {
  repr_cap : 1 <= cap q <= INT_MAX;
  repr_size : Z.of_nat (length (queue q)) = cap q;
  repr_head : 0 <= head q < cap q;
  repr_fit : Z.of_nat (length l) < cap q;
  repr_tail : tail q = (head q + Z.of_nat (length l)) mod cap q;
  repr_threshold : MQ_OVERLOAD <= overload_threshold q;
  repr_cells : ∀ i m, l !! i = Some m →
    queue q !! Z.to_nat ((head q + Z.of_nat i) mod cap q) = Some (Some m)
}.

(** The operations clients perform on a queue, and what a FIFO list answers. *)
Inductive mq_op := OpPush (m : skynet_message) | OpPop.

Fixpoint mq_exec (ops : list mq_op) (q : message_queue)
    : option (list (option skynet_message) * message_queue) :=
  match ops with
  | [] => Some ([], q)
  | OpPush m :: ops' => q' ← mq_enqueue q m; mq_exec ops' q'
  | OpPop :: ops' =>
      '(r, q') ← skynet_mq_pop q;
      '(rs, q'') ← mq_exec ops' q';
      Some (r :: rs, q'')
  end.

Fixpoint fifo_exec (ops : list mq_op) (l : list skynet_message)
    : list (option skynet_message) * list skynet_message :=
  match ops with
  | [] => ([], l)
  | OpPush m :: ops' => fifo_exec ops' (l ++ [m])
  | OpPop :: ops' =>
      let '(rs, l') := fifo_exec ops' (List.tl l) in (List.hd_error l :: rs, l')
  end.

(** ** Lemmas on ring indices *)

Lemma ring_mod h n c :
  0 <= h < c → 0 <= n <= c →
  (h + n) mod c = if h + n <? c then h + n else h + n - c.
Proof.
  intros. zcases.
  - apply Z.mod_small. lia.
  - replace (h + n) with (h + n - c + 1 * c) by lia.
    rewrite Z_mod_plus_full, Z.mod_small; lia.
Qed.

Lemma ring_mod_range h n c : 0 < c → 0 <= (h + n) mod c < c.
Proof. intros. apply Z.mod_pos_bound. lia. Qed.

Lemma ring_mod_inj h i j c :
  0 <= h < c → 0 <= i < c → 0 <= j < c → (h + i) mod c = (h + j) mod c → i = j.
Proof. intros ???. rewrite !ring_mod by lia. zcases. Qed.

Lemma ring_mod_succ h i c :
  0 <= h < c → 0 <= i → ((if c <=? h + 1 then 0 else h + 1) + i) mod c = (h + (i + 1)) mod c.
Proof.
  intros. zcases.
  - replace (h + (i + 1)) with (i + 1 * c) by lia.
    rewrite Z_mod_plus_full. f_equal; lia.
  - f_equal; lia.
Qed.

(** ** One queue implements the FIFO list *)

Lemma mq_new_repr h : mq_repr (mq_new h) [].
Proof. split; simpl; try done; unfold INT_MAX, MQ_OVERLOAD; lia. Qed.

Lemma mq_repr_empty q l : mq_repr q l → (head q =? tail q) = bool_decide (l = []).
Proof.
  intros []. rewrite repr_tail0, ring_mod by lia.
  destruct l; simpl in *; zcases; reflexivity.
Qed.

Lemma mq_length_repr q l : mq_repr q l → skynet_mq_length q = Z.of_nat (length l).
Proof.
  intros []. unfold skynet_mq_length. rewrite repr_tail0, ring_mod by lia. zcases.
Qed.

Lemma expand_queue_full q l :
  1 <= cap q → Z.of_nat (length l) = cap q → cap q * 2 <= INT_MAX →
  Z.of_nat (length (queue q)) = cap q → 0 <= head q < cap q →
  MQ_OVERLOAD <= overload_threshold q →
  (∀ i m, l !! i = Some m →
    queue q !! Z.to_nat ((head q + Z.of_nat i) mod cap q) = Some (Some m)) →
  ∃ q', expand_queue q = Some q' ∧ mq_repr q' l ∧ in_global q' = in_global q ∧
    next q' = next q ∧ mq_handle q' = mq_handle q ∧ release q' = release q.
Proof.
  intros Hc Hl Hmax Hsz Hh Hth Hcells. unfold expand_queue.
  rewrite chk32_some by (unfold INT_MIN; lia). cbn [mbind option_bind].
  assert (mapM (λ i, arr_get (queue q) ((head q + i) mod cap q)) (seqZ 0 (cap q))
          = Some (Some <$> l)) as ->.
  { apply mapM_Some, Forall2_same_length_lookup. split.
    { rewrite length_seqZ, length_fmap. lia. }
    intros i x y Hx Hy. apply lookup_seqZ in Hx as [-> Hi].
    rewrite list_lookup_fmap in Hy. apply fmap_Some in Hy as (m & Hm & ->).
    rewrite arr_get_lookup by (apply ring_mod_range; lia).
    rewrite Z.add_0_l. auto. }
  simpl. eexists; split; [reflexivity|]. split; [|done].
  split; cbn [set_ring cap head tail queue overload_threshold]; try (lia || done).
  - rewrite length_app, length_fmap, length_replicate. lia.
  - rewrite Hl, Z.mod_small; lia.
  - intros i m Hm. pose proof (lookup_lt_Some _ _ _ Hm).
    rewrite Z.mod_small by lia. rewrite Z.add_0_l, Nat2Z.id.
    rewrite lookup_app_l by (rewrite length_fmap; lia).
    rewrite list_lookup_fmap, Hm. done.
Qed.

Lemma mq_enqueue_repr q l m :
  mq_repr q l → Z.of_nat (length l) < 2 ^ 30 - 1 →
  ∃ q', mq_enqueue q m = Some q' ∧ mq_repr q' (l ++ [m]) ∧ in_global q' = in_global q ∧
    next q' = next q ∧ mq_handle q' = mq_handle q ∧ release q' = release q.
Proof.
  intros Hr Hlen. pose proof Hr as [Hc Hsz Hh Hfit Ht Hth Hcells].
  unfold INT_MAX in *. pose proof (ring_mod_range (head q) (Z.of_nat (length l)) (cap q)).
  unfold mq_enqueue. rewrite arr_set_some by lia. cbn [mbind option_bind].
  rewrite chk32_some by (unfold INT_MIN, INT_MAX; lia). cbn [mbind option_bind].
  set (t' := if cap q <=? tail q + 1 then 0 else tail q + 1).
  assert (t' = (head q + Z.of_nat (length (l ++ [m]))) mod cap q) as Ht'.
  { unfold t'. rewrite Ht, length_app, !ring_mod by (simpl; lia). simpl. zcases. }
  assert (∀ i x, (l ++ [m]) !! i = Some x →
    (<[Z.to_nat (tail q) := Some m]> (queue q))
      !! Z.to_nat ((head q + Z.of_nat i) mod cap q) = Some (Some x)) as Hcells'.
  { intros i x Hx. pose proof (ring_mod_range (head q) (Z.of_nat i) (cap q)).
    destruct (decide (i = length l)) as [->|Hne].
    - rewrite list_lookup_middle in Hx by done. injection Hx as <-.
      rewrite <- Ht. apply list_lookup_insert_eq. lia.
    - apply lookup_app_Some in Hx as [Hx|[Hge Hx]].
      2: { apply lookup_lt_Some in Hx. simpl in Hx. lia. }
      pose proof (lookup_lt_Some _ _ _ Hx).
      rewrite list_lookup_insert_ne; [auto|].
      intros Heq. apply Z2Nat.inj in Heq; [|lia..].
      rewrite Ht in Heq. apply ring_mod_inj in Heq; lia. }
  cbn [head tail set_ring]. destruct (Z.eqb_spec (head q) t') as [He|He].
  - assert (Z.of_nat (length (l ++ [m])) = cap q).
    { rewrite length_app in *. simpl in *. rewrite Ht', ring_mod in He by lia.
      destruct (Z.ltb_spec (head q + Z.of_nat (length l + 1)) (cap q)); lia. }
    rewrite length_app in *; simpl in *.
    destruct (expand_queue_full
      (set_ring q (cap q) (head q) t' (<[Z.to_nat (tail q) := Some m]> (queue q)))
      (l ++ [m])) as (q' & -> & Hq'); simpl;
      rewrite ?length_insert, ?length_app; simpl; unfold INT_MAX; try lia; [done|].
    eauto.
  - eexists; split; [reflexivity|]. split; [|done].
    assert (Z.of_nat (length (l ++ [m])) ≠ cap q).
    { intros E. apply He. rewrite Ht', E, ring_mod by lia. zcases. }
    rewrite length_app in *; simpl in *.
    split; simpl; rewrite ?length_insert, ?length_app; simpl; unfold INT_MAX; try lia; done.
Qed.

Lemma overload_loop_spec f len ov th :
  1 <= th → len <= th * 2 ^ Z.of_nat f → len <= 2 ^ 30 →
  ∃ ov' th', overload_loop f len ov th = Some (ov', th') ∧ len <= th' ∧ th <= th' ∧
    ov' = (if len <=? th then ov else len) ∧ th' <= Z.max th (2 * len).
Proof.
  revert ov th. induction f as [|f IH]; intros ov th Hth Hlen Hmax; simpl.
  { rewrite Z.mul_1_r in Hlen. zcases. eauto 6 with lia. }
  destruct (Z.leb_spec len th) as [Hle|Hgt]; [eauto 6 with lia|].
  rewrite chk32_some by (unfold INT_MIN, INT_MAX; lia). cbn [mbind option_bind].
  rewrite Nat2Z.inj_succ, Z.pow_succ_r in Hlen by lia.
  destruct (IH len (th * 2)) as (ov' & th' & -> & ? & ? & -> & ?); [lia..|].
  do 2 eexists. split; [reflexivity|]. repeat split; try lia. destruct (_ <=? _); done.
Qed.

Lemma mq_pop_empty q :
  mq_repr q [] → ∃ q', skynet_mq_pop q = Some (None, q') ∧ mq_repr q' [] ∧ in_global q' = 0 ∧
    overload_threshold q' = MQ_OVERLOAD ∧ next q' = next q ∧
    mq_handle q' = mq_handle q ∧ release q' = release q ∧ cap q' = cap q.
Proof.
  intros Hr. unfold skynet_mq_pop. rewrite (mq_repr_empty _ _ Hr). simpl.
  eexists; split; [reflexivity|]. split; [|done].
  destruct Hr. split; simpl; auto; lia.
Qed.

Lemma mq_pop_cons q m l :
  mq_repr q (m :: l) → Z.of_nat (length l) <= 2 ^ 30 →
  ∃ q', skynet_mq_pop q = Some (Some m, q') ∧ mq_repr q' l ∧
    Z.of_nat (length l) <= overload_threshold q' ∧
    overload q' = (if Z.of_nat (length l) <=? overload_threshold q
                   then overload q else Z.of_nat (length l)) ∧
    in_global q' = in_global q ∧ next q' = next q ∧
    mq_handle q' = mq_handle q ∧ release q' = release q ∧ cap q' = cap q.
Proof.
  intros Hr Hmax. unfold skynet_mq_pop.
  replace (head q =? tail q) with false by (rewrite (mq_repr_empty _ _ Hr); done).
  destruct Hr as [Hc Hsz Hh Hfit Ht Hth Hcells]. unfold INT_MAX, MQ_OVERLOAD in *. cbn [length] in *.
  rewrite arr_get_lookup by lia.
  specialize (Hcells 0%nat m eq_refl) as H0. rewrite Z.add_0_r, Z.mod_small in H0 by lia.
  rewrite H0. cbn [mbind option_bind]. rewrite chk32_some by (unfold INT_MIN, INT_MAX; lia).
  cbn [mbind option_bind].
  set (hd := if cap q <=? head q + 1 then 0 else head q + 1).
  assert (tail q = (hd + Z.of_nat (length l)) mod cap q) as Ht'.
  { unfold hd. rewrite ring_mod_succ by lia. rewrite Ht. f_equal. lia. }
  assert (0 <= hd < cap q) as Hhd by (unfold hd; zcases).
  assert ((if tail q - hd <? 0 then tail q - hd + cap q else tail q - hd)
          = Z.of_nat (length l)) as ->.
  { rewrite Ht', ring_mod by lia. zcases. }
  destruct (overload_loop_spec 32 (Z.of_nat (length l)) (overload q) (overload_threshold q))
    as (ov & th & -> & ? & ? & -> & ?); [lia | | lia |].
  { change (2 ^ Z.of_nat 32) with 4294967296. lia. }
  simpl. eexists; split; [reflexivity|]. split; [|done].
  split; simpl; unfold INT_MAX, MQ_OVERLOAD; auto; try lia.
  intros i x Hx. unfold hd. rewrite ring_mod_succ by lia.
  replace (Z.of_nat i + 1) with (Z.of_nat (S i)) by lia. apply Hcells. exact Hx.
Qed.

Lemma mq_exec_repr ops : ∀ q l,
  mq_repr q l → Z.of_nat (length l) + Z.of_nat (length ops) < 2 ^ 30 →
  ∃ q', mq_exec ops q = Some ((fifo_exec ops l).1, q') ∧ mq_repr q' (fifo_exec ops l).2.
Proof.
  induction ops as [|[m|] ops IH]; intros q l Hr Hlen; cbn [length] in Hlen; simpl.
  - eauto.
  - destruct (mq_enqueue_repr q l m Hr) as (q' & -> & Hr' & _); [lia|].
    apply IH; [done|]. rewrite length_app. simpl. lia.
  - destruct l as [|m l].
    + destruct (mq_pop_empty q Hr) as (q' & -> & Hr' & _). simpl.
      destruct (IH q' [] Hr') as (q'' & -> & ?); [simpl; lia|].
      simpl. destruct (fifo_exec ops []); eauto.
    + cbn [length] in Hlen. destruct (mq_pop_cons q m l Hr) as (q' & -> & Hr' & _); [lia|].
      simpl. destruct (IH q' l Hr') as (q'' & -> & ?); [lia|].
      simpl. destruct (fifo_exec ops l); eauto.
Qed.

Lemma drop_loop_repr f q l :
  mq_repr q l → (length l < f)%nat → Z.of_nat (length l) <= 2 ^ 30 →
  ∃ q', drop_loop f q = Some (l, q') ∧ mq_repr q' [] ∧ next q' = next q.
Proof.
  revert q l. induction f as [|f IH]; intros q l Hr Hf Hmax; [lia|]. simpl.
  destruct l as [|m l]; simpl in Hf, Hmax.
  - destruct (mq_pop_empty q Hr) as (q' & -> & Hr' & _ & _ & Hn & _). simpl. eauto.
  - destruct (mq_pop_cons q m l Hr) as (q' & -> & Hr' & _ & _ & _ & Hn & _); [lia|].
    simpl. destruct (IH q' l Hr') as (q'' & -> & ? & Hn'); [lia..|].
    simpl. eexists; split; [done|]. split; [done|]. congruence.
Qed.

(** ** Specification of the global queue: the list of the queues in it *)

(** [chain h p l]: following [next] from [p] visits the queues [l]. *)
Fixpoint chain (h : gmap mqid message_queue) (p : option mqid) (l : list mqid) : Prop :=
  match l with
  | [] => p = None
  | x :: l' => p = Some x ∧ ∃ q, h !! x = Some q ∧ chain h (next q) l'
  end.

Record gq_repr (s : mq_state) (l : list mqid) : Prop := mk_gq_repr {
  gq_nodup : NoDup l;
  gq_last : gq_tail (Q s) = last l;
  gq_chain : chain (mq_heap s) (gq_head (Q s)) l;
  gq_out : ∀ p q, mq_heap s !! p = Some q → p ∉ l → next q = None
}.

(** What the queues hold, their links aside. *)
Definition mq_data (s : mq_state) : gmap mqid message_queue :=
  (λ q, set_next q None) <$> mq_heap s.

Lemma chain_dom h p l x : chain h p l → x ∈ l → is_Some (h !! x).
Proof.
  revert p. induction l as [|y l IH]; intros p; simpl; [set_solver|].
  intros (-> & q & Hq & Hc) [->|Hx]%elem_of_cons; [eauto|]. eapply IH; eauto.
Qed.

Lemma chain_insert h p l x q : x ∉ l → chain h p l → chain (<[x := q]> h) p l.
Proof.
  revert p. induction l as [|y l IH]; intros p Hx; simpl; [done|].
  intros (-> & q' & Hq & Hc). split; [done|]. exists q'.
  rewrite lookup_insert_ne by set_solver. split; [done|]. apply IH; set_solver.
Qed.

Lemma chain_snoc h hd l t p qt q :
  NoDup (l ++ [t]) → chain h hd (l ++ [t]) → h !! t = Some qt →
  p ∉ l ++ [t] → h !! p = Some q → next q = None →
  chain (<[t := set_next qt (Some p)]> h) hd (l ++ [t; p]).
Proof.
  revert hd. induction l as [|x l IH]; intros hd Hnd Hc Ht Hp Hq Hn; simpl in *.
  - destruct Hc as (-> & q' & Hq' & _). split; [done|].
    exists (set_next qt (Some p)). split; [apply lookup_insert_eq|]. split; [done|].
    exists q. rewrite lookup_insert_ne by set_solver. done.
  - destruct Hc as (-> & q' & Hq' & Hc). apply NoDup_cons in Hnd as [Hx Hnd].
    split; [done|]. exists q'. rewrite lookup_insert_ne by set_solver.
    split; [done|]. apply IH; auto. set_solver.
Qed.

Lemma mq_data_insert h g p q n :
  h !! p = Some q → mq_data (mk_mqs (<[p := set_next q n]> h) g) = mq_data (mk_mqs h g).
Proof.
  intros Hq. unfold mq_data. simpl. rewrite fmap_insert. simpl.
  apply insert_id. rewrite lookup_fmap, Hq. done.
Qed.

Lemma globalmq_push_repr s l p :
  gq_repr s l → is_Some (mq_heap s !! p) → p ∉ l →
  ∃ s', skynet_globalmq_push p s = Some s' ∧ gq_repr s' (l ++ [p]) ∧ mq_data s' = mq_data s.
Proof.
  intros [Hnd Hlast Hch Hout] [q Hq] Hp. unfold skynet_globalmq_push.
  rewrite Hq. cbn [mbind option_bind].
  rewrite bool_decide_true by eauto. cbn [c_assert mbind option_bind].
  assert (NoDup (l ++ [p])).
  { apply NoDup_app. repeat split; auto using NoDup_singleton. set_solver. }
  destruct l as [|t l _] using rev_ind.
  - rewrite Hlast. eexists; split; [done|]. split; [|done].
    split; simpl; eauto. intros. eapply Hout; set_solver.
  - rewrite last_snoc in Hlast. rewrite Hlast.
    destruct (chain_dom _ _ _ t Hch) as [qt Ht]; [set_solver|]. rewrite Ht.
    cbn [mbind option_bind]. eexists; split; [done|].
    split; [|by apply mq_data_insert]. rewrite <- app_assoc in *.
    split; simpl; auto.
    + rewrite last_app. done.
    + eapply chain_snoc; eauto.
    + intros p' q' Hq' Hn. rewrite lookup_insert_ne in Hq' by set_solver.
      eapply Hout; [done|set_solver].
Qed.

Lemma globalmq_pop_repr s l :
  gq_repr s l →
  ∃ s', skynet_globalmq_pop s = Some (List.hd_error l, s') ∧ gq_repr s' (List.tl l) ∧
    mq_data s' = mq_data s.
Proof.
  intros [Hnd Hlast Hch Hout]. unfold skynet_globalmq_pop. destruct l as [|x l].
  { simpl in *. rewrite Hch. eexists; split; [done|]. split; [|done]. split; auto. }
  destruct Hch as (-> & q & Hq & Hch). rewrite Hq. cbn [mbind option_bind].
  apply NoDup_cons in Hnd as [Hx Hnd]. exists (mk_mqs (<[x := set_next q None]> (mq_heap s))
    (mk_gq (next q) (last l))).
  split.
  { destruct l as [|y l].
    - simpl in Hch. rewrite Hch, Hlast. simpl. rewrite bool_decide_true by done. done.
    - destruct Hch as (-> & _). rewrite Hlast. done. }
  split; [|by apply mq_data_insert].
  split; simpl; auto using chain_insert.
  intros p' q' Hq' Hn. destruct (decide (p' = x)) as [->|].
  - rewrite lookup_insert_eq in Hq'. by injection Hq' as <-.
  - rewrite lookup_insert_ne in Hq' by done. eapply Hout; set_solver.
Qed.

(** ** The operations on the whole state *)

Lemma mq_repr_set_next q n l : mq_repr q l → mq_repr (set_next q n) l.
Proof. intros []; split; done. Qed.

Lemma mq_repr_set_in_global q g l : mq_repr q l → mq_repr (set_in_global q g) l.
Proof. intros []; split; done. Qed.

Lemma mq_repr_set_release q r l : mq_repr q l → mq_repr (set_release q r) l.
Proof. intros []; split; done. Qed.

#[export] Hint Resolve mq_repr_set_next mq_repr_set_in_global mq_repr_set_release : machine.

Lemma chain_put h hd l p q q' :
  h !! p = Some q → next q' = next q → chain h hd l → chain (<[p := q']> h) hd l.
Proof.
  intros Hp Hn. revert hd. induction l as [|x l IH]; intros hd; simpl; [done|].
  intros (-> & qx & Hx & Hc). split; [done|]. destruct (decide (p = x)) as [->|].
  - exists q'. rewrite lookup_insert_eq, Hn. simplify_eq. auto.
  - exists qx. rewrite lookup_insert_ne by done. auto.
Qed.

Lemma gq_repr_put s l p q q' :
  gq_repr s l → mq_heap s !! p = Some q → next q' = next q → gq_repr (put_mq s p q') l.
Proof.
  intros [] Hp Hn. split; simpl; eauto using chain_put.
  intros p' q'' Hq Hni. destruct (decide (p = p')) as [->|].
  - rewrite lookup_insert_eq in Hq. simplify_eq. rewrite Hn. eauto.
  - rewrite lookup_insert_ne in Hq by done. eauto.
Qed.

Lemma mq_data_lookup s p q : mq_heap s !! p = Some q → mq_data s !! p = Some (set_next q None).
Proof. intros H. unfold mq_data. rewrite lookup_fmap, H. done. Qed.

Lemma mq_data_inv s p q :
  mq_data s !! p = Some q → ∃ q0, mq_heap s !! p = Some q0 ∧ q = set_next q0 None.
Proof.
  unfold mq_data. rewrite lookup_fmap. destruct (mq_heap s !! p) as [q0|]; simpl; [|done].
  intros H. exists q0. split; congruence.
Qed.

Lemma mq_data_put s p q : mq_data (put_mq s p q) = <[p := set_next q None]> (mq_data s).
Proof. unfold mq_data, put_mq. simpl. rewrite fmap_insert. done. Qed.

(** [skynet_mq_push] appends the message and, when the queue was not in the
    global queue, appends the queue there. *)
Lemma mq_push_state s l p q ms m :
  gq_repr s l → mq_heap s !! p = Some q → mq_repr q ms →
  Z.of_nat (length ms) < 2 ^ 30 - 1 → (in_global q = 0 → p ∉ l) →
  ∃ s' q', skynet_mq_push p m s = Some s' ∧
    gq_repr s' (if in_global q =? 0 then l ++ [p] else l) ∧
    mq_data s' = <[p := q']> (mq_data s) ∧ mq_repr q' (ms ++ [m]) ∧
    in_global q' = (if in_global q =? 0 then MQ_IN_GLOBAL else in_global q) ∧
    release q' = release q ∧ mq_handle q' = mq_handle q.
Proof.
  intros Hg Hq Hr Hlen Hin. unfold skynet_mq_push. rewrite Hq. cbn [mbind option_bind].
  destruct (mq_enqueue_repr q ms m Hr Hlen) as (q1 & -> & Hr1 & Hg1 & Hn1 & Hh1 & Hrel1).
  cbn [mbind option_bind]. rewrite Hg1. destruct (Z.eqb_spec (in_global q) 0) as [E|E].
  - destruct (globalmq_push_repr (put_mq s p (set_in_global q1 MQ_IN_GLOBAL)) l p)
      as (s' & -> & Hg' & Hd').
    { eapply gq_repr_put; eauto. }
    { simpl. rewrite lookup_insert_eq. eauto. }
    { auto. }
    exists s', (set_next (set_in_global q1 MQ_IN_GLOBAL) None).
    rewrite Hd', mq_data_put. split_and!; auto with machine.
  - exists (put_mq s p q1), (set_next q1 None). rewrite mq_data_put.
    split_and!; auto with machine. eapply gq_repr_put; eauto.
Qed.

(** [skynet_mq_mark_release] flags the queue and makes sure a worker will
    find it in the global queue. *)
Lemma mq_mark_release_state s l p q :
  gq_repr s l → mq_heap s !! p = Some q → release q = 0 →
  (in_global q ≠ MQ_IN_GLOBAL → p ∉ l) →
  ∃ s', skynet_mq_mark_release p s = Some s' ∧
    gq_repr s' (if in_global q =? MQ_IN_GLOBAL then l else l ++ [p]) ∧
    mq_data s' = <[p := set_next (set_release q 1) None]> (mq_data s).
Proof.
  intros Hg Hq Hrel Hin. unfold skynet_mq_mark_release. rewrite Hq. cbn [mbind option_bind].
  rewrite Hrel. cbn [c_assert Z.eqb mbind option_bind].
  assert (gq_repr (put_mq s p (set_release q 1)) l) by (eapply gq_repr_put; eauto).
  destruct (Z.eqb_spec (in_global q) MQ_IN_GLOBAL) as [E|E].
  - eexists. rewrite mq_data_put. eauto.
  - destruct (globalmq_push_repr (put_mq s p (set_release q 1)) l p) as (s' & -> & ? & Hd); auto.
    { simpl. rewrite lookup_insert_eq. eauto. }
    rewrite mq_data_put in Hd. eauto.
Qed.

(** [skynet_mq_release] on a queue no longer in the global queue: it is put
    back unless it is flagged, in which case every message goes to the drop
    function, oldest first, and the memory is returned. *)
Lemma mq_release_state s l p q ms :
  gq_repr s l → mq_heap s !! p = Some q → mq_repr q ms →
  Z.of_nat (length ms) <= 2 ^ 30 → p ∉ l →
  ∃ s', skynet_mq_release p s = Some (if release q =? 0 then [] else ms, s') ∧
    gq_repr s' (if release q =? 0 then l ++ [p] else l) ∧
    mq_data s' = (if release q =? 0 then mq_data s else delete p (mq_data s)).
Proof.
  intros Hg Hq Hr Hmax Hp. unfold skynet_mq_release. rewrite Hq. cbn [mbind option_bind].
  destruct (release q =? 0).
  { destruct (globalmq_push_repr s l p) as (s' & -> & ? & ?); eauto. }
  unfold _drop_queue. rewrite Hq. cbn [mbind option_bind].
  destruct (drop_loop_repr (S (Z.to_nat (cap q))) q ms Hr) as (q' & -> & Hr' & Hn); auto.
  { destruct Hr. lia. }
  cbn [mbind option_bind]. unfold _release. simpl. rewrite lookup_insert_eq.
  cbn [mbind option_bind]. pose proof (gq_out _ _ Hg p q Hq Hp) as Hnx.
  rewrite bool_decide_true by congruence. cbn [c_assert mbind option_bind].
  eexists; split; [done|]. rewrite delete_insert_eq. split.
  - destruct Hg. split; simpl; auto.
    + clear -gq_chain0 Hp. revert gq_chain0. generalize (gq_head (Q s)).
      induction l as [|x l IH]; intros o; simpl; [done|].
      intros (-> & qx & Hx & Hc). split; [done|]. exists qx.
      rewrite lookup_delete_ne by set_solver. split; [done|]. apply IH; set_solver.
    + intros p' q'' Hq''. apply lookup_delete_Some in Hq'' as [??]. eauto.
  - unfold mq_data. simpl. rewrite fmap_delete. done.
Qed.

(** A ring buffer represents one list only. *)
Lemma mq_repr_inj q l1 l2 : mq_repr q l1 → mq_repr q l2 → l1 = l2.
Proof.
  intros H1 H2. pose proof (mq_length_repr _ _ H1) as E1. rewrite (mq_length_repr _ _ H2) in E1.
  apply list_eq_same_length with (length l1); [lia|lia|].
  intros i x y Hi Hx Hy. destruct H1, H2.
  apply repr_cells0 in Hx. apply repr_cells1 in Hy. congruence.
Qed.

(** ** Properties *)

(** C1. A service's message queue is a FIFO: for every sequence of pushes and
    pops on a freshly created queue, the ring buffer (with its wrap-around,
    its growth and its overload bookkeeping) never reads an unwritten cell,
    never overflows an [int], answers every pop as a FIFO list does, and ends
    holding exactly the messages of the list.  The bound is the size at which
    [int cap] could no longer be doubled. *)
Theorem mq_fifo (h : Z) (ops : list mq_op) (Hops : Z.of_nat (length ops) < 2 ^ 30) :
  ∃ q', mq_exec ops (mq_new h) = Some ((fifo_exec ops []).1, q') ∧
    mq_repr q' (fifo_exec ops []).2 ∧
    skynet_mq_length q' = Z.of_nat (length (fifo_exec ops []).2).
Proof.
  destruct (mq_exec_repr ops (mq_new h) [] (mq_new_repr h)) as (q' & H1 & H2); [simpl; lia|].
  eauto using mq_length_repr.
Qed.

Definition example_message (n : Z) : skynet_message := mk_message 1 n 0 (2 ^ 56).

Lemma mq_fifo_witness :
  ∃ q', mq_exec [OpPush (example_message 1); OpPush (example_message 2); OpPop; OpPop; OpPop] (mq_new 9)
        = Some ([Some (example_message 1); Some (example_message 2); None], q')
    ∧ skynet_mq_length q' = 0.
Proof.
  destruct (mq_fifo 9 [OpPush (example_message 1); OpPush (example_message 2); OpPop; OpPop; OpPop])
    as (q' & H1 & _ & H2); [reflexivity|].
  exists q'. split; [exact H1|exact H2].
Defined.

(** The global queue is a FIFO of message queues: on a well-formed linked
    list, popping takes the oldest queue (and fails only when there is none),
    pushing a queue that is not linked appends it, the assertions of the code
    hold, and neither touches what the queues contain. *)
Theorem globalmq_fifo (s : mq_state) (l : list mqid) (Hs : gq_repr s l) :
  (∃ s', skynet_globalmq_pop s = Some (List.hd_error l, s') ∧ gq_repr s' (List.tl l) ∧
     mq_data s' = mq_data s) ∧
  (∀ p, is_Some (mq_heap s !! p) → p ∉ l →
     ∃ s', skynet_globalmq_push p s = Some s' ∧ gq_repr s' (l ++ [p]) ∧ mq_data s' = mq_data s).
Proof. split; [by apply globalmq_pop_repr|intros; by apply globalmq_push_repr]. Qed.

Lemma globalmq_fifo_witness :
  ∃ s', skynet_globalmq_push 1 (skynet_mq_create 7 skynet_mq_init).2 = Some s' ∧ gq_repr s' [1%positive].
Proof.
  assert (gq_repr (skynet_mq_create 7 skynet_mq_init).2 []) as H0.
  { split; [constructor|reflexivity|reflexivity|].
    intros p q Hq _. simpl in Hq. apply lookup_insert_Some in Hq as [[_ <-]|[_ Hq]]; [reflexivity|].
    rewrite lookup_empty in Hq. discriminate. }
  destruct (globalmq_fifo _ [] H0) as [_ H].
  destruct (H 1%positive) as (s' & H1 & H2 & _); [eexists; reflexivity|apply not_elem_of_nil|].
  exists s'. split; [exact H1|exact H2].
Defined.
