(* ===== verification/Scheduler.v ===== *)
(** * The worker threads and the ownership of message queues

    Every worker thread runs [skynet_context_message_dispatch]
    (skynet-src/skynet_server.c) in the loop of [thread_worker]
    (skynet-src/skynet_start.c).  The threads run concurrently and only
    synchronise through the locks of skynet_mq.c, so the model is a step
    relation: a worker is its program point in the dispatch function, a step
    is one critical section, and senders, service creation and service exit
    are steps of the environment.  A step whose operation aborts (a failed
    assertion, a read of unwritten memory) leads to [Crash].

    The invariant of the protocol is that every queue with work has exactly
    one owner: the global queue, one worker, or the thread launching its
    service. *)

From Stdlib Require Import ZArith Lia.
From stdpp Require Import base tactics option numbers gmap list.
From S2P Require Import Prelude MessageQueue.

(** ** The program points of [skynet_context_message_dispatch] *)

Inductive wstate :=
  | WEnter (q : option mqid)        (** on entry, with the argument [q] *)
  | WLookup (q : mqid)              (** before [skynet_handle_grab(handle)] *)
  | WRelease (q : mqid)             (** no context: before [skynet_mq_release] *)
  | WPopNext                        (** before [return skynet_globalmq_pop()] *)
  | WLoop (q : mqid) (i n : Z)      (** head of the [for] loop *)
  | WSwap (q : mqid)                (** before [nq = skynet_globalmq_pop()] *)
  | WPushBack (q nq : mqid).        (** before [skynet_globalmq_push(q)] *)

(** One step of a worker of the given weight; [live] is what
    [skynet_handle_grab] finds. *)
Definition worker_step (weight : Z) (live : bool) (w : wstate) (s : mq_state)
    : option (wstate * mq_state) :=
  match w with
  | WEnter None =>
      '(r, s') ← skynet_globalmq_pop s;
      Some (match r with None => WEnter None | Some q => WLookup q end, s')
  | WEnter (Some q) => Some (WLookup q, s)
  | WLookup q => Some (if live then WLoop q 0 1 else WRelease q, s)
  | WRelease q => '(_, s') ← skynet_mq_release q s; Some (WPopNext, s')
  | WPopNext => '(r, s') ← skynet_globalmq_pop s; Some (WEnter r, s')
  | WLoop q i n =>
      if n <=? i then Some (WSwap q, s)
      else
        mq ← mq_heap s !! q;
        '(r, mq1) ← skynet_mq_pop mq;
        match r with
        | None => Some (WPopNext, put_mq s q mq1)
        | Some _ =>
            let n' := if (i =? 0) && (0 <=? weight)
                      then Z.shiftr (skynet_mq_length mq1) weight else n in
            let mq2 := (skynet_mq_overload mq1).2 in
            Some (WLoop q (i + 1) n', put_mq s q mq2)
        end
  | WSwap q =>
      '(r, s') ← skynet_globalmq_pop s;
      Some (match r with None => WEnter (Some q) | Some nq => WPushBack q nq end, s')
  | WPushBack q nq => s' ← skynet_globalmq_push q s; Some (WEnter (Some nq), s')
  end.

(** ** The system *)

(** [launching] are the queues made by [skynet_context_new] and not yet
    handed to the global queue. *)
Record sched := mk_sched {
  mqs : mq_state;
  workers : list wstate;
  launching : list mqid
}.

Inductive config := Run (s : sched) | Crash.

(** The queue whose context the worker holds a reference to. *)
Definition active (w : wstate) : option mqid :=
  match w with
  | WLoop q _ _ | WSwap q | WPushBack q _ => Some q
  | _ => None
  end.

(** The queues the worker has taken out of the global queue. *)
Definition held (w : wstate) : list mqid :=
  match w with
  | WEnter (Some q) | WLookup q | WRelease q | WLoop q _ _ | WSwap q => [q]
  | WPushBack q nq => [q; nq]
  | WEnter None | WPopNext => []
  end.

(** The outcome of an operation on the message queues. *)
Definition outcome (f : mq_state → sched) (r : option mq_state) : config :=
  match r with Some ms => Run (f ms) | None => Crash end.

(** A reference to the context keeps the queue unreleased. *)
Definition unreleased (ms : mq_state) (p : mqid) : Prop :=
  ∃ q, mq_data ms !! p = Some q ∧ release q = 0.

Inductive step : config → config → Prop :=
  | step_worker s k w weight live :
      workers s !! k = Some w →
      (∀ p, live = true → w = WLookup p → unreleased (mqs s) p) →
      step (Run s)
        (match worker_step weight live w (mqs s) with
         | Some (w', ms) => Run (mk_sched ms (<[k := w']> (workers s)) (launching s))
         | None => Crash
         end)
  | step_send s p m q ms :
      (* skynet_context_push, while the sender holds the context *)
      mq_data (mqs s) !! p = Some q → release q = 0 →
      mq_repr q ms → Z.of_nat (length ms) < 2 ^ 30 - 1 →
      step (Run s)
        (outcome (λ ms, mk_sched ms (workers s) (launching s)) (skynet_mq_push p m (mqs s)))
  | step_create s h :
      (* skynet_context_new: skynet_mq_create *)
      step (Run s)
        (let '(p, ms) := skynet_mq_create h (mqs s) in
         Run (mk_sched ms (workers s) (p :: launching s)))
  | step_launch s p rest :
      (* skynet_context_new: the init function succeeded *)
      launching s ≡ₚ p :: rest →
      step (Run s)
        (outcome (λ ms, mk_sched ms (workers s) rest) (skynet_globalmq_push p (mqs s)))
  | step_launch_failed s p rest :
      (* skynet_context_new: the init function failed *)
      launching s ≡ₚ p :: rest →
      step (Run s)
        (outcome (λ ms, mk_sched ms (workers s) rest) (snd <$> skynet_mq_release p (mqs s)))
  | step_mark_release s p :
      (* delete_context, when the last reference is dropped *)
      unreleased (mqs s) p →
      (∀ k w, workers s !! k = Some w → active w ≠ Some p) →
      step (Run s)
        (outcome (λ ms, mk_sched ms (workers s) (launching s)) (skynet_mq_mark_release p (mqs s))).

(** [skynet_start]: no queue yet, every worker about to call dispatch with [NULL]. *)
Definition sched_init (n : nat) : sched :=
  mk_sched skynet_mq_init (replicate n (WEnter None)) [].

(** ** The ownership invariant *)

(** [O] is the list of owned queues. *)
Definition queue_inv (O : list mqid) (p : mqid) (q : message_queue) : Prop :=
  ∃ ms, mq_repr q ms ∧ Z.of_nat (length ms) <= 2 ^ 30 - 1 ∧
    (release q = 0 ∨ release q = 1) ∧
    ((in_global q = MQ_IN_GLOBAL ∧ p ∈ O) ∨
     (in_global q = 0 ∧ release q = 0 ∧ p ∉ O ∧ ms = []) ∨
     (in_global q = 0 ∧ release q = 1 ∧ p ∈ O)).

Record wf_mqs (ms : mq_state) (l O : list mqid) : Prop := mk_wf {
  wf_gq : gq_repr ms l;
  wf_nodup : NoDup O;
  wf_dom : ∀ p, p ∈ O → is_Some (mq_data ms !! p);
  wf_queue : ∀ p q, mq_data ms !! p = Some q → queue_inv O p q
}.

Definition active_ok (ms : mq_state) (w : wstate) : Prop :=
  ∀ p, active w = Some p → unreleased ms p.

Definition owners (s : sched) (l : list mqid) : list mqid :=
  l ++ concat (held <$> workers s) ++ launching s.

Definition sched_inv (c : config) : Prop :=
  match c with
  | Crash => False
  | Run s => ∃ l, wf_mqs (mqs s) l (owners s l) ∧
      ∀ k w, workers s !! k = Some w → active_ok (mqs s) w
  end.

Lemma queue_inv_perm O O' p q : O ≡ₚ O' → queue_inv O p q → queue_inv O' p q.
Proof.
  intros HO (ms & ? & ? & ? & H). exists ms. rewrite <- HO. auto.
Qed.

Lemma wf_mqs_perm ms l O O' : O ≡ₚ O' → wf_mqs ms l O → wf_mqs ms l O'.
Proof.
  intros HO []. split; auto.
  - by rewrite <- HO.
  - intros p. rewrite <- HO. auto.
  - eauto using queue_inv_perm.
Qed.

(** Operations that change links only. *)
Lemma wf_mqs_data ms l O ms' l' :
  wf_mqs ms l O → gq_repr ms' l' → mq_data ms' = mq_data ms → wf_mqs ms' l' O.
Proof. intros [] ? Hd. split; rewrite ?Hd; auto. Qed.

Lemma heap_of_data ms p q :
  mq_data ms !! p = Some q → ∃ q0, mq_heap ms !! p = Some q0 ∧ q = set_next q0 None.
Proof. apply mq_data_inv. Qed.

Lemma is_Some_heap ms p : is_Some (mq_data ms !! p) → is_Some (mq_heap ms !! p).
Proof. intros [q Hq]. apply heap_of_data in Hq as (q0 & ? & _). eauto. Qed.

Lemma mq_repr_unset_next q n l : mq_repr (set_next q n) l → mq_repr q l.
Proof. intros []; split; done. Qed.

Lemma queue_inv_mem O O' p q : (p ∈ O ↔ p ∈ O') → queue_inv O p q → queue_inv O' p q.
Proof. intros HO (ms & ? & ? & ? & H). exists ms. rewrite <- HO. auto. Qed.

Lemma queue_inv_unset O p q n : queue_inv O p (set_next q n) → queue_inv O p q.
Proof.
  intros (ms & Hr & H). exists ms. split; [by eapply mq_repr_unset_next|exact H].
Qed.

(** Operations that change one queue. *)
Lemma wf_mqs_insert ms l O ms' l' O' p q' :
  wf_mqs ms l O → gq_repr ms' l' → mq_data ms' = <[p := q']> (mq_data ms) → NoDup O' →
  (∀ x, x ≠ p → x ∈ O ↔ x ∈ O') → queue_inv O' p q' → wf_mqs ms' l' O'.
Proof.
  intros [] Hg Hd Hnd Hmem Hq. split; auto; rewrite Hd.
  - intros x Hx. destruct (decide (x = p)) as [->|].
    + rewrite lookup_insert_eq. eauto.
    + rewrite lookup_insert_ne by done. apply wf_dom0, Hmem; done.
  - intros x qx. destruct (decide (x = p)) as [->|].
    + rewrite lookup_insert_eq. intros [= <-]. done.
    + rewrite lookup_insert_ne by done. intros ?. apply (queue_inv_mem O); auto.
Qed.

(** Operations that free one queue. *)
Lemma wf_mqs_delete ms l O ms' l' O' p :
  wf_mqs ms l O → gq_repr ms' l' → mq_data ms' = delete p (mq_data ms) → NoDup O' →
  p ∉ O' → (∀ x, x ≠ p → x ∈ O ↔ x ∈ O') → wf_mqs ms' l' O'.
Proof.
  intros [] Hg Hd Hnd Hp Hmem. split; auto; rewrite Hd.
  - intros x Hx. rewrite lookup_delete_ne by congruence. apply wf_dom0, Hmem; [congruence|done].
  - intros x qx [??]%lookup_delete_Some. apply (queue_inv_mem O); auto.
Qed.

(** *** The operations used by the workers preserve the invariant *)

(** Taking a queue out of the global queue moves its ownership. *)
Lemma pop_wf ms l R :
  wf_mqs ms l (l ++ R) →
  ∃ ms' l', skynet_globalmq_pop ms = Some (List.hd_error l, ms') ∧
    wf_mqs ms' l' (l' ++ option_list (List.hd_error l) ++ R) ∧ mq_data ms' = mq_data ms.
Proof.
  intros Hwf. destruct (globalmq_pop_repr ms l (wf_gq _ _ _ Hwf)) as (ms' & -> & Hg & Hd).
  exists ms', (List.tl l). split; [done|]. split; [|done].
  eapply wf_mqs_perm; [|eapply wf_mqs_data; eauto].
  destruct l as [|x l]; simpl; [done|]. by rewrite <- Permutation_middle.
Qed.

(** Putting an owned queue into the global queue moves its ownership. *)
Lemma push_wf ms l p R :
  wf_mqs ms l (l ++ p :: R) →
  ∃ ms', skynet_globalmq_push p ms = Some ms' ∧ wf_mqs ms' (l ++ [p]) ((l ++ [p]) ++ R) ∧
    mq_data ms' = mq_data ms.
Proof.
  intros Hwf. pose proof Hwf as [Hg Hnd Hdom _].
  destruct (globalmq_push_repr ms l p Hg) as (ms' & -> & Hg' & Hd).
  - apply is_Some_heap, Hdom. set_solver.
  - apply NoDup_app in Hnd as (_ & Hnd & _). set_solver.
  - exists ms'. split; [done|]. split; [|done]. rewrite <- app_assoc.
    by eapply wf_mqs_data.
Qed.

(** Releasing an owned queue frees it or puts it back. *)
Lemma release_wf ms l p R :
  wf_mqs ms l (l ++ p :: R) →
  ∃ d ms' l', skynet_mq_release p ms = Some (d, ms') ∧ wf_mqs ms' l' (l' ++ R) ∧
    (∀ x, x ∈ R → mq_data ms' !! x = mq_data ms !! x).
Proof.
  intros Hwf. pose proof Hwf as [Hg Hnd Hdom Hqs].
  destruct (Hdom p) as [q' Hq']; [set_solver|].
  destruct (Hqs p q' Hq') as (m & Hr & Hlen & Hrel & _).
  destruct (heap_of_data _ _ _ Hq') as (q & Hq & ->).
  apply NoDup_app in Hnd as (Hnl & Hdisj & [HpR HnR]%NoDup_cons).
  destruct (mq_release_state ms l p q m) as (ms' & -> & Hg' & Hd);
    [done|done|by eapply mq_repr_unset_next|lia|set_solver|].
  destruct (release q =? 0); do 3 eexists; (split; [done|]).
  - split; [|by rewrite Hd].
    eapply (wf_mqs_perm _ _ (l ++ p :: R)); [|by eapply wf_mqs_data].
    by rewrite <- app_assoc.
  - split.
    + eapply wf_mqs_delete; [done|done|done| |set_solver|set_solver].
      apply NoDup_app. split_and!; [done|set_solver|done].
    + intros x Hx. rewrite Hd. apply lookup_delete_ne. set_solver.
Qed.

(** What popping a message does to the queue's part of the invariant. *)
Lemma pop_message_inv O p q :
  queue_inv O p q → p ∈ O → release q = 0 →
  ∃ r q', skynet_mq_pop q = Some (r, q') ∧ next q' = next q ∧ release q' = 0 ∧
    match r with
    | None => ∀ O', p ∉ O' → queue_inv O' p (set_next q' None)
    | Some _ => queue_inv O p (set_next (skynet_mq_overload q').2 None) ∧
        next (skynet_mq_overload q').2 = next q ∧ release (skynet_mq_overload q').2 = 0
    end.
Proof.
  intros (ms & Hr & Hlen & _ & Hst) Hp Hrel. destruct ms as [|m ms].
  - destruct (mq_pop_empty q Hr) as (q' & -> & Hr' & Hg & _ & Hn & _ & Hrel' & _).
    do 2 eexists. split; [done|]. split; [done|]. split; [congruence|].
    intros O' Hp'. exists []. split; [auto with machine|]. split; [simpl; lia|].
    split; [left; simpl; congruence|]. right; left. simpl. split_and!; auto; congruence.
  - simpl in Hlen. destruct (mq_pop_cons q m ms Hr) as (q' & -> & Hr' & _ & _ & Hg & Hn & _ & Hrel' & _);
      [lia|].
    do 2 eexists. split; [done|]. split; [done|]. split; [congruence|].
    unfold skynet_mq_overload. destruct (overload q' =? 0); cbn [snd];
      (split; [|simpl; split; congruence]).
    all: exists ms; split; [|split; [lia|]]; [destruct Hr'; split; done|].
    all: split; [left; simpl; congruence|].
    all: left; simpl; split; [|done].
    all: destruct Hst as [[? _]|[(_ & _ & ? & _)|(_ & ? & _)]]; congruence.
Qed.

(** *** One step of a worker *)

(** What a step of a worker that owns [held w], beside the owners [R], has to
    establish. *)
Definition step_ok (ms : mq_state) (R : list mqid) (r : option (wstate * mq_state)) : Prop :=
  ∃ w' ms' l', r = Some (w', ms') ∧ wf_mqs ms' l' (l' ++ held w' ++ R) ∧
    active_ok ms' w' ∧ (∀ x, x ∈ R → mq_data ms' !! x = mq_data ms !! x).

Lemma active_ok_data ms ms' w : mq_data ms' = mq_data ms → active_ok ms w → active_ok ms' w.
Proof. intros Hd H p Hp. unfold unreleased. rewrite Hd. exact (H p Hp). Qed.

Lemma active_ok_none ms w : active w = None → active_ok ms w.
Proof. intros H p Hp. congruence. Qed.

#[local] Hint Resolve active_ok_none : machine.

Lemma loop_step_ok weight live q i n ms l R :
  wf_mqs ms l (l ++ q :: R) → active_ok ms (WLoop q i n) →
  step_ok ms R (worker_step weight live (WLoop q i n) ms).
Proof.
  intros Hwf Hact. simpl. destruct (n <=? i).
  { exists (WSwap q), ms, l. split_and!; auto. }
  destruct (Hact q eq_refl) as (q' & Hq' & Hrel).
  destruct (heap_of_data _ _ _ Hq') as (mq & Hq & ->). rewrite Hq. cbn [mbind option_bind].
  pose proof Hwf as [Hg Hnd Hdom Hqs].
  destruct (pop_message_inv (l ++ q :: R) q mq) as (r & mq1 & -> & Hn & Hrel1 & Hr);
    [by eapply queue_inv_unset, Hqs|set_solver|done|].
  cbn [mbind option_bind].
  apply NoDup_app in Hnd as (Hnl & Hdisj & [HqR HnR]%NoDup_cons). destruct r as [m|].
  - destruct Hr as (Hqi & Hn2 & Hrel2).
    eexists _, _, l. split; [done|]. split_and!.
    + eapply wf_mqs_insert; [done| |apply mq_data_put| |done|].
      * eapply gq_repr_put; eauto.
      * apply NoDup_app. split_and!; [done..|]. by apply NoDup_cons.
      * done.
    + intros p [= <-]. eexists. rewrite mq_data_put, lookup_insert_eq. split; [done|]. done.
    + intros x Hx. rewrite mq_data_put. apply lookup_insert_ne. set_solver.
  - eexists _, _, l. split; [done|]. split_and!; auto with machine.
    + simpl. eapply wf_mqs_insert; [done| |apply mq_data_put| | |].
      * eapply gq_repr_put; eauto.
      * apply NoDup_app. split_and!; [done|set_solver|done].
      * set_solver.
      * apply Hr. set_solver.
    + intros x Hx. rewrite mq_data_put. apply lookup_insert_ne. set_solver.
Qed.

Lemma worker_step_ok weight live w ms l R :
  wf_mqs ms l (l ++ held w ++ R) → active_ok ms w →
  (∀ p, live = true → w = WLookup p → unreleased ms p) →
  step_ok ms R (worker_step weight live w ms).
Proof.
  intros Hwf Hact Hlive. destruct w as [[q|]|q|q| |q i n|q|q nq]; cbn [held app] in Hwf.
  - exists (WLookup q), ms, l. split_and!; auto with machine.
  - destruct (pop_wf ms l R Hwf) as (ms' & l' & Hp & Hwf' & Hd). simpl. rewrite Hp. simpl.
    exists (match List.hd_error l with None => WEnter None | Some q => WLookup q end), ms', l'.
    rewrite Hd. destruct (List.hd_error l); split_and!; auto with machine.
  - exists (if live then WLoop q 0 1 else WRelease q), ms, l.
    destruct live; split_and!; auto with machine. intros p [= <-]. auto.
  - destruct (release_wf ms l q R Hwf) as (d & ms' & l' & Hp & Hwf' & Hd). simpl. rewrite Hp. simpl.
    exists WPopNext, ms', l'. split_and!; auto with machine.
  - destruct (pop_wf ms l R Hwf) as (ms' & l' & Hp & Hwf' & Hd). simpl. rewrite Hp. simpl.
    exists (WEnter (List.hd_error l)), ms', l'.
    rewrite Hd. destruct (List.hd_error l); split_and!; auto with machine.
  - by eapply loop_step_ok.
  - destruct (pop_wf ms l (q :: R) Hwf) as (ms' & l' & Hp & Hwf' & Hd). simpl. rewrite Hp. simpl.
    exists (match List.hd_error l with None => WEnter (Some q) | Some nq => WPushBack q nq end), ms', l'.
    rewrite Hd. destruct (List.hd_error l) as [nq|]; split_and!; auto with machine.
    + simpl in *. eapply wf_mqs_perm; [|exact Hwf']. apply Permutation_app_head.
      apply perm_swap.
    + by eapply active_ok_data.
  - destruct (push_wf ms l q (nq :: R) Hwf) as (ms' & Hp & Hwf' & Hd). simpl. rewrite Hp. simpl.
    exists (WEnter (Some nq)), ms', (l ++ [q]). rewrite Hd. split_and!; auto with machine.
Qed.

(** *** The steps of the whole system *)

Lemma active_held w p : active w = Some p → p ∈ held w.
Proof. destruct w as [[]| | | | | |]; simpl; intros; simplify_eq; set_solver. Qed.

(** The owners beside worker [k]. *)
Lemma held_split (ws : list wstate) k w :
  ws !! k = Some w →
  ∃ rest, (∀ w', concat (held <$> <[k := w']> ws) ≡ₚ held w' ++ rest) ∧
    (∀ k' w', k' ≠ k → ws !! k' = Some w' → ∀ x, x ∈ held w' → x ∈ rest).
Proof.
  intros Hk. pose proof (lookup_lt_Some _ _ _ Hk) as Hlt.
  exists (concat (held <$> take k ws) ++ concat (held <$> drop (S k) ws)). split.
  - intros w'. rewrite insert_take_drop by done. rewrite fmap_app, concat_app. simpl.
    rewrite !app_assoc. apply Permutation_app_tail, Permutation_app_comm.
  - intros k' w' Hne Hk' x Hx. rewrite elem_of_app, !list_elem_of_In, !in_concat.
    assert (w' ∈ take k ws ∨ w' ∈ drop (S k) ws) as [H|H].
    { destruct (decide (k' < k)%nat).
      - left. apply list_elem_of_lookup. exists k'. by rewrite lookup_take_lt.
      - right. apply list_elem_of_lookup. exists (k' - S k)%nat.
        rewrite lookup_drop. by replace (S k + (k' - S k))%nat with k' by lia. }
    + left. exists (held w'). split; apply list_elem_of_In; [by apply list_elem_of_fmap_2|done].
    + right. exists (held w'). split; apply list_elem_of_In; [by apply list_elem_of_fmap_2|done].
Qed.

Lemma held_split_id (ws : list wstate) k w rest :
  ws !! k = Some w → (∀ w', concat (held <$> <[k := w']> ws) ≡ₚ held w' ++ rest) →
  concat (held <$> ws) ≡ₚ held w ++ rest.
Proof. intros Hk H. rewrite <- H, list_insert_id; done. Qed.

Lemma inv_worker s k w weight live :
  sched_inv (Run s) → workers s !! k = Some w →
  (∀ p, live = true → w = WLookup p → unreleased (mqs s) p) →
  sched_inv (match worker_step weight live w (mqs s) with
             | Some (w', ms) => Run (mk_sched ms (<[k := w']> (workers s)) (launching s))
             | None => Crash
             end).
Proof.
  intros (l & Hwf & Hact) Hk Hlive.
  destruct (held_split _ _ _ Hk) as (rest & Hs & Hothers).
  destruct (worker_step_ok weight live w (mqs s) l (rest ++ launching s))
    as (w' & ms' & l' & -> & Hwf' & Hact' & Hframe); eauto.
  { eapply wf_mqs_perm; [|exact Hwf]. unfold owners.
    rewrite (held_split_id _ _ _ _ Hk Hs). by rewrite <- app_assoc. }
  exists l'. split.
  - eapply wf_mqs_perm; [|exact Hwf']. unfold owners. simpl. rewrite Hs. by rewrite <- app_assoc.
  - simpl. intros k2 w2 Hk2. destruct (decide (k2 = k)) as [->|Hne].
    + rewrite list_lookup_insert_eq in Hk2 by (eapply lookup_lt_Some; eauto). by simplify_eq.
    + rewrite list_lookup_insert_ne in Hk2 by done. intros p Hp.
      destruct (Hact k2 w2 Hk2 p Hp) as (q & Hq & ?). exists q. split; [|done].
      rewrite Hframe; [done|]. apply elem_of_app. left.
      eapply Hothers; eauto using active_held.
Qed.

Lemma inv_send s p m q ms :
  sched_inv (Run s) → mq_data (mqs s) !! p = Some q → release q = 0 →
  mq_repr q ms → Z.of_nat (length ms) < 2 ^ 30 - 1 →
  sched_inv (outcome (λ ms, mk_sched ms (workers s) (launching s)) (skynet_mq_push p m (mqs s))).
Proof.
  intros (l & Hwf & Hact) Hq Hrel Hr Hlen. pose proof Hwf as [Hg Hnd Hdom Hqs].
  destruct (heap_of_data _ _ _ Hq) as (q0 & Hq0 & ->). simpl in Hrel.
  destruct (Hqs p _ Hq) as (ms' & _ & _ & _ & Hst). simpl in Hst.
  destruct (mq_push_state (mqs s) l p q0 ms m) as (s' & q' & -> & Hg' & Hd & Hr' & Hig & Hrel' & _);
    [done|done|by eapply mq_repr_unset_next|done| |].
  { intros E Hl. destruct Hst as [[? _]|[(_ & _ & H & _)|(_ & ? & _)]]; [|set_solver|].
    all: unfold MQ_IN_GLOBAL in *; lia. }
  simpl. exists (if in_global q0 =? 0 then l ++ [p] else l). split.
  - assert (p ∈ owners (mk_sched s' (workers s) (launching s))
              (if in_global q0 =? 0 then l ++ [p] else l)) as Hown.
    { unfold owners in *. simpl in *. destruct Hst as [[-> ?]|[(-> & _)|(_ & ? & _)]]; simpl; [done| |lia].
      set_solver. }
    eapply wf_mqs_insert; eauto.
    + unfold owners in *. simpl in *. destruct (Z.eqb_spec (in_global q0) 0) as [E|]; [|done].
      destruct Hst as [[? _]|[(_ & _ & H & _)|(_ & ? & _)]]; [unfold MQ_IN_GLOBAL in *; lia| |lia].
      rewrite <- app_assoc. simpl. rewrite <- Permutation_middle. apply NoDup_cons. done.
    + intros x Hx. unfold owners. simpl. destruct (in_global q0 =? 0); set_solver.
    + exists (ms ++ [m]). split; [done|]. rewrite length_app. split; [simpl; lia|].
      split; [left; congruence|]. left. split; [|done]. rewrite Hig.
      destruct (Z.eqb_spec (in_global q0) 0); [done|].
      destruct Hst as [[? _]|[(? & _)|(? & _)]]; congruence.
  - simpl. intros k w Hk p' Hp'. destruct (Hact k w Hk p' Hp') as (qq & Hqq & ?).
    unfold unreleased. rewrite Hd. destruct (decide (p' = p)) as [->|].
    + rewrite lookup_insert_eq. exists q'. split; [done|]. congruence.
    + rewrite lookup_insert_ne by done. eauto.
Qed.

Lemma gq_repr_fresh s l p q :
  gq_repr s l → mq_heap s !! p = None → next q = None → gq_repr (put_mq s p q) l.
Proof.
  intros [Hnd Hlast Hch Hout] Hp Hn.
  assert (p ∉ l) by (intros Hin; destruct (chain_dom _ _ _ _ Hch Hin); congruence).
  split; simpl; auto using chain_insert.
  intros p' q' Hq' Hni. destruct (decide (p' = p)) as [->|].
  - rewrite lookup_insert_eq in Hq'. congruence.
  - rewrite lookup_insert_ne in Hq' by done. eauto.
Qed.

Lemma inv_create s h :
  sched_inv (Run s) →
  sched_inv (let '(p, ms) := skynet_mq_create h (mqs s) in
             Run (mk_sched ms (workers s) (p :: launching s))).
Proof.
  intros (l & Hwf & Hact). unfold skynet_mq_create. set (p := fresh _).
  assert (mq_heap (mqs s) !! p = None) as Hp by (apply not_elem_of_dom, is_fresh).
  assert (mq_data (mqs s) !! p = None) as Hpd.
  { unfold mq_data. rewrite lookup_fmap, Hp. done. }
  pose proof Hwf as [Hg Hnd Hdom Hqs].
  assert (p ∉ owners s l) as Hpo by (intros [? ?]%Hdom; congruence).
  assert (owners (mk_sched (put_mq (mqs s) p (mq_new h)) (workers s) (p :: launching s)) l
    ≡ₚ p :: owners s l) as HO.
  { unfold owners. simpl. rewrite !app_assoc. by rewrite <- Permutation_middle. }
  exists l. split.
  - eapply wf_mqs_perm; [symmetry; exact HO|].
    eapply wf_mqs_insert; [done| |apply mq_data_put| | |].
    + by apply gq_repr_fresh.
    + by apply NoDup_cons.
    + set_solver.
    + exists []. split; [apply mq_repr_set_next, mq_new_repr|]. split; [simpl; lia|].
      split; [by left|]. left. split; [done|]. set_solver.
  - simpl. intros k w Hk p' Hp'. destruct (Hact k w Hk p' Hp') as (q & Hq & ?).
    exists q. rewrite mq_data_put, lookup_insert_ne by congruence. auto.
Qed.

Lemma launching_owners s l p rest :
  launching s ≡ₚ p :: rest →
  owners s l ≡ₚ l ++ p :: concat (held <$> workers s) ++ rest.
Proof.
  intros H. unfold owners. rewrite H. by rewrite <- (Permutation_middle (concat _)).
Qed.

Lemma inv_launch s p rest :
  sched_inv (Run s) → launching s ≡ₚ p :: rest →
  sched_inv (outcome (λ ms, mk_sched ms (workers s) rest) (skynet_globalmq_push p (mqs s))).
Proof.
  intros (l & Hwf & Hact) Hl.
  destruct (push_wf (mqs s) l p (concat (held <$> workers s) ++ rest)) as (ms' & -> & Hwf' & Hd).
  { eapply wf_mqs_perm; [|exact Hwf]. by apply launching_owners. }
  exists (l ++ [p]). split; [exact Hwf'|].
  simpl. intros k w Hk. eapply active_ok_data; eauto.
Qed.

(** An active queue is among the owners beside the launching ones. *)
Lemma active_owned s k w p :
  workers s !! k = Some w → active w = Some p → p ∈ concat (held <$> workers s).
Proof.
  intros Hk Hp. destruct (held_split _ _ _ Hk) as (rest & Hs & _).
  rewrite (held_split_id _ _ _ _ Hk Hs). apply elem_of_app. eauto using active_held.
Qed.

Lemma inv_launch_failed s p rest :
  sched_inv (Run s) → launching s ≡ₚ p :: rest →
  sched_inv (outcome (λ ms, mk_sched ms (workers s) rest) (snd <$> skynet_mq_release p (mqs s))).
Proof.
  intros (l & Hwf & Hact) Hl.
  destruct (release_wf (mqs s) l p (concat (held <$> workers s) ++ rest))
    as (d & ms' & l' & -> & Hwf' & Hd).
  { eapply wf_mqs_perm; [|exact Hwf]. by apply launching_owners. }
  exists l'. split; [exact Hwf'|].
  simpl. intros k w Hk p' Hp'. destruct (Hact k w Hk p' Hp') as (q & Hq & ?).
  exists q. rewrite Hd; [done|]. apply elem_of_app. eauto using active_owned.
Qed.

Lemma inv_mark_release s p :
  sched_inv (Run s) → unreleased (mqs s) p →
  (∀ k w, workers s !! k = Some w → active w ≠ Some p) →
  sched_inv (outcome (λ ms, mk_sched ms (workers s) (launching s)) (skynet_mq_mark_release p (mqs s))).
Proof.
  intros (l & Hwf & Hact) (q & Hq & Hrel) Hno. pose proof Hwf as [Hg Hnd Hdom Hqs].
  destruct (Hqs p q Hq) as (m & Hr & Hlen & _ & Hst).
  destruct (heap_of_data _ _ _ Hq) as (q0 & Hq0 & ->). simpl in *.
  destruct (mq_mark_release_state (mqs s) l p q0) as (ms' & -> & Hg' & Hd); auto.
  { intros E Hl. destruct Hst as [[? _]|[(_ & _ & H & _)|(_ & ? & _)]]; [done| |lia].
    unfold owners in H. set_solver. }
  simpl. exists (if in_global q0 =? MQ_IN_GLOBAL then l else l ++ [p]). split.
  - eapply wf_mqs_insert; eauto.
    + unfold owners in *. simpl in *. destruct (Z.eqb_spec (in_global q0) MQ_IN_GLOBAL) as [E|]; [done|].
      destruct Hst as [[? _]|[(_ & _ & H & _)|(_ & ? & _)]]; [done| |lia].
      rewrite <- app_assoc. simpl. rewrite <- Permutation_middle. by apply NoDup_cons.
    + intros x Hx. unfold owners. simpl. destruct (in_global q0 =? MQ_IN_GLOBAL); set_solver.
    + exists m. split; [destruct Hr; split; done|]. split; [done|]. split; [by right|].
      unfold owners in *. simpl in *. destruct Hst as [[E ?]|[(E & _)|(_ & ? & _)]]; [| |lia].
      * left. rewrite E. done.
      * right; right. rewrite E. simpl. split_and!; auto. set_solver.
  - simpl. intros k w Hk p' Hp'. destruct (Hact k w Hk p' Hp') as (q & Hqq & ?).
    exists q. rewrite Hd, lookup_insert_ne; [done|]. intros ->. by eapply Hno.
Qed.

Lemma sched_inv_step c c' : sched_inv c → step c c' → sched_inv c'.
Proof.
  intros H Hs. destruct Hs as [s k w weight live|s p m q ms|s h|s p rest|s p rest|s p].
  - by apply inv_worker.
  - by eapply inv_send.
  - by apply inv_create.
  - by apply inv_launch.
  - by apply inv_launch_failed.
  - by apply inv_mark_release.
Qed.

Lemma sched_inv_init n : sched_inv (Run (sched_init n)).
Proof.
  assert (concat (held <$> replicate n (WEnter None)) = []) as E.
  { induction n; simpl; auto. }
  exists []. unfold owners. simpl. rewrite E. split.
  - split; try done; simpl; [split; try done; constructor|constructor|set_solver].
  - intros k w [-> _]%lookup_replicate. by apply active_ok_none.
Qed.

Lemma sched_inv_reachable n c : rtc step (Run (sched_init n)) c → sched_inv c.
Proof.
  intros H. remember (Run (sched_init n)) as c0 eqn:E.
  assert (sched_inv c0) as H0 by (subst; apply sched_inv_init). clear E.
  induction H as [|c0 c1 c2 Hs Hr IH]; eauto using sched_inv_step.
Qed.

(** ** Properties *)

(** C2. No interleaving of worker threads, senders, service launches and
    service exits makes an assertion of the message queues fail or makes a
    thread read an unwritten cell: from the start of the node no execution
    reaches [Crash]. *)
Theorem sched_no_crash (n : nat) (c : config) (Hc : rtc step (Run (sched_init n)) c) : c ≠ Crash.
Proof. intros ->. exact (sched_inv_reachable n Crash Hc). Qed.

Lemma sched_no_crash_witness :
  outcome (λ ms, mk_sched ms [WEnter None] [])
    (skynet_globalmq_push 1 (skynet_mq_create 7 skynet_mq_init).2) ≠ Crash.
Proof.
  apply (sched_no_crash 1).
  eapply rtc_l; [apply (step_create _ 7)|].
  eapply rtc_l; [|apply rtc_refl].
  apply (step_launch (mk_sched (skynet_mq_create 7 skynet_mq_init).2 [WEnter None] [1%positive]) 1 []).
  reflexivity.
Defined.

(** C35. No queue with work is lost and none is served twice: in every
    reachable state the queues owned by the global queue, the workers and the
    launching threads are all distinct, and each queue that holds a message
    or waits for its release is one of them. *)
Theorem sched_no_lost_queue (n : nat) (s : sched)
    (Hs : rtc step (Run (sched_init n)) (Run s)) :
  ∃ l, gq_repr (mqs s) l ∧ NoDup (owners s l) ∧
    ∀ p q ms, mq_data (mqs s) !! p = Some q → mq_repr q ms →
      (ms ≠ [] ∨ release q ≠ 0) → p ∈ owners s l.
Proof.
  destruct (sched_inv_reachable n (Run s) Hs) as (l & [Hg Hnd _ Hqs] & _).
  exists l. split_and!; auto. intros p q ms Hq Hr Hwork.
  destruct (Hqs p q Hq) as (ms' & Hr' & _ & _ & [[_ ?]|[(_ & Hrel & _ & E)|(_ & _ & ?)]]); auto.
  rewrite (mq_repr_inj _ _ _ Hr Hr') in Hwork. destruct Hwork; congruence.
Qed.

Lemma sched_no_lost_queue_witness :
  ∃ l, gq_repr (skynet_mq_create 7 skynet_mq_init).2 l ∧
    NoDup (owners (mk_sched (skynet_mq_create 7 skynet_mq_init).2 [WEnter None] [1%positive]) l).
Proof.
  destruct (sched_no_lost_queue 1
    (mk_sched (skynet_mq_create 7 skynet_mq_init).2 [WEnter None] [1%positive])) as (l & H1 & H2 & _).
  - eapply rtc_l; [apply (step_create _ 7)|apply rtc_refl].
  - exists l. split; [exact H1|exact H2].
Defined.
