(* ===== verification/Timer.v ===== *)
(** * The timer: skynet-src/skynet_timer.c

    A hierarchical timing wheel: 256 lists for the next ticks ([near]) and four
    levels of 64 lists for later ones ([t]).  [timer_shift] advances the 32-bit
    [time] and redistributes one list of a level when the levels below have
    run out.  A [struct link_list] is the list of its nodes, its address in the
    wheel a [list_ref]; the spin lock makes each operation atomic.

    The specification ([spec_add], [spec_tick]) is a plain list of pending
    nodes: a tick fires the nodes whose deadline is the new time, in the order
    they were added.  The refinement theorem states that the wheel fires
    exactly that, on every sequence of operations. *)

From Stdlib Require Import ZArith Lia.
From stdpp Require Import base tactics option numbers sets list.
From S2P Require Import Prelude MessageQueue.

(** ** Data *)

Definition TIME_NEAR_SHIFT : Z := 8.
Definition TIME_NEAR : Z := Z.shiftl 1 TIME_NEAR_SHIFT.
Definition TIME_LEVEL_SHIFT : Z := 6.
Definition TIME_LEVEL : Z := Z.shiftl 1 TIME_LEVEL_SHIFT.
Definition TIME_NEAR_MASK : Z := TIME_NEAR - 1.
Definition TIME_LEVEL_MASK : Z := TIME_LEVEL - 1.

Record timer_event := mk_event { te_handle : Z; te_session : Z }.

(** [struct timer_node] with the event stored behind it. *)
Record timer_node := mk_node { expire : Z; event : timer_event }.

Record timer := mk_timer {
  near : list (list timer_node);
  t : list (list (list timer_node));
  time : Z;
  starttime : Z;
  current : Z;
  current_point : Z
}.

#[global] Instance timer_event_eq_dec : EqDecision timer_event.
Proof. solve_decision. Defined.
#[global] Instance timer_node_eq_dec : EqDecision timer_node.
Proof. solve_decision. Defined.

(** The address of a [struct link_list] of the timer: [&T->near[i]] or
    [&T->t[l][i]]. *)
Inductive list_ref := Near (i : Z) | Level (l i : Z).

#[global] Instance list_ref_eq_dec : EqDecision list_ref.
Proof. solve_decision. Defined.

Definition get_list (T : timer) (r : list_ref) : option (list timer_node) :=
  match r with
  | Near i => arr_get (near T) i
  | Level l i => row ← arr_get (t T) l; arr_get row i
  end.

Definition set_near (T : timer) (n : list (list timer_node)) : timer :=
  mk_timer n (t T) (time T) (starttime T) (current T) (current_point T).

Definition set_t (T : timer) (x : list (list (list timer_node))) : timer :=
  mk_timer (near T) x (time T) (starttime T) (current T) (current_point T).

Definition set_time (T : timer) (x : Z) : timer :=
  mk_timer (near T) (t T) x (starttime T) (current T) (current_point T).

Definition set_clock (T : timer) (s c p : Z) : timer :=
  mk_timer (near T) (t T) (time T) s c p.

Definition set_list (T : timer) (r : list_ref) (ns : list timer_node) : option timer :=
  match r with
  | Near i => n ← arr_set (near T) i ns; Some (set_near T n)
  | Level l i =>
      row ← arr_get (t T) l;
      row' ← arr_set row i ns;
      x ← arr_set (t T) l row';
      Some (set_t T x)
  end.

(** ** Operations *)

Definition link_clear (T : timer) (r : list_ref) : option (list timer_node * timer) :=
  ns ← get_list T r; T' ← set_list T r []; Some (ns, T').

Definition link (T : timer) (r : list_ref) (node : timer_node) : option timer :=
  ns ← get_list T r; set_list T r (ns ++ [node]).

(** The loop [for (i=0;i<3;i++)] of [add_node]: the value of [i] at its end. *)
Fixpoint level_loop (n : nat) (i mask time current_time : Z) : Z :=
  match n with
  | O => i
  | S n' =>
      if Z.lor time (mask - 1) =? Z.lor current_time (mask - 1) then i
      else level_loop n' (i + 1) (u32 (Z.shiftl mask TIME_LEVEL_SHIFT)) time current_time
  end.

(** The list [add_node] links the node to. *)
Definition add_node_ref (time current_time : Z) : list_ref :=
  if Z.lor time TIME_NEAR_MASK =? Z.lor current_time TIME_NEAR_MASK
  then Near (Z.land time TIME_NEAR_MASK)
  else
    let i := level_loop 3 0 (Z.shiftl TIME_NEAR TIME_LEVEL_SHIFT) time current_time in
    Level i (Z.land (Z.shiftr time (TIME_NEAR_SHIFT + i * TIME_LEVEL_SHIFT)) TIME_LEVEL_MASK).

Definition add_node (T : timer) (node : timer_node) : option timer :=
  link T (add_node_ref (expire node) (time T)) node.

Definition timer_add (T : timer) (arg : timer_event) (tm : Z) : option timer :=
  add_node T (mk_node (u32 (tm + time T)) arg).

(** The loop of [move_list] over the nodes of the cleared list. *)
Fixpoint add_nodes (T : timer) (ns : list timer_node) : option timer :=
  match ns with
  | [] => Some T
  | n :: ns' => T' ← add_node T n; add_nodes T' ns'
  end.

Definition move_list (T : timer) (level idx : Z) : option timer :=
  '(ns, T') ← link_clear T (Level level idx); add_nodes T' ns.

(** The loop [while ((ct & (mask-1))==0)] of [timer_shift]: the list to move,
    [None] when the loop ends without one.  [mask] is an [int]. *)
Fixpoint shift_loop (n : nat) (ct mask tm i : Z) : option (option (Z * Z)) :=
  if negb (Z.land ct (mask - 1) =? 0) then Some None
  else
    match n with
    | O => None
    | S n' =>
        let idx := Z.land tm TIME_LEVEL_MASK in
        if negb (idx =? 0) then Some (Some (i, idx))
        else
          mask' ← chk32 (Z.shiftl mask TIME_LEVEL_SHIFT);
          shift_loop n' ct mask' (Z.shiftr tm TIME_LEVEL_SHIFT) (i + 1)
    end.

Definition timer_shift (T : timer) : option timer :=
  let ct := u32 (time T + 1) in
  let T1 := set_time T ct in
  if ct =? 0 then move_list T1 3 0
  else
    mv ← shift_loop 4 ct TIME_NEAR (Z.shiftr ct TIME_NEAR_SHIFT) 0;
    match mv with
    | None => Some T1
    | Some (i, idx) => move_list T1 i idx
    end.


(** The message a timer event becomes. *)
Definition timeout_message (session : Z) : skynet_message :=
  mk_message 0 session 0 (u64 (Z.shiftl PTYPE_RESPONSE MESSAGE_TYPE_SHIFT)).

(** [dispatch_list]: the calls of [skynet_context_push], in order. *)
Definition dispatch_list (ns : list timer_node) : list (Z * skynet_message) :=
  map (λ n, (te_handle (event n), timeout_message (te_session (event n)))) ns.

(** The loop of [timer_execute]; nodes dispatched, in order. *)
Fixpoint execute_loop (fuel : nat) (T : timer) (idx : Z) : option (list timer_node * timer) :=
  match fuel with
  | O => None
  | S f =>
      ns ← get_list T (Near idx);
      match ns with
      | [] => Some ([], T)
      | _ :: _ =>
          '(cur, T1) ← link_clear T (Near idx);
          '(more, T2) ← execute_loop f T1 idx;
          Some (cur ++ more, T2)
      end
  end.

(** Two rounds are enough: the list is empty after the first. *)
Definition timer_execute (T : timer) : option (list timer_node * timer) :=
  execute_loop 2 T (Z.land (time T) TIME_NEAR_MASK).

Definition timer_update (T : timer) : option (list timer_node * timer) :=
  '(f1, T1) ← timer_execute T;
  T2 ← timer_shift T1;
  '(f2, T3) ← timer_execute T2;
  Some (f1 ++ f2, T3).

Definition timer_create_timer : timer :=
  mk_timer (replicate (Z.to_nat TIME_NEAR) [])
    (replicate 4 (replicate (Z.to_nat TIME_LEVEL) [])) 0 0 0 0.

(** [skynet_timer_init] with what [systime] and [gettime] return. *)
Definition skynet_timer_init (sec cs point : Z) : timer :=
  set_clock timer_create_timer sec cs point.

(** [skynet_timeout]: the pushes it makes at once, the return value and the
    timer.  [push] is [skynet_context_push]. *)
Definition skynet_timeout (push : Z → skynet_message → Z) (T : timer) (handle tm session : Z)
    : option (Z * list (Z * skynet_message) * timer) :=
  if tm <=? 0 then
    let m := timeout_message session in
    Some (if push handle m =? 0 then session else -1, [(handle, m)], T)
  else
    T' ← timer_add T (mk_event handle session) tm;
    Some (session, [], T').

(** [for (i=0;i<diff;i++) timer_update(TI)] *)
Fixpoint update_loop (n : nat) (T : timer) : option (list timer_node * timer) :=
  match n with
  | O => Some ([], T)
  | S n' => '(f1, T1) ← timer_update T; '(f2, T2) ← update_loop n' T1; Some (f1 ++ f2, T2)
  end.

(** [skynet_updatetime] when [gettime] returns [cp]. *)
Definition skynet_updatetime (cp : Z) (T : timer) : option (list timer_node * timer) :=
  if cp <? current_point T then Some ([], set_clock T (starttime T) (current T) cp)
  else if negb (cp =? current_point T) then
    let diff := u32 (cp - current_point T) in
    update_loop (Z.to_nat diff) (set_clock T (starttime T) (u64 (current T + diff)) cp)
  else Some ([], T).

Definition skynet_starttime (T : timer) : Z := starttime T.
Definition skynet_now (T : timer) : Z := current T.

(** ** Specification: a list of pending nodes *)

Record spec_timer := mk_spec { now : Z; pending : list timer_node }.

Definition spec_add (A : spec_timer) (ev : timer_event) (tm : Z) : spec_timer :=
  mk_spec (now A) (pending A ++ [mk_node (u32 (now A + tm)) ev]).

(** The nodes due at [e], and the others. *)
Definition due (e : Z) (ns : list timer_node) : list timer_node := filter (λ n, expire n = e) ns.
Definition not_due (e : Z) (ns : list timer_node) : list timer_node := filter (λ n, expire n ≠ e) ns.

Definition spec_tick (A : spec_timer) : list timer_node * spec_timer :=
  let n := u32 (now A + 1) in
  (due (now A) (pending A) ++ due n (not_due (now A) (pending A)),
   mk_spec n (not_due n (not_due (now A) (pending A)))).

Inductive timer_op := OpAdd (ev : timer_event) (tm : Z) | OpTick.

Definition op_ok (o : timer_op) : bool :=
  match o with OpAdd _ tm => (0 <? tm) && (tm <=? INT_MAX) | OpTick => true end.

Fixpoint timer_exec (ops : list timer_op) (T : timer) : option (list (list timer_node) * timer) :=
  match ops with
  | [] => Some ([], T)
  | OpAdd ev tm :: ops' => T' ← timer_add T ev tm; timer_exec ops' T'
  | OpTick :: ops' =>
      '(fired, T') ← timer_update T;
      '(rest, T'') ← timer_exec ops' T';
      Some (fired :: rest, T'')
  end.

Fixpoint spec_exec (ops : list timer_op) (A : spec_timer) : list (list timer_node) * spec_timer :=
  match ops with
  | [] => ([], A)
  | OpAdd ev tm :: ops' => spec_exec ops' (spec_add A ev tm)
  | OpTick :: ops' =>
      let '(fired, A') := spec_tick A in
      let '(rest, A'') := spec_exec ops' A' in
      (fired :: rest, A'')
  end.

(** A run of the wheel agrees with the specification on an example that
    crosses two levels. *)
Example timer_run :
  fst <$> timer_exec ([OpAdd (mk_event 1 7) 300; OpAdd (mk_event 2 8) 2] ++ replicate 300 OpTick)
            timer_create_timer
  = Some (spec_exec ([OpAdd (mk_event 1 7) 300; OpAdd (mk_event 2 8) 2] ++ replicate 300 OpTick)
            (mk_spec 0 [])).1.
Proof. vm_compute. reflexivity. Qed.

(** ** Where a node lives, in terms of quotients *)

(** The list of a node due at [e] when the time is [c]: the first level at
    which [e] and [c] share the remaining high digits. *)
Definition place (e c : Z) : list_ref :=
  if e / 2 ^ 8 =? c / 2 ^ 8 then Near (e mod 2 ^ 8)
  else if e / 2 ^ 14 =? c / 2 ^ 14 then Level 0 (e / 2 ^ 8 mod 2 ^ 6)
  else if e / 2 ^ 20 =? c / 2 ^ 20 then Level 1 (e / 2 ^ 14 mod 2 ^ 6)
  else if e / 2 ^ 26 =? c / 2 ^ 26 then Level 2 (e / 2 ^ 20 mod 2 ^ 6)
  else Level 3 (e / 2 ^ 26 mod 2 ^ 6).

Lemma add_node_ref_place e c : add_node_ref e c = place e c.
Proof.
  unfold add_node_ref, place, level_loop.
  change TIME_NEAR_MASK with (2 ^ 8 - 1). change TIME_LEVEL_MASK with (2 ^ 6 - 1).
  change (Z.shiftl TIME_NEAR TIME_LEVEL_SHIFT) with (2 ^ 14).
  change (u32 (Z.shiftl (2 ^ 14) TIME_LEVEL_SHIFT)) with (2 ^ 20).
  change (u32 (Z.shiftl (2 ^ 20) TIME_LEVEL_SHIFT)) with (2 ^ 26).
  rewrite !lor_ones_eqb by lia.
  destruct (e / 2 ^ 8 =? c / 2 ^ 8); [by rewrite land_ones_mod|].
  destruct (e / 2 ^ 14 =? c / 2 ^ 14); [by rewrite land_ones_mod, Z.shiftr_div_pow2|].
  destruct (e / 2 ^ 20 =? c / 2 ^ 20); [by rewrite land_ones_mod, Z.shiftr_div_pow2|].
  destruct (e / 2 ^ 26 =? c / 2 ^ 26); by rewrite land_ones_mod, Z.shiftr_div_pow2.
Qed.

(** The list [timer_shift] redistributes when the time becomes [c]. *)
Definition moved (c : Z) : option list_ref :=
  if c =? 0 then Some (Level 3 0)
  else if negb (c mod 2 ^ 8 =? 0) then None
  else if negb (c / 2 ^ 8 mod 2 ^ 6 =? 0) then Some (Level 0 (c / 2 ^ 8 mod 2 ^ 6))
  else if negb (c / 2 ^ 14 mod 2 ^ 6 =? 0) then Some (Level 1 (c / 2 ^ 14 mod 2 ^ 6))
  else if negb (c / 2 ^ 20 mod 2 ^ 6 =? 0) then Some (Level 2 (c / 2 ^ 20 mod 2 ^ 6))
  else Some (Level 3 (c / 2 ^ 26 mod 2 ^ 6)).

(** How far ahead of the 32-bit clock [c] the deadline [e] is. *)
Definition ahead (e c : Z) : Z := u32 (e - c).

Lemma place_valid e c : 0 <= e →
  match place e c with
  | Near i => 0 <= i < 256
  | Level l i => 0 <= l < 4 ∧ 0 <= i < 64
  end.
Proof.
  intros He. unfold place.
  repeat (match goal with |- context [if ?b then _ else _] => destruct b end).
  all: repeat split; try lia; apply Z.mod_pos_bound; lia.
Qed.

(** The quotients [a] and [b] differ (agree) by linear arithmetic. *)
Ltac quot_ne a b := replace (a =? b) with false by (symmetry; apply Z.eqb_neq; dlia).
Ltac quot_eq a b := replace (a =? b) with true by (symmetry; apply Z.eqb_eq; dlia).

(** When the clock advances, only the nodes of the moved list change place:
    first the step that wraps around, then the others. *)
Lemma place_stable_wrap e :
  0 <= e < 2 ^ 32 → 1 <= ahead e (2 ^ 32 - 1) < 2 ^ 31 →
  moved 0 ≠ Some (place e (2 ^ 32 - 1)) → place e 0 = place e (2 ^ 32 - 1).
Proof.
  unfold ahead, u32. intros He Hd. assert (e / 2 ^ 26 < 63) by dlia.
  assert (place e (2 ^ 32 - 1) = Level 3 (e / 2 ^ 26 mod 2 ^ 6)) as ->.
  { unfold place. zcases; try reflexivity; exfalso; dlia. }
  intros Hm. unfold place. zcases; try done.
  all: exfalso; apply Hm; unfold moved; simpl (0 =? 0); cbv iota; do 2 f_equal; dlia.
Qed.

Lemma place_stable_succ e c :
  0 <= e < 2 ^ 32 → 0 <= c < 2 ^ 32 - 1 → 1 <= ahead e c < 2 ^ 31 →
  moved (c + 1) ≠ Some (place e c) → place e (c + 1) = place e c.
Proof.
  unfold ahead, u32, moved. intros He Hc Hd. destruct (Z.eqb_spec (c + 1) 0); [lia|].
  destruct (Z.eqb_spec ((c + 1) mod 2 ^ 8) 0) as [E8|E8]; cbn [negb]; unfold place.
  2: { intros _. by replace ((c + 1) / 2 ^ 8) with (c / 2 ^ 8) by dlia;
       replace ((c + 1) / 2 ^ 14) with (c / 2 ^ 14) by dlia;
       replace ((c + 1) / 2 ^ 20) with (c / 2 ^ 20) by dlia;
       replace ((c + 1) / 2 ^ 26) with (c / 2 ^ 26) by dlia. }
  quot_ne (e / 2 ^ 8) (c / 2 ^ 8).
  destruct (Z.eqb_spec ((c + 1) / 2 ^ 8 mod 2 ^ 6) 0) as [E14|E14]; cbn [negb].
  2: { replace ((c + 1) / 2 ^ 14) with (c / 2 ^ 14) by dlia.
       replace ((c + 1) / 2 ^ 20) with (c / 2 ^ 20) by dlia.
       replace ((c + 1) / 2 ^ 26) with (c / 2 ^ 26) by dlia.
       intros Hm. destruct (Z.eqb_spec (e / 2 ^ 8) ((c + 1) / 2 ^ 8)) as [E|E]; [|done].
       exfalso; apply Hm. rewrite E. by quot_eq (e / 2 ^ 14) (c / 2 ^ 14). }
  quot_ne (e / 2 ^ 14) (c / 2 ^ 14).
  destruct (Z.eqb_spec ((c + 1) / 2 ^ 14 mod 2 ^ 6) 0) as [E20|E20]; cbn [negb].
  2: { replace ((c + 1) / 2 ^ 20) with (c / 2 ^ 20) by dlia.
       replace ((c + 1) / 2 ^ 26) with (c / 2 ^ 26) by dlia.
       intros Hm. destruct (Z.eqb_spec (e / 2 ^ 14) ((c + 1) / 2 ^ 14)) as [E|E].
       - exfalso; apply Hm. rewrite E. by quot_eq (e / 2 ^ 20) (c / 2 ^ 20).
       - by quot_ne (e / 2 ^ 8) ((c + 1) / 2 ^ 8). }
  quot_ne (e / 2 ^ 20) (c / 2 ^ 20).
  destruct (Z.eqb_spec ((c + 1) / 2 ^ 20 mod 2 ^ 6) 0) as [E26|E26]; cbn [negb].
  2: { replace ((c + 1) / 2 ^ 26) with (c / 2 ^ 26) by dlia.
       intros Hm. destruct (Z.eqb_spec (e / 2 ^ 20) ((c + 1) / 2 ^ 20)) as [E|E].
       - exfalso; apply Hm. rewrite E. by quot_eq (e / 2 ^ 26) (c / 2 ^ 26).
       - by quot_ne (e / 2 ^ 8) ((c + 1) / 2 ^ 8); quot_ne (e / 2 ^ 14) ((c + 1) / 2 ^ 14). }
  quot_ne (e / 2 ^ 26) (c / 2 ^ 26).
  intros Hm. destruct (Z.eqb_spec (e / 2 ^ 26) ((c + 1) / 2 ^ 26)) as [E|E].
  - exfalso; apply Hm. rewrite E. done.
  - by quot_ne (e / 2 ^ 8) ((c + 1) / 2 ^ 8); quot_ne (e / 2 ^ 14) ((c + 1) / 2 ^ 14);
      quot_ne (e / 2 ^ 20) ((c + 1) / 2 ^ 20).
Qed.

Lemma place_stable e c :
  0 <= e < 2 ^ 32 → 0 <= c < 2 ^ 32 → 1 <= ahead e c < 2 ^ 31 →
  moved (u32 (c + 1)) ≠ Some (place e c) → place e (u32 (c + 1)) = place e c.
Proof.
  intros He Hc Hd. destruct (Z.eq_dec c (2 ^ 32 - 1)) as [->|].
  - by apply place_stable_wrap.
  - rewrite u32_small by lia. apply place_stable_succ; lia.
Qed.

(** The loop of [timer_shift] finds the moved list. *)
Lemma shift_loop_moved c :
  0 < c < 2 ^ 32 →
  ∃ r, shift_loop 4 c TIME_NEAR (Z.shiftr c TIME_NEAR_SHIFT) 0 = Some r ∧
    moved c = (λ x, Level x.1 x.2) <$> r.
Proof.
  intros Hc. unfold shift_loop, moved.
  change (chk32 (Z.shiftl TIME_NEAR TIME_LEVEL_SHIFT)) with (Some (2 ^ 14)). cbn [mbind option_bind].
  change (chk32 (Z.shiftl (2 ^ 14) TIME_LEVEL_SHIFT)) with (Some (2 ^ 20)). cbn [mbind option_bind].
  change (chk32 (Z.shiftl (2 ^ 20) TIME_LEVEL_SHIFT)) with (Some (2 ^ 26)). cbn [mbind option_bind].
  change TIME_NEAR with (2 ^ 8). change TIME_LEVEL_MASK with (2 ^ 6 - 1).
  unfold TIME_NEAR_SHIFT, TIME_LEVEL_SHIFT. rewrite !land_ones_mod by lia.
  rewrite !Z.shiftr_shiftr, !Z.shiftr_div_pow2 by lia.
  change (8 + 6) with 14. change (8 + (6 + 6)) with 20. change (14 + 6) with 20. change (20 + 6) with 26.
  destruct (Z.eqb_spec c 0); [lia|].
  destruct (Z.eqb_spec (c mod 2 ^ 8) 0) as [E|E]; cbn [negb]; [|eauto].
  destruct (Z.eqb_spec (c / 2 ^ 8 mod 2 ^ 6) 0) as [E1|E1]; cbn [negb]; [|eauto].
  quot_eq (c mod 2 ^ 14) 0. cbn [negb].
  destruct (Z.eqb_spec (c / 2 ^ 14 mod 2 ^ 6) 0) as [E2|E2]; cbn [negb]; [|eauto].
  quot_eq (c mod 2 ^ 20) 0. cbn [negb].
  destruct (Z.eqb_spec (c / 2 ^ 20 mod 2 ^ 6) 0) as [E3|E3]; cbn [negb]; [|eauto].
  quot_eq (c mod 2 ^ 26) 0. cbn [negb].
  quot_ne (c / 2 ^ 26 mod 2 ^ 6) 0. eauto.
Qed.

(** ** The lists of the wheel *)

Definition valid_ref (r : list_ref) : Prop :=
  match r with
  | Near i => 0 <= i < 256
  | Level l i => 0 <= l < 4 ∧ 0 <= i < 64
  end.

(** The arrays have their declared sizes and the clock is a [uint32_t]. *)
Record wheel_shape (T : timer) : Prop := mk_shape {
  shape_near : length (near T) = 256%nat;
  shape_t : length (t T) = 4%nat;
  shape_rows : ∀ l row, t T !! l = Some row → length row = 64%nat;
  shape_time : 0 <= time T < 2 ^ 32
}.

Definition slot (T : timer) (r : list_ref) : list timer_node := default [] (get_list T r).

Lemma get_list_slot T r : wheel_shape T → valid_ref r → get_list T r = Some (slot T r).
Proof.
  intros [Hn Ht Hr _]. unfold slot. destruct r as [i|l i]; simpl; intros Hv.
  - destruct (arr_get_some (near T) i) as [x ->]; [lia|done].
  - destruct (arr_get_some (t T) l) as [row Hrow]; [lia|]. rewrite Hrow. simpl.
    rewrite arr_get_lookup in Hrow by lia. apply Hr in Hrow.
    destruct (arr_get_some row i) as [x ->]; [lia|done].
Qed.

Lemma set_list_ok T r ns :
  wheel_shape T → valid_ref r →
  ∃ T', set_list T r ns = Some T' ∧ wheel_shape T' ∧ time T' = time T ∧
    slot T' r = ns ∧ (∀ r', valid_ref r' → r' ≠ r → slot T' r' = slot T r') ∧
    starttime T' = starttime T ∧ current T' = current T ∧ current_point T' = current_point T.
Proof.
  intros [Hn Ht Hr Htm] Hv. destruct r as [i|l i]; simpl in *.
  - rewrite arr_set_some by lia. simpl. eexists; split; [done|]. split_and!; try done.
    + split; simpl; auto. by rewrite length_insert.
    + unfold slot. simpl. rewrite arr_get_lookup, list_lookup_insert_eq by lia. done.
    + intros [j|l' j] Hv' Hne; [|done]. unfold slot. simpl in *.
      rewrite !arr_get_lookup by lia. rewrite list_lookup_insert_ne; [done|].
      intros E. apply Hne. f_equal. lia.
  - destruct Hv as [Hl Hi]. destruct (arr_get_some (t T) l) as [row Hrow]; [lia|].
    rewrite Hrow. simpl. rewrite arr_get_lookup in Hrow by lia.
    pose proof (Hr _ _ Hrow) as Hlen. rewrite arr_set_some by lia. simpl.
    rewrite arr_set_some by lia. simpl. eexists; split; [done|]. split_and!; try done.
    + split; simpl; auto; [by rewrite length_insert|]. intros l' row' Hl'.
      apply list_lookup_insert_Some in Hl' as [(_ & <- & _)|[_ Hl']]; [|eauto].
      by rewrite length_insert.
    + unfold slot. simpl. rewrite arr_get_lookup, list_lookup_insert_eq by lia. simpl.
      rewrite arr_get_lookup, list_lookup_insert_eq by lia. done.
    + intros [j|l' j] Hv' Hne; [done|]. unfold slot. simpl in *. rewrite !(arr_get_lookup _ l') by lia.
      destruct (decide (l' = l)) as [->|Hll].
      * rewrite list_lookup_insert_eq, Hrow by lia. simpl. rewrite !arr_get_lookup by lia.
        rewrite list_lookup_insert_ne; [done|]. intros E. apply Hne. f_equal. lia.
      * rewrite list_lookup_insert_ne; [done|]. lia.
Qed.

Lemma link_ok T r n :
  wheel_shape T → valid_ref r →
  ∃ T', link T r n = Some T' ∧ wheel_shape T' ∧ time T' = time T ∧
    slot T' r = slot T r ++ [n] ∧ (∀ r', valid_ref r' → r' ≠ r → slot T' r' = slot T r').
Proof.
  intros Hs Hv. unfold link. rewrite get_list_slot by done. simpl.
  destruct (set_list_ok T r (slot T r ++ [n]) Hs Hv) as (T' & ? & ? & ? & ? & ? & _). eauto 10.
Qed.

Lemma link_clear_ok T r :
  wheel_shape T → valid_ref r →
  ∃ T', link_clear T r = Some (slot T r, T') ∧ wheel_shape T' ∧ time T' = time T ∧
    slot T' r = [] ∧ (∀ r', valid_ref r' → r' ≠ r → slot T' r' = slot T r').
Proof.
  intros Hs Hv. unfold link_clear. rewrite get_list_slot by done. simpl.
  destruct (set_list_ok T r [] Hs Hv) as (T' & -> & ? & ? & ? & ? & _). simpl. eauto 10.
Qed.

(** ** The invariant of the wheel *)

(** A node sits in the list its deadline and the clock determine, less than
    2^31 ticks ahead. *)
Record node_ok (T : timer) (r : list_ref) (n : timer_node) : Prop := mk_node_ok {
  node_range : 0 <= expire n < 2 ^ 32;
  node_place : place (expire n) (time T) = r;
  node_ahead : ahead (expire n) (time T) < 2 ^ 31
}.

Record wheel_ok (T : timer) : Prop := mk_wheel {
  wheel_sh : wheel_shape T;
  wheel_nodes : ∀ r, valid_ref r → Forall (node_ok T r) (slot T r)
}.

(** The nodes due at [e], oldest first. *)
Definition pending_at (T : timer) (e : Z) : list timer_node := due e (slot T (place e (time T))).

Lemma place_valid_ref e c : 0 <= e → valid_ref (place e c).
Proof. exact (place_valid e c). Qed.

#[local] Hint Resolve place_valid_ref : machine.

Lemma due_app e l1 l2 : due e (l1 ++ l2) = due e l1 ++ due e l2.
Proof. apply filter_app. Qed.

Lemma due_single e n : due e [n] = if decide (expire n = e) then [n] else [].
Proof. reflexivity. Qed.

Lemma due_none e ns : Forall (λ n, expire n ≠ e) ns → due e ns = [].
Proof.
  unfold due. induction 1 as [|n ns Hn _ IH]; [done|]. rewrite filter_cons_False by done. exact IH.
Qed.

Lemma due_all e ns : Forall (λ n, expire n = e) ns → due e ns = ns.
Proof.
  unfold due. induction 1 as [|n ns Hn _ IH]; [done|]. rewrite filter_cons_True by done. by f_equal.
Qed.

(** *** Adding nodes *)

Lemma add_node_ok T n :
  wheel_ok T → 0 <= expire n < 2 ^ 32 → ahead (expire n) (time T) < 2 ^ 31 →
  ∃ T', add_node T n = Some T' ∧ wheel_ok T' ∧ time T' = time T ∧
    (∀ r, valid_ref r → r ≠ place (expire n) (time T) → slot T' r = slot T r) ∧
    slot T' (place (expire n) (time T)) = slot T (place (expire n) (time T)) ++ [n].
Proof.
  intros [Hsh Hn] He Ha. unfold add_node. rewrite add_node_ref_place.
  set (r := place (expire n) (time T)). assert (valid_ref r) as Hv by (apply place_valid_ref; lia).
  destruct (link_ok T r n Hsh Hv) as (T' & -> & Hsh' & Ht' & Hr & Hothers).
  exists T'. split; [done|]. split_and!; auto. split; [done|].
  intros r' Hv'. destruct (decide (r' = r)) as [->|Hne].
  - rewrite Hr. apply Forall_app. split.
    + eapply Forall_impl; [by apply Hn|]. intros x []. split; by rewrite ?Ht'.
    + apply Forall_singleton. split; rewrite ?Ht'; done.
  - rewrite Hothers by done. eapply Forall_impl; [by apply Hn|].
    intros x []. split; by rewrite ?Ht'.
Qed.

Lemma add_nodes_ok ns : ∀ T,
  wheel_ok T → Forall (λ n, 0 <= expire n < 2 ^ 32 ∧ ahead (expire n) (time T) < 2 ^ 31) ns →
  ∃ T', add_nodes T ns = Some T' ∧ wheel_ok T' ∧ time T' = time T ∧
    ∀ e, 0 <= e → pending_at T' e = pending_at T e ++ due e ns.
Proof.
  induction ns as [|n ns IH]; intros T Hok Hns; simpl.
  { exists T. split_and!; auto. intros. by rewrite app_nil_r. }
  apply Forall_cons in Hns as [[Hr Ha] Hns].
  destruct (add_node_ok T n Hok Hr Ha) as (T1 & -> & Hok1 & Ht1 & Hoth & Hsame). simpl.
  destruct (IH T1 Hok1) as (T' & -> & Hok' & Ht' & Hp); [by rewrite Ht1|].
  exists T'. split_and!; auto; [congruence|]. intros e He. rewrite Hp by done.
  rewrite (due_app e [n] ns : due e (n :: ns) = _), due_single. unfold pending_at. rewrite Ht1. destruct (decide (expire n = e)) as [<-|Hne].
  - rewrite Hsame, due_app, due_single, decide_True by done. by rewrite <- app_assoc.
  - destruct (decide (place e (time T) = place (expire n) (time T))) as [->|Hpl].
    + by rewrite Hsame, due_app, due_single, decide_False, app_nil_r by done.
    + by rewrite Hoth by auto using place_valid_ref.
Qed.

(** *** Executing the current list *)

Lemma place_now c : place c c = Near (c mod 2 ^ 8).
Proof. unfold place. by rewrite Z.eqb_refl. Qed.

Lemma place_near_now e c : place e c = Near (c mod 2 ^ 8) → e = c.
Proof.
  unfold place. destruct (Z.eqb_spec (e / 2 ^ 8) (c / 2 ^ 8)) as [E|].
  - intros [= Hm]. dlia.
  - repeat case_match; discriminate.
Qed.

Lemma timer_execute_ok T :
  wheel_ok T →
  ∃ T', timer_execute T = Some (pending_at T (time T), T') ∧ wheel_ok T' ∧ time T' = time T ∧
    pending_at T' (time T) = [] ∧
    (∀ e, 0 <= e → e ≠ time T → pending_at T' e = pending_at T e).
Proof.
  intros [Hsh Hn]. pose proof (shape_time _ Hsh) as Htm. unfold timer_execute.
  change TIME_NEAR_MASK with (2 ^ 8 - 1). rewrite land_ones_mod by lia.
  set (r := Near (time T mod 2 ^ 8)).
  assert (valid_ref r) as Hv by (apply Z.mod_pos_bound; lia).
  assert (pending_at T (time T) = slot T r) as ->.
  { unfold pending_at. rewrite place_now. apply due_all. eapply Forall_impl; [by apply Hn|].
    intros n [_ Hp _]. by apply place_near_now. }
  simpl. fold r. change (arr_get (near T) (time T mod 2 ^ 8)) with (get_list T r).
  rewrite (get_list_slot _ _ Hsh Hv). simpl. destruct (slot T r) as [|n0 ns] eqn:E.
  { exists T. split_and!; auto; [split; auto|]. unfold pending_at. rewrite place_now. fold r. by rewrite E. }
  destruct (link_clear_ok T r Hsh Hv) as (T' & Hcl & Hsh' & Ht' & Hr & Hoth).
  rewrite Hcl, E. simpl. change (arr_get (near T') (time T mod 2 ^ 8)) with (get_list T' r).
  rewrite (get_list_slot _ _ Hsh' Hv), Hr. simpl. exists T'. rewrite app_nil_r.
  split_and!; auto.
  - split; [done|]. intros r' Hv'. destruct (decide (r' = r)) as [->|]; [by rewrite Hr; constructor|].
    rewrite Hoth by done. eapply Forall_impl; [by apply Hn|]. intros x []. split; by rewrite ?Ht'.
  - unfold pending_at. rewrite Ht', place_now. fold r. by rewrite Hr.
  - intros e He Hne. unfold pending_at. rewrite Ht', Hoth; auto with machine.
    intros Hp. apply Hne. by apply place_near_now.
Qed.

(** *** Advancing the clock *)

(** No node is due at the current time. *)
Definition quiet (T : timer) : Prop :=
  ∀ r n, valid_ref r → n ∈ slot T r → expire n ≠ time T.

Lemma quiet_pending T : wheel_ok T → pending_at T (time T) = [] → quiet T.
Proof.
  intros [Hsh Hn] Hp r n Hv Hin He. pose proof (Hn r Hv) as HF. rewrite Forall_forall in HF.
  destruct (HF n Hin) as [_ Hpl _]. rewrite He in Hpl. unfold pending_at in Hp. rewrite Hpl in Hp.
  eapply (filter_nil_not_elem_of (λ x, expire x = time T) _ n Hp); done.
Qed.

Lemma ahead_succ e c :
  0 <= e < 2 ^ 32 → 0 <= c < 2 ^ 32 → e ≠ c → ahead e (u32 (c + 1)) = ahead e c - 1 ∧ 1 <= ahead e c.
Proof. unfold ahead, u32. intros. dlia. Qed.

(** Clearing the moved list leaves a wheel that is right for the new time. *)
Lemma shifted_ok T T2 :
  wheel_ok T → quiet T → wheel_shape T2 → time T2 = u32 (time T + 1) →
  (∀ r, valid_ref r → slot T2 r = if decide (moved (time T2) = Some r) then [] else slot T r) →
  wheel_ok T2.
Proof.
  intros [Hsh Hn] Hq Hsh2 Ht2 Hsl. split; [done|]. intros r Hv. rewrite Hsl by done.
  case_decide as Hm; [constructor|]. pose proof (Hn r Hv) as HF. rewrite Forall_forall in HF |- *.
  intros n Hin. destruct (HF n Hin) as [Hr Hp Ha]. pose proof (shape_time _ Hsh).
  destruct (ahead_succ (expire n) (time T)) as [Ea Ha1]; eauto.
  rewrite Ht2 in *. split; [done| |rewrite Ht2, Ea; lia].
  rewrite Ht2, place_stable; auto; congruence.
Qed.

Lemma shifted_pending T T2 L e :
  wheel_ok T → quiet T → time T2 = u32 (time T + 1) → 0 <= e < 2 ^ 32 →
  (∀ r, valid_ref r → slot T2 r = if decide (moved (time T2) = Some r) then [] else slot T r) →
  L = match moved (time T2) with Some r => slot T r | None => [] end →
  (∀ r, moved (time T2) = Some r → valid_ref r) →
  pending_at T2 e ++ due e L = pending_at T e.
Proof.
  intros [Hsh Hn] Hq Ht2 He Hsl -> HvM. unfold pending_at.
  set (r := place e (time T)). set (r' := place e (time T2)).
  assert (valid_ref r) as Hv by (apply place_valid_ref; lia).
  assert (valid_ref r') as Hv' by (apply place_valid_ref; lia).
  assert (∀ r0, valid_ref r0 → r0 ≠ r → due e (slot T r0) = []) as Hother.
  { intros r0 Hv0 Hne. apply due_none. eapply Forall_impl; [by apply Hn|].
    intros n [_ Hp _] <-. by apply Hne. }
  rewrite (Hsl r' Hv'). destruct (decide (moved (time T2) = Some r)) as [Hm|Hm].
  - rewrite Hm. case_decide as Hm'; [done|]. rewrite Hother; [done|done|congruence].
  - assert (match moved (time T2) with Some r => due e (slot T r) | None => [] end = []) as HL.
    { destruct (moved (time T2)) as [rm|]; [|done]. apply Hother; [auto|congruence]. }
    assert (due e (match moved (time T2) with Some r => slot T r | None => [] end) = []) as ->
      by (destruct (moved (time T2)); done).
    rewrite app_nil_r. destruct (decide (e = time T ∨ ¬ ahead e (time T) < 2 ^ 31)) as [Hno|Hyes].
    + assert (∀ r0, valid_ref r0 → due e (slot T r0) = []) as Hnone.
      { intros r0 Hv0. apply due_none. pose proof (Hn r0 Hv0) as HF. rewrite Forall_forall in HF |- *.
        intros n Hin E. destruct (HF n Hin) as [_ _ Ha]. destruct Hno as [Hno|Hno].
        - apply (Hq r0 n Hv0 Hin). congruence.
        - apply Hno. congruence. }
      rewrite (Hnone r Hv). case_decide; [done|]. by apply Hnone.
    + pose proof (shape_time _ Hsh). destruct (ahead_succ e (time T)) as [_ Ha]; [done..|tauto|].
      assert (r' = r) as ->.
      { unfold r', r. rewrite Ht2 in *. apply place_stable; auto. split; [done|].
        destruct (decide (ahead e (time T) < 2 ^ 31)); tauto. }
      by rewrite decide_False.
Qed.

Lemma moved_valid c r : 0 <= c → moved c = Some r → valid_ref r.
Proof.
  intros Hc. unfold moved. repeat case_match; intros [= <-]; simpl; repeat split; try lia;
    apply Z.mod_pos_bound; lia.
Qed.

Lemma set_time_shape T c : wheel_shape T → 0 <= c < 2 ^ 32 → wheel_shape (set_time T c).
Proof. intros [] ?. split; done. Qed.

Lemma moved_level c r : moved c = Some r → ∃ l i, r = Level l i.
Proof. unfold moved. repeat case_match; intros [= <-]; eauto. Qed.

(** [timer_shift] redistributes the moved list, if there is one. *)
Lemma timer_shift_moved T :
  timer_shift T =
    match moved (u32 (time T + 1)) with
    | None => Some (set_time T (u32 (time T + 1)))
    | Some (Level l i) => move_list (set_time T (u32 (time T + 1))) l i
    | Some (Near _) => None
    end.
Proof.
  unfold timer_shift. pose proof (u32_range (time T + 1)).
  destruct (Z.eqb_spec (u32 (time T + 1)) 0) as [E|E].
  - rewrite E. reflexivity.
  - destruct (shift_loop_moved (u32 (time T + 1))) as (r & -> & ->); [lia|].
    destruct r as [[l i]|]; reflexivity.
Qed.

Lemma timer_shift_ok T :
  wheel_ok T → quiet T →
  ∃ T', timer_shift T = Some T' ∧ wheel_ok T' ∧ time T' = u32 (time T + 1) ∧
    ∀ e, 0 <= e < 2 ^ 32 → pending_at T' e = pending_at T e.
Proof.
  intros Hok Hq. pose proof Hok as [Hsh Hn]. pose proof (u32_range (time T + 1)) as Hc.
  rewrite timer_shift_moved. set (c := u32 (time T + 1)) in *.
  pose proof (set_time_shape T c Hsh Hc) as Hsh1. destruct (moved c) as [r|] eqn:Hm.
  - pose proof (moved_valid c r (proj1 Hc) Hm) as Hv. destruct (moved_level _ _ Hm) as (l & i & ->).
    unfold move_list.
    destruct (link_clear_ok (set_time T c) (Level l i) Hsh1 Hv) as (T2 & -> & Hsh2 & Ht2 & Hr & Hoth).
    simpl in Ht2. cbn [mbind option_bind]. change (slot (set_time T c) (Level l i)) with (slot T (Level l i)).
    assert (∀ r, valid_ref r → slot T2 r = if decide (moved (time T2) = Some r) then [] else slot T r) as Hsl.
    { intros r Hvr. rewrite Ht2, Hm. case_decide as E; [by simplify_eq|]. apply Hoth; congruence. }
    destruct (add_nodes_ok (slot T (Level l i)) T2) as (T' & -> & Hok' & Ht' & Hp).
    { eapply shifted_ok; eauto. }
    { pose proof (Hn _ Hv) as HF. rewrite Forall_forall in HF |- *. intros n Hin.
      destruct (HF n Hin) as [Hrg _ Ha]. split; [done|]. rewrite Ht2. unfold c.
      destruct (ahead_succ (expire n) (time T)) as [-> _]; eauto using shape_time. lia. }
    exists T'. split_and!; auto; [congruence|]. intros e He. rewrite Hp by lia.
    eapply shifted_pending; eauto; rewrite Ht2, Hm; [done|by intros ? [= <-]].
  - exists (set_time T c). split_and!; auto.
    + eapply shifted_ok; eauto. intros r Hv. simpl. by rewrite Hm, decide_False.
    + intros e He. rewrite <- (app_nil_r (pending_at (set_time T c) e)).
      apply (shifted_pending T (set_time T c) [] e); auto; simpl; rewrite Hm.
      * intros r Hv. by rewrite decide_False.
      * done.
      * done.
Qed.

(** ** The wheel implements the specification *)

Lemma timer_update_ok T :
  wheel_ok T →
  let n := u32 (time T + 1) in
  ∃ T', timer_update T = Some (pending_at T (time T) ++ pending_at T n, T') ∧
    wheel_ok T' ∧ time T' = n ∧ pending_at T' (time T) = [] ∧ pending_at T' n = [] ∧
    ∀ e, 0 <= e < 2 ^ 32 → e ≠ time T → e ≠ n → pending_at T' e = pending_at T e.
Proof.
  intros Hok n. pose proof (shape_time _ (wheel_sh _ Hok)) as Htm.
  assert (0 <= n < 2 ^ 32) as Hn by apply u32_range.
  assert (n ≠ time T) as Hne by (unfold n, u32; dlia). unfold timer_update.
  destruct (timer_execute_ok T Hok) as (T1 & -> & Hok1 & Ht1 & Hp1 & Ho1). cbn [mbind option_bind].
  destruct (timer_shift_ok T1 Hok1) as (T2 & -> & Hok2 & Ht2 & Hp2).
  { apply quiet_pending; [done|]. by rewrite Ht1. }
  cbn [mbind option_bind]. rewrite Ht1 in Ht2. fold n in Ht2.
  destruct (timer_execute_ok T2 Hok2) as (T3 & -> & Hok3 & Ht3 & Hp3 & Ho3). cbn [mbind option_bind].
  exists T3. rewrite Ht2 in *. split_and!; auto.
  - by rewrite Hp2, Ho1 by lia.
  - by rewrite Ho3, Hp2 by lia.
  - intros e He H1 H2. by rewrite Ho3, Hp2, Ho1 by lia.
Qed.

(** The abstraction: for every deadline the wheel and the specification hold
    the same nodes in the same order. *)
Record timer_refines (T : timer) (A : spec_timer) : Prop := mk_refines {
  ref_ok : wheel_ok T;
  ref_now : now A = time T;
  ref_pending : ∀ e, 0 <= e < 2 ^ 32 → due e (pending A) = pending_at T e
}.

Lemma timer_add_refines T A ev tm :
  timer_refines T A → 0 < tm <= INT_MAX →
  ∃ T', timer_add T ev tm = Some T' ∧ timer_refines T' (spec_add A ev tm).
Proof.
  intros [Hok Hnow Hp] Htm. pose proof (shape_time _ (wheel_sh _ Hok)) as Hc. unfold timer_add.
  assert (add_nodes T [mk_node (u32 (tm + time T)) ev] = add_node T (mk_node (u32 (tm + time T)) ev)) as <-.
  { simpl. destruct (add_node _ _); done. }
  destruct (add_nodes_ok [mk_node (u32 (tm + time T)) ev] T Hok) as (T' & -> & Hok' & Ht' & Hp').
  { apply Forall_singleton. split; simpl; [apply u32_range|].
    unfold ahead, u32, INT_MAX in *. dlia. }
  exists T'. split; [done|]. split; simpl; [done|congruence|].
  intros e He. rewrite due_app, Hp, Hp', Hnow by lia. by rewrite (Z.add_comm (time T)).
Qed.

Lemma due_not_due e e' ns : due e (not_due e' ns) = if decide (e = e') then [] else due e ns.
Proof.
  unfold due, not_due. case_decide as E.
  - subst. apply due_none. rewrite Forall_forall. intros n Hn. apply list_elem_of_filter in Hn. tauto.
  - apply list_filter_filter_l. intros n Hn. congruence.
Qed.

Lemma timer_update_refines T A :
  timer_refines T A →
  ∃ T', timer_update T = Some ((spec_tick A).1, T') ∧ timer_refines T' (spec_tick A).2.
Proof.
  intros [Hok Hnow Hp]. pose proof (shape_time _ (wheel_sh _ Hok)) as Hc.
  destruct (timer_update_ok T Hok) as (T' & -> & Hok' & Ht' & Hp1 & Hp2 & Ho).
  assert (0 <= u32 (time T + 1) < 2 ^ 32) as Hn by apply u32_range.
  assert (u32 (time T + 1) ≠ time T) as Hne by (unfold u32; dlia).
  exists T'. unfold spec_tick. rewrite Hnow. simpl. split.
  - rewrite due_not_due, decide_False, !Hp by done. done.
  - split; simpl; [done|congruence|]. intros e He. rewrite !due_not_due.
    case_decide as E1; [subst; by rewrite Hp2|]. case_decide as E2; [subst; by rewrite Hp1|].
    rewrite Ho, Hp; done.
Qed.

Lemma slot_create r : slot timer_create_timer r = [].
Proof.
  unfold slot, get_list, arr_get, timer_create_timer. destruct r as [i|l i]; cbn [near t].
  - destruct (0 <=? i); [|done]. destruct (_ !! _) eqn:E; [|done].
    by apply lookup_replicate in E as [-> _].
  - destruct (0 <=? l); [|done]. destruct (_ !! Z.to_nat l) eqn:E; [|done]. cbn [mbind option_bind].
    apply lookup_replicate in E as [-> _]. destruct (0 <=? i); [|done].
    destruct (_ !! _) eqn:E; [|done]. by apply lookup_replicate in E as [-> _].
Qed.

Lemma timer_create_refines s c p : timer_refines (skynet_timer_init s c p) (mk_spec 0 []).
Proof.
  assert (∀ r, slot (skynet_timer_init s c p) r = []) as Hs by apply slot_create.
  split; [|done|].
  - split; [split|]; try done.
    + intros l row [-> _]%(lookup_replicate 4). apply length_replicate.
    + intros r _. rewrite Hs. constructor.
  - intros e He. unfold pending_at. by rewrite Hs.
Qed.

Lemma timer_exec_refines ops : ∀ T A,
  timer_refines T A → forallb op_ok ops = true →
  ∃ T', timer_exec ops T = Some ((spec_exec ops A).1, T') ∧ timer_refines T' (spec_exec ops A).2.
Proof.
  induction ops as [|[ev tm|] ops IH]; intros T A HR Hops;
    cbn [timer_exec spec_exec forallb op_ok] in *; [by exists T| |].
  - bool_to_prop. destruct (timer_add_refines T A ev tm HR) as (T' & -> & HR'); [lia|].
    simpl. by apply IH.
  - destruct (timer_update_refines T A HR) as (T' & -> & HR'). cbn [mbind option_bind].
    destruct (spec_tick A) as [fired A'] eqn:E. simpl in HR' |- *.
    destruct (IH T' A' HR' Hops) as (T'' & -> & HR''). simpl.
    destruct (spec_exec ops A') as [rest A'']. exists T''. auto.
Qed.

(** ** Deadlines *)

Fixpoint ticks (ops : list timer_op) : nat :=
  match ops with
  | [] => O
  | OpTick :: ops' => S (ticks ops')
  | OpAdd _ _ :: ops' => ticks ops'
  end.

Lemma spec_exec_app ops1 ops2 A :
  spec_exec (ops1 ++ ops2) A =
    ((spec_exec ops1 A).1 ++ (spec_exec ops2 (spec_exec ops1 A).2).1,
     (spec_exec ops2 (spec_exec ops1 A).2).2).
Proof.
  revert A. induction ops1 as [|[ev tm|] ops1 IH]; intros A; cbn [app spec_exec].
  - simpl. by destruct (spec_exec ops2 A).
  - apply IH.
  - destruct (spec_tick A) as [fired A']. rewrite IH. by destruct (spec_exec ops1 A').
Qed.

Lemma spec_exec_shape ops A :
  length (spec_exec ops A).1 = ticks ops ∧
  u32 (now (spec_exec ops A).2) = u32 (now A + Z.of_nat (ticks ops)).
Proof.
  revert A. induction ops as [|[ev tm|] ops IH]; intros A; cbn [spec_exec ticks].
  - simpl. by rewrite Z.add_0_r.
  - apply (IH (spec_add A ev tm)).
  - destruct (spec_tick A) as [fired A'] eqn:E. destruct (IH A') as [H1 H2].
    destruct (spec_exec ops A') as [rest A'']. simpl in *. split; [by rewrite H1|].
    rewrite H2. replace (now A') with (u32 (now A + 1)) by (unfold spec_tick in E; simplify_eq; done).
    unfold u32. rewrite Zplus_mod_idemp_l. f_equal. lia.
Qed.

(** A node [k + 1] ticks ahead fires at tick number [k], counting from 0, and
    not before. *)
Lemma spec_fires ops : ∀ A n k,
  0 <= now A < 2 ^ 32 → n ∈ pending A → expire n = u32 (now A + Z.of_nat (S k)) →
  Z.of_nat k < 2 ^ 31 → (k < ticks ops)%nat →
  (∃ batch, (spec_exec ops A).1 !! k = Some batch ∧ n ∈ batch) ∧
  (∀ j batch, (j < k)%nat → (spec_exec ops A).1 !! j = Some batch → n ∉ batch).
Proof.
  induction ops as [|[ev tm|] ops IH]; intros A n k Hr Hin He Hk Hlt; cbn [spec_exec ticks] in *; [lia| |].
  - apply IH; simpl; auto. set_solver.
  - assert (expire n ≠ now A) as Hne by (rewrite He; unfold u32; dlia).
    assert (n ∈ not_due (now A) (pending A)) as Hnd by (apply list_elem_of_filter; done).
    unfold spec_tick. destruct k as [|k].
    + destruct (spec_exec ops _) as [rest A'']. simpl. split; [|lia]. eexists; split; [done|].
      apply elem_of_app. right. apply list_elem_of_filter. done.
    + assert (expire n ≠ u32 (now A + 1)) as Hne1 by (rewrite He; unfold u32; dlia).
      destruct (IH (mk_spec (u32 (now A + 1)) (not_due (u32 (now A + 1)) (not_due (now A) (pending A)))) n k)
        as [Hfire Hnot].
      * apply u32_range.
      * apply list_elem_of_filter. done.
      * rewrite He. simpl now. unfold u32. rewrite Zplus_mod_idemp_l. f_equal. lia.
      * lia.
      * lia.
      * destruct (spec_exec ops _) as [rest A'']. simpl in *. split; [done|].
        intros [|j] batch Hj Hb; [|eapply Hnot; eauto; lia]. injection Hb as <-.
        rewrite elem_of_app. unfold due. rewrite !list_elem_of_filter. naive_solver.
Qed.

(** ** Properties *)

(** C3. The timing wheel refines the list of pending timers: for every
    sequence of [timer_add] (with a positive delay) and [timer_update] calls
    from start-up, across all levels, cascades and the wrap-around of the
    32-bit clock, each update dispatches exactly the nodes whose deadline is
    the new time, in the order they were added. *)
Theorem timer_wheel_refines (sec cs point : Z) (ops : list timer_op)
    (Hops : forallb op_ok ops = true) :
  ∃ T', timer_exec ops (skynet_timer_init sec cs point)
        = Some ((spec_exec ops (mk_spec 0 [])).1, T') ∧
    timer_refines T' (spec_exec ops (mk_spec 0 [])).2.
Proof. apply timer_exec_refines; [apply timer_create_refines|done]. Qed.

Lemma timer_wheel_refines_witness :
  ∃ T', timer_exec [OpAdd (mk_event 1 7) 2; OpTick; OpTick] (skynet_timer_init 0 0 0)
        = Some ([[]; [mk_node 2 (mk_event 1 7)]], T').
Proof.
  destruct (timer_wheel_refines 0 0 0 [OpAdd (mk_event 1 7) 2; OpTick; OpTick]) as (T' & H & _);
    [reflexivity|].
  exists T'. exact H.
Defined.

(** Timers are exact: an event added with delay [d] after any history is
    dispatched by the [d]-th following update and by no earlier one, whatever
    other timers are added meanwhile. *)
Theorem timer_on_time (sec cs point d : Z) (ev : timer_event) (pre post : list timer_op)
    (Hpre : forallb op_ok pre = true) (Hpost : forallb op_ok post = true)
    (Hd : 0 < d <= INT_MAX) (Hticks : d <= Z.of_nat (ticks post)) :
  let n := mk_node (u32 (Z.of_nat (ticks pre) + d)) ev in
  let due_tick := (ticks pre + Z.to_nat (d - 1))%nat in
  ∃ outs T', timer_exec (pre ++ OpAdd ev d :: post) (skynet_timer_init sec cs point) = Some (outs, T') ∧
    (∃ batch, outs !! due_tick = Some batch ∧ n ∈ batch) ∧
    (∀ j batch, (ticks pre <= j < due_tick)%nat → outs !! j = Some batch → n ∉ batch).
Proof.
  intros n due_tick. destruct (timer_exec_refines (pre ++ OpAdd ev d :: post)
    (skynet_timer_init sec cs point) (mk_spec 0 [])) as (T' & HT & _).
  { apply timer_create_refines. }
  { rewrite forallb_app, Hpre. simpl. rewrite Hpost. unfold INT_MAX in *. by zcases. }
  do 2 eexists. split; [exact HT|]. rewrite spec_exec_app. cbn [fst spec_exec].
  destruct (timer_exec_refines pre (skynet_timer_init sec cs point) (mk_spec 0 [])) as (Tp & _ & HR);
    [apply timer_create_refines|done|].
  destruct (spec_exec_shape pre (mk_spec 0 [])) as [Hlen Hnow].
  set (A := (spec_exec pre (mk_spec 0 [])).2) in *. simpl (now (mk_spec 0 [])) in Hnow.
  assert (0 <= now A < 2 ^ 32) as HA.
  { destruct HR as [Hok -> _]. apply (shape_time _ (wheel_sh _ Hok)). }
  assert (n = mk_node (u32 (now A + d)) ev) as Hn.
  { unfold n. f_equal. unfold u32 in *. rewrite Z.add_0_l in Hnow.
    rewrite <- Zplus_mod_idemp_l, <- Hnow, Zplus_mod_idemp_l. reflexivity. }
  destruct (spec_fires post (spec_add A ev d) n (Z.to_nat (d - 1))) as [Hf Hnf].
  - done.
  - simpl. rewrite <- Hn. set_solver.
  - rewrite Hn. simpl. f_equal. f_equal. lia.
  - unfold INT_MAX in *. lia.
  - lia.
  - split.
    + unfold due_tick. rewrite lookup_app_r by lia. rewrite Hlen.
      by replace (ticks pre + Z.to_nat (d - 1) - ticks pre)%nat with (Z.to_nat (d - 1)) by lia.
    + intros j batch Hj. rewrite lookup_app_r by lia. apply Hnf. unfold due_tick in Hj. lia.
Qed.

Lemma timer_on_time_witness :
  ∃ outs T', timer_exec ([OpTick] ++ OpAdd (mk_event 3 4) 2 :: [OpTick; OpTick])
               (skynet_timer_init 0 0 0) = Some (outs, T') ∧
    (∃ batch, outs !! 2%nat = Some batch ∧ mk_node 3 (mk_event 3 4) ∈ batch).
Proof.
  destruct (timer_on_time 0 0 0 2 (mk_event 3 4) [OpTick] [OpTick; OpTick]) as (outs & T' & H1 & H2 & _).
  - reflexivity.
  - reflexivity.
  - unfold INT_MAX. lia.
  - simpl. lia.
  - exists outs, T'. split; [exact H1|exact H2].
Defined.
