(* ===== verification/HandleStorage.v ===== *)
(** * Handles and names of services: skynet-src/skynet_handle.c

    The handle storage maps the 24-bit handles of the node to contexts by a
    hash table without chains (slot [handle & (slot_size-1)], doubled when no
    handle fits) and keeps the local names in an array sorted by [strcmp],
    searched by bisection.  A context is an address [ctxid]; the functions
    that read [ctx->handle] take it as the map [ctx_handle], because
    [skynet_context_new] stores the handle in the context only after
    [skynet_handle_register] has returned.

    The write lock makes each operation atomic.  Releasing and grabbing a
    context are the business of the caller (Server.v): [skynet_handle_retire]
    returns the context it has removed, [skynet_handle_grab] the one found. *)

From Stdlib Require Import ZArith Lia.
From stdpp Require Import base tactics option numbers gmap list.
From S2P Require Import Prelude.

(** ** Data *)

Definition DEFAULT_SLOT_SIZE : Z := 4.
Definition MAX_SLOT_SIZE : Z := 1073741824.
Definition HANDLE_MASK : Z := 16777215.
Definition HANDLE_REMOTE_SHIFT : Z := 24.

(** An address of a [struct skynet_context]. *)
Abbreviation ctxid := positive (only parsing).

(** A C string: its bytes, without the final 0. *)
Abbreviation cstring := (list Z) (only parsing).

Record handle_name := mk_name { hn_name : cstring; hn_handle : Z }.

#[global] Instance handle_name_eq_dec : EqDecision handle_name.
Proof. solve_decision. Defined.

(** [struct handle_storage]; the cells of [name] never written are [None]. *)
Record handle_storage := mk_storage {
  harbor : Z;
  handle_index : Z;
  slot_size : Z;
  slot : list (option ctxid);
  name_cap : Z;
  name_count : Z;
  name : list (option handle_name)
}.

Definition set_slots (s : handle_storage) (idx size : Z) (sl : list (option ctxid)) : handle_storage :=
  mk_storage (harbor s) idx size sl (name_cap s) (name_count s) (name s).

Definition set_names (s : handle_storage) (c n : Z) (a : list (option handle_name)) : handle_storage :=
  mk_storage (harbor s) (handle_index s) (slot_size s) (slot s) c n a.

(** [strcmp]: the order of the bytes as unsigned characters. *)
Fixpoint strcmp (a b : cstring) : Z :=
  match a, b with
  | [], [] => 0
  | [], _ :: _ => -1
  | _ :: _, [] => 1
  | x :: a', y :: b' => if x <? y then -1 else if y <? x then 1 else strcmp a' b'
  end.

Definition skynet_handle_init (h : Z) : handle_storage :=
  mk_storage (u32 (Z.shiftl (Z.land h 255) HANDLE_REMOTE_SHIFT)) 1 DEFAULT_SLOT_SIZE
    (replicate (Z.to_nat DEFAULT_SLOT_SIZE) None) 2 0 (replicate 2 None).

(** ** Handles *)

Section Handles.
Context (ctx_handle : ctxid → Z).

(** The inner loop of [skynet_handle_register]: [Some (Some h)] when the
    handle [h] fits, [Some None] when the loop ends without one. *)
Fixpoint find_slot (n : nat) (i : Z) (s : handle_storage) : option (option Z) :=
  match n with
  | O => Some None
  | S n' =>
      let handle := Z.land (u32 (i + handle_index s)) HANDLE_MASK in
      let hash := Z.land handle (slot_size s - 1) in
      c ← arr_get (slot s) hash;
      if bool_decide (c = None) && negb (handle =? 1) then Some (Some handle)
      else find_slot n' (i + 1) s
  end.

(** The rehashing loop; a [NULL] slot is dereferenced by
    [skynet_context_handle], which is undefined. *)
Fixpoint rehash (old new_slot : list (option ctxid)) (size2 : Z) : option (list (option ctxid)) :=
  match old with
  | [] => Some new_slot
  | c :: old' =>
      ctx ← c;
      let hash := Z.land (ctx_handle ctx) (size2 - 1) in
      d ← arr_get new_slot hash;
      _ ← c_assert (bool_decide (d = None));
      new_slot' ← arr_set new_slot hash (Some ctx);
      rehash old' new_slot' size2
  end.

(** The growth of the table (lines 57 to 67). *)
Definition grow (s : handle_storage) : option handle_storage :=
  _ ← c_assert (slot_size s * 2 - 1 <=? HANDLE_MASK);
  sl ← rehash (slot s) (replicate (Z.to_nat (slot_size s * 2)) None) (slot_size s * 2);
  Some (set_slots s (handle_index s) (slot_size s * 2) sl).

(** The [for (;;)] loop; [fuel] bounds the number of doublings. *)
Fixpoint register_loop (fuel : nat) (ctx : ctxid) (s : handle_storage) : option (Z * handle_storage) :=
  match fuel with
  | O => None
  | S f =>
      r ← find_slot (Z.to_nat (slot_size s)) 0 s;
      match r with
      | Some handle =>
          sl ← arr_set (slot s) (Z.land handle (slot_size s - 1)) (Some ctx);
          Some (Z.lor handle (harbor s), set_slots s (handle + 1) (slot_size s) sl)
      | None => s' ← grow s; register_loop f ctx s'
      end
  end.

(** The table can be doubled 22 times before the assertion on [HANDLE_MASK]
    stops it. *)
Definition skynet_handle_register (ctx : ctxid) (s : handle_storage) : option (Z * handle_storage) :=
  register_loop 24 ctx s.

(** The loop over the names in [skynet_handle_retire]: entries of the handle
    are dropped, the others moved down. *)
Fixpoint compact_names (n : nat) (i j : Z) (handle : Z) (a : list (option handle_name))
    : option (Z * list (option handle_name)) :=
  match n with
  | O => Some (j, a)
  | S n' =>
      c ← arr_get a i;
      e ← c;
      if hn_handle e =? handle then compact_names n' (i + 1) j handle a
      else
        a' ← (if negb (i =? j) then arr_set a j (Some e) else Some a);
        compact_names n' (i + 1) (j + 1) handle a'
  end.

(** [skynet_handle_retire] up to the unlock: the context to release, if the
    handle was registered (the return value 1). *)
Definition skynet_handle_retire (handle : Z) (s : handle_storage) : option (option ctxid * handle_storage) :=
  let hash := Z.land handle (slot_size s - 1) in
  c ← arr_get (slot s) hash;
  match c with
  | Some ctx =>
      if ctx_handle ctx =? handle then
        sl ← arr_set (slot s) hash None;
        '(j, a) ← compact_names (Z.to_nat (name_count s)) 0 0 handle (name s);
        Some (Some ctx, set_names (set_slots s (handle_index s) (slot_size s) sl) (name_cap s) j a)
      else Some (None, s)
  | None => Some (None, s)
  end.

Definition skynet_handle_grab (handle : Z) (s : handle_storage) : option (option ctxid) :=
  c ← arr_get (slot s) (Z.land handle (slot_size s - 1));
  match c with
  | Some ctx => Some (if ctx_handle ctx =? handle then Some ctx else None)
  | None => Some None
  end.

(** The inner loop of [skynet_handle_retireall]: the contexts retired (their
    number is the counter [n] of the source). *)
Fixpoint retireall_pass (n : nat) (i : Z) (s : handle_storage) : option (list ctxid * handle_storage) :=
  match n with
  | O => Some ([], s)
  | S n' =>
      c ← arr_get (slot s) i;
      let handle := match c with Some ctx => ctx_handle ctx | None => 0 end in
      if negb (handle =? 0) then
        '(r, s1) ← skynet_handle_retire handle s;
        '(l, s2) ← retireall_pass n' (i + 1) s1;
        Some (option_list r ++ l, s2)
      else retireall_pass n' (i + 1) s
  end.

(** The [for (;;)] loop, run while no other thread registers or retires. *)
Fixpoint skynet_handle_retireall (fuel : nat) (s : handle_storage) : option (list ctxid * handle_storage) :=
  match fuel with
  | O => None
  | S f =>
      '(l, s1) ← retireall_pass (Z.to_nat (slot_size s)) 0 s;
      match l with
      | [] => Some ([], s1)
      | _ => '(l2, s2) ← skynet_handle_retireall f s1; Some (l ++ l2, s2)
      end
  end.
End Handles.

(** ** Names *)

(** The bisection of [skynet_handle_findname] and [_insert_name]: the entry
    found, or the final value of [begin]. *)
Fixpoint bsearch (fuel : nat) (a : list (option handle_name)) (nm : cstring) (begin_ end_ : Z)
    : option (handle_name + Z) :=
  if negb (begin_ <=? end_) then Some (inr begin_)
  else
    match fuel with
    | O => None
    | S f =>
        let mid := (begin_ + end_) / 2 in
        c ← arr_get a mid;
        n ← c;
        let r := strcmp (hn_name n) nm in
        if r =? 0 then Some (inl n)
        else if r <? 0 then bsearch f a nm (mid + 1) end_
        else bsearch f a nm begin_ (mid - 1)
    end.

Definition search (s : handle_storage) (nm : cstring) : option (handle_name + Z) :=
  bsearch (Z.to_nat (name_count s)) (name s) nm 0 (name_count s - 1).

Definition skynet_handle_findname (nm : cstring) (s : handle_storage) : option Z :=
  r ← search s nm;
  Some (match r with inl n => hn_handle n | inr _ => 0 end).

(** [for (i=0;i<before;i++) n[i] = s->name[i]] and its like: [k] cells from
    [src] at [i] to [dst] at [i + d]. *)
Fixpoint copy_cells (k : nat) (i d : Z) (src dst : list (option handle_name)) : option (list (option handle_name)) :=
  match k with
  | O => Some dst
  | S k' => c ← arr_get src i; dst' ← arr_set dst (i + d) c; copy_cells k' (i + 1) d src dst'
  end.

(** [for (i=s->name_count;i>before;i--) s->name[i] = s->name[i-1]] *)
Fixpoint shift_cells (k : nat) (i : Z) (a : list (option handle_name)) : option (list (option handle_name)) :=
  match k with
  | O => Some a
  | S k' => c ← arr_get a (i - 1); a' ← arr_set a i c; shift_cells k' (i - 1) a'
  end.

Definition _insert_name_before (s : handle_storage) (nm : cstring) (handle before : Z) : option handle_storage :=
  let count := name_count s in
  '(c, a) ←
    (if name_cap s <=? count then
       cap2 ← chk32 (name_cap s * 2);
       _ ← c_assert (cap2 <=? MAX_SLOT_SIZE);
       n1 ← copy_cells (Z.to_nat before) 0 0 (name s) (replicate (Z.to_nat cap2) None);
       n2 ← copy_cells (Z.to_nat (count - before)) before 1 (name s) n1;
       Some (cap2, n2)
     else
       a ← shift_cells (Z.to_nat (count - before)) count (name s);
       Some (name_cap s, a));
  a' ← arr_set a before (Some (mk_name nm handle));
  Some (set_names s c (count + 1) a').

(** [_insert_name]; [None] inside is the return value [NULL]. *)
Definition _insert_name (s : handle_storage) (nm : cstring) (handle : Z) : option (option cstring * handle_storage) :=
  r ← search s nm;
  match r with
  | inl _ => Some (None, s)
  | inr begin_ => s' ← _insert_name_before s nm handle begin_; Some (Some nm, s')
  end.

Definition skynet_handle_namehandle (handle : Z) (nm : cstring) (s : handle_storage)
    : option (option cstring * handle_storage) :=
  _insert_name s nm handle.

(** ** The order of names *)

Lemma strcmp_range a b : strcmp a b = -1 ∨ strcmp a b = 0 ∨ strcmp a b = 1.
Proof.
  revert b. induction a as [|x a IH]; intros [|y b]; simpl; auto.
  zcases; auto.
Qed.

Lemma strcmp_eq a b : strcmp a b = 0 ↔ a = b.
Proof.
  revert b. induction a as [|x a IH]; intros [|y b]; simpl; try (split; congruence).
  zcases; try (split; [lia | intros [= ]; lia]).
  assert (x = y) as -> by lia. rewrite IH. split; congruence.
Qed.

Lemma strcmp_antisym a b : strcmp b a = - strcmp a b.
Proof.
  revert b. induction a as [|x a IH]; intros [|y b]; simpl; auto.
  zcases; auto.
Qed.

Lemma strcmp_trans a b c : strcmp a b < 0 → strcmp b c < 0 → strcmp a c < 0.
Proof.
  revert b c. induction a as [|x a IH]; intros [|y b] [|z c]; simpl; try lia.
  zcases. eauto.
Qed.

Definition name_lt (a b : handle_name) : Prop := strcmp (hn_name a) (hn_name b) < 0.

(** Strictly increasing by index. *)
Definition sorted (l : list handle_name) : Prop :=
  ∀ i j a b, (i < j)%nat → l !! i = Some a → l !! j = Some b → name_lt a b.

(** The cells of the array up to [name_count] are the list [l]. *)
Record names_repr (s : handle_storage) (l : list handle_name) : Prop := {
  nr_count : name_count s = Z.of_nat (length l);
  nr_cap : Z.of_nat (length (name s)) = name_cap s;
  nr_cap_lo : 2 <= name_cap s <= MAX_SLOT_SIZE;
  nr_le : name_count s <= name_cap s;
  nr_cells : ∀ i x, l !! i = Some x → name s !! i = Some (Some x);
  nr_sorted : sorted l
}.

(** What the bisection returns: the entry of the name, or the place to put it. *)
Definition search_spec (l : list handle_name) (nm : cstring) (r : handle_name + Z) : Prop :=
  match r with
  | inl n => n ∈ l ∧ hn_name n = nm
  | inr b =>
      0 <= b <= Z.of_nat (length l) ∧
      ∀ i x, l !! i = Some x →
        (Z.of_nat i < b → strcmp (hn_name x) nm < 0) ∧ (b <= Z.of_nat i → 0 < strcmp (hn_name x) nm)
  end.

Lemma bsearch_spec fuel s l nm b e :
  names_repr s l →
  0 <= b → e < Z.of_nat (length l) → b <= e + 1 → (Z.to_nat (e - b + 1) <= fuel)%nat →
  (∀ i x, l !! i = Some x →
     (Z.of_nat i < b → strcmp (hn_name x) nm < 0) ∧ (e < Z.of_nat i → 0 < strcmp (hn_name x) nm)) →
  ∃ r, bsearch fuel (name s) nm b e = Some r ∧ search_spec l nm r.
Proof.
  intros Hr. revert b e. induction fuel as [|fuel IH]; intros b e Hb He Hbe Hf Hinv; simpl.
  - zcases; simpl. eexists; split; [reflexivity|]. split; [lia|].
    intros i x Hx. destruct (Hinv i x Hx). split; intros; auto with lia.
  - destruct (Z.leb_spec b e) as [Hle|Hgt]; simpl.
    + set (mid := (b + e) / 2). assert (b <= mid <= e) by (subst mid; dlia).
      destruct (lookup_lt_is_Some_2 l (Z.to_nat mid)) as [n Hn]; [lia|].
      rewrite arr_get_lookup, (nr_cells _ _ Hr _ _ Hn) by lia. simpl.
      destruct (Z.eqb_spec (strcmp (hn_name n) nm) 0) as [Hc|Hc].
      { eexists; split; [reflexivity|]. split; [by eapply list_elem_of_lookup_2|by apply strcmp_eq]. }
      assert (Hord : ∀ i x, l !! i = Some x → (Z.of_nat i < mid → name_lt x n) ∧ (mid < Z.of_nat i → name_lt n x)).
      { intros i x Hx. split; intros.
        - apply (nr_sorted _ _ Hr i (Z.to_nat mid)); auto. lia.
        - apply (nr_sorted _ _ Hr (Z.to_nat mid) i); auto. lia. }
      destruct (Z.ltb_spec (strcmp (hn_name n) nm) 0).
      * apply IH; try lia. intros i x Hx. destruct (Hinv i x Hx) as [Hi1 Hi2], (Hord i x Hx) as [Ho1 Ho2]. split; auto.
        intros. destruct (decide (Z.of_nat i = mid)) as [<-|].
        { rewrite Nat2Z.id in Hn. simplify_eq. lia. }
        eapply strcmp_trans; [apply Ho1; lia|lia].
      * apply IH; try lia. intros i x Hx. destruct (Hinv i x Hx) as [Hi1 Hi2], (Hord i x Hx) as [Ho1 Ho2]. split; auto.
        intros. destruct (decide (Z.of_nat i = mid)) as [<-|].
        { rewrite Nat2Z.id in Hn. simplify_eq. lia. }
        rewrite <- (Z.opp_involutive (strcmp _ _)), <- strcmp_antisym.
        enough (strcmp nm (hn_name x) < 0) by lia.
        eapply strcmp_trans; [rewrite strcmp_antisym; instantiate (1 := hn_name n); lia|apply Ho2; lia].
    + eexists; split; [reflexivity|]. split; [lia|].
      intros i x Hx. destruct (Hinv i x Hx). split; intros; auto with lia.
Qed.

Lemma search_ok s l nm : names_repr s l → ∃ r, search s nm = Some r ∧ search_spec l nm r.
Proof.
  intros Hr. unfold search. rewrite (nr_count _ _ Hr).
  apply (bsearch_spec _ s l); auto; try lia.
  intros i x Hx%lookup_lt_Some. split; lia.
Qed.

(** ** The loops over the names *)

Lemma copy_cells_spec k i d src dst :
  0 <= i → 0 <= i + d → i + Z.of_nat k <= Z.of_nat (length src) →
  i + d + Z.of_nat k <= Z.of_nat (length dst) →
  ∃ dst', copy_cells k i d src dst = Some dst' ∧ length dst' = length dst ∧
    ∀ j, 0 <= j → dst' !! Z.to_nat j =
      if (i + d <=? j) && (j <? i + d + Z.of_nat k) then src !! Z.to_nat (j - d) else dst !! Z.to_nat j.
Proof.
  revert i dst. induction k as [|k IH]; intros i dst Hi Hid Hs Hd.
  - exists dst. split_and!; auto. intros j Hj. zcases; reflexivity.
  - cbn [copy_cells]. destruct (arr_get_some src i) as [c Hc]; [lia|]. rewrite Hc. simpl.
    rewrite arr_set_some by lia. simpl.
    destruct (IH (i + 1) (<[Z.to_nat (i + d):=c]> dst)) as (dst' & -> & Hl & Hj); rewrite ?length_insert in *; try lia.
    eexists; split_and!; [reflexivity|done|]. intros j Hj0. rewrite Hj by lia.
    rewrite arr_get_lookup in Hc by lia.
    zcases; simpl; try reflexivity.
    + rewrite list_lookup_insert_ne by lia. reflexivity.
    + replace j with (i + d) by lia. rewrite list_lookup_insert_eq by lia.
      rewrite <- Hc. f_equal. lia.
    + rewrite list_lookup_insert_ne by lia. reflexivity.
Qed.

Lemma shift_cells_spec k i a :
  Z.of_nat k <= i → i < Z.of_nat (length a) →
  ∃ a', shift_cells k i a = Some a' ∧ length a' = length a ∧
    ∀ j, 0 <= j → a' !! Z.to_nat j =
      if (i - Z.of_nat k <? j) && (j <=? i) then a !! Z.to_nat (j - 1) else a !! Z.to_nat j.
Proof.
  revert i a. induction k as [|k IH]; intros i a Hi Hl.
  - exists a. split_and!; auto. intros j Hj. zcases; reflexivity.
  - cbn [shift_cells]. destruct (arr_get_some a (i - 1)) as [c Hc]; [lia|]. rewrite Hc. simpl.
    rewrite arr_set_some by lia. simpl.
    destruct (IH (i - 1) (<[Z.to_nat i:=c]> a)) as (a' & -> & Hl' & Hj); rewrite ?length_insert in *; try lia.
    eexists; split_and!; [reflexivity|done|]. intros j Hj0. rewrite Hj by lia.
    rewrite arr_get_lookup in Hc by lia.
    zcases; simpl; try (rewrite list_lookup_insert_ne by lia; reflexivity).
    replace j with i by lia. by rewrite list_lookup_insert_eq by lia.
Qed.

Definition insert_at (b : nat) (x : handle_name) (l : list handle_name) : list handle_name :=
  take b l ++ x :: drop b l.

Lemma insert_at_lookup b x l j :
  (b <= length l)%nat →
  insert_at b x l !! j = if decide (j < b)%nat then l !! j else if decide (j = b) then Some x else l !! (j - 1)%nat.
Proof.
  intros Hb. unfold insert_at. case_decide as H1.
  - rewrite lookup_app_l by (rewrite length_take; lia). by apply lookup_take_lt.
  - rewrite lookup_app_r by (rewrite length_take; lia). rewrite length_take, Nat.min_l by lia.
    case_decide as H2; [subst; by rewrite Nat.sub_diag|].
    destruct (j - b)%nat eqn:E; [lia|]. simpl. rewrite lookup_drop. f_equal. lia.
Qed.

Lemma insert_at_sorted b nm h l :
  sorted l → search_spec l nm (inr (Z.of_nat b)) → sorted (insert_at b (mk_name nm h) l).
Proof.
  intros Hs [Hb Hc] i j x y Hij. rewrite !insert_at_lookup by lia.
  repeat case_decide; try lia; intros Hx Hy; simplify_eq; unfold name_lt; simpl.
  - eapply (Hs i j); eauto.
  - apply (Hc i x Hx). lia.
  - apply (Hs i (j - 1)%nat); auto. lia.
  - rewrite strcmp_antisym. enough (0 < strcmp (hn_name y) nm) by lia. apply (Hc _ _ Hy). lia.
  - apply (Hs (i - 1)%nat (j - 1)%nat); auto. lia.
Qed.

Lemma set_names_fields s c n a :
  name_cap (set_names s c n a) = c ∧ name_count (set_names s c n a) = n ∧ name (set_names s c n a) = a.
Proof. done. Qed.

Lemma insert_name_before_ok s l nm h b :
  names_repr s l → search_spec l nm (inr (Z.of_nat b)) → Z.of_nat (length l) < MAX_SLOT_SIZE / 2 →
  ∃ c a, _insert_name_before s nm h (Z.of_nat b) = Some (set_names s c (Z.of_nat (length l) + 1) a) ∧
    names_repr (set_names s c (Z.of_nat (length l) + 1) a) (insert_at b (mk_name nm h) l).
Proof.
  intros Hr Hsp Hmax. destruct Hr as [Hcnt Hcap Hlo Hle Hcells Hsort].
  assert (MAX_SLOT_SIZE / 2 * 2 = MAX_SLOT_SIZE ∧ MAX_SLOT_SIZE < INT_MAX) as [Hm Hm'] by (by vm_compute).
  assert (b <= length l)%nat as Hb by (destruct Hsp; lia).
  assert (Hlen : length (insert_at b (mk_name nm h) l) = S (length l)).
  { unfold insert_at. rewrite length_app, length_take. simpl. rewrite length_drop. lia. }
  unfold _insert_name_before. rewrite Hcnt.
  destruct (Z.leb_spec (name_cap s) (Z.of_nat (length l))) as [Hfull|Hroom].
  - rewrite chk32_some by (unfold INT_MIN in *; lia). simpl. unfold c_assert. zcases. simpl.
    destruct (copy_cells_spec (Z.to_nat (Z.of_nat b)) 0 0 (name s) (replicate (Z.to_nat (name_cap s * 2)) None))
      as (n1 & -> & Hl1 & Hj1); rewrite ?length_replicate in *; try lia. simpl.
    destruct (copy_cells_spec (Z.to_nat (Z.of_nat (length l) - Z.of_nat b)) (Z.of_nat b) 1 (name s) n1)
      as (n2 & -> & Hl2 & Hj2); try lia. simpl.
    rewrite arr_set_some by lia. simpl. do 2 eexists. split; [reflexivity|].
    split; simpl; rewrite ?length_insert, ?Hlen; auto using insert_at_sorted; try lia.
    intros i x. rewrite insert_at_lookup by lia. rewrite Nat2Z.id.
    intros Hx. specialize (Hj1 (Z.of_nat i)). specialize (Hj2 (Z.of_nat i)). rewrite Nat2Z.id in *.
    assert (i <= length l)%nat.
    { repeat case_decide; try lia; apply lookup_lt_Some in Hx; lia. }
    destruct (decide (i = b)) as [->|].
    { rewrite decide_False in Hx by lia. simplify_eq. rewrite list_lookup_insert_eq by lia. done. }
    rewrite list_lookup_insert_ne, Hj2 by lia.
    case_decide.
    + zcases. simpl. rewrite Hj1 by lia. zcases. simpl. rewrite Z.sub_0_r, Nat2Z.id. auto.
    + zcases. simpl. replace (Z.to_nat (Z.of_nat i - 1)) with (i - 1)%nat by lia. auto.
  - destruct (shift_cells_spec (Z.to_nat (Z.of_nat (length l) - Z.of_nat b)) (Z.of_nat (length l)) (name s))
      as (a & -> & Hl1 & Hj1); try lia. simpl.
    rewrite arr_set_some by lia. simpl. do 2 eexists. split; [reflexivity|].
    split; simpl; rewrite ?length_insert, ?Hlen; auto using insert_at_sorted; try lia.
    intros i x. rewrite insert_at_lookup by lia. rewrite Nat2Z.id.
    intros Hx. specialize (Hj1 (Z.of_nat i)). rewrite Nat2Z.id in *.
    assert (i <= length l)%nat.
    { repeat case_decide; try lia; apply lookup_lt_Some in Hx; lia. }
    destruct (decide (i = b)) as [->|].
    { rewrite decide_False in Hx by lia. simplify_eq. rewrite list_lookup_insert_eq by lia. done. }
    rewrite list_lookup_insert_ne, Hj1 by lia.
    case_decide; zcases; simpl; auto.
    replace (Z.to_nat (Z.of_nat i - 1)) with (i - 1)%nat by lia. auto.
Qed.

Lemma compact_names_spec l i j h a :
  0 <= j <= i → i + Z.of_nat (length l) <= Z.of_nat (length a) →
  (∀ k x, l !! k = Some x → a !! (Z.to_nat i + k)%nat = Some (Some x)) →
  let l' := filter (λ x, hn_handle x ≠ h) l in
  ∃ a', compact_names (length l) i j h a = Some (j + Z.of_nat (length l'), a') ∧ length a' = length a ∧
    (∀ k, (k < Z.to_nat j)%nat → a' !! k = a !! k) ∧
    (∀ k x, l' !! k = Some x → a' !! (Z.to_nat j + k)%nat = Some (Some x)).
Proof.
  revert i j a. induction l as [|x l IH]; intros i j a Hij Hlen Hc; cbn [compact_names length]; cbv zeta.
  { exists a. split_and!; auto. - simpl. f_equal. f_equal. lia. - intros k x [=]. }
  simpl in Hlen. pose proof (Hc 0%nat x eq_refl) as Hx. rewrite Nat.add_0_r in Hx.
  rewrite arr_get_lookup, Hx by lia. simpl. destruct (Z.eqb_spec (hn_handle x) h) as [Heq|Hne].
  - destruct (IH (i + 1) j a) as (a' & -> & Hl & Hlow & Hcells); try lia.
    { intros k y Hy. rewrite <- (Hc (S k) y Hy). f_equal. lia. }
    rewrite filter_cons_False by auto. exists a'. auto.
  - rewrite filter_cons_True by auto.
    assert (∃ a1, (if negb (i =? j) then arr_set a j (Some x) else Some a) = Some a1 ∧
              a1 = <[Z.to_nat j := Some x]> a) as (a1 & -> & ->).
    { destruct (Z.eqb_spec i j) as [->|]; simpl.
      - eexists; split; [reflexivity|]. by rewrite list_insert_id.
      - rewrite arr_set_some by lia. eauto. }
    simpl. destruct (IH (i + 1) (j + 1) (<[Z.to_nat j:=Some x]> a)) as (a' & -> & Hl & Hlow & Hcells);
      rewrite ?length_insert in *; try lia.
    { intros k y Hy. rewrite list_lookup_insert_ne by lia. rewrite <- (Hc (S k) y Hy). f_equal. lia. }
    exists a'. split_and!; auto.
    + f_equal. f_equal. simpl. lia.
    + intros k Hk. rewrite Hlow by lia. by rewrite list_lookup_insert_ne by lia.
    + intros [|k] y Hy; simplify_eq/=.
      * rewrite Nat.add_0_r, Hlow by lia. rewrite list_lookup_insert_eq by lia. done.
      * rewrite <- (Hcells k y Hy). f_equal. lia.
Qed.

Lemma sorted_cons x l : sorted (x :: l) ↔ (∀ y, y ∈ l → name_lt x y) ∧ sorted l.
Proof.
  split.
  - intros Hs. split.
    + intros y [k Hk]%list_elem_of_lookup_1. apply (Hs 0%nat (S k)); auto. lia.
    + intros i j a b Hij Ha Hb. apply (Hs (S i) (S j)); auto. lia.
  - intros [Hx Hs] [|i] [|j] a b Hij Ha Hb; simplify_eq/=; try lia.
    + apply Hx. by eapply list_elem_of_lookup_2.
    + apply (Hs i j); auto. lia.
Qed.

Lemma sorted_filter (P : handle_name → Prop) `{∀ x, Decision (P x)} l : sorted l → sorted (filter P l).
Proof.
  induction l as [|x l IH]; [done|]. rewrite sorted_cons. intros [Hx Hs].
  destruct (decide (P x)); [rewrite filter_cons_True by done|rewrite filter_cons_False by done; auto].
  apply sorted_cons. split; auto. intros y [_ Hy]%list_elem_of_filter. auto.
Qed.

(** ** The table of handles *)

(** The context is in the table. *)
Definition in_table (s : handle_storage) (c : ctxid) : Prop := ∃ i, slot s !! i = Some (Some c).

(** The invariant of the table: its size is a power of two, each context is
    in the slot of its handle, and its handle carries the harbor id. *)
Record table_wf (ch : ctxid → Z) (s : handle_storage) (k : Z) : Prop := {
  tw_k : 2 <= k <= 24;
  tw_size : slot_size s = 2 ^ k;
  tw_len : Z.of_nat (length (slot s)) = 2 ^ k;
  tw_index : 1 <= handle_index s <= 2 ^ 24;
  tw_harbor : harbor s mod 2 ^ 24 = 0 ∧ 0 <= harbor s < 2 ^ 32;
  tw_slot : ∀ i c, slot s !! i = Some (Some c) → ch c mod 2 ^ k = Z.of_nat i ∧ ch c / 2 ^ 24 * 2 ^ 24 = harbor s
}.

(** The contexts of the table by handle. *)
Definition table_repr (ch : ctxid → Z) (s : handle_storage) (m : gmap Z ctxid) : Prop :=
  ∀ h c, m !! h = Some c ↔ in_table s c ∧ ch c = h.

Section Table.
Context (ch : ctxid → Z) (s : handle_storage) (k : Z) (Hwf : table_wf ch s k).

Lemma pow_k_pos : 4 <= 2 ^ k.
Proof.
  pose proof (tw_k _ _ _ Hwf). change 4 with (2 ^ 2). apply Z.pow_le_mono_r; lia.
Qed.

Lemma hash_range h : 0 <= Z.land h (slot_size s - 1) < Z.of_nat (length (slot s)).
Proof using Hwf.
  pose proof (tw_k _ _ _ Hwf). rewrite (tw_size _ _ _ Hwf), (tw_len _ _ _ Hwf), land_ones_mod by lia.
  apply Z.mod_pos_bound. pose proof pow_k_pos. lia.
Qed.

Lemma hash_mod h : Z.land h (slot_size s - 1) = h mod 2 ^ k.
Proof using Hwf.
  pose proof (tw_k _ _ _ Hwf). rewrite (tw_size _ _ _ Hwf), land_ones_mod by lia. reflexivity.
Qed.

Lemma slot_get h : ∃ c, arr_get (slot s) (Z.land h (slot_size s - 1)) = Some c ∧
  slot s !! Z.to_nat (h mod 2 ^ k) = Some c.
Proof using Hwf.
  pose proof (hash_range h) as Hr. destruct (arr_get_some (slot s) _ Hr) as [c Hc]. exists c. split; auto.
  rewrite arr_get_lookup in Hc by lia. by rewrite hash_mod in Hc.
Qed.

Lemma in_table_slot c : in_table s c → slot s !! Z.to_nat (ch c mod 2 ^ k) = Some (Some c).
Proof using Hwf.
  intros [i Hi]. destruct (tw_slot _ _ _ Hwf i c Hi) as [-> _]. by rewrite Nat2Z.id.
Qed.

Lemma grab_lookup m h : table_repr ch s m → skynet_handle_grab ch h s = Some (m !! h).
Proof using Hwf.
  intros Hm. unfold skynet_handle_grab. destruct (slot_get h) as (c & -> & Hc). simpl.
  destruct c as [c|].
  - destruct (Z.eqb_spec (ch c) h) as [<-|Hne]; f_equal; symmetry.
    + apply Hm. split; auto. by eexists.
    + destruct (m !! h) as [d|] eqn:Hd; auto. apply Hm in Hd as [Hd <-].
      apply in_table_slot in Hd. simplify_eq.
  - f_equal. symmetry. destruct (m !! h) as [d|] eqn:Hd; auto. apply Hm in Hd as [Hd <-].
    apply in_table_slot in Hd. simplify_eq.
Qed.

(** The inner loop tries the handles from [handle_index] on. *)
Lemma find_slot_spec n i :
  0 <= i → handle_index s + i + Z.of_nat n <= 2 ^ 24 →
  ∃ r, find_slot n i s = Some r ∧
    match r with
    | Some h => handle_index s + i <= h < handle_index s + i + Z.of_nat n ∧ h ≠ 1 ∧
        slot s !! Z.to_nat (h mod 2 ^ k) = Some None
    | None => ∀ h, handle_index s + i <= h < handle_index s + i + Z.of_nat n → h ≠ 1 →
        ∃ c, slot s !! Z.to_nat (h mod 2 ^ k) = Some (Some c)
    end.
Proof using Hwf.
  pose proof (tw_index _ _ _ Hwf). revert i. induction n as [|n IH]; intros i Hi Hb; cbn [find_slot].
  { exists None. split; auto. lia. }
  assert (Z.land (u32 (i + handle_index s)) HANDLE_MASK = handle_index s + i) as ->.
  { rewrite u32_small by lia. change HANDLE_MASK with (2 ^ 24 - 1). rewrite land_ones_mod by lia.
    rewrite Z.mod_small; lia. }
  destruct (slot_get (handle_index s + i)) as (c & -> & Hc). simpl.
  case_bool_decide as Hd; simpl; [destruct (Z.eqb_spec (handle_index s + i) 1); simpl|].
  2: { eexists; split; [reflexivity|]. subst. split_and!; auto; lia. }
  all: destruct (IH (i + 1)) as (r & -> & Hr); try lia; eexists; split; [reflexivity|].
  all: destruct r as [h|]; [destruct Hr as (? & ? & ?); split_and!; auto; lia|].
  all: intros h Hh Hh1; destruct (decide (h = handle_index s + i)) as [->|]; [|apply Hr; lia].
  - lia.
  - destruct c as [c|]; [eauto|done].
Qed.

(** A full round of the inner loop visits every slot. *)
Lemma round_covers j : 0 <= j < 2 ^ k → ∃ h, handle_index s <= h < handle_index s + 2 ^ k ∧ h mod 2 ^ k = j.
Proof using Hwf.
  intros Hj. exists (handle_index s + (j - handle_index s) mod 2 ^ k).
  pose proof pow_k_pos. pose proof (Z.mod_pos_bound (j - handle_index s) (2 ^ k)).
  split; [lia|]. rewrite Z.add_mod_idemp_r by lia.
  replace (handle_index s + (j - handle_index s)) with j by lia. by apply Z.mod_small.
Qed.
End Table.

(** *** Growing the table *)

Lemma mod_double h k : 0 <= k → (h mod 2 ^ (k + 1)) mod 2 ^ k = h mod 2 ^ k.
Proof.
  intros. rewrite Z.pow_add_r by lia. assert (0 < 2 ^ k) by (apply Z.pow_pos_nonneg; lia).
  rewrite Z.rem_mul_r by lia. rewrite Z.mul_comm, Z_mod_plus_full, Z.mod_mod by lia. reflexivity.
Qed.

Lemma rehash_spec ch k old new p :
  0 <= k → Z.of_nat (length new) = 2 ^ (k + 1) →
  (∀ i c, old !! i = Some c → ∃ c', c = Some c' ∧ ch c' mod 2 ^ k = Z.of_nat (p + i)) →
  (∀ q c, new !! q = Some (Some c) → Z.of_nat q mod 2 ^ k < Z.of_nat p) →
  ∃ new', rehash ch old new (2 ^ (k + 1)) = Some new' ∧ length new' = length new ∧
    ∀ q c, new' !! q = Some (Some c) ↔
      new !! q = Some (Some c) ∨ (Some c ∈ old ∧ ch c mod 2 ^ (k + 1) = Z.of_nat q).
Proof.
  intros Hk. assert (0 < 2 ^ (k + 1)) by (apply Z.pow_pos_nonneg; lia).
  revert new p. induction old as [|c old IH]; intros new p Hlen Hold Hnew; cbn [rehash].
  { exists new. split_and!; auto. intros q c. set_solver. }
  destruct (Hold 0%nat c eq_refl) as (ctx & -> & Hp). simpl. rewrite Nat.add_0_r in Hp.
  rewrite land_ones_mod by lia. set (q := ch ctx mod 2 ^ (k + 1)).
  assert (0 <= q < 2 ^ (k + 1)) by (apply Z.mod_pos_bound; lia).
  assert (Hqp : q mod 2 ^ k = Z.of_nat p) by (subst q; by rewrite mod_double).
  destruct (lookup_lt_is_Some_2 new (Z.to_nat q)) as [d Hd]; [lia|].
  assert (d = None) as ->.
  { destruct d as [d|]; auto. apply Hnew in Hd. rewrite Z2Nat.id in Hd by lia. lia. }
  rewrite arr_get_lookup, Hd by lia. simpl. rewrite arr_set_some by lia. simpl.
  destruct (IH (<[Z.to_nat q:=Some ctx]> new) (S p)) as (new' & -> & Hl & Hiff).
  - by rewrite length_insert.
  - intros i e He. destruct (Hold (S i) e He) as (c' & -> & Hc'). exists c'. split; auto. rewrite Hc'. lia.
  - intros q' e. destruct (decide (q' = Z.to_nat q)) as [->|].
    + intros _. rewrite Z2Nat.id by lia. lia.
    + rewrite list_lookup_insert_ne by done. intros He%Hnew. lia.
  - exists new'. rewrite length_insert in Hl. split_and!; auto. intros q' e. rewrite Hiff, elem_of_cons.
    destruct (decide (q' = Z.to_nat q)) as [->|Hne].
    + rewrite list_lookup_insert_eq, Hd, Z2Nat.id by lia. split.
      * intros [[= <-]|[? ?]]; auto.
      * intros [[=]|[[[= ->]|] ?]]; auto.
    + rewrite list_lookup_insert_ne by done. split; [naive_solver|].
      intros [?|[[[= ->]|] He]]; auto. subst q. lia.
Qed.

Lemma grow_ok ch s k :
  table_wf ch s k → k < 24 → (∀ i, (i < length (slot s))%nat → ∃ c, slot s !! i = Some (Some c)) →
  ∃ s', grow ch s = Some s' ∧ table_wf ch s' (k + 1) ∧ handle_index s' = handle_index s ∧ harbor s' = harbor s ∧
    (∀ c, in_table s' c ↔ in_table s c) ∧ (∃ i, slot s' !! i = Some None) ∧
    name_cap s' = name_cap s ∧ name_count s' = name_count s ∧ name s' = name s.
Proof.
  intros Hwf Hk24 Hfull. destruct Hwf as [Hk Hsz Hlen Hidx Hharb Hslot].
  assert (Hdbl : 2 ^ k * 2 = 2 ^ (k + 1)) by (rewrite Z.pow_add_r by lia; reflexivity).
  assert (2 ^ (k + 1) <= 2 ^ 24) by (apply Z.pow_le_mono_r; lia).
  assert (0 < 2 ^ k) by (apply Z.pow_pos_nonneg; lia).
  unfold grow. rewrite Hsz, Hdbl. unfold c_assert, HANDLE_MASK. zcases. simpl.
  destruct (rehash_spec ch k (slot s) (replicate (Z.to_nat (2 ^ (k + 1))) None) 0) as (sl & -> & Hl & Hiff).
  - lia.
  - rewrite length_replicate. lia.
  - intros i c Hc. destruct (Hfull i) as [d Hd]; [by eapply lookup_lt_Some|]. simplify_eq.
    exists d. split; auto. by apply (Hslot i d).
  - intros q c [[=] _]%lookup_replicate_1.
  - rewrite length_replicate in Hl. simpl. eexists; split; [reflexivity|].
    assert (Hiff' : ∀ q c, sl !! q = Some (Some c) ↔ Some c ∈ slot s ∧ ch c mod 2 ^ (k + 1) = Z.of_nat q).
    { intros q c. rewrite Hiff. split; [|auto]. intros [[[=] _]%lookup_replicate_1|?]; auto. }
    assert (Hin : ∀ c, Some c ∈ slot s ↔ in_table s c).
    { intros c. apply list_elem_of_lookup. }
    split_and!; try done.
    + split; simpl; auto; try lia. intros q c [[i Hi]%Hin Hq]%Hiff'. split; auto. by apply (Hslot i c).
    + intros c. split.
      * intros [q [? _]%Hiff']. by apply Hin.
      * intros Hc. exists (Z.to_nat (ch c mod 2 ^ (k + 1))). apply Hiff'. split; [by apply Hin|].
        rewrite Z2Nat.id; auto. apply Z.mod_pos_bound. lia.
    + (* slot 0 of the old table holds one context; one of its two places is free *)
      destruct (Hfull 0%nat) as [c0 Hc0]; [lia|]. destruct (Hslot _ _ Hc0) as [Hm0 _].
      set (q0 := ch c0 mod 2 ^ (k + 1)). set (q := if q0 =? 0 then 2 ^ k else 0).
      assert (0 <= q < 2 ^ (k + 1) ∧ q mod 2 ^ k = 0 ∧ q ≠ q0) as (Hq1 & Hq2 & Hq3).
      { subst q. destruct (Z.eqb_spec q0 0) as [->|]; split_and!; try lia.
        - by rewrite Z.mod_same by lia.
        - by rewrite Z.mod_0_l by lia. }
      exists (Z.to_nat q). simpl. destruct (lookup_lt_is_Some_2 sl (Z.to_nat q)) as [d Hd]; [lia|].
      rewrite Hd. destruct d as [d|]; auto. exfalso. apply Hiff' in Hd as [[i Hi]%Hin Hdq].
      rewrite Z2Nat.id in Hdq by lia. destruct (Hslot _ _ Hi) as [Hmi _].
      rewrite <- (mod_double (ch d)), Hdq, Hq2 in Hmi by lia.
      assert (i = 0%nat) as -> by lia. simplify_eq.
Qed.

(** *** Registering a context *)

(** The handles the next registration can try are not yet wrapped around, and
    slot 1 of an untouched table is the only one skipped. *)
Definition has_room (s : handle_storage) : Prop :=
  handle_index s + 2 * slot_size s <= 2 ^ 24 ∧ (2 <= handle_index s ∨ ∀ c, ¬ in_table s c).

(** [context->handle = h] *)
Definition set_handle (ch : ctxid → Z) (c : ctxid) (h : Z) : ctxid → Z :=
  λ d, if decide (d = c) then h else ch d.

Lemma set_handle_ne ch c h d : d ≠ c → set_handle ch c h d = ch d.
Proof. intros. unfold set_handle. by rewrite decide_False. Qed.

Lemma set_handle_eq ch c h : set_handle ch c h c = h.
Proof. unfold set_handle. by rewrite decide_True. Qed.

Lemma lor_high h hb : 0 <= h < 2 ^ 24 → hb mod 2 ^ 24 = 0 → Z.lor h hb = hb + h.
Proof.
  intros Hh Hhb. rewrite Z.lor_comm.
  assert (hb = Z.shiftl (hb / 2 ^ 24) 24) as E by (rewrite Z.shiftl_mul_pow2 by lia; dlia).
  rewrite E, lor_shiftl_add by lia. dlia.
Qed.

(** The part of the loop that takes the handle found. *)
Lemma register_found ch ctx s k h fuel :
  table_wf ch s k → ¬ in_table s ctx →
  2 <= h < 2 ^ 24 → slot s !! Z.to_nat (h mod 2 ^ k) = Some None →
  find_slot (Z.to_nat (slot_size s)) 0 s = Some (Some h) →
  let hd := harbor s + h in
  ∃ s', register_loop ch (S fuel) ctx s = Some (hd, s') ∧ table_wf (set_handle ch ctx hd) s' k ∧
    handle_index s' = h + 1 ∧ (∀ c, in_table s' c ↔ c = ctx ∨ in_table s c) ∧ (∀ c, in_table s c → ch c ≠ hd) ∧
    name_cap s' = name_cap s ∧ name_count s' = name_count s ∧ name s' = name s ∧ harbor s' = harbor s.
Proof.
  intros Hwf Hnin Hh Hfree Hfind hd. pose proof Hwf as [Hk Hsz Hlen Hidx [Hharb Hharb'] Hslot].
  assert (Hmod : hd mod 2 ^ k = h mod 2 ^ k).
  { subst hd. assert (harbor s mod 2 ^ k = 0) as Hz.
    { apply Z.mod_divide; [pose proof (pow_k_pos _ _ _ Hwf); lia|].
      apply (Z.divide_trans _ (2 ^ 24)); [|apply Z.mod_divide; lia].
      exists (2 ^ (24 - k)). rewrite <- Z.pow_add_r by lia. f_equal. lia. }
    pose proof (pow_k_pos _ _ _ Hwf). rewrite <- Z.add_mod_idemp_l, Hz by lia. done. }
  pose proof (hash_range _ _ _ Hwf h) as Hhr. pose proof (hash_mod _ _ _ Hwf h) as Hhm.
  cbn [register_loop]. rewrite Hfind. simpl. rewrite arr_set_some by done. simpl.
  rewrite lor_high by (auto; lia). eexists; split; [reflexivity|].
  rewrite Hhm in *. set (p := Z.to_nat (h mod 2 ^ k)) in *.
  assert (Hp : (p < length (slot s))%nat) by lia.
  split_and!; try done; simpl.
  - split; simpl; rewrite ?length_insert; auto; try lia.
    intros i c. destruct (decide (i = p)) as [->|].
    + rewrite list_lookup_insert_eq by done. intros [= <-]. rewrite set_handle_eq, Hmod. subst p hd.
      split; [lia|]. dlia.
    + rewrite list_lookup_insert_ne by done. intros Hc.
      rewrite set_handle_ne; [by apply Hslot|]. intros ->. apply Hnin. by eexists.
  - intros c. split.
    + intros [i Hi]. simpl in Hi. destruct (decide (i = p)) as [->|].
      * rewrite list_lookup_insert_eq in Hi by done. naive_solver.
      * rewrite list_lookup_insert_ne in Hi by done. right. by eexists.
    + intros [->|[i Hi]].
      * exists p. simpl. by rewrite list_lookup_insert_eq.
      * exists i. simpl. rewrite list_lookup_insert_ne; [done|]. intros <-. simplify_eq.
  - intros c Hc Hch. apply (in_table_slot _ _ _ Hwf) in Hc. rewrite Hch, Hmod in Hc. fold p in Hc. congruence.
Qed.

(** One round of the inner loop, with a table that is not full. *)
Lemma find_free ch s k :
  table_wf ch s k → handle_index s + 2 ^ k <= 2 ^ 24 →
  (2 <= handle_index s ∧ (∃ i, slot s !! i = Some None)) ∨ (∀ c, ¬ in_table s c) →
  ∃ h, find_slot (Z.to_nat (slot_size s)) 0 s = Some (Some h) ∧ 2 <= h < 2 ^ 24 ∧ handle_index s <= h ∧
    slot s !! Z.to_nat (h mod 2 ^ k) = Some None.
Proof.
  intros Hwf Hroom Hfree. pose proof (pow_k_pos _ _ _ Hwf). pose proof (tw_index _ _ _ Hwf).
  rewrite (tw_size _ _ _ Hwf).
  destruct (find_slot_spec _ _ _ Hwf (Z.to_nat (2 ^ k)) 0) as (r & -> & Hr); try lia.
  destruct r as [h|].
  { destruct Hr as (? & ? & ?). exists h. split_and!; auto; lia. }
  exfalso. destruct Hfree as [[Hi [j Hj]]|Hnone].
  - pose proof (lookup_lt_Some _ _ _ Hj). pose proof (tw_len _ _ _ Hwf).
    destruct (round_covers _ _ _ Hwf (Z.of_nat j)) as (h & Hh & Hhj); [lia|].
    destruct (Hr h) as [c Hc]; try lia. rewrite Hhj, Nat2Z.id in Hc. simplify_eq.
  - destruct (Hr (handle_index s + 1)) as [c Hc]; try lia. apply (Hnone c). by eexists.
Qed.

Lemma register_ok ch ctx s k :
  table_wf ch s k → has_room s → ¬ in_table s ctx →
  ∃ h s' k', skynet_handle_register ch ctx s = Some (harbor s + h, s') ∧
    2 <= h < 2 ^ 24 ∧ handle_index s <= h ∧ handle_index s' = h + 1 ∧
    table_wf (set_handle ch ctx (harbor s + h)) s' k' ∧ k <= k' <= k + 1 ∧
    (∀ c, in_table s' c ↔ c = ctx ∨ in_table s c) ∧ (∀ c, in_table s c → ch c ≠ harbor s + h) ∧
    name_cap s' = name_cap s ∧ name_count s' = name_count s ∧ name s' = name s ∧ harbor s' = harbor s.
Proof.
  intros Hwf [Hroom Hst] Hnin. pose proof (pow_k_pos _ _ _ Hwf) as H4. pose proof (tw_index _ _ _ Hwf).
  pose proof (tw_size _ _ _ Hwf) as Hsz. pose proof (tw_len _ _ _ Hwf) as Hlen. unfold skynet_handle_register.
  assert (((∀ c, ¬ in_table s c) ∨ 2 <= handle_index s ∧ None ∈ slot s) ∨ 2 <= handle_index s ∧ None ∉ slot s)
    as [Hc|[Hi2 Hfull]] by (destruct Hst, (decide (None ∈ slot s)); tauto).
  - destruct (find_free _ _ _ Hwf) as (h & Hf & Hh & Hih & Hfree); [lia| |].
    { destruct Hc as [?|[? ?%list_elem_of_lookup]]; auto. }
    destruct (register_found ch ctx s k h 23 Hwf Hnin Hh Hfree Hf)
      as (s' & Hl & Hwf' & Hi' & Hin & Hne & ? & ? & ? & ?).
    exists h, s', k. split_and!; auto; lia.
  - assert (Hall : ∀ i, (i < length (slot s))%nat → ∃ c, slot s !! i = Some (Some c)).
    { intros i [[c|] Hi]%lookup_lt_is_Some_2; eauto. exfalso. apply Hfull.
      by eapply list_elem_of_lookup_2. }
    assert (k < 24) as Hk.
    { destruct (decide (k < 24)); auto. assert (2 ^ 24 <= 2 ^ k) by (apply Z.pow_le_mono_r; lia). lia. }
    destruct (grow_ok _ _ _ Hwf Hk Hall) as (s1 & Hg & Hwf1 & Hi1 & Hh1 & Hin1 & Hfr1 & ? & ? & ?).
    assert (find_slot (Z.to_nat (slot_size s)) 0 s = Some None) as Hf0.
    { rewrite Hsz. destruct (find_slot_spec _ _ _ Hwf (Z.to_nat (2 ^ k)) 0) as (r & -> & Hr); try lia.
      destruct r as [h|]; auto. destruct Hr as (? & ? & Hr).
      destruct (Hall (Z.to_nat (h mod 2 ^ k))) as [c Hc]; [by eapply lookup_lt_Some|]. simplify_eq. }
    destruct (find_free _ _ _ Hwf1) as (h & Hf & Hh & Hih & Hfree).
    { rewrite Hi1, Z.pow_add_r by (pose proof (tw_k _ _ _ Hwf); lia). lia. }
    { left. rewrite Hi1. auto. }
    assert (¬ in_table s1 ctx) as Hnin1 by (by rewrite Hin1).
    destruct (register_found ch ctx s1 (k + 1) h 22 Hwf1 Hnin1 Hh Hfree Hf)
      as (s' & Hl & Hwf' & Hi' & Hin & Hne & ? & ? & ? & ?).
    rewrite Hh1 in *.
    exists h, s', (k + 1). split_and!; try lia; try congruence; auto.
    + change 24%nat with (S 23). remember 23%nat as n eqn:En. cbn [register_loop]. rewrite Hf0. simpl.
      rewrite Hg. simpl. subst n. exact Hl.
    + intros c. rewrite Hin, Hin1. done.
    + intros c Hc. apply Hne. by rewrite Hin1.
Qed.

(** ** The contract of the storage

    Handles are a finite map to contexts, names a finite map to handles. *)

Record handles := mk_handles { hs_ctx : gmap Z ctxid; hs_names : gmap cstring Z }.

Inductive handle_op :=
  | op_register (ctx : ctxid)
  | op_retire (handle : Z)
  | op_grab (handle : Z)
  | op_findname (nm : cstring)
  | op_namehandle (handle : Z) (nm : cstring).

Inductive handle_ret :=
  | ret_handle (h : Z)
  | ret_ctx (c : option ctxid)
  | ret_name (nm : option cstring).

(** Running an operation of skynet_handle.c; a registered context is given
    its handle as [skynet_context_new] does. *)
Definition exec_op (o : handle_op) (ch : ctxid → Z) (s : handle_storage)
    : option (handle_ret * (ctxid → Z) * handle_storage) :=
  match o with
  | op_register ctx =>
      '(h, s') ← skynet_handle_register ch ctx s; Some (ret_handle h, set_handle ch ctx h, s')
  | op_retire h => '(c, s') ← skynet_handle_retire ch h s; Some (ret_ctx c, ch, s')
  | op_grab h => c ← skynet_handle_grab ch h s; Some (ret_ctx c, ch, s)
  | op_findname nm => h ← skynet_handle_findname nm s; Some (ret_handle h, ch, s)
  | op_namehandle h nm => '(r, s') ← skynet_handle_namehandle h nm s; Some (ret_name r, ch, s')
  end.

(** What each operation promises.  A new handle carries the harbor [hb] in
    its high byte, is unused, and its low 24 bits are neither 0 nor 1. *)
Inductive spec_op (hb : Z) (m : handles) : handle_op → handle_ret → handles → Prop :=
  | spec_register ctx h :
      h / 2 ^ 24 * 2 ^ 24 = hb → 2 <= h mod 2 ^ 24 → hs_ctx m !! h = None →
      spec_op hb m (op_register ctx) (ret_handle h) (mk_handles (<[h := ctx]> (hs_ctx m)) (hs_names m))
  | spec_retire h c :
      hs_ctx m !! h = Some c →
      spec_op hb m (op_retire h) (ret_ctx (Some c))
        (mk_handles (delete h (hs_ctx m)) (filter (λ p, p.2 ≠ h) (hs_names m)))
  | spec_retire_none h :
      hs_ctx m !! h = None → spec_op hb m (op_retire h) (ret_ctx None) m
  | spec_grab h : spec_op hb m (op_grab h) (ret_ctx (hs_ctx m !! h)) m
  | spec_findname nm : spec_op hb m (op_findname nm) (ret_handle (default 0 (hs_names m !! nm))) m
  | spec_namehandle h nm :
      hs_names m !! nm = None →
      spec_op hb m (op_namehandle h nm) (ret_name (Some nm)) (mk_handles (hs_ctx m) (<[nm := h]> (hs_names m)))
  | spec_namehandle_dup h nm :
      is_Some (hs_names m !! nm) → spec_op hb m (op_namehandle h nm) (ret_name None) m.

(** The names as a map. *)
Definition names_map (l : list handle_name) (nm : gmap cstring Z) : Prop :=
  ∀ n h, nm !! n = Some h ↔ mk_name n h ∈ l.

Record storage_repr (ch : ctxid → Z) (s : handle_storage) (m : handles) : Prop := {
  sr_table : ∃ k, table_wf ch s k;
  sr_ctx : table_repr ch s (hs_ctx m);
  sr_names : ∃ l, names_repr s l ∧ names_map l (hs_names m)
}.

(** When an operation may be called: registration with handles left and a
    context not yet registered, naming with the array below its limit. *)
Definition op_ok (s : handle_storage) (m : handles) (o : handle_op) : Prop :=
  match o with
  | op_register ctx => has_room s ∧ (∀ h, hs_ctx m !! h ≠ Some ctx)
  | op_namehandle _ _ => name_count s < MAX_SLOT_SIZE / 2
  | _ => True
  end.

(** *** The operations on names *)

Lemma names_repr_ext s s' l :
  name_cap s' = name_cap s → name_count s' = name_count s → name s' = name s →
  names_repr s l → names_repr s' l.
Proof. intros Hc Hn Ha [? ? ? ? ? ?]. split; rewrite ?Hc, ?Hn, ?Ha; auto. Qed.

Lemma table_wf_ext ch s k c n a : table_wf ch s k ↔ table_wf ch (set_names s c n a) k.
Proof. split; intros [? ? ? ? ? ?]; split; auto. Qed.

Lemma search_found s l m nm n :
  names_map l m → names_repr s l → search_spec l nm (inl n) → m !! nm = Some (hn_handle n).
Proof. intros Hm Hr [Hin <-]. apply Hm. by destruct n. Qed.

Lemma search_missing l m nm b :
  names_map l m → search_spec l nm (inr b) → m !! nm = None.
Proof.
  intros Hm [_ Hall]. destruct (m !! nm) as [h|] eqn:E; auto. apply Hm in E as [i Hi]%list_elem_of_lookup.
  destruct (Hall i _ Hi) as [Hlt Hgt]. simpl in *.
  assert (strcmp nm nm = 0) by (by apply strcmp_eq).
  destruct (Z.lt_ge_cases (Z.of_nat i) b); [specialize (Hlt H0)|specialize (Hgt H0)]; lia.
Qed.

Lemma findname_lookup s l m nm :
  names_repr s l → names_map l m → skynet_handle_findname nm s = Some (default 0 (m !! nm)).
Proof.
  intros Hr Hm. unfold skynet_handle_findname. destruct (search_ok s l nm Hr) as (r & -> & Hs). simpl.
  destruct r as [n|b].
  - by rewrite (search_found _ _ _ _ _ Hm Hr Hs).
  - by rewrite (search_missing _ _ _ _ Hm Hs).
Qed.

Lemma namehandle_ok s l m h nm :
  names_repr s l → names_map l m → name_count s < MAX_SLOT_SIZE / 2 →
  match m !! nm with
  | Some _ => skynet_handle_namehandle h nm s = Some (None, s)
  | None => ∃ c n a l', skynet_handle_namehandle h nm s = Some (Some nm, set_names s c n a) ∧
      names_repr (set_names s c n a) l' ∧ names_map l' (<[nm := h]> m)
  end.
Proof.
  intros Hr Hm Hlim. unfold skynet_handle_namehandle, _insert_name.
  destruct (search_ok s l nm Hr) as (r & -> & Hs). simpl. destruct r as [n|b].
  { by rewrite (search_found _ _ _ _ _ Hm Hr Hs). }
  pose proof (search_missing _ _ _ _ Hm Hs) as Hno. rewrite Hno. rewrite (nr_count _ _ Hr) in Hlim.
  assert (Hb : Z.of_nat (Z.to_nat b) = b) by (destruct Hs; lia). rewrite <- Hb in Hs.
  destruct (insert_name_before_ok s l nm h (Z.to_nat b) Hr Hs) as (c & a & Hins & Hr'); [lia|].
  rewrite Hb in Hins. rewrite Hins. simpl. do 4 eexists. split_and!; [reflexivity|exact Hr'|].
  intros n' h'. unfold insert_at. rewrite elem_of_app, elem_of_cons.
  assert (Hl : ∀ x, x ∈ l ↔ x ∈ take (Z.to_nat b) l ∨ x ∈ drop (Z.to_nat b) l).
  { intros x. rewrite <- elem_of_app. by rewrite take_drop. }
  destruct (decide (n' = nm)) as [->|Hne].
  - rewrite lookup_insert_eq. split; [intros [= <-]; auto|].
    intros [Ht|[[= ->]|Ht]]; auto; exfalso;
      (assert (mk_name nm h' ∈ l) as Hx by (apply Hl; auto)); apply Hm in Hx; congruence.
  - rewrite lookup_insert_ne by done. rewrite (Hm n' h'), Hl. split; [tauto|].
    intros [?|[[= ? ?]|?]]; auto. congruence.
Qed.

Lemma retire_names s l m h :
  names_repr s l → names_map l m →
  ∃ j a l', compact_names (Z.to_nat (name_count s)) 0 0 h (name s) = Some (j, a) ∧
    (∀ s', name s' = a → name_count s' = j → name_cap s' = name_cap s → names_repr s' l') ∧
    names_map l' (filter (λ p, p.2 ≠ h) m).
Proof.
  intros [Hcnt Hcap Hlo Hle Hcells Hsort] Hm.
  destruct (compact_names_spec l 0 0 h (name s)) as (a & Hc & Hlen & _ & Hcells'); try lia.
  { intros k x Hx. by apply Hcells. }
  rewrite Hcnt, Nat2Z.id, Hc.
  pose proof (length_filter (λ x, hn_handle x ≠ h) l) as Hfl.
  do 2 eexists. exists (filter (λ x, hn_handle x ≠ h) l). split_and!; [reflexivity| |].
  - intros s' Ha Hn Hp. split; rewrite ?Ha, ?Hn, ?Hp; try lia; [|by apply (sorted_filter _ _ Hsort)].
    intros i x Hx. by apply Hcells'.
  - intros n h'. rewrite map_lookup_filter_Some, (Hm n h'), list_elem_of_filter. simpl. tauto.
Qed.

Lemma retire_ok ch s k h m l nm :
  table_wf ch s k → table_repr ch s m → names_repr s l → names_map l nm →
  ∃ s', skynet_handle_retire ch h s = Some (m !! h, s') ∧ table_wf ch s' k ∧
    match m !! h with
    | Some _ => table_repr ch s' (delete h m) ∧
        ∃ l', names_repr s' l' ∧ names_map l' (filter (λ p, p.2 ≠ h) nm)
    | None => s' = s
    end.
Proof.
  intros Hwf Hm Hr Hn. pose proof (grab_lookup _ _ _ Hwf m h Hm) as Hg.
  unfold skynet_handle_grab in Hg. unfold skynet_handle_retire.
  destruct (slot_get _ _ _ Hwf h) as (c & Hget & Hc). rewrite Hget in *. simpl in *.
  destruct c as [c|]; [|injection Hg as <-; eauto].
  destruct (Z.eqb_spec (ch c) h) as [<-|]; injection Hg as <-; [|eauto].
  pose proof (hash_range _ _ _ Hwf (ch c)) as Hhr. pose proof (hash_mod _ _ _ Hwf (ch c)) as Hhm.
  rewrite arr_set_some by done. simpl.
  destruct (retire_names s l nm (ch c) Hr Hn) as (j & a & l' & -> & Hr' & Hn'). simpl.
  rewrite Hhm in *. set (p := Z.to_nat (ch c mod 2 ^ k)) in *.
  assert (Hin : ∀ d, (∃ i, <[p:=None]> (slot s) !! i = Some (Some d)) ↔ in_table s d ∧ d ≠ c).
  { intros d. split.
    - intros [i Hi]. destruct (decide (i = p)) as [->|].
      { rewrite list_lookup_insert_eq in Hi by (subst p; lia). done. }
      rewrite list_lookup_insert_ne in Hi by done. split; [by eexists|]. intros ->.
      destruct (tw_slot _ _ _ Hwf i c Hi). subst p. lia.
    - intros [[i Hi] Hne]. exists i. rewrite list_lookup_insert_ne; auto. intros <-. congruence. }
  eexists; split; [reflexivity|]. split; [|split].
  - apply table_wf_ext. destruct Hwf as [? ? ? ? ? Hslot]. split; simpl; rewrite ?length_insert; auto.
    intros i d Hd. apply Hslot. destruct (decide (i = p)) as [->|].
    { rewrite list_lookup_insert_eq in Hd by (subst p; lia). done. }
    by rewrite list_lookup_insert_ne in Hd.
  - intros h d. unfold in_table. simpl. rewrite Hin.
    destruct (decide (h = ch c)) as [->|].
    + rewrite lookup_delete_eq. split; [done|]. intros [[Hd Hne] Heq]. apply (in_table_slot _ _ _ Hwf) in Hd.
      rewrite Heq in Hd. fold p in Hd. congruence.
    + rewrite lookup_delete_ne by done. rewrite (Hm h d). split; [|tauto].
      intros [? <-]. split_and!; auto. congruence.
  - exists l'. split; auto.
Qed.

Lemma register_repr ch ctx s m :
  storage_repr ch s m → has_room s → (∀ h, hs_ctx m !! h ≠ Some ctx) →
  ∃ h s', skynet_handle_register ch ctx s = Some (h, s') ∧
    h / 2 ^ 24 * 2 ^ 24 = harbor s ∧ 2 <= h mod 2 ^ 24 ∧ hs_ctx m !! h = None ∧
    storage_repr (set_handle ch ctx h) s' (mk_handles (<[h := ctx]> (hs_ctx m)) (hs_names m)) ∧
    harbor s' = harbor s.
Proof.
  intros [[k Hwf] Hm [l [Hr Hn]]] Hroom Hnew.
  assert (Hnin : ¬ in_table s ctx) by (intros Hi; eapply Hnew, Hm; eauto).
  destruct (register_ok ch ctx s k Hwf Hroom Hnin)
    as (h & s' & k' & Hreg & Hh & _ & _ & Hwf' & _ & Hin & Hne & Hc & Hcn & Hna & Hhb).
  destruct (tw_harbor _ _ _ Hwf) as [Hhm ?].
  exists (harbor s + h), s'. split_and!; auto; try dlia.
  { destruct (hs_ctx m !! (harbor s + h)) as [d|] eqn:E; auto. apply Hm in E as [? ?]. by edestruct Hne. }
  split; simpl; [by eexists| |exists l; split; auto; by eapply names_repr_ext].
  intros g d. rewrite Hin. destruct (decide (d = ctx)) as [->|Hd].
  - rewrite set_handle_eq. destruct (decide (g = harbor s + h)) as [->|].
    + rewrite lookup_insert_eq. tauto.
    + rewrite lookup_insert_ne by done. split; [by intros ?%Hnew|]. intros [_ ?]. congruence.
  - rewrite set_handle_ne by done. destruct (decide (g = harbor s + h)) as [->|].
    + rewrite lookup_insert_eq. split; [congruence|]. intros [[?|Hi] Hg]; [done|]. by edestruct Hne.
    + rewrite lookup_insert_ne by done. rewrite (Hm g d). tauto.
Qed.

(** C16. The handle storage refines its contract: from any state that
    represents a map of handles to contexts and a map of names to handles,
    every operation (registration while unwrapped handles are left, retiring,
    grabbing, finding and setting names) returns without a failed assertion or
    a bad access, gives the result the contract prescribes and leaves a state
    that represents the contract's next maps.  In particular a fresh handle is
    unused, retiring a handle removes exactly its context and its names, the
    bisection finds exactly the names bound, and growing the table loses
    nothing. *)
Theorem handle_storage_refines o ch s m :
  storage_repr ch s m → op_ok s m o →
  ∃ r ch' s' m', exec_op o ch s = Some (r, ch', s') ∧ spec_op (harbor s) m o r m' ∧
    storage_repr ch' s' m' ∧ harbor s' = harbor s.
Proof.
  intros Hrep Hok. pose proof Hrep as [[k Hwf] Hm [l [Hr Hn]]]. destruct o as [ctx|h|h|nm|h nm]; simpl.
  - destruct Hok as [Hroom Hnew]. destruct (register_repr _ _ _ _ Hrep Hroom Hnew) as (h & s' & -> & ? & ? & ? & ? & ?).
    simpl. do 4 eexists. split; [reflexivity|]. split; [by constructor|]. auto.
  - destruct (retire_ok _ _ _ h _ _ _ Hwf Hm Hr Hn) as (s' & Hret & Hwf' & Hs').
    assert (harbor s' = harbor s) as Hh.
    { revert Hret. unfold skynet_handle_retire. intros. bind_inv. destruct x as [c|]; simplify_eq/=; auto.
      destruct (_ =? _); simplify_eq/=; auto. bind_inv. destruct x0. simplify_eq/=. done. }
    rewrite Hret. destruct (hs_ctx m !! h) as [c|] eqn:E; simpl.
    + destruct Hs' as [Ht (l' & ? & ?)]. do 4 eexists. split; [reflexivity|].
      split; [by constructor|]. split; auto. split; eauto.
    + subst s'. do 4 eexists. split; [reflexivity|]. split; [by constructor|]. auto.
  - rewrite (grab_lookup _ _ _ Hwf _ h Hm). simpl. do 4 eexists. split; [reflexivity|]. split; [constructor|]. auto.
  - rewrite (findname_lookup _ _ _ nm Hr Hn). simpl. do 4 eexists. split; [reflexivity|]. split; [constructor|]. auto.
  - pose proof (namehandle_ok s l _ h nm Hr Hn Hok) as Hnh. destruct (hs_names m !! nm) as [g|] eqn:E.
    + rewrite Hnh. simpl. do 4 eexists. split; [reflexivity|]. split; [by constructor; rewrite E|]. auto.
    + destruct Hnh as (c & n & a & l' & -> & ? & ?). simpl. do 4 eexists. split; [reflexivity|].
      split; [by constructor|]. split; auto. split; eauto. exists k. by apply table_wf_ext.
Qed.

(** The storage made by [skynet_handle_init] is empty. *)
Lemma handle_init_repr ch hb : storage_repr ch (skynet_handle_init hb) (mk_handles ∅ ∅).
Proof.
  assert (Hnone : ∀ c, ¬ in_table (skynet_handle_init hb) c).
  { intros c [i [[=] _]%lookup_replicate_1]. }
  split.
  - exists 2. split; try done; simpl; try lia.
    + rewrite Z.shiftl_mul_pow2 by (by vm_compute). change HANDLE_REMOTE_SHIFT with 24.
      change 255 with (2 ^ 8 - 1). rewrite land_ones_mod by lia. unfold u32. dlia.
    + intros i c Hi. destruct (Hnone c). by eexists.
  - intros h c. simpl. split; [by intros ?%lookup_empty_Some|]. intros [[]%Hnone _].
  - exists []. split; [split; try done|].
    intros n h. simpl. split; [by intros ?%lookup_empty_Some|]. by intros ?%elem_of_nil.
Qed.

(** A context registered on a new node of harbor 5 gets handle 0x05000002. *)
Lemma handle_storage_refines_witness :
  ∃ r ch' s' m', exec_op (op_register 7%positive) (λ _, 0) (skynet_handle_init 5) = Some (r, ch', s') ∧
    spec_op (harbor (skynet_handle_init 5)) (mk_handles ∅ ∅) (op_register 7%positive) r m' ∧
    storage_repr ch' s' m' ∧ harbor s' = harbor (skynet_handle_init 5).
Proof.
  apply handle_storage_refines; [apply handle_init_repr|]. split; [split|].
  - by vm_compute.
  - right. intros c [i [[=] _]%lookup_replicate_1].
  - intros h. simpl. by intros ?%lookup_empty_Some.
Defined.

(** ** Retiring every context *)

Definition contexts (m : handles) : list ctxid := (map_to_list (hs_ctx m)).*2.

Lemma retire_slots ch h s c s' :
  skynet_handle_retire ch h s = Some (Some c, s') →
  slot s' = <[Z.to_nat (Z.land h (slot_size s - 1)) := None]> (slot s) ∧ slot_size s' = slot_size s.
Proof.
  unfold skynet_handle_retire. intros H. bind_inv. destruct x as [d|]; [|done].
  destruct (_ =? _); [|done]. bind_inv. destruct x0. simplify_eq/=. split; auto.
  unfold arr_set in *. by destruct (_ && _); simplify_eq/=.
Qed.

Lemma retireall_pass_ok ch n i s m :
  storage_repr ch s m → (∀ h c, hs_ctx m !! h = Some c → h ≠ 0) → i + Z.of_nat n = slot_size s → 0 <= i →
  ∃ l s' m', retireall_pass ch n i s = Some (l, s') ∧ storage_repr ch s' m' ∧ slot_size s' = slot_size s ∧
    hs_ctx m' ⊆ hs_ctx m ∧ l ++ contexts m' ≡ₚ contexts m ∧
    (∀ j, (j < Z.to_nat i)%nat → slot s' !! j = slot s !! j) ∧
    (∀ j, (Z.to_nat i <= j < Z.to_nat (slot_size s))%nat → slot s' !! j = Some None).
Proof.
  revert i s m. induction n as [|n IH]; intros i s m Hrep Hnz Hin Hi; cbn [retireall_pass].
  { exists [], s, m. split_and!; auto. lia. }
  pose proof Hrep as [[k Hwf] Hm [l [Hr Hn]]].
  assert (Hlen : Z.of_nat (length (slot s)) = slot_size s) by (by rewrite (tw_len _ _ _ Hwf), (tw_size _ _ _ Hwf)).
  destruct (lookup_lt_is_Some_2 (slot s) (Z.to_nat i)) as [c Hc]; [lia|].
  rewrite arr_get_lookup, Hc by lia. simpl. destruct c as [c|]; simpl.
  - assert (Hmc : hs_ctx m !! ch c = Some c) by (apply Hm; split; [by eexists|done]).
    rewrite (proj2 (Z.eqb_neq _ _) (Hnz _ _ Hmc)). simpl.
    destruct (retire_ok _ _ _ (ch c) _ _ _ Hwf Hm Hr Hn) as (s1 & Hret & Hwf1 & Hs1). rewrite Hmc in Hs1, Hret.
    destruct Hs1 as [Ht1 (l1 & ? & ?)]. destruct (retire_slots _ _ _ _ _ Hret) as [Hsl Hsz].
    rewrite (hash_mod _ _ _ Hwf), (proj1 (tw_slot _ _ _ Hwf _ _ Hc)), Nat2Z.id in Hsl. rewrite Hret. simpl.
    destruct (IH (i + 1) s1 (mk_handles (delete (ch c) (hs_ctx m)) (filter (λ p, p.2 ≠ ch c) (hs_names m))))
      as (l' & s' & m' & -> & Hrep' & Hsz' & Hsub & Hperm & Hlow & Hhigh); try lia.
    { split; simpl; eauto. }
    { simpl. intros h d [? ?]%lookup_delete_Some. eauto. }
    simpl in *. exists (c :: l'), s', m'. split_and!; auto; try congruence.
    + etrans; [exact Hsub|]. apply delete_subseteq.
    + simpl. unfold contexts in *. simpl in *. rewrite Hperm, <- (map_to_list_delete _ _ _ Hmc). done.
    + intros j Hj. rewrite Hlow, Hsl, list_lookup_insert_ne by lia. done.
    + intros j Hj. destruct (decide (j = Z.to_nat i)) as [->|]; [|apply Hhigh; lia].
      rewrite Hlow, Hsl, list_lookup_insert_eq by lia. done.
  - destruct (IH (i + 1) s m) as (l' & s' & m' & -> & ? & ? & ? & ? & Hlow & Hhigh); auto; try lia.
    exists l', s', m'. split_and!; auto.
    + intros j Hj. apply Hlow. lia.
    + intros j Hj. destruct (decide (j = Z.to_nat i)) as [->|]; [|apply Hhigh; lia].
      rewrite Hlow by lia. done.
Qed.

Lemma slots_empty ch s m :
  storage_repr ch s m → (∀ j, (0 <= j < Z.to_nat (slot_size s))%nat → slot s !! j = Some None) → hs_ctx m = ∅.
Proof.
  intros [[k Hwf] Hm _] Hall. apply map_empty. intros h. destruct (hs_ctx m !! h) as [c|] eqn:E; auto.
  apply Hm in E as [[j Hj] _]. pose proof (lookup_lt_Some _ _ _ Hj).
  pose proof (tw_size _ _ _ Hwf). pose proof (tw_len _ _ _ Hwf).
  rewrite Hall in Hj by lia. done.
Qed.

(** [skynet_handle_retireall], run alone, terminates after at most two
    passes, retires every context of the storage exactly once and leaves no
    handle registered. *)
Theorem retireall_ok ch s m :
  storage_repr ch s m → (∀ h c, hs_ctx m !! h = Some c → h ≠ 0) →
  ∃ l s' m', skynet_handle_retireall ch 2 s = Some (l, s') ∧ l ≡ₚ contexts m ∧
    storage_repr ch s' m' ∧ hs_ctx m' = ∅.
Proof.
  intros Hrep Hnz. cbn [skynet_handle_retireall].
  assert (Hpos : ∀ s m, storage_repr ch s m → 0 + Z.of_nat (Z.to_nat (slot_size s)) = slot_size s).
  { intros s0 m0 [[k0 Hwf0] _ _]. rewrite (tw_size _ _ _ Hwf0). pose proof (pow_k_pos _ _ _ Hwf0). lia. }
  destruct (retireall_pass_ok ch _ 0 s m Hrep Hnz (Hpos _ _ Hrep)) as
    (l & s1 & m1 & -> & Hrep1 & Hsz & _ & Hperm & _ & Hnone); [lia|]. simpl.
  assert (He : hs_ctx m1 = ∅) by (eapply slots_empty; [done|]; rewrite Hsz; exact Hnone).
  unfold contexts in Hperm. rewrite He, map_to_list_empty, app_nil_r in Hperm.
  destruct l as [|c l]; [by exists [], s1, m1|].
  destruct (retireall_pass_ok ch (Z.to_nat (slot_size s1)) 0 s1 m1) as
    (l2 & s2 & m2 & -> & Hrep2 & Hsz2 & Hsub2 & Hperm2 & _ & Hnone2); auto; try lia.
  { intros h d. rewrite He. by intros ?%lookup_empty_Some. }
  { by apply (Hpos _ m1). }
  unfold contexts in Hperm2. rewrite He, map_to_list_empty in Hperm2. simpl in Hperm2.
  apply Permutation_nil_r, app_eq_nil in Hperm2 as [-> Hm2]. simpl.
  exists (c :: l), s2, m2. rewrite app_nil_r. split_and!; auto.
  apply (slots_empty ch s2); auto. by rewrite Hsz2.
Qed.

(** A storage with the two contexts of handles 2 and 3. *)
Definition two_contexts : handle_storage :=
  mk_storage 0 4 4 [None; None; Some 1%positive; Some 2%positive] 2 0 [None; None].

Definition two_handle (c : ctxid) : Z := Z.pos c + 1.

Lemma two_contexts_repr :
  storage_repr two_handle two_contexts (mk_handles {[2 := 1%positive; 3 := 2%positive]} ∅).
Proof.
  split.
  - exists 2. split; try done; simpl; try lia.
    intros [|[|[|[|i]]]] c Hc; simplify_eq/=; done.
  - intros h c. simpl. unfold in_table, two_handle. simpl. rewrite lookup_insert_Some, lookup_singleton_Some. split.
    + intros [[<- <-]|(? & <- & <-)]; (split; [|reflexivity]); [by exists 2%nat|by exists 3%nat].
    + intros [[[|[|[|[|i]]]] Hi] <-]; simplify_eq/=; auto.
  - exists []. split; [split; try done|].
    intros n h. simpl. split; [by intros ?%lookup_empty_Some|]. by intros ?%elem_of_nil.
Qed.

Lemma retireall_ok_witness :
  ∃ l s' m', skynet_handle_retireall two_handle 2 two_contexts = Some (l, s') ∧
    l ≡ₚ contexts (mk_handles {[2 := 1%positive; 3 := 2%positive]} ∅) ∧
    storage_repr two_handle s' m' ∧ hs_ctx m' = ∅.
Proof.
  apply retireall_ok; [apply two_contexts_repr|].
  intros h c. simpl. rewrite lookup_insert_Some, lookup_singleton_Some. lia.
Defined.

(** ** Wrap-around

    The handles after 2^24 registrations: the code reserves 0 for the system
    and the local change reserves 1 for the replies of cluster calls. *)

(** A node of harbor 0 with one context of handle 0xffffff. *)
Definition wrapped : handle_storage :=
  mk_storage 0 16777216 4 [None; None; None; Some 1%positive] 2 0 [None; None].

(** The next registration hands out the reserved handle 0. *)
Example register_hands_out_0 :
  table_wf (λ _, 16777215) wrapped 2 ∧
  fst <$> skynet_handle_register (λ _, 16777215) 2%positive wrapped = Some 0.
Proof.
  split; [|reflexivity]. split; simpl; try done; try lia.
  intros [|[|[|[|i]]]] c Hc; simplify_eq/=; done.
Qed.

(** Contexts of the handles 0xfffffc, 0xfffffe and 0xffffff. *)
Definition wrapped_full : handle_storage :=
  mk_storage 0 16777216 4 [Some 1%positive; None; Some 2%positive; Some 3%positive] 2 0 [None; None].

Definition wrapped_handle (c : ctxid) : Z :=
  match c with 1%positive => 16777212 | 2%positive => 16777214 | _ => 16777215 end.

(** Slot 1 is free but its handle 1 is skipped, so the loop ends without a
    handle and the rehash dereferences the [NULL] of slot 1. *)
Example register_null_dereference :
  table_wf wrapped_handle wrapped_full 2 ∧
  skynet_handle_register wrapped_handle 4%positive wrapped_full = None.
Proof.
  split; [|reflexivity]. split; simpl; try done; try lia.
  intros [|[|[|[|i]]]] c Hc; simplify_eq/=; done.
Qed.
