(* ===== verification/Netpack.v ===== *)
(** * Packet framing: lualib-src/lua-netpack.c

    The gate of the game server reads length-prefixed packets (two bytes,
    big-endian, then the data) from sockets whose data arrives in arbitrary
    chunks.  [lfilter] returns a packet that ends exactly at the end of a
    chunk directly, appends several packets to the ring of a queue from which
    [lpop] takes them, and keeps the incomplete tail of each socket in a hash
    table.

    The queue is the userdata at index 1 of the Lua stack: [None] is [NULL].
    A buffer from [skynet_malloc] is a list of cells, [None] until written;
    reading outside a buffer or overflowing an [int] makes the function
    [None].  Freed blocks are not tracked. *)

From Stdlib Require Import ZArith Lia.
From stdpp Require Import base tactics option numbers gmap list.
From S2P Require Import Prelude.

(** ** Data *)

Definition QUEUESIZE : Z := 1024.
Definition HASHSIZE : Z := 4096.

Record netpack := mk_pack { np_id : Z; np_size : Z; np_buffer : list (option Z) }.

(** [struct uncomplete]; the chain through [next] is the list of a bucket. *)
Record uncomplete := mk_uncomplete { uc_pack : netpack; uc_read : Z; uc_header : Z }.

Record queue := mk_queue {
  q_cap : Z;
  q_head : Z;
  q_tail : Z;
  q_hash : list (list uncomplete);
  q_queue : list (option netpack)
}.

Definition set_hash (q : queue) (h : list (list uncomplete)) : queue :=
  mk_queue (q_cap q) (q_head q) (q_tail q) h (q_queue q).

(** The values [lfilter] returns after the queue: the number returned is 1
    for [ret_none], 2 for [ret_more] and so on. *)
Inductive filter_ret :=
  | ret_none
  | ret_data (fd : Z) (buffer : list (option Z)) (size : Z)
  | ret_more
  | ret_close (fd : Z)
  | ret_open (fd : Z) (addr : list Z)
  | ret_error (fd : Z) (msg : list Z)
  | ret_warning (fd : Z) (ud : Z).

(** ** Operations *)

Definition hash_fd (fd : Z) : option Z :=
  let a := Z.shiftr fd 24 in
  let b := Z.shiftr fd 12 in
  let c := fd in
  ab ← chk32 (a + b);
  abc ← chk32 (ab + c);
  Some (u32 abc mod HASHSIZE).

(** The walk along a bucket: the block of the socket, and the rest. *)
Fixpoint take_uncomplete (fd : Z) (b : list uncomplete) : option uncomplete * list uncomplete :=
  match b with
  | [] => (None, [])
  | uc :: b' =>
      if np_id (uc_pack uc) =? fd then (Some uc, b')
      else let '(r, b'') := take_uncomplete fd b' in (r, uc :: b'')
  end.

Definition find_uncomplete (Q : option queue) (fd : Z) : option (option uncomplete * option queue) :=
  match Q with
  | None => Some (None, None)
  | Some q =>
      h ← hash_fd fd;
      b ← arr_get (q_hash q) h;
      let '(r, b') := take_uncomplete fd b in
      hash' ← arr_set (q_hash q) h b';
      Some (r, Some (set_hash q hash'))
  end.

Definition new_queue : queue :=
  mk_queue QUEUESIZE 0 0 (replicate (Z.to_nat HASHSIZE) []) (replicate (Z.to_nat QUEUESIZE) None).

Definition get_queue (Q : option queue) : queue :=
  match Q with Some q => q | None => new_queue end.

(** The copying loop of [expand_queue]. *)
Fixpoint copy_ring (n : nat) (i : Z) (q : queue) (dst : list (option netpack)) : option (list (option netpack)) :=
  match n with
  | O => Some dst
  | S n' =>
      s ← chk32 (q_head q + i);
      c ← arr_get (q_queue q) (Z.rem s (q_cap q));
      dst' ← arr_set dst i c;
      copy_ring n' (i + 1) q dst'
  end.

(** The queue that replaces the full one. *)
Definition expand_queue (q : queue) : option queue :=
  cap' ← chk32 (q_cap q + QUEUESIZE);
  ring ← copy_ring (Z.to_nat (q_cap q)) 0 q (replicate (Z.to_nat cap') None);
  Some (mk_queue cap' 0 (q_cap q) (q_hash q) ring).

(** [push_data]; the caller copies the buffer when [clone] is set. *)
Definition push_data (Q : option queue) (fd : Z) (buffer : list (option Z)) (size : Z) : option (option queue) :=
  let q := get_queue Q in
  ring ← arr_set (q_queue q) (q_tail q) (Some (mk_pack fd size buffer));
  let t := q_tail q + 1 in
  let t' := if q_cap q <=? t then t - q_cap q else t in
  let q' := mk_queue (q_cap q) (q_head q) t' (q_hash q) ring in
  if q_head q' =? q_tail q' then nq ← expand_queue q'; Some (Some nq) else Some (Some q').

(** [tmp = skynet_malloc(size); memcpy(tmp, buffer, size)] *)
Definition clone_buffer (buffer : list Z) (size : Z) : option (list (option Z)) :=
  memcpy (malloc size) 0 buffer size.

(** [q->hash[h] = uc] with [uc->next] the former bucket. *)
Definition link_uncomplete (q : queue) (fd : Z) (uc : uncomplete) : option queue :=
  h ← hash_fd fd;
  b ← arr_get (q_hash q) h;
  hash' ← arr_set (q_hash q) h (uc :: b);
  Some (set_hash q hash').

(** [save_uncomplete], with the fields its caller sets. *)
Definition save_uncomplete (Q : option queue) (fd : Z) (size : Z) (buffer : list (option Z)) (read header : Z)
    : option (option queue) :=
  q ← link_uncomplete (get_queue Q) fd (mk_uncomplete (mk_pack fd size buffer) read header);
  Some (Some q).

Definition read_size (buffer : list Z) : option Z :=
  b0 ← arr_get buffer 0;
  b1 ← arr_get buffer 1;
  Some (Z.lor (Z.shiftl b0 8) b1).

(** [buffer += n; size -= n] *)
Definition advance (buffer : list Z) (n : Z) : list Z := drop (Z.to_nat n) buffer.

Definition size_of (buffer : list Z) : Z := Z.of_nat (length buffer).

(** [uc->read = -1; uc->header = *buffer] of a new block. *)
Definition save_header (Q : option queue) (fd : Z) (buffer : list Z) : option (option queue) :=
  b0 ← arr_get buffer 0;
  save_uncomplete Q fd 0 [] (-1) b0.

(** The block of a packet whose size is known. *)
Definition save_partial (Q : option queue) (fd pack_size : Z) (buffer : list Z) : option (option queue) :=
  buf ← memcpy (malloc pack_size) 0 buffer (size_of buffer);
  save_uncomplete Q fd pack_size buf (size_of buffer) 0.

(** Each call consumes at least the two bytes of a header. *)
Fixpoint push_more (fuel : nat) (Q : option queue) (fd : Z) (buffer : list Z) : option (option queue) :=
  match fuel with
  | O => None
  | S f =>
      if size_of buffer =? 1 then save_header Q fd buffer
      else
        pack_size ← read_size buffer;
        let buffer := advance buffer 2 in
        if size_of buffer <? pack_size then save_partial Q fd pack_size buffer
        else
          data ← clone_buffer buffer pack_size;
          Q' ← push_data Q fd data pack_size;
          let buffer := advance buffer pack_size in
          if 0 <? size_of buffer then push_more f Q' fd buffer else Some Q'
  end.

Definition close_uncomplete (Q : option queue) (fd : Z) : option (option queue) :=
  '(_, Q') ← find_uncomplete Q fd;
  Some Q'.

(** The first half of the uncomplete branch: the size byte still missing. *)
Definition fill_header (uc : uncomplete) (buffer : list Z) : option (uncomplete * list Z) :=
  if uc_read uc <? 0 then
    _ ← c_assert (uc_read uc =? -1);
    b0 ← arr_get buffer 0;
    let pack_size := Z.lor b0 (Z.shiftl (uc_header uc) 8) in
    Some (mk_uncomplete (mk_pack (np_id (uc_pack uc)) pack_size (malloc pack_size)) 0 (uc_header uc),
          advance buffer 1)
  else Some (uc, buffer).

Definition filter_data_ (Q : option queue) (fd : Z) (buffer : list Z) : option (filter_ret * option queue) :=
  '(r, Q) ← find_uncomplete Q fd;
  match r with
  | Some uc0 =>
      '(uc, buffer) ← fill_header uc0 buffer;
      need ← chk32 (np_size (uc_pack uc) - uc_read uc);
      if size_of buffer <? need then
        buf ← memcpy (np_buffer (uc_pack uc)) (uc_read uc) buffer (size_of buffer);
        q' ← link_uncomplete (get_queue Q) fd
               (mk_uncomplete (mk_pack (np_id (uc_pack uc)) (np_size (uc_pack uc)) buf)
                  (uc_read uc + size_of buffer) (uc_header uc));
        Some (ret_none, Some q')
      else
        buf ← memcpy (np_buffer (uc_pack uc)) (uc_read uc) buffer need;
        let buffer := advance buffer need in
        if size_of buffer =? 0 then Some (ret_data fd buf (np_size (uc_pack uc)), Q)
        else
          Q1 ← push_data Q fd buf (np_size (uc_pack uc));
          Q2 ← push_more (length buffer) Q1 fd buffer;
          Some (ret_more, Q2)
  | None =>
      if size_of buffer =? 1 then Q' ← save_header Q fd buffer; Some (ret_none, Q')
      else
        pack_size ← read_size buffer;
        let buffer := advance buffer 2 in
        if size_of buffer <? pack_size then Q' ← save_partial Q fd pack_size buffer; Some (ret_none, Q')
        else if size_of buffer =? pack_size then
          result ← memcpy (malloc pack_size) 0 buffer (size_of buffer);
          Some (ret_data fd result (size_of buffer), Q)
        else
          data ← clone_buffer buffer pack_size;
          Q1 ← push_data Q fd data pack_size;
          let buffer := advance buffer pack_size in
          Q2 ← push_more (length buffer) Q1 fd buffer;
          Some (ret_more, Q2)
  end.

(** [filter_data] also frees the buffer of the socket message. *)
Definition filter_data := filter_data_.

(** [struct skynet_socket_message] with what follows it in the block. *)
Inductive socket_type := SOCKET_DATA | SOCKET_CONNECT | SOCKET_CLOSE | SOCKET_ACCEPT | SOCKET_ERROR
  | SOCKET_UDP | SOCKET_WARNING.

Record socket_message := mk_smsg {
  sm_type : socket_type; sm_id : Z; sm_ud : Z;
  sm_buffer : option (list Z);   (* message->buffer *)
  sm_padding : list Z            (* the bytes after the struct *)
}.

(** [buffer] and [size] as [lfilter] computes them; [size] is -1 for a
    message with a buffer of its own. *)
Definition message_text (m : socket_message) : list Z * Z :=
  match sm_buffer m with
  | None => (sm_padding m, Z.of_nat (length (sm_padding m)))
  | Some b => (b, -1)
  end.

(** [lua_pushlstring] with a size that is not the buffer's is undefined. *)
Definition pushstring (msg : list Z) (size : Z) : option (list Z) :=
  if (0 <=? size) && (size <=? Z.of_nat (length msg)) then Some (take (Z.to_nat size) msg) else None.

Definition lfilter (Q : option queue) (m : socket_message) : option (filter_ret * option queue) :=
  let '(buffer, size) := message_text m in
  match sm_type m with
  | SOCKET_DATA =>
      _ ← c_assert (size =? -1);
      _ ← c_assert (sm_ud m <=? Z.of_nat (length buffer));
      filter_data Q (sm_id m) (take (Z.to_nat (sm_ud m)) buffer)
  | SOCKET_CONNECT => Some (ret_none, Q)
  | SOCKET_CLOSE => Q' ← close_uncomplete Q (sm_id m); Some (ret_close (sm_id m), Q')
  | SOCKET_ACCEPT => s ← pushstring buffer size; Some (ret_open (sm_ud m) s, Q)
  | SOCKET_ERROR =>
      Q' ← close_uncomplete Q (sm_id m);
      s ← pushstring buffer size;
      Some (ret_error (sm_id m) s, Q')
  | SOCKET_WARNING => Some (ret_warning (sm_id m) (sm_ud m), Q)
  | SOCKET_UDP => Some (ret_none, Q)
  end.

Definition lpop (Q : option queue) : option (option netpack * option queue) :=
  match Q with
  | None => Some (None, None)
  | Some q =>
      if q_head q =? q_tail q then Some (None, Some q)
      else
        c ← arr_get (q_queue q) (q_head q);
        np ← c;
        let h := q_head q + 1 in
        let h' := if q_cap q <=? h then 0 else h in
        Some (Some np, Some (mk_queue (q_cap q) h' (q_tail q) (q_hash q) (q_queue q)))
  end.

(** The loop of [lclear] that frees the packets left in the ring: their
    buffers. *)
Fixpoint clear_ring (n : nat) (i : Z) (q : queue) : option (list (list (option Z))) :=
  match n with
  | O => Some []
  | S n' =>
      c ← arr_get (q_queue q) (Z.rem i (q_cap q));
      np ← c;
      l ← clear_ring n' (i + 1) q;
      Some (np_buffer np :: l)
  end.

(** [lclear]: the packet buffers freed, and the empty queue. *)
Definition lclear (Q : option queue) : option (list (list (option Z)) * option queue) :=
  match Q with
  | None => Some ([], None)
  | Some q =>
      let tail := if q_tail q <? q_head q then q_tail q + q_cap q else q_tail q in
      freed ← clear_ring (Z.to_nat (tail - q_head q)) (q_head q) q;
      Some (concat (map (map (np_buffer ∘ uc_pack)) (q_hash q)) ++ freed,
            Some (mk_queue (q_cap q) 0 0 (replicate (Z.to_nat HASHSIZE) []) (q_queue q)))
  end.

Definition write_size (len : Z) : list Z := [Z.land (Z.shiftr len 8) 255; Z.land len 255].

(** [lpack]; [None] is the Lua error "Invalid size". *)
Definition lpack (data : list Z) : option (list Z) :=
  let len := Z.of_nat (length data) in
  if 65536 <=? len then None else Some (write_size len ++ data).

(** [ltostring] of a buffer of [size] bytes. *)
Definition ltostring (buffer : list (option Z)) (size : Z) : option (list Z) :=
  if (0 <=? size) && (size <=? Z.of_nat (length buffer)) then mapM id (take (Z.to_nat size) buffer) else None.

(** ** Framing of a byte stream *)

(** A stream that holds no whole packet. *)
Definition incomplete (r : list Z) : Prop :=
  match r with
  | hi :: lo :: t => Z.of_nat (length t) < hi * 256 + lo
  | _ => True
  end.

(** [frames l ps r]: the stream [l] is the packets [ps], each after its size,
    and then the incomplete rest [r]. *)
Inductive frames : list Z → list (list Z) → list Z → Prop :=
  | frames_end r : incomplete r → frames r [] r
  | frames_cons hi lo p l ps r :
      is_byte hi → is_byte lo → hi * 256 + lo = Z.of_nat (length p) →
      frames l ps r → frames (hi :: lo :: p ++ l) (p :: ps) r.

Lemma frames_incomplete l ps r : frames l ps r → incomplete r.
Proof. by induction 1. Qed.

(** Cutting the stream in two: the rest of the first part is completed by the
    second. *)
Lemma frames_app l ps r c ps' r' : frames l ps r → frames (r ++ c) ps' r' → frames (l ++ c) (ps ++ ps') r'.
Proof.
  induction 1 as [r Hr|hi lo p l ps r Hhi Hlo Hlen Hf IH]; intros Hc; [done|].
  simpl. rewrite <- app_assoc. constructor; auto.
Qed.

Lemma frames_det l ps r : frames l ps r → ∀ ps' r', frames l ps' r' → ps' = ps ∧ r' = r.
Proof.
  induction 1 as [r Hr|hi lo p l ps r Hhi Hlo Hlen Hf IH]; intros ps' r' H'.
  - inversion H' as [|hi lo p l ps'' ? Hhi Hlo Hlen Hf]; subst; auto.
    simpl in Hr. rewrite length_app in Hr. lia.
  - inversion H' as [? Hr|hi' lo' p' l' ps'' ? ? ? Hlen' Hf' [Heq1 Heq2]]; subst.
    { simpl in Hr. rewrite length_app in Hr. lia. }
    assert (p' = p ∧ l' = l) as [-> ->].
    { apply app_inj_1; auto. lia. }
    destruct (IH _ _ Hf') as [-> ->]. auto.
Qed.

Lemma read_size_ok hi lo l : is_byte hi → is_byte lo → read_size (hi :: lo :: l) = Some (hi * 256 + lo).
Proof. intros Hhi Hlo. unfold read_size. simpl. by rewrite (lor_shiftl_add _ _ 8) by (unfold is_byte in *; lia). Qed.

(** ** The table of incomplete packets *)

(** The sockets whose hash does not overflow an [int]. *)
Definition fd_ok (fd : Z) : Prop := 0 <= fd < 2 ^ 31 - 2 ^ 20.

Lemma hash_fd_ok fd : fd_ok fd → ∃ h, hash_fd fd = Some h ∧ 0 <= h < HASHSIZE.
Proof.
  unfold fd_ok. intros Hfd. unfold hash_fd. rewrite !Z.shiftr_div_pow2 by lia.
  rewrite chk32_some by (unfold INT_MIN, INT_MAX; dlia). simpl.
  rewrite chk32_some by (unfold INT_MIN, INT_MAX; dlia). simpl. eexists; split; [reflexivity|].
  apply Z.mod_pos_bound. by vm_compute.
Qed.

(** A block that holds the incomplete, nonempty tail [r]. *)
Definition uc_repr (uc : uncomplete) (fd : Z) (r : list Z) : Prop :=
  np_id (uc_pack uc) = fd ∧ incomplete r ∧ Forall is_byte r ∧
  match r with
  | [] => False
  | [h] => uc_read uc = -1 ∧ uc_header uc = h
  | hi :: lo :: t =>
      uc_read uc = Z.of_nat (length t) ∧ np_size (uc_pack uc) = hi * 256 + lo ∧
      np_buffer (uc_pack uc) = (Some <$> t) ++ replicate (Z.to_nat (hi * 256 + lo) - length t) None
  end.

(** The table holds exactly the tails of the map. *)
Record hash_repr (hash : list (list uncomplete)) (P : gmap Z (list Z)) : Prop := {
  hr_len : Z.of_nat (length hash) = HASHSIZE;
  hr_nodup : ∀ h b, hash !! h = Some b → NoDup (np_id ∘ uc_pack <$> b);
  hr_in : ∀ h b uc, hash !! h = Some b → uc ∈ b →
    hash_fd (np_id (uc_pack uc)) = Some (Z.of_nat h) ∧
    ∃ r, P !! np_id (uc_pack uc) = Some r ∧ uc_repr uc (np_id (uc_pack uc)) r;
  hr_out : ∀ fd r, P !! fd = Some r → ∃ h b uc, hash !! h = Some b ∧ uc ∈ b ∧ np_id (uc_pack uc) = fd
}.

Lemma take_uncomplete_spec fd b :
  NoDup (np_id ∘ uc_pack <$> b) →
  match take_uncomplete fd b with
  | (Some uc, b') => np_id (uc_pack uc) = fd ∧ b ≡ₚ uc :: b'
  | (None, b') => b' = b ∧ ∀ uc, uc ∈ b → np_id (uc_pack uc) ≠ fd
  end.
Proof.
  induction b as [|uc b IH]; simpl; intros Hnd.
  { split; auto. by intros uc ?%elem_of_nil. }
  destruct (Z.eqb_spec (np_id (uc_pack uc)) fd) as [<-|Hne]; [auto|].
  apply NoDup_cons in Hnd as [_ Hnd]. specialize (IH Hnd).
  destruct (take_uncomplete fd b) as [[uc'|] b'].
  - destruct IH as [? ->]. split; auto. apply Permutation_swap.
  - destruct IH as [-> Hall]. split; auto. intros u [->|?]%elem_of_cons; auto.
Qed.

(** Taking a block out, and putting one in. *)
Lemma hash_delete hash P fd h b uc b' :
  hash_repr hash P → hash_fd fd = Some (Z.of_nat h) → hash !! h = Some b → b ≡ₚ uc :: b' → np_id (uc_pack uc) = fd →
  hash_repr (<[h := b']> hash) (delete fd P).
Proof.
  intros [Hlen Hnd Hin Hout] Hh Hb Hp Hid. pose proof (Hnd _ _ Hb) as Hndb. rewrite Hp in Hndb.
  apply NoDup_cons in Hndb as [Hnin Hndb].
  assert (Hne : ∀ u, u ∈ b' → np_id (uc_pack u) ≠ fd).
  { intros u Hu <-. apply Hnin. simpl. rewrite Hid. apply (list_elem_of_fmap_2 (np_id ∘ uc_pack) b' u Hu). }
  assert (Hlt : (h < length hash)%nat) by (by eapply lookup_lt_Some).
  split.
  - by rewrite length_insert.
  - intros g c. destruct (decide (g = h)) as [->|].
    + rewrite list_lookup_insert_eq by done. by intros [= <-].
    + rewrite list_lookup_insert_ne by done. eauto.
  - intros g c u Hg Hu. destruct (decide (g = h)) as [->|].
    + rewrite list_lookup_insert_eq in Hg by done. simplify_eq.
      destruct (Hin h b u Hb) as (? & r & ? & ?); [rewrite Hp; by right|]. split; auto. exists r. split; auto.
      rewrite lookup_delete_ne; auto. symmetry. auto.
    + rewrite list_lookup_insert_ne in Hg by done.
      destruct (Hin g c u Hg Hu) as (Hgh & r & ? & ?). split; auto. exists r. split; auto.
      rewrite lookup_delete_ne; auto. intros Heq. rewrite <- Heq, Hh in Hgh. simplify_eq.
  - intros f r [Hf Hr]%lookup_delete_Some. destruct (Hout f r Hr) as (g & c & u & Hg & Hu & Huid).
    destruct (decide (g = h)) as [->|].
    + simplify_eq. rewrite Hp in Hu. apply elem_of_cons in Hu as [->|Hu]; [done|].
      exists h, b', u. by rewrite list_lookup_insert_eq.
    + exists g, c, u. by rewrite list_lookup_insert_ne.
Qed.

Lemma hash_insert hash P fd h b uc r :
  hash_repr hash P → hash_fd fd = Some (Z.of_nat h) → hash !! h = Some b → P !! fd = None → uc_repr uc fd r →
  hash_repr (<[h := uc :: b]> hash) (<[fd := r]> P).
Proof.
  intros [Hlen Hnd Hin Hout] Hh Hb Hno Huc. assert (Hid : np_id (uc_pack uc) = fd) by apply Huc.
  assert (Hlt : (h < length hash)%nat) by (by eapply lookup_lt_Some).
  assert (Hne : ∀ g c u, hash !! g = Some c → u ∈ c → np_id (uc_pack u) ≠ fd).
  { intros g c u Hg Hu <-. destruct (Hin g c u Hg Hu) as (_ & r' & ? & _). congruence. }
  split.
  - by rewrite length_insert.
  - intros g c. destruct (decide (g = h)) as [->|].
    + rewrite list_lookup_insert_eq by done. intros [= <-]. apply NoDup_cons. split; [|eauto].
      intros (u & Hu & ?)%list_elem_of_fmap_1. eapply (Hne h b u); eauto. simpl in *. congruence.
    + rewrite list_lookup_insert_ne by done. eauto.
  - intros g c u Hg Hu.
    assert (u = uc ∧ g = h ∨ ∃ c', hash !! g = Some c' ∧ u ∈ c') as [[-> ->]|(c' & Hc' & Hu')].
    { destruct (decide (g = h)) as [->|].
      - rewrite list_lookup_insert_eq in Hg by done. simplify_eq. apply elem_of_cons in Hu as [->|]; eauto.
      - rewrite list_lookup_insert_ne in Hg by done. eauto. }
    + rewrite Hid. split; auto. exists r. by rewrite lookup_insert_eq.
    + destruct (Hin g c' u Hc' Hu') as (? & r' & ? & ?). split; auto. exists r'. split; auto.
      rewrite lookup_insert_ne; auto. symmetry. eauto.
  - intros f r'. destruct (decide (f = fd)) as [->|].
    + intros _. exists h, (uc :: b), uc. rewrite list_lookup_insert_eq by done. split_and!; auto. by left.
    + rewrite lookup_insert_ne by done. intros (g & c & u & Hg & Hu & ?)%Hout.
      destruct (decide (g = h)) as [->|].
      * simplify_eq. exists h, (uc :: b), u. rewrite list_lookup_insert_eq by done. split_and!; auto. by right.
      * exists g, c, u. by rewrite list_lookup_insert_ne.
Qed.

(** ** The ring of packets *)

Record ring_repr (q : queue) (l : list netpack) : Prop := {
  rr_cap : QUEUESIZE <= q_cap q;
  rr_len : Z.of_nat (length (q_queue q)) = q_cap q;
  rr_head : 0 <= q_head q < q_cap q;
  rr_fit : Z.of_nat (length l) < q_cap q;
  rr_tail : q_tail q = (q_head q + Z.of_nat (length l)) mod q_cap q;
  rr_cells : ∀ i x, l !! i = Some x →
    q_queue q !! Z.to_nat ((q_head q + Z.of_nat i) mod q_cap q) = Some (Some x)
}.

Lemma wrap_mod a c : 0 <= a < c → (if c <=? a + 1 then a + 1 - c else a + 1) = (a + 1) mod c.
Proof.
  intros. zcases.
  - replace (a + 1) with c by lia. rewrite Z.mod_same by lia. lia.
  - rewrite Z.mod_small; lia.
Qed.

Lemma mod_add_inj c a x y : 0 <= x < c → 0 <= y < c → (a + x) mod c = (a + y) mod c → x = y.
Proof.
  intros Hx Hy He. assert (((a + x) - (a + y)) mod c = 0) as Hz.
  { rewrite Zminus_mod, He, Z.sub_diag. apply Z.mod_0_l. lia. }
  replace (a + x - (a + y)) with (x - y) in Hz by lia.
  apply Z.mod_divide in Hz as [k Hk]; [|lia]. assert (k = 0) by nia. lia.
Qed.

Lemma copy_ring_ok n i q dst :
  0 <= i → 0 < q_cap q → 0 <= q_head q → Z.of_nat (length (q_queue q)) = q_cap q →
  q_head q + i + Z.of_nat n <= INT_MAX → i + Z.of_nat n <= Z.of_nat (length dst) →
  ∃ dst', copy_ring n i q dst = Some dst' ∧ length dst' = length dst ∧
    ∀ j, 0 <= j → dst' !! Z.to_nat j =
      if (i <=? j) && (j <? i + Z.of_nat n) then q_queue q !! Z.to_nat ((q_head q + j) mod q_cap q)
      else dst !! Z.to_nat j.
Proof.
  intros Hi0 Hcap Hhead Hlen. revert i dst Hi0. induction n as [|n IH]; intros i dst Hi Hmax Hd; cbn [copy_ring].
  { exists dst. split_and!; auto. intros j Hj. zcases; done. }
  rewrite chk32_some by (unfold INT_MIN, INT_MAX in *; lia). simpl. rewrite Z.rem_mod_nonneg by lia.
  pose proof (Z.mod_pos_bound (q_head q + i) (q_cap q) Hcap).
  destruct (arr_get_some (q_queue q) ((q_head q + i) mod q_cap q)) as [c Hc]; [lia|]. rewrite Hc. simpl.
  rewrite arr_set_some by lia. simpl.
  destruct (IH (i + 1) (<[Z.to_nat i:=c]> dst)) as (dst' & -> & Hl & Hj); rewrite ?length_insert in *; try lia.
  eexists; split_and!; [reflexivity|done|]. intros j Hj0. rewrite Hj by lia.
  rewrite arr_get_lookup in Hc by lia. zcases; simpl; try (by rewrite list_lookup_insert_ne by lia); auto.
  replace j with i by lia. by rewrite list_lookup_insert_eq by lia.
Qed.

Lemma push_ring q l fd buf size :
  ring_repr q l → q_cap q + QUEUESIZE <= INT_MAX / 2 →
  ∃ q', push_data (Some q) fd buf size = Some (Some q') ∧ ring_repr q' (l ++ [mk_pack fd size buf]) ∧
    q_hash q' = q_hash q ∧ q_cap q <= q_cap q' ∧ (q_cap q' = q_cap q ∨ q_cap q' = Z.of_nat (length l) + 1 + QUEUESIZE).
Proof.
  intros [Hcap Hlen Hhead Hfit Htail Hcells] Hmax. unfold QUEUESIZE in *.
  assert (INT_MAX / 2 * 2 <= INT_MAX ∧ 0 <= INT_MAX) as [Hm Hm0] by (by vm_compute).
  pose proof (Z.mod_pos_bound (q_head q + Z.of_nat (length l)) (q_cap q)) as Ht.
  unfold push_data, get_queue. rewrite arr_set_some by lia. simpl. rewrite wrap_mod by lia.
  assert (Ht1 : (q_tail q + 1) mod q_cap q = (q_head q + (Z.of_nat (length l) + 1)) mod q_cap q).
  { rewrite Htail, Z.add_mod_idemp_l by lia. f_equal. lia. }
  set (ring := <[Z.to_nat (q_tail q):=_]> (q_queue q)).
  assert (Hring : ∀ i x, (l ++ [mk_pack fd size buf]) !! i = Some x →
            ring !! Z.to_nat ((q_head q + Z.of_nat i) mod q_cap q) = Some (Some x)).
  { intros i x Hx. pose proof (Z.mod_pos_bound (q_head q + Z.of_nat i) (q_cap q)).
    destruct (decide (i = length l)) as [->|Hil].
    - rewrite list_lookup_middle in Hx by done. simplify_eq. subst ring. rewrite <- Htail.
      apply list_lookup_insert_eq. lia.
    - assert (i < length l)%nat by (apply lookup_lt_Some in Hx; rewrite length_app in Hx; simpl in Hx; lia).
      rewrite lookup_app_l in Hx by lia. subst ring. rewrite list_lookup_insert_ne; [auto|].
      intros Heq. apply Z2Nat.inj in Heq; [|lia..]. rewrite Htail in Heq.
      apply mod_add_inj in Heq; lia. }
  assert (Hrl : Z.of_nat (length ring) = q_cap q) by (subst ring; by rewrite length_insert).
  destruct (Z.eqb_spec (q_head q) ((q_tail q + 1) mod q_cap q)) as [Hfull|Hroom].
  - assert (Hl1 : Z.of_nat (length l) + 1 = q_cap q).
    { rewrite Ht1 in Hfull. rewrite <- (Z.mod_small (q_head q) (q_cap q)) in Hfull at 1 by lia.
      destruct (decide (Z.of_nat (length l) + 1 = q_cap q)); auto.
      rewrite <- (Z.add_0_r (q_head q)) in Hfull at 1. apply mod_add_inj in Hfull; lia. }
    unfold expand_queue. simpl. rewrite chk32_some by (unfold INT_MIN, QUEUESIZE; lia). simpl.
    destruct (copy_ring_ok (Z.to_nat (q_cap q)) 0
       (mk_queue (q_cap q) (q_head q) ((q_tail q + 1) mod q_cap q) (q_hash q) ring)
       (replicate (Z.to_nat (q_cap q + QUEUESIZE)) None)) as (r & -> & Hrlen & Hr);
      unfold QUEUESIZE; simpl; rewrite ?length_replicate; try lia.
    simpl. eexists; split_and!; [reflexivity| |done|simpl; lia|simpl; lia].
    unfold QUEUESIZE in *. rewrite length_replicate in Hrlen.
    split; simpl; rewrite ?length_app; simpl; try (unfold QUEUESIZE; lia).
    + rewrite Z.mod_small; lia.
    + intros i x Hx. pose proof (Hring i x Hx) as Hix.
      assert (i < length l + 1)%nat by (apply lookup_lt_Some in Hx; rewrite length_app in Hx; done).
      rewrite Z.add_0_l, Z.mod_small by lia. specialize (Hr (Z.of_nat i)). rewrite Nat2Z.id in *.
      rewrite Hr by lia. zcases. simpl. done.
  - eexists; split_and!; [reflexivity| |done|simpl; lia|simpl; lia].
    split; simpl; rewrite ?length_app; simpl; auto; try (unfold QUEUESIZE; lia).
    + destruct (decide (Z.of_nat (length l) + 1 = q_cap q)) as [He|]; [|lia].
      destruct Hroom. rewrite Ht1, He, <- (Z.mul_1_l (q_cap q)) at 1. rewrite Z.mod_add by lia.
      rewrite Z.mod_small; lia.
Qed.

Lemma pop_ring q l x :
  ring_repr q (x :: l) →
  ∃ q', lpop (Some q) = Some (Some x, Some q') ∧ ring_repr q' l ∧ q_hash q' = q_hash q ∧ q_cap q' = q_cap q.
Proof.
  intros [Hcap Hlen Hhead Hfit Htail Hcells]. simpl in *. unfold QUEUESIZE in *.
  assert (Hne : q_head q ≠ q_tail q).
  { rewrite Htail. intros He. rewrite <- (Z.mod_small (q_head q) (q_cap q)) in He at 1 by lia.
    rewrite <- (Z.add_0_r (q_head q)) in He at 1. apply mod_add_inj in He; lia. }
  unfold lpop. rewrite (proj2 (Z.eqb_neq _ _) Hne). rewrite arr_get_lookup by lia.
  pose proof (Hcells 0%nat x eq_refl) as H0. rewrite Z.add_0_r, Z.mod_small in H0 by lia. rewrite H0. simpl.
  assert (Hh : (if q_cap q <=? q_head q + 1 then 0 else q_head q + 1) = (q_head q + 1) mod q_cap q).
  { rewrite <- wrap_mod by lia. zcases; lia. }
  rewrite Hh. pose proof (Z.mod_pos_bound (q_head q + 1) (q_cap q)).
  eexists; split_and!; [reflexivity| |done|done].
  split; simpl; auto; try (unfold QUEUESIZE; lia).
  - rewrite Htail, Z.add_mod_idemp_l by lia. f_equal. lia.
  - intros i y Hy. rewrite <- (Hcells (S i) y Hy). do 2 f_equal. rewrite Z.add_mod_idemp_l by lia. f_equal. lia.
Qed.

Lemma pop_empty q : ring_repr q [] → lpop (Some q) = Some (None, Some q).
Proof.
  intros [Hcap Hlen Hhead Hfit Htail Hcells]. unfold lpop. simpl in *.
  rewrite Z.add_0_r, Z.mod_small in Htail by lia. rewrite Htail, Z.eqb_refl. done.
Qed.

(** ** Packets handed out *)

Definition pack_of (fd : Z) (p : list Z) : netpack := mk_pack fd (Z.of_nat (length p)) (Some <$> p).

Lemma clone_ok buffer n :
  0 <= n <= Z.of_nat (length buffer) →
  clone_buffer buffer n = Some (Some <$> take (Z.to_nat n) buffer).
Proof.
  intros. unfold clone_buffer. rewrite memcpy_new by lia. f_equal.
  rewrite <- partial_full. f_equal. rewrite length_take. lia.
Qed.

(** ** The queue as the tails of the sockets and a list of packets *)

(** [M] bounds the packets the ring has held. *)
Definition queue_repr (M : Z) (Q : option queue) (P : gmap Z (list Z)) (l : list netpack) : Prop :=
  match Q with
  | None => P = ∅ ∧ l = []
  | Some q => hash_repr (q_hash q) P ∧ ring_repr q l ∧ q_cap q <= M + QUEUESIZE
  end.

Definition cap_ok (M : Z) : Prop := 0 <= M ∧ M + 2 * QUEUESIZE <= INT_MAX / 2.

Lemma new_queue_repr M : 0 <= M → queue_repr M (Some new_queue) ∅ [].
Proof.
  intros HM. unfold new_queue. split_and!; [split|split|]; cbn [q_cap q_head q_tail q_hash q_queue length];
    rewrite ?length_replicate; unfold QUEUESIZE, HASHSIZE; try lia.
  - intros h b [-> _]%lookup_replicate_1. constructor.
  - intros h b uc [-> _]%lookup_replicate_1 Hu. by apply elem_of_nil in Hu.
  - intros fd r. by intros ?%lookup_empty_Some.
  - by rewrite Z.mod_0_l.
  - intros i x Hx. by rewrite lookup_nil in Hx.
Qed.

Lemma get_queue_repr M Q P l : 0 <= M → queue_repr M Q P l → queue_repr M (Some (get_queue Q)) P l.
Proof. intros HM. destruct Q as [q|]; [done|]. intros [-> ->]. by apply new_queue_repr. Qed.

Lemma find_uncomplete_ok M Q P l fd :
  queue_repr M Q P l → fd_ok fd →
  ∃ r Q', find_uncomplete Q fd = Some (r, Q') ∧ queue_repr M Q' (delete fd P) l ∧
    match r with
    | Some uc => ∃ t, P !! fd = Some t ∧ uc_repr uc fd t
    | None => P !! fd = None
    end.
Proof.
  intros HQ Hfd. destruct Q as [q|]; [|destruct HQ as [-> ->]].
  2: { exists None, None. split_and!; auto. - by rewrite delete_empty. }
  destruct HQ as (Hh & Hr & Hc). destruct (hash_fd_ok fd Hfd) as (h & Hhash & Hhr).
  unfold find_uncomplete. rewrite Hhash. simpl.
  pose proof (hr_len _ _ Hh). destruct (arr_get_some (q_hash q) h) as [b Hb]; [lia|]. rewrite Hb. simpl.
  rewrite arr_get_lookup in Hb by lia.
  pose proof (take_uncomplete_spec fd b (hr_nodup _ _ Hh _ _ Hb)) as Ht.
  destruct (take_uncomplete fd b) as [r b']. rewrite arr_set_some by lia. simpl.
  rewrite <- (Z2Nat.id h) in Hhash by lia. do 2 eexists. split; [reflexivity|]. destruct r as [uc|].
  - destruct Ht as [Hid Hp]. split; [split_and!|]; simpl; auto.
    + by apply (hash_delete _ P fd (Z.to_nat h) b uc).
    + by destruct Hr; split.
    + destruct (hr_in _ _ Hh _ _ uc Hb) as (_ & t & ? & ?); [rewrite Hp; by left|]. subst fd. eauto.
  - destruct Ht as [-> Hall].
    assert (HP : P !! fd = None).
    { destruct (P !! fd) as [t|] eqn:E; auto. destruct (hr_out _ _ Hh fd t E) as (g & c & uc & Hg & Huc & Hid).
      destruct (hr_in _ _ Hh g c uc Hg Huc) as [Hgh _]. rewrite Hid, Hhash in Hgh. simplify_eq.
      by edestruct Hall. }
    rewrite delete_id by done. rewrite list_insert_id by done. split; auto.
    split_and!; simpl; auto. by destruct Hr; split.
Qed.

Lemma link_uncomplete_ok M q P l fd uc r :
  queue_repr M (Some q) P l → fd_ok fd → P !! fd = None → uc_repr uc fd r →
  ∃ q', link_uncomplete q fd uc = Some q' ∧ queue_repr M (Some q') (<[fd := r]> P) l.
Proof.
  intros (Hh & Hr & Hc) Hfd HP Huc. destruct (hash_fd_ok fd Hfd) as (h & Hhash & Hhr).
  unfold link_uncomplete. rewrite Hhash. simpl.
  pose proof (hr_len _ _ Hh). destruct (arr_get_some (q_hash q) h) as [b Hb]; [lia|]. rewrite Hb. simpl.
  rewrite arr_get_lookup in Hb by lia. rewrite arr_set_some by lia. simpl.
  rewrite <- (Z2Nat.id h) in Hhash by lia. eexists. split; [reflexivity|]. split_and!; simpl; auto.
  - by apply hash_insert.
  - by destruct Hr; split.
Qed.

Lemma save_uncomplete_ok M Q P l fd size buf rd hd r :
  0 <= M → queue_repr M Q P l → fd_ok fd → P !! fd = None →
  uc_repr (mk_uncomplete (mk_pack fd size buf) rd hd) fd r →
  ∃ Q', save_uncomplete Q fd size buf rd hd = Some Q' ∧ queue_repr M Q' (<[fd := r]> P) l.
Proof.
  intros HM HQ Hfd HP Huc. apply get_queue_repr in HQ; [|done]. unfold save_uncomplete.
  destruct (link_uncomplete_ok _ _ _ _ _ _ _ HQ Hfd HP Huc) as (q' & -> & ?). simpl. eauto.
Qed.

Lemma save_partial_ok M Q P l fd hi lo t :
  0 <= M → queue_repr M Q P l → fd_ok fd → P !! fd = None →
  Forall is_byte (hi :: lo :: t) → Z.of_nat (length t) < hi * 256 + lo →
  ∃ Q', save_partial Q fd (hi * 256 + lo) t = Some Q' ∧ queue_repr M Q' (<[fd := hi :: lo :: t]> P) l.
Proof.
  intros HM HQ Hfd HP Hb Hlt. unfold save_partial, size_of. rewrite memcpy_new by lia. simpl.
  apply save_uncomplete_ok; auto. rewrite Nat2Z.id, firstn_all. unfold uc_repr. simpl. by split_and!.
Qed.

Lemma save_header_ok M Q P l fd b :
  0 <= M → queue_repr M Q P l → fd_ok fd → P !! fd = None → is_byte b →
  ∃ Q', save_header Q fd [b] = Some Q' ∧ queue_repr M Q' (<[fd := [b]]> P) l.
Proof.
  intros HM HQ Hfd HP Hb. unfold save_header. simpl. apply save_uncomplete_ok; auto. unfold uc_repr. simpl. split_and!; auto.
Qed.

Lemma push_data_ok M Q P l fd p :
  cap_ok M → queue_repr M Q P l → Z.of_nat (length l) + 1 <= M →
  ∃ Q', push_data Q fd (Some <$> p) (Z.of_nat (length p)) = Some Q' ∧ queue_repr M Q' P (l ++ [pack_of fd p]).
Proof.
  intros [HM HM'] HQ Hl. apply get_queue_repr in HQ as (Hh & Hr & Hc); [|done].
  assert (push_data Q = push_data (Some (get_queue Q))) as -> by (by destruct Q).
  destruct (push_ring _ _ fd (Some <$> p) (Z.of_nat (length p)) Hr) as (q' & -> & ? & Hhash & ? & ?); [lia|].
  eexists; split; [reflexivity|]. split_and!; auto; [by rewrite Hhash|lia].
Qed.

(** ** [push_more] and [filter_data] *)

(** The tail [r] of a socket after a chunk; no block is kept for an empty one. *)
Definition set_tail (P : gmap Z (list Z)) (fd : Z) (r : list Z) : gmap Z (list Z) :=
  match r with [] => delete fd P | _ => <[fd := r]> P end.

Lemma set_tail_lookup P fd r : default [] (set_tail P fd r !! fd) = r.
Proof.
  destruct r; simpl; [by rewrite lookup_delete_eq|by rewrite lookup_insert_eq].
Qed.

Lemma set_tail_lookup_ne P fd r f : f ≠ fd → set_tail P fd r !! f = P !! f.
Proof. intros. destruct r; simpl; [by rewrite lookup_delete_ne|by rewrite lookup_insert_ne]. Qed.

Lemma set_tail_delete P fd r : set_tail (delete fd P) fd r = set_tail P fd r.
Proof.
  destruct r; simpl; [|by rewrite insert_delete_eq].
  apply map_eq. intros i. destruct (decide (i = fd)) as [->|].
  - by rewrite !lookup_delete_eq.
  - by rewrite !lookup_delete_ne.
Qed.

Lemma split_packet hi lo t :
  hi * 256 + lo <= Z.of_nat (length t) → is_byte hi → is_byte lo →
  let n := hi * 256 + lo in
  t = take (Z.to_nat n) t ++ advance t n ∧ n = Z.of_nat (length (take (Z.to_nat n) t)) ∧
  (length (advance t n) <= length t)%nat.
Proof.
  intros Hle Hhi Hlo n. subst n. unfold is_byte in *. unfold advance. rewrite take_drop, length_take, length_drop. split; [done|lia].
Qed.

Lemma push_more_ok M fuel Q P l fd buffer :
  cap_ok M → fd_ok fd → buffer ≠ [] → Forall is_byte buffer → (length buffer <= fuel)%nat →
  queue_repr M Q P l → P !! fd = None → Z.of_nat (length l + length buffer) <= M →
  ∃ ps r Q', push_more fuel Q fd buffer = Some Q' ∧ frames buffer ps r ∧
    queue_repr M Q' (set_tail P fd r) (l ++ (pack_of fd <$> ps)).
Proof.
  intros HM Hfd. assert (0 <= M) as HM0 by apply HM.
  revert Q l buffer. induction fuel as [|fuel IH]; intros Q l buffer Hne Hb Hf HQ HP Hl.
  { destruct buffer; [done|simpl in Hf; lia]. }
  destruct buffer as [|hi [|lo t]]; [done| |].
  - simpl. inversion Hb. destruct (save_header_ok M Q P l fd hi) as (Q' & -> & ?); auto.
    exists [], [hi], Q'. split_and!; auto; [by constructor|]. by rewrite app_nil_r.
  - cbn [push_more]. unfold size_of. replace (Z.of_nat (length (hi :: lo :: t)) =? 1) with false
      by (symmetry; apply Z.eqb_neq; simpl; lia).
    apply Forall_cons in Hb as Hb'. destruct Hb' as [Hhi [Hlo Ht]%Forall_cons].
    rewrite read_size_ok by done. cbn [mbind option_bind]. change (advance (hi :: lo :: t) 2) with t.
    destruct (Z.ltb_spec (Z.of_nat (length t)) (hi * 256 + lo)) as [Hlt|Hge].
    + destruct (save_partial_ok M Q P l fd hi lo t) as (Q' & -> & ?); auto.
      exists [], (hi :: lo :: t), Q'. split_and!; auto; [by constructor|]. by rewrite app_nil_r.
    + destruct (split_packet hi lo t Hge Hhi Hlo) as (Hsplit & Hn & Hle).
      rewrite clone_ok by (unfold is_byte in *; lia). cbn [mbind option_bind].
      set (p := take (Z.to_nat (hi * 256 + lo)) t) in *. set (t' := advance t (hi * 256 + lo)) in *.
      rewrite Hn. simpl length in *.
      destruct (push_data_ok M Q P l fd p) as (Q1 & -> & HQ1); [done|done|lia|]. cbn [mbind option_bind].
      destruct t' as [|b t''] eqn:Et; cbn [length Z.of_nat Z.ltb Z.compare].
      * exists [p], [], Q1. split_and!; auto.
        -- rewrite Hsplit. constructor; auto. by constructor.
        -- simpl. by rewrite delete_id.
      * rewrite <- Et in *. destruct (IH Q1 (l ++ [pack_of fd p]) t') as (ps & r & Q' & -> & Hfr & HQ'); auto.
        { by rewrite Et. }
        { subst t'. by apply Forall_drop. }
        { lia. }
        { rewrite length_app. simpl. lia. }
        exists (p :: ps), r, Q'. split_and!; auto.
        -- rewrite Hsplit. by constructor.
        -- by rewrite <- app_assoc in HQ'.
Qed.

(** What [filter_data] does with a chunk of a socket with tail [r0]. *)
Definition filter_spec (M : Z) (P : gmap Z (list Z)) (l : list netpack) (fd : Z) (buffer : list Z)
    (ret : filter_ret) (Q' : option queue) : Prop :=
  ∃ ps r, frames (default [] (P !! fd) ++ buffer) ps r ∧
    match ret with
    | ret_none => ps = [] ∧ queue_repr M Q' (set_tail P fd r) l
    | ret_data fd' buf size => ∃ p, ps = [p] ∧ pack_of fd p = mk_pack fd' size buf ∧ queue_repr M Q' (set_tail P fd r) l
    | ret_more => queue_repr M Q' (set_tail P fd r) (l ++ (pack_of fd <$> ps))
    | _ => False
    end.

Lemma length_2_neq_1 (hi lo : Z) t : (Z.of_nat (length (hi :: lo :: t)) =? 1) = false.
Proof. apply Z.eqb_neq. simpl. lia. Qed.

(** A socket without a block. *)
Lemma filter_fresh M Q P l fd buffer :
  cap_ok M → fd_ok fd → buffer ≠ [] → Forall is_byte buffer →
  queue_repr M Q P l → P !! fd = None → Z.of_nat (length l + length buffer) <= M →
  ∃ ret Q', filter_data_ Q fd buffer = Some (ret, Q') ∧ filter_spec M P l fd buffer ret Q'.
Proof.
  intros HM Hfd Hne Hb HQ HP Hl. assert (0 <= M) as HM0 by apply HM. unfold filter_data_, filter_spec.
  destruct (find_uncomplete_ok _ _ _ _ _ HQ Hfd) as (r0 & Q0 & -> & HQ0 & Hr0). cbn [mbind option_bind].
  rewrite delete_id in HQ0 by done. destruct r0 as [uc|]; [destruct Hr0 as (? & ? & _); congruence|].
  rewrite HP. cbn [default app]. destruct buffer as [|hi [|lo t]]; [done| |].
  - cbn [size_of length Z.of_nat Z.eqb Pos.of_succ_nat Pos.eqb]. inversion Hb.
    destruct (save_header_ok M Q0 P l fd hi) as (Q' & -> & ?); auto. cbn [mbind option_bind].
    do 2 eexists. split; [reflexivity|]. exists [], [hi]. split; [by constructor|]. auto.
  - unfold size_of. rewrite length_2_neq_1.
    apply Forall_cons in Hb as Hb'. destruct Hb' as [Hhi [Hlo Ht]%Forall_cons].
    rewrite read_size_ok by done. cbn [mbind option_bind]. change (advance (hi :: lo :: t) 2) with t.
    destruct (Z.ltb_spec (Z.of_nat (length t)) (hi * 256 + lo)) as [Hlt|Hge].
    + destruct (save_partial_ok M Q0 P l fd hi lo t) as (Q' & -> & ?); auto. cbn [mbind option_bind].
      do 2 eexists. split; [reflexivity|]. exists [], (hi :: lo :: t). split; [by constructor|]. auto.
    + destruct (split_packet hi lo t Hge Hhi Hlo) as (Hsplit & Hn & Hle).
      destruct (Z.eqb_spec (Z.of_nat (length t)) (hi * 256 + lo)) as [Heq|Hneq].
      * rewrite memcpy_new by lia. cbn [mbind option_bind]. do 2 eexists. split; [reflexivity|].
        rewrite <- Heq, Nat2Z.id, firstn_all, partial_full. exists [t], []. split.
        -- rewrite <- (app_nil_r t) at 1. constructor; auto. by constructor.
        -- exists t. split_and!; auto. simpl. by rewrite delete_id.
      * rewrite clone_ok by (unfold is_byte in *; lia). cbn [mbind option_bind].
        set (p := take (Z.to_nat (hi * 256 + lo)) t) in *. set (t' := advance t (hi * 256 + lo)) in *.
        assert (length t = length p + length t')%nat as Hlen by (rewrite Hsplit at 1; apply length_app).
        rewrite Hn. simpl length in *.
        destruct (push_data_ok M Q0 P l fd p) as (Q1 & -> & HQ1); [done|done|lia|]. cbn [mbind option_bind].
        destruct (push_more_ok M (length t') Q1 P (l ++ [pack_of fd p]) fd t') as (ps & r & Q' & -> & Hfr & HQ'); auto.
        { intros Hnil. rewrite Hnil in *. simpl in Hlen. lia. }
        { subst t'. by apply Forall_drop. }
        { rewrite length_app. simpl. lia. }
        cbn [mbind option_bind]. do 2 eexists. split; [reflexivity|]. exists (p :: ps), r. split.
        -- rewrite Hsplit. by constructor.
        -- by rewrite <- app_assoc in HQ'.
Qed.

(** The block of a known size once the header is complete. *)
Definition uc_filled (uc : uncomplete) (fd hi lo : Z) (t : list Z) : Prop :=
  np_id (uc_pack uc) = fd ∧ uc_read uc = Z.of_nat (length t) ∧ np_size (uc_pack uc) = hi * 256 + lo ∧
  np_buffer (uc_pack uc) = partial (hi * 256 + lo) t ∧ Z.of_nat (length t) <= hi * 256 + lo.

Lemma fill_header_ok uc fd r buffer :
  uc_repr uc fd r → buffer ≠ [] → Forall is_byte buffer →
  ∃ uc' hi lo t buffer', fill_header uc buffer = Some (uc', buffer') ∧ r ++ buffer = hi :: lo :: t ++ buffer' ∧
    is_byte hi ∧ is_byte lo ∧ Forall is_byte t ∧ Forall is_byte buffer' ∧ uc_filled uc' fd hi lo t ∧
    (length buffer' <= length buffer)%nat.
Proof.
  intros (Hid & Hinc & Hb & Hr) Hne Hbuf. unfold fill_header. destruct r as [|hi [|lo t]]; [done| |].
  - destruct Hr as [-> ->]. destruct buffer as [|b buffer]; [done|]. simpl. rewrite Z.lor_comm.
    apply Forall_cons in Hbuf as [Hlo Hbuf]. inversion Hb as [|? ? Hhi]; subst.
    rewrite (lor_shiftl_add _ _ 8) by (unfold is_byte in *; lia). change (2 ^ 8) with 256.
    eexists _, hi, b, [], buffer. split_and!; auto. unfold uc_filled. simpl. split_and!; auto.
    + apply malloc_partial.
    + unfold is_byte in *. lia.
  - destruct Hr as (Hrd & Hsz & Hbf). rewrite Hrd. zcases. simpl in Hinc.
    apply Forall_cons in Hb as [Hhi [Hlo Ht]%Forall_cons].
    exists uc, hi, lo, t, buffer. split_and!; auto. unfold uc_filled. split_and!; auto. lia.
Qed.

Lemma uc_filled_repr fd hi lo t rd hd buf size :
  is_byte hi → is_byte lo → Forall is_byte t → Z.of_nat (length t) < hi * 256 + lo →
  rd = Z.of_nat (length t) → size = hi * 256 + lo → buf = partial size t →
  uc_repr (mk_uncomplete (mk_pack fd size buf) rd hd) fd (hi :: lo :: t).
Proof. intros. subst. unfold uc_repr. simpl. by split_and!; auto. Qed.

(** A socket with a block: the chunk completes it or is added to it. *)
Lemma filter_pending M Q P l fd r0 buffer :
  cap_ok M → fd_ok fd → buffer ≠ [] → Forall is_byte buffer →
  queue_repr M Q P l → P !! fd = Some r0 → Z.of_nat (length l + 1 + length buffer) <= M →
  ∃ ret Q', filter_data_ Q fd buffer = Some (ret, Q') ∧ filter_spec M P l fd buffer ret Q'.
Proof.
  intros HM Hfd Hne Hb HQ HP Hl. assert (0 <= M) as HM0 by apply HM. unfold filter_data_, filter_spec.
  destruct (find_uncomplete_ok _ _ _ _ _ HQ Hfd) as (u & Q0 & -> & HQ0 & Hu). cbn [mbind option_bind].
  destruct u as [uc|]; [|congruence]. destruct Hu as (r & Hr & Huc). simplify_eq. rewrite HP.
  assert (HP0 : delete fd P !! fd = None) by apply lookup_delete_eq.
  destruct (fill_header_ok uc fd r0 buffer Huc Hne Hb)
    as (uc' & hi & lo & t & b' & -> & Heq & Hhi & Hlo & Ht & Hb' & (Hid & Hrd & Hsz & Hbuf & Hle) & Hlb).
  cbn [mbind option_bind]. change (default [] (Some r0)) with r0. rewrite Heq, Hsz, Hrd. unfold is_byte in *.
  rewrite chk32_some by (unfold INT_MIN, INT_MAX; lia). cbn [mbind option_bind]. unfold size_of.
  destruct (Z.ltb_spec (Z.of_nat (length b')) (hi * 256 + lo - Z.of_nat (length t))) as [Hlt|Hge].
  - rewrite Hbuf, memcpy_partial, Nat2Z.id, firstn_all by lia. cbn [mbind option_bind]. rewrite Hid.
    destruct (link_uncomplete_ok M (get_queue Q0) (delete fd P) l fd
      (mk_uncomplete (mk_pack fd (hi * 256 + lo) (partial (hi * 256 + lo) (t ++ b')))
         (Z.of_nat (length t) + Z.of_nat (length b')) (uc_header uc')) (hi :: lo :: t ++ b')) as (q' & -> & HQ');
      auto using get_queue_repr.
    { apply uc_filled_repr; auto; rewrite ?length_app; try lia. by apply Forall_app. }
    cbn [mbind option_bind]. do 2 eexists. split; [reflexivity|]. exists [], (hi :: lo :: t ++ b'). split.
    + constructor. simpl. rewrite length_app. lia.
    + split; auto. rewrite <- set_tail_delete. done.
  - set (n := hi * 256 + lo - Z.of_nat (length t)) in *. rewrite Hbuf, memcpy_partial by lia. cbn [mbind option_bind].
    set (p := t ++ take (Z.to_nat n) b'). set (b'' := advance b' n).
    assert (Hp : hi * 256 + lo = Z.of_nat (length p)).
    { subst p n. rewrite length_app, length_take. lia. }
    assert (Hst : t ++ b' = p ++ b'') by (subst p b''; unfold advance; by rewrite <- app_assoc, take_drop).
    rewrite Hp, partial_full, Hst. assert (length b'' <= length b')%nat by (subst b''; unfold advance; rewrite length_drop; lia).
    destruct b'' as [|c b3] eqn:Eb; rewrite <- Eb in *.
    + rewrite Eb. cbn [length Z.of_nat Z.eqb]. do 2 eexists. split; [reflexivity|]. exists [p], []. split.
      * constructor; auto. by constructor.
      * exists p. split_and!; auto.
    + replace (Z.of_nat (length b'') =? 0) with false by (symmetry; apply Z.eqb_neq; rewrite Eb; simpl; lia).
      destruct (push_data_ok M Q0 (delete fd P) l fd p) as (Q1 & -> & HQ1); [done|done|lia|]. cbn [mbind option_bind].
      destruct (push_more_ok M (length b'') Q1 (delete fd P) (l ++ [pack_of fd p]) fd b'')
        as (ps & r & Q' & -> & Hfr & HQ'); auto.
      { by rewrite Eb. }
      { subst b''. by apply Forall_drop. }
      { rewrite length_app. simpl. lia. }
      cbn [mbind option_bind]. do 2 eexists. split; [reflexivity|]. exists (p :: ps), r. split.
      * by constructor.
      * rewrite <- app_assoc, set_tail_delete in HQ'. done.
Qed.

Lemma filter_data_ok M Q P l fd buffer :
  cap_ok M → fd_ok fd → buffer ≠ [] → Forall is_byte buffer →
  queue_repr M Q P l → Z.of_nat (length l + 1 + length buffer) <= M →
  ∃ ret Q', filter_data Q fd buffer = Some (ret, Q') ∧ filter_spec M P l fd buffer ret Q'.
Proof.
  intros. unfold filter_data. destruct (P !! fd) eqn:E.
  - by eapply filter_pending.
  - apply filter_fresh; auto. lia.
Qed.

(** ** Streams

    A consumer as the gate is one: it hands each chunk of a socket to
    [lfilter], takes the packet returned, and on "more" pops the queue until
    it is empty. *)

Fixpoint drain (fuel : nat) (Q : option queue) : option (list netpack * option queue) :=
  match fuel with
  | O => None
  | S f =>
      '(np, Q') ← lpop Q;
      match np with
      | None => Some ([], Q')
      | Some p => '(l, Q'') ← drain f Q'; Some (p :: l, Q'')
      end
  end.

Definition data_message (fd : Z) (chunk : list Z) : socket_message :=
  mk_smsg SOCKET_DATA fd (size_of chunk) (Some chunk) [].

Definition receive (Q : option queue) (fd : Z) (chunk : list Z) : option (list netpack * option queue) :=
  '(ret, Q') ← lfilter Q (data_message fd chunk);
  match ret with
  | ret_data fd' buf size => Some ([mk_pack fd' size buf], Q')
  | ret_more => drain (Z.to_nat (q_cap (get_queue Q'))) Q'
  | _ => Some ([], Q')
  end.

Fixpoint receive_all (Q : option queue) (chunks : list (Z * list Z)) : option (list netpack * option queue) :=
  match chunks with
  | [] => Some ([], Q)
  | (fd, c) :: chunks' =>
      '(l, Q') ← receive Q fd c;
      '(l', Q'') ← receive_all Q' chunks';
      Some (l ++ l', Q'')
  end.

(** The bytes a socket has received. *)
Definition stream (fd : Z) (chunks : list (Z * list Z)) : list Z :=
  concat (snd <$> filter (λ p, p.1 = fd) chunks).

Definition chunk_ok (p : Z * list Z) : Prop :=
  fd_ok p.1 ∧ p.2 ≠ [] ∧ Forall is_byte p.2 ∧ Z.of_nat (length p.2) < 2 ^ 29.

Lemma drain_ok M q P l fuel :
  queue_repr M (Some q) P l → (length l < fuel)%nat →
  ∃ q', drain fuel (Some q) = Some (l, Some q') ∧ queue_repr M (Some q') P [].
Proof.
  revert q l. induction fuel as [|fuel IH]; intros q l (Hh & Hr & Hc) Hf; [lia|]. cbn [drain].
  destruct l as [|x l].
  - rewrite pop_empty by done. simpl. exists q. by split_and!.
  - destruct (pop_ring q l x Hr) as (q1 & -> & Hr1 & Hh1 & Hc1). simpl in *.
    destruct (IH q1 l) as (q' & -> & ?); [|lia|simpl; eauto].
    split_and!; auto; congruence.
Qed.

Lemma queue_repr_incomplete M Q P l fd : queue_repr M Q P l → incomplete (default [] (P !! fd)).
Proof.
  destruct Q as [q|]; [intros (Hh & _ & _)|intros [-> _]; by rewrite lookup_empty].
  destruct (P !! fd) as [r|] eqn:E; [|done]. destruct (hr_out _ _ Hh _ _ E) as (h & b & uc & Hb & Hu & <-).
  destruct (hr_in _ _ Hh _ _ _ Hb Hu) as (_ & r' & ? & _ & ? & _). by simplify_eq.
Qed.

Lemma filter_pack_of fd ps f :
  filter (λ p, np_id p = f) (pack_of fd <$> ps) = if decide (f = fd) then pack_of fd <$> ps else [].
Proof.
  induction ps as [|p ps IH]; [by case_decide|]. rewrite fmap_cons, filter_cons, IH.
  change (np_id (pack_of fd p)) with fd. repeat case_decide; congruence.
Qed.

Lemma receive_ok M Q P fd c :
  cap_ok M → queue_repr M Q P [] → chunk_ok (fd, c) → 2 ^ 29 <= M →
  ∃ ps r Q', receive Q fd c = Some (pack_of fd <$> ps, Q') ∧ frames (default [] (P !! fd) ++ c) ps r ∧
    queue_repr M Q' (set_tail P fd r) [].
Proof.
  intros HM HQ (Hfd & Hne & Hb & Hlen) HM29. simpl in *.
  destruct (filter_data_ok M Q P [] fd c HM Hfd Hne Hb HQ) as (ret & Q1 & Hf & ps & r & Hfr & Hs); [simpl; lia|].
  unfold receive, lfilter, data_message. simpl. unfold size_of. rewrite Nat2Z.id, firstn_all, Z.leb_refl. simpl.
  rewrite Hf. simpl. exists ps, r. destruct ret; try done.
  - destruct Hs as [-> Hs]. eexists. split_and!; [reflexivity|done|done].
  - destruct Hs as (p & -> & Hp & Hs). eexists. simpl. rewrite Hp. by split_and!.
  - destruct Q1 as [q1|]; cbn [get_queue].
    + destruct (drain_ok M q1 _ _ (Z.to_nat (q_cap q1)) Hs) as (q' & -> & ?); [|eauto].
      destruct Hs as (_ & [_ _ _ Hfit _ _] & _). lia.
    + destruct Hs as [HP Hnil]. simpl in Hnil. rewrite Hnil. exists None. split_and!; try done.
Qed.

Lemma receive_all_ok M chunks Q P :
  cap_ok M → 2 ^ 29 <= M → queue_repr M Q P [] → Forall chunk_ok chunks →
  ∃ out Q' P', receive_all Q chunks = Some (out, Q') ∧ queue_repr M Q' P' [] ∧
    ∀ fd, ∃ ps, frames (default [] (P !! fd) ++ stream fd chunks) ps (default [] (P' !! fd)) ∧
      filter (λ p, np_id p = fd) out = pack_of fd <$> ps.
Proof.
  intros HM HM29. revert Q P. induction chunks as [|[fd c] chunks IH]; intros Q P HQ Hch; cbn [receive_all].
  - exists [], Q, P. split_and!; auto. intros fd. exists []. split; [|done]. unfold stream. simpl. rewrite app_nil_r.
    constructor. by eapply queue_repr_incomplete.
  - apply Forall_cons in Hch as [Hc Hch].
    destruct (receive_ok M Q P fd c HM HQ Hc HM29) as (ps & r & Q1 & -> & Hfr & HQ1). simpl.
    destruct (IH Q1 _ HQ1 Hch) as (out & Q' & P' & -> & HQ' & Hall). simpl.
    eexists _, Q', P'. split_and!; [reflexivity|done|]. intros f. destruct (Hall f) as (ps' & Hf' & Hout).
    unfold stream in *. rewrite filter_app, filter_pack_of, filter_cons, Hout.
    change (fd, c).1 with fd.
    destruct (decide (f = fd)) as [->|Hne].
    + rewrite decide_True by done. simpl. rewrite set_tail_lookup in Hf'. exists (ps ++ ps'). split.
      * rewrite app_assoc. by eapply frames_app.
      * by rewrite fmap_app.
    + rewrite decide_False by congruence. rewrite set_tail_lookup_ne in Hf' by done. exists ps'. auto.
Qed.

Lemma cap_ok_29 : cap_ok (2 ^ 29).
Proof. by vm_compute. Qed.

(** C8. Framing does not depend on how the data is cut: whatever chunks of
    whatever sockets arrive in whatever interleaving, [lfilter] and [lpop]
    never fail and hand out, for each socket, exactly the packets of its byte
    stream, in order, with every byte of their buffers written. *)
Theorem netpack_framing chunks :
  Forall chunk_ok chunks →
  ∃ out Q', receive_all None chunks = Some (out, Q') ∧
    ∀ fd, ∃ ps r, frames (stream fd chunks) ps r ∧ filter (λ p, np_id p = fd) out = pack_of fd <$> ps.
Proof.
  intros Hch. destruct (receive_all_ok (2 ^ 29) chunks None ∅ cap_ok_29) as (out & Q' & P' & Hr & _ & Hall);
    [lia|done|done|].
  exists out, Q'. split; auto. intros fd. destruct (Hall fd) as (ps & Hf & Ho). rewrite lookup_empty in Hf. eauto.
Qed.

(** Two sockets; the size of a packet is cut between its bytes. *)
Lemma netpack_framing_witness :
  ∃ out Q', receive_all None [(5, [0]); (9, [0; 1; 7]); (5, [2; 65; 66; 0; 1]); (5, [67])] = Some (out, Q') ∧
    ∀ fd, ∃ ps r,
      frames (stream fd [(5, [0]); (9, [0; 1; 7]); (5, [2; 65; 66; 0; 1]); (5, [67])]) ps r ∧
      filter (λ p, np_id p = fd) out = pack_of fd <$> ps.
Proof.
  apply netpack_framing. apply (bool_decide_unpack (Forall (λ p, 0 <= p.1 < 2 ^ 31 - 2 ^ 20 ∧ p.2 ≠ [] ∧
    Forall is_byte p.2 ∧ Z.of_nat (length p.2) < 2 ^ 29) _)). by vm_compute.
Defined.

(** ** Packing and framing *)

Lemma write_size_ok n :
  0 <= n < 65536 → ∃ hi lo, write_size n = [hi; lo] ∧ is_byte hi ∧ is_byte lo ∧ hi * 256 + lo = n.
Proof.
  intros Hn. unfold write_size. change 255 with (2 ^ 8 - 1). rewrite !land_ones_mod, Z.shiftr_div_pow2 by lia.
  do 2 eexists. split; [reflexivity|]. unfold is_byte. split_and!; dlia.
Qed.

(** What a sender of the messages [ps] writes. *)
Definition pack_stream (ps : list (list Z)) : option (list Z) := @concat Z <$> mapM lpack ps.

Lemma pack_stream_frames ps s : pack_stream ps = Some s → frames s ps [].
Proof.
  unfold pack_stream. intros (bs & Hm & ->)%fmap_Some. apply mapM_Some in Hm.
  induction Hm as [|p b ps bs Hp _ IH]; simpl; [by constructor|].
  unfold lpack in Hp. destruct (Z.leb_spec 65536 (Z.of_nat (length p))); simplify_eq.
  destruct (write_size_ok (Z.of_nat (length p))) as (hi & lo & -> & ? & ? & ?); [lia|]. simpl. by constructor.
Qed.

Lemma ltostring_pack fd p : ltostring (np_buffer (pack_of fd p)) (np_size (pack_of fd p)) = Some p.
Proof.
  unfold ltostring. simpl. rewrite length_fmap. zcases. simpl. rewrite firstn_all2 by (rewrite length_fmap; lia).
  apply mapM_Some. clear. induction p as [|x p IH]; constructor; auto.
Qed.

Lemma stream_single fd cs : stream fd (pair fd <$> cs) = concat cs.
Proof.
  unfold stream. induction cs as [|c cs IH]; [done|]. rewrite fmap_cons, filter_cons_True, fmap_cons by done.
  cbn [concat snd]. by rewrite IH.
Qed.

Lemma stream_other fd f cs : f ≠ fd → stream f (pair fd <$> cs) = [].
Proof.
  intros. unfold stream. induction cs as [|c cs IH]; [done|].
  rewrite fmap_cons, filter_cons_False by (simpl; congruence). done.
Qed.

Lemma filter_none_all {A} (f : A → Z) fd (out : list A) :
  (∀ g, g ≠ fd → filter (λ p, f p = g) out = []) → filter (λ p, f p = fd) out = out.
Proof.
  induction out as [|p out IH]; [done|]. intros Hall. rewrite filter_cons.
  destruct (decide (f p = fd)) as [He|Hne].
  - f_equal. apply IH. intros g Hg. specialize (Hall g Hg). by rewrite filter_cons_False in Hall by congruence.
  - specialize (Hall (f p) Hne). by rewrite filter_cons_True in Hall.
Qed.

(** Messages packed by [lpack] and sent over a socket arrive as they
    were: however the bytes are cut into chunks, the receiver's [lfilter],
    [lpop] and [ltostring] give back exactly the messages sent, in order. *)
Theorem netpack_roundtrip fd ps s cs :
  pack_stream ps = Some s → concat cs = s → Forall chunk_ok (pair fd <$> cs) →
  ∃ out Q', receive_all None (pair fd <$> cs) = Some (out, Q') ∧
    mapM (λ p, ltostring (np_buffer p) (np_size p)) out = Some ps ∧ Forall (λ p, np_id p = fd) out.
Proof.
  intros Hp%pack_stream_frames <- Hch.
  destruct (receive_all_ok (2 ^ 29) (pair fd <$> cs) None ∅ cap_ok_29) as (out & Q' & P' & Hr & _ & Hall); [lia|done|exact Hch|].
  exists out, Q'. split; auto.
  assert (Hout : out = pack_of fd <$> ps).
  { rewrite <- (filter_none_all np_id fd out).
    - destruct (Hall fd) as (ps' & Hf & ->). rewrite lookup_empty, stream_single in Hf.
      by destruct (frames_det _ _ _ Hp _ _ Hf) as [-> _].
    - intros g Hg. destruct (Hall g) as (ps' & Hf & ->). rewrite lookup_empty, stream_other in Hf by done.
      destruct (frames_det [] [] []) with (ps' := ps') (r' := default [] (P' !! g)) as [-> _]; auto.
      by constructor. }
  subst out. split.
  - apply mapM_Some. clear. induction ps as [|p ps IH]; constructor; auto. apply ltostring_pack.
  - apply Forall_fmap, Forall_true. done.
Qed.

(** "AB" and the empty message, sent in chunks of one, three and two bytes. *)
Lemma netpack_roundtrip_witness :
  ∃ out Q', receive_all None (pair 5 <$> [[0]; [2; 65; 66]; [0; 0]]) = Some (out, Q') ∧
    mapM (λ p, ltostring (np_buffer p) (np_size p)) out = Some [[65; 66]; []] ∧ Forall (λ p, np_id p = 5) out.
Proof.
  apply (netpack_roundtrip 5 [[65; 66]; []] [0; 2; 65; 66; 0; 0]); [reflexivity|reflexivity|].
  apply (bool_decide_unpack (Forall (λ p, 0 <= p.1 < 2 ^ 31 - 2 ^ 20 ∧ p.2 ≠ [] ∧
    Forall is_byte p.2 ∧ Z.of_nat (length p.2) < 2 ^ 29) _)). by vm_compute.
Defined.

(** ** Closing and clearing *)

(** A closed socket loses its tail and nothing else. *)
Lemma close_ok M Q P l fd :
  queue_repr M Q P l → fd_ok fd →
  ∃ Q', lfilter Q (mk_smsg SOCKET_CLOSE fd 0 None []) = Some (ret_close fd, Q') ∧ queue_repr M Q' (delete fd P) l.
Proof.
  intros HQ Hfd. unfold lfilter, close_uncomplete. simpl.
  destruct (find_uncomplete_ok _ _ _ _ _ HQ Hfd) as (r & Q' & -> & ? & _). simpl. eauto.
Qed.

(** The hash of a socket id just below 2^31 overflows a signed [int]. *)
Example hash_fd_overflow : hash_fd 2147483000 = None.
Proof. reflexivity. Qed.
