(* ===== verification/LuaSeri.v ===== *)
(** * Serialization of Lua values: lualib-src/lua-seri.c

    Messages between services of a node are Lua values packed into a byte
    block: one tag byte per value (type in the low three bits, a cookie in
    the high five), numbers in the smallest width, strings with a length,
    tables as an array part and key-value pairs ended by nil.  The local
    version puts a 16-bit length and an id before the values
    ([luaseri_jy_pack], [luaseri_get_jy_id]).

    [luaL_error] and undefined behaviour are error values.  Integers are
    stored as on a little-endian machine. *)

From Stdlib Require Import ZArith Lia.
From stdpp Require Import base tactics option numbers list.
From S2P Require Import Prelude.

(** ** Values

    What the serializer sees of a Lua value through the API.  A table is its
    values at 1 .. [lua_rawlen] and the other pairs in the order of
    [lua_next]; as a result of unpacking it is the sequence of assignments
    made.  [LMeta] is a table whose metatable has [__pairs], with the pairs
    its iterator yields.  [LOther] is a function, thread or full userdata. *)

Inductive lua_value :=
  | LNil
  | LBool (b : bool)
  | LInt (z : Z)                       (* a 64-bit integer *)
  | LReal (bits : Z)                   (* a double by its bits *)
  | LStr (s : list Z)
  | LPtr (p : Z)                       (* a light userdata *)
  | LTable (arr : list lua_value) (hash : list (lua_value * lua_value))
  | LMeta (pairs : list (lua_value * lua_value))
  | LOther.

(** ** Results *)

Inductive error :=
  | TooDepth          (* "serialize can't pack too depth table" *)
  | Unsupported       (* "Unsupport type" *)
  | InvalidStream     (* "Invalid serialize stream" *)
  | KeyNaN            (* "table index is NaN", from [lua_rawset] *)
  | NullPointer       (* "deserialize null pointer" *)
  | Undefined         (* undefined behaviour of C *)
  | OutOfFuel.

Inductive result (A : Type) := Ok (a : A) | Err (e : error).
Arguments Ok {A}.
Arguments Err {A}.

#[global] Instance result_ret : MRet result := λ A, Ok.
#[global] Instance result_bind : MBind result := λ A B k m, match m with Ok a => k a | Err e => Err e end.

(** A step that is undefined when it is [None]. *)
Definition lift {A} (o : option A) : result A := match o with Some a => Ok a | None => Err Undefined end.

(** ** Writing *)

Definition TYPE_NIL : Z := 0.
Definition TYPE_BOOLEAN : Z := 1.
Definition TYPE_NUMBER : Z := 2.
Definition TYPE_NUMBER_ZERO : Z := 0.
Definition TYPE_NUMBER_BYTE : Z := 1.
Definition TYPE_NUMBER_WORD : Z := 2.
Definition TYPE_NUMBER_DWORD : Z := 4.
Definition TYPE_NUMBER_QWORD : Z := 6.
Definition TYPE_NUMBER_REAL : Z := 8.
Definition TYPE_USERDATA : Z := 3.
Definition TYPE_SHORT_STRING : Z := 4.
Definition TYPE_LONG_STRING : Z := 5.
Definition TYPE_TABLE : Z := 6.
Definition MAX_COOKIE : Z := 32.
Definition BLOCK_SIZE : Z := 128.
Definition MAX_DEPTH : Z := 32.

Definition COMBINE_TYPE (t v : Z) : Z := u8 (Z.lor t (Z.shiftl v 3)).

Abbreviation block := (list (option Z)) (only parsing).

(** The chain from [head]: the blocks before [current], and [current]. *)
Record write_block := mk_wb { wb_full : list block; wb_current : block; wb_len : Z; wb_ptr : Z }.

Definition blk_alloc : block := malloc BLOCK_SIZE.

Definition wb_init : write_block := mk_wb [] blk_alloc 0 0.

(** [b->current = b->current->next = blk_alloc(); b->ptr = 0] *)
Definition wb_again (b : write_block) : write_block :=
  mk_wb (wb_full b ++ [wb_current b]) blk_alloc (wb_len b) 0.

(** [wb_push] after its first test; [buf] has [sz] bytes. *)
Fixpoint wb_put (fuel : nat) (b : write_block) (buf : list Z) : result write_block :=
  match fuel with
  | O => Err OutOfFuel
  | S f =>
      let sz := Z.of_nat (length buf) in
      if wb_ptr b <=? BLOCK_SIZE - sz then
        cur ← lift (memcpy (wb_current b) (wb_ptr b) buf sz);
        len ← lift (chk32 (wb_len b + sz));
        Ok (mk_wb (wb_full b) cur len (wb_ptr b + sz))
      else
        let copy := BLOCK_SIZE - wb_ptr b in
        cur ← lift (memcpy (wb_current b) (wb_ptr b) buf copy);
        len ← lift (chk32 (wb_len b + copy));
        wb_put f (wb_again (mk_wb (wb_full b) cur len (wb_ptr b))) (drop (Z.to_nat copy) buf)
  end.

Definition wb_push (b : write_block) (buf : list Z) : result write_block :=
  wb_put (S (length buf)) (if wb_ptr b =? BLOCK_SIZE then wb_again b else b) buf.

Definition wb_nil (wb : write_block) : result write_block := wb_push wb [TYPE_NIL].

Definition wb_boolean (wb : write_block) (b : bool) : result write_block :=
  wb_push wb [COMBINE_TYPE TYPE_BOOLEAN (if b then 1 else 0)].

Definition wb_integer (wb : write_block) (v : Z) : result write_block :=
  let type := TYPE_NUMBER in
  if v =? 0 then wb_push wb [COMBINE_TYPE type TYPE_NUMBER_ZERO]
  else if negb (v =? i32 v) then
    wb ← wb_push wb [COMBINE_TYPE type TYPE_NUMBER_QWORD]; wb_push wb (le_bytes 8 v)
  else if v <? 0 then
    wb ← wb_push wb [COMBINE_TYPE type TYPE_NUMBER_DWORD]; wb_push wb (le_bytes 4 v)
  else if v <? 256 then
    wb ← wb_push wb [COMBINE_TYPE type TYPE_NUMBER_BYTE]; wb_push wb (le_bytes 1 v)
  else if v <? 65536 then
    wb ← wb_push wb [COMBINE_TYPE type TYPE_NUMBER_WORD]; wb_push wb (le_bytes 2 v)
  else
    wb ← wb_push wb [COMBINE_TYPE type TYPE_NUMBER_DWORD]; wb_push wb (le_bytes 4 v).

Definition wb_real (wb : write_block) (v : Z) : result write_block :=
  wb ← wb_push wb [COMBINE_TYPE TYPE_NUMBER TYPE_NUMBER_REAL]; wb_push wb (le_bytes 8 v).

Definition wb_pointer (wb : write_block) (v : Z) : result write_block :=
  wb ← wb_push wb [TYPE_USERDATA]; wb_push wb (le_bytes 8 v).

(** [wb_string(wb, str, len)], [len] the size of the string as an [int]. *)
Definition wb_string (wb : write_block) (str : list Z) (len : Z) : result write_block :=
  let bytes := take (Z.to_nat len) str in
  if len <? MAX_COOKIE then
    wb ← wb_push wb [COMBINE_TYPE TYPE_SHORT_STRING len];
    if 0 <? len then wb_push wb bytes else Ok wb
  else if len <? 65536 then
    wb ← wb_push wb [COMBINE_TYPE TYPE_LONG_STRING 2];
    wb ← wb_push wb (le_bytes 2 len);
    wb_push wb bytes
  else
    wb ← wb_push wb [COMBINE_TYPE TYPE_LONG_STRING 4];
    wb ← wb_push wb (le_bytes 4 len);
    wb_push wb bytes.

(** The tag of [wb_table_array]. *)
Definition wb_table_tag (wb : write_block) (array_size : Z) : result write_block :=
  if MAX_COOKIE - 1 <=? array_size then
    wb ← wb_push wb [COMBINE_TYPE TYPE_TABLE (MAX_COOKIE - 1)]; wb_integer wb array_size
  else wb_push wb [COMBINE_TYPE TYPE_TABLE array_size].

Section Fold.
Context (pack : write_block → lua_value → result write_block).

(** The loop of [wb_table_array]. *)
Fixpoint wb_array_loop (wb : write_block) (l : list lua_value) : result write_block :=
  match l with
  | [] => Ok wb
  | v :: l' => wb ← pack wb v; wb_array_loop wb l'
  end.

(** The loops of [wb_table_hash] and [wb_table_metapairs]. *)
Fixpoint wb_pairs_loop (wb : write_block) (l : list (lua_value * lua_value)) : result write_block :=
  match l with
  | [] => wb_nil wb
  | (k, v) :: l' => wb ← pack wb k; wb ← pack wb v; wb_pairs_loop wb l'
  end.
End Fold.

(** [pack_one] and, for tables, [wb_table]. *)
Fixpoint pack_one (wb : write_block) (v : lua_value) (depth : Z) {struct v} : result write_block :=
  if MAX_DEPTH <? depth then Err TooDepth
  else
    match v with
    | LNil => wb_nil wb
    | LInt x => wb_integer wb x
    | LReal n => wb_real wb n
    | LBool b => wb_boolean wb b
    | LStr s => wb_string wb s (i32 (Z.of_nat (length s)))
    | LPtr p => wb_pointer wb p
    | LTable arr hash =>
        wb ← wb_table_tag wb (i32 (Z.of_nat (length arr)));
        wb ← wb_array_loop (λ wb v, pack_one wb v (depth + 1)) wb arr;
        wb_pairs_loop (λ wb v, pack_one wb v (depth + 1)) wb hash
    | LMeta pairs =>
        wb ← wb_push wb [COMBINE_TYPE TYPE_TABLE 0];
        wb_pairs_loop (λ wb v, pack_one wb v (depth + 1)) wb pairs
    | LOther => Err Unsupported
    end.

Fixpoint pack_from (wb : write_block) (vs : list lua_value) : result write_block :=
  match vs with
  | [] => Ok wb
  | v :: vs' => wb ← pack_one wb v 0; pack_from wb vs'
  end.

(** [strlen] stops at the first 0. *)
Fixpoint c_str (s : list Z) : list Z :=
  match s with
  | [] => []
  | c :: s' => if c =? 0 then [] else c :: c_str s'
  end.

(** The copying loop of [seri]. *)
Fixpoint seri_loop (blocks : list block) (len off : Z) (dst : list (option Z)) : result (list (option Z)) :=
  if 0 <? len then
    match blocks with
    | [] => Err Undefined
    | b :: bs =>
        if BLOCK_SIZE <=? len then
          dst ← lift (memcpy_cells dst off b BLOCK_SIZE);
          seri_loop bs (len - BLOCK_SIZE) (off + BLOCK_SIZE) dst
        else lift (memcpy_cells dst off b len)
    end
  else Ok dst.

(** [seri]: the block made and its size. *)
Definition seri (wb : write_block) (id : option (list Z)) : result (list (option Z) * Z) :=
  let id_len := match id with Some s => u16 (Z.of_nat (length (c_str s))) | None => 0 end in
  let len := wb_len wb in
  sz ← lift (chk32 (len + 2 + id_len));
  buffer ← lift (memcpy (malloc sz) 0 (le_bytes 2 id_len) 2);
  buffer ← lift (match id with Some s => memcpy buffer 2 (c_str s) id_len | None => Some buffer end);
  buffer ← seri_loop (wb_full wb ++ [wb_current wb]) len (2 + id_len) buffer;
  Ok (buffer, sz).

Definition luaseri_pack (vs : list lua_value) : result (list (option Z) * Z) :=
  wb ← pack_from wb_init vs;
  seri wb None.

Definition luaseri_jy_pack (id : option (list Z)) (vs : list lua_value) : result (list (option Z) * Z) :=
  wb ← pack_from wb_init vs;
  seri wb id.

(** ** Reading *)

Record read_block := mk_rb { rb_buffer : list Z; rb_len : Z; rb_ptr : Z }.

Definition rball_init (buffer : list Z) (size : Z) : read_block := mk_rb buffer size 0.

(** [rb_read] and the use of the pointer it returns: [Ok None] is [NULL]; a
    negative size passes the test and is undefined in every caller, as is a
    read outside the memory block. *)
Definition rb_read (rb : read_block) (sz : Z) : result (option (list Z * read_block)) :=
  if rb_len rb <? sz then Ok None
  else if (sz <? 0) || (Z.of_nat (length (rb_buffer rb)) <? rb_ptr rb + sz) then Err Undefined
  else Ok (Some (take (Z.to_nat sz) (drop (Z.to_nat (rb_ptr rb)) (rb_buffer rb)),
                 mk_rb (rb_buffer rb) (rb_len rb - sz) (rb_ptr rb + sz))).

(** [rb_read] followed by [if (p == NULL) invalid_stream(L,rb)]. *)
Definition rb_must (rb : read_block) (sz : Z) : result (list Z * read_block) :=
  r ← rb_read rb sz;
  match r with Some p => Ok p | None => Err InvalidStream end.

(** One byte, as [rb_must] of size 1 gives it. *)
Definition rb_byte (rb : read_block) : result (Z * read_block) :=
  '(p, rb) ← rb_must rb 1;
  Ok (le_val p, rb).

Definition get_integer (rb : read_block) (cookie : Z) : result (Z * read_block) :=
  if cookie =? TYPE_NUMBER_ZERO then Ok (0, rb)
  else if cookie =? TYPE_NUMBER_BYTE then '(p, rb) ← rb_must rb 1; Ok (le_val p, rb)
  else if cookie =? TYPE_NUMBER_WORD then '(p, rb) ← rb_must rb 2; Ok (le_val p, rb)
  else if cookie =? TYPE_NUMBER_DWORD then '(p, rb) ← rb_must rb 4; Ok (i32 (le_val p), rb)
  else if cookie =? TYPE_NUMBER_QWORD then '(p, rb) ← rb_must rb 8; Ok (i64 (le_val p), rb)
  else Err InvalidStream.

Definition get_real (rb : read_block) : result (Z * read_block) :=
  '(p, rb) ← rb_must rb 8; Ok (le_val p, rb).

Definition get_pointer (rb : read_block) : result (Z * read_block) :=
  '(p, rb) ← rb_must rb 8; Ok (le_val p, rb).

Definition get_buffer (rb : read_block) (len : Z) : result (lua_value * read_block) :=
  '(p, rb) ← rb_must rb len; Ok (LStr p, rb).

(** The size of the array part, at the beginning of [unpack_table]. *)
Definition unpack_array_size (rb : read_block) (array_size : Z) : result (Z * read_block) :=
  if array_size =? MAX_COOKIE - 1 then
    '(type, rb) ← rb_byte rb;
    let cookie := Z.shiftr type 3 in
    if negb (Z.land type 7 =? TYPE_NUMBER) || (cookie =? TYPE_NUMBER_REAL) then Err InvalidStream
    else '(n, rb) ← get_integer rb cookie; Ok (i32 n, rb)
  else Ok (array_size, rb).

(** A double that is not a number: exponent all ones, mantissa not zero. *)
Definition is_nan (v : lua_value) : bool :=
  match v with
  | LReal bits => (Z.land (Z.shiftr bits 52) 2047 =? 2047) && negb (Z.land bits (2 ^ 52 - 1) =? 0)
  | _ => false
  end.

Definition is_nil (v : lua_value) : bool := match v with LNil => true | _ => false end.

(** The values without parts. *)
Definition push_scalar (rb : read_block) (type cookie : Z) : result (lua_value * read_block) :=
  if type =? TYPE_NIL then Ok (LNil, rb)
  else if type =? TYPE_BOOLEAN then Ok (LBool (negb (cookie =? 0)), rb)
  else if type =? TYPE_NUMBER then
    if cookie =? TYPE_NUMBER_REAL then '(n, rb) ← get_real rb; Ok (LReal n, rb)
    else '(n, rb) ← get_integer rb cookie; Ok (LInt n, rb)
  else if type =? TYPE_USERDATA then '(p, rb) ← get_pointer rb; Ok (LPtr p, rb)
  else if type =? TYPE_SHORT_STRING then get_buffer rb cookie
  else if type =? TYPE_LONG_STRING then
    if cookie =? 2 then
      '(p, rb) ← rb_must rb 2; get_buffer rb (le_val p)
    else if negb (cookie =? 4) then Err InvalidStream
    else '(p, rb) ← rb_must rb 4; get_buffer rb (i32 (le_val p))
  else Err InvalidStream.

(** [push_value], [unpack_one], [unpack_table] and its two loops. *)
Fixpoint push_value (fuel : nat) (rb : read_block) (type cookie : Z) : result (lua_value * read_block) :=
  match fuel with
  | O => Err OutOfFuel
  | S f =>
      if type =? TYPE_TABLE then
        '(n, rb) ← unpack_array_size rb cookie;
        '(arr, rb) ← unpack_array f rb n;
        '(hash, rb) ← unpack_pairs f rb;
        Ok (LTable arr hash, rb)
      else push_scalar rb type cookie
  end
with unpack_one (fuel : nat) (rb : read_block) : result (lua_value * read_block) :=
  match fuel with
  | O => Err OutOfFuel
  | S f =>
      '(type, rb) ← rb_byte rb;
      push_value f rb (Z.land type 7) (Z.shiftr type 3)
  end
with unpack_array (fuel : nat) (rb : read_block) (n : Z) : result (list lua_value * read_block) :=
  match fuel with
  | O => Err OutOfFuel
  | S f =>
      if 0 <? n then
        '(v, rb) ← unpack_one f rb;
        '(l, rb) ← unpack_array f rb (n - 1);
        Ok (v :: l, rb)
      else Ok ([], rb)
  end
with unpack_pairs (fuel : nat) (rb : read_block) : result (list (lua_value * lua_value) * read_block) :=
  match fuel with
  | O => Err OutOfFuel
  | S f =>
      '(k, rb) ← unpack_one f rb;
      if is_nil k then Ok ([], rb)
      else
        '(v, rb) ← unpack_one f rb;
        if is_nan k then Err KeyNaN
        else '(l, rb) ← unpack_pairs f rb; Ok ((k, v) :: l, rb)
  end.

(** The loop of [luaseri_unpack]. *)
Fixpoint unpack_loop (fuel : nat) (rb : read_block) : result (list lua_value) :=
  match fuel with
  | O => Err OutOfFuel
  | S f =>
      r ← rb_read rb 1;
      match r with
      | None => Ok []
      | Some (p, rb) =>
          let type := le_val p in
          '(v, rb) ← push_value f rb (Z.land type 7) (Z.shiftr type 3);
          l ← unpack_loop f rb;
          Ok (v :: l)
      end
  end.

(** The argument of [luaseri_unpack]: nothing, a Lua string (followed in
    memory by a 0), or a pointer to a block and the length passed. *)
Inductive unpack_arg :=
  | ANone
  | AString (s : list Z)
  | APtr (block : option (list Z)) (len : Z).

(** The memory and [len]. *)
Definition arg_block (a : unpack_arg) : option (list Z) * Z :=
  match a with
  | ANone => (None, 0)
  | AString s => (Some (s ++ [0]), i32 (Z.of_nat (length s)))
  | APtr b len => (b, i32 len)
  end.

(** Each value takes a byte, each nested call of the loops one more level:
    three levels per byte. *)
Definition unpack_fuel (len : Z) : nat := Z.to_nat (3 * Z.max 0 len + 4).

Definition luaseri_unpack (a : unpack_arg) : result (list lua_value) :=
  match a with
  | ANone => Ok []
  | _ =>
      let '(block, len) := arg_block a in
      if len =? 0 then Ok []
      else
        match block with
        | None => Err NullPointer
        | Some mem =>
            _ ← lift (c_assert (2 <=? Z.of_nat (length mem)));
            let head_len := le_val (take 2 mem) in
            let buffer := drop (Z.to_nat (2 + head_len)) mem in
            let len := len - (2 + head_len) in
            if len =? 0 then Ok []
            else unpack_loop (unpack_fuel len) (rball_init buffer len)
        end
  end.

(** [luaseri_get_jy_id]: [Ok None] is no return value. *)
Definition luaseri_get_jy_id (a : unpack_arg) : result (option (list Z)) :=
  match a with
  | ANone => Ok None
  | _ =>
      match fst (arg_block a) with
      | None => Err NullPointer
      | Some mem =>
          _ ← lift (c_assert (2 <=? Z.of_nat (length mem)));
          let head_len := le_val (take 2 mem) in
          let buffer := drop 2 mem in
          _ ← lift (c_assert (head_len <=? Z.of_nat (length buffer)));
          Ok (Some (take (Z.to_nat head_len) buffer))
      end
  end.

Example pack_example :
  luaseri_pack [LInt 300; LTable [LStr [97]; LNil; LBool true] [(LStr [107], LReal 1)]] =
  Ok (Some <$> [0; 0; 18; 44; 1; 30; 12; 97; 0; 9; 12; 107; 66; 1; 0; 0; 0; 0; 0; 0; 0; 0], 22).
Proof. reflexivity. Qed.

(** ** The write block is a growing byte string *)

Record wb_repr (b : write_block) (data : list Z) : Prop := {
  wr_chunks : ∃ fulls t, wb_full b = (λ c, partial BLOCK_SIZE c) <$> fulls ∧
    Forall (λ c, Z.of_nat (length c) = BLOCK_SIZE) fulls ∧
    wb_current b = partial BLOCK_SIZE t ∧ wb_ptr b = Z.of_nat (length t) ∧
    Z.of_nat (length t) <= BLOCK_SIZE ∧ data = concat fulls ++ t;
  wr_len : wb_len b = Z.of_nat (length data)
}.

Lemma wb_init_repr : wb_repr wb_init [].
Proof.
  split; [|done]. exists [], []. by split_and!.
Qed.

Lemma wb_again_repr b data : wb_repr b data → wb_ptr b = BLOCK_SIZE → wb_repr (wb_again b) data ∧ wb_ptr (wb_again b) = 0.
Proof.
  intros [(fulls & t & Hf & Hall & Hc & Hp & Ht & Hd) Hl] Hfull. split; [|done]. split; [|done].
  exists (fulls ++ [t]), []. unfold wb_again. simpl. split_and!; try done.
  - by rewrite Hf, Hc, fmap_app.
  - apply Forall_app. split; auto. apply Forall_singleton. lia.
  - rewrite concat_app. simpl. by rewrite !app_nil_r.
Qed.

Lemma wb_put_ok fuel b data buf :
  wb_repr b data → (wb_ptr b < BLOCK_SIZE ∨ buf = []) → (length buf < fuel)%nat →
  Z.of_nat (length data + length buf) <= INT_MAX →
  ∃ b', wb_put fuel b buf = Ok b' ∧ wb_repr b' (data ++ buf).
Proof.
  revert b data buf. induction fuel as [|fuel IH]; intros b data buf Hr Hp0 Hf Hmax; [lia|].
  pose proof Hr as [(fulls & t & Hfl & Hall & Hc & Hp & Ht & Hd) Hl]. cbn [wb_put].
  destruct (Z.leb_spec (wb_ptr b) (BLOCK_SIZE - Z.of_nat (length buf))) as [Hfit|Hover].
  - rewrite Hc, Hp, memcpy_partial, Nat2Z.id, firstn_all by lia. simpl.
    rewrite chk32_some by (unfold INT_MIN; lia). simpl. eexists. split; [reflexivity|].
    split; simpl; [|rewrite length_app; lia]. exists fulls, (t ++ buf).
    rewrite length_app. split_and!; auto; try lia. by rewrite Hd, app_assoc.
  - destruct Hp0 as [Hp0|Hnil]; [|subst buf; simpl in Hover; lia].
    set (copy := BLOCK_SIZE - wb_ptr b).
    rewrite Hc, Hp, memcpy_partial by lia. cbn [lift mbind result_bind].
    rewrite chk32_some by (unfold INT_MIN; lia). cbn [lift mbind result_bind].
    set (b1 := mk_wb _ _ _ _).
    assert (Hr1 : wb_repr (mk_wb (wb_full b) (partial BLOCK_SIZE (t ++ take (Z.to_nat copy) buf))
                    (wb_len b + copy) BLOCK_SIZE) (data ++ take (Z.to_nat copy) buf)).
    { assert (Hct : Z.of_nat (length (take (Z.to_nat copy) buf)) = copy) by (rewrite length_take; lia).
      split; simpl; [|rewrite length_app; lia]. exists fulls, (t ++ take (Z.to_nat copy) buf).
      rewrite length_app. split_and!; auto; try lia. by rewrite Hd, app_assoc. }
    apply wb_again_repr in Hr1 as [Hr1 _]; [|done].
    destruct (IH (wb_again b1) (data ++ take (Z.to_nat copy) buf) (drop (Z.to_nat copy) buf)) as (b' & He & Hb').
    + exact Hr1.
    + by left.
    + rewrite length_drop. subst copy. lia.
    + rewrite length_app, length_take, length_drop. lia.
    + exists b'. rewrite <- app_assoc, take_drop in Hb'. split; [exact He|done].
Qed.

Lemma wb_push_ok b data buf :
  wb_repr b data → Z.of_nat (length data + length buf) <= INT_MAX →
  ∃ b', wb_push b buf = Ok b' ∧ wb_repr b' (data ++ buf).
Proof.
  intros Hr Hmax. unfold wb_push. destruct (Z.eqb_spec (wb_ptr b) BLOCK_SIZE) as [He|Hne].
  - apply wb_again_repr in Hr as [Hr H0]; [|done]. apply wb_put_ok; auto with lia. left. rewrite H0. done.
  - apply wb_put_ok; auto with lia. left. destruct Hr as [(? & ? & _ & _ & _ & ? & ? & _) _]. lia.
Qed.

(** ** The format *)

(** The bytes of a value: what the writer appends. *)
Definition enc_integer (v : Z) : list Z :=
  if v =? 0 then [COMBINE_TYPE TYPE_NUMBER TYPE_NUMBER_ZERO]
  else if negb (v =? i32 v) then COMBINE_TYPE TYPE_NUMBER TYPE_NUMBER_QWORD :: le_bytes 8 v
  else if v <? 0 then COMBINE_TYPE TYPE_NUMBER TYPE_NUMBER_DWORD :: le_bytes 4 v
  else if v <? 256 then COMBINE_TYPE TYPE_NUMBER TYPE_NUMBER_BYTE :: le_bytes 1 v
  else if v <? 65536 then COMBINE_TYPE TYPE_NUMBER TYPE_NUMBER_WORD :: le_bytes 2 v
  else COMBINE_TYPE TYPE_NUMBER TYPE_NUMBER_DWORD :: le_bytes 4 v.

Definition enc_string (s : list Z) : list Z :=
  let len := Z.of_nat (length s) in
  if len <? MAX_COOKIE then COMBINE_TYPE TYPE_SHORT_STRING len :: s
  else if len <? 65536 then COMBINE_TYPE TYPE_LONG_STRING 2 :: le_bytes 2 len ++ s
  else COMBINE_TYPE TYPE_LONG_STRING 4 :: le_bytes 4 len ++ s.

Definition enc_tag (n : Z) : list Z :=
  if MAX_COOKIE - 1 <=? n then COMBINE_TYPE TYPE_TABLE (MAX_COOKIE - 1) :: enc_integer n
  else [COMBINE_TYPE TYPE_TABLE n].

Fixpoint enc (v : lua_value) : list Z :=
  match v with
  | LNil => [TYPE_NIL]
  | LBool b => [COMBINE_TYPE TYPE_BOOLEAN (if b then 1 else 0)]
  | LInt z => enc_integer z
  | LReal n => COMBINE_TYPE TYPE_NUMBER TYPE_NUMBER_REAL :: le_bytes 8 n
  | LStr s => enc_string s
  | LPtr p => TYPE_USERDATA :: le_bytes 8 p
  | LTable arr hash =>
      enc_tag (Z.of_nat (length arr)) ++ concat (map enc arr) ++
      concat (map (λ '(k, v), enc k ++ enc v) hash) ++ [TYPE_NIL]
  | LMeta pairs => COMBINE_TYPE TYPE_TABLE 0 :: concat (map (λ '(k, v), enc k ++ enc v) pairs) ++ [TYPE_NIL]
  | LOther => []
  end.

Definition enc_pairs (l : list (lua_value * lua_value)) : list Z := concat (map (λ '(k, v), enc k ++ enc v) l).

(** The values that can be packed at a depth: no function, thread or full
    userdata, not nested too deeply; strings and arrays below 2^31. *)
Fixpoint packable (v : lua_value) (depth : Z) : Prop :=
  depth <= MAX_DEPTH ∧
  match v with
  | LStr s => Z.of_nat (length s) < 2 ^ 31
  | LTable arr hash =>
      Z.of_nat (length arr) < 2 ^ 31 ∧
      foldr (λ v P, packable v (depth + 1) ∧ P) True arr ∧
      foldr (λ kv P, (packable kv.1 (depth + 1) ∧ packable kv.2 (depth + 1)) ∧ P) True hash
  | LMeta pairs => foldr (λ kv P, (packable kv.1 (depth + 1) ∧ packable kv.2 (depth + 1)) ∧ P) True pairs
  | LOther => False
  | _ => True
  end.

(** Induction on values with their parts. *)
Section Ind.
Context (P : lua_value → Prop).
Context (Hnil : P LNil) (Hbool : ∀ b, P (LBool b)) (Hint : ∀ z, P (LInt z)) (Hreal : ∀ n, P (LReal n))
  (Hstr : ∀ s, P (LStr s)) (Hptr : ∀ p, P (LPtr p)) (Hother : P LOther)
  (Htab : ∀ arr hash, Forall P arr → Forall (λ kv, P kv.1 ∧ P kv.2) hash → P (LTable arr hash))
  (Hmeta : ∀ pairs, Forall (λ kv, P kv.1 ∧ P kv.2) pairs → P (LMeta pairs)).

Fixpoint lua_value_nested_ind (v : lua_value) : P v :=
  let pairs_rect :=
    fix go (l : list (lua_value * lua_value)) : Forall (λ kv, P kv.1 ∧ P kv.2) l :=
      match l with
      | [] => Forall_nil_2 _
      | (k, w) :: l' => Forall_cons_2 (λ kv, P kv.1 ∧ P kv.2) (k, w) l'
          (conj (lua_value_nested_ind k) (lua_value_nested_ind w)) (go l')
      end in
  match v with
  | LNil => Hnil
  | LBool b => Hbool b
  | LInt z => Hint z
  | LReal n => Hreal n
  | LStr s => Hstr s
  | LPtr p => Hptr p
  | LTable arr hash =>
      Htab arr hash
        ((fix go (l : list lua_value) : Forall P l :=
            match l with [] => Forall_nil_2 _ | x :: l' => Forall_cons_2 _ x l' (lua_value_nested_ind x) (go l') end) arr)
        (pairs_rect hash)
  | LMeta pairs => Hmeta pairs (pairs_rect pairs)
  | LOther => Hother
  end.
End Ind.

(** ** The writer appends the format *)

(** [m] appends [bytes] to any write block with room for them. *)
Definition appends (m : write_block → result write_block) (bytes : list Z) : Prop :=
  ∀ wb data, wb_repr wb data → Z.of_nat (length data + length bytes) <= INT_MAX →
    ∃ wb', m wb = Ok wb' ∧ wb_repr wb' (data ++ bytes).

Lemma appends_push buf : appends (λ wb, wb_push wb buf) buf.
Proof. intros wb data. apply wb_push_ok. Qed.

Lemma appends_ret : appends Ok [].
Proof. intros wb data Hr _. exists wb. by rewrite app_nil_r. Qed.

Lemma appends_bind m1 m2 b1 b2 :
  appends m1 b1 → appends m2 b2 → appends (λ wb, wb ← m1 wb; m2 wb) (b1 ++ b2).
Proof.
  intros H1 H2 wb data Hr Hl. rewrite length_app in Hl.
  destruct (H1 wb data Hr) as (wb1 & -> & Hr1); [lia|]. cbn [mbind result_bind].
  destruct (H2 wb1 _ Hr1) as (wb2 & -> & Hr2); [rewrite length_app; lia|]. exists wb2. by rewrite <- app_assoc in Hr2.
Qed.

Lemma appends_push2 b1 buf : appends (λ wb, wb ← wb_push wb [b1]; wb_push wb buf) (b1 :: buf).
Proof. apply (appends_bind _ _ [b1] buf); apply appends_push. Qed.

Create HintDb seri discriminated.
#[export] Hint Resolve appends_push appends_ret appends_bind appends_push2 : seri.

Lemma wb_integer_appends v : appends (λ wb, wb_integer wb v) (enc_integer v).
Proof. unfold wb_integer, enc_integer. repeat case_match; auto with seri. Qed.

Lemma i32_length {A} (l : list A) : Z.of_nat (length l) < 2 ^ 31 → i32 (Z.of_nat (length l)) = Z.of_nat (length l).
Proof. intros. apply i32_small. unfold INT_MIN, INT_MAX. lia. Qed.

Lemma wb_string_appends s :
  Z.of_nat (length s) < 2 ^ 31 → appends (λ wb, wb_string wb s (i32 (Z.of_nat (length s)))) (enc_string s).
Proof.
  intros Hs. rewrite i32_length by done. unfold wb_string, enc_string. rewrite Nat2Z.id, firstn_all.
  repeat case_match; bool_to_prop.
  - apply appends_push2.
  - assert (s = []) as -> by (destruct s; simpl in *; [done|lia]). apply (appends_bind _ Ok [_] []); auto with seri.
  - apply (appends_bind _ _ [_] (_ ++ _)); auto with seri.
  - apply (appends_bind _ _ [_] (_ ++ _)); auto with seri.
Qed.

Lemma wb_table_tag_appends n : appends (λ wb, wb_table_tag wb n) (enc_tag n).
Proof.
  unfold wb_table_tag, enc_tag. case_match; auto with seri.
  apply (appends_bind _ _ [_] _); auto using wb_integer_appends with seri.
Qed.

Lemma wb_array_loop_appends pack l :
  Forall (λ v, appends (λ wb, pack wb v) (enc v)) l → appends (λ wb, wb_array_loop pack wb l) (concat (map enc l)).
Proof.
  induction 1 as [|v l Hv _ IH]; simpl; [apply appends_ret|].
  by apply (appends_bind (λ wb, pack wb v)).
Qed.

Lemma wb_pairs_loop_appends pack l :
  Forall (λ kv, appends (λ wb, pack wb kv.1) (enc kv.1) ∧ appends (λ wb, pack wb kv.2) (enc kv.2)) l →
  appends (λ wb, wb_pairs_loop pack wb l) (enc_pairs l ++ [TYPE_NIL]).
Proof.
  unfold enc_pairs. induction 1 as [|[k v] l [Hk Hv] _ IH]; simpl; [apply appends_push|].
  rewrite <- !app_assoc. apply (appends_bind (λ wb, pack wb k)); auto. by apply (appends_bind (λ wb, pack wb v)).
Qed.

Lemma foldr_and {A} (P : A → Prop) l : foldr (λ x Q, P x ∧ Q) True l ↔ Forall P l.
Proof. induction l as [|x l IH]; simpl; [done|]. by rewrite Forall_cons, IH. Qed.

Lemma pack_one_appends v : ∀ depth, packable v depth → appends (λ wb, pack_one wb v depth) (enc v).
Proof.
  induction v as [| | | |s| | |arr hash IHa IHh|pairs IHp] using lua_value_nested_ind; intros depth [Hd Hv];
    cbn [pack_one]; rewrite (proj2 (Z.ltb_ge _ _) Hd); try done; try (apply appends_push || apply appends_push2).
  - apply wb_integer_appends.
  - by apply wb_string_appends.
  - destruct Hv as (Hlen & Ha%foldr_and & Hh%(foldr_and (λ kv, packable kv.1 _ ∧ packable kv.2 _))).
    rewrite i32_length by done. change (concat (map _ hash)) with (enc_pairs hash).
    cbn [enc]. apply appends_bind; [apply wb_table_tag_appends|].
    apply (appends_bind (λ wb, wb_array_loop _ wb arr)).
    + apply wb_array_loop_appends. rewrite !Forall_forall in *. auto.
    + apply wb_pairs_loop_appends. rewrite !Forall_forall in *. intros kv Hkv.
      destruct (IHh kv Hkv), (Hh kv Hkv). auto.
  - apply (foldr_and (λ kv, packable kv.1 _ ∧ packable kv.2 _)) in Hv.
    cbn [enc]. apply (appends_bind _ _ [_] _); [apply appends_push|].
    apply wb_pairs_loop_appends. rewrite !Forall_forall in *. intros kv Hkv.
    destruct (IHp kv Hkv), (Hv kv Hkv). auto.
Qed.

Definition enc_all (vs : list lua_value) : list Z := concat (map enc vs).

Lemma pack_from_appends vs : Forall (λ v, packable v 0) vs → appends (λ wb, pack_from wb vs) (enc_all vs).
Proof.
  unfold enc_all. induction 1 as [|v vs Hv _ IH]; simpl; [apply appends_ret|].
  apply (appends_bind (λ wb, pack_one wb v 0)); auto. by apply pack_one_appends.
Qed.

(** ** The block handed to Lua *)

Lemma memcpy_chunk n pre c m :
  Z.of_nat (length pre + length c) <= n → Z.of_nat (length c) <= BLOCK_SIZE → m = Z.of_nat (length c) →
  memcpy_cells (partial n pre) (Z.of_nat (length pre)) (partial BLOCK_SIZE c) m = Some (partial n (pre ++ c)).
Proof.
  intros Hn Hc ->. rewrite (memcpy_cells_written _ _ _ _ c) by
    (rewrite ?Nat2Z.id; unfold partial; rewrite ?take_app_length'; try rewrite length_fmap; done || lia).
  rewrite memcpy_partial by lia. by rewrite Nat2Z.id, firstn_all.
Qed.

Lemma seri_loop_ok fulls t n pre :
  Forall (λ c, Z.of_nat (length c) = BLOCK_SIZE) fulls → Z.of_nat (length t) <= BLOCK_SIZE →
  Z.of_nat (length pre + length (concat fulls ++ t)) = n →
  seri_loop (((λ c, partial BLOCK_SIZE c) <$> fulls) ++ [partial BLOCK_SIZE t])
    (Z.of_nat (length (concat fulls ++ t))) (Z.of_nat (length pre)) (partial n pre) =
  Ok (partial n (pre ++ concat fulls ++ t)).
Proof.
  intros Hall Ht. revert pre. induction Hall as [|c fulls Hc _ IH]; intros pre Hn.
  - simpl in *. destruct (Z.ltb_spec 0 (Z.of_nat (length t))) as [Hpos|Hz].
    + destruct (Z.leb_spec BLOCK_SIZE (Z.of_nat (length t))) as [Hge|Hlt].
      * rewrite memcpy_chunk by lia. simpl.
        replace (0 <? Z.of_nat (length t) - BLOCK_SIZE) with false by (symmetry; apply Z.ltb_ge; lia). done.
      * rewrite memcpy_chunk by lia. done.
    + assert (t = []) as -> by (destruct t; simpl in *; [done|lia]). by rewrite app_nil_r.
  - cbn [concat fmap list_fmap app seri_loop]. simpl in Hn. rewrite <- app_assoc in *.
    rewrite (length_app c) in *. assert (0 < BLOCK_SIZE) by done. zcases.
    rewrite memcpy_chunk by lia. cbn [lift mbind result_bind].
    replace (Z.of_nat (length c + length (concat fulls ++ t)) - BLOCK_SIZE)
      with (Z.of_nat (length (concat fulls ++ t))) by lia.
    replace (Z.of_nat (length pre) + BLOCK_SIZE) with (Z.of_nat (length (pre ++ c))) by (rewrite length_app; lia).
    rewrite IH by (rewrite length_app; lia). by rewrite <- app_assoc.
Qed.

Definition header (id : option (list Z)) : list Z :=
  match id with
  | Some s => le_bytes 2 (Z.of_nat (length (c_str s))) ++ c_str s
  | None => [0; 0]
  end.

Lemma seri_ok wb data id :
  wb_repr wb data → (∀ s, id = Some s → Z.of_nat (length (c_str s)) < 2 ^ 16) →
  Z.of_nat (length data) + 2 ^ 17 <= INT_MAX →
  seri wb id = Ok (Some <$> header id ++ data, Z.of_nat (length (header id ++ data))).
Proof.
  intros [(fulls & t & Hf & Hall & Hc & Hp & Ht & Hd) Hl] Hid Hmax. unfold seri. rewrite Hl.
  set (idl := match id with Some s => _ | None => 0 end).
  assert (Hidl : idl + 2 = Z.of_nat (length (header id)) ∧ 0 <= idl < 2 ^ 16).
  { subst idl. destruct id as [s|]; [|done]. specialize (Hid s eq_refl). unfold header.
    rewrite u16_small, length_app, le_bytes_length by lia. lia. }
  assert (HN : Z.of_nat (length (header id ++ data)) = Z.of_nat (length data) + 2 + idl) by (rewrite length_app; lia).
  rewrite <- HN. set (n := Z.of_nat (length (header id ++ data))) in *.
  rewrite chk32_some by (unfold INT_MIN; lia). cbn [lift mbind result_bind].
  rewrite memcpy_new by (rewrite ?le_bytes_length; lia). cbn [lift mbind result_bind].
  change (take (Z.to_nat 2) (le_bytes 2 idl)) with (le_bytes 2 idl).
  assert (Hhd : match id with
                | Some s => memcpy (partial n (le_bytes 2 idl)) 2 (c_str s) idl
                | None => Some (partial n (le_bytes 2 idl)) end = Some (partial n (header id))).
  { destruct id as [s|]; [|done]. specialize (Hid s eq_refl).
    assert (Hi : idl = Z.of_nat (length (c_str s))) by (subst idl; apply u16_small; lia).
    clearbody idl n. rewrite Hi in *. unfold header. set (b := le_bytes 2 _).
    change 2 with (Z.of_nat (length b)) at 1. assert (length b = 2%nat) by done.
    rewrite memcpy_partial, Nat2Z.id, firstn_all; auto; lia. }
  rewrite Hhd. cbn [lift mbind result_bind]. rewrite Hf, Hc.
  replace (2 + idl) with (Z.of_nat (length (header id))) by lia. rewrite Hd.
  rewrite seri_loop_ok; auto; [|rewrite <- Hd; subst n; by rewrite length_app].
  cbn [mbind result_bind]. rewrite <- Hd. subst n. by rewrite partial_full.
Qed.

Lemma jy_pack_ok id vs :
  Forall (λ v, packable v 0) vs → (∀ s, id = Some s → Z.of_nat (length (c_str s)) < 2 ^ 16) →
  Z.of_nat (length (enc_all vs)) + 2 ^ 17 <= INT_MAX →
  luaseri_jy_pack id vs = Ok (Some <$> header id ++ enc_all vs, Z.of_nat (length (header id ++ enc_all vs))).
Proof.
  intros Hvs Hid Hmax. unfold luaseri_jy_pack.
  destruct (pack_from_appends vs Hvs wb_init [] wb_init_repr) as (wb & -> & Hr); [simpl; lia|].
  cbn [mbind result_bind]. by apply seri_ok.
Qed.

(** ** The reader inverts the format *)

(** The values the reader gives back: a table with [__pairs] comes back as a
    plain one. *)
Fixpoint norm (v : lua_value) : lua_value :=
  match v with
  | LTable arr hash => LTable (map norm arr) (map (λ '(k, v), (norm k, norm v)) hash)
  | LMeta pairs => LTable [] (map (λ '(k, v), (norm k, norm v)) pairs)
  | v => v
  end.

Definition norm_pairs (l : list (lua_value * lua_value)) := map (λ '(k, v), (norm k, norm v)) l.

(** What every Lua value satisfies: the widths of numbers and pointers, and
    keys that are neither nil nor NaN. *)
Fixpoint lua_ok (v : lua_value) : Prop :=
  match v with
  | LInt z => - 2 ^ 63 <= z < 2 ^ 63
  | LReal n => 0 <= n < 2 ^ 64
  | LPtr p => 0 <= p < 2 ^ 64
  | LTable arr hash =>
      foldr (λ v P, lua_ok v ∧ P) True arr ∧
      foldr (λ kv P, (is_nil kv.1 = false ∧ is_nan kv.1 = false ∧ lua_ok kv.1 ∧ lua_ok kv.2) ∧ P) True hash
  | LMeta pairs =>
      foldr (λ kv P, (is_nil kv.1 = false ∧ is_nan kv.1 = false ∧ lua_ok kv.1 ∧ lua_ok kv.2) ∧ P) True pairs
  | _ => True
  end.

(** The stream still to read is [rest]; the memory block may be longer. *)
Definition rb_repr (rb : read_block) (rest : list Z) : Prop :=
  rb_len rb = Z.of_nat (length rest) ∧
  ∃ pre extra, rb_buffer rb = pre ++ rest ++ extra ∧ rb_ptr rb = Z.of_nat (length pre).

(** [f] consumes [bytes] and gives [x]. *)
Definition reads {A} (f : read_block → result (A * read_block)) (bytes : list Z) (x : A) : Prop :=
  ∀ rb rest, rb_repr rb (bytes ++ rest) → ∃ rb', f rb = Ok (x, rb') ∧ rb_repr rb' rest.

Lemma reads_must a sz : sz = Z.of_nat (length a) → reads (λ rb, rb_must rb sz) a a.
Proof.
  intros -> rb rest (Hl & pre & extra & Hb & Hp). rewrite length_app in Hl. unfold rb_must, rb_read. rewrite Hl, Hb, Hp.
  rewrite !length_app. zcases; cbn [orb mbind result_bind].
  eexists. rewrite !Nat2Z.id. rewrite drop_app_length, <- app_assoc, take_app_length. split; [reflexivity|].
  split; simpl; [lia|]. exists (pre ++ a), extra. rewrite length_app, <- !app_assoc. split; [done|lia].
Qed.

Lemma reads_bind {A B} f (g : A → read_block → result (B * read_block)) b1 b2 x y :
  reads f b1 x → reads (g x) b2 y → reads (λ rb, '(a, rb) ← f rb; g a rb) (b1 ++ b2) y.
Proof.
  intros Hf Hg rb rest Hr. rewrite <- app_assoc in Hr. destruct (Hf rb _ Hr) as (rb1 & -> & Hr1).
  cbn [mbind result_bind]. by apply Hg.
Qed.

Lemma reads_ret {A} (x : A) : reads (λ rb, Ok (x, rb)) [] x.
Proof. intros rb rest Hr. by exists rb. Qed.

Lemma reads_map {A B} f (g : A → B) b x : reads f b x → reads (λ rb, '(a, rb) ← f rb; Ok (g a, rb)) b (g x).
Proof.
  intros Hf. rewrite <- (app_nil_r b).
  apply (reads_bind f (λ a rb, Ok (g a, rb)) b [] x); [done|apply reads_ret].
Qed.

Lemma reads_byte b : reads rb_byte [b] b.
Proof.
  unfold rb_byte. replace b with (le_val [b]) at 2 by (simpl; lia).
  apply (reads_map (λ rb, rb_must rb 1) le_val). by apply reads_must.
Qed.

Lemma reads_le n z (g : Z → Z) :
  reads (λ rb, '(p, rb) ← rb_must rb (Z.of_nat n); Ok (g (le_val p), rb)) (le_bytes n z) (g (z mod 256 ^ Z.of_nat n)).
Proof.
  rewrite <- le_val_bytes. apply (reads_map (λ rb, rb_must rb (Z.of_nat n)) (λ p, g (le_val p))).
  apply reads_must. by rewrite le_bytes_length.
Qed.

(** A tag byte splits into type and cookie. *)
Lemma combine_split t v : 0 <= t < 8 → 0 <= v < 32 →
  Z.land (COMBINE_TYPE t v) 7 = t ∧ Z.shiftr (COMBINE_TYPE t v) 3 = v.
Proof.
  intros Ht Hv. assert (COMBINE_TYPE t v = v * 8 + t) as ->.
  { unfold COMBINE_TYPE. rewrite Z.lor_comm.
    rewrite lor_shiftl_add by lia. apply u8_small. lia. }
  change 7 with (2 ^ 3 - 1). rewrite land_ones_mod, Z.shiftr_div_pow2 by lia. split; dlia.
Qed.

Lemma i32_mod z : i32 (z mod 2 ^ 32) = i32 z.
Proof. unfold i32. by rewrite Z.add_mod_idemp_l. Qed.

Lemma i64_mod z : i64 (z mod 2 ^ 64) = i64 z.
Proof. unfold i64. by rewrite Z.add_mod_idemp_l. Qed.

(** Reading a tag and then what its type says. *)
Lemma reads_tag {A} (g : Z → Z → read_block → result (A * read_block)) t v b x :
  0 <= t < 8 → 0 <= v < 32 → reads (g t v) b x →
  reads (λ rb, '(type, rb) ← rb_byte rb; g (Z.land type 7) (Z.shiftr type 3) rb) (COMBINE_TYPE t v :: b) x.
Proof.
  intros Ht Hv Hg. destruct (combine_split t v Ht Hv) as [H1 H2].
  apply (reads_bind rb_byte (λ a rb, g (Z.land a 7) (Z.shiftr a 3) rb) [_] b (COMBINE_TYPE t v)); [apply reads_byte|].
  by rewrite H1, H2.
Qed.

(** The integer after its tag: [enc_integer v] is a tag and the bytes
    [get_integer] reads with the tag's cookie. *)
Lemma enc_integer_spec v :
  - 2 ^ 63 <= v < 2 ^ 63 →
  ∃ cookie b, enc_integer v = COMBINE_TYPE TYPE_NUMBER cookie :: b ∧ 0 <= cookie < 8 ∧
    reads (λ rb, get_integer rb cookie) b v.
Proof.
  intros Hv. unfold enc_integer, INT_MIN, INT_MAX in *.
  destruct (Z.eqb_spec v 0) as [->|]; [exists 0, []; split_and!; try done; apply reads_ret|].
  destruct (Z.eqb_spec v (i32 v)) as [H32|]; cbn [negb].
  2: { exists 6, (le_bytes 8 v). split_and!; try done. rewrite <- (i64_small v) at 2 by lia. rewrite <- i64_mod.
       apply (reads_le 8 v i64). }
  assert (INT_MIN <= v <= INT_MAX) by (rewrite H32; unfold i32, INT_MIN, INT_MAX; dlia). unfold INT_MIN, INT_MAX in *.
  destruct (Z.ltb_spec v 0).
  { exists 4, (le_bytes 4 v). split_and!; try done. rewrite H32 at 2. rewrite <- i32_mod. apply (reads_le 4 v i32). }
  destruct (Z.ltb_spec v 256).
  { exists 1, (le_bytes 1 v). split_and!; try done. rewrite <- (Z.mod_small v 256) at 2 by lia. apply (reads_le 1 v id). }
  destruct (Z.ltb_spec v 65536).
  { exists 2, (le_bytes 2 v). split_and!; try done. rewrite <- (Z.mod_small v 65536) at 2 by lia.
    apply (reads_le 2 v id). }
  exists 4, (le_bytes 4 v). split_and!; try done. rewrite H32 at 2. rewrite <- i32_mod. apply (reads_le 4 v i32).
Qed.

Lemma reads_get_integer_tag v :
  - 2 ^ 63 <= v < 2 ^ 63 →
  reads (λ rb, '(type, rb) ← rb_byte rb;
    let cookie := Z.shiftr type 3 in
    if negb (Z.land type 7 =? TYPE_NUMBER) || (cookie =? TYPE_NUMBER_REAL) then Err InvalidStream
    else '(n, rb) ← get_integer rb cookie; Ok (i32 n, rb)) (enc_integer v) (i32 v).
Proof.
  intros Hv. destruct (enc_integer_spec v Hv) as (cookie & b & -> & Hc & Hr).
  apply (reads_tag (λ t c rb, if negb (t =? TYPE_NUMBER) || (c =? TYPE_NUMBER_REAL) then Err InvalidStream
    else '(n, rb) ← get_integer rb c; Ok (i32 n, rb))); [done|lia|].
  unfold TYPE_NUMBER_REAL. zcases. cbn [negb orb Z.eqb TYPE_NUMBER Pos.eqb].
  by apply (reads_map (λ rb, get_integer rb cookie) i32).
Qed.

Lemma enc_tag_spec n :
  0 <= n < 2 ^ 31 →
  ∃ cookie b, enc_tag n = COMBINE_TYPE TYPE_TABLE cookie :: b ∧ 0 <= cookie < 32 ∧
    reads (λ rb, unpack_array_size rb cookie) b n.
Proof.
  intros Hn. unfold enc_tag, MAX_COOKIE. destruct (Z.leb_spec (32 - 1) n).
  - exists 31, (enc_integer n). split_and!; try done. rewrite <- (i32_small n) at 2 by (unfold INT_MIN, INT_MAX; lia).
    unfold unpack_array_size. cbn [Z.eqb MAX_COOKIE Z.sub Z.add Z.opp Pos.eqb Z.pos_sub Pos.pred_double].
    apply reads_get_integer_tag. lia.
  - exists n, []. split_and!; try done; try lia. unfold unpack_array_size, MAX_COOKIE.
    rewrite (proj2 (Z.eqb_neq n (32 - 1))) by lia. apply reads_ret.
Qed.

Lemma reads_scalar f t v b x :
  (t =? TYPE_TABLE) = false → reads (λ rb, push_scalar rb t v) b x → reads (λ rb, push_value (S f) rb t v) b x.
Proof. intros Ht. cbn [push_value]. by rewrite Ht. Qed.

(** A value without parts: its tag and its bytes. *)
Lemma unpack_scalar f t v b x :
  0 <= t < 8 → t ≠ TYPE_TABLE → 0 <= v < 32 → reads (λ rb, push_scalar rb t v) b x →
  reads (unpack_one (S (S f))) (COMBINE_TYPE t v :: b) x.
Proof.
  intros Ht Hne Hv Hr. apply (reads_tag (λ t v rb, push_value (S f) rb t v)); auto.
  apply reads_scalar; auto. by apply Z.eqb_neq.
Qed.

Lemma reads_buffer s n : n = Z.of_nat (length s) → reads (λ rb, get_buffer rb n) s (LStr s).
Proof. intros ->. apply (reads_map (λ rb, rb_must rb _) LStr). by apply reads_must. Qed.

Lemma unpack_string f s :
  Z.of_nat (length s) < 2 ^ 31 → reads (unpack_one (S (S f))) (enc_string s) (LStr s).
Proof.
  intros Hs. unfold enc_string, MAX_COOKIE.
  destruct (Z.ltb_spec (Z.of_nat (length s)) 32).
  { apply unpack_scalar; try done; [lia|]. unfold push_scalar. simpl. by apply reads_buffer. }
  destruct (Z.ltb_spec (Z.of_nat (length s)) 65536).
  - apply unpack_scalar; try done. apply (reads_bind (λ rb, rb_must rb 2) (λ p rb, get_buffer rb (le_val p)) _ s (le_bytes 2 (Z.of_nat (length s)))).
    + by apply reads_must.
    + apply reads_buffer. rewrite le_val_bytes, Z.mod_small; lia.
  - apply unpack_scalar; try done. apply (reads_bind (λ rb, rb_must rb 4) (λ p rb, get_buffer rb (i32 (le_val p))) _ s (le_bytes 4 (Z.of_nat (length s)))).
    + by apply reads_must.
    + apply reads_buffer. rewrite le_val_bytes, Z.mod_small by lia. apply i32_length. lia.
Qed.

(** The statement proved for each value. *)
Definition reads_back (v : lua_value) : Prop :=
  ∀ d fuel, packable v d → lua_ok v → (3 * length (enc v) + 1 <= fuel)%nat → reads (unpack_one fuel) (enc v) (norm v).

Lemma enc_tag_pos n : (1 <= length (enc_tag n))%nat.
Proof. unfold enc_tag. case_match; simpl; lia. Qed.

Lemma enc_pos v d : packable v d → (1 <= length (enc v))%nat.
Proof.
  destruct v; intros [_ Hv]; try done; simpl; try lia.
  - unfold enc_integer. repeat case_match; simpl; lia.
  - unfold enc_string. repeat case_match; simpl; lia.
  - unfold enc_tag. rewrite length_app. repeat case_match; simpl; lia.
Qed.

Lemma unpack_array_reads d arr fuel :
  Forall reads_back arr → Forall (λ v, packable v d) arr → Forall lua_ok arr →
  (3 * length (concat (map enc arr)) + 2 <= fuel)%nat →
  reads (λ rb, unpack_array fuel rb (Z.of_nat (length arr))) (concat (map enc arr)) (map norm arr).
Proof.
  intros Hr Hp Ho. revert fuel. induction Hr as [|v arr Hv _ IH]; intros fuel Hf.
  { destruct fuel; [lia|]. apply reads_ret. }
  destruct fuel as [|fuel]; [simpl in Hf; lia|]. apply Forall_cons in Hp as [Hpv Hp], Ho as [Hov Ho].
  simpl in Hf. rewrite length_app in Hf. pose proof (enc_pos v d Hpv).
  cbn [unpack_array concat map length]. replace (0 <? Z.of_nat (S (length arr))) with true by (symmetry; apply Z.ltb_lt; lia).
  apply (reads_bind (unpack_one fuel) (λ v rb, '(l, rb) ← unpack_array fuel rb _; Ok (v :: l, rb)) _ _ (norm v)).
  - apply (Hv d); auto. lia.
  - apply (reads_map (λ rb, unpack_array fuel rb _) (cons (norm v))).
    replace (Z.of_nat (S (length arr)) - 1) with (Z.of_nat (length arr)) by lia. apply IH; auto. lia.
Qed.

Lemma norm_nil k : is_nil k = false → is_nan k = false → is_nil (norm k) = false ∧ is_nan (norm k) = false.
Proof. by destruct k. Qed.

Lemma unpack_nil f : reads (unpack_one (S (S f))) [TYPE_NIL] LNil.
Proof. apply (unpack_scalar f 0 0 []); try done. apply reads_ret. Qed.

Lemma unpack_pairs_reads d l fuel :
  Forall (λ kv, reads_back kv.1 ∧ reads_back kv.2) l → Forall (λ kv, packable kv.1 d ∧ packable kv.2 d) l →
  Forall (λ kv, is_nil kv.1 = false ∧ is_nan kv.1 = false ∧ lua_ok kv.1 ∧ lua_ok kv.2) l →
  (3 * length (enc_pairs l ++ [TYPE_NIL]) + 2 <= fuel)%nat →
  reads (unpack_pairs fuel) (enc_pairs l ++ [TYPE_NIL]) (norm_pairs l).
Proof.
  intros Hr Hp Ho. revert fuel. induction Hr as [|[k v] l [Hk Hv] _ IH]; intros fuel Hf.
  { simpl in Hf. destruct fuel as [|[|[|f]]]; [lia..|]. simpl app.
    change ([TYPE_NIL]) with ([TYPE_NIL] ++ []).
    apply (reads_bind (unpack_one (S (S f))) (λ k rb, if is_nil k then Ok ([], rb) else _) _ _ LNil).
    - apply unpack_nil.
    - apply reads_ret. }
  destruct fuel as [|fuel]; [simpl in Hf; lia|].
  apply Forall_cons in Hp as [[Hpk Hpv] Hp], Ho as [(Hn & Hnan & Hok & Hov) Ho]. simpl in *.
  unfold enc_pairs in *. simpl in *. rewrite !length_app in Hf. simpl in Hf. rewrite <- !app_assoc.
  pose proof (enc_pos k d Hpk). pose proof (enc_pos v d Hpv).
  destruct (norm_nil k Hn Hnan) as [Hn' Hnan'].
  eapply (reads_bind (unpack_one fuel) (λ k rb, _) _ _ (norm k)); [apply (Hk d); auto; lia|]. simpl. rewrite Hn'.
  eapply (reads_bind (unpack_one fuel) (λ v rb, _) _ _ (norm v)); [apply (Hv d); auto; lia|]. simpl. rewrite Hnan'.
  apply (reads_map (unpack_pairs fuel) (cons (norm k, norm v))).
  apply IH; auto. rewrite length_app. simpl. lia.
Qed.

Lemma foldr_and_pairs (P : lua_value * lua_value → Prop) l : foldr (λ kv Q, P kv ∧ Q) True l ↔ Forall P l.
Proof. apply foldr_and. Qed.

Lemma unpack_table_reads d arr hash fuel tail :
  tail = concat (map enc arr) ++ enc_pairs hash ++ [TYPE_NIL] →
  Forall reads_back arr → Forall (λ kv, reads_back kv.1 ∧ reads_back kv.2) hash →
  Forall (λ v, packable v d) arr → Forall (λ kv, packable kv.1 d ∧ packable kv.2 d) hash →
  Forall lua_ok arr →
  Forall (λ kv, is_nil kv.1 = false ∧ is_nan kv.1 = false ∧ lua_ok kv.1 ∧ lua_ok kv.2) hash →
  Z.of_nat (length arr) < 2 ^ 31 → (3 * length tail + 4 <= fuel)%nat →
  reads (unpack_one fuel) (enc_tag (Z.of_nat (length arr)) ++ tail) (LTable (map norm arr) (norm_pairs hash)).
Proof.
  intros -> Ha Hh Hpa Hph Hoa Hoh Hlen Hf. destruct fuel as [|[|f]]; [lia..|]. rewrite !length_app in Hf. simpl in Hf.
  destruct (enc_tag_spec (Z.of_nat (length arr))) as (cookie & b & -> & Hc & Hr); [lia|].
  cbn [app]. apply (reads_tag (λ t v rb, push_value (S f) rb t v)); try done. cbn [push_value].
  change (TYPE_TABLE =? TYPE_TABLE) with true. cbv iota.
  eapply (reads_bind (λ rb, unpack_array_size rb cookie) (λ n rb, _)); [exact Hr|].
  eapply (reads_bind (λ rb, unpack_array f rb _) (λ n rb, _)).
  { apply (unpack_array_reads d); auto. lia. }
  apply (reads_map (unpack_pairs f) (LTable (map norm arr))).
  apply (unpack_pairs_reads d); auto. rewrite length_app. simpl. lia.
Qed.

Lemma unpack_one_reads v : reads_back v.
Proof.
  induction v as [| | | |s| | |arr hash IHa IHh|pairs IHp] using lua_value_nested_ind; intros d fuel Hp Ho Hf;
    pose proof (enc_pos _ _ Hp); destruct fuel as [|[|f]]; try lia; destruct Hp as [_ Hp].
  - apply unpack_nil.
  - destruct b; apply unpack_scalar; try done; apply reads_ret.
  - cbn [enc norm]. simpl in Ho. destruct (enc_integer_spec _ Ho) as (cookie & b & -> & Hc & Hr).
    apply unpack_scalar; try done; [lia|]. unfold push_scalar.
    assert (Hcr : (cookie =? TYPE_NUMBER_REAL) = false) by (apply Z.eqb_neq; unfold TYPE_NUMBER_REAL; lia).
    cbn [Z.eqb TYPE_NIL TYPE_BOOLEAN TYPE_NUMBER Pos.eqb]. rewrite Hcr.
    by apply (reads_map (λ rb, get_integer rb cookie) LInt).
  - cbn [enc norm]. simpl in Ho. apply unpack_scalar; try done.
    apply (reads_map get_real LReal). rewrite <- (Z.mod_small n (2 ^ 64)) at 2 by lia. apply (reads_le 8 n id).
  - by apply unpack_string.
  - cbn [enc norm]. simpl in Ho. apply (unpack_scalar f 3 0); try done.
    apply (reads_map get_pointer LPtr). rewrite <- (Z.mod_small p (2 ^ 64)) at 2 by lia. apply (reads_le 8 p id).
  - done.
  - destruct Hp as (Hl & Hpa%foldr_and & Hph%(foldr_and_pairs (λ kv, packable kv.1 _ ∧ packable kv.2 _))).
    destruct Ho as (Hoa%foldr_and & Hoh%(foldr_and_pairs (λ kv, is_nil kv.1 = false ∧ _))).
    apply (unpack_table_reads (d + 1) arr hash _ (concat (map enc arr) ++ enc_pairs hash ++ [TYPE_NIL])); auto.
    cbn [enc] in Hf. rewrite length_app in Hf. pose proof (enc_tag_pos (Z.of_nat (length arr))).
    unfold enc_pairs in *. lia.
  - apply (foldr_and_pairs (λ kv, packable kv.1 _ ∧ packable kv.2 _)) in Hp.
    apply (foldr_and_pairs (λ kv, is_nil kv.1 = false ∧ _)) in Ho.
    apply (unpack_table_reads (d + 1) [] pairs _ (enc_pairs pairs ++ [TYPE_NIL])); auto; [done|].
    cbn [enc length] in Hf. unfold enc_pairs in *. lia.
Qed.

(** ** Whole messages *)

Lemma unpack_loop_reads vs rb fuel :
  Forall (λ v, packable v 0 ∧ lua_ok v) vs → rb_repr rb (enc_all vs) → (3 * length (enc_all vs) + 1 <= fuel)%nat →
  unpack_loop fuel rb = Ok (map norm vs).
Proof.
  intros Hvs. revert rb fuel. induction Hvs as [|v vs [Hp Ho] _ IH]; intros rb fuel Hr Hf.
  { destruct fuel; [lia|]. cbn [unpack_loop]. destruct Hr as [Hl _]. unfold rb_read. rewrite Hl. done. }
  unfold enc_all in *. simpl in Hr, Hf. rewrite length_app in Hf. pose proof (enc_pos v 0 Hp).
  destruct fuel as [|fuel]; [lia|]. cbn [unpack_loop].
  destruct (unpack_one_reads v 0 (S fuel) Hp Ho) with (rb := rb) (rest := concat (map enc vs))
    as (rb' & Hone & Hr'); [lia|done|].
  cbn [unpack_one] in Hone. unfold rb_byte, rb_must in Hone.
  destruct (rb_read rb 1) as [[[p rb1]|]|]; try done. cbn [mbind result_bind] in *. rewrite Hone.
  cbn [mbind result_bind]. rewrite IH; auto. lia.
Qed.

Lemma take_header id rest :
  (∀ s, id = Some s → Z.of_nat (length (c_str s)) < 2 ^ 16) →
  let idb := match id with Some s => c_str s | None => [] end in
  le_val (take 2 (header id ++ rest)) = Z.of_nat (length idb) ∧ header id ++ rest = take 2 (header id) ++ idb ++ rest.
Proof.
  intros Hid. destruct id as [s|]; simpl; [|done]. specialize (Hid s eq_refl). split; [|done].
  dlia.
Qed.

Lemma unpack_header id vs :
  let mem := header id ++ enc_all vs in
  (∀ s, id = Some s → Z.of_nat (length (c_str s)) < 2 ^ 16) → Z.of_nat (length mem) <= INT_MAX →
  Forall (λ v, packable v 0 ∧ lua_ok v) vs →
  luaseri_unpack (APtr (Some mem) (Z.of_nat (length mem))) = Ok (map norm vs) ∧
  luaseri_get_jy_id (APtr (Some mem) (Z.of_nat (length mem))) = Ok (Some (match id with Some s => c_str s | None => [] end)).
Proof.
  intros mem Hid Hmax Hvs. destruct (take_header id (enc_all vs) Hid) as [Hh Hm]. fold mem in Hh, Hm.
  set (idb := match id with Some s => c_str s | None => [] end) in *.
  assert (H2 : length (take 2 (header id)) = 2%nat) by (destruct id; done).
  assert (Hlen : length mem = (2 + length idb + length (enc_all vs))%nat) by (rewrite Hm, !length_app; lia).
  unfold luaseri_unpack, luaseri_get_jy_id. cbn [arg_block fst].
  rewrite (i32_small (Z.of_nat (length mem))) by (unfold INT_MIN; lia).
  rewrite (proj2 (Z.eqb_neq (Z.of_nat (length mem)) 0)) by lia. unfold c_assert. rewrite Hh.
  rewrite (proj2 (Z.leb_le 2 (Z.of_nat (length mem)))) by lia. cbn [lift mbind result_bind].
  assert (Hd2 : drop 2 mem = idb ++ enc_all vs).
  { rewrite Hm. rewrite <- H2 at 1. apply drop_app_length. }
  assert (Hd : drop (Z.to_nat (2 + Z.of_nat (length idb))) mem = enc_all vs).
  { replace (Z.to_nat (2 + Z.of_nat (length idb))) with (2 + length idb)%nat by lia.
    rewrite <- drop_drop, Hd2. apply drop_app_length. }
  rewrite Hd, Hd2. split.
  - destruct (Z.eqb_spec (Z.of_nat (length mem) - (2 + Z.of_nat (length idb))) 0) as [Hz|Hnz].
    + destruct Hvs as [|v vs [Hp _] _]; [done|]. pose proof (enc_pos v 0 Hp). unfold enc_all in Hlen. simpl in Hlen.
      rewrite length_app in Hlen. lia.
    + apply unpack_loop_reads; auto; [|unfold unpack_fuel; lia].
      split; [simpl; lia|]. exists [], []. simpl. by rewrite app_nil_r.
  - rewrite length_app. rewrite (proj2 (Z.leb_le (Z.of_nat (length idb)) _)) by lia. cbn [lift mbind result_bind].
    by rewrite Nat2Z.id, take_app_length.
Qed.

(** C9. Packing and unpacking are inverse: values of any shape that can be
    packed (nested at most 32 deep, no function or thread, below 2 GB) are
    packed without error into a block whose every byte is written, from which
    [luaseri_unpack] gives back the same values, [luaseri_get_jy_id] the id,
    and neither reads outside the block.  A table with [__pairs] comes back
    as the table of the pairs its iterator yields. *)
Theorem seri_roundtrip id vs :
  Forall (λ v, packable v 0 ∧ lua_ok v) vs →
  (∀ s, id = Some s → Z.of_nat (length (c_str s)) < 2 ^ 16) →
  Z.of_nat (length (enc_all vs)) + 2 ^ 17 <= INT_MAX →
  ∃ block sz, luaseri_jy_pack id vs = Ok (Some <$> block, sz) ∧
    luaseri_unpack (APtr (Some block) sz) = Ok (map norm vs) ∧
    luaseri_get_jy_id (APtr (Some block) sz) = Ok (Some (match id with Some s => c_str s | None => [] end)).
Proof.
  intros Hvs Hid Hmax. exists (header id ++ enc_all vs). eexists. split.
  - apply jy_pack_ok; auto. eapply Forall_impl; [exact Hvs|]. by intros v [? _].
  - apply unpack_header; auto. rewrite length_app.
    enough (Z.of_nat (length (header id)) < 2 ^ 17) by lia. destruct id as [s|]; [|done].
    specialize (Hid s eq_refl). unfold header. rewrite length_app, le_bytes_length. lia.
Qed.

(** The message {"a"}, -5, nil with the id "id". *)
Lemma seri_roundtrip_witness :
  ∃ block sz, luaseri_jy_pack (Some [105; 100]) [LTable [LStr [97]] [(LStr [107], LInt 70000)]; LInt (-5); LNil] =
      Ok (Some <$> block, sz) ∧
    luaseri_unpack (APtr (Some block) sz) =
      Ok (map norm [LTable [LStr [97]] [(LStr [107], LInt 70000)]; LInt (-5); LNil]) ∧
    luaseri_get_jy_id (APtr (Some block) sz) = Ok (Some [105; 100]).
Proof.
  apply (seri_roundtrip (Some [105; 100])).
  - repeat constructor; simpl; unfold MAX_DEPTH; lia.
  - intros s [= <-]. reflexivity.
  - vm_compute. discriminate.
Defined.

(** ** Unpacking any input terminates *)

Definition room (rb : read_block) : nat := Z.to_nat (rb_len rb).

(** Not out of fuel, and at least [k] bytes consumed. *)
Definition consumes {A} (m : result (A * read_block)) (rb : read_block) (k : Z) : Prop :=
  match m with
  | Ok (_, rb') => rb_len rb' <= rb_len rb - k ∧ 0 <= rb_len rb'
  | Err e => e ≠ OutOfFuel
  end.

Lemma consumes_must rb n : consumes (rb_must rb n) rb n.
Proof.
  unfold rb_must, rb_read. destruct (Z.ltb_spec (rb_len rb) n); simpl; [done|].
  destruct (_ || _) eqn:E; simpl; [done|]. bool_to_prop. lia.
Qed.

Lemma consumes_bind {A B} (m : result (A * read_block)) (g : A → read_block → result (B * read_block)) rb k1 k2 :
  consumes m rb k1 →
  (∀ a rb', m = Ok (a, rb') → rb_len rb' <= rb_len rb - k1 → 0 <= rb_len rb' → consumes (g a rb') rb' k2) →
  consumes ('(a, rb') ← m; g a rb') rb (k1 + k2).
Proof.
  destruct m as [[a rb']|e]; simpl; auto. intros [H1 H2] Hg. specialize (Hg a rb' eq_refl H1 H2).
  destruct (g a rb') as [[b rb'']|e]; simpl in *; auto. lia.
Qed.

Lemma consumes_map {A B} (m : result (A * read_block)) (g : A → B) rb k :
  consumes m rb k → consumes ('(a, rb') ← m; Ok (g a, rb')) rb k.
Proof. by destruct m as [[a rb']|e]. Qed.

Lemma consumes_le {A} (m : result (A * read_block)) rb j k : consumes m rb k → j <= k → consumes m rb j.
Proof. destruct m as [[a rb']|e]; simpl; [|done]. lia. Qed.

Lemma consumes_integer rb cookie : 0 <= rb_len rb → consumes (get_integer rb cookie) rb 0.
Proof.
  intros H0. unfold get_integer. repeat case_match; try (simpl; lia || done);
    try (eapply consumes_le; [apply consumes_map, consumes_must|lia]).
Qed.

Lemma consumes_buffer rb n : consumes (get_buffer rb n) rb n.
Proof. apply consumes_map, consumes_must. Qed.

(** A negative length is undefined, so what a buffer consumes is not negative. *)
Lemma consumes_buffer_0 rb n : consumes (get_buffer rb n) rb 0.
Proof.
  destruct (decide (0 <= n)); [eapply consumes_le; [apply consumes_buffer|lia]|].
  unfold get_buffer, rb_must, rb_read. destruct (Z.ltb_spec (rb_len rb) n); [done|].
  by rewrite (proj2 (Z.ltb_lt n 0)) by lia.
Qed.

Lemma consumes_scalar rb t c : 0 <= rb_len rb → consumes (push_scalar rb t c) rb 0.
Proof.
  intros H0. unfold push_scalar. repeat case_match; try done;
    try (apply consumes_map; first [apply consumes_integer; done|eapply consumes_le; [apply consumes_map, consumes_must|lia]]);
    try apply consumes_buffer_0; try (simpl; lia).
  all: eapply consumes_le; [eapply consumes_bind; [apply consumes_must|intros; apply consumes_buffer_0]|lia].
Qed.

Lemma consumes_array_size rb c : 0 <= rb_len rb → consumes (unpack_array_size rb c) rb 0.
Proof.
  intros H0. unfold unpack_array_size. case_match; [|simpl; lia].
  eapply consumes_le; [apply (consumes_bind _ _ rb 1 0); [apply consumes_map, consumes_must|]|lia].
  intros a rb' _ _ Hp. case_match; [done|]. by apply consumes_map, consumes_integer.
Qed.

Lemma unpack_consumes fuel :
  (∀ rb t c, 0 <= rb_len rb → (3 * room rb + 3 <= fuel)%nat → consumes (push_value fuel rb t c) rb 0) ∧
  (∀ rb, (3 * room rb + 1 <= fuel)%nat → consumes (unpack_one fuel rb) rb 1) ∧
  (∀ rb n, 0 <= rb_len rb → (3 * room rb + 2 <= fuel)%nat → consumes (unpack_array fuel rb n) rb 0) ∧
  (∀ rb, (3 * room rb + 2 <= fuel)%nat → consumes (unpack_pairs fuel rb) rb 0).
Proof.
  unfold room. induction fuel as [|fuel (IHv & IH1 & IHa & IHp)]; [split_and!; lia|]. split_and!.
  - intros rb t c H0 Hf. cbn [push_value]. case_match; [|by apply consumes_scalar].
    apply (consumes_bind _ _ rb 0 0); [by apply consumes_array_size|]. intros n rb1 _ H1 H1'.
    apply (consumes_bind _ _ rb1 0 0); [apply IHa; lia|]. intros arr rb2 _ H2 H2'.
    apply consumes_map, IHp. lia.
  - intros rb Hf. cbn [unpack_one]. apply (consumes_bind _ _ rb 1 0); [apply consumes_map, consumes_must|].
    intros t rb1 _ H1 H1'. apply IHv; lia.
  - intros rb n H0 Hf. cbn [unpack_array]. case_match; [|simpl; lia].
    eapply consumes_le; [apply (consumes_bind _ _ rb 1 0); [apply IH1; lia|]|lia]. intros v rb1 _ H1 H1'.
    apply consumes_map, IHa; lia.
  - intros rb Hf. cbn [unpack_pairs].
    eapply consumes_le; [apply (consumes_bind _ _ rb 1 0); [apply IH1; lia|]|lia]. intros k rb1 _ H1 H1'.
    case_match; [simpl; lia|].
    eapply consumes_le; [apply (consumes_bind _ _ rb1 1 0); [apply IH1; lia|]|lia]. intros v rb2 _ H2 H2'.
    case_match; [done|]. apply consumes_map, IHp. lia.
Qed.

Lemma unpack_loop_fuel fuel rb : (3 * room rb + 1 <= fuel)%nat → unpack_loop fuel rb ≠ Err OutOfFuel.
Proof.
  unfold room. revert rb. induction fuel as [|fuel IH]; intros rb Hf; [lia|]. cbn [unpack_loop].
  unfold rb_read. destruct (Z.ltb_spec (rb_len rb) 1); [done|]. case_match eqn:E; [done|]. cbn [mbind result_bind].
  set (rb1 := mk_rb _ _ _). assert (Hl : rb_len rb1 = rb_len rb - 1) by done.
  destruct (unpack_consumes fuel) as (Hv & _).
  match goal with |- context [push_value fuel rb1 ?t ?c] => specialize (Hv rb1 t c);
    destruct (push_value fuel rb1 t c) as [[v rb2]|e] end; unfold room in Hv; cbn [mbind result_bind].
  - destruct Hv as [H1 H2]; [lia|lia|]. specialize (IH rb2).
    destruct (unpack_loop fuel rb2); [done|]. cbn [mbind result_bind]. intros [= ->]. apply IH; [lia|done].
  - assert (e ≠ OutOfFuel) by (apply Hv; lia). congruence.
Qed.

(** Unpacking terminates on every input, malformed or hostile: the
    recursion through nested tables and the loops over their parts always
    consume the stream, whatever sizes it claims. *)
Theorem unpack_terminates a : luaseri_unpack a ≠ Err OutOfFuel.
Proof.
  assert (Hl : ∀ mem len, unpack_loop (unpack_fuel len) (rball_init mem len) ≠ Err OutOfFuel).
  { intros mem len. apply unpack_loop_fuel. unfold unpack_fuel, room. simpl. lia. }
  unfold luaseri_unpack. destruct a as [|s|b len]; [done| |]; cbn [arg_block]; (case_match; [done|]).
  2: destruct b as [mem|]; [|done].
  all: unfold c_assert; destruct (2 <=? _); [|done]; cbn [lift mbind result_bind]; case_match; [done|]; apply Hl.
Qed.

(** ** Hostile input *)

(** A long string whose length has its top bit set is a negative [int]: it
    passes the check of [rb_read] and reaches [lua_pushlstring]. *)
Example unpack_negative_string :
  luaseri_unpack (APtr (Some [0; 0; 37; 255; 255; 255; 255]) 7) = Err Undefined.
Proof. reflexivity. Qed.

(** [luaseri_get_jy_id] does not compare the length of the id with the length
    of the block. *)
Example get_jy_id_overread : luaseri_get_jy_id (APtr (Some [16; 0; 65]) 3) = Err Undefined.
Proof. reflexivity. Qed.

(** A block of one byte: the 16-bit head is read before any check. *)
Example unpack_short_block : luaseri_unpack (APtr (Some [0]) 1) = Err Undefined.
Proof. reflexivity. Qed.
