(* ===== verification/Crypt.v ===== *)
(** * Cryptography for clients: lualib-src/lua-crypt.c

    The login of the game clients uses these functions: a Diffie-Hellman
    exchange of a 64-bit secret, DES of the token with that secret as key,
    a keyed hash, and the hexadecimal and base 64 encodings.

    A Lua string is the list of its bytes.  A function returns a string, the
    Lua error it raises, or is undefined where C is. *)

From Stdlib Require Import ZArith Lia.
From stdpp Require Import base tactics option numbers list.
From S2P Require Import Prelude.

Inductive lua_ret := Ret (s : list Z) | LuaError | Undef.

(** ** DES *)

Definition SB1 : list Z :=
  [0x01010400; 0x00000000; 0x00010000; 0x01010404; 0x01010004; 0x00010404; 0x00000004; 0x00010000;
   0x00000400; 0x01010400; 0x01010404; 0x00000400; 0x01000404; 0x01010004; 0x01000000; 0x00000004;
   0x00000404; 0x01000400; 0x01000400; 0x00010400; 0x00010400; 0x01010000; 0x01010000; 0x01000404;
   0x00010004; 0x01000004; 0x01000004; 0x00010004; 0x00000000; 0x00000404; 0x00010404; 0x01000000;
   0x00010000; 0x01010404; 0x00000004; 0x01010000; 0x01010400; 0x01000000; 0x01000000; 0x00000400;
   0x01010004; 0x00010000; 0x00010400; 0x01000004; 0x00000400; 0x00000004; 0x01000404; 0x00010404;
   0x01010404; 0x00010004; 0x01010000; 0x01000404; 0x01000004; 0x00000404; 0x00010404; 0x01010400;
   0x00000404; 0x01000400; 0x01000400; 0x00000000; 0x00010004; 0x00010400; 0x00000000; 0x01010004].

Definition SB2 : list Z :=
  [0x80108020; 0x80008000; 0x00008000; 0x00108020; 0x00100000; 0x00000020; 0x80100020; 0x80008020;
   0x80000020; 0x80108020; 0x80108000; 0x80000000; 0x80008000; 0x00100000; 0x00000020; 0x80100020;
   0x00108000; 0x00100020; 0x80008020; 0x00000000; 0x80000000; 0x00008000; 0x00108020; 0x80100000;
   0x00100020; 0x80000020; 0x00000000; 0x00108000; 0x00008020; 0x80108000; 0x80100000; 0x00008020;
   0x00000000; 0x00108020; 0x80100020; 0x00100000; 0x80008020; 0x80100000; 0x80108000; 0x00008000;
   0x80100000; 0x80008000; 0x00000020; 0x80108020; 0x00108020; 0x00000020; 0x00008000; 0x80000000;
   0x00008020; 0x80108000; 0x00100000; 0x80000020; 0x00100020; 0x80008020; 0x80000020; 0x00100020;
   0x00108000; 0x00000000; 0x80008000; 0x00008020; 0x80000000; 0x80100020; 0x80108020; 0x00108000].

Definition SB3 : list Z :=
  [0x00000208; 0x08020200; 0x00000000; 0x08020008; 0x08000200; 0x00000000; 0x00020208; 0x08000200;
   0x00020008; 0x08000008; 0x08000008; 0x00020000; 0x08020208; 0x00020008; 0x08020000; 0x00000208;
   0x08000000; 0x00000008; 0x08020200; 0x00000200; 0x00020200; 0x08020000; 0x08020008; 0x00020208;
   0x08000208; 0x00020200; 0x00020000; 0x08000208; 0x00000008; 0x08020208; 0x00000200; 0x08000000;
   0x08020200; 0x08000000; 0x00020008; 0x00000208; 0x00020000; 0x08020200; 0x08000200; 0x00000000;
   0x00000200; 0x00020008; 0x08020208; 0x08000200; 0x08000008; 0x00000200; 0x00000000; 0x08020008;
   0x08000208; 0x00020000; 0x08000000; 0x08020208; 0x00000008; 0x00020208; 0x00020200; 0x08000008;
   0x08020000; 0x08000208; 0x00000208; 0x08020000; 0x00020208; 0x00000008; 0x08020008; 0x00020200].

Definition SB4 : list Z :=
  [0x00802001; 0x00002081; 0x00002081; 0x00000080; 0x00802080; 0x00800081; 0x00800001; 0x00002001;
   0x00000000; 0x00802000; 0x00802000; 0x00802081; 0x00000081; 0x00000000; 0x00800080; 0x00800001;
   0x00000001; 0x00002000; 0x00800000; 0x00802001; 0x00000080; 0x00800000; 0x00002001; 0x00002080;
   0x00800081; 0x00000001; 0x00002080; 0x00800080; 0x00002000; 0x00802080; 0x00802081; 0x00000081;
   0x00800080; 0x00800001; 0x00802000; 0x00802081; 0x00000081; 0x00000000; 0x00000000; 0x00802000;
   0x00002080; 0x00800080; 0x00800081; 0x00000001; 0x00802001; 0x00002081; 0x00002081; 0x00000080;
   0x00802081; 0x00000081; 0x00000001; 0x00002000; 0x00800001; 0x00002001; 0x00802080; 0x00800081;
   0x00002001; 0x00002080; 0x00800000; 0x00802001; 0x00000080; 0x00800000; 0x00002000; 0x00802080].

Definition SB5 : list Z :=
  [0x00000100; 0x02080100; 0x02080000; 0x42000100; 0x00080000; 0x00000100; 0x40000000; 0x02080000;
   0x40080100; 0x00080000; 0x02000100; 0x40080100; 0x42000100; 0x42080000; 0x00080100; 0x40000000;
   0x02000000; 0x40080000; 0x40080000; 0x00000000; 0x40000100; 0x42080100; 0x42080100; 0x02000100;
   0x42080000; 0x40000100; 0x00000000; 0x42000000; 0x02080100; 0x02000000; 0x42000000; 0x00080100;
   0x00080000; 0x42000100; 0x00000100; 0x02000000; 0x40000000; 0x02080000; 0x42000100; 0x40080100;
   0x02000100; 0x40000000; 0x42080000; 0x02080100; 0x40080100; 0x00000100; 0x02000000; 0x42080000;
   0x42080100; 0x00080100; 0x42000000; 0x42080100; 0x02080000; 0x00000000; 0x40080000; 0x42000000;
   0x00080100; 0x02000100; 0x40000100; 0x00080000; 0x00000000; 0x40080000; 0x02080100; 0x40000100].

Definition SB6 : list Z :=
  [0x20000010; 0x20400000; 0x00004000; 0x20404010; 0x20400000; 0x00000010; 0x20404010; 0x00400000;
   0x20004000; 0x00404010; 0x00400000; 0x20000010; 0x00400010; 0x20004000; 0x20000000; 0x00004010;
   0x00000000; 0x00400010; 0x20004010; 0x00004000; 0x00404000; 0x20004010; 0x00000010; 0x20400010;
   0x20400010; 0x00000000; 0x00404010; 0x20404000; 0x00004010; 0x00404000; 0x20404000; 0x20000000;
   0x20004000; 0x00000010; 0x20400010; 0x00404000; 0x20404010; 0x00400000; 0x00004010; 0x20000010;
   0x00400000; 0x20004000; 0x20000000; 0x00004010; 0x20000010; 0x20404010; 0x00404000; 0x20400000;
   0x00404010; 0x20404000; 0x00000000; 0x20400010; 0x00000010; 0x00004000; 0x20400000; 0x00404010;
   0x00004000; 0x00400010; 0x20004010; 0x00000000; 0x20404000; 0x20000000; 0x00400010; 0x20004010].

Definition SB7 : list Z :=
  [0x00200000; 0x04200002; 0x04000802; 0x00000000; 0x00000800; 0x04000802; 0x00200802; 0x04200800;
   0x04200802; 0x00200000; 0x00000000; 0x04000002; 0x00000002; 0x04000000; 0x04200002; 0x00000802;
   0x04000800; 0x00200802; 0x00200002; 0x04000800; 0x04000002; 0x04200000; 0x04200800; 0x00200002;
   0x04200000; 0x00000800; 0x00000802; 0x04200802; 0x00200800; 0x00000002; 0x04000000; 0x00200800;
   0x04000000; 0x00200800; 0x00200000; 0x04000802; 0x04000802; 0x04200002; 0x04200002; 0x00000002;
   0x00200002; 0x04000000; 0x04000800; 0x00200000; 0x04200800; 0x00000802; 0x00200802; 0x04200800;
   0x00000802; 0x04000002; 0x04200802; 0x04200000; 0x00200800; 0x00000000; 0x00000002; 0x04200802;
   0x00000000; 0x00200802; 0x04200000; 0x00000800; 0x04000002; 0x04000800; 0x00000800; 0x00200002].

Definition SB8 : list Z :=
  [0x10001040; 0x00001000; 0x00040000; 0x10041040; 0x10000000; 0x10001040; 0x00000040; 0x10000000;
   0x00040040; 0x10040000; 0x10041040; 0x00041000; 0x10041000; 0x00041040; 0x00001000; 0x00000040;
   0x10040000; 0x10000040; 0x10001000; 0x00001040; 0x00041000; 0x00040040; 0x10040040; 0x10041000;
   0x00001040; 0x00000000; 0x00000000; 0x10040040; 0x10000040; 0x10001000; 0x00041040; 0x00040000;
   0x00041040; 0x00040000; 0x10041000; 0x00001000; 0x00000040; 0x10040040; 0x00001000; 0x00041040;
   0x10001000; 0x00000040; 0x10000040; 0x10040000; 0x10040040; 0x10000000; 0x00040000; 0x10001040;
   0x00000000; 0x10041040; 0x00040040; 0x10000040; 0x10040000; 0x10001000; 0x10001040; 0x00000000;
   0x10041040; 0x00041000; 0x00041000; 0x00001040; 0x00001040; 0x00040040; 0x10000000; 0x10041000].

Definition LHs : list Z :=
  [0x00000000; 0x00000001; 0x00000100; 0x00000101; 0x00010000; 0x00010001; 0x00010100; 0x00010101;
   0x01000000; 0x01000001; 0x01000100; 0x01000101; 0x01010000; 0x01010001; 0x01010100; 0x01010101].

Definition RHs : list Z :=
  [0x00000000; 0x01000000; 0x00010000; 0x01010000; 0x00000100; 0x01000100; 0x00010100; 0x01010100;
   0x00000001; 0x01000001; 0x00010001; 0x01010001; 0x00000101; 0x01000101; 0x00010101; 0x01010101].

(** Reading a table with an index already masked to its size. *)
Definition tab (t : list Z) (i : Z) : Z := nth (Z.to_nat i) t 0.

Definition GET_UINT32 (b : list Z) (i : nat) : Z :=
  Z.lor (Z.lor (Z.lor (Z.shiftl (nth i b 0) 24) (Z.shiftl (nth (i + 1) b 0) 16))
               (Z.shiftl (nth (i + 2) b 0) 8)) (nth (i + 3) b 0).

Definition PUT_UINT32 (n : Z) : list Z :=
  [u8 (Z.shiftr n 24); u8 (Z.shiftr n 16); u8 (Z.shiftr n 8); u8 n].

(** [T = ((X >> k) ^ Y) & m; Y ^= T; X ^= (T << k)] *)
Definition swap_bits (k m : Z) (XY : Z * Z) : Z * Z :=
  let '(X, Y) := XY in
  let T := Z.land (Z.lxor (Z.shiftr X k) Y) m in
  (Z.lxor X (u32 (Z.shiftl T k)), Z.lxor Y T).

(** The same with the roles of X and Y exchanged. *)
Definition swap_bits' (k m : Z) (XY : Z * Z) : Z * Z :=
  let '(Y, X) := swap_bits k m (XY.2, XY.1) in (X, Y).

(** [((X << n) | (X >> (32 - n))) & 0xFFFFFFFF] *)
Definition rotl32 (X n : Z) : Z := Z.land (Z.lor (u32 (Z.shiftl X n)) (Z.shiftr X (32 - n))) 0xFFFFFFFF.

Definition DES_IP (XY : Z * Z) : Z * Z :=
  let XY := swap_bits 4 0x0F0F0F0F XY in
  let XY := swap_bits 16 0x0000FFFF XY in
  let XY := swap_bits' 2 0x33333333 XY in
  let XY := swap_bits' 8 0x00FF00FF XY in
  let XY := (XY.1, rotl32 XY.2 1) in
  let XY := swap_bits 0 0xAAAAAAAA XY in
  (rotl32 XY.1 1, XY.2).

Definition DES_FP (XY : Z * Z) : Z * Z :=
  let XY := (rotl32 XY.1 31, XY.2) in
  let XY := swap_bits 0 0xAAAAAAAA XY in
  let XY := (XY.1, rotl32 XY.2 31) in
  let XY := swap_bits' 8 0x00FF00FF XY in
  let XY := swap_bits' 2 0x33333333 XY in
  let XY := swap_bits 16 0x0000FFFF XY in
  swap_bits 4 0x0F0F0F0F XY.

(** The word [DES_ROUND] combines into Y, for the two subkeys it reads. *)
Definition des_f (k1 k2 X : Z) : Z :=
  let T := Z.lxor k1 X in
  let T' := Z.lxor k2 (Z.lor (u32 (Z.shiftl X 28)) (Z.shiftr X 4)) in
  let f1 := Z.lxor (Z.lxor (Z.lxor (tab SB8 (Z.land T 0x3F)) (tab SB6 (Z.land (Z.shiftr T 8) 0x3F)))
                           (tab SB4 (Z.land (Z.shiftr T 16) 0x3F))) (tab SB2 (Z.land (Z.shiftr T 24) 0x3F)) in
  let f2 := Z.lxor (Z.lxor (Z.lxor (tab SB7 (Z.land T' 0x3F)) (tab SB5 (Z.land (Z.shiftr T' 8) 0x3F)))
                           (tab SB3 (Z.land (Z.shiftr T' 16) 0x3F))) (tab SB1 (Z.land (Z.shiftr T' 24) 0x3F)) in
  Z.lxor f1 f2.

(** The subkeys, two per round. *)
Abbreviation subkeys := (list (Z * Z)) (only parsing).

(** [DES_ROUND(X, Y)]: Y changes. *)
Definition DES_ROUND (sk : Z * Z) (X Y : Z) : Z := Z.lxor Y (des_f sk.1 sk.2 X).

(** The sixteen rounds: [DES_ROUND(Y, X); DES_ROUND(X, Y); ...], the pair
    exchanged after each so that one clause describes them. *)
Fixpoint des_rounds (SK : subkeys) (XY : Z * Z) : Z * Z :=
  match SK with
  | [] => XY
  | sk :: SK' => des_rounds SK' (XY.2, DES_ROUND sk XY.2 XY.1)
  end.

Definition lor_all (l : list Z) : Z := fold_left Z.lor l 0.

(** The choice of a key's bits into the halves X and Y. *)
Definition des_pc1 (X Y : Z) : Z * Z :=
  let T := Z.land (Z.lxor (Z.shiftr Y 4) X) 0x0F0F0F0F in
  let X := Z.lxor X T in
  let Y := Z.lxor Y (u32 (Z.shiftl T 4)) in
  let T := Z.land (Z.lxor Y X) 0x10101010 in
  let X := Z.lxor X T in
  let Y := Z.lxor Y T in
  let X' := lor_all
    [u32 (Z.shiftl (tab LHs (Z.land X 0xF)) 3); u32 (Z.shiftl (tab LHs (Z.land (Z.shiftr X 8) 0xF)) 2);
     u32 (Z.shiftl (tab LHs (Z.land (Z.shiftr X 16) 0xF)) 1); tab LHs (Z.land (Z.shiftr X 24) 0xF);
     u32 (Z.shiftl (tab LHs (Z.land (Z.shiftr X 5) 0xF)) 7); u32 (Z.shiftl (tab LHs (Z.land (Z.shiftr X 13) 0xF)) 6);
     u32 (Z.shiftl (tab LHs (Z.land (Z.shiftr X 21) 0xF)) 5); u32 (Z.shiftl (tab LHs (Z.land (Z.shiftr X 29) 0xF)) 4)] in
  let Y' := lor_all
    [u32 (Z.shiftl (tab RHs (Z.land (Z.shiftr Y 1) 0xF)) 3); u32 (Z.shiftl (tab RHs (Z.land (Z.shiftr Y 9) 0xF)) 2);
     u32 (Z.shiftl (tab RHs (Z.land (Z.shiftr Y 17) 0xF)) 1); tab RHs (Z.land (Z.shiftr Y 25) 0xF);
     u32 (Z.shiftl (tab RHs (Z.land (Z.shiftr Y 4) 0xF)) 7); u32 (Z.shiftl (tab RHs (Z.land (Z.shiftr Y 12) 0xF)) 6);
     u32 (Z.shiftl (tab RHs (Z.land (Z.shiftr Y 20) 0xF)) 5); u32 (Z.shiftl (tab RHs (Z.land (Z.shiftr Y 28) 0xF)) 4)] in
  (Z.land X' 0x0FFFFFFF, Z.land Y' 0x0FFFFFFF).

(** [((X << n) | (X >> (28 - n))) & 0x0FFFFFFF] *)
Definition rotl28 (X n : Z) : Z := Z.land (Z.lor (u32 (Z.shiftl X n)) (Z.shiftr X (28 - n))) 0x0FFFFFFF.

(** The two subkeys of a round. *)
Definition des_subkey (X Y : Z) : Z * Z :=
  (lor_all
     [Z.land (u32 (Z.shiftl X 4)) 0x24000000; Z.land (u32 (Z.shiftl X 28)) 0x10000000; Z.land (u32 (Z.shiftl X 14)) 0x08000000;
      Z.land (u32 (Z.shiftl X 18)) 0x02080000; Z.land (u32 (Z.shiftl X 6)) 0x01000000; Z.land (u32 (Z.shiftl X 9)) 0x00200000;
      Z.land (Z.shiftr X 1) 0x00100000; Z.land (u32 (Z.shiftl X 10)) 0x00040000; Z.land (u32 (Z.shiftl X 2)) 0x00020000;
      Z.land (Z.shiftr X 10) 0x00010000; Z.land (Z.shiftr Y 13) 0x00002000; Z.land (Z.shiftr Y 4) 0x00001000;
      Z.land (u32 (Z.shiftl Y 6)) 0x00000800; Z.land (Z.shiftr Y 1) 0x00000400; Z.land (Z.shiftr Y 14) 0x00000200;
      Z.land Y 0x00000100; Z.land (Z.shiftr Y 5) 0x00000020; Z.land (Z.shiftr Y 10) 0x00000010;
      Z.land (Z.shiftr Y 3) 0x00000008; Z.land (Z.shiftr Y 18) 0x00000004; Z.land (Z.shiftr Y 26) 0x00000002;
      Z.land (Z.shiftr Y 24) 0x00000001],
   lor_all
     [Z.land (u32 (Z.shiftl X 15)) 0x20000000; Z.land (u32 (Z.shiftl X 17)) 0x10000000; Z.land (u32 (Z.shiftl X 10)) 0x08000000;
      Z.land (u32 (Z.shiftl X 22)) 0x04000000; Z.land (Z.shiftr X 2) 0x02000000; Z.land (u32 (Z.shiftl X 1)) 0x01000000;
      Z.land (u32 (Z.shiftl X 16)) 0x00200000; Z.land (u32 (Z.shiftl X 11)) 0x00100000; Z.land (u32 (Z.shiftl X 3)) 0x00080000;
      Z.land (Z.shiftr X 6) 0x00040000; Z.land (u32 (Z.shiftl X 15)) 0x00020000; Z.land (Z.shiftr X 4) 0x00010000;
      Z.land (Z.shiftr Y 2) 0x00002000; Z.land (u32 (Z.shiftl Y 8)) 0x00001000; Z.land (Z.shiftr Y 14) 0x00000808;
      Z.land (Z.shiftr Y 9) 0x00000400; Z.land Y 0x00000200; Z.land (u32 (Z.shiftl Y 7)) 0x00000100;
      Z.land (Z.shiftr Y 7) 0x00000020; Z.land (Z.shiftr Y 3) 0x00000011; Z.land (u32 (Z.shiftl Y 2)) 0x00000004;
      Z.land (Z.shiftr Y 21) 0x00000002]).

(** The loop for [i] from 16 - n. *)
Fixpoint des_ks_loop (n : nat) (X Y : Z) : subkeys :=
  match n with
  | O => []
  | S n' =>
      let i := 16 - Z.of_nat n in
      let s := if (i <? 2) || (i =? 8) || (i =? 15) then 1 else 2 in
      let X := rotl28 X s in
      let Y := rotl28 Y s in
      des_subkey X Y :: des_ks_loop n' X Y
  end.

Definition des_main_ks (key : list Z) : subkeys :=
  let '(X, Y) := des_pc1 (GET_UINT32 key 0) (GET_UINT32 key 4) in
  des_ks_loop 16 X Y.

(** [des_crypt] of a block of eight bytes: after the rounds the pair is back
    in place, since their number is even. *)
Definition des_crypt (SK : subkeys) (input : list Z) : list Z :=
  let XY := DES_IP (GET_UINT32 input 0, GET_UINT32 input 4) in
  let '(X, Y) := des_rounds SK XY in
  let '(Y, X) := DES_FP (Y, X) in
  PUT_UINT32 Y ++ PUT_UINT32 X.

(** A published test vector of the cipher. *)
Example des_vector :
  des_crypt (des_main_ks [0x13; 0x34; 0x57; 0x79; 0x9B; 0xBC; 0xDF; 0xF1])
    [0x01; 0x23; 0x45; 0x67; 0x89; 0xAB; 0xCD; 0xEF] = [0x85; 0xE8; 0x13; 0x54; 0x0F; 0x0A; 0xB4; 0x05].
Proof. vm_compute. reflexivity. Qed.

(** [des_key]: [None] is the error "Invalid key size". *)
Definition des_key (key : list Z) : option subkeys :=
  if Nat.eqb (length key) 8 then Some (des_main_ks key) else None.

(** The last block: the rest of the text, 0x80, zeros. *)
Definition des_tail (rest : list Z) : list Z := take 8 (rest ++ 0x80 :: replicate 7 0).

(** The loop over whole blocks and the tail. *)
Fixpoint des_encode_loop (fuel : nat) (SK : subkeys) (text : list Z) : list Z :=
  match fuel with
  | O => []
  | S f =>
      if (8 <=? Z.of_nat (length text)) then
        des_crypt SK (take 8 text) ++ des_encode_loop f SK (drop 8 text)
      else des_crypt SK (des_tail text)
  end.

Definition ldesencode (key text : list Z) : lua_ret :=
  match des_key key with
  | None => LuaError
  | Some SK => Ret (des_encode_loop (S (length text)) SK text)
  end.

Fixpoint des_decode_loop (fuel : nat) (SK : subkeys) (text : list Z) : list Z :=
  match fuel with
  | O => []
  | S f =>
      match text with
      | [] => []
      | _ => des_crypt SK (take 8 text) ++ des_decode_loop f SK (drop 8 text)
      end
  end.

(** The search for the 0x80 that ends the text, from the last byte; [n] counts
    the bytes the loop may look at.  [i >= textsz-8] compares a [size_t]: for
    a single block it holds for [i = -1] too, and [buffer[-1]] is read. *)
Fixpoint des_padding (n : nat) (i padding : Z) (textsz : Z) (buffer : list Z) : lua_ret + Z :=
  match n with
  | O => inr padding
  | S n' =>
      if textsz - 8 <=? u64 i then
        match arr_get buffer i with
        | None => inl Undef
        | Some b =>
            if b =? 0 then des_padding n' (i - 1) (padding + 1) textsz buffer
            else if b =? 0x80 then inr padding
            else inl LuaError
        end
      else inr padding
  end.

Definition ldesdecode (key text : list Z) : lua_ret :=
  match des_key key with
  | None => LuaError
  | Some ESK =>
      let SK := reverse ESK in
      let textsz := Z.of_nat (length text) in
      if negb (Z.land textsz 7 =? 0) || (textsz =? 0) then LuaError
      else
        let buffer := des_decode_loop (length text) SK text in
        match des_padding 10 (textsz - 1) 1 textsz buffer with
        | inl e => e
        | inr padding => if 8 <? padding then LuaError else Ret (take (Z.to_nat (textsz - padding)) buffer)
        end
  end.

(** ** Keys and hashes *)

(** [lrandomkey], of the eight values [random()] returns. *)
Definition lrandomkey (r : list Z) : list Z :=
  let tmp := map (λ v, Z.land v 0xff) (take 8 r) in
  let x := fold_left Z.lxor tmp 0 in
  match tmp with
  | t0 :: tmp' => if x =? 0 then Z.lor t0 1 :: tmp' else tmp
  | [] => []
  end.

Definition hash_step (h : Z * Z) (c : Z) : Z * Z :=
  let '(djb_hash, js_hash) := h in
  (u32 (djb_hash + (u32 (Z.shiftl djb_hash 5) + c)),
   Z.lxor js_hash (u32 (u32 (Z.shiftl js_hash 5) + c + Z.shiftr js_hash 2))).

(** [key[0] = v & 0xff; ...; key[3] = (v >> 24) & 0xff] *)
Definition put_le32 (v : Z) : list Z :=
  [Z.land v 0xff; Z.land (Z.shiftr v 8) 0xff; Z.land (Z.shiftr v 16) 0xff; Z.land (Z.shiftr v 24) 0xff].

(** [x[i] | x[i+1]<<8 | x[i+2]<<16 | x[i+3]<<24] as a [uint32_t] *)
Definition get_le32 (x : list Z) (i : nat) : Z :=
  u32 (Z.lor (Z.lor (Z.lor (nth i x 0) (Z.shiftl (nth (i + 1) x 0) 8)) (Z.shiftl (nth (i + 2) x 0) 16))
             (Z.shiftl (nth (i + 3) x 0) 24)).

Definition Hash (str : list Z) : list Z :=
  let '(djb_hash, js_hash) := fold_left hash_step str (5381, 1315423911) in
  put_le32 djb_hash ++ put_le32 js_hash.

Definition lhashkey (key : list Z) : lua_ret := Ret (Hash key).

Definition md5_k : list Z :=
  [0xd76aa478; 0xe8c7b756; 0x242070db; 0xc1bdceee; 0xf57c0faf; 0x4787c62a; 0xa8304613; 0xfd469501;
   0x698098d8; 0x8b44f7af; 0xffff5bb1; 0x895cd7be; 0x6b901122; 0xfd987193; 0xa679438e; 0x49b40821;
   0xf61e2562; 0xc040b340; 0x265e5a51; 0xe9b6c7aa; 0xd62f105d; 0x02441453; 0xd8a1e681; 0xe7d3fbc8;
   0x21e1cde6; 0xc33707d6; 0xf4d50d87; 0x455a14ed; 0xa9e3e905; 0xfcefa3f8; 0x676f02d9; 0x8d2a4c8a;
   0xfffa3942; 0x8771f681; 0x6d9d6122; 0xfde5380c; 0xa4beea44; 0x4bdecfa9; 0xf6bb4b60; 0xbebfbc70;
   0x289b7ec6; 0xeaa127fa; 0xd4ef3085; 0x04881d05; 0xd9d4d039; 0xe6db99e5; 0x1fa27cf8; 0xc4ac5665;
   0xf4292244; 0x432aff97; 0xab9423a7; 0xfc93a039; 0x655b59c3; 0x8f0ccc92; 0xffeff47d; 0x85845dd1;
   0x6fa87e4f; 0xfe2ce6e0; 0xa3014314; 0x4e0811a1; 0xf7537e82; 0xbd3af235; 0x2ad7d2bb; 0xeb86d391].

Definition md5_r : list Z :=
  [7; 12; 17; 22; 7; 12; 17; 22;
   7; 12; 17; 22; 7; 12; 17; 22;
   5; 9; 14; 20; 5; 9; 14; 20;
   5; 9; 14; 20; 5; 9; 14; 20;
   4; 11; 16; 23; 4; 11; 16; 23;
   4; 11; 16; 23; 4; 11; 16; 23;
   6; 10; 15; 21; 6; 10; 15; 21;
   6; 10; 15; 21; 6; 10; 15; 21].

Definition LEFTROTATE (x c : Z) : Z := Z.lor (u32 (Z.shiftl x c)) (Z.shiftr x (32 - c)).

(** [~x] of a [uint32_t] *)
Definition lnot32 (x : Z) : Z := Z.lxor x 0xFFFFFFFF.

Definition md5_f (i b c d : Z) : Z :=
  if i <? 16 then Z.lor (Z.land b c) (Z.land (lnot32 b) d)
  else if i <? 32 then Z.lor (Z.land d b) (Z.land (lnot32 d) c)
  else if i <? 48 then Z.lxor (Z.lxor b c) d
  else Z.lxor c (Z.lor b (lnot32 d)).

Definition md5_g (i : Z) : Z :=
  if i <? 16 then i
  else if i <? 32 then (5 * i + 1) mod 16
  else if i <? 48 then (3 * i + 5) mod 16
  else (7 * i) mod 16.

(** The loop of [digest_md5] for [i] from 64 - n. *)
Fixpoint md5_loop (n : nat) (w : list Z) (s : Z * Z * Z * Z) : Z * Z * Z * Z :=
  match n with
  | O => s
  | S n' =>
      let '(a, b, c, d) := s in
      let i := 64 - Z.of_nat n in
      let f := md5_f i b c d in
      let b' := u32 (b + LEFTROTATE (u32 (a + f + tab md5_k i + tab w (md5_g i))) (tab md5_r i)) in
      md5_loop n' w (d, b', b, c)
  end.

Definition md5_init : Z * Z * Z * Z := (0x67452301, 0xefcdab89, 0x98badcfe, 0x10325476).

Definition digest_md5 (w : list Z) : Z * Z * Z * Z := md5_loop 64 w md5_init.

(** [x], [y] and the result are pairs of [uint32_t]. *)
Definition hmac (x y : Z * Z) : Z * Z :=
  let w := concat (replicate 4 [x.2; x.1; y.2; y.1]) in
  let '(a, b, c, d) := digest_md5 w in
  (Z.lxor c d, Z.lxor a b).

Definition hmac_md5 (x y : Z * Z) : Z * Z :=
  let w := concat (replicate 3 [x.1; x.2; y.1; y.2]) ++ [0x80; 0; 384; 0] in
  let '(a, b, c, d) := digest_md5 w in
  (Z.lxor (u32 (a + 0x67452301)) (u32 (c + 0x98badcfe)),
   Z.lxor (u32 (b + 0xefcdab89)) (u32 (d + 0x10325476))).

(** [read64]: [None] is the error "Invalid uint64". *)
Definition read64 (x : list Z) : option (Z * Z) :=
  if Nat.eqb (length x) 8 then Some (get_le32 x 0, get_le32 x 4) else None.

Definition pushqword (r : Z * Z) : lua_ret := Ret (put_le32 r.1 ++ put_le32 r.2).

Definition lhmac64 (x y : list Z) : lua_ret :=
  match read64 x, read64 y with
  | Some x, Some y => pushqword (hmac x y)
  | _, _ => LuaError
  end.

Definition lhmac64_md5 (x y : list Z) : lua_ret :=
  match read64 x, read64 y with
  | Some x, Some y => pushqword (hmac_md5 x y)
  | _, _ => LuaError
  end.

Definition lhmac_hash (key text : list Z) : lua_ret :=
  match read64 key with
  | None => LuaError
  | Some key =>
      let h := Hash text in
      pushqword (hmac (get_le32 h 0, get_le32 h 4) key)
  end.

(** ** Diffie-Hellman exchange *)

Definition P : Z := 0xffffffffffffffc5.
Definition G : Z := 5.

(** The loop of [mul_mod_p]; [b] has at most 64 bits. *)
Fixpoint mul_mod_loop (n : nat) (a b m : Z) : option Z :=
  if b =? 0 then Some m
  else
    match n with
    | O => None
    | S n' =>
        let m :=
          if Z.land b 1 =? 1 then
            let t := u64 (P - a) in
            if t <=? m then u64 (m - t) else u64 (m + a)
          else m in
        let a := if u64 (P - a) <=? a then u64 (a * 2 - P) else u64 (a * 2) in
        mul_mod_loop n' a (Z.shiftr b 1) m
    end.

Definition mul_mod_p (a b : Z) : option Z := mul_mod_loop 64 a b 0.

(** [t = mul_mod_p(t,t); if (b % 2) t = mul_mod_p(t, a);] *)
Definition pow_combine (t a b : Z) : option Z :=
  t ← mul_mod_p t t;
  if b mod 2 =? 0 then Some t else mul_mod_p t a.

(** The recursion of [pow_mod_p]; it does not end for [b] = 0. *)
Fixpoint pow_mod_p (n : nat) (a b : Z) : option Z :=
  match n with
  | O => None
  | S n' =>
      if b =? 1 then Some a
      else
        t ← pow_mod_p n' a (Z.shiftr b 1);
        pow_combine t a b
  end.

Definition powmodp (a b : Z) : option Z := pow_mod_p 64 (if P <? a then a mod P else a) b.

Definition push64 (r : Z) : lua_ret :=
  Ret [Z.land r 0xff; Z.land (Z.shiftr r 8) 0xff; Z.land (Z.shiftr r 16) 0xff; Z.land (Z.shiftr r 24) 0xff;
       Z.land (Z.shiftr r 32) 0xff; Z.land (Z.shiftr r 40) 0xff; Z.land (Z.shiftr r 48) 0xff;
       Z.land (Z.shiftr r 56) 0xff].

(** [(uint64_t)x[0] | (uint64_t)x[1]<<32] *)
Definition to64 (x : Z * Z) : Z := Z.lor x.1 (Z.shiftl x.2 32).

Definition ldhsecret (x y : list Z) : lua_ret :=
  match read64 x, read64 y with
  | Some x, Some y =>
      let xx := to64 x in
      let yy := to64 y in
      if (xx =? 0) || (yy =? 0) then LuaError
      else match powmodp xx yy with Some r => push64 r | None => Undef end
  | _, _ => LuaError
  end.

Definition ldhexchange (x : list Z) : lua_ret :=
  match read64 x with
  | None => LuaError
  | Some x =>
      let x64 := to64 x in
      if x64 =? 0 then LuaError
      else match powmodp G x64 with Some r => push64 r | None => Undef end
  end.

(** ** Encodings *)

Definition hex : list Z := [48; 49; 50; 51; 52; 53; 54; 55; 56; 57; 97; 98; 99; 100; 101; 102].

Definition ltohex (text : list Z) : lua_ret :=
  Ret (concat (map (λ b, [tab hex (Z.shiftr b 4); tab hex (Z.land b 0xf)]) text)).

(** [HEX(v, c)]: [tmp] is a signed [char], [v] a [uint8_t]. *)
Definition HEX (c : Z) : Z :=
  let tmp := if 128 <=? c then c - 256 else c in
  if (48 <=? tmp) && (tmp <=? 57) then u8 (tmp - 48) else u8 (tmp - 97 + 10).

Fixpoint fromhex_loop (text : list Z) : option (list Z) :=
  match text with
  | c1 :: c2 :: text' =>
      let hi := HEX c1 in
      let low := HEX c2 in
      if (16 <? hi) || (16 <? low) then None
      else l ← fromhex_loop text'; Some (u8 (Z.lor (Z.shiftl hi 4) low) :: l)
  | _ => Some []
  end.

Definition lfromhex (text : list Z) : lua_ret :=
  if Nat.odd (length text) then LuaError
  else match fromhex_loop text with Some l => Ret l | None => LuaError end.

(** "A" .. "Z", "a" .. "z", "0" .. "9", "+", "/" *)
Definition encoding : list Z := Eval vm_compute in
  map Z.of_nat (seq 65 26 ++ seq 97 26 ++ seq 48 10) ++ [43; 47].

Fixpoint b64_loop (text : list Z) : list Z :=
  match text with
  | a :: b :: c :: text' =>
      let v := Z.lor (Z.lor (Z.shiftl a 16) (Z.shiftl b 8)) c in
      [tab encoding (Z.shiftr v 18); tab encoding (Z.land (Z.shiftr v 12) 0x3f);
       tab encoding (Z.land (Z.shiftr v 6) 0x3f); tab encoding (Z.land v 0x3f)] ++ b64_loop text'
  | [a; b] =>
      let v := Z.lor (Z.shiftl a 8) b in
      [tab encoding (Z.shiftr v 10); tab encoding (Z.land (Z.shiftr v 4) 0x3f);
       tab encoding (Z.shiftl (Z.land v 0xf) 2); 61]
  | [a] =>
      let v := a in
      [tab encoding (Z.shiftr v 2); tab encoding (Z.shiftl (Z.land v 3) 4); 61; 61]
  | [] => []
  end.

Definition lb64encode (text : list Z) : lua_ret := Ret (b64_loop text).

Definition decoding : list Z :=
  [62; -1; -1; -1; 63; 52; 53; 54;
   55; 56; 57; 58; 59; 60; 61; -1;
   -1; -1; -2; -1; -1; -1; 0; 1;
   2; 3; 4; 5; 6; 7; 8; 9;
   10; 11; 12; 13; 14; 15; 16; 17;
   18; 19; 20; 21; 22; 23; 24; 25;
   -1; -1; -1; -1; -1; -1; 26; 27;
   28; 29; 30; 31; 32; 33; 34; 35;
   36; 37; 38; 39; 40; 41; 42; 43;
   44; 45; 46; 47; 48; 49; 50; 51].

Definition b64index (c : Z) : Z :=
  if c <? 43 then -1
  else
    let c := u8 (c - 43) in
    if Z.of_nat (length decoding) <=? c then -1 else nth (Z.to_nat c) decoding (-1).

(** The inner loop of [lb64decode]: the four codes, with the characters of no
    code skipped, the number of padding characters, and the rest. *)
Fixpoint b64_group (n : nat) (text : list Z) : option (list Z * Z * list Z) :=
  match n with
  | O => Some ([], 0, text)
  | S n' =>
      (fix skip (text : list Z) :=
         match text with
         | [] => None
         | t :: text' =>
             let c := b64index t in
             if c =? -1 then skip text'
             else
               '(cs, padding, rest) ← b64_group n' text';
               Some (c :: cs, if c =? -2 then padding + 1 else padding, rest)
         end) text
  end.

(** The bytes of a group; [None] is the error "Invalid base64 text". *)
Definition b64_bytes (c : list Z) (padding : Z) : option (list Z) :=
  let c0 := nth 0 c 0 in let c1 := nth 1 c 0 in let c2 := nth 2 c 0 in let c3 := nth 3 c 0 in
  if padding =? 0 then
    let v := u32 (Z.lor (Z.lor (Z.lor (Z.shiftl c0 18) (Z.shiftl c1 12)) (Z.shiftl c2 6)) c3) in
    Some [u8 (Z.shiftr v 16); Z.land (Z.shiftr v 8) 0xff; Z.land v 0xff]
  else if padding =? 1 then
    if negb (c3 =? -2) || negb (Z.land c2 3 =? 0) then None
    else
      let v := u32 (Z.lor (Z.lor (Z.shiftl c0 10) (Z.shiftl c1 4)) (Z.shiftr c2 2)) in
      Some [u8 (Z.shiftr v 8); Z.land v 0xff]
  else if padding =? 2 then
    if negb (c3 =? -2) || negb (c2 =? -2) || negb (Z.land c1 0xf =? 0) then None
    else
      let v := u32 (Z.lor (Z.shiftl c0 2) (Z.shiftr c1 4)) in
      Some [u8 v]
  else None.

(** The outer loop; each round takes at least four characters. *)
Fixpoint b64_decode_loop (fuel : nat) (text : list Z) : option (list Z) :=
  match text with
  | [] => Some []
  | _ =>
      match fuel with
      | O => None
      | S f =>
          '(c, padding, rest) ← b64_group 4 text;
          bytes ← b64_bytes c padding;
          l ← b64_decode_loop f rest;
          Some (bytes ++ l)
      end
  end.

Definition lb64decode (text : list Z) : lua_ret :=
  match b64_decode_loop (length text) text with Some l => Ret l | None => LuaError end.

Definition lxor_str (s1 s2 : list Z) : lua_ret :=
  match s2 with
  | [] => LuaError
  | _ => Ret (imap (λ i c, Z.lxor c (nth (i mod length s2) s2 0)) s1)
  end.

(** ** Words of 32 bits *)

Definition is32 (x : Z) : Prop := 0 <= x < 2 ^ 32.

Lemma lxor_mod_pow2 a b k : 0 <= k → Z.lxor a b mod 2 ^ k = Z.lxor (a mod 2 ^ k) (b mod 2 ^ k).
Proof.
  intros Hk. apply Z.bits_inj'. intros n Hn. rewrite Z.lxor_spec.
  destruct (Z.ltb_spec n k).
  - by rewrite !Z.mod_pow2_bits_low, Z.lxor_spec by lia.
  - by rewrite !Z.mod_pow2_bits_high by lia.
Qed.

Lemma lxor_is32 a b : is32 a → is32 b → is32 (Z.lxor a b).
Proof.
  unfold is32. intros Ha Hb. rewrite <- (Z.mod_small a (2 ^ 32)), <- (Z.mod_small b (2 ^ 32)) by lia.
  rewrite <- lxor_mod_pow2 by lia. apply Z.mod_pos_bound. lia.
Qed.

Lemma u32_is32 z : is32 (u32 z).
Proof. apply u32_range. Qed.

Lemma tab_is32 t i : forallb (λ x, (0 <=? x) && (x <? 2 ^ 32)) t = true → is32 (tab t i).
Proof.
  intros Ht. unfold tab. destruct (nth_in_or_default (Z.to_nat i) t 0) as [Hin| ->]; [|done].
  rewrite forallb_forall in Ht. specialize (Ht _ Hin). bool_to_prop. done.
Qed.

Lemma des_f_is32 k1 k2 X : is32 (des_f k1 k2 X).
Proof. unfold des_f. repeat apply lxor_is32; apply tab_is32; reflexivity. Qed.

(** A delta swap is its own inverse. *)
Definition mask_ok (k m : Z) : Prop := 0 <= k ∧ 0 <= m ∧ m * 2 ^ k < 2 ^ 32.

Lemma land_le a m : 0 <= m → 0 <= Z.land a m <= m.
Proof.
  intros Hm. split; [apply Z.land_nonneg; auto|].
  assert (Hs : m = Z.land a m + Z.land (Z.lnot a) m).
  { rewrite Z.add_nocarry_lxor.
    - apply Z.bits_inj'. intros n Hn. rewrite Z.lxor_spec, !Z.land_spec, Z.lnot_spec by done.
      by destruct (Z.testbit a n), (Z.testbit m n).
    - apply Z.bits_inj'. intros n Hn. rewrite !Z.land_spec, Z.lnot_spec, Z.bits_0 by done.
      by destruct (Z.testbit a n), (Z.testbit m n). }
  assert (0 <= Z.land (Z.lnot a) m) by (apply Z.land_nonneg; auto). lia.
Qed.

Lemma swap_bits_is32 k m p : mask_ok k m → is32 p.1 → is32 p.2 → is32 (swap_bits k m p).1 ∧ is32 (swap_bits k m p).2.
Proof.
  intros (Hk & Hm & Hf) HX HY. destruct p as [X Y]. simpl in *. split; apply lxor_is32; auto using u32_is32.
  pose proof (land_le (Z.lxor (Z.shiftr X k) Y) m Hm). assert (1 <= 2 ^ k) by (apply (Z.pow_le_mono_r 2 0); lia).
  unfold is32. nia.
Qed.

Lemma swap_bits_inv k m p : mask_ok k m → is32 p.1 → is32 p.2 → swap_bits k m (swap_bits k m p) = p.
Proof.
  intros (Hk & Hm & Hf) HX HY. destruct p as [X Y]. simpl in *.
  set (T := Z.land (Z.lxor (Z.shiftr X k) Y) m).
  assert (HT : 0 <= T <= m) by (apply land_le; done).
  assert (HU : u32 (Z.shiftl T k) = Z.shiftl T k).
  { apply u32_small. rewrite Z.shiftl_mul_pow2 by lia. nia. }
  assert (HT' : Z.land (Z.lxor (Z.shiftr (Z.lxor X (u32 (Z.shiftl T k))) k) (Z.lxor Y T)) m = T).
  { rewrite HU, Z.shiftr_lxor, Z.shiftr_shiftl_l, Z.sub_diag, Z.shiftl_0_r by lia.
    transitivity (Z.land (Z.lxor (Z.shiftr X k) Y) m); [|done]. f_equal.
    apply Z.bits_inj'. intros n Hn. rewrite !Z.lxor_spec.
    by destruct (Z.testbit (Z.shiftr X k) n), (Z.testbit T n), (Z.testbit Y n). }
  rewrite HT'. rewrite !Z.lxor_assoc, !Z.lxor_nilpotent, !Z.lxor_0_r. done.
Qed.

Lemma swap_bits'_is32 k m p :
  mask_ok k m → is32 p.1 → is32 p.2 → is32 (swap_bits' k m p).1 ∧ is32 (swap_bits' k m p).2.
Proof.
  intros Hm HX HY. unfold swap_bits'. pose proof (swap_bits_is32 k m (p.2, p.1) Hm HY HX) as [H1 H2].
  by destruct (swap_bits k m (p.2, p.1)).
Qed.

Lemma swap_bits'_inv k m p : mask_ok k m → is32 p.1 → is32 p.2 → swap_bits' k m (swap_bits' k m p) = p.
Proof.
  intros Hm HX HY. unfold swap_bits'. pose proof (swap_bits_inv k m (p.2, p.1) Hm HY HX) as Hi.
  destruct (swap_bits k m (p.2, p.1)) as [Y X]. cbn [fst snd]. rewrite Hi. by destruct p.
Qed.

(** Rotations by 1 and by 31 are inverse. *)
Lemma rotl32_arith X n : is32 X → 0 < n < 32 → rotl32 X n = X mod 2 ^ (32 - n) * 2 ^ n + X / 2 ^ (32 - n).
Proof.
  unfold is32. intros HX Hn. unfold rotl32, u32.
  assert (Hp : 2 ^ 32 = 2 ^ (32 - n) * 2 ^ n) by (rewrite <- Z.pow_add_r by lia; f_equal; lia).
  assert (0 < 2 ^ n ∧ 0 < 2 ^ (32 - n)) as [? ?] by (split; apply Z.pow_pos_nonneg; lia).
  assert (Hlo : 0 <= X / 2 ^ (32 - n) < 2 ^ n).
  { split; [apply Z.div_pos; lia|]. apply Z.div_lt_upper_bound; lia. }
  pose proof (Z.mod_pos_bound X (2 ^ (32 - n))).
  assert (Z.shiftl X n mod 2 ^ 32 = Z.shiftl (X mod 2 ^ (32 - n)) n) as ->.
  { rewrite !Z.shiftl_mul_pow2, Hp by lia. rewrite Z.mul_mod_distr_r by lia. done. }
  rewrite Z.shiftr_div_pow2, lor_shiftl_add by lia. change 0xFFFFFFFF with (2 ^ 32 - 1).
  rewrite land_ones_mod, Z.mod_small by (rewrite ?Hp; nia). done.
Qed.

Lemma rotl32_is32 X n : is32 X → 0 < n < 32 → is32 (rotl32 X n).
Proof.
  intros HX Hn. unfold rotl32. change 0xFFFFFFFF with (2 ^ 32 - 1). rewrite land_ones_mod by lia. apply Z.mod_pos_bound. lia.
Qed.

Lemma rot_1_31 X : is32 X → rotl32 (rotl32 X 1) 31 = X.
Proof.
  intros HX. rewrite (rotl32_arith (rotl32 X 1)), (rotl32_arith X) by first [lia|done|apply rotl32_is32; done || lia].
  unfold is32 in HX. change (32 - 31) with 1. change (32 - 1) with 31. dlia.
Qed.

Lemma rot_31_1 X : is32 X → rotl32 (rotl32 X 31) 1 = X.
Proof.
  intros HX. rewrite (rotl32_arith (rotl32 X 31)), (rotl32_arith X) by first [lia|done|apply rotl32_is32; done || lia].
  unfold is32 in HX. change (32 - 31) with 1. change (32 - 1) with 31. dlia.
Qed.

(** ** The permutations and the rounds *)

Definition pair32 (p : Z * Z) : Prop := is32 p.1 ∧ is32 p.2.

Lemma pair32_swap k m p : mask_ok k m → pair32 p → pair32 (swap_bits k m p).
Proof. intros Hm [? ?]. by apply swap_bits_is32. Qed.

Lemma pair32_swap' k m p : mask_ok k m → pair32 p → pair32 (swap_bits' k m p).
Proof. intros Hm [? ?]. by apply swap_bits'_is32. Qed.

Lemma pair32_rot1 n p : 0 < n < 32 → pair32 p → pair32 (rotl32 p.1 n, p.2).
Proof. intros Hn [? ?]. split; simpl; auto using rotl32_is32. Qed.

Lemma pair32_rot2 n p : 0 < n < 32 → pair32 p → pair32 (p.1, rotl32 p.2 n).
Proof. intros Hn [? ?]. split; simpl; auto using rotl32_is32. Qed.

Lemma mask_ok_dec k m : (0 <=? k) && (0 <=? m) && (m * 2 ^ k <? 2 ^ 32) = true → mask_ok k m.
Proof. intros. bool_to_prop. by split_and!. Qed.

Ltac pair32_tac :=
  repeat first
    [ assumption
    | apply pair32_swap; [apply mask_ok_dec; reflexivity|]
    | apply pair32_swap'; [apply mask_ok_dec; reflexivity|]
    | apply pair32_rot1; [lia|]
    | apply pair32_rot2; [lia|] ].

Lemma pair32_IP p : pair32 p → pair32 (DES_IP p).
Proof. intros Hp. unfold DES_IP. cbv zeta. pair32_tac. Qed.

Lemma pair32_FP p : pair32 p → pair32 (DES_FP p).
Proof. intros Hp. unfold DES_FP. cbv zeta. pair32_tac. Qed.

Lemma swap_inv k m p : mask_ok k m → pair32 p → swap_bits k m (swap_bits k m p) = p.
Proof. intros Hm [? ?]. by apply swap_bits_inv. Qed.

Lemma swap'_inv k m p : mask_ok k m → pair32 p → swap_bits' k m (swap_bits' k m p) = p.
Proof. intros Hm [? ?]. by apply swap_bits'_inv. Qed.

Lemma rot1_inv p : pair32 p → (rotl32 (rotl32 p.1 1) 31, p.2) = p.
Proof. intros [? ?]. rewrite rot_1_31 by done. by destruct p. Qed.

Lemma rot2_inv p : pair32 p → (p.1, rotl32 (rotl32 p.2 1) 31) = p.
Proof. intros [? ?]. rewrite rot_1_31 by done. by destruct p. Qed.

Lemma rot1_inv' p : pair32 p → (rotl32 (rotl32 p.1 31) 1, p.2) = p.
Proof. intros [? ?]. rewrite rot_31_1 by done. by destruct p. Qed.

Lemma rot2_inv' p : pair32 p → (p.1, rotl32 (rotl32 p.2 31) 1) = p.
Proof. intros [? ?]. rewrite rot_31_1 by done. by destruct p. Qed.

(** The final permutation undoes the initial one, and conversely. *)
Lemma DES_FP_IP p : pair32 p → DES_FP (DES_IP p) = p.
Proof.
  intros Hp. unfold DES_FP, DES_IP. cbv zeta. cbn [fst snd].
  set (p1 := swap_bits 4 _ p). set (p2 := swap_bits 16 _ p1). set (p3 := swap_bits' 2 _ p2).
  set (p4 := swap_bits' 8 _ p3). set (p5 := (p4.1, rotl32 p4.2 1)).
  assert (H1 : pair32 p1) by (subst p1; pair32_tac). assert (H2 : pair32 p2) by (subst p2; pair32_tac).
  assert (H3 : pair32 p3) by (subst p3; pair32_tac). assert (H4 : pair32 p4) by (subst p4; pair32_tac).
  assert (H5 : pair32 p5) by (subst p5; pair32_tac).
  rewrite (rot1_inv (swap_bits 0 _ p5)) by pair32_tac. rewrite swap_inv by (apply mask_ok_dec || done; done).
  subst p5. cbn [fst snd]. rewrite rot2_inv by done. subst p4. rewrite swap'_inv by (apply mask_ok_dec || done; done).
  subst p3. rewrite swap'_inv by (apply mask_ok_dec || done; done).
  subst p2. rewrite swap_inv by (apply mask_ok_dec || done; done).
  subst p1. rewrite swap_inv by (apply mask_ok_dec || done; done). done.
Qed.

Lemma DES_IP_FP p : pair32 p → DES_IP (DES_FP p) = p.
Proof.
  intros Hp. unfold DES_FP, DES_IP. cbv zeta.
  set (p0 := (rotl32 p.1 31, p.2)). set (p1 := swap_bits 0 _ p0). set (p2 := (p1.1, rotl32 p1.2 31)).
  set (p3 := swap_bits' 8 _ p2). set (p4 := swap_bits' 2 _ p3). set (p5 := swap_bits 16 _ p4).
  assert (H0 : pair32 p0) by (subst p0; pair32_tac). assert (H1 : pair32 p1) by (subst p1; pair32_tac).
  assert (H2 : pair32 p2) by (subst p2; pair32_tac). assert (H3 : pair32 p3) by (subst p3; pair32_tac).
  assert (H4 : pair32 p4) by (subst p4; pair32_tac). assert (H5 : pair32 p5) by (subst p5; pair32_tac).
  rewrite swap_inv by (apply mask_ok_dec || done; done). subst p5. rewrite swap_inv by (apply mask_ok_dec || done; done).
  subst p4. rewrite swap'_inv by (apply mask_ok_dec || done; done).
  subst p3. rewrite swap'_inv by (apply mask_ok_dec || done; done).
  subst p2. cbn [fst snd]. rewrite rot2_inv' by done. subst p1. rewrite swap_inv by (apply mask_ok_dec || done; done).
  subst p0. cbn [fst snd]. by apply rot1_inv'.
Qed.

Definition flip (p : Z * Z) : Z * Z := (p.2, p.1).

Lemma pair32_rounds SK p : pair32 p → pair32 (des_rounds SK p).
Proof.
  revert p. induction SK as [|sk SK IH]; intros p [H1 H2]; [done|]. apply IH. split; [done|].
  apply lxor_is32; auto using des_f_is32.
Qed.

Lemma des_rounds_app S1 S2 p : des_rounds (S1 ++ S2) p = des_rounds S2 (des_rounds S1 p).
Proof. revert p. induction S1; intros p; simpl; auto. Qed.

(** The rounds in the reverse order undo them, on the exchanged halves. *)
Lemma des_rounds_reverse SK p : des_rounds (reverse SK) (flip (des_rounds SK p)) = flip p.
Proof.
  revert p. induction SK as [|sk SK IH]; intros [X Y]; [done|].
  rewrite reverse_cons, des_rounds_app. cbn [des_rounds fst snd]. rewrite IH. unfold flip, DES_ROUND. cbn [fst snd].
  by rewrite Z.lxor_assoc, Z.lxor_nilpotent, Z.lxor_0_r.
Qed.

(** ** Blocks *)

Definition is_block (b : list Z) : Prop := length b = 8%nat ∧ Forall is_byte b.

Lemma be32_sum a b c d :
  is_byte b → is_byte c → is_byte d →
  Z.lor (Z.lor (Z.lor (Z.shiftl a 24) (Z.shiftl b 16)) (Z.shiftl c 8)) d = a * 2 ^ 24 + b * 2 ^ 16 + c * 2 ^ 8 + d.
Proof.
  unfold is_byte. intros. rewrite <- !Z.lor_assoc.
  rewrite (lor_shiftl_add c), (lor_shiftl_add b), (lor_shiftl_add a) by lia. lia.
Qed.

(** A block as the two words [des_crypt] reads. *)
Definition words (b : list Z) : Z * Z := (GET_UINT32 b 0, GET_UINT32 b 4).
Definition bytes (p : Z * Z) : list Z := PUT_UINT32 p.1 ++ PUT_UINT32 p.2.

Lemma u8_byte z : is_byte (u8 z).
Proof. apply u8_range. Qed.

Lemma words_bytes p : pair32 p → words (bytes p) = p.
Proof.
  destruct p as [X Y]. intros [HX HY]. simpl in HX, HY. unfold words, bytes, GET_UINT32, PUT_UINT32, is32 in *. cbn [fst snd app nth Nat.add].
  rewrite !be32_sum by apply u8_byte. unfold u8. rewrite !Z.shiftr_div_pow2 by lia.
  f_equal; dlia.
Qed.

Lemma bytes_words b : is_block b → bytes (words b) = b ∧ pair32 (words b).
Proof.
  intros [Hl Hb]. do 8 (destruct b as [|? b]; [done|]). destruct b; [|done]. clear Hl.
  repeat match goal with H : Forall _ (_ :: _) |- _ => apply Forall_cons in H as [? ?] end.
  unfold words, bytes, GET_UINT32, PUT_UINT32. cbn [fst snd app nth Nat.add].
  rewrite !be32_sum by done. unfold u8, pair32, is32, is_byte in *. cbn [fst snd].
  rewrite !Z.shiftr_div_pow2 by lia. split; [repeat f_equal; dlia|lia].
Qed.

Lemma bytes_block p : is_block (bytes p).
Proof. split; [done|]. repeat constructor; apply u8_range. Qed.

Lemma des_crypt_words SK b : des_crypt SK b = bytes (DES_FP (flip (des_rounds SK (DES_IP (words b))))).
Proof.
  unfold des_crypt, words. destruct (des_rounds SK _) as [X Y]. unfold flip. cbn [fst snd].
  by destruct (DES_FP (Y, X)).
Qed.

Lemma pair32_flip p : pair32 p → pair32 (flip p).
Proof. by intros [? ?]. Qed.

Lemma des_crypt_block SK b : is_block (des_crypt SK b).
Proof. rewrite des_crypt_words. apply bytes_block. Qed.

(** Decryption with the subkeys reversed undoes encryption, for any subkeys. *)
Lemma des_crypt_inv SK b : is_block b → des_crypt (reverse SK) (des_crypt SK b) = b.
Proof.
  intros Hb. destruct (bytes_words b Hb) as [Hbw Hp]. rewrite !des_crypt_words.
  assert (HR : pair32 (flip (des_rounds SK (DES_IP (words b))))) by auto using pair32_flip, pair32_rounds, pair32_IP.
  rewrite words_bytes by auto using pair32_FP. rewrite DES_IP_FP by done.
  rewrite des_rounds_reverse. change (flip (flip ?p)) with (p.1, p.2).
  rewrite <- (surjective_pairing (DES_IP (words b))), DES_FP_IP by done. done.
Qed.

(** ** Texts *)

Lemma des_tail_block rest : (length rest < 8)%nat → Forall is_byte rest →
  is_block (des_tail rest) ∧ des_tail rest = rest ++ 0x80 :: replicate (7 - length rest) 0.
Proof.
  intros Hl Hb. assert (Heq : des_tail rest = rest ++ 0x80 :: replicate (7 - length rest) 0).
  { unfold des_tail. rewrite take_app_ge by lia. f_equal.
    replace (8 - length rest)%nat with (S (7 - length rest)) by lia. cbn [take]. f_equal.
    rewrite take_replicate. f_equal. lia. }
  split; [|done]. split; [rewrite Heq, length_app; simpl; rewrite length_replicate; lia|].
  rewrite Heq. apply Forall_app. split; auto. constructor; [done|]. by apply Forall_replicate.
Qed.

(** The padding found at the end of a decoded text. *)
Lemma des_padding_ok n z pre p textsz buffer :
  buffer = pre ++ 0x80 :: replicate z 0 → textsz = Z.of_nat (length buffer) + (p - 1) → textsz < 2 ^ 31 →
  (z < n)%nat → Z.of_nat z + p <= 8 → 1 <= p →
  ∀ rest, des_padding n (Z.of_nat (length buffer) - 1) p textsz (buffer ++ rest) = inr (Z.of_nat z + p).
Proof.
  revert z p buffer. induction n as [|n IH]; intros z p buffer Hb Ht H31 Hz H8 Hp rest; [lia|]. cbn [des_padding].
  assert (Hlen : length buffer = (length pre + 1 + z)%nat).
  { rewrite Hb, length_app. simpl. rewrite length_replicate. lia. }
  rewrite u64_small by lia. zcases. destruct z as [|z].
  - rewrite arr_get_lookup by lia. replace (Z.to_nat (Z.of_nat (length buffer) - 1)) with (length pre) by lia.
    rewrite Hb, <- app_assoc. cbn [replicate app]. by rewrite list_lookup_middle.
  - rewrite replicate_S_end in Hb. rewrite app_comm_cons, app_assoc in Hb. rewrite arr_get_lookup by lia.
    set (b' := pre ++ 128 :: replicate z 0) in *.
    assert (Hl' : length buffer = S (length b')) by (rewrite Hb, length_app; simpl; lia).
    replace (Z.to_nat (Z.of_nat (length buffer) - 1)) with (length b') by lia.
    rewrite Hb, <- app_assoc. cbn [app]. rewrite list_lookup_middle by done. cbn [Z.eqb].
    rewrite length_app. cbn [length].
    replace (Z.of_nat (length b' + 1) - 1 - 1) with (Z.of_nat (length b') - 1) by lia.
    rewrite (IH z (p + 1) b'); try done; [f_equal; lia|lia..].
Qed.

Lemma des_text_inv fuel fuel' SK text :
  (length text < fuel)%nat → Forall is_byte text → (length (des_encode_loop fuel SK text) <= fuel')%nat →
  ∃ z, (z <= 7)%nat ∧ length (des_encode_loop fuel SK text) = (length text + 1 + z)%nat ∧
    Z.of_nat (length (des_encode_loop fuel SK text)) mod 8 = 0 ∧
    des_decode_loop fuel' (reverse SK) (des_encode_loop fuel SK text) = text ++ 0x80 :: replicate z 0.
Proof.
  revert text fuel'. induction fuel as [|fuel IH]; intros text fuel' Hf Hb Hf'; [lia|].
  assert (Hdec : ∀ f c rest, is_block c → (length (des_crypt SK c ++ rest) <= S f)%nat →
    des_decode_loop (S f) (reverse SK) (des_crypt SK c ++ rest) = c ++ des_decode_loop f (reverse SK) rest).
  { intros f c rest Hc _. destruct (des_crypt_block SK c) as [H8 _]. cbn [des_decode_loop].
    destruct (des_crypt SK c ++ rest) eqn:E.
    - apply (f_equal length) in E. rewrite length_app in E. simpl in E. lia.
    - rewrite <- E. rewrite take_app_length', drop_app_length' by lia. by rewrite des_crypt_inv. }
  cbn [des_encode_loop] in *. destruct (Z.leb_spec 8 (Z.of_nat (length text))) as [Hge|Hlt].
  - assert (Hc : is_block (take 8 text)) by (split; [rewrite length_take; lia|by apply Forall_take]).
    destruct (des_crypt_block SK (take 8 text)) as [H8 _]. rewrite length_app, H8 in *.
    destruct fuel' as [|fuel']; [lia|].
    destruct (IH (drop 8 text) fuel') as (z & Hz & Hl & Hm & Hd); [rewrite length_drop; lia|by apply Forall_drop|lia|].
    exists z. rewrite Hl, length_drop in *. split_and!; try lia.
    + rewrite <- Hm. rewrite Nat2Z.inj_add. rewrite <- Z.add_mod_idemp_l by lia. done.
    + rewrite Hdec by (try done; rewrite length_app; lia). rewrite Hd, app_assoc, take_drop. done.
  - destruct (des_tail_block text) as [Hc Heq]; [lia|done|]. destruct (des_crypt_block SK (des_tail text)) as [H8 _].
    rewrite H8 in *. destruct fuel' as [|fuel']; [lia|]. exists (7 - length text)%nat. split_and!; [lia|lia|done|].
    rewrite <- (app_nil_r (des_crypt SK (des_tail text))), Hdec by (try done; rewrite app_nil_r; lia).
    destruct fuel'; cbn [des_decode_loop]; rewrite app_nil_r; done.
Qed.

(** C37. DES decryption inverts encryption: for every key of eight bytes and
    every text, [ldesdecode] gives back what [ldesencode] was given, padding
    removed; it neither fails nor reads outside its buffer. *)
Theorem des_roundtrip key text :
  length key = 8%nat → Forall is_byte text → Z.of_nat (length text) < 2 ^ 31 - 8 →
  ∃ c, ldesencode key text = Ret c ∧ ldesdecode key c = Ret text.
Proof.
  intros Hk Hb Hl. unfold ldesencode, ldesdecode, des_key. rewrite Hk. simpl Nat.eqb. cbv iota.
  set (SK := des_main_ks key). eexists. split; [reflexivity|].
  destruct (des_text_inv (S (length text)) (length (des_encode_loop (S (length text)) SK text)) SK text)
    as (z & Hz & Hlen & Hm & Hd); [lia|done|lia|].
  set (c := des_encode_loop (S (length text)) SK text) in *.
  change 7 with (2 ^ 3 - 1). rewrite land_ones_mod by lia. change (2 ^ 3) with 8. rewrite Hm.
  rewrite (proj2 (Z.eqb_neq (Z.of_nat (length c)) 0)) by lia. cbn [negb Z.eqb orb]. rewrite Hd.
  set (buf := text ++ 128 :: replicate z 0).
  assert (Hbuf : length buf = length c) by (subst buf; rewrite length_app; simpl; rewrite length_replicate; lia).
  pose proof (des_padding_ok 10 z text 1 (Z.of_nat (length c)) buf eq_refl) as Hp.
  rewrite Hbuf in Hp. specialize (Hp ltac:(lia) ltac:(lia) ltac:(lia) ltac:(lia) ltac:(lia) []).
  rewrite app_nil_r in Hp. rewrite Hp. rewrite (proj2 (Z.ltb_ge 8 _)) by lia. f_equal.
  replace (Z.to_nat (Z.of_nat (length c) - (Z.of_nat z + 1))) with (length text) by lia.
  subst buf. apply take_app_length.
Qed.

Lemma des_roundtrip_witness :
  ∃ c, ldesencode [1; 2; 3; 4; 5; 6; 7; 8] [72; 101; 108; 108; 111; 0; 0; 0; 128] = Ret c ∧
    ldesdecode [1; 2; 3; 4; 5; 6; 7; 8] c = Ret [72; 101; 108; 108; 111; 0; 0; 0; 128].
Proof.
  apply des_roundtrip; [reflexivity| |reflexivity]. apply (bool_decide_unpack (Forall is_byte _)). by vm_compute.
Defined.

(** A single block whose plain text is eight zero bytes makes the search for
    the padding read [buffer[-1]]. *)
Example desdecode_underread :
  ldesdecode [1; 2; 3; 4; 5; 6; 7; 8] (des_crypt (des_main_ks [1; 2; 3; 4; 5; 6; 7; 8]) (replicate 8 0)) = Undef.
Proof. vm_compute. reflexivity. Qed.

(** ** Encodings *)

(** A test on every number below [n] by evaluation. *)
Lemma forall_below n (f : Z → bool) :
  forallb f (map Z.of_nat (seq 0 n)) = true → ∀ x, 0 <= x < Z.of_nat n → f x = true.
Proof.
  intros Hall x Hx. rewrite forallb_forall in Hall. apply Hall.
  apply in_map_iff. exists (Z.to_nat x). split; [lia|]. apply in_seq. lia.
Qed.

Lemma hex_nibble x : 0 <= x < 16 → HEX (tab hex x) = x.
Proof.
  intros Hx. apply Z.eqb_eq. revert x Hx. apply (forall_below 16). reflexivity.
Qed.

Lemma nibbles b : is_byte b →
  0 <= Z.shiftr b 4 < 16 ∧ 0 <= Z.land b 0xf < 16 ∧ Z.lor (Z.shiftl (Z.shiftr b 4) 4) (Z.land b 0xf) = b.
Proof.
  unfold is_byte. intros Hb. rewrite Z.shiftr_div_pow2 by lia. change 0xf with (2 ^ 4 - 1).
  rewrite land_ones_mod by lia. rewrite lor_shiftl_add by dlia. dlia.
Qed.

(** Decoding hexadecimal text undoes encoding. *)
Theorem hex_roundtrip text :
  Forall is_byte text → ∃ h, ltohex text = Ret h ∧ lfromhex h = Ret text.
Proof.
  intros Hb. eexists. split; [reflexivity|]. set (h := concat _). unfold lfromhex.
  assert (Hodd : Nat.odd (length h) = false).
  { subst h. clear. induction text as [|b text IH]; [done|]. simpl. rewrite <- IH. done. }
  rewrite Hodd. assert (Hl : fromhex_loop h = Some text); [|by rewrite Hl].
  subst h. clear Hodd. induction Hb as [|b text Hb _ IH]; [done|].
  destruct (nibbles b Hb) as (H1 & H2 & H3). cbn [map concat app fromhex_loop].
  rewrite !hex_nibble by done. zcases. cbn [orb]. rewrite IH. cbn [mbind option_bind]. rewrite H3.
  by rewrite u8_small.
Qed.

Lemma hex_roundtrip_witness : ∃ h, ltohex [0; 171; 255] = Ret h ∧ lfromhex h = Ret [0; 171; 255].
Proof. apply hex_roundtrip. apply (bool_decide_unpack (Forall is_byte _)). by vm_compute. Defined.

(** The check of a digit is off by one: "g" is taken for 16. *)
Example fromhex_accepts_g : lfromhex [48; 103] = Ret [16].
Proof. reflexivity. Qed.

Lemma b64_code x : 0 <= x < 64 → b64index (tab encoding x) = x.
Proof. intros Hx. apply Z.eqb_eq. revert x Hx. apply (forall_below 64). reflexivity. Qed.

(** One group of characters, none of which is skipped. *)
Lemma b64_group_4 t0 t1 t2 t3 rest :
  b64index t0 ≠ -1 → b64index t1 ≠ -1 → b64index t2 ≠ -1 → b64index t3 ≠ -1 →
  b64_group 4 (t0 :: t1 :: t2 :: t3 :: rest) =
  let c := [b64index t0; b64index t1; b64index t2; b64index t3] in
  Some (c, foldr (λ c n, if c =? -2 then n + 1 else n) 0 c, rest).
Proof.
  intros H0 H1 H2 H3. cbn [b64_group].
  rewrite (proj2 (Z.eqb_neq _ _) H0), (proj2 (Z.eqb_neq _ _) H1), (proj2 (Z.eqb_neq _ _) H2),
    (proj2 (Z.eqb_neq _ _) H3). done.
Qed.

Lemma sextets_3 a b c : is_byte a → is_byte b → is_byte c →
  let v := Z.lor (Z.lor (Z.shiftl a 16) (Z.shiftl b 8)) c in
  let c0 := Z.shiftr v 18 in let c1 := Z.land (Z.shiftr v 12) 0x3f in
  let c2 := Z.land (Z.shiftr v 6) 0x3f in let c3 := Z.land v 0x3f in
  0 <= c0 < 64 ∧ 0 <= c1 < 64 ∧ 0 <= c2 < 64 ∧ 0 <= c3 < 64 ∧ b64_bytes [c0; c1; c2; c3] 0 = Some [a; b; c].
Proof.
  unfold is_byte. intros Ha Hb Hc. cbv zeta. rewrite <- Z.lor_assoc.
  rewrite (lor_shiftl_add b), (lor_shiftl_add a) by lia. change 0x3f with (2 ^ 6 - 1).
  rewrite !land_ones_mod, !Z.shiftr_div_pow2 by lia. set (v := a * 2 ^ 16 + (b * 2 ^ 8 + c)).
  assert (0 <= v < 2 ^ 24) by (subst v; lia). split_and!; try (subst v; dlia).
  unfold b64_bytes. cbn [nth Z.eqb]. cbv zeta. rewrite <- !Z.lor_assoc.
  rewrite (lor_shiftl_add ((v / 2 ^ 6) mod 2 ^ 6)) by dlia.
  rewrite (lor_shiftl_add ((v / 2 ^ 12) mod 2 ^ 6)) by dlia. rewrite (lor_shiftl_add (v / 2 ^ 18)) by dlia.
  assert (Hv : v / 2 ^ 18 * 2 ^ 18 + ((v / 2 ^ 12) mod 2 ^ 6 * 2 ^ 12 + ((v / 2 ^ 6) mod 2 ^ 6 * 2 ^ 6 + v mod 2 ^ 6)) = v)
    by dlia. rewrite Hv. rewrite u32_small by lia. change 0xff with (2 ^ 8 - 1).
  rewrite !land_ones_mod, !Z.shiftr_div_pow2 by lia. unfold u8. subst v. repeat f_equal; dlia.
Qed.

Lemma sextets_2 a b : is_byte a → is_byte b →
  let v := Z.lor (Z.shiftl a 8) b in
  let c0 := Z.shiftr v 10 in let c1 := Z.land (Z.shiftr v 4) 0x3f in let c2 := Z.shiftl (Z.land v 0xf) 2 in
  0 <= c0 < 64 ∧ 0 <= c1 < 64 ∧ 0 <= c2 < 64 ∧ b64_bytes [c0; c1; c2; -2] 1 = Some [a; b].
Proof.
  unfold is_byte. intros Ha Hb. cbv zeta. rewrite (lor_shiftl_add a) by lia.
  change 0x3f with (2 ^ 6 - 1). change 0xf with (2 ^ 4 - 1).
  rewrite !land_ones_mod, !Z.shiftr_div_pow2, Z.shiftl_mul_pow2 by lia. set (v := a * 2 ^ 8 + b).
  assert (0 <= v < 2 ^ 16) by (subst v; lia). split_and!; try (subst v; dlia).
  unfold b64_bytes. cbn [nth Z.eqb Pos.eqb negb orb]. cbv zeta. change 3 with (2 ^ 2 - 1).
  rewrite land_ones_mod by lia. replace ((v mod 2 ^ 4 * 2 ^ 2) mod 2 ^ 2) with 0 by dlia. cbn [Z.eqb negb].
  rewrite (Z.shiftr_div_pow2 _ 2), Z.div_mul, <- Z.lor_assoc by lia.
  rewrite (lor_shiftl_add ((v / 2 ^ 4) mod 2 ^ 6)) by dlia. rewrite (lor_shiftl_add (v / 2 ^ 10)) by dlia.
  assert (Hv : v / 2 ^ 10 * 2 ^ 10 + ((v / 2 ^ 4) mod 2 ^ 6 * 2 ^ 4 + v mod 2 ^ 4) = v) by dlia.
  rewrite Hv, u32_small by lia. change 0xff with (2 ^ 8 - 1).
  rewrite land_ones_mod, Z.shiftr_div_pow2 by lia. unfold u8. subst v. repeat f_equal; dlia.
Qed.

Lemma sextets_1 a : is_byte a →
  let c0 := Z.shiftr a 2 in let c1 := Z.shiftl (Z.land a 3) 4 in
  0 <= c0 < 64 ∧ 0 <= c1 < 64 ∧ b64_bytes [c0; c1; -2; -2] 2 = Some [a].
Proof.
  unfold is_byte. intros Ha. cbv zeta. change 3 with (2 ^ 2 - 1).
  rewrite !land_ones_mod, Z.shiftr_div_pow2, Z.shiftl_mul_pow2 by lia. split_and!; try dlia.
  unfold b64_bytes. cbn [nth Z.eqb Pos.eqb negb orb]. cbv zeta. change 0xf with (2 ^ 4 - 1).
  rewrite land_ones_mod by lia. replace ((a mod 2 ^ 2 * 2 ^ 4) mod 2 ^ 4) with 0 by dlia. cbn [Z.eqb negb].
  rewrite (Z.shiftr_div_pow2 _ 4), Z.div_mul by lia. rewrite (lor_shiftl_add (a / 2 ^ 2)) by dlia.
  rewrite u32_small by dlia. unfold u8. repeat f_equal; dlia.
Qed.

(** Induction on a text three bytes at a time. *)
Lemma triple_ind (Q : list Z → Prop) :
  Q [] → (∀ a, Q [a]) → (∀ a b, Q [a; b]) → (∀ a b c l, Q l → Q (a :: b :: c :: l)) → ∀ l, Q l.
Proof.
  intros H0 H1 H2 H3. fix go 1. intros [|a [|b [|c l]]]; [exact H0|apply H1|apply H2|apply H3, go].
Qed.

Lemma b64_decode_step f t0 t1 t2 t3 rest bytes l :
  b64index t0 ≠ -1 → b64index t1 ≠ -1 → b64index t2 ≠ -1 → b64index t3 ≠ -1 →
  b64_bytes [b64index t0; b64index t1; b64index t2; b64index t3]
    (foldr (λ c n, if c =? -2 then n + 1 else n) 0 [b64index t0; b64index t1; b64index t2; b64index t3]) = Some bytes →
  b64_decode_loop f rest = Some l →
  b64_decode_loop (S f) (t0 :: t1 :: t2 :: t3 :: rest) = Some (bytes ++ l).
Proof.
  intros H0 H1 H2 H3 Hb Hl. cbn [b64_decode_loop]. rewrite b64_group_4 by done. cbn [mbind option_bind].
  rewrite Hb. cbn [mbind option_bind]. by rewrite Hl.
Qed.

Lemma code_not_special x : 0 <= x < 64 → b64index (tab encoding x) ≠ -1 ∧ (x =? -2) = false.
Proof. intros. rewrite b64_code by done. split; [lia|apply Z.eqb_neq; lia]. Qed.

Ltac b64_side := first [apply code_not_special; done|done].

Lemma b64_decode_ok text fuel :
  Forall is_byte text → (length (b64_loop text) <= fuel)%nat → b64_decode_loop fuel (b64_loop text) = Some text.
Proof.
  revert text fuel. apply (triple_ind (λ text, ∀ fuel, Forall is_byte text → (length (b64_loop text) <= fuel)%nat →
    b64_decode_loop fuel (b64_loop text) = Some text)).
  - intros [|f] _ _; done.
  - intros a [|f] Hb Hf; [simpl in Hf; lia|]. rewrite Forall_singleton in Hb. destruct (sextets_1 a) as (H1 & H2 & H3); [done|].
    cbn [b64_loop]. rewrite (b64_decode_step f _ _ _ _ [] [a] []); try b64_side; [|by destruct f].
    cbn [foldr]. rewrite !b64_code by done.
    rewrite (proj2 (code_not_special _ H1)), (proj2 (code_not_special _ H2)). exact H3.
  - intros a b [|f] Hb Hf; [simpl in Hf; lia|]. rewrite Forall_cons, Forall_singleton in Hb. destruct Hb as [Ha Hb].
    destruct (sextets_2 a b) as (H1 & H2 & H3 & H4); [done..|].
    cbn [b64_loop]. cbv zeta. rewrite (b64_decode_step f _ _ _ _ [] [a; b] []); try b64_side; [|by destruct f].
    cbn [foldr]. rewrite !b64_code by done.
    rewrite (proj2 (code_not_special _ H1)), (proj2 (code_not_special _ H2)), (proj2 (code_not_special _ H3)). exact H4.
  - intros a b c l IH [|f] Hb Hf; [simpl in Hf; lia|].
    apply Forall_cons in Hb as [Ha [Hb [Hc Hl]%Forall_cons]%Forall_cons].
    destruct (sextets_3 a b c) as (H1 & H2 & H3 & H4 & H5); [done..|].
    cbn [b64_loop app]. cbv zeta. rewrite (b64_decode_step f _ _ _ _ _ [a; b; c] l); try b64_side.
    + cbn [foldr]. rewrite !b64_code by done. rewrite (proj2 (code_not_special _ H1)), (proj2 (code_not_special _ H2)),
        (proj2 (code_not_special _ H3)), (proj2 (code_not_special _ H4)). exact H5.
    + apply IH; auto. cbn [b64_loop app length] in Hf. lia.
Qed.

(** Decoding base 64 undoes encoding, with every amount of padding. *)
Theorem b64_roundtrip text :
  Forall is_byte text → ∃ e, lb64encode text = Ret e ∧ lb64decode e = Ret text.
Proof.
  intros Hb. eexists. split; [reflexivity|]. unfold lb64decode. by rewrite b64_decode_ok by done.
Qed.

Lemma b64_roundtrip_witness : ∃ e, lb64encode [77; 97; 110; 255] = Ret e ∧ lb64decode e = Ret [77; 97; 110; 255].
Proof. apply b64_roundtrip. apply (bool_decide_unpack (Forall is_byte _)). by vm_compute. Defined.

(** [lxor_str] with the same key twice gives back the string. *)
Theorem xor_str_involution s key :
  key ≠ [] → ∃ x, lxor_str s key = Ret x ∧ length x = length s ∧ lxor_str x key = Ret s.
Proof.
  intros Hk. destruct key as [|k0 key]; [done|]. cbn [lxor_str]. eexists. split_and!; [reflexivity|apply length_imap|].
  f_equal. apply list_eq. intros i. rewrite !list_lookup_imap. destruct (s !! i) as [c|]; [|done]. simpl.
  by rewrite Z.lxor_assoc, Z.lxor_nilpotent, Z.lxor_0_r.
Qed.

Lemma xor_str_involution_witness :
  ∃ x, lxor_str [1; 2; 3] [7; 9] = Ret x ∧ length x = length [1; 2; 3] ∧ lxor_str x [7; 9] = Ret [1; 2; 3].
Proof. apply xor_str_involution. discriminate. Defined.

Lemma fold_lxor_zeros l : Forall (λ b, b = 0) l → fold_left Z.lxor l 0 = 0.
Proof. induction 1 as [|b l -> _ IH]; simpl; auto. Qed.

(** A random key is eight bytes and never all zero, whatever the random
    numbers: the exchange of keys can always use it. *)
Theorem randomkey_nonzero r :
  (8 <= length r)%nat →
  length (lrandomkey r) = 8%nat ∧ Forall is_byte (lrandomkey r) ∧ ¬ Forall (λ b, b = 0) (lrandomkey r).
Proof.
  intros Hr. unfold lrandomkey.
  assert (Hl : length (map (λ v, Z.land v 0xff) (take 8 r)) = 8%nat) by (rewrite length_map, length_take; lia).
  assert (Hb : Forall is_byte (map (λ v, Z.land v 0xff) (take 8 r))).
  { apply Forall_forall. intros x (v & <- & _)%list_elem_of_In%in_map_iff. change 0xff with (2 ^ 8 - 1).
    rewrite land_ones_mod by lia. apply Z.mod_pos_bound. lia. }
  destruct (map _ (take 8 r)) as [|t0 tmp]; [done|]. apply Forall_cons in Hb as Hb'. destruct Hb' as [Ht0 Htmp].
  destruct (Z.eqb_spec (fold_left Z.lxor (t0 :: tmp) 0) 0) as [Hx|Hx].
  - assert (Hodd : Z.lor t0 1 = t0 / 2 * 2 + 1).
    { change 1 with (2 ^ 1 - 1). by rewrite lor_ones_div by lia. }
    split_and!; [done| |].
    + constructor; [|done]. rewrite Hodd. unfold is_byte in *. dlia.
    + intros [Hz _]%Forall_cons. rewrite Hodd in Hz. unfold is_byte in *. dlia.
  - split_and!; auto. intros Hz. apply Hx. by apply fold_lxor_zeros.
Qed.

Lemma randomkey_nonzero_witness :
  length (lrandomkey (replicate 8 256)) = 8%nat ∧ Forall is_byte (lrandomkey (replicate 8 256)) ∧
  ¬ Forall (λ b, b = 0) (lrandomkey (replicate 8 256)).
Proof. apply randomkey_nonzero. apply Nat.leb_le. reflexivity. Defined.

(** ** Diffie-Hellman exchange *)

Lemma P_range : 2 ^ 63 < P < 2 ^ 64.
Proof. by vm_compute. Qed.

Lemma mul_mod_loop_ok n a b m :
  0 <= a <= P → 0 <= b < 2 ^ Z.of_nat n → 0 <= m < P →
  ∃ r, mul_mod_loop n a b m = Some r ∧ 0 <= r < P ∧ r mod P = (m + a * b) mod P.
Proof.
  pose proof P_range as HP. revert a b m. induction n as [|n IH]; intros a b m Ha Hb Hm; cbn [mul_mod_loop].
  { assert (b = 0) as -> by (simpl in Hb; lia). exists m. split_and!; try lia; [done|]. f_equal. lia. }
  rewrite Nat2Z.inj_succ, Z.pow_succ_r in Hb by lia.
  destruct (Z.eqb_spec b 0) as [->|Hb0].
  { exists m. split_and!; try lia; [done|]. f_equal. lia. }
  rewrite (u64_small (P - a)) by lia. change 1 with (2 ^ 1 - 1). rewrite land_ones_mod by lia.
  change (2 ^ 1 - 1) with 1. change (2 ^ 1) with 2. rewrite Z.shiftr_div_pow2 by lia. change (2 ^ 1) with 2.
  set (m' := if b mod 2 =? 1 then _ else m). set (a' := if P - a <=? a then _ else _).
  assert (Hm' : 0 <= m' < P ∧ (m' - (m + a * (b mod 2))) mod P = 0).
  { subst m'. pose proof (Z.mod_pos_bound b 2). destruct (Z.eqb_spec (b mod 2) 1) as [->|].
    - destruct (Z.leb_spec (P - a) m); rewrite u64_small by lia; split; try lia.
      + replace (m - (P - a) - (m + a * 1)) with (-1 * P) by lia. by apply Z_mod_mult.
      + replace (m + a - (m + a * 1)) with 0 by lia. done.
    - assert (b mod 2 = 0) as -> by lia. split; [lia|]. replace (m - (m + a * 0)) with 0 by lia. done. }
  assert (Ha' : 0 <= a' <= P ∧ (a' - 2 * a) mod P = 0).
  { subst a'. destruct (Z.leb_spec (P - a) a); rewrite u64_small by lia; split; try lia.
    - replace (a * 2 - P - 2 * a) with (-1 * P) by lia. by apply Z_mod_mult.
    - replace (a * 2 - 2 * a) with 0 by lia. done. }
  destruct Hm' as [Hm1 Hm2], Ha' as [Ha1 Ha2].
  destruct (IH a' (b / 2) m') as (r & -> & Hr & Hrm); [lia|dlia|lia|]. exists r. split_and!; try lia; [done|].
  rewrite Hrm. apply Z.mod_divide in Hm2 as [u Hu]; [|lia]. apply Z.mod_divide in Ha2 as [v Hv]; [|lia].
  replace (m' + a' * (b / 2)) with (m + a * b + (u + v * (b / 2)) * P); [by apply Z_mod_plus_full|].
  assert (m' = m + a * (b mod 2) + u * P) as -> by lia. assert (a' = 2 * a + v * P) as -> by lia.
  rewrite (Z.div_mod b 2) at 1 by lia. ring.
Qed.

Lemma mul_mod_p_ok a b :
  0 <= a <= P → 0 <= b <= P → ∃ r, mul_mod_p a b = Some r ∧ 0 <= r < P ∧ r mod P = (a * b) mod P.
Proof.
  intros Ha Hb. pose proof P_range. destruct (mul_mod_loop_ok 64 a b 0) as (r & Hr & ? & ?); try lia.
  exists r. split_and!; auto; lia.
Qed.

Lemma pow_square p a t t2 e :
  0 < p → 0 <= e → t mod p = a ^ e mod p → t2 mod p = (t * t) mod p → t2 mod p = a ^ (2 * e) mod p.
Proof.
  intros Hp He Ht ->. rewrite Z.mul_mod, Ht, <- Z.mul_mod by lia.
  replace (2 * e) with (e + e) by lia. by rewrite Z.pow_add_r by lia.
Qed.

Lemma pow_times p a t r e :
  0 < p → 0 <= e → t mod p = a ^ e mod p → r mod p = (t * a) mod p → r mod p = a ^ (e + 1) mod p.
Proof.
  intros Hp He Ht ->. rewrite Z.mul_mod, Ht, <- Z.mul_mod by lia. by rewrite Z.pow_add_r, Z.pow_1_r by lia.
Qed.

Lemma P_pos : 0 < P.
Proof. reflexivity. Qed.

(** One level of the recursion of [pow_mod_p]. *)
Lemma pow_mod_step a b t :
  0 <= a <= P → 2 <= b → 0 <= t <= P → t mod P = a ^ (b / 2) mod P →
  ∃ r, pow_combine t a b = Some r ∧ 0 <= r <= P ∧
    r mod P = a ^ b mod P ∧ (a < P → r < P).
Proof.
  intros Ha Hb Ht Htm. unfold pow_combine. pose proof P_pos as HP.
  pose proof (Z.div_mod b 2 ltac:(lia)) as Hdm. pose proof (Z.mod_pos_bound b 2 ltac:(lia)) as Hm2.
  destruct (mul_mod_p_ok t t) as (t2 & -> & Ht2 & Ht2m); [lia..|]. cbn [mbind option_bind].
  assert (0 <= b / 2) as Hd0 by lia.
  pose proof (pow_square P a t t2 (b / 2) HP Hd0 Htm Ht2m) as Hsq.
  destruct (Z.eqb_spec (b mod 2) 0) as [He|Ho].
  - exists t2. replace b with (2 * (b / 2)) at 1 by lia. split_and!; [done|lia|lia|done|lia].
  - destruct (mul_mod_p_ok t2 a) as (r & -> & Hr & Hrm); [lia..|]. exists r.
    replace b with (2 * (b / 2) + 1) at 1 by lia. split_and!; [done|lia|lia| |lia].
    apply (pow_times P a t2); auto. lia.
Qed.

Lemma pow_mod_p_ok n a b :
  0 <= a <= P → 1 <= b < 2 ^ Z.of_nat n →
  ∃ r, pow_mod_p n a b = Some r ∧ 0 <= r <= P ∧ r mod P = a ^ b mod P ∧ (a < P → r < P).
Proof.
  intros Ha. revert b. induction n as [|n IH]; intros b Hb; [simpl in Hb; lia|].
  rewrite Nat2Z.inj_succ, Z.pow_succ_r in Hb by lia. cbn [pow_mod_p].
  destruct (Z.eqb_spec b 1) as [->|Hb1].
  { exists a. rewrite Z.pow_1_r. split_and!; [done|lia|lia|done|done]. }
  assert (Hs : Z.shiftr b 1 = b / 2) by (rewrite Z.shiftr_div_pow2 by lia; done).
  destruct (IH (b / 2)) as (t & Ht & Htr & Htm & _); [dlia|]. rewrite Hs, Ht. cbn [mbind option_bind].
  apply (pow_mod_step a b t); auto. lia.
Qed.

(** [powmodp] is modular exponentiation: for every base and every
    exponent from 1 to 2^64 - 1 it terminates without a wrong wrap-around of
    its 64-bit words and its result is congruent to the power modulo P; it is
    the power reduced modulo P whenever the base is not P itself. *)
Theorem powmodp_ok a b :
  0 <= a < 2 ^ 64 → 1 <= b < 2 ^ 64 →
  ∃ r, powmodp a b = Some r ∧ 0 <= r <= P ∧ r mod P = a ^ b mod P ∧ (a ≠ P → r = a ^ b mod P).
Proof.
  intros Ha Hb. pose proof P_range. unfold powmodp.
  assert (Hred : ∃ a', (if P <? a then a mod P else a) = a' ∧ 0 <= a' <= P ∧ a' mod P = a mod P ∧ (a ≠ P → a' < P)).
  { destruct (Z.ltb_spec P a).
    - exists (a mod P). pose proof (Z.mod_pos_bound a P). rewrite Z.mod_mod by lia. split_and!; auto; lia.
    - exists a. split_and!; auto; lia. }
  destruct Hred as (a' & -> & Ha' & Hm & Hlt).
  destruct (pow_mod_p_ok 64 a' b) as (r & -> & Hr & Hrm & Hrl); [lia..|]. exists r.
  assert (Hpow : r mod P = a ^ b mod P).
  { rewrite Hrm, <- (Z.mod_pow_l a'), Hm, Z.mod_pow_l by lia. done. }
  split_and!; auto; try lia. intros Hne. rewrite <- Hpow, Z.mod_small; auto. split; [lia|]. auto.
Qed.

Lemma powmodp_ok_witness :
  ∃ r, powmodp 5 (2 ^ 63 + 1) = Some r ∧ 0 <= r <= P ∧ r mod P = 5 ^ (2 ^ 63 + 1) mod P ∧
    (5 ≠ P → r = 5 ^ (2 ^ 63 + 1) mod P).
Proof. apply (powmodp_ok 5 (2 ^ 63 + 1)); lia. Defined.

(** The strings of eight bytes as little-endian numbers. *)
Lemma le32_sum a b c d :
  is_byte a → is_byte b → is_byte c → is_byte d →
  u32 (Z.lor (Z.lor (Z.lor a (Z.shiftl b 8)) (Z.shiftl c 16)) (Z.shiftl d 24)) = a + b * 2 ^ 8 + c * 2 ^ 16 + d * 2 ^ 24.
Proof.
  unfold is_byte. intros. rewrite (Z.lor_comm a), (Z.lor_comm _ (Z.shiftl c 16)), (Z.lor_comm _ (Z.shiftl d 24)).
  rewrite (lor_shiftl_add b), (lor_shiftl_add c), (lor_shiftl_add d) by lia. rewrite u32_small by lia. lia.
Qed.

Lemma read64_val x : is_block x → ∃ w, read64 x = Some w ∧ to64 w = le_val x.
Proof.
  intros [Hl Hb]. unfold read64. rewrite Hl. simpl Nat.eqb. cbv iota. eexists. split; [reflexivity|].
  do 8 (destruct x as [|? x]; [done|]). destruct x; [|done]. clear Hl.
  repeat match goal with H : Forall _ (_ :: _) |- _ => apply Forall_cons in H as [? ?] end.
  unfold to64, get_le32. cbn [fst snd nth Nat.add]. rewrite !le32_sum by done.
  unfold is_byte in *. rewrite Z.lor_comm, lor_shiftl_add by lia. simpl le_val. lia.
Qed.

Lemma push64_val r : 0 <= r < 2 ^ 64 → ∃ s, push64 r = Ret s ∧ is_block s ∧ le_val s = r.
Proof.
  intros Hr. eexists. split; [reflexivity|].
  assert (Hs : [Z.land r 255; Z.land (Z.shiftr r 8) 255; Z.land (Z.shiftr r 16) 255; Z.land (Z.shiftr r 24) 255;
     Z.land (Z.shiftr r 32) 255; Z.land (Z.shiftr r 40) 255; Z.land (Z.shiftr r 48) 255;
     Z.land (Z.shiftr r 56) 255] = le_bytes 8 r).
  { rewrite !land_255, !Z.shiftr_div_pow2 by lia. cbn [le_bytes]. rewrite !Z.div_div by lia. done. }
  rewrite Hs. split; [split; [apply le_bytes_length|apply le_bytes_bytes]|].
  rewrite le_val_bytes. by apply Z.mod_small.
Qed.

Lemma pow_G_nonzero n : 0 <= n → G ^ n mod P ≠ 0.
Proof.
  pose proof P_range. intros Hn Hz. apply Z.mod_divide in Hz; [|lia]. revert n Hn Hz.
  apply (natlike_ind (λ n, (P | G ^ n) → False)).
  - rewrite Z.pow_0_r. intros Hd. apply Z.divide_1_r_nonneg in Hd; lia.
  - intros n Hn IH Hd. rewrite Z.pow_succ_r in Hd by lia. apply IH. apply (Z.gauss P G); [done|reflexivity].
Qed.

Lemma dhexchange_ok x :
  is_block x → le_val x ≠ 0 → ∃ e, ldhexchange x = Ret e ∧ is_block e ∧ le_val e = G ^ le_val x mod P.
Proof.
  intros Hx Hx0. destruct (read64_val x Hx) as (w & Hr & Hw). unfold ldhexchange. rewrite Hr, Hw.
  rewrite (proj2 (Z.eqb_neq _ _) Hx0). pose proof P_range. destruct Hx as [Hl Hb].
  pose proof (le_val_range x Hb) as Hrange. rewrite Hl in Hrange. change (256 ^ Z.of_nat 8) with (2 ^ 64) in Hrange.
  destruct (pow_mod_p_ok 64 G (le_val x)) as (r & Hp & Hr0 & Hrm & Hlt);
    [unfold G; lia|change (2 ^ Z.of_nat 64) with (2 ^ 64); lia|].
  unfold powmodp. assert (P <? G = false) as -> by reflexivity. rewrite Hp.
  assert (r < P) by (apply Hlt; unfold G; lia).
  destruct (push64_val r) as (s & Hs & Hsb & Hsv); [lia|]. exists s. split_and!; auto.
  rewrite Hsv, <- Hrm. symmetry. apply Z.mod_small. lia.
Qed.

Lemma dhsecret_ok e y :
  is_block e → is_block y → 0 < le_val e < P → le_val y ≠ 0 →
  ∃ s, ldhsecret e y = Ret s ∧ is_block s ∧ le_val s = le_val e ^ le_val y mod P.
Proof.
  intros He Hy He0 Hy0. destruct (read64_val e He) as (w & Hr & Hw), (read64_val y Hy) as (w' & Hr' & Hw').
  unfold ldhsecret. rewrite Hr, Hr', Hw, Hw'. rewrite (proj2 (Z.eqb_neq (le_val e) 0)), (proj2 (Z.eqb_neq _ _) Hy0) by lia.
  cbn [orb]. pose proof P_range. destruct Hy as [Hl Hb].
  pose proof (le_val_range y Hb) as Hrange. rewrite Hl in Hrange. change (256 ^ Z.of_nat 8) with (2 ^ 64) in Hrange.
  destruct (pow_mod_p_ok 64 (le_val e) (le_val y)) as (r & Hp & Hr0 & Hrm & Hlt);
    [lia|change (2 ^ Z.of_nat 64) with (2 ^ 64); lia|].
  unfold powmodp. rewrite (proj2 (Z.ltb_ge P (le_val e))) by lia. rewrite Hp.
  assert (r < P) by (apply Hlt; lia).
  destruct (push64_val r) as (s & Hs & Hsb & Hsv); [lia|]. exists s. split_and!; auto.
  rewrite Hsv, <- Hrm. symmetry. apply Z.mod_small. lia.
Qed.

(** C36. The two parties of an exchange compute the same secret: from any two
    private keys that are not zero, [ldhexchange] gives each a public value,
    and [ldhsecret] of the other's public value and one's own key gives both
    the same eight bytes. *)
Theorem dh_agreement x y :
  is_block x → is_block y → le_val x ≠ 0 → le_val y ≠ 0 →
  ∃ ex ey s, ldhexchange x = Ret ex ∧ ldhexchange y = Ret ey ∧ ldhsecret ex y = Ret s ∧ ldhsecret ey x = Ret s.
Proof.
  intros Hx Hy Hx0 Hy0. pose proof P_range.
  assert (Hpos : ∀ z, is_block z → 0 <= le_val z) by (intros z [_ Hz]; pose proof (le_val_range z Hz); lia).
  pose proof (Hpos x Hx). pose proof (Hpos y Hy).
  destruct (dhexchange_ok x Hx Hx0) as (ex & Hex & Hexb & Hexv).
  destruct (dhexchange_ok y Hy Hy0) as (ey & Hey & Heyb & Heyv).
  assert (Hrange : ∀ n, 0 <= n → 0 < G ^ n mod P < P).
  { intros n Hn. pose proof (Z.mod_pos_bound (G ^ n) P ltac:(lia)). pose proof (pow_G_nonzero n Hn). lia. }
  destruct (dhsecret_ok ex y) as (s & Hs & Hsb & Hsv); auto; [rewrite Hexv; auto|].
  destruct (dhsecret_ok ey x) as (s' & Hs' & Hsb' & Hsv'); auto; [rewrite Heyv; auto|].
  exists ex, ey, s. split_and!; auto. rewrite Hs'. f_equal.
  destruct Hsb as [Hl Hb], Hsb' as [Hl' Hb']. rewrite <- (le_bytes_val s Hb), <- (le_bytes_val s' Hb'), Hl, Hl'. f_equal.
  rewrite Hsv, Hsv', Hexv, Heyv, !Z.mod_pow_l, <- !Z.pow_mul_r by lia. do 2 f_equal. lia.
Qed.

Lemma dh_agreement_witness :
  ∃ ex ey s, ldhexchange [1; 2; 3; 4; 5; 6; 7; 8] = Ret ex ∧ ldhexchange [255; 0; 0; 0; 0; 0; 0; 128] = Ret ey ∧
    ldhsecret ex [255; 0; 0; 0; 0; 0; 0; 128] = Ret s ∧ ldhsecret ey [1; 2; 3; 4; 5; 6; 7; 8] = Ret s.
Proof.
  apply dh_agreement; try (split; [reflexivity|apply (bool_decide_unpack (Forall is_byte _)); by vm_compute]); discriminate.
Defined.
