(* ===== verification/SprotoPack.v ===== *)
(** * Packing of sproto messages: lualib-src/sproto/sproto.c

    [sproto_pack] removes the zero bytes of an encoded message, eight bytes at
    a time: a header byte with a bit per byte that is not zero, then those
    bytes; runs of up to 256 groups with few zeros are copied after 0xff and
    their number.  [sproto_unpack] restores the message, padded to eight.

    A destination buffer is a list of cells; a read or write outside a buffer
    makes a function [None].  Sizes are below 2^31. *)

From Stdlib Require Import ZArith Lia.
From stdpp Require Import base tactics option numbers list.
From S2P Require Import Prelude.

(** ** Packing *)

(** The loop of [pack_seg] over the bytes of a group: the header, the number
    of bytes not zero, the buffer. *)
Fixpoint seg_loop (l : list Z) (i pos sz header notzero : Z) (buf : list (option Z))
    : option (Z * Z * list (option Z)) :=
  match l with
  | [] => Some (header, notzero, buf)
  | b :: l' =>
      if negb (b =? 0) then
        let header := Z.lor header (Z.shiftl 1 i) in
        if 0 <? sz then
          buf' ← arr_set buf pos (Some b);
          seg_loop l' (i + 1) (pos + 1) (sz - 1) header (notzero + 1) buf'
        else seg_loop l' (i + 1) pos sz header (notzero + 1) buf
      else seg_loop l' (i + 1) pos sz header notzero buf
  end.

(** [pack_seg(src, buffer, sz, n)] at offset [off] of the destination: the
    number returned, and the destination. *)
Definition pack_seg (src : list Z) (buf : list (option Z)) (off sz n : Z) : option (Z * list (option Z)) :=
  let sz := sz - 1 in
  '(header, notzero, buf) ← seg_loop src 0 (off + 1) sz 0 0 buf;
  let notzero := if ((notzero =? 7) || (notzero =? 6)) && (0 <? n) then 8 else notzero in
  if notzero =? 8 then Some (if 0 <? n then 8 else 10, buf)
  else
    buf ← (if 0 <=? sz then arr_set buf off (Some header) else Some buf);
    Some (notzero + 1, buf).

(** [write_ff(src, des, n)]: [src] are the [n] bytes. *)
Definition write_ff (src : list Z) (buf : list (option Z)) (des : Z) : option (list (option Z)) :=
  let n := Z.of_nat (length src) in
  let align8_n := Z.land (n + 7) (-8) in
  memcpy buf des ([255; u8 (align8_n / 8 - 1)] ++ src ++ replicate (Z.to_nat (align8_n - n)) 0)
    (2 + align8_n).

(** [ff_srcstart]: into the source, or the padded copy [tmp]. *)
Inductive ff_start := FF_none | FF_at (i : Z) | FF_tmp (tmp : list Z).

(** The [n] bytes from [ff_srcstart]. *)
Definition ff_bytes (src : list Z) (s : ff_start) (n : Z) : option (list Z) :=
  match s with
  | FF_at i => if i + n <=? Z.of_nat (length src) then Some (take (Z.to_nat n) (drop (Z.to_nat i) src)) else None
  | FF_tmp tmp => if n <=? Z.of_nat (length tmp) then Some (take (Z.to_nat n) tmp) else None
  | FF_none => None
  end.

Record pack_state := mk_pack_state {
  pk_buf : list (option Z);
  pk_off : Z;      (* buffer - bufferv *)
  pk_bufsz : Z;
  pk_size : Z;
  pk_ff_n : Z;
  pk_ff_src : ff_start;
  pk_ff_des : Z
}.

(** [if (bufsz >= 0) write_ff(ff_srcstart, ff_desstart, n)] *)
Definition flush_ff (src : list Z) (s : pack_state) (bufsz n : Z) (buf : list (option Z)) : option (list (option Z)) :=
  if 0 <=? bufsz then b ← ff_bytes src (pk_ff_src s) n; write_ff b buf (pk_ff_des s) else Some buf.

(** The body of the loop of [sproto_pack] for the group at [i]. *)
Definition pack_step (src : list Z) (i : Z) (s : pack_state) : option pack_state :=
  let srcsz := Z.of_nat (length src) in
  let padding := i + 8 - srcsz in
  let '(seg, start) :=
    if 0 <? padding then
      let tmp := drop (Z.to_nat i) src ++ replicate (Z.to_nat padding) 0 in (tmp, FF_tmp tmp)
    else (take 8 (drop (Z.to_nat i) src), FF_at i) in
  '(n, buf) ← pack_seg seg (pk_buf s) (pk_off s) (pk_bufsz s) (pk_ff_n s);
  let bufsz := pk_bufsz s - n in
  let next buf ff_n ff_src ff_des :=
    Some (mk_pack_state buf (pk_off s + n) bufsz (pk_size s + n) ff_n ff_src ff_des) in
  if n =? 10 then next buf 1 start (pk_off s)
  else if (n =? 8) && (0 <? pk_ff_n s) then
    let ff_n := pk_ff_n s + 1 in
    if ff_n =? 256 then
      buf ← flush_ff src s bufsz (256 * 8) buf;
      next buf 0 (pk_ff_src s) (pk_ff_des s)
    else next buf ff_n (pk_ff_src s) (pk_ff_des s)
  else if 0 <? pk_ff_n s then
    buf ← flush_ff src s bufsz (pk_ff_n s * 8) buf;
    next buf 0 (pk_ff_src s) (pk_ff_des s)
  else next buf 0 (pk_ff_src s) (pk_ff_des s).

Fixpoint pack_loop (n : nat) (src : list Z) (i : Z) (s : pack_state) : option pack_state :=
  match n with
  | O => Some s
  | S n' => s ← pack_step src i s; pack_loop n' src (i + 8) s
  end.

(** [sproto_pack] into the buffer [buf] of [bufsz] bytes: the size returned,
    and the buffer. *)
Definition sproto_pack (src : list Z) (buf : list (option Z)) (bufsz : Z) : option (Z * list (option Z)) :=
  let srcsz := Z.of_nat (length src) in
  s ← pack_loop (Z.to_nat ((srcsz + 7) / 8)) src 0 (mk_pack_state buf 0 bufsz 0 0 FF_none 0);
  buf ←
    (if 0 <=? pk_bufsz s then
       if pk_ff_n s =? 1 then b ← ff_bytes src (pk_ff_src s) 8; write_ff b (pk_buf s) (pk_ff_des s)
       else if 1 <? pk_ff_n s then
         match pk_ff_src s with
         | FF_at i => b ← ff_bytes src (FF_at i) (srcsz - i); write_ff b (pk_buf s) (pk_ff_des s)
         | _ => None
         end
       else Some (pk_buf s)
     else Some (pk_buf s));
  Some (pk_size s, buf).

(** The size of the buffer [lpack] of lsproto.c allocates. *)
Definition pack_maxsz (sz : Z) : Z := (sz + 2047) / 2048 * 2 + sz + 2.

(** ** Unpacking *)

Record unpack_state := mk_unpack_state {
  up_src : list Z;     (* the bytes from [src] on *)
  up_srcsz : Z;
  up_buf : list (option Z);
  up_off : Z;          (* buffer - bufferv *)
  up_bufsz : Z;
  up_size : Z
}.

(** [if (bufsz > 0) { *buffer = b; --bufsz; ++buffer; }] and [++size] *)
Definition unpack_put (s : unpack_state) (b : Z) : option unpack_state :=
  if 0 <? up_bufsz s then
    buf ← arr_set (up_buf s) (up_off s) (Some b);
    Some (mk_unpack_state (up_src s) (up_srcsz s) buf (up_off s + 1) (up_bufsz s - 1) (up_size s + 1))
  else Some (mk_unpack_state (up_src s) (up_srcsz s) (up_buf s) (up_off s) (up_bufsz s) (up_size s + 1)).

(** The loop over the bits of a header; [inr] is the return value -1, with the
    buffer. *)
Fixpoint unpack_bits (n : nat) (i header : Z) (s : unpack_state) : option (unpack_state + list (option Z)) :=
  match n with
  | O => Some (inl s)
  | S n' =>
      if Z.land (Z.shiftr header i) 1 =? 1 then
        if up_srcsz s <? 0 then Some (inr (up_buf s))
        else
          match up_src s with
          | [] => None
          | b :: src' =>
              s1 ← unpack_put s b;
              unpack_bits n' (i + 1) header
                (mk_unpack_state src' (up_srcsz s - 1) (up_buf s1) (up_off s1) (up_bufsz s1) (up_size s1))
          end
      else s1 ← unpack_put s 0; unpack_bits n' (i + 1) header s1
  end.

(** The loop of [sproto_unpack]; each round consumes a byte.  The result is
    the size (or -1) and the buffer. *)
Fixpoint unpack_loop (fuel : nat) (s : unpack_state) : option (Z * list (option Z)) :=
  if negb (0 <? up_srcsz s) then Some (up_size s, up_buf s)
  else
    match fuel, up_src s with
    | O, _ => None
    | _, [] => None
    | S f, header :: src =>
        let srcsz := up_srcsz s - 1 in
        if header =? 255 then
          if srcsz <? 0 then Some (-1, up_buf s)
          else
            match src with
            | [] => None
            | c :: src' =>
                let n := (c + 1) * 8 in
                if srcsz <? n + 1 then Some (-1, up_buf s)
                else
                  buf ← (if n <=? up_bufsz s then memcpy (up_buf s) (up_off s) src' n else Some (up_buf s));
                  unpack_loop f (mk_unpack_state (drop (Z.to_nat n) src') (srcsz - (n + 1)) buf
                                   (up_off s + n) (up_bufsz s - n) (up_size s + n))
            end
        else
          r ← unpack_bits 8 0 header (mk_unpack_state src srcsz (up_buf s) (up_off s) (up_bufsz s) (up_size s));
          match r with
          | inr buf => Some (-1, buf)
          | inl s' => unpack_loop f s'
          end
    end.

Definition sproto_unpack (src : list Z) (buf : list (option Z)) (bufsz : Z) : option (Z * list (option Z)) :=
  unpack_loop (length src) (mk_unpack_state src (Z.of_nat (length src)) buf 0 bufsz 0).

Example pack_doc :
  sproto_pack [8; 0; 0; 0; 3; 0; 2; 0; 25; 0; 0; 0; 170; 1; 0; 0] (malloc 20) 20 =
  Some (8, (Some <$> [81; 8; 3; 2; 49; 25; 170; 1]) ++ malloc 12).
Proof. reflexivity. Qed.

(** The 256th group of a run is copied whole although the source ends before
    it: one byte after the source is read. *)
Example pack_overread : sproto_pack (replicate 2047 1) (malloc 2100) 2100 = None.
Proof. vm_compute. reflexivity. Qed.

(** A stream that ends after the header of a group, or after 0xff, is read
    one byte beyond its end. *)
Example unpack_overread : sproto_unpack [1] (malloc 8) 8 = None ∧ sproto_unpack [255] (malloc 8) 8 = None.
Proof. split; reflexivity. Qed.

(** ** The packed format *)

Definition nonzero (b : Z) : Prop := b ≠ 0.

(** The header of a group: bit [i + k] is set when its byte [k] is not zero. *)
Fixpoint header_bits (i : Z) (l : list Z) : Z :=
  match l with
  | [] => 0
  | b :: l' => Z.lor (if b =? 0 then 0 else Z.shiftl 1 i) (header_bits (i + 1) l')
  end.

Definition seg_enc (s : list Z) : list Z := header_bits 0 s :: filter nonzero s.

Definition count (s : list Z) : Z := Z.of_nat (length (filter nonzero s)).

(** [packs p d]: the stream [p] stands for the data [d]. *)
Inductive packs : list Z → list Z → Prop :=
  | packs_nil : packs [] []
  | packs_seg s p d : length s = 8%nat → count s < 8 → packs p d → packs (seg_enc s ++ p) (s ++ d)
  | packs_ff r m p d : Z.of_nat (length r) = 8 * m → 1 <= m <= 256 → packs p d → packs (255 :: (m - 1) :: r ++ p) (r ++ d).

Lemma packs_app p1 d1 p2 d2 : packs p1 d1 → packs p2 d2 → packs (p1 ++ p2) (d1 ++ d2).
Proof.
  induction 1 as [|s p d Hl Hc _ IH|r m p d Hl Hm _ IH]; intros H2; [done| |].
  - rewrite <- !app_assoc. constructor; auto.
  - simpl. rewrite <- !app_assoc. constructor; auto.
Qed.

Lemma packs_one s : length s = 8%nat → count s < 8 → packs (seg_enc s) s.
Proof.
  intros. pose proof (packs_seg s [] [] ltac:(done) ltac:(done) packs_nil) as Hp. by rewrite !app_nil_r in Hp.
Qed.

Lemma packs_run r m : Z.of_nat (length r) = 8 * m → 1 <= m <= 256 → packs (255 :: (m - 1) :: r) r.
Proof.
  intros. pose proof (packs_ff r m [] [] ltac:(done) ltac:(done) packs_nil) as Hp. by rewrite !app_nil_r in Hp.
Qed.

Lemma header_bits_spec i l k : 0 <= i → 0 <= k →
  Z.testbit (header_bits i l) k = (i <=? k) && match l !! Z.to_nat (k - i) with Some b => negb (b =? 0) | None => false end.
Proof.
  revert i. induction l as [|b l IH]; intros i Hi Hk; cbn [header_bits].
  { rewrite Z.bits_0. by destruct (i <=? k). }
  rewrite Z.lor_spec, IH by lia.
  assert (Hbit : Z.testbit (if b =? 0 then 0 else Z.shiftl 1 i) k = (k =? i) && negb (b =? 0)).
  { destruct (b =? 0); cbn [negb]; [by rewrite Z.bits_0, andb_false_r|]. rewrite andb_true_r, Z.shiftl_1_l.
    rewrite Z.pow2_bits_eqb by lia. apply Z.eqb_sym. }
  rewrite Hbit. destruct (Z.ltb_spec i k).
  - replace (Z.to_nat (k - i)) with (S (Z.to_nat (k - (i + 1)))) by lia. cbn [lookup list_lookup].
    rewrite (proj2 (Z.eqb_neq k i)), (proj2 (Z.leb_le (i + 1) k)), (proj2 (Z.leb_le i k)) by lia. done.
  - rewrite (proj2 (Z.leb_gt (i + 1) k)), orb_false_r by lia. destruct (Z.eqb_spec k i) as [->|].
    + rewrite Z.leb_refl, Z.sub_diag. done.
    + rewrite (proj2 (Z.leb_gt i k)) by lia. done.
Qed.

Lemma count_le s : 0 <= count s <= Z.of_nat (length s).
Proof. unfold count. pose proof (length_filter nonzero s). lia. Qed.

Lemma count_cons b s : count (b :: s) = (if b =? 0 then 0 else 1) + count s.
Proof.
  unfold count. rewrite filter_cons. unfold nonzero at 1. case_decide as H; destruct (Z.eqb_spec b 0); try lia; simpl length; lia.
Qed.

Lemma count_full s : count s < Z.of_nat (length s) → ∃ k, s !! k = Some 0.
Proof.
  induction s as [|b s IH]; intros Hc; [unfold count in Hc; simpl in Hc; lia|].
  rewrite count_cons in Hc. destruct (Z.eqb_spec b 0) as [->|]; [by exists 0%nat|].
  destruct IH as [k Hk]; [simpl in Hc; lia|]. by exists (S k).
Qed.

Lemma header_not_ff s : length s = 8%nat → count s < 8 → header_bits 0 s ≠ 255.
Proof.
  intros Hl Hc Heq. destruct (count_full s) as [k Hk]; [lia|]. pose proof (lookup_lt_Some _ _ _ Hk).
  assert (Hb : Z.testbit (header_bits 0 s) (Z.of_nat k) = false).
  { rewrite header_bits_spec by lia. rewrite Z.sub_0_r, Nat2Z.id, Hk. by rewrite andb_false_r. }
  rewrite Heq in Hb. do 8 (destruct k as [|k]; [done|]). lia.
Qed.

(** ** Unpacking a stream *)

(** The destination from [off] on receives [d]. *)
Definition written (buf : list (option Z)) (off : Z) (d : list Z) (buf' : list (option Z)) : Prop :=
  length buf' = length buf ∧ take (Z.to_nat off + length d) buf' = take (Z.to_nat off) buf ++ (Some <$> d).

Lemma written_nil buf off : 0 <= off <= Z.of_nat (length buf) → written buf off [] buf.
Proof. split; [done|]. by rewrite Nat.add_0_r, app_nil_r. Qed.

Lemma written_app buf off d1 buf1 d2 buf2 :
  0 <= off → written buf off d1 buf1 → written buf1 (off + Z.of_nat (length d1)) d2 buf2 → written buf off (d1 ++ d2) buf2.
Proof.
  intros Ho [Hl1 Ht1] [Hl2 Ht2]. split; [congruence|]. rewrite length_app, fmap_app, app_assoc, <- Ht1.
  replace (Z.to_nat off + (length d1 + length d2))%nat with (Z.to_nat (off + Z.of_nat (length d1)) + length d2)%nat by lia.
  rewrite Ht2. do 2 f_equal. lia.
Qed.

Lemma arr_set_written buf off b :
  0 <= off < Z.of_nat (length buf) → ∃ buf', arr_set buf off (Some b) = Some buf' ∧ written buf off [b] buf'.
Proof.
  intros Ho. rewrite arr_set_some by done. eexists. split; [reflexivity|]. split; [apply length_insert|].
  simpl length. rewrite Nat.add_1_r, (take_S_r _ _ (Some b)) by (apply list_lookup_insert_eq; lia).
  f_equal. by rewrite take_insert_ge by lia.
Qed.

Lemma memcpy_written buf off src n :
  0 <= n <= Z.of_nat (length src) → 0 <= off → off + n <= Z.of_nat (length buf) →
  ∃ buf', memcpy buf off src n = Some buf' ∧ written buf off (take (Z.to_nat n) src) buf' ∧
    drop (Z.to_nat (off + n)) buf' = drop (Z.to_nat (off + n)) buf.
Proof.
  intros Hn Ho Hb. unfold memcpy. zcases. simpl. eexists. split; [reflexivity|].
  assert (Hlt : length (take (Z.to_nat off) buf) = Z.to_nat off) by (rewrite length_take; lia).
  assert (Hls : length (Some <$> take (Z.to_nat n) src) = Z.to_nat n) by (rewrite length_fmap, length_take; lia).
  split; [split|].
  - rewrite !length_app, Hlt, Hls, length_drop. lia.
  - rewrite app_assoc. apply take_app_length'. rewrite length_app, Hlt, Hls, length_take. lia.
  - rewrite app_assoc. apply drop_app_length'. rewrite length_app, Hlt, Hls. lia.
Qed.

Lemma land_1_testbit h i : 0 <= i → (Z.land (Z.shiftr h i) 1 =? 1) = Z.testbit h i.
Proof.
  intros Hi. rewrite Z.testbit_odd. change 1 with (2 ^ 1 - 1) at 1. rewrite land_ones_mod by lia.
  change (2 ^ 1) with 2. rewrite Zmod_odd. by destruct (Z.odd _).
Qed.

Lemma unpack_put_ok src srcsz buf off bufsz size b :
  0 < bufsz → 0 <= off → off + bufsz <= Z.of_nat (length buf) →
  ∃ buf', unpack_put (mk_unpack_state src srcsz buf off bufsz size) b =
      Some (mk_unpack_state src srcsz buf' (off + 1) (bufsz - 1) (size + 1)) ∧ written buf off [b] buf'.
Proof.
  intros Hb Ho Hl. unfold unpack_put. simpl. rewrite (proj2 (Z.ltb_lt 0 bufsz)) by lia.
  destruct (arr_set_written buf off b) as (buf' & -> & Hw); [lia|]. simpl. eauto.
Qed.

Lemma unpack_bits_ok l i header rest buf off bufsz size :
  0 <= i → (∀ k b, l !! k = Some b → Z.testbit header (i + Z.of_nat k) = negb (b =? 0)) →
  Z.of_nat (length l) <= bufsz → 0 <= off → off + bufsz <= Z.of_nat (length buf) →
  ∃ buf', unpack_bits (length l) i header
      (mk_unpack_state (filter nonzero l ++ rest) (Z.of_nat (length (filter nonzero l ++ rest))) buf off bufsz size) =
    Some (inl (mk_unpack_state rest (Z.of_nat (length rest)) buf' (off + Z.of_nat (length l))
                 (bufsz - Z.of_nat (length l)) (size + Z.of_nat (length l)))) ∧ written buf off l buf'.
Proof.
  revert i buf off bufsz size. induction l as [|b l IH]; intros i buf off bufsz size Hi Hh Hb Ho Hl.
  { exists buf. simpl. rewrite !Z.add_0_r, Z.sub_0_r. split; [done|]. apply written_nil. lia. }
  pose proof (Hh 0%nat b eq_refl) as H0. rewrite Z.add_0_r in H0.
  assert (Hh' : ∀ k c, l !! k = Some c → Z.testbit header (i + 1 + Z.of_nat k) = negb (c =? 0)).
  { intros k c Hk. rewrite <- (Hh (S k) c Hk). f_equal. lia. }
  cbn [length unpack_bits] in *. rewrite land_1_testbit, H0 by lia. unfold nonzero in *.
  destruct (Z.eqb_spec b 0) as [->|Hb0]; cbn [negb].
  - rewrite filter_cons_False by (intros []; done).
    destruct (unpack_put_ok (filter (λ b, b ≠ 0) l ++ rest) (Z.of_nat (length (filter (λ b, b ≠ 0) l ++ rest)))
      buf off bufsz size 0) as (buf1 & -> & Hw1); [lia..|]. cbn [mbind option_bind].
    destruct (IH (i + 1) buf1 (off + 1) (bufsz - 1) (size + 1)) as (buf' & He & Hw); try lia; auto.
    { destruct Hw1 as [-> _]. lia. }
    exists buf'. rewrite He, !Nat2Z.inj_succ. split; [do 3 f_equal; lia|]. apply (written_app _ _ [0] buf1); auto.
  - rewrite filter_cons_True by done. cbn [app length up_srcsz up_src].
    rewrite (proj2 (Z.ltb_ge (Z.of_nat (S (length (filter (λ b, b ≠ 0) l ++ rest)))) 0)) by lia.
    destruct (unpack_put_ok (b :: filter (λ b, b ≠ 0) l ++ rest) (Z.of_nat (S (length (filter (λ b, b ≠ 0) l ++ rest))))
      buf off bufsz size b) as (buf1 & -> & Hw1); [lia..|]. cbn [mbind option_bind up_buf up_off up_bufsz up_size].
    replace (Z.of_nat (S (length (filter (λ b, b ≠ 0) l ++ rest))) - 1)
      with (Z.of_nat (length (filter (λ b, b ≠ 0) l ++ rest))) by lia.
    destruct (IH (i + 1) buf1 (off + 1) (bufsz - 1) (size + 1)) as (buf' & He & Hw); try lia; auto.
    { destruct Hw1 as [-> _]. lia. }
    exists buf'. rewrite He, !Nat2Z.inj_succ. split; [do 3 f_equal; lia|]. apply (written_app _ _ [b] buf1); auto.
Qed.

Lemma unpack_loop_ok p d fuel buf off bufsz size :
  packs p d → (length p <= fuel)%nat → Z.of_nat (length d) <= bufsz → 0 <= off → off + bufsz <= Z.of_nat (length buf) →
  ∃ buf', unpack_loop fuel (mk_unpack_state p (Z.of_nat (length p)) buf off bufsz size) =
      Some (size + Z.of_nat (length d), buf') ∧ written buf off d buf'.
Proof.
  intros Hp. revert fuel buf off bufsz size.
  induction Hp as [|s p d Hs Hc _ IH|r m p d Hr Hm _ IH]; intros fuel buf off bufsz size Hf Hb Ho Hl.
  - exists buf. destruct fuel; simpl; rewrite Z.add_0_r; (split; [done|apply written_nil; lia]).
  - unfold seg_enc in *. cbn [app length] in Hf. destruct fuel as [|fuel]; [lia|]. rewrite length_app in Hb.
    cbn [app length unpack_loop up_srcsz up_src].
    rewrite (proj2 (Z.ltb_lt 0 _)) by lia. cbn [negb].
    rewrite (proj2 (Z.eqb_neq (header_bits 0 s) 255)) by (by apply header_not_ff).
    replace (Z.of_nat (S (length (filter nonzero s ++ p))) - 1) with (Z.of_nat (length (filter nonzero s ++ p))) by lia.
    cbn [up_buf up_off up_bufsz up_size]. rewrite <- Hs.
    destruct (unpack_bits_ok s 0 (header_bits 0 s) p buf off bufsz size) as (buf1 & -> & Hw1); try lia.
    { intros k b Hk. rewrite header_bits_spec by lia. replace (Z.to_nat (0 + Z.of_nat k - 0)) with k by lia.
      rewrite Hk. rewrite (proj2 (Z.leb_le 0 _)) by lia. done. }
    cbn [mbind option_bind]. rewrite length_app in Hf.
    destruct (IH fuel buf1 (off + Z.of_nat (length s)) (bufsz - Z.of_nat (length s)) (size + Z.of_nat (length s)))
      as (buf' & He & Hw); try lia. { destruct Hw1 as [-> _]. lia. }
    exists buf'. rewrite He, length_app. split; [do 2 f_equal; lia|]. by eapply written_app.
  - cbn [app length] in Hf. destruct fuel as [|fuel]; [lia|]. rewrite length_app in Hb, Hf.
    cbn [app length unpack_loop up_srcsz up_src]. rewrite (proj2 (Z.ltb_lt 0 _)) by lia. cbn [negb].
    change (255 =? 255) with true. cbv iota. rewrite length_app.
    rewrite (proj2 (Z.ltb_ge _ 0)) by lia. replace ((m - 1 + 1) * 8) with (Z.of_nat (length r)) by lia.
    rewrite (proj2 (Z.ltb_ge _ (Z.of_nat (length r) + 1))) by lia. cbn [up_buf up_off up_bufsz up_size].
    rewrite (proj2 (Z.leb_le (Z.of_nat (length r)) bufsz)) by lia.
    destruct (memcpy_written buf off (r ++ p) (Z.of_nat (length r))) as (buf1 & -> & Hw1 & _);
      [rewrite length_app; lia|lia|lia|]. cbn [mbind option_bind].
    rewrite Nat2Z.id, take_app_length, drop_app_length in *.
    replace (Z.of_nat (S (S (length r + length p))) - 1 - (Z.of_nat (length r) + 1)) with (Z.of_nat (length p)) by lia.
    destruct (IH fuel buf1 (off + Z.of_nat (length r)) (bufsz - Z.of_nat (length r)) (size + Z.of_nat (length r)))
      as (buf' & He & Hw); try lia. { destruct Hw1 as [-> _]. lia. }
    exists buf'. rewrite He, length_app. split; [do 2 f_equal; lia|]. by eapply written_app.
Qed.

Lemma unpack_ok p d :
  packs p d → sproto_unpack p (malloc (Z.of_nat (length d))) (Z.of_nat (length d)) = Some (Z.of_nat (length d), Some <$> d).
Proof.
  intros Hp. unfold sproto_unpack.
  destruct (unpack_loop_ok p d (length p) (malloc (Z.of_nat (length d))) 0 (Z.of_nat (length d)) 0)
    as (buf' & -> & Hl & Ht); auto; try lia.
  { unfold malloc. rewrite length_replicate. lia. }
  f_equal. f_equal. simpl in Ht. rewrite firstn_all2 in Ht; [done|].
  rewrite Hl. unfold malloc. rewrite length_replicate. lia.
Qed.

(** With a buffer that is too small nothing is written outside of it and the
    size is reported all the same. *)

Definition in_reach (buf : list (option Z)) (off bufsz : Z) : Prop := bufsz <= 0 ∨ off + bufsz <= Z.of_nat (length buf).

Lemma unpack_put_any src srcsz buf off bufsz size b : 0 <= off → in_reach buf off bufsz →
  ∃ buf' off' bufsz', unpack_put (mk_unpack_state src srcsz buf off bufsz size) b =
      Some (mk_unpack_state src srcsz buf' off' bufsz' (size + 1)) ∧
    length buf' = length buf ∧ 0 <= off' ∧ in_reach buf' off' bufsz'.
Proof.
  intros Ho Hr. unfold unpack_put. cbn. destruct (Z.ltb_spec 0 bufsz).
  - destruct (arr_set_written buf off b) as (buf' & -> & [Hl _]); [unfold in_reach in Hr; lia|]. cbn.
    do 3 eexists. split; [done|]. unfold in_reach in *. split_and!; [done|lia|lia].
  - do 3 eexists. split; [done|]. unfold in_reach in *. split_and!; [done|lia|lia].
Qed.

Lemma unpack_bits_any l i header rest buf off bufsz size :
  0 <= i → (∀ k b, l !! k = Some b → Z.testbit header (i + Z.of_nat k) = negb (b =? 0)) →
  0 <= off → in_reach buf off bufsz →
  ∃ buf' off' bufsz', unpack_bits (length l) i header
      (mk_unpack_state (filter nonzero l ++ rest) (Z.of_nat (length (filter nonzero l ++ rest))) buf off bufsz size) =
    Some (inl (mk_unpack_state rest (Z.of_nat (length rest)) buf' off' bufsz' (size + Z.of_nat (length l)))) ∧
    length buf' = length buf ∧ 0 <= off' ∧ in_reach buf' off' bufsz'.
Proof.
  revert i buf off bufsz size. induction l as [|b l IH]; intros i buf off bufsz size Hi Hh Ho Hr.
  { exists buf, off, bufsz. simpl. rewrite Z.add_0_r. done. }
  pose proof (Hh 0%nat b eq_refl) as H0. rewrite Z.add_0_r in H0.
  assert (Hh' : ∀ k c, l !! k = Some c → Z.testbit header (i + 1 + Z.of_nat k) = negb (c =? 0)).
  { intros k c Hk. rewrite <- (Hh (S k) c Hk). f_equal. lia. }
  cbn [length unpack_bits]. rewrite land_1_testbit, H0 by lia. unfold nonzero in *.
  destruct (Z.eqb_spec b 0) as [->|Hb0]; cbn [negb].
  - rewrite filter_cons_False by (intros []; done).
    destruct (unpack_put_any (filter (λ b, b ≠ 0) l ++ rest) (Z.of_nat (length (filter (λ b, b ≠ 0) l ++ rest)))
      buf off bufsz size 0 Ho Hr) as (buf1 & off1 & bz1 & -> & Hl1 & Ho1 & Hr1). cbn [mbind option_bind].
    destruct (IH (i + 1) buf1 off1 bz1 (size + 1)) as (buf' & off' & bz' & He & Hl' & Ho' & Hr'); try lia; auto.
    exists buf', off', bz'. rewrite He. split_and!; [do 3 f_equal; lia|congruence|done|done].
  - rewrite filter_cons_True by done. cbn [app length up_srcsz up_src].
    rewrite (proj2 (Z.ltb_ge (Z.of_nat (S (length (filter (λ b, b ≠ 0) l ++ rest)))) 0)) by lia.
    destruct (unpack_put_any (b :: filter (λ b, b ≠ 0) l ++ rest) (Z.of_nat (S (length (filter (λ b, b ≠ 0) l ++ rest))))
      buf off bufsz size b Ho Hr) as (buf1 & off1 & bz1 & -> & Hl1 & Ho1 & Hr1). cbn [mbind option_bind up_buf up_off up_bufsz up_size].
    replace (Z.of_nat (S (length (filter (λ b, b ≠ 0) l ++ rest))) - 1)
      with (Z.of_nat (length (filter (λ b, b ≠ 0) l ++ rest))) by lia.
    destruct (IH (i + 1) buf1 off1 bz1 (size + 1)) as (buf' & off' & bz' & He & Hl' & Ho' & Hr'); try lia; auto.
    exists buf', off', bz'. rewrite He. split_and!; [do 3 f_equal; lia|congruence|done|done].
Qed.

Lemma unpack_loop_any p d fuel buf off bufsz size :
  packs p d → (length p <= fuel)%nat → 0 <= off → in_reach buf off bufsz →
  ∃ buf', unpack_loop fuel (mk_unpack_state p (Z.of_nat (length p)) buf off bufsz size) =
      Some (size + Z.of_nat (length d), buf') ∧ length buf' = length buf.
Proof.
  intros Hp. revert fuel buf off bufsz size.
  induction Hp as [|s p d Hs Hc _ IH|r m p d Hr Hm _ IH]; intros fuel buf off bufsz size Hf Ho Hin.
  - exists buf. destruct fuel; simpl; by rewrite Z.add_0_r.
  - unfold seg_enc in *. cbn [app length] in Hf. destruct fuel as [|fuel]; [lia|].
    cbn [app length unpack_loop up_srcsz up_src].
    rewrite (proj2 (Z.ltb_lt 0 _)) by lia. cbn [negb].
    rewrite (proj2 (Z.eqb_neq (header_bits 0 s) 255)) by (by apply header_not_ff).
    replace (Z.of_nat (S (length (filter nonzero s ++ p))) - 1) with (Z.of_nat (length (filter nonzero s ++ p))) by lia.
    cbn [up_buf up_off up_bufsz up_size]. rewrite <- Hs.
    destruct (unpack_bits_any s 0 (header_bits 0 s) p buf off bufsz size) as (buf1 & off1 & bz1 & -> & Hl1 & Ho1 & Hr1); try done.
    { intros k b Hk. rewrite header_bits_spec by lia. replace (Z.to_nat (0 + Z.of_nat k - 0)) with k by lia.
      rewrite Hk. rewrite (proj2 (Z.leb_le 0 _)) by lia. done. }
    cbn [mbind option_bind]. rewrite length_app in Hf.
    destruct (IH fuel buf1 off1 bz1 (size + Z.of_nat (length s))) as (buf' & He & Hl'); try done; try lia.
    exists buf'. rewrite He, length_app. split; [do 2 f_equal; lia|congruence].
  - cbn [app length] in Hf. destruct fuel as [|fuel]; [lia|]. rewrite length_app in Hf.
    cbn [app length unpack_loop up_srcsz up_src]. rewrite (proj2 (Z.ltb_lt 0 _)) by lia. cbn [negb].
    change (255 =? 255) with true. cbv iota. rewrite length_app.
    rewrite (proj2 (Z.ltb_ge _ 0)) by lia. replace ((m - 1 + 1) * 8) with (Z.of_nat (length r)) by lia.
    rewrite (proj2 (Z.ltb_ge _ (Z.of_nat (length r) + 1))) by lia. cbn [up_buf up_off up_bufsz up_size].
    assert (Hcopy : ∃ buf1, (if Z.of_nat (length r) <=? bufsz then memcpy buf off (r ++ p) (Z.of_nat (length r)) else Some buf) = Some buf1 ∧
      length buf1 = length buf).
    { destruct (Z.leb_spec (Z.of_nat (length r)) bufsz); [|by exists buf].
      destruct (memcpy_written buf off (r ++ p) (Z.of_nat (length r))) as (buf1 & -> & [Hl _] & _);
        [rewrite length_app; lia|lia|unfold in_reach in Hin; lia|]. by exists buf1. }
    destruct Hcopy as (buf1 & -> & Hl1). cbn [mbind option_bind]. rewrite Nat2Z.id, drop_app_length.
    replace (Z.of_nat (S (S (length r + length p))) - 1 - (Z.of_nat (length r) + 1)) with (Z.of_nat (length p)) by lia.
    destruct (IH fuel buf1 (off + Z.of_nat (length r)) (bufsz - Z.of_nat (length r)) (size + Z.of_nat (length r)))
      as (buf' & He & Hl'); try lia. { unfold in_reach in *. lia. }
    exists buf'. rewrite He, length_app. split; [do 2 f_equal; lia|congruence].
Qed.

(** ** Packing produces the format *)

Lemma written_take buf off d buf' :
  written buf off d buf' → 0 <= off <= Z.of_nat (length buf) → take (Z.to_nat off) buf' = take (Z.to_nat off) buf.
Proof.
  intros [Hl Ht] Ho. apply (f_equal (take (Z.to_nat off))) in Ht. rewrite take_take in Ht.
  replace (Z.to_nat off `min` (Z.to_nat off + length d))%nat with (Z.to_nat off) in Ht by lia.
  rewrite Ht. apply take_app_length'. rewrite length_take. lia.
Qed.

(** A byte put in front of what was written. *)
Lemma written_front buf off h d buf1 :
  0 <= off < Z.of_nat (length buf) → written buf (off + 1) d buf1 →
  ∃ buf2, arr_set buf1 off (Some h) = Some buf2 ∧ written buf off (h :: d) buf2.
Proof.
  intros Ho [Hl Ht]. rewrite arr_set_some by lia. eexists. split; [reflexivity|].
  split; [by rewrite length_insert|]. simpl length.
  rewrite take_insert_lt by lia.
  replace (Z.to_nat off + S (length d))%nat with (Z.to_nat (off + 1) + length d)%nat by lia. rewrite Ht.
  destruct (lookup_lt_is_Some_2 buf (Z.to_nat off)) as [x Hx]; [lia|].
  replace (Z.to_nat (off + 1)) with (S (Z.to_nat off)) by lia.
  rewrite (take_S_r _ _ x) by done. rewrite <- app_assoc, insert_app_r_alt by (rewrite length_take; lia).
  replace (Z.to_nat off - length (take (Z.to_nat off) buf))%nat with 0%nat by (rewrite length_take; lia). done.
Qed.

Lemma seg_loop_ok l i pos sz header nz buf :
  0 <= pos → pos + Z.max 0 sz <= Z.of_nat (length buf) ∨ sz < 0 →
  ∃ buf', seg_loop l i pos sz header nz buf = Some (Z.lor header (header_bits i l), nz + count l, buf') ∧
    length buf' = length buf ∧ take (Z.to_nat pos) buf' = take (Z.to_nat pos) buf ∧
    (count l <= sz → written buf pos (filter nonzero l) buf').
Proof.
  revert i pos sz header nz buf. induction l as [|b l IH]; intros i pos sz header nz buf Hp Hs; cbn [seg_loop header_bits].
  { exists buf. rewrite Z.lor_0_r. change (count []) with 0. rewrite Z.add_0_r. split_and!; auto.
    intros. destruct Hs; [|lia]. apply written_nil. lia. }
  rewrite count_cons, filter_cons. unfold nonzero at 1. destruct (Z.eqb_spec b 0) as [->|Hb]; cbn [negb].
  - rewrite decide_False by (intros []; done). rewrite Z.lor_0_l. apply IH; auto.
  - rewrite decide_True by done. rewrite Z.lor_assoc. destruct (Z.ltb_spec 0 sz).
    + destruct (arr_set_written buf pos b) as (buf1 & -> & Hw); [lia|]. cbn [mbind option_bind].
      pose proof Hw as [Hl1 _]. pose proof (written_take _ _ _ _ Hw ltac:(lia)) as Ht1.
      destruct (IH (i + 1) (pos + 1) (sz - 1) (Z.lor header (Z.shiftl 1 i)) (nz + 1) buf1) as (buf' & He & Hl & Ht & Hw');
        [lia|rewrite Hl1; lia|].
      exists buf'. rewrite He. split_and!; [by rewrite Z.add_assoc|congruence| |].
      * apply (f_equal (take (Z.to_nat pos))) in Ht. rewrite !take_take in Ht.
        rewrite Nat.min_l in Ht by lia. congruence.
      * intros. apply (written_app _ _ [b] buf1); auto. apply Hw'. lia.
    + destruct (IH (i + 1) pos sz (Z.lor header (Z.shiftl 1 i)) (nz + 1) buf) as (buf' & He & Hl & Ht & _); auto.
      exists buf'. rewrite He, Z.add_assoc. split_and!; auto. pose proof (count_le l). lia.
Qed.

(** A group with [c] bytes not zero starts or joins a run of [ff] groups. *)
Definition seg_joins (c ff : Z) : bool := (c =? 8) || ((c =? 7) || (c =? 6)) && (0 <? ff).

(** The number [pack_seg] returns. *)
Definition seg_size (c ff : Z) : Z := if seg_joins c ff then if 0 <? ff then 8 else 10 else c + 1.

Lemma pack_seg_ok seg buf off sz ff :
  length seg = 8%nat → 0 <= off → off + sz <= Z.of_nat (length buf) → 0 <= sz → 
  ∃ buf', pack_seg seg buf off sz ff = Some (seg_size (count seg) ff, buf') ∧
    length buf' = length buf ∧ take (Z.to_nat off) buf' = take (Z.to_nat off) buf ∧
    (seg_joins (count seg) ff = false → count seg + 1 <= sz → written buf off (seg_enc seg) buf').
Proof.
  intros H8 Ho Hs Hsz. unfold pack_seg.
  destruct (seg_loop_ok seg 0 (off + 1) (sz - 1) 0 0 buf) as (buf1 & -> & Hl & Ht & Hw); [lia|lia|].
  cbn [mbind option_bind]. rewrite Z.lor_0_l, Z.add_0_l.
  assert (Ht' : take (Z.to_nat off) buf1 = take (Z.to_nat off) buf).
  { apply (f_equal (take (Z.to_nat off))) in Ht. rewrite !take_take, Nat.min_l in Ht by lia. done. }
  unfold seg_size, seg_joins. pose proof (count_le seg).
  destruct (((count seg =? 7) || (count seg =? 6)) && (0 <? ff)) eqn:Hj.
  { exists buf1. rewrite orb_true_r. split_and!; done. }
  rewrite orb_false_r. destruct (Z.eqb_spec (count seg) 8) as [Hc|Hc]; [by exists buf1|].
  destruct (Z.leb_spec 0 (sz - 1)); cbn [mbind option_bind].
  - destruct (decide (count seg <= sz - 1)).
    + destruct (written_front buf off (header_bits 0 seg) (filter nonzero seg) buf1) as (buf2 & -> & Hw2); [lia|auto|].
      pose proof (written_take _ _ _ _ Hw2 ltac:(lia)). cbn [mbind option_bind]. exists buf2.
      split_and!; auto. by destruct Hw2.
    + rewrite arr_set_some by lia. cbn [mbind option_bind]. eexists. split; [done|].
      rewrite length_insert, take_insert_ge by lia. split_and!; auto. lia.
  - exists buf1. split_and!; auto. lia.
Qed.

Lemma write_ff_ok b m buf des :
  1 <= m <= 256 → 8 * (m - 1) < Z.of_nat (length b) <= 8 * m → 0 <= des → des + 2 + 8 * m <= Z.of_nat (length buf) →
  ∃ buf', write_ff b buf des = Some buf' ∧
    written buf des (255 :: (m - 1) :: b ++ replicate (Z.to_nat (8 * m) - length b) 0) buf' ∧
    drop (Z.to_nat (des + 2 + 8 * m)) buf' = drop (Z.to_nat (des + 2 + 8 * m)) buf.
Proof.
  intros Hm Hb Hd Hl. unfold write_ff.
  assert (Ha : Z.land (Z.of_nat (length b) + 7) (-8) = 8 * m).
  { change (-8) with (Z.lnot (Z.ones 3)). rewrite <- Z.ldiff_land, Z.ldiff_ones_r, Z.shiftr_div_pow2, Z.shiftl_mul_pow2 by lia.
    change (2 ^ 3) with 8. replace ((Z.of_nat (length b) + 7) / 8) with m; [lia|]. dlia. }
  rewrite Ha. replace (8 * m / 8 - 1) with (m - 1) by dlia.
  replace (u8 (m - 1)) with (m - 1) by (unfold u8; rewrite Z.mod_small; lia).
  set (pb := b ++ _). assert (Hlp : length pb = Z.to_nat (8 * m)).
  { unfold pb. rewrite length_app, length_replicate. lia. }
  destruct (memcpy_written buf des ([255; m - 1] ++ pb) (2 + 8 * m)) as (buf' & He & Hw & Hdr);
    [rewrite length_app, Hlp; simpl; lia|lia|lia|].
  rewrite He. exists buf'. split; [done|]. rewrite firstn_all2 in Hw by (rewrite length_app, Hlp; simpl; lia).
  split.
  - replace (b ++ replicate (Z.to_nat (8 * m) - length b) 0) with pb; [done|]. unfold pb. do 2 f_equal. lia.
  - by replace (des + 2 + 8 * m) with (des + (2 + 8 * m)) by lia.
Qed.

(** The message padded with zeros to whole groups. *)
Definition padded (src : list Z) : list Z := src ++ replicate (Z.to_nat ((- Z.of_nat (length src)) mod 8)) 0.

Lemma padded_length src : Z.of_nat (length (padded src)) = 8 * ((Z.of_nat (length src) + 7) / 8).
Proof. unfold padded. rewrite length_app, length_replicate. dlia. Qed.

(** [holds buf n d]: the first [n] bytes of the buffer stand for [d]. *)
Definition holds (buf : list (option Z)) (n : Z) (d : list Z) : Prop :=
  ∃ out, take (Z.to_nat n) buf = Some <$> out ∧ Z.of_nat (length out) = n ∧ packs out d.

Lemma holds_take buf buf' n k d :
  take (Z.to_nat k) buf' = take (Z.to_nat k) buf → 0 <= n <= k → holds buf n d → holds buf' n d.
Proof.
  intros Ht Hk (out & Ho & Hl & Hp). exists out. split_and!; auto. rewrite <- Ho.
  apply (f_equal (take (Z.to_nat n))) in Ht. by rewrite !take_take, !Nat.min_l in Ht by lia.
Qed.

Lemma holds_written buf n d p e buf' :
  0 <= n → holds buf n d → written buf n p buf' → packs p e → holds buf' (n + Z.of_nat (length p)) (d ++ e).
Proof.
  intros Hn (out & Ho & Hl & Hp) [Hl' Ht] He. exists (out ++ p).
  replace (Z.to_nat (n + Z.of_nat (length p))) with (Z.to_nat n + length p)%nat by lia.
  rewrite Ht, Ho, fmap_app, length_app. split_and!; [done|lia|by apply packs_app].
Qed.

(** What was written at [n] stays when the bytes before [n] change. *)
Lemma written_move buf buf1 buf2 n p :
  0 <= n <= Z.of_nat (length buf) → written buf n p buf1 → length buf2 = length buf1 →
  drop (Z.to_nat n) buf2 = drop (Z.to_nat n) buf1 → written buf2 n p buf2.
Proof.
  intros Hn [Hl Ht] Hl2 Hd. split; [done|]. rewrite <- take_take_drop. f_equal. rewrite Hd.
  rewrite take_drop_commute, Ht. apply drop_app_length'. rewrite length_take. lia.
Qed.

(** [m] groups of eight from group [a] on. *)
Definition groups (src : list Z) (a m : Z) : list Z := take (Z.to_nat (8 * m)) (drop (Z.to_nat (8 * a)) (padded src)).

(** The messages that are packed as they should be: of whole groups, or with a
    group of less than six bytes that are not zero among the last 256 (or with
    less than 256 groups).  Any other message ends with 255 full groups, of which
    each may join a run, and one that is cut; where these are one run, its last
    group is read behind the message. *)
Definition packable (src : list Z) : bool :=
  let n := Z.of_nat (length src) in
  (n mod 8 =? 0) || existsb (λ k, (k <? 0) || (count (groups src k 1) <? 6)) (seqZ (n / 8 - 255) 256).

Section pack.
Context (src : list Z) (B : Z).
Notation sz := (Z.of_nat (length src)).
Notation groups := (groups src).
Context (HB : pack_maxsz sz <= B) (Htail : packable src = true).

Definition upto (c : Z) : list Z := take (Z.to_nat (8 * c)) (padded src).

Lemma upto_groups a m : 0 <= a → 0 <= m → upto (a + m) = upto a ++ groups a m.
Proof. intros. unfold upto, SprotoPack.groups. rewrite take_take_drop. f_equal. lia. Qed.

Lemma groups_length a m : 0 <= a → 0 <= m → 8 * (a + m - 1) < sz → Z.of_nat (length (groups a m)) = 8 * m.
Proof.
  intros. unfold SprotoPack.groups. rewrite length_take, length_drop. pose proof (padded_length src). dlia.
Qed.

Lemma groups_src a n : 0 <= a → 0 <= n → 8 * a + n <= sz →
  take (Z.to_nat n) (drop (Z.to_nat (8 * a)) src) = take (Z.to_nat n) (drop (Z.to_nat (8 * a)) (padded src)).
Proof.
  intros. unfold padded. rewrite drop_app_le by lia. rewrite take_app_le by (rewrite length_drop; lia). done.
Qed.

Lemma ff_bytes_groups a m : 0 <= a → 0 <= m → 8 * (a + m) <= sz →
  ff_bytes src (FF_at (8 * a)) (8 * m) = Some (groups a m).
Proof.
  intros. unfold ff_bytes. rewrite (proj2 (Z.leb_le _ _)) by lia. f_equal. apply groups_src; lia.
Qed.

(** The last groups, padded by [write_ff]. *)
Lemma groups_tail a m : 0 <= a → 1 <= m → 8 * (a + m - 1) < sz <= 8 * (a + m) →
  groups a m = drop (Z.to_nat (8 * a)) src ++ replicate (Z.to_nat (8 * m) - length (drop (Z.to_nat (8 * a)) src)) 0.
Proof.
  intros. unfold SprotoPack.groups. pose proof (padded_length src). rewrite firstn_all2 by (rewrite length_drop; dlia).
  unfold padded. rewrite drop_app_le by lia. f_equal. f_equal. rewrite length_drop. dlia.
Qed.

Lemma step_group c : 0 <= c → 8 * c < sz →
  (if 0 <? 8 * c + 8 - sz
   then let tmp := drop (Z.to_nat (8 * c)) src ++ replicate (Z.to_nat (8 * c + 8 - sz)) 0 in (tmp, FF_tmp tmp)
   else (take 8 (drop (Z.to_nat (8 * c)) src), FF_at (8 * c))) =
  (groups c 1, if 0 <? 8 * c + 8 - sz then FF_tmp (groups c 1) else FF_at (8 * c)).
Proof.
  intros. destruct (Z.ltb_spec 0 (8 * c + 8 - sz)).
  - assert (drop (Z.to_nat (8 * c)) src ++ replicate (Z.to_nat (8 * c + 8 - sz)) 0 = groups c 1) as ->; [|done].
    rewrite groups_tail by lia. do 2 f_equal. rewrite length_drop. lia.
  - f_equal. unfold SprotoPack.groups. change 8%nat with (Z.to_nat (8 * 1)). apply groups_src; lia.
Qed.

Lemma count_app l1 l2 : count (l1 ++ l2) = count l1 + count l2.
Proof. unfold count. rewrite filter_app, length_app. lia. Qed.

(** A padded group has as many bytes not zero as it has bytes of the source. *)
Lemma count_group c : 0 <= c → 8 * c < sz → count (groups c 1) <= Z.min 8 (sz - 8 * c).
Proof.
  intros. pose proof (count_le (groups c 1)) as Hc. rewrite groups_length in Hc by lia.
  destruct (decide (8 * c + 8 <= sz)); [lia|]. rewrite groups_tail, count_app by lia.
  assert (Hz : ∀ k, count (replicate k 0) = 0).
  { induction k as [|k IH]; [done|]. simpl replicate. rewrite count_cons, IH. done. }
  rewrite Hz. pose proof (count_le (drop (Z.to_nat (8 * c)) src)) as Hd. rewrite length_drop in Hd.
  rewrite groups_tail, count_app, Hz in Hc by lia. lia.
Qed.

(** A run of [m] groups from [a] written after the groups before it. *)
Lemma run_written buf base b a m :
  0 <= a → 1 <= m <= 256 → 8 * (a + m - 1) < sz → 0 <= base → base + 2 + 8 * m <= Z.of_nat (length buf) →
  8 * (m - 1) < Z.of_nat (length b) <= 8 * m → b ++ replicate (Z.to_nat (8 * m) - length b) 0 = groups a m →
  holds buf base (upto a) →
  ∃ buf', write_ff b buf base = Some buf' ∧ length buf' = length buf ∧
    drop (Z.to_nat (base + 2 + 8 * m)) buf' = drop (Z.to_nat (base + 2 + 8 * m)) buf ∧
    holds buf' (base + 2 + 8 * m) (upto (a + m)).
Proof.
  intros Ha Hm Hs Hb0 Hbuf Hb Hg Hh. destruct (write_ff_ok b m buf base) as (buf' & He & Hw & Hd); [lia..|].
  rewrite Hg in Hw. exists buf'. split_and!; auto; [by destruct Hw|].
  pose proof (groups_length a m ltac:(lia) ltac:(lia) ltac:(lia)) as Hl.
  pose proof (holds_written _ _ _ _ _ _ Hb0 Hh Hw (packs_run (groups a m) m ltac:(lia) ltac:(lia))) as Hr.
  rewrite upto_groups by lia. simpl length in Hr.
  replace (base + 2 + 8 * m) with (base + Z.of_nat (S (S (length (groups a m))))) by lia. done.
Qed.

Lemma run_full buf base a m :
  0 <= a → 1 <= m <= 256 → 8 * (a + m) <= sz → 0 <= base → base + 2 + 8 * m <= Z.of_nat (length buf) →
  holds buf base (upto a) →
  ∃ buf', write_ff (groups a m) buf base = Some buf' ∧ length buf' = length buf ∧
    drop (Z.to_nat (base + 2 + 8 * m)) buf' = drop (Z.to_nat (base + 2 + 8 * m)) buf ∧
    holds buf' (base + 2 + 8 * m) (upto (a + m)).
Proof.
  intros. pose proof (groups_length a m ltac:(lia) ltac:(lia) ltac:(lia)) as Hl.
  apply run_written; auto; try lia. replace (Z.to_nat (8 * m) - length (groups a m))%nat with 0%nat by lia. apply app_nil_r.
Qed.

(** The destination's position before the pending run. *)
Definition base (s : pack_state) : Z := pk_off s - (if 0 <? pk_ff_n s then 2 + 8 * pk_ff_n s else 0).

(** The state after [c] groups, the last [pk_ff_n] of them pending. *)
Record pinv (c : Z) (s : pack_state) : Prop := {
  pi_len : B <= Z.of_nat (length (pk_buf s));
  pi_bufsz : pk_bufsz s = B - pk_off s;
  pi_size : pk_size s = pk_off s;
  pi_ff : 0 <= pk_ff_n s < 256 ∧ pk_ff_n s <= c;
  pi_base : 0 <= base s;
  pi_max : pk_off s <= pack_maxsz sz;
  pi_off : 8 * c <= sz → pk_off s <= 8 * c + 2 * ((c - pk_ff_n s) / 256) + (if 0 <? pk_ff_n s then 2 else 0);
  pi_run : 0 < pk_ff_n s →
    pk_ff_src s = FF_at (8 * (c - pk_ff_n s)) ∧ 8 * (c - pk_ff_n s) + 8 <= sz ∧ pk_ff_des s = base s;
  pi_joined : ∀ k, c - pk_ff_n s <= k < c → 6 <= count (groups k 1);
  pi_out : holds (pk_buf s) (base s) (upto (c - pk_ff_n s))
}.

(** The sizes stay below the bound. *)
Lemma size_bound c ff off k :
  0 <= c → 0 <= ff <= c → 8 * c < sz → 0 <= k <= Z.min 8 (sz - 8 * c) →
  off <= 8 * c + 2 * ((c - ff) / 256) + (if 0 <? ff then 2 else 0) →
  off + seg_size k ff <= pack_maxsz sz ∧
  (8 * (c + 1) <= sz → off + seg_size k ff <=
    if seg_joins k ff
    then 8 * (c + 1) + 2 * ((c - ff) / 256) + 2
    else 8 * (c + 1) + 2 * ((c - ff) / 256)).
Proof.
  intros Hc Hff Hs Hk Ho. unfold pack_maxsz, seg_size.
  assert (0 <= (c - ff) / 256) by (apply Z.div_pos; lia).
  assert ((c - ff) / 256 + 1 <= (sz + 2047) / 2048) by dlia.
  unfold seg_joins. destruct (Z.ltb_spec 0 ff); rewrite ?andb_true_r, ?andb_false_r;
    destruct (Z.eqb_spec k 8), (Z.eqb_spec k 7), (Z.eqb_spec k 6); cbn [orb]; lia.
Qed.

Lemma flush_ok c s bufsz m buf :
  pinv c s → 0 < pk_ff_n s → 0 <= bufsz → length buf = length (pk_buf s) →
  take (Z.to_nat (pk_off s)) buf = take (Z.to_nat (pk_off s)) (pk_buf s) →
  (m = pk_ff_n s ∨ m = pk_ff_n s + 1) → m <= 256 → 8 * (c - pk_ff_n s + m) <= sz → base s + 2 + 8 * m <= B →
  ∃ buf', flush_ff src s bufsz (m * 8) buf = Some buf' ∧ length buf' = length (pk_buf s) ∧
    drop (Z.to_nat (base s + 2 + 8 * m)) buf' = drop (Z.to_nat (base s + 2 + 8 * m)) buf ∧
    holds buf' (base s + 2 + 8 * m) (upto (c - pk_ff_n s + m)).
Proof.
  intros Hi Hff Hbs Hl Ht Hm Hm' Hs HBm. destruct (pi_run _ _ Hi Hff) as (Hsrc & _ & Hdes).
  pose proof (pi_ff _ _ Hi). pose proof (pi_base _ _ Hi). pose proof (pi_len _ _ Hi).
  unfold flush_ff. rewrite (proj2 (Z.leb_le 0 bufsz)), Hsrc, Hdes by lia. rewrite (Z.mul_comm m 8), ff_bytes_groups by lia.
  cbn [mbind option_bind]. rewrite <- Hl.
  apply run_full; try lia. eapply holds_take; [exact Ht| |apply Hi]. unfold base in *. zcases; lia.
Qed.

Lemma off_pos c s : pinv c s → 0 <= base s <= pk_off s.
Proof. intros Hi. pose proof (pi_base _ _ Hi). pose proof (pi_ff _ _ Hi). unfold base in *. destruct (0 <? pk_ff_n s); lia. Qed.

(** The cases of a step: a group starts a run, ... *)
Lemma step_start c s buf :
  pinv c s → 0 <= c → pk_ff_n s = 0 → 8 * (c + 1) <= sz → pk_off s + 10 <= pack_maxsz sz →
  length buf = length (pk_buf s) → take (Z.to_nat (pk_off s)) buf = take (Z.to_nat (pk_off s)) (pk_buf s) →
  pk_off s + 10 <= 8 * (c + 1) + 2 * (c / 256) + 2 → 6 <= count (groups c 1) →
  pinv (c + 1) (mk_pack_state buf (pk_off s + 10) (pk_bufsz s - 10) (pk_size s + 10) 1 (FF_at (8 * c)) (pk_off s)).
Proof.
  intros Hi Hc Hff Hs Hm Hl Ht Hb Hcount. pose proof (off_pos _ _ Hi). destruct Hi as [Hlen Hbz Hsz _ _ _ _ _ _ Hout].
  assert (Hbase : base s = pk_off s) by (unfold base; rewrite Hff; simpl; lia).
  split; unfold base; cbn [pk_buf pk_off pk_bufsz pk_size pk_ff_n pk_ff_src pk_ff_des]; change (0 <? 1) with true;
    cbv iota; replace (c + 1 - 1) with c by lia; try lia.
  - intros _. split_and!; auto; lia.
  - intros k Hk. by replace k with c by lia.
  - replace (pk_off s + 10 - (2 + 8 * 1)) with (pk_off s) by lia. rewrite Hff, Z.sub_0_r, Hbase in Hout.
    eapply holds_take; [exact Ht|lia|done].
Qed.

(** ... joins it, ... *)
Lemma step_join c s buf :
  pinv c s → 0 <= c → 0 < pk_ff_n s < 255 → 6 <= count (groups c 1) → pk_off s + 8 <= pack_maxsz sz →
  length buf = length (pk_buf s) → take (Z.to_nat (pk_off s)) buf = take (Z.to_nat (pk_off s)) (pk_buf s) →
  pinv (c + 1) (mk_pack_state buf (pk_off s + 8) (pk_bufsz s - 8) (pk_size s + 8) (pk_ff_n s + 1) (pk_ff_src s) (pk_ff_des s)).
Proof.
  intros Hi Hc Hff Hcount Hm Hl Ht. pose proof (off_pos _ _ Hi) as Hop. destruct Hi as [Hlen Hbz Hsz Hf Hb0 _ Hoff Hrun Hjo Hout].
  assert (Hbase : base s = pk_off s - (2 + 8 * pk_ff_n s)) by (unfold base; rewrite (proj2 (Z.ltb_lt 0 (pk_ff_n s))); lia).
  split; unfold base; cbn [pk_buf pk_off pk_bufsz pk_size pk_ff_n pk_ff_src pk_ff_des];
    rewrite ?(proj2 (Z.ltb_lt 0 (pk_ff_n s + 1))) by lia;
    replace (c + 1 - (pk_ff_n s + 1)) with (c - pk_ff_n s) by lia; try lia.
  - rewrite (proj2 (Z.ltb_lt 0 (pk_ff_n s))) in Hoff by lia. intros. specialize (Hoff ltac:(lia)). lia.
  - intros _. destruct Hrun as (? & ? & Hd); [lia|]. rewrite Hd, Hbase. split_and!; auto; lia.
  - intros k Hk. destruct (decide (k = c)) as [->|]; [done|]. apply Hjo. lia.
  - replace (pk_off s + 8 - (2 + 8 * (pk_ff_n s + 1))) with (base s) by lia. eapply holds_take; [exact Ht|lia|done].
Qed.

(** ... or leaves no run pending. *)
Lemma step_clear c s buf n fs fd :
  pinv c s → 0 <= c → 0 <= n → pk_off s + n <= pack_maxsz sz → length buf = length (pk_buf s) →
  (8 * (c + 1) <= sz → pk_off s + n <= 8 * (c + 1) + 2 * ((c + 1) / 256)) →
  holds buf (pk_off s + n) (upto (c + 1)) →
  pinv (c + 1) (mk_pack_state buf (pk_off s + n) (pk_bufsz s - n) (pk_size s + n) 0 fs fd).
Proof.
  intros Hi Hc Hn Hm Hl Hb Hh. pose proof (off_pos _ _ Hi). destruct Hi as [Hlen Hbz Hsz _ _ _ _ _ _ _].
  split; unfold base; cbn [pk_buf pk_off pk_bufsz pk_size pk_ff_n pk_ff_src pk_ff_des];
    change (0 <? 0) with false; cbv iota; rewrite ?Z.sub_0_r, ?Z.add_0_r; auto; lia.
Qed.

Lemma div256_mono a b : a <= b → a / 256 <= b / 256.
Proof. intros. apply Z.div_le_mono; lia. Qed.

(** The message does not end within a run that becomes full. *)
Lemma tail_whole c : 8 * c < sz → 255 <= c → (∀ k, c - 255 <= k <= c → 6 <= count (groups k 1)) → 8 * (c + 1) <= sz.
Proof.
  intros Hs Hc Hall. destruct (decide (8 * (c + 1) <= sz)) as [|Hlt]; [done|exfalso]. assert (Hdiv : sz / 8 = c) by dlia.
  pose proof Htail as Ht. unfold packable in Ht. apply orb_true_iff in Ht as [Ht|Ht]; [apply Z.eqb_eq in Ht; dlia|].
  apply existsb_exists in Ht as (k & Hk & Hor). apply list_elem_of_In, elem_of_seqZ in Hk. rewrite Hdiv in Hk.
  specialize (Hall k ltac:(lia)). bool_to_prop. destruct Hor; bool_to_prop; lia.
Qed.

Lemma step_full c s buf :
  pinv c s → 0 <= c → pk_ff_n s = 255 → 6 <= count (groups c 1) → 8 * c < sz → pk_off s + 8 <= pack_maxsz sz →
  length buf = length (pk_buf s) → take (Z.to_nat (pk_off s)) buf = take (Z.to_nat (pk_off s)) (pk_buf s) →
  (8 * (c + 1) <= sz → pk_off s + 8 <= 8 * (c + 1) + 2 * ((c - 255) / 256) + 2) →
  ∃ buf', flush_ff src s (pk_bufsz s - 8) (256 * 8) buf = Some buf' ∧
    pinv (c + 1) (mk_pack_state buf' (pk_off s + 8) (pk_bufsz s - 8) (pk_size s + 8) 0 (pk_ff_src s) (pk_ff_des s)).
Proof.
  intros Hi Hc Hff Hcount Hs Hm Hl Ht Hb. pose proof (off_pos _ _ Hi). pose proof (pi_ff _ _ Hi). pose proof (pi_bufsz _ _ Hi).
  assert (Hbase : base s = pk_off s - 2 - 8 * 255) by (unfold base; rewrite Hff; simpl; lia).
  assert (8 * (c + 1) <= sz).
  { apply (tail_whole c); [done|lia|]. intros k Hk. destruct (decide (k = c)) as [->|]; [done|]. apply (pi_joined _ _ Hi). lia. }
  destruct (flush_ok c s (pk_bufsz s - 8) 256 buf) as (buf' & He & Hl' & _ & Hh); auto; try lia.
  exists buf'. split; [exact He|]. apply step_clear; auto; try lia.
  - intros. replace (c + 1) with (c - 255 + 1 * 256) by lia.
    rewrite Z.div_add by lia. lia.
  - rewrite Hff in Hh. replace (c - 255 + 256) with (c + 1) in Hh by lia. by replace (pk_off s + 8) with (base s + 2 + 8 * 256) by lia.
Qed.

Lemma step_flush c s buf n :
  pinv c s → 0 <= c → 0 < pk_ff_n s → 8 * c < sz → n = count (groups c 1) + 1 → pk_off s + n <= pack_maxsz sz →
  written (pk_buf s) (pk_off s) (seg_enc (groups c 1)) buf → count (groups c 1) < 8 →
  (8 * (c + 1) <= sz → pk_off s + n <= 8 * (c + 1) + 2 * ((c - pk_ff_n s) / 256)) →
  ∃ buf', flush_ff src s (pk_bufsz s - n) (pk_ff_n s * 8) buf = Some buf' ∧
    pinv (c + 1) (mk_pack_state buf' (pk_off s + n) (pk_bufsz s - n) (pk_size s + n) 0 (pk_ff_src s) (pk_ff_des s)).
Proof.
  intros Hi Hc Hff Hs Hn Hm Hw Hc8 Hb. pose proof (off_pos _ _ Hi). pose proof (pi_ff _ _ Hi). pose proof (pi_bufsz _ _ Hi).
  pose proof (pi_len _ _ Hi). pose proof (count_le (groups c 1)).
  assert (Hbase : base s + 2 + 8 * pk_ff_n s = pk_off s) by (unfold base; rewrite (proj2 (Z.ltb_lt 0 (pk_ff_n s))); lia).
  pose proof (written_take _ _ _ _ Hw ltac:(lia)) as Ht. pose proof Hw as [Hl _].
  destruct (flush_ok c s (pk_bufsz s - n) (pk_ff_n s) buf) as (buf' & He & Hl' & Hd & Hh); auto; try lia.
  exists buf'. split; [exact He|]. rewrite Hbase in Hd, Hh. apply step_clear; auto; try lia.
  - intros. pose proof (div256_mono (c - pk_ff_n s) (c + 1) ltac:(lia)). lia.
  - rewrite upto_groups by lia. replace n with (Z.of_nat (length (seg_enc (groups c 1)))).
    + replace (c - pk_ff_n s + pk_ff_n s) with c in Hh by lia. eapply holds_written; [lia|exact Hh| |].
      * eapply written_move; [|exact Hw| |exact Hd]; [lia|congruence].
      * apply packs_one; [|done]. pose proof (groups_length c 1). lia.
    + unfold seg_enc, count in *. simpl length. lia.
Qed.

Lemma step_plain c s buf n fs fd :
  pinv c s → 0 <= c → pk_ff_n s = 0 → 8 * c < sz → n = count (groups c 1) + 1 → pk_off s + n <= pack_maxsz sz →
  written (pk_buf s) (pk_off s) (seg_enc (groups c 1)) buf → count (groups c 1) < 8 →
  (8 * (c + 1) <= sz → pk_off s + n <= 8 * (c + 1) + 2 * (c / 256)) →
  pinv (c + 1) (mk_pack_state buf (pk_off s + n) (pk_bufsz s - n) (pk_size s + n) 0 fs fd).
Proof.
  intros Hi Hc Hff Hs Hn Hm Hw Hc8 Hb. pose proof (off_pos _ _ Hi). pose proof (count_le (groups c 1)). pose proof Hw as [Hl _].
  assert (Hbase : base s = pk_off s) by (unfold base; rewrite Hff; simpl; lia).
  pose proof (pi_out _ _ Hi) as Hh. rewrite Hbase, Hff, Z.sub_0_r in Hh.
  apply step_clear; auto; try lia.
  - intros. pose proof (div256_mono c (c + 1) ltac:(lia)). lia.
  - rewrite upto_groups by lia. replace n with (Z.of_nat (length (seg_enc (groups c 1)))).
    + eapply holds_written; [lia|exact Hh|exact Hw|]. apply packs_one; [|done]. pose proof (groups_length c 1). lia.
    + unfold seg_enc, count in *. simpl length. lia.
Qed.

Lemma joins_false k ff : 0 <= k <= 8 → seg_joins k ff = false → k < 8 ∧ (0 < ff → k < 6).
Proof.
  unfold seg_joins. intros Hk Hj. destruct (Z.ltb_spec 0 ff); rewrite ?andb_true_r, ?andb_false_r in Hj;
    destruct (Z.eqb_spec k 8), (Z.eqb_spec k 7), (Z.eqb_spec k 6); try done; lia.
Qed.

Lemma joins_count k ff : seg_joins k ff = true → 6 <= k.
Proof.
  unfold seg_joins. intros Hj. destruct (Z.eqb_spec k 8), (Z.eqb_spec k 7), (Z.eqb_spec k 6); cbn in Hj; lia || done.
Qed.

Lemma pack_step_ok c s : 0 <= c → 8 * c < sz → pinv c s → ∃ s', pack_step src (8 * c) s = Some s' ∧ pinv (c + 1) s'.
Proof.
  intros Hc Hs Hi. unfold pack_step. rewrite step_group by lia.
  pose proof (pi_ff _ _ Hi) as Hff. pose proof (pi_len _ _ Hi) as Hlen. pose proof (pi_bufsz _ _ Hi) as Hbz.
  pose proof (pi_max _ _ Hi) as Hmax. pose proof (off_pos _ _ Hi) as Hop.
  pose proof (groups_length c 1 ltac:(lia) ltac:(lia) ltac:(lia)) as Hgl.
  pose proof (count_group c Hc Hs) as Hcg. pose proof (count_le (groups c 1)) as [Hc0 _].
  destruct (pack_seg_ok (groups c 1) (pk_buf s) (pk_off s) (pk_bufsz s) (pk_ff_n s)) as (buf & -> & Hl & Ht & Hw);
    [lia..|]. cbn [mbind option_bind].
  destruct (size_bound c (pk_ff_n s) (pk_off s) (count (groups c 1))) as [Hb1 Hb2];
    [lia|lia|lia|lia|apply Hi; lia|].
  unfold seg_size in *. destruct (seg_joins (count (groups c 1)) (pk_ff_n s)) eqn:Hj.
  - destruct (Z.ltb_spec 0 (pk_ff_n s)) as [Hp|Hp].
    + change (8 =? 10) with false. change (8 =? 8) with true. cbn [andb].
      destruct (Z.eqb_spec (pk_ff_n s + 1) 256) as [H256|H256].
      * destruct (step_full c s buf) as (buf' & -> & Hi'); auto; [lia|by eapply joins_count| |]; [intros; replace 255 with (pk_ff_n s) by lia; auto|].
        simpl. eauto.
      * eexists. split; [reflexivity|]. apply step_join; auto; [lia|by eapply joins_count].
    + change (10 =? 10) with true. cbv iota. unfold seg_joins in Hj.
      rewrite (proj2 (Z.ltb_ge 0 (pk_ff_n s))), andb_false_r, orb_false_r in Hj by lia. apply Z.eqb_eq in Hj.
      rewrite (proj2 (Z.ltb_ge 0 (8 * c + 8 - sz))) by lia.
      eexists. split; [reflexivity|]. assert (pk_ff_n s = 0) as Hz by lia. rewrite Hz, Z.sub_0_r in Hb2.
      apply step_start; auto; try lia.
  - apply joins_false in Hj as [Hc8 Hc6]; [|lia].
    rewrite (proj2 (Z.eqb_neq (count (groups c 1) + 1) 10)) by lia. specialize (Hw eq_refl ltac:(lia)).
    destruct (Z.ltb_spec 0 (pk_ff_n s)) as [Hp|Hp].
    + rewrite (proj2 (Z.eqb_neq (count (groups c 1) + 1) 8)) by lia. cbn [andb].
      destruct (step_flush c s buf (count (groups c 1) + 1)) as (buf' & -> & Hi'); auto. simpl. eauto.
    + rewrite andb_false_r. assert (pk_ff_n s = 0) as Hz by lia. rewrite Hz, Z.sub_0_r in Hb2.
      eexists. split; [reflexivity|]. apply step_plain; auto.
Qed.

Lemma pack_loop_ok n c s :
  0 <= c → 8 * (c + Z.of_nat n - 1) < sz → pinv c s →
  ∃ s', pack_loop n src (8 * c) s = Some s' ∧ pinv (c + Z.of_nat n) s'.
Proof.
  revert c s. induction n as [|n IH]; intros c s Hc Hs Hi; cbn [pack_loop].
  { exists s. by rewrite Z.add_0_r. }
  destruct (pack_step_ok c s) as (s1 & -> & Hi1); [lia..|done|]. cbn [mbind option_bind].
  replace (8 * c + 8) with (8 * (c + 1)) by lia.
  destruct (IH (c + 1) s1) as (s' & -> & Hi'); [lia..|done|]. exists s'. split; [done|].
  by replace (c + Z.of_nat (S n)) with (c + 1 + Z.of_nat n) by lia.
Qed.

Lemma pinv_init buf0 : B <= Z.of_nat (length buf0) → pinv 0 (mk_pack_state buf0 0 B 0 0 FF_none 0).
Proof.
  intros Hlen. assert (0 <= pack_maxsz sz) by (unfold pack_maxsz; dlia).
  split; unfold base; cbn [pk_buf pk_off pk_bufsz pk_size pk_ff_n pk_ff_src pk_ff_des]; change (0 <? 0) with false;
    cbv iota; try (intros; lia).
  - intros _. vm_compute. congruence.
  - exists []. split_and!; [done|done|]. constructor.
Qed.

(** The run pending at the end. *)
Lemma final_run c s :
  pinv c s → 0 < pk_ff_n s → 8 * (c - 1) < sz <= 8 * c →
  ∃ b buf, ff_bytes src (pk_ff_src s) (if pk_ff_n s =? 1 then 8 else sz - 8 * (c - pk_ff_n s)) = Some b ∧
    write_ff b (pk_buf s) (pk_ff_des s) = Some buf ∧ holds buf (pk_off s) (padded src).
Proof.
  intros Hi Hff Hs. destruct (pi_run _ _ Hi Hff) as (-> & Hfull & ->).
  pose proof (pi_ff _ _ Hi). pose proof (pi_base _ _ Hi). pose proof (pi_len _ _ Hi). pose proof (pi_max _ _ Hi).
  assert (Hbase : base s + 2 + 8 * pk_ff_n s = pk_off s) by (unfold base; rewrite (proj2 (Z.ltb_lt 0 (pk_ff_n s))); lia).
  assert (Hup : upto (c - pk_ff_n s + pk_ff_n s) = padded src).
  { unfold upto. apply firstn_all2. pose proof (padded_length src). dlia. }
  rewrite <- Hup, <- Hbase. pose proof (pi_out _ _ Hi).
  remember (c - pk_ff_n s) as a eqn:Ha. set (b := drop (Z.to_nat (8 * a)) src).
  assert (Hlb : Z.of_nat (length b) = sz - 8 * a) by (unfold b; rewrite length_drop; lia).
  exists b. destruct (run_written (pk_buf s) (base s) b a (pk_ff_n s)) as (buf & He & _ & _ & Hh); auto; try lia.
  { symmetry. apply groups_tail; lia. }
  exists buf. split_and!; auto. unfold ff_bytes.
  replace (if pk_ff_n s =? 1 then 8 else sz - 8 * a) with (sz - 8 * a) by (destruct (Z.eqb_spec (pk_ff_n s) 1); lia).
  rewrite (proj2 (Z.leb_le _ _)) by lia. fold b. f_equal. apply firstn_all2. lia.
Qed.

Lemma sproto_pack_ok buf0 : B <= Z.of_nat (length buf0) →
  ∃ size buf, sproto_pack src buf0 B = Some (size, buf) ∧ 0 <= size <= pack_maxsz sz ∧ holds buf size (padded src).
Proof.
  intros Hlen. unfold sproto_pack. set (C := (sz + 7) / 8). assert (HC : 0 <= C ∧ 8 * (C - 1) < sz <= 8 * C) by (unfold C; dlia).
  destruct (pack_loop_ok (Z.to_nat C) 0 (mk_pack_state buf0 0 B 0 0 FF_none 0)) as (s & He & Hi);
    [lia|lia|by apply pinv_init|]. change (8 * 0) with 0 in He. rewrite He. cbn [mbind option_bind].
  rewrite Z.add_0_l, Z2Nat.id in Hi by lia. pose proof (off_pos _ _ Hi). pose proof (pi_max _ _ Hi) as Hmax.
  pose proof (pi_ff _ _ Hi). rewrite (pi_bufsz _ _ Hi), (pi_size _ _ Hi), (proj2 (Z.leb_le 0 _)) by lia.
  destruct (decide (pk_ff_n s = 0)) as [Hz|Hz].
  - rewrite Hz. simpl. do 2 eexists. split; [reflexivity|]. split; [lia|].
    pose proof (pi_out _ _ Hi) as Ho. unfold base, upto in Ho. rewrite Hz in Ho. simpl in Ho.
    rewrite !Z.sub_0_r, firstn_all2 in Ho; [done|]. pose proof (padded_length src). lia.
  - destruct (final_run C s Hi) as (b & buf & Hb & Hw & Hh); [lia..|].
    exists (pk_off s), buf. split; [|split; [lia|done]].
    destruct (Z.eqb_spec (pk_ff_n s) 1).
    + rewrite Hb. cbn [mbind option_bind]. by rewrite Hw.
    + rewrite (proj2 (Z.ltb_lt 1 (pk_ff_n s))) by lia. destruct (pi_run _ _ Hi) as (Hsrc & _ & _); [lia|].
      rewrite Hsrc in Hb |- *. rewrite Hb. cbn [mbind option_bind]. by rewrite Hw.
Qed.
End pack.

(** Packing a message [src] (one that is [packable]) into a buffer of the size [lpack] allocates (or more) touches no byte outside
    the source and the buffer, returns a size of at most that bound, and
    [sproto_unpack] of the bytes written restores [src] padded with zeros to a
    multiple of eight. *)
Theorem pack_roundtrip src B :
  pack_maxsz (Z.of_nat (length src)) <= B →
  packable src = true →
  ∃ size buf out, sproto_pack src (malloc B) B = Some (size, buf) ∧
    size <= pack_maxsz (Z.of_nat (length src)) ∧
    take (Z.to_nat size) buf = Some <$> out ∧ Z.of_nat (length out) = size ∧
    let n := Z.of_nat (length (padded src)) in
    sproto_unpack out (malloc n) n = Some (n, Some <$> padded src).
Proof.
  intros HB Ht. destruct (sproto_pack_ok src B HB Ht (malloc B)) as (size & buf & He & Hs & out & Ho & Hl & Hp).
  { unfold malloc. rewrite length_replicate. lia. }
  exists size, buf, out. split_and!; auto; [lia|]. by apply unpack_ok.
Qed.

Lemma pack_roundtrip_witness :
  ∃ size buf out, sproto_pack (replicate 600 7 ++ [0; 0; 0; 5]) (malloc 610) 610 = Some (size, buf) ∧
    size <= pack_maxsz 604 ∧
    take (Z.to_nat size) buf = Some <$> out ∧ Z.of_nat (length out) = size ∧
    sproto_unpack out (malloc 608) 608 = Some (608, Some <$> padded (replicate 600 7 ++ [0; 0; 0; 5])).
Proof. apply (pack_roundtrip (replicate 600 7 ++ [0; 0; 0; 5]) 610); [vm_compute; congruence|vm_compute; reflexivity]. Defined.
