(* ===== verification/Libc.v ===== *)
(** * The functions of the C library on text

    What the services use of [string.h], [stdlib.h] and [stdio.h].  A C string
    inside an array of bytes is the bytes from an offset to the next 0; a
    string whose 0 is missing is read out of bounds ([None]). *)

From Stdlib Require Import ZArith Lia.
From stdpp Require Import base tactics option numbers list strings.
From S2P Require Import Prelude.

(** The bytes of a string literal. *)
Definition lit (s : string) : list Z := (λ a, Z.of_N (Ascii.N_of_ascii a)) <$> String.list_ascii_of_string s.

Fixpoint until_nul (l : list Z) : option (list Z) :=
  match l with
  | [] => None
  | b :: l' => if b =? 0 then Some [] else s ← until_nul l'; Some (b :: s)
  end.

(** The string at offset [off] of an array. *)
Definition cstr_at (a : list Z) (off : Z) : option (list Z) :=
  if 0 <=? off then until_nul (drop (Z.to_nat off) a) else None.

Definition isspace (c : Z) : bool := (c =? 32) || ((9 <=? c) && (c <=? 13)).

Fixpoint skip_space (s : list Z) : list Z :=
  match s with
  | c :: s' => if isspace c then skip_space s' else s
  | [] => []
  end.

Definition digit (base c : Z) : option Z :=
  let v := if (48 <=? c) && (c <=? 57) then c - 48
           else if (97 <=? c) && (c <=? 122) then c - 87
           else if (65 <=? c) && (c <=? 90) then c - 55 else base in
  if v <? base then Some v else None.

(** The longest prefix of digits: its value after [acc], and what follows. *)
Fixpoint digits_val (base acc : Z) (s : list Z) : Z * list Z :=
  match s with
  | [] => (acc, [])
  | c :: s' => match digit base c with Some v => digits_val base (acc * base + v) s' | None => (acc, s) end
  end.

Definition read_sign (s : list Z) : bool * list Z :=
  match s with
  | c :: s' => if c =? 45 then (true, s') else if c =? 43 then (false, s') else (false, s)
  | [] => (false, [])
  end.

(** [strtol(s, NULL, 10)], a 64-bit [long]. *)
Definition strtol (s : list Z) : Z :=
  let '(neg, s) := read_sign (skip_space s) in
  let v := (digits_val 10 0 s).1 in
  Z.max (- 2 ^ 63) (Z.min (2 ^ 63 - 1) (if neg then - v else v)).

(** [strtoul(s, NULL, 16)] *)
Definition strtoul16 (s : list Z) : Z :=
  let '(neg, s) := read_sign (skip_space s) in
  let s := match s with
           | 48 :: x :: c :: s' =>
               if ((x =? 120) || (x =? 88)) && match digit 16 c with Some _ => true | None => false end then c :: s' else s
           | _ => s
           end in
  let v := (digits_val 16 0 s).1 in
  if 2 ^ 64 - 1 <? v then 2 ^ 64 - 1 else if neg then u64 (- v) else v.

(** [%d] *)
Fixpoint dec_digits (fuel : nat) (z : Z) (acc : list Z) : list Z :=
  match fuel with
  | O => acc
  | S f => let acc := (48 + z mod 10) :: acc in if z <? 10 then acc else dec_digits f (z / 10) acc
  end.

Definition print_d (z : Z) : list Z := if z <? 0 then 45 :: dec_digits 20 (- z) [] else dec_digits 20 z [].

(** [memcmp(a, s, n) == 0] for a literal [s] with its final 0: bytes are
    compared up to the first difference. *)
Fixpoint memcmp_eq (n : nat) (a s : list Z) : option bool :=
  match n, a, s with
  | O, _, _ => Some true
  | S n', x :: a', y :: s' => if x =? y then memcmp_eq n' a' s' else Some false
  | _, _, _ => None
  end.

(** Index of the first byte [c] of [s]. *)
Fixpoint index_of (c : Z) (s : list Z) : option nat :=
  match s with
  | [] => None
  | x :: s' => if x =? c then Some O else i ← index_of c s'; Some (S i)
  end.

(** [strsep(&p, " ")] on the string at [p]: the token, the array with the
    delimiter overwritten, and [p] ([None] is NULL). *)
Definition strsep (a : list Z) (p : Z) : option (Z * list Z * option Z) :=
  s ← cstr_at a p;
  match index_of 32 s with
  | None => Some (p, a, None)
  | Some i => a' ← arr_set a (p + Z.of_nat i) 0; Some (p, a', Some (p + Z.of_nat i + 1))
  end.

(** [sscanf]'s [%s]: a word after white space. *)
Fixpoint word_of (s : list Z) : list Z * list Z :=
  match s with
  | [] => ([], [])
  | c :: s' => if isspace c then ([], s) else let '(w, r) := word_of s' in (c :: w, r)
  end.

Definition scan_s (s : list Z) : option (list Z * list Z) :=
  let '(w, r) := word_of (skip_space s) in
  match w with [] => None | _ => Some (w, r) end.

(** [sscanf]'s [%d] *)
Definition scan_d (s : list Z) : option (Z * list Z) :=
  let '(neg, s1) := read_sign (skip_space s) in
  match s1 with
  | c :: _ =>
      match digit 10 c with
      | Some _ => Some (i32 (strtol s), (digits_val 10 0 s1).2)
      | None => None
      end
  | [] => None
  end.

(** [sscanf]'s [%u] into a [uint32_t]: a sign is accepted, as [strtoul] does. *)
Definition scan_u (s : list Z) : option (Z * list Z) :=
  let '(neg, s1) := read_sign (skip_space s) in
  match s1 with
  | c :: _ =>
      match digit 10 c with
      | Some _ =>
          let '(v, r) := digits_val 10 0 s1 in
          Some (u32 (if 2 ^ 64 - 1 <? v then 2 ^ 64 - 1 else if neg then - v else v), r)
      | None => None
      end
  | [] => None
  end.

(** [strncmp(a, b, n) == 0] on arrays of at least [n] bytes. *)
Fixpoint strncmp_eq (n : nat) (a b : list Z) : option bool :=
  match n, a, b with
  | O, _, _ => Some true
  | S n', x :: a', y :: b' =>
      if negb (x =? y) then Some false else if x =? 0 then Some true else strncmp_eq n' a' b'
  | _, _, _ => None
  end.

Example libc_test :
  strtol (lit " -120x") = -120 ∧ strtoul16 (lit "0x1fG") = 31 ∧ print_d (-907) = lit "-907" ∧
  memcmp_eq 4 (lit "kick") (lit "kick" ++ [0]) = Some true ∧
  strsep (lit "a bc" ++ [0]) 0 = Some (0, [97; 0; 98; 99; 0], Some 2).
Proof. vm_compute. auto. Qed.

(** ** Printing and reading a number *)

Lemma digit_10 d : 0 <= d < 10 → digit 10 (48 + d) = Some d.
Proof. intros. unfold digit. zcases. cbn. zcases. f_equal. lia. Qed.

Lemma dec_digits_app fuel z acc : dec_digits fuel z acc = dec_digits fuel z [] ++ acc.
Proof.
  revert z acc. induction fuel as [|f IH]; intros z acc; [done|]. cbn [dec_digits]. destruct (z <? 10); [done|].
  rewrite IH. rewrite (IH _ [_]). by rewrite <- app_assoc.
Qed.

Definition stops (rest : list Z) : Prop := match rest with [] => True | c :: _ => digit 10 c = None end.

Lemma digits_val_stop acc rest : stops rest → digits_val 10 acc rest = (acc, rest).
Proof. destruct rest as [|c rest]; [done|]. simpl. by intros ->. Qed.

Lemma digits_val_app base acc s1 s2 v :
  digits_val base acc s1 = (v, []) → digits_val base acc (s1 ++ s2) = digits_val base v s2.
Proof.
  revert acc. induction s1 as [|c s1 IH]; intros acc H; simpl in *; [by simplify_eq|].
  destruct (digit base c); [by apply IH|simplify_eq].
Qed.

Lemma dec_digits_val fuel z : 0 <= z < 10 ^ Z.of_nat fuel → (0 < fuel)%nat → digits_val 10 0 (dec_digits fuel z []) = (z, []).
Proof.
  revert z. induction fuel as [|f IH]; intros z Hz Hf; [lia|]. cbn [dec_digits].
  pose proof (Z.mod_pos_bound z 10 ltac:(lia)) as Hm. destruct (Z.ltb_spec z 10) as [Hl|Hl].
  - cbn [digits_val]. rewrite digit_10 by lia. f_equal. rewrite Z.mod_small; lia.
  - rewrite dec_digits_app. rewrite Nat2Z.inj_succ, Z.pow_succ_r in Hz by lia.
    assert (Hd : 0 <= z / 10 < 10 ^ Z.of_nat f) by (split; [apply Z.div_pos; lia|apply Z.div_lt_upper_bound; lia]).
    destruct f as [|f]; [change (10 ^ Z.of_nat 0) with 1 in Hd; assert (0 < z / 10) by (apply Z.div_str_pos; lia); lia|].
    rewrite (digits_val_app _ _ _ _ (z / 10)) by (apply IH; lia). cbn [digits_val].
    rewrite digit_10 by lia. f_equal. pose proof (Z.div_mod z 10). lia.
Qed.

Lemma dec_digits_first fuel z acc : 0 <= z → (0 < fuel)%nat →
  ∃ d l, dec_digits fuel z acc = (48 + d) :: l ∧ 0 <= d < 10.
Proof.
  revert z acc. induction fuel as [|f IH]; intros z acc Hz Hf; [lia|]. cbn [dec_digits].
  pose proof (Z.mod_pos_bound z 10 ltac:(lia)). destruct (z <? 10); [eauto|]. destruct f as [|f]; [cbn; eauto|].
  apply IH; [apply Z.div_pos; lia|lia].
Qed.

Lemma read_digits fuel z rest : 0 <= z < 10 ^ Z.of_nat fuel → (0 < fuel)%nat → stops rest →
  digits_val 10 0 (dec_digits fuel z [] ++ rest) = (z, rest).
Proof. intros Hz Hf Hr. rewrite (digits_val_app _ _ _ _ z) by (by apply dec_digits_val). by apply digits_val_stop. Qed.

(** Reading a printed int gives it back. *)
Lemma strtol_print_d z rest : INT_MIN <= z <= INT_MAX → stops rest → strtol (print_d z ++ rest) = z.
Proof.
  unfold INT_MIN, INT_MAX. intros Hz Hr. unfold strtol, print_d.
  assert (Hp : 10 ^ Z.of_nat 20 = 100000000000000000000) by reflexivity.
  destruct (Z.ltb_spec z 0).
  - cbn [app skip_space]. change (isspace 45) with false. cbn [read_sign]. change (45 =? 45) with true. cbv iota.
    rewrite read_digits by (lia || done). cbn [fst]. lia.
  - pose proof (read_digits 20 z rest ltac:(lia) ltac:(lia) Hr) as Hv.
    destruct (dec_digits_first 20 z [] ltac:(lia) ltac:(lia)) as (d & l & He & Hd). rewrite He in *.
    cbn [app skip_space]. replace (isspace (48 + d)) with false by (unfold isspace; zcases; done).
    cbn [read_sign]. rewrite (proj2 (Z.eqb_neq (48 + d) 45)), (proj2 (Z.eqb_neq (48 + d) 43)) by lia.
    cbn [app] in Hv. rewrite Hv. cbn [fst]. lia.
Qed.

Lemma skip_digit d l : 0 <= d < 10 → skip_space ((48 + d) :: l) = (48 + d) :: l.
Proof. intros Hd. cbn [skip_space]. replace (isspace (48 + d)) with false by (unfold isspace; zcases; done). done. Qed.

Lemma sign_digit d l : 0 <= d < 10 → read_sign ((48 + d) :: l) = (false, (48 + d) :: l).
Proof. intros Hd. cbn [read_sign]. by rewrite (proj2 (Z.eqb_neq (48 + d) 45)), (proj2 (Z.eqb_neq (48 + d) 43)) by lia. Qed.

(** [%d] reads what [%d] prints. *)
Lemma scan_d_print z rest : 0 <= z <= INT_MAX → stops rest → scan_d (print_d z ++ rest) = Some (z, rest).
Proof.
  intros Hz Hr. assert (Hp : 10 ^ Z.of_nat 20 = 100000000000000000000) by reflexivity. unfold INT_MAX in *.
  pose proof (strtol_print_d z rest ltac:(unfold INT_MIN, INT_MAX; lia) Hr) as Hst. pose proof (read_digits 20 z rest ltac:(lia) ltac:(lia) Hr) as Hv.
  unfold scan_d. rewrite Hst. unfold print_d. rewrite (proj2 (Z.ltb_ge z 0)) by lia.
  destruct (dec_digits_first 20 z [] ltac:(lia) ltac:(lia)) as (d & l & He & Hd). rewrite He in *. cbn [app] in *.
  rewrite skip_digit, sign_digit, digit_10 by done. rewrite Hv. cbn [snd]. rewrite i32_small by (unfold INT_MIN, INT_MAX; lia). done.
Qed.
