(* ===== verification/SprotoTypes.v ===== *)
(** * Schemas of sproto: lualib-src/sproto/sproto.c

    The clients of the games and the servers exchange messages described by a
    schema.  A compiled schema is itself an encoded message; [sproto_create]
    reads it into an array of types, each with its fields in ascending order
    of tag, and an array of protocols.  This file models the loader and the
    queries (by name, by tag); SprotoCodec.v the encoder and decoder.

    A pointer into the compiled schema is an offset, and a read outside of it
    is [Undef].  A pointer to a type is its index in the array.  The pool that
    holds the loaded schema is taken to be unlimited: what is read into it is
    the value of the record. *)

From Stdlib Require Import ZArith Lia.
From stdpp Require Import base tactics option numbers list strings.
From S2P Require Import Prelude Libc.

(** ** Results

    [Fail] is the failure the code reports, a NULL result or a Lua error;
    [Undef] is undefined behaviour of C. *)

Inductive res (A : Type) := Ok (a : A) | Fail | Undef.
Arguments Ok {A}.
Arguments Fail {A}.
Arguments Undef {A}.

#[global] Instance res_ret : MRet res := λ A, Ok.
#[global] Instance res_bind : MBind res :=
  λ A B k m, match m with Ok a => k a | Fail => Fail | Undef => Undef end.

Definition defined {A} (o : option A) : res A := match o with Some a => Ok a | None => Undef end.

(** ** Data *)

Definition SPROTO_TARRAY : Z := 128.
Definition SIZEOF_LENGTH : Z := 4.
Definition SIZEOF_HEADER : Z := 2.
Definition SIZEOF_FIELD : Z := 2.
Definition SIZEOF_INT64 : Z := 8.
Definition SIZEOF_INT32 : Z := 4.

Definition SPROTO_TINTEGER : Z := 0.
Definition SPROTO_TBOOLEAN : Z := 1.
Definition SPROTO_TSTRING : Z := 2.
Definition SPROTO_TSTRUCT : Z := 3.

Record field := mk_field {
  f_tag : Z;
  f_type : Z;
  f_name : option (list Z);
  f_st : option Z;
  f_key : Z;
  f_extra : Z
}.

Record sproto_type := mk_type {
  t_name : list Z;
  t_n : Z;
  t_base : Z;
  t_maxn : Z;
  t_f : list field
}.

Record protocol := mk_protocol {
  p_name : option (list Z);
  p_tag : Z;
  p_confirm : Z;
  p_request : option Z;
  p_response : option Z
}.

Record sproto := mk_sproto {
  type_n : Z;
  protocol_n : Z;
  s_type : list sproto_type;
  s_proto : list protocol
}.

Definition set_f_tag (f : field) (v : Z) := mk_field v (f_type f) (f_name f) (f_st f) (f_key f) (f_extra f).
Definition set_f_type (f : field) (v : Z) := mk_field (f_tag f) v (f_name f) (f_st f) (f_key f) (f_extra f).
Definition set_f_name (f : field) (v : option (list Z)) := mk_field (f_tag f) (f_type f) v (f_st f) (f_key f) (f_extra f).
Definition set_f_st (f : field) (v : option Z) := mk_field (f_tag f) (f_type f) (f_name f) v (f_key f) (f_extra f).
Definition set_f_key (f : field) (v : Z) := mk_field (f_tag f) (f_type f) (f_name f) (f_st f) v (f_extra f).
Definition set_f_extra (f : field) (v : Z) := mk_field (f_tag f) (f_type f) (f_name f) (f_st f) (f_key f) v.

(** ** Reading words *)

Definition toword (d : list Z) (p : Z) : option Z :=
  b0 ← arr_get d p; b1 ← arr_get d (p + 1); Some (Z.lor b0 (Z.shiftl b1 8)).

Definition todword (d : list Z) (p : Z) : option Z :=
  b0 ← arr_get d p; b1 ← arr_get d (p + 1); b2 ← arr_get d (p + 2); b3 ← arr_get d (p + 3);
  Some (u32 (Z.lor (Z.lor (Z.lor b0 (Z.shiftl b1 8)) (Z.shiftl b2 16)) (Z.shiftl b3 24))).

(** ** Loading *)

(** The loop of [count_array].  The length of an element wraps: an element of
    length 2^32 - 4 makes the loop stand still until [n] overflows; every other
    one moves on, so that after as many rounds as [d] has bytes a read is out
    of bounds. *)
Fixpoint count_loop (fuel : nat) (d : list Z) (stream length n : Z) : res Z :=
  match fuel with
  | O => Undef
  | S fuel =>
      if 0 <? length then
        if length <? SIZEOF_LENGTH then Ok (-1)
        else nsz ← defined (todword d stream);
             let nsz := u32 (nsz + SIZEOF_LENGTH) in
             if length <? nsz then Ok (-1) else count_loop fuel d (stream + nsz) (length - nsz) (n + 1)
      else Ok n
  end.

Definition count_array (d : list Z) (stream : Z) : res Z :=
  length ← defined (todword d stream); count_loop (S (S (List.length d))) d (stream + SIZEOF_LENGTH) length 0.

Fixpoint struct_loop (k : nat) (d : list Z) (field stream sz fn : Z) : res Z :=
  match k with
  | O => Ok fn
  | S k =>
      value ← defined (toword d field);
      if negb (value =? 0) then struct_loop k d (field + SIZEOF_FIELD) stream sz fn
      else if sz <? SIZEOF_LENGTH then Ok (-1)
      else dsz ← defined (todword d stream);
           if sz <? u32 (SIZEOF_LENGTH + dsz) then Ok (-1)
           else struct_loop k d (field + SIZEOF_FIELD) (stream + u32 (SIZEOF_LENGTH + dsz)) (sz - u32 (SIZEOF_LENGTH + dsz)) fn
  end.

Definition struct_field (d : list Z) (stream sz : Z) : res Z :=
  if sz <? SIZEOF_LENGTH then Ok (-1)
  else fn ← defined (toword d stream);
       let header := SIZEOF_HEADER + SIZEOF_FIELD * fn in
       if sz <? header then Ok (-1)
       else struct_loop (Z.to_nat fn) d (stream + SIZEOF_HEADER) (stream + header) (sz - header) fn.

(** The bytes of a string are copied into a block of [u32 (sz + 1)]. *)
Definition import_string (d : list Z) (stream : Z) : res (list Z) :=
  sz ← defined (todword d stream);
  let from := stream + SIZEOF_LENGTH in
  if (sz <? u32 (sz + 1)) && (from + sz <=? Z.of_nat (length d))
  then defined (cstr_at (take (Z.to_nat sz) (drop (Z.to_nat from) d) ++ [0]) 0)
  else Undef.

Fixpoint calc_pow (fuel : nat) (base n : Z) : option Z :=
  match fuel with
  | O => None
  | S fuel =>
      if n =? 0 then Some 1
      else sq ← chk32 (base * base);
           r ← calc_pow fuel sq (n / 2);
           if Z.odd n then chk32 (r * base) else Some r
  end.

(** One record of a field; [array] is set by the flag of tag 4. *)
Definition import_field_tag (tn : Z) (f : field) (array tag value : Z) : res (field * Z) :=
  match tag with
  | 1 => if SPROTO_TSTRUCT <=? value then Fail else Ok (set_f_type f value, array)
  | 2 =>
      if f_type f =? SPROTO_TINTEGER then e ← defined (calc_pow 32 10 value); Ok (set_f_extra f e, array)
      else if f_type f =? SPROTO_TSTRING then Ok (set_f_extra f value, array)
      else if tn <=? value then Fail
      else if 0 <=? f_type f then Fail
      else Ok (set_f_st (set_f_type f SPROTO_TSTRUCT) (Some value), array)
  | 3 => Ok (set_f_tag f value, array)
  | 4 => Ok (f, if value =? 0 then array else SPROTO_TARRAY)
  | 5 => Ok (set_f_key f value, array)
  | _ => Fail
  end.

Fixpoint import_field_loop (k : nat) (tn : Z) (d : list Z) (stream fn i : Z) (f : field) (array tag : Z) : res (field * Z) :=
  match k with
  | O => Ok (f, array)
  | S k =>
      let tag := tag + 1 in
      value ← defined (toword d (stream + SIZEOF_FIELD * i));
      if Z.odd value then import_field_loop k tn d stream fn (i + 1) f array (tag + value / 2)
      else if tag =? 0 then
        if negb (value =? 0) then Fail
        else name ← import_string d (stream + fn * SIZEOF_FIELD);
             import_field_loop k tn d stream fn (i + 1) (set_f_name f (Some name)) array tag
      else if value =? 0 then Fail
      else '(f, array) ← import_field_tag tn f array tag (value / 2 - 1);
           import_field_loop k tn d stream fn (i + 1) f array tag
  end.

(** The field and the offset behind it. *)
Definition import_field (tn : Z) (d : list Z) (stream : Z) : res (field * Z) :=
  sz ← defined (todword d stream);
  let stream := stream + SIZEOF_LENGTH in
  let result := stream + sz in
  fn ← struct_field d stream sz;
  if fn <? 0 then Fail
  else let stream := stream + SIZEOF_HEADER in
       '(f, array) ← import_field_loop (Z.to_nat fn) tn d stream fn 0 (mk_field (-1) (-1) None None (-1) 0) 0 (-1);
       if (f_tag f <? 0) || (f_type f <? 0) || (match f_name f with None => true | Some _ => false end) then Fail
       else Ok (set_f_type f (Z.lor (f_type f) array), result).

(** The fields of a type: tags must ascend, [maxn] counts a record more for
    every gap. *)
Fixpoint import_fields_loop (k : nat) (tn : Z) (d : list Z) (stream last maxn : Z) : res (list field * Z) :=
  match k with
  | O => Ok ([], maxn)
  | S k =>
      '(f, stream) ← import_field tn d stream;
      let tag := f_tag f in
      if tag <=? last then Fail
      else '(fs, maxn) ← import_fields_loop k tn d stream tag (if last + 1 <? tag then maxn + 1 else maxn);
           Ok (f :: fs, maxn)
  end.

(** Name and fields must be encoded as data. *)
Fixpoint all_zero (k : nat) (d : list Z) (p : Z) : res bool :=
  match k with
  | O => Ok true
  | S k => v ← defined (toword d p); if negb (v =? 0) then Ok false else all_zero k d (p + SIZEOF_FIELD)
  end.

Definition import_type (tn : Z) (d : list Z) (stream : Z) : res (sproto_type * Z) :=
  sz ← defined (todword d stream);
  let stream := stream + SIZEOF_LENGTH in
  let result := stream + sz in
  fn ← struct_field d stream sz;
  if (fn <=? 0) || (2 <? fn) then Fail
  else
    z ← all_zero (Z.to_nat fn) d (stream + SIZEOF_HEADER);
    if negb z then Fail
    else
      let stream := stream + SIZEOF_HEADER + fn * SIZEOF_FIELD in
      name ← import_string d stream;
      if fn =? 1 then Ok (mk_type name 0 0 0 [], result)
      else
        skip ← defined (todword d stream);
        let stream := stream + u32 (skip + SIZEOF_LENGTH) in
        n ← count_array d stream;
        if n <? 0 then Fail
        else
          '(fs, maxn) ← import_fields_loop (Z.to_nat n) tn d (stream + SIZEOF_LENGTH) (-1) n;
          first ← defined (arr_get fs 0);
          final ← defined (arr_get fs (n - 1));
          let base := f_tag first in
          let m := f_tag final - base + 1 in
          Ok (mk_type name n (if m =? n then base else -1) maxn fs, result).

(** One record of a protocol, chosen by its position [i]. *)
Definition import_protocol_tag (tn : Z) (d : list Z) (at_ : Z) (p : protocol) (i value : Z) : res protocol :=
  match i with
  | 0 =>
      if negb (value =? -1) then Fail
      else name ← import_string d at_;
           Ok (mk_protocol (Some name) (p_tag p) (p_confirm p) (p_request p) (p_response p))
  | 1 => if value <? 0 then Fail else Ok (mk_protocol (p_name p) value (p_confirm p) (p_request p) (p_response p))
  | 2 =>
      if (value <? 0) || (tn <=? value) then Fail
      else Ok (mk_protocol (p_name p) (p_tag p) (p_confirm p) (Some value) (p_response p))
  | 3 =>
      if (value <? 0) || (tn <=? value) then Fail
      else Ok (mk_protocol (p_name p) (p_tag p) (p_confirm p) (p_request p) (Some value))
  | 4 => Ok (mk_protocol (p_name p) (p_tag p) value (p_request p) (p_response p))
  | _ => Fail
  end.

Fixpoint import_protocol_loop (k : nat) (tn : Z) (d : list Z) (stream fn i : Z) (p : protocol) : res protocol :=
  match k with
  | O => Ok p
  | S k =>
      value ← defined (toword d (stream + SIZEOF_FIELD * i));
      if Z.odd value then import_protocol_loop k tn d stream fn (i + 1) p
      else p ← import_protocol_tag tn d (stream + SIZEOF_FIELD * fn) p i (value / 2 - 1);
           import_protocol_loop k tn d stream fn (i + 1) p
  end.

Definition import_protocol (tn : Z) (d : list Z) (stream : Z) : res (protocol * Z) :=
  sz ← defined (todword d stream);
  let stream := stream + SIZEOF_LENGTH in
  let result := stream + sz in
  fn ← struct_field d stream sz;
  let stream := stream + SIZEOF_HEADER in
  p ← import_protocol_loop (Z.to_nat fn) tn d stream fn 0 (mk_protocol None (-1) 0 None None);
  if (match p_name p with None => true | Some _ => false end) || (p_tag p <? 0) then Fail else Ok (p, result).

Fixpoint import_types (k : nat) (tn : Z) (d : list Z) (stream : Z) : res (list sproto_type) :=
  match k with
  | O => Ok []
  | S k => '(t, stream) ← import_type tn d stream; ts ← import_types k tn d stream; Ok (t :: ts)
  end.

Fixpoint import_protocols (k : nat) (tn : Z) (d : list Z) (stream : Z) : res (list protocol) :=
  match k with
  | O => Ok []
  | S k => '(p, stream) ← import_protocol tn d stream; ps ← import_protocols k tn d stream; Ok (p :: ps)
  end.

(** The two arrays of the bundle: how many elements, where the data starts
    and where the next one does. *)
Definition bundle_array (d : list Z) (stream content i : Z) : res (Z * Z * Z) :=
  value ← defined (toword d (stream + i * SIZEOF_FIELD));
  if negb (value =? 0) then Fail
  else n ← count_array d content;
       if n <? 0 then Fail
       else len ← defined (todword d content); Ok (n, content + SIZEOF_LENGTH, content + u32 (len + SIZEOF_LENGTH)).

Definition create_from_bundle (d : list Z) : res sproto :=
  fn ← struct_field d 0 (Z.of_nat (length d));
  if (fn <? 0) || (2 <? fn) then Fail
  else
    let stream := SIZEOF_HEADER in
    let content := stream + fn * SIZEOF_FIELD in
    '(tn, typedata, content) ← if 0 <? fn then bundle_array d stream content 0 else Ok (0, 0, content);
    '(pn, protocoldata, _) ← if 1 <? fn then bundle_array d stream content 1 else Ok (0, 0, content);
    types ← import_types (Z.to_nat tn) tn d typedata;
    protos ← import_protocols (Z.to_nat pn) tn d protocoldata;
    Ok (mk_sproto tn pn types protos).

Definition sproto_create (d : list Z) : res sproto := create_from_bundle d.

(** ** Queries *)

(** The binary search of [findtag] and [query_proto]. *)
Fixpoint bsearch {A} (fuel : nat) (key : A → Z) (l : list A) (tag begin end_ : Z) : option A :=
  match fuel with
  | O => None
  | S fuel =>
      if begin <? end_ then
        let mid := (begin + end_) / 2 in
        x ← arr_get l mid;
        let t := key x in
        if t =? tag then Some x
        else if t <? tag then bsearch fuel key l tag (mid + 1) end_ else bsearch fuel key l tag begin mid
      else None
  end.

Definition findtag (st : sproto_type) (tag : Z) : option field :=
  if 0 <=? t_base st then
    let tag := tag - t_base st in
    if (tag <? 0) || (t_n st <=? tag) then None else arr_get (t_f st) tag
  else bsearch (S (Z.to_nat (t_n st))) f_tag (t_f st) tag 0 (t_n st).

Definition query_proto (sp : sproto) (tag : Z) : option protocol :=
  bsearch (S (Z.to_nat (protocol_n sp))) p_tag (s_proto sp) tag 0 (protocol_n sp).

Definition SPROTO_REQUEST : Z := 0.
Definition SPROTO_RESPONSE : Z := 1.

Definition sproto_protoquery (sp : sproto) (proto what : Z) : option Z :=
  if (what <? 0) || (1 <? what) then None
  else p ← query_proto sp proto; if what =? SPROTO_REQUEST then p_request p else p_response p.

Definition sproto_protoresponse (sp : sproto) (proto : Z) : bool :=
  match query_proto sp proto with
  | Some p => (match p_response p with Some _ => true | None => false end) || negb (p_confirm p =? 0)
  | None => false
  end.

Definition sproto_protoname (sp : sproto) (proto : Z) : option (list Z) := p ← query_proto sp proto; p_name p.

Fixpoint prototag_loop (l : list protocol) (name : list Z) : Z :=
  match l with
  | [] => -1
  | p :: l => if bool_decide (p_name p = Some name) then p_tag p else prototag_loop l name
  end.

Definition sproto_prototag (sp : sproto) (name : list Z) : Z := prototag_loop (s_proto sp) name.

Fixpoint type_loop (l : list sproto_type) (i : Z) (name : list Z) : option Z :=
  match l with
  | [] => None
  | t :: l => if bool_decide (t_name t = name) then Some i else type_loop l (i + 1) name
  end.

Definition sproto_type_query (sp : sproto) (name : list Z) : option Z := type_loop (s_type sp) 0 name.

(** The results of [lprotocol]: the name or the tag asked for, the type of
    the request and that of the response, where a protocol that is confirmed
    without data has a light userdata NULL. *)
Inductive proto_key := by_tag (tag : Z) | by_name (name : list Z).
Inductive response := resp_type (i : Z) | resp_null | resp_nil.

Definition lprotocol (sp : sproto) (k : proto_key) : option (proto_key * option Z * response) :=
  '(key, tag) ← match k with
                | by_tag tag => name ← sproto_protoname sp tag; Some (by_name name, tag)
                | by_name name => let tag := sproto_prototag sp name in if tag <? 0 then None else Some (by_tag tag, tag)
                end;
  let request := sproto_protoquery sp tag SPROTO_REQUEST in
  let response := match sproto_protoquery sp tag SPROTO_RESPONSE with
                  | Some i => resp_type i
                  | None => if sproto_protoresponse sp tag then resp_null else resp_nil
                  end in
  Some (key, request, response).

(** ** Reading words: lemmas *)

Lemma toword_le d p b0 b1 :
  arr_get d p = Some b0 → arr_get d (p + 1) = Some b1 → is_byte b0 → toword d p = Some (le_val [b0; b1]).
Proof.
  unfold is_byte. intros H0 H1 B0. unfold toword. rewrite H0. cbn. rewrite H1. cbn.
  rewrite Z.lor_comm, lor_shiftl_add by lia. f_equal. lia.
Qed.

Lemma arr_get_byte d p b : Forall is_byte d → arr_get d p = Some b → is_byte b.
Proof.
  intros Hd. unfold arr_get. case_match; [|done]. intros Hl. by apply (Forall_lookup_1 _ _ _ _ Hd Hl).
Qed.

Lemma toword_range d p v : Forall is_byte d → toword d p = Some v → 0 <= v < 65536.
Proof.
  intros Hd H. unfold toword in H. bind_inv.
  pose proof (arr_get_byte _ _ _ Hd H) as B0. pose proof (arr_get_byte _ _ _ Hd H0) as B1. unfold is_byte in *.
  rewrite Z.lor_comm, lor_shiftl_add by lia. lia.
Qed.

(** ** Well-formed schemas *)

Definition elt_type (f : field) : Z := Z.land (f_type f) (Z.lnot SPROTO_TARRAY).
Definition is_array (f : field) : bool := negb (Z.land (f_type f) SPROTO_TARRAY =? 0).

Record wf_field (tn : Z) (f : field) : Prop := {
  wf_tag : 0 <= f_tag f <= 32766;
  wf_kind : f_type f ∈ [0; 1; 2; 3; 128; 129; 130; 131];
  wf_name : is_Some (f_name f);
  wf_key : -1 <= f_key f;
  wf_struct : elt_type f = SPROTO_TSTRUCT → ∃ i, f_st f = Some i ∧ 0 <= i < tn
}.

Lemma wf_elt tn f : wf_field tn f →
  (elt_type f = SPROTO_TINTEGER ∨ elt_type f = SPROTO_TBOOLEAN ∨ elt_type f = SPROTO_TSTRING ∨ elt_type f = SPROTO_TSTRUCT) ∧
  (is_array f = false → f_type f = elt_type f).
Proof.
  intros [_ Hk _ _ _]. unfold elt_type, is_array. rewrite !elem_of_cons in Hk.
  repeat (destruct Hk as [Hk|Hk]; [rewrite Hk; by split; [cbn; auto|]|]). by apply not_elem_of_nil in Hk.
Qed.

Fixpoint ascending (last : Z) (fs : list field) : Prop :=
  match fs with
  | [] => True
  | f :: fs => last < f_tag f ∧ ascending (f_tag f) fs
  end.

(** How many of the tags follow a gap. *)
Fixpoint gaps (last : Z) (fs : list field) : Z :=
  match fs with
  | [] => 0
  | f :: fs => (if last + 1 <? f_tag f then 1 else 0) + gaps (f_tag f) fs
  end.

Lemma gaps_nonneg last fs : 0 <= gaps last fs.
Proof. revert last. induction fs as [|f fs IH]; intros last; cbn [gaps]; [lia|]. specialize (IH (f_tag f)). case_match; lia. Qed.

Record wf_type (tn : Z) (t : sproto_type) : Prop := {
  wf_n : t_n t = Z.of_nat (length (t_f t));
  wf_fields : Forall (wf_field tn) (t_f t);
  wf_ascending : ascending (-1) (t_f t);
  wf_maxn : t_maxn t = t_n t + gaps (-1) (t_f t);
  wf_base : -1 <= t_base t;
  wf_direct : 0 <= t_base t → ∀ i f, t_f t !! i = Some f → f_tag f = t_base t + Z.of_nat i
}.

Definition wf_index (tn : Z) (o : option Z) : Prop := ∀ i, o = Some i → 0 <= i < tn.

Record wf_sproto (s : sproto) : Prop := {
  wf_types : Z.of_nat (length (s_type s)) = type_n s;
  wf_each : Forall (wf_type (type_n s)) (s_type s);
  wf_protos : Z.of_nat (length (s_proto s)) = protocol_n s;
  wf_proto : Forall (λ p, is_Some (p_name p) ∧ 0 <= p_tag p ∧
                          wf_index (type_n s) (p_request p) ∧ wf_index (type_n s) (p_response p)) (s_proto s)
}.

(** The type of a field that is a structure. *)
Lemma subtype_ok s f : wf_sproto s → wf_field (type_n s) f → elt_type f = SPROTO_TSTRUCT →
  ∃ i st, f_st f = Some i ∧ arr_get (s_type s) i = Some st ∧ wf_type (type_n s) st.
Proof.
  intros Hs Hf Ht. destruct (wf_struct _ _ Hf Ht) as (i & Hi & Hr).
  destruct (arr_get_some (s_type s) i) as [st Hst]; [rewrite (wf_types _ Hs); lia|].
  exists i, st. split_and!; [done|done|]. rewrite arr_get_lookup in Hst by lia.
  by apply (Forall_lookup_1 _ _ _ _ (wf_each _ Hs) Hst).
Qed.

(** Splits a hypothesis that a computation succeeds. *)
Lemma res_bind_ok {A B} (m : res A) (k : A → res B) b : (m ≫= k) = Ok b → ∃ a, m = Ok a ∧ k a = Ok b.
Proof. destruct m; intros H; [by eexists|done|done]. Qed.

Lemma defined_ok {A} (o : option A) a : defined o = Ok a → o = Some a.
Proof. by destruct o; intros [= ->]. Qed.

Ltac res_inv :=
  repeat match goal with
  | H : _ ≫= _ = Ok _ |- _ => apply res_bind_ok in H; destruct H as (? & ? & H)
  | H : mbind _ _ = Ok _ |- _ => apply res_bind_ok in H; destruct H as (? & ? & H)
  | H : defined _ = Ok _ |- _ => apply defined_ok in H
  | H : Ok _ = Ok _ |- _ => injection H as H; subst
  | H : Fail = Ok _ |- _ => discriminate H
  | H : Undef = Ok _ |- _ => discriminate H
  | H : (if ?b then _ else _) = Ok _ |- _ => destruct b eqn:?
  | H : (let '(_, _) := ?p in _) = Ok _ |- _ => destruct p
  end.

(** ** What the loader guarantees *)

Record loading (tn : Z) (f : field) (array : Z) : Prop := {
  ld_tag : -1 <= f_tag f <= 32766;
  ld_type : -1 <= f_type f <= 3;
  ld_st : f_type f = 3 → ∃ i, f_st f = Some i ∧ 0 <= i < tn;
  ld_array : array = 0 ∨ array = SPROTO_TARRAY;
  ld_key : -1 <= f_key f
}.

Lemma import_field_tag_ok tn f array tag value r :
  0 <= value <= 32766 → loading tn f array → import_field_tag tn f array tag value = Ok r → loading tn r.1 r.2.
Proof.
  intros Hv [Ht Hty Hst Ha Hky] H. unfold import_field_tag in H.
  repeat case_match; simplify_eq; res_inv; bool_to_prop; unfold SPROTO_TSTRUCT in *;
    split; cbn in *; try done; try lia; intros; try lia; eauto.
  exists value. split; [done|lia].
Qed.

Lemma import_field_loop_ok tn d stream fn k i f array tag r :
  Forall is_byte d → loading tn f array →
  import_field_loop k tn d stream fn i f array tag = Ok r → loading tn r.1 r.2.
Proof.
  intros Hd. revert i f array tag. induction k as [|k IH]; intros i f array tag Hf H; cbn [import_field_loop] in H.
  - by res_inv.
  - res_inv; [by eauto| |].
    + eapply IH; [|done]. destruct Hf. by split.
    + match goal with Hw : toword _ _ = Some _ |- _ => pose proof (toword_range _ _ _ Hd Hw) end.
      eapply IH; [|done].
      match goal with Hi : import_field_tag _ _ _ _ _ = Ok _ |- _ => apply import_field_tag_ok in Hi; [done| |done] end.
      match goal with Ho : Z.odd ?v = false |- _ => pose proof (Zmod_odd v) as Hm; rewrite Ho in Hm end.
      bool_to_prop. dlia.
Qed.

Lemma import_field_ok tn d stream f next :
  Forall is_byte d → import_field tn d stream = Ok (f, next) → wf_field tn f.
Proof.
  intros Hd H. unfold import_field in H. res_inv.
  match goal with Hi : import_field_loop _ _ _ _ _ _ _ _ _ = Ok _ |- _ =>
    apply import_field_loop_ok in Hi as [Ht Hty Hst Ha Hky]; [|done|by split; cbn; try lia; auto] end.
  cbn in *. bool_to_prop. rename f0 into g. destruct (f_name g) eqn:Hn; [|done].
  assert (Hk : f_type g = 0 ∨ f_type g = 1 ∨ f_type g = 2 ∨ f_type g = 3) by lia.
  split; cbn.
  - lia.
  - destruct Ha as [-> | ->], Hk as [E|[E|[E|E]]]; rewrite E; compute_done.
  - rewrite Hn. eauto.
  - done.
  - unfold elt_type. cbn. intros E3. apply Hst.
    by destruct Ha as [-> | ->], Hk as [E|[E|[E|E]]]; rewrite E in *.
Qed.

Lemma import_fields_loop_ok tn d k stream last maxn fs maxn' :
  Forall is_byte d → import_fields_loop k tn d stream last maxn = Ok (fs, maxn') →
  length fs = k ∧ Forall (wf_field tn) fs ∧ ascending last fs ∧ maxn' = maxn + gaps last fs.
Proof.
  intros Hd. revert stream last maxn fs maxn'.
  induction k as [|k IH]; intros stream last maxn fs maxn' H; cbn [import_fields_loop] in H.
  - res_inv. cbn. split_and!; [done|constructor|done|lia].
  - res_inv. bool_to_prop.
    match goal with Hf : import_field _ _ _ = Ok _ |- _ => apply import_field_ok in Hf; [|done] end.
    match goal with Hl : import_fields_loop _ _ _ _ _ _ = Ok _ |- _ => apply IH in Hl as (? & ? & ? & ->) end.
    cbn. split_and!; [by f_equal|by constructor|lia|done|].
    destruct (last + 1 <? f_tag f); lia.
Qed.

Lemma ascending_tags last fs i f : ascending last fs → fs !! i = Some f → last + 1 + Z.of_nat i <= f_tag f.
Proof.
  revert last i. induction fs as [|g fs IH]; intros last i Ha Hi; [done|]. destruct Ha as [Hl Ha].
  destruct i as [|i]; simplify_eq/=; [lia|]. specialize (IH _ _ Ha Hi). lia.
Qed.

(** Ascending tags that span as many numbers as there are fields leave none
    out. *)
Lemma ascending_direct last fs i j f g :
  ascending last fs → fs !! i = Some f → fs !! j = Some g → (i <= j)%nat →
  f_tag f + Z.of_nat (j - i) <= f_tag g.
Proof.
  revert last i j. induction fs as [|h fs IH]; intros last i j Ha Hi Hj Hij; [done|]. destruct Ha as [Hl Ha].
  destruct i as [|i], j as [|j]; simplify_eq/=; try lia.
  - pose proof (ascending_tags _ _ _ _ Ha Hj). lia.
  - apply (IH _ _ _ Ha Hi Hj). lia.
Qed.

Lemma import_type_ok tn d stream t next :
  Forall is_byte d → import_type tn d stream = Ok (t, next) → wf_type tn t.
Proof.
  intros Hd H. unfold import_type in H. res_inv.
  - by split; cbn; try lia.
  - bool_to_prop.
    match goal with Hl : import_fields_loop _ _ _ _ _ _ = Ok _ |- _ =>
      apply import_fields_loop_ok in Hl as (Hlen & Hf & Ha & ->); [|done] end.
    rename l into fs.
    match goal with Hg : arr_get fs 0 = Some ?g |- _ => rename Hg into Hfirst, g into first end.
    match goal with Hg : arr_get fs (?m - 1) = Some ?g |- _ => rename Hg into Hlast, g into last, m into n end.
    assert (Hn : Z.of_nat (length fs) = n) by lia.
    rewrite arr_get_lookup in Hfirst by lia. unfold arr_get in Hlast. case_match; [bool_to_prop|done].
    pose proof (ascending_tags _ _ _ _ Ha Hfirst). cbn in *.
    split; cbn; [done|done|done|done|destruct (_ =? _); lia|].
    intros Hb i f Hi. destruct (Z.eqb_spec (f_tag last - f_tag first + 1) n) as [E|]; [|lia].
    pose proof (lookup_lt_Some _ _ _ Hi).
    pose proof (ascending_direct _ _ _ _ _ _ Ha Hfirst Hi ltac:(lia)).
    pose proof (ascending_direct _ _ _ _ _ _ Ha Hi Hlast ltac:(lia)). lia.
Qed.

Lemma import_types_ok tn d k stream ts :
  Forall is_byte d → import_types k tn d stream = Ok ts → length ts = k ∧ Forall (wf_type tn) ts.
Proof.
  intros Hd. revert stream ts. induction k as [|k IH]; intros stream ts H; cbn [import_types] in H; res_inv; [done|].
  match goal with Ht : import_type _ _ _ = Ok _ |- _ => apply import_type_ok in Ht; [|done] end.
  match goal with Ht : import_types _ _ _ _ = Ok _ |- _ => apply IH in Ht as [<- ?] end.
  split; [done|by constructor].
Qed.

Definition wf_indices (tn : Z) (p : protocol) : Prop := wf_index tn (p_request p) ∧ wf_index tn (p_response p).

Lemma import_protocol_loop_ok tn d k stream fn i p p' :
  wf_indices tn p → import_protocol_loop k tn d stream fn i p = Ok p' → wf_indices tn p'.
Proof.
  revert i p. induction k as [|k IH]; intros i p Hp H; cbn [import_protocol_loop] in H; res_inv; [done|by eauto|].
  eapply IH; [|done]. unfold import_protocol_tag in *. destruct Hp.
  repeat case_match; res_inv; bool_to_prop; split; cbn; try done; intros j [= <-]; lia.
Qed.

Lemma import_protocols_ok tn d k stream ps :
  import_protocols k tn d stream = Ok ps →
  length ps = k ∧ Forall (λ p, is_Some (p_name p) ∧ 0 <= p_tag p ∧ wf_index tn (p_request p) ∧ wf_index tn (p_response p)) ps.
Proof.
  revert stream ps. induction k as [|k IH]; intros stream ps H; cbn [import_protocols] in H; res_inv; [done|].
  match goal with Ht : import_protocols _ _ _ _ = Ok _ |- _ => apply IH in Ht as [<- ?] end.
  unfold import_protocol in *. res_inv. bool_to_prop.
  match goal with Hl : import_protocol_loop _ _ _ _ _ _ _ = Ok _ |- _ => apply import_protocol_loop_ok in Hl as [? ?]; [|done] end.
  split; [done|]. constructor; [|done]. split_and!; [by destruct (p_name _)|lia|done|done].
Qed.

Lemma count_loop_range fuel d stream len n r : 0 <= n → count_loop fuel d stream len n = Ok r → -1 <= r.
Proof.
  revert stream len n. induction fuel as [|fuel IH]; intros stream len n Hn H; cbn [count_loop] in H; res_inv; try lia.
  eapply IH; [|done]. lia.
Qed.

Lemma create_wf d s : Forall is_byte d → sproto_create d = Ok s → wf_sproto s.
Proof.
  intros Hd H. unfold sproto_create, create_from_bundle in H.
  apply res_bind_ok in H as (fn & Hfn & H). destruct (_ || _)%bool eqn:Hr; [done|].
  apply res_bind_ok in H as ([[tn td] c1] & Ht & H). apply res_bind_ok in H as ([[pn pd] c2] & Hp & H).
  assert (Htn : 0 <= tn) by (destruct (0 <? fn); [unfold bundle_array in Ht; res_inv; bool_to_prop; lia|res_inv; lia]).
  assert (Hpn : 0 <= pn) by (destruct (1 <? fn); [unfold bundle_array in Hp; res_inv; bool_to_prop; lia|res_inv; lia]).
  clear Ht Hp. res_inv.
  match goal with Hi : import_types _ _ _ _ = Ok _ |- _ => apply import_types_ok in Hi as [? ?]; [|done] end.
  match goal with Hi : import_protocols _ _ _ _ = Ok _ |- _ => apply import_protocols_ok in Hi as [? ?] end.
  split; cbn; [lia|done|lia|done].
Qed.

(** ** Queries find what is there *)

Definition sorted_by {A} (key : A → Z) (l : list A) : Prop :=
  ∀ i j x y, l !! i = Some x → l !! j = Some y → (i < j)%nat → key x < key y.

Lemma sorted_by_inj {A} (key : A → Z) l i j x y :
  sorted_by key l → l !! i = Some x → l !! j = Some y → key x = key y → i = j ∧ x = y.
Proof.
  intros Hs Hx Hy E. destruct (lt_eq_lt_dec i j) as [[?|<-]|?]; [|by simplify_eq|].
  - pose proof (Hs _ _ _ _ Hx Hy ltac:(done)). lia.
  - pose proof (Hs _ _ _ _ Hy Hx ltac:(done)). lia.
Qed.

Lemma bsearch_complete {A} (key : A → Z) l tag fuel b e i x :
  sorted_by key l → l !! i = Some x → key x = tag → 0 <= b <= Z.of_nat i → Z.of_nat i < e <= Z.of_nat (length l) →
  e - b < Z.of_nat fuel → bsearch fuel key l tag b e = Some x.
Proof.
  intros Hs Hi Hk. revert b e. induction fuel as [|fuel IH]; intros b e Hb He Hf; [lia|]. cbn [bsearch].
  destruct (Z.ltb_spec b e); [|lia]. set (mid := (b + e) / 2) in *.
  assert (Hm : b <= mid < e) by (unfold mid; dlia).
  destruct (arr_get_some l mid) as [y Hy]; [lia|]. rewrite Hy. cbn. rewrite arr_get_lookup in Hy by lia.
  destruct (Z.eqb_spec (key y) tag) as [E|E].
  - f_equal. by eapply (sorted_by_inj key l); [| | |congruence].
  - destruct (lt_eq_lt_dec i (Z.to_nat mid)) as [[?|?]|?].
    + pose proof (Hs _ _ _ _ Hi Hy ltac:(lia)). destruct (Z.ltb_spec (key y) tag); [lia|]. apply IH; lia.
    + subst i. congruence.
    + pose proof (Hs _ _ _ _ Hy Hi ltac:(lia)). destruct (Z.ltb_spec (key y) tag); [|lia]. apply IH; lia.
Qed.

Lemma bsearch_sound {A} (key : A → Z) l tag fuel b e x :
  bsearch fuel key l tag b e = Some x → x ∈ l ∧ key x = tag.
Proof.
  revert b e. induction fuel as [|fuel IH]; intros b e H; [done|]. cbn [bsearch] in H.
  destruct (b <? e); [|done]. apply bind_Some in H as (y & Hy & H).
  destruct (Z.eqb_spec (key y) tag); [|destruct (key y <? tag); eauto].
  simplify_eq. split; [|done]. unfold arr_get in Hy. case_match; [|done]. by eapply list_elem_of_lookup_2.
Qed.

Lemma ascending_sorted last fs : ascending last fs → sorted_by f_tag fs.
Proof. intros Ha i j f g Hi Hj Hij. pose proof (ascending_direct _ _ _ _ _ _ Ha Hi Hj ltac:(lia)). lia. Qed.

(** [findtag], by position or by search, is the field of that tag. *)
Lemma findtag_spec tn t tag f : wf_type tn t → findtag t tag = Some f ↔ f ∈ t_f t ∧ f_tag f = tag.
Proof.
  intros [Hn Hf Ha Hm Hb Hd]. unfold findtag. destruct (Z.leb_spec 0 (t_base t)) as [H0|H0].
  - specialize (Hd H0). split.
    + destruct (_ || _)%bool eqn:E; [done|]. bool_to_prop. rewrite arr_get_lookup by lia. intros Hi.
      split; [by eapply list_elem_of_lookup_2|]. rewrite (Hd _ _ Hi). lia.
    + intros [[i Hi]%list_elem_of_lookup <-]. pose proof (lookup_lt_Some _ _ _ Hi). rewrite (Hd _ _ Hi).
      destruct (_ || _)%bool eqn:E; [bool_to_prop; lia|]. rewrite arr_get_lookup by lia. by replace (Z.to_nat _) with i by lia.
  - split; [apply bsearch_sound|]. intros [[i Hi]%list_elem_of_lookup Ht].
    pose proof (lookup_lt_Some _ _ _ Hi). eapply bsearch_complete; eauto using ascending_sorted; lia.
Qed.

Lemma query_proto_spec sp tag p :
  Z.of_nat (length (s_proto sp)) = protocol_n sp → sorted_by p_tag (s_proto sp) →
  query_proto sp tag = Some p ↔ p ∈ s_proto sp ∧ p_tag p = tag.
Proof.
  intros Hn Hs. unfold query_proto. split; [apply bsearch_sound|]. intros [[i Hi]%list_elem_of_lookup Ht].
  pose proof (lookup_lt_Some _ _ _ Hi). eapply bsearch_complete; eauto; lia.
Qed.
