(* ===== verification/SprotoCodec.v ===== *)
(** * Encoding and decoding sproto messages: sproto.c and lsproto.c

    [sproto_encode] lays a message out as a header of 16-bit records, one per
    field present (small numbers are in the record, gaps between tags are
    records of their own), and the data of the other fields behind it.  It
    knows nothing of Lua: every value comes from a callback, in lsproto.c
    [encode], which reads the table to send and calls [sproto_encode] again
    for a field that is a structure.  [sproto_decode] calls [decode] with every
    field it finds, which fills a table.

    The output buffer is a block of cells; pointers are offsets, and an access
    outside the block or to a cell never written is [Undef].  A Lua error is
    [Fail].  The slots of the Lua stack that a call uses are the components of
    the records [encode_ud] and [decode_ud]; tables have no metatables.  Floats
    are the binary64 numbers of the Standard Library. *)

From Stdlib Require Import ZArith Lia SpecFloat.
From stdpp Require Import base tactics option numbers list strings.
From S2P Require Import Prelude Libc SprotoPack SprotoTypes.

(** ** Lua values

    A table is its pairs in the order of [lua_next]. *)

Inductive lua_key :=
  | KBoolean (b : bool)
  | KInteger (z : Z)
  | KNumber (f : spec_float)
  | KString (s : list Z).

#[global] Instance spec_float_eq_dec : EqDecision spec_float.
Proof. solve_decision. Defined.
#[global] Instance lua_key_eq_dec : EqDecision lua_key.
Proof. solve_decision. Defined.

Inductive lua_value :=
  | LNil
  | LBoolean (b : bool)
  | LInteger (z : Z)
  | LNumber (f : spec_float)
  | LString (s : list Z)
  | LTable (kvs : list (lua_key * lua_value))
  | LOther.

Notation table := (list (lua_key * lua_value)).

Fixpoint tget (t : table) (k : lua_key) : lua_value :=
  match t with
  | [] => LNil
  | (k', v) :: t => if decide (k' = k) then v else tget t k
  end.

(** Assigning a value that is not nil. *)
Fixpoint tset (t : table) (k : lua_key) (v : lua_value) : table :=
  match t with
  | [] => [(k, v)]
  | (k', v') :: t => if decide (k' = k) then (k', v) :: t else (k', v') :: tset t k v
  end.

(** [lua_next]: the pair after the key, the first one for nil ([None]). *)
Fixpoint lua_next (t : table) (k : option lua_key) : option (lua_key * lua_value) :=
  match t, k with
  | [], _ => None
  | p :: _, None => Some p
  | (k', _) :: t, Some k => if decide (k' = k) then head t else lua_next t (Some k)
  end.

(** Conversions of strings to numbers and of floats to strings, which the Lua
    library does. *)
Class LuaConv := {
  str2integer : list Z → option Z;
  str2number : list Z → option spec_float;
  num2str : spec_float → list Z
}.

Definition of_int (z : Z) : spec_float := binary_normalize 53 1024 z 0 false.

(** The integer a float is equal to, if any. *)
Definition float_integer (f : spec_float) : option Z :=
  match f with
  | S754_zero _ => Some 0
  | S754_finite s m e =>
      let v := if 0 <=? e then Some (Z.pos m * 2 ^ e)
               else if Z.pos m mod 2 ^ (- e) =? 0 then Some (Z.pos m / 2 ^ (- e)) else None in
      v ← v;
      let v := if s then - v else v in
      if (- 2 ^ 63 <=? v) && (v <? 2 ^ 63) then Some v else None
  | _ => None
  end.

(** [(int64_t)round(f)]: halves away from zero, undefined out of range. *)
Definition float_round (f : spec_float) : option Z :=
  match f with
  | S754_zero _ => Some 0
  | S754_finite s m e =>
      let v := if 0 <=? e then Z.pos m * 2 ^ e else (2 * Z.pos m + 2 ^ (- e)) / 2 ^ (1 - e) in
      let v := if s then - v else v in
      if (- 2 ^ 63 <=? v) && (v <? 2 ^ 63) then Some v else None
  | _ => None
  end.

Section Conv.
Context `{LuaConv}.

Definition lua_tointegerx (v : lua_value) : option Z :=
  match v with
  | LInteger z => Some z
  | LNumber f => float_integer f
  | LString s => str2integer s
  | _ => None
  end.

Definition lua_tonumber (v : lua_value) : spec_float :=
  match v with
  | LInteger z => of_int z
  | LNumber f => f
  | LString s => match str2number s with Some f => f | None => S754_zero false end
  | _ => S754_zero false
  end.

(** [lua_tolstring] of what [lua_isstring] accepts. *)
Definition lua_tolstring (v : lua_value) : option (list Z) :=
  match v with
  | LString s => Some s
  | LInteger z => Some (print_d z)
  | LNumber f => Some (num2str f)
  | _ => None
  end.
End Conv.

(** A value as a key of a table: floats equal to an integer become it, NaN is
    an error.  A table as a key is outside of the model. *)
Definition to_key (v : lua_value) : res lua_key :=
  match v with
  | LNil => Fail
  | LBoolean b => Ok (KBoolean b)
  | LInteger z => Ok (KInteger z)
  | LNumber S754_nan => Fail
  | LNumber f => Ok (match float_integer f with Some z => KInteger z | None => KNumber f end)
  | LString s => Ok (KString s)
  | _ => Undef
  end.

(** ** Buffers *)

Notation block := (list (option Z)).

Definition put (b : block) (off : Z) (bytes : list Z) : res block :=
  defined (memcpy b off bytes (Z.of_nat (length bytes))).

Definition fetch (b : block) (off n : Z) : res (list Z) :=
  if (0 <=? off) && (0 <=? n) && (off + n <=? Z.of_nat (length b))
  then defined (mapM id (take (Z.to_nat n) (drop (Z.to_nat off) b))) else Undef.

(** The bytes of a word as the code writes them. *)
Definition bytes2 (v : Z) : list Z := [Z.land v 255; Z.land (Z.shiftr v 8) 255].
Definition bytes4 (v : Z) : list Z := bytes2 v ++ bytes2 (Z.shiftr v 16).
Definition bytes8 (v : Z) : list Z := bytes4 v ++ bytes4 (Z.shiftr v 32).

Definition fill_size (b : block) (data sz : Z) : res (Z * block) :=
  b ← put b data (bytes4 sz); Ok (sz + SIZEOF_LENGTH, b).

Definition encode_integer (v : Z) (b : block) (data size : Z) : res (Z * block) :=
  if u64 size <? SIZEOF_LENGTH + 4 then Ok (-1, b)
  else b ← put b (data + 4) (bytes4 v); fill_size b data 4.

Definition encode_uint64 (v : Z) (b : block) (data size : Z) : res (Z * block) :=
  if u64 size <? SIZEOF_LENGTH + 8 then Ok (-1, b)
  else b ← put b (data + 4) (bytes8 v); fill_size b data 8.

Definition uint32_to_uint64 (negative : bool) (b : block) (at_ : Z) : res block :=
  if negative then put b (at_ + 4) [255; 255; 255; 255] else put b (at_ + 4) [0; 0; 0; 0].

(** ** Encoding *)

Definition SPROTO_CB_ERROR : Z := -1.
Definition SPROTO_CB_NIL : Z := -2.
Definition SPROTO_CB_NOARRAY : Z := -3.

(** [a_value] is an offset in the output or the input; a number is passed
    through [a_word]. *)
Record sproto_arg := mk_arg {
  a_tagname : list Z;
  a_tagid : Z;
  a_type : Z;
  a_subtype : option Z;
  a_value : option Z;
  a_word : option Z;
  a_length : Z;
  a_index : Z;
  a_mainindex : Z;
  a_extra : Z
}.

Definition arg_of (f : field) (name : list Z) : sproto_arg :=
  mk_arg name (f_tag f) (Z.land (f_type f) (Z.lnot SPROTO_TARRAY)) (f_st f) None None 0 0 (f_key f) (f_extra f).

(** Where the callback is to store an object, and which element it is. *)
Definition arg_at (a : sproto_arg) (value length index : Z) : sproto_arg :=
  mk_arg (a_tagname a) (a_tagid a) (a_type a) (a_subtype a) (Some value) None length index (a_mainindex a) (a_extra a).

(** The callback stores a number in a local variable of [length] bytes. *)
Definition arg_local (a : sproto_arg) (length index : Z) : sproto_arg :=
  mk_arg (a_tagname a) (a_tagid a) (a_type a) (a_subtype a) None None length index (a_mainindex a) (a_extra a).

Section Encode.
Context {UD : Type}.

(** The callback: its result, the number it stored, its state, the buffer. *)
Variable cb : sproto_arg → UD → block → res (Z * Z * UD * block).

Definition encode_object (args : sproto_arg) (ud : UD) (b : block) (data size : Z) : res (Z * UD * block) :=
  if size <? SIZEOF_LENGTH then Ok (-1, ud, b)
  else
    '(sz, _, ud, b) ← cb (arg_at args (data + SIZEOF_LENGTH) (size - SIZEOF_LENGTH) 0) ud b;
    if sz <? 0 then Ok (if sz =? SPROTO_CB_NIL then 0 else -1, ud, b)
    else if size - SIZEOF_LENGTH <? sz then Undef
    else '(r, b) ← fill_size b data sz; Ok (r, ud, b).

(** The integers before the [k]-th are widened in place, the last one first. *)
Fixpoint rearrange (k : nat) (header : Z) (b : block) : res block :=
  match k with
  | O => Ok b
  | S i =>
      w ← fetch b (header + 1 + Z.of_nat i * SIZEOF_INT32) SIZEOF_INT32;
      b ← put b (header + 1 + Z.of_nat i * SIZEOF_INT64) w;
      top ← fetch b (header + 1 + Z.of_nat i * SIZEOF_INT64 + 3) 1;
      b ← uint32_to_uint64 (negb (Z.land (hd 0 top) 128 =? 0)) b (header + 1 + Z.of_nat i * SIZEOF_INT64);
      rearrange i header b
  end.

(** The loop over the elements; the result is NULL ([None]) or the end of the
    data, the width and whether there is no array. *)
Fixpoint integer_array_loop (fuel : nat) (args : sproto_arg) (ud : UD) (b : block) (header buffer size intlen index : Z)
    : res (option (Z * Z * bool) * UD * block) :=
  match fuel with
  | O => Undef
  | S fuel =>
      '(sz, u, ud, b) ← cb (arg_local args 8 index) ud b;
      if sz <=? 0 then
        if sz =? SPROTO_CB_NIL then Ok (Some (buffer, intlen, false), ud, b)
        else if sz =? SPROTO_CB_NOARRAY then Ok (Some (buffer, intlen, true), ud, b)
        else Ok (None, ud, b)
      else if size <? SIZEOF_INT64 then Ok (None, ud, b)
      else if sz =? SIZEOF_INT32 then
        let v := u32 u in
        b ← put b buffer (bytes4 v);
        b ← if intlen =? SIZEOF_INT64 then uint32_to_uint64 (negb (Z.land v 2147483648 =? 0)) b buffer else Ok b;
        integer_array_loop fuel args ud b header (buffer + intlen) (size - intlen) intlen (index + 1)
      else if negb (sz =? SIZEOF_INT64) then Ok (None, ud, b)
      else if intlen =? SIZEOF_INT32 then
        let size := size - (index - 1) * SIZEOF_INT32 in
        if size <? SIZEOF_INT64 then Ok (None, ud, b)
        else
          let buffer := buffer + (index - 1) * SIZEOF_INT32 in
          b ← rearrange (Z.to_nat (index - 1)) header b;
          b ← put b buffer (bytes8 (u64 u));
          integer_array_loop fuel args ud b header (buffer + SIZEOF_INT64) (size - SIZEOF_INT64) SIZEOF_INT64 (index + 1)
      else
        b ← put b buffer (bytes8 (u64 u));
        integer_array_loop fuel args ud b header (buffer + intlen) (size - intlen) intlen (index + 1)
  end.

(** The end of the array ([None]: NULL) and whether there is no array. *)
Definition encode_integer_array (args : sproto_arg) (ud : UD) (b : block) (buffer size : Z)
    : res (option (Z * bool) * UD * block) :=
  let header := buffer in
  if size <? 1 then Ok (None, ud, b)
  else
    '(r, ud, b) ← integer_array_loop (S (Z.to_nat size)) args ud b header (buffer + 1) (size - 1) SIZEOF_INT32 1;
    match r with
    | None => Ok (None, ud, b)
    | Some (buffer, intlen, noarray) =>
        if buffer =? header + 1 then Ok (Some (header, noarray), ud, b)
        else b ← put b header [u8 intlen]; Ok (Some (buffer, noarray), ud, b)
    end.

(** The loops over booleans and objects end with the end of the data, with a
    result to return (no array: 0, error: -1). *)
Fixpoint boolean_array_loop (fuel : nat) (args : sproto_arg) (ud : UD) (b : block) (buffer size index : Z)
    : res ((Z + Z) * UD * block) :=
  match fuel with
  | O => Undef
  | S fuel =>
      '(sz, v, ud, b) ← cb (arg_local args 4 index) ud b;
      if sz <? 0 then
        if sz =? SPROTO_CB_NIL then Ok (inl buffer, ud, b)
        else if sz =? SPROTO_CB_NOARRAY then Ok (inr 0, ud, b)
        else Ok (inr (-1), ud, b)
      else if size <? 1 then Ok (inr (-1), ud, b)
      else
        b ← put b buffer [if v =? 0 then 0 else 1];
        boolean_array_loop fuel args ud b (buffer + 1) (size - 1) (index + 1)
  end.

Fixpoint object_array_loop (fuel : nat) (args : sproto_arg) (ud : UD) (b : block) (buffer size index : Z)
    : res ((Z + Z) * UD * block) :=
  match fuel with
  | O => Undef
  | S fuel =>
      if size <? SIZEOF_LENGTH then Ok (inr (-1), ud, b)
      else
        let size := size - SIZEOF_LENGTH in
        '(sz, _, ud, b) ← cb (arg_at args (buffer + SIZEOF_LENGTH) size index) ud b;
        if sz <? 0 then
          if sz =? SPROTO_CB_NIL then Ok (inl buffer, ud, b)
          else if sz =? SPROTO_CB_NOARRAY then Ok (inr 0, ud, b)
          else Ok (inr (-1), ud, b)
        else
          '(_, b) ← fill_size b buffer sz;
          object_array_loop fuel args ud b (buffer + SIZEOF_LENGTH + sz) (size - sz) (index + 1)
  end.

Definition encode_array (args : sproto_arg) (ud : UD) (b : block) (data size : Z) : res (Z * UD * block) :=
  if size <? SIZEOF_LENGTH then Ok (-1, ud, b)
  else
    let size := size - SIZEOF_LENGTH in
    let buffer := data + SIZEOF_LENGTH in
    '(r, ud, b) ←
      (if a_type args =? SPROTO_TINTEGER then
         '(r, ud, b) ← encode_integer_array args ud b buffer size;
         Ok (match r with None => inr (-1) | Some (buffer, noarray) => if noarray : bool then inr 0 else inl buffer end, ud, b)
       else if a_type args =? SPROTO_TBOOLEAN then boolean_array_loop (S (Z.to_nat size)) args ud b buffer size 1
       else object_array_loop (S (Z.to_nat size)) args ud b buffer size 1);
    match r with
    | inr r => Ok (r, ud, b)
    | inl buffer => '(r, b) ← fill_size b data (buffer - (data + SIZEOF_LENGTH)); Ok (r, ud, b)
    end.

(** What the switch on the type of a field leaves: the size and the value to
    put into the record, [None] where the field is skipped, a result to
    return. *)
Inductive field_out := out_skip | out_return (r : Z) | out_size (sz value : Z).

Definition encode_number (args : sproto_arg) (ud : UD) (b : block) (data size : Z) : res (field_out * UD * block) :=
  '(sz, u, ud, b) ← cb (arg_local args 8 0) ud b;
  if sz <? 0 then
    if sz =? SPROTO_CB_NIL then Ok (out_skip, ud, b)
    else if sz =? SPROTO_CB_NOARRAY then Ok (out_return 0, ud, b)
    else Ok (out_return (-1), ud, b)
  else if sz =? SIZEOF_INT32 then
    if u32 u <? 32767 then Ok (out_size 2 ((u32 u + 1) * 2), ud, b)
    else '(sz, b) ← encode_integer (u32 u) b data size; Ok (out_size sz 0, ud, b)
  else if sz =? SIZEOF_INT64 then '(sz, b) ← encode_uint64 (u64 u) b data size; Ok (out_size sz 0, ud, b)
  else Ok (out_return (-1), ud, b).

Definition encode_field (f : field) (ud : UD) (b : block) (data size : Z) : res (field_out * UD * block) :=
  name ← defined (f_name f);
  let args := arg_of f name in
  if negb (Z.land (f_type f) SPROTO_TARRAY =? 0) then
    '(sz, ud, b) ← encode_array args ud b data size; Ok (out_size sz 0, ud, b)
  else if (f_type f =? SPROTO_TINTEGER) || (f_type f =? SPROTO_TBOOLEAN) then encode_number args ud b data size
  else if (f_type f =? SPROTO_TSTRUCT) || (f_type f =? SPROTO_TSTRING) then
    '(sz, ud, b) ← encode_object args ud b data size; Ok (out_size sz 0, ud, b)
  else Ok (out_size (-1) 0, ud, b).

(** The loop over the fields: [inr] is a result to return, [inl] the end of
    the data and the number of records. *)
Fixpoint encode_fields (fs : list field) (ud : UD) (b : block) (header data size index lasttag : Z)
    : res ((Z * Z + Z) * UD * block) :=
  match fs with
  | [] => Ok (inl (data, index), ud, b)
  | f :: fs =>
      '(o, ud, b) ← encode_field f ud b data size;
      match o with
      | out_skip => encode_fields fs ud b header data size index lasttag
      | out_return r => Ok (inr r, ud, b)
      | out_size sz value =>
          if sz <? 0 then Ok (inr (-1), ud, b)
          else if 0 <? sz then
            let '(data, size) := if value =? 0 then (data + sz, size - sz) else (data, size) in
            let record := header + SIZEOF_HEADER + SIZEOF_FIELD * index in
            let tag := f_tag f - lasttag - 1 in
            if 0 <? tag then
              let tag := (tag - 1) * 2 + 1 in
              if 65535 <? tag then Ok (inr (-1), ud, b)
              else
                b ← put b record (bytes2 tag);
                b ← put b (record + SIZEOF_FIELD) (bytes2 value);
                encode_fields fs ud b header data size (index + 2) (f_tag f)
            else
              b ← put b record (bytes2 value);
              encode_fields fs ud b header data size (index + 1) (f_tag f)
          else encode_fields fs ud b header data size index lasttag
      end
  end.

Definition sproto_encode (st : sproto_type) (ud : UD) (b : block) (header size : Z) : res (Z * UD * block) :=
  let header_sz := SIZEOF_HEADER + t_maxn st * SIZEOF_FIELD in
  if size <? header_sz then Ok (-1, ud, b)
  else
    '(r, ud, b) ← encode_fields (t_f st) ud b header (header + header_sz) (size - header_sz) 0 (-1);
    match r with
    | inr r => Ok (r, ud, b)
    | inl (data, index) =>
        b ← put b header (bytes2 index);
        let datasz := data - (header + header_sz) in
        b ← (if negb (index =? t_maxn st) then
               d ← fetch b (header + header_sz) datasz; put b (header + SIZEOF_HEADER + index * SIZEOF_FIELD) d
             else Ok b);
        Ok (SIZEOF_HEADER + index * SIZEOF_FIELD + datasz, ud, b)
    end.
End Encode.

(** ** The callback of the encoder: [encode] of lsproto.c *)

Definition ENCODE_DEEPLEVEL : Z := 64.

(** [e_tbl] is the table at [tbl_index], [e_array] the one at [array_index]
    ([None] for index 0), [e_iter] the key in the iterator slot.  [array_tag]
    is compared as a pointer: every field has a name of its own, so the tag
    of the field stands for it. *)
Record encode_ud := mk_eud {
  e_tbl : table;
  e_array_tag : option Z;
  e_array : option table;
  e_deep : Z;
  e_iter : option lua_key
}.

Definition set_array (self : encode_ud) (tag : Z) (a : option table) : encode_ud :=
  mk_eud (e_tbl self) (Some tag) a (e_deep self) (e_iter self).
Definition set_iter (self : encode_ud) (k : option lua_key) : encode_ud :=
  mk_eud (e_tbl self) (e_array_tag self) (e_array self) (e_deep self) k.

(** The first part: finding the value.  [inr] is a result to return. *)
Definition encode_find (args : sproto_arg) (self : encode_ud) : res ((lua_value + Z) * encode_ud) :=
  if 0 <? a_index args then
    '(stop, self) ←
      (if bool_decide (e_array_tag self = Some (a_tagid args)) then Ok (false, self)
       else match tget (e_tbl self) (KString (a_tagname args)) with
            | LNil => Ok (true, set_array self (a_tagid args) None)
            | LTable a => Ok (false, set_array self (a_tagid args) (Some a))
            | _ => Fail
            end);
    if stop : bool then Ok (inr SPROTO_CB_NOARRAY, self)
    else
      a ← defined (e_array self);
      if 0 <=? a_mainindex args then
        match lua_next a (e_iter self) with
        | None => Ok (inr SPROTO_CB_NIL, set_iter self None)
        | Some (k, v) => Ok (inl v, set_iter self (Some k))
        end
      else Ok (inl (tget a (KInteger (a_index args))), self)
  else Ok (inl (tget (e_tbl self) (KString (a_tagname args))), self).

Section EncodeLua.
Context `{LuaConv}.
Variable sp : sproto.

(** [v >> 31] tells whether 32 bits are enough. *)
Definition store_integer (v : Z) : Z * Z :=
  let vh := Z.shiftr v 31 in if (vh =? 0) || (vh =? -1) then (4, u32 v) else (8, u64 v).

Definition encode_integer_value (args : sproto_arg) (x : lua_value) : res Z :=
  if negb (a_extra args =? 0) then
    defined (float_round (SFmul 53 1024 (lua_tonumber x) (of_int (a_extra args))))
  else match lua_tointegerx x with Some v => Ok (i64 v) | None => Fail end.

(** The second part: the value [x] by type; [rec] encodes the fields of a
    nested structure. *)
Definition encode_value (rec : sproto_arg → encode_ud → block → res (Z * Z * encode_ud * block))
    (args : sproto_arg) (self : encode_ud) (b : block) (x : lua_value) : res (Z * Z * encode_ud * block) :=
  if a_type args =? SPROTO_TINTEGER then
    v ← encode_integer_value args x; let '(sz, u) := store_integer v in Ok (sz, u, self, b)
  else if a_type args =? SPROTO_TBOOLEAN then
    match x with
    | LBoolean v => Ok (4, if v then 1 else 0, self, b)
    | _ => Fail
    end
  else if a_type args =? SPROTO_TSTRING then
    match lua_tolstring x with
    | None => Fail
    | Some str =>
        let sz := Z.of_nat (length str) in
        if u64 (a_length args) <? sz then Ok (SPROTO_CB_ERROR, 0, self, b)
        else at_ ← defined (a_value args); b ← put b at_ str; Ok (sz, 0, self, b)
    end
  else if a_type args =? SPROTO_TSTRUCT then
    match x with
    | LTable t =>
        let sub := mk_eud t None None (e_deep self + 1) None in
        i ← defined (a_subtype args);
        st ← defined (arr_get (s_type sp) i);
        at_ ← defined (a_value args);
        '(r, _, b) ← sproto_encode rec st sub b at_ (a_length args);
        if r <? 0 then Ok (SPROTO_CB_ERROR, 0, self, b) else Ok (r, 0, self, b)
    | _ => Fail
    end
  else Fail.

Fixpoint encode (fuel : nat) (args : sproto_arg) (self : encode_ud) (b : block) : res (Z * Z * encode_ud * block) :=
  match fuel with
  | O => Undef
  | S fuel =>
      if ENCODE_DEEPLEVEL <=? e_deep self then Fail
      else
        '(v, self) ← encode_find args self;
        match v with
        | inr r => Ok (r, 0, self, b)
        | inl LNil => Ok (SPROTO_CB_NIL, 0, self, b)
        | inl x => encode_value (encode fuel) args self b x
        end
  end.

(** The nesting is at most [ENCODE_DEEPLEVEL]: a call at that level fails
    before it calls another one. *)
Definition ENCODE_FUEL : nat := 65.

(** ** [lencode] *)

Definition ENCODE_BUFFERSIZE : Z := 2050.
Definition ENCODE_MAXSIZE : Z := 16777216.

Fixpoint expand_size (fuel : nat) (osz nsz : Z) : Z :=
  match fuel with
  | O => osz
  | S fuel => let osz := osz * 2 in if osz <? nsz then expand_size fuel osz nsz else osz
  end.

(** The new block, kept for the next call. *)
Definition expand_buffer (osz nsz : Z) : res block :=
  let osz := expand_size 32 osz nsz in
  if ENCODE_MAXSIZE <? osz then Fail else Ok (malloc osz).

Fixpoint lencode_loop (fuel : nat) (st : sproto_type) (tbl : table) (b : block) (sz : Z) : res (list Z * block) :=
  match fuel with
  | O => Undef
  | S fuel =>
      '(r, _, b) ← sproto_encode (encode ENCODE_FUEL) st (mk_eud tbl None None 0 None) b 0 sz;
      if r <? 0 then b ← expand_buffer sz (sz * 2); lencode_loop fuel st tbl b (sz * 2)
      else out ← fetch b 0 r; Ok (out, b)
  end.

(** The string and the block kept as an upvalue; a NULL type encodes nil. *)
Definition lencode (st : option Z) (v : lua_value) (b : block) : res (list Z * block) :=
  match st with
  | None => match v with LNil => Ok ([], b) | _ => Fail end
  | Some i =>
      st ← defined (arr_get (s_type sp) i);
      match v with
      | LTable tbl => lencode_loop 32 st tbl b (Z.of_nat (length b))
      | _ => Fail
      end
  end.
End EncodeLua.

(** ** Decoding *)

Definition arg_word (a : sproto_arg) (v index : Z) : sproto_arg :=
  mk_arg (a_tagname a) (a_tagid a) (a_type a) (a_subtype a) None (Some v) 8 index (a_mainindex a) (a_extra a).

(** NULL: nothing of it is read. *)
Definition arg_null (a : sproto_arg) (index : Z) : sproto_arg :=
  mk_arg (a_tagname a) (a_tagid a) (a_type a) (a_subtype a) (Some 0) None 0 index (a_mainindex a) (a_extra a).

Definition expand64 (v : Z) : Z :=
  if negb (Z.land v 2147483648 =? 0) then Z.lor v (u64 (Z.shiftl (-1) 32)) else v.

Section Decode.
Context {UD : Type}.
Variable cb : sproto_arg → UD → res (Z * UD).
Variable d : list Z.

(** A loop that reads behind the message is [Undef]: as many rounds as it has
    bytes are enough. *)
Notation rounds := (S (length d)).

Fixpoint array_object_loop (fuel : nat) (args : sproto_arg) (ud : UD) (stream sz index : Z) : res (Z * UD) :=
  match fuel with
  | O => Undef
  | S fuel =>
      if 0 <? sz then
        if sz <? SIZEOF_LENGTH then Ok (-1, ud)
        else
          hsz ← defined (todword d stream);
          let stream := stream + SIZEOF_LENGTH in
          let sz := sz - SIZEOF_LENGTH in
          if sz <? hsz then Ok (-1, ud)
          else
            '(r, ud) ← cb (arg_at args stream hsz index) ud;
            if negb (r =? 0) then Ok (-1, ud)
            else array_object_loop fuel args ud (stream + hsz) (sz - hsz) (index + 1)
      else Ok (0, ud)
  end.

Definition decode_array_object (args : sproto_arg) (ud : UD) (stream sz : Z) : res (Z * UD) :=
  array_object_loop rounds args ud stream (i32 sz) 1.

(** The loops over numbers: [n] of them, each read by [rd]. *)
Fixpoint array_number_loop (fuel : nat) (args : sproto_arg) (rd : Z → option Z) (ud : UD) (n i : Z) : res UD :=
  match fuel with
  | O => Undef
  | S fuel =>
      if i <? n then
        v ← defined (rd i);
        '(_, ud) ← cb (arg_word args v (i + 1)) ud;
        array_number_loop fuel args rd ud n (i + 1)
      else Ok ud
  end.

Definition decode_array (args : sproto_arg) (ud : UD) (stream : Z) : res (Z * UD) :=
  sz ← defined (todword d stream);
  if sz =? 0 then '(_, ud) ← cb (arg_null args (-1)) ud; Ok (0, ud)
  else
    let stream := stream + SIZEOF_LENGTH in
    if a_type args =? SPROTO_TINTEGER then
      len ← defined (arr_get d stream);
      let stream := stream + 1 in
      let sz := sz - 1 in
      if len =? SIZEOF_INT32 then
        if negb (sz mod SIZEOF_INT32 =? 0) then Ok (-1, ud)
        else
          ud ← array_number_loop rounds args (λ i, v ← todword d (stream + i * SIZEOF_INT32); Some (expand64 v)) ud (sz / SIZEOF_INT32) 0;
          Ok (0, ud)
      else if len =? SIZEOF_INT64 then
        if negb (sz mod SIZEOF_INT64 =? 0) then Ok (-1, ud)
        else
          ud ← array_number_loop rounds args
                 (λ i, low ← todword d (stream + i * SIZEOF_INT64);
                       hi ← todword d (stream + i * SIZEOF_INT64 + SIZEOF_INT32);
                       Some (Z.lor low (Z.shiftl hi 32))) ud (sz / SIZEOF_INT64) 0;
          Ok (0, ud)
      else Ok (-1, ud)
    else if a_type args =? SPROTO_TBOOLEAN then
      ud ← array_number_loop rounds args (λ i, arr_get d (stream + i)) ud sz 0; Ok (0, ud)
    else if (a_type args =? SPROTO_TSTRING) || (a_type args =? SPROTO_TSTRUCT) then decode_array_object args ud stream sz
    else Ok (-1, ud).

(** A field whose data is at [current]: 0 or -1. *)
Definition decode_data (f : field) (args : sproto_arg) (ud : UD) (current : Z) : res (Z * UD) :=
  if negb (Z.land (f_type f) SPROTO_TARRAY =? 0) then decode_array args ud current
  else if f_type f =? SPROTO_TINTEGER then
    sz ← defined (todword d current);
    if sz =? SIZEOF_INT32 then
      v ← defined (todword d (current + SIZEOF_LENGTH));
      '(_, ud) ← cb (arg_word args (expand64 v) 0) ud; Ok (0, ud)
    else if negb (sz =? SIZEOF_INT64) then Ok (-1, ud)
    else
      low ← defined (todword d (current + SIZEOF_LENGTH));
      hi ← defined (todword d (current + SIZEOF_LENGTH + SIZEOF_INT32));
      '(_, ud) ← cb (arg_word args (Z.lor low (Z.shiftl hi 32)) 0) ud; Ok (0, ud)
  else if (f_type f =? SPROTO_TSTRING) || (f_type f =? SPROTO_TSTRUCT) then
    sz ← defined (todword d current);
    '(r, ud) ← cb (arg_at args (current + SIZEOF_LENGTH) (i32 sz) 0) ud;
    Ok (if r =? 0 then 0 else -1, ud)
  else Ok (-1, ud).

(** The loop over the records; the result is -1 or the bytes left. *)
Fixpoint decode_fields (k : nat) (st : sproto_type) (ud : UD) (stream i datastream size tag : Z) : res ((Z + Z) * UD) :=
  match k with
  | O => Ok (inl size, ud)
  | S k =>
      value ← defined (toword d (stream + i * SIZEOF_FIELD));
      let tag := tag + 1 in
      if Z.odd value then decode_fields k st ud stream (i + 1) datastream size (tag + value / 2)
      else
        let value := value / 2 - 1 in
        let current := datastream in
        '(ok, datastream, size) ←
          (if value <? 0 then
             if size <? SIZEOF_LENGTH then Ok (false, datastream, size)
             else
               sz ← defined (todword d datastream);
               if u32 size <? u32 (sz + SIZEOF_LENGTH) then Ok (false, datastream, size)
               else Ok (true, datastream + u32 (sz + SIZEOF_LENGTH), size - u32 (sz + SIZEOF_LENGTH))
           else Ok (true, datastream, size));
        if negb ok then Ok (inr (-1), ud)
        else
          match findtag st tag with
          | None => decode_fields k st ud stream (i + 1) datastream size tag
          | Some f =>
              name ← defined (f_name f);
              let args := arg_of f name in
              if value <? 0 then
                '(r, ud) ← decode_data f args ud current;
                if negb (r =? 0) then Ok (inr (-1), ud)
                else decode_fields k st ud stream (i + 1) datastream size tag
              else if negb (f_type f =? SPROTO_TINTEGER) && negb (f_type f =? SPROTO_TBOOLEAN) then Ok (inr (-1), ud)
              else
                '(_, ud) ← cb (arg_word args value 0) ud;
                decode_fields k st ud stream (i + 1) datastream size tag
          end
  end.

Definition sproto_decode (st : sproto_type) (ud : UD) (data size : Z) : res (Z * UD) :=
  if size <? SIZEOF_HEADER then Ok (-1, ud)
  else
    fn ← defined (toword d data);
    let stream := data + SIZEOF_HEADER in
    let total := size in
    let size := size - SIZEOF_HEADER in
    if size <? fn * SIZEOF_FIELD then Ok (-1, ud)
    else
      '(r, ud) ← decode_fields (Z.to_nat fn) st ud stream 0 (stream + fn * SIZEOF_FIELD) (size - fn * SIZEOF_FIELD) (-1);
      match r with
      | inr r => Ok (r, ud)
      | inl size => Ok (total - size, ud)
      end.
End Decode.

(** ** The callback of the decoder: [decode] of lsproto.c

    [d_result] is the table at [result_index].  The table at [array_index] is
    the one under the name [d_array] of it ([None] for index 0); [d_key] is
    the slot at [key_index]. *)

Record decode_ud := mk_dud {
  d_result : table;
  d_array_tag : option Z;
  d_array : option (list Z);
  d_deep : Z;
  d_mainindex_tag : Z;
  d_key : lua_value
}.

Definition set_result (self : decode_ud) (t : table) : decode_ud :=
  mk_dud t (d_array_tag self) (d_array self) (d_deep self) (d_mainindex_tag self) (d_key self).
Definition set_key (self : decode_ud) (k : lua_value) : decode_ud :=
  mk_dud (d_result self) (d_array_tag self) (d_array self) (d_deep self) (d_mainindex_tag self) k.

(** An assignment to the table at [array_index]. *)
Definition array_assign (self : decode_ud) (k : lua_key) (v : lua_value) : res decode_ud :=
  name ← defined (d_array self);
  match tget (d_result self) (KString name) with
  | LTable a => Ok (set_result self (tset (d_result self) (KString name) (LTable (tset a k v))))
  | _ => Undef
  end.

(** An array begins: a new table, also for one that is empty. *)
Definition decode_begin (args : sproto_arg) (self : decode_ud) : bool * decode_ud :=
  if negb (a_index args =? 0) && negb (bool_decide (d_array_tag self = Some (a_tagid args)))
  then (a_index args <? 0,
        mk_dud (tset (d_result self) (KString (a_tagname args)) (LTable [])) (Some (a_tagid args)) (Some (a_tagname args))
               (d_deep self) (d_mainindex_tag self) (d_key self))
  else (false, self).

(** The value on top of the stack is stored. *)
Definition decode_store (args : sproto_arg) (self : decode_ud) (v : lua_value) : res decode_ud :=
  if 0 <? a_index args then array_assign self (KInteger (a_index args)) v
  else
    let self := if d_mainindex_tag self =? a_tagid args then set_key self v else self in
    Ok (set_result self (tset (d_result self) (KString (a_tagname args)) v)).

Section DecodeLua.
Variable sp : sproto.
Variable d : list Z.

Definition push_integer (args : sproto_arg) (w : Z) : lua_value :=
  if negb (a_extra args =? 0) then LNumber (SFdiv 53 1024 (of_int (i64 w)) (of_int (a_extra args)))
  else LInteger (i64 w).

(** A negative length is a string too long to allocate. *)
Definition push_string (off len : Z) : res lua_value :=
  if len <? 0 then Fail
  else if (0 <=? off) && (off + len <=? Z.of_nat (length d)) then Ok (LString (take (Z.to_nat len) (drop (Z.to_nat off) d)))
  else Undef.

(** A value by type; [rec] stores the fields of a nested structure. *)
Definition decode_value (rec : sproto_arg → decode_ud → res (Z * decode_ud))
    (args : sproto_arg) (self : decode_ud) : res (Z * decode_ud) :=
  if a_type args =? SPROTO_TINTEGER then
    w ← defined (a_word args); self ← decode_store args self (push_integer args w); Ok (0, self)
  else if a_type args =? SPROTO_TBOOLEAN then
    w ← defined (a_word args); self ← decode_store args self (LBoolean (negb (i32 w =? 0))); Ok (0, self)
  else if a_type args =? SPROTO_TSTRING then
    at_ ← defined (a_value args);
    s ← push_string at_ (a_length args); self ← decode_store args self s; Ok (0, self)
  else if a_type args =? SPROTO_TSTRUCT then
    i ← defined (a_subtype args);
    st ← defined (arr_get (s_type sp) i);
    at_ ← defined (a_value args);
    let maintag := if 0 <=? a_mainindex args then a_mainindex args else -1 in
    let sub := mk_dud [] None None (d_deep self + 1) maintag LNil in
    '(r, sub) ← sproto_decode rec d st sub at_ (a_length args);
    if r <? 0 then Ok (SPROTO_CB_ERROR, self)
    else if negb (r =? a_length args) then Ok (r, self)
    else if 0 <=? a_mainindex args then
      k ← to_key (d_key sub);
      self ← array_assign self k (LTable (d_result sub)); Ok (0, self)
    else self ← decode_store args self (LTable (d_result sub)); Ok (0, self)
  else Fail.

Fixpoint decode (fuel : nat) (args : sproto_arg) (self : decode_ud) : res (Z * decode_ud) :=
  match fuel with
  | O => Undef
  | S fuel =>
      if ENCODE_DEEPLEVEL <=? d_deep self then Fail
      else let '(stop, self) := decode_begin args self in
           if stop then Ok (0, self) else decode_value (decode fuel) args self
  end.

Definition DECODE_FUEL : nat := 65.

(** ** [ldecode]: the table and the number of bytes read.  [into] is the table
    given as the last argument, if any. *)
Definition ldecode (st : option Z) (into : option table) : res (option (table * Z)) :=
  match st with
  | None => Ok None
  | Some i =>
      st ← defined (arr_get (s_type sp) i);
      let self := mk_dud (default [] into) None None 0 (-1) LNil in
      '(r, self) ← sproto_decode (decode DECODE_FUEL) d st self 0 (i32 (Z.of_nat (length d)));
      if r <? 0 then Fail else Ok (Some (d_result self, r))
  end.
End DecodeLua.

(** ** [lpack] and [lunpack]

    Both keep a block of their own as an upvalue; [lunpack] finds out the size
    with the block it has and unpacks again into a larger one. *)

Definition lpack (src : list Z) (b : block) : res (list Z * block) :=
  let maxsz := pack_maxsz (Z.of_nat (length src)) in
  let osz := Z.of_nat (length b) in
  b ← (if osz <? maxsz then expand_buffer osz maxsz else Ok b);
  '(bytes, b) ← defined (sproto_pack src b maxsz);
  if maxsz <? bytes then Fail else out ← fetch b 0 bytes; Ok (out, b).

Definition lunpack (src : list Z) (b : block) : res (list Z * block) :=
  let osz := Z.of_nat (length b) in
  '(r, b) ← defined (sproto_unpack src b osz);
  if r <? 0 then Fail
  else
    '(r, b) ← (if osz <? r then b ← expand_buffer osz r; defined (sproto_unpack src b r) else Ok (r, b));
    if r <? 0 then Fail else out ← fetch b 0 r; Ok (out, b).
