(* ===== verification/SprotoWire.v ===== *)
(** * What sproto puts on the wire

    The abstract side of SprotoCodec.v: messages as a datatype, the bytes of a
    message ([wire]), and the message a callback describes, field by field.
    [CallbackSpec] is what [sproto_encode] relies on of its callback; the
    theorem of this file is that with any such callback it writes [wire] of the
    message described, or reports that the buffer is too small. *)

From Stdlib Require Import ZArith Lia.
From stdpp Require Import base tactics option numbers list strings.
From S2P Require Import Prelude Libc SprotoTypes SprotoCodec.

(** ** Messages

    The fields of a structure by tag, in ascending order, those present only. *)

Inductive msg :=
  | MInt (v : Z)
  | MBool (b : bool)
  | MStr (s : list Z)
  | MArray (vs : list msg)
  | MStruct (fs : list (Z * msg)).

Definition fits32 (v : Z) : bool := (- 2 ^ 31 <=? v) && (v <? 2 ^ 31).
Definition int_of (m : msg) : Z := match m with MInt v => v | _ => 0 end.
Definition bool_of (m : msg) : Z := match m with MBool true => 1 | _ => 0 end.

(** What a record holds of a field: 0 when it has data. *)
Definition inline (m : msg) : Z :=
  match m with
  | MInt v => if (0 <=? v) && (v <? 32767) then (v + 1) * 2 else 0
  | MBool b => if b then 4 else 2
  | _ => 0
  end.

(** The records: a gap of tags is one of its own. *)
Fixpoint words (last : Z) (fs : list (Z * msg)) : list Z :=
  match fs with
  | [] => []
  | (t, m) :: fs => (if last + 1 <? t then [(t - last - 2) * 2 + 1] else []) ++ inline m :: words t fs
  end.

Definition sized (w : list Z) : list Z := le_bytes 4 (Z.of_nat (length w)) ++ w.

(** The width of the integers of an array. *)
Definition width (vs : list Z) : nat := if forallb fits32 vs then 4 else 8.
Definition wire_ints (vs : list Z) : list Z := Z.of_nat (width vs) :: concat (map (le_bytes (width vs)) vs).

Fixpoint wire (m : msg) : list Z :=
  match m with
  | MInt v => le_bytes (width [v]) v
  | MBool _ => []
  | MStr s => s
  | MArray vs =>
      match vs with
      | [] => []
      | MInt _ :: _ => wire_ints (map int_of vs)
      | MBool _ :: _ => map bool_of vs
      | _ => concat (map (λ v, sized (wire v)) vs)
      end
  | MStruct fs =>
      le_bytes 2 (Z.of_nat (length (words (-1) fs))) ++ concat (map (le_bytes 2) (words (-1) fs)) ++
      concat (map (λ '(_, m), if inline m =? 0 then sized (wire m) else []) fs)
  end.

Definition data_of (fs : list (Z * msg)) : list Z :=
  concat (map (λ '(_, m), if inline m =? 0 then sized (wire m) else []) fs).

(** ** Contents

    What a callback has for a field.  An element is the message it stands for,
    if it can be encoded, and a size of the buffer that is enough for it. *)

Notation elt := (res msg * Z)%type.

Inductive content :=
  | CFail
  | CAbsent
  | CSingle (e : elt)
  | CArray (es : list elt).

Fixpoint elts_view (es : list elt) : res (list msg) :=
  match es with
  | [] => Ok []
  | e :: es => m ← e.1; ms ← elts_view es; Ok (m :: ms)
  end.

Definition content_view (c : content) : res (option msg) :=
  match c with
  | CFail => Fail
  | CAbsent => Ok None
  | CSingle e => m ← e.1; Ok (Some m)
  | CArray es => ms ← elts_view es; Ok (Some (MArray ms))
  end.

Fixpoint fields_view (c : field → content) (fs : list field) : res (list (Z * msg)) :=
  match fs with
  | [] => Ok []
  | f :: fs =>
      o ← content_view (c f);
      ms ← fields_view c fs;
      Ok (match o with Some m => (f_tag f, m) :: ms | None => ms end)
  end.

Fixpoint elts_room (es : list elt) : Z :=
  match es with
  | [] => 0
  | e :: es => SIZEOF_LENGTH + Z.max 8 e.2 + elts_room es
  end.

(** Room enough for a field, nested headers at full size. *)
Definition content_room (c : content) : Z :=
  match c with
  | CFail => 0
  | CAbsent => 8
  | CSingle e => SIZEOF_LENGTH + Z.max 8 e.2
  | CArray es => 13 + elts_room es
  end.

Fixpoint fields_room (c : field → content) (fs : list field) : Z :=
  match fs with
  | [] => 0
  | f :: fs => content_room (c f) + fields_room c fs
  end.

Definition header_room (st : sproto_type) : Z := SIZEOF_HEADER + t_maxn st * SIZEOF_FIELD.

(** ** Cells of a block *)

(** The block holds [bytes] at [off]. *)
Definition has (b : block) (off : Z) (bytes : list Z) : Prop :=
  ∀ i x, bytes !! i = Some x → b !! (Z.to_nat off + i)%nat = Some (Some x).

(** Two blocks differ within [lo, hi) only. *)
Definition same_out (b b' : block) (lo hi : Z) : Prop :=
  length b' = length b ∧ ∀ i, Z.of_nat i < lo ∨ hi <= Z.of_nat i → b' !! i = b !! i.

Lemma same_out_refl b lo hi : same_out b b lo hi.
Proof. done. Qed.

Lemma same_out_trans b1 b2 b3 lo hi : same_out b1 b2 lo hi → same_out b2 b3 lo hi → same_out b1 b3 lo hi.
Proof. intros [E1 H1] [E2 H2]. split; [congruence|]. intros i Hi. by rewrite H2, H1. Qed.

Lemma same_out_mono b b' lo hi lo' hi' : same_out b b' lo hi → lo' <= lo → hi <= hi' → same_out b b' lo' hi'.
Proof. intros [E H] ? ?. split; [done|]. intros i Hi. apply H. lia. Qed.

Lemma same_out_length b b' lo hi : same_out b b' lo hi → length b' = length b.
Proof. by intros []. Qed.

Lemma has_nil b off : has b off [].
Proof. by intros i x H. Qed.

Lemma has_app b off x y : 0 <= off → has b off (x ++ y) ↔ has b off x ∧ has b (off + Z.of_nat (length x)) y.
Proof.
  intros Ho. split.
  - intros H. split; intros i z Hi.
    + apply H. by apply lookup_app_l_Some.
    + replace (Z.to_nat (off + Z.of_nat (length x)) + i)%nat with (Z.to_nat off + (length x + i))%nat by lia.
      apply H. rewrite lookup_app_r by lia. by replace (length x + i - length x)%nat with i by lia.
  - intros [Hx Hy] i z [Hi|[Hl Hi]]%lookup_app_Some; [by apply Hx|].
    specialize (Hy _ _ Hi).
    by replace (Z.to_nat off + i)%nat with (Z.to_nat (off + Z.of_nat (length x)) + (i - length x))%nat by lia.
Qed.

Lemma has_frame b b' lo hi off bytes :
  same_out b b' lo hi → 0 <= off → off + Z.of_nat (length bytes) <= lo ∨ hi <= off → has b off bytes → has b' off bytes.
Proof.
  intros [_ H] Ho Hd Hb i x Hi. rewrite H; [by apply Hb|].
  pose proof (lookup_lt_Some _ _ _ Hi). lia.
Qed.

Lemma put_has b off bytes :
  0 <= off → off + Z.of_nat (length bytes) <= Z.of_nat (length b) →
  ∃ b', put b off bytes = Ok b' ∧ has b' off bytes ∧ same_out b b' off (off + Z.of_nat (length bytes)).
Proof.
  intros Ho Hb. unfold put, memcpy.
  repeat match goal with |- context [(?a <=? ?b)] => destruct (Z.leb_spec a b); [|lia] end. cbn.
  rewrite Nat2Z.id, (take_ge bytes) by lia. eexists. split; [done|].
  replace (Z.to_nat (off + Z.of_nat (length bytes))) with (Z.to_nat off + length bytes)%nat by lia.
  split.
  - intros i x Hi. rewrite lookup_app_r by (rewrite length_take; lia).
    rewrite length_take, Nat.min_l by lia. replace (Z.to_nat off + i - Z.to_nat off)%nat with i by lia.
    apply lookup_app_l_Some. by rewrite list_lookup_fmap, Hi.
  - split; [rewrite !length_app, length_take, length_fmap, length_drop; lia|].
    intros i [Hi|Hi].
    + rewrite lookup_app_l by (rewrite length_take; lia). apply lookup_take_lt. lia.
    + rewrite lookup_app_r by (rewrite length_take; lia).
      rewrite length_take, Nat.min_l by lia. rewrite lookup_app_r by (rewrite length_fmap; lia).
      rewrite length_fmap, lookup_drop. f_equal. lia.
Qed.

Lemma fetch_ok b off bytes n :
  has b off bytes → n = Z.of_nat (length bytes) → 0 <= off → off + n <= Z.of_nat (length b) → fetch b off n = Ok bytes.
Proof.
  intros Hb -> Ho Hl. unfold fetch.
  repeat match goal with |- context [(?a <=? ?b)] => destruct (Z.leb_spec a b); [|lia] end. cbn.
  replace (take _ _) with (Some <$> bytes).
  - by rewrite mapM_written.
  - apply list_eq. intros i. rewrite Nat2Z.id. destruct (decide (i < length bytes)%nat) as [Hi|Hi].
    + destruct (lookup_lt_is_Some_2 _ _ Hi) as [x Hx]. rewrite lookup_take_lt, lookup_drop by done.
      rewrite (Hb _ _ Hx). by rewrite list_lookup_fmap, Hx.
    + rewrite !lookup_ge_None_2; [done| |]; rewrite ?length_take, ?length_fmap; lia.
Qed.

(** ** Words as bytes *)

Lemma bytes2_le v : bytes2 v = le_bytes 2 v.
Proof. unfold bytes2. cbn. by rewrite !land_255, Z.shiftr_div_pow2 by lia. Qed.

Lemma le_bytes_app n m v : le_bytes (n + m) v = le_bytes n v ++ le_bytes m (v / 256 ^ Z.of_nat n).
Proof.
  revert v. induction n as [|n IH]; intros v; [cbn; by rewrite Z.div_1_r|].
  cbn [Nat.add le_bytes app]. rewrite IH. do 3 f_equal.
  rewrite Nat2Z.inj_succ, Z.pow_succ_r, Z.div_div by lia. done.
Qed.

Lemma bytes4_le v : bytes4 v = le_bytes 4 v.
Proof. unfold bytes4. rewrite !bytes2_le, Z.shiftr_div_pow2 by lia. by rewrite (le_bytes_app 2 2). Qed.

Lemma bytes8_le v : bytes8 v = le_bytes 8 v.
Proof. unfold bytes8. rewrite !bytes4_le, Z.shiftr_div_pow2 by lia. by rewrite (le_bytes_app 4 4). Qed.

Lemma le_bytes_mod n v : le_bytes n (v mod 256 ^ Z.of_nat n) = le_bytes n v.
Proof.
  revert v. induction n as [|n IH]; intros v; [done|]. cbn [le_bytes].
  rewrite Nat2Z.inj_succ, Z.pow_succ_r, Z.rem_mul_r by lia.
  rewrite (Z.mul_comm 256 (_ mod _)), Z.mod_add, Z.mod_mod by lia. f_equal.
  rewrite <- (IH (v / 256)), Z.div_add, (Z.div_small (v mod 256)) by (try apply Z.mod_pos_bound; lia). done.
Qed.

Lemma le_bytes_u32 v : le_bytes 4 (u32 v) = le_bytes 4 v.
Proof. apply (le_bytes_mod 4). Qed.

Lemma u32_idem v : u32 (u32 v) = u32 v.
Proof. by apply Z.mod_mod. Qed.

Lemma le_bytes_u64 v : le_bytes 8 (u64 v) = le_bytes 8 v.
Proof. apply (le_bytes_mod 8). Qed.

#[global] Hint Rewrite bytes2_le bytes4_le bytes8_le le_bytes_u32 le_bytes_u64 le_bytes_length : sproto.

(** A 32-bit number widened as the code widens it. *)
Lemma le_bytes_widen v : fits32 v = true →
  le_bytes 8 v = le_bytes 4 v ++ (if v <? 0 then [255; 255; 255; 255] else [0; 0; 0; 0]).
Proof.
  unfold fits32. intros H. bool_to_prop. rewrite (le_bytes_app 4 4). f_equal.
  destruct (Z.ltb_spec v 0).
  - by replace (v / 256 ^ Z.of_nat 4) with (-1) by dlia.
  - by replace (v / 256 ^ Z.of_nat 4) with 0 by dlia.
Qed.

(** ** What the encoder relies on of its callback *)

Definition int64 (v : Z) : Prop := - 2 ^ 63 <= v < 2 ^ 63.

(** An element of the type [t] of its field. *)
Definition kind_ok (t : Z) (m : msg) : Prop :=
  match m with
  | MInt v => t = SPROTO_TINTEGER ∧ int64 v
  | MBool _ => t = SPROTO_TBOOLEAN
  | MStr _ => t = SPROTO_TSTRING
  | MStruct _ => t = SPROTO_TSTRUCT
  | MArray _ => False
  end.

Definition elt_kind (t : Z) (e : elt) : Prop := match e.1 with Ok m => kind_ok t m | _ => True end.

(** The arguments of a call for the element [i] of a field. *)
Record args_for (f : field) (i : Z) (args : sproto_arg) : Prop := {
  af_name : f_name f = Some (a_tagname args);
  af_tag : a_tagid args = f_tag f;
  af_type : a_type args = elt_type f;
  af_subtype : a_subtype args = f_st f;
  af_index : a_index args = i;
  af_key : a_mainindex args = f_key f;
  af_extra : a_extra args = f_extra f
}.

Definition BLOCK_MAX : Z := 2 ^ 31.

(** The place for an object lies within the block. *)
Definition in_block (args : sproto_arg) (b : block) : Prop :=
  Z.of_nat (length b) <= BLOCK_MAX ∧
  (a_type args ≠ SPROTO_TINTEGER → a_type args ≠ SPROTO_TBOOLEAN →
   ∃ p, a_value args = Some p ∧ 0 <= p ∧ 0 <= a_length args ∧ p + a_length args <= Z.of_nat (length b)).

Section Spec.
Context {UD : Type}.
Variable cb : sproto_arg → UD → block → res (Z * Z * UD * block).

(** A number is returned, an object is written where it was asked to be, an
    element that can not be encoded fails now or when there is more room. *)
Definition elt_post (e : elt) (args : sproto_arg) (ud : UD) (b : block) (Q : UD → Prop) : Prop :=
  match e.1 with
  | Undef => True
  | Fail => cb args ud b = Fail ∨ ∃ u ud' b', cb args ud b = Ok (SPROTO_CB_ERROR, u, ud', b')
  | Ok (MInt v) => ∃ ud', cb args ud b = Ok ((store_integer v).1, (store_integer v).2, ud', b) ∧ Q ud'
  | Ok (MBool x) => ∃ ud', cb args ud b = Ok (4, if x then 1 else 0, ud', b) ∧ Q ud'
  | Ok m =>
      (∃ u ud' b', cb args ud b = Ok (SPROTO_CB_ERROR, u, ud', b') ∧ a_length args < e.2) ∨
      ∃ p u ud' b', a_value args = Some p ∧ cb args ud b = Ok (Z.of_nat (length (wire m)), u, ud', b') ∧
        Z.of_nat (length (wire m)) <= a_length args ∧ Z.of_nat (length (wire m)) <= e.2 ∧
        has b' p (wire m) ∧ same_out b b' p (p + a_length args) ∧ Q ud'
  end.

(** [ready fs] is the state before the fields [fs], [inside f es fs] the state
    in the array [f] with the elements [es] to come. *)
Record CallbackSpec (c : field → content) (ready : list field → UD → Prop)
    (inside : field → list elt → list field → Z → UD → Prop) : Prop := {
  cs_single f fs ud b args :
    ready (f :: fs) ud → is_array f = false → args_for f 0 args → in_block args b →
    match c f with
    | CFail => cb args ud b = Fail
    | CAbsent => ∃ ud', cb args ud b = Ok (SPROTO_CB_NIL, 0, ud', b) ∧ ready fs ud'
    | CSingle e => elt_kind (elt_type f) e ∧ elt_post e args ud b (ready fs)
    | CArray _ => False
    end;
  cs_array f fs ud :
    ready (f :: fs) ud → is_array f = true →
    match c f with
    | CFail => ∀ b args, args_for f 1 args → cb args ud b = Fail
    | CAbsent => ∀ b args, args_for f 1 args → ∃ ud', cb args ud b = Ok (SPROTO_CB_NOARRAY, 0, ud', b) ∧ ready fs ud'
    | CSingle _ => False
    | CArray es => Forall (elt_kind (elt_type f)) es ∧ inside f es fs 1 ud
    end;
  cs_next f e es fs i ud b args :
    inside f (e :: es) fs i ud → args_for f i args → in_block args b → elt_post e args ud b (inside f es fs (i + 1));
  cs_end f fs i ud b args :
    inside f [] fs i ud → args_for f i args → ∃ ud', cb args ud b = Ok (SPROTO_CB_NIL, 0, ud', b) ∧ ready fs ud'
}.
End Spec.

(** ** The arrays *)

Lemma length_sized w : Z.of_nat (length (sized w)) = 4 + Z.of_nat (length w).
Proof. unfold sized. rewrite length_app, le_bytes_length. lia. Qed.

(** A length word written before an object that is there already. *)
Lemma fill_size_ok b off w :
  0 <= off → off + 4 + Z.of_nat (length w) <= Z.of_nat (length b) → has b (off + 4) w →
  ∃ b', fill_size b off (Z.of_nat (length w)) = Ok (Z.of_nat (length w) + 4, b') ∧
    has b' off (sized w) ∧ same_out b b' off (off + 4).
Proof.
  intros Ho Hl Hw. unfold fill_size. rewrite bytes4_le.
  destruct (put_has b off (le_bytes 4 (Z.of_nat (length w)))) as (b' & -> & Hb' & Hs); [done|rewrite le_bytes_length; lia|].
  rewrite le_bytes_length in Hs. exists b'. split; [done|]. split; [|done]. unfold sized. apply has_app; [done|].
  split; [done|]. rewrite le_bytes_length. eapply has_frame; [done|lia| |done]. lia.
Qed.

Lemma args_for_at f name p l i : f_name f = Some name → args_for f i (arg_at (arg_of f name) p l i).
Proof. by split. Qed.

Lemma args_for_local f name l i : f_name f = Some name → args_for f i (arg_local (arg_of f name) l i).
Proof. by split. Qed.

Lemma in_block_at f name p l i b :
  Z.of_nat (length b) <= BLOCK_MAX → 0 <= p → 0 <= l → p + l <= Z.of_nat (length b) →
  in_block (arg_at (arg_of f name) p l i) b.
Proof. intros. split; [done|]. intros _ _. by exists p. Qed.

Lemma in_block_local f name l i b :
  Z.of_nat (length b) <= BLOCK_MAX → elt_type f = SPROTO_TINTEGER ∨ elt_type f = SPROTO_TBOOLEAN →
  in_block (arg_local (arg_of f name) l i) b.
Proof. intros Hb Ht. split; [done|]. cbn. unfold elt_type in Ht. intros H0 H1. by destruct Ht. Qed.

Section Arrays.
Context {UD : Type} (cb : sproto_arg → UD → block → res (Z * Z * UD * block)).
Context (c : field → content) (ready : list field → UD → Prop) (inside : field → list elt → list field → Z → UD → Prop).
Context (Hcb : CallbackSpec cb c ready inside).

(** A loop over the elements [es] writes [bytes], or gives up: because the
    elements can not be encoded or the block is too small. *)
Definition loop_post {X} (es : list elt) (fs : list field) (b : block) (start size room : Z) (stop : X)
    (done : Z → X) (bytes : list msg → list Z) (r : res (X * UD * block)) : Prop :=
  match elts_view es with
  | Undef => True
  | Fail => r = Fail ∨ ∃ ud' b', r = Ok (stop, ud', b')
  | Ok ms =>
      (∃ ud' b', r = Ok (stop, ud', b') ∧ size < room) ∨
      ∃ ud' b', r = Ok (done (start + Z.of_nat (length (bytes ms))), ud', b') ∧
        has b' start (bytes ms) ∧ same_out b b' start (start + size) ∧
        Z.of_nat (length (bytes ms)) <= size ∧ Z.of_nat (length (bytes ms)) <= room ∧ ready fs ud'
  end.

Definition objects (ms : list msg) : list Z := concat (map (λ m, sized (wire m)) ms).

(** An element that fails makes the loop fail. *)
Lemma elt_fail (e : elt) args ud b Q :
  e.1 = Fail → elt_post cb e args ud b Q →
  cb args ud b = Fail ∨ ∃ u ud' b', cb args ud b = Ok (SPROTO_CB_ERROR, u, ud', b').
Proof. intros He. unfold elt_post. by rewrite He. Qed.

Lemma elt_object (e : elt) m args ud b Q :
  e.1 = Ok m → kind_ok (a_type args) m → a_type args ≠ SPROTO_TINTEGER → a_type args ≠ SPROTO_TBOOLEAN →
  elt_post cb e args ud b Q →
  (∃ u ud' b', cb args ud b = Ok (SPROTO_CB_ERROR, u, ud', b') ∧ a_length args < e.2) ∨
  ∃ p u ud' b', a_value args = Some p ∧ cb args ud b = Ok (Z.of_nat (length (wire m)), u, ud', b') ∧
    Z.of_nat (length (wire m)) <= a_length args ∧ Z.of_nat (length (wire m)) <= e.2 ∧
    has b' p (wire m) ∧ same_out b b' p (p + a_length args) ∧ Q ud'.
Proof. intros He Hk H0 H1. unfold elt_post. rewrite He. destruct m; cbn in Hk; try done; by destruct Hk. Qed.

Lemma elts_room_nonneg es : 0 <= elts_room es.
Proof. induction es; cbn [elts_room]; unfold SIZEOF_LENGTH; lia. Qed.

Lemma loop_stop {X} es fs b start size room (stop : X) fin bytes ud' b' :
  size < room → loop_post es fs b start size room stop fin bytes (Ok (stop, ud', b')).
Proof. intros. unfold loop_post. destruct (elts_view es); eauto. Qed.

Lemma loop_fail {X} e es fs b start size room (stop : X) fin bytes r :
  e.1 = Fail → r = Fail ∨ (∃ ud' b', r = Ok (stop, ud', b')) →
  loop_post (e :: es) fs b start size room stop fin bytes r.
Proof. intros He. unfold loop_post. cbn. by rewrite He. Qed.

Lemma loop_undef {X} e es fs b start size room (stop : X) fin bytes r :
  e.1 = Undef → loop_post (e :: es) fs b start size room stop fin bytes r.
Proof. intros He. unfold loop_post. cbn. by rewrite He. Qed.

Lemma loop_nil {X} fs b start size room (stop : X) fin bytes ud' :
  bytes [] = [] → 0 <= size → 0 <= room → ready fs ud' → loop_post [] fs b start size room stop fin bytes (Ok (fin start, ud', b)).
Proof.
  intros Hb Hs Hroom Hr. unfold loop_post. cbn. right. exists ud', b. rewrite Hb. cbn. rewrite Z.add_0_r.
  split_and!; [done|apply has_nil|done|lia|lia|done].
Qed.

(** One element done, the rest by the loop. *)
Lemma loop_step {X} e es m w fs b b1 start size room room' (stop : X) fin bytes r :
  e.1 = Ok m → (∀ ms, bytes (m :: ms) = w ++ bytes ms) →
  0 <= start → has b1 start w → same_out b b1 start (start + size) → Z.of_nat (length w) <= size →
  room' + Z.of_nat (length w) <= room →
  loop_post es fs b1 (start + Z.of_nat (length w)) (size - Z.of_nat (length w)) room' stop fin bytes r →
  loop_post (e :: es) fs b start size room stop fin bytes r.
Proof.
  intros He Hw H0 Hh Hs Hlen Hroom. unfold loop_post. cbn. rewrite He. cbn [mbind res_bind].
  destruct (elts_view es) as [ms| |]; cbn [mbind res_bind]; [|done|done].
  intros [(ud' & b' & -> & ?)|(ud' & b' & -> & Hh' & Hs' & Hl' & Hrm & Hr)]; [left; eauto 6 with lia|].
  right. exists ud', b'. rewrite Hw, length_app, Nat2Z.inj_add, Z.add_assoc.
  split_and!; [done| | |lia|lia|done].
  - apply has_app; [done|]. split; [|done]. eapply has_frame; [done|done| |done]. lia.
  - eapply same_out_trans; [done|]. eapply same_out_mono; [done|lia|lia].
Qed.

Lemma object_loop_ok f name es fs i ud b buf size fuel :
  f_name f = Some name → elt_type f ≠ SPROTO_TINTEGER → elt_type f ≠ SPROTO_TBOOLEAN →
  Forall (elt_kind (elt_type f)) es → inside f es fs i ud → Z.of_nat (length b) <= BLOCK_MAX →
  0 <= buf → 0 <= size → buf + size <= Z.of_nat (length b) → size < Z.of_nat fuel →
  loop_post es fs b buf size (elts_room es + 4) (inr (-1)) inl objects
    (object_array_loop cb fuel (arg_of f name) ud b buf size i).
Proof.
  intros Hn H0 H1. revert i ud b buf size fuel.
  induction es as [|e es IH]; intros i ud b buf size fuel Hk Hin Hb Hp Hs Hl Hf;
    (destruct fuel as [|fuel]; [lia|]); cbn [object_array_loop]; unfold SIZEOF_LENGTH.
  - destruct (Z.ltb_spec size 4); [by apply loop_stop|].
    destruct (cs_end _ _ _ _ Hcb f fs i ud b _ Hin (args_for_at f name (buf + 4) (size - 4) i Hn)) as (ud' & -> & Hr).
    by apply loop_nil; cbn; try lia.
  - pose proof (elts_room_nonneg es). inversion Hk as [|? ? Hke Hkes]; subst. cbn [elts_room]. unfold SIZEOF_LENGTH.
    destruct (Z.ltb_spec size 4) as [Hs4|Hs4]; [apply loop_stop; lia|].
    pose proof (cs_next _ _ _ _ Hcb f e es fs i ud b _ Hin (args_for_at f name (buf + 4) (size - 4) i Hn)
      ltac:(apply in_block_at; lia)) as Hpost.
    destruct (e.1) as [m| |] eqn:He; [|apply loop_fail; [done|]|by apply loop_undef].
    + unfold elt_kind in Hke. rewrite He in Hke.
      apply (elt_object _ m) in Hpost; [|done..].
      destruct Hpost as [(u & ud' & b' & -> & Hlen)|(p & u & ud' & b' & [= <-] & -> & Hlen & Hroom & Hh & Hsame & Hin')]; cbn in Hlen.
      { cbn. apply loop_stop. lia. }
      cbn [mbind res_bind a_length arg_at] in *. destruct (Z.ltb_spec (Z.of_nat (length (wire m))) 0); [lia|].
      pose proof (same_out_length _ _ _ _ Hsame) as Hlb.
      destruct (fill_size_ok b' buf (wire m)) as (b2 & -> & Hh2 & Hsame2); [lia|lia|done|]. cbn [mbind res_bind].
      pose proof (same_out_length _ _ _ _ Hsame2). pose proof (length_sized (wire m)).
      eapply (loop_step e es m (sized (wire m)) fs b b2 buf size _ (elts_room es + 4)); [done|done|done|done| |lia|lia|].
      * eapply same_out_trans; [eapply same_out_mono; [exact Hsame|lia|lia]|eapply same_out_mono; [exact Hsame2|lia|lia]].
      * replace (buf + 4 + Z.of_nat (length (wire m))) with (buf + Z.of_nat (length (sized (wire m)))) by lia.
        replace (size - 4 - Z.of_nat (length (wire m))) with (size - Z.of_nat (length (sized (wire m)))) by lia.
        apply IH; try done; try congruence; lia.
    + apply (elt_fail _ _ _ _ _ He) in Hpost as [->|(u & ud' & b' & ->)]; cbn; eauto.
Qed.

Lemma boolean_loop_ok f name es fs i ud b buf size fuel :
  f_name f = Some name → elt_type f = SPROTO_TBOOLEAN →
  Forall (elt_kind (elt_type f)) es → inside f es fs i ud → Z.of_nat (length b) <= BLOCK_MAX →
  0 <= buf → 0 <= size → buf + size <= Z.of_nat (length b) → size < Z.of_nat fuel →
  loop_post es fs b buf size (elts_room es) (inr (-1)) inl (map bool_of)
    (boolean_array_loop cb fuel (arg_of f name) ud b buf size i).
Proof.
  intros Hn Ht. revert i ud b buf size fuel.
  induction es as [|e es IH]; intros i ud b buf size fuel Hk Hin Hb Hp Hs Hl Hf;
    (destruct fuel as [|fuel]; [lia|]); cbn [boolean_array_loop].
  - destruct (cs_end _ _ _ _ Hcb f fs i ud b _ Hin (args_for_local f name 4 i Hn)) as (ud' & -> & Hr).
    by apply loop_nil; cbn; try lia.
  - pose proof (elts_room_nonneg es). inversion Hk as [|? ? Hke Hkes]; subst. cbn [elts_room]. unfold SIZEOF_LENGTH.
    pose proof (cs_next _ _ _ _ Hcb f e es fs i ud b _ Hin (args_for_local f name 4 i Hn)
      ltac:(apply in_block_local; [done|by right])) as Hpost.
    destruct (e.1) as [m| |] eqn:He; [|apply loop_fail; [done|]|by apply loop_undef].
    + unfold elt_kind in Hke. rewrite He, Ht in Hke. unfold elt_post in Hpost. rewrite He in Hpost.
      destruct m as [|x| | |]; cbn in Hke; try done; [by destruct Hke|]. destruct Hpost as (ud' & -> & Hin').
      cbn [mbind res_bind]. destruct (Z.ltb_spec size 1); [by apply loop_stop; lia|].
      destruct (put_has b buf [if (if x then 1 else 0) =? 0 then 0 else 1]) as (b' & -> & Hh & Hsame); [lia|cbn; lia|].
      cbn [mbind res_bind]. pose proof (same_out_length _ _ _ _ Hsame).
      eapply (loop_step e es (MBool x) [bool_of (MBool x)] fs b b' buf size _ (elts_room es));
        [done|done|done|by destruct x| |cbn; lia|cbn; lia|].
      * eapply same_out_mono; [exact Hsame|lia|cbn; lia].
      * cbn [length]. apply IH; try done; try congruence; lia.
    + apply (elt_fail _ _ _ _ _ He) in Hpost as [->|(u & ud' & b' & ->)]; cbn; eauto.
Qed.
End Arrays.

(** ** Arrays of integers *)

Lemma store_fits v : int64 v → store_integer v = if fits32 v then (4, u32 v) else (8, u64 v).
Proof.
  unfold int64, store_integer, fits32. intros Hv. rewrite Z.shiftr_div_pow2 by lia.
  destruct (Z.eqb_spec (v / 2 ^ 31) 0), (Z.eqb_spec (v / 2 ^ 31) (-1)), (Z.leb_spec (- 2 ^ 31) v), (Z.ltb_spec v (2 ^ 31));
    cbn; try done; exfalso; dlia.
Qed.

Lemma land_pow2 v k : 0 <= k → Z.land v (2 ^ k) = if Z.testbit v k then 2 ^ k else 0.
Proof.
  intros Hk. apply Z.bits_inj'. intros n Hn. rewrite Z.land_spec, Z.pow2_bits_eqb by done.
  destruct (Z.eqb_spec k n) as [->|E].
  - destruct (Z.testbit v n) eqn:E; [by rewrite Z.pow2_bits_true|by rewrite Z.bits_0].
  - rewrite andb_false_r. destruct (Z.testbit v k); [by rewrite Z.pow2_bits_false|by rewrite Z.bits_0].
Qed.

Lemma testbit_top v k : 0 <= k → 0 <= v < 2 ^ (k + 1) → Z.testbit v k = (2 ^ k <=? v).
Proof.
  intros Hk Hv. rewrite Z.testbit_eqb by done. rewrite Z.pow_add_r in Hv by lia.
  pose proof (Z.pow_pos_nonneg 2 k ltac:(lia) Hk).
  destruct (Z.leb_spec (2 ^ k) v).
  - replace (v / 2 ^ k) with 1; [done|]. apply Z.div_unique with (v - 2 ^ k); lia.
  - by rewrite Z.div_small by lia.
Qed.

(** The sign bit of a 32-bit number, in the word and in its top byte. *)
Lemma sign_word v : fits32 v = true → negb (Z.land (u32 v) 2147483648 =? 0) = (v <? 0).
Proof.
  unfold fits32. intros H. bool_to_prop. change 2147483648 with (2 ^ 31).
  rewrite land_pow2, testbit_top by (try apply u32_range; lia). unfold u32.
  destruct (Z.leb_spec (2 ^ 31) (v mod 2 ^ 32)), (Z.ltb_spec v 0); try done; exfalso; dlia.
Qed.

Lemma sign_byte v : fits32 v = true → negb (Z.land ((v / 2 ^ 24) mod 256) 128 =? 0) = (v <? 0).
Proof.
  unfold fits32. intros H. bool_to_prop. change 128 with (2 ^ 7).
  rewrite land_pow2, testbit_top by (try (cbn; apply Z.mod_pos_bound); lia).
  destruct (Z.leb_spec (2 ^ 7) ((v / 2 ^ 24) mod 256)), (Z.ltb_spec v 0); try done; exfalso; dlia.
Qed.

Definition ints (w : nat) (vs : list Z) : list Z := concat (map (le_bytes w) vs).

Lemma ints_length w vs : length (ints w vs) = (w * length vs)%nat.
Proof. unfold ints. induction vs as [|v vs IH]; cbn; [lia|]. rewrite length_app, le_bytes_length, IH. lia. Qed.

Lemma ints_snoc w vs v : ints w (vs ++ [v]) = ints w vs ++ le_bytes w v.
Proof. unfold ints. rewrite map_app, concat_app. cbn. by rewrite app_nil_r. Qed.

Lemma widen_ok b p v :
  fits32 v = true → 0 <= p → p + 8 <= Z.of_nat (length b) → has b p (le_bytes 4 v) →
  ∃ b', uint32_to_uint64 (v <? 0) b p = Ok b' ∧ has b' p (le_bytes 8 v) ∧ same_out b b' (p + 4) (p + 8).
Proof.
  intros Hv Hp Hl Hh. rewrite le_bytes_widen by done. unfold uint32_to_uint64.
  set (ext := if v <? 0 then [255; 255; 255; 255] else [0; 0; 0; 0]).
  assert (Hlen : Z.of_nat (length ext) = 4) by (unfold ext; by destruct (v <? 0)).
  destruct (put_has b (p + 4) ext) as (b' & Hput & Hh' & Hs); [lia|lia|].
  exists b'. split; [unfold ext in Hput; by destruct (v <? 0)|].
  rewrite Hlen in Hs. replace (p + 4 + 4) with (p + 8) in Hs by lia. split; [|done].
  apply has_app; [done|]. rewrite le_bytes_length. split; [|done].
  eapply has_frame; [done|done| |done]. rewrite le_bytes_length. lia.
Qed.

Lemma rearrange_ok header vs b :
  Forall (λ v, fits32 v = true) vs → 0 <= header → header + 1 + 8 * Z.of_nat (length vs) <= Z.of_nat (length b) →
  has b (header + 1) (ints 4 vs) →
  ∃ b', rearrange (length vs) header b = Ok b' ∧ has b' (header + 1) (ints 8 vs) ∧
    same_out b b' (header + 1) (header + 1 + 8 * Z.of_nat (length vs)).
Proof.
  revert b. induction vs as [|v vs IH] using rev_ind; intros b Hv Hp Hl Hh.
  - exists b. split; [done|]. split; [apply has_nil|done].
  - apply Forall_app in Hv as [Hvs [Hv _]%Forall_cons]. rewrite ints_snoc in Hh.
    apply has_app in Hh as [Hh Hhv]; [|lia]. rewrite ints_length in Hhv.
    rewrite length_app, Nat.add_1_r in *. cbn [rearrange]. unfold SIZEOF_INT32, SIZEOF_INT64.
    set (i := Z.of_nat (length vs)) in *.
    rewrite (fetch_ok b _ (le_bytes 4 v)); [|by replace (header + 1 + i * 4) with (header + 1 + Z.of_nat (4 * length vs)) by lia|
      by rewrite le_bytes_length|lia|lia]. cbn [mbind res_bind].
    destruct (put_has b (header + 1 + i * 8) (le_bytes 4 v)) as (b1 & -> & Hh1 & Hs1); [lia|rewrite le_bytes_length; lia|].
    rewrite le_bytes_length in Hs1. pose proof (same_out_length _ _ _ _ Hs1). cbn [mbind res_bind].
    rewrite (fetch_ok b1 _ [(v / 2 ^ 24) mod 256]); [| |done|lia|lia].
    2: { change (le_bytes 4 v) with (le_bytes (3 + 1) v) in Hh1. rewrite le_bytes_app in Hh1.
         apply has_app in Hh1 as [_ Hh1]; [|lia]. rewrite le_bytes_length in Hh1. exact Hh1. }
    cbn [mbind res_bind hd]. rewrite sign_byte by done.
    destruct (widen_ok b1 (header + 1 + i * 8) v) as (b2 & -> & Hh2 & Hs2); [done|lia|lia|done|]. cbn [mbind res_bind].
    pose proof (same_out_length _ _ _ _ Hs2).
    destruct (IH b2) as (b' & -> & Hh' & Hs'); [done|done|lia| |].
    { eapply has_frame; [done|lia|rewrite ints_length; lia|]. eapply has_frame; [done|lia|rewrite ints_length; lia|done]. }
    exists b'. split; [done|]. split.
    + rewrite ints_snoc. apply has_app; [lia|]. split; [done|]. rewrite ints_length.
      replace (header + 1 + Z.of_nat (8 * length vs)) with (header + 1 + i * 8) by lia.
      eapply has_frame; [done|lia| |done]. lia.
    + eapply same_out_trans; [eapply same_out_mono; [exact Hs1|lia|lia]|].
      eapply same_out_trans; [eapply same_out_mono; [exact Hs2|lia|lia]|].
      eapply same_out_mono; [exact Hs'|lia|lia].
Qed.

Lemma width_snoc vs v : width (vs ++ [v]) = if fits32 v then width vs else 8%nat.
Proof. unfold width. rewrite forallb_app. cbn. by destruct (forallb fits32 vs), (fits32 v). Qed.

Lemma width_cases vs : width vs = 8%nat ∨ (width vs = 4%nat ∧ Forall (λ v, fits32 v = true) vs).
Proof.
  unfold width. destruct (forallb fits32 vs) eqn:E; [right|by left]. split; [done|].
  apply Forall_forall. intros v Hv. by apply (proj1 (forallb_forall _ _) E), list_elem_of_In.
Qed.

Section Integers.
Context {UD : Type} (cb : sproto_arg → UD → block → res (Z * Z * UD * block)).
Context (c : field → content) (ready : list field → UD → Prop) (inside : field → list elt → list field → Z → UD → Prop).
Context (Hcb : CallbackSpec cb c ready inside).
Context (f : field) (name : list Z) (fs : list field) (header total : Z).
Context (Hname : f_name f = Some name) (Htype : elt_type f = SPROTO_TINTEGER) (Hheader : 0 <= header).

Definition int_post (es : list elt) (vs : list Z) (b : block) (r : res (option (Z * Z * bool) * UD * block)) : Prop :=
  match elts_view es with
  | Undef => True
  | Fail => r = Fail ∨ ∃ ud' b', r = Ok (None, ud', b')
  | Ok ms =>
      let all := vs ++ map int_of ms in
      (∃ ud' b', r = Ok (None, ud', b') ∧ total < 8 * Z.of_nat (length all)) ∨
      ∃ ud' b', r = Ok (Some (header + 1 + Z.of_nat (length (ints (width all) all)), Z.of_nat (width all), false), ud', b') ∧
        has b' (header + 1) (ints (width all) all) ∧ same_out b b' (header + 1) (header + 1 + total) ∧
        Z.of_nat (length (ints (width all) all)) <= total ∧ ready fs ud'
  end.

Lemma elts_view_length es ms : elts_view es = Ok ms → length ms = length es.
Proof. revert ms. induction es as [|e es IH]; intros ms H; cbn in H; res_inv; cbn; [done|]. f_equal. by apply IH. Qed.

Lemma int_stop es vs b ud' b' :
  total < 8 * Z.of_nat (length vs + length es) → int_post es vs b (Ok (None, ud', b')).
Proof.
  intros Ht. unfold int_post. destruct (elts_view es) as [ms| |] eqn:He; eauto.
  left. do 2 eexists. split; [done|]. apply elts_view_length in He. rewrite length_app, length_map. lia.
Qed.

Lemma int_step e es v vs b b' r :
  e.1 = Ok (MInt v) → same_out b b' (header + 1) (header + 1 + total) →
  int_post es (vs ++ [v]) b' r → int_post (e :: es) vs b r.
Proof.
  intros He Hs. unfold int_post. cbn. rewrite He. cbn [mbind res_bind].
  destruct (elts_view es) as [ms| |]; cbn [mbind res_bind map int_of]; [|done|done].
  cbv zeta. rewrite <- app_assoc. cbn [app]. intros [(ud' & b2 & -> & ?)|(ud' & b2 & -> & Hh' & Hs' & Hl' & Hr)]; [left; eauto 6|].
  right. exists ud', b2. split_and!; try done. by eapply same_out_trans.
Qed.

(** The block after the numbers [vs]. *)
Record int_state (vs : list Z) (b : block) : Prop := {
  is_max : Z.of_nat (length b) <= BLOCK_MAX;
  is_bound : header + 1 + total <= Z.of_nat (length b);
  is_has : has b (header + 1) (ints (width vs) vs);
  is_room : Z.of_nat (length (ints (width vs) vs)) <= total
}.

Lemma int_store_same vs b v :
  int_state vs b → Z.of_nat (length (ints (width vs) vs)) + 8 <= total →
  width (vs ++ [v]) = width vs →
  ∃ b1, put b (header + 1 + Z.of_nat (length (ints (width vs) vs))) (le_bytes (width vs) v) = Ok b1 ∧
    int_state (vs ++ [v]) b1 ∧ same_out b b1 (header + 1) (header + 1 + total).
Proof.
  intros [Hmax Hbd Hh Hroom] Hr Hw. set (at_ := header + 1 + Z.of_nat (length (ints (width vs) vs))).
  assert (Hw8 : (width vs <= 8)%nat) by (destruct (width_cases vs) as [->|[-> _]]; lia).
  destruct (put_has b at_ (le_bytes (width vs) v)) as (b1 & Hput & Hh1 & Hs1); [lia|rewrite le_bytes_length; lia|].
  rewrite le_bytes_length in Hs1. pose proof (same_out_length _ _ _ _ Hs1).
  exists b1. split; [done|]. split; [|eapply same_out_mono; [exact Hs1|lia|lia]].
  split; rewrite ?Hw, ?ints_snoc, ?length_app, ?le_bytes_length; [lia|lia| |lia].
  apply has_app; [lia|]. split; [|done]. eapply has_frame; [done|lia| |done]. lia.
Qed.

(** A narrow number among wide ones. *)
Lemma int_store_widen vs b v :
  int_state vs b → width vs = 8%nat → fits32 v = true → Z.of_nat (length (ints (width vs) vs)) + 8 <= total →
  ∃ b1 b2, put b (header + 1 + Z.of_nat (length (ints (width vs) vs))) (le_bytes 4 v) = Ok b1 ∧
    uint32_to_uint64 (v <? 0) b1 (header + 1 + Z.of_nat (length (ints (width vs) vs))) = Ok b2 ∧
    int_state (vs ++ [v]) b2 ∧ same_out b b2 (header + 1) (header + 1 + total).
Proof.
  intros [Hmax Hbd Hh Hroom] Hw Hv Hr. set (at_ := header + 1 + Z.of_nat (length (ints (width vs) vs))).
  destruct (put_has b at_ (le_bytes 4 v)) as (b1 & Hput & Hh1 & Hs1); [lia|rewrite le_bytes_length; lia|].
  rewrite le_bytes_length in Hs1. pose proof (same_out_length _ _ _ _ Hs1).
  destruct (widen_ok b1 at_ v) as (b2 & Hwid & Hh2 & Hs2); [done|lia|lia|done|].
  pose proof (same_out_length _ _ _ _ Hs2).
  exists b1, b2. split_and!; [done|done| |].
  - assert (Hw2 : width (vs ++ [v]) = 8%nat) by (by rewrite width_snoc, Hv).
    subst at_. rewrite Hw in *. split; rewrite ?Hw2, ?ints_snoc, ?length_app, ?le_bytes_length; [lia|lia| |lia]. apply has_app; [lia|]. split; [|done].
    eapply has_frame; [done|lia|lia|]. eapply has_frame; [done|lia|lia|done].
  - eapply same_out_trans; eapply same_out_mono; [exact Hs1|lia|lia|exact Hs2|lia|lia].
Qed.

(** The first wide number: the others are rearranged. *)
Lemma int_store_rearrange vs b v :
  int_state vs b → width vs = 4%nat → Forall (λ v, fits32 v = true) vs → fits32 v = false →
  8 * Z.of_nat (length vs) + 8 <= total →
  ∃ b1 b2, rearrange (length vs) header b = Ok b1 ∧
    put b1 (header + 1 + 8 * Z.of_nat (length vs)) (le_bytes 8 v) = Ok b2 ∧
    int_state (vs ++ [v]) b2 ∧ same_out b b2 (header + 1) (header + 1 + total).
Proof.
  intros [Hmax Hbd Hh Hroom] Hw Hvs Hv Hr. rewrite Hw in *.
  destruct (rearrange_ok header vs b) as (b1 & Hre & Hh1 & Hs1); [done|done|lia|done|].
  pose proof (same_out_length _ _ _ _ Hs1).
  destruct (put_has b1 (header + 1 + 8 * Z.of_nat (length vs)) (le_bytes 8 v)) as (b2 & Hput & Hh2 & Hs2);
    [lia|rewrite le_bytes_length; lia|].
  rewrite le_bytes_length in Hs2. pose proof (same_out_length _ _ _ _ Hs2).
  exists b1, b2. split_and!; [done|done| |].
  - assert (Hw2 : width (vs ++ [v]) = 8%nat) by (by rewrite width_snoc, Hv).
    split; rewrite ?Hw2, ?ints_snoc, ?length_app, ?le_bytes_length, ?ints_length; [lia|lia| |lia]. apply has_app; [lia|]. rewrite ints_length. replace (header + 1 + Z.of_nat (8 * length vs)) with (header + 1 + 8 * Z.of_nat (length vs)) by lia.
    split; [|done]. eapply has_frame; [done|lia|rewrite ints_length; lia|done].
  - eapply same_out_trans; eapply same_out_mono; [exact Hs1|lia|lia|exact Hs2|lia|lia].
Qed.

Notation done_len vs := (Z.of_nat (length (ints (width vs) vs))).

Lemma done_len_snoc vs v : done_len (vs ++ [v]) =
  if fits32 v then done_len vs + Z.of_nat (width vs) else 8 * Z.of_nat (length vs) + 8.
Proof. rewrite width_snoc, ints_snoc, length_app, le_bytes_length. destruct (fits32 v); [lia|]. rewrite ints_length. lia. Qed.

(** One round of the loop with the number [v]. *)
Lemma integer_round fuel vs b ud ud' v :
  int64 v → int_state vs b →
  cb (arg_local (arg_of f name) 8 (1 + Z.of_nat (length vs))) ud b = Ok ((store_integer v).1, (store_integer v).2, ud', b) →
  let r := integer_array_loop cb (S fuel) (arg_of f name) ud b header (header + 1 + done_len vs) (total - done_len vs)
             (Z.of_nat (width vs)) (1 + Z.of_nat (length vs)) in
  (r = Ok (None, ud', b) ∧ total < 8 * Z.of_nat (length vs) + 8) ∨
  ∃ b', int_state (vs ++ [v]) b' ∧ same_out b b' (header + 1) (header + 1 + total) ∧
    done_len vs + 4 <= done_len (vs ++ [v]) ∧
    r = integer_array_loop cb fuel (arg_of f name) ud' b' header (header + 1 + done_len (vs ++ [v])) (total - done_len (vs ++ [v]))
          (Z.of_nat (width (vs ++ [v]))) (1 + Z.of_nat (length (vs ++ [v]))).
Proof.
  intros Hv Hst Hc r. subst r. cbn [integer_array_loop]. rewrite Hc. cbn [mbind res_bind]. clear Hc.
  rewrite store_fits by done. unfold SIZEOF_INT64, SIZEOF_INT32.
  assert (Hdl : done_len vs <= 8 * Z.of_nat (length vs)) by (rewrite ints_length; destruct (width_cases vs) as [->|[-> _]]; lia).
  rewrite (length_app vs [v]), done_len_snoc, width_snoc.
  replace (1 + Z.of_nat (length vs + length [v])) with (1 + Z.of_nat (length vs) + 1) by (cbn; lia).
  destruct (fits32 v) eqn:Hf; cbn [fst snd].
  - change (4 <=? 0) with false. cbn match. destruct (Z.ltb_spec (total - done_len vs) 8); [left; split; [done|lia]|].
    right. change (4 =? 4) with true. cbn match. rewrite bytes4_le, u32_idem, le_bytes_u32. destruct (width_cases vs) as [Hw|[Hw Hvs]].
    + destruct (int_store_widen vs b v) as (b1 & b2 & Hp1 & Hp2 & Hst2 & Hs2); [done|done|done|lia|].
      exists b2. rewrite Hp1. cbn [mbind res_bind]. rewrite Hw in *. change (Z.of_nat 8 =? 8) with true. cbn match.
      rewrite sign_word, Hp2 by done. cbn [mbind res_bind]. split_and!; [done|done|lia|]. f_equal; lia.
    + destruct (int_store_same vs b v) as (b1 & Hp1 & Hst2 & Hs2); [done|lia|by rewrite width_snoc, Hf|].
      exists b1. rewrite Hw in *. rewrite Hp1. cbn [mbind res_bind]. change (Z.of_nat 4 =? 8) with false. cbn match.
      cbn [mbind res_bind]. split_and!; [done|done|lia|]. f_equal; lia.
  - change (8 <=? 0) with false. cbn match. destruct (Z.ltb_spec (total - done_len vs) 8); [left; split; [done|lia]|].
    change (8 =? 4) with false. change (negb (8 =? 8)) with false. cbn match.
    rewrite bytes8_le, !le_bytes_u64.
    destruct (width_cases vs) as [Hw|[Hw Hvs]].
    + right. destruct (int_store_same vs b v) as (b1 & Hp1 & Hst2 & Hs2); [done|lia|by rewrite width_snoc, Hf|].
      exists b1. rewrite Hw in *. change (Z.of_nat 8 =? 4) with false. cbn match. rewrite Hp1. cbn [mbind res_bind].
      rewrite ints_length in *. split_and!; [done|done|lia|]. f_equal; lia.
    + assert (Hdl4 : done_len vs = 4 * Z.of_nat (length vs)) by (rewrite ints_length, Hw; lia).
      destruct (Z.ltb_spec (total - done_len vs - (1 + Z.of_nat (length vs) - 1) * 4) 8);
        [left; rewrite Hw; split; [done|lia]|].
      right. destruct (int_store_rearrange vs b v) as (b1 & b2 & Hp1 & Hp2 & Hst2 & Hs2); [done|done|done|done|lia|].
      rewrite Hw in *. change (Z.of_nat 4 =? 4) with true. cbn match.
      exists b2. replace (Z.to_nat (1 + Z.of_nat (length vs) - 1)) with (length vs) by lia. rewrite Hp1. cbn [mbind res_bind].
      replace (header + 1 + Z.of_nat (length (ints 4 vs)) + (1 + Z.of_nat (length vs) - 1) * 4) with (header + 1 + 8 * Z.of_nat (length vs)) by lia.
      rewrite Hp2. cbn [mbind res_bind]. split_and!; [done|done|lia|]. f_equal; lia.
Qed.

Lemma integer_loop_ok fuel es vs ud b :
  Forall (elt_kind (elt_type f)) es → inside f es fs (1 + Z.of_nat (length vs)) ud → int_state vs b →
  total - done_len vs < Z.of_nat fuel →
  int_post es vs b
    (integer_array_loop cb fuel (arg_of f name) ud b header (header + 1 + done_len vs) (total - done_len vs)
       (Z.of_nat (width vs)) (1 + Z.of_nat (length vs))).
Proof.
  revert vs ud b fuel. induction es as [|e es IH]; intros vs ud b fuel Hk Hin Hst Hf; pose proof (is_room _ _ Hst).
  - destruct fuel as [|fuel]; [lia|]. cbn [integer_array_loop].
    destruct (cs_end _ _ _ _ Hcb f fs _ ud b _ Hin (args_for_local f name 8 _ Hname)) as (ud' & -> & Hr).
    unfold int_post. cbn. rewrite app_nil_r. right. exists ud', b. split_and!; try done. by destruct Hst.
  - inversion Hk as [|? ? Hke Hkes]; subst.
    pose proof (cs_next _ _ _ _ Hcb f e es fs _ ud b _ Hin (args_for_local f name 8 _ Hname)
      ltac:(apply in_block_local; [by destruct Hst|by left])) as Hpost.
    destruct fuel as [|fuel]; [lia|].
    unfold elt_post, elt_kind in *. destruct (e.1) as [m| |] eqn:He.
    + rewrite Htype in Hke. destruct m as [v| | | |]; cbn in Hke; try done. destruct Hke as [_ Hv].
      destruct Hpost as (ud' & Hc & Hin').
      destruct (integer_round fuel vs b ud ud' v Hv Hst Hc) as [[-> Ht]|(b' & Hst' & Hs' & Hlen & ->)].
      { apply int_stop. cbn. lia. }
      eapply int_step; [done|done|]. apply IH; [done| |done|lia].
      rewrite length_app. cbn. by replace (1 + Z.of_nat (length vs + 1)) with (1 + Z.of_nat (length vs) + 1) by lia.
    + unfold int_post. cbn. rewrite He. cbn. destruct Hpost as [->|(u & ud' & b' & ->)]; cbn; eauto.
    + unfold int_post. cbn. by rewrite He.
Qed.
End Integers.
