(* ===== verification/SprotoEncode.v ===== *)
(** * The encoder of sproto writes the wire format

    [sproto_encode] with a callback that satisfies [CallbackSpec], one level of
    structure; then the callback of lsproto.c satisfies it, at every depth. *)

From Stdlib Require Import ZArith Lia.
From stdpp Require Import base tactics option numbers list strings.
From S2P Require Import Prelude Libc SprotoTypes SprotoCodec SprotoWire.

(** ** Arrays *)

Lemma wire_array t ms : Forall (kind_ok t) ms →
  wire (MArray ms) =
    if t =? SPROTO_TINTEGER then match ms with [] => [] | _ => wire_ints (map int_of ms) end
    else if t =? SPROTO_TBOOLEAN then map bool_of ms else objects ms.
Proof.
  intros Hk. destruct ms as [|m ms]; [by repeat case_match|].
  inversion Hk as [|? ? Hm _]; subst. by destruct m; cbn in Hm; [destruct Hm as [-> _]|subst t|subst t| |subst t].
Qed.

Lemma elts_view_kind t es ms : Forall (elt_kind t) es → elts_view es = Ok ms → Forall (kind_ok t) ms.
Proof.
  intros Hk. revert ms. induction Hk as [|e es He Hes IH]; intros ms H; cbn in H; res_inv; [constructor|].
  constructor; [|by apply IH]. unfold elt_kind in He. by match goal with E : e.1 = Ok _ |- _ => rewrite E in He end.
Qed.

Section Fields.
Context {UD : Type} (cb : sproto_arg → UD → block → res (Z * Z * UD * block)).
Context (c : field → content) (ready : list field → UD → Prop) (inside : field → list elt → list field → Z → UD → Prop).
Context (Hcb : CallbackSpec cb c ready inside).

Definition gives_up (o : field_out) : Prop := o = out_return (-1) ∨ o = out_size (-1) 0.

(** What a field leaves: nothing, a number for its record or its data. *)
Definition field_done (om : option msg) (o : field_out) (data size room : Z) (b : block) : Prop :=
  match om with
  | None => o = out_skip ∨ o = out_size 0 0
  | Some m =>
      if inline m =? 0 then
        o = out_size (Z.of_nat (length (sized (wire m)))) 0 ∧ has b data (sized (wire m)) ∧
        Z.of_nat (length (sized (wire m))) <= size ∧ Z.of_nat (length (sized (wire m))) <= room
      else o = out_size 2 (inline m)
  end.

Definition field_post (v : res (option msg)) (room : Z) (fs : list field) (b : block) (data size : Z)
    (r : res (field_out * UD * block)) : Prop :=
  match v with
  | Undef => True
  | Fail => r = Fail ∨ ∃ o ud' b', r = Ok (o, ud', b') ∧ gives_up o
  | Ok om =>
      (∃ o ud' b', r = Ok (o, ud', b') ∧ gives_up o ∧ size < room) ∨
      ∃ o ud' b', r = Ok (o, ud', b') ∧ field_done om o data size room b' ∧
        same_out b b' data (data + size) ∧ ready fs ud'
  end.

(** The same for a result that is a size. *)
Notation size_post v room fs b data size r :=
  (field_post v room fs b data size ('(sz, ud, b) ← r; Ok (out_size sz 0, ud, b))).

Lemma size_up v room fs b data size ud' b' : size < room → size_post v room fs b data size (Ok (-1, ud', b')).
Proof. intros. unfold field_post. destruct v; cbn; [left|right|done]; do 3 eexists; split; try done; try by right. by split; [right|]. Qed.

Lemma size_fail room fs b data size r :
  r = Fail ∨ (∃ ud' b', r = Ok (-1, ud', b')) → size_post Fail room fs b data size r.
Proof. intros [->|(ud' & b' & ->)]; [by left|]. right. do 3 eexists. split; [done|by right]. Qed.

Lemma size_absent room fs b data size ud' : ready fs ud' → size_post (Ok None) room fs b data size (Ok (0, ud', b)).
Proof. intros Hr. right. do 3 eexists. split; [done|]. split_and!; [by right|done|done]. Qed.

(** Data written behind the length word, then the length word. *)
Lemma size_done room fs b b' data size m ud' w :
  wire m = w → inline m = 0 →
  0 <= data → data + size <= Z.of_nat (length b) → 4 + Z.of_nat (length w) <= size → 4 + Z.of_nat (length w) <= room →
  has b' (data + 4) w → same_out b b' (data + 4) (data + size) → ready fs ud' →
  size_post (Ok (Some m)) room fs b data size
    ('(r, b) ← fill_size b' data (Z.of_nat (length w)); Ok (r, ud', b)).
Proof.
  intros <- Hi Hd Hl Hs Hroom Hh Hsame Hr. pose proof (same_out_length _ _ _ _ Hsame).
  destruct (fill_size_ok b' data (wire m)) as (b2 & -> & Hh2 & Hs2); [done|lia|done|]. cbn [mbind res_bind].
  right. do 3 eexists. split; [done|]. pose proof (length_sized (wire m)).
  split_and!; [|eapply same_out_trans; eapply same_out_mono; [exact Hsame|lia|lia|exact Hs2|lia|lia]|done].
  unfold field_done. rewrite Hi. cbn match. split_and!; [f_equal; lia|done|lia|lia].
Qed.

Section Array.
Context (f : field) (name : list Z) (fs : list field) (b : block) (data size : Z) (ud : UD).
Context (Hname : f_name f = Some name) (Harr : is_array f = true) (Hready : ready (f :: fs) ud).
Context (Hmax : Z.of_nat (length b) <= BLOCK_MAX) (Hdata : 0 <= data) (Hsize : 0 <= size) (Hend : data + size <= Z.of_nat (length b)).

(** The three kinds of arrays, as the switch of [encode_array] leaves them. *)
Definition array_body : res ((Z + Z) * UD * block) :=
  let args := arg_of f name in
  let sz := size - SIZEOF_LENGTH in
  let buffer := data + SIZEOF_LENGTH in
  if a_type args =? SPROTO_TINTEGER then
    '(r, ud, b) ← encode_integer_array cb args ud b buffer sz;
    Ok (match r with None => inr (-1) | Some (buffer, noarray) => if noarray : bool then inr 0 else inl buffer end, ud, b)
  else if a_type args =? SPROTO_TBOOLEAN then boolean_array_loop cb (S (Z.to_nat sz)) args ud b buffer sz 1
  else object_array_loop cb (S (Z.to_nat sz)) args ud b buffer sz 1.

Lemma encode_array_body :
  encode_array cb (arg_of f name) ud b data size =
    if size <? SIZEOF_LENGTH then Ok (-1, ud, b)
    else '(r, ud, b) ← array_body;
         match r with
         | inr r => Ok (r, ud, b)
         | inl buffer => '(r, b) ← fill_size b data (buffer - (data + SIZEOF_LENGTH)); Ok (r, ud, b)
         end.
Proof. done. Qed.

Lemma array_body_fail : c f = CFail → 4 <= size →
  array_body = Fail ∨ ∃ ud' b', array_body = Ok (inr (-1), ud', b').
Proof.
  intros Hc Hs. pose proof (cs_array _ _ _ _ Hcb f fs ud Hready Harr) as H. rewrite Hc in H.
  unfold array_body, encode_integer_array, SIZEOF_LENGTH. cbn [a_type arg_of].
  destruct (_ =? SPROTO_TINTEGER); [|destruct (_ =? SPROTO_TBOOLEAN)].
  - destruct (Z.ltb_spec (size - 4) 1); [right; by do 2 eexists|]. left.
    cbn [integer_array_loop]. by rewrite H by by apply args_for_local.
  - left. cbn [boolean_array_loop]. by rewrite H by by apply args_for_local.
  - cbn [object_array_loop]. unfold SIZEOF_LENGTH. destruct (size - 4 <? 4); [right; by do 2 eexists|]. left.
    by rewrite H by by apply args_for_at.
Qed.

Lemma array_body_absent : c f = CAbsent → 4 <= size →
  (∃ ud' b', array_body = Ok (inr (-1), ud', b') ∧ size < 8) ∨
  ∃ ud', array_body = Ok (inr 0, ud', b) ∧ ready fs ud'.
Proof.
  intros Hc Hs. pose proof (cs_array _ _ _ _ Hcb f fs ud Hready Harr) as H. rewrite Hc in H.
  unfold array_body, encode_integer_array, SIZEOF_LENGTH. cbn [a_type arg_of].
  destruct (_ =? SPROTO_TINTEGER); [|destruct (_ =? SPROTO_TBOOLEAN)].
  - destruct (Z.ltb_spec (size - 4) 1); [left; do 2 eexists; split; [done|lia]|]. right. cbn [integer_array_loop].
    destruct (H b _ (args_for_local f name 8 1 Hname)) as (ud' & -> & Hr). exists ud'. split; [|done].
    cbn. rewrite Z.eqb_refl. done.
  - right. cbn [boolean_array_loop].
    destruct (H b _ (args_for_local f name 4 1 Hname)) as (ud' & -> & Hr). by exists ud'.
  - cbn [object_array_loop]. unfold SIZEOF_LENGTH.
    destruct (Z.ltb_spec (size - 4) 4); [left; do 2 eexists; split; [done|lia]|]. right.
    destruct (H b _ (args_for_at f name (data + 4 + 4) (size - 4 - 4) 1 Hname)) as (ud' & -> & Hr). by exists ud'.
Qed.

Lemma elts_room_length es : 12 * Z.of_nat (length es) <= elts_room es.
Proof. induction es; cbn [elts_room length]; unfold SIZEOF_LENGTH; lia. Qed.

(** The integers, with their width in front. *)
Lemma integer_body es : c f = CArray es → 5 <= size → elt_type f = SPROTO_TINTEGER →
  loop_post ready es fs b (data + 4) (size - 4) (9 + elts_room es) (inr (-1)) inl (λ ms, wire (MArray ms))
    ('(r, ud, b) ← encode_integer_array cb (arg_of f name) ud b (data + 4) (size - 4);
     Ok (match r with None => inr (-1) | Some (buffer, noarray) => if noarray : bool then inr 0 else inl buffer end, ud, b)).
Proof.
  intros Hc Hs Ht. pose proof (cs_array _ _ _ _ Hcb f fs ud Hready Harr) as H. rewrite Hc in H. destruct H as [Hk Hin].
  pose proof (elts_room_length es). unfold encode_integer_array. destruct (Z.ltb_spec (size - 4) 1); [lia|].
  pose proof (integer_loop_ok cb c ready inside Hcb f name fs (data + 4) (size - 5) Hname Ht ltac:(lia)
    (S (Z.to_nat (size - 4))) es [] ud b Hk Hin) as Hl.
  cbn [length ints map concat width forallb] in Hl.
  assert (Hst : int_state (data + 4) (size - 5) [] b) by (split; cbn; try lia; apply has_nil).
  specialize (Hl Hst ltac:(cbn; lia)). unfold int_post in Hl. unfold loop_post.
  replace (data + 4 + 1 + Z.of_nat 0) with (data + 4 + 1) in Hl by lia.
  replace (size - 5 - Z.of_nat 0) with (size - 4 - 1) in Hl by lia. change (Z.of_nat 4) with SIZEOF_INT32 in Hl.
  change (1 + Z.of_nat 0) with 1 in Hl.
  destruct (elts_view es) as [ms| |] eqn:Hv; [|destruct Hl as [->|(ud' & b' & ->)]; cbn; eauto|done].
  pose proof (elts_view_kind _ _ _ Hk Hv) as Hkm. pose proof (elts_view_length _ _ Hv) as Hlen. cbn [app] in Hl.
  destruct Hl as [(ud' & b' & -> & Hlt)|(ud' & b' & -> & Hh & Hsame & Hroom & Hr)].
  { left. do 2 eexists. split; [done|]. rewrite length_map in Hlt. lia. }
  right. cbn [mbind res_bind]. rewrite (wire_array _ _ Hkm), Ht. cbn match. change (SPROTO_TINTEGER =? SPROTO_TINTEGER) with true.
  rewrite ?ints_length, ?length_map in *. pose proof (same_out_length _ _ _ _ Hsame).
  destruct ms as [|m ms].
  - cbn in *. rewrite Z.add_0_r, Z.eqb_refl. exists ud', b'. rewrite Z.add_0_r.
    split_and!; [done|apply has_nil| |lia|lia|done]. eapply same_out_mono; [exact Hsame|lia|lia].
  - set (vs := map int_of (m :: ms)) in *.
    assert (Hw : width vs = 4%nat ∨ width vs = 8%nat) by (destruct (width_cases vs) as [?|[? _]]; auto).
    cbn match. destruct (Z.eqb_spec (data + 4 + 1 + Z.of_nat (width vs * length (m :: ms))) (data + 4 + 1)) as [E|_].
    { exfalso. cbn [length] in E. lia. }
    destruct (put_has b' (data + 4) [u8 (Z.of_nat (width vs))]) as (b2 & -> & Hh2 & Hs2); [lia|cbn; lia|].
    cbn [mbind res_bind]. exists ud', b2. unfold wire_ints. cbn [length]. fold (ints (width vs) vs).
    assert (Hvl : length vs = length (m :: ms)) by apply length_map. rewrite ints_length, Hvl. cbn [length] in Hs2.
    replace (data + 4 + Z.of_nat (S (width vs * length (m :: ms)))) with (data + 4 + 1 + Z.of_nat (width vs * S (length ms)))
      by (cbn [length]; lia).
    split_and!; [done| | |lia|cbn [length] in *; lia|done].
    + change (?x :: ?l) with ([x] ++ l). apply has_app; [lia|]. split.
      * by destruct Hw as [E|E]; rewrite E in Hh2 |- *.
      * eapply has_frame; [done|cbn; lia|cbn; lia|]. cbn. done.
    + eapply same_out_trans; eapply same_out_mono; [exact Hsame|lia|lia|exact Hs2|cbn; lia|cbn; lia].
Qed.

Lemma loop_post_wire es bytes room room' r : room <= room' →
  (∀ ms, elts_view es = Ok ms → bytes ms = wire (MArray ms)) →
  loop_post ready es fs b (data + 4) (size - 4) room (inr (-1)) inl bytes r →
  loop_post ready es fs b (data + 4) (size - 4) room' (inr (-1)) inl (λ ms, wire (MArray ms)) r.
Proof.
  intros Hroom Hb. unfold loop_post. destruct (elts_view es) as [ms| |]; [|done|done]. rewrite (Hb ms eq_refl).
  intros [(ud' & b' & -> & ?)|(ud' & b' & -> & ? & ? & ? & ? & ?)]; [left; eauto 6 with lia|].
  right. exists ud', b'. split_and!; try done. lia.
Qed.

Lemma array_body_ok es : c f = CArray es → 4 <= size →
  loop_post ready es fs b (data + 4) (size - 4) (9 + elts_room es) (inr (-1)) inl (λ ms, wire (MArray ms)) array_body.
Proof.
  intros Hc Hs. pose proof (cs_array _ _ _ _ Hcb f fs ud Hready Harr) as H. rewrite Hc in H. destruct H as [Hk Hin].
  pose proof (elts_room_nonneg es). unfold array_body, SIZEOF_LENGTH. cbn [a_type arg_of].
  change (Z.land (f_type f) (Z.lnot SPROTO_TARRAY)) with (elt_type f).
  destruct (Z.eqb_spec (elt_type f) SPROTO_TINTEGER) as [Ht|Hi]; [|destruct (Z.eqb_spec (elt_type f) SPROTO_TBOOLEAN) as [Ht|Hb]].
  - destruct (decide (5 <= size)); [by apply integer_body|].
    unfold encode_integer_array. destruct (Z.ltb_spec (size - 4) 1); [|lia]. cbn. apply loop_stop. lia.
  - apply (loop_post_wire _ (map bool_of) (elts_room es)); [lia| |].
    + intros ms Hms. rewrite (wire_array _ _ (elts_view_kind _ _ _ Hk Hms)), Ht. done.
    + eapply boolean_loop_ok; eauto; lia.
  - apply (loop_post_wire _ objects (elts_room es + 4)); [lia| |].
    + intros ms Hms. rewrite (wire_array _ _ (elts_view_kind _ _ _ Hk Hms)).
      by rewrite (proj2 (Z.eqb_neq _ _) Hi), (proj2 (Z.eqb_neq _ _) Hb).
    + eapply object_loop_ok; eauto; lia.
Qed.

Lemma encode_array_ok :
  field_post (content_view (c f)) (content_room (c f)) fs b data size
    ('(sz, ud, b) ← encode_array cb (arg_of f name) ud b data size; Ok (out_size sz 0, ud, b)).
Proof.
  rewrite encode_array_body. unfold SIZEOF_LENGTH.
  pose proof (cs_array _ _ _ _ Hcb f fs ud Hready Harr) as H.
  destruct (Z.ltb_spec size 4) as [Hs|Hs].
  { destruct (c f) as [| | |es] eqn:Hc; [| |done|].
    - apply size_fail. eauto.
    - apply size_up. cbn. lia.
    - apply size_up. cbn. pose proof (elts_room_nonneg es). lia. }
  destruct (c f) as [| | |es] eqn:Hc; [| |done|].
  - destruct (array_body_fail Hc Hs) as [->|(ud' & b' & ->)]; apply size_fail; cbn; eauto.
  - destruct (array_body_absent Hc Hs) as [(ud' & b' & -> & ?)|(ud' & -> & Hr)]; [by apply size_up|by apply size_absent].
  - pose proof (array_body_ok es Hc Hs) as Hb. unfold loop_post in Hb. cbn [content_view content_room].
    destruct (elts_view es) as [ms| |]; cbn [mbind res_bind]; [| |done].
    + destruct Hb as [(ud' & b' & -> & ?)|(ud' & b' & -> & Hh & Hsame & Hl & Hroom & Hr)]; [apply size_up; lia|].
      cbn [mbind res_bind].
      replace (data + 4 + Z.of_nat (length (wire (MArray ms))) - (data + 4)) with (Z.of_nat (length (wire (MArray ms)))) by lia.
      eapply size_done; try done; try lia. by replace (data + size) with (data + 4 + (size - 4)) by lia.
    + destruct Hb as [->|(ud' & b' & ->)]; apply size_fail; cbn; eauto.
Qed.
End Array.

(** ** Single values *)

Lemma encode_word_ok (w : nat) v fs b data size room m ud' :
  w = 4%nat ∨ w = 8%nat → wire m = le_bytes w v → inline m = 0 →
  Z.of_nat (length b) <= BLOCK_MAX → 0 <= data → 0 <= size → data + size <= Z.of_nat (length b) → 4 + Z.of_nat w <= room →
  ready fs ud' →
  field_post (Ok (Some m)) room fs b data size
    ('(sz, b) ← (if u64 size <? SIZEOF_LENGTH + Z.of_nat w then Ok (-1, b)
                 else b ← put b (data + 4) (le_bytes w v); fill_size b data (Z.of_nat w));
     Ok (out_size sz 0, ud', b)).
Proof.
  intros Hw Hm Hi Hb Hd Hs Hl Hroom Hr. unfold BLOCK_MAX in Hb. rewrite u64_small by lia. unfold SIZEOF_LENGTH.
  destruct (Z.ltb_spec size (4 + Z.of_nat w)).
  { left. do 3 eexists. split; [done|]. split; [by right|lia]. }
  destruct (put_has b (data + 4) (le_bytes w v)) as (b1 & -> & Hh & Hs1); [lia|rewrite le_bytes_length; lia|].
  rewrite le_bytes_length in Hs1. cbn [mbind res_bind].
  pose proof (size_done room fs b b1 data size m ud' (le_bytes w v) Hm Hi Hd Hl) as Hdone.
  rewrite le_bytes_length in Hdone. specialize (Hdone ltac:(lia) Hroom Hh ltac:(eapply same_out_mono; [exact Hs1|lia|lia]) Hr).
  destruct (fill_size b1 data (Z.of_nat w)) as [[r b2]| |]; exact Hdone.
Qed.

Lemma number_ok fs b data size room ud' v :
  int64 v → Z.of_nat (length b) <= BLOCK_MAX → 0 <= data → 0 <= size → data + size <= Z.of_nat (length b) → 12 <= room →
  ready fs ud' →
  field_post (Ok (Some (MInt v))) room fs b data size
    (let '(sz, u) := store_integer v in
     if sz =? SIZEOF_INT32 then
       if u32 u <? 32767 then Ok (out_size 2 ((u32 u + 1) * 2), ud', b)
       else '(sz, b) ← encode_integer (u32 u) b data size; Ok (out_size sz 0, ud', b)
     else if sz =? SIZEOF_INT64 then '(sz, b) ← encode_uint64 (u64 u) b data size; Ok (out_size sz 0, ud', b)
     else Ok (out_return (-1), ud', b)).
Proof.
  intros Hv Hb Hd Hs Hl Hroom Hr. rewrite store_fits by done. unfold encode_integer, encode_uint64.
  destruct (fits32 v) eqn:Hf.
  - change (4 =? SIZEOF_INT32) with true. cbn match. rewrite u32_idem, bytes4_le, le_bytes_u32.
    assert (Hin : (u32 v <? 32767) = (0 <=? v) && (v <? 32767)).
    { unfold fits32, u32 in *. bool_to_prop.
      destruct (Z.ltb_spec (v mod 2 ^ 32) 32767), (Z.leb_spec 0 v), (Z.ltb_spec v 32767); try done; exfalso; dlia. }
    rewrite Hin. destruct ((0 <=? v) && (v <? 32767)) eqn:Hi.
    + right. do 3 eexists. split; [done|]. split_and!; [|done|done]. unfold field_done. cbn [inline]. rewrite Hi.
      bool_to_prop. rewrite u32_small by lia. by destruct (Z.eqb_spec ((v + 1) * 2) 0); [lia|].
    + apply (encode_word_ok 4); try done; try lia; cbn; unfold width; cbn; [by rewrite Hf|by rewrite Hi].
  - change (8 =? SIZEOF_INT32) with false. change (8 =? SIZEOF_INT64) with true. cbn match. rewrite bytes8_le, !le_bytes_u64.
    apply (encode_word_ok 8); try done; try lia; cbn; unfold width; cbn; [by rewrite Hf|].
    unfold fits32 in Hf. by destruct (Z.leb_spec 0 v), (Z.ltb_spec v 32767), (Z.leb_spec (- 2 ^ 31) v), (Z.ltb_spec v (2 ^ 31)); try done; lia.
Qed.

Section Single.
Context (f : field) (name : list Z) (fs : list field) (b : block) (data size : Z) (ud : UD).
Context (Hname : f_name f = Some name) (Harr : is_array f = false) (Hready : ready (f :: fs) ud).
Context (Hmax : Z.of_nat (length b) <= BLOCK_MAX) (Hdata : 0 <= data) (Hsize : 0 <= size) (Hend : data + size <= Z.of_nat (length b)).

Lemma encode_number_ok : elt_type f = SPROTO_TINTEGER ∨ elt_type f = SPROTO_TBOOLEAN →
  field_post (content_view (c f)) (content_room (c f)) fs b data size (encode_number cb (arg_of f name) ud b data size).
Proof.
  intros Ht. unfold encode_number.
  pose proof (cs_single _ _ _ _ Hcb f fs ud b _ Hready Harr (args_for_local f name 8 0 Hname)
    ltac:(by apply in_block_local)) as H.
  destruct (c f) as [| |e|]; [| | |done].
  - rewrite H. by left.
  - destruct H as (ud' & -> & Hr). right. do 3 eexists. split; [done|]. split_and!; [by left|done|done].
  - destruct H as [Hk H]. unfold elt_post, elt_kind, content_view, content_room, SIZEOF_LENGTH in *.
    destruct (e.1) as [m| |]; cbn [mbind res_bind]; [| |done].
    + destruct m as [v|x| | |]; cbn in Hk; [| |by destruct Ht as [E|E]; rewrite E in Hk|done|by destruct Ht as [E|E]; rewrite E in Hk].
      * destruct Hk as [_ Hv], H as (ud' & -> & Hr). cbn [mbind res_bind].
        pose proof (number_ok fs b data size (4 + Z.max 8 e.2) ud' v Hv Hmax Hdata Hsize Hend ltac:(lia) Hr) as Hp.
        rewrite (surjective_pairing (store_integer v)) in Hp.
        replace ((store_integer v).1 <? 0) with false; [done|]. rewrite store_fits by done. by destruct (fits32 v).
      * destruct H as (ud' & -> & Hr). destruct x; right; do 3 eexists; (split; [done|]; by split_and!).
    + destruct H as [->|(u & ud' & b' & ->)]; [by left|]. right. do 3 eexists. split; [done|by left].
Qed.

Lemma encode_object_ok : elt_type f ≠ SPROTO_TINTEGER → elt_type f ≠ SPROTO_TBOOLEAN →
  field_post (content_view (c f)) (content_room (c f)) fs b data size
    ('(sz, ud, b) ← encode_object cb (arg_of f name) ud b data size; Ok (out_size sz 0, ud, b)).
Proof.
  intros H0 H1. unfold encode_object, SIZEOF_LENGTH.
  destruct (Z.ltb_spec size 4) as [Hs|Hs].
  { destruct (c f) as [| |e|es] eqn:Hc.
    - apply size_fail. eauto.
    - apply size_up. cbn. lia.
    - apply size_up. unfold content_room, SIZEOF_LENGTH. lia.
    - apply size_up. cbn. pose proof (elts_room_nonneg es). lia. }
  pose proof (cs_single _ _ _ _ Hcb f fs ud b _ Hready Harr (args_for_at f name (data + 4) (size - 4) 0 Hname)
    ltac:(apply in_block_at; lia)) as H.
  destruct (c f) as [| |e|]; [| | |done].
  - rewrite H. by left.
  - destruct H as (ud' & -> & Hr). by apply size_absent.
  - destruct H as [Hk H]. unfold content_view, content_room, SIZEOF_LENGTH. unfold elt_kind in Hk.
    destruct (e.1) as [m| |] eqn:He; cbn [mbind res_bind]; [| |done].
    + apply (elt_object cb e m) in H; [|done..].
      destruct H as [(u & ud' & b' & -> & Hlen)|(p & u & ud' & b' & [= <-] & -> & Hlen & Hroom & Hh & Hsame & Hr)];
        cbn [a_length arg_at] in *; cbn [mbind res_bind].
      { apply size_up. lia. }
      destruct (Z.ltb_spec (Z.of_nat (length (wire m))) 0); [lia|].
      destruct (Z.ltb_spec (size - 4) (Z.of_nat (length (wire m)))); [lia|].
      replace (data + 4 + (size - 4)) with (data + size) in Hsame by lia.
      eapply size_done; try done; try lia. destruct m; cbn in Hk; try done; by destruct Hk.
    + apply (elt_fail cb _ _ _ _ _ He) in H as [->|(u & ud' & b' & ->)]; apply size_fail; cbn; eauto.
Qed.
End Single.

Lemma encode_field_ok tn f fs b data size ud :
  wf_field tn f → ready (f :: fs) ud →
  Z.of_nat (length b) <= BLOCK_MAX → 0 <= data → 0 <= size → data + size <= Z.of_nat (length b) →
  field_post (content_view (c f)) (content_room (c f)) fs b data size (encode_field cb f ud b data size).
Proof.
  intros Hf Hr Hb Hd Hs Hl. destruct (wf_name _ _ Hf) as [name Hn], (wf_elt _ _ Hf) as [Ht Hft].
  unfold encode_field. rewrite Hn. cbn [defined mbind res_bind].
  change (negb (Z.land (f_type f) SPROTO_TARRAY =? 0)) with (is_array f).
  destruct (is_array f) eqn:Ha; [by eapply encode_array_ok|]. rewrite Hft by done.
  destruct Ht as [Ht|[Ht|[Ht|Ht]]]; rewrite Ht; cbn [orb Z.eqb SPROTO_TINTEGER SPROTO_TBOOLEAN SPROTO_TSTRING SPROTO_TSTRUCT];
    first [apply encode_number_ok; auto|apply encode_object_ok; try done; by rewrite Ht].
Qed.

(** ** The records *)

Section Records.
Context (header maxn : Z) (Hheader : 0 <= header) (Hmaxn : 0 <= maxn).

Notation recs_at := (header + SIZEOF_HEADER).
Notation data_at := (header + (SIZEOF_HEADER + maxn * SIZEOF_FIELD)).

Definition rec_bytes (ws : list Z) : list Z := concat (map (le_bytes 2) ws).

Lemma rec_bytes_length ws : Z.of_nat (length (rec_bytes ws)) = 2 * Z.of_nat (length ws).
Proof. unfold rec_bytes. pose proof (ints_length 2 ws). unfold ints in *. lia. Qed.

Lemma rec_bytes_snoc ws w : rec_bytes (ws ++ [w]) = rec_bytes ws ++ le_bytes 2 w.
Proof. apply (ints_snoc 2). Qed.

(** The records [ws] and the data [dat] written so far, [size] bytes left. *)
Record enc_state (ws dat : list Z) (size : Z) (b : block) : Prop := {
  en_max : Z.of_nat (length b) <= BLOCK_MAX;
  en_size : 0 <= size;
  en_bound : data_at + Z.of_nat (length dat) + size <= Z.of_nat (length b);
  en_recs : has b recs_at (rec_bytes ws);
  en_data : has b data_at dat;
  en_cap : Z.of_nat (length ws) <= maxn
}.

Lemma put_word ws dat size b w :
  enc_state ws dat size b → Z.of_nat (length ws) < maxn →
  ∃ b', put b (recs_at + SIZEOF_FIELD * Z.of_nat (length ws)) (bytes2 w) = Ok b' ∧
    enc_state (ws ++ [w]) dat size b' ∧ same_out b b' recs_at data_at.
Proof.
  unfold SIZEOF_HEADER, SIZEOF_FIELD.
  intros [Hm Hs Hb Hr Hd Hc] Hlt. unfold SIZEOF_HEADER, SIZEOF_FIELD in *. rewrite bytes2_le. pose proof (rec_bytes_length ws).
  destruct (put_has b (header + 2 + 2 * Z.of_nat (length ws)) (le_bytes 2 w)) as (b' & Hp & Hh & Hsame);
    [lia|rewrite le_bytes_length; lia|].
  rewrite le_bytes_length in Hsame. pose proof (same_out_length _ _ _ _ Hsame).
  exists b'. split; [done|]. split; [|eapply same_out_mono; [exact Hsame|lia|lia]].
  split; unfold SIZEOF_HEADER, SIZEOF_FIELD; [lia|done|lia| | |rewrite length_app; cbn; lia].
  - rewrite rec_bytes_snoc. apply has_app; [lia|]. rewrite H. split; [|done].
    eapply has_frame; [done|lia| |done]. lia.
  - eapply has_frame; [done|lia| |done]. lia.
Qed.

(** The data of a field is added. *)
Lemma add_data ws dat size b b' w :
  enc_state ws dat size b → same_out b b' (data_at + Z.of_nat (length dat)) (data_at + Z.of_nat (length dat) + size) →
  has b' (data_at + Z.of_nat (length dat)) w → Z.of_nat (length w) <= size →
  enc_state ws (dat ++ w) (size - Z.of_nat (length w)) b'.
Proof.
  unfold SIZEOF_HEADER, SIZEOF_FIELD.
  intros [Hm Hs Hb Hr Hd Hc] Hsame Hh Hl. unfold SIZEOF_HEADER, SIZEOF_FIELD in *. pose proof (rec_bytes_length ws).
  pose proof (same_out_length _ _ _ _ Hsame).
  split; unfold SIZEOF_HEADER, SIZEOF_FIELD; rewrite ?length_app; [lia|lia|lia| | |done].
  - eapply has_frame; [done|lia| |done]. lia.
  - apply has_app; [lia|]. split; [|done]. eapply has_frame; [done|lia| |done]. lia.
Qed.

Lemma add_nothing ws dat size b b' :
  enc_state ws dat size b → same_out b b' (data_at + Z.of_nat (length dat)) (data_at + Z.of_nat (length dat) + size) →
  enc_state ws dat size b'.
Proof.
  intros Hst Hsame. pose proof (add_data _ _ _ _ _ [] Hst Hsame (has_nil _ _) ltac:(cbn; destruct Hst; lia)) as H.
  rewrite app_nil_r, Z.sub_0_r in H. done.
Qed.

(** The records of one field, as the code writes them. *)
Definition put_records (b : block) (record tag value : Z) : res block :=
  if 0 <? tag then
    b ← put b record (bytes2 ((tag - 1) * 2 + 1)); put b (record + SIZEOF_FIELD) (bytes2 value)
  else put b record (bytes2 value).

Definition gap_words (last t : Z) : list Z := if last + 1 <? t then [(t - last - 2) * 2 + 1] else [].

Lemma put_records_ok ws dat size b last t value :
  enc_state ws dat size b → Z.of_nat (length (ws ++ gap_words last t)) < maxn →
  ∃ b', put_records b (recs_at + SIZEOF_FIELD * Z.of_nat (length ws)) (t - last - 1) value = Ok b' ∧
    enc_state ((ws ++ gap_words last t) ++ [value]) dat size b' ∧ same_out b b' recs_at data_at.
Proof.
  intros Hst Hc. unfold put_records, gap_words in *.
  replace (0 <? t - last - 1) with (last + 1 <? t) by (destruct (Z.ltb_spec (last + 1) t), (Z.ltb_spec 0 (t - last - 1)); lia).
  destruct (last + 1 <? t).
  - replace (t - last - 1 - 1) with (t - last - 2) by lia. rewrite length_app in Hc. cbn in Hc.
    destruct (put_word _ _ _ _ ((t - last - 2) * 2 + 1) Hst) as (b1 & -> & Hst1 & Hs1); [lia|]. cbn [mbind res_bind].
    destruct (put_word _ _ _ _ value Hst1) as (b2 & Hp & Hst2 & Hs2); [rewrite length_app; cbn; lia|].
    exists b2. rewrite length_app in Hp. cbn in Hp. rewrite <- Hp. split; [f_equal; unfold SIZEOF_FIELD; lia|].
    split; [done|]. by eapply same_out_trans.
  - rewrite app_nil_r in *. by apply put_word.
Qed.

Lemma encode_fields_step f fs ud ud' b b1 data size index last sz value :
  encode_field cb f ud b data size = Ok (out_size sz value, ud', b1) → 0 < sz → f_tag f - last - 1 <= 32766 →
  encode_fields cb (f :: fs) ud b header data size index last =
    (b2 ← put_records b1 (recs_at + SIZEOF_FIELD * index) (f_tag f - last - 1) value;
     encode_fields cb fs ud' b2 header (if value =? 0 then data + sz else data) (if value =? 0 then size - sz else size)
       (index + Z.of_nat (length (gap_words last (f_tag f))) + 1) (f_tag f)).
Proof.
  intros He Hsz Ht. cbn [encode_fields]. rewrite He. cbn [mbind res_bind].
  destruct (Z.ltb_spec sz 0); [lia|]. destruct (Z.ltb_spec 0 sz); [|lia]. unfold put_records, gap_words.
  replace (last + 1 <? f_tag f) with (0 <? f_tag f - last - 1)
    by (destruct (Z.ltb_spec (last + 1) (f_tag f)), (Z.ltb_spec 0 (f_tag f - last - 1)); lia).
  destruct (Z.ltb_spec 0 (f_tag f - last - 1)).
  - destruct (Z.ltb_spec 65535 ((f_tag f - last - 1 - 1) * 2 + 1)); [lia|].
    replace (index + Z.of_nat (length [(f_tag f - last - 2) * 2 + 1]) + 1) with (index + 2) by (cbn; lia).
    destruct (value =? 0); by destruct (put b1 _ _).
  - cbn [length]. rewrite Z.add_0_r. by destruct (value =? 0).
Qed.

(** What the fields [fs] add to the records and the data. *)
Definition fields_post (fs : list field) (b : block) (ws dat : list Z) (size last : Z)
    (r : res ((Z * Z + Z) * UD * block)) : Prop :=
  match fields_view c fs with
  | Undef => True
  | Fail => r = Fail ∨ ∃ ud' b', r = Ok (inr (-1), ud', b')
  | Ok ms =>
      (∃ ud' b', r = Ok (inr (-1), ud', b') ∧ size < fields_room c fs) ∨
      ∃ ud' b', r = Ok (inl (data_at + Z.of_nat (length (dat ++ data_of ms)), Z.of_nat (length (ws ++ words last ms))), ud', b') ∧
        enc_state (ws ++ words last ms) (dat ++ data_of ms) (size - Z.of_nat (length (data_of ms))) b' ∧
        same_out b b' recs_at (data_at + Z.of_nat (length dat) + size) ∧
        Z.of_nat (length (data_of ms)) <= fields_room c fs ∧ ready [] ud'
  end.

Lemma data_of_cons t m ms : data_of ((t, m) :: ms) = (if inline m =? 0 then sized (wire m) else []) ++ data_of ms.
Proof. done. Qed.

Lemma words_cons last t m ms : words last ((t, m) :: ms) = gap_words last t ++ inline m :: words t ms.
Proof. done. Qed.

(** A field that was skipped. *)
Lemma fields_skip f fs b b' ws dat size last r :
  content_view (c f) = Ok None → 0 <= content_room (c f) →
  same_out b b' (data_at + Z.of_nat (length dat)) (data_at + Z.of_nat (length dat) + size) →
  fields_post fs b' ws dat size last r → fields_post (f :: fs) b ws dat size last r.
Proof.
  intros Hv Hr Hs. unfold fields_post. cbn [fields_view fields_room]. rewrite Hv. cbn [mbind res_bind].
  destruct (fields_view c fs) as [ms| |]; cbn [mbind res_bind]; [|done|done].
  intros [(ud' & b2 & -> & ?)|(ud' & b2 & -> & Hst & Hs2 & Hl & Hr2)]; [left; eauto 6 with lia|].
  right. exists ud', b2. split_and!; [done|done| |lia|done]. eapply same_out_trans; [|done].
  eapply same_out_mono; [exact Hs|unfold SIZEOF_HEADER, SIZEOF_FIELD; lia|lia].
Qed.

(** A field that was encoded, with its data [w]. *)
Lemma fields_add f fs m w b b' ws dat size last r :
  content_view (c f) = Ok (Some m) → w = (if inline m =? 0 then sized (wire m) else []) →
  Z.of_nat (length w) <= content_room (c f) →
  same_out b b' recs_at (data_at + Z.of_nat (length dat) + size) →
  fields_post fs b' ((ws ++ gap_words last (f_tag f)) ++ [inline m]) (dat ++ w) (size - Z.of_nat (length w)) (f_tag f) r →
  fields_post (f :: fs) b ws dat size last r.
Proof.
  intros Hv Hw Hl Hs. unfold fields_post. cbn [fields_view fields_room]. rewrite Hv. cbn [mbind res_bind].
  destruct (fields_view c fs) as [ms| |]; cbn [mbind res_bind]; [|done|done].
  rewrite words_cons, data_of_cons, <- Hw, !app_assoc.
  replace ((ws ++ gap_words last (f_tag f)) ++ inline m :: words (f_tag f) ms)
    with (((ws ++ gap_words last (f_tag f)) ++ [inline m]) ++ words (f_tag f) ms) by by rewrite <- app_assoc.
  intros [(ud' & b2 & -> & ?)|(ud' & b2 & -> & Hst & Hs2 & Hl2 & Hr2)]; [left; eauto 6 with lia|].
  right. exists ud', b2. split_and!; [done| | |rewrite length_app; lia|done].
  - by replace (size - Z.of_nat (length (w ++ data_of ms))) with (size - Z.of_nat (length w) - Z.of_nat (length (data_of ms)))
      by (rewrite length_app; lia).
  - eapply same_out_trans; [done|]. rewrite length_app in Hs2.
    eapply same_out_mono; [exact Hs2|lia|lia].
Qed.

Lemma content_room_nonneg x : 0 <= content_room x.
Proof. destruct x as [| | |es]; unfold content_room, SIZEOF_LENGTH; try lia. pose proof (elts_room_nonneg es). lia. Qed.

Lemma fields_room_nonneg fs : 0 <= fields_room c fs.
Proof. induction fs as [|f fs IH]; cbn [fields_room]; [lia|]. pose proof (content_room_nonneg (c f)). lia. Qed.

Definition spare (last prev : Z) : Z := if last <? prev then 1 else 0.

(** The field was encoded with [sz] and [value]; the rest follows. *)
Lemma fields_present f fs m ud ud' b b1 ws dat size last :
  let at_ := data_at + Z.of_nat (length dat) in
  content_view (c f) = Ok (Some m) → enc_state ws dat size b → same_out b b1 at_ (at_ + size) →
  f_tag f - last - 1 <= 32766 → Z.of_nat (length (ws ++ gap_words last (f_tag f))) < maxn →
  (∃ o, encode_field cb f ud b at_ size = Ok (o, ud', b1) ∧ field_done (Some m) o at_ size (content_room (c f)) b1) →
  (∀ ws' dat' size' b', enc_state ws' dat' size' b' →
     length ws' = (length ws + length (gap_words last (f_tag f)) + 1)%nat →
     fields_post fs b' ws' dat' size' (f_tag f)
       (encode_fields cb fs ud' b' header (data_at + Z.of_nat (length dat')) size' (Z.of_nat (length ws')) (f_tag f))) →
  fields_post (f :: fs) b ws dat size last (encode_fields cb (f :: fs) ud b header at_ size (Z.of_nat (length ws)) last).
Proof.
  intros at_ Hv Hst Hs Ht Hcap (o & He & Hdone) IH. pose proof (content_room_nonneg (c f)).
  assert (Hw : ∃ w sz, w = (if inline m =? 0 then sized (wire m) else []) ∧ o = out_size sz (inline m) ∧ 0 < sz ∧
     (if inline m =? 0 then Z.of_nat (length w) = sz else True) ∧
     has b1 at_ w ∧ Z.of_nat (length w) <= size ∧ Z.of_nat (length w) <= content_room (c f)).
  { unfold field_done in Hdone. destruct (Z.eqb_spec (inline m) 0) as [E|E].
    - destruct Hdone as (-> & Hh & H1 & H2). pose proof (length_sized (wire m)).
      do 2 eexists. split_and!; [done|by rewrite E|lia|done|done|done|done].
    - subst o. exists [], 2. split_and!; try done. by destruct Hst. }
  destruct Hw as (w & sz & Hw & -> & Hsz & Hlen & Hh & Hl1 & Hl2).
  rewrite (encode_fields_step _ _ _ _ _ _ _ _ _ _ _ _ He Hsz Ht).
  pose proof (add_data ws dat size b b1 w Hst Hs Hh Hl1) as Hst1.
  destruct (put_records_ok _ _ _ _ last (f_tag f) (inline m) Hst1 Hcap) as (b2 & -> & Hst2 & Hs2). cbn [mbind res_bind].
  eapply (fields_add f fs m w b b2); [done|done|done| |].
  - eapply same_out_trans; [eapply same_out_mono; [exact Hs|unfold at_, SIZEOF_HEADER, SIZEOF_FIELD; lia|unfold at_; lia]|].
    eapply same_out_mono; [exact Hs2|lia|destruct Hst; lia].
  - replace (if inline m =? 0 then at_ + sz else at_) with (data_at + Z.of_nat (length (dat ++ w))).
    2: { rewrite length_app. unfold at_. destruct (inline m =? 0); [lia|]. subst w. cbn. lia. }
    replace (if inline m =? 0 then size - sz else size) with (size - Z.of_nat (length w)).
    2: { destruct (inline m =? 0); [lia|]. subst w. cbn. lia. }
    replace (Z.of_nat (length ws) + Z.of_nat (length (gap_words last (f_tag f))) + 1)
      with (Z.of_nat (length ((ws ++ gap_words last (f_tag f)) ++ [inline m]))) by (rewrite !length_app; cbn; lia).
    apply IH; [done|]. rewrite !length_app. cbn. lia.
Qed.

Lemma encode_fields_ok tn fs prev ud b ws dat size last :
  Forall (wf_field tn) fs → ascending prev fs → -1 <= last <= prev → ready fs ud → enc_state ws dat size b →
  Z.of_nat (length ws) + Z.of_nat (length fs) + gaps prev fs + spare last prev <= maxn →
  fields_post fs b ws dat size last
    (encode_fields cb fs ud b header (data_at + Z.of_nat (length dat)) size (Z.of_nat (length ws)) last).
Proof.
  revert prev ud b ws dat size last.
  induction fs as [|f fs IH]; intros prev ud b ws dat size last Hwf Ha Hlast Hr Hst Hcap.
  { cbn. unfold fields_post. cbn. right. exists ud, b. rewrite !app_nil_r, Z.sub_0_r. split_and!; try done. }
  inversion Hwf as [|? ? Hf Hfs]; subst. destruct Ha as [Hp Ha]. cbn [gaps length] in Hcap.
  set (at_ := data_at + Z.of_nat (length dat)).
  pose proof (encode_field_ok tn f fs b at_ size ud Hf Hr (en_max _ _ _ _ Hst)
    ltac:(unfold at_, SIZEOF_HEADER, SIZEOF_FIELD; lia) (en_size _ _ _ _ Hst) (en_bound _ _ _ _ Hst)) as Hpost.
  pose proof (content_room_nonneg (c f)). pose proof (fields_room_nonneg fs). pose proof (wf_tag _ _ Hf).
  pose proof (gaps_nonneg (f_tag f) fs).
  assert (Hup : ∀ o ud' b', encode_field cb f ud b at_ size = Ok (o, ud', b') → gives_up o →
    encode_fields cb (f :: fs) ud b header at_ size (Z.of_nat (length ws)) last = Ok (inr (-1), ud', b')).
  { intros o ud' b' He Ho. cbn [encode_fields]. rewrite He. by destruct Ho as [-> | ->]. }
  destruct (content_view (c f)) as [om| |] eqn:Hv; unfold field_post in Hpost.
  - destruct Hpost as [(o & ud' & b' & He & Ho & Hlt)|(o & ud' & b' & He & Hdone & Hs & Hr')].
    { rewrite (Hup _ _ _ He Ho). unfold fields_post. cbn [fields_view fields_room]. rewrite Hv. cbn [mbind res_bind].
      destruct (fields_view c fs); cbn; [left|right|]; eauto 6 with lia. }
    destruct om as [m|].
    + eapply (fields_present f fs m ud ud' b b'); [done|done|done|lia| |by eauto|].
      * rewrite length_app. unfold gap_words, spare in *.
        destruct (Z.ltb_spec (last + 1) (f_tag f)), (Z.ltb_spec last prev), (Z.ltb_spec (prev + 1) (f_tag f)); cbn; lia.
      * intros ws' dat' size' b2 Hst2 Hlen. eapply (IH (f_tag f)); try done; [lia|].
        rewrite Hlen. unfold gap_words, spare in *. rewrite Z.ltb_irrefl.
        destruct (Z.ltb_spec (last + 1) (f_tag f)), (Z.ltb_spec last prev), (Z.ltb_spec (prev + 1) (f_tag f)); cbn [length]; lia.
    + eapply (fields_skip f fs b b'); [done|done|exact Hs|].
      replace (encode_fields cb (f :: fs) ud b header at_ size (Z.of_nat (length ws)) last)
        with (encode_fields cb fs ud' b' header at_ size (Z.of_nat (length ws)) last)
        by (cbn [encode_fields]; rewrite He; by destruct Hdone as [-> | ->]).
      eapply (IH (f_tag f)); try done; [lia|by eapply add_nothing|]. unfold spare in *.
      destruct (Z.ltb_spec last (f_tag f)), (Z.ltb_spec last prev), (Z.ltb_spec (prev + 1) (f_tag f)); lia.
  - unfold fields_post. cbn [fields_view]. rewrite Hv. cbn [mbind res_bind].
    destruct Hpost as [He|(o & ud' & b' & He & Ho)]; [left; cbn [encode_fields]; by rewrite He|].
    rewrite (Hup _ _ _ He Ho). eauto.
  - unfold fields_post. cbn [fields_view]. by rewrite Hv.
Qed.
End Records.

(** ** The structure *)

Definition struct_room (st : sproto_type) : Z := header_room st + fields_room c (t_f st).

Definition struct_post (st : sproto_type) (b : block) (header size : Z) (r : res (Z * UD * block)) : Prop :=
  match fields_view c (t_f st) with
  | Undef => True
  | Fail => r = Fail ∨ ∃ ud' b', r = Ok (-1, ud', b')
  | Ok ms =>
      let w := wire (MStruct ms) in
      (∃ ud' b', r = Ok (-1, ud', b') ∧ size < struct_room st) ∨
      ∃ ud' b', r = Ok (Z.of_nat (length w), ud', b') ∧ has b' header w ∧ same_out b b' header (header + size) ∧
        Z.of_nat (length w) <= size ∧ Z.of_nat (length w) <= struct_room st ∧ ready [] ud'
  end.

Lemma wire_struct ms :
  wire (MStruct ms) = le_bytes 2 (Z.of_nat (length (words (-1) ms))) ++ rec_bytes (words (-1) ms) ++ data_of ms.
Proof. done. Qed.

(** The number of records is written and the data moved down to them. *)
Lemma finish_ok header maxn ws dat size b index :
  0 <= header → enc_state header maxn ws dat size b → index = Z.of_nat (length ws) →
  ∃ b1 b2, put b header (bytes2 index) = Ok b1 ∧
    (if negb (index =? maxn) then
       d ← fetch b1 (header + (SIZEOF_HEADER + maxn * SIZEOF_FIELD)) (Z.of_nat (length dat));
       put b1 (header + SIZEOF_HEADER + index * SIZEOF_FIELD) d
     else Ok b1) = Ok b2 ∧
    has b2 header (le_bytes 2 index ++ rec_bytes ws ++ dat) ∧
    same_out b b2 header (header + (SIZEOF_HEADER + maxn * SIZEOF_FIELD) + Z.of_nat (length dat)).
Proof.
  intros Hh [Hm Hs Hb Hr Hd Hc] ->. unfold SIZEOF_HEADER, SIZEOF_FIELD in *. pose proof (rec_bytes_length ws) as Hrl.
  destruct (put_has b header (bytes2 (Z.of_nat (length ws)))) as (b1 & Hp & Hh1 & Hs1); [done|cbn; lia|].
  rewrite bytes2_le, le_bytes_length in *. pose proof (same_out_length _ _ _ _ Hs1).
  assert (Hr1 : has b1 (header + 2) (rec_bytes ws)) by (eapply has_frame; [done|lia|lia|done]).
  assert (Hd1 : has b1 (header + (2 + maxn * 2)) dat) by (eapply has_frame; [done|lia|lia|done]).
  assert (Hall : ∀ b2, has b2 header (le_bytes 2 (Z.of_nat (length ws))) → has b2 (header + 2) (rec_bytes ws) →
    has b2 (header + 2 + Z.of_nat (length ws) * 2) dat → has b2 header (le_bytes 2 (Z.of_nat (length ws)) ++ rec_bytes ws ++ dat)).
  { intros b2 H1 H2 H3. apply has_app; [done|]. rewrite le_bytes_length. split; [done|]. apply has_app; [lia|].
    split; [done|]. rewrite Hrl. by replace (header + Z.of_nat 2 + 2 * Z.of_nat (length ws)) with (header + 2 + Z.of_nat (length ws) * 2) by lia. }
  exists b1. destruct (Z.eqb_spec (Z.of_nat (length ws)) maxn) as [E|E]; cbn [negb].
  - exists b1. split_and!; [done|done| |eapply same_out_mono; [exact Hs1|lia|lia]].
    apply Hall; [done|done|]. rewrite E. by replace (header + 2 + maxn * 2) with (header + (2 + maxn * 2)) by lia.
  - rewrite (fetch_ok b1 _ dat); [|done|done|lia|lia]. cbn [mbind res_bind].
    destruct (put_has b1 (header + 2 + Z.of_nat (length ws) * 2) dat) as (b2 & Hp2 & Hh2 & Hs2); [lia|lia|].
    exists b2. split_and!; [done|done| |eapply same_out_trans; eapply same_out_mono; [exact Hs1|lia|lia|exact Hs2|lia|lia]].
    apply Hall; [eapply has_frame; [done|lia|rewrite le_bytes_length; lia|done]|eapply has_frame; [done|lia|lia|done]|done].
Qed.

Lemma sproto_encode_ok tn st ud b header size :
  wf_type tn st → ready (t_f st) ud → Z.of_nat (length b) <= BLOCK_MAX →
  0 <= header → 0 <= size → header + size <= Z.of_nat (length b) →
  struct_post st b header size (sproto_encode cb st ud b header size).
Proof.
  intros [Hn Hf Ha Hmx _ _] Hr Hb Hh Hs Hl. pose proof (gaps_nonneg (-1) (t_f st)). pose proof (fields_room_nonneg (t_f st)).
  unfold sproto_encode, struct_post, struct_room, header_room.
  set (hs := SIZEOF_HEADER + t_maxn st * SIZEOF_FIELD).
  destruct (Z.ltb_spec size hs) as [Hlt|Hge].
  { destruct (fields_view c (t_f st)); [left|right|done]; eauto 6 with lia. }
  assert (Hst : enc_state header (t_maxn st) [] [] (size - hs) b).
  { split; cbn [length]; try apply has_nil; unfold hs in *; try lia. }
  pose proof (encode_fields_ok header (t_maxn st) ltac:(lia) ltac:(lia) tn (t_f st) (-1) ud b [] [] (size - hs) (-1)
    Hf Ha ltac:(lia) Hr Hst ltac:(unfold spare; cbn; lia)) as Hp.
  cbn [length] in Hp. change (Z.of_nat 0) with 0 in Hp. rewrite Z.add_0_r in Hp. change (header + (SIZEOF_HEADER + t_maxn st * SIZEOF_FIELD)) with (header + hs) in Hp.
  unfold fields_post in Hp. destruct (fields_view c (t_f st)) as [ms| |]; [|destruct Hp as [->|(ud' & b' & ->)]; cbn; eauto|done].
  destruct Hp as [(ud' & b' & -> & Hlt)|(ud' & b' & -> & Hst' & Hsame & Hroom & Hr')]; cbn [mbind res_bind app length] in *.
  { left. do 2 eexists. split; [done|]. lia. }
  change (header + (SIZEOF_HEADER + t_maxn st * SIZEOF_FIELD)) with (header + hs) in *.
  destruct (finish_ok _ _ _ _ _ _ (Z.of_nat (length (words (-1) ms))) Hh Hst' eq_refl) as (b1 & b2 & -> & Hp2 & Hh2 & Hs2).
  cbn [mbind res_bind].
  replace (header + hs + Z.of_nat (length (data_of ms)) - (header + hs)) with (Z.of_nat (length (data_of ms))) by lia.
  cbv zeta. change (header + (SIZEOF_HEADER + t_maxn st * SIZEOF_FIELD)) with (header + hs) in Hp2. rewrite Hp2. cbn [mbind res_bind].
  right. exists ud', b2. rewrite wire_struct.
  assert (Hwl : Z.of_nat (length (le_bytes 2 (Z.of_nat (length (words (-1) ms))) ++ rec_bytes (words (-1) ms) ++ data_of ms)) =
    SIZEOF_HEADER + Z.of_nat (length (words (-1) ms)) * SIZEOF_FIELD + Z.of_nat (length (data_of ms))).
  { rewrite !length_app, le_bytes_length, !Nat2Z.inj_add, rec_bytes_length. unfold SIZEOF_HEADER, SIZEOF_FIELD. lia. }
  pose proof (en_cap _ _ _ _ _ _ Hst'). pose proof (en_size _ _ _ _ _ _ Hst').
  split_and!; [by rewrite Hwl|done| |rewrite Hwl; unfold hs, SIZEOF_HEADER, SIZEOF_FIELD in *; lia|rewrite Hwl; unfold hs, SIZEOF_HEADER, SIZEOF_FIELD in *; lia|done].
  eapply same_out_trans; eapply same_out_mono; [exact Hsame|unfold SIZEOF_HEADER; lia|lia|exact Hs2|lia|unfold hs in *; lia].
Qed.
End Fields.
