(* ===== verification/SprotoLua.v ===== *)
(** * From Lua tables to messages

    The message a table stands for under a type ([view]), and the proof that
    the callback [encode] of lsproto.c describes it to the encoder; with it
    [lencode] returns the bytes of the message or fails as [view] does. *)

From Stdlib Require Import ZArith Lia.
From stdpp Require Import base tactics option numbers list strings.
From S2P Require Import Prelude Libc SprotoTypes SprotoCodec SprotoWire SprotoEncode.

(** ** Tables

    What Lua guarantees of a table: distinct keys, no nil values. *)

Fixpoint lua_ok (v : lua_value) : Prop :=
  match v with
  | LTable kvs =>
      NoDup (map fst kvs) ∧
      (fix go (l : list (lua_key * lua_value)) : Prop :=
         match l with [] => True | (_, x) :: l => x ≠ LNil ∧ lua_ok x ∧ go l end) kvs
  | _ => True
  end.

Lemma lua_ok_table kvs :
  lua_ok (LTable kvs) ↔ NoDup (map fst kvs) ∧ Forall (λ p, p.2 ≠ LNil ∧ lua_ok p.2) kvs.
Proof.
  cbn. apply and_iff_compat_l. induction kvs as [|[k x] kvs IH]; [by split|].
  rewrite Forall_cons, <- IH. cbn. tauto.
Qed.

#[global] Instance lua_nil_dec v : Decision (v = LNil).
Proof. destruct v; first [by left|by right]. Defined.

Lemma tget_in t k v : tget t k = v → v ≠ LNil → (k, v) ∈ t.
Proof.
  induction t as [|[k' x] t IH]; cbn; intros H Hn; [by subst|]. destruct (decide (k' = k)) as [->|]; subst.
  - by left.
  - right. by apply IH.
Qed.

Lemma tget_ok t k : lua_ok (LTable t) → lua_ok (tget t k).
Proof.
  intros [_ Hf]%lua_ok_table. destruct (decide (tget t k = LNil)) as [->|H]; [done|].
  pose proof (tget_in t k _ eq_refl H) as Hin. rewrite Forall_forall in Hf. by apply (Hf _ Hin).
Qed.

(** The values at [i], [i + 1], ... up to the first nil. *)
Fixpoint seq_items (fuel : nat) (a : table) (i : Z) : list lua_value :=
  match fuel with
  | O => []
  | S fuel => match tget a (KInteger i) with LNil => [] | v => v :: seq_items fuel a (i + 1) end
  end.

Fixpoint seq_of (a : table) (i : Z) (xs : list lua_value) : Prop :=
  match xs with
  | [] => tget a (KInteger i) = LNil
  | x :: xs => tget a (KInteger i) = x ∧ x ≠ LNil ∧ seq_of a (i + 1) xs
  end.

(** The elements the encoder finds in an array: by [lua_next] where there is a
    main index, from 1 on otherwise. *)
Definition items (f : field) (a : table) : list lua_value :=
  if 0 <=? f_key f then map snd a else seq_items (S (length a)) a 1.

(** The pairs that follow the key in the iterator slot. *)
Fixpoint after (a : table) (k : option lua_key) : table :=
  match k with
  | None => a
  | Some k => match a with [] => [] | (k', _) :: a => if decide (k' = k) then a else after a (Some k) end
  end.

Lemma lua_next_after a k : lua_next a k = head (after a k).
Proof. destruct k as [k|]; [|by destruct a as [|[? ?] ?]]. induction a as [|[k' v] a IH]; cbn; [done|]. by destruct (decide (k' = k)). Qed.

Lemma after_suffix a k : ∃ pre, a = pre ++ after a k.
Proof.
  destruct k as [k|]; [|exists []; by destruct a as [|[? ?] ?]]. induction a as [|[k' v] a IH]; cbn; [by exists []|].
  destruct (decide (k' = k)); [by exists [(k', v)]|]. destruct IH as [pre E]. exists ((k', v) :: pre). cbn. by f_equal.
Qed.

Lemma after_app a pre k v post :
  NoDup (map fst a) → a = pre ++ (k, v) :: post → after a (Some k) = post.
Proof.
  intros Hnd ->. induction pre as [|[k' v'] pre IH]; cbn in *; [by rewrite decide_True|].
  apply NoDup_cons in Hnd as [Hni Hnd]. rewrite decide_False; [by apply IH|].
  intros ->. apply Hni. rewrite map_app. apply elem_of_app. right. by left.
Qed.

Lemma seq_items_of fuel a i j :
  tget a (KInteger j) = LNil → i <= j <= i + Z.of_nat fuel → seq_of a i (seq_items fuel a i).
Proof.
  intros Hj. revert i. induction fuel as [|fuel IH]; intros i Hi; cbn [seq_items].
  - by replace i with j by lia.
  - destruct (decide (i = j)) as [->|]; [by rewrite Hj|].
    destruct (tget a (KInteger i)) eqn:E; cbn [seq_of]; try done; (split; [done|split; [done|]]; apply IH; lia).
Qed.

#[global] Instance KInteger_inj : Inj (=) (=) KInteger.
Proof. by intros ? ? [=]. Qed.

(** A table with [n] pairs has no more than [n] consecutive integer keys. *)
Lemma seq_end a : ∃ j, tget a (KInteger j) = LNil ∧ 1 <= j <= 1 + Z.of_nat (S (length a)).
Proof.
  destruct (decide (Exists (λ j, tget a (KInteger j) = LNil) (seqZ 1 (Z.of_nat (S (length a)))))) as [H|H].
  - apply Exists_exists in H as (j & Hj & E). exists j. apply elem_of_seqZ in Hj. split; [done|lia].
  - exfalso. rewrite <- Forall_Exists_neg, Forall_forall in H.
    assert (Hl : (length (map KInteger (seqZ 1 (Z.of_nat (S (length a))))) <= length (map fst a))%nat).
    { apply NoDup_incl_length.
      - apply NoDup_ListNoDup, (NoDup_fmap_2 KInteger), NoDup_seqZ.
      - intros k (j & <- & Hj)%in_map_iff. apply list_elem_of_In in Hj.
        pose proof (tget_in a (KInteger j) _ eq_refl (H _ Hj)) as Hin. apply in_map_iff. eexists (_, _).
        split; [done|]. by apply list_elem_of_In. }
    rewrite !length_map, length_seqZ in Hl. lia.
Qed.

Lemma items_seq f a : f_key f < 0 → seq_of a 1 (items f a).
Proof.
  intros Hk. unfold items. destruct (Z.leb_spec 0 (f_key f)); [lia|].
  destruct (seq_end a) as (j & Hj & Hr). by eapply seq_items_of.
Qed.

(** ** The message of a table *)

Section View.
Context `{LuaConv}.
Variable sp : sproto.

Fixpoint lua_content (n : nat) (tbl : table) (f : field) : content :=
  match n with
  | O => CFail
  | S n =>
      let name := default [] (f_name f) in
      let elem (x : lua_value) : elt :=
        if elt_type f =? SPROTO_TINTEGER then (v ← encode_integer_value (arg_of f name) x; Ok (MInt v), 8)
        else if elt_type f =? SPROTO_TBOOLEAN then (match x with LBoolean v => Ok (MBool v) | _ => Fail end, 8)
        else if elt_type f =? SPROTO_TSTRING then
          match lua_tolstring x with Some s => (Ok (MStr s), Z.of_nat (length s)) | None => (Fail, 0) end
        else match x with
             | LTable t =>
                 match f_st f ≫= arr_get (s_type sp) with
                 | Some st => (ms ← fields_view (lua_content n t) (t_f st); Ok (MStruct ms),
                               struct_room (lua_content n t) st)
                 | None => (Undef, 0)
                 end
             | _ => (Fail, 0)
             end in
      match tget tbl (KString name), is_array f with
      | LNil, _ => CAbsent
      | LTable a, true => CArray (map elem (items f a))
      | _, true => CFail
      | x, false => CSingle (elem x)
      end
  end.

(** The element [x] of the field [f], with [n] levels below it. *)
Definition lua_elt (n : nat) (f : field) (x : lua_value) : elt :=
  if elt_type f =? SPROTO_TINTEGER then (v ← encode_integer_value (arg_of f (default [] (f_name f))) x; Ok (MInt v), 8)
  else if elt_type f =? SPROTO_TBOOLEAN then (match x with LBoolean v => Ok (MBool v) | _ => Fail end, 8)
  else if elt_type f =? SPROTO_TSTRING then
    match lua_tolstring x with Some s => (Ok (MStr s), Z.of_nat (length s)) | None => (Fail, 0) end
  else match x with
       | LTable t =>
           match f_st f ≫= arr_get (s_type sp) with
           | Some st => (ms ← fields_view (lua_content n t) (t_f st); Ok (MStruct ms), struct_room (lua_content n t) st)
           | None => (Undef, 0)
           end
       | _ => (Fail, 0)
       end.

Lemma lua_content_S n tbl f :
  lua_content (S n) tbl f =
    match tget tbl (KString (default [] (f_name f))), is_array f with
    | LNil, _ => CAbsent
    | LTable a, true => CArray (map (lua_elt n f) (items f a))
    | _, true => CFail
    | x, false => CSingle (lua_elt n f x)
    end.
Proof. done. Qed.

(** The message of [tbl] under the type [st], [Fail] where the table does not
    fit, and a size of the buffer that is enough to encode it. *)
Definition view (st : sproto_type) (tbl : table) : res msg :=
  ms ← fields_view (lua_content 64 tbl) (t_f st); Ok (MStruct ms).

Definition view_room (st : sproto_type) (tbl : table) : Z := struct_room (lua_content 64 tbl) st.
End View.

(** ** The callback describes the message *)

Section Callback.
Context `{LuaConv}.
Context (sp : sproto) (Hsp : wf_sproto sp).
Notation tn := (type_n sp).

Definition depth_of (n : nat) : Z := 64 - Z.of_nat n.

(** The state before the fields [fs]: no array of them is open. *)
Record ready (n : nat) (tbl : table) (fs : list field) (ud : encode_ud) : Prop := {
  rd_tbl : e_tbl ud = tbl;
  rd_deep : e_deep ud = depth_of n;
  rd_iter : e_iter ud = None;
  rd_wf : Forall (wf_field tn) fs;
  rd_asc : ∃ prev, ascending prev fs;
  rd_new : ∀ f, f ∈ fs → e_array_tag ud ≠ Some (f_tag f)
}.

(** The values of the array [a] still to come. *)
Definition to_come (f : field) (a : table) (i : Z) (ud : encode_ud) (xs : list lua_value) : Prop :=
  if 0 <=? f_key f then xs = map snd (after a (e_iter ud)) else e_iter ud = None ∧ seq_of a i xs.

Record inside (n : nat) (tbl : table) (f : field) (es : list elt) (fs : list field) (i : Z) (ud : encode_ud) : Prop := {
  in_tbl : e_tbl ud = tbl;
  in_deep : e_deep ud = depth_of n;
  in_wf : Forall (wf_field tn) (f :: fs);
  in_asc : ascending (f_tag f) fs;
  in_pos : 0 < i;
  in_level : (0 < n)%nat;
  in_rest : ∃ a xs, tget tbl (KString (default [] (f_name f))) = LTable a ∧ to_come f a i ud xs ∧
    es = map (lua_elt sp (pred n) f) xs ∧
    ((e_array_tag ud = Some (f_tag f) ∧ e_array ud = Some a) ∨ (e_array_tag ud ≠ Some (f_tag f)))
}.

Lemma ascending_above last fs f : ascending last fs → f ∈ fs → last < f_tag f.
Proof. intros Ha [i Hi]%list_elem_of_lookup. pose proof (ascending_tags _ _ _ _ Ha Hi). lia. Qed.

(** What the elements of a table are. *)
Lemma lua_elt_kind n f x : wf_field tn f → elt_kind (elt_type f) (lua_elt sp n f x).
Proof.
  intros Hf. destruct (wf_elt _ _ Hf) as [Ht _]. unfold elt_kind, lua_elt.
  destruct Ht as [E|[E|[E|E]]]; rewrite E; cbn.
  - destruct (encode_integer_value _ x) as [v| |] eqn:Hv; cbn; try done. split; [done|].
    unfold encode_integer_value in Hv. unfold int64. destruct (negb _).
    + apply defined_ok in Hv. unfold float_round in Hv. repeat case_match; simplify_eq; bool_to_prop; lia.
    + case_match; [|done]. injection Hv as <-. unfold i64. dlia.
  - by destruct x.
  - by destruct (lua_tolstring x).
  - destruct x; cbn; try done. destruct (f_st f ≫= _); cbn; [|done]. by destruct (fields_view _ _).
Qed.

Lemma encode_found fuel args self self' b x :
  e_deep self < 64 → encode_find args self = Ok (inl x, self') → x ≠ LNil →
  encode sp (S fuel) args self b = encode_value sp (encode sp fuel) args self' b x.
Proof.
  intros Hd Hf Hx. cbn [encode]. unfold ENCODE_DEEPLEVEL. destruct (Z.leb_spec 64 (e_deep self)); [lia|].
  rewrite Hf. cbn. by destruct x.
Qed.

(** Initial state of a structure. *)
Lemma ready_init n t st : wf_type tn st → ready n t (t_f st) (mk_eud t None None (depth_of n) None).
Proof. intros [? Hf Ha ? ? ?]. by split; try done; exists (-1). Qed.

Lemma value_ok n f i x args self self' b (Q : encode_ud → Prop) :
  (∀ t, lua_ok (LTable t) → CallbackSpec (encode sp (S n)) (lua_content sp n t) (ready n t) (inside n t)) →
  wf_field tn f → args_for f i args → in_block args b → e_deep self = depth_of (S n) → e_deep self' = depth_of (S n) →
  encode_find args self = Ok (inl x, self') → x ≠ LNil → lua_ok x → Q self' →
  elt_post (encode sp (S (S n))) (lua_elt sp n f x) args self b Q.
Proof.
  intros IH Hf Ha [Hmax Hblk] Hd Hd' Hfind Hx Hok HQ. unfold depth_of in *. unfold elt_post.
  rewrite (encode_found (S n) args self self' b x ltac:(lia) Hfind Hx). destruct Ha as [Hn _ Ht Hst _ _ Hex]. unfold BLOCK_MAX in Hmax.
  unfold encode_value, lua_elt. rewrite Ht in *. rewrite Hn. cbn [default].
  destruct (wf_elt _ _ Hf) as [[E|[E|[E|E]]] _]; rewrite E in *; cbn [Z.eqb SPROTO_TINTEGER SPROTO_TBOOLEAN SPROTO_TSTRING SPROTO_TSTRUCT].
  - replace (encode_integer_value args x) with (encode_integer_value (arg_of f (a_tagname args)) x)
      by (unfold encode_integer_value; cbn; by rewrite Hex).
    destruct (encode_integer_value _ x) as [v| |]; cbn [mbind res_bind fst]; [|by left|done].
    exists self'. split; [|done]. by destruct (store_integer v).
  - destruct x; cbn; eauto.
  - destruct (lua_tolstring x) as [str|]; cbn [fst snd]; [|by left].
    destruct Hblk as (p & Hp & Hp0 & Hl0 & Hpl); [done|done|]. rewrite u64_small by lia. cbn [wire].
    destruct (Z.ltb_spec (a_length args) (Z.of_nat (length str))); [left; eauto 10|]. right. rewrite Hp. cbn [defined mbind res_bind].
    destruct (put_has b p str) as (b' & -> & Hh & Hs); [done|lia|]. exists p, 0, self', b'. cbn.
    split_and!; try done; try lia. eapply same_out_mono; [exact Hs|lia|lia].
  - destruct x as [| | | | |t|]; cbn [fst]; try (by left). destruct (subtype_ok sp f Hsp Hf E) as (k & st & Hk & Hget & Hwf).
    rewrite Hst, Hk. cbn [mbind option_bind defined res_bind]. rewrite Hget. cbn [mbind option_bind defined res_bind fst snd].
    destruct Hblk as (p & Hp & Hp0 & Hl0 & Hpl); [done|done|]. rewrite Hp. cbn [mbind res_bind defined].
    replace (e_deep self' + 1) with (depth_of n) by (unfold depth_of; lia).
    pose proof (sproto_encode_ok _ _ _ _ (IH t Hok) tn st _ b p (a_length args) Hwf (ready_init n t st Hwf)
      ltac:(done) ltac:(done) ltac:(done) ltac:(done)) as Hp'.
    unfold struct_post in Hp'.
    destruct (fields_view (lua_content sp n t) (t_f st)) as [ms| |]; cbn [mbind res_bind]; [| |done].
    + destruct Hp' as [(ud' & b' & -> & Hlt)|(ud' & b' & -> & Hh & Hs & Hl & Hr & _)]; cbn [mbind res_bind].
      * left. eauto 10.
      * right. destruct (Z.ltb_spec (Z.of_nat (length (wire (MStruct ms)))) 0); [lia|]. exists p, 0, self', b'. done.
    + destruct Hp' as [->|(ud' & b' & ->)]; cbn; eauto 10.
Qed.

Lemma find_array f i args ud a :
  args_for f i args → 0 < i → tget (e_tbl ud) (KString (default [] (f_name f))) = LTable a →
  (e_array_tag ud = Some (f_tag f) ∧ e_array ud = Some a) ∨ e_array_tag ud ≠ Some (f_tag f) →
  encode_find args ud =
    let ud1 := set_array ud (f_tag f) (Some a) in
    if 0 <=? f_key f then
      match lua_next a (e_iter ud) with
      | None => Ok (inr SPROTO_CB_NIL, set_iter ud1 None)
      | Some (k, v) => Ok (inl v, set_iter ud1 (Some k))
      end
    else Ok (inl (tget a (KInteger i)), ud1).
Proof.
  intros [Hn Ht _ _ Hi Hk _] Hp Ha Hopen. unfold encode_find. rewrite Hi, Ht, Hk. rewrite Hn in Ha. cbn [from_option id] in Ha.
  destruct (Z.ltb_spec 0 i); [|lia]. destruct Hopen as [[H1 H2]|H1].
  - rewrite bool_decide_eq_true_2 by done. cbn [mbind res_bind]. rewrite H2. cbn [defined mbind res_bind].
    replace (set_array ud (f_tag f) (Some a)) with ud by (destruct ud; cbn in *; by subst). done.
  - rewrite bool_decide_eq_false_2, Ha by done. done.
Qed.

Lemma callback_deep tbl : CallbackSpec (encode sp 1) (lua_content sp 0 tbl) (ready 0 tbl) (inside 0 tbl).
Proof.
  assert (Hfail : ∀ args ud b, e_deep ud = depth_of 0 → encode sp 1 args ud b = Fail).
  { intros args ud b Hd. cbn [encode]. unfold depth_of in Hd. cbn in Hd. by rewrite Hd. }
  split.
  - intros f fs ud b args [_ Hd _ _ _ _] _ _ _. by apply Hfail.
  - intros f fs ud [_ Hd _ _ _ _] _ b args _. by apply Hfail.
  - intros f e es fs i ud b args []. lia.
  - intros f fs i ud b args []. lia.
Qed.

Lemma ready_tail n tbl f fs ud ud' : ready n tbl (f :: fs) ud →
  e_tbl ud' = tbl → e_deep ud' = depth_of n → e_iter ud' = None →
  (e_array_tag ud' = e_array_tag ud ∨ e_array_tag ud' = Some (f_tag f)) → ready n tbl fs ud'.
Proof.
  intros [_ _ _ Hw [prev [_ Ha]] Hnew] H1 H2 H3 H4. split; try done; [by inversion Hw|by exists (f_tag f)|].
  intros g Hg. destruct H4 as [->| ->]; [apply Hnew; by right|].
  pose proof (ascending_above _ _ _ Ha Hg). intros [= E]. lia.
Qed.

Lemma inside_end n tbl f fs ud' : Forall (wf_field tn) fs → ascending (f_tag f) fs →
  e_tbl ud' = tbl → e_deep ud' = depth_of n → e_iter ud' = None → e_array_tag ud' = Some (f_tag f) → ready n tbl fs ud'.
Proof.
  intros Hw Ha ? ? ? Ht. split; try done; [by exists (f_tag f)|].
  intros g Hg. rewrite Ht. pose proof (ascending_above _ _ _ Ha Hg). intros [= E]. lia.
Qed.

Lemma single_ok n tbl f fs ud b args :
  (∀ t, lua_ok (LTable t) → CallbackSpec (encode sp (S n)) (lua_content sp n t) (ready n t) (inside n t)) →
  lua_ok (LTable tbl) → ready (S n) tbl (f :: fs) ud → is_array f = false → args_for f 0 args → in_block args b →
  match lua_content sp (S n) tbl f with
  | CFail => encode sp (S (S n)) args ud b = Fail
  | CAbsent => ∃ ud', encode sp (S (S n)) args ud b = Ok (SPROTO_CB_NIL, 0, ud', b) ∧ ready (S n) tbl fs ud'
  | CSingle e => elt_kind (elt_type f) e ∧ elt_post (encode sp (S (S n))) e args ud b (ready (S n) tbl fs)
  | CArray _ => False
  end.
Proof.
  intros IH Hok Hr Harr Ha Hb. pose proof (rd_wf _ _ _ _ Hr) as Hwf. inversion Hwf as [|? ? Hf _]; subst.
  assert (Hfind : encode_find args ud = Ok (inl (tget tbl (KString (default [] (f_name f)))), ud)).
  { destruct Ha as [Hn _ _ _ Hi _ _]. unfold encode_find. rewrite Hi, Hn, (rd_tbl _ _ _ _ Hr). done. }
  assert (Hr' : ready (S n) tbl fs ud) by (eapply ready_tail; eauto using rd_tbl, rd_deep, rd_iter).
  pose proof (rd_deep _ _ _ _ Hr) as Hd.
  rewrite lua_content_S, Harr. set (x := tget tbl _) in *. pose proof (tget_ok tbl (KString (default [] (f_name f))) Hok) as Hokx.
  fold x in Hokx. destruct (decide (x = LNil)) as [E|E].
  - rewrite E in *. exists ud. split; [|done]. cbn [encode]. unfold ENCODE_DEEPLEVEL, depth_of in *.
    destruct (Z.leb_spec 64 (e_deep ud)); [lia|]. by rewrite Hfind.
  - assert (Hgoal : elt_kind (elt_type f) (lua_elt sp n f x) ∧ elt_post (encode sp (S (S n))) (lua_elt sp n f x) args ud b (ready (S n) tbl fs)).
    { split; [by apply lua_elt_kind|]. by eapply value_ok. }
    by destruct x.
Qed.

Lemma array_ok n tbl f fs ud :
  lua_ok (LTable tbl) → ready (S n) tbl (f :: fs) ud → is_array f = true →
  match lua_content sp (S n) tbl f with
  | CFail => ∀ b args, args_for f 1 args → encode sp (S (S n)) args ud b = Fail
  | CAbsent => ∀ b args, args_for f 1 args →
      ∃ ud', encode sp (S (S n)) args ud b = Ok (SPROTO_CB_NOARRAY, 0, ud', b) ∧ ready (S n) tbl fs ud'
  | CSingle _ => False
  | CArray es => Forall (elt_kind (elt_type f)) es ∧ inside (S n) tbl f es fs 1 ud
  end.
Proof.
  intros Hok Hr Harr. pose proof (rd_wf _ _ _ _ Hr) as Hwf. inversion Hwf as [|? ? Hf Hfs]; subst.
  pose proof (rd_new _ _ _ _ Hr f ltac:(by left)) as Hnew. pose proof (rd_deep _ _ _ _ Hr) as Hd. unfold depth_of in Hd.
  assert (Hfirst : ∀ b args, args_for f 1 args → encode sp (S (S n)) args ud b =
    match tget tbl (KString (default [] (f_name f))) with
    | LNil => Ok (SPROTO_CB_NOARRAY, 0, set_array ud (f_tag f) None, b)
    | LTable _ => encode sp (S (S n)) args ud b
    | _ => Fail
    end).
  { intros b args [Hn Ht _ _ Hi _ _]. destruct (tget tbl _) eqn:E; try done; cbn [encode]; unfold ENCODE_DEEPLEVEL, encode_find;
      (destruct (Z.leb_spec 64 (e_deep ud)); [lia|]); rewrite Hi, Ht, (rd_tbl _ _ _ _ Hr), bool_decide_eq_false_2 by done;
      rewrite Hn in E; cbn [from_option id] in E; by rewrite E. }
  rewrite lua_content_S, Harr. destruct (tget tbl _) as [| | | | |a|] eqn:E; try (intros ? ? Ha; by rewrite (Hfirst _ _ Ha)).
  - intros b args Ha. rewrite (Hfirst b args Ha). eexists. split; [done|].
    eapply ready_tail; [done|by destruct Hr|by destruct Hr|by destruct Hr|by right].
  - split; [apply Forall_map, Forall_true; intros x; by apply lua_elt_kind|].
    split; [by destruct Hr|by destruct Hr|done|by destruct Hr as [_ _ _ _ [prev [_ ?]] _]|lia|lia|].
    exists a, (items f a). split_and!; [done| |done|by right].
    unfold to_come. rewrite (rd_iter _ _ _ _ Hr). destruct (Z.leb_spec 0 (f_key f)) as [Hk|Hk].
    + unfold items. rewrite (proj2 (Z.leb_le _ _) Hk). by destruct a as [|[? ?] ?].
    + split; [done|by apply items_seq].
Qed.

(** The next value of an open array and the state after it. *)
Lemma find_next f i args ud a x xs :
  lua_ok (LTable a) → args_for f i args → 0 < i → tget (e_tbl ud) (KString (default [] (f_name f))) = LTable a →
  (e_array_tag ud = Some (f_tag f) ∧ e_array ud = Some a) ∨ e_array_tag ud ≠ Some (f_tag f) →
  to_come f a i ud (x :: xs) →
  ∃ ud', encode_find args ud = Ok (inl x, ud') ∧ x ≠ LNil ∧ lua_ok x ∧ to_come f a (i + 1) ud' xs ∧
    e_tbl ud' = e_tbl ud ∧ e_deep ud' = e_deep ud ∧ e_array_tag ud' = Some (f_tag f) ∧ e_array ud' = Some a.
Proof.
  intros Hok Ha Hi Hget Hopen Hcome. rewrite (find_array f i args ud a Ha Hi Hget Hopen). cbv zeta. unfold to_come in *.
  destruct (0 <=? f_key f).
  - rewrite lua_next_after. destruct (after a (e_iter ud)) as [|[k v] rest] eqn:Haf; [done|].
    cbn in Hcome. injection Hcome as -> ->. cbn [head]. apply lua_ok_table in Hok as [Hnd Hall].
    destruct (after_suffix a (e_iter ud)) as [pre Hpre]. rewrite Haf in Hpre.
    rewrite Hpre, Forall_app, Forall_cons in Hall. destruct Hall as (_ & [Hx Hxok] & _).
    eexists. split_and!; try done. cbn [e_iter set_iter]. by rewrite (after_app a pre k v rest).
  - destruct Hcome as (Hit & Hx & Hn & Hseq). rewrite Hx. eexists. split_and!; try done. rewrite <- Hx. by apply tget_ok.
Qed.

Lemma next_ok n tbl f e es fs i ud b args :
  (∀ t, lua_ok (LTable t) → CallbackSpec (encode sp (S n)) (lua_content sp n t) (ready n t) (inside n t)) →
  lua_ok (LTable tbl) → inside (S n) tbl f (e :: es) fs i ud → args_for f i args → in_block args b →
  elt_post (encode sp (S (S n))) e args ud b (inside (S n) tbl f es fs (i + 1)).
Proof.
  intros IH Hok [Htbl Hd Hwf Hasc Hp Hl (a & xs & Hget & Hcome & Hes & Hopen)] Ha Hb.
  destruct xs as [|x xs]; [done|]. cbn in Hes. injection Hes as -> ->. rewrite <- Htbl in Hget.
  pose proof (tget_ok tbl (KString (default [] (f_name f))) Hok) as Hoka. rewrite <- Htbl, Hget in Hoka.
  destruct (find_next f i args ud a x xs Hoka Ha Hp Hget Hopen Hcome) as (ud' & Hf & Hx & Hokx & Hc' & E1 & E2 & E3 & E4).
  inversion Hwf; subst. eapply (value_ok n f i x args ud ud'); try done; [congruence|].
  split; [done|congruence|done|done|lia|done|]. exists a, xs. rewrite <- E1 in Hget. split_and!; try done; [congruence|by left].
Qed.

Lemma end_ok n tbl f fs i ud b args :
  inside (S n) tbl f [] fs i ud → args_for f i args →
  ∃ ud', encode sp (S (S n)) args ud b = Ok (SPROTO_CB_NIL, 0, ud', b) ∧ ready (S n) tbl fs ud'.
Proof.
  intros [Htbl Hd Hwf Hasc Hp Hl (a & xs & Hget & Hcome & Hes & Hopen)] Ha.
  destruct xs as [|x xs]; [|done]. rewrite <- Htbl in Hget. inversion Hwf; subst.
  pose proof (find_array f i args ud a Ha Hp Hget Hopen) as Hf. cbv zeta in Hf. unfold to_come in Hcome.
  unfold depth_of in Hd. cbn [encode]. unfold ENCODE_DEEPLEVEL. destruct (Z.leb_spec 64 (e_deep ud)); [lia|]. rewrite Hf.
  destruct (0 <=? f_key f).
  - rewrite lua_next_after. destruct (after a (e_iter ud)); [|done]. cbn. eexists. split; [done|].
    by eapply inside_end.
  - destruct Hcome as [Hit Hseq]. cbn in Hseq. rewrite Hseq. cbn. eexists. split; [done|]. by eapply inside_end.
Qed.

Lemma callback_ok n tbl : lua_ok (LTable tbl) →
  CallbackSpec (encode sp (S n)) (lua_content sp n tbl) (ready n tbl) (inside n tbl).
Proof.
  revert tbl. induction n as [|n IH]; intros tbl Hok; [apply callback_deep|].
  split; intros; [by eapply single_ok|by eapply array_ok|by eapply next_ok|by eapply end_ok].
Qed.

(** ** [lencode] *)

Lemma encode_top st tbl b size :
  wf_type tn st → lua_ok (LTable tbl) → Z.of_nat (length b) = size → size <= BLOCK_MAX →
  struct_post (lua_content sp 64 tbl) (ready 64 tbl) st b 0 size
    (sproto_encode (encode sp ENCODE_FUEL) st (mk_eud tbl None None 0 None) b 0 size).
Proof.
  intros Hst Hok Hl Hm. eapply (sproto_encode_ok _ _ _ _ (callback_ok 64 tbl Hok) tn); [done| |lia|lia|lia|lia].
  apply (ready_init 64 tbl st Hst).
Qed.

Lemma view_fields st tbl :
  view sp st tbl = match fields_view (lua_content sp 64 tbl) (t_f st) with Ok ms => Ok (MStruct ms) | Fail => Fail | Undef => Undef end.
Proof. done. Qed.

Lemma expand_buffer_ok sz : expand_buffer sz (sz * 2) = if ENCODE_MAXSIZE <? sz * 2 then Fail else Ok (malloc (sz * 2)).
Proof. unfold expand_buffer. cbn [expand_size]. by rewrite Z.ltb_irrefl. Qed.

(** The block of a call of [lencode]. *)
Definition block_ok (b : block) : Prop := 1 <= Z.of_nat (length b) <= ENCODE_MAXSIZE.

(** What encoding [tbl] returns, retries included. *)
Definition lencode_post (st : sproto_type) (tbl : table) (r : res (list Z * block)) : Prop :=
  match view sp st tbl with
  | Undef => True
  | Fail => r = Fail
  | Ok m => (∃ b', r = Ok (wire m, b') ∧ block_ok b' ∧ Z.of_nat (length (wire m)) <= ENCODE_MAXSIZE) ∨
            (r = Fail ∧ ENCODE_MAXSIZE < 2 * view_room sp st tbl)
  end.

Lemma lencode_loop_ok fuel st tbl b :
  wf_type tn st → lua_ok (LTable tbl) → block_ok b → ENCODE_MAXSIZE < Z.of_nat (length b) * 2 ^ Z.of_nat fuel →
  lencode_post st tbl (lencode_loop sp fuel st tbl b (Z.of_nat (length b))).
Proof.
  intros Hst Hok. revert b. induction fuel as [|fuel IH]; intros b Hb Hf.
  { unfold block_ok in Hb. lia. }
  assert (Hgrow : ∀ b' ud', sproto_encode (encode sp ENCODE_FUEL) st (mk_eud tbl None None 0 None) b 0 (Z.of_nat (length b)) = Ok (-1, ud', b') →
    (∀ m, view sp st tbl = Ok m → Z.of_nat (length b) < view_room sp st tbl) →
    lencode_post st tbl (lencode_loop sp (S fuel) st tbl b (Z.of_nat (length b)))).
  { intros b' ud' He Hroom. cbn [lencode_loop]. rewrite He. cbn [mbind res_bind Z.ltb Z.compare]. rewrite expand_buffer_ok.
    unfold block_ok in Hb. destruct (Z.ltb_spec ENCODE_MAXSIZE (Z.of_nat (length b) * 2)).
    - cbn [mbind res_bind]. unfold lencode_post. destruct (view sp st tbl) as [m| |]; [|done|done].
      right. split; [done|]. specialize (Hroom m eq_refl). lia.
    - cbn [mbind res_bind]. assert (Hlen : Z.of_nat (length (malloc (Z.of_nat (length b) * 2))) = Z.of_nat (length b) * 2)
        by (unfold malloc; rewrite length_replicate; lia).
      rewrite <- Hlen at 2. apply IH; [unfold block_ok; lia|].
      rewrite Hlen. rewrite Nat2Z.inj_succ, Z.pow_succ_r in Hf by lia. lia. }
  pose proof (encode_top st tbl b _ Hst Hok eq_refl ltac:(unfold block_ok, ENCODE_MAXSIZE, BLOCK_MAX in *; lia)) as Hp.
  unfold struct_post in Hp. pose proof (view_fields st tbl) as Hv.
  destruct (fields_view (lua_content sp 64 tbl) (t_f st)) as [ms| |]; cbv zeta in Hp.
  - destruct Hp as [(ud' & b' & He & Hlt)|(ud' & b' & He & Hh & Hs & Hl & _)].
    + eapply Hgrow; [done|]. by intros m _.
    + cbn [lencode_loop]. rewrite He. cbn [mbind res_bind]. destruct (Z.ltb_spec (Z.of_nat (length (wire (MStruct ms)))) 0); [lia|].
      pose proof (same_out_length _ _ _ _ Hs) as Hlb. rewrite (fetch_ok _ _ _ _ Hh eq_refl) by lia. cbn [mbind res_bind].
      unfold lencode_post. rewrite Hv. left. exists b'. unfold block_ok in *. split_and!; [done|lia|lia|lia].
  - destruct Hp as [He|(ud' & b' & He)].
    + cbn [lencode_loop]. rewrite He. unfold lencode_post. by rewrite Hv.
    + eapply Hgrow; [done|]. intros m E. congruence.
  - unfold lencode_post. by rewrite Hv.
Qed.

Lemma lencode_spec i st tbl b :
  arr_get (s_type sp) i = Some st → lua_ok (LTable tbl) → block_ok b →
  lencode_post st tbl (lencode sp (Some i) (LTable tbl) b).
Proof.
  intros Hst Hok Hb. unfold lencode. rewrite Hst. cbn [defined mbind res_bind].
  apply lencode_loop_ok; [|done|done|unfold block_ok, ENCODE_MAXSIZE in *; lia].
  unfold arr_get in Hst. case_match; [|done]. by apply (Forall_lookup_1 _ _ _ _ (wf_each _ Hsp) Hst).
Qed.
End Callback.
