(* ===== verification/SprotoDecode.v ===== *)
(** * The decoder of sproto reads the wire format

    The table a message becomes ([build]), and the proof that [sproto_decode]
    with the callback of lsproto.c builds it from the bytes of the message. *)

From Stdlib Require Import ZArith Lia SpecFloat.
From stdpp Require Import base tactics option numbers list strings.
From S2P Require Import Prelude Libc SprotoTypes SprotoCodec SprotoWire SprotoEncode.

(** ** The table of a message *)

Lemma tget_tset t k v : tget (tset t k v) k = v.
Proof. induction t as [|[k' x] t IH]; cbn; [by rewrite decide_True|]. destruct (decide (k' = k)) as [->|]; cbn; [by rewrite decide_True|by rewrite decide_False]. Qed.

Lemma tget_tset_ne t k k' v : k ≠ k' → tget (tset t k v) k' = tget t k'.
Proof.
  intros Hk. induction t as [|[k2 x] t IH]; cbn; [by rewrite decide_False|].
  destruct (decide (k2 = k)) as [->|]; cbn; [by rewrite !decide_False by done|]. by rewrite IH.
Qed.

Lemma tset_tset t k v w : tset (tset t k v) k w = tset t k w.
Proof. induction t as [|[k' x] t IH]; cbn; [by rewrite decide_True|]. destruct (decide (k' = k)) as [->|]; cbn; [by rewrite decide_True|by rewrite decide_False, IH]. Qed.

Section Build.
Variable sp : sproto.

Definition name_of (f : field) : list Z := default [] (f_name f).
Definition subtype (f : field) : sproto_type := default (mk_type [] 0 0 0 []) (f_st f ≫= arr_get (s_type sp)).

(** An array of structures with a main index becomes a map. *)
Definition is_map (f : field) : bool := (elt_type f =? SPROTO_TSTRUCT) && (0 <=? f_key f).

(** The value of [m] as (an element of) the field [f], and for a structure the
    value of its field with the tag [f_key f]. *)
Fixpoint build (f : field) (m : msg) {struct m} : lua_value * lua_value :=
  match m with
  | MInt v => (if negb (f_extra f =? 0) then LNumber (SFdiv 53 1024 (of_int v) (of_int (f_extra f))) else LInteger v, LNil)
  | MBool b => (LBoolean b, LNil)
  | MStr s => (LString s, LNil)
  | MArray vs =>
      (LTable (fst (fold_left (λ tk v, let '(t, i) := tk in
         (if is_map f then match to_key (build f v).2 with Ok k => tset t k (build f v).1 | _ => t end
          else tset t (KInteger i) (build f v).1, i + 1)) vs ([], 1))), LNil)
  | MStruct ms =>
      let '(t, k) :=
        fold_left (λ tk p, let '(t, k) := tk in
          match findtag (subtype f) p.1 with
          | Some g => (tset t (KString (name_of g)) (build g p.2).1,
                       if negb (is_array g) && (f_key f =? p.1) then (build g p.2).1 else k)
          | None => (t, k)
          end) ms ([], LNil) in
      (LTable t, k)
  end.

(** The same steps by name. *)
Definition build_elem (f : field) (tk : table * Z) (v : msg) : table * Z :=
  let '(t, i) := tk in
  (if is_map f then match to_key (build f v).2 with Ok k => tset t k (build f v).1 | _ => t end
   else tset t (KInteger i) (build f v).1, i + 1).

Definition build_field (st : sproto_type) (key : Z) (tk : table * lua_value) (p : Z * msg) : table * lua_value :=
  let '(t, k) := tk in
  match findtag st p.1 with
  | Some g => (tset t (KString (name_of g)) (build g p.2).1, if negb (is_array g) && (key =? p.1) then (build g p.2).1 else k)
  | None => (t, k)
  end.

Definition build_fields (st : sproto_type) (key : Z) (ms : list (Z * msg)) (tk : table * lua_value) : table * lua_value :=
  fold_left (build_field st key) ms tk.

Lemma build_array_eq f vs : build f (MArray vs) = (LTable (fold_left (build_elem f) vs ([], 1)).1, LNil).
Proof. done. Qed.

Lemma build_struct_eq f ms :
  build f (MStruct ms) = (LTable (build_fields (subtype f) (f_key f) ms ([], LNil)).1, (build_fields (subtype f) (f_key f) ms ([], LNil)).2).
Proof.
  change (build f (MStruct ms)) with (let '(t, k) := build_fields (subtype f) (f_key f) ms ([], LNil) in (LTable t, k)).
  by destruct (build_fields _ _ _ _).
Qed.

(** ** Messages of a type

    [n] levels of structure, the last one of types without fields; the fields in ascending order of tags; every
    element of a map has a main key, and a single structure has none. *)

Fixpoint tags_ascending (last : Z) (ms : list (Z * msg)) : Prop :=
  match ms with [] => True | (t, _) :: ms => last < t ∧ tags_ascending t ms end.

Definition elt_typed (rec : sproto_type → list (Z * msg) → Prop) (f : field) (m : msg) : Prop :=
  kind_ok (elt_type f) m ∧ match m with MStruct ms => rec (subtype f) ms | _ => True end.

Definition field_typed (rec : sproto_type → list (Z * msg) → Prop) (f : field) (m : msg) : Prop :=
  if is_array f then
    ∃ vs, m = MArray vs ∧ Forall (elt_typed rec f) vs ∧ (is_map f = true → Forall (λ v, ∃ k, to_key (build f v).2 = Ok k) vs)
  else elt_typed rec f m ∧ is_map f = false.

Fixpoint typed (n : nat) (st : sproto_type) (ms : list (Z * msg)) : Prop :=
  tags_ascending (-1) ms ∧
  match n with
  | O => ms = [] ∧ t_f st = []
  | S n => Forall (λ p, ∃ f, findtag st p.1 = Some f ∧ field_typed (typed n) f p.2) ms
  end.
End Build.

Lemma subtype_found sp f : wf_sproto sp → wf_field (type_n sp) f → elt_type f = SPROTO_TSTRUCT →
  ∃ i, f_st f = Some i ∧ arr_get (s_type sp) i = Some (subtype sp f) ∧ wf_type (type_n sp) (subtype sp f).
Proof.
  intros Hs Hf Ht. destruct (subtype_ok sp f Hs Hf Ht) as (i & st & Hi & Hst & Hwf). exists i. unfold subtype. rewrite Hi. cbn.
  by rewrite Hst.
Qed.

(** ** Reading words that were written *)

Notation input d := (Some <$> d).

Lemma has_get d off x l : 0 <= off → has (input d) off (x :: l) → arr_get d off = Some x.
Proof.
  intros Ho H. specialize (H 0%nat x eq_refl). rewrite Nat.add_0_r, list_lookup_fmap in H. rewrite arr_get_lookup by done.
  destruct (d !! Z.to_nat off); by simplify_eq/=.
Qed.

Lemma has_tl d off x l : 0 <= off → has (input d) off (x :: l) → has (input d) (off + 1) l.
Proof. intros Ho H. change (x :: l) with ([x] ++ l) in H. apply has_app in H as [_ H]; [|done]. exact H. Qed.

Lemma has_length d off l : 0 <= off → l ≠ [] → has (input d) off l → off + Z.of_nat (length l) <= Z.of_nat (length d).
Proof.
  intros Ho Hl H. destruct l as [|x l] using rev_ind; [done|]. clear IHl.
  specialize (H (length l) x). rewrite lookup_app_r, Nat.sub_diag in H by lia. specialize (H eq_refl).
  apply lookup_lt_Some in H. rewrite length_fmap in H. rewrite length_app. cbn. lia.
Qed.

Lemma toword_has d off v l : 0 <= off → has (input d) off (le_bytes 2 v ++ l) → toword d off = Some (v mod 65536).
Proof.
  intros Ho H. cbn in H. pose proof (has_get _ _ _ _ Ho H) as H0. apply has_tl in H; [|done].
  pose proof (has_get d (off + 1) _ _ ltac:(lia) H) as H1.
  rewrite (toword_le d off (v mod 256) ((v / 256) mod 256)); [|done|done|unfold is_byte; dlia]. f_equal. cbn. dlia.
Qed.

Lemma todword_has d off v l : 0 <= off → has (input d) off (le_bytes 4 v ++ l) → todword d off = Some (u32 v).
Proof.
  intros Ho H. cbn in H. pose proof (has_get _ _ _ _ Ho H) as H0. apply has_tl in H; [|done].
  pose proof (has_get d (off + 1) _ _ ltac:(lia) H) as H1. apply has_tl in H; [|lia].
  pose proof (has_get d (off + 1 + 1) _ _ ltac:(lia) H) as H2. apply has_tl in H; [|lia].
  pose proof (has_get d (off + 1 + 1 + 1) _ _ ltac:(lia) H) as H3. clear H.
  unfold todword. rewrite H0. cbn. rewrite H1. cbn. replace (off + 2) with (off + 1 + 1) by lia. rewrite H2. cbn.
  replace (off + 3) with (off + 1 + 1 + 1) by lia. rewrite H3. cbn. f_equal.
  set (a := v mod 256) in *. set (b := (v / 256) mod 256) in *. set (e := (v / 256 / 256) mod 256) in *.
  set (g := (v / 256 / 256 / 256) mod 256) in *.
  assert (0 <= a < 256 ∧ 0 <= b < 256 ∧ 0 <= e < 256 ∧ 0 <= g < 256) as (Ha & Hb & He & Hg) by (unfold a, b, e, g; dlia).
  rewrite (Z.lor_comm a), lor_shiftl_add by lia.
  rewrite (Z.lor_comm _ (Z.shiftl e 16)), lor_shiftl_add by lia.
  rewrite (Z.lor_comm _ (Z.shiftl g 24)), lor_shiftl_add by lia.
  unfold u32, a, b, e, g. dlia.
Qed.

Lemma expand_fits v : fits32 v = true → expand64 (u32 v) = u64 v.
Proof.
  intros Hv. unfold expand64. rewrite sign_word by done. unfold fits32 in Hv. bool_to_prop. unfold u32, u64.
  destruct (Z.ltb_spec v 0).
  - change (Z.shiftl (-1) 32 mod 2 ^ 64) with (Z.shiftl (2 ^ 32 - 1) 32).
    rewrite Z.lor_comm, lor_shiftl_add by dlia. dlia.
  - dlia.
Qed.

Lemma join_words v : Z.lor (u32 v) (Z.shiftl (u32 (v / 2 ^ 32)) 32) = u64 v.
Proof. rewrite Z.lor_comm, lor_shiftl_add by (try apply u32_range; lia). unfold u32, u64. dlia. Qed.

Lemma i64_u64 v : int64 v → i64 (u64 v) = v.
Proof. unfold int64, i64, u64. intros H. dlia. Qed.

(** ** The callback *)

Section DecodeProof.
Context (sp : sproto) (Hsp : wf_sproto sp) (d : list Z) (Hd : Z.of_nat (length d) <= INT_MAX).
Notation tn := (type_n sp).

Definition level (n : nat) : Z := 64 - Z.of_nat n.

(** The state inside the array [f], of which [t] is there. *)
Definition in_array (f : field) (t : table) (self : decode_ud) : decode_ud :=
  mk_dud (tset (d_result self) (KString (name_of f)) (LTable t)) (Some (f_tag f)) (Some (name_of f))
    (d_deep self) (d_mainindex_tag self) (d_key self).

Lemma assign_in_array f t self k v : array_assign (in_array f t self) k v = Ok (in_array f (tset t k v) self).
Proof. unfold array_assign, in_array. cbn. rewrite tget_tset. unfold set_result. cbn. by rewrite tset_tset. Qed.

Lemma args_name f i args : args_for f i args → a_tagname args = name_of f.
Proof. intros []. unfold name_of. by rewrite af_name. Qed.

Lemma begin_array f i args self :
  args_for f i args → i ≠ 0 → d_array_tag self ≠ Some (f_tag f) → decode_begin args self = (i <? 0, in_array f [] self).
Proof.
  intros Ha Hi Hn. pose proof (args_name _ _ _ Ha) as Hname. destruct Ha as [_ Ht _ _ Hx _ _].
  unfold decode_begin. rewrite Hx, Ht, Hname. destruct (Z.eqb_spec i 0); [done|]. by rewrite bool_decide_eq_false_2.
Qed.

Lemma begin_open f i args self t : args_for f i args → decode_begin args (in_array f t self) = (false, in_array f t self).
Proof. intros [_ Ht _ _ _ _ _]. unfold decode_begin. rewrite Ht. cbn. by rewrite bool_decide_eq_true_2, andb_false_r. Qed.

Lemma begin_single f args self : args_for f 0 args → decode_begin args self = (false, self).
Proof. intros [_ _ _ _ Hi _ _]. unfold decode_begin. by rewrite Hi. Qed.

(** The arguments of a call carry the element [m]. *)
Definition carries (m : msg) (args : sproto_arg) : Prop :=
  match m with
  | MInt v => a_word args = Some (u64 v)
  | MBool x => ∃ w, a_word args = Some w ∧ negb (i32 w =? 0) = x
  | _ => ∃ p, a_value args = Some p ∧ 0 <= p ∧ a_length args = Z.of_nat (length (wire m)) ∧
      p + Z.of_nat (length (wire m)) <= Z.of_nat (length d) ∧ has (input d) p (wire m)
  end.

Lemma push_string_ok p s : 0 <= p → p + Z.of_nat (length s) <= Z.of_nat (length d) → has (input d) p s →
  push_string d p (Z.of_nat (length s)) = Ok (LString s).
Proof.
  intros Hp Hl Hh. unfold push_string. destruct (Z.ltb_spec (Z.of_nat (length s)) 0); [lia|].
  destruct (Z.leb_spec 0 p); [|lia]. destruct (Z.leb_spec (p + Z.of_nat (length s)) (Z.of_nat (length d))); [|lia]. cbn.
  do 2 f_equal. rewrite Nat2Z.id. apply list_eq. intros i. destruct (decide (i < length s)%nat) as [Hi|Hi].
  - rewrite lookup_take_lt, lookup_drop by done. destruct (lookup_lt_is_Some_2 _ _ Hi) as [x Hx].
    specialize (Hh _ _ Hx). rewrite list_lookup_fmap in Hh. destruct (d !! _); by simplify_eq/=.
  - rewrite !lookup_ge_None_2; [done|lia|rewrite length_take; lia].
Qed.

(** Structures of [n] levels are decoded into their table; what follows them
    is not read. *)
Definition decodes (n : nat) : Prop := ∀ st ms key p size self,
  wf_type tn st → typed sp n st ms → 0 <= p → Z.of_nat (length (wire (MStruct ms))) <= size → p + size <= Z.of_nat (length d) →
  has (input d) p (wire (MStruct ms)) →
  self = mk_dud (d_result self) None None (level n) key (d_key self) →
  ∃ self', sproto_decode (decode sp d (S n)) d st self p size =
      Ok (Z.of_nat (length (wire (MStruct ms))), self') ∧
    (d_result self', d_key self') = build_fields sp st key ms (d_result self, d_key self).

(** What happens to the state with the value of an element. *)
Definition keep (f : field) (args : sproto_arg) (self : decode_ud) (vk : lua_value * lua_value) : res (Z * decode_ud) :=
  if is_map f then k ← to_key vk.2; self ← array_assign self k vk.1; Ok (0, self)
  else self ← decode_store args self vk.1; Ok (0, self).

Lemma decode_value_ok n f i m args self :
  decodes n → wf_field tn f → args_for f i args → elt_typed sp (typed sp n) f m → carries m args →
  d_deep self = level (S n) →
  decode_value sp d (decode sp d (S n)) args self = keep f args self (build sp f m).
Proof.
  intros IH Hf Ha [Hk Hty] Hc Hdeep. destruct Ha as [Hn _ Ht Hst Hi Hkey Hex].
  unfold decode_value, keep, is_map. rewrite Ht.
  destruct m as [v|x|s| |ms]; cbn [kind_ok carries] in Hk, Hc; [destruct Hk as [-> Hv]|rewrite Hk|rewrite Hk|done|rewrite Hk];
    cbn [Z.eqb SPROTO_TINTEGER SPROTO_TBOOLEAN SPROTO_TSTRING SPROTO_TSTRUCT andb].
  - rewrite Hc. cbn [defined mbind res_bind]. unfold push_integer. rewrite Hex, i64_u64 by done. done.
  - destruct Hc as (w & -> & <-). done.
  - destruct Hc as (p & -> & Hp & -> & Hl & Hh). cbn [defined mbind res_bind]. by rewrite push_string_ok.
  - destruct Hc as (p & Hp & Hp0 & Hlen & Hl & Hh). destruct (subtype_found sp f Hsp Hf Hk) as (j & Hj & Hget & Hwf).
    rewrite Hst, Hj. cbn [defined mbind res_bind]. rewrite Hget, Hp. cbn [defined mbind res_bind]. rewrite Hkey, Hlen.
    replace (if 0 <=? f_key f then f_key f else -1) with (f_key f)
      by (pose proof (wf_key _ _ Hf); destruct (Z.leb_spec 0 (f_key f)); lia).
    replace (d_deep self + 1) with (level n) by (rewrite Hdeep; unfold level; lia).
    destruct (IH (subtype sp f) ms (f_key f) p _ (mk_dud [] None None (level n) (f_key f) LNil) Hwf Hty Hp0 (Z.le_refl _) Hl Hh eq_refl)
      as (sub & -> & Hsub). cbn [mbind res_bind d_result d_key] in *.
    rewrite build_struct_eq, <- Hsub. cbn [fst snd].
    destruct (Z.ltb_spec (Z.of_nat (length (wire (MStruct ms)))) 0); [lia|]. rewrite Z.eqb_refl. cbn [negb].
    by destruct (0 <=? f_key f).
Qed.

Lemma decode_call n args self : d_deep self = level (S n) →
  decode sp d (S (S n)) args self =
    let '(stop, self) := decode_begin args self in
    if stop then Ok (0, self) else decode_value sp d (decode sp d (S n)) args self.
Proof. intros Hl. cbn [decode]. unfold ENCODE_DEEPLEVEL, level in *. destruct (Z.leb_spec 64 (d_deep self)); [lia|done]. Qed.

(** An element of an array, the first or a later one. *)
Lemma decode_elem n f i m args self t vt :
  decodes n → wf_field tn f → args_for f i args → elt_typed sp (typed sp n) f m → carries m args →
  d_deep self = level (S n) → 0 < i → (is_map f = true → ∃ k, to_key (build sp f m).2 = Ok k) →
  vt = in_array f t self ∨ (vt = self ∧ t = [] ∧ d_array_tag self ≠ Some (f_tag f)) →
  decode sp d (S (S n)) args vt = Ok (0, in_array f (build_elem sp f (t, i) m).1 self).
Proof.
  intros IH Hf Ha Hty Hc Hdeep Hi Hkey Hvt.
  assert (Hb : decode_begin args vt = (false, in_array f t self)).
  { destruct Hvt as [->|(-> & -> & Hnew)]; [by eapply begin_open|].
    rewrite (begin_array f i) by (done || lia). f_equal. by destruct (Z.ltb_spec i 0); [lia|]. }
  rewrite decode_call by (by destruct Hvt as [->|(-> & _)]). rewrite Hb. cbn match.
  rewrite (decode_value_ok n f i m) by done. unfold keep, build_elem.
  destruct (is_map f).
  - destruct (Hkey eq_refl) as [k ->]. cbn [mbind res_bind]. by rewrite assign_in_array.
  - unfold decode_store. rewrite (af_index _ _ _ Ha). destruct (Z.ltb_spec 0 i); [|lia]. by rewrite assign_in_array.
Qed.

(** A field that is no array. *)
Lemma decode_single n f m args self :
  decodes n → wf_field tn f → args_for f 0 args → elt_typed sp (typed sp n) f m → is_map f = false → carries m args →
  d_deep self = level (S n) →
  decode sp d (S (S n)) args self =
    Ok (0, mk_dud (tset (d_result self) (KString (name_of f)) (build sp f m).1) (d_array_tag self) (d_array self)
             (d_deep self) (d_mainindex_tag self) (if d_mainindex_tag self =? f_tag f then (build sp f m).1 else d_key self)).
Proof.
  intros IH Hf Ha Hty Hm Hc Hdeep. rewrite decode_call, (begin_single f) by done. cbn match.
  rewrite (decode_value_ok n f 0 m) by done. unfold keep, decode_store. rewrite Hm, (af_index _ _ _ Ha), (af_tag _ _ _ Ha), (args_name _ _ _ Ha).
  cbn. by destruct (d_mainindex_tag self =? f_tag f).
Qed.

(** ** Arrays *)

Section DecodeArray.
Context (n : nat) (IH : decodes n) (f : field) (name : list Z) (Hf : wf_field tn f) (Hname : f_name f = Some name).
Context (self : decode_ud) (Hdeep : d_deep self = level (S n)).

(** The state before the elements [vs] with the table [t] filled so far; the
    first element opens the array. *)
Definition before (t : table) (vs : list msg) (vt : decode_ud) : Prop :=
  vt = in_array f t self ∨ (vs ≠ [] ∧ vt = self ∧ t = [] ∧ d_array_tag self ≠ Some (f_tag f)).

Lemma before_call t v vs vt : before t (v :: vs) vt → vt = in_array f t self ∨ (vt = self ∧ t = [] ∧ d_array_tag self ≠ Some (f_tag f)).
Proof. intros [?|(_ & ? & ? & ?)]; auto. Qed.

Lemma number_loop_ok rd vs i t vt fuel :
  Forall (elt_typed sp (typed sp n) f) vs → is_map f = false → 0 <= i → (length vs < fuel)%nat → before t vs vt →
  (∀ j v, vs !! j = Some v → ∃ w, rd (i + Z.of_nat j) = Some w ∧ ∀ args, a_word args = Some w → carries v args) →
  array_number_loop (decode sp d (S (S n))) fuel (arg_of f name) rd vt (i + Z.of_nat (length vs)) i =
    Ok (in_array f (fold_left (build_elem sp f) vs (t, i + 1)).1 self).
Proof.
  intros Hty Hm. revert i t vt fuel. induction vs as [|v vs IHv]; intros i t vt fuel Hi Hfu Hb Hrd;
    (destruct fuel as [|fuel]; [cbn in Hfu; lia|]); cbn [array_number_loop].
  - cbn [length]. destruct (Z.ltb_spec i (i + Z.of_nat 0)); [lia|]. by destruct Hb as [->|[? _]].
  - inversion Hty as [|? ? Hv Hvs]; subst. destruct (Z.ltb_spec i (i + Z.of_nat (length (v :: vs)))); [|cbn in *; lia].
    destruct (Hrd 0%nat v eq_refl) as (w & Hw & Hc). rewrite Z.add_0_r in Hw. rewrite Hw. cbn [defined mbind res_bind].
    rewrite (decode_elem n f (i + 1) v _ self t vt IH Hf); [|by split|done|by apply Hc|done|lia|by rewrite Hm|by eapply before_call].
    cbn [mbind res_bind fold_left].
    replace (i + Z.of_nat (length (v :: vs))) with (i + 1 + Z.of_nat (length vs)) by (cbn; lia).
    rewrite (IHv Hvs (i + 1) (build_elem sp f (t, i + 1) v).1); [by destruct (build_elem sp f (t, i + 1) v) eqn:E; unfold build_elem in E; simplify_eq/=|lia|cbn in Hfu; lia|by left|].
    intros j x Hx. destruct (Hrd (S j) x Hx) as (w' & Hw' & Hc'). exists w'. split; [|done].
    by replace (i + 1 + Z.of_nat j) with (i + Z.of_nat (S j)) by lia.
Qed.

Lemma object_items_ok vs i t vt stream fuel :
  Forall (elt_typed sp (typed sp n) f) vs → elt_type f = SPROTO_TSTRING ∨ elt_type f = SPROTO_TSTRUCT →
  (is_map f = true → Forall (λ v, ∃ k, to_key (build sp f v).2 = Ok k) vs) →
  0 < i → (length vs < fuel)%nat → before t vs vt → 0 <= stream →
  stream + Z.of_nat (length (objects vs)) <= Z.of_nat (length d) → has (input d) stream (objects vs) →
  array_object_loop (decode sp d (S (S n))) d fuel (arg_of f name) vt stream (Z.of_nat (length (objects vs))) i =
    Ok (0, in_array f (fold_left (build_elem sp f) vs (t, i)).1 self).
Proof.
  intros Hty Ht Hm. revert i t vt stream fuel. induction vs as [|v vs IHv]; intros i t vt stream fuel Hi Hfu Hb Hs Hl Hh;
    (destruct fuel as [|fuel]; [cbn in Hfu; lia|]); cbn [array_object_loop].
  - cbn. by destruct Hb as [->|[? _]].
  - inversion Hty as [|? ? Hv Hvs]; subst. unfold objects in *. cbn [map concat] in *. fold (objects vs) in *.
    pose proof (length_sized (wire v)) as Hlen. rewrite length_app in *. unfold SIZEOF_LENGTH.
    destruct (Z.ltb_spec 0 (Z.of_nat (length (sized (wire v)) + length (objects vs)))); [|lia].
    destruct (Z.ltb_spec (Z.of_nat (length (sized (wire v)) + length (objects vs))) 4); [lia|].
    apply has_app in Hh as [Hhv Hh]; [|done]. unfold sized in Hhv at 1.
    rewrite (todword_has d stream (Z.of_nat (length (wire v))) (wire v)) by done. cbn [defined mbind res_bind].
    apply has_app in Hhv as [_ Hhv]; [|done]. rewrite le_bytes_length in Hhv. unfold INT_MAX in *. rewrite u32_small by lia.
    destruct (Z.ltb_spec (Z.of_nat (length (sized (wire v)) + length (objects vs)) - 4) (Z.of_nat (length (wire v)))); [lia|].
    assert (Hc : carries v (arg_at (arg_of f name) (stream + 4) (Z.of_nat (length (wire v))) i)).
    { destruct Hv as [Hk _]. destruct v; cbn [carries kind_ok] in Hk |- *; try done;
        try (by exfalso; destruct Ht as [E|E]; rewrite E in Hk; destruct Hk); try (by exfalso; destruct Ht as [E|E]; rewrite E in Hk);
        exists (stream + 4); (split_and!; [done|lia|done|lia|done]). }
    rewrite (decode_elem n f i v _ self t vt IH Hf); [|by split|done|done|done|done| |by eapply before_call].
    2: { intros Hmap. specialize (Hm Hmap). by inversion Hm. }
    cbn [mbind res_bind fold_left Z.eqb negb].
    replace (stream + 4 + Z.of_nat (length (wire v))) with (stream + Z.of_nat (length (sized (wire v)))) by lia.
    replace (Z.of_nat (length (sized (wire v)) + length (objects vs)) - 4 - Z.of_nat (length (wire v)))
      with (Z.of_nat (length (objects vs))) by lia.
    rewrite (IHv Hvs (λ H, Forall_inv_tail (Hm H)) (i + 1) (build_elem sp f (t, i) v).1);
      [by destruct (build_elem sp f (t, i) v) eqn:E; unfold build_elem in E; simplify_eq/=|lia|cbn in Hfu; lia|by left|lia|lia|done].
Qed.

Lemma ints_at b off w vs j v : 0 <= off → has b off (ints w vs) → vs !! j = Some v →
  has b (off + Z.of_nat j * Z.of_nat w) (le_bytes w v).
Proof.
  revert off j. induction vs as [|x vs IHv]; intros off j Ho Hh Hj; [done|].
  unfold ints in Hh. cbn [map concat] in Hh. apply has_app in Hh as [Hx Hh]; [|done]. rewrite le_bytes_length in Hh.
  destruct j as [|j]; cbn in Hj.
  - injection Hj as ->. by replace (off + Z.of_nat 0 * Z.of_nat w) with off by lia.
  - replace (off + Z.of_nat (S j) * Z.of_nat w) with (off + Z.of_nat w + Z.of_nat j * Z.of_nat w) by lia.
    apply IHv; [lia|done|done].
Qed.

Lemma objects_length vs : Z.of_nat (length vs) * 4 <= Z.of_nat (length (objects vs)).
Proof.
  induction vs as [|v vs IHv]; [done|]. unfold objects in *. cbn [map concat]. rewrite length_app.
  pose proof (length_sized (wire v)). cbn [length]. lia.
Qed.

Section Body.
Context (vs : list msg) (Hty : Forall (elt_typed sp (typed sp n) f) vs) (Hvs : vs ≠ []).
Context (Hnew : d_array_tag self ≠ Some (f_tag f)).
Context (stream : Z) (Hstream : 0 <= stream) (Hend : stream + Z.of_nat (length (wire (MArray vs))) <= Z.of_nat (length d)).
Context (Hhas : has (input d) stream (wire (MArray vs))).

Lemma typed_kinds : Forall (kind_ok (elt_type f)) vs.
Proof. eapply Forall_impl; [exact Hty|]. by intros v [? _]. Qed.

Lemma before_start : before [] vs self.
Proof. by right. Qed.

Lemma int_words w rd : elt_type f = SPROTO_TINTEGER → w = width (map int_of vs) →
  (∀ j v, map int_of vs !! j = Some v → int64 v → (w = 4%nat → fits32 v = true) → rd (Z.of_nat j) = Some (u64 v)) →
  array_number_loop (decode sp d (S (S n))) (S (length d)) (arg_of f name) rd self (Z.of_nat (length vs)) 0 =
    Ok (in_array f (fold_left (build_elem sp f) vs ([], 1)).1 self).
Proof.
  intros Ht -> Hrd. pose proof (number_loop_ok rd vs 0 [] self (S (length d)) Hty) as Hl. rewrite Z.add_0_l in Hl. apply Hl.
  - unfold is_map. by rewrite Ht.
  - done.
  - rewrite (wire_array _ _ typed_kinds), Ht in Hend. cbn match in Hend. change (SPROTO_TINTEGER =? SPROTO_TINTEGER) with true in Hend.
    destruct vs as [|v vs']; [done|]. unfold wire_ints in Hend. cbn [length] in Hend.
    fold (ints (width (map int_of (v :: vs'))) (map int_of (v :: vs'))) in Hend.
    rewrite ints_length, length_map in Hend. destruct (width_cases (map int_of (v :: vs'))) as [E|[E _]]; rewrite E in Hend; lia.
  - apply before_start.
  - intros j v Hj. pose proof (Forall_lookup_1 _ _ _ _ typed_kinds Hj) as Hk. rewrite Ht in Hk.
    destruct v as [x| | | |]; cbn in Hk; try done. destruct Hk as [_ Hx]. exists (u64 x). split; [|done].
    rewrite Z.add_0_l. apply Hrd; [by rewrite list_lookup_fmap, Hj|done|].
    intros E. destruct (width_cases (map int_of vs)) as [E'|[_ Hall]]; [lia|].
    apply (Forall_lookup_1 _ (map int_of vs) j x Hall). by rewrite list_lookup_fmap, Hj.
Qed.

(** The loops over the integers of either width. *)
Lemma array_ints : elt_type f = SPROTO_TINTEGER →
  arr_get d stream = Some (Z.of_nat (width (map int_of vs))) ∧
  Z.of_nat (length (wire (MArray vs))) - 1 = Z.of_nat (length vs) * Z.of_nat (width (map int_of vs)) ∧
  has (input d) (stream + 1) (ints (width (map int_of vs)) (map int_of vs)).
Proof.
  intros Ht. pose proof (wire_array _ _ typed_kinds) as Hwire. rewrite Ht in Hwire.
  change (SPROTO_TINTEGER =? SPROTO_TINTEGER) with true in Hwire. cbn match in Hwire.
  replace (match vs with [] => [] | _ => wire_ints (map int_of vs) end) with (wire_ints (map int_of vs)) in Hwire
    by (by destruct vs).
  pose proof Hhas as Hh. rewrite Hwire in Hh |- *. unfold wire_ints in *.
  fold (ints (width (map int_of vs)) (map int_of vs)) in *. cbn [length] in *.
  split_and!; [by apply (has_get _ _ _ _ Hstream Hh)| |by apply has_tl in Hh].
  rewrite ints_length, length_map. lia.
Qed.

Lemma read_wide j v : has (input d) (stream + 1) (ints 8 (map int_of vs)) → map int_of vs !! j = Some v →
  (low ← todword d (stream + 1 + Z.of_nat j * SIZEOF_INT64);
   hi ← todword d (stream + 1 + Z.of_nat j * SIZEOF_INT64 + SIZEOF_INT32);
   Some (Z.lor low (Z.shiftl hi 32))) = Some (u64 v).
Proof.
  intros Hi Hj. pose proof (ints_at (input d) (stream + 1) _ _ j v ltac:(lia) Hi Hj) as Hat. change (Z.of_nat 8) with SIZEOF_INT64 in Hat.
  rewrite (le_bytes_app 4 4) in Hat. unfold SIZEOF_INT64 in *. apply has_app in Hat as [Hlo Hhi]; [|lia]. rewrite le_bytes_length in Hhi.
  rewrite <- (app_nil_r (le_bytes 4 v)) in Hlo. rewrite <- (app_nil_r (le_bytes 4 (v / _))) in Hhi.
  rewrite (todword_has d (stream + 1 + Z.of_nat j * 8) _ _ ltac:(lia) Hlo). cbn [mbind option_bind]. unfold SIZEOF_INT32.
  rewrite (todword_has d (stream + 1 + Z.of_nat j * 8 + 4) _ _ ltac:(lia) Hhi). cbn [mbind option_bind]. f_equal. apply join_words.
Qed.

Lemma read_narrow j v : has (input d) (stream + 1) (ints 4 (map int_of vs)) → map int_of vs !! j = Some v → fits32 v = true →
  (w ← todword d (stream + 1 + Z.of_nat j * SIZEOF_INT32); Some (expand64 w)) = Some (u64 v).
Proof.
  intros Hi Hj Hfit. pose proof (ints_at (input d) (stream + 1) _ _ j v ltac:(lia) Hi Hj) as Hat. change (Z.of_nat 4) with SIZEOF_INT32 in Hat.
  unfold SIZEOF_INT32 in *. rewrite <- (app_nil_r (le_bytes 4 v)) in Hat.
  rewrite (todword_has d (stream + 1 + Z.of_nat j * 4) _ _ ltac:(lia) Hat). cbn [mbind option_bind]. f_equal. by apply expand_fits.
Qed.

Lemma array_bools : elt_type f = SPROTO_TBOOLEAN →
  array_number_loop (decode sp d (S (S n))) (S (length d)) (arg_of f name) (λ i, arr_get d (stream + i)) self
    (Z.of_nat (length (wire (MArray vs)))) 0 = Ok (in_array f (fold_left (build_elem sp f) vs ([], 1)).1 self).
Proof.
  intros Ht. pose proof (wire_array _ _ typed_kinds) as Hwire. rewrite Ht in Hwire.
  cbn [Z.eqb Pos.eqb SPROTO_TINTEGER SPROTO_TBOOLEAN] in Hwire. pose proof Hhas as Hh. pose proof Hend as He.
  rewrite Hwire in Hh, He |- *. rewrite length_map in He |- *.
  pose proof (number_loop_ok (λ i, arr_get d (stream + i)) vs 0 [] self (S (length d)) Hty) as Hl. rewrite Z.add_0_l in Hl.
  apply Hl; [unfold is_map; by rewrite Ht|done|lia|apply before_start|].
  intros j v Hj. pose proof (Forall_lookup_1 _ _ _ _ typed_kinds Hj) as Hk. rewrite Ht in Hk.
  destruct v as [|x| | |]; cbn in Hk; try done; [by destruct Hk|].
  exists (bool_of (MBool x)). split; [|intros args Ha; exists (bool_of (MBool x)); split; [done|by destruct x]].
  specialize (Hh j (bool_of (MBool x))). rewrite list_lookup_fmap in Hh. rewrite Z.add_0_l, arr_get_lookup by lia.
  rewrite list_lookup_fmap, Hj in Hh. specialize (Hh eq_refl).
  replace (Z.to_nat (stream + Z.of_nat j)) with (Z.to_nat stream + j)%nat by lia.
  destruct (d !! (Z.to_nat stream + j)%nat); by simplify_eq/=.
Qed.

Lemma decode_array_body :
  (is_map f = true → Forall (λ v, ∃ k, to_key (build sp f v).2 = Ok k) vs) → 4 <= stream →
  todword d (stream - 4) = Some (Z.of_nat (length (wire (MArray vs)))) → wire (MArray vs) ≠ [] →
  decode_array (decode sp d (S (S n))) d (arg_of f name) self (stream - 4) =
    Ok (0, in_array f (fold_left (build_elem sp f) vs ([], 1)).1 self).
Proof.
  intros Hm Hs4 Hw Hne. unfold decode_array. rewrite Hw. cbn [defined mbind res_bind].
  destruct (Z.eqb_spec (Z.of_nat (length (wire (MArray vs)))) 0) as [E|_]; [destruct (wire (MArray vs)); [done|cbn in E; lia]|].
  unfold SIZEOF_LENGTH. replace (stream - 4 + 4) with stream by lia. cbn [a_type arg_of].
  change (Z.land (f_type f) (Z.lnot SPROTO_TARRAY)) with (elt_type f).
  destruct (wf_elt _ _ Hf) as [[Ht|[Ht|Ht]] _].
  - destruct (array_ints Ht) as (Hg & Hl & Hi). rewrite Ht, Hg, Hl. cbn [defined mbind res_bind].
    change (SPROTO_TINTEGER =? SPROTO_TINTEGER) with true. cbn match.
    destruct (width_cases (map int_of vs)) as [Hwd|[Hwd Hall]]; rewrite Hwd in Hi |- *.
    + change (Z.of_nat 8 =? SIZEOF_INT32) with false. change (Z.of_nat 8) with SIZEOF_INT64. rewrite Z.eqb_refl, Z.mod_mul, Z.div_mul by done.
      cbn [Z.eqb negb]. rewrite (int_words 8); [done|done|done|]. intros j v Hj _ _. by apply read_wide.
    + change (Z.of_nat 4) with SIZEOF_INT32. rewrite Z.eqb_refl, Z.mod_mul, Z.div_mul by done.
      cbn [Z.eqb negb]. rewrite (int_words 4); [done|done|done|]. intros j v Hj _ Hfit. by apply read_narrow; auto.
  - rewrite Ht. cbn [Z.eqb Pos.eqb SPROTO_TINTEGER SPROTO_TBOOLEAN]. by rewrite array_bools.
  - pose proof (wire_array _ _ typed_kinds) as Hwire.
    replace (elt_type f =? SPROTO_TINTEGER) with false in * by (by destruct Ht as [-> | ->]).
    replace (elt_type f =? SPROTO_TBOOLEAN) with false in * by (by destruct Ht as [-> | ->]).
    replace ((elt_type f =? SPROTO_TSTRING) || (elt_type f =? SPROTO_TSTRUCT)) with true by (by destruct Ht as [-> | ->]).
    pose proof Hhas as Hh. pose proof Hend as He. rewrite Hwire in Hh, He |- *. pose proof (objects_length vs).
    unfold decode_array_object. rewrite i32_small by (unfold INT_MIN; lia).
    apply object_items_ok; try done; [lia|apply before_start].
Qed.
End Body.

Lemma wire_array_nil vs : Forall (kind_ok (elt_type f)) vs → wire (MArray vs) = [] → vs = [].
Proof.
  intros Hk. rewrite (wire_array _ _ Hk). destruct vs as [|v vs]; [done|].
  destruct (_ =? SPROTO_TINTEGER); [done|]. destruct (_ =? SPROTO_TBOOLEAN); [done|].
  unfold objects. cbn [map concat]. intros E. apply app_eq_nil in E as [E _].
  apply (f_equal length) in E. pose proof (length_sized (wire v)). cbn in E. lia.
Qed.

Lemma decode_array_ok vs current :
  Forall (elt_typed sp (typed sp n) f) vs → (is_map f = true → Forall (λ v, ∃ k, to_key (build sp f v).2 = Ok k) vs) →
  d_array_tag self ≠ Some (f_tag f) → 0 <= current →
  current + Z.of_nat (length (sized (wire (MArray vs)))) <= Z.of_nat (length d) →
  has (input d) current (sized (wire (MArray vs))) →
  decode_array (decode sp d (S (S n))) d (arg_of f name) self current =
    Ok (0, in_array f (fold_left (build_elem sp f) vs ([], 1)).1 self).
Proof.
  intros Hty Hm Hnew Hc Hl Hh. rewrite length_sized in Hl. unfold sized in Hh.
  pose proof (todword_has _ _ _ _ Hc Hh) as Hw. unfold INT_MAX in Hd. rewrite u32_small in Hw by lia.
  apply has_app in Hh as [_ Hh]; [|done]. rewrite le_bytes_length in Hh.
  destruct (decide (wire (MArray vs) = [])) as [E|E].
  - apply wire_array_nil in E as ->; [|eapply Forall_impl; [exact Hty|]; by intros v [? _]].
    unfold decode_array. rewrite Hw. cbn [defined mbind res_bind]. change (Z.of_nat (length (wire (MArray []))) =? 0) with true. cbn match.
    rewrite decode_call, (begin_array f (-1)) by (done || by split). done.
  - replace current with (current + 4 - 4) by lia. apply decode_array_body; try done; [by intros ->|lia|lia|lia|].
    by replace (current + 4 - 4) with current by lia.
Qed.
End DecodeArray.

(** ** Fields *)

(** The state after the field [f] with the content [m]. *)
Definition stored (f : field) (m : msg) (self : decode_ud) : decode_ud :=
  if is_array f then in_array f (match m with MArray vs => (fold_left (build_elem sp f) vs ([], 1)).1 | _ => [] end) self
  else mk_dud (tset (d_result self) (KString (name_of f)) (build sp f m).1) (d_array_tag self) (d_array self)
         (d_deep self) (d_mainindex_tag self) (if d_mainindex_tag self =? f_tag f then (build sp f m).1 else d_key self).

Lemma stored_build st f m self rec :
  findtag st (f_tag f) = Some f → field_typed sp rec f m →
  (d_result (stored f m self), d_key (stored f m self)) =
    build_field sp st (d_mainindex_tag self) (d_result self, d_key self) (f_tag f, m).
Proof.
  intros Hf Hty. unfold build_field, stored, field_typed in *. cbn [fst snd]. rewrite Hf.
  destruct (is_array f); cbn [negb andb d_result d_key in_array]; [|done].
  by destruct Hty as (vs & -> & _).
Qed.

Lemma inline_range m t : kind_ok t m → 0 <= inline m < 65536 ∧ Z.odd (inline m) = false.
Proof.
  destruct m as [v|[]| | |]; cbn; intros Hk; try done; try (split; [lia|done]).
  destruct ((0 <=? v) && (v <? 32767)) eqn:E; [|split; [lia|done]]. bool_to_prop. split; [lia|].
  by rewrite Z.odd_mul, andb_false_r.
Qed.

(** A number that the record holds. *)
Lemma carries_inline f m args : kind_ok (elt_type f) m → inline m ≠ 0 → a_word args = Some (inline m / 2 - 1) →
  carries m args ∧ (elt_type f = SPROTO_TINTEGER ∨ elt_type f = SPROTO_TBOOLEAN).
Proof.
  destruct m as [v|x| | |]; cbn; intros Hk Hi Hw; try done.
  - destruct Hk as [-> Hv]. split; [|by left]. rewrite Hw. destruct ((0 <=? v) && (v <? 32767)) eqn:E; [|done].
    bool_to_prop. rewrite Z.div_mul by lia. unfold u64. rewrite Z.mod_small by lia. f_equal. lia.
  - split; [|by right]. exists (if x then 1 else 0). split; [rewrite Hw; by destruct x|by destruct x].
Qed.

Lemma decode_data_ok n f name m self current :
  decodes n → wf_field tn f → f_name f = Some name → field_typed sp (typed sp n) f m → d_deep self = level (S n) →
  d_array_tag self ≠ Some (f_tag f) → inline m = 0 → 0 <= current →
  current + Z.of_nat (length (sized (wire m))) <= Z.of_nat (length d) → has (input d) current (sized (wire m)) →
  decode_data (decode sp d (S (S n))) d f (arg_of f name) self current = Ok (0, stored f m self).
Proof.
  intros IH Hf Hn Hty Hdeep Hnew Hin Hc Hl Hh. unfold decode_data, stored, field_typed in *.
  change (negb (Z.land (f_type f) SPROTO_TARRAY =? 0)) with (is_array f). destruct (wf_elt _ _ Hf) as [Ht Hft].
  destruct (is_array f) eqn:Ha.
  { destruct Hty as (vs & -> & Hvs & Hm). by apply (decode_array_ok n IH f name Hf Hn self Hdeep). }
  destruct Hty as [[Hk Hrec] Hm]. rewrite Hft by done. clear Hft.
  rewrite length_sized in Hl. pose proof Hh as Hs. unfold sized in Hs. pose proof (todword_has _ _ _ _ Hc Hs) as Hw.
  unfold INT_MAX in Hd. rewrite u32_small in Hw by lia. apply has_app in Hs as [_ Hs]; [|done]. rewrite le_bytes_length in Hs.
  change (Z.of_nat 4) with 4 in Hs. rewrite Hw. unfold SIZEOF_LENGTH, SIZEOF_INT32, SIZEOF_INT64.
  destruct m as [v|x|s| |ms]; cbn [kind_ok] in Hk; [destruct Hk as [Hk Hv]|by destruct x|..|done|]; rewrite ?Hk;
    cbn [Z.eqb Pos.eqb SPROTO_TINTEGER SPROTO_TBOOLEAN SPROTO_TSTRING SPROTO_TSTRUCT orb].
  - cbn [wire] in *. unfold width in *. cbn [forallb] in *. rewrite andb_true_r in *.
    assert (Hcall : ∀ args, args_for f 0 args → a_word args = Some (u64 v) → decode sp d (S (S n)) args self = Ok (0, stored f (MInt v) self)).
    { intros args Hargs Hword. unfold stored. rewrite Ha. by apply (decode_single n f (MInt v)). }
    unfold stored in Hcall. rewrite Ha in Hcall.
    destruct (fits32 v) eqn:E; rewrite le_bytes_length in *; cbn [defined mbind res_bind Z.of_nat Z.eqb Pos.eqb Pos.of_succ_nat Pos.succ negb].
    + rewrite <- (app_nil_r (le_bytes 4 v)) in Hs. rewrite (todword_has d (current + 4) _ _ ltac:(lia) Hs). cbn [defined mbind res_bind].
      change (Z.of_nat 4 =? 4) with true. cbn match. rewrite Hcall; [done|by split|]. cbn. by rewrite expand_fits.
    + rewrite (le_bytes_app 4 4) in Hs. pose proof Hs as Hlo. apply has_app in Hs as [_ Hhi]; [|lia]. rewrite le_bytes_length in Hhi.
      rewrite <- (app_nil_r (le_bytes 4 (v / _))) in Hhi.
      rewrite (todword_has d (current + 4) _ _ ltac:(lia) Hlo). cbn [defined mbind res_bind].
      rewrite (todword_has d (current + 4 + 4) _ _ ltac:(lia) Hhi). cbn [defined mbind res_bind].
      change (Z.of_nat 8 =? 4) with false. change (negb (Z.of_nat 8 =? 8)) with false. cbn match.
      rewrite Hcall; [done|by split|]. cbn. do 2 f_equal. apply join_words.
  - cbn [defined mbind res_bind]. rewrite i32_small by (unfold INT_MIN, INT_MAX; lia).
    rewrite (decode_single n f (MStr s)); try done. exists (current + 4). split_and!; done || lia.
  - cbn [defined mbind res_bind]. rewrite i32_small by (unfold INT_MIN, INT_MAX; lia).
    rewrite (decode_single n f (MStruct ms)); try done. exists (current + 4). split_and!; done || lia.
Qed.

(** ** The records *)

Section Records.
Context (n : nat) (IH : decodes n) (st : sproto_type) (Hst : wf_type tn st) (stream : Z) (Hstream : 0 <= stream).

Definition fields_typed (ms : list (Z * msg)) : Prop :=
  Forall (λ p, ∃ f, findtag st p.1 = Some f ∧ field_typed sp (typed sp n) f p.2) ms.

Lemma field_kind f m : field_typed sp (typed sp n) f m → ∃ t, kind_ok t m ∨ ∃ vs, m = MArray vs.
Proof. unfold field_typed. destruct (is_array f); [intros (vs & -> & _); exists 0; eauto|intros [[Hk _] _]; eauto]. Qed.

Lemma inline_even f m : field_typed sp (typed sp n) f m → 0 <= inline m < 65536 ∧ Z.odd (inline m) = false.
Proof. intros (t & [Hk|[vs ->]])%field_kind; [by eapply inline_range|]. split; [done|done]. Qed.

(** The record of one field, the gap before it done. *)
Lemma decode_record k self i datastream size last t m :
  fields_typed [(t, m)] → d_deep self = level (S n) → d_array_tag self ≠ Some t → t = last + 1 → 0 <= i → 0 <= datastream →
  let w := if inline m =? 0 then sized (wire m) else [] in
  toword d (stream + i * SIZEOF_FIELD) = Some (inline m) →
  datastream + size <= Z.of_nat (length d) → Z.of_nat (length w) <= size → has (input d) datastream w →
  ∃ f, findtag st t = Some f ∧ f_tag f = t ∧ field_typed sp (typed sp n) f m ∧
  decode_fields (decode sp d (S (S n))) d (S k) st self stream i datastream size last =
    decode_fields (decode sp d (S (S n))) d k st (stored f m self) stream (i + 1)
      (datastream + Z.of_nat (length w)) (size - Z.of_nat (length w)) t.
Proof.
  intros Hty Hdeep Hnew -> Hi Hds w Hword Hsz Hw Hh. inversion Hty as [|? ? (f & Hf & Hft) _]; subst. cbn [fst snd] in *.
  pose proof (proj1 (findtag_spec tn st _ f Hst) Hf) as [Hin Htag]. exists f. split; [done|]. split; [done|]. split; [done|].
  pose proof (wf_fields _ _ Hst) as Hwf. rewrite Forall_forall in Hwf. specialize (Hwf f Hin).
  destruct (inline_even f m Hft) as [Hr Ho]. destruct (wf_name _ _ Hwf) as [name Hn].
  cbn [decode_fields]. rewrite Hword. cbn [defined mbind res_bind]. rewrite Ho. subst w. unfold INT_MAX in Hd.
  destruct (Z.eqb_spec (inline m) 0) as [E|E].
  - rewrite E. change (0 / 2 - 1 <? 0) with true. cbn match. rewrite length_sized in *. unfold SIZEOF_LENGTH.
    destruct (Z.ltb_spec size 4); [lia|]. pose proof Hh as Hl. unfold sized in Hl.
    rewrite (todword_has _ _ _ _ Hds Hl). cbn [defined mbind res_bind]. rewrite !u32_small by (rewrite ?u32_small by lia; lia).
    destruct (Z.ltb_spec size (Z.of_nat (length (wire m)) + 4)); [lia|]. cbn [negb]. rewrite Hf, Hn. cbn [defined mbind res_bind].
    rewrite (decode_data_ok n f name m) by (done || lia || (by rewrite Htag) || (rewrite length_sized; lia)).
    cbn [mbind res_bind Z.eqb negb]. f_equal; lia.
  - destruct (Z.ltb_spec (inline m / 2 - 1) 0) as [Hneg|Hpos].
    { exfalso. pose proof (Zmod_odd (inline m)) as Hm. rewrite Ho in Hm. dlia. }
    cbn [mbind res_bind negb]. rewrite Hf, Hn. cbn [defined mbind res_bind length Z.of_nat]. rewrite Z.add_0_r, Z.sub_0_r.
    unfold field_typed in Hft. unfold stored. destruct (is_array f) eqn:Ha; [destruct Hft as (vs & -> & _); done|].
    destruct Hft as [Hel Hm]. pose proof Hel as [Hk _].
    destruct (carries_inline f m (arg_word (arg_of f name) (inline m / 2 - 1) 0) Hk E eq_refl) as [Hc Ht].
    rewrite (proj2 (wf_elt _ _ Hwf)) by done.
    replace (negb (elt_type f =? SPROTO_TINTEGER) && negb (elt_type f =? SPROTO_TBOOLEAN)) with false by (by destruct Ht as [-> | ->]).
    by rewrite (decode_single n f m) by (done || by split).
Qed.

(** The gap record: the tag moves on. *)
Lemma decode_gap k self i datastream size last t :
  last + 1 < t → t <= 32766 → -1 <= last → 0 <= i →
  has (input d) (stream + i * 2) (le_bytes 2 ((t - last - 2) * 2 + 1)) →
  decode_fields (decode sp d (S (S n))) d (S k) st self stream i datastream size last =
    decode_fields (decode sp d (S (S n))) d k st self stream (i + 1) datastream size (t - 1).
Proof.
  intros H1 H2 H3 Hi Hh. cbn [decode_fields]. unfold SIZEOF_FIELD. rewrite <- (app_nil_r (le_bytes 2 _)) in Hh.
  rewrite (toword_has d (stream + i * 2) _ _ ltac:(lia) Hh). cbn [defined mbind res_bind]. rewrite Z.mod_small by lia.
  rewrite Z.odd_add, Z.odd_mul, andb_false_r. cbn. f_equal.
  replace (((t - last - 2) * 2 + 1) / 2) with (t - last - 2) by dlia. lia.
Qed.

Lemma tag_bound t m : fields_typed [(t, m)] → 0 <= t <= 32766.
Proof.
  intros H. inversion H as [|? ? (f & Hf & _) _]; subst. cbn in Hf.
  pose proof (proj1 (findtag_spec tn st _ f Hst) Hf) as [Hin Htag]. pose proof (wf_fields _ _ Hst) as Hwf.
  rewrite Forall_forall in Hwf. pose proof (wf_tag _ _ (Hwf f Hin)). lia.
Qed.

(** The loop over the records of the fields [ms]. *)
Lemma decode_fields_ok ms self i datastream size last :
  fields_typed ms → tags_ascending last ms → -1 <= last → d_deep self = level (S n) →
  (∀ t, d_array_tag self = Some t → t <= last) → 0 <= i → 0 <= datastream →
  has (input d) (stream + i * 2) (rec_bytes (words last ms)) → has (input d) datastream (data_of ms) →
  Z.of_nat (length (data_of ms)) <= size → datastream + size <= Z.of_nat (length d) →
  ∃ self', decode_fields (decode sp d (S (S n))) d (length (words last ms)) st self stream i datastream size last =
      Ok (inl (size - Z.of_nat (length (data_of ms))), self') ∧
    (d_result self', d_key self') = build_fields sp st (d_mainindex_tag self) ms (d_result self, d_key self).
Proof.
  revert self i datastream size last. induction ms as [|[t m] ms IHm]; intros self i datastream size last Hty Hasc Hlast Hdeep Hnew Hi Hds Hw Hdt Hsz Hend.
  { exists self. cbn. by rewrite Z.sub_0_r. }
  destruct Hasc as [Hlt Hasc]. apply Forall_cons in Hty as Htm. destruct Htm as [Hone Hms].
  assert (Hone' : fields_typed [(t, m)]) by (by constructor). pose proof (tag_bound t m Hone') as Htb.
  rewrite words_cons in Hw |- *. rewrite data_of_cons in Hdt, Hsz |- *.
  set (w := if inline m =? 0 then sized (wire m) else []) in *. rewrite length_app in Hsz.
  apply has_app in Hdt as [Hwd Hdt]; [|done].
  assert (Hgap : ∃ j, 0 <= j ∧ has (input d) (stream + j * 2) (rec_bytes (inline m :: words t ms)) ∧
    decode_fields (decode sp d (S (S n))) d (length (gap_words last t ++ inline m :: words t ms)) st self stream i datastream size last =
    decode_fields (decode sp d (S (S n))) d (length (inline m :: words t ms)) st self stream j datastream size (t - 1)).
  { unfold gap_words in *. destruct (Z.ltb_spec (last + 1) t) as [Hg|Hg]; cbn [app] in Hw |- *.
    - exists (i + 1). unfold rec_bytes in Hw |- *. cbn [map concat] in Hw. apply has_app in Hw as [Hw1 Hw]; [|lia].
      rewrite le_bytes_length in Hw. split_and!; [lia| |by apply decode_gap; try lia].
      by replace (stream + (i + 1) * 2) with (stream + i * 2 + Z.of_nat 2) by lia.
    - exists i. split_and!; [lia|done|]. by replace last with (t - 1) by lia. }
  destruct Hgap as (j & Hj & Hwj & ->). cbn [length].
  unfold rec_bytes in Hwj. cbn [map concat] in Hwj. pose proof Hwj as Hwj'. apply has_app in Hwj' as [_ Hrest]; [|lia]. rewrite le_bytes_length in Hrest.
  destruct Hone as (f0 & Hf0 & Hft0). cbn [fst snd] in *. destruct (inline_even f0 m Hft0) as [Hr _].
  pose proof (toword_has d (stream + j * 2) _ _ ltac:(lia) Hwj) as Hword. rewrite Z.mod_small in Hword by lia.
  destruct (decode_record (length (words t ms)) self j datastream size (t - 1) t m Hone' Hdeep
    ltac:(intros E; specialize (Hnew t E); lia) ltac:(lia) Hj Hds Hword Hend ltac:(fold w; lia) Hwd) as (f & Hf & Htag & Hft & ->). fold w.
  destruct (IHm (stored f m self) (j + 1) (datastream + Z.of_nat (length w)) (size - Z.of_nat (length w)) t) as (self' & -> & Hb); try done; try lia.
  - unfold stored. by destruct (is_array f).
  - unfold stored. destruct (is_array f); cbn; [intros u [= <-]; lia|]. intros u Hu. specialize (Hnew u Hu). lia.
  - by replace (stream + (j + 1) * 2) with (stream + j * 2 + Z.of_nat 2) by lia.
  - exists self'. split; [do 3 f_equal; rewrite length_app; lia|]. unfold build_fields in *. cbn [fold_left].
    pose proof (stored_build st f m self (typed sp n) ltac:(by rewrite Htag) Hft) as Hs. rewrite Htag in Hs. rewrite <- Hs, Hb.
    f_equal. f_equal. unfold stored. by destruct (is_array f).
Qed.
End Records.

Lemma words_length last ms : tags_ascending last ms → (∀ t m, (t, m) ∈ ms → t <= 32766) → -1 <= last <= 32766 →
  Z.of_nat (length (words last ms)) <= 32766 - last.
Proof.
  revert last. induction ms as [|[t m] ms IHm]; intros last Ha Hb Hl; [cbn; lia|]. destruct Ha as [Hlt Ha].
  pose proof (Hb t m ltac:(by left)). specialize (IHm t Ha ltac:(intros; eapply Hb; by right) ltac:(lia)).
  cbn [words]. rewrite length_app. cbn [length]. destruct (Z.ltb_spec (last + 1) t); cbn; lia.
Qed.

(** ** Structures of any depth *)

Lemma decodes_all n : decodes n.
Proof.
  induction n as [|n IHn]; intros st ms key p size self Hst Hty Hp Hsz Hl Hh Hself.
  - cbn in Hty. destruct Hty as [_ [-> _]]. cbn in Hsz, Hh |- *. exists self. split; [|done]. unfold sproto_decode, SIZEOF_HEADER.
    destruct (Z.ltb_spec size 2); [lia|]. pose proof (toword_has d p 0 [] Hp Hh) as Hw. rewrite Hw. cbn [defined mbind res_bind].
    unfold SIZEOF_FIELD. change (0 mod 65536) with 0. change (0 * 2) with 0. destruct (Z.ltb_spec (size - 2) 0); [lia|].
    change (Ok (size - (size - 2 - 0), self) = Ok (2, self)). by replace (size - (size - 2 - 0)) with 2 by lia.
  - destruct Hty as [Hasc Hty]. rewrite wire_struct in Hsz, Hh |- *. unfold sproto_decode.
    set (ws := words (-1) ms) in *.
    assert (Hlen : Z.of_nat (length (le_bytes 2 (Z.of_nat (length ws)) ++ rec_bytes ws ++ data_of ms)) =
      2 + 2 * Z.of_nat (length ws) + Z.of_nat (length (data_of ms))).
    { rewrite !length_app, le_bytes_length, !Nat2Z.inj_add, rec_bytes_length. lia. }
    rewrite Hlen in Hsz |- *. unfold SIZEOF_HEADER, SIZEOF_FIELD.
    destruct (Z.ltb_spec size 2); [lia|].
    rewrite (toword_has _ _ _ _ Hp Hh). cbn [defined mbind res_bind].
    assert (Hwl : Z.of_nat (length ws) <= 32767).
    { unfold ws. pose proof (words_length (-1) ms Hasc) as Hwl. apply Hwl; [|lia]. intros t m Hin.
      rewrite Forall_forall in Hty. apply (tag_bound n st Hst t m). constructor; [by apply Hty|constructor]. }
    rewrite Z.mod_small by lia.
    destruct (Z.ltb_spec (size - 2) (Z.of_nat (length ws) * 2)); [lia|].
    rewrite Nat2Z.id. apply has_app in Hh as [_ Hh]; [|done]. rewrite le_bytes_length in Hh.
    apply has_app in Hh as [Hr Hdt]; [|lia]. rewrite rec_bytes_length in Hdt. change (Z.of_nat 2) with 2 in Hr, Hdt.
    destruct (decode_fields_ok n IHn st Hst (p + 2) ltac:(lia) ms self 0 (p + 2 + Z.of_nat (length ws) * 2)
      (size - 2 - Z.of_nat (length ws) * 2) (-1)) as (self' & He & Hb); try done; try lia.
    + by rewrite Hself.
    + rewrite Hself. done.
    + by rewrite Z.add_0_r.
    + by replace (p + 2 + Z.of_nat (length ws) * 2) with (p + 2 + 2 * Z.of_nat (length ws)) by lia.
    + fold ws in He. rewrite He. cbn [mbind res_bind]. exists self'. split; [do 2 f_equal; lia|]. rewrite Hb. rewrite Hself at 1. done.
Qed.

(** [ldecode] of the bytes of a message, padded or not. *)
Lemma ldecode_wire i st ms rest :
  arr_get (s_type sp) i = Some st → wf_type tn st → typed sp 64 st ms → d = wire (MStruct ms) ++ rest →
  ldecode sp d (Some i) None = Ok (Some ((build_fields sp st (-1) ms ([], LNil)).1, Z.of_nat (length (wire (MStruct ms))))).
Proof.
  intros Hget Hst Hty Hdw. unfold ldecode. rewrite (i32_small (Z.of_nat (length d))) by (unfold INT_MIN in *; lia). rewrite Hget. cbn [defined mbind res_bind from_option].
  destruct (decodes_all 64 st ms (-1) 0 (Z.of_nat (length d)) (mk_dud [] None None 0 (-1) LNil)) as (self' & He & Hb); try done; try lia.
  - rewrite Hdw, length_app. lia.
  - intros j x Hj. rewrite Nat.add_0_l, list_lookup_fmap, Hdw. by rewrite (lookup_app_l_Some _ _ _ _ Hj).
  - unfold DECODE_FUEL. rewrite He. cbn [mbind res_bind]. destruct (Z.ltb_spec (Z.of_nat (length (wire (MStruct ms)))) 0); [lia|].
    cbn [d_result d_key] in Hb. by rewrite <- Hb.
Qed.
End DecodeProof.
