(* ===== verification/SprotoRound.v ===== *)
(** * Round trip of sproto messages

    A table that [lencode] encodes is decoded by [ldecode] into a table of the
    same message.  Then the behaviours that the theorems leave out, as concrete
    runs. *)

From Stdlib Require Import ZArith Lia SpecFloat.
From stdpp Require Import base tactics option numbers list strings.
From S2P Require Import Prelude Libc SprotoPack SprotoTypes SprotoCodec SprotoWire SprotoEncode SprotoLua SprotoDecode.

Section Round.
Context `{LuaConv}.
Context (sp : sproto) (Hsp : wf_sproto sp).
Notation tn := (type_n sp).

(** ** Main keys

    The elements of a map have main keys, all different; a structure that is
    not in an array has no main index. *)

Definition main_key (f : field) (v : msg) : option lua_key :=
  match to_key (build sp f v).2 with Ok k => Some k | _ => None end.

Fixpoint keyed (f : field) (m : msg) : bool :=
  match m with
  | MArray vs =>
      forallb (keyed f) vs &&
      (negb (is_map f) || (forallb (λ v, bool_decide (is_Some (main_key f v))) vs && bool_decide (NoDup (omap (main_key f) vs))))
  | MStruct ms =>
      forallb (λ p, match findtag (subtype sp f) p.1 with
                    | Some g => (is_array g || negb (is_map g)) && keyed g p.2
                    | None => false
                    end) ms
  | _ => true
  end.

Definition keyed_fields (st : sproto_type) (ms : list (Z * msg)) : bool :=
  forallb (λ p, match findtag st p.1 with
                | Some g => (is_array g || negb (is_map g)) && keyed g p.2
                | None => false
                end) ms.

(** ** The message of a table has its type *)

Lemma fields_view_tags c fs last ms : ascending last fs → fields_view c fs = Ok ms →
  tags_ascending last ms ∧ Forall (λ p, ∃ f, f ∈ fs ∧ f_tag f = p.1 ∧ content_view (c f) = Ok (Some p.2)) ms.
Proof.
  revert last ms. induction fs as [|f fs IH]; intros last ms Ha Hv; cbn [fields_view] in Hv; [by res_inv|].
  destruct Ha as [Hl Ha]. apply res_bind_ok in Hv as (o & Ho & Hv). apply res_bind_ok in Hv as (ms' & Hms & Hv).
  destruct (IH _ _ Ha Hms) as [Htag Hall].
  assert (Hall' : Forall (λ p, ∃ g, g ∈ f :: fs ∧ f_tag g = p.1 ∧ content_view (c g) = Ok (Some p.2)) ms').
  { eapply Forall_impl; [exact Hall|]. intros p (g & Hg & ?). exists g. split; [by right|done]. }
  destruct o as [m|]; res_inv.
  - split; [done|]. constructor; [|done]. exists f. split; [by left|done].
  - split; [|done]. destruct ms as [|[t m] ms]; [done|]. destruct Htag. split; [lia|done].
Qed.

Lemma elts_view_forall es ms : elts_view es = Ok ms → Forall2 (λ e m, e.1 = Ok m) es ms.
Proof. revert ms. induction es as [|e es IH]; intros ms Hv; cbn in Hv; res_inv; constructor; auto. Qed.

Lemma lua_elt_typed n f x m :
  (∀ st tbl ms, wf_type tn st → fields_view (lua_content sp n tbl) (t_f st) = Ok ms → keyed_fields st ms = true → typed sp n st ms) →
  wf_field tn f → (lua_elt sp n f x).1 = Ok m → keyed f m = true → elt_typed sp (typed sp n) f m.
Proof.
  intros IH Hf Hx Hk. pose proof (lua_elt_kind sp n f x Hf) as Hkind. unfold elt_kind in Hkind. rewrite Hx in Hkind.
  split; [done|]. destruct m as [| | | |ms]; try done. cbn in Hkind. unfold lua_elt in Hx. rewrite Hkind in Hx.
  cbn [Z.eqb SPROTO_TSTRUCT SPROTO_TINTEGER SPROTO_TBOOLEAN SPROTO_TSTRING Pos.eqb] in Hx.
  destruct x as [| | | | |t|]; try done. destruct (subtype_found sp f Hsp Hf Hkind) as (i & Hi & Hget & Hwf).
  rewrite Hi in Hx. cbn [mbind option_bind] in Hx. rewrite Hget in Hx. cbn [fst] in Hx. res_inv. by eapply IH.
Qed.

(** What a table holds for a field, by case. *)
Lemma lua_content_view n tbl f m :
  wf_field tn f → content_view (lua_content sp (S n) tbl f) = Ok (Some m) →
  if is_array f then ∃ a vs, tget tbl (KString (name_of f)) = LTable a ∧ m = MArray vs ∧
    Forall2 (λ x v, (lua_elt sp n f x).1 = Ok v) (items f a) vs
  else ∃ x, (lua_elt sp n f x).1 = Ok m.
Proof.
  intros Hf. rewrite lua_content_S. fold (name_of f). intros Hc.
  destruct (is_array f); destruct (tget tbl (KString (name_of f))) as [| | | | |a|]; cbn [content_view] in Hc; try done;
    try (by apply res_bind_ok in Hc as (v & Hv & Hc); res_inv; eauto).
  apply res_bind_ok in Hc as (vs & Hv & Hc). res_inv. exists a, vs. split_and!; [done|done|].
  apply elts_view_forall in Hv. by rewrite Forall2_fmap_l in Hv.
Qed.

Lemma view_typed n st tbl ms :
  wf_type tn st → fields_view (lua_content sp n tbl) (t_f st) = Ok ms → keyed_fields st ms = true → typed sp n st ms.
Proof.
  revert st tbl ms. induction n as [|n IH]; intros st tbl ms Hst Hv Hk; destruct (fields_view_tags _ _ _ _ (wf_ascending _ _ Hst) Hv) as [Ht Hall].
  - split; [done|]. destruct (t_f st); [|done]. cbn in Hv. by res_inv.
  - split; [done|]. unfold keyed_fields in Hk. rewrite forallb_forall in Hk. rewrite Forall_forall in Hall |- *. intros [t m] Hin.
    destruct (Hall _ Hin) as (f & Hf & Htag & Hc). cbn [fst snd] in *. exists f.
    assert (Hfind : findtag st t = Some f) by (by apply (findtag_spec tn st t f Hst)). split; [done|].
    specialize (Hk (t, m) ltac:(by apply list_elem_of_In)). cbn [fst snd] in Hk. rewrite Hfind in Hk.
    apply andb_true_iff in Hk as [Hmap Hk].
    pose proof (wf_fields _ _ Hst) as Hwf. rewrite Forall_forall in Hwf. specialize (Hwf f Hf).
    apply lua_content_view in Hc; [|done]. unfold field_typed. destruct (is_array f).
    + destruct Hc as (a & vs & _ & -> & Hvs). exists vs. split; [done|]. cbn [keyed] in Hk.
      apply andb_true_iff in Hk as [Hk Hkeys]. rewrite forallb_forall in Hk. split.
      * apply Forall_forall. intros v Hv'. apply list_elem_of_lookup in Hv' as [j Hj].
        destruct (Forall2_lookup_r _ _ _ _ _ Hvs Hj) as (x & _ & Hx). eapply lua_elt_typed; eauto.
        apply Hk, list_elem_of_In. by eapply list_elem_of_lookup_2.
      * intros E. rewrite E in Hkeys. cbn in Hkeys. apply andb_true_iff in Hkeys as [Hkeys _]. rewrite forallb_forall in Hkeys.
        apply Forall_forall. intros v Hv'. specialize (Hkeys v ltac:(by apply list_elem_of_In)). apply bool_decide_eq_true in Hkeys as [k Hmk].
        unfold main_key in Hmk. destruct (to_key _) as [k'| |]; try done. by exists k'.
    + destruct Hc as (x & Hx). cbn in Hmap. split; [by eapply lua_elt_typed|by destruct (is_map f)].
Qed.

(** ** The table of a message has that message

    For schemas whose types name their fields differently and have no
    decimals, which floats represent only nearly. *)

Definition plain_type (st : sproto_type) : Prop :=
  NoDup (map f_name (t_f st)) ∧ Forall (λ f, elt_type f = SPROTO_TINTEGER → f_extra f = 0) (t_f st).

Definition plain : Prop := Forall plain_type (s_type sp).

Lemma tset_new t k v : k ∉ map fst t → tset t k v = t ++ [(k, v)].
Proof.
  induction t as [|[k' x] t IH]; intros Hk; [done|]. cbn in Hk |- *. apply not_elem_of_cons in Hk as [Hne Hk].
  rewrite decide_False by done. by rewrite IH.
Qed.

Lemma tget_app_new t u k : k ∉ map fst t → tget (t ++ u) k = tget u k.
Proof.
  induction t as [|[k' x] t IH]; intros Hk; [done|]. cbn in Hk |- *. apply not_elem_of_cons in Hk as [Hne Hk].
  rewrite decide_False by done. by apply IH.
Qed.

(** A list as a table. *)
Fixpoint ilist (i : Z) (xs : list lua_value) : table :=
  match xs with [] => [] | x :: xs => (KInteger i, x) :: ilist (i + 1) xs end.

Definition ints_below (t : table) (i : Z) : Prop := ∀ j, KInteger j ∈ map fst t → j < i.

Lemma ints_below_snoc t i x : ints_below t i → ints_below (t ++ [(KInteger i, x)]) (i + 1).
Proof.
  intros Ht j Hj. rewrite map_app, elem_of_app in Hj. destruct Hj as [Hj|Hj]; [specialize (Ht j Hj); lia|].
  cbn in Hj. apply list_elem_of_singleton in Hj. injection Hj as ->. lia.
Qed.

Lemma build_list f vs t i : is_map f = false → ints_below t i →
  (fold_left (build_elem sp f) vs (t, i)).1 = t ++ ilist i (map (λ v, (build sp f v).1) vs).
Proof.
  intros Hm. revert t i. induction vs as [|v vs IH]; intros t i Ht; [by rewrite app_nil_r|].
  cbn [fold_left map ilist]. unfold build_elem at 2. rewrite Hm.
  rewrite tset_new by (intros Hin; specialize (Ht i Hin); lia).
  rewrite IH by (by apply ints_below_snoc). by rewrite <- app_assoc.
Qed.

Lemma seq_ilist t i xs : ints_below t i → Forall (λ x, x ≠ LNil) xs → seq_of (t ++ ilist i xs) i xs.
Proof.
  intros Ht Hx. revert t i Ht. induction Hx as [|x xs Hx Hxs IH]; intros t i Ht.
  - cbn. rewrite tget_app_new; [done|]. intros Hin. specialize (Ht i Hin). lia.
  - cbn [ilist seq_of]. rewrite tget_app_new by (intros Hin; specialize (Ht i Hin); lia). cbn. rewrite decide_True by done.
    split_and!; [done|done|]. change ((KInteger i, x) :: ilist (i + 1) xs) with ([(KInteger i, x)] ++ ilist (i + 1) xs).
    rewrite app_assoc. apply IH. by apply ints_below_snoc.
Qed.

Lemma seq_of_unique a i xs ys : seq_of a i xs → seq_of a i ys → xs = ys.
Proof.
  revert i ys. induction xs as [|x xs IH]; intros i [|y ys]; cbn; [done|intros E (E' & Hn & _); congruence|intros (E' & Hn & _) E; congruence|].
  intros (<- & _ & Hx) (<- & _ & Hy). f_equal. by eapply IH.
Qed.

Lemma build_map f vs t i : is_map f = true → Forall (λ v, is_Some (main_key f v)) vs →
  NoDup (map fst t ++ omap (main_key f) vs) →
  map snd (fold_left (build_elem sp f) vs (t, i)).1 = map snd t ++ map (λ v, (build sp f v).1) vs.
Proof.
  intros Hm Hk. revert t i. induction Hk as [|v vs [k Hv] Hvs IH]; intros t i Hnd; [by rewrite app_nil_r|].
  cbn [fold_left map omap list_omap]. unfold build_elem at 2. rewrite Hm. cbn [omap list_omap] in Hnd. rewrite Hv in Hnd.
  unfold main_key in Hv. destruct (to_key (build sp f v).2) as [k'| |]; try done. injection Hv as ->.
  assert (Hnew : k ∉ map fst t).
  { apply NoDup_app in Hnd as (_ & Hd & _). intros Hin. apply (Hd k Hin). by left. }
  rewrite (tset_new t k _ Hnew). rewrite IH.
  - rewrite map_app, <- app_assoc. done.
  - rewrite map_app, <- app_assoc. done.
Qed.

(** The elements found in the table of an array are those it was built of. *)
Lemma build_items f vs :
  Forall (λ v, (build sp f v).1 ≠ LNil) vs → keyed f (MArray vs) = true →
  items f (fold_left (build_elem sp f) vs ([], 1)).1 = map (λ v, (build sp f v).1) vs.
Proof.
  intros Hn Hk. cbn [keyed] in Hk. apply andb_true_iff in Hk as [_ Hk].
  assert (Hb : ints_below [] 1) by (intros j Hj; by apply not_elem_of_nil in Hj).
  destruct (is_map f) eqn:Hm.
  - cbn in Hk. apply andb_true_iff in Hk as [Hk Hnd]. apply bool_decide_eq_true in Hnd.
    assert (Hmk : Forall (λ v, is_Some (main_key f v)) vs).
    { apply Forall_forall. intros v Hv. rewrite forallb_forall in Hk. specialize (Hk v ltac:(by apply list_elem_of_In)).
      by apply bool_decide_eq_true in Hk. }
    pose proof (build_map f vs [] 1 Hm Hmk Hnd) as E. unfold items. unfold is_map in Hm. apply andb_true_iff in Hm as [_ ->]. exact E.
  - rewrite (build_list f vs [] 1 Hm Hb). cbn [app].
    set (xs := map (λ v, (build sp f v).1) vs). assert (Hxs : Forall (λ x, x ≠ LNil) xs) by (by apply Forall_map).
    pose proof (seq_ilist [] 1 xs Hb Hxs) as Hseq. cbn [app] in Hseq.
    unfold items. destruct (Z.leb_spec 0 (f_key f)) as [Hkey|Hkey].
    + clear. generalize 1. induction xs as [|x xs IH]; intros i; [done|]. cbn. by rewrite IH.
    + eapply seq_of_unique; [|done]. destruct (seq_end (ilist 1 xs)) as (j & Hj & Hr). by eapply seq_items_of.
Qed.

Fixpoint lookup_tag (t : Z) (ms : list (Z * msg)) : option msg :=
  match ms with [] => None | (t', m) :: ms => if t' =? t then Some m else lookup_tag t ms end.

Lemma lookup_tag_above t last ms : tags_ascending last ms → t <= last → lookup_tag t ms = None.
Proof.
  revert last. induction ms as [|[t' m] ms IH]; intros last Ha Ht; [done|]. destruct Ha as [Hlt Ha]. cbn.
  destruct (Z.eqb_spec t' t); [lia|]. apply (IH t'); [done|lia].
Qed.

Lemma lookup_tag_in t ms m : lookup_tag t ms = Some m → (t, m) ∈ ms.
Proof.
  induction ms as [|[u x] ms IH]; cbn; [done|]. destruct (Z.eqb_spec u t) as [->|]; [intros [= ->]; by left|]. right. by apply IH.
Qed.

Lemma name_inj st f g : wf_type tn st → plain_type st → f ∈ t_f st → g ∈ t_f st → name_of f = name_of g → f = g.
Proof.
  intros Hst [Hnd _] Hf Hg E. pose proof (wf_fields _ _ Hst) as Hwf. rewrite Forall_forall in Hwf.
  destruct (wf_name _ _ (Hwf f Hf)) as [nf Hnf], (wf_name _ _ (Hwf g Hg)) as [ng Hng].
  unfold name_of in E. rewrite Hnf, Hng in E. cbn in E. subst ng.
  apply list_elem_of_lookup in Hf as [i Hi], Hg as [j Hj].
  assert (i = j) as ->; [|congruence]. eapply (NoDup_lookup _ _ _ (Some nf) Hnd); by rewrite list_lookup_fmap, ?Hi, ?Hj; cbn; f_equal.
Qed.

Lemma build_lookup st key ms last t k f :
  wf_type tn st → plain_type st → f ∈ t_f st → tags_ascending last ms →
  Forall (λ p, ∃ g, findtag st p.1 = Some g) ms →
  tget (build_fields sp st key ms (t, k)).1 (KString (name_of f)) =
    match lookup_tag (f_tag f) ms with Some m => (build sp f m).1 | None => tget t (KString (name_of f)) end.
Proof.
  intros Hst Hpl Hf. revert last t k. induction ms as [|[u m] ms IH]; intros last t k Ha Hall; [done|].
  destruct Ha as [Hlt Ha]. inversion Hall as [|? ? [g Hg] Hms]; subst. cbn [fst] in Hg.
  change (build_fields sp st key ((u, m) :: ms) (t, k)) with (build_fields sp st key ms (build_field sp st key (t, k) (u, m))).
  unfold build_field. cbn [fst snd]. rewrite Hg. rewrite (IH u) by done. cbn [lookup_tag].
  pose proof (proj1 (findtag_spec tn st u g Hst) Hg) as [Hgin Hgt].
  destruct (Z.eqb_spec u (f_tag f)) as [E|E].
  - assert (g = f) as ->. { assert (Hff : findtag st u = Some f) by (by apply (findtag_spec tn st u f Hst)). congruence. }
    rewrite (lookup_tag_above _ u) by (done || lia). by rewrite tget_tset.
  - destruct (lookup_tag (f_tag f) ms); [done|]. apply tget_tset_ne. intros [= En].
    apply (name_inj st g f Hst Hpl Hgin Hf) in En. congruence.
Qed.

Lemma tags_above last ms t m : tags_ascending last ms → (t, m) ∈ ms → last < t.
Proof.
  revert last. induction ms as [|[u x] ms IH]; intros last Ha Hin; [by apply not_elem_of_nil in Hin|].
  destruct Ha as [Hlt Ha]. apply elem_of_cons in Hin as [[= -> ->]|Hin]; [done|]. specialize (IH u Ha Hin). lia.
Qed.

(** Fields that hold what [ms] says give [ms] again. *)
Lemma fields_view_lookup c fs last ms :
  ascending last fs → tags_ascending last ms → (∀ t m, (t, m) ∈ ms → ∃ f, f ∈ fs ∧ f_tag f = t) →
  (∀ f, f ∈ fs → content_view (c f) = Ok (lookup_tag (f_tag f) ms)) → fields_view c fs = Ok ms.
Proof.
  revert last ms. induction fs as [|f fs IH]; intros last ms Ha Hms Hin Hc.
  - destruct ms as [|[t m] ms]; [done|]. destruct (Hin t m) as (f & Hf & _); [by left|]. by apply not_elem_of_nil in Hf.
  - destruct Ha as [Hl Ha]. cbn [fields_view]. rewrite (Hc f) by (by left). cbn [mbind res_bind].
    assert (Hrest : ∀ ms', tags_ascending (f_tag f) ms' → (∀ t m, (t, m) ∈ ms' → (t, m) ∈ ms) →
      (∀ g, g ∈ fs → lookup_tag (f_tag g) ms = lookup_tag (f_tag g) ms') → fields_view c fs = Ok ms').
    { intros ms' Hasc Hsub Hlk. eapply (IH (f_tag f)); [done|done| |].
      - intros t m Htm. destruct (Hin t m (Hsub _ _ Htm)) as (g & Hg & Hgt). exists g. split; [|done].
        apply elem_of_cons in Hg as [->|Hg]; [|done]. pose proof (tags_above _ _ _ _ Hasc Htm). lia.
      - intros g Hg. rewrite (Hc g) by (by right). by rewrite Hlk. }
    destruct ms as [|[t m] ms]; cbn [lookup_tag]; [by rewrite (Hrest [])|]. destruct Hms as [Hlt Hms].
    destruct (Z.eqb_spec t (f_tag f)) as [->|Hne].
    + rewrite (Hrest ms); [done|done|intros; by right|]. intros g Hg. cbn [lookup_tag].
      pose proof (ascending_above _ _ _ Ha Hg). destruct (Z.eqb_spec (f_tag f) (f_tag g)); [lia|done].
    + assert (Habove : f_tag f < t).
      { destruct (Hin t m) as (g & Hg & Hgt); [by left|]. apply elem_of_cons in Hg as [->|Hg]; [lia|].
        pose proof (ascending_above _ _ _ Ha Hg). lia. }
      rewrite (lookup_tag_above _ t) by (done || lia). by rewrite (Hrest ((t, m) :: ms)).
Qed.

Lemma build_not_nil f m t : kind_ok t m → (build sp f m).1 ≠ LNil.
Proof. destruct m; try done; [cbn; by destruct (negb _)|]. rewrite build_struct_eq. done. Qed.

Definition rebuilds (n : nat) : Prop := ∀ st ms key k,
  wf_type tn st → plain_type st → typed sp n st ms → keyed_fields st ms = true →
  fields_view (lua_content sp n (build_fields sp st key ms ([], k)).1) (t_f st) = Ok ms.

(** An element read back from its value. *)
Lemma elt_rebuilt n f m :
  plain → rebuilds n → wf_field tn f → (elt_type f = SPROTO_TINTEGER → f_extra f = 0) →
  elt_typed sp (typed sp n) f m → keyed f m = true → (lua_elt sp n f (build sp f m).1).1 = Ok m.
Proof.
  intros Hpl IH Hf Hex [Hk Hrec] Hkey. unfold lua_elt.
  destruct m as [v|x|s| |ms]; cbn [kind_ok] in Hk; [destruct Hk as [Hk Hv]|..|done|]; rewrite Hk;
    cbn [Z.eqb Pos.eqb SPROTO_TINTEGER SPROTO_TBOOLEAN SPROTO_TSTRING SPROTO_TSTRUCT]; try done.
  - cbn. unfold encode_integer_value. cbn. rewrite Hex by done. cbn. rewrite i64_small by done. done.
  - rewrite build_struct_eq. cbn [fst]. destruct (subtype_found sp f Hsp Hf Hk) as (i & Hi & Hget & Hwf).
    rewrite Hi. cbn [mbind option_bind]. rewrite Hget. cbn [fst].
    rewrite IH; [done|done| |done|done]. unfold arr_get in Hget. case_match; [|done]. by apply (Forall_lookup_1 _ _ _ _ Hpl Hget).
Qed.

Lemma elts_rebuilt n f vs :
  (∀ v, v ∈ vs → (lua_elt sp n f (build sp f v).1).1 = Ok v) →
  elts_view (map (lua_elt sp n f) (map (λ v, (build sp f v).1) vs)) = Ok vs.
Proof.
  induction vs as [|v vs IH]; intros Hall; [done|]. cbn [map elts_view]. rewrite (Hall v) by (by left). cbn [mbind res_bind].
  rewrite IH; [done|]. intros u Hu. apply Hall. by right.
Qed.

Lemma content_rebuilt n tbl f m :
  plain → rebuilds n → wf_field tn f → (elt_type f = SPROTO_TINTEGER → f_extra f = 0) →
  field_typed sp (typed sp n) f m → keyed f m = true → tget tbl (KString (name_of f)) = (build sp f m).1 →
  content_view (lua_content sp (S n) tbl f) = Ok (Some m).
Proof.
  intros Hpl IH Hf Hex Hty Hkey Hget. rewrite lua_content_S. fold (name_of f). rewrite Hget. unfold field_typed in Hty.
  destruct (is_array f).
  - destruct Hty as (vs & -> & Hvs & _). rewrite build_array_eq. cbn [fst content_view].
    rewrite build_items; [|eapply Forall_impl; [exact Hvs|]; intros v [Hk _]; by eapply build_not_nil|done].
    rewrite elts_rebuilt; [done|]. intros v Hv. rewrite Forall_forall in Hvs. apply elt_rebuilt; auto.
    cbn [keyed] in Hkey. apply andb_true_iff in Hkey as [Hkey _]. rewrite forallb_forall in Hkey. by apply Hkey, list_elem_of_In.
  - destruct Hty as [Hel _]. pose proof Hel as [Hk _]. pose proof (build_not_nil f m _ Hk) as Hn.
    pose proof (elt_rebuilt n f m Hpl IH Hf Hex Hel Hkey) as Hr.
    destruct (build sp f m).1; try done; cbn [content_view]; by rewrite Hr.
Qed.

Lemma rebuilds_all n : plain → rebuilds n.
Proof.
  intros Hpl. induction n as [|n IH]; intros st ms key k Hst Hps Hty Hk; pose proof (wf_ascending _ _ Hst) as Ha; destruct Hty as [Htags Hty].
  - destruct Hty as [-> E]. by rewrite E.
  - eapply fields_view_lookup; [done|done| |].
    + intros t m Hin. rewrite Forall_forall in Hty. destruct (Hty _ Hin) as (f & Hf & _). exists f. by apply (findtag_spec tn st t f Hst) in Hf.
    + intros f Hf. pose proof (wf_fields _ _ Hst) as Hwf. rewrite Forall_forall in Hwf. specialize (Hwf f Hf).
      pose proof (build_lookup st key ms (-1) [] k f Hst Hps Hf Htags ltac:(eapply Forall_impl; [exact Hty|]; intros p (g & Hg & _); eauto)) as Hget.
      destruct (lookup_tag (f_tag f) ms) as [m|] eqn:Hl; [|rewrite lua_content_S; fold (name_of f); by rewrite Hget].
      apply lookup_tag_in in Hl. rewrite Forall_forall in Hty. destruct (Hty _ Hl) as (g & Hg & Hft). cbn [fst snd] in *.
      assert (findtag st (f_tag f) = Some f) as Hff by (by apply (findtag_spec tn st _ f Hst)).
      assert (g = f) as -> by congruence. unfold keyed_fields in Hk. rewrite forallb_forall in Hk.
      specialize (Hk _ (proj1 (list_elem_of_In _ _) Hl)). cbn [fst snd] in Hk. rewrite Hff in Hk. apply andb_true_iff in Hk as [_ Hk].
      eapply content_rebuilt; try done. destruct Hps as [_ Hex]. rewrite Forall_forall in Hex. by apply Hex.
Qed.
End Round.

(** ** Packing *)

Lemma expand_size_ok fuel osz nsz :
  0 < osz < nsz → nsz <= osz * 2 ^ Z.of_nat fuel → nsz <= expand_size fuel osz nsz < 2 * nsz.
Proof.
  revert osz. induction fuel as [|fuel IH]; intros osz Ho Hn; [cbn in Hn; lia|]. cbn [expand_size].
  destruct (Z.ltb_spec (osz * 2) nsz); [|lia]. apply IH; [lia|].
  rewrite Nat2Z.inj_succ, Z.pow_succ_r in Hn by lia. lia.
Qed.

Lemma expand_buffer_grows osz nsz : 0 < osz < nsz → 2 * nsz <= ENCODE_MAXSIZE →
  ∃ b, expand_buffer osz nsz = Ok b ∧ nsz <= Z.of_nat (length b) <= ENCODE_MAXSIZE.
Proof.
  intros Ho Hn. unfold expand_buffer, ENCODE_MAXSIZE in *. pose proof (expand_size_ok 32 osz nsz Ho ltac:(lia)).
  destruct (Z.ltb_spec 16777216 (expand_size 32 osz nsz)); [lia|]. eexists. split; [done|].
  unfold malloc. rewrite length_replicate. lia.
Qed.

Lemma fetch_take b n (out : list Z) : take (Z.to_nat n) b = Some <$> out → Z.of_nat (length out) = n → fetch b 0 n = Ok out.
Proof.
  intros Ht Hn. assert (Hl : (length out <= length b)%nat).
  { apply (f_equal length) in Ht. rewrite length_take, length_fmap in Ht. lia. }
  unfold fetch. repeat match goal with |- context [(?a <=? ?b)] => destruct (Z.leb_spec a b); [|lia] end. cbn [andb].
  change (drop (Z.to_nat 0) b) with b. by rewrite Ht, mapM_written.
Qed.

Lemma lpack_ok src b :
  let sz := Z.of_nat (length src) in
  block_ok b → 2 * pack_maxsz sz <= ENCODE_MAXSIZE → packable src = true →
  ∃ out b', lpack src b = Ok (out, b') ∧ packs out (padded src).
Proof.
  intros sz [Hb1 Hb2] Hmax Htail. unfold lpack. fold sz.
  assert (Hbuf : ∃ b1, (if Z.of_nat (length b) <? pack_maxsz sz then expand_buffer (Z.of_nat (length b)) (pack_maxsz sz) else Ok b) = Ok b1 ∧
    pack_maxsz sz <= Z.of_nat (length b1)).
  { destruct (Z.ltb_spec (Z.of_nat (length b)) (pack_maxsz sz)); [|by exists b].
    destruct (expand_buffer_grows (Z.of_nat (length b)) (pack_maxsz sz)) as (b1 & ? & ?); [lia|done|]. exists b1. split; [done|lia]. }
  destruct Hbuf as (b1 & -> & Hl). cbn [mbind res_bind].
  destruct (sproto_pack_ok src (pack_maxsz sz) (Z.le_refl _) Htail b1 Hl) as (size & b2 & -> & Hs & out & Ho & Hlo & Hp).
  cbn [defined mbind res_bind]. rewrite (proj2 (Z.ltb_ge _ _)) by (apply Hs).
  rewrite (fetch_take b2 size out) by done. cbn [mbind res_bind]. eauto.
Qed.

Lemma lunpack_ok p d b :
  packs p d → block_ok b → 2 * Z.of_nat (length d) <= ENCODE_MAXSIZE → ∃ b', lunpack p b = Ok (d, b').
Proof.
  intros Hp [Hb1 Hb2] Hd. unfold lunpack.
  destruct (unpack_loop_any p d (length p) b 0 (Z.of_nat (length b)) 0 Hp ltac:(lia) ltac:(lia) ltac:(right; lia)) as (b1 & He1 & Hl1).
  change (sproto_unpack p b (Z.of_nat (length b)) = Some (Z.of_nat (length d), b1)) in He1.
  rewrite He1. cbn [defined mbind res_bind].
  destruct (Z.ltb_spec (Z.of_nat (length d)) 0); [lia|].
  assert (Hfull : ∀ b0 n, Z.of_nat (length d) <= n <= Z.of_nat (length b0) →
    ∃ b2, sproto_unpack p b0 n = Some (Z.of_nat (length d), b2) ∧ fetch b2 0 (Z.of_nat (length d)) = Ok d).
  { intros b0 n Hn. destruct (unpack_loop_ok p d (length p) b0 0 n 0 Hp ltac:(lia) ltac:(lia) ltac:(lia) ltac:(lia)) as (b2 & He2 & Hl2 & Ht2).
    exists b2. unfold sproto_unpack. rewrite He2. split; [done|]. apply fetch_take; [|done]. rewrite Nat2Z.id. exact Ht2. }
  destruct (Z.ltb_spec (Z.of_nat (length b)) (Z.of_nat (length d))).
  - destruct (expand_buffer_grows (Z.of_nat (length b)) (Z.of_nat (length d))) as (b0 & -> & Hb0); [lia|done|]. cbn [mbind res_bind].
    destruct (Hfull b0 (Z.of_nat (length d)) ltac:(lia)) as (b2 & -> & Hf). cbn [defined mbind res_bind].
    destruct (Z.ltb_spec (Z.of_nat (length d)) 0); [lia|]. rewrite Hf. cbn [mbind res_bind]. eauto.
  - destruct (Hfull b (Z.of_nat (length b)) ltac:(lia)) as (b2 & He2 & Hf). rewrite He1 in He2.
    injection He2 as <-. cbn [mbind res_bind]. destruct (Z.ltb_spec (Z.of_nat (length d)) 0); [lia|]. rewrite Hf. cbn [mbind res_bind]. eauto.
Qed.

(** ** A loaded schema

    What a successful [sproto_create] leaves behind; the round trip and the
    encoder are stated of such schemas. *)

Record loaded (d : list Z) (sp : sproto) : Prop := {
  ld_bytes : Forall is_byte d;
  ld_create : sproto_create d = Ok sp
}.

Lemma loaded_wf d sp : loaded d sp → wf_sproto sp.
Proof. intros [Hd Hc]. by eapply create_wf. Qed.

Lemma loaded_type d sp i st : loaded d sp → arr_get (s_type sp) i = Some st → wf_type (type_n sp) st.
Proof.
  intros Hl Hi. pose proof (wf_each _ (loaded_wf _ _ Hl)) as Hw. rewrite Forall_forall in Hw. apply Hw.
  unfold arr_get in Hi. case_match; [|done]. by eapply list_elem_of_lookup_2.
Qed.

(** ** The whole path *)

Section Path.
Context `{LuaConv}.
Context (d : list Z) (sp : sproto) (Hl : loaded d sp).

(** A block that is large enough is never refused. *)
Lemma lencode_fits i st tbl ms b :
  arr_get (s_type sp) i = Some st → lua_ok (LTable tbl) → block_ok b → view sp st tbl = Ok (MStruct ms) →
  2 * view_room sp st tbl <= ENCODE_MAXSIZE →
  ∃ b', lencode sp (Some i) (LTable tbl) b = Ok (wire (MStruct ms), b') ∧ Z.of_nat (length (wire (MStruct ms))) <= ENCODE_MAXSIZE.
Proof.
  intros Hi Hok Hb Hv Hroom. pose proof (lencode_spec sp (loaded_wf _ _ Hl) i st tbl b Hi Hok Hb) as Hp.
  unfold lencode_post in Hp. rewrite Hv in Hp. destruct Hp as [(b' & He & _ & Hlen)|[_ ?]]; [eauto|lia].
Qed.

(** Decoding gives a table of the same message, whatever follows the bytes. *)
Lemma ldecode_view i st tbl ms rest :
  arr_get (s_type sp) i = Some st → plain sp → view sp st tbl = Ok (MStruct ms) → keyed_fields sp st ms = true →
  Z.of_nat (length (wire (MStruct ms) ++ rest)) <= INT_MAX →
  let tbl' := (build_fields sp st (-1) ms ([], LNil)).1 in
  ldecode sp (wire (MStruct ms) ++ rest) (Some i) None = Ok (Some (tbl', Z.of_nat (length (wire (MStruct ms))))) ∧
  view sp st tbl' = Ok (MStruct ms).
Proof.
  intros Hi Hpl Hv Hk Hn tbl'. pose proof (loaded_wf _ _ Hl) as Hsp. pose proof (loaded_type _ _ _ _ Hl Hi) as Hst.
  unfold view in Hv. apply res_bind_ok in Hv as (ms' & Hv & [= ->]).
  pose proof (view_typed sp Hsp 64 st tbl ms Hst Hv Hk) as Hty. split; [by eapply ldecode_wire|].
  unfold view. rewrite (rebuilds_all sp Hsp 64 Hpl st ms (-1) LNil); try done.
  unfold plain in Hpl. rewrite Forall_forall in Hpl. apply Hpl. unfold arr_get in Hi. case_match; [|done]. by eapply list_elem_of_lookup_2.
Qed.
End Path.

(** C32. A schema that [sproto_create] accepts from any bytes has the shape that
    the encoder and the decoder rely on: the fields of every type are in
    ascending order of tags, their types and their structure types are in range,
    the number of tag records ([maxn]) is exact, and the requests and responses
    of the protocols are types of the schema.  [findtag], by index or by binary
    search, finds in every type exactly the field of a tag. *)
Theorem schema_loaded d sp :
  Forall is_byte d → sproto_create d = Ok sp →
  wf_sproto sp ∧
  ∀ i st, arr_get (s_type sp) i = Some st → ∀ tag f, findtag st tag = Some f ↔ f ∈ t_f st ∧ f_tag f = tag.
Proof.
  intros Hd Hc. pose proof (Build_loaded d sp Hd Hc) as Hl. split; [by eapply loaded_wf|].
  intros i st Hi tag f. eapply findtag_spec. by eapply loaded_type.
Qed.

(** C11. [lencode] ends for every table and every block, growing the block as
    often as it takes: where the table fits its type it returns the bytes of the
    message ([wire], the format of sproto), and where a value does not fit its
    field or the tables are nested too deep it raises; it also raises where the
    message may need more than half of the 16 MB that a block can grow to.  It
    touches no byte outside the block.  ([view] is undefined only where a
    decimal leaves the range of 64-bit integers.) *)
Theorem lencode_correct `{LuaConv} d sp i st tbl b :
  Forall is_byte d → sproto_create d = Ok sp → arr_get (s_type sp) i = Some st →
  lua_ok (LTable tbl) → 1 <= Z.of_nat (length b) <= ENCODE_MAXSIZE → view sp st tbl ≠ Undef →
  match lencode sp (Some i) (LTable tbl) b with
  | Ok (out, b') => view sp st tbl ≠ Fail ∧ (∀ m, view sp st tbl = Ok m → out = wire m) ∧
                    1 <= Z.of_nat (length b') <= ENCODE_MAXSIZE
  | Fail => ∀ m, view sp st tbl = Ok m → ENCODE_MAXSIZE < 2 * view_room sp st tbl
  | Undef => False
  end.
Proof.
  intros Hd Hc Hi Hok Hb Hu. pose proof (loaded_wf d sp (Build_loaded d sp Hd Hc)) as Hsp.
  pose proof (lencode_spec sp Hsp i st tbl b Hi Hok Hb) as Hp. unfold lencode_post in Hp.
  destruct (view sp st tbl) as [m| |]; [|by rewrite Hp|done].
  destruct Hp as [(b' & -> & Hb' & _)|[-> Hroom]]; [|by intros].
  split_and!; [done|congruence|apply Hb'..].
Qed.

(** C10. A message between two peers with the same schema.  What [lencode]
    returns for a table, [ldecode] turns into a table of the same message, and
    it reports the length that was encoded.  Where the message is also packed,
    what [lpack] returns [lunpack] restores, up to padding to whole groups of
    eight bytes, and [ldecode] returns the same table for it.  The elements of
    a map have main keys that differ; the schema is [plain]: no decimals, and
    no two fields of a type with the same name; the message needs at most half
    of the largest block; and what is packed is [packable]: it consists of whole
    groups, or of less than 256, or one of its last 256 groups has more than
    two zeros (otherwise [sproto_pack] may read behind the message). *)
Theorem message_roundtrip `{LuaConv} d sp i st tbl ms b1 :
  let out := wire (MStruct ms) in
  let n := Z.of_nat (length out) in
  Forall is_byte d → sproto_create d = Ok sp → plain sp → arr_get (s_type sp) i = Some st →
  lua_ok (LTable tbl) → view sp st tbl = Ok (MStruct ms) → keyed_fields sp st ms = true →
  block_ok b1 → 2 * view_room sp st tbl <= ENCODE_MAXSIZE →
  ∃ tbl' b1',
    lencode sp (Some i) (LTable tbl) b1 = Ok (out, b1') ∧
    ldecode sp out (Some i) None = Ok (Some (tbl', n)) ∧
    view sp st tbl' = view sp st tbl ∧
    ∀ b2 b3, block_ok b2 → block_ok b3 → 2 * pack_maxsz n <= ENCODE_MAXSIZE → packable out = true →
      ∃ packed unpacked b2' b3',
        lpack out b2 = Ok (packed, b2') ∧ lunpack packed b3 = Ok (unpacked, b3') ∧
        ldecode sp unpacked (Some i) None = Ok (Some (tbl', n)).
Proof.
  intros out n Hd Hc Hpl Hi Hok Hv Hk Hb1 Hroom.
  pose proof (Build_loaded d sp Hd Hc) as Hl.
  destruct (lencode_fits d sp Hl i st tbl ms b1 Hi Hok Hb1 Hv Hroom) as (b1' & He & Hlen). fold out n in Hlen.
  assert (Hsz : n + 7 <= INT_MAX) by (unfold ENCODE_MAXSIZE, INT_MAX in *; lia).
  destruct (ldecode_view d sp Hl i st tbl ms [] Hi Hpl Hv Hk) as [Hd1 Hv1]; [rewrite app_nil_r; fold out n; lia|].
  rewrite app_nil_r in Hd1. do 2 eexists. split_and!; [exact He|exact Hd1|by rewrite Hv|]. intros b2 b3 Hb2 Hb3 Hmax Htail.
  destruct (lpack_ok out b2 Hb2 Hmax Htail) as (packed & b2' & Hpk & Hp).
  pose proof (padded_length out) as Hpad. fold n in Hpad.
  assert (Hn : Z.of_nat (length (padded out)) <= n + 7 ∧ 2 * Z.of_nat (length (padded out)) <= ENCODE_MAXSIZE).
  { unfold pack_maxsz, ENCODE_MAXSIZE in *. split; dlia. }
  destruct (lunpack_ok packed (padded out) b3 Hp Hb3 (proj2 Hn)) as (b3' & Hup).
  destruct (ldecode_view d sp Hl i st tbl ms (replicate (Z.to_nat ((- n) mod 8)) 0) Hi Hpl Hv Hk) as [Hd2 _].
  { fold out. change (out ++ replicate (Z.to_nat (- n mod 8)) 0) with (padded out). lia. }
  do 4 eexists. split_and!; [exact Hpk|exact Hup|exact Hd2].
Qed.

(** ** A schema and a message

    The types [person] and [room] and the protocols [enter] and [leave], as
    sprotoparser.lua compiles them. *)

Definition sample_bundle : list Z :=
  [2; 0; 0; 0; 0; 0; 254; 0; 0; 0; 83; 0; 0; 0; 2; 0; 0; 0; 0; 0; 6; 0; 0; 0; 112; 101; 114; 115; 111; 110; 63;
   0; 0; 0; 16; 0; 0; 0; 4; 0; 0; 0; 2; 0; 1; 0; 2; 0; 2; 0; 0; 0; 105; 100; 18; 0; 0; 0; 4; 0; 0; 0; 6; 0; 1;
   0; 4; 0; 4; 0; 0; 0; 110; 97; 109; 101; 17; 0; 0; 0; 4; 0; 0; 0; 4; 0; 1; 0; 8; 0; 3; 0; 0; 0; 118; 105; 112;
   163; 0; 0; 0; 2; 0; 0; 0; 0; 0; 4; 0; 0; 0; 114; 111; 111; 109; 145; 0; 0; 0; 16; 0; 0; 0; 4; 0; 0; 0; 2; 0;
   1; 0; 2; 0; 2; 0; 0; 0; 110; 111; 21; 0; 0; 0; 5; 0; 0; 0; 2; 0; 1; 0; 4; 0; 4; 0; 5; 0; 0; 0; 99; 97; 114;
   100; 115; 19; 0; 0; 0; 4; 0; 0; 0; 1; 0; 2; 0; 6; 0; 5; 0; 0; 0; 111; 119; 110; 101; 114; 25; 0; 0; 0; 6; 0;
   0; 0; 1; 0; 2; 0; 12; 0; 4; 0; 2; 0; 7; 0; 0; 0; 112; 108; 97; 121; 101; 114; 115; 19; 0; 0; 0; 5; 0; 0; 0;
   6; 0; 1; 0; 14; 0; 4; 0; 3; 0; 0; 0; 108; 111; 103; 21; 0; 0; 0; 5; 0; 0; 0; 4; 0; 1; 0; 16; 0; 4; 0; 5; 0;
   0; 0; 102; 108; 97; 103; 115; 48; 0; 0; 0; 19; 0; 0; 0; 4; 0; 0; 0; 4; 0; 2; 0; 4; 0; 5; 0; 0; 0; 101; 110;
   116; 101; 114; 21; 0; 0; 0; 5; 0; 0; 0; 10; 0; 2; 0; 1; 0; 4; 0; 5; 0; 0; 0; 108; 101; 97; 118; 101].

Definition sample : sproto :=
  Eval vm_compute in match sproto_create sample_bundle with Ok s => s | _ => mk_sproto 0 0 [] [] end.

Definition room_type : sproto_type :=
  Eval vm_compute in default (mk_type [] 0 0 0 []) (arr_get (s_type sample) 1).

Definition noconv : LuaConv := {| str2integer := λ _, None; str2number := λ _, None; num2str := λ _, [] |}.

Definition at_name (s : string) : lua_key := KString (lit s).

Definition sample_person (i : Z) : lua_value := LTable [(at_name "name", LString (lit "bob")); (at_name "id", LInteger i)].

Definition sample_room : table :=
  [(at_name "no", LInteger 40000);
   (at_name "cards", LTable [(KInteger 1, LInteger 5); (KInteger 2, LInteger (-3)); (KInteger 3, LInteger (2 ^ 40))]);
   (at_name "owner", sample_person 7);
   (at_name "players", LTable [(KInteger 9, sample_person 9); (KInteger 3, sample_person 3)]);
   (at_name "log", LTable [(KInteger 1, LString (lit "a")); (KInteger 2, LString [])]);
   (at_name "flags", LTable [(KInteger 1, LBoolean true); (KInteger 2, LBoolean false)])].

Definition sample_message : list (Z * msg) :=
  Eval vm_compute in match @view noconv sample room_type sample_room with Ok (MStruct ms) => ms | _ => [] end.

Lemma sample_bytes : Forall is_byte sample_bundle.
Proof. unfold sample_bundle, is_byte. repeat constructor; lia. Qed.

Lemma sample_ok : lua_ok (LTable sample_room).
Proof.
  apply lua_ok_table. split; [by apply (bool_decide_unpack _)|]. repeat constructor; try done; by apply (bool_decide_unpack _).
Qed.

Lemma sample_plain : plain sample.
Proof. repeat constructor; try by apply (bool_decide_unpack _). all: intros E; first [done|by vm_compute in E]. Qed.

Lemma schema_loaded_witness :
  wf_sproto sample ∧ ∀ tag f, findtag room_type tag = Some f ↔ f ∈ t_f room_type ∧ f_tag f = tag.
Proof.
  destruct (schema_loaded sample_bundle sample sample_bytes eq_refl) as [Hw Hf]. split; [exact Hw|].
  exact (Hf 1 room_type eq_refl).
Defined.

Lemma lencode_correct_witness :
  match @lencode noconv sample (Some 1) (LTable sample_room) (malloc 8) with
  | Ok (out, _) => out = wire (MStruct sample_message)
  | _ => False
  end.
Proof.
  pose proof (@lencode_correct noconv sample_bundle sample 1 room_type sample_room (malloc 8) sample_bytes eq_refl eq_refl sample_ok
    ltac:(vm_compute; split; congruence) ltac:(vm_compute; congruence)) as Hl.
  destruct (lencode sample (Some 1) (LTable sample_room) (malloc 8)) as [[out b]| |].
  - destruct Hl as (_ & Hl & _). apply Hl. vm_compute. reflexivity.
  - specialize (Hl (MStruct sample_message) ltac:(vm_compute; reflexivity)). vm_compute in Hl. discriminate Hl.
  - exact Hl.
Defined.

Lemma message_roundtrip_witness :
  let out := wire (MStruct sample_message) in
  let n := Z.of_nat (length out) in
  ∃ tbl' packed unpacked b1' b2' b3',
    @lencode noconv sample (Some 1) (LTable sample_room) (malloc 8) = Ok (out, b1') ∧
    ldecode sample out (Some 1) None = Ok (Some (tbl', n)) ∧
    @view noconv sample room_type tbl' = @view noconv sample room_type sample_room ∧
    lpack out (malloc 8) = Ok (packed, b2') ∧ lunpack packed (malloc 8) = Ok (unpacked, b3') ∧
    ldecode sample unpacked (Some 1) None = Ok (Some (tbl', n)).
Proof.
  intros out n.
  destruct (@message_roundtrip noconv sample_bundle sample 1 room_type sample_room sample_message (malloc 8))
    as (tbl' & b1' & He & Hd & Hv & Hp);
    [exact sample_bytes|reflexivity|exact sample_plain|reflexivity|exact sample_ok|vm_compute; reflexivity|vm_compute; reflexivity|
     vm_compute; split; congruence|vm_compute; congruence|].
  destruct (Hp (malloc 8) (malloc 8)) as (packed & unpacked & b2' & b3' & Hpk & Hup & Hd2);
    [vm_compute; split; congruence|vm_compute; split; congruence|vm_compute; congruence|vm_compute; reflexivity|].
  exists tbl', packed, unpacked, b1', b2', b3'. split_and!; [exact He|exact Hd|exact Hv|exact Hpk|exact Hup|exact Hd2].
Defined.

(** ** What the theorems leave out

    Concrete runs of the behaviours that the hypotheses exclude. *)

(** The length of an element or of a field wraps when four is added: the loop
    of [count_array] stands still, and the decoder reads behind the message. *)
Lemma count_stands_still fuel n : count_loop fuel [4; 0; 0; 0; 252; 255; 255; 255] 4 4 n = Undef.
Proof. revert n. induction fuel as [|fuel IH]; intros n; [done|]. apply (IH (n + 1)). Qed.

Example decode_overread : ldecode sample [2; 0; 1; 0; 0; 0; 253; 255; 255; 255; 4] (Some 1) None = Undef.
Proof. reflexivity. Qed.

(** A type with an empty array of fields: [f[0]] and [f[-1]] are read. *)
Example type_without_fields :
  sproto_create [1; 0; 0; 0; 19; 0; 0; 0; 15; 0; 0; 0; 2; 0; 0; 0; 0; 0; 1; 0; 0; 0; 97; 0; 0; 0; 0] = Undef.
Proof. reflexivity. Qed.

(** Ten to the power of eight fits, but [calc_pow] squares once more. *)
Example decimal_overflow : calc_pow 32 10 7 = Some 10000000 ∧ calc_pow 32 10 8 = None.
Proof. by split. Qed.

(** A value that is not a number is sent as the decimal 0. *)
Example decimal_of_boolean f name : f_extra f = 100 →
  @encode_integer_value noconv (arg_of f name) (LBoolean true) = Ok 0.
Proof. intros E. unfold encode_integer_value, arg_of. cbn [a_extra]. rewrite E. reflexivity. Qed.

(** A structure with a main index outside of an array is stored in the table at
    the index 0 of the stack. *)
Definition keyed_bundle : list Z :=
  [1; 0; 0; 0; 81; 0; 0; 0; 35; 0; 0; 0; 2; 0; 0; 0; 0; 0; 1; 0; 0; 0; 112; 20; 0; 0; 0; 16; 0; 0; 0; 4; 0; 0; 0; 2; 0; 1;
   0; 2; 0; 2; 0; 0; 0; 105; 100; 38; 0; 0; 0; 2; 0; 0; 0; 0; 0; 1; 0; 0; 0; 114; 23; 0; 0; 0; 19; 0; 0; 0; 6; 0; 0; 0; 1;
   0; 2; 0; 2; 0; 1; 0; 2; 0; 1; 0; 0; 0; 111].

Example single_main_index : ∃ s, sproto_create keyed_bundle = Ok s ∧
  ldecode s [1; 0; 0; 0; 4; 0; 0; 0; 1; 0; 10; 0] (Some 1) None = Undef.
Proof. eexists. split; [reflexivity|]. reflexivity. Qed.

(** The protocols of the sample by tag and by name. *)
Example sample_protocols :
  lprotocol sample (by_tag 4) = Some (by_name (lit "leave"), Some 0, resp_null) ∧
  lprotocol sample (by_name (lit "enter")) = Some (by_tag 1, Some 0, resp_type 1) ∧
  lprotocol sample (by_tag 2) = None.
Proof. by split_and!. Qed.
