(* ===== verification/Xtea.v ===== *)
(** * Encryption of messages: lualib-src/sproto/sproto.c, lsproto.c

    [_xtea_encrypt_] and [_xtea_decrypt_] work in place on an array of 32-bit
    words, in rounds that add to (or subtract from) each word a mix of its two
    neighbours, the key and a running sum.  [lxteacrypt] applies them to a
    copy of a Lua string, [lxteacrypt_c] to a buffer in place.

    The key is read where the code reads it: in the memory of the Lua string,
    which is followed by a zero byte.  An access outside an array, and the
    division by zero, make a function on words [None], and [lxteacrypt] [Undef];
    [Fail] is the error of [expand_buffer]. *)

From Stdlib Require Import ZArith Lia.
From stdpp Require Import base tactics option numbers list.
From S2P Require Import Prelude SprotoTypes SprotoCodec SprotoWire SprotoLua SprotoRound.

Definition XTEA_DELTA : Z := 0x9e3779b9.

(** The word [i] of an array of bytes, little endian. *)
Definition word_at (m : list Z) (i : Z) : option Z :=
  if (0 <=? i) && (4 * i + 4 <=? Z.of_nat (length m))
  then Some (le_val (take 4 (drop (Z.to_nat (4 * i)) m))) else None.

(** [XTEA_MX]: [+] binds tighter than [^]. *)
Definition XTEA_MX (k : list Z) (z y sum p e : Z) : option Z :=
  kw ← word_at k (Z.lxor (Z.land p 3) e);
  Some (Z.lxor
    (u32 (Z.lxor (Z.shiftr z 5) (u32 (Z.shiftl y 2)) + Z.lxor (Z.shiftr y 3) (u32 (Z.shiftl z 4))))
    (u32 (Z.lxor sum y + Z.lxor kw z))).

(** The array and the locals [y] and [z]. *)
Record xtea_state := mk_xtea { xv : list Z; xy : Z; xz : Z }.

(** [y = v[i]; z = v[p] += XTEA_MX] *)
Definition enc_word (k : list Z) (sum e p i : Z) (s : xtea_state) : option xtea_state :=
  y ← arr_get (xv s) i;
  mx ← XTEA_MX k (xz s) y sum p e;
  w ← arr_get (xv s) p;
  let w := u32 (w + mx) in
  v ← arr_set (xv s) p w;
  Some (mk_xtea v y w).

(** [z = v[i]; y = v[p] -= XTEA_MX] *)
Definition dec_word (k : list Z) (sum e p i : Z) (s : xtea_state) : option xtea_state :=
  z ← arr_get (xv s) i;
  mx ← XTEA_MX k z (xy s) sum p e;
  w ← arr_get (xv s) p;
  let w := u32 (w - mx) in
  v ← arr_set (xv s) p w;
  Some (mk_xtea v w z).

(** [for (p = 0; p < n; p++)], [m] rounds of it from [p]. *)
Fixpoint enc_for (m : nat) (k : list Z) (sum e p : Z) (s : xtea_state) : option xtea_state :=
  match m with
  | O => Some s
  | S m' => s ← enc_word k sum e p (p + 1) s; enc_for m' k sum e (p + 1) s
  end.

(** [for (p = n; p > 0; p--)] *)
Fixpoint dec_for (p : nat) (k : list Z) (sum e : Z) (s : xtea_state) : option xtea_state :=
  match p with
  | O => Some s
  | S p' => s ← dec_word k sum e (Z.of_nat p) (Z.of_nat p') s; dec_for p' k sum e s
  end.

Definition sum_e (sum : Z) : Z := Z.land (Z.shiftr sum 2) 3.

(** The loop [while (0 < q--)]. *)
Fixpoint enc_while (q : nat) (n : Z) (k : list Z) (sum : Z) (s : xtea_state) : option xtea_state :=
  match q with
  | O => Some s
  | S q' =>
      let sum := u32 (sum + XTEA_DELTA) in
      let e := sum_e sum in
      s ← enc_for (Z.to_nat n) k sum e 0 s;
      s ← enc_word k sum e n 0 s;
      enc_while q' n k sum s
  end.

(** The loop [while (sum != 0)]. *)
Fixpoint dec_while (fuel : nat) (n : Z) (k : list Z) (sum : Z) (s : xtea_state) : option xtea_state :=
  if sum =? 0 then Some s
  else
    match fuel with
    | O => None
    | S f =>
        let e := sum_e sum in
        s ← dec_for (Z.to_nat n) k sum e s;
        s ← dec_word k sum e 0 n s;
        dec_while f n k (u32 (sum - XTEA_DELTA)) s
    end.

(** The initializers: [n], [z], [y] and [q]; the division by [n + 1] is
    undefined when [len] is 0. *)
Definition xtea_init (v : list Z) (len : Z) : option (Z * Z * xtea_state) :=
  let n := u32 (len - 1) in
  z ← arr_get v n;
  y ← arr_get v 0;
  q ← (if u32 (n + 1) =? 0 then None else Some (u32 (6 + 52 / u32 (n + 1))));
  Some (n, q, mk_xtea v y z).

Definition _xtea_encrypt_ (v : list Z) (len : Z) (k : list Z) : option (list Z) :=
  '(n, q, s) ← xtea_init v len;
  if n <? 1 then Some v
  else s ← enc_while (Z.to_nat q) n k 0 s; Some (xv s).

Definition _xtea_decrypt_ (v : list Z) (len : Z) (k : list Z) : option (list Z) :=
  '(n, q, s) ← xtea_init v len;
  if n <? 1 then Some v
  else s ← dec_while (Z.to_nat q) n k (u32 (q * XTEA_DELTA)) s; Some (xv s).

(** ** On bytes *)

Fixpoint to_words (n : nat) (l : list Z) : list Z :=
  match n with
  | O => []
  | S n' => le_val (take 4 l) :: to_words n' (drop 4 l)
  end.

Fixpoint of_words (ws : list Z) : list Z :=
  match ws with
  | [] => []
  | w :: ws' => le_bytes 4 w ++ of_words ws'
  end.

(** A function on words applied to the words of a block of bytes, in place. *)
Definition on_words (f : list Z → Z → list Z → option (list Z)) (data : list Z) (size : Z) (key : list Z) : option (list Z) :=
  let n := size / 4 in
  ws ← f (to_words (Z.to_nat n) data) n key;
  Some (of_words ws ++ drop (Z.to_nat (4 * n)) data).

Definition xtea_encrypt := on_words _xtea_encrypt_.
Definition xtea_decrypt := on_words _xtea_decrypt_.

(** [lxteacrypt(L, crypt_func)]: the string pushed, and the block [b] kept for
    the next call, which is replaced when it is too small.  The zero-padded copy
    [tkey] is made but [key] is what is passed on. *)
Definition lxteacrypt (crypt_func : list Z → Z → list Z → option (list Z)) (data key : list Z) (b : block) : res (list Z * block) :=
  let sz := Z.of_nat (length b) in
  let dlen := Z.of_nat (length data) in
  let tkey := take (min 16 (length key)) key ++ replicate (16 - length key) 0 in
  b ← (if sz <? dlen then expand_buffer sz (i32 dlen) else Ok b);
  b ← put b 0 data;
  buffer ← fetch b 0 dlen;
  c ← defined (crypt_func buffer (i32 dlen) (key ++ [0]));
  b ← put b 0 c;
  out ← fetch b 0 dlen;
  Ok (out, b).

(** [lxteacrypt_c(L, crypt_func)]: the buffer after the call. *)
Definition lxteacrypt_c (crypt_func : list Z → Z → list Z → option (list Z)) (key data : list Z) : option (list Z) :=
  let tkey := take (min 16 (length key)) key ++ replicate (16 - length key) 0 in
  crypt_func data (i32 (Z.of_nat (length data))) (key ++ [0]).

Definition lxteaencrypt := lxteacrypt xtea_encrypt.
Definition lxteadecrypt := lxteacrypt xtea_decrypt.
Definition lxteaencrypt_c := lxteacrypt_c xtea_encrypt.
Definition lxteadecrypt_c := lxteacrypt_c xtea_decrypt.

(** The string of a short key is read beyond its end. *)
Example xtea_short_key : lxteaencrypt [1; 2; 3; 4; 5; 6; 7; 8] [1; 2; 3; 4; 5; 6; 7; 8] (malloc 16) = Undef.
Proof. vm_compute. reflexivity. Qed.

(** A message of less than four bytes is a division by zero. *)
Example xtea_short_data : lxteaencrypt_c (replicate 16 7) [1; 2; 3] = None.
Proof.
  unfold lxteaencrypt_c, lxteacrypt_c, xtea_encrypt, on_words. change (i32 (Z.of_nat (length [1; 2; 3])) / 4) with 0.
  unfold _xtea_encrypt_, xtea_init. cbv zeta. change (to_words (Z.to_nat 0) _) with (@nil Z). rewrite (arr_get_lookup [] (u32 _)) by (apply u32_range).
  by rewrite lookup_nil.
Qed.

(** The block grows from four bytes to sixteen. *)
Example xtea_example :
  ('(c, b) ← lxteaencrypt [1; 2; 3; 4; 5; 6; 7; 8; 9] (replicate 16 7) (malloc 4); '(d, b) ← lxteadecrypt c (replicate 16 7) b; Ok (d, length b)) =
  Ok ([1; 2; 3; 4; 5; 6; 7; 8; 9], 16%nat).
Proof. vm_compute. reflexivity. Qed.

(** ** The rounds as updates of single words

    Each step of a round replaces one word by a function of its neighbours,
    the rest unchanged; the steps of decryption undo those of encryption in
    the opposite order. *)

Section rounds.
Context (k : list Z) (Hk : (16 <= length k)%nat).
Context (n : Z) (Hn : 1 <= n).

Definition before (p : Z) : Z := if p =? 0 then n else p - 1.
Definition after (p : Z) : Z := if p =? n then 0 else p + 1.

Definition at_ (v : list Z) (p : Z) : Z := default 0 (v !! Z.to_nat p).

Definition mix (sum p : Z) (v : list Z) : Z :=
  default 0 (XTEA_MX k (at_ v (before p)) (at_ v (after p)) sum p (sum_e sum)).

Definition enc_at (sum p : Z) (v : list Z) : list Z := <[Z.to_nat p := u32 (at_ v p + mix sum p v)]> v.
Definition dec_at (sum p : Z) (v : list Z) : list Z := <[Z.to_nat p := u32 (at_ v p - mix sum p v)]> v.

Definition words (v : list Z) : Prop := Z.of_nat (length v) = n + 1 ∧ Forall (λ w, 0 <= w < 2 ^ 32) v.

Lemma arr_get_at v p : words v → 0 <= p <= n → arr_get v p = Some (at_ v p).
Proof.
  intros [Hl _] Hp. rewrite arr_get_lookup by lia. unfold at_.
  by destruct (lookup_lt_is_Some_2 v (Z.to_nat p)) as [x ->]; [lia|].
Qed.

Lemma sum_e_range sum : 0 <= sum_e sum < 4.
Proof. unfold sum_e. change 3 with (2 ^ 2 - 1). rewrite land_ones_mod by lia. apply Z.mod_pos_bound. lia. Qed.

Lemma xor4 a b : 0 <= a < 4 → 0 <= b < 4 → 0 <= Z.lxor a b < 4.
Proof.
  intros. assert (a = 0 ∨ a = 1 ∨ a = 2 ∨ a = 3) as Ha by lia. assert (b = 0 ∨ b = 1 ∨ b = 2 ∨ b = 3) as Hb by lia.
  destruct Ha as [-> | [-> | [-> | ->]]], Hb as [-> | [-> | [-> | ->]]]; vm_compute; intuition congruence.
Qed.

Lemma mx_some z y sum p : XTEA_MX k z y sum p (sum_e sum) = Some (default 0 (XTEA_MX k z y sum p (sum_e sum))).
Proof.
  unfold XTEA_MX, word_at. assert (0 <= Z.lxor (Z.land p 3) (sum_e sum) < 4).
  { apply xor4; [|apply sum_e_range]. change 3 with (2 ^ 2 - 1). rewrite land_ones_mod by lia. apply Z.mod_pos_bound. lia. }
  rewrite (proj2 (Z.leb_le 0 _)), (proj2 (Z.leb_le _ (Z.of_nat (length k)))) by lia. done.
Qed.

Lemma words_insert v p w : words v → 0 <= p <= n → words (<[Z.to_nat p := u32 w]> v).
Proof.
  intros [Hl Hf] Hp. split; [by rewrite length_insert|]. apply Forall_insert; [done|]. apply u32_range.
Qed.

Lemma at_insert_ne v p p' w : 0 <= p → 0 <= p' → p ≠ p' → at_ (<[Z.to_nat p := w]> v) p' = at_ v p'.
Proof. intros. unfold at_. by rewrite list_lookup_insert_ne by lia. Qed.

Lemma at_insert_eq v p w : words v → 0 <= p <= n → at_ (<[Z.to_nat p := w]> v) p = w.
Proof. intros [Hl _] Hp. unfold at_. by rewrite list_lookup_insert_eq by lia. Qed.

Lemma neighbours p : 0 <= p <= n → 0 <= before p <= n ∧ 0 <= after p <= n ∧ before p ≠ p ∧ after p ≠ p.
Proof. unfold before, after. zcases. Qed.

(** Decrypting a word undoes encrypting it. *)
Lemma dec_enc_at sum p v : words v → 0 <= p <= n → dec_at sum p (enc_at sum p v) = v.
Proof.
  intros Hv Hp. destruct (neighbours p Hp) as (Hb & Ha & Hbn & Han). unfold dec_at.
  assert (Hm : mix sum p (enc_at sum p v) = mix sum p v).
  { unfold mix, enc_at. rewrite !at_insert_ne by lia. done. }
  rewrite Hm. unfold enc_at at 1 2. rewrite at_insert_eq, list_insert_insert_eq by (done || lia).
  apply list_insert_id. destruct Hv as [Hl Hf]. destruct (lookup_lt_is_Some_2 v (Z.to_nat p)) as [x Hx]; [lia|].
  rewrite Hx. f_equal. unfold at_. rewrite Hx. simpl.
  pose proof (Forall_lookup_1 _ _ _ _ Hf Hx) as Hr. simpl in Hr. unfold u32.
  rewrite Zminus_mod_idemp_l. replace (x + mix sum p v - mix sum p v) with x by lia. by rewrite Z.mod_small.
Qed.

Lemma words_enc sum p v : words v → 0 <= p <= n → words (enc_at sum p v).
Proof. intros. by apply words_insert. Qed.

(** What the code does to one word. *)
Lemma enc_word_ok sum p v y : words v → 0 <= p <= n →
  enc_word k sum (sum_e sum) p (after p) (mk_xtea v y (at_ v (before p))) =
  Some (mk_xtea (enc_at sum p v) (at_ v (after p)) (at_ (enc_at sum p v) p)).
Proof.
  intros Hv Hp. destruct (neighbours p Hp) as (Hb & Ha & _). unfold enc_word. cbn [xv xz].
  rewrite (arr_get_at v (after p)) by done. cbn [mbind option_bind]. rewrite mx_some. cbn [mbind option_bind].
  rewrite (arr_get_at v p) by done. cbn [mbind option_bind]. destruct Hv as [Hl Hf]. rewrite arr_set_some by lia.
  cbn [mbind option_bind]. unfold enc_at at 2. rewrite at_insert_eq by (done || lia). done.
Qed.

Lemma dec_word_ok sum p v z : words v → 0 <= p <= n →
  dec_word k sum (sum_e sum) p (before p) (mk_xtea v (at_ v (after p)) z) =
  Some (mk_xtea (dec_at sum p v) (at_ (dec_at sum p v) p) (at_ v (before p))).
Proof.
  intros Hv Hp. destruct (neighbours p Hp) as (Hb & Ha & _). unfold dec_word. cbn [xv xy].
  rewrite (arr_get_at v (before p)) by done. cbn [mbind option_bind]. rewrite mx_some. cbn [mbind option_bind].
  rewrite (arr_get_at v p) by done. cbn [mbind option_bind]. destruct Hv as [Hl Hf]. rewrite arr_set_some by lia.
  cbn [mbind option_bind]. unfold dec_at at 2. rewrite at_insert_eq by (done || lia). done.
Qed.

(** The first [m] words of a round. *)
Fixpoint enc_upto (sum : Z) (m : nat) (v : list Z) : list Z :=
  match m with
  | O => v
  | S m' => enc_at sum (Z.of_nat m') (enc_upto sum m' v)
  end.

Lemma words_upto sum m v : words v → Z.of_nat m <= n + 1 → words (enc_upto sum m v).
Proof. induction m as [|m IH]; intros; simpl; [done|]. apply words_enc; [|lia]. apply IH; [done|lia]. Qed.

Lemma enc_for_ok m p sum v0 y : words v0 → Z.of_nat (p + m) <= n →
  ∃ y', enc_for m k sum (sum_e sum) (Z.of_nat p) (mk_xtea (enc_upto sum p v0) y (at_ (enc_upto sum p v0) (before (Z.of_nat p)))) =
  Some (mk_xtea (enc_upto sum (p + m) v0) y' (at_ (enc_upto sum (p + m) v0) (before (Z.of_nat (p + m))))).
Proof.
  intros Hv. revert p y. induction m as [|m IH]; intros p y Hm; cbn [enc_for].
  { exists y. by rewrite Nat.add_0_r. }
  pose proof (words_upto sum p v0 Hv ltac:(lia)) as Hw.
  assert (Ha : after (Z.of_nat p) = Z.of_nat p + 1) by (unfold after; zcases).
  rewrite <- Ha, enc_word_ok by (done || lia). cbn [mbind option_bind].
  destruct (IH (S p) (at_ (enc_upto sum p v0) (after (Z.of_nat p)))) as [y' He]; [lia|]. exists y'.
  rewrite Ha. replace (Z.of_nat p + 1) with (Z.of_nat (S p)) by lia.
  assert (Hb : before (Z.of_nat (S p)) = Z.of_nat p) by (unfold before; zcases).
  rewrite Hb in He. cbn [enc_upto] in He. replace (Z.of_nat p + 1) with (Z.of_nat (S p)) in Ha by lia.
  rewrite Ha in He. rewrite Nat.add_succ_r, <- Nat.add_succ_l. exact He.
Qed.

Lemma dec_for_ok p sum v0 z : words v0 → Z.of_nat p <= n →
  ∃ z', dec_for p k sum (sum_e sum) (mk_xtea (enc_upto sum (S p) v0) (at_ (enc_upto sum (S p) v0) (after (Z.of_nat p))) z) =
  Some (mk_xtea (enc_upto sum 1 v0) (at_ (enc_upto sum 1 v0) (after 0)) z').
Proof.
  intros Hv. revert z. induction p as [|p IH]; intros z Hp; cbn [dec_for]; [by eauto|].
  assert (Hb : before (Z.of_nat (S p)) = Z.of_nat p) by (unfold before; zcases).
  rewrite <- Hb, dec_word_ok by (try apply words_upto; done || lia). cbn [mbind option_bind].
  cbn [enc_upto] in *. rewrite dec_enc_at by (try apply (words_upto sum (S p)); done || lia).
  destruct (IH (at_ (enc_at sum (Z.of_nat (S p)) (enc_upto sum (S p) v0)) (before (Z.of_nat (S p))))) as [z' He]; [lia|].
  cbn [enc_upto] in He. exists z'. rewrite <- He.
  assert (Ha : after (Z.of_nat p) = Z.of_nat (S p)) by (unfold after; zcases). by rewrite Ha.
Qed.

(** [j] whole rounds. *)
Definition sum_at (j : nat) : Z := u32 (Z.of_nat j * XTEA_DELTA).

Fixpoint enc_rounds (j : nat) (v : list Z) : list Z :=
  match j with
  | O => v
  | S j' => enc_upto (sum_at (S j')) (S (Z.to_nat n)) (enc_rounds j' v)
  end.

Lemma words_rounds j v : words v → words (enc_rounds j v).
Proof. intros. induction j; simpl; [done|]. apply (words_upto _ (S (Z.to_nat n))); [done|lia]. Qed.

Lemma sum_at_succ j : u32 (sum_at j + XTEA_DELTA) = sum_at (S j).
Proof. unfold sum_at, u32. rewrite Zplus_mod_idemp_l. f_equal. lia. Qed.

Lemma sum_at_pred j : u32 (sum_at (S j) - XTEA_DELTA) = sum_at j.
Proof. unfold sum_at, u32. rewrite Zminus_mod_idemp_l. f_equal. lia. Qed.

(** The sum does not come back to zero before the last round. *)
Lemma sum_at_nonzero j : (1 <= j <= 32)%nat → sum_at j ≠ 0.
Proof.
  intros Hj. do 33 (destruct j as [|j]; [try lia; vm_compute; discriminate|]). lia.
Qed.

Lemma before_0 : before 0 = n.
Proof. reflexivity. Qed.

Lemma after_n : after n = 0.
Proof. unfold after. by rewrite Z.eqb_refl. Qed.

Lemma enc_while_ok q j v y : words v →
  ∃ y', enc_while q n k (sum_at j) (mk_xtea (enc_rounds j v) y (at_ (enc_rounds j v) n)) =
  Some (mk_xtea (enc_rounds (j + q) v) y' (at_ (enc_rounds (j + q) v) n)).
Proof.
  intros Hv. revert j y. induction q as [|q IH]; intros j y; cbn [enc_while].
  { exists y. by rewrite Nat.add_0_r. }
  rewrite sum_at_succ. pose proof (words_rounds j v Hv) as Hw.
  destruct (enc_for_ok (Z.to_nat n) 0 (sum_at (S j)) (enc_rounds j v) y Hw) as [y1 He]; [lia|].
  cbn [enc_upto Nat.add] in He. change (Z.of_nat 0) with 0 in He. rewrite before_0, Z2Nat.id in He by lia.
  rewrite He. cbn [mbind option_bind].
  pose proof (enc_word_ok (sum_at (S j)) n (enc_upto (sum_at (S j)) (Z.to_nat n) (enc_rounds j v)) y1) as Hew.
  rewrite after_n in Hew. rewrite Hew by (try apply words_upto; done || lia). cbn [mbind option_bind].
  destruct (IH (S j) (at_ (enc_upto (sum_at (S j)) (Z.to_nat n) (enc_rounds j v)) 0)) as [y' He'].
  exists y'. cbn [enc_rounds enc_upto] in He'. rewrite Z2Nat.id in He' by lia.
  rewrite Nat.add_succ_r, <- Nat.add_succ_l. exact He'.
Qed.

Lemma dec_while_ok fuel j v z : words v → (j <= fuel)%nat → (j <= 32)%nat →
  ∃ s, dec_while fuel n k (sum_at j) (mk_xtea (enc_rounds j v) (at_ (enc_rounds j v) 0) z) = Some s ∧ xv s = v.
Proof.
  intros Hv. revert fuel z. induction j as [|j IH]; intros fuel z Hf Hj.
  { destruct fuel; cbn [dec_while enc_rounds]; change (sum_at 0 =? 0) with true; cbv iota; eauto. }
  destruct fuel as [|fuel]; [lia|]. cbn [dec_while].
  rewrite (proj2 (Z.eqb_neq _ 0)) by (apply sum_at_nonzero; lia).
  pose proof (words_rounds j v Hv) as Hw. cbn [enc_rounds].
  destruct (dec_for_ok (Z.to_nat n) (sum_at (S j)) (enc_rounds j v) z Hw) as [z1 He]; [lia|].
  rewrite Z2Nat.id, after_n in He by lia. rewrite He. cbn [mbind option_bind].
  pose proof (dec_word_ok (sum_at (S j)) 0 (enc_upto (sum_at (S j)) 1 (enc_rounds j v)) z1) as Hdw.
  rewrite before_0 in Hdw. rewrite Hdw by (try apply words_upto; done || lia). cbn [mbind option_bind].
  cbn [enc_upto]. change (Z.of_nat 0) with 0. rewrite dec_enc_at by (done || lia). rewrite sum_at_pred.
  apply IH; lia.
Qed.
End rounds.

Lemma rounds_range len : 2 <= len → 0 <= 52 / len <= 26.
Proof. intros. split; [apply Z.div_pos; lia|apply Z.div_le_upper_bound; lia]. Qed.

Lemma xtea_init_ok v : 2 <= Z.of_nat (length v) < 2 ^ 32 →
  xtea_init v (Z.of_nat (length v)) =
  Some (Z.of_nat (length v) - 1, 6 + 52 / Z.of_nat (length v), mk_xtea v (at_ v 0) (at_ v (Z.of_nat (length v) - 1))).
Proof.
  intros Hl. pose proof (rounds_range (Z.of_nat (length v)) ltac:(lia)). unfold xtea_init. rewrite !(u32_small (Z.of_nat (length v) - 1)) by lia.
  replace (Z.of_nat (length v) - 1 + 1) with (Z.of_nat (length v)) by lia. rewrite u32_small by lia.
  rewrite (proj2 (Z.eqb_neq _ 0)) by lia. rewrite u32_small by lia.
  rewrite !arr_get_lookup by lia. unfold at_.
  destruct (lookup_lt_is_Some_2 v (Z.to_nat (Z.of_nat (length v) - 1))) as [x ->]; [lia|].
  destruct (lookup_lt_is_Some_2 v (Z.to_nat 0)) as [y ->]; [lia|]. done.
Qed.

Lemma xtea_words_roundtrip k v :
  (16 <= length k)%nat → Forall (λ w, 0 <= w < 2 ^ 32) v → 1 <= Z.of_nat (length v) < 2 ^ 32 →
  ∃ c, _xtea_encrypt_ v (Z.of_nat (length v)) k = Some c ∧ length c = length v ∧ Forall (λ w, 0 <= w < 2 ^ 32) c ∧
    _xtea_decrypt_ c (Z.of_nat (length v)) k = Some v.
Proof.
  intros Hk Hf Hl. destruct (decide (length v = 1%nat)) as [H1|H1].
  - destruct v as [|x [|]]; try done. exists [x]. unfold _xtea_encrypt_, _xtea_decrypt_, xtea_init.
    change (Z.of_nat (length [x])) with 1. change (u32 (1 - 1)) with 0. cbn. done.
  - set (n := Z.of_nat (length v) - 1). set (q := Z.to_nat (6 + 52 / Z.of_nat (length v))).
    assert (Hv : words n v) by (split; [unfold n; lia|done]).
    pose proof (rounds_range (Z.of_nat (length v)) ltac:(lia)).
    assert (Hq : (q <= 32)%nat) by (unfold q; lia).
    unfold _xtea_encrypt_. rewrite xtea_init_ok by lia. cbn [mbind option_bind]. fold n q.
    destruct (enc_while_ok k Hk n ltac:(lia) q 0 v (at_ v 0) Hv) as [y' He].
    change (sum_at 0) with 0 in He. cbn [enc_rounds Nat.add] in He. rewrite He.
    rewrite (proj2 (Z.ltb_ge n 1)) by lia. cbn [mbind option_bind xv].
    pose proof (words_rounds k Hk n ltac:(lia) q v Hv) as [Hlc Hfc].
    exists (enc_rounds k n q v). assert (Hlen : length (enc_rounds k n q v) = length v) by lia. split_and!; auto.
    unfold _xtea_decrypt_. rewrite <- Hlen at 1. rewrite xtea_init_ok by lia. cbn [mbind option_bind]. rewrite Hlen. fold n q.
    rewrite (proj2 (Z.ltb_ge n 1)) by lia.
    destruct (dec_while_ok k Hk n ltac:(lia) q q v (at_ (enc_rounds k n q v) n)) as (s & Hd & Hs); auto.
    unfold sum_at in Hd. replace (Z.of_nat q) with (6 + 52 / Z.of_nat (length v)) in Hd by (unfold q; lia).
    rewrite Hd. cbn [mbind option_bind]. by rewrite Hs.
Qed.

(** ** Words and bytes *)

Lemma to_words_length n l : length (to_words n l) = n.
Proof. revert l. induction n; intros; simpl; auto. Qed.

Lemma of_words_length ws : length (of_words ws) = (4 * length ws)%nat.
Proof. induction ws as [|w ws IH]; [done|]. cbn [of_words]. rewrite length_app, le_bytes_length, IH. simpl. lia. Qed.

Lemma to_words_range n l : Forall is_byte l → (4 * n <= length l)%nat → Forall (λ w, 0 <= w < 2 ^ 32) (to_words n l).
Proof.
  revert l. induction n as [|n IH]; intros l Hb Hl; simpl; constructor.
  - pose proof (le_val_range (take 4 l) (Forall_take _ _ _ Hb)) as Hr. rewrite length_take, Nat.min_l in Hr by lia.
    exact Hr.
  - apply IH; [by apply Forall_drop|rewrite length_drop; lia].
Qed.

Lemma of_to_words n l : Forall is_byte l → (4 * n <= length l)%nat → of_words (to_words n l) = take (4 * n) l.
Proof.
  revert l. induction n as [|n IH]; intros l Hb Hl; [done|]. cbn [to_words of_words].
  rewrite IH by (try apply Forall_drop; rewrite ?length_drop; done || lia).
  assert (He : le_bytes 4 (le_val (take 4 l)) = take 4 l).
  { rewrite <- (le_bytes_val (take 4 l)) at 2 by (by apply Forall_take). by rewrite length_take, Nat.min_l by lia. }
  rewrite He, take_take_drop. f_equal. lia.
Qed.

Lemma to_of_words ws l : Forall (λ w, 0 <= w < 2 ^ 32) ws → to_words (length ws) (of_words ws ++ l) = ws.
Proof.
  induction 1 as [|w ws Hw _ IH]; [done|]. cbn [length to_words of_words]. rewrite <- app_assoc.
  rewrite take_app_length', drop_app_length' by (by rewrite le_bytes_length). rewrite IH, le_val_bytes.
  f_equal. apply Z.mod_small. exact Hw.
Qed.

Lemma of_words_bytes ws : Forall is_byte (of_words ws).
Proof. induction ws; cbn [of_words]; [constructor|]. apply Forall_app. split; [apply le_bytes_bytes|done]. Qed.

Lemma xtea_bytes_roundtrip data k :
  (16 <= length k)%nat → Forall is_byte data → 4 <= Z.of_nat (length data) < 2 ^ 31 →
  ∃ c, xtea_encrypt data (Z.of_nat (length data)) k = Some c ∧ length c = length data ∧ Forall is_byte c ∧
    xtea_decrypt c (Z.of_nat (length data)) k = Some data.
Proof.
  intros Hk Hb Hl. set (n := Z.of_nat (length data) / 4).
  assert (Hn : 1 <= n < 2 ^ 32 ∧ 4 * n <= Z.of_nat (length data)) by (unfold n; dlia).
  pose proof (to_words_length (Z.to_nat n) data) as Hwl. set (ws := to_words (Z.to_nat n) data) in *.
  assert (Hlw : Z.of_nat (length ws) = n) by lia.
  destruct (xtea_words_roundtrip k ws) as (c & He & Hlc & Hfc & Hd); auto; [|lia|].
  { apply to_words_range; [done|lia]. }
  exists (of_words c ++ drop (Z.to_nat (4 * n)) data). unfold xtea_encrypt, xtea_decrypt, on_words. fold n ws.
  rewrite Hlw in He, Hd. rewrite He. cbn [mbind option_bind]. split_and!.
  - done.
  - rewrite length_app, of_words_length, length_drop. lia.
  - apply Forall_app. split; [apply of_words_bytes|by apply Forall_drop].
  - rewrite <- Hwl, <- Hlc, to_of_words, Hd by done. cbn [mbind option_bind].
    rewrite drop_app_length' by (rewrite of_words_length; lia).
    unfold ws. rewrite of_to_words by (done || lia).
    replace (4 * Z.to_nat n)%nat with (Z.to_nat (4 * n)) by lia. by rewrite take_drop.
Qed.

(** The block after the check of its size: there is room for the data, or the
    data is too large for any block. *)
Lemma crypt_block b n : block_ok b → 0 < n <= INT_MAX →
  (∃ b1, (if Z.of_nat (length b) <? n then expand_buffer (Z.of_nat (length b)) (i32 n) else Ok b) = Ok b1 ∧ block_ok b1 ∧ n <= Z.of_nat (length b1)) ∨
  ((if Z.of_nat (length b) <? n then expand_buffer (Z.of_nat (length b)) (i32 n) else Ok b) = Fail ∧ Z.of_nat (length b) < n ∧ ENCODE_MAXSIZE < 2 * n).
Proof.
  intros [Hb1 Hb2] Hn. destruct (Z.ltb_spec (Z.of_nat (length b)) n) as [Hlt|Hge]; [|left; exists b; by split_and!].
  rewrite i32_small by (unfold INT_MIN; lia). unfold expand_buffer, INT_MAX in *. pose proof (expand_size_ok 32 (Z.of_nat (length b)) n ltac:(lia) ltac:(lia)) as He.
  destruct (Z.ltb_spec ENCODE_MAXSIZE (expand_size 32 (Z.of_nat (length b)) n)).
  - right. split_and!; [done|done|lia].
  - left. eexists. split; [done|]. unfold block_ok, malloc. rewrite length_replicate. lia.
Qed.

(** In a block with room the data is replaced by its image. *)
Lemma crypt_in_block f data key b c : block_ok b → 0 < Z.of_nat (length data) <= Z.of_nat (length b) →
  f data (Z.of_nat (length data)) (key ++ [0]) = Some c → length c = length data →
  ∃ b', lxteacrypt f data key b = Ok (c, b') ∧ length b' = length b.
Proof.
  intros [Hb1 Hb2] Hl Hf Hc. unfold ENCODE_MAXSIZE in Hb2. unfold lxteacrypt. rewrite (proj2 (Z.ltb_ge _ _)) by lia. cbn [mbind res_bind].
  destruct (put_has b 0 data) as (b1 & -> & Hh1 & Hs1); [lia|lia|]. cbn [mbind res_bind]. pose proof (proj1 Hs1) as Hl1.
  rewrite (fetch_ok b1 0 data) by (done || lia). cbn [mbind res_bind]. rewrite i32_small by (unfold INT_MIN, INT_MAX; lia). rewrite Hf. cbn [defined mbind res_bind].
  destruct (put_has b1 0 c) as (b2 & -> & Hh2 & Hs2); [lia|lia|]. cbn [mbind res_bind]. pose proof (proj1 Hs2) as Hl2.
  rewrite (fetch_ok b2 0 c) by (done || lia). cbn [mbind res_bind]. exists b2. split; [done|lia].
Qed.

(** C40. A message of at least four bytes (and less than 2^31), with a key of at
    least fifteen (the byte after the string is the sixteenth): encryption in
    place succeeds, keeps the length, and decryption with the same key restores
    the message.  [lxteaencrypt] returns the same bytes, in a block that
    [lxteadecrypt] then restores the message in; it fails only for a message
    that does not fit the block and is more than half of [ENCODE_MAXSIZE], and
    touches nothing outside its block. *)
Theorem xtea_roundtrip data key b :
  Forall is_byte data → (15 <= length key)%nat → 4 <= Z.of_nat (length data) <= INT_MAX → block_ok b →
  ∃ c, lxteaencrypt_c key data = Some c ∧ length c = length data ∧ lxteadecrypt_c key c = Some data ∧
    match lxteaencrypt data key b with
    | Ok (out, b') => out = c ∧ block_ok b' ∧ ∃ b'', lxteadecrypt out key b' = Ok (data, b'')
    | Fail => Z.of_nat (length b) < Z.of_nat (length data) ∧ ENCODE_MAXSIZE < 2 * Z.of_nat (length data)
    | Undef => False
    end.
Proof.
  intros Hb Hk Hl Hbl. destruct (xtea_bytes_roundtrip data (key ++ [0])) as (c & He & Hlc & _ & Hd);
    [rewrite length_app; simpl; lia|done|unfold INT_MAX in *; lia|].
  exists c. unfold lxteaencrypt_c, lxteadecrypt_c, lxteacrypt_c. rewrite Hlc, i32_small by (unfold INT_MIN; lia). split_and!; [done|done|done|].
  unfold lxteaencrypt. destruct (crypt_block b (Z.of_nat (length data)) Hbl ltac:(lia)) as [(b1 & Hb1 & Hk1 & Hr)|(Hf & H1 & H2)].
  - assert (lxteacrypt xtea_encrypt data key b = lxteacrypt xtea_encrypt data key b1) as ->.
    { unfold lxteacrypt at 1. rewrite Hb1. unfold lxteacrypt. rewrite (proj2 (Z.ltb_ge _ (Z.of_nat (length data)))) by lia. done. }
    destruct (crypt_in_block xtea_encrypt data key b1 c Hk1) as (b2 & -> & Hl2); [lia|done|done|].
    assert (Hk2 : block_ok b2) by (unfold block_ok in *; by rewrite Hl2). split; [done|]. split; [done|].
    destruct (crypt_in_block xtea_decrypt c key b2 data Hk2) as (b3 & Hd3 & _); [lia|by rewrite Hlc|done|]. exists b3. exact Hd3.
  - unfold lxteacrypt. rewrite Hf. done.
Qed.

Lemma xtea_roundtrip_witness :
  ∃ c, lxteaencrypt_c (replicate 15 9) (replicate 11 200) = Some c ∧ length c = 11%nat ∧
    lxteadecrypt_c (replicate 15 9) c = Some (replicate 11 200) ∧
    match lxteaencrypt (replicate 11 200) (replicate 15 9) (malloc 2) with
    | Ok (out, b') => out = c ∧ block_ok b' ∧ ∃ b'', lxteadecrypt out (replicate 15 9) b' = Ok (replicate 11 200, b'')
    | Fail => Z.of_nat (length (malloc 2)) < 11 ∧ ENCODE_MAXSIZE < 2 * 11
    | Undef => False
    end.
Proof.
  apply (xtea_roundtrip (replicate 11 200) (replicate 15 9) (malloc 2)); [|simpl; lia|vm_compute; split; congruence|vm_compute; split; congruence].
  repeat constructor; unfold is_byte; simpl; lia.
Defined.
