(* ===== verification/SprotoSafe.v ===== *)
(** * Decoding bytes from the network

    [ldecode] is given what a client sent.  Whatever the bytes are, it ends
    without reading outside of them, with a table, or raises an error: provided
    that no length in them is within four of 2^32 (where the check of the length
    wraps, see [decode_overread]) and that the schema uses main indices as its
    compiler lets it (see [single_main_index]).

    [safe Q r] is the postcondition of a computation that may fail but does
    nothing undefined. *)

From Stdlib Require Import ZArith Lia.
From stdpp Require Import base tactics option numbers list strings.
From S2P Require Import Prelude Libc SprotoPack SprotoTypes SprotoCodec SprotoWire SprotoLua SprotoDecode SprotoRound.

Definition safe {A} (Q : A → Prop) (r : res A) : Prop :=
  match r with Ok a => Q a | Fail => True | Undef => False end.

Lemma safe_bind {A B} (P : A → Prop) (Q : B → Prop) (m : res A) (k : A → res B) :
  safe P m → (∀ a, P a → safe Q (k a)) → safe Q (m ≫= k).
Proof. destruct m; cbn; auto. Qed.

Lemma safe_defined {A B} (Q : B → Prop) (o : option A) (k : A → res B) a :
  o = Some a → safe Q (k a) → safe Q (defined o ≫= k).
Proof. by intros ->. Qed.

(** ** What is asked of the message and the schema *)

Definition no_wrap (d : list Z) : bool :=
  forallb (λ p, match todword d p with Some v => v <? 2 ^ 32 - 4 | None => true end) (seqZ 0 (Z.of_nat (length d))).

(** A single structure of [st] is not its main index. *)
Definition main_ok (st : sproto_type) (tag : Z) : Prop :=
  Forall (λ g, is_array g = false → elt_type g = SPROTO_TSTRUCT → f_tag g ≠ tag) (t_f st).

Definition schema_keys (sp : sproto) : Prop :=
  Forall (λ st, Forall (λ f, is_map f = true → is_array f = true ∧ main_ok (subtype sp f) (f_key f)) (t_f st)) (s_type sp).

Definition keyable (v : lua_value) : Prop := match v with LTable _ | LOther => False | _ => True end.

Lemma to_key_safe v : keyable v → safe (λ _, True) (to_key v).
Proof. by destruct v as [| | |[]| | |]. Qed.

Section Safe.
Context (sp : sproto) (Hsp : wf_sproto sp) (Hkeys : schema_keys sp).
Context (d : list Z) (Hd : Forall is_byte d) (Hlen : Z.of_nat (length d) <= INT_MAX) (Hwrap : no_wrap d = true).
Notation tn := (type_n sp).
Notation N := (Z.of_nat (length d)).

(** ** Reading *)

Lemma get_safe p : 0 <= p < N → ∃ v, arr_get d p = Some v ∧ is_byte v.
Proof. intros Hp. destruct (arr_get_some d p Hp) as [v Hv]. exists v. split; [done|]. by eapply arr_get_byte. Qed.

Lemma toword_safe p : 0 <= p → p + 2 <= N → ∃ v, toword d p = Some v ∧ 0 <= v < 65536.
Proof.
  intros Hp Hb. destruct (get_safe p ltac:(lia)) as (b0 & H0 & _). destruct (get_safe (p + 1) ltac:(lia)) as (b1 & H1 & _).
  assert (∃ v, toword d p = Some v) as [v Hv] by (unfold toword; rewrite H0; cbn; rewrite H1; by eexists).
  exists v. split; [done|]. by eapply toword_range.
Qed.

Lemma todword_safe p : 0 <= p → p + 4 <= N → ∃ v, todword d p = Some v ∧ 0 <= v < 2 ^ 32 - 4.
Proof.
  intros Hp Hb. destruct (get_safe p ltac:(lia)) as (b0 & H0 & _). destruct (get_safe (p + 1) ltac:(lia)) as (b1 & H1 & _).
  destruct (get_safe (p + 2) ltac:(lia)) as (b2 & H2 & _). destruct (get_safe (p + 3) ltac:(lia)) as (b3 & H3 & _).
  assert (∃ v, todword d p = Some (u32 v)) as [v Hv]
    by (unfold todword; rewrite H0; cbn; rewrite H1; cbn; rewrite H2; cbn; rewrite H3; by eexists).
  exists (u32 v). split; [done|]. pose proof Hwrap as Hw. unfold no_wrap in Hw. rewrite forallb_forall in Hw.
  specialize (Hw p ltac:(apply list_elem_of_In, elem_of_seqZ; lia)). rewrite Hv in Hw. bool_to_prop.
  pose proof (u32_range v). lia.
Qed.

(** ** The state of the callback *)

(** The array of the field [f] is not open, or it is the table it stores into. *)
Definition arr_ok (f : field) (self : decode_ud) : Prop :=
  is_array f = true → d_array_tag self ≠ Some (f_tag f) ∨
  (d_array self = Some (name_of f) ∧ ∃ a, tget (d_result self) (KString (name_of f)) = LTable a).

Record level (st : sproto_type) (deep : Z) (self : decode_ud) : Prop := {
  lv_deep : d_deep self = deep;
  lv_main : main_ok st (d_mainindex_tag self);
  lv_key : keyable (d_key self)
}.

(** No array with a tag above [tag] is open. *)
Definition closed_after (tag : Z) (self : decode_ud) : Prop := ∀ t, d_array_tag self = Some t → t <= tag.

(** After a call for the field [f] that was given [self]. *)
Definition called (st : sproto_type) (deep : Z) (f : field) (self self' : decode_ud) : Prop :=
  level st deep self' ∧ arr_ok f self' ∧ ∀ tag, f_tag f <= tag → closed_after tag self → closed_after tag self'.

Lemma called_refl st deep f self : level st deep self → arr_ok f self → called st deep f self self.
Proof. intros Hl Ha. by split; [|split]. Qed.

Lemma called_trans st deep f s1 s2 s3 : called st deep f s1 s2 → called st deep f s2 s3 → called st deep f s1 s3.
Proof. intros (? & ? & H1) (? & ? & H2). split; [done|]. split; [done|eauto]. Qed.

Lemma closed_arr_ok f tag self : closed_after tag self → tag < f_tag f → arr_ok f self.
Proof. intros Hc Ht _. left. intros E. specialize (Hc _ E). lia. Qed.

(** A callback that is safe for the fields of [st]. *)
Definition cb_safe (cb : sproto_arg → decode_ud → res (Z * decode_ud)) (deep : Z) : Prop := ∀ st f args self,
  wf_type tn st → Forall (λ f, is_map f = true → is_array f = true ∧ main_ok (subtype sp f) (f_key f)) (t_f st) →
  f ∈ t_f st → args_for f (a_index args) args →
  (is_array f = false → a_index args = 0) → (is_array f = true → a_index args ≠ 0) →
  (elt_type f = SPROTO_TINTEGER ∨ elt_type f = SPROTO_TBOOLEAN → 0 < a_index args ∨ a_index args = 0 → is_Some (a_word args)) →
  (elt_type f = SPROTO_TSTRING ∨ elt_type f = SPROTO_TSTRUCT →
     ∃ p, a_value args = Some p ∧ 0 <= p ∧ 0 <= a_length args ∧ p + a_length args <= N) →
  (a_index args < 0 → d_array_tag self ≠ Some (f_tag f)) →
  level st deep self → arr_ok f self →
  safe (λ x, called st deep f self x.2) (cb args self).

(** ** Storing *)

Lemma store_safe st deep f args self v :
  wf_type tn st → f ∈ t_f st → args_for f (a_index args) args → (is_array f = false → a_index args = 0) →
  (is_array f = true → 0 < a_index args ∧ d_array_tag self = Some (f_tag f)) →
  level st deep self → arr_ok f self → v ≠ LNil → (keyable v ∨ elt_type f = SPROTO_TSTRUCT) →
  safe (λ self', called st deep f self self') (decode_store args self v).
Proof.
  intros Hst Hf Ha Hs Harr [Hdp Hm Hk] Hao Hv Hkv. unfold decode_store. destruct (Z.ltb_spec 0 (a_index args)) as [Hi|Hi].
  - destruct (is_array f) eqn:E; [|specialize (Hs eq_refl); lia]. destruct (Harr eq_refl) as [_ Htag].
    destruct (Hao E) as [?|[Hn [a Hg]]]; [done|]. unfold array_assign. rewrite Hn. cbn [defined mbind res_bind]. rewrite Hg. cbn.
    split; [by split|]. split; [|by intros]. intros _. right. split; [done|]. exists (tset a (KInteger (a_index args)) v).
    cbn. by rewrite tget_tset.
  - destruct (is_array f) eqn:E; [destruct (Harr eq_refl); lia|]. cbn. split; [|split; [congruence|]].
    + destruct (Z.eqb_spec (d_mainindex_tag self) (a_tagid args)) as [Et|]; split; cbn; try done.
      destruct Hkv as [?|Ht]; [done|]. unfold main_ok in Hm. rewrite Forall_forall in Hm. specialize (Hm f Hf E Ht).
      rewrite (af_tag _ _ _ Ha) in Et. by symmetry in Et.
    + intros tag _ Hc. by destruct (d_mainindex_tag self =? a_tagid args).
Qed.

(** ** The decoder with a safe callback *)

Section Calls.
Context (cb : sproto_arg → decode_ud → res (Z * decode_ud)) (deep : Z) (Hcb : cb_safe cb deep).
Context (st : sproto_type) (Hst : wf_type tn st).
Context (Hmaps : Forall (λ f, is_map f = true → is_array f = true ∧ main_ok (subtype sp f) (f_key f)) (t_f st)).
Context (f : field) (name : list Z) (Hf : f ∈ t_f st) (Hname : f_name f = Some name).

Lemma word_safe v i self :
  elt_type f = SPROTO_TINTEGER ∨ elt_type f = SPROTO_TBOOLEAN → 0 <= i → (is_array f = false → i = 0) → (is_array f = true → i ≠ 0) →
  level st deep self → arr_ok f self → safe (λ x, called st deep f self x.2) (cb (arg_word (arg_of f name) v i) self).
Proof.
  intros Ht Hi H0 H1 Hl Ha. apply (Hcb st); cbn; try done; [|lia].
  intros [E|E]; destruct Ht as [Ht|Ht]; rewrite Ht in E; done.
Qed.

Lemma object_safe p len i self :
  elt_type f = SPROTO_TSTRING ∨ elt_type f = SPROTO_TSTRUCT → 0 <= p → 0 <= len → p + len <= N →
  0 <= i → (is_array f = false → i = 0) → (is_array f = true → i ≠ 0) →
  level st deep self → arr_ok f self → safe (λ x, called st deep f self x.2) (cb (arg_at (arg_of f name) p len i) self).
Proof.
  intros Ht Hp Hl0 Hb Hi H0 H1 Hl Ha. apply (Hcb st); cbn; try done; [|by exists p|lia].
  intros [E|E]; destruct Ht as [Ht|Ht]; rewrite Ht in E; done.
Qed.

Lemma numbers_safe fuel rd n i self :
  is_array f = true → elt_type f = SPROTO_TINTEGER ∨ elt_type f = SPROTO_TBOOLEAN →
  0 <= i <= n → n - i < Z.of_nat fuel → (∀ j, i <= j < n → is_Some (rd j)) → level st deep self → arr_ok f self →
  safe (called st deep f self) (array_number_loop cb fuel (arg_of f name) rd self n i).
Proof.
  intros Harr Ht. revert i self. induction fuel as [|fuel IH]; intros i self Hi Hn Hrd Hl Ha; cbn [array_number_loop].
  { lia. }
  destruct (Z.ltb_spec i n); [|by apply called_refl]. destruct (Hrd i ltac:(lia)) as [v Hv]. eapply safe_defined; [done|].
  eapply safe_bind; [apply word_safe; [done|lia|congruence|lia|done|done]|]. intros [r self'] Hc. cbn in Hc |- *.
  pose proof Hc as (Hl' & Ha' & _). pose proof (IH (i + 1) self' ltac:(lia) ltac:(lia) ltac:(intros j Hj; apply Hrd; lia) Hl' Ha') as Hs.
  destruct (array_number_loop _ _ _ _ _ _ _); cbn in *; [|done|done]. by eapply called_trans.
Qed.

Lemma objects_safe fuel stream sz i self :
  is_array f = true → elt_type f = SPROTO_TSTRING ∨ elt_type f = SPROTO_TSTRUCT →
  0 <= stream → 0 <= sz → stream + sz <= N → sz < Z.of_nat fuel → 0 < i → level st deep self → arr_ok f self →
  safe (λ x, called st deep f self x.2) (array_object_loop cb d fuel (arg_of f name) self stream sz i).
Proof.
  intros Harr Ht. revert stream sz i self. induction fuel as [|fuel IH]; intros stream sz i self Hs Hz Hb Hn Hi Hl Ha; [lia|].
  cbn [array_object_loop]. destruct (Z.ltb_spec 0 sz); [|by apply called_refl].
  destruct (Z.ltb_spec sz SIZEOF_LENGTH) as [|H4]; [by apply called_refl|]. unfold SIZEOF_LENGTH in *.
  destruct (todword_safe stream ltac:(lia) ltac:(lia)) as (hsz & Hw & Hr). eapply safe_defined; [done|]. cbv zeta.
  destruct (Z.ltb_spec (sz - 4) hsz); [by apply called_refl|].
  eapply safe_bind; [apply object_safe; [done|lia|lia|lia|lia|congruence|lia|done|done]|]. intros [r self'] Hc. cbn in Hc |- *.
  destruct (negb (r =? 0)); [done|]. pose proof Hc as (Hl' & Ha' & _).
  pose proof (IH (stream + 4 + hsz) (sz - 4 - hsz) (i + 1) self' ltac:(lia) ltac:(lia) ltac:(lia) ltac:(lia) ltac:(lia) Hl' Ha') as Hs'.
  destruct (array_object_loop _ _ _ _ _ _ _ _) as [[r' s']| |]; cbn in *; [|done|done]. by eapply called_trans.
Qed.

(** [decode_array] with the data of the field at [current]. *)
Lemma array_safe current sz self :
  is_array f = true → 0 <= current → todword d current = Some sz → 0 <= sz → current + 4 + sz <= N →
  level st deep self → d_array_tag self ≠ Some (f_tag f) →
  safe (λ x, called st deep f self x.2) (decode_array cb d (arg_of f name) self current).
Proof.
  intros Harr Hc Hsz Hz Hb Hl Hat. assert (Ha : arr_ok f self) by (intros _; by left).
  unfold decode_array. rewrite Hsz. cbn [defined mbind res_bind]. fold (elt_type f). cbn [arg_of a_type]. fold (elt_type f).
  pose proof (Forall_forall (wf_field tn) (t_f st)) as [Hwf _]. specialize (Hwf (wf_fields _ _ Hst) f Hf).
  destruct (wf_elt _ _ Hwf) as [Ht _]. destruct (Z.eqb_spec sz 0) as [->|Hnz].
  { apply (safe_bind (λ x, called st deep f self x.2)); [|by intros [r self'] Hc']. apply (Hcb st); cbn; try done; [congruence| |].
    - intros _ [?|?]; lia.
    - intros _. exists 0. split_and!; [done|lia..]. }
  unfold SIZEOF_LENGTH, SIZEOF_INT32, SIZEOF_INT64 in *.
  assert (Hnum : ∀ fuel rd n, 0 <= n → n < Z.of_nat fuel → (∀ j, 0 <= j < n → is_Some (rd j)) →
    elt_type f = SPROTO_TINTEGER ∨ elt_type f = SPROTO_TBOOLEAN →
    safe (λ x, called st deep f self x.2)
      (ud ← array_number_loop cb fuel (arg_of f name) rd self n 0; Ok (0, ud))).
  { intros fuel rd n Hn0 Hn Hrd Ht'. eapply safe_bind; [apply numbers_safe; try done; lia|]. by intros self' Hc'. }
  destruct (Z.eqb_spec (elt_type f) SPROTO_TINTEGER) as [E|E]; [|destruct (Z.eqb_spec (elt_type f) SPROTO_TBOOLEAN) as [E1|E1]].
  - destruct (get_safe (current + 4) ltac:(lia)) as (len & Hlen' & _). eapply safe_defined; [done|]. cbv zeta.
    destruct (len =? 4).
    { destruct (Z.eqb_spec ((sz - 1) mod 4) 0) as [Em|]; cbn [negb]; [|by apply called_refl].
      apply Hnum; [dlia|dlia| |by left]. intros j Hj.
      destruct (todword_safe (current + 4 + 1 + j * 4) ltac:(lia) ltac:(dlia)) as (v & -> & _). by eexists. }
    destruct (len =? 8); [|by apply called_refl].
    destruct (Z.eqb_spec ((sz - 1) mod 8) 0) as [Em|]; cbn [negb]; [|by apply called_refl].
    apply Hnum; [dlia|dlia| |by left]. intros j Hj.
    destruct (todword_safe (current + 4 + 1 + j * 8) ltac:(lia) ltac:(dlia)) as (v & -> & _).
    destruct (todword_safe (current + 4 + 1 + j * 8 + 4) ltac:(lia) ltac:(dlia)) as (w & -> & _). by eexists.
  - apply Hnum; [lia|lia| |by right]. intros j Hj. destruct (get_safe (current + 4 + j) ltac:(lia)) as (v & -> & _). by eexists.
  - assert (Ho : elt_type f = SPROTO_TSTRING ∨ elt_type f = SPROTO_TSTRUCT) by (by destruct Ht as [?|[?|[?|?]]]; [done|done|left|right]).
    replace ((elt_type f =? SPROTO_TSTRING) || (elt_type f =? SPROTO_TSTRUCT)) with true by (by destruct Ho as [-> | ->]).
    unfold decode_array_object. rewrite i32_small by (unfold INT_MIN; lia). apply objects_safe; try done; lia.
Qed.

(** [decode_data] of any field. *)
Lemma data_safe current sz self :
  0 <= current → todword d current = Some sz → 0 <= sz → current + 4 + sz <= N →
  level st deep self → d_array_tag self ≠ Some (f_tag f) →
  safe (λ x, called st deep f self x.2) (decode_data cb d f (arg_of f name) self current).
Proof.
  intros Hc Hsz Hz Hb Hl Hat. assert (Ha : arr_ok f self) by (intros _; by left). unfold decode_data. fold (is_array f).
  destruct (is_array f) eqn:Harr; [by eapply array_safe|].
  pose proof (Forall_forall (wf_field tn) (t_f st)) as [Hwf _]. specialize (Hwf (wf_fields _ _ Hst) f Hf).
  destruct (wf_elt _ _ Hwf) as [_ ->]; [|done]. rewrite Hsz. cbn [defined mbind res_bind].
  unfold SIZEOF_LENGTH, SIZEOF_INT32, SIZEOF_INT64 in *.
  destruct (Z.eqb_spec (elt_type f) SPROTO_TINTEGER) as [E|E].
  - destruct (Z.eqb_spec sz 4) as [->|].
    { destruct (todword_safe (current + 4) ltac:(lia) ltac:(lia)) as (v & -> & _). cbn [defined mbind res_bind].
      eapply safe_bind; [apply word_safe; [by left|lia|done|congruence|done|done]|]. by intros [r self'] Hc'. }
    destruct (Z.eqb_spec sz 8) as [->|]; cbn [negb]; [|by apply called_refl].
    destruct (todword_safe (current + 4) ltac:(lia) ltac:(lia)) as (v & -> & _).
    destruct (todword_safe (current + 4 + 4) ltac:(lia) ltac:(lia)) as (w & -> & _). cbn [defined mbind res_bind].
    eapply safe_bind; [apply word_safe; [by left|lia|done|congruence|done|done]|]. by intros [r self'] Hc'.
  - destruct ((elt_type f =? SPROTO_TSTRING) || (elt_type f =? SPROTO_TSTRUCT))%bool eqn:Ho; [|by apply called_refl].
    rewrite i32_small by (unfold INT_MIN; lia). apply (safe_bind (λ x, called st deep f self x.2)); [|by intros [r self'] Hc'].
    apply object_safe; try done; [|lia|congruence]. apply orb_true_iff in Ho as [Ho|Ho]; apply Z.eqb_eq in Ho; auto.
Qed.
End Calls.

Section Structs.
Context (cb : sproto_arg → decode_ud → res (Z * decode_ud)) (deep : Z) (Hcb : cb_safe cb deep).
Context (st : sproto_type) (Hst : wf_type tn st).
Context (Hmaps : Forall (λ f, is_map f = true → is_array f = true ∧ main_ok (subtype sp f) (f_key f)) (t_f st)).

(** One field that was found, with its data or its value. *)
Lemma found_safe f name value current sz self :
  findtag st (f_tag f) = Some f → f_name f = Some name → (value < 0 → 0 <= current ∧ todword d current = Some sz ∧ 0 <= sz ∧ current + 4 + sz <= N) →
  level st deep self → closed_after (f_tag f - 1) self →
  safe (λ x, level st deep x.2 ∧ closed_after (f_tag f) x.2)
    (if value <? 0 then decode_data cb d f (arg_of f name) self current
     else if negb (f_type f =? SPROTO_TINTEGER) && negb (f_type f =? SPROTO_TBOOLEAN) then Ok (-1, self)
     else '(_, ud) ← cb (arg_word (arg_of f name) value 0) self; Ok (0, ud)).
Proof.
  intros Hfind Hname Hdat Hl Hc. apply (findtag_spec tn st _ _ Hst) in Hfind as [Hf _].
  assert (Hat : d_array_tag self ≠ Some (f_tag f)) by (intros E; specialize (Hc _ E); lia).
  assert (Ha : arr_ok f self) by (intros _; by left).
  assert (Hup : ∀ self', called st deep f self self' → level st deep self' ∧ closed_after (f_tag f) self').
  { intros self' (Hl' & _ & Hc'). split; [done|]. apply Hc'; [lia|]. intros t E. specialize (Hc t E). lia. }
  destruct (Z.ltb_spec value 0) as [Hv|Hv].
  - destruct (Hdat Hv) as (H0 & Hsz & H1 & H2).
    pose proof (data_safe cb deep Hcb st Hst Hmaps f name Hf Hname current sz self H0 Hsz H1 H2 Hl Hat) as Hs.
    destruct (decode_data _ _ _ _ _ _) as [[r self']| |]; cbn in *; auto.
  - destruct (negb _ && negb _) eqn:Et; [by apply Hup, called_refl|].
    assert (Ht : f_type f = SPROTO_TINTEGER ∨ f_type f = SPROTO_TBOOLEAN).
    { apply andb_false_iff in Et as [Et|Et]; apply negb_false_iff, Z.eqb_eq in Et; auto. }
    assert (He : elt_type f = f_type f ∧ is_array f = false) by (unfold elt_type, is_array; by destruct Ht as [-> | ->]).
    destruct He as [He Harr]. eapply safe_bind.
    + eapply (word_safe cb deep Hcb st Hst Hmaps f name Hf Hname); try done; [by rewrite He|congruence].
    + intros [r self'] Hc'. by apply Hup.
Qed.

Lemma fields_safe k stream i datastream size tag self :
  0 <= stream → 0 <= i → stream + (i + Z.of_nat k) * 2 <= N → 0 <= datastream → 0 <= size → datastream + size <= N →
  level st deep self → closed_after tag self → -1 <= tag →
  safe (λ x, level st deep x.2 ∧ match x.1 with inl s => 0 <= s <= size | inr r => r = -1 end)
    (decode_fields cb d k st self stream i datastream size tag).
Proof.
  revert i datastream size tag self.
  induction k as [|k IH]; intros i datastream size tag self Hs Hi Hk Hd0 Hz Hb Hl Hc Htag; cbn [decode_fields]; [by cbn; split; [|lia]|].
  unfold SIZEOF_FIELD, SIZEOF_LENGTH in *.
  destruct (toword_safe (stream + i * 2) ltac:(lia) ltac:(lia)) as (value & Hv & Hvr). eapply safe_defined; [done|]. cbv zeta.
  assert (Hgo : ∀ ds size' t self', 0 <= ds → 0 <= size' <= size → ds + size' <= N → level st deep self' →
    closed_after t self' → -1 <= t →
    safe (λ x, level st deep x.2 ∧ match x.1 with inl s => 0 <= s <= size | inr r => r = -1 end)
      (decode_fields cb d k st self' stream (i + 1) ds size' t)).
  { intros ds size' t self' H0 H1 H2 Hl' Hc' Ht. pose proof (IH (i + 1) ds size' t self' Hs ltac:(lia) ltac:(lia) H0 ltac:(lia) H2 Hl' Hc' Ht) as Hr.
    destruct (decode_fields _ _ _ _ _ _ _ _ _ _) as [[[s|r] self2]| |]; cbn in *; [|done|done|done]. destruct Hr. split; [done|lia]. }
  assert (Hclose : ∀ t, tag <= t → closed_after t self) by (intros t Ht t' E; specialize (Hc _ E); lia).
  destruct (Z.odd value); [apply Hgo; try done; [apply Hclose; dlia|dlia]|].
  eapply (safe_bind (λ x, let '(ok, ds, size') := x in 0 <= ds ∧ 0 <= size' <= size ∧ ds + size' <= N ∧
    (ok = true → value / 2 - 1 < 0 → ∃ sz, todword d datastream = Some sz ∧ 0 <= sz ∧ datastream + 4 + sz <= N))).
  - destruct (Z.ltb_spec (value / 2 - 1) 0); [|cbn; split_and!; try done; lia].
    destruct (Z.ltb_spec size 4); [cbn; split_and!; try done; lia|].
    destruct (todword_safe datastream ltac:(lia) ltac:(lia)) as (sz & Hsz & Hszr). rewrite Hsz. cbn [defined mbind res_bind].
    assert (u32 size = size) as -> by (apply Z.mod_small; unfold INT_MAX in *; lia).
    assert (u32 (sz + 4) = sz + 4) as -> by (apply Z.mod_small; lia).
    destruct (Z.ltb_spec size (sz + 4)); cbn; [split_and!; try done; lia|]. split_and!; try lia. intros _ _. exists sz. split_and!; [done|lia|lia].
  - intros [[ok ds] size'] (H0 & H1 & H2 & Hdat). destruct ok; cbn [negb]; [|done].
    destruct (findtag st (tag + 1)) as [f|] eqn:Hf; [|apply Hgo; try done; [apply Hclose; lia|lia]].
    pose proof Hf as [Hin Hft]%(findtag_spec tn st _ _ Hst).
    pose proof (wf_fields _ _ Hst) as Hwf. rewrite Forall_forall in Hwf. destruct (wf_name _ _ (Hwf f Hin)) as [name Hname].
    rewrite Hname. cbn [defined mbind res_bind]. rewrite <- Hft in Hf.
    pose proof (found_safe f name (value / 2 - 1) datastream) as Hone.
    destruct (decide (value / 2 - 1 < 0)) as [Hneg|Hneg].
    + destruct (Hdat eq_refl Hneg) as (sz & Hsz & Hz0 & Hzb). specialize (Hone sz self Hf Hname ltac:(done) Hl ltac:(apply Hclose; lia)).
      rewrite (proj2 (Z.ltb_lt _ _)) in Hone |- * by done. eapply safe_bind; [exact Hone|]. intros [r self'] [Hl' Hc']. cbn in Hl', Hc' |- *.
      rewrite Hft in Hc'. destruct (negb (r =? 0)); [done|]. apply Hgo; try done. lia.
    + specialize (Hone 0 self Hf Hname ltac:(done) Hl ltac:(apply Hclose; lia)). rewrite (proj2 (Z.ltb_ge _ _)) in Hone |- * by lia.
      destruct (negb _ && negb _); [done|]. destruct (cb _ _) as [[r self']| |]; cbn in Hone |- *; [|done|done].
      destruct Hone as [Hl' Hc']. rewrite Hft in Hc'. apply Hgo; try done. lia.
Qed.

Lemma struct_safe self data size :
  0 <= data → data + size <= N → level st deep self → d_array_tag self = None →
  safe (λ x, level st deep x.2 ∧ (x.1 = -1 ∨ 2 <= x.1 <= size)) (sproto_decode cb d st self data size).
Proof.
  intros H0 Hb Hl Hat. unfold sproto_decode, SIZEOF_HEADER, SIZEOF_FIELD. destruct (Z.ltb_spec size 2); [cbn; auto|].
  destruct (toword_safe data ltac:(lia) ltac:(lia)) as (fn & Hfn & Hfr). eapply safe_defined; [done|]. cbv zeta.
  destruct (Z.ltb_spec (size - 2) (fn * 2)); [cbn; auto|].
  eapply safe_bind; [apply fields_safe; try done; try lia|].
  - intros t E. congruence.
  - intros [[s|r] self'] [Hl' Hr]; cbn in *; split; auto; lia.
Qed.
End Structs.

(** ** The callback of lsproto.c *)

Lemma subtype_maps f : wf_field tn f → elt_type f = SPROTO_TSTRUCT →
  Forall (λ g, is_map g = true → is_array g = true ∧ main_ok (subtype sp g) (f_key g)) (t_f (subtype sp f)).
Proof.
  intros Hf Ht. destruct (subtype_found sp f Hsp Hf Ht) as (i & _ & Hi & _). pose proof Hkeys as Hk. unfold schema_keys in Hk.
  rewrite Forall_forall in Hk. apply Hk. unfold arr_get in Hi. case_match; [|done]. by eapply list_elem_of_lookup_2.
Qed.

(** An array that begins, or goes on. *)
Lemma begin_safe st deep f args self :
  is_array f = true → args_for f (a_index args) args → a_index args ≠ 0 → (a_index args < 0 → d_array_tag self ≠ Some (f_tag f)) →
  level st deep self → arr_ok f self →
  let '(stop, self') := decode_begin args self in
  called st deep f self self' ∧ d_array_tag self' = Some (f_tag f) ∧ (stop = false → 0 < a_index args).
Proof.
  intros Harr Ha Hi Hneg [Hdp Hm Hk] Hao. unfold decode_begin. rewrite (af_tag _ _ _ Ha), (proj2 (Z.eqb_neq _ _) Hi). cbn [negb andb].
  assert (Hn : a_tagname args = name_of f) by (unfold name_of; by rewrite (af_name _ _ _ Ha)).
  case_bool_decide as E; cbn.
  - split; [by apply called_refl|]. split; [done|]. intros _. destruct (Z.lt_trichotomy (a_index args) 0) as [?|[?|?]]; [by destruct Hneg|lia|done].
  - split; [|split; [done|destruct (Z.ltb_spec (a_index args) 0); [done|lia]]]. split; [by split|]. split.
    + intros _. right. cbn. rewrite Hn. split; [done|]. rewrite tget_tset. by eexists.
    + intros tag Ht _ t [= <-]. done.
Qed.

Lemma map_store_safe st deep f self k v :
  is_array f = true → d_array_tag self = Some (f_tag f) → level st deep self → arr_ok f self →
  safe (λ self', called st deep f self self') (array_assign self k v).
Proof.
  intros Harr Htag [Hdp Hm Hk] Hao. destruct (Hao Harr) as [?|[Hn [a Hg]]]; [done|]. unfold array_assign. rewrite Hn.
  cbn [defined mbind res_bind]. rewrite Hg. cbn. split; [by split|]. split; [|by intros]. intros _. right. split; [done|].
  cbn. rewrite tget_tset. by eexists.
Qed.

Lemma value_safe rec deep st f args self :
  cb_safe rec (deep + 1) → wf_type tn st → f ∈ t_f st → (is_map f = true → is_array f = true ∧ main_ok (subtype sp f) (f_key f)) →
  args_for f (a_index args) args → (is_array f = false → a_index args = 0) →
  (is_array f = true → 0 < a_index args ∧ d_array_tag self = Some (f_tag f)) →
  (elt_type f = SPROTO_TINTEGER ∨ elt_type f = SPROTO_TBOOLEAN → is_Some (a_word args)) →
  (elt_type f = SPROTO_TSTRING ∨ elt_type f = SPROTO_TSTRUCT →
     ∃ p, a_value args = Some p ∧ 0 <= p ∧ 0 <= a_length args ∧ p + a_length args <= N) →
  level st deep self → arr_ok f self →
  safe (λ x, called st deep f self x.2) (decode_value sp d rec args self).
Proof.
  intros Hrec Hst Hf Hmap Ha Hs Harr Hword Hval Hl Hao.
  pose proof (wf_fields _ _ Hst) as Hwf. rewrite Forall_forall in Hwf. specialize (Hwf f Hf).
  assert (Hstore : ∀ v, v ≠ LNil → keyable v ∨ elt_type f = SPROTO_TSTRUCT →
    safe (λ x, called st deep f self x.2) (self ← decode_store args self v; Ok (0, self))).
  { intros v Hv Hk. eapply safe_bind; [by apply store_safe|]. done. }
  unfold decode_value. rewrite (af_type _ _ _ Ha).
  destruct (Z.eqb_spec (elt_type f) SPROTO_TINTEGER) as [E|E0].
  { destruct (Hword ltac:(by left)) as [w Hw]. eapply safe_defined; [done|]. unfold push_integer. destruct (negb _); by apply Hstore; [|left]. }
  destruct (Z.eqb_spec (elt_type f) SPROTO_TBOOLEAN) as [E|E1].
  { destruct (Hword ltac:(by right)) as [w Hw]. eapply safe_defined; [done|]. by apply Hstore; [|left]. }
  destruct (Z.eqb_spec (elt_type f) SPROTO_TSTRING) as [E|E2].
  { destruct (Hval ltac:(by left)) as (p & Hp & H0 & H1 & H2). eapply safe_defined; [done|]. unfold push_string.
    rewrite (proj2 (Z.ltb_ge _ _)), (proj2 (Z.leb_le _ _)), (proj2 (Z.leb_le _ _)) by lia. cbn [andb mbind res_bind]. by apply Hstore; [|left]. }
  destruct (Z.eqb_spec (elt_type f) SPROTO_TSTRUCT) as [E|E3]; [|done].
  destruct (subtype_found sp f Hsp Hwf E) as (i & Hi & Hget & Hsub). destruct (Hval ltac:(by right)) as (p & Hp & H0 & H1 & H2).
  rewrite (af_subtype _ _ _ Ha), Hi, (af_key _ _ _ Ha). cbn [defined mbind res_bind]. rewrite Hget, Hp. cbn [defined mbind res_bind]. cbv zeta.
  assert (Hm : main_ok (subtype sp f) (if 0 <=? f_key f then f_key f else -1)).
  { destruct (Z.leb_spec 0 (f_key f)) as [Hk|Hk].
    - apply Hmap. unfold is_map. rewrite E. cbn [Z.eqb SPROTO_TSTRUCT Pos.eqb andb]. by apply Z.leb_le.
    - apply Forall_forall. intros g Hg _ _. pose proof (wf_fields _ _ Hsub) as Hg'. rewrite Forall_forall in Hg'.
      pose proof (wf_tag _ _ (Hg' g Hg)). lia. }
  eapply safe_bind; [apply (struct_safe rec (deep + 1) Hrec (subtype sp f) Hsub (subtype_maps f Hwf E)); try done|].
  { split; cbn; [by rewrite (lv_deep _ _ _ Hl)|done|done]. }
  intros [r sub] [Hls _]. cbn [snd fst] in Hls |- *. destruct (r <? 0); [by apply called_refl|].
  destruct (negb (r =? a_length args)); [by apply called_refl|].
  destruct (Z.leb_spec 0 (f_key f)) as [Hk|Hk]; [|by apply Hstore; [|right]].
  eapply safe_bind; [apply to_key_safe, (lv_key _ _ _ Hls)|]. intros k _.
  destruct (Hmap ltac:(unfold is_map; rewrite E; by apply Z.leb_le)) as [Hfa _]. destruct (Harr Hfa) as [_ Htag].
  eapply safe_bind; [by apply (map_store_safe st deep f)|]. done.
Qed.

Lemma decode_safe n deep : 64 - deep <= Z.of_nat n → cb_safe (decode sp d (S n)) deep.
Proof.
  revert deep. induction n as [|n IH]; intros deep Hn st f args self Hst Hmaps Hf Ha Hs0 Hs1 Hword Hval Hneg Hl Hao;
    cbn [decode]; rewrite (lv_deep _ _ _ Hl); unfold ENCODE_DEEPLEVEL; destruct (Z.leb_spec 64 deep); try done; [lia|].
  rewrite Forall_forall in Hmaps. destruct (is_array f) eqn:Harr.
  - pose proof (begin_safe st deep f args self Harr Ha (Hs1 eq_refl) Hneg Hl Hao) as Hb.
    destruct (decode_begin args self) as [stop self1]. destruct Hb as (Hc & Htag & Hpos). pose proof Hc as (Hl1 & Ha1 & _).
    destruct stop; [done|]. specialize (Hpos eq_refl).
    pose proof (value_safe (decode sp d (S n)) deep st f args self1 (IH (deep + 1) ltac:(lia)) Hst Hf (Hmaps f Hf) Ha) as Hv.
    rewrite Harr in Hv. specialize (Hv Hs0 ltac:(done) ltac:(intros ?; apply Hword; auto) Hval Hl1 Ha1).
    destruct (decode_value _ _ _ _ _) as [[r self2]| |]; cbn in *; [|done|done]. by eapply called_trans.
  - specialize (Hs0 eq_refl). unfold decode_begin. rewrite Hs0. cbn [Z.eqb negb andb].
    apply (value_safe (decode sp d (S n)) deep st); auto; [apply IH; lia|congruence].
Qed.

Lemma ldecode_safe i st into :
  arr_get (s_type sp) i = Some st →
  safe (λ x, ∃ t n, x = Some (t, n) ∧ 2 <= n <= N) (ldecode sp d (Some i) into).
Proof.
  intros Hi. unfold ldecode. rewrite Hi. cbn [defined mbind res_bind]. rewrite i32_small by (unfold INT_MIN; lia).
  assert (Hin : st ∈ s_type sp) by (unfold arr_get in Hi; case_match; [by eapply list_elem_of_lookup_2|done]).
  pose proof (wf_each _ Hsp) as Hw. rewrite Forall_forall in Hw. pose proof Hkeys as Hk. unfold schema_keys in Hk. rewrite Forall_forall in Hk.
  eapply safe_bind; [apply (struct_safe (decode sp d DECODE_FUEL) 0 (decode_safe 64 0 ltac:(lia)) st (Hw st Hin) (Hk st Hin)); try done|].
  - split; [done| |done]. apply Forall_forall. intros g Hg _ _. pose proof (wf_fields _ _ (Hw st Hin)) as Hf. rewrite Forall_forall in Hf.
    pose proof (wf_tag _ _ (Hf g Hg)). cbn. lia.
  - intros [r self] [_ Hr]. cbn [fst snd] in *. destruct (Z.ltb_spec r 0); [done|]. cbn. do 2 eexists. split; [done|]. lia.
Qed.
End Safe.

(** C12. For the bytes of any message in which no four bytes in a row are a
    number within four of 2^32 ([no_wrap]; with such a length the decoder does
    read outside, [decode_overread]), [ldecode] ends: with a table and the
    number of bytes it has read, at most the length of the message, or with an
    error, however the structures are nested.  It reads nothing outside the
    message and uses no table that is not there.  The schema is one that
    [sproto_create] accepted, with main indices on arrays only and not on
    structures ([single_main_index] is what happens otherwise). *)
Theorem ldecode_any_bytes bundle sp d i st into :
  Forall is_byte bundle → sproto_create bundle = Ok sp → schema_keys sp → arr_get (s_type sp) i = Some st →
  Forall is_byte d → Z.of_nat (length d) <= INT_MAX → no_wrap d = true →
  match ldecode sp d (Some i) into with
  | Ok (Some (_, n)) => 2 <= n <= Z.of_nat (length d)
  | Ok None => False
  | Fail => True
  | Undef => False
  end.
Proof.
  intros Hb Hc Hk Hi Hd Hl Hw. pose proof (ldecode_safe sp (create_wf _ _ Hb Hc) Hk d Hd Hl Hw i st into Hi) as Hs.
  destruct (ldecode sp d (Some i) into) as [o| |]; [|done|done]. destruct Hs as (t & n & -> & Hn). exact Hn.
Qed.

Lemma sample_keys : schema_keys sample.
Proof. unfold schema_keys, main_ok. apply (bool_decide_unpack _). vm_compute. exact I. Qed.

(** A message whose second array is cut. *)
Lemma ldecode_any_bytes_witness :
  match ldecode sample [2; 0; 1; 0; 0; 0; 9; 0; 0; 0; 4; 1; 0; 0; 0; 2; 0] (Some 1) None with
  | Ok (Some (_, n)) => 2 <= n <= 17
  | Ok None => False
  | Fail => True
  | Undef => False
  end.
Proof.
  apply (ldecode_any_bytes sample_bundle sample [2; 0; 1; 0; 0; 0; 9; 0; 0; 0; 4; 1; 0; 0; 0; 2; 0] 1 room_type None sample_bytes eq_refl
    sample_keys eq_refl); [repeat constructor; lia|vm_compute; congruence|reflexivity].
Defined.
