(* ===== verification/SprotoDefault.v ===== *)
(** * Default tables and shared schemas: lsproto.c

    [ldefault] builds the table of default values of a type by encoding a
    message whose callback has a value for no field but records a default for
    each.  It is a second client of [sproto_encode], proved against the same
    interface ([CallbackSpec]) as [lencode].  [lsaveproto] and [lloadproto]
    keep schemas in an array shared by all Lua states. *)

From Stdlib Require Import ZArith Lia SpecFloat.
From stdpp Require Import base tactics option numbers list strings.
From S2P Require Import Prelude Libc SprotoTypes SprotoCodec SprotoWire SprotoEncode SprotoLua SprotoDecode SprotoRound.

(** ** Shared schemas

    A schema is known by its address. *)

Definition MAX_GLOBALSPROTO : Z := 16.
Definition G_sproto : list (option Z) := replicate 16 None.

Definition lsaveproto (G : list (option Z)) (sp : option Z) (index : Z) : res (list (option Z)) :=
  if (index <? 0) || (MAX_GLOBALSPROTO <=? index) then Fail else defined (arr_set G index sp).

Definition lloadproto (G : list (option Z)) (index : Z) : res Z :=
  if (index <? 0) || (MAX_GLOBALSPROTO <=? index) then Fail
  else sp ← defined (arr_get G index); match sp with None => Fail | Some p => Ok p end.

(** ** Defaults *)

Section Default.
Variable sp : sproto.

Definition push_default (args : sproto_arg) (array : bool) : res lua_value :=
  if a_type args =? SPROTO_TINTEGER then Ok (if negb (a_extra args =? 0) then LNumber (S754_zero false) else LInteger 0)
  else if a_type args =? SPROTO_TBOOLEAN then Ok (LBoolean false)
  else if a_type args =? SPROTO_TSTRING then Ok (LString [])
  else if a_type args =? SPROTO_TSTRUCT then
    i ← defined (a_subtype args);
    st ← defined (arr_get (s_type sp) i);
    Ok (if array then LString (t_name st) else LTable [(KString (lit "__type"), LString (t_name st))])
  else Fail.

Definition encode_default (args : sproto_arg) (t : table) (b : block) : res (Z * Z * table * block) :=
  if 0 <? a_index args then
    v ← push_default args true;
    Ok (SPROTO_CB_NOARRAY, 0, tset t (KString (a_tagname args)) (LTable [(KString (lit "__array"), v)]), b)
  else
    v ← push_default args false;
    Ok (SPROTO_CB_NIL, 0, tset t (KString (a_tagname args)) v, b).

(** The buffer is doubled until the header fits. *)
Fixpoint ldefault_loop (fuel : nat) (st : sproto_type) (t : table) (sz : Z) : res table :=
  match fuel with
  | O => Undef
  | S fuel =>
      '(ret, t, _) ← sproto_encode encode_default st t (malloc sz) 0 sz;
      if 0 <=? ret then Ok t else ldefault_loop fuel st t (sz * 2)
  end.

(** [sz] stays an [int] for 24 rounds. *)
Definition ldefault (st : option Z) : res table :=
  match st with
  | None => Fail
  | Some i =>
      st ← defined (arr_get (s_type sp) i);
      '(ret, t, _) ← sproto_encode encode_default st [] (malloc 64) 0 64;
      if ret <? 0 then ldefault_loop 24 st t 128 else Ok t
  end.

(** ** What the table holds *)

Definition default_of (f : field) : lua_value :=
  let name := t_name (subtype sp f) in
  if is_array f then
    LTable [(KString (lit "__array"),
             if elt_type f =? SPROTO_TINTEGER then if f_extra f =? 0 then LInteger 0 else LNumber (S754_zero false)
             else if elt_type f =? SPROTO_TBOOLEAN then LBoolean false
             else if elt_type f =? SPROTO_TSTRING then LString []
             else LString name)]
  else if elt_type f =? SPROTO_TINTEGER then if f_extra f =? 0 then LInteger 0 else LNumber (S754_zero false)
  else if elt_type f =? SPROTO_TBOOLEAN then LBoolean false
  else if elt_type f =? SPROTO_TSTRING then LString []
  else LTable [(KString (lit "__type"), LString name)].

Context (Hsp : wf_sproto sp).
Notation tn := (type_n sp).
Context (st : sproto_type) (Hst : wf_type tn st) (Hnames : NoDup (map f_name (t_f st))).

(** The defaults of the fields before [fs] are there. *)
Definition filled (fs : list field) (t : table) : Prop :=
  ∃ pre, t_f st = pre ++ fs ∧ ∀ f, f ∈ pre → tget t (KString (name_of f)) = default_of f.

Lemma default_pushed f args i :
  wf_field tn f → args_for f i args → (is_array f = true → 0 < i) → (is_array f = false → i = 0) → ∀ t b,
  encode_default args t b =
    Ok (if is_array f then SPROTO_CB_NOARRAY else SPROTO_CB_NIL, 0, tset t (KString (name_of f)) (default_of f), b).
Proof.
  intros Hf [Hn _ Ht Hsub Hi _ Hex] H1 H0 t b. unfold encode_default, push_default, default_of.
  replace (a_tagname args) with (name_of f) by (unfold name_of; by rewrite Hn).
  rewrite Ht, Hsub, Hi, Hex. destruct (wf_elt _ _ Hf) as [Hk _].
  destruct Hk as [E|[E|[E|E]]]; rewrite E; cbn [Z.eqb SPROTO_TINTEGER SPROTO_TBOOLEAN SPROTO_TSTRING SPROTO_TSTRUCT Pos.eqb mbind res_bind].
  all: try (destruct (subtype_found sp f Hsp Hf E) as (j & Hj & Hget & _); rewrite Hj; cbn [defined mbind res_bind]; rewrite Hget; cbn [defined mbind res_bind]).
  all: destruct (is_array f);
    [rewrite (proj2 (Z.ltb_lt 0 i)) by auto|rewrite (H0 eq_refl); cbn [Z.ltb Z.compare]]; try done; by destruct (f_extra f =? 0).
Qed.

Lemma fill_next f fs t : filled (f :: fs) t → filled fs (tset t (KString (name_of f)) (default_of f)).
Proof.
  intros (pre & He & Hpre). exists (pre ++ [f]). split; [by rewrite <- app_assoc|].
  pose proof (wf_fields _ _ Hst) as Hwf. rewrite Forall_forall in Hwf.
  assert (Hf : f ∈ t_f st) by (rewrite He; apply elem_of_app; right; by left).
  intros g Hg. apply elem_of_app in Hg as [Hg|Hg]; [|apply list_elem_of_singleton in Hg as ->; by rewrite tget_tset].
  rewrite tget_tset_ne; [by apply Hpre|]. intros [= E].
  destruct (wf_name _ _ (Hwf f Hf)) as [nf Hnf]. destruct (wf_name _ _ (Hwf g ltac:(rewrite He; apply elem_of_app; by left))) as [ng Hng].
  unfold name_of in E. rewrite Hnf, Hng in E. cbn in E. subst ng.
  pose proof Hnames as Hnd. rewrite He, map_app in Hnd. apply NoDup_app in Hnd as (_ & Hnd & _). apply (Hnd (f_name g)).
  - by apply list_elem_of_fmap_2.
  - rewrite Hng, <- Hnf. by left.
Qed.

Lemma default_callback : CallbackSpec encode_default (λ _, CAbsent) filled (λ _ _ _ _ _, False).
Proof.
  assert (Hin : ∀ f fs t, filled (f :: fs) t → wf_field tn f).
  { intros f fs t (pre & He & _). pose proof (wf_fields _ _ Hst) as Hwf. rewrite Forall_forall in Hwf. apply Hwf. rewrite He.
    apply elem_of_app. right. by left. }
  split; try done.
  - intros f fs t b args Hr Harr Ha _. rewrite (default_pushed f args 0 (Hin _ _ _ Hr) Ha) by (congruence || done).
    rewrite Harr. eexists. split; [done|]. by apply fill_next.
  - intros f fs t Hr Harr b args Ha. rewrite (default_pushed f args 1 (Hin _ _ _ Hr) Ha) by (congruence || lia).
    rewrite Harr. eexists. split; [done|]. by apply fill_next.
Qed.

Lemma absent_view fs : fields_view (λ _, CAbsent) fs = Ok [].
Proof. induction fs as [|f fs IH]; [done|]. cbn [fields_view content_view mbind res_bind]. by rewrite IH. Qed.

Lemma absent_room fs : fields_room (λ _, CAbsent) fs = 8 * Z.of_nat (length fs).
Proof. induction fs as [|f fs IH]; [done|]. cbn [fields_room content_room length]. rewrite IH. lia. Qed.

Lemma gaps_length last fs : gaps last fs <= Z.of_nat (length fs).
Proof. revert last. induction fs as [|f fs IH]; intros last; cbn [gaps length]; [lia|]. specialize (IH (f_tag f)). destruct (last + 1 <? f_tag f); lia. Qed.

(** A type has at most 32767 fields: the room for their records is bounded. *)
Lemma default_room : struct_room (λ _, CAbsent) st <= 2 ^ 19.
Proof.
  unfold struct_room, header_room. rewrite absent_room, (wf_maxn _ _ Hst), (wf_n _ _ Hst). pose proof (gaps_length (-1) (t_f st)) as Hg.
  assert (Hn : Z.of_nat (length (t_f st)) <= 32767).
  { destruct (decide (t_f st = [])) as [->|Hne]; [cbn; lia|].
    destruct (lookup_lt_is_Some_2 (t_f st) (length (t_f st) - 1)) as [f Hf]; [destruct (t_f st); [done|cbn; lia]|].
    pose proof (ascending_tags _ _ _ _ (wf_ascending _ _ Hst) Hf) as Ht.
    pose proof (wf_tag _ _ (Forall_lookup_1 _ _ _ _ (wf_fields _ _ Hst) Hf)). pose proof (lookup_lt_Some _ _ _ Hf). lia. }
  unfold SIZEOF_HEADER, SIZEOF_FIELD. lia.
Qed.

(** One attempt fills the table, or the buffer is too small for the header. *)
Lemma default_attempt t sz :
  0 <= sz <= BLOCK_MAX →
  ∃ ret t' b', sproto_encode encode_default st t (malloc sz) 0 sz = Ok (ret, t', b') ∧
    ((ret = -1 ∧ sz < struct_room (λ _, CAbsent) st) ∨ (0 <= ret ∧ filled [] t')).
Proof.
  intros Hsz. assert (Hf : filled (t_f st) t) by (exists []; split; [done|]; intros f Hf; by apply not_elem_of_nil in Hf).
  assert (Hl : Z.of_nat (length (malloc sz)) = sz) by (unfold malloc; rewrite length_replicate; lia).
  pose proof (sproto_encode_ok _ _ _ _ default_callback tn st t (malloc sz) 0 sz Hst Hf ltac:(lia) ltac:(lia) ltac:(lia) ltac:(lia)) as Hp.
  unfold struct_post in Hp. rewrite absent_view in Hp. destruct Hp as [(t' & b' & He & Hlt)|(t' & b' & He & _ & _ & _ & _ & Hr)].
  - do 3 eexists. split; [exact He|]. by left.
  - do 3 eexists. split; [exact He|]. right. split; [lia|done].
Qed.

Lemma ldefault_loop_ok fuel t sz :
  0 < sz → sz * 2 ^ Z.of_nat fuel <= BLOCK_MAX → struct_room (λ _, CAbsent) st < sz * 2 ^ Z.of_nat fuel → (0 < fuel)%nat →
  struct_room (λ _, CAbsent) st <= sz * 2 ^ (Z.of_nat fuel - 1) →
  ∃ t', ldefault_loop fuel st t sz = Ok t' ∧ filled [] t'.
Proof.
  revert t sz. induction fuel as [|fuel IH]; intros t sz Hs Hm Hr H0 Hr1; [lia|]. cbn [ldefault_loop].
  rewrite Nat2Z.inj_succ, Z.pow_succ_r in Hm, Hr by lia. pose proof (Z.pow_pos_nonneg 2 (Z.of_nat fuel)).
  destruct (default_attempt t sz ltac:(nia)) as (ret & t' & b' & -> & [[-> Hlt]|[Hret Hf]]); cbn [mbind res_bind].
  - cbn [Z.leb Z.compare]. destruct fuel as [|fuel]; [cbn in Hr1; lia|]. apply IH; [lia|lia|lia|lia|].
    replace (Z.of_nat (S (S fuel)) - 1) with (Z.succ (Z.of_nat fuel)) in Hr1 by lia. rewrite Z.pow_succ_r in Hr1 by lia.
    replace (Z.of_nat (S fuel) - 1) with (Z.of_nat fuel) by lia. lia.
  - rewrite (proj2 (Z.leb_le 0 ret)) by done. eauto.
Qed.

Lemma ldefault_ok i : arr_get (s_type sp) i = Some st → ∃ t, ldefault (Some i) = Ok t ∧ filled [] t.
Proof.
  intros Hi. unfold ldefault. rewrite Hi. cbn [defined mbind res_bind]. pose proof default_room as Hroom.
  destruct (default_attempt [] 64) as (ret & t & b & -> & [[-> _]|[Hret Hf]]); [unfold BLOCK_MAX; lia| |]; cbn [mbind res_bind].
  - cbn [Z.ltb Z.compare]. apply ldefault_loop_ok; try lia. unfold BLOCK_MAX. lia.
  - rewrite (proj2 (Z.ltb_ge _ _)) by lia. eauto.
Qed.
End Default.

(** C38. For every type of a loaded schema whose fields have names of their own,
    however many there are, [ldefault] ends with a table that holds the default
    of each field: zero, false, the empty string, a table with the name of the
    type of a structure, and for an array a table with the default of its
    elements. *)
Theorem ldefault_correct d sp i st :
  Forall is_byte d → sproto_create d = Ok sp → arr_get (s_type sp) i = Some st → NoDup (map f_name (t_f st)) →
  ∃ t, ldefault sp (Some i) = Ok t ∧ ∀ f, f ∈ t_f st → tget t (KString (name_of f)) = default_of sp f.
Proof.
  intros Hd Hc Hi Hn. pose proof (Build_loaded d sp Hd Hc) as Hl.
  destruct (ldefault_ok sp (loaded_wf _ _ Hl) st (loaded_type _ _ _ _ Hl Hi) Hn i Hi) as (t & Ht & pre & He & Hpre).
  exists t. split; [done|]. intros f Hf. apply Hpre. by rewrite He, app_nil_r in Hf.
Qed.

Lemma ldefault_correct_witness :
  ∃ t, ldefault sample (Some 1) = Ok t ∧ ∀ f, f ∈ t_f room_type → tget t (KString (name_of f)) = default_of sample f.
Proof.
  apply (ldefault_correct sample_bundle sample 1 room_type sample_bytes eq_refl eq_refl). apply (bool_decide_unpack _). vm_compute. exact I.
Defined.

(** What is saved is loaded until the slot is saved again. *)
Lemma proto_slots G sp i j G' : length G = 16%nat → lsaveproto G (Some sp) i = Ok G' →
  lloadproto G' j = if decide (i = j) then Ok sp else lloadproto G j.
Proof.
  intros Hl Hs. unfold lsaveproto, lloadproto, MAX_GLOBALSPROTO in *. destruct (_ || _)%bool eqn:E in Hs; [done|]. bool_to_prop.
  rewrite arr_set_some in Hs by lia. injection Hs as <-. destruct ((j <? 0) || (16 <=? j)) eqn:E2; bool_to_prop.
  { rewrite decide_False by lia. done. }
  rewrite !arr_get_lookup by lia. destruct (decide (i = j)) as [->|Hne].
  - by rewrite list_lookup_insert_eq by lia.
  - by rewrite list_lookup_insert_ne by lia.
Qed.
