(* ===== verification/Cluster.v ===== *)
(** * Messages between clusters: lualib-src/lua-cluster.c

    Nodes that are not of one skynet network exchange requests and responses
    over sockets.  A request goes to an address (a handle or a name) and has a
    session; a push is a request without response and has the high bit of the
    session set.  A message of 32 K or more is sent in parts after a packet
    with its size, and the receiver puts the parts together with [lconcat].
    Every packet is preceded by its length as Netpack.v cuts it.

    The packets are written into a buffer on the stack of [TEMP_LENGTH] bytes,
    a block of cells here.  The values a function returns to Lua are a list;
    [Fail] is a Lua error and [Undef] undefined behaviour, a failed assertion
    or the end of the process. *)

From Stdlib Require Import ZArith Lia.
From stdpp Require Import base tactics option numbers gmap list strings.
From S2P Require Import Prelude Netpack SprotoTypes SprotoCodec SprotoWire SprotoDecode.

(** ** Constants *)

Definition REQUEST_S_MAX : Z := INT_MAX / 2 - 2.
Definition RESPONSE_S_MAX : Z := INT_MAX - 2.
Definition TEMP_LENGTH : Z := 33280.
Definition MULTI_PART : Z := 32768.

(** [1 << 31] and [(1 << 31) - 1] in an [int], as compilers wrap them. *)
Definition SET_HIGH_BIT_INT32 (a : Z) : Z := Z.lor a (i32 (Z.shiftl 1 31)).
Definition KICK_HIGH_BIT_INT32 (a : Z) : Z := Z.land a (i32 (i32 (Z.shiftl 1 31) - 1)).
Definition CHECK_HIGH_BIT_INT32 (a : Z) : Z := Z.land a (u32 (i32 (Z.shiftl 1 31))).

(** ** Writing *)

Definition fill_uint32 (b : block) (off n : Z) : res block := put b off (bytes4 n).

Definition fill_header (b : block) (sz : Z) : res block :=
  if sz <? 65536 then put b 0 [Z.land (Z.shiftr sz 8) 255; Z.land sz 255] else Undef.

(** ** Requests *)

(** The first argument: a number, a string, or something else. *)
Inductive cluster_addr := addr_number (n : Z) | addr_string (s : list Z) | addr_other.

(** A packet, and the number of parts to follow. *)
Definition packreq_number (addr session : Z) (msg : list Z) (sz : Z) (is_push : bool) : res (list Z * Z) :=
  let addr := u32 addr in
  let buf := malloc TEMP_LENGTH in
  if sz <? MULTI_PART then
    buf ← fill_header buf (sz + 9);
    buf ← put buf 2 [0];
    buf ← fill_uint32 buf 3 addr;
    buf ← fill_uint32 buf 7 (u32 session);
    buf ← put buf 11 (take (Z.to_nat sz) msg);
    out ← fetch buf 0 (sz + 11);
    Ok (out, 0)
  else
    let part := (sz - 1) / MULTI_PART + 1 in
    buf ← fill_header buf 13;
    buf ← put buf 2 [if is_push then 65 else 1];
    buf ← fill_uint32 buf 3 addr;
    buf ← fill_uint32 buf 7 (u32 session);
    buf ← fill_uint32 buf 11 sz;
    out ← fetch buf 0 15;
    Ok (out, part).

Definition packreq_string (name : list Z) (session : Z) (msg : list Z) (sz : Z) (is_push : bool) : res (list Z * Z) :=
  let namelen := Z.of_nat (length name) in
  if (namelen <? 1) || (255 <? namelen) then Fail
  else
    let buf := malloc TEMP_LENGTH in
    if sz <? MULTI_PART then
      buf ← fill_header buf (sz + 6 + namelen);
      buf ← put buf 2 [128];
      buf ← put buf 3 [u8 namelen];
      buf ← put buf 4 name;
      buf ← fill_uint32 buf (4 + namelen) (u32 session);
      buf ← put buf (8 + namelen) (take (Z.to_nat sz) msg);
      out ← fetch buf 0 (sz + 8 + namelen);
      Ok (out, 0)
    else
      let part := (sz - 1) / MULTI_PART + 1 in
      buf ← fill_header buf (10 + namelen);
      buf ← put buf 2 [if is_push then 193 else 129];
      buf ← put buf 3 [u8 namelen];
      buf ← put buf 4 name;
      buf ← fill_uint32 buf (4 + namelen) (u32 session);
      buf ← fill_uint32 buf (8 + namelen) sz;
      out ← fetch buf 0 (12 + namelen);
      Ok (out, part).

(** [part] packets from [ptr] on, the last one marked by 3. *)
Fixpoint packreq_parts (part : nat) (buf : block) (session : Z) (ptr : list Z) (sz : Z) : res (list (list Z)) :=
  match part with
  | O => Ok []
  | S part =>
      let '(s, kind) := if MULTI_PART <? sz then (MULTI_PART, 2) else (sz, 3) in
      buf ← put buf 2 [kind];
      buf ← fill_header buf (s + 5);
      buf ← fill_uint32 buf 3 (u32 session);
      buf ← put buf 7 (take (Z.to_nat s) ptr);
      out ← fetch buf 0 (s + 7);
      rest ← packreq_parts part buf session (drop (Z.to_nat s) ptr) (sz - s);
      Ok (out :: rest)
  end.

Definition packreq_multi (session : Z) (msg : list Z) (sz : Z) : res (list (list Z)) :=
  packreq_parts (Z.to_nat ((sz - 1) / MULTI_PART + 1)) (malloc TEMP_LENGTH) session msg sz.

(** The request, the next session and the parts, if any.  [msg] is the memory
    of the message; its length is the argument [sz]. *)
Definition packrequest (addr : cluster_addr) (session : Z) (msg : option (list Z)) (is_push : bool)
    : res (list Z * Z * list (list Z)) :=
  match msg with
  | None => Fail
  | Some msg =>
      let sz := u32 (Z.of_nat (length msg)) in
      let session := i32 session in
      if session <=? 0 then Fail
      else
        let session_copy := if is_push then SET_HIGH_BIT_INT32 session else session in
        '(first, multipak) ← match addr with
                             | addr_number n => packreq_number n session_copy msg sz is_push
                             | addr_string s => packreq_string s session_copy msg sz is_push
                             | addr_other => Fail
                             end;
        let new_session := u32 (u32 session + 1) in
        let new_session := if REQUEST_S_MAX <? new_session then 50 else new_session in
        if negb (multipak =? 0) then parts ← packreq_multi session_copy msg sz; Ok (first, new_session, parts)
        else Ok (first, new_session, [])
  end.

Definition lpackrequest (addr : cluster_addr) (session : Z) (msg : option (list Z)) := packrequest addr session msg false.
Definition lpackpush (addr : cluster_addr) (session : Z) (msg : option (list Z)) := packrequest addr session msg true.

(** ** Reading *)

Definition unpack_uint32 (buf : list Z) (off : Z) : res Z := defined (todword buf off).

(** [lua_pushlstring(L, buf + off, n)] *)
Definition push_lstring (buf : list Z) (off n : Z) : res lua_value :=
  if (0 <=? off) && (0 <=? n) && (off + n <=? Z.of_nat (length buf))
  then Ok (LString (take (Z.to_nat n) (drop (Z.to_nat off) buf))) else Undef.

Definition unpackreq_number (buf : list Z) (sz : Z) : res (list lua_value) :=
  if sz <? 9 then Fail
  else
    address ← unpack_uint32 buf 1;
    session ← unpack_uint32 buf 5;
    s ← push_lstring buf 9 (sz - 9);
    let out := [LInteger address; LInteger (KICK_HIGH_BIT_INT32 session); s] in
    Ok (if negb (CHECK_HIGH_BIT_INT32 session =? 0) then out ++ [LNil; LBoolean true] else out).

Definition unpackmreq_number (buf : list Z) (sz : Z) (is_push : bool) : res (list lua_value) :=
  if negb (sz =? 13) then Fail
  else
    address ← unpack_uint32 buf 1;
    session ← unpack_uint32 buf 5;
    size ← unpack_uint32 buf 9;
    Ok [LInteger address; LInteger (KICK_HIGH_BIT_INT32 session); LInteger size; LBoolean true; LBoolean is_push].

Definition unpackmreq_part (buf : list Z) (sz : Z) : res (list lua_value) :=
  if sz <? 5 then Fail
  else
    b0 ← defined (arr_get buf 0);
    let padding := if b0 =? 2 then 1 else 0 in
    let padding := if padding =? 0 then 2 else padding in
    session ← unpack_uint32 buf 1;
    s ← push_lstring buf 5 (sz - 5);
    Ok [LBoolean false; LInteger (KICK_HIGH_BIT_INT32 session); s; LInteger padding].

Definition unpackreq_string (buf : list Z) (sz : Z) : res (list lua_value) :=
  if sz <? 2 then Fail
  else
    namesz ← defined (arr_get buf 1);
    if sz <? namesz + 6 then Fail
    else
      name ← push_lstring buf 2 namesz;
      session ← unpack_uint32 buf (namesz + 2);
      s ← push_lstring buf (2 + namesz + 4) (sz - namesz - 6);
      let out := [name; LInteger (u32 (KICK_HIGH_BIT_INT32 session)); s] in
      Ok (if negb (CHECK_HIGH_BIT_INT32 session =? 0) then out ++ [LNil; LBoolean true] else out).

Definition unpackmreq_string (buf : list Z) (sz : Z) (is_push : bool) : res (list lua_value) :=
  if sz <? 2 then Fail
  else
    namesz ← defined (arr_get buf 1);
    if sz <? namesz + 10 then Fail
    else
      name ← push_lstring buf 2 namesz;
      session ← unpack_uint32 buf (namesz + 2);
      size ← unpack_uint32 buf (namesz + 6);
      Ok [name; LInteger (KICK_HIGH_BIT_INT32 session); LInteger size; LBoolean true; LBoolean is_push].

(** A Lua string is followed by a zero byte, which is [msg[0]] of an empty one. *)
Definition lunpackrequest (msg : list Z) : res (list lua_value) :=
  let sz := i32 (Z.of_nat (length msg)) in
  match hd 0 msg with
  | 0 => unpackreq_number msg sz
  | 1 => unpackmreq_number msg sz false
  | 65 => unpackmreq_number msg sz true
  | 2 | 3 => unpackmreq_part msg sz
  | 128 => unpackreq_string msg sz
  | 129 => unpackmreq_string msg sz false
  | 193 => unpackmreq_string msg sz true
  | _ => Fail
  end.

(** ** Responses *)

Fixpoint response_parts (part : nat) (buf : block) (session my_session : Z) (ptr : list Z) (sz : Z) : res (list (list Z)) :=
  match part with
  | O => Ok []
  | S part =>
      let '(s, kind) := if MULTI_PART <? sz then (MULTI_PART, 3) else (sz, 4) in
      buf ← put buf 10 [kind];
      buf ← fill_header buf (s + 9);
      buf ← fill_uint32 buf 2 session;
      buf ← fill_uint32 buf 6 my_session;
      buf ← put buf 11 (take (Z.to_nat s) ptr);
      out ← fetch buf 0 (s + 11);
      rest ← response_parts part buf session my_session (drop (Z.to_nat s) ptr) (sz - s);
      Ok (out :: rest)
  end.

(** The packets, one of them a string and more a table, and the next session. *)
Definition lpackresponse (session my_session : Z) (ok : bool) (msg : list Z) : res (list (list Z) * Z) :=
  let session := u32 session in
  let my_session := u32 my_session in
  let new_session := u32 (my_session + 1) in
  let new_session := if RESPONSE_S_MAX <? new_session then 50 else new_session in
  let sz := Z.of_nat (length msg) in
  let single (sz : Z) :=
    buf ← fill_header (malloc TEMP_LENGTH) (sz + 9);
    buf ← fill_uint32 buf 2 session;
    buf ← fill_uint32 buf 6 my_session;
    buf ← put buf 10 [if ok then 1 else 0];
    buf ← put buf 11 (take (Z.to_nat sz) msg);
    out ← fetch buf 0 (sz + 11);
    Ok ([out], new_session) in
  if negb ok then single (if MULTI_PART <? sz then MULTI_PART else sz)
  else if MULTI_PART <? sz then
    let part := (sz - 1) / MULTI_PART + 1 in
    buf ← fill_header (malloc TEMP_LENGTH) 13;
    buf ← fill_uint32 buf 2 session;
    buf ← fill_uint32 buf 6 my_session;
    buf ← put buf 10 [2];
    buf ← fill_uint32 buf 11 (u32 sz);
    first ← fetch buf 0 15;
    parts ← response_parts (Z.to_nat part) buf session my_session msg sz;
    Ok (first :: parts, new_session)
  else single sz.

Definition lunpackresponse (buf : list Z) : res (list lua_value) :=
  let sz := Z.of_nat (length buf) in
  if sz <? 9 then Ok []
  else
    session ← unpack_uint32 buf 0;
    my_session ← unpack_uint32 buf 4;
    kind ← defined (arr_get buf 8);
    match kind with
    | 0 => s ← push_lstring buf 9 (sz - 9); Ok [LInteger session; LBoolean false; s; LInteger my_session]
    | 1 => s ← push_lstring buf 9 (sz - 9); Ok [LInteger session; LBoolean true; s; LInteger my_session]
    | 4 => s ← push_lstring buf 9 (sz - 9); Ok [LInteger session; LBoolean true; s; LInteger my_session; LInteger 2]
    | 2 =>
        if negb (sz =? 13) then Ok []
        else size ← unpack_uint32 buf 9;
             Ok [LInteger session; LBoolean true; LInteger size; LInteger my_session; LInteger 1]
    | 3 => s ← push_lstring buf 9 (sz - 9); Ok [LInteger session; LBoolean true; s; LInteger my_session; LInteger 1]
    | _ => Ok []
    end.

(** ** Putting the parts together

    The argument is the sequence of values at 1, 2, ... of the table; the
    result is the memory of the message, [None] where nothing is returned.  A
    negative size is one that can not be allocated. *)

Fixpoint concat_loop (vs : list lua_value) (buff : block) (offset sz : Z) : res (option (block * Z)) :=
  match vs with
  | LString str :: vs =>
      let s := Z.of_nat (length str) in
      if sz <? s + offset then Ok None
      else buff ← put buff offset str; concat_loop vs buff (offset + s) sz
  | _ => Ok (Some (buff, offset))
  end.

Definition lconcat (vs : list lua_value) : res (option (list Z)) :=
  match vs with
  | LInteger _ :: _ | LNumber _ :: _ =>
      let sz := i32 (match hd LNil vs with LInteger z => z | LNumber f => default 0 (float_integer f) | _ => 0 end) in
      if sz <? 0 then Undef
      else
        r ← concat_loop (tl vs) (malloc sz) 0 sz;
        match r with
        | None => Ok None
        | Some (buff, offset) => if negb (offset =? sz) then Ok None else out ← fetch buff 0 sz; Ok (Some out)
        end
  | _ => Ok None
  end.

(** ** Sequences of writes

    The block holds [acc] from its start and [top] further up. *)

Lemma put_step {A} b acc top hi l off (k : block → res A) r :
  has b 0 acc → has b hi top → off = Z.of_nat (length acc) → off + Z.of_nat (length l) <= hi →
  off + Z.of_nat (length l) <= Z.of_nat (length b) →
  (∀ b', length b' = length b → has b' 0 (acc ++ l) → has b' hi top → k b' = r) → (b ← put b off l; k b) = r.
Proof.
  intros Ha Ht -> Hhi Hl Hk. destruct (put_has b (Z.of_nat (length acc)) l) as (b' & -> & Hp & Hs); [lia|done|]. cbn [mbind res_bind].
  apply Hk; [by eapply same_out_length| |].
  - apply has_app; [lia|]. split; [|done]. eapply has_frame; [done|lia|lia|done].
  - eapply has_frame; [done|lia|lia|done].
Qed.

Lemma put_next {A} b acc l off (k : block → res A) r :
  has b 0 acc → off = Z.of_nat (length acc) → off + Z.of_nat (length l) <= Z.of_nat (length b) →
  (∀ b', length b' = length b → has b' 0 (acc ++ l) → k b' = r) → (b ← put b off l; k b) = r.
Proof. intros Ha Ho Hl Hk. eapply (put_step b acc [] (off + Z.of_nat (length l))); eauto using has_nil. lia. Qed.

Lemma fetch_next {A} b acc n (k : list Z → res A) r :
  has b 0 acc → n = Z.of_nat (length acc) → n <= Z.of_nat (length b) → k acc = r → (out ← fetch b 0 n; k out) = r.
Proof. intros Ha -> Hl Hk. rewrite (fetch_ok b 0 acc) by (done || lia). done. Qed.

Lemma fill_header_put b sz : sz < 65536 → fill_header b sz = put b 0 (write_size sz).
Proof. intros H. unfold fill_header, write_size. by rewrite (proj2 (Z.ltb_lt _ _)). Qed.

Lemma temp_length : Z.of_nat (length (malloc TEMP_LENGTH)) = TEMP_LENGTH.
Proof. unfold malloc. rewrite length_replicate. unfold TEMP_LENGTH. lia. Qed.

(** A packet: its length and its body. *)
Definition frame (body : list Z) : list Z := write_size (Z.of_nat (length body)) ++ body.

Lemma length_write_size n : length (write_size n) = 2%nat.
Proof. done. Qed.

(** ** Sessions *)

Definition sess_word (session : Z) (push : bool) : Z := if push then session + 2 ^ 31 else session.

Section Session.
Context (s : Z) (Hs : 0 < s <= INT_MAX) (push : bool).

Lemma sess_word_range : 0 <= sess_word s push < 2 ^ 32.
Proof. unfold sess_word, INT_MAX in *. destruct push; lia. Qed.

Lemma sess_set : u32 (if push then SET_HIGH_BIT_INT32 s else s) = sess_word s push.
Proof.
  unfold sess_word, INT_MAX in *. destruct push; [|apply Z.mod_small; lia]. unfold SET_HIGH_BIT_INT32.
  change (i32 (Z.shiftl 1 31)) with (Z.shiftl (-1) 31). rewrite Z.lor_comm, lor_shiftl_add by lia. unfold u32. dlia.
Qed.

Lemma sess_kick : KICK_HIGH_BIT_INT32 (sess_word s push) = s.
Proof.
  unfold KICK_HIGH_BIT_INT32, INT_MAX in *. change (i32 (i32 (Z.shiftl 1 31) - 1)) with (2 ^ 31 - 1). rewrite land_ones_mod by lia.
  unfold sess_word. destruct push; dlia.
Qed.

Lemma sess_check : negb (CHECK_HIGH_BIT_INT32 (sess_word s push) =? 0) = push.
Proof.
  unfold CHECK_HIGH_BIT_INT32, INT_MAX in *. change (u32 (i32 (Z.shiftl 1 31))) with (Z.shiftl 1 31). unfold sess_word.
  pose proof (land_shiftl_low 1 s 31 ltac:(lia) ltac:(lia)) as Hz. destruct push.
  - replace (s + 2 ^ 31) with (Z.lor (Z.shiftl 1 31) s) by (rewrite lor_shiftl_add by lia; lia).
    rewrite Z.land_lor_distr_l, Z.land_diag, (Z.land_comm s), Hz. done.
  - rewrite Z.land_comm, Hz. done.
Qed.
End Session.

(** ** Reading what was written *)

Lemma unpack_uint32_app pre v rest off :
  off = Z.of_nat (length pre) → 0 <= v < 2 ^ 32 → unpack_uint32 (pre ++ le_bytes 4 v ++ rest) off = Ok v.
Proof.
  intros -> Hv. unfold unpack_uint32. rewrite (todword_has _ _ v rest); [cbn; f_equal; by apply Z.mod_small|lia|].
  intros i x Hi. rewrite Nat2Z.id, list_lookup_fmap, lookup_app_r by lia.
  replace (length pre + i - length pre)%nat with i by lia. by rewrite Hi.
Qed.

Lemma push_lstring_app pre s rest off n :
  off = Z.of_nat (length pre) → n = Z.of_nat (length s) → push_lstring (pre ++ s ++ rest) off n = Ok (LString s).
Proof.
  intros -> ->. unfold push_lstring. rewrite !length_app.
  repeat match goal with |- context [(?a <=? ?b)] => destruct (Z.leb_spec a b); [|lia] end. cbn [andb].
  by rewrite !Nat2Z.id, drop_app_length, take_app_length.
Qed.

(** ** Packets of requests *)

(** The fields of a request before its session. *)
Definition addr_bytes (addr : cluster_addr) : list Z :=
  match addr with
  | addr_number n => le_bytes 4 n
  | addr_string s => Z.of_nat (length s) :: s
  | addr_other => []
  end.

Definition addr_value (addr : cluster_addr) : lua_value :=
  match addr with addr_number n => LInteger (u32 n) | addr_string s => LString s | addr_other => LNil end.

Definition addr_ok (addr : cluster_addr) : Prop :=
  match addr with addr_number _ => True | addr_string s => (1 <= length s <= 255)%nat | addr_other => False end.

(** The first byte: 0 and 1 for a number, with 0x80 for a name; 0x40 marks a
    push in parts. *)
Definition kind_byte (addr : cluster_addr) (multi push : bool) : Z :=
  (match addr with addr_string _ => 128 | _ => 0 end) + (if multi then if push then 65 else 1 else 0).

Definition request_body (addr : cluster_addr) (w : Z) (msg : list Z) : list Z :=
  [kind_byte addr false false] ++ addr_bytes addr ++ le_bytes 4 w ++ msg.

Definition multi_body (addr : cluster_addr) (w : Z) (push : bool) (size : Z) : list Z :=
  [kind_byte addr true push] ++ addr_bytes addr ++ le_bytes 4 w ++ le_bytes 4 size.

Ltac put_more := eapply put_next; [eassumption|rewrite ?length_app, ?length_write_size, ?le_bytes_length; cbn; lia
  |rewrite ?length_app, ?length_write_size, ?le_bytes_length; cbn [length]; unfold TEMP_LENGTH, MULTI_PART in *; lia|].

Lemma length_multi_body addr w push size : Z.of_nat (length (multi_body addr w push size)) = 9 + Z.of_nat (length (addr_bytes addr)).
Proof. unfold multi_body. rewrite !length_app, !le_bytes_length. cbn. lia. Qed.

Lemma length_request_body addr w msg : Z.of_nat (length (request_body addr w msg)) = 5 + Z.of_nat (length (addr_bytes addr)) + Z.of_nat (length msg).
Proof. unfold request_body. rewrite !length_app, !le_bytes_length. cbn. lia. Qed.

Lemma packreq_number_ok n s w msg push :
  u32 s = w →
  packreq_number n s msg (Z.of_nat (length msg)) push =
    if Z.of_nat (length msg) <? MULTI_PART then Ok (frame (request_body (addr_number n) w msg), 0)
    else Ok (frame (multi_body (addr_number n) w push (Z.of_nat (length msg))), (Z.of_nat (length msg) - 1) / MULTI_PART + 1).
Proof.
  intros Hw. unfold packreq_number, fill_uint32. rewrite Hw, !bytes4_le, le_bytes_u32. pose proof temp_length as Ht.
  destruct (Z.ltb_spec (Z.of_nat (length msg)) MULTI_PART) as [Hm|Hm]; rewrite fill_header_put by (unfold MULTI_PART in *; lia).
  - rewrite Nat2Z.id, take_ge by done. eapply (put_next _ []); [apply has_nil|done|rewrite Ht; cbn; unfold TEMP_LENGTH; lia|]. intros b1 E1 H1.
    put_more. intros b2 E2 H2. put_more. intros b3 E3 H3. put_more. intros b4 E4 H4. put_more. intros b5 E5 H5.
    eapply fetch_next; [exact H5|rewrite !length_app, !le_bytes_length; cbn; lia|unfold TEMP_LENGTH, MULTI_PART in *; lia|].
    unfold frame. rewrite length_request_body. cbn [addr_bytes]. rewrite le_bytes_length. unfold request_body. cbn [app kind_byte addr_bytes].
    by replace (5 + Z.of_nat 4 + Z.of_nat (length msg)) with (Z.of_nat (length msg) + 9) by lia.
  - eapply (put_next _ []); [apply has_nil|done|rewrite Ht; cbn; unfold TEMP_LENGTH; lia|]. intros b1 E1 H1.
    put_more. intros b2 E2 H2. put_more. intros b3 E3 H3. put_more. intros b4 E4 H4. put_more. intros b5 E5 H5.
    eapply fetch_next; [exact H5|rewrite !length_app, !le_bytes_length; cbn; lia|unfold TEMP_LENGTH, MULTI_PART in *; lia|].
    unfold frame. rewrite length_multi_body. cbn [addr_bytes]. rewrite le_bytes_length. by destruct push.
Qed.

Lemma packreq_string_ok name s w msg push :
  u32 s = w → (1 <= length name <= 255)%nat →
  packreq_string name s msg (Z.of_nat (length msg)) push =
    if Z.of_nat (length msg) <? MULTI_PART then Ok (frame (request_body (addr_string name) w msg), 0)
    else Ok (frame (multi_body (addr_string name) w push (Z.of_nat (length msg))), (Z.of_nat (length msg) - 1) / MULTI_PART + 1).
Proof.
  intros Hw Hn. unfold packreq_string, fill_uint32. rewrite Hw, !bytes4_le. pose proof temp_length as Ht.
  destruct (Z.ltb_spec (Z.of_nat (length name)) 1); [lia|]. destruct (Z.ltb_spec 255 (Z.of_nat (length name))); [lia|]. cbn [orb].
  replace (u8 (Z.of_nat (length name))) with (Z.of_nat (length name)) by (symmetry; apply Z.mod_small; lia).
  destruct (Z.ltb_spec (Z.of_nat (length msg)) MULTI_PART) as [Hm|Hm]; rewrite fill_header_put by (unfold MULTI_PART in *; lia).
  - rewrite Nat2Z.id, take_ge by done. eapply (put_next _ []); [apply has_nil|done|rewrite Ht; cbn; unfold TEMP_LENGTH; lia|]. intros b1 E1 H1.
    put_more. intros b2 E2 H2. put_more. intros b3 E3 H3. put_more. intros b4 E4 H4. put_more. intros b5 E5 H5. put_more. intros b6 E6 H6.
    eapply fetch_next; [exact H6|rewrite !length_app, !le_bytes_length; cbn; lia|unfold TEMP_LENGTH, MULTI_PART in *; lia|].
    unfold frame. rewrite length_request_body. cbn [addr_bytes length].
    replace (5 + Z.of_nat (S (length name)) + Z.of_nat (length msg)) with (Z.of_nat (length msg) + 6 + Z.of_nat (length name)) by lia.
    unfold request_body. cbn [addr_bytes kind_byte]. by rewrite <- !app_assoc.
  - eapply (put_next _ []); [apply has_nil|done|rewrite Ht; cbn; unfold TEMP_LENGTH; lia|]. intros b1 E1 H1.
    put_more. intros b2 E2 H2. put_more. intros b3 E3 H3. put_more. intros b4 E4 H4. put_more. intros b5 E5 H5. put_more. intros b6 E6 H6.
    eapply fetch_next; [exact H6|rewrite !length_app, !le_bytes_length; cbn; lia|unfold TEMP_LENGTH, MULTI_PART in *; lia|].
    unfold frame. rewrite length_multi_body. cbn [addr_bytes length].
    replace (9 + Z.of_nat (S (length name))) with (10 + Z.of_nat (length name)) by lia.
    unfold multi_body. cbn [addr_bytes]. rewrite <- !app_assoc. by destruct push.
Qed.

(** ** Parts *)

Fixpoint split_parts (part : nat) (l : list Z) : list (list Z) :=
  match part with
  | O => []
  | S part => take (Z.to_nat MULTI_PART) l :: split_parts part (drop (Z.to_nat MULTI_PART) l)
  end.

(** The packets of the parts: [more] marks those before the last, [final] it. *)
Fixpoint part_bodies (more final : Z → list Z → list Z) (w : Z) (xs : list (list Z)) : list (list Z) :=
  match xs with
  | [] => []
  | x :: xs => (match xs with [] => final | _ => more end) w x :: part_bodies more final w xs
  end.

(** [n] bytes are [part] parts. *)
Definition in_parts (part : nat) (n : Z) : Prop := (Z.of_nat part - 1) * MULTI_PART < n <= Z.of_nat part * MULTI_PART.

Lemma in_parts_count n : 0 < n → in_parts (Z.to_nat ((n - 1) / MULTI_PART + 1)) n.
Proof. intros Hn. unfold in_parts, MULTI_PART. dlia. Qed.

Lemma in_parts_split part l : in_parts part (Z.of_nat (length l)) → concat (split_parts part l) = l ∧
  Forall (λ x, Z.of_nat (length x) <= MULTI_PART) (split_parts part l).
Proof.
  revert l. induction part as [|part IH]; intros l Hp; unfold in_parts in *; cbn [split_parts concat].
  { destruct l; [done|cbn in Hp; lia]. }
  destruct (decide (Z.of_nat (length l) <= MULTI_PART)) as [Hs|Hs].
  - rewrite take_ge, drop_ge by lia. destruct part as [|part].
    + split; [by rewrite app_nil_r|]. by repeat constructor.
    + unfold MULTI_PART in *. lia.
  - destruct (IH (drop (Z.to_nat MULTI_PART) l)) as [-> Hf]; [rewrite length_drop; unfold MULTI_PART in *; lia|].
    split; [apply take_drop|]. constructor; [rewrite length_take; lia|done].
Qed.

Definition more_body (w : Z) (x : list Z) : list Z := [2] ++ le_bytes 4 w ++ x.
Definition final_body (w : Z) (x : list Z) : list Z := [3] ++ le_bytes 4 w ++ x.

(** One part, and what follows. *)
Lemma part_packet b s w kind x (rest : block → res (list (list Z))) r :
  Z.of_nat (length b) = TEMP_LENGTH → u32 s = w → Z.of_nat (length x) <= MULTI_PART →
  (∀ b', Z.of_nat (length b') = TEMP_LENGTH → rest b' = Ok r) →
  (b ← put b 2 [kind]; b ← fill_header b (Z.of_nat (length x) + 5); b ← fill_uint32 b 3 (u32 s);
   b ← put b 7 x; out ← fetch b 0 (Z.of_nat (length x) + 7); r ← rest b; Ok (out :: r)) =
  Ok (frame ([kind] ++ le_bytes 4 w ++ x) :: r).
Proof.
  intros Hb Hw Hx Hrest. unfold fill_header, fill_uint32. rewrite (proj2 (Z.ltb_lt _ _)) by (unfold MULTI_PART in *; lia).
  rewrite Hw, bytes4_le. fold (write_size (Z.of_nat (length x) + 5)). unfold TEMP_LENGTH, MULTI_PART in *.
  destruct (put_has b 2 [kind]) as (b1 & -> & H1 & Hs1); [lia|cbn; lia|]. cbn [mbind res_bind]. apply same_out_length in Hs1 as E1.
  eapply (put_step b1 [] [kind] 2); [apply has_nil|done|done|cbn; lia|cbn; lia|]. intros b2 E2 H2 Ht2. cbn [app] in H2.
  assert (H2' : has b2 0 (write_size (Z.of_nat (length x) + 5) ++ [kind])) by (by apply has_app).
  put_more. intros b3 E3 H3. put_more. intros b4 E4 H4.
  eapply fetch_next; [exact H4|rewrite !length_app, !le_bytes_length; cbn; lia|lia|]. rewrite Hrest by lia. cbn [mbind res_bind].
  unfold frame. rewrite !length_app, le_bytes_length.
  replace (Z.of_nat (length [kind] + (4 + length x))) with (Z.of_nat (length x) + 5) by (cbn; lia). by rewrite <- !app_assoc.
Qed.

Lemma packreq_parts_ok part b s w l :
  Z.of_nat (length b) = TEMP_LENGTH → u32 s = w → (0 < part)%nat → in_parts part (Z.of_nat (length l)) →
  packreq_parts part b s l (Z.of_nat (length l)) = Ok (map frame (part_bodies more_body final_body w (split_parts part l))).
Proof.
  intros Hb Hw. revert b l Hb. induction part as [|part IH]; intros b l Hb H0 Hp; [lia|]. cbn [packreq_parts split_parts].
  unfold in_parts in Hp. destruct (Z.ltb_spec MULTI_PART (Z.of_nat (length l))) as [Hm|Hm].
  - destruct part as [|part]; [unfold MULTI_PART in *; lia|].
    assert (Hx : Z.of_nat (length (take (Z.to_nat MULTI_PART) l)) = MULTI_PART) by (rewrite length_take; unfold MULTI_PART in *; lia).
    assert (Hd : Z.of_nat (length l) - MULTI_PART = Z.of_nat (length (drop (Z.to_nat MULTI_PART) l)))
      by (rewrite length_drop; unfold MULTI_PART in *; lia).
    replace (MULTI_PART + 5) with (Z.of_nat (length (take (Z.to_nat MULTI_PART) l)) + 5) by lia.
    replace (MULTI_PART + 7) with (Z.of_nat (length (take (Z.to_nat MULTI_PART) l)) + 7) by lia. rewrite Hd.
    apply (part_packet b s w 2 _ (λ b, packreq_parts (S part) b s (drop (Z.to_nat MULTI_PART) l) (Z.of_nat (length (drop (Z.to_nat MULTI_PART) l)))));
      [done|done|lia|].
    intros b' Hb'. apply IH; [done|lia|]. unfold in_parts. rewrite <- Hd. lia.
  - assert (part = 0)%nat as -> by (unfold MULTI_PART in *; lia). rewrite !take_ge, drop_ge, Z.sub_diag by (unfold MULTI_PART in *; lia).
    apply (part_packet b s w 3 l (λ b, packreq_parts 0 b s [] 0)); done.
Qed.

(** ** Requests as a whole *)

Definition part_count (n : Z) : nat := Z.to_nat ((n - 1) / MULTI_PART + 1).

Definition request_bodies (addr : cluster_addr) (session : Z) (msg : list Z) (push : bool) : list Z * list (list Z) :=
  let w := sess_word session push in
  let n := Z.of_nat (length msg) in
  if n <? MULTI_PART then (request_body addr w msg, [])
  else (multi_body addr w push n, part_bodies more_body final_body w (split_parts (part_count n) msg)).

Definition next_session (max session : Z) : Z := if max <? session + 1 then 50 else session + 1.

Lemma packrequest_ok addr session msg push :
  addr_ok addr → 0 < session <= INT_MAX → Z.of_nat (length msg) <= INT_MAX →
  packrequest addr session (Some msg) push =
    let '(first, rest) := request_bodies addr session msg push in
    Ok (frame first, next_session REQUEST_S_MAX session, map frame rest).
Proof.
  intros Ha Hs Hn. unfold packrequest, request_bodies, next_session. rewrite i32_small by (unfold INT_MIN, INT_MAX in *; lia).
  replace (u32 (Z.of_nat (length msg))) with (Z.of_nat (length msg)) by (symmetry; apply Z.mod_small; unfold INT_MAX in *; lia).
  replace (u32 (u32 session + 1)) with (session + 1) by (unfold u32, INT_MAX in *; dlia).
  destruct (Z.leb_spec session 0); [lia|]. pose proof (sess_set session Hs push) as Hw.
  set (s' := if push then SET_HIGH_BIT_INT32 session else session) in *.
  assert (Hfirst : (match addr with
      | addr_number n => packreq_number n s' msg (Z.of_nat (length msg)) push
      | addr_string s => packreq_string s s' msg (Z.of_nat (length msg)) push
      | addr_other => Fail end) =
    if Z.of_nat (length msg) <? MULTI_PART then Ok (frame (request_body addr (sess_word session push) msg), 0)
    else Ok (frame (multi_body addr (sess_word session push) push (Z.of_nat (length msg))), (Z.of_nat (length msg) - 1) / MULTI_PART + 1)).
  { destruct addr as [n|s|]; [by apply packreq_number_ok|by apply packreq_string_ok|done]. }
  rewrite Hfirst. destruct (Z.ltb_spec (Z.of_nat (length msg)) MULTI_PART) as [Hm|Hm]; cbn [mbind res_bind]; [done|].
  assert (Hc : 0 < (Z.of_nat (length msg) - 1) / MULTI_PART + 1) by (unfold MULTI_PART in *; dlia).
  rewrite (proj2 (Z.eqb_neq _ _)) by lia. cbn [negb]. unfold packreq_multi.
  rewrite (packreq_parts_ok _ _ _ (sess_word session push)); [done|apply temp_length|done|lia|].
  apply in_parts_count. unfold MULTI_PART in *. lia.
Qed.

Section Read.
Context (s : Z) (Hs : 0 < s <= INT_MAX) (push : bool).
Notation w := (sess_word s push).

Lemma unpack_request addr msg :
  addr_ok addr → Z.of_nat (length (request_body addr w msg)) <= INT_MAX →
  lunpackrequest (request_body addr w msg) =
    Ok ([addr_value addr; LInteger s; LString msg] ++ if push then [LNil; LBoolean true] else []).
Proof.
  intros Ha Hn. pose proof (sess_word_range s Hs push) as Hw. pose proof (length_request_body addr w msg) as Hl.
  unfold lunpackrequest. rewrite i32_small by (unfold INT_MIN; lia). destruct addr as [n|name|]; [| |done].
  - change (hd 0 _) with 0. cbn [addr_bytes] in Hl. rewrite le_bytes_length in Hl. unfold unpackreq_number.
    rewrite (proj2 (Z.ltb_ge _ _)) by lia. rewrite Hl. unfold request_body. cbn [addr_bytes].
    rewrite <- (le_bytes_u32 n) at 1. rewrite (unpack_uint32_app [_] (u32 n)) by (done || apply u32_range). cbn [mbind res_bind].
    rewrite app_assoc. rewrite (unpack_uint32_app _ w) by (rewrite ?length_app, ?le_bytes_length; done). cbn [mbind res_bind].
    rewrite app_assoc. rewrite <- (app_nil_r msg) at 1.
    rewrite (push_lstring_app _ msg) by (rewrite ?length_app, ?le_bytes_length; cbn; lia). cbn [mbind res_bind].
    rewrite sess_kick, sess_check by done. by destruct push.
  - change (hd 0 _) with 128. cbn [addr_bytes length] in Hl. cbn in Ha. unfold unpackreq_string.
    rewrite (proj2 (Z.ltb_ge _ _)) by lia. change (arr_get (request_body (addr_string name) w msg) 1) with (Some (Z.of_nat (length name))).
    cbn [defined mbind res_bind].
    rewrite (proj2 (Z.ltb_ge _ _)) by lia. rewrite Hl. unfold request_body. cbn [addr_bytes].
    change ([kind_byte (addr_string name) false false] ++ (Z.of_nat (length name) :: name) ++ le_bytes 4 w ++ msg)
      with ([128; Z.of_nat (length name)] ++ name ++ le_bytes 4 w ++ msg).
    rewrite (push_lstring_app _ name _ 2) by done. cbn [mbind res_bind].
    rewrite app_assoc. rewrite (unpack_uint32_app _ w) by (rewrite ?length_app; cbn; done || lia). cbn [mbind res_bind].
    rewrite app_assoc. rewrite <- (app_nil_r msg) at 1.
    rewrite (push_lstring_app _ msg) by (rewrite ?length_app, ?le_bytes_length; cbn; lia). cbn [mbind res_bind].
    rewrite sess_kick, sess_check by done. replace (u32 s) with s by (symmetry; apply Z.mod_small; unfold INT_MAX in *; lia). by destruct push.
Qed.

Lemma unpack_multi addr size :
  addr_ok addr → 0 <= size < 2 ^ 32 →
  lunpackrequest (multi_body addr w push size) =
    Ok [addr_value addr; LInteger s; LInteger size; LBoolean true; LBoolean push].
Proof.
  intros Ha Hz. pose proof (sess_word_range s Hs push) as Hw. pose proof (length_multi_body addr w push size) as Hl.
  assert (Hn : Z.of_nat (length (multi_body addr w push size)) <= INT_MAX).
  { rewrite Hl. unfold INT_MAX. destruct addr; cbn [addr_bytes length] in *; rewrite ?le_bytes_length; cbn in *; lia. }
  unfold lunpackrequest. rewrite i32_small by (unfold INT_MIN; lia). rewrite Hl. destruct addr as [n|name|]; [| |done].
  - transitivity (unpackmreq_number (multi_body (addr_number n) w push size) 13 push); [by destruct push|].
    unfold unpackmreq_number. cbn [Z.eqb Pos.eqb negb]. unfold multi_body. cbn [addr_bytes].
    rewrite <- (le_bytes_u32 n) at 1. rewrite (unpack_uint32_app [_] (u32 n) _ 1) by (done || apply u32_range). cbn [mbind res_bind].
    rewrite app_assoc. rewrite (unpack_uint32_app _ w _ 5) by (rewrite ?length_app, ?le_bytes_length; done). cbn [mbind res_bind].
    rewrite app_assoc. rewrite <- (app_nil_r (le_bytes 4 size)).
    rewrite (unpack_uint32_app _ size _ 9) by (rewrite ?length_app, ?le_bytes_length; done). cbn [mbind res_bind]. by rewrite sess_kick.
  - cbn [addr_bytes length] in *. cbn in Ha.
    transitivity (unpackmreq_string (multi_body (addr_string name) w push size) (9 + Z.of_nat (S (length name))) push); [by destruct push|].
    unfold unpackmreq_string. rewrite (proj2 (Z.ltb_ge _ _)) by lia.
    change (arr_get (multi_body (addr_string name) w push size) 1) with (Some (Z.of_nat (length name))). cbn [defined mbind res_bind].
    rewrite (proj2 (Z.ltb_ge _ _)) by lia. unfold multi_body. cbn [addr_bytes].
    change ([kind_byte (addr_string name) true push] ++ (Z.of_nat (length name) :: name) ++ le_bytes 4 w ++ le_bytes 4 size)
      with ([kind_byte (addr_string name) true push; Z.of_nat (length name)] ++ name ++ le_bytes 4 w ++ le_bytes 4 size).
    rewrite (push_lstring_app _ name _ 2) by done. cbn [mbind res_bind].
    rewrite app_assoc. rewrite (unpack_uint32_app _ w _ (Z.of_nat (length name) + 2)) by (rewrite ?length_app; cbn; done || lia). cbn [mbind res_bind].
    rewrite app_assoc. rewrite <- (app_nil_r (le_bytes 4 size)).
    rewrite (unpack_uint32_app _ size _ (Z.of_nat (length name) + 6)) by (rewrite ?length_app, ?le_bytes_length; cbn; done || lia). cbn [mbind res_bind]. by rewrite sess_kick.
Qed.

(** What the parts unpack to: 2 marks the last one. *)
Fixpoint part_rows (xs : list (list Z)) : list (list lua_value) :=
  match xs with
  | [] => []
  | x :: xs => [LBoolean false; LInteger s; LString x; LInteger (match xs with [] => 2 | _ => 1 end)] :: part_rows xs
  end.

Lemma unpack_part kind x :
  kind = 2 ∨ kind = 3 → Z.of_nat (length x) <= MULTI_PART →
  lunpackrequest ([kind] ++ le_bytes 4 w ++ x) = Ok [LBoolean false; LInteger s; LString x; LInteger (if kind =? 2 then 1 else 2)].
Proof.
  intros Hk Hx. pose proof (sess_word_range s Hs push) as Hw.
  assert (Hl : Z.of_nat (length ([kind] ++ le_bytes 4 w ++ x)) = 5 + Z.of_nat (length x)) by (rewrite !length_app, le_bytes_length; cbn; lia).
  unfold lunpackrequest. rewrite Hl, i32_small by (unfold INT_MIN, INT_MAX, MULTI_PART in *; lia).
  transitivity (unpackmreq_part ([kind] ++ le_bytes 4 w ++ x) (5 + Z.of_nat (length x))); [by destruct Hk as [-> | ->]|].
  unfold unpackmreq_part. rewrite (proj2 (Z.ltb_ge _ _)) by lia. change (arr_get ([kind] ++ le_bytes 4 w ++ x) 0) with (Some kind).
  cbn [defined mbind res_bind]. rewrite (unpack_uint32_app [kind] w) by done. cbn [mbind res_bind].
  rewrite app_assoc. rewrite <- (app_nil_r x) at 1. rewrite (push_lstring_app _ x) by (rewrite ?length_app, ?le_bytes_length; cbn; lia).
  cbn [mbind res_bind]. rewrite sess_kick by done. by destruct Hk as [-> | ->].
Qed.

Lemma unpack_parts xs :
  Forall (λ x, Z.of_nat (length x) <= MULTI_PART) xs → mapM lunpackrequest (part_bodies more_body final_body w xs) = Ok (part_rows xs).
Proof.
  induction 1 as [|x xs Hx _ IH]; [done|]. cbn [part_bodies part_rows mapM]. 
  assert (E : lunpackrequest ((match xs with [] => final_body | _ => more_body end) w x) =
    Ok [LBoolean false; LInteger s; LString x; LInteger (match xs with [] => 2 | _ => 1 end)]).
  { destruct xs; [apply (unpack_part 3)|apply (unpack_part 2)]; auto. }
  rewrite E. cbn [mbind res_bind]. by rewrite IH.
Qed.
End Read.

(** ** [lconcat] *)

Lemma concat_loop_ok xs b acc sz :
  has b 0 acc → Z.of_nat (length b) = sz → Z.of_nat (length acc) <= sz →
  let r := concat_loop (map LString xs) b (Z.of_nat (length acc)) sz in
  if sz <? Z.of_nat (length (acc ++ concat xs)) then r = Ok None
  else ∃ b', r = Ok (Some (b', Z.of_nat (length (acc ++ concat xs)))) ∧ has b' 0 (acc ++ concat xs) ∧ Z.of_nat (length b') = sz.
Proof.
  revert b acc. induction xs as [|x xs IH]; intros b acc Ha Hb Hl; cbn [map concat concat_loop].
  { rewrite app_nil_r. destruct (Z.ltb_spec sz (Z.of_nat (length acc))); [lia|by exists b]. }
  destruct (Z.ltb_spec sz (Z.of_nat (length x) + Z.of_nat (length acc))) as [Hx|Hx].
  { rewrite !length_app. by rewrite (proj2 (Z.ltb_lt _ _)) by lia. }
  destruct (put_has b (Z.of_nat (length acc)) x) as (b1 & -> & H1 & Hs1); [lia|lia|]. cbn [mbind res_bind].
  assert (Ha1 : has b1 0 (acc ++ x)) by (apply has_app; [lia|]; split; [eapply has_frame; [done|lia|lia|done]|done]).
  apply same_out_length in Hs1. rewrite app_assoc.
  replace (Z.of_nat (length acc) + Z.of_nat (length x)) with (Z.of_nat (length (acc ++ x))) by (rewrite length_app; lia).
  apply IH; [done|lia|rewrite length_app; lia].
Qed.

(** The parts are put together where their lengths add up to the size announced. *)
Lemma lconcat_ok sz xs :
  0 <= sz <= INT_MAX →
  lconcat (LInteger sz :: map LString xs) = Ok (if Z.of_nat (length (concat xs)) =? sz then Some (concat xs) else None).
Proof.
  intros Hsz. cbn [lconcat hd tl]. rewrite i32_small by (unfold INT_MIN; lia). rewrite (proj2 (Z.ltb_ge sz 0)) by lia.
  assert (Hl : Z.of_nat (length (malloc sz)) = sz) by (unfold malloc; rewrite length_replicate; lia).
  pose proof (concat_loop_ok xs (malloc sz) [] sz (has_nil _ _) Hl ltac:(cbn; lia)) as Hc. cbn [app length] in Hc. change (Z.of_nat 0) with 0 in Hc.
  destruct (Z.ltb_spec sz (Z.of_nat (length (concat xs)))) as [Hlt|Hge].
  - rewrite Hc. cbn [mbind res_bind]. by rewrite (proj2 (Z.eqb_neq _ _)) by lia.
  - destruct Hc as (b & -> & Hb & Hlb). cbn [mbind res_bind]. destruct (Z.eqb_spec (Z.of_nat (length (concat xs))) sz) as [E|E]; cbn [negb]; [|done].
    by rewrite (fetch_ok b 0 (concat xs)) by (done || lia).
Qed.

(** ** Delivery *)

(** The packets [bodies] give back a request: in one piece, or the parts put
    together. *)
Definition delivered (addr : cluster_addr) (session : Z) (msg : list Z) (push : bool) (bodies : list (list Z)) : Prop :=
  match bodies with
  | [] => False
  | [body] => lunpackrequest body = Ok ([addr_value addr; LInteger session; LString msg] ++ if push then [LNil; LBoolean true] else [])
  | body :: parts =>
      lunpackrequest body =
        Ok [addr_value addr; LInteger session; LInteger (Z.of_nat (length msg)); LBoolean true; LBoolean push] ∧
      ∃ xs, mapM lunpackrequest parts = Ok (part_rows session xs) ∧
        lconcat (LInteger (Z.of_nat (length msg)) :: map LString xs) = Ok (Some msg)
  end.

Lemma request_delivered addr session msg push :
  addr_ok addr → 0 < session <= INT_MAX → Z.of_nat (length msg) <= INT_MAX →
  let '(first, rest) := request_bodies addr session msg push in delivered addr session msg push (first :: rest).
Proof.
  intros Ha Hs Hn. unfold request_bodies.
  assert (Hal : (length (addr_bytes addr) <= 256)%nat) by (destruct addr; cbn [addr_bytes length] in *; rewrite ?le_bytes_length; cbn in *; lia).
  destruct (Z.ltb_spec (Z.of_nat (length msg)) MULTI_PART) as [Hm|Hm].
  - apply unpack_request; [done|done|]. rewrite length_request_body. unfold INT_MAX, MULTI_PART in *. lia.
  - assert (Hp : in_parts (part_count (Z.of_nat (length msg))) (Z.of_nat (length msg)))
      by (apply in_parts_count; unfold MULTI_PART in *; lia).
    destruct (in_parts_split _ _ Hp) as [Hc Hf]. unfold delivered.
    destruct (split_parts (part_count (Z.of_nat (length msg))) msg) as [|x xs] eqn:E.
    { cbn in Hc. subst msg. unfold MULTI_PART in *. cbn in Hm. lia. }
    cbn [part_bodies]. split; [apply unpack_multi; [done|done|unfold INT_MAX in *; lia]|].
    exists (x :: xs). split; [by apply (unpack_parts session Hs push (x :: xs))|]. rewrite lconcat_ok by lia. by rewrite Hc, Z.eqb_refl.
Qed.

(** ** Streams

    Every packet has a length that Netpack.v can cut. *)
Definition short (p : list Z) : Prop := Z.of_nat (length p) < 65536.

Lemma frames_packed ps : Forall short ps → pack_stream ps = Some (concat (map frame ps)).
Proof.
  intros Hps. unfold pack_stream. assert (mapM Netpack.lpack ps = Some (map frame ps)) as ->; [|done].
  induction Hps as [|p ps Hp _ IH]; [done|]. cbn [mapM map]. unfold short in Hp.
  assert (Netpack.lpack p = Some (frame p)) as -> by (unfold Netpack.lpack; by rewrite (proj2 (Z.leb_gt _ _)) by lia).
  cbn [mbind option_bind]. by rewrite IH.
Qed.

(** Packets sent over a socket, however the bytes are cut, are received whole. *)
Lemma packets_received ps fd cs :
  Forall short ps → concat cs = concat (map frame ps) → Forall chunk_ok (pair fd <$> cs) →
  ∃ out Q', receive_all None (pair fd <$> cs) = Some (out, Q') ∧ mapM (λ p, ltostring (np_buffer p) (np_size p)) out = Some ps.
Proof.
  intros Hps Hcs Hch. destruct (netpack_roundtrip fd ps _ cs (frames_packed ps Hps) Hcs Hch) as (out & Q' & Hr & Ho & _). eauto.
Qed.

Lemma parts_short more final w xs :
  (∀ w x, Z.of_nat (length x) <= MULTI_PART → short (more w x) ∧ short (final w x)) →
  Forall (λ x, Z.of_nat (length x) <= MULTI_PART) xs → Forall short (part_bodies more final w xs).
Proof.
  intros Hb. induction 1 as [|x xs Hx _ IH]; [constructor|]. cbn [part_bodies]. constructor; [|done].
  destruct (Hb w x Hx). by destruct xs.
Qed.

Lemma request_short addr session msg push :
  addr_ok addr → let '(first, rest) := request_bodies addr session msg push in Forall short (first :: rest).
Proof.
  intros Ha. unfold request_bodies.
  assert (Hal : (length (addr_bytes addr) <= 256)%nat) by (destruct addr; cbn [addr_bytes length] in *; rewrite ?le_bytes_length; cbn in *; lia).
  destruct (Z.ltb_spec (Z.of_nat (length msg)) MULTI_PART) as [Hm|Hm].
  - repeat constructor. unfold short. rewrite length_request_body. unfold MULTI_PART in *. lia.
  - constructor; [unfold short; rewrite length_multi_body; lia|].
    assert (Hp : in_parts (part_count (Z.of_nat (length msg))) (Z.of_nat (length msg))) by (apply in_parts_count; unfold MULTI_PART in *; lia).
    apply parts_short; [|by apply in_parts_split]. intros w x Hx.
    unfold short, more_body, final_body. rewrite !length_app, le_bytes_length. cbn [length]. unfold MULTI_PART in *. lia.
Qed.

(** ** Packets of responses *)

Definition response_body (session my kind : Z) (x : list Z) : list Z := le_bytes 4 session ++ le_bytes 4 my ++ [kind] ++ x.

Lemma length_response_body session my kind x : Z.of_nat (length (response_body session my kind x)) = 9 + Z.of_nat (length x).
Proof. unfold response_body. rewrite !length_app, !le_bytes_length. cbn. lia. Qed.

(** A packet that is written in order: the first one, or the only one. *)
Lemma response_packet {A} s my kind x (k : block → list Z → res A) r :
  Z.of_nat (length x) <= MULTI_PART →
  (∀ b, Z.of_nat (length b) = TEMP_LENGTH → k b (frame (response_body s my kind x)) = r) →
  (b ← fill_header (malloc TEMP_LENGTH) (Z.of_nat (length x) + 9); b ← fill_uint32 b 2 s; b ← fill_uint32 b 6 my;
   b ← put b 10 [kind]; b ← put b 11 x; out ← fetch b 0 (Z.of_nat (length x) + 11); k b out) = r.
Proof.
  intros Hx Hk. pose proof temp_length as Ht. rewrite fill_header_put by (unfold MULTI_PART in *; lia). unfold fill_uint32. rewrite !bytes4_le.
  eapply (put_next _ []); [apply has_nil|done|rewrite Ht; cbn; unfold TEMP_LENGTH; lia|]. intros b1 E1 H1.
  put_more. intros b2 E2 H2. put_more. intros b3 E3 H3. put_more. intros b4 E4 H4. put_more. intros b5 E5 H5.
  eapply fetch_next; [exact H5|rewrite !length_app, !le_bytes_length; cbn; lia|unfold TEMP_LENGTH, MULTI_PART in *; lia|].
  rewrite <- (Hk b5) by (unfold TEMP_LENGTH in *; lia). f_equal. unfold frame. rewrite length_response_body, (Z.add_comm 9).
  unfold response_body. by rewrite <- !app_assoc.
Qed.

(** One part, and what follows. *)
Lemma response_part b s my kind x (rest : block → res (list (list Z))) r :
  Z.of_nat (length b) = TEMP_LENGTH → Z.of_nat (length x) <= MULTI_PART →
  (∀ b', Z.of_nat (length b') = TEMP_LENGTH → rest b' = Ok r) →
  (b ← put b 10 [kind]; b ← fill_header b (Z.of_nat (length x) + 9); b ← fill_uint32 b 2 s; b ← fill_uint32 b 6 my;
   b ← put b 11 x; out ← fetch b 0 (Z.of_nat (length x) + 11); r ← rest b; Ok (out :: r)) =
  Ok (frame (response_body s my kind x) :: r).
Proof.
  intros Hb Hx Hrest. unfold fill_header, fill_uint32. rewrite (proj2 (Z.ltb_lt _ _)) by (unfold MULTI_PART in *; lia).
  rewrite !bytes4_le. fold (write_size (Z.of_nat (length x) + 9)). unfold TEMP_LENGTH, MULTI_PART in *.
  destruct (put_has b 10 [kind]) as (b1 & -> & H1 & Hs1); [lia|cbn; lia|]. cbn [mbind res_bind]. apply same_out_length in Hs1 as E1.
  eapply (put_step b1 [] [kind] 10); [apply has_nil|done|done|cbn; lia|cbn; lia|]. intros b2 E2 H2 Ht2. cbn [app] in H2.
  eapply (put_step b2 _ [kind] 10); [exact H2|done|done|cbn; rewrite ?le_bytes_length; lia|rewrite le_bytes_length; lia|]. intros b3 E3 H3 Ht3.
  eapply (put_step b3 _ [kind] 10); [exact H3|done|done|cbn; rewrite ?le_bytes_length; lia|rewrite le_bytes_length; lia|]. intros b4 E4 H4 Ht4.
  assert (H4' : has b4 0 (((write_size (Z.of_nat (length x) + 9) ++ le_bytes 4 s) ++ le_bytes 4 my) ++ [kind])) by (by apply has_app).
  put_more. intros b5 E5 H5.
  eapply fetch_next; [exact H5|rewrite !length_app, !le_bytes_length; cbn; lia|lia|]. rewrite Hrest by lia. cbn [mbind res_bind].
  unfold frame. rewrite length_response_body, (Z.add_comm 9). unfold response_body. by rewrite <- !app_assoc.
Qed.

Lemma response_parts_ok part b s my l :
  Z.of_nat (length b) = TEMP_LENGTH → (0 < part)%nat → in_parts part (Z.of_nat (length l)) →
  response_parts part b s my l (Z.of_nat (length l)) =
    Ok (map frame (part_bodies (λ w x, response_body w my 3 x) (λ w x, response_body w my 4 x) s (split_parts part l))).
Proof.
  revert b l. induction part as [|part IH]; intros b l Hb H0 Hp; [lia|]. cbn [response_parts split_parts].
  unfold in_parts in Hp. destruct (Z.ltb_spec MULTI_PART (Z.of_nat (length l))) as [Hm|Hm].
  - destruct part as [|part]; [unfold MULTI_PART in *; lia|].
    assert (Hx : Z.of_nat (length (take (Z.to_nat MULTI_PART) l)) = MULTI_PART) by (rewrite length_take; unfold MULTI_PART in *; lia).
    assert (Hd : Z.of_nat (length l) - MULTI_PART = Z.of_nat (length (drop (Z.to_nat MULTI_PART) l)))
      by (rewrite length_drop; unfold MULTI_PART in *; lia).
    replace (MULTI_PART + 9) with (Z.of_nat (length (take (Z.to_nat MULTI_PART) l)) + 9) by lia.
    replace (MULTI_PART + 11) with (Z.of_nat (length (take (Z.to_nat MULTI_PART) l)) + 11) by lia. rewrite Hd.
    apply (response_part b s my 3 _ (λ b, response_parts (S part) b s my (drop (Z.to_nat MULTI_PART) l) (Z.of_nat (length (drop (Z.to_nat MULTI_PART) l)))));
      [done|lia|].
    intros b' Hb'. apply IH; [done|lia|]. unfold in_parts. rewrite <- Hd. lia.
  - assert (part = 0)%nat as -> by (unfold MULTI_PART in *; lia). rewrite !take_ge, drop_ge, Z.sub_diag by (unfold MULTI_PART in *; lia).
    apply (response_part b s my 4 l (λ b, response_parts 0 b s my [] 0)); done.
Qed.

(** The packets of a response; an error message is cut at 32 K. *)
Definition response_bodies (session my : Z) (ok : bool) (msg : list Z) : list (list Z) :=
  let n := Z.of_nat (length msg) in
  if negb ok then [response_body session my 0 (take (Z.to_nat MULTI_PART) msg)]
  else if MULTI_PART <? n then
    response_body session my 2 (le_bytes 4 n) ::
    part_bodies (λ w x, response_body w my 3 x) (λ w x, response_body w my 4 x) session (split_parts (part_count n) msg)
  else [response_body session my 1 msg].

Lemma lpackresponse_ok session my ok msg :
  0 <= session < 2 ^ 32 → 0 <= my < 2 ^ 32 - 1 →
  lpackresponse session my ok msg = Ok (map frame (response_bodies session my ok msg), next_session RESPONSE_S_MAX my).
Proof.
  intros Hs Hmy. unfold lpackresponse, response_bodies, next_session.
  assert (u32 session = session) as -> by (by apply Z.mod_small). assert (u32 my = my) as -> by (apply Z.mod_small; lia).
  assert (u32 (my + 1) = my + 1) as -> by (apply Z.mod_small; lia). destruct ok; cbn [negb].
  - destruct (Z.ltb_spec MULTI_PART (Z.of_nat (length msg))) as [Hm|Hm].
    + apply (response_packet session my 2 (bytes4 (u32 (Z.of_nat (length msg))))); [cbn; unfold MULTI_PART; lia|].
      intros b Hb. rewrite bytes4_le, le_bytes_u32. rewrite response_parts_ok; [done|done|unfold MULTI_PART in *; dlia|].
      apply in_parts_count. unfold MULTI_PART in *. lia.
    + rewrite Nat2Z.id, take_ge by done. by apply (response_packet session my 1 msg).
  - destruct (Z.ltb_spec MULTI_PART (Z.of_nat (length msg))) as [Hm|Hm].
    + assert (Hx : Z.of_nat (length (take (Z.to_nat MULTI_PART) msg)) = MULTI_PART) by (rewrite length_take; unfold MULTI_PART in *; lia).
      replace (MULTI_PART + 9) with (Z.of_nat (length (take (Z.to_nat MULTI_PART) msg)) + 9) by lia.
      replace (MULTI_PART + 11) with (Z.of_nat (length (take (Z.to_nat MULTI_PART) msg)) + 11) by lia.
      by apply (response_packet session my 0 (take (Z.to_nat MULTI_PART) msg)); [lia|].
    + rewrite Nat2Z.id, !take_ge by (done || unfold MULTI_PART in *; lia). by apply (response_packet session my 0 msg).
Qed.

(** ** Reading responses *)

Section ReadResponse.
Context (session my : Z) (Hs : 0 <= session < 2 ^ 32) (Hmy : 0 <= my < 2 ^ 32).

Lemma unpack_response kind x :
  lunpackresponse (response_body session my kind x) =
    match kind with
    | 0 => Ok [LInteger session; LBoolean false; LString x; LInteger my]
    | 1 => Ok [LInteger session; LBoolean true; LString x; LInteger my]
    | 4 => Ok [LInteger session; LBoolean true; LString x; LInteger my; LInteger 2]
    | 2 => if negb (9 + Z.of_nat (length x) =? 13) then Ok []
           else size ← unpack_uint32 (response_body session my kind x) 9;
                Ok [LInteger session; LBoolean true; LInteger size; LInteger my; LInteger 1]
    | 3 => Ok [LInteger session; LBoolean true; LString x; LInteger my; LInteger 1]
    | _ => Ok []
    end.
Proof.
  unfold lunpackresponse. rewrite length_response_body, (proj2 (Z.ltb_ge _ _)) by lia.
  assert (H0 : unpack_uint32 (response_body session my kind x) 0 = Ok session) by (by apply (unpack_uint32_app [] session)).
  assert (H4 : unpack_uint32 (response_body session my kind x) 4 = Ok my) by (apply (unpack_uint32_app (le_bytes 4 session) my); done).
  assert (H8 : arr_get (response_body session my kind x) 8 = Some kind) by done.
  assert (Hp : push_lstring (response_body session my kind x) 9 (9 + Z.of_nat (length x) - 9) = Ok (LString x)).
  { unfold response_body. rewrite !app_assoc. rewrite <- (app_nil_r x) at 1. by apply push_lstring_app; rewrite ?length_app, ?le_bytes_length; cbn; lia. }
  rewrite H0, H4, H8, Hp. cbn [defined mbind res_bind]. done.
Qed.

(** The parts of a response: 2 marks the last one. *)
Fixpoint response_rows (xs : list (list Z)) : list (list lua_value) :=
  match xs with
  | [] => []
  | x :: xs => [LInteger session; LBoolean true; LString x; LInteger my; LInteger (match xs with [] => 2 | _ => 1 end)] :: response_rows xs
  end.

Lemma unpack_response_parts xs :
  mapM lunpackresponse (part_bodies (λ w x, response_body w my 3 x) (λ w x, response_body w my 4 x) session xs) = Ok (response_rows xs).
Proof.
  induction xs as [|x xs IH]; [done|]. cbn [part_bodies response_rows mapM].
  destruct xs as [|y xs]; rewrite unpack_response; cbn [mbind res_bind]; [done|]. by rewrite IH.
Qed.
End ReadResponse.

(** The packets [bodies] give back a response. *)
Definition response_delivered (session my : Z) (ok : bool) (msg : list Z) (bodies : list (list Z)) : Prop :=
  match bodies with
  | [] => False
  | [body] => lunpackresponse body =
      Ok [LInteger session; LBoolean ok; LString (if ok then msg else take (Z.to_nat MULTI_PART) msg); LInteger my]
  | body :: parts =>
      lunpackresponse body = Ok [LInteger session; LBoolean true; LInteger (Z.of_nat (length msg)); LInteger my; LInteger 1] ∧
      ∃ xs, mapM lunpackresponse parts = Ok (response_rows session my xs) ∧
        lconcat (LInteger (Z.of_nat (length msg)) :: map LString xs) = Ok (Some msg)
  end.

Lemma responses_delivered session my ok msg :
  0 <= session < 2 ^ 32 → 0 <= my < 2 ^ 32 → Z.of_nat (length msg) <= INT_MAX →
  response_delivered session my ok msg (response_bodies session my ok msg).
Proof.
  intros Hs Hmy Hn. unfold response_bodies. destruct ok; cbn [negb]; [|by apply unpack_response].
  destruct (Z.ltb_spec MULTI_PART (Z.of_nat (length msg))) as [Hm|Hm]; [|by apply unpack_response].
  assert (Hp : in_parts (part_count (Z.of_nat (length msg))) (Z.of_nat (length msg))) by (apply in_parts_count; unfold MULTI_PART in *; lia).
  destruct (in_parts_split _ _ Hp) as [Hc _]. unfold response_delivered.
  destruct (split_parts (part_count (Z.of_nat (length msg))) msg) as [|x xs] eqn:E.
  { cbn in Hc. subst msg. unfold MULTI_PART in *. cbn in Hm. lia. }
  cbn [part_bodies]. split.
  - rewrite unpack_response by done. rewrite le_bytes_length. cbn [Z.eqb Z.add Z.of_nat Pos.eqb negb]. unfold response_body.
    rewrite !app_assoc, <- (app_nil_r (le_bytes 4 (Z.of_nat (length msg)))).
    by rewrite unpack_uint32_app by (rewrite ?length_app, ?le_bytes_length; done || unfold INT_MAX in *; lia).
  - exists (x :: xs). split; [by apply (unpack_response_parts session my Hs Hmy (x :: xs))|]. rewrite lconcat_ok by lia. by rewrite Hc, Z.eqb_refl.
Qed.

Lemma response_short session my ok msg : Forall short (response_bodies session my ok msg).
Proof.
  unfold response_bodies. destruct ok; cbn [negb].
  - destruct (Z.ltb_spec MULTI_PART (Z.of_nat (length msg))) as [Hm|Hm].
    + constructor; [unfold short; rewrite length_response_body, le_bytes_length; lia|].
      assert (Hp : in_parts (part_count (Z.of_nat (length msg))) (Z.of_nat (length msg))) by (apply in_parts_count; unfold MULTI_PART in *; lia).
      apply parts_short; [|by apply in_parts_split]. intros w x Hx. unfold short. rewrite !length_response_body. unfold MULTI_PART in *. lia.
    + repeat constructor. unfold short. rewrite length_response_body. unfold MULTI_PART in *. lia.
  - repeat constructor. unfold short. rewrite length_response_body, length_take. unfold MULTI_PART in *. lia.
Qed.

(** ** Theorems *)

(** C13. A request or push to another cluster arrives: for every address, every
    session and every message below 2 GB, [packrequest] stays within its buffer
    and returns packets; written to a socket one after the other and read with
    [lfilter] and [lpop] however the stream is cut, they are unpacked by
    [lunpackrequest] to the address, the session, the mark of a push and the
    message, which for one of 32 K or more [lconcat] puts together from its parts. *)
Theorem cluster_request_arrives addr session msg push :
  addr_ok addr → 0 < session <= INT_MAX → Z.of_nat (length msg) <= INT_MAX →
  ∃ first parts,
    packrequest addr session (Some msg) push = Ok (first, next_session REQUEST_S_MAX session, parts) ∧
    ∀ fd cs, concat cs = concat (first :: parts) → Forall chunk_ok (pair fd <$> cs) →
      ∃ out Q' bodies, receive_all None (pair fd <$> cs) = Some (out, Q') ∧
        mapM (λ p, ltostring (np_buffer p) (np_size p)) out = Some bodies ∧ delivered addr session msg push bodies.
Proof.
  intros Ha Hs Hn. pose proof (packrequest_ok addr session msg push Ha Hs Hn) as Hp.
  pose proof (request_delivered addr session msg push Ha Hs Hn) as Hd. pose proof (request_short addr session msg push Ha) as Hsh.
  destruct (request_bodies addr session msg push) as [first rest]. do 2 eexists. split; [exact Hp|]. intros fd cs Hcs Hch.
  destruct (packets_received (first :: rest) fd cs Hsh Hcs Hch) as (out & Q' & Hr & Ho). eauto 6.
Qed.

(** C14. A response to another cluster arrives with both sessions: every message
    below 2 GB whole, and an error with the first 32 K of its text. *)
Theorem cluster_response_arrives session my ok msg :
  0 <= session < 2 ^ 32 → 0 <= my < 2 ^ 32 - 1 → Z.of_nat (length msg) <= INT_MAX →
  ∃ packets,
    lpackresponse session my ok msg = Ok (packets, next_session RESPONSE_S_MAX my) ∧
    ∀ fd cs, concat cs = concat packets → Forall chunk_ok (pair fd <$> cs) →
      ∃ out Q' bodies, receive_all None (pair fd <$> cs) = Some (out, Q') ∧
        mapM (λ p, ltostring (np_buffer p) (np_size p)) out = Some bodies ∧ response_delivered session my ok msg bodies.
Proof.
  intros Hs Hmy Hn. eexists. split; [by apply lpackresponse_ok|]. intros fd cs Hcs Hch.
  destruct (packets_received _ fd cs (response_short session my ok msg) Hcs Hch) as (out & Q' & Hr & Ho).
  exists out, Q', (response_bodies session my ok msg). split_and!; [done|done|]. apply responses_delivered; [done|lia|done].
Qed.

(** A push of three bytes to a name, read in two chunks. *)
Lemma cluster_request_arrives_witness :
  ∃ out Q' bodies,
    receive_all None (pair 5 <$> [[0; 11; 128]; [2; 65; 66; 60; 0; 0; 128; 1; 2; 3]]) = Some (out, Q') ∧
    mapM (λ p, ltostring (np_buffer p) (np_size p)) out = Some bodies ∧ delivered (addr_string [65; 66]) 60 [1; 2; 3] true bodies.
Proof.
  destruct (cluster_request_arrives (addr_string [65; 66]) 60 [1; 2; 3] true) as (first & parts & Hp & Hall);
    [cbn; lia|unfold INT_MAX; lia|cbn; unfold INT_MAX; lia|].
  vm_compute in Hp. injection Hp as <- <-. apply Hall; [reflexivity|].
  repeat constructor; cbn; unfold is_byte; try done; try lia.
Defined.

Lemma cluster_response_arrives_witness :
  ∃ out Q' bodies,
    receive_all None (pair 5 <$> [[0; 11; 7; 0; 0; 0; 60; 0; 0]; [0; 1; 8; 9]]) = Some (out, Q') ∧
    mapM (λ p, ltostring (np_buffer p) (np_size p)) out = Some bodies ∧ response_delivered 7 60 true [8; 9] bodies.
Proof.
  destruct (cluster_response_arrives 7 60 true [8; 9]) as (packets & Hp & Hall); [lia|lia|cbn; unfold INT_MAX; lia|].
  vm_compute in Hp. injection Hp as <-. apply Hall; [reflexivity|].
  repeat constructor; cbn; unfold is_byte; try done; try lia.
Defined.

(** ** Bytes from another cluster *)

(** The packets a request is made of, with the values of each: an address (a
    number or a name), a session whose high bit marks a push, the message or the
    size of the parts that follow; or a part. *)
Inductive wf_request : list Z → list lua_value → Prop :=
  | packet_number a s body : 0 <= a < 2 ^ 32 → 0 <= s < 2 ^ 32 →
      wf_request ([0] ++ le_bytes 4 a ++ le_bytes 4 s ++ body)
        ([LInteger a; LInteger (s mod 2 ^ 31); LString body] ++ if 2 ^ 31 <=? s then [LNil; LBoolean true] else [])
  | packet_number_multi (push : bool) a s n : 0 <= a < 2 ^ 32 → 0 <= s < 2 ^ 32 → 0 <= n < 2 ^ 32 →
      wf_request ([if push then 65 else 1] ++ le_bytes 4 a ++ le_bytes 4 s ++ le_bytes 4 n)
        [LInteger a; LInteger (s mod 2 ^ 31); LInteger n; LBoolean true; LBoolean push]
  | packet_part (last : bool) s body : 0 <= s < 2 ^ 32 →
      wf_request ([if last then 3 else 2] ++ le_bytes 4 s ++ body)
        [LBoolean false; LInteger (s mod 2 ^ 31); LString body; LInteger (if last then 2 else 1)]
  | packet_string name s body : 0 <= s < 2 ^ 32 →
      wf_request ([128; Z.of_nat (length name)] ++ name ++ le_bytes 4 s ++ body)
        ([LString name; LInteger (s mod 2 ^ 31); LString body] ++ if 2 ^ 31 <=? s then [LNil; LBoolean true] else [])
  | packet_string_multi (push : bool) name s n rest : 0 <= s < 2 ^ 32 → 0 <= n < 2 ^ 32 →
      wf_request ([if push then 193 else 129; Z.of_nat (length name)] ++ name ++ le_bytes 4 s ++ le_bytes 4 n ++ rest)
        [LString name; LInteger (s mod 2 ^ 31); LInteger n; LBoolean true; LBoolean push].

(** The packets of a response, by the byte that follows the two sessions. *)
Inductive wf_response : list Z → list lua_value → Prop :=
  | packet_response k s m body : 0 <= s < 2 ^ 32 → 0 <= m < 2 ^ 32 → k = 0 ∨ k = 1 ∨ k = 3 ∨ k = 4 →
      wf_response (le_bytes 4 s ++ le_bytes 4 m ++ [k] ++ body)
        ([LInteger s; LBoolean (negb (k =? 0)); LString body; LInteger m] ++
         if k =? 3 then [LInteger 1] else if k =? 4 then [LInteger 2] else [])
  | packet_response_multi s m n : 0 <= s < 2 ^ 32 → 0 <= m < 2 ^ 32 → 0 <= n < 2 ^ 32 →
      wf_response (le_bytes 4 s ++ le_bytes 4 m ++ [2] ++ le_bytes 4 n)
        [LInteger s; LBoolean true; LInteger n; LInteger m; LInteger 1].

Lemma kick_mod s : KICK_HIGH_BIT_INT32 s = s mod 2 ^ 31.
Proof. unfold KICK_HIGH_BIT_INT32. change (i32 (i32 (Z.shiftl 1 31) - 1)) with (2 ^ 31 - 1). by rewrite land_ones_mod by lia. Qed.

Lemma check_high s : 0 <= s < 2 ^ 32 → negb (CHECK_HIGH_BIT_INT32 s =? 0) = (2 ^ 31 <=? s).
Proof.
  intros Hs. unfold CHECK_HIGH_BIT_INT32. change (u32 (i32 (Z.shiftl 1 31))) with (Z.shiftl 1 31).
  pose proof (land_shiftl_low 1 (s mod 2 ^ 31) 31 ltac:(lia) ltac:(dlia)) as Hz. destruct (Z.leb_spec (2 ^ 31) s).
  - replace s with (Z.lor (Z.shiftl 1 31) (s mod 2 ^ 31)) at 1 by (rewrite lor_shiftl_add by dlia; dlia).
    rewrite Z.land_lor_distr_l, Z.land_diag, (Z.land_comm (s mod _)), Hz. done.
  - rewrite Z.mod_small in Hz by lia. rewrite Z.land_comm, Hz. done.
Qed.

(** A word at the start of a list of bytes. *)
Lemma dword_split l : Forall is_byte l → 4 <= Z.of_nat (length l) → ∃ v r, l = le_bytes 4 v ++ r ∧ 0 <= v < 2 ^ 32 ∧ length l = (4 + length r)%nat ∧ Forall is_byte r.
Proof.
  intros Hl Hn. exists (le_val (take 4 l)), (drop 4 l). assert (Ht : length (take 4 l) = 4%nat) by (rewrite length_take; lia).
  pose proof (le_val_range (take 4 l) (Forall_take _ _ _ Hl)) as Hr. rewrite Ht in *. rewrite <- Ht at 1. rewrite le_bytes_val by (by apply Forall_take).
  change (256 ^ Z.of_nat 4) with (2 ^ 32) in Hr. rewrite take_drop, length_drop. split_and!; [done|lia|lia|lia|by apply Forall_drop].
Qed.

Lemma split_at (l : list Z) n : 0 <= n <= Z.of_nat (length l) → ∃ a r, l = a ++ r ∧ Z.of_nat (length a) = n.
Proof. intros Hn. exists (take (Z.to_nat n) l), (drop (Z.to_nat n) l). rewrite take_drop, length_take. split; [done|lia]. Qed.

Lemma read_word d pre v rest off : d = pre ++ le_bytes 4 v ++ rest → off = Z.of_nat (length pre) → 0 <= v < 2 ^ 32 → unpack_uint32 d off = Ok v.
Proof. intros ->. apply unpack_uint32_app. Qed.

Lemma read_string d pre t rest off n : d = pre ++ t ++ rest → off = Z.of_nat (length pre) → n = Z.of_nat (length t) → push_lstring d off n = Ok (LString t).
Proof. intros ->. apply push_lstring_app. Qed.

(** The packet [d] is its parts, of known lengths. *)
Ltac parts Ed := subst; rewrite <- ?app_assoc, ?app_nil_r; done.
Ltac lengths := subst; rewrite ?length_app, ?le_bytes_length; cbn [length]; lia.
Ltac word d off pre v rest := rewrite (read_word d pre v rest off) by (done || lengths || parts d); cbn [mbind res_bind].
Ltac text d off pre t rest := rewrite (read_string d pre t rest off) by (done || lengths || parts d); cbn [mbind res_bind].

Ltac enough_bytes := match goal with |- context [?a <? ?b] => destruct (Z.ltb_spec a b); [lia|] end.

(** What is read from a packet. *)
Lemma wf_request_ok d vs : Z.of_nat (length d) <= INT_MAX → wf_request d vs → lunpackrequest d = Ok vs.
Proof.
  intros Hl Hw. unfold lunpackrequest. rewrite i32_small by (unfold INT_MIN; lia). clear Hl.
  destruct Hw as [a s body Ha Hs|push a s n Ha Hs Hn|last s body Hs|name s body Hs|push name s n rest Hs Hn];
    match goal with |- context [hd 0 ?l] => remember l as d eqn:Ed end.
  - replace (hd 0 d) with 0 by (by rewrite Ed). assert (Hd : Z.of_nat (length d) = 9 + Z.of_nat (length body)) by lengths.
    unfold unpackreq_number. rewrite Hd. enough_bytes. word d 1 [0] a (le_bytes 4 s ++ body). word d 5 ([0] ++ le_bytes 4 a) s body.
    text d 9 ([0] ++ le_bytes 4 a ++ le_bytes 4 s) body (@nil Z). rewrite kick_mod, check_high by done. by destruct (2 ^ 31 <=? s).
  - assert (Hd : Z.of_nat (length d) = 13) by lengths.
    assert (Hm : unpackmreq_number d (Z.of_nat (length d)) push = Ok [LInteger a; LInteger (s mod 2 ^ 31); LInteger n; LBoolean true; LBoolean push]).
    { unfold unpackmreq_number. rewrite Hd. cbn [Z.eqb negb Pos.eqb]. set (k := if push then 65 else 1) in *. word d 1 [k] a (le_bytes 4 s ++ le_bytes 4 n).
      word d 5 ([k] ++ le_bytes 4 a) s (le_bytes 4 n). word d 9 ([k] ++ le_bytes 4 a ++ le_bytes 4 s) n (@nil Z). by rewrite kick_mod. }
    replace (hd 0 d) with (if push then 65 else 1) by (by rewrite Ed). by destruct push.
  - set (k := if last then 3 else 2) in *. assert (Hd : Z.of_nat (length d) = 5 + Z.of_nat (length body)) by lengths.
    assert (Hm : unpackmreq_part d (Z.of_nat (length d)) = Ok [LBoolean false; LInteger (s mod 2 ^ 31); LString body; LInteger (if last then 2 else 1)]).
    { unfold unpackmreq_part. rewrite Hd. enough_bytes. replace (arr_get d 0) with (Some k) by (by rewrite Ed). cbn [defined mbind res_bind].
      word d 1 [k] s body. text d 5 ([k] ++ le_bytes 4 s) body (@nil Z). rewrite kick_mod. by destruct last. }
    replace (hd 0 d) with k by (by rewrite Ed). by destruct last.
  - replace (hd 0 d) with 128 by (by rewrite Ed). set (k := Z.of_nat (length name)) in *.
    assert (Hd : Z.of_nat (length d) = k + 6 + Z.of_nat (length body)) by (unfold k; lengths).
    unfold unpackreq_string. rewrite Hd. enough_bytes. replace (arr_get d 1) with (Some k) by (by rewrite Ed). cbn [defined mbind res_bind]. enough_bytes.
    text d 2 [128; k] name (le_bytes 4 s ++ body). word d (k + 2) ([128; k] ++ name) s body. text d (2 + k + 4) ([128; k] ++ name ++ le_bytes 4 s) body (@nil Z).
    rewrite kick_mod, u32_small, check_high by (done || dlia). by destruct (2 ^ 31 <=? s).
  - set (b := if push then 193 else 129) in *. set (k := Z.of_nat (length name)) in *.
    assert (Hd : Z.of_nat (length d) = k + 10 + Z.of_nat (length rest)) by (unfold k; lengths).
    assert (Hm : unpackmreq_string d (Z.of_nat (length d)) push = Ok [LString name; LInteger (s mod 2 ^ 31); LInteger n; LBoolean true; LBoolean push]).
    { unfold unpackmreq_string. rewrite Hd. enough_bytes. replace (arr_get d 1) with (Some k) by (by rewrite Ed). cbn [defined mbind res_bind]. enough_bytes.
      text d 2 [b; k] name (le_bytes 4 s ++ le_bytes 4 n ++ rest). word d (k + 2) ([b; k] ++ name) s (le_bytes 4 n ++ rest).
      word d (k + 6) ([b; k] ++ name ++ le_bytes 4 s) n rest. by rewrite kick_mod. }
    replace (hd 0 d) with b by (by rewrite Ed). by destruct push.
Qed.

Lemma wf_response_ok d vs : wf_response d vs → lunpackresponse d = Ok vs ∧ vs ≠ [].
Proof.
  intros Hw. unfold lunpackresponse.
  destruct Hw as [k s m body Hs Hm Hk|s m n Hs Hm Hn]; match goal with |- context [arr_get ?l 8] => remember l as d eqn:Ed end; (split; [|done]).
  - assert (Hd : Z.of_nat (length d) = 9 + Z.of_nat (length body)) by lengths. rewrite Hd. enough_bytes.
    word d 0 (@nil Z) s (le_bytes 4 m ++ [k] ++ body). word d 4 (le_bytes 4 s) m ([k] ++ body). replace (arr_get d 8) with (Some k) by (by rewrite Ed).
    cbn [defined mbind res_bind]. text d 9 (le_bytes 4 s ++ le_bytes 4 m ++ [k]) body (@nil Z). by destruct Hk as [->|[->|[->| ->]]].
  - assert (Hd : Z.of_nat (length d) = 13) by lengths. rewrite Hd. enough_bytes.
    word d 0 (@nil Z) s (le_bytes 4 m ++ [2] ++ le_bytes 4 n). word d 4 (le_bytes 4 s) m ([2] ++ le_bytes 4 n). replace (arr_get d 8) with (Some 2) by (by rewrite Ed).
    cbn [defined mbind res_bind Z.eqb Pos.eqb negb]. by word d 9 (le_bytes 4 s ++ le_bytes 4 m ++ [2]) n (@nil Z).
Qed.

(** Every other list of bytes is refused. *)
Ltac next_word l v r := destruct (dword_split l) as (v & r & -> & ? & ? & ?); [done|cbn [length] in *; lia|].

Lemma number_cases l (k : Z) : Forall is_byte l → 8 <= Z.of_nat (length l) →
  ∃ a s r, k :: l = [k] ++ le_bytes 4 a ++ le_bytes 4 s ++ r ∧ 0 <= a < 2 ^ 32 ∧ 0 <= s < 2 ^ 32 ∧ length l = (8 + length r)%nat ∧ Forall is_byte r.
Proof. intros Hb Hl. next_word l a r1. next_word r1 s r. exists a, s, r. rewrite !length_app, !le_bytes_length. split_and!; done || lia. Qed.

Lemma name_cases l (k : Z) x n : Forall is_byte l → is_byte x → 0 <= n → x + n <= Z.of_nat (length l) →
  ∃ name r, k :: x :: l = [k; Z.of_nat (length name)] ++ name ++ r ∧ length l = (length name + length r)%nat ∧ Z.of_nat (length name) = x ∧ Forall is_byte r.
Proof.
  intros Hb [Hx _] Hn Hl. destruct (split_at l x) as (name & r & -> & E); [lia|]. exists name, r. apply Forall_app in Hb as [_ Hb].
  rewrite E, length_app. by split_and!.
Qed.

Lemma request_cases d : Forall is_byte d → Z.of_nat (length d) <= INT_MAX → (∃ vs, wf_request d vs) ∨ lunpackrequest d = Fail.
Proof.
  intros Hb Hl. destruct d as [|k l]; [right; reflexivity|]. apply Forall_cons in Hb as [_ Hb].
  assert (Hsz : i32 (Z.of_nat (length (k :: l))) = 1 + Z.of_nat (length l)) by (rewrite i32_small by (unfold INT_MIN; lia); cbn [length]; lia).
  assert (Hread : lunpackrequest (k :: l) = match k with
    | 0 => unpackreq_number (k :: l) (1 + Z.of_nat (length l)) | 1 => unpackmreq_number (k :: l) (1 + Z.of_nat (length l)) false
    | 65 => unpackmreq_number (k :: l) (1 + Z.of_nat (length l)) true | 2 | 3 => unpackmreq_part (k :: l) (1 + Z.of_nat (length l))
    | 128 => unpackreq_string (k :: l) (1 + Z.of_nat (length l)) | 129 => unpackmreq_string (k :: l) (1 + Z.of_nat (length l)) false
    | 193 => unpackmreq_string (k :: l) (1 + Z.of_nat (length l)) true | _ => Fail end) by (unfold lunpackrequest; by rewrite Hsz).
  rewrite Hread. clear Hread Hsz Hl.
  destruct (decide (k = 0)) as [->|N0].
  { unfold unpackreq_number. destruct (Z.ltb_spec (1 + Z.of_nat (length l)) 9); [by right|left].
    destruct (number_cases l 0 Hb) as (a & s & r & -> & ? & ? & _); [lia|]. eexists. by constructor. }
  assert (Hmulti : ∀ push : bool, k = (if push then 65 else 1) → (∃ vs, wf_request (k :: l) vs) ∨ unpackmreq_number (k :: l) (1 + Z.of_nat (length l)) push = Fail).
  { intros push ->. unfold unpackmreq_number. destruct (Z.eqb_spec (1 + Z.of_nat (length l)) 13); [left|by right].
    destruct (number_cases l (if push then 65 else 1) Hb) as (a & s & r & -> & ? & ? & ? & ?); [lia|]. next_word r n r'.
    assert (r' = []) as -> by (apply nil_length_inv; rewrite length_app, le_bytes_length in *; lia). rewrite app_nil_r. eexists. by constructor. }
  assert (Hpart : ∀ last : bool, k = (if last then 3 else 2) → (∃ vs, wf_request (k :: l) vs) ∨ unpackmreq_part (k :: l) (1 + Z.of_nat (length l)) = Fail).
  { intros last ->. unfold unpackmreq_part. destruct (Z.ltb_spec (1 + Z.of_nat (length l)) 5); [by right|left]. next_word l s r. eexists. by constructor. }
  assert (Hname : k = 128 → (∃ vs, wf_request (k :: l) vs) ∨ unpackreq_string (k :: l) (1 + Z.of_nat (length l)) = Fail).
  { intros ->. unfold unpackreq_string. destruct l as [|x l]; [by right|]. apply Forall_cons in Hb as [Hx Hb]. change (arr_get (128 :: x :: l) 1) with (Some x).
    cbn [length defined mbind res_bind]. destruct (Z.ltb_spec (1 + Z.of_nat (S (length l))) 2); [by right|].
    destruct (Z.ltb_spec (1 + Z.of_nat (S (length l))) (x + 6)); [by right|left].
    destruct (name_cases l 128 x 4 Hb Hx) as (name & r & -> & ? & ? & ?); [lia|lia|]. next_word r s r'. eexists. by constructor. }
  assert (Hnames : ∀ push : bool, k = (if push then 193 else 129) → (∃ vs, wf_request (k :: l) vs) ∨ unpackmreq_string (k :: l) (1 + Z.of_nat (length l)) push = Fail).
  { intros push ->. unfold unpackmreq_string. destruct l as [|x l]; [by right|]. apply Forall_cons in Hb as [Hx Hb].
    change (arr_get ((if push then 193 else 129) :: x :: l) 1) with (Some x). cbn [length defined mbind res_bind].
    destruct (Z.ltb_spec (1 + Z.of_nat (S (length l))) 2); [by right|]. destruct (Z.ltb_spec (1 + Z.of_nat (S (length l))) (x + 10)); [by right|left].
    destruct (name_cases l (if push then 193 else 129) x 8 Hb Hx) as (name & r & -> & ? & ? & ?); [lia|lia|]. next_word r s r1.
    rewrite length_app, le_bytes_length in *. next_word r1 n r2. eexists. by constructor. }
  repeat case_match; try (by right); first [done | by apply (Hmulti false) | by apply (Hmulti true) | by apply (Hpart false) | by apply (Hpart true) | by apply Hname | by apply (Hnames false) | by apply (Hnames true)].
Qed.

Lemma response_cases d : Forall is_byte d → (∃ vs, wf_response d vs) ∨ lunpackresponse d = Ok [].
Proof.
  intros Hb. unfold lunpackresponse. destruct (Z.ltb_spec (Z.of_nat (length d)) 9); [by right|].
  next_word d s r. rewrite length_app, le_bytes_length in *. next_word r m r1. rewrite length_app, le_bytes_length in *. destruct r1 as [|k body]; [cbn in *; lia|].
  cbn [length] in *. destruct (decide (k = 0 ∨ k = 1 ∨ k = 3 ∨ k = 4)) as [Hk|Hk]; [left; eexists; by apply (packet_response k s m body)|].
  assert (k = 2 ∧ length body = 4%nat ∨ ¬ (k = 2 ∧ length body = 4%nat)) as [[-> E]|Hno] by (destruct (decide (k = 2)), (decide (length body = 4%nat)); naive_solver).
  - left. match goal with H : Forall is_byte (2 :: body) |- _ => apply Forall_cons in H as [_ ?] end. next_word body n r2.
    assert (r2 = []) as -> by (apply nil_length_inv; rewrite length_app, le_bytes_length in *; lia). rewrite app_nil_r. eexists. by apply packet_response_multi.
  - right. remember (le_bytes 4 s ++ le_bytes 4 m ++ k :: body) as d eqn:Ed. assert (Hd : Z.of_nat (length d) = 9 + Z.of_nat (length body)) by lengths.
    word d 0 (@nil Z) s (le_bytes 4 m ++ [k] ++ body). word d 4 (le_bytes 4 s) m ([k] ++ body). replace (arr_get d 8) with (Some k) by (by rewrite Ed).
    cbn [defined mbind res_bind]. repeat case_match; try done; exfalso; bool_to_prop; first [apply Hno; split; [done|lia] | apply Hk; lia].
Qed.

(** C39. Whatever bytes come from another cluster, nothing outside the packet is
    read, and what is returned is determined: [lunpackrequest] returns the
    values of a packet that is well formed ([wf_request]: an address, a
    session and a message or a size, or a part) and raises an error for any other;
    [lunpackresponse] returns the values of a well-formed packet
    ([wf_response]) and nothing for any other. *)
Theorem cluster_unpack_any d :
  Forall is_byte d → Z.of_nat (length d) <= INT_MAX →
  (∀ vs, lunpackrequest d = Ok vs ↔ wf_request d vs) ∧ (lunpackrequest d = Fail ↔ ∀ vs, ¬ wf_request d vs) ∧
  (∀ vs, vs ≠ [] → lunpackresponse d = Ok vs ↔ wf_response d vs) ∧ (lunpackresponse d = Ok [] ↔ ∀ vs, ¬ wf_response d vs).
Proof.
  intros Hd Hl. pose proof (λ vs, wf_request_ok d vs Hl) as Hq. pose proof (wf_response_ok d) as Hr.
  destruct (request_cases d Hd Hl) as [[vs0 Hv]|Hf]; [pose proof (Hq _ Hv) as E|]; (split; [|split]).
  1, 4: intros vs; split; [intros Hx|apply Hq]; congruence.
  1, 3: split; [intros Hx vs Hw; apply Hq in Hw; congruence|intros Hn; by destruct (Hn vs0) || done].
  all: destruct (response_cases d Hd) as [[ws Hw]|Ho]; [destruct (Hr _ Hw) as [E' Hne]|]; split.
  1, 3, 5, 7: intros ws' Hne'; split; [intros Hx|apply Hr]; congruence.
  all: split; [intros Hx ws' Hw'; destruct (Hr _ Hw'); congruence|intros Hn; by destruct (Hn ws) || done].
Qed.

Lemma cluster_unpack_any_witness :
  lunpackrequest [129; 200; 65] = Fail ∧ (∀ vs, ¬ wf_request [129; 200; 65] vs) ∧
  lunpackrequest [3; 7; 0; 0; 0; 65] = Ok [LBoolean false; LInteger 7; LString [65]; LInteger 2] ∧
  wf_request [3; 7; 0; 0; 0; 65] [LBoolean false; LInteger 7; LString [65]; LInteger 2] ∧ ∀ vs, ¬ wf_response [129; 200; 65] vs.
Proof.
  assert (H1 : Forall is_byte [129; 200; 65]) by (repeat constructor; lia). assert (H2 : Forall is_byte [3; 7; 0; 0; 0; 65]) by (repeat constructor; lia).
  destruct (cluster_unpack_any [129; 200; 65] H1 ltac:(vm_compute; congruence)) as (_ & Hf & _ & Hr).
  destruct (cluster_unpack_any [3; 7; 0; 0; 0; 65] H2 ltac:(vm_compute; congruence)) as (Hok & _).
  split_and!; [reflexivity|by apply Hf|reflexivity|by apply Hok|by apply Hr].
Defined.

(** A size of 2^31 or more in the first packet of a message is negative for
    [lconcat], and too much to allocate. *)
Example concat_negative : lunpackrequest ([1] ++ [1; 0; 0; 0] ++ [60; 0; 0; 0] ++ [0; 0; 0; 128]) =
    Ok [LInteger 1; LInteger 60; LInteger (2 ^ 31); LBoolean true; LBoolean false] ∧ lconcat [LInteger (2 ^ 31)] = Undef.
Proof. by split. Qed.

(** A message of exactly 32 K goes in one part behind a packet of its own. *)
Lemma exactly_32k msg : Z.of_nat (length msg) = MULTI_PART →
  ∃ first next part, packrequest (addr_number 1) 60 (Some msg) false = Ok (first, next, [part]).
Proof.
  intros Hl. rewrite packrequest_ok; [|done|unfold INT_MAX; lia|rewrite Hl; unfold MULTI_PART, INT_MAX; lia].
  unfold request_bodies. rewrite Hl, (proj2 (Z.ltb_ge _ _)) by lia. replace (part_count MULTI_PART) with 1%nat by done.
  do 3 eexists. cbn [split_parts part_bodies map]. reflexivity.
Qed.
