(* ===== verification/HashId.v ===== *)
(** * Socket ids to connection slots: service-src/hashid.h

    The gate keeps its connections in an array of fixed size; [hashid] maps a
    socket id to the slot it was given.  The nodes are an array, one per slot,
    linked into the chains of a hash table by pointers, here indices into the
    array ([None] is NULL).

    [hashid_clear] only frees the two arrays. *)

From Stdlib Require Import ZArith Lia.
From stdpp Require Import base tactics option numbers gmap list.
From S2P Require Import Prelude.

Record hashid_node := mk_node { hn_id : Z; hn_next : option nat }.

Record hashid := mk_hashid {
  hashmod : Z;
  cap : Z;
  count : Z;
  ids : list hashid_node;
  hash : list (option nat)
}.

(** [while (hashcap < max) hashcap *= 2] *)
Fixpoint hashcap_loop (fuel : nat) (hashcap max : Z) : option Z :=
  if hashcap <? max then
    match fuel with
    | O => None
    | S f => h ← chk32 (hashcap * 2); hashcap_loop f h max
    end
  else Some hashcap.

Definition hashid_init (max : Z) : option hashid :=
  hashcap ← hashcap_loop 32 16 max;
  Some (mk_hashid (hashcap - 1) max 0
    (replicate (Z.to_nat max) (mk_node (-1) None)) (replicate (Z.to_nat hashcap) None)).

Definition hashid_clear (hi : hashid) : hashid := mk_hashid 1 0 0 [] [].

(** The loop of [hashid_lookup] along a chain. *)
Fixpoint lookup_loop (fuel : nat) (ids : list hashid_node) (c : option nat) (id : Z) : option Z :=
  match c with
  | None => Some (-1)
  | Some s =>
      match fuel with
      | O => None
      | S f =>
          nd ← ids !! s;
          if hn_id nd =? id then Some (Z.of_nat s) else lookup_loop f ids (hn_next nd) id
      end
  end.

Definition hashid_lookup (hi : hashid) (id : Z) : option Z :=
  let h := Z.land id (hashmod hi) in
  c ← arr_get (hash hi) h;
  lookup_loop (S (length (ids hi))) (ids hi) c id.

(** [while (c->next)]: the node [c] whose successor has the id is unlinked
    from it; the result is that successor, and the nodes. *)
Fixpoint unlink_loop (fuel : nat) (ids : list hashid_node) (s : nat) (id : Z)
    : option (option nat * list hashid_node) :=
  match fuel with
  | O => None
  | S f =>
      nd ← ids !! s;
      match hn_next nd with
      | None => Some (None, ids)
      | Some t =>
          nt ← ids !! t;
          if hn_id nt =? id then Some (Some t, <[s := mk_node (hn_id nd) (hn_next nt)]> ids)
          else unlink_loop f ids t id
      end
  end.

(** [_clear:] *)
Definition clear_node (hi : hashid) (ids : list hashid_node) (hash : list (option nat)) (s : nat) : hashid * Z :=
  (mk_hashid (hashmod hi) (cap hi) (count hi - 1) (<[s := mk_node (-1) None]> ids) hash, Z.of_nat s).

Definition hashid_remove (hi : hashid) (id : Z) : option (hashid * Z) :=
  let h := Z.land id (hashmod hi) in
  c ← arr_get (hash hi) h;
  match c with
  | None => Some (hi, -1)
  | Some s =>
      nd ← ids hi !! s;
      if hn_id nd =? id then
        hash' ← arr_set (hash hi) h (hn_next nd);
        Some (clear_node hi (ids hi) hash' s)
      else
        '(r, ids') ← unlink_loop (S (length (ids hi))) (ids hi) s id;
        match r with
        | None => Some (hi, -1)
        | Some t => Some (clear_node hi ids' (hash hi) t)
        end
  end.

(** The search for a free node in [hashid_insert]; [i + id] is an int. *)
Fixpoint free_loop (n : nat) (hi : hashid) (i id : Z) : option (option nat) :=
  match n with
  | O => Some None
  | S n' =>
      sum ← chk32 (i + id);
      let index := Z.rem sum (cap hi) in
      nd ← arr_get (ids hi) index;
      if hn_id nd =? -1 then Some (Some (Z.to_nat index)) else free_loop n' hi (i + 1) id
  end.

Definition hashid_insert (hi : hashid) (id : Z) : option (hashid * Z) :=
  r ← free_loop (Z.to_nat (cap hi)) hi 0 id;
  s ← r;
  nd ← ids hi !! s;
  _ ← c_assert (match hn_next nd with None => true | Some _ => false end);
  let h := Z.land id (hashmod hi) in
  c ← arr_get (hash hi) h;
  let ids' := <[s := mk_node id (match c with Some t => Some t | None => hn_next nd end)]> (ids hi) in
  hash' ← arr_set (hash hi) h (Some s);
  Some (mk_hashid (hashmod hi) (cap hi) (count hi + 1) ids' hash', Z.of_nat s).

Definition hashid_full (hi : hashid) : bool := count hi =? cap hi.

Example hashid_test :
  (hi ← hashid_init 20; '(hi, a) ← hashid_insert hi 5; '(hi, b) ← hashid_insert hi 37;
   '(hi, c) ← hashid_insert hi 69; '(hi, d) ← hashid_remove hi 37; x ← hashid_lookup hi 69; y ← hashid_lookup hi 37;
   Some [a; b; c; d; x; y]) = Some [5; 17; 9; 17; 9; -1].
Proof. reflexivity. Qed.

(** ** The map it stands for *)

(** The pointer [p] starts the chain of the slots [l]. *)
Fixpoint linked (ids : list hashid_node) (p : option nat) (l : list nat) : Prop :=
  match l with
  | [] => p = None
  | s :: l' => p = Some s ∧ ∃ nd, ids !! s = Some nd ∧ linked ids (hn_next nd) l'
  end.

(** The slots of the ids of a bucket. *)
Definition in_bucket (hi : hashid) (m : gmap Z nat) (h : Z) (s : nat) : Prop :=
  ∃ id, m !! id = Some s ∧ Z.land id (hashmod hi) = h.

Definition bucket_ok (hi : hashid) (m : gmap Z nat) (h : Z) : Prop :=
  ∃ p l, hash hi !! Z.to_nat h = Some p ∧ linked (ids hi) p l ∧ NoDup l ∧ ∀ s, s ∈ l ↔ in_bucket hi m h s.

(** The number of slots in use. *)
Fixpoint used (l : list Z) : Z :=
  match l with
  | [] => 0
  | x :: l' => (if x =? -1 then 0 else 1) + used l'
  end.

Record hashid_map (hi : hashid) (m : gmap Z nat) : Prop := {
  hm_cap : 0 < cap hi <= 2 ^ 30;
  hm_len : Z.of_nat (length (ids hi)) = cap hi;
  hm_mod : ∃ k, 4 <= k <= 30 ∧ hashmod hi = 2 ^ k - 1 ∧ Z.of_nat (length (hash hi)) = 2 ^ k;
  hm_count : count hi = Z.of_nat (size m);
  hm_used : count hi = used (hn_id <$> ids hi);
  hm_slot : ∀ s nd, ids hi !! s = Some nd → if hn_id nd =? -1 then hn_next nd = None else m !! hn_id nd = Some s;
  hm_map : ∀ id s, m !! id = Some s → id ≠ -1 ∧ ∃ nd, ids hi !! s = Some nd ∧ hn_id nd = id;
  hm_bucket : ∀ h, 0 <= h <= hashmod hi → bucket_ok hi m h
}.

Lemma bucket_range hi m id : hashid_map hi m → 0 <= Z.land id (hashmod hi) <= hashmod hi.
Proof.
  intros Hm. destruct (hm_mod _ _ Hm) as (k & Hk & -> & _). rewrite land_ones_mod by lia.
  pose proof (Z.mod_pos_bound id (2 ^ k) ltac:(apply Z.pow_pos_nonneg; lia)). lia.
Qed.

Lemma map_inj hi m id id' s : hashid_map hi m → m !! id = Some s → m !! id' = Some s → id = id'.
Proof.
  intros Hm H1 H2. apply (hm_map _ _ Hm) in H1 as (_ & nd & Hn & <-). apply (hm_map _ _ Hm) in H2 as (_ & nd' & Hn' & <-).
  congruence.
Qed.

Lemma linked_lt ids p l s : linked ids p l → s ∈ l → (s < length ids)%nat.
Proof.
  revert p. induction l as [|t l IH]; intros p Hl Hs; [by apply not_elem_of_nil in Hs|].
  destruct Hl as (-> & nd & Hn & Hl). apply elem_of_cons in Hs as [->|Hs]; [by eapply lookup_lt_Some|by eapply IH].
Qed.

Lemma linked_short ids p l : linked ids p l → NoDup l → (length l <= length ids)%nat.
Proof.
  intros Hl Hn. rewrite <- (length_seq (length ids) 0). apply submseteq_length, NoDup_submseteq; [done|].
  intros s Hs. apply elem_of_seq. pose proof (linked_lt _ _ _ _ Hl Hs). lia.
Qed.

(** A chain is unchanged by updates of other nodes. *)
Lemma linked_insert ids p l s nd : s ∉ l → linked ids p l → linked (<[s := nd]> ids) p l.
Proof.
  revert p. induction l as [|t l IH]; intros p Hs Hl; [done|]. destruct Hl as (-> & n' & Hn & Hl).
  rewrite not_elem_of_cons in Hs. destruct Hs as [Hne Hs]. split; [done|]. exists n'.
  rewrite list_lookup_insert_ne by done. split; [done|]. by apply IH.
Qed.

(** ** Lookup *)

Definition slot_of (m : gmap Z nat) (id : Z) : Z := match m !! id with Some s => Z.of_nat s | None => -1 end.

Lemma lookup_loop_ok ids p l fuel id :
  linked ids p l → (length l <= fuel)%nat →
  (∃ s nd, s ∈ l ∧ ids !! s = Some nd ∧ hn_id nd = id ∧ lookup_loop fuel ids p id = Some (Z.of_nat s)) ∨
  ((∀ s nd, s ∈ l → ids !! s = Some nd → hn_id nd ≠ id) ∧ lookup_loop fuel ids p id = Some (-1)).
Proof.
  revert p fuel. induction l as [|t l IH]; intros p fuel Hl Hf.
  { right. simpl in Hl. subst p. destruct fuel; (split; [by intros ?? ?%not_elem_of_nil|done]). }
  destruct Hl as (-> & nd & Hn & Hl). destruct fuel as [|fuel]; [simpl in Hf; lia|]. cbn [lookup_loop]. rewrite Hn.
  cbn [mbind option_bind]. destruct (Z.eqb_spec (hn_id nd) id) as [He|Hne].
  { left. exists t, nd. split_and!; auto. constructor. }
  destruct (IH _ fuel Hl) as [(s & ns & Hs & Hns & Hid & He)|[Hno He]]; [simpl in Hf; lia| |].
  - left. exists s, ns. rewrite He. split_and!; auto. by constructor.
  - right. rewrite He. split; [|done]. intros s ns Hs Hns. apply elem_of_cons in Hs as [->|Hs]; [congruence|eauto].
Qed.

Lemma hashid_lookup_ok hi m id : hashid_map hi m → hashid_lookup hi id = Some (slot_of m id).
Proof.
  intros Hm. pose proof (bucket_range hi m id Hm) as Hr. unfold hashid_lookup, slot_of.
  destruct (hm_bucket _ _ Hm _ Hr) as (p & l & Hp & Hl & Hd & Hs).
  rewrite arr_get_lookup, Hp by lia. cbn [mbind option_bind].
  pose proof (linked_short _ _ _ Hl Hd).
  destruct (lookup_loop_ok (ids hi) p l (S (length (ids hi))) id Hl) as [(s & nd & Hin & Hn & Hid & ->)|[Hno ->]]; [lia| |].
  - apply Hs in Hin as (id' & Hm' & _). pose proof Hm' as Hm2. apply (hm_map _ _ Hm) in Hm2 as (_ & nd' & Hn' & Hid').
    assert (id' = id) as -> by congruence. by rewrite Hm'.
  - destruct (m !! id) as [s|] eqn:Hid; [|done]. exfalso. destruct (hm_map _ _ Hm _ _ Hid) as (_ & nd & Hn & Hi).
    apply (Hno s nd); auto. apply Hs. by exists id.
Qed.

(** ** Initialization *)

Lemma hashcap_loop_ok fuel k max :
  4 <= k → (31 - k <= Z.of_nat fuel) → k <= 30 → max <= 2 ^ 30 →
  ∃ k', k <= k' <= 30 ∧ hashcap_loop fuel (2 ^ k) max = Some (2 ^ k').
Proof.
  revert k. induction fuel as [|fuel IH]; intros k Hk Hf Hk' Hm; [lia|]. cbn [hashcap_loop].
  destruct (Z.ltb_spec (2 ^ k) max) as [Hlt|Hge]; [|exists k; split; [lia|done]].
  assert (Hk30 : k < 30). { destruct (decide (k = 30)); [subst; lia|lia]. }
  assert (Hp : 2 ^ k * 2 = 2 ^ (k + 1)) by (rewrite Z.pow_add_r by lia; lia).
  assert (2 ^ (k + 1) <= 2 ^ 30) by (apply Z.pow_le_mono_r; lia).
  assert (0 < 2 ^ k) by (apply Z.pow_pos_nonneg; lia).
  rewrite chk32_some by (unfold INT_MIN, INT_MAX; lia). cbn [mbind option_bind]. rewrite Hp.
  destruct (IH (k + 1)) as (k' & Hr & ->); [lia..|]. exists k'. split; [lia|done].
Qed.

Lemma used_free n : used (hn_id <$> replicate n (mk_node (-1) None)) = 0.
Proof. induction n; [done|]. simpl. done. Qed.

Lemma hashid_init_ok max : 0 < max <= 2 ^ 30 → ∃ hi, hashid_init max = Some hi ∧ hashid_map hi ∅ ∧ cap hi = max.
Proof.
  intros Hm. unfold hashid_init. destruct (hashcap_loop_ok 32 4 max) as (k & Hk & He); [lia..|].
  change (2 ^ 4) with 16 in He. rewrite He. cbn [mbind option_bind]. eexists. split; [reflexivity|]. split; [|done].
  assert (0 < 2 ^ k) by (apply Z.pow_pos_nonneg; lia). split; cbn [cap ids hash hashmod count].
  - done.
  - rewrite length_replicate. lia.
  - exists k. rewrite length_replicate. split_and!; lia.
  - by rewrite map_size_empty.
  - by rewrite used_free.
  - intros s nd Hs. apply lookup_replicate in Hs as [-> _]. done.
  - intros id s Hs. by rewrite lookup_empty in Hs.
  - intros h Hh. exists None, []. cbn [hash ids]. split_and!; [apply lookup_replicate; split; [done|lia]|done|constructor|].
    intros s. split; [by intros ?%not_elem_of_nil|]. intros (id & Hid & _). by rewrite lookup_empty in Hid.
Qed.

(** ** Removal *)

Lemma used_insert l s x old : l !! s = Some old →
  used (<[s := x]> l) = used l - (if old =? -1 then 0 else 1) + (if x =? -1 then 0 else 1).
Proof.
  revert s. induction l as [|y l IH]; intros [|s] Hs; simplify_eq/=; [lia|]. rewrite (IH _ Hs). lia.
Qed.

Lemma linked_ext ids ids' p l : (∀ s, s ∈ l → ids' !! s = ids !! s) → linked ids p l → linked ids' p l.
Proof.
  revert p. induction l as [|t l IH]; intros p He Hl; [done|]. destruct Hl as (-> & nd & Hn & Hl). split; [done|].
  exists nd. rewrite He by constructor. split; [done|]. apply IH; [|done]. intros s Hs. apply He. by constructor.
Qed.

Lemma linked_head_eq ids p s l : linked ids p (s :: l) → p = Some s.
Proof. by intros [-> _]. Qed.

(** The slots of two buckets are different. *)
Lemma bucket_disjoint hi m h1 h2 s : hashid_map hi m → in_bucket hi m h1 s → in_bucket hi m h2 s → h1 = h2.
Proof. intros Hm (i1 & H1 & <-) (i2 & H2 & <-). by rewrite (map_inj hi m i1 i2 s Hm H1 H2). Qed.

Lemma fmap_id_lookup (a b : list hashid_node) s nd :
  hn_id <$> a = hn_id <$> b → a !! s = Some nd → ∃ nd', b !! s = Some nd' ∧ hn_id nd' = hn_id nd.
Proof.
  intros He Hs. assert (Hf : (hn_id <$> b) !! s = Some (hn_id nd)) by (rewrite <- He, list_lookup_fmap, Hs; done).
  rewrite list_lookup_fmap in Hf. destruct (b !! s) as [nd'|]; simplify_eq/=. eauto.
Qed.

(** A slot unlinked from its chain and cleared. *)
Lemma removed_ok hi m id t l l' p' ids1 :
  let h := Z.land id (hashmod hi) in
  hashid_map hi m → m !! id = Some t → (∀ s, s ∈ l ↔ in_bucket hi m h s) →
  hn_id <$> ids1 = hn_id <$> ids hi → (∀ s, s ∉ l → ids1 !! s = ids hi !! s) →
  linked ids1 p' l' → NoDup (t :: l') → t :: l' ≡ₚ l →
  hashid_map (clear_node hi ids1 (<[Z.to_nat h := p']> (hash hi)) t).1 (delete id m).
Proof.
  intros h Hm Ht Hl Hids Hsame Hlk Hnd Hp. pose proof (bucket_range hi m id Hm) as Hr.
  destruct (hm_map _ _ Hm _ _ Ht) as (Hid & ndt & Hnt & Hidt).
  assert (Hlen : length ids1 = length (ids hi)) by (rewrite <- (length_fmap hn_id), Hids, length_fmap; done).
  pose proof (lookup_lt_Some _ _ _ Hnt) as Htl. apply NoDup_cons in Hnd as [Htn Hnd'].
  assert (Hother : ∀ s id', m !! id' = Some s → id' ≠ id → s ≠ t).
  { intros s id' Hs Hne ->. apply Hne. by apply (map_inj hi m id' id t). }
  destruct (hm_mod _ _ Hm) as (k & Hk & Hmod & Hhl).
  split; cbn [clear_node fst cap ids hash hashmod count].
  - apply Hm.
  - rewrite length_insert, Hlen. apply Hm.
  - exists k. rewrite length_insert. auto.
  - rewrite map_size_delete_Some by eauto. rewrite (hm_count _ _ Hm).
    assert (size m ≠ 0%nat) by (intros E; apply map_size_empty_inv in E; subst m; by rewrite lookup_empty in Ht). lia.
  - rewrite list_fmap_insert, Hids. rewrite (used_insert _ _ _ id) by (by rewrite list_lookup_fmap, Hnt; simpl; rewrite Hidt).
    rewrite (proj2 (Z.eqb_neq id (-1))) by done. change (hn_id (mk_node (-1) None) =? -1) with true.
    rewrite (hm_used _ _ Hm). lia.
  - intros s nd Hs. destruct (decide (s = t)) as [->|Hne].
    { rewrite list_lookup_insert_eq in Hs by lia. injection Hs as <-. done. }
    rewrite list_lookup_insert_ne in Hs by done. destruct (fmap_id_lookup _ _ _ _ Hids Hs) as (nd0 & Hs0 & He).
    pose proof (hm_slot _ _ Hm _ _ Hs0) as Hslot. rewrite He in Hslot. destruct (Z.eqb_spec (hn_id nd) (-1)) as [Hf|Hf].
    + assert (s ∉ l). { intros Hin. apply Hl in Hin as (i & Hi & _). apply (hm_map _ _ Hm) in Hi as (Hi & ? & ? & ?). congruence. }
      rewrite Hsame in Hs by done. assert (nd = nd0) as -> by congruence. done.
    + rewrite lookup_delete_ne; [done|]. congruence.
  - intros id' s Hs. apply lookup_delete_Some in Hs as [Hne Hs]. destruct (hm_map _ _ Hm _ _ Hs) as (Hid' & nd & Hn & He).
    split; [done|]. rewrite list_lookup_insert_ne by (symmetry; eauto).
    destruct (fmap_id_lookup _ _ _ _ (eq_sym Hids) Hn) as (nd1 & Hn1 & He1). exists nd1. split; [done|congruence].
  - intros h2 Hh2. destruct (decide (h2 = h)) as [->|Hne].
    + exists p', l'. cbn [hash ids]. split_and!.
      * apply list_lookup_insert_eq. lia.
      * by apply linked_insert.
      * done.
      * intros s. unfold in_bucket. cbn [hashmod]. split.
        -- intros Hs. assert (Hin : s ∈ l) by (rewrite <- Hp; by constructor). apply Hl in Hin as (i & Hi & Hb).
           exists i. split; [|done]. rewrite lookup_delete_ne; [done|]. intros <-. congruence.
        -- intros (i & Hi & Hb). apply lookup_delete_Some in Hi as [Hni Hi].
           assert (Hin : s ∈ l) by (apply Hl; by exists i). rewrite <- Hp in Hin. apply elem_of_cons in Hin as [->|]; [|done].
           exfalso. by apply (Hother t i).
    + destruct (hm_bucket _ _ Hm _ Hh2) as (p & l2 & Hp2 & Hl2 & Hd2 & Hs2). exists p, l2. cbn [hash ids].
      assert (Hdis : ∀ s, s ∈ l2 → s ∉ l).
      { intros s H2 H1. apply Hne. apply (bucket_disjoint hi m _ _ s Hm); [by apply Hs2|by apply Hl]. }
      split_and!; auto.
      * by rewrite list_lookup_insert_ne by lia.
      * apply linked_insert.
        { intros Hin. apply (Hdis t Hin). rewrite <- Hp. constructor. }
        eapply linked_ext; [|exact Hl2]. auto.
      * intros s. rewrite Hs2. unfold in_bucket. cbn [hashmod]. split.
        -- intros (i & Hi & Hb). exists i. split; [|done]. rewrite lookup_delete_ne; [done|]. intros <-. done.
        -- intros (i & Hi & Hb). apply lookup_delete_Some in Hi as [_ Hi]. by exists i.
Qed.

Lemma unlink_loop_ok ids s l fuel id :
  linked ids (Some s) (s :: l) → NoDup (s :: l) → (length l < fuel)%nat →
  (∃ l1 t l2 nt ids', l = l1 ++ t :: l2 ∧ ids !! t = Some nt ∧ hn_id nt = id ∧
     unlink_loop fuel ids s id = Some (Some t, ids') ∧ linked ids' (Some s) (s :: l1 ++ l2) ∧
     hn_id <$> ids' = hn_id <$> ids ∧ ∀ x, x ∉ s :: l1 → ids' !! x = ids !! x) ∨
  ((∀ x nd, x ∈ l → ids !! x = Some nd → hn_id nd ≠ id) ∧ unlink_loop fuel ids s id = Some (None, ids)).
Proof.
  revert s l. induction fuel as [|fuel IH]; intros s l Hl Hd Hf; [lia|]. cbn [unlink_loop].
  destruct Hl as (_ & nd & Hn & Hl). rewrite Hn. cbn [mbind option_bind].
  destruct l as [|t l].
  { right. simpl in Hl. rewrite Hl. split; [by intros ?? ?%not_elem_of_nil|done]. }
  pose proof (linked_head_eq _ _ _ _ Hl) as Hnx. rewrite Hnx. pose proof Hl as (_ & nt & Hnt & Hlt). rewrite Hnt. cbn [mbind option_bind].
  pose proof (proj1 (NoDup_cons _ _) Hd) as [Hsn Hd']. destruct (Z.eqb_spec (hn_id nt) id) as [Hid|Hid].
  - left. eexists [], t, l, nt, _. split_and!; [done|done|done|reflexivity| | |].
    + split; [done|]. eexists. split; [apply list_lookup_insert_eq; by eapply lookup_lt_Some|].
      cbn [hn_next app]. apply linked_insert; [|done]. intros Hin. apply Hsn. by constructor.
    + rewrite list_fmap_insert. apply list_insert_id. by rewrite list_lookup_fmap, Hn.
    + intros x Hx. apply list_lookup_insert_ne. intros ->. apply Hx. constructor.
  - rewrite Hnx in Hl. destruct (IH t l Hl Hd') as [(l1 & u & l2 & nu & ids' & -> & Hnu & Hidu & He & Hlk & Hm & Hs)|[Hno He]];
      [simpl in Hf; lia| |].
    + left. exists (t :: l1), u, l2, nu, ids'. rewrite He. split_and!; auto.
      * split; [done|]. exists nd. split; [|by rewrite Hnx]. rewrite Hs; [done|].
        intros Hin. apply Hsn. apply elem_of_cons in Hin as [->|Hin]; constructor. by apply elem_of_app; left.
      * intros x Hx. apply Hs. intros Hin. apply Hx. by constructor.
    + right. rewrite He. split; [|done]. intros x ndx Hx Hnx'. apply elem_of_cons in Hx as [->|Hx]; [congruence|eauto].
Qed.

Lemma hashid_remove_ok hi m id : hashid_map hi m →
  ∃ hi', hashid_remove hi id = Some (hi', slot_of m id) ∧ hashid_map hi' (delete id m) ∧ cap hi' = cap hi.
Proof.
  intros Hm. pose proof (bucket_range hi m id Hm) as Hr. unfold hashid_remove.
  destruct (hm_mod _ _ Hm) as (k & Hk & Hmod & Hhl).
  destruct (hm_bucket _ _ Hm _ Hr) as (p & l & Hp & Hl & Hd & Hs).
  rewrite arr_get_lookup, Hp by lia. cbn [mbind option_bind].
  assert (Habs : (∀ s nd, s ∈ l → ids hi !! s = Some nd → hn_id nd ≠ id) → slot_of m id = -1 ∧ delete id m = m).
  { intros Hno. assert (Hnone : m !! id = None).
    { destruct (m !! id) as [s|] eqn:E; [|done]. exfalso. destruct (hm_map _ _ Hm _ _ E) as (_ & nd & Hn & Hi).
      apply (Hno s nd); auto. apply Hs. by exists id. }
    unfold slot_of. rewrite Hnone. split; [done|]. by apply delete_id. }
  assert (Hhit : ∀ s nd, s ∈ l → ids hi !! s = Some nd → hn_id nd = id → m !! id = Some s).
  { intros s nd Hin Hn Hi. pose proof (hm_slot _ _ Hm _ _ Hn) as Hsl. apply Hs in Hin as (i & Hi' & _).
    destruct (hm_map _ _ Hm _ _ Hi') as (? & nd' & ? & ?). rewrite (proj2 (Z.eqb_neq (hn_id nd) (-1))) in Hsl by congruence. congruence. }
  destruct l as [|s l].
  { simpl in Hl. subst p. destruct Habs as [-> ->]; [by intros ?? ?%not_elem_of_nil|]. eauto. }
  pose proof (linked_head_eq _ _ _ _ Hl) as ->. pose proof Hl as (_ & nd & Hn & Hl'). rewrite Hn. cbn [mbind option_bind].
  destruct (Z.eqb_spec (hn_id nd) id) as [He|He].
  - rewrite arr_set_some by lia. cbn [mbind option_bind]. pose proof (Hhit s nd ltac:(constructor) Hn He) as Hms.
    eexists. unfold clear_node, slot_of. rewrite Hms. split; [reflexivity|]. split; [|done].
    apply (removed_ok hi m id s (s :: l) l (hn_next nd) (ids hi)); auto.
  - pose proof (linked_short _ _ _ Hl Hd) as Hsh. simpl in Hsh.
    destruct (unlink_loop_ok (ids hi) s l (S (length (ids hi))) id Hl Hd) as [(l1 & t & l2 & nt & ids' & -> & Hnt & Hidt & -> & Hlk & Hmap & Hsame)|[Hno ->]];
      [lia| |]; cbn [mbind option_bind].
    + assert (Hms : m !! id = Some t).
      { apply (Hhit t nt); auto. constructor. apply elem_of_app. right. constructor. }
      eexists. unfold clear_node, slot_of. rewrite Hms. split; [reflexivity|]. split; [|done].
      rewrite <- (list_insert_id (hash hi) (Z.to_nat (Z.land id (hashmod hi))) (Some s)) by done.
      assert (Hperm : t :: s :: l1 ++ l2 ≡ₚ s :: l1 ++ t :: l2) by (rewrite <- Permutation_middle; apply perm_swap).
      eapply (removed_ok hi m id t (s :: l1 ++ t :: l2) (s :: l1 ++ l2) (Some s) ids'); auto.
      * intros x Hx. apply Hsame. intros Hin. apply Hx. apply elem_of_cons in Hin as [->|Hin]; constructor. by apply elem_of_app; left.
      * by rewrite Hperm.
    + destruct Habs as [-> ->]; [|eauto]. intros x ndx Hx Hnx. apply elem_of_cons in Hx as [->|Hx]; [congruence|eauto].
Qed.

(** ** Insertion *)

Lemma used_free_slot l : used l < Z.of_nat (length l) → ∃ s, l !! s = Some (-1).
Proof.
  induction l as [|x l IH]; intros Hu; [simpl in Hu; lia|]. cbn [used] in Hu.
  destruct (Z.eqb_spec x (-1)) as [->|]; [by exists 0%nat|]. destruct IH as [s Hs]; [simpl in Hu; lia|]. by exists (S s).
Qed.

Lemma used_le l : used l <= Z.of_nat (length l).
Proof. induction l as [|x l IH]; [done|]. cbn [used length]. destruct (x =? -1); lia. Qed.

Lemma free_loop_ok hi m n i id j :
  hashid_map hi m → 0 <= id → id + cap hi <= 2 ^ 31 → 0 <= i → i + Z.of_nat n = cap hi → i <= j < cap hi →
  (hn_id <$> ids hi) !! Z.to_nat ((j + id) mod cap hi) = Some (-1) →
  ∃ s nd, free_loop n hi i id = Some (Some s) ∧ ids hi !! s = Some nd ∧ hn_id nd = -1.
Proof.
  intros Hm Hid Hb. revert i. induction n as [|n IH]; intros i Hi Hn Hj Hf; [lia|]. cbn [free_loop].
  pose proof (hm_cap _ _ Hm). pose proof (hm_len _ _ Hm).
  rewrite chk32_some by (unfold INT_MIN, INT_MAX; lia). cbn [mbind option_bind].
  rewrite Z.rem_mod_nonneg by lia. pose proof (Z.mod_pos_bound (i + id) (cap hi) ltac:(lia)).
  rewrite arr_get_lookup by lia. destruct (lookup_lt_is_Some_2 (ids hi) (Z.to_nat ((i + id) mod cap hi))) as [nd Hnd]; [lia|].
  rewrite Hnd. cbn [mbind option_bind]. destruct (Z.eqb_spec (hn_id nd) (-1)) as [He|He]; [eauto|].
  apply IH; auto; try lia. destruct (decide (j = i)) as [->|]; [|lia].
  rewrite list_lookup_fmap, Hnd in Hf. simpl in Hf. congruence.
Qed.

(** The search visits every slot. *)
Lemma free_index c id s : 0 < c → 0 <= id → 0 <= s < c → ∃ j, 0 <= j < c ∧ (j + id) mod c = s.
Proof.
  intros Hc Hid Hs. exists ((s - id) mod c). pose proof (Z.mod_pos_bound (s - id) c Hc). split; [lia|].
  rewrite Zplus_mod_idemp_l. replace (s - id + id) with s by lia. by apply Z.mod_small.
Qed.

Lemma find_free_slot hi m id :
  hashid_map hi m → 0 <= id → id + cap hi <= 2 ^ 31 → Z.of_nat (size m) < cap hi →
  ∃ s nd, free_loop (Z.to_nat (cap hi)) hi 0 id = Some (Some s) ∧ ids hi !! s = Some nd ∧ hn_id nd = -1.
Proof.
  intros Hm Hid Hb Hs. pose proof (hm_cap _ _ Hm). pose proof (hm_len _ _ Hm).
  destruct (used_free_slot (hn_id <$> ids hi)) as [s Hf].
  { rewrite <- (hm_used _ _ Hm), (hm_count _ _ Hm), length_fmap. lia. }
  pose proof (lookup_lt_Some _ _ _ Hf) as Hlt. rewrite length_fmap in Hlt.
  destruct (free_index (cap hi) id (Z.of_nat s)) as (j & Hj & Hjs); [lia..|].
  apply (free_loop_ok hi m (Z.to_nat (cap hi)) 0 id j); auto; try lia. by rewrite Hjs, Nat2Z.id.
Qed.

Lemma hashid_insert_ok hi m id :
  hashid_map hi m → m !! id = None → 0 <= id → id + cap hi <= 2 ^ 31 → Z.of_nat (size m) < cap hi →
  ∃ hi' s, hashid_insert hi id = Some (hi', Z.of_nat s) ∧ (∀ id', m !! id' ≠ Some s) ∧ Z.of_nat s < cap hi ∧
    hashid_map hi' (<[id := s]> m) ∧ cap hi' = cap hi.
Proof.
  intros Hm Hnone Hid Hb Hsz. destruct (find_free_slot hi m id) as (s & nd & Hf & Hn & Hfree); auto.
  pose proof (bucket_range hi m id Hm) as Hr. destruct (hm_mod _ _ Hm) as (k & Hk & Hmod & Hhl).
  pose proof (lookup_lt_Some _ _ _ Hn) as Hlt. pose proof (hm_len _ _ Hm) as Hlen.
  unfold hashid_insert. rewrite Hf. cbn [mbind option_bind]. rewrite Hn. cbn [mbind option_bind].
  pose proof (hm_slot _ _ Hm _ _ Hn) as Hnx. rewrite Hfree in Hnx. simpl in Hnx. rewrite Hnx. cbn [c_assert mbind option_bind].
  destruct (hm_bucket _ _ Hm _ Hr) as (p & l & Hp & Hl & Hd & Hs).
  rewrite arr_get_lookup, Hp by lia. cbn [mbind option_bind]. rewrite arr_set_some by lia. cbn [mbind option_bind].
  replace (match p with Some t => Some t | None => None end) with p by (by destruct p).
  assert (Hnew : ∀ id', m !! id' ≠ Some s).
  { intros id' H'. apply (hm_map _ _ Hm) in H' as (Hne & nd' & Hn' & He). congruence. }
  assert (Hnb : ∀ h (l2 : list nat), (∀ x, x ∈ l2 ↔ in_bucket hi m h x) → s ∉ l2).
  { intros h l2 H2 Hin. apply H2 in Hin as (i & Hi & _). by apply (Hnew i). }
  eexists _, s. split; [reflexivity|]. split_and!; auto; [lia|]. split; cbn [cap ids hash hashmod count].
  - apply Hm.
  - by rewrite length_insert.
  - exists k. rewrite length_insert. auto.
  - rewrite map_size_insert_None by done. rewrite (hm_count _ _ Hm). lia.
  - rewrite list_fmap_insert. rewrite (used_insert _ _ _ (-1)) by (by rewrite list_lookup_fmap, Hn; simpl; rewrite Hfree).
    cbn [hn_id]. rewrite (proj2 (Z.eqb_neq id (-1))), (hm_used _ _ Hm) by lia. simpl. lia.
  - intros x ndx Hx. destruct (decide (x = s)) as [->|Hne].
    + rewrite list_lookup_insert_eq in Hx by lia. injection Hx as <-. cbn [hn_id hn_next].
      rewrite (proj2 (Z.eqb_neq id (-1))) by lia. by rewrite lookup_insert_eq.
    + rewrite list_lookup_insert_ne in Hx by done. pose proof (hm_slot _ _ Hm _ _ Hx) as Hsl.
      destruct (Z.eqb_spec (hn_id ndx) (-1)); [done|]. rewrite lookup_insert_ne; [done|]. congruence.
  - intros i x Hx. apply lookup_insert_Some in Hx as [[<- <-]|[Hne Hx]].
    + split; [lia|]. eexists. split; [apply list_lookup_insert_eq; lia|done].
    + destruct (hm_map _ _ Hm _ _ Hx) as (Hi & ndx & Hnx' & He). split; [done|]. exists ndx. split; [|done].
      rewrite list_lookup_insert_ne; [done|]. intros ->. by apply (Hnew i).
  - intros h Hh. unfold bucket_ok, in_bucket. cbn [hashmod hash ids]. destruct (decide (h = Z.land id (hashmod hi))) as [->|Hne].
    + exists (Some s), (s :: l). split_and!.
      * apply list_lookup_insert_eq. lia.
      * split; [done|]. eexists. split; [apply list_lookup_insert_eq; lia|]. cbn [hn_next].
        apply linked_insert; [by eapply Hnb|done].
      * constructor; [by eapply Hnb|done].
      * intros x. rewrite elem_of_cons, Hs. unfold in_bucket. split.
        -- intros [->|(i & Hi & Hbk)]; [exists id; by rewrite lookup_insert_eq|]. exists i.
           rewrite lookup_insert_ne by congruence. done.
        -- intros (i & Hi & Hbk). apply lookup_insert_Some in Hi as [[-> <-]|[_ Hi]]; [by left|right; by exists i].
    + destruct (hm_bucket _ _ Hm _ Hh) as (p2 & l2 & Hp2 & Hl2 & Hd2 & Hs2). exists p2, l2. split_and!; auto.
      * by rewrite list_lookup_insert_ne by lia.
      * apply linked_insert; [by eapply Hnb|done].
      * intros x. rewrite Hs2. unfold in_bucket. split; intros (i & Hi & Hbk); exists i; (split; [|done]).
        -- rewrite lookup_insert_ne by congruence. done.
        -- apply lookup_insert_Some in Hi as [[-> <-]|[_ Hi]]; [|done]. by destruct Hne.
Qed.

Lemma hashid_full_ok hi m : hashid_map hi m → hashid_full hi = (Z.of_nat (size m) =? cap hi).
Proof. intros Hm. unfold hashid_full. by rewrite (hm_count _ _ Hm). Qed.

(** ** Sequences of operations *)

Inductive hop := HLookup (id : Z) | HInsert (id : Z) | HRemove (id : Z) | HFull.

Definition hexec (hi : hashid) (o : hop) : option (hashid * Z) :=
  match o with
  | HLookup id => r ← hashid_lookup hi id; Some (hi, r)
  | HInsert id => hashid_insert hi id
  | HRemove id => hashid_remove hi id
  | HFull => Some (hi, if hashid_full hi then 1 else 0)
  end.

Fixpoint hrun (hi : hashid) (ops : list hop) : option (hashid * list Z) :=
  match ops with
  | [] => Some (hi, [])
  | o :: ops' => '(hi, r) ← hexec hi o; '(hi, rs) ← hrun hi ops'; Some (hi, r :: rs)
  end.

(** The specification on a map of ids to slots: a new id gets a slot no other
    id has. *)
Inductive hspec (max : Z) : gmap Z nat → list hop → list Z → Prop :=
  | hspec_nil m : hspec max m [] []
  | hspec_lookup m id ops rs : hspec max m ops rs → hspec max m (HLookup id :: ops) (slot_of m id :: rs)
  | hspec_insert m id s ops rs :
      Z.of_nat s < max → (∀ id', m !! id' ≠ Some s) → hspec max (<[id := s]> m) ops rs →
      hspec max m (HInsert id :: ops) (Z.of_nat s :: rs)
  | hspec_remove m id ops rs : hspec max (delete id m) ops rs → hspec max m (HRemove id :: ops) (slot_of m id :: rs)
  | hspec_full m ops rs : hspec max m ops rs → hspec max m (HFull :: ops) ((if Z.of_nat (size m) =? max then 1 else 0) :: rs).

(** An id is inserted while it is absent and the table is not full, as the
    gate does. *)
Fixpoint hlegal (max : Z) (live : gset Z) (ops : list hop) : bool :=
  match ops with
  | [] => true
  | HInsert id :: ops' =>
      bool_decide (id ∉ live) && (0 <=? id) && (id + max <=? 2 ^ 31) && (Z.of_nat (size live) <? max) &&
      hlegal max ({[id]} ∪ live) ops'
  | HRemove id :: ops' => hlegal max (live ∖ {[id]}) ops'
  | _ :: ops' => hlegal max live ops'
  end.

Lemma hrun_ok ops : ∀ hi m, hashid_map hi m → hlegal (cap hi) (dom m) ops = true →
  ∃ hi' rs, hrun hi ops = Some (hi', rs) ∧ hspec (cap hi) m ops rs.
Proof.
  induction ops as [|o ops IH]; intros hi m Hm Hl; [do 2 eexists; split; [done|constructor]|].
  destruct o as [id|id|id|]; cbn [hrun hexec hlegal] in *.
  - rewrite (hashid_lookup_ok hi m) by done. cbn [mbind option_bind]. destruct (IH hi m Hm Hl) as (hi' & rs & -> & Hs).
    do 2 eexists. split; [done|by constructor].
  - apply andb_prop in Hl as [Hl Hrest]. repeat (apply andb_prop in Hl as [Hl ?]). bool_to_prop.
    rewrite size_dom in *.
    destruct (hashid_insert_ok hi m id) as (hi1 & s & -> & Hnew & Hlt & Hm1 & Hc); auto; try lia.
    { by apply not_elem_of_dom. }
    cbn [mbind option_bind]. destruct (IH hi1 _ Hm1) as (hi' & rs & -> & Hs); [by rewrite dom_insert_L, Hc|].
    do 2 eexists. split; [done|]. rewrite Hc in Hs. by econstructor.
  - destruct (hashid_remove_ok hi m id Hm) as (hi1 & -> & Hm1 & Hc). cbn [mbind option_bind].
    destruct (IH hi1 _ Hm1) as (hi' & rs & -> & Hs); [by rewrite dom_delete_L, Hc|].
    do 2 eexists. split; [done|]. rewrite Hc in Hs. by constructor.
  - cbn [mbind option_bind]. destruct (IH hi m Hm Hl) as (hi' & rs & -> & Hs). rewrite (hashid_full_ok hi m) by done.
    do 2 eexists. split; [done|by constructor].
Qed.

(** A new table of any size up to 2^30, under any sequence of lookups,
    removals and insertions of absent ids while it is not full, behaves as a
    map from ids to distinct slots: no access outside the arrays, no failed
    assertion, every chain walk terminates. *)
Theorem hashid_refines max ops :
  0 < max <= 2 ^ 30 → hlegal max ∅ ops = true →
  ∃ hi hi' rs, hashid_init max = Some hi ∧ hrun hi ops = Some (hi', rs) ∧ hspec max ∅ ops rs.
Proof.
  intros Hmax Hl. destruct (hashid_init_ok max Hmax) as (hi & Hi & Hm & Hc).
  destruct (hrun_ok ops hi ∅ Hm) as (hi' & rs & Hr & Hs); [by rewrite dom_empty_L, Hc|].
  exists hi, hi', rs. rewrite Hc in Hs. auto.
Qed.

Lemma hashid_refines_witness :
  ∃ hi hi' rs, hashid_init 20 = Some hi ∧
    hrun hi [HInsert 5; HInsert 37; HInsert 69; HRemove 37; HLookup 69; HLookup 37; HFull] = Some (hi', rs) ∧
    hspec 20 ∅ [HInsert 5; HInsert 37; HInsert 69; HRemove 37; HLookup 69; HLookup 37; HFull] rs.
Proof. apply (hashid_refines 20); [lia|vm_compute; reflexivity]. Defined.
