(* ===== verification/DataBuffer.v ===== *)
(** * Buffered socket data: service-src/databuffer.h

    A [databuffer] is a linked list of the data blocks received from a
    socket, read front to back across blocks.  The list nodes come from a pool
    shared by all the connections of a gate: blocks of [MESSAGEPOOL] nodes,
    the unused ones linked in a free list.

    The nodes of all the blocks are one list of cells; a pointer is an index
    into it, [None] is NULL.  Dereferencing NULL, a failed assertion, a copy
    outside a block and the overflow of [size] make a function [None]. *)

From Stdlib Require Import ZArith Lia.
From stdpp Require Import base tactics option numbers list.
From S2P Require Import Prelude.

Definition MESSAGEPOOL : nat := 1023.

Record message := mk_message {
  m_buffer : option (list Z);
  m_size : Z;
  m_next : option nat
}.

Record databuffer := mk_databuffer {
  db_header : Z;
  db_offset : Z;
  db_size : Z;
  db_head : option nat;
  db_tail : option nat
}.

(** [mp_pool]: the blocks allocated, by the index of their first cell. *)
Record messagepool := mk_messagepool {
  mp_cells : list message;
  mp_pool : list nat;
  mp_free : option nat
}.

Definition databuffer_zero : databuffer := mk_databuffer 0 0 0 None None.
Definition messagepool_zero : messagepool := mk_messagepool [] [] None.

(** [messagepool_free] releases every block. *)
Definition messagepool_free (mp : messagepool) : messagepool := mk_messagepool [] [] None.

Definition _return_message (db : databuffer) (mp : messagepool) : option (databuffer * messagepool) :=
  m ← db_head db;
  c ← mp_cells mp !! m;
  db' ←
    match m_next c with
    | None =>
        _ ← c_assert (bool_decide (db_tail db = Some m));
        Some (mk_databuffer (db_header db) (db_offset db) (db_size db) None None)
    | Some n => Some (mk_databuffer (db_header db) (db_offset db) (db_size db) (Some n) (db_tail db))
    end;
  Some (db', mk_messagepool (<[m := mk_message None 0 (mp_free mp)]> (mp_cells mp)) (mp_pool mp) (Some m)).

Definition set_offset (db : databuffer) (o : Z) : databuffer :=
  mk_databuffer (db_header db) o (db_size db) (db_head db) (db_tail db).

(** [memcpy(buffer, current->buffer + offset, n)]: the bytes copied. *)
Definition copy_out (c : message) (offset n : Z) : option (list Z) :=
  b ← m_buffer c;
  if (0 <=? offset) && (0 <=? n) && (offset + n <=? Z.of_nat (length b))
  then Some (take (Z.to_nat n) (drop (Z.to_nat offset) b)) else None.

(** The loop of [databuffer_read]: the bytes put in the buffer. *)
Fixpoint read_loop (fuel : nat) (db : databuffer) (mp : messagepool) (sz : Z)
    : option (list Z * databuffer * messagepool) :=
  match fuel with
  | O => None
  | S f =>
      m ← db_head db;
      current ← mp_cells mp !! m;
      let bsz := m_size current - db_offset db in
      if sz <? bsz then
        d ← copy_out current (db_offset db) sz;
        Some (d, set_offset db (db_offset db + sz), mp)
      else if bsz =? sz then
        d ← copy_out current (db_offset db) sz;
        '(db, mp) ← _return_message (set_offset db 0) mp;
        Some (d, db, mp)
      else
        d ← copy_out current (db_offset db) bsz;
        '(db, mp) ← _return_message db mp;
        '(d', db, mp) ← read_loop f (set_offset db 0) mp (sz - bsz);
        Some (d ++ d', db, mp)
  end.

Definition databuffer_read (db : databuffer) (mp : messagepool) (sz : Z) : option (list Z * databuffer * messagepool) :=
  _ ← c_assert (sz <=? db_size db);
  read_loop (S (length (mp_cells mp)))
    (mk_databuffer (db_header db) (db_offset db) (db_size db - sz) (db_head db) (db_tail db)) mp sz.

(** A new block whose first cell is [base]: the cells after the first are
    linked into the free list; the first is handed out at once. *)
Definition new_block (base : nat) : list message :=
  mk_message None 0 None ::
  ((λ i, mk_message None 0 (if bool_decide (i = MESSAGEPOOL - 1)%nat then None else Some (base + i + 1)%nat))
     <$> seq 1 (MESSAGEPOOL - 1)).

Definition take_cell (mp : messagepool) : option (nat * messagepool) :=
  match mp_free mp with
  | Some m => c ← mp_cells mp !! m; Some (m, mk_messagepool (mp_cells mp) (mp_pool mp) (m_next c))
  | None =>
      let base := length (mp_cells mp) in
      Some (base, mk_messagepool (mp_cells mp ++ new_block base) (base :: mp_pool mp) (Some (base + 1)%nat))
  end.

Definition databuffer_push (db : databuffer) (mp : messagepool) (data : list Z) (sz : Z)
    : option (databuffer * messagepool) :=
  '(m, mp) ← take_cell mp;
  let cells := <[m := mk_message (Some data) sz None]> (mp_cells mp) in
  size ← chk32 (db_size db + sz);
  match db_head db with
  | None =>
      _ ← c_assert (match db_tail db with None => true | Some _ => false end);
      Some (mk_databuffer (db_header db) (db_offset db) size (Some m) (Some m),
            mk_messagepool cells (mp_pool mp) (mp_free mp))
  | Some h =>
      t ← db_tail db;
      c ← cells !! t;
      Some (mk_databuffer (db_header db) (db_offset db) size (Some h) (Some m),
            mk_messagepool (<[t := mk_message (m_buffer c) (m_size c) (Some m)]> cells) (mp_pool mp) (mp_free mp))
  end.

(** [plen[0] << 24 | ...], big-endian; the result is an int. *)
Definition read_header (header_size : Z) (plen : list Z) : option Z :=
  if header_size =? 2 then
    match plen with a :: b :: _ => Some (Z.lor (Z.shiftl a 8) b) | _ => None end
  else
    match plen with
    | a :: b :: c :: d :: _ =>
        Some (i32 (Z.lor (Z.lor (Z.lor (Z.shiftl a 24) (Z.shiftl b 16)) (Z.shiftl c 8)) d))
    | _ => None
    end.

Definition set_header (db : databuffer) (h : Z) : databuffer :=
  mk_databuffer h (db_offset db) (db_size db) (db_head db) (db_tail db).

Definition databuffer_readheader (db : databuffer) (mp : messagepool) (header_size : Z)
    : option (Z * databuffer * messagepool) :=
  if (db_header db =? 0) && (db_size db <? header_size) then Some (-1, db, mp)
  else
    '(db, mp) ←
      (if db_header db =? 0 then
         '(plen, db, mp) ← databuffer_read db mp header_size;
         h ← read_header header_size plen;
         Some (set_header db h, mp)
       else Some (db, mp));
    if db_size db <? db_header db then Some (-1, db, mp) else Some (db_header db, db, mp).

Definition databuffer_reset (db : databuffer) : databuffer := set_header db 0.

Fixpoint clear_loop (fuel : nat) (db : databuffer) (mp : messagepool) : option (databuffer * messagepool) :=
  match db_head db, fuel with
  | None, _ => Some (databuffer_zero, mp)
  | Some _, O => None
  | Some _, S f => '(db, mp) ← _return_message db mp; clear_loop f db mp
  end.

Definition databuffer_clear (db : databuffer) (mp : messagepool) : option (databuffer * messagepool) :=
  clear_loop (length (mp_cells mp)) db mp.

Example databuffer_test :
  ('(db, mp) ← databuffer_push databuffer_zero messagepool_zero [0; 3; 1] 3;
   '(n, db, mp) ← databuffer_readheader db mp 2;
   '(db, mp) ← databuffer_push db mp [2; 3; 4] 3;
   '(n', db, mp) ← databuffer_readheader db mp 2;
   '(d, db, mp) ← databuffer_read db mp 3;
   Some (n, n', d, db_size db, mp_free mp)) = Some (-1, 3, [1; 2; 3], 1, Some 0%nat).
Proof. vm_compute. reflexivity. Qed.

(** ** Chains of cells and what they hold *)

Fixpoint chain (cells : list message) (p : option nat) (l : list nat) : Prop :=
  match l with
  | [] => p = None
  | s :: l' => p = Some s ∧ ∃ c, cells !! s = Some c ∧ chain cells (m_next c) l'
  end.

(** The cells [l] hold the blocks [bs]. *)
Definition holds (cells : list message) (l : list nat) (bs : list (list Z)) : Prop :=
  Forall2 (λ s b, ∃ c, cells !! s = Some c ∧ m_buffer c = Some b ∧ m_size c = Z.of_nat (length b)) l bs.

Lemma chain_ext cells cells' p l : (∀ s, s ∈ l → cells' !! s = cells !! s) → chain cells p l → chain cells' p l.
Proof.
  revert p. induction l as [|t l IH]; intros p He Hl; [done|]. destruct Hl as (-> & c & Hc & Hl). split; [done|].
  exists c. rewrite He by constructor. split; [done|]. apply IH; [|done]. intros s Hs. apply He. by constructor.
Qed.

Lemma holds_ext cells cells' l bs : (∀ s, s ∈ l → cells' !! s = cells !! s) → holds cells l bs → holds cells' l bs.
Proof.
  intros He Hh. induction Hh as [|s b l bs (c & Hc & Hb) Hh IH]; constructor.
  - exists c. rewrite He by constructor. auto.
  - apply IH. intros t Ht. apply He. by constructor.
Qed.

Lemma chain_lt cells p l s : chain cells p l → s ∈ l → (s < length cells)%nat.
Proof.
  revert p. induction l as [|t l IH]; intros p Hl Hs; [by apply not_elem_of_nil in Hs|].
  destruct Hl as (-> & c & Hc & Hl). apply elem_of_cons in Hs as [->|Hs]; [by eapply lookup_lt_Some|by eapply IH].
Qed.

Lemma chain_short cells p l : chain cells p l → NoDup l → (length l <= length cells)%nat.
Proof.
  intros Hl Hn. rewrite <- (length_seq (length cells) 0). apply submseteq_length, NoDup_submseteq; [done|].
  intros s Hs. apply elem_of_seq. pose proof (chain_lt _ _ _ _ Hl Hs). lia.
Qed.

Lemma chain_head cells p s l : chain cells p (s :: l) → p = Some s.
Proof. by intros [-> _]. Qed.

(** What a step may touch: the cells it owns and new ones. *)
Definition frame (mp : messagepool) (own : list nat) (mp' : messagepool) (own' : list nat) : Prop :=
  (length (mp_cells mp) <= length (mp_cells mp'))%nat ∧
  (∀ x, x ∈ own' → x ∈ own ∨ (length (mp_cells mp) <= x)%nat) ∧
  (∀ x, (x < length (mp_cells mp))%nat → x ∉ own → mp_cells mp' !! x = mp_cells mp !! x).

Lemma frame_refl mp l : frame mp l mp l.
Proof. split_and!; auto. Qed.

Lemma frame_trans mp1 l1 mp2 l2 mp3 l3 : frame mp1 l1 mp2 l2 → frame mp2 l2 mp3 l3 → frame mp1 l1 mp3 l3.
Proof.
  intros (Hl1 & Hx1 & Hs1) (Hl2 & Hx2 & Hs2). split_and!; [lia| |].
  - intros x Hx. destruct (Hx2 x Hx) as [H|H]; [auto|]. right. lia.
  - intros x Hlt Hx. rewrite Hs2; [by apply Hs1|lia|]. intros H2. destruct (Hx1 x H2); [done|lia].
Qed.

(** [own0 mp db l fl h d]: the cells [l] are the buffer's, with header [h] and
    unread data [d]; the cells [fl] are free. *)
Record own0 (mp : messagepool) (db : databuffer) (l fl : list nat) (h : Z) (d : list Z) : Prop := {
  own_chain : chain (mp_cells mp) (db_head db) l;
  own_free : chain (mp_cells mp) (mp_free mp) fl;
  own_dup : NoDup (l ++ fl);
  own_tail : db_tail db = last l;
  own_header : db_header db = h;
  own_data : ∃ bs, holds (mp_cells mp) l bs ∧ drop (Z.to_nat (db_offset db)) (concat bs) = d ∧
    match bs with [] => db_offset db = 0 | b :: _ => 0 <= db_offset db <= Z.of_nat (length b) end
}.

(** ... and its size is that of the data. *)
Definition own mp db l fl h d : Prop := own0 mp db l fl h d ∧ db_size db = Z.of_nat (length d).

Lemma own_new mp fl : chain (mp_cells mp) (mp_free mp) fl → NoDup fl → own mp databuffer_zero [] fl 0 [].
Proof. intros. split; [|done]. split; try done. exists []. split_and!; try done. constructor. Qed.

(** ** Returning a cell *)

Lemma return_ok mp db s l fl :
  chain (mp_cells mp) (db_head db) (s :: l) → chain (mp_cells mp) (mp_free mp) fl → NoDup ((s :: l) ++ fl) →
  db_tail db = last (s :: l) →
  ∃ hd tl mp', _return_message db mp = Some (mk_databuffer (db_header db) (db_offset db) (db_size db) hd tl, mp') ∧
    chain (mp_cells mp') hd l ∧ chain (mp_cells mp') (mp_free mp') (s :: fl) ∧ NoDup (l ++ s :: fl) ∧ tl = last l ∧
    (∀ x, x ∈ l → mp_cells mp' !! x = mp_cells mp !! x) ∧ frame mp ((s :: l) ++ fl) mp' (l ++ s :: fl).
Proof.
  intros Hc Hf Hd Ht. pose proof (chain_head _ _ _ _ Hc) as Hh. destruct Hc as (_ & c & Hs & Hc).
  pose proof (lookup_lt_Some _ _ _ Hs) as Hlt. simpl in Hd. pose proof (proj1 (NoDup_cons _ _) Hd) as [Hsn _].
  assert (Hsl : s ∉ l) by (intros H; apply Hsn, elem_of_app; by left).
  assert (Hsf : s ∉ fl) by (intros H; apply Hsn, elem_of_app; by right).
  unfold _return_message. rewrite Hh. cbn [mbind option_bind]. rewrite Hs. cbn [mbind option_bind].
  set (cells' := <[s := mk_message None 0 (mp_free mp)]> (mp_cells mp)).
  assert (Hsame : ∀ x, x ≠ s → cells' !! x = mp_cells mp !! x) by (intros; by apply list_lookup_insert_ne).
  assert (Hs' : cells' !! s = Some (mk_message None 0 (mp_free mp))) by (by apply list_lookup_insert_eq).
  assert (Hx : ∀ x, x ∈ l → cells' !! x = mp_cells mp !! x) by (intros x Hx; apply Hsame; congruence).
  assert (Hnext : ∃ hd tl, (match m_next c with
      | None => _ ← c_assert (bool_decide (db_tail db = Some s));
                Some (mk_databuffer (db_header db) (db_offset db) (db_size db) None None)
      | Some n => Some (mk_databuffer (db_header db) (db_offset db) (db_size db) (Some n) (db_tail db))
      end) = Some (mk_databuffer (db_header db) (db_offset db) (db_size db) hd tl) ∧ hd = m_next c ∧ tl = last l).
  { destruct l as [|t l].
    - simpl in Hc. rewrite Hc. rewrite bool_decide_true by done. cbn. eauto.
    - pose proof (chain_head _ _ _ _ Hc) as ->. rewrite Ht. eauto. }
  destruct Hnext as (hd & tl & -> & -> & ->). cbn [mbind option_bind].
  eexists _, _, _. split; [reflexivity|]. cbn [mp_cells mp_free]. fold cells'. split_and!; auto.
  - by eapply chain_ext.
  - split; [done|]. eexists. split; [done|]. cbn [m_next]. eapply chain_ext; [|done]. intros x Hx'. apply Hsame. congruence.
  - by rewrite <- Permutation_middle.
  - unfold frame. cbn [mp_cells]. fold cells'. split_and!.
    + unfold cells'. rewrite length_insert. lia.
    + intros x Hx'. left. rewrite <- Permutation_middle in Hx'. done.
    + intros x _ Hx'. apply Hsame. intros ->. apply Hx'. constructor.
Qed.

(** ** Reading *)

Lemma copy_out_ok c b off n :
  m_buffer c = Some b → 0 <= off → 0 <= n → off + n <= Z.of_nat (length b) →
  copy_out c off n = Some (take (Z.to_nat n) (drop (Z.to_nat off) b)).
Proof. intros Hb Ho Hn Hl. unfold copy_out. rewrite Hb. cbn [mbind option_bind]. zcases. done. Qed.

Lemma own_return mp db s l fl h d b bs o :
  own0 mp db (s :: l) fl h d → holds (mp_cells mp) (s :: l) (b :: bs) →
  ∃ db' mp', _return_message (set_offset db o) mp = Some (db', mp') ∧ own0 mp' (set_offset db' 0) l (s :: fl) h (concat bs) ∧
    db_size db' = db_size db ∧ db_offset db' = o ∧ frame mp ((s :: l) ++ fl) mp' (l ++ s :: fl).
Proof.
  intros [Hc Hf Hd Ht Hh _] Hhold. destruct (return_ok mp (set_offset db o) s l fl) as (hd & tl & mp' & He & Hc' & Hf' & Hd' & Htl & Hs & Hfr); auto.
  eexists _, mp'. split; [exact He|]. split_and!; auto. split; cbn; auto. exists bs. split_and!.
  - inversion Hhold; subst. by eapply holds_ext.
  - by rewrite drop_0.
  - destruct bs; [done|lia].
Qed.

Lemma read_loop_ok fuel : ∀ mp db l fl h d sz,
  own0 mp db l fl h d → 0 < sz <= Z.of_nat (length d) → (length l < fuel)%nat →
  ∃ db' mp' l' fl', read_loop fuel db mp sz = Some (take (Z.to_nat sz) d, db', mp') ∧
    own0 mp' db' l' fl' h (drop (Z.to_nat sz) d) ∧ db_size db' = db_size db ∧ frame mp (l ++ fl) mp' (l' ++ fl').
Proof.
  induction fuel as [|fuel IH]; intros mp db l fl h d sz Ho Hsz Hfu; [lia|]. cbn [read_loop].
  destruct (own_data _ _ _ _ _ _ Ho) as (bs & Hh & Hd & Hoff).
  destruct bs as [|b bs]; [cbn [concat] in Hd; rewrite drop_nil in Hd; subst d; simpl in Hsz; lia|].
  destruct l as [|s l0]; [by inversion Hh|].
  pose proof (proj1 (Forall2_cons _ _ _ _ _) Hh) as [(c & Hc & Hb & Hs) Hh']. pose proof (chain_head _ _ _ _ (own_chain _ _ _ _ _ _ Ho)) as Hhd.
  rewrite Hhd. cbn [mbind option_bind]. rewrite Hc. cbn [mbind option_bind]. rewrite Hs. simpl in Hd.
  set (off := db_offset db) in *. rewrite drop_app_le in Hd by lia.
  assert (Hlb : length (drop (Z.to_nat off) b) = Z.to_nat (Z.of_nat (length b) - off)) by (rewrite length_drop; lia).
  destruct (Z.ltb_spec sz (Z.of_nat (length b) - off)) as [Hlt|Hge].
  - rewrite (copy_out_ok c b) by (done || lia). cbn [mbind option_bind]. eexists _, mp, _, fl. split; [|split; [|split; [|apply frame_refl]]].
    + rewrite <- Hd, take_app_le by lia. reflexivity.
    + destruct Ho. split; auto. exists (b :: bs). split_and!; auto.
      * rewrite <- Hd. cbn [concat set_offset db_offset]. fold off. rewrite Z2Nat.inj_add, <- drop_drop, (drop_app_le b) by lia. done.
      * cbn [set_offset db_offset]. fold off. lia.
      * cbn [set_offset db_offset]. fold off. lia.
    + done.
  - destruct (Z.eqb_spec (Z.of_nat (length b) - off) sz) as [Heq|Hne].
    + rewrite (copy_out_ok c b) by (done || lia). cbn [mbind option_bind].
      destruct (own_return mp db s l0 fl h d b bs 0 Ho Hh) as (db' & mp' & -> & Ho' & Hsz' & Hof & Hfr). cbn [mbind option_bind].
      exists db', mp', l0, (s :: fl). split_and!; auto.
      * rewrite <- Hd, take_app_le by lia. done.
      * rewrite <- Hd, drop_app_length' by lia. replace db' with (set_offset db' 0); [done|]. rewrite <- Hof. by destruct db'.
    + rewrite (copy_out_ok c b) by (done || lia). cbn [mbind option_bind].
      destruct (own_return mp db s l0 fl h d b bs off Ho Hh) as (db' & mp' & He & Ho' & Hsz' & Hof & Hfr).
      replace (set_offset db off) with db in He by (unfold off; by destruct db). rewrite He. cbn [mbind option_bind].
      assert (Hlen : Z.of_nat (length d) = Z.of_nat (length b) - off + Z.of_nat (length (concat bs))).
      { rewrite <- Hd, length_app, Hlb. lia. }
      destruct (IH mp' (set_offset db' 0) l0 (s :: fl) h (concat bs) (sz - (Z.of_nat (length b) - off)) Ho')
        as (db2 & mp2 & l2 & fl2 & -> & Ho2 & Hs2 & Hfr2); [lia|simpl in Hfu; lia|]. cbn [mbind option_bind].
      exists db2, mp2, l2, fl2. split_and!.
      * rewrite <- Hd. rewrite (take_app_ge (drop _ b)), (firstn_all2 (drop _ b)), Hlb by lia.
        do 3 f_equal. f_equal. f_equal. lia.
      * rewrite <- Hd, drop_app_ge, Hlb by lia. replace (Z.to_nat sz - Z.to_nat (Z.of_nat (length b) - off))%nat with (Z.to_nat (sz - (Z.of_nat (length b) - off))) by lia. done.
      * rewrite Hs2. done.
      * by eapply frame_trans.
Qed.

Lemma databuffer_read_ok mp db l fl h d sz :
  own mp db l fl h d → 0 < sz <= Z.of_nat (length d) →
  ∃ db' mp' l' fl', databuffer_read db mp sz = Some (take (Z.to_nat sz) d, db', mp') ∧
    own mp' db' l' fl' h (drop (Z.to_nat sz) d) ∧ frame mp (l ++ fl) mp' (l' ++ fl').
Proof.
  intros [Ho Hs] Hsz. unfold databuffer_read. rewrite (proj2 (Z.leb_le _ _)) by lia. cbn [c_assert mbind option_bind].
  set (db1 := mk_databuffer _ _ _ _ _). assert (Ho1 : own0 mp db1 l fl h d) by (by destruct Ho).
  pose proof (chain_short _ _ _ (own_chain _ _ _ _ _ _ Ho)) as Hsh.
  pose proof (proj1 (NoDup_app l fl) (own_dup _ _ _ _ _ _ Ho)) as (Hnd & _).
  destruct (read_loop_ok (S (length (mp_cells mp))) mp db1 l fl h d sz Ho1) as (db' & mp' & l' & fl' & He & Ho' & Hs' & Hfr);
    [lia|specialize (Hsh Hnd); lia|].
  exists db', mp', l', fl'. split_and!; auto. split; [done|]. rewrite Hs'. unfold db1. cbn [db_size]. rewrite length_drop. lia.
Qed.

(** ** Pushing *)

Lemma new_block_lookup cells i :
  (1 <= i < MESSAGEPOOL)%nat →
  (cells ++ new_block (length cells)) !! (length cells + i)%nat =
  Some (mk_message None 0 (if bool_decide (i = MESSAGEPOOL - 1)%nat then None else Some (length cells + i + 1)%nat)).
Proof.
  intros Hi. rewrite lookup_app_r by lia. replace (length cells + i - length cells)%nat with i by lia.
  unfold new_block. destruct i as [|i]; [lia|]. rewrite lookup_cons, list_lookup_fmap, lookup_seq_lt by lia. done.
Qed.

Lemma new_block_chain cells n i :
  (1 <= i)%nat → (i + n = MESSAGEPOOL)%nat → (0 < n)%nat →
  chain (cells ++ new_block (length cells)) (Some (length cells + i)%nat) (seq (length cells + i) n).
Proof.
  revert i. induction n as [|n IH]; intros i Hi Hn Hp; [lia|]. cbn [seq chain]. split; [done|].
  eexists. split; [apply new_block_lookup; lia|]. cbn [m_next]. destruct n as [|n].
  - rewrite bool_decide_true by lia. done.
  - rewrite bool_decide_false by lia. replace (length cells + i + 1)%nat with (length cells + S i)%nat by lia.
    replace (S (length cells + i)) with (length cells + S i)%nat by lia. apply IH; lia.
Qed.

Lemma take_cell_ok mp fl :
  chain (mp_cells mp) (mp_free mp) fl → NoDup fl →
  ∃ m mp1 fl', take_cell mp = Some (m, mp1) ∧ chain (mp_cells mp1) (mp_free mp1) fl' ∧ NoDup (m :: fl') ∧
    (m < length (mp_cells mp1))%nat ∧ (length (mp_cells mp) <= length (mp_cells mp1))%nat ∧
    (∀ x, x ∈ m :: fl' → x ∈ fl ∨ (length (mp_cells mp) <= x)%nat) ∧
    (∀ x, (x < length (mp_cells mp))%nat → mp_cells mp1 !! x = mp_cells mp !! x).
Proof.
  intros Hc Hd. unfold take_cell. destruct fl as [|m fl].
  - simpl in Hc. rewrite Hc. eexists _, _, (seq (length (mp_cells mp) + 1) (MESSAGEPOOL - 1)).
    split; [reflexivity|]. cbn [mp_cells mp_free]. split_and!.
    + apply new_block_chain; unfold MESSAGEPOOL; lia.
    + constructor; [rewrite elem_of_seq; lia|apply NoDup_seq].
    + rewrite length_app. unfold new_block. cbn [length]. lia.
    + rewrite length_app. lia.
    + intros x Hx. right. apply elem_of_cons in Hx as [->|Hx]; [lia|]. apply elem_of_seq in Hx. lia.
    + intros x Hx. by rewrite lookup_app_l by lia.
  - destruct Hc as (-> & c & Hm & Hc). rewrite Hm. eexists m, _, fl. split; [reflexivity|]. cbn [mp_cells mp_free].
    split_and!; auto. by eapply lookup_lt_Some.
Qed.

Lemma cells_snoc cells p l t m c ct :
  chain cells p (l ++ [t]) → NoDup (l ++ [t]) → m ∉ l ++ [t] → cells !! m = Some c → m_next c = None → cells !! t = Some ct →
  chain (<[t := mk_message (m_buffer ct) (m_size ct) (Some m)]> cells) p ((l ++ [t]) ++ [m]).
Proof.
  intros Hc Hd Hm Hcm Hnx Hct. revert p Hc Hd Hm. induction l as [|s l IH]; intros p Hc Hd Hm.
  - destruct Hc as (-> & _ & _). split; [done|]. eexists. split; [apply list_lookup_insert_eq; by eapply lookup_lt_Some|].
    split; [done|]. exists c. rewrite list_lookup_insert_ne; [by rewrite Hnx|]. intros ->. apply Hm. constructor.
  - destruct Hc as (-> & cs & Hcs & Hc). simpl in Hd. apply NoDup_cons in Hd as [Hs Hd]. split; [done|]. exists cs.
    rewrite list_lookup_insert_ne; [|intros ->; apply Hs, elem_of_app; right; constructor].
    split; [done|]. apply IH; auto. intros Hin. apply Hm. simpl. by constructor.
Qed.

Lemma holds_upd cells cells' l bs :
  (∀ s c, s ∈ l → cells !! s = Some c → ∃ c', cells' !! s = Some c' ∧ m_buffer c' = m_buffer c ∧ m_size c' = m_size c) →
  holds cells l bs → holds cells' l bs.
Proof.
  intros He Hh. induction Hh as [|s b l bs (c & Hc & Hb & Hs) Hh IH]; constructor.
  - destruct (He s c) as (c' & Hc' & Hb' & Hs'); [constructor|done|]. exists c'. split_and!; congruence.
  - apply IH. intros t ct Ht. apply He. by constructor.
Qed.

Lemma elem_of_frame (l fl fl' : list nat) m len x :
  (∀ y, y ∈ m :: fl' → y ∈ fl ∨ (len <= y)%nat) → x ∈ (l ++ [m]) ++ fl' → x ∈ l ++ fl ∨ (len <= x)%nat.
Proof.
  intros H Hx. rewrite !elem_of_app, list_elem_of_singleton in Hx. rewrite elem_of_app.
  destruct Hx as [[Hx| ->]|Hx]; [auto| |].
  - destruct (H m); [constructor|auto|auto].
  - destruct (H x); [by constructor|auto|auto].
Qed.

Lemma databuffer_push_ok mp db l fl h d data :
  own mp db l fl h d → Z.of_nat (length d) + Z.of_nat (length data) <= INT_MAX →
  ∃ db' mp' l' fl', databuffer_push db mp data (Z.of_nat (length data)) = Some (db', mp') ∧
    own mp' db' l' fl' h (d ++ data) ∧ frame mp (l ++ fl) mp' (l' ++ fl').
Proof.
  intros [[Hc Hf Hd Ht Hh (bs & Hhold & Hdata & Hoff)] Hs] Hmax. unfold databuffer_push.
  apply NoDup_app in Hd as (Hdl & Hdis & Hdf).
  destruct (take_cell_ok mp fl Hf Hdf) as (m & mp1 & fl' & -> & Hf1 & Hd1 & Hm & Hlen & Hin & Hsame). cbn [mbind option_bind].
  rewrite chk32_some by (unfold INT_MIN, INT_MAX in *; lia). cbn [mbind option_bind].
  set (cells2 := <[m := _]> (mp_cells mp1)). apply NoDup_cons in Hd1 as [Hmf Hdf1].
  assert (Hll : ∀ x, x ∈ l → (x < length (mp_cells mp))%nat) by (intros x; by apply chain_lt with (1 := Hc)).
  assert (Hml : m ∉ l). { intros H. destruct (Hin m) as [Hi|Hi]; [constructor|by apply (Hdis m)|]. apply Hll in H. lia. }
  assert (H2l : ∀ x, x ∈ l → cells2 !! x = mp_cells mp !! x).
  { intros x Hx. unfold cells2. rewrite list_lookup_insert_ne by congruence. by apply Hsame, Hll. }
  assert (H2m : cells2 !! m = Some (mk_message (Some data) (Z.of_nat (length data)) None)) by (by apply list_lookup_insert_eq).
  assert (Hdup : NoDup ((l ++ [m]) ++ fl')).
  { apply NoDup_app. split_and!; [|intros x Hx Hx2|done].
    - apply NoDup_app. split_and!; [done| |apply NoDup_singleton]. intros x Hx ->%list_elem_of_singleton. done.
    - rewrite elem_of_app, list_elem_of_singleton in Hx. destruct Hx as [Hx| ->]; [|done].
      destruct (Hin x) as [Hi|Hi]; [by constructor|by apply (Hdis x)|]. apply Hll in Hx. lia. }
  assert (Hf2 : chain cells2 (mp_free mp1) fl').
  { eapply chain_ext; [|exact Hf1]. intros x Hx. apply list_lookup_insert_ne. congruence. }
  assert (Hframe : ∀ cells3, length cells3 = length cells2 → (∀ x, x ∉ l → x ≠ m → cells3 !! x = cells2 !! x) →
      frame mp (l ++ fl) (mk_messagepool cells3 (mp_pool mp1) (mp_free mp1)) ((l ++ [m]) ++ fl')).
  { intros cells3 Hl3 H3. unfold frame. cbn [mp_cells]. split_and!.
    - rewrite Hl3. unfold cells2. rewrite length_insert. done.
    - intros x. by apply elem_of_frame.
    - intros x Hlt Hx. rewrite elem_of_app in Hx. assert (x ≠ m).
      { intros ->. destruct (Hin m) as [|]; [constructor|naive_solver|lia]. }
      rewrite H3 by naive_solver. unfold cells2. rewrite list_lookup_insert_ne by done. by apply Hsame. }
  assert (Hnew : holds cells2 [m] [data]) by (constructor; [eauto|constructor]).
  destruct l as [|s l].
  - simpl in Hc, Ht. rewrite Hc, Ht. cbn [c_assert mbind option_bind]. inversion Hhold; subst bs.
    eexists _, _, [m], fl'. split; [reflexivity|]. split; [|by apply Hframe]. cbn in Hdata. rewrite drop_nil in Hdata. subst d.
    split; [|cbn; rewrite Hs; done]. split; cbn [mp_cells mp_free db_head db_tail db_header db_offset]; auto.
    + split; [done|]. eexists. split; [exact H2m|done].
    + exists [data]. split_and!; auto; rewrite Hoff; [by rewrite drop_0, concat_cons, app_nil_r|lia|lia].
  - pose proof (chain_head _ _ _ _ Hc) as Hhd. rewrite Hhd.
    destruct (exists_last (l := s :: l)) as (l1 & t & E); [done|]. rewrite E in *. rewrite last_snoc in Ht. rewrite Ht. cbn [mbind option_bind].
    assert (Htin : t ∈ l1 ++ [t]) by (apply elem_of_app; right; constructor).
    destruct (lookup_lt_is_Some_2 (mp_cells mp) t) as [ct Hct]; [by apply Hll|]. rewrite <- H2l in Hct by done.
    rewrite Hct. cbn [mbind option_bind].
    eexists _, _, ((l1 ++ [t]) ++ [m]), fl'. split; [reflexivity|]. split.
    + split; [|cbn [db_size]; rewrite length_app, Hs; lia]. split; cbn [mp_cells mp_free db_head db_tail db_header db_offset]; auto.
      * eapply cells_snoc; eauto. rewrite <- Hhd. eapply chain_ext; [|exact Hc]. auto.
      * eapply chain_ext; [|exact Hf2]. intros x Hx. apply list_lookup_insert_ne. intros ->.
        apply NoDup_app in Hdup as (_ & Hdd & _). apply (Hdd x); [apply elem_of_app; by left|done].
      * by rewrite last_snoc.
      * exists (bs ++ [data]). split_and!.
        -- apply Forall2_app.
           ++ eapply holds_upd; [|exact Hhold]. intros x c Hx Hcx. rewrite <- H2l in Hcx by done.
              destruct (decide (x = t)) as [->|Hne]; [|exists c; by rewrite list_lookup_insert_ne by done].
              eexists. rewrite list_lookup_insert_eq by (by eapply lookup_lt_Some). split; [done|]. cbn. split; congruence.
           ++ eapply holds_ext; [|exact Hnew]. intros x ->%list_elem_of_singleton. apply list_lookup_insert_ne. congruence.
        -- rewrite concat_app. cbn [concat]. rewrite app_nil_r, drop_app_le; [by rewrite Hdata|].
           destruct bs as [|b bs]; [inversion Hhold as [E0|]; by destruct l1|]. simpl. rewrite length_app. lia.
        -- destruct bs as [|b bs]; [inversion Hhold as [E0|]; by destruct l1|]. done.
    + apply Hframe; [by rewrite length_insert|]. intros x Hx _. apply list_lookup_insert_ne. congruence.
Qed.

(** ** Headers and clearing *)

(** [databuffer_readheader] on the header and the data: the number returned,
    the header and the data after it. *)
Definition header_spec (hs h : Z) (d : list Z) : option (Z * Z * list Z) :=
  if (h =? 0) && (Z.of_nat (length d) <? hs) then Some (-1, h, d)
  else
    '(h, d) ← (if h =? 0 then h' ← read_header hs (take (Z.to_nat hs) d); Some (h', drop (Z.to_nat hs) d) else Some (h, d));
    Some (if Z.of_nat (length d) <? h then -1 else h, h, d).

Lemma own_set_header mp db l fl h d h' : own mp db l fl h d → own mp (set_header db h') l fl h' d.
Proof. intros [Ho Hs]. split; [|done]. destruct Ho. by split. Qed.

Lemma databuffer_readheader_ok mp db l fl h d hs r h' d' :
  own mp db l fl h d → 0 < hs → header_spec hs h d = Some (r, h', d') →
  ∃ db' mp' l' fl', databuffer_readheader db mp hs = Some (r, db', mp') ∧
    own mp' db' l' fl' h' d' ∧ frame mp (l ++ fl) mp' (l' ++ fl').
Proof.
  intros Ho Hhs Hsp. unfold databuffer_readheader, header_spec in *.
  pose proof Ho as [Ho0 Hsz]. rewrite (own_header _ _ _ _ _ _ Ho0), Hsz.
  destruct (Z.eqb_spec h 0) as [->|Hh]; cbn [andb] in *.
  - destruct (Z.ltb_spec (Z.of_nat (length d)) hs) as [Hlt|Hge].
    { simplify_eq. exists db, mp, l, fl. split_and!; auto. apply frame_refl. }
    destruct (databuffer_read_ok mp db l fl 0 d hs Ho) as (db1 & mp1 & l1 & fl1 & -> & Ho1 & Hfr); [lia|].
    cbn [mbind option_bind]. destruct (read_header hs (take (Z.to_nat hs) d)) as [h1|]; [|done]. cbn [mbind option_bind] in *.
    simplify_eq. pose proof (own_set_header _ _ _ _ _ _ h' Ho1) as Ho2. pose proof Ho2 as [_ Hs2].
    exists (set_header db1 h'), mp1, l1, fl1. rewrite Hs2. cbn [set_header db_header]. split_and!; auto. by destruct (_ <? _).
  - cbn [mbind option_bind] in *. simplify_eq. exists db, mp, l, fl.
    rewrite (own_header _ _ _ _ _ _ Ho0), Hsz. split_and!; auto; [by destruct (_ <? _)|apply frame_refl].
Qed.

Lemma clear_loop_ok fuel : ∀ mp db l fl,
  chain (mp_cells mp) (db_head db) l → chain (mp_cells mp) (mp_free mp) fl → NoDup (l ++ fl) → db_tail db = last l →
  (length l <= fuel)%nat →
  ∃ mp' fl', clear_loop fuel db mp = Some (databuffer_zero, mp') ∧ chain (mp_cells mp') (mp_free mp') fl' ∧ NoDup fl' ∧
    frame mp (l ++ fl) mp' fl'.
Proof.
  induction fuel as [|fuel IH]; intros mp db l fl Hc Hf Hd Ht Hl.
  all: destruct l as [|s l]; [simpl in Hc; cbn [clear_loop]; rewrite Hc; exists mp, fl; split_and!; auto; apply frame_refl|].
  - simpl in Hl. lia.
  - cbn [clear_loop]. rewrite (chain_head _ _ _ _ Hc).
    destruct (return_ok mp db s l fl Hc Hf Hd Ht) as (hd & tl & mp1 & -> & Hc1 & Hf1 & Hd1 & -> & _ & Hfr). cbn [mbind option_bind].
    destruct (IH mp1 (mk_databuffer (db_header db) (db_offset db) (db_size db) hd (last l)) l (s :: fl))
      as (mp' & fl' & He & Hf' & Hd' & Hfr'); auto; [simpl in Hl; lia|].
    exists mp', fl'. split_and!; auto. by eapply frame_trans.
Qed.

Lemma databuffer_clear_ok mp db l fl h d :
  own mp db l fl h d →
  ∃ mp' fl', databuffer_clear db mp = Some (databuffer_zero, mp') ∧ own mp' databuffer_zero [] fl' 0 [] ∧
    frame mp (l ++ fl) mp' ([] ++ fl').
Proof.
  intros [[Hc Hf Hd Ht _ _] _]. unfold databuffer_clear. pose proof (proj1 (NoDup_app l fl) Hd) as (Hdl & _).
  destruct (clear_loop_ok (length (mp_cells mp)) mp db l fl) as (mp' & fl' & He & Hf' & Hd' & Hfr); auto.
  { by eapply chain_short. }
  exists mp', fl'. split_and!; auto. by apply own_new.
Qed.

(** ** Many buffers on one pool *)

(** Each buffer's cells [ls !! i] are its own; [vs !! i] are its header and
    data. *)
Record world (mp : messagepool) (dbs : list databuffer) (ls : list (list nat)) (fl : list nat) (vs : list (Z * list Z)) : Prop := {
  world_len : length ls = length dbs ∧ length vs = length dbs;
  world_free : chain (mp_cells mp) (mp_free mp) fl ∧ NoDup fl;
  world_own : ∀ i db l v, dbs !! i = Some db → ls !! i = Some l → vs !! i = Some v → own mp db l fl v.1 v.2;
  world_disj : ∀ i j l l' x, i ≠ j → ls !! i = Some l → ls !! j = Some l' → x ∈ l → x ∈ l' → False
}.

Lemma own_frame mp db l fl h d mp' fl' m' m :
  own mp db l fl h d → (∀ x, x ∈ l → x ∉ m) → frame mp (m ++ fl) mp' (m' ++ fl') →
  chain (mp_cells mp') (mp_free mp') fl' → NoDup fl' → own mp' db l fl' h d ∧ ∀ x, x ∈ l → x ∉ m'.
Proof.
  intros [[Hc Hf Hd Ht Hh (bs & Hhold & Hdata & Hoff)] Hs] Hdis (Hl & Hx & Hsame) Hf' Hd'.
  apply NoDup_app in Hd as (Hdl & Hdd & _).
  assert (Hlt : ∀ x, x ∈ l → (x < length (mp_cells mp))%nat) by (intros x; by apply chain_lt with (1 := Hc)).
  assert (Hout : ∀ x, x ∈ l → x ∉ m ++ fl) by (intros x Hxl; rewrite elem_of_app; intros [|]; [by eapply Hdis|by eapply Hdd]).
  assert (Hnew : ∀ x, x ∈ l → x ∉ m' ++ fl').
  { intros x Hxl Hin. destruct (Hx x Hin) as [H|H]; [by apply (Hout x)|]. apply Hlt in Hxl. lia. }
  assert (He : ∀ x, x ∈ l → mp_cells mp' !! x = mp_cells mp !! x) by (intros x Hxl; apply Hsame; auto).
  split.
  - split; [|done]. split; auto; [by eapply chain_ext| |exists bs; split_and!; auto; by eapply holds_ext].
    apply NoDup_app. split_and!; auto. intros x Hxl Hxf. apply (Hnew x Hxl), elem_of_app. by right.
  - intros x Hxl Hin. apply (Hnew x Hxl), elem_of_app. by left.
Qed.

Lemma world_step mp dbs ls fl vs i db l mp' db' l' fl' h' d' :
  world mp dbs ls fl vs → dbs !! i = Some db → ls !! i = Some l → own mp' db' l' fl' h' d' →
  frame mp (l ++ fl) mp' (l' ++ fl') →
  world mp' (<[i := db']> dbs) (<[i := l']> ls) fl' (<[i := (h', d')]> vs).
Proof.
  intros [[Hl1 Hl2] _ Hown Hdis] Hdb Hl Ho' Hfr. pose proof (lookup_lt_Some _ _ _ Hdb) as Hi.
  pose proof Ho' as [[_ Hf' Hd' _ _ _] _]. apply NoDup_app in Hd' as (_ & _ & Hd').
  assert (Hoth : ∀ j l2, j ≠ i → ls !! j = Some l2 → ∃ dbj vj, dbs !! j = Some dbj ∧ vs !! j = Some vj ∧
      own mp' dbj l2 fl' vj.1 vj.2 ∧ ∀ x, x ∈ l2 → x ∉ l').
  { intros j l2 Hne Hlj. pose proof (lookup_lt_Some _ _ _ Hlj) as Hj.
    destruct (lookup_lt_is_Some_2 dbs j) as [dbj Hdj]; [lia|]. destruct (lookup_lt_is_Some_2 vs j) as [vj Hvj]; [lia|].
    exists dbj, vj. split_and!; auto; eapply own_frame; eauto; intros x Hx Hx'; by eapply (Hdis j i). }
  split; [by rewrite !length_insert|done| |].
  - intros j dbj lj vj Hj1 Hj2 Hj3. destruct (decide (j = i)) as [->|Hne].
    + rewrite list_lookup_insert_eq in Hj1 by lia. rewrite list_lookup_insert_eq in Hj2 by lia.
      rewrite list_lookup_insert_eq in Hj3 by lia. by simplify_eq.
    + rewrite list_lookup_insert_ne in Hj1 by done. rewrite list_lookup_insert_ne in Hj2 by done.
      rewrite list_lookup_insert_ne in Hj3 by done. destruct (Hoth j lj Hne Hj2) as (? & ? & ? & ? & ? & _). by simplify_eq.
  - intros j1 j2 a b x Hne H1 H2 Hxa Hxb. destruct (decide (j1 = i)) as [->|Hn1].
    + rewrite list_lookup_insert_eq in H1 by lia. rewrite list_lookup_insert_ne in H2 by done. simplify_eq.
      destruct (Hoth j2 b ltac:(done) H2) as (? & ? & _ & _ & _ & Hd). by apply (Hd x).
    + rewrite list_lookup_insert_ne in H1 by done. destruct (decide (j2 = i)) as [->|Hn2].
      * rewrite list_lookup_insert_eq in H2 by lia. simplify_eq.
        destruct (Hoth j1 a ltac:(done) H1) as (? & ? & _ & _ & _ & Hd). by apply (Hd x).
      * rewrite list_lookup_insert_ne in H2 by done. by eapply (Hdis j1 j2).
Qed.

Lemma world_init n : world messagepool_zero (replicate n databuffer_zero) (replicate n []) [] (replicate n (0, [])).
Proof.
  split.
  - by rewrite !length_replicate.
  - split; [done|constructor].
  - intros i db l v [-> _]%lookup_replicate [-> _]%lookup_replicate [-> _]%lookup_replicate. apply own_new; [done|constructor].
  - intros i j l l' x _ [-> _]%lookup_replicate _ Hx. by apply not_elem_of_nil in Hx.
Qed.

Lemma world_lookup mp dbs ls fl vs i v :
  world mp dbs ls fl vs → vs !! i = Some v → ∃ db l, dbs !! i = Some db ∧ ls !! i = Some l ∧ own mp db l fl v.1 v.2.
Proof.
  intros Hw Hv. destruct (world_len _ _ _ _ _ Hw) as [H1 H2]. pose proof (lookup_lt_Some _ _ _ Hv).
  destruct (lookup_lt_is_Some_2 dbs i) as [db Hdb]; [lia|]. destruct (lookup_lt_is_Some_2 ls i) as [l Hl]; [lia|].
  exists db, l. split_and!; auto. by eapply world_own.
Qed.

(** ** Sequences of operations on the buffers of a gate *)

Inductive dop :=
  | DPush (i : nat) (data : list Z)
  | DRead (i : nat) (sz : Z)
  | DClear (i : nat).

Definition dexec (dbs : list databuffer) (mp : messagepool) (o : dop) : option (list Z * list databuffer * messagepool) :=
  match o with
  | DPush i data =>
      db ← dbs !! i;
      '(db, mp) ← databuffer_push db mp data (Z.of_nat (length data));
      Some ([], <[i := db]> dbs, mp)
  | DRead i sz =>
      db ← dbs !! i;
      '(d, db, mp) ← databuffer_read db mp sz;
      Some (d, <[i := db]> dbs, mp)
  | DClear i =>
      db ← dbs !! i;
      '(db, mp) ← databuffer_clear db mp;
      Some ([], <[i := db]> dbs, mp)
  end.

Fixpoint drun (dbs : list databuffer) (mp : messagepool) (ops : list dop) : option (list (list Z)) :=
  match ops with
  | [] => Some []
  | o :: ops' => '(r, dbs, mp) ← dexec dbs mp o; rs ← drun dbs mp ops'; Some (r :: rs)
  end.

(** The specification: a queue of bytes per buffer.  [None] when a read asks
    for more than there is, or for nothing, or a queue outgrows an int. *)
Definition dspec1 (qs : list (list Z)) (o : dop) : option (list Z * list (list Z)) :=
  match o with
  | DPush i data =>
      q ← qs !! i;
      if Z.of_nat (length q) + Z.of_nat (length data) <=? INT_MAX then Some ([], <[i := q ++ data]> qs) else None
  | DRead i sz =>
      q ← qs !! i;
      if (0 <? sz) && (sz <=? Z.of_nat (length q)) then Some (take (Z.to_nat sz) q, <[i := drop (Z.to_nat sz) q]> qs) else None
  | DClear i => q ← qs !! i; Some ([], <[i := []]> qs)
  end.

Fixpoint dspec (qs : list (list Z)) (ops : list dop) : option (list (list Z)) :=
  match ops with
  | [] => Some []
  | o :: ops' => '(r, qs) ← dspec1 qs o; rs ← dspec qs ops'; Some (r :: rs)
  end.

Lemma fmap_insert_same (vs : list (Z * list Z)) i v d : vs !! i = Some v → v.1 = 0 → 
  <[i := d]> (snd <$> vs) = snd <$> <[i := (0, d)]> vs ∧ (Forall (λ v, v.1 = 0) vs → Forall (λ v, v.1 = 0) (<[i := (0, d)]> vs)).
Proof. intros Hv H0. split; [by rewrite list_fmap_insert|]. intros. by apply Forall_insert. Qed.

Lemma dexec_ok mp dbs ls fl vs o r qs :
  world mp dbs ls fl vs → Forall (λ v, v.1 = 0) vs → dspec1 (snd <$> vs) o = Some (r, qs) →
  ∃ dbs' mp' ls' fl' vs', dexec dbs mp o = Some (r, dbs', mp') ∧ world mp' dbs' ls' fl' vs' ∧
    Forall (λ v, v.1 = 0) vs' ∧ qs = snd <$> vs'.
Proof.
  intros Hw H0 Hs. destruct o as [i data|i sz|i]; cbn [dspec1 dexec] in *; rewrite list_lookup_fmap in Hs;
    destruct (vs !! i) as [[h q]|] eqn:Hv; cbn [fmap option_fmap mbind option_bind snd option_map] in Hs; try done;
    destruct (world_lookup _ _ _ _ _ _ _ Hw Hv) as (db & l & Hdb & Hl & Ho); rewrite Hdb; cbn [mbind option_bind];
    pose proof (Forall_lookup_1 _ _ _ _ H0 Hv) as Hh; cbn [fst snd] in *; subst h.
  - destruct (Z.leb_spec (Z.of_nat (length q) + Z.of_nat (length data)) INT_MAX); simplify_eq.
    destruct (databuffer_push_ok _ _ _ _ _ _ data Ho) as (db' & mp' & l' & fl' & -> & Ho' & Hfr); [done|]. cbn [mbind option_bind].
    destruct (fmap_insert_same vs i (0, q) (q ++ data) Hv eq_refl) as [-> Hf].
    do 5 eexists. split; [reflexivity|]. split; [by eapply world_step|]. auto.
  - destruct (Z.ltb_spec 0 sz), (Z.leb_spec sz (Z.of_nat (length q))); cbn [andb] in Hs; simplify_eq.
    destruct (databuffer_read_ok _ _ _ _ _ _ sz Ho) as (db' & mp' & l' & fl' & -> & Ho' & Hfr); [done|]. cbn [mbind option_bind].
    destruct (fmap_insert_same vs i (0, q) (drop (Z.to_nat sz) q) Hv eq_refl) as [-> Hf].
    do 5 eexists. split; [reflexivity|]. split; [by eapply world_step|]. auto.
  - simplify_eq. destruct (databuffer_clear_ok _ _ _ _ _ _ Ho) as (mp' & fl' & -> & Ho' & Hfr). cbn [mbind option_bind].
    destruct (fmap_insert_same vs i (0, q) [] Hv eq_refl) as [-> Hf].
    do 5 eexists. split; [reflexivity|]. split; [by eapply world_step|]. auto.
Qed.

Lemma drun_ok ops : ∀ mp dbs ls fl vs rs,
  world mp dbs ls fl vs → Forall (λ v, v.1 = 0) vs → dspec (snd <$> vs) ops = Some rs → drun dbs mp ops = Some rs.
Proof.
  induction ops as [|o ops IH]; intros mp dbs ls fl vs rs Hw H0 Hs; [done|]. cbn [dspec drun] in *.
  destruct (dspec1 (snd <$> vs) o) as [[r qs]|] eqn:E; [|done]. cbn [mbind option_bind] in Hs.
  destruct (dexec_ok _ _ _ _ _ _ _ _ Hw H0 E) as (dbs' & mp' & ls' & fl' & vs' & -> & Hw' & H0' & ->). cbn [mbind option_bind].
  destruct (dspec (snd <$> vs') ops) as [rs'|] eqn:E'; [|done]. cbn [mbind option_bind] in Hs.
  rewrite (IH _ _ _ _ _ _ Hw' H0' E'). done.
Qed.

(** C34. Any number of buffers on one pool, under any interleaving of pushes of
    blocks (a buffer holds no more than [INT_MAX] bytes), reads across blocks
    (of at least one byte and no more than there are) and clears, behave as
    independent queues of bytes: every read terminates and returns the bytes a
    queue would, no assertion fails and no NULL pointer is followed. *)
Theorem databuffer_fifo n ops rs :
  dspec (replicate n []) ops = Some rs → drun (replicate n databuffer_zero) messagepool_zero ops = Some rs.
Proof.
  intros Hs. eapply drun_ok; [apply world_init|by apply Forall_replicate|]. by rewrite fmap_replicate.
Qed.

Lemma databuffer_fifo_witness :
  drun (replicate 2 databuffer_zero) messagepool_zero
    [DPush 0 [1; 2]; DPush 1 [9]; DPush 0 [3; 4; 5]; DRead 0 4; DClear 1; DPush 1 [7; 8]; DRead 1 2; DRead 0 1] =
  Some [[]; []; []; [1; 2; 3; 4]; []; []; [7; 8]; [5]].
Proof. apply (databuffer_fifo 2). reflexivity. Defined.
