(* ===== verification/Gate.v ===== *)
(** * The gate service: service-src/service_gate.c

    The gate accepts connections, cuts the data of each into packets with a
    header of two or four bytes and forwards these to the broker, to the agent
    of the connection or, as text, to the watchdog.

    A connection lives in the slot [hashid] gives its socket id; the blocks of
    its unread data are chained through the gate's message pool.  The calls
    the service makes to the rest of the system (messages sent, sockets
    closed, started, written, errors logged) are the list of effects a
    function returns, in order.

    [gate_refines] states that all this behaves as a map from socket ids to
    connections with a stream of bytes each. *)

From Stdlib Require Import ZArith Lia.
From stdpp Require Import base tactics option numbers gmap list strings.
From S2P Require Import Prelude MessageQueue HandleStorage Netpack HashId DataBuffer Libc.

Definition BACKLOG : Z := 32.

(** [remote_name] up to its 0. *)
Record connection := mk_conn {
  c_id : Z;
  c_agent : Z;
  c_client : Z;
  c_remote_name : list Z;
  c_buffer : databuffer
}.

Record gate := mk_gate {
  g_listen_id : Z;
  g_watchdog : Z;
  g_broker : Z;
  g_client_tag : Z;
  g_header_size : Z;
  g_max_connection : Z;
  g_hash : hashid;
  g_conn : list connection;
  g_mp : messagepool
}.

Inductive effect :=
  | ESend (source destination type session : Z) (data : list Z)    (* skynet_send *)
  | EClose (id : Z)                                                 (* skynet_socket_close *)
  | EStart (id : Z)                                                 (* skynet_socket_start *)
  | ESocketSend (id : Z) (data : list Z)                            (* skynet_socket_send *)
  | EListen (host : list Z) (port backlog : Z)                      (* skynet_socket_listen *)
  | EError (text : string) (args : list Z).                         (* skynet_error *)

Definition conn_zero : connection := mk_conn (-1) 0 0 [] databuffer_zero.

(** [gate_create]: cleared memory, [listen_id] -1. *)
Definition gate_create : gate :=
  mk_gate (-1) 0 0 0 0 0 (mk_hashid 0 0 0 [] []) [] messagepool_zero.

Definition set_conns (g : gate) (hash : hashid) (conn : list connection) (mp : messagepool) : gate :=
  mk_gate (g_listen_id g) (g_watchdog g) (g_broker g) (g_client_tag g) (g_header_size g) (g_max_connection g) hash conn mp.

(** The store to one connection, and to the pool. *)
Definition put_conn (g : gate) (i : Z) (c : connection) (mp : messagepool) : option gate :=
  conn ← arr_set (g_conn g) i c;
  Some (set_conns g (g_hash g) conn mp).

Definition set_buffer (c : connection) (db : databuffer) : connection :=
  mk_conn (c_id c) (c_agent c) (c_client c) (c_remote_name c) db.

(** ** Packets *)

(** [_report(g, data, ...)] with the text printed. *)
Definition _report (g : gate) (text : list Z) : list effect :=
  if g_watchdog g =? 0 then [] else [ESend 0 (g_watchdog g) PTYPE_TEXT 0 text].

(** [_forward(g, c, size)]: the connection and the pool after the read. *)
Definition _forward (g : gate) (c : connection) (mp : messagepool) (size : Z)
    : option (connection * messagepool * list effect) :=
  if negb (g_broker g =? 0) then
    '(temp, db, mp) ← databuffer_read (c_buffer c) mp size;
    Some (set_buffer c db, mp, [ESend 0 (g_broker g) (Z.lor (g_client_tag g) PTYPE_TAG_DONTCOPY) 1 temp])
  else if negb (c_agent c =? 0) then
    '(temp, db, mp) ← databuffer_read (c_buffer c) mp size;
    Some (set_buffer c db, mp, [ESend (c_client c) (c_agent c) (Z.lor (g_client_tag g) PTYPE_TAG_DONTCOPY) 1 temp])
  else if negb (g_watchdog g =? 0) then
    let head := print_d (c_id c) ++ lit " data " in
    '(tmp, db, mp) ← databuffer_read (c_buffer c) mp size;
    Some (set_buffer c db, mp, [ESend 0 (g_watchdog g) (Z.lor PTYPE_TEXT PTYPE_TAG_DONTCOPY) 1 (head ++ tmp)])
  else Some (c, mp, []).

(** The loop of [dispatch_message]. *)
Fixpoint dispatch_loop (fuel : nat) (g : gate) (c : connection) (mp : messagepool) (id : Z)
    : option (connection * messagepool * list effect) :=
  match fuel with
  | O => None
  | S f =>
      '(size, db, mp) ← databuffer_readheader (c_buffer c) mp (g_header_size g);
      let c := set_buffer c db in
      if size <? 0 then Some (c, mp, [])
      else if 0 <? size then
        if 0x1000000 <=? size then
          '(db, mp) ← databuffer_clear (c_buffer c) mp;
          Some (set_buffer c db, mp, [EClose id; EError "Recv socket message > 16M" []])
        else
          '(c, mp, e) ← _forward g c mp size;
          let c := set_buffer c (databuffer_reset (c_buffer c)) in
          '(c, mp, e') ← dispatch_loop f g c mp id;
          Some (c, mp, e ++ e')
      else dispatch_loop f g c mp id
  end.

(** Each round consumes a header or leaves one to consume. *)
Definition dispatch_fuel (db : databuffer) : nat := Z.to_nat (2 * db_size db + 3).

Definition dispatch_message (g : gate) (i : Z) (id : Z) (data : list Z) (sz : Z) : option (gate * list effect) :=
  c ← arr_get (g_conn g) i;
  '(db, mp) ← databuffer_push (c_buffer c) (g_mp g) data sz;
  '(c, mp, e) ← dispatch_loop (dispatch_fuel db) g (set_buffer c db) mp id;
  g ← put_conn g i c mp;
  Some (g, e).

(** ** Socket messages *)

(** [%s] of a text that may contain a 0. *)
Fixpoint text_of (l : list Z) : list Z :=
  match l with
  | [] => []
  | b :: l' => if b =? 0 then [] else b :: text_of l'
  end.

(** [dispatch_socket_message(g, message, sz)]; [sz] is the length of what
    follows the struct. *)
Definition dispatch_socket_message (g : gate) (m : socket_message) : option (gate * list effect) :=
  match sm_type m with
  | SOCKET_DATA =>
      i ← hashid_lookup (g_hash g) (sm_id m);
      if 0 <=? i then
        data ← sm_buffer m;
        dispatch_message g i (sm_id m) data (sm_ud m)
      else Some (g, [EError "Drop unknown connection %d message" [sm_id m]; EClose (sm_id m)])
  | SOCKET_CONNECT =>
      if sm_id m =? g_listen_id g then Some (g, [])
      else
        i ← hashid_lookup (g_hash g) (sm_id m);
        if i <? 0 then Some (g, [EError "Close unknown connection %d" [sm_id m]; EClose (sm_id m)]) else Some (g, [])
  | SOCKET_CLOSE | SOCKET_ERROR =>
      '(hash, i) ← hashid_remove (g_hash g) (sm_id m);
      let g := set_conns g hash (g_conn g) (g_mp g) in
      if 0 <=? i then
        c ← arr_get (g_conn g) i;
        '(_, mp) ← databuffer_clear (c_buffer c) (g_mp g);
        g ← put_conn g i conn_zero mp;
        Some (g, _report g (print_d (sm_id m) ++ lit " close"))
      else Some (g, [])
  | SOCKET_ACCEPT =>
      _ ← c_assert (g_listen_id g =? sm_id m);
      if hashid_full (g_hash g) then Some (g, [EClose (sm_ud m)])
      else
        '(hash, i) ← hashid_insert (g_hash g) (sm_ud m);
        let g := set_conns g hash (g_conn g) (g_mp g) in
        c ← arr_get (g_conn g) i;
        let name := text_of (take 31 (sm_padding m)) in
        let c := mk_conn (sm_ud m) (c_agent c) (c_client c) name (c_buffer c) in
        g ← put_conn g i c (g_mp g);
        Some (g, _report g (print_d (c_id c) ++ lit " open " ++ print_d (c_id c) ++ lit " " ++ name ++ lit ":0")
                   ++ [EError "socket open: %x" [c_id c]])
  | SOCKET_WARNING => Some (g, [EError "fd (%d) send buffer (%d)K" [sm_id m; sm_ud m]])
  | SOCKET_UDP => Some (g, [])
  end.

(** ** Control commands *)

Inductive command :=
  | CmdNone
  | CmdKick (uid : Z)
  | CmdForward (fd agent client : Z)
  | CmdBroker (name : list Z)
  | CmdStart (uid : Z)
  | CmdClose
  | CmdUnknown (text : list Z).

(** [_parm(msg, sz, command_sz)]: the spaces skipped, ... *)
Fixpoint parm_skip (fuel : nat) (msg : list Z) (sz command_sz : Z) : option Z :=
  match fuel with
  | O => Some command_sz
  | S f =>
      if command_sz <? sz then
        b ← arr_get msg command_sz;
        if negb (b =? 32) then Some command_sz else parm_skip f msg sz (command_sz + 1)
      else Some command_sz
  end.

(** ... and the rest moved to the front and terminated. *)
Definition _parm (msg : list Z) (sz command_sz : Z) : option (list Z) :=
  k ← parm_skip (length msg) msg sz command_sz;
  let moved := take (Z.to_nat (sz - k)) (drop (Z.to_nat k) msg) in
  arr_set (moved ++ drop (length moved) msg) (sz - k) 0.

(** The command of a text message, as [_ctrl] reads it: the first word is
    compared with the names by [memcmp] over the word's own length. *)
Definition ctrl_command (msg : list Z) : option command :=
  let sz := Z.of_nat (length msg) in
  let tmp := msg ++ [0] in
  if sz =? 0 then Some CmdNone
  else
    let i := match index_of 32 msg with Some i => i | None => length msg end in
    let cmp name := memcmp_eq i tmp (lit name ++ [0]) in
    kick ← cmp "kick"%string;
    if (kick : bool) then
      tmp ← _parm tmp sz (Z.of_nat i);
      s ← cstr_at tmp 0;
      Some (CmdKick (i32 (strtol s)))
    else
      forward ← cmp "forward"%string;
      if (forward : bool) then
        tmp ← _parm tmp sz (Z.of_nat i);
        '(idstr, tmp, client) ← strsep tmp 0;
        match client with
        | None => Some CmdNone
        | Some p =>
            ids ← cstr_at tmp idstr;
            '(agent, tmp, client) ← strsep tmp p;
            match client with
            | None => Some CmdNone
            | Some q =>
                a ← cstr_at tmp (agent + 1);
                c ← cstr_at tmp (q + 1);
                Some (CmdForward (i32 (strtol ids)) (u32 (strtoul16 a)) (u32 (strtoul16 c)))
            end
        end
      else
        broker ← cmp "broker"%string;
        if (broker : bool) then
          tmp ← _parm tmp sz (Z.of_nat i);
          s ← cstr_at tmp 0;
          Some (CmdBroker s)
        else
          start ← cmp "start"%string;
          if (start : bool) then
            tmp ← _parm tmp sz (Z.of_nat i);
            s ← cstr_at tmp 0;
            Some (CmdStart (i32 (strtol s)))
          else
            close ← cmp "close"%string;
            if (close : bool) then Some CmdClose
            else s ← cstr_at tmp 0; Some (CmdUnknown s).

(** [skynet_queryname] of skynet_server.c. *)
Definition skynet_queryname (hs : handle_storage) (name : list Z) : option (Z * list effect) :=
  match name with
  | 58 :: s => Some (u32 (strtoul16 s), [])
  | 46 :: s => h ← skynet_handle_findname s hs; Some (h, [])
  | _ => Some (0, [EError "Don't support query global name %s" name])
  end.

Definition _forward_agent (g : gate) (fd agentaddr clientaddr : Z) : option gate :=
  i ← hashid_lookup (g_hash g) fd;
  if 0 <=? i then
    c ← arr_get (g_conn g) i;
    put_conn g i (mk_conn (c_id c) agentaddr clientaddr (c_remote_name c) (c_buffer c)) (g_mp g)
  else Some g.

Definition set_broker (g : gate) (b : Z) : gate :=
  mk_gate (g_listen_id g) (g_watchdog g) b (g_client_tag g) (g_header_size g) (g_max_connection g)
    (g_hash g) (g_conn g) (g_mp g).

Definition set_listen (g : gate) (id : Z) : gate :=
  mk_gate id (g_watchdog g) (g_broker g) (g_client_tag g) (g_header_size g) (g_max_connection g)
    (g_hash g) (g_conn g) (g_mp g).

(** [_ctrl(g, msg, sz)] *)
Definition _ctrl (hs : handle_storage) (g : gate) (msg : list Z) : option (gate * list effect) :=
  cmd ← ctrl_command msg;
  match cmd with
  | CmdNone => Some (g, [])
  | CmdKick uid =>
      i ← hashid_lookup (g_hash g) uid;
      Some (g, if 0 <=? i then [EClose uid] else [])
  | CmdForward fd agent client => g ← _forward_agent g fd agent client; Some (g, [])
  | CmdBroker name => '(b, e) ← skynet_queryname hs name; Some (set_broker g b, e)
  | CmdStart uid =>
      i ← hashid_lookup (g_hash g) uid;
      Some (g, if 0 <=? i then [EStart uid] else [])
  | CmdClose =>
      if 0 <=? g_listen_id g then Some (set_listen g (-1), [EClose (g_listen_id g)]) else Some (g, [])
  | CmdUnknown s => Some (g, [EError "[gate] Unkown command : %s" s])
  end.

(** ** The callback *)

(** A message of the gate: its type and content. *)
Inductive event :=
  | EvText (msg : list Z)
  | EvClient (source : Z) (msg : list Z)
  | EvSocket (m : socket_message).

(** [_cb]: the effects, and the value returned (1: do not free the message). *)
Definition _cb (hs : handle_storage) (g : gate) (ev : event) : option (gate * list effect * Z) :=
  match ev with
  | EvText msg => '(g, e) ← _ctrl hs g msg; Some (g, e, 0)
  | EvClient source msg =>
      let sz := Z.of_nat (length msg) in
      if sz <=? 4 then Some (g, [EError "Invalid client message from %x" [source]], 0)
      else
        let uid := le_val (drop (Z.to_nat (sz - 4)) msg) in
        i ← hashid_lookup (g_hash g) (i32 uid);
        if 0 <=? i then Some (g, [ESocketSend (i32 uid) (take (Z.to_nat (sz - 4)) msg)], 1)
        else Some (g, [EError "Invalid client id %d from %x" [i32 uid; source]], 0)
  | EvSocket m => '(g, e) ← dispatch_socket_message g m; Some (g, e, 0)
  end.

(** ** Start and release *)

(** [sscanf(parm, "%c %s %s %d %d", ...)] when at least four conversions are
    made ([n >= 4]): [max] stays 0 without the fifth. *)
Definition scan_parm (parm : list Z) : option (Z * list Z * list Z * Z * Z) :=
  match parm with
  | [] => None
  | header :: s =>
      '(watchdog, s) ← scan_s s;
      '(binding, s) ← scan_s s;
      '(client_tag, s) ← scan_d s;
      Some (header, watchdog, binding, client_tag, match scan_d s with Some (max, _) => max | None => 0 end)
  end.

(** [start_listen]; [listen] is the result of [skynet_socket_listen]. *)
Definition start_listen (g : gate) (listen_addr : list Z) (listen : Z) : gate * list effect * Z :=
  let '(host, portstr) :=
    match index_of 58 listen_addr with
    | None => ([], listen_addr)
    | Some i => (take i listen_addr, drop (S i) listen_addr)
    end in
  let port := i32 (strtol portstr) in
  if port <=? 0 then (g, [EError "Invalid gate address %s" listen_addr], 1)
  else
    let g := set_listen g listen in
    if listen <? 0 then (g, [EListen host port BACKLOG], 1)
    else (g, [EListen host port BACKLOG; EStart listen], 0).

Definition gate_init (hs : handle_storage) (g : gate) (parm : list Z) (listen : Z) : option (gate * list effect * Z) :=
  match scan_parm parm with
  | None => Some (g, [EError "Invalid gate parm %s" parm], 1)
  | Some (header, watchdog, binding, client_tag, max) =>
      if max <=? 0 then Some (g, [EError "Need max connection" []], 1)
      else if negb (header =? 83) && negb (header =? 76) then Some (g, [EError "Invalid data header style" []], 1)
      else
        let client_tag := if client_tag =? 0 then PTYPE_CLIENT else client_tag in
        '(w, e, bad) ←
          match watchdog with
          | 33 :: _ => Some (0, [], false)
          | _ =>
              '(w, e) ← skynet_queryname hs watchdog;
              Some (w, e, w =? 0)
          end;
        if (bad : bool) then Some (g, e ++ [EError "Invalid watchdog %s" watchdog], 1)
        else
          hash ← hashid_init max;
          let g := mk_gate (g_listen_id g) w (g_broker g) client_tag (if header =? 83 then 2 else 4) max
                     hash (replicate (Z.to_nat max) conn_zero) (g_mp g) in
          let '(g, e', r) := start_listen g binding listen in
          Some (g, e ++ e', r)
  end.

(** [gate_release]: the sockets closed. *)
Definition gate_release (g : gate) : list effect :=
  ((λ c, EClose (c_id c)) <$> filter (λ c, 0 <= c_id c) (g_conn g)) ++
  (if 0 <=? g_listen_id g then [EClose (g_listen_id g)] else []).

(** ** Specification

    A connection is its agent, its client and the bytes received that belong
    to no finished packet. *)

Record aconn := mk_aconn { a_agent : Z; a_client : Z; a_stream : list Z }.

Record agate := mk_agate {
  a_listen : Z;
  a_watchdog : Z;
  a_broker : Z;
  a_tag : Z;
  a_hs : Z;
  a_max : Z;
  a_conns : gmap Z aconn
}.

(** The packets of a stream: their contents, the bytes left, and whether a
    packet of 16M or more ended it.  Empty packets are skipped.  A negative
    length (a header of four bytes with its top bit set) is never complete.
    Without a receiver ([sink = false]) the header of a packet is dropped but
    its content is not: what follows is read as the next header. *)
Fixpoint frames_f (fuel : nat) (hs : Z) (sink : bool) (s : list Z) : list (list Z) * list Z * bool :=
  match fuel with
  | O => ([], s, false)
  | S f =>
      if Z.of_nat (length s) <? hs then ([], s, false)
      else
        let n := default 0 (read_header hs (take (Z.to_nat hs) s)) in
        let d := drop (Z.to_nat hs) s in
        if n =? 0 then frames_f f hs sink d
        else if (n <? 0) || (Z.of_nat (length d) <? n) then ([], s, false)
        else if 0x1000000 <=? n then ([], [], true)
        else if sink then
          let '(ps, rest, closed) := frames_f f hs sink (drop (Z.to_nat n) d) in
          (take (Z.to_nat n) d :: ps, rest, closed)
        else frames_f f hs sink d
  end.

Definition frames (hs : Z) (sink : bool) (s : list Z) := frames_f (S (length s)) hs sink s.

Definition has_sink (broker agent watchdog : Z) : bool := negb (broker =? 0) || negb (agent =? 0) || negb (watchdog =? 0).

(** What is sent for a packet. *)
Definition packet (broker tag watchdog : Z) (id agent client : Z) (p : list Z) : effect :=
  if negb (broker =? 0) then ESend 0 broker (Z.lor tag PTYPE_TAG_DONTCOPY) 1 p
  else if negb (agent =? 0) then ESend client agent (Z.lor tag PTYPE_TAG_DONTCOPY) 1 p
  else ESend 0 watchdog (Z.lor PTYPE_TEXT PTYPE_TAG_DONTCOPY) 1 (print_d id ++ lit " data " ++ p).

Definition a_set_conns (a : agate) (m : gmap Z aconn) : agate :=
  mk_agate (a_listen a) (a_watchdog a) (a_broker a) (a_tag a) (a_hs a) (a_max a) m.

Definition a_report (a : agate) (text : list Z) : list effect :=
  if a_watchdog a =? 0 then [] else [ESend 0 (a_watchdog a) PTYPE_TEXT 0 text].

(** The text up to the first space, and what follows the space. *)
Fixpoint cut_space (s : list Z) : list Z * option (list Z) :=
  match s with
  | [] => ([], None)
  | c :: s' => if c =? 32 then ([], Some s') else let '(w, r) := cut_space s' in (c :: w, r)
  end.

Fixpoint drop_spaces (s : list Z) : list Z :=
  match s with
  | c :: s' => if c =? 32 then drop_spaces s' else s
  | [] => []
  end.

(** A text without 0 is a word and its arguments; the word selects the first
    command it is a prefix of.  [forward] takes a socket, and the addresses of
    an agent and a client, each after a character that is not looked at.
    (An empty address is not refused: for the agent's, what follows is read,
    and for the client's, what the message held at this place.) *)
Definition spec_command (msg : list Z) : command :=
  let '(word, rest) := cut_space msg in
  let args := drop_spaces (default [] rest) in
  let cmd name := bool_decide (word `prefix_of` lit name) in
  if bool_decide (msg = []) then CmdNone
  else if cmd "kick"%string then CmdKick (i32 (strtol args))
  else if cmd "forward"%string then
    match cut_space args with
    | (_, None) => CmdNone
    | (fd, Some addrs) =>
        match cut_space addrs with
        | (_, None) => CmdNone
        | (agent, Some client) =>
            let agent := match agent with [] => client | _ :: s => s end in
            let client := match client with [] => drop (S (length args)) msg | _ :: s => s end in
            CmdForward (i32 (strtol fd)) (u32 (strtoul16 agent)) (u32 (strtoul16 client))
        end
    end
  else if cmd "broker"%string then CmdBroker args
  else if cmd "start"%string then CmdStart (i32 (strtol args))
  else if cmd "close"%string then CmdClose
  else CmdUnknown msg.

(** The service that has a name: a handle in hexadecimal after a colon, or one
    of the local [names] after a dot. *)
Definition spec_query (names : gmap (list Z) Z) (name : list Z) : Z * list effect :=
  match name with
  | 58 :: s => (u32 (strtoul16 s), [])
  | 46 :: s => (default 0 (names !! s), [])
  | _ => (0, [EError "Don't support query global name %s" name])
  end.

(** A socket message.  The process aborts ([None]) on a new connection of
    another socket than the one the gate listens on. *)
Definition spec_socket (a : agate) (m : socket_message) : option (agate * list effect) :=
  match sm_type m with
  | SOCKET_DATA =>
      match a_conns a !! sm_id m with
      | None => Some (a, [EError "Drop unknown connection %d message" [sm_id m]; EClose (sm_id m)])
      | Some c =>
          let '(ps, rest, closed) :=
            frames (a_hs a) (has_sink (a_broker a) (a_agent c) (a_watchdog a)) (a_stream c ++ default [] (sm_buffer m)) in
          Some (a_set_conns a (<[sm_id m := mk_aconn (a_agent c) (a_client c) rest]> (a_conns a)),
                (packet (a_broker a) (a_tag a) (a_watchdog a) (sm_id m) (a_agent c) (a_client c) <$> ps) ++
                if (closed : bool) then [EClose (sm_id m); EError "Recv socket message > 16M" []] else [])
      end
  | SOCKET_CONNECT =>
      if sm_id m =? a_listen a then Some (a, [])
      else match a_conns a !! sm_id m with
           | None => Some (a, [EError "Close unknown connection %d" [sm_id m]; EClose (sm_id m)])
           | Some _ => Some (a, [])
           end
  | SOCKET_CLOSE | SOCKET_ERROR =>
      match a_conns a !! sm_id m with
      | None => Some (a, [])
      | Some _ =>
          Some (a_set_conns a (delete (sm_id m) (a_conns a)), a_report a (print_d (sm_id m) ++ lit " close"))
      end
  | SOCKET_ACCEPT =>
      if negb (a_listen a =? sm_id m) then None
      else if Z.of_nat (size (a_conns a)) =? a_max a then Some (a, [EClose (sm_ud m)])
      else
        Some (a_set_conns a (<[sm_ud m := mk_aconn 0 0 []]> (a_conns a)),
              a_report a (print_d (sm_ud m) ++ lit " open " ++ print_d (sm_ud m) ++ lit " " ++
                          text_of (take 31 (sm_padding m)) ++ lit ":0")
              ++ [EError "socket open: %x" [sm_ud m]])
  | SOCKET_WARNING => Some (a, [EError "fd (%d) send buffer (%d)K" [sm_id m; sm_ud m]])
  | SOCKET_UDP => Some (a, [])
  end.

Definition spec_ctrl (names : gmap (list Z) Z) (a : agate) (msg : list Z) : agate * list effect :=
  match spec_command msg with
  | CmdNone => (a, [])
  | CmdKick uid => (a, match a_conns a !! uid with Some _ => [EClose uid] | None => [] end)
  | CmdForward fd agent client =>
      (match a_conns a !! fd with
       | Some c => a_set_conns a (<[fd := mk_aconn agent client (a_stream c)]> (a_conns a))
       | None => a
       end, [])
  | CmdBroker name =>
      let '(b, e) := spec_query names name in
      (mk_agate (a_listen a) (a_watchdog a) b (a_tag a) (a_hs a) (a_max a) (a_conns a), e)
  | CmdStart uid => (a, match a_conns a !! uid with Some _ => [EStart uid] | None => [] end)
  | CmdClose =>
      if 0 <=? a_listen a
      then (mk_agate (-1) (a_watchdog a) (a_broker a) (a_tag a) (a_hs a) (a_max a) (a_conns a), [EClose (a_listen a)])
      else (a, [])
  | CmdUnknown s => (a, [EError "[gate] Unkown command : %s" s])
  end.

Definition spec_cb (names : gmap (list Z) Z) (a : agate) (ev : event) : option (agate * list effect * Z) :=
  match ev with
  | EvText msg => let '(a, e) := spec_ctrl names a msg in Some (a, e, 0)
  | EvClient source msg =>
      let sz := Z.of_nat (length msg) in
      if sz <=? 4 then Some (a, [EError "Invalid client message from %x" [source]], 0)
      else
        let uid := i32 (le_val (drop (Z.to_nat (sz - 4)) msg)) in
        match a_conns a !! uid with
        | Some _ => Some (a, [ESocketSend uid (take (Z.to_nat (sz - 4)) msg)], 1)
        | None => Some (a, [EError "Invalid client id %d from %x" [uid; source]], 0)
        end
  | EvSocket m => '(a, e) ← spec_socket a m; Some (a, e, 0)
  end.

(** Sequences of messages: the effects and the values returned. *)
Fixpoint run_cb (hs : handle_storage) (g : gate) (evs : list event) : option (list (list effect * Z)) :=
  match evs with
  | [] => Some []
  | ev :: evs' => '(g, e, r) ← _cb hs g ev; rs ← run_cb hs g evs'; Some ((e, r) :: rs)
  end.

Fixpoint run_spec (names : gmap (list Z) Z) (a : agate) (evs : list event) : option (list (list effect * Z)) :=
  match evs with
  | [] => Some []
  | ev :: evs' => '(a, e, r) ← spec_cb names a ev; rs ← run_spec names a evs'; Some ((e, r) :: rs)
  end.

(** What the gate's callers keep to.  A text contains no 0.  The socket layer
    sends data with its size, and no more than an int counts for a connection
    that waits for the end of a packet; a new connection has an id that no live
    one has, and not one of the last [max_connection] that an int can hold. *)
Definition event_ok (a : agate) (ev : event) : bool :=
  match ev with
  | EvText msg => bool_decide (0 ∉ msg)
  | EvClient _ _ => true
  | EvSocket m =>
      match sm_type m with
      | SOCKET_DATA =>
          match a_conns a !! sm_id m, sm_buffer m with
          | Some c, Some data =>
              (sm_ud m =? Z.of_nat (length data)) && (Z.of_nat (length (a_stream c)) + Z.of_nat (length data) <=? INT_MAX)
          | Some _, None => false
          | None, _ => true
          end
      | SOCKET_ACCEPT =>
          bool_decide (a_conns a !! sm_ud m = None) && (0 <=? sm_ud m) && (sm_ud m + a_max a <=? 2 ^ 31)
      | _ => true
      end
  end.

(** ... as long as the gate runs. *)
Fixpoint events_ok (names : gmap (list Z) Z) (a : agate) (evs : list event) : bool :=
  match evs with
  | [] => true
  | ev :: evs' =>
      event_ok a ev && match spec_cb names a ev with Some (a, _, _) => events_ok names a evs' | None => true end
  end.

(** ** Reading a command *)

Lemma until_nul_mid s post : 0 ∉ s → until_nul (s ++ 0 :: post) = Some s.
Proof.
  induction s as [|c s IH]; [done|]. rewrite not_elem_of_cons. intros [Hc Hs]. cbn [until_nul app].
  rewrite (proj2 (Z.eqb_neq c 0)) by done. by rewrite IH.
Qed.

Lemma cstr_mid pre s post k : 0 ∉ s → k = Z.of_nat (length pre) → cstr_at (pre ++ s ++ 0 :: post) k = Some s.
Proof.
  intros Hs ->. unfold cstr_at. rewrite (proj2 (Z.leb_le 0 _)) by lia. rewrite Nat2Z.id, drop_app_length. by apply until_nul_mid.
Qed.

Lemma cut_space_some s w r : cut_space s = (w, Some r) → s = w ++ 32 :: r.
Proof.
  revert w. induction s as [|c s IH]; intros w; [done|]. cbn [cut_space]. destruct (Z.eqb_spec c 32) as [->|_].
  - by intros [= <- <-].
  - destruct (cut_space s) as [w' r']. intros [= <- ->]. cbn. f_equal. by apply IH.
Qed.

Lemma cut_space_none s w : cut_space s = (w, None) → s = w.
Proof.
  revert w. induction s as [|c s IH]; intros w; [by intros [= <-]|]. cbn [cut_space]. destruct (c =? 32); [done|].
  destruct (cut_space s) as [w' r']. intros [= <- ->]. f_equal. by apply IH.
Qed.

Lemma cut_space_index s : index_of 32 s = (cut_space s).2 ≫= λ _, Some (length (cut_space s).1).
Proof.
  induction s as [|c s IH]; [done|]. cbn [index_of cut_space]. destruct (c =? 32); [done|]. rewrite IH.
  destruct (cut_space s) as [w [r|]]; done.
Qed.

Lemma strsep_mid pre s post k : 0 ∉ s → k = Z.of_nat (length pre) →
  strsep (pre ++ s ++ 0 :: post) k =
  match cut_space s with
  | (_, None) => Some (k, pre ++ s ++ 0 :: post, None)
  | (w, Some r) => Some (k, pre ++ w ++ 0 :: r ++ 0 :: post, Some (k + Z.of_nat (length w) + 1))
  end.
Proof.
  intros Hs Hk. unfold strsep. rewrite cstr_mid by done. cbn [mbind option_bind]. rewrite cut_space_index.
  destruct (cut_space s) as [w [r|]] eqn:E; cbn [fst snd mbind option_bind]; [|done]. apply cut_space_some in E as ->.
  rewrite arr_set_some by (rewrite !length_app; cbn; lia). cbn [mbind option_bind]. do 3 f_equal.
  replace (Z.to_nat (k + Z.of_nat (length w))) with (length (pre ++ w) + 0)%nat by (rewrite length_app; lia).
  rewrite <- !app_assoc, app_assoc. cbn [app]. rewrite insert_app_r, <- app_assoc. done.
Qed.

(** At the front of an array. *)
Lemma cstr_front s post : 0 ∉ s → cstr_at (s ++ 0 :: post) 0 = Some s.
Proof. intros Hs. by apply (cstr_mid []). Qed.

Lemma memcmp_prefix w post name : 0 ∉ w → memcmp_eq (length w) (w ++ post) (name ++ [0]) = Some (bool_decide (w `prefix_of` name)).
Proof.
  revert name. induction w as [|c w IH]; intros name Hw.
  { rewrite bool_decide_true; [done|]. apply prefix_nil. }
  apply not_elem_of_cons in Hw as [Hc Hw]. destruct name as [|x name]; cbn [length memcmp_eq app].
  - rewrite (proj2 (Z.eqb_neq c 0)) by done. rewrite bool_decide_false; [done|]. by intros ?%prefix_nil_inv.
  - destruct (Z.eqb_spec c x) as [<-|Hne].
    + rewrite IH by done. f_equal. apply bool_decide_ext. split; [apply prefix_cons|apply prefix_cons_inv_2].
    + rewrite bool_decide_false; [done|]. intros ?%prefix_cons_inv_1. done.
Qed.

Lemma parm_skip_ok fuel : ∀ pre s, (length s < fuel)%nat →
  parm_skip fuel (pre ++ s ++ [0]) (Z.of_nat (length (pre ++ s))) (Z.of_nat (length pre)) =
    Some (Z.of_nat (length (pre ++ s)) - Z.of_nat (length (drop_spaces s))).
Proof.
  induction fuel as [|f IH]; intros pre s Hf; [lia|]. cbn [parm_skip].
  destruct s as [|c s]; cbn [drop_spaces length]; rewrite !length_app; cbn [length] in *.
  - rewrite (proj2 (Z.ltb_ge _ _)) by lia. f_equal. lia.
  - rewrite (proj2 (Z.ltb_lt _ _)) by lia. rewrite arr_get_lookup, Nat2Z.id by lia. cbn [app]. rewrite list_lookup_middle by done. cbn [mbind option_bind].
    destruct (Z.eqb_spec c 32) as [->|_]; cbn [negb].
    + specialize (IH (pre ++ [32]) s ltac:(lia)). rewrite !length_app, <- !app_assoc in IH. cbn [app length] in IH.
      replace (Z.of_nat (length pre) + 1) with (Z.of_nat (length pre + 1)) by lia.
      replace (length pre + S (length s))%nat with (length pre + 1 + length s)%nat by lia. exact IH.
    + f_equal. cbn [length]. lia.
Qed.

Lemma drop_spaces_suffix s : ∃ n, drop_spaces s = drop n s ∧ (n <= length s)%nat.
Proof.
  induction s as [|c s (n & IH & Hn)]; [by exists O|]. cbn [drop_spaces]. destruct (c =? 32); [|exists O; cbn; split; [done|lia]].
  exists (S n). cbn. split; [done|lia].
Qed.

(** What [_parm] leaves: the arguments, a 0, and the rest of the old text. *)
Lemma parm_ok pre s : let msg := pre ++ s in let args := drop_spaces s in
  _parm (msg ++ [0]) (Z.of_nat (length msg)) (Z.of_nat (length pre)) =
    Some (args ++ 0 :: drop (S (length args)) (msg ++ [0])).
Proof.
  intros msg args. unfold _parm, msg. rewrite <- app_assoc, parm_skip_ok by (rewrite !length_app; cbn; lia). cbn [mbind option_bind].
  fold args. destruct (drop_spaces_suffix s) as (n & Hn & Hl). fold args in Hn.
  assert (Hla : length args = (length s - n)%nat) by (rewrite Hn, length_drop; done).
  rewrite length_app. replace (Z.to_nat (Z.of_nat (length pre + length s) - (Z.of_nat (length pre + length s) - Z.of_nat (length args))))
    with (length args) by lia.
  replace (Z.of_nat (length pre + length s) - (Z.of_nat (length pre + length s) - Z.of_nat (length args))) with (Z.of_nat (length args)) by lia.
  replace (Z.to_nat (Z.of_nat (length pre + length s) - Z.of_nat (length args))) with (length pre + n)%nat by lia.
  assert (Hmv : take (length args) (drop (length pre + n) (pre ++ s ++ [0])) = args).
  { rewrite <- drop_drop, drop_app_length. rewrite drop_app_le, <- Hn by done. apply take_app_length. }
  rewrite Hmv. rewrite arr_set_some by (rewrite !length_app, length_drop, !length_app; cbn; lia). rewrite Nat2Z.id. f_equal.
  rewrite <- (Nat.add_0_r (length args)) at 1. rewrite insert_app_r. f_equal.
  destruct (drop (length args) (pre ++ s ++ [0])) as [|x l] eqn:E.
  { apply (f_equal length) in E. rewrite length_drop, !length_app in E. cbn in E. lia. }
  cbn. f_equal. rewrite <- (Nat.add_1_r (length args)), <- drop_drop, E. done.
Qed.

Lemma no_nul_drop n (s : list Z) : 0 ∉ s → 0 ∉ drop n s.
Proof. intros Hs H. apply Hs. rewrite <- (take_drop n s). apply elem_of_app. by right. Qed.

Lemma no_nul_drop_spaces s : 0 ∉ s → 0 ∉ drop_spaces s.
Proof.
  intros Hs. destruct (drop_spaces_suffix s) as (n & -> & _). by apply no_nul_drop.
Qed.

(** The address behind its first character, read from an array. *)
Lemma cstr_tail pre s t post k : 0 ∉ s → 0 ∉ t → k = Z.of_nat (length pre) + 1 →
  cstr_at (pre ++ s ++ 0 :: t ++ 0 :: post) k = Some (match s with [] => t | _ :: s' => s' end).
Proof.
  intros Hs Ht Hk. destruct s as [|c s]; cbn [app].
  - rewrite cons_middle, app_assoc. apply cstr_mid; [done|]. rewrite length_app. cbn. lia.
  - apply not_elem_of_cons in Hs as [_ Hs]. rewrite cons_middle, app_assoc. apply cstr_mid; [done|]. rewrite length_app. cbn. lia.
Qed.

Lemma forward_command_ok pre s : 0 ∉ pre ++ s → (0 < length pre)%nat →
  let msg := pre ++ s in let args := drop_spaces s in
  (tmp ← _parm (msg ++ [0]) (Z.of_nat (length msg)) (Z.of_nat (length pre));
   '(idstr, tmp, client) ← strsep tmp 0;
   match client with
   | None => Some CmdNone
   | Some p =>
       ids ← cstr_at tmp idstr;
       '(agent, tmp, client) ← strsep tmp p;
       match client with
       | None => Some CmdNone
       | Some q =>
           a ← cstr_at tmp (agent + 1);
           c ← cstr_at tmp (q + 1);
           Some (CmdForward (i32 (strtol ids)) (u32 (strtoul16 a)) (u32 (strtoul16 c)))
       end
   end) = Some
    match cut_space args with
    | (_, None) => CmdNone
    | (fd, Some addrs) =>
        match cut_space addrs with
        | (_, None) => CmdNone
        | (agent, Some client) =>
            let agent := match agent with [] => client | _ :: s => s end in
            let client := match client with [] => drop (S (length args)) msg | _ :: s => s end in
            CmdForward (i32 (strtol fd)) (u32 (strtoul16 agent)) (u32 (strtoul16 client))
        end
    end.
Proof.
  intros Hz Hpre msg args. pose proof (parm_ok pre s) as Hp. cbv zeta in Hp. fold msg args in Hp. rewrite Hp. cbn [mbind option_bind].
  assert (Hargs : 0 ∉ args) by (apply no_nul_drop_spaces; set_solver).
  assert (Hlen : (length args < length msg)%nat).
  { destruct (drop_spaces_suffix s) as (n & E & _). unfold args, msg. rewrite E, length_drop, length_app. lia. }
  rewrite (drop_app_le msg) by lia. set (stale := drop (S (length args)) msg).
  assert (Hst : 0 ∉ stale) by (by apply no_nul_drop).
  pose proof (strsep_mid [] args (stale ++ [0]) 0 Hargs eq_refl) as Hsep. cbn [app] in Hsep. rewrite Hsep.
  destruct (cut_space args) as [fd [addrs|]] eqn:E1; cbn [mbind option_bind]; [|done]. apply cut_space_some in E1. cbn [app].
  assert (Hfd : 0 ∉ fd ∧ 0 ∉ addrs) by (rewrite E1 in Hargs; set_solver). destruct Hfd as [Hfd Hadd].
  rewrite cstr_front by done. cbn [mbind option_bind].
  rewrite cons_middle, app_assoc, (strsep_mid (fd ++ [0])) by (done || (rewrite length_app; cbn; lia)).
  destruct (cut_space addrs) as [agent [client|]] eqn:E2; cbn [mbind option_bind]; [|done]. apply cut_space_some in E2.
  assert (Hac : 0 ∉ agent ∧ 0 ∉ client) by (rewrite E2 in Hadd; set_solver). destruct Hac as [Hag Hcl].
  assert (Ha := cstr_tail (fd ++ [0]) agent client (stale ++ [0]) (0 + Z.of_nat (length fd) + 1 + 1) Hag Hcl ltac:(rewrite !length_app; cbn; lia)).
  assert (Hc := cstr_tail ((fd ++ [0]) ++ agent ++ [0]) client stale [] (0 + Z.of_nat (length fd) + 1 + Z.of_nat (length agent) + 1 + 1) Hcl Hst
    ltac:(rewrite !length_app; cbn; lia)).
  rewrite <- !app_assoc in Hc. rewrite <- app_assoc in Ha |- *. cbn [app] in Ha, Hc |- *.
  rewrite Ha. cbn [mbind option_bind]. rewrite Hc. reflexivity.
Qed.

Lemma ctrl_command_ok msg : 0 ∉ msg → ctrl_command msg = Some (spec_command msg).
Proof.
  intros Hz. unfold ctrl_command, spec_command. destruct msg as [|c0 msg0]; [done|]. set (msg := c0 :: msg0) in *.
  rewrite (proj2 (Z.eqb_neq _ 0)) by (cbn; lia). rewrite (bool_decide_false (msg = [])) by done.
  rewrite cut_space_index. destruct (cut_space msg) as [word rest] eqn:E. cbn [fst snd].
  assert (Hsplit : ∃ s, msg = word ++ s ∧ drop_spaces s = drop_spaces (default [] rest)).
  { destruct rest as [r|]; [exists (32 :: r); split; [by apply cut_space_some|done]|].
    exists []. rewrite app_nil_r. split; [by apply cut_space_none|done]. }
  assert (Hi : (match rest ≫= λ _, Some (length word) with Some i => i | None => length msg end) = length word).
  { destruct rest as [r|]; [done|]. cbn [mbind option_bind]. by rewrite (cut_space_none _ _ E). }
  rewrite Hi. clear Hi. destruct Hsplit as (s & Hm & <-). clearbody msg. subst msg.
  assert (Hw : 0 ∉ word) by set_solver. assert (Hs : 0 ∉ drop_spaces s) by (apply no_nul_drop_spaces; set_solver).
  rewrite <- !app_assoc, !memcmp_prefix by done. cbn [mbind option_bind]. rewrite !app_assoc.
  assert (Harg : ∀ {A} (k : list Z → option A), (tmp ← _parm ((word ++ s) ++ [0]) (Z.of_nat (length (word ++ s))) (Z.of_nat (length word));
     t ← cstr_at tmp 0; k t) = k (drop_spaces s)).
  { intros A k. rewrite parm_ok. cbn [mbind option_bind]. by rewrite cstr_front by done. }
  destruct (bool_decide (word `prefix_of` lit "kick")) eqn:Hk; [by rewrite Harg|].
  assert (0 < length word)%nat.
  { destruct word; [|cbn; lia]. rewrite bool_decide_true in Hk; [done|apply prefix_nil]. }
  destruct (bool_decide (word `prefix_of` lit "forward")); [by rewrite forward_command_ok|].
  destruct (bool_decide (word `prefix_of` lit "broker")); [by rewrite Harg|].
  destruct (bool_decide (word `prefix_of` lit "start")); [by rewrite Harg|].
  destruct (bool_decide (word `prefix_of` lit "close")); [done|].
  by rewrite cstr_front by done.
Qed.

(** ** Names *)

(** The map of the names that a handle storage holds. *)
Definition names_of (hs : handle_storage) (names : gmap (list Z) Z) : Prop :=
  ∃ l, names_repr hs l ∧ names_map l names.

Lemma names_init hb : names_of (skynet_handle_init hb) ∅.
Proof. exact (sr_names _ _ _ (handle_init_repr (λ _, 0) hb)). Qed.

Lemma query_ok hs names name : names_of hs names → skynet_queryname hs name = Some (spec_query names name).
Proof.
  intros (l & Hr & Hm). unfold skynet_queryname, spec_query. repeat case_match; try done.
  by rewrite (findname_lookup _ _ _ _ Hr Hm).
Qed.

(** ** Packets of a stream *)

Lemma frames_fuel hs sink : 0 < hs → ∀ f1 f2 s, (length s < f1)%nat → (length s < f2)%nat →
  frames_f f1 hs sink s = frames_f f2 hs sink s.
Proof.
  intros Hhs. induction f1 as [|f1 IH]; intros f2 s H1 H2; [lia|]. destruct f2 as [|f2]; [lia|]. cbn [frames_f].
  destruct (Z.ltb_spec (Z.of_nat (length s)) hs); [done|].
  rewrite (IH f2 (drop (Z.to_nat hs) s)) by (rewrite length_drop; lia).
  rewrite (IH f2 (drop _ (drop (Z.to_nat hs) s))) by (rewrite !length_drop; lia). done.
Qed.

(** The stream of a buffer: a header already read comes first. *)
Definition pend (hs h : Z) (d s : list Z) : Prop :=
  (h = 0 ∧ s = d) ∨
  (h ≠ 0 ∧ ∃ hdr, Z.of_nat (length hdr) = hs ∧ read_header hs hdr = Some h ∧ s = hdr ++ d).

Definition hs_ok (hs : Z) : Prop := hs = 2 ∨ hs = 4.

Lemma read_header_total hs l : hs_ok hs → Z.of_nat (length l) = hs → ∃ n, read_header hs l = Some n.
Proof.
  intros [-> | ->] Hl; unfold read_header; simpl.
  - destruct l as [|a [|b l]]; simpl in Hl; try lia. eauto.
  - destruct l as [|a [|b [|c [|e l]]]]; simpl in Hl; try lia. eauto.
Qed.

(** What [databuffer_readheader] finds at the front of the stream. *)
Lemma header_pend hs h d s : hs_ok hs → pend hs h d s →
  ∃ r n d1, header_spec hs h d = Some (r, n, d1) ∧ (length d1 <= length d)%nat ∧
    ((Z.of_nat (length s) < hs ∧ r = -1 ∧ n = 0 ∧ d1 = s) ∨
     (∃ hdr, s = hdr ++ d1 ∧ Z.of_nat (length hdr) = hs ∧ read_header hs hdr = Some n ∧
        (h = 0 → Z.of_nat (length d1) = Z.of_nat (length d) - hs) ∧
        r = if Z.of_nat (length d1) <? n then -1 else n)).
Proof.
  intros Hhs Hp. assert (0 < hs) by (destruct Hhs; lia). unfold header_spec. destruct Hp as [[-> ->]|(Hh & hdr & Hl & Hr & ->)].
  - change (0 =? 0) with true. cbn [andb]. destruct (Z.ltb_spec (Z.of_nat (length d)) hs) as [Hlt|Hge].
    + exists (-1), 0, d. split_and!; auto.
    + assert (Hlh : Z.of_nat (length (take (Z.to_nat hs) d)) = hs) by (rewrite length_take; lia).
      destruct (read_header_total hs (take (Z.to_nat hs) d) Hhs Hlh) as [n Hn]. rewrite Hn. cbn [mbind option_bind].
      do 3 eexists. split; [reflexivity|]. rewrite length_drop. split; [lia|]. right.
      exists (take (Z.to_nat hs) d). rewrite take_drop. split_and!; auto. lia.
  - rewrite (proj2 (Z.eqb_neq h 0)) by done. cbn [andb mbind option_bind]. do 3 eexists. split; [reflexivity|]. split; [lia|]. right.
    exists hdr. split_and!; auto. done.
Qed.

(** The first packet of a stream that starts with the header [hdr]. *)
Lemma frames_header hs sink hdr n d : 0 < hs → Z.of_nat (length hdr) = hs → read_header hs hdr = Some n →
  frames hs sink (hdr ++ d) =
  if n =? 0 then frames hs sink d
  else if (n <? 0) || (Z.of_nat (length d) <? n) then ([], hdr ++ d, false)
  else if 0x1000000 <=? n then ([], [], true)
  else if sink then
    let '(ps, rest, closed) := frames hs sink (drop (Z.to_nat n) d) in (take (Z.to_nat n) d :: ps, rest, closed)
  else frames hs sink d.
Proof.
  intros Hhs Hl Hr. unfold frames at 1. cbn [frames_f]. rewrite length_app, (proj2 (Z.ltb_ge _ hs)) by lia.
  rewrite take_app_length', drop_app_length' by lia. rewrite Hr. cbn [default].
  unfold frames. rewrite (frames_fuel hs sink Hhs _ (S (length d)) d) by lia.
  rewrite (frames_fuel hs sink Hhs _ (S (length (drop (Z.to_nat n) d))) (drop (Z.to_nat n) d)) by (rewrite ?length_drop; lia). done.
Qed.

Lemma frames_short hs sink s : Z.of_nat (length s) < hs → frames hs sink s = ([], s, false).
Proof. intros. unfold frames. cbn [frames_f]. by rewrite (proj2 (Z.ltb_lt _ _)) by lia. Qed.

(** ** Dispatching the data of a connection *)

Definition sink_of (g : gate) (c : connection) : bool := has_sink (g_broker g) (c_agent c) (g_watchdog g).

Definition packet_of (g : gate) (c : connection) : list Z → effect :=
  packet (g_broker g) (g_client_tag g) (g_watchdog g) (c_id c) (c_agent c) (c_client c).

Lemma set_buffer_same c db : c_buffer (set_buffer c db) = db.
Proof. done. Qed.

Lemma set_buffer_twice c db db' : set_buffer (set_buffer c db) db' = set_buffer c db'.
Proof. done. Qed.

Lemma forward_ok g c mp l fl h d n :
  own mp (c_buffer c) l fl h d → 0 < n <= Z.of_nat (length d) →
  ∃ db' mp' l' fl',
    _forward g c mp n = Some (set_buffer c db', mp', if sink_of g c then [packet_of g c (take (Z.to_nat n) d)] else []) ∧
    own mp' db' l' fl' h (if sink_of g c then drop (Z.to_nat n) d else d) ∧ frame mp (l ++ fl) mp' (l' ++ fl').
Proof.
  intros Ho Hn. destruct (databuffer_read_ok _ _ _ _ _ _ n Ho Hn) as (db' & mp' & l' & fl' & He & Ho' & Hfr).
  unfold _forward, sink_of, has_sink, packet_of, packet. rewrite He.
  destruct (g_broker g =? 0); cbn [negb orb mbind option_bind].
  - destruct (c_agent c =? 0); cbn [negb orb mbind option_bind].
    + destruct (g_watchdog g =? 0); cbn [negb mbind option_bind].
      * exists (c_buffer c), mp, l, fl. split_and!; [by destruct c|done|apply frame_refl].
      * rewrite <- app_assoc. eexists _, _, _, _. split; [reflexivity|]. split; done.
    + eexists _, _, _, _. split; [reflexivity|]. split; done.
  - eexists _, _, _, _. split; [reflexivity|]. split; done.
Qed.

Definition closed_effects (closed : bool) (id : Z) : list effect :=
  if closed then [EClose id; EError "Recv socket message > 16M" []] else [].

Lemma pend_none hs : pend hs 0 [] [].
Proof. by left. Qed.

Lemma pend_zero hs d s : pend hs 0 d s → s = d.
Proof. intros [[_ ->]|[]]; done. Qed.

Lemma dispatch_loop_ok g c id : hs_ok (g_header_size g) → ∀ fuel mp db l fl h d s ps rest closed,
  own mp db l fl h d → pend (g_header_size g) h d s →
  (2 * length d + (if (h =? 0)%Z then 0 else 1) < fuel)%nat →
  frames (g_header_size g) (sink_of g c) s = (ps, rest, closed) →
  ∃ db' mp' l' fl' h' d',
    dispatch_loop fuel g (set_buffer c db) mp id =
      Some (set_buffer c db', mp', (packet_of g c <$> ps) ++ closed_effects closed id) ∧
    own mp' db' l' fl' h' d' ∧ frame mp (l ++ fl) mp' (l' ++ fl') ∧ pend (g_header_size g) h' d' rest ∧
    (length d' <= length rest)%nat.
Proof.
  intros Hhs. set (hs := g_header_size g) in *. assert (Hpos : 0 < hs) by (destruct Hhs; lia).
  induction fuel as [|fuel IH]; intros mp db l fl h d s ps rest closed Ho Hp Hf Hfr; [lia|].
  cbn [dispatch_loop]. rewrite set_buffer_same. fold hs.
  destruct (header_pend hs h d s Hhs Hp) as (r & n & d1 & Hh & Hlen & Hcase).
  destruct (databuffer_readheader_ok mp db l fl h d hs r n d1 Ho Hpos Hh) as (db1 & mp1 & l1 & fl1 & -> & Ho1 & Hfr1).
  cbn [mbind option_bind]. rewrite set_buffer_twice.
  destruct Hcase as [(Hs & -> & -> & ->)|(hdr & -> & Hlh & Hrh & Hl0 & Hr)].
  { rewrite frames_short in Hfr by done. simplify_eq. cbn [Z.ltb Z.compare].
    eexists db1, mp1, l1, fl1, 0, _. split_and!; eauto. by left. }
  rewrite (frames_header hs _ hdr n d1) in Hfr by done.
  destruct (Z.eqb_spec n 0) as [Hz|Hn].
  { rewrite Hz in *. rewrite (proj2 (Z.ltb_ge _ 0)) in Hr by lia. subst r. cbn [Z.ltb Z.compare].
    destruct (IH mp1 db1 l1 fl1 0 d1 d1 ps rest closed Ho1) as (db' & mp' & l' & fl' & h' & d' & He & Ho' & Hfr' & Hp' & Hl'); auto.
    - by left.
    - assert (Hh0 : h = 0). { destruct Hp as [[-> _]|(Hne & hdr' & Hl' & Hr' & E)]; [done|]. apply app_inj_1 in E as [-> _]; [congruence|lia]. }
      specialize (Hl0 Hh0). rewrite Hh0 in Hf. simpl in Hf |- *. lia.
    - do 6 eexists. split; [exact He|]. split_and!; eauto. by eapply frame_trans. }
  destruct ((n <? 0) || (Z.of_nat (length d1) <? n)) eqn:Hbad.
  { assert (r < 0).
    { subst r. destruct (Z.ltb_spec (Z.of_nat (length d1)) n); [lia|]. rewrite orb_false_r in Hbad. by apply Z.ltb_lt. }
    rewrite (proj2 (Z.ltb_lt r 0)) by done. injection Hfr as <- <- <-. eexists db1, mp1, l1, fl1, n, d1. split_and!; auto.
    - right. eauto.
    - rewrite length_app. lia. }
  apply orb_false_iff in Hbad as [Hn0 Hn1]. rewrite Hn1 in Hr. subst r. apply Z.ltb_ge in Hn0, Hn1.
  rewrite (proj2 (Z.ltb_ge n 0)), (proj2 (Z.ltb_lt 0 n)) by lia.
  destruct (Z.leb_spec 0x1000000 n).
  { simplify_eq. rewrite set_buffer_same.
    destruct (databuffer_clear_ok _ _ _ _ _ _ Ho1) as (mp' & fl' & -> & Ho' & Hfr'). cbn [mbind option_bind].
    eexists databuffer_zero, mp', [], fl', 0, []. split_and!; auto; [by eapply frame_trans|apply pend_none]. }
  destruct (forward_ok g (set_buffer c db1) mp1 l1 fl1 n d1 n Ho1) as (db2 & mp2 & l2 & fl2 & -> & Ho2 & Hfr2); [lia|].
  cbn [mbind option_bind]. rewrite set_buffer_twice, set_buffer_same, set_buffer_twice.
  change (sink_of g (set_buffer c db1)) with (sink_of g c) in *. change (packet_of g (set_buffer c db1)) with (packet_of g c).
  apply (own_set_header _ _ _ _ _ _ 0) in Ho2. fold (databuffer_reset db2) in Ho2.
  assert (Hmu : (length d1 + (if (h =? 0)%Z then 1 else 0) <= length d)%nat).
  { destruct (Z.eqb_spec h 0) as [E|]; [specialize (Hl0 E)|]; lia. }
  destruct (sink_of g c).
  - destruct (frames hs true (drop (Z.to_nat n) d1)) as [[ps1 rest1] closed1] eqn:E. simplify_eq.
    destruct (IH mp2 (databuffer_reset db2) l2 fl2 0 (drop (Z.to_nat n) d1) (drop (Z.to_nat n) d1) ps1 rest closed Ho2)
      as (db' & mp' & l' & fl' & h' & d' & -> & Ho' & Hfr' & Hp' & Hl'); auto; [by left| |].
    { rewrite length_drop. destruct (h =? 0); simpl; lia. }
    cbn [mbind option_bind]. do 6 eexists. split; [reflexivity|]. split_and!; eauto. eapply frame_trans; [|exact Hfr']. by eapply frame_trans.
  - destruct (IH mp2 (databuffer_reset db2) l2 fl2 0 d1 d1 ps rest closed Ho2)
      as (db' & mp' & l' & fl' & h' & d' & -> & Ho' & Hfr' & Hp' & Hl'); auto; [by left| |].
    { destruct (h =? 0); simpl; lia. }
    cbn [mbind option_bind]. do 6 eexists. split; [reflexivity|]. split_and!; eauto. eapply frame_trans; [|exact Hfr']. by eapply frame_trans.
Qed.

(** ** The relation with the specification *)

(** The connection in slot [i], with [v] the header and data of its buffer. *)
Definition conn_rel (hs : Z) (id : Z) (c : connection) (v : Z * list Z) (ac : aconn) : Prop :=
  c_id c = id ∧ c_agent c = a_agent ac ∧ c_client c = a_client ac ∧ pend hs v.1 v.2 (a_stream ac) ∧
  (length v.2 <= length (a_stream ac))%nat.

Definition conn_free (c : connection) (v : Z * list Z) : Prop := c_agent c = 0 ∧ c_client c = 0 ∧ v = (0, []).

(** The slots: [m] maps the live ids to them. *)
Record conns_rel (hs : Z) (conn : list connection) (m : gmap Z nat) (vs : list (Z * list Z)) (cs : gmap Z aconn) : Prop := {
  cr_dom : dom m = dom cs;
  cr_live : ∀ id i ac, m !! id = Some i → cs !! id = Some ac →
    ∃ c v, conn !! i = Some c ∧ vs !! i = Some v ∧ conn_rel hs id c v ac;
  cr_free : ∀ i c v, (∀ id, m !! id ≠ Some i) → conn !! i = Some c → vs !! i = Some v → conn_free c v
}.

Record gate_rel (g : gate) (a : agate) : Prop := {
  gr_fields : g_listen_id g = a_listen a ∧ g_watchdog g = a_watchdog a ∧ g_broker g = a_broker a ∧
    g_client_tag g = a_tag a ∧ g_header_size g = a_hs a ∧ cap (g_hash g) = a_max a;
  gr_hs : hs_ok (a_hs a);
  gr_len : Z.of_nat (length (g_conn g)) = a_max a;
  gr_conns : ∃ m ls fl vs, hashid_map (g_hash g) m ∧ world (g_mp g) (c_buffer <$> g_conn g) ls fl vs ∧
    conns_rel (a_hs a) (g_conn g) m vs (a_conns a)
}.

Lemma cr_some hs conn m vs cs id i : conns_rel hs conn m vs cs → m !! id = Some i → is_Some (cs !! id).
Proof. intros Hc Hm. apply elem_of_dom. rewrite <- (cr_dom _ _ _ _ _ Hc). by eapply elem_of_dom_2. Qed.

Lemma cr_none hs conn m vs cs id : conns_rel hs conn m vs cs → m !! id = None → cs !! id = None.
Proof. intros Hc Hm. apply not_elem_of_dom. rewrite <- (cr_dom _ _ _ _ _ Hc). by apply not_elem_of_dom. Qed.

(** Looking up a socket id. *)
Lemma lookup_rel g a id : gate_rel g a →
  (a_conns a !! id = None ∧ hashid_lookup (g_hash g) id = Some (-1)) ∨
  (∃ i ac, a_conns a !! id = Some ac ∧ hashid_lookup (g_hash g) id = Some (Z.of_nat i)).
Proof.
  intros [_ _ _ (m & ls & fl & vs & Hm & Hw & Hc)]. rewrite (hashid_lookup_ok _ m) by done. unfold slot_of.
  destruct (m !! id) as [i|] eqn:E.
  - right. destruct (cr_some _ _ _ _ _ _ _ Hc E) as [ac Hac]. eauto.
  - left. split; [by eapply cr_none|done].
Qed.

(** The connection of a slot changed, removed, and added. *)
Lemma conns_update hs conn m vs cs id i ac' c' v' :
  conns_rel hs conn m vs cs → (∀ id' j, m !! id = Some j → m !! id' = Some j → id = id') →
  m !! id = Some i → (i < length conn)%nat → (i < length vs)%nat → conn_rel hs id c' v' ac' →
  conns_rel hs (<[i := c']> conn) m (<[i := v']> vs) (<[id := ac']> cs).
Proof.
  intros Hc Hinj Hm Hl1 Hl2 Hr. destruct (cr_some _ _ _ _ _ _ _ Hc Hm) as [ac0 Hac0]. split.
  - rewrite dom_insert_lookup_L by (by rewrite Hac0). apply Hc.
  - intros id' j ac Hj Hac. destruct (decide (id = id')) as [<-|Hne].
    + rewrite lookup_insert_eq in Hac. simplify_eq. exists c', v'. rewrite !list_lookup_insert_eq by done. auto.
    + rewrite lookup_insert_ne in Hac by done. destruct (cr_live _ _ _ _ _ Hc _ _ _ Hj Hac) as (c & v & ? & ? & ?).
      assert (i ≠ j) by (intros ->; apply Hne; eauto). exists c, v. rewrite !list_lookup_insert_ne by done. auto.
  - intros j c v Hfree. assert (i ≠ j) by (intros ->; by apply (Hfree id)). rewrite !list_lookup_insert_ne by done. by apply Hc.
Qed.

Lemma conns_remove hs conn m vs cs id i c' :
  conns_rel hs conn m vs cs → (∀ id' j, m !! id = Some j → m !! id' = Some j → id = id') →
  m !! id = Some i → (i < length conn)%nat → (i < length vs)%nat → conn_free c' (0, []) →
  conns_rel hs (<[i := c']> conn) (delete id m) (<[i := (0, [])]> vs) (delete id cs).
Proof.
  intros Hc Hinj Hm Hl1 Hl2 Hf. split.
  - rewrite !dom_delete_L. f_equal. apply Hc.
  - intros id' j ac [Hne Hj]%lookup_delete_Some [_ Hac]%lookup_delete_Some.
    assert (i ≠ j) by (intros ->; apply Hne; eauto). rewrite !list_lookup_insert_ne by done. by eapply Hc.
  - intros j c v Hfree Hcj Hvj. destruct (decide (i = j)) as [<-|Hne].
    + rewrite list_lookup_insert_eq in Hcj by done. rewrite list_lookup_insert_eq in Hvj by done. by simplify_eq.
    + rewrite list_lookup_insert_ne in Hcj by done. rewrite list_lookup_insert_ne in Hvj by done.
      apply (cr_free _ _ _ _ _ Hc j); auto. intros id' Hid'. apply (Hfree id'). rewrite lookup_delete_ne; [done|congruence].
Qed.

Lemma conns_insert hs conn m vs cs id i c c' :
  conns_rel hs conn m vs cs → m !! id = None → (∀ id', m !! id' ≠ Some i) → conn !! i = Some c → vs !! i = Some (0, []) →
  conn_rel hs id c' (0, []) (mk_aconn 0 0 []) →
  conns_rel hs (<[i := c']> conn) (<[id := i]> m) vs (<[id := mk_aconn 0 0 []]> cs).
Proof.
  intros Hc Hm Hnew Hci Hvi Hr. pose proof (lookup_lt_Some _ _ _ Hci). split.
  - rewrite !dom_insert_L. f_equal. apply Hc.
  - intros id' j ac Hj Hac. destruct (decide (id = id')) as [<-|Hne].
    + rewrite lookup_insert_eq in Hj. rewrite lookup_insert_eq in Hac. simplify_eq. exists c', (0, []). rewrite list_lookup_insert_eq by done. auto.
    + rewrite lookup_insert_ne in Hj by done. rewrite lookup_insert_ne in Hac by done.
      assert (i ≠ j) by (intros ->; by apply (Hnew id')). rewrite list_lookup_insert_ne by done. by eapply Hc.
  - intros j d v Hfree. assert (i ≠ j) by (intros ->; apply (Hfree id); by rewrite lookup_insert_eq).
    rewrite list_lookup_insert_ne by done. apply Hc. intros id' Hid'. apply (Hfree id'). rewrite lookup_insert_ne; [done|congruence].
Qed.

(** ** Every operation preserves the relation *)

Lemma put_conn_ok g i c mp : (i < length (g_conn g))%nat →
  put_conn g (Z.of_nat i) c mp = Some (set_conns g (g_hash g) (<[i := c]> (g_conn g)) mp).
Proof. intros. unfold put_conn. rewrite arr_set_some by lia. cbn [mbind option_bind]. by rewrite Nat2Z.id. Qed.

Lemma dispatch_message_ok g a id data :
  gate_rel g a → ∀ ac, a_conns a !! id = Some ac →
  Z.of_nat (length (a_stream ac)) + Z.of_nat (length data) <= INT_MAX →
  let '(ps, rest, closed) := frames (a_hs a) (has_sink (a_broker a) (a_agent ac) (a_watchdog a)) (a_stream ac ++ data) in
  ∃ i g', hashid_lookup (g_hash g) id = Some (Z.of_nat i) ∧
    dispatch_message g (Z.of_nat i) id data (Z.of_nat (length data)) =
      Some (g', (packet (a_broker a) (a_tag a) (a_watchdog a) id (a_agent ac) (a_client ac) <$> ps) ++ closed_effects closed id) ∧
    gate_rel g' (a_set_conns a (<[id := mk_aconn (a_agent ac) (a_client ac) rest]> (a_conns a))).
Proof.
  intros [(Hlis & Hwd & Hbr & Htag & Hhs & Hcap) Hhsok Hlen (m & ls & fl & vs & Hm & Hw & Hc)] ac Hac Hmax.
  destruct (frames _ _ _) as [[ps rest] closed] eqn:Hfr.
  rewrite (hashid_lookup_ok _ m) by done. unfold slot_of.
  destruct (m !! id) as [i|] eqn:Hi; [|by rewrite (cr_none _ _ _ _ _ _ Hc Hi) in Hac].
  destruct (cr_live _ _ _ _ _ Hc _ _ _ Hi Hac) as (c & [h d] & Hci & Hvi & Hid & Hag & Hcl & Hp & Hld).
  pose proof (lookup_lt_Some _ _ _ Hci) as Hil. pose proof (lookup_lt_Some _ _ _ Hvi) as Hvl.
  destruct (world_lookup _ _ _ _ _ _ _ Hw Hvi) as (db & l & Hdb & Hl & Ho). rewrite list_lookup_fmap, Hci in Hdb. injection Hdb as <-.
  exists i. unfold dispatch_message. rewrite arr_get_lookup, Nat2Z.id, Hci by lia. cbn [mbind option_bind]. cbn [fst snd] in *.
  destruct (databuffer_push_ok _ _ _ _ _ _ data Ho) as (db1 & mp1 & l1 & fl1 & -> & Ho1 & Hf1); [lia|]. cbn [mbind option_bind].
  assert (Hp1 : pend (g_header_size g) h (d ++ data) (a_stream ac ++ data)).
  { rewrite Hhs. destruct Hp as [[-> ->]|(Hh & hdr & Hlh & Hrh & ->)]; [by left|]. right. split; [done|]. exists hdr. by rewrite app_assoc. }
  assert (Hsk : sink_of g c = has_sink (a_broker a) (a_agent ac) (a_watchdog a)).
  { unfold sink_of. by rewrite Hbr, Hwd, Hag. }
  destruct (dispatch_loop_ok g c id ltac:(by rewrite Hhs) (dispatch_fuel db1) mp1 db1 l1 fl1 h (d ++ data) (a_stream ac ++ data) ps rest closed Ho1 Hp1)
    as (db2 & mp2 & l2 & fl2 & h2 & d2 & -> & Ho2 & Hf2 & Hp2 & Hl2).
  { unfold dispatch_fuel. destruct Ho1 as [_ ->]. destruct (h =? 0); lia. }
  { by rewrite Hhs, Hsk. }
  cbn [mbind option_bind]. rewrite put_conn_ok by done. cbn [mbind option_bind]. eexists. split; [done|]. split.
  { unfold packet_of. by rewrite Hbr, Htag, Hwd, Hid, Hag, Hcl. }
  split; cbn [set_conns a_set_conns g_listen_id g_watchdog g_broker g_client_tag g_header_size g_hash g_conn g_mp
    a_listen a_watchdog a_broker a_tag a_hs a_max a_conns]; auto.
  - by split_and!.
  - by rewrite length_insert.
  - exists m, (<[i := l2]> ls), fl2, (<[i := (h2, d2)]> vs). split_and!; auto.
    + rewrite list_fmap_insert. eapply world_step; eauto; [by rewrite list_lookup_fmap, Hci|by eapply frame_trans].
    + apply conns_update; auto.
      { intros id' j H1 H2. by eapply map_inj. }
      rewrite Hhs in Hp2. by split_and!.
Qed.

Lemma report_rel g a text : gate_rel g a → _report g text = a_report a text.
Proof. intros Hr. unfold _report, a_report. by destruct (gr_fields _ _ Hr) as (_ & -> & _). Qed.

Lemma close_unknown g a id : gate_rel g a → a_conns a !! id = None →
  ∃ hash, hashid_remove (g_hash g) id = Some (hash, -1) ∧ gate_rel (set_conns g hash (g_conn g) (g_mp g)) a.
Proof.
  intros [Hf Hhs Hlen (m & ls & fl & vs & Hm & Hw & Hc)] Hn. destruct (hashid_remove_ok _ _ id Hm) as (hash & -> & Hm' & Hcap).
  assert (Hmn : m !! id = None).
  { apply not_elem_of_dom. rewrite (cr_dom _ _ _ _ _ Hc). by apply not_elem_of_dom. }
  unfold slot_of. rewrite Hmn. exists hash. split; [done|]. rewrite delete_id in Hm' by done.
  split; cbn; auto; [by rewrite Hcap|]. exists m, ls, fl, vs. auto.
Qed.

Lemma close_live g a id ac : gate_rel g a → a_conns a !! id = Some ac →
  ∃ hash i c mp g', hashid_remove (g_hash g) id = Some (hash, Z.of_nat i) ∧
    arr_get (g_conn g) (Z.of_nat i) = Some c ∧ databuffer_clear (c_buffer c) (g_mp g) = Some (databuffer_zero, mp) ∧
    put_conn (set_conns g hash (g_conn g) (g_mp g)) (Z.of_nat i) conn_zero mp = Some g' ∧
    gate_rel g' (a_set_conns a (delete id (a_conns a))).
Proof.
  intros [Hf Hhs Hlen (m & ls & fl & vs & Hm & Hw & Hc)] Hac. destruct (hashid_remove_ok _ _ id Hm) as (hash & -> & Hm' & Hcap).
  unfold slot_of. destruct (m !! id) as [i|] eqn:Hi; [|by rewrite (cr_none _ _ _ _ _ _ Hc Hi) in Hac].
  destruct (cr_live _ _ _ _ _ Hc _ _ _ Hi Hac) as (c & v & Hci & Hvi & _).
  pose proof (lookup_lt_Some _ _ _ Hci) as Hil. pose proof (lookup_lt_Some _ _ _ Hvi) as Hvl.
  destruct (world_lookup _ _ _ _ _ _ _ Hw Hvi) as (db & l & Hdb & Hl & Ho). rewrite list_lookup_fmap, Hci in Hdb. injection Hdb as <-.
  destruct (databuffer_clear_ok _ _ _ _ _ _ Ho) as (mp & fl' & Hcl & Ho' & Hfr).
  exists hash, i, c, mp. rewrite put_conn_ok by done. eexists. split_and!; [done| |done|reflexivity|].
  { by rewrite arr_get_lookup, Nat2Z.id by lia. }
  split; cbn [set_conns a_set_conns g_listen_id g_watchdog g_broker g_client_tag g_header_size g_hash g_conn g_mp
    a_listen a_watchdog a_broker a_tag a_hs a_max a_conns]; auto.
  - by rewrite Hcap.
  - by rewrite length_insert.
  - exists (delete id m), (<[i := []]> ls), fl', (<[i := (0, [])]> vs). split_and!; auto.
    + rewrite list_fmap_insert. eapply world_step; eauto. by rewrite list_lookup_fmap, Hci.
    + apply conns_remove; auto; [|done]. intros id' j H1 H2. apply (map_inj (g_hash g) m id id' j); auto.
Qed.

Lemma accept_ok g a id name : gate_rel g a → a_conns a !! id = None → 0 <= id → id + a_max a <= 2 ^ 31 →
  Z.of_nat (size (a_conns a)) ≠ a_max a →
  ∃ hash i c g', hashid_insert (g_hash g) id = Some (hash, Z.of_nat i) ∧
    arr_get (g_conn g) (Z.of_nat i) = Some c ∧
    put_conn (set_conns g hash (g_conn g) (g_mp g)) (Z.of_nat i)
      (mk_conn id (c_agent c) (c_client c) name (c_buffer c)) (g_mp g) = Some g' ∧
    gate_rel g' (a_set_conns a (<[id := mk_aconn 0 0 []]> (a_conns a))).
Proof.
  intros [(Hlis & Hwd & Hbr & Htag & Hhs & Hcap) Hhsok Hlen (m & ls & fl & vs & Hm & Hw & Hc)] Hn H0 Hmax Hsz.
  assert (Hmn : m !! id = None).
  { apply not_elem_of_dom. rewrite (cr_dom _ _ _ _ _ Hc). by apply not_elem_of_dom. }
  assert (Hsm : size m = size (a_conns a)) by (rewrite <- !size_dom; by rewrite (cr_dom _ _ _ _ _ Hc)).
  assert (Hle : Z.of_nat (size m) <= cap (g_hash g)).
  { rewrite <- (hm_count _ _ Hm), (hm_used _ _ Hm), <- (hm_len _ _ Hm), <- (length_fmap hn_id). apply used_le. }
  destruct (hashid_insert_ok (g_hash g) m id) as (hash & i & Hins & Hnew & Hil & Hm' & Hcap'); auto; [lia|lia|].
  destruct (lookup_lt_is_Some_2 (g_conn g) i) as [c Hci]; [lia|].
  destruct (world_len _ _ _ _ _ Hw) as [_ Hvl]. rewrite length_fmap in Hvl.
  destruct (lookup_lt_is_Some_2 vs i) as [v Hvi]; [lia|].
  destruct (cr_free _ _ _ _ _ Hc i c v Hnew Hci Hvi) as (Hag & Hcl & ->).
  exists hash, i, c. rewrite put_conn_ok by (cbn; lia). eexists. split_and!; [done| |reflexivity|].
  { by rewrite arr_get_lookup, Nat2Z.id by lia. }
  split; cbn [set_conns a_set_conns g_listen_id g_watchdog g_broker g_client_tag g_header_size g_hash g_conn g_mp
    a_listen a_watchdog a_broker a_tag a_hs a_max a_conns]; auto.
  - split_and!; auto. by rewrite Hcap'.
  - by rewrite length_insert.
  - exists (<[id := i]> m), ls, fl, vs. split_and!; auto.
    + rewrite list_fmap_insert. cbn [c_buffer]. rewrite list_insert_id; [done|]. by rewrite list_lookup_fmap, Hci.
    + eapply conns_insert; eauto. split_and!; auto. by left.
Qed.

Lemma forward_agent_ok g a fd agent client : gate_rel g a →
  ∃ g', _forward_agent g fd agent client = Some g' ∧
    gate_rel g' (match a_conns a !! fd with
                 | Some c => a_set_conns a (<[fd := mk_aconn agent client (a_stream c)]> (a_conns a))
                 | None => a
                 end).
Proof.
  intros Hr. unfold _forward_agent. pose proof Hr as [(Hlis & Hwd & Hbr & Htag & Hhs & Hcap) Hhsok Hlen (m & ls & fl & vs & Hm & Hw & Hc)].
  rewrite (hashid_lookup_ok _ m) by done. unfold slot_of. cbn [mbind option_bind].
  destruct (m !! fd) as [i|] eqn:Hi; [|rewrite (cr_none _ _ _ _ _ _ Hc Hi); by exists g].
  destruct (cr_some _ _ _ _ _ _ _ Hc Hi) as [ac Hac]. rewrite Hac, (proj2 (Z.leb_le 0 _)) by lia.
  destruct (cr_live _ _ _ _ _ Hc _ _ _ Hi Hac) as (c & v & Hci & Hvi & Hid & Hag & Hcl & Hp & Hld).
  pose proof (lookup_lt_Some _ _ _ Hci) as Hil. pose proof (lookup_lt_Some _ _ _ Hvi) as Hvl.
  rewrite arr_get_lookup, Nat2Z.id, Hci by lia. cbn [mbind option_bind]. rewrite put_conn_ok by done. eexists. split; [done|].
  split; cbn [set_conns a_set_conns g_listen_id g_watchdog g_broker g_client_tag g_header_size g_hash g_conn g_mp
    a_listen a_watchdog a_broker a_tag a_hs a_max a_conns]; auto.
  - by split_and!.
  - by rewrite length_insert.
  - exists m, ls, fl, vs. split_and!; auto.
    + rewrite list_fmap_insert. cbn [c_buffer]. rewrite list_insert_id; [done|]. by rewrite list_lookup_fmap, Hci.
    + rewrite <- (list_insert_id vs i v) by done. apply conns_update; auto.
      { intros id' j H1 H2. by eapply map_inj. }
      by split_and!.
Qed.

(** What both do with an event: the same, or the process ends. *)
Definition steps_rel {R} (x : option (gate * R)) (y : option (agate * R)) : Prop :=
  match y with
  | Some (a', r) => ∃ g', x = Some (g', r) ∧ gate_rel g' a'
  | None => x = None
  end.

Lemma close_listen_ok g a id : gate_rel g a →
  steps_rel
    ('(hash, i) ← hashid_remove (g_hash g) id;
     let g := set_conns g hash (g_conn g) (g_mp g) in
     if 0 <=? i then
       c ← arr_get (g_conn g) i;
       '(_, mp) ← databuffer_clear (c_buffer c) (g_mp g);
       g ← put_conn g i conn_zero mp;
       Some (g, _report g (print_d id ++ lit " close"))
     else Some (g, []))
    (match a_conns a !! id with
     | None => Some (a, [])
     | Some _ => Some (a_set_conns a (delete id (a_conns a)), a_report a (print_d id ++ lit " close"))
     end).
Proof.
  intros Hr. unfold steps_rel. destruct (a_conns a !! id) as [ac|] eqn:Hac.
  - destruct (close_live g a _ _ Hr Hac) as (hash & i & c & mp & g' & -> & Hg & Hcl & Hput & Hr').
    cbn [mbind option_bind set_conns g_conn g_mp]. rewrite (proj2 (Z.leb_le 0 _)), Hg by lia. cbn [mbind option_bind].
    rewrite Hcl. cbn [mbind option_bind]. rewrite Hput. cbn [mbind option_bind]. exists g'. rewrite (report_rel _ _ _ Hr'). done.
  - destruct (close_unknown g a _ Hr Hac) as (hash & -> & Hr'). cbn [mbind option_bind]. cbn. eauto.
Qed.

Lemma socket_ok g a m : gate_rel g a → event_ok a (EvSocket m) = true →
  steps_rel (dispatch_socket_message g m) (spec_socket a m).
Proof.
  intros Hr Hs. pose proof (gr_fields _ _ Hr) as (Hlis & _ & _ & _ & _ & Hcap). unfold spec_socket, dispatch_socket_message, event_ok in *.
  destruct (sm_type m); try (by apply close_listen_ok); unfold steps_rel.
  - destruct (lookup_rel g a (sm_id m) Hr) as [[Hn Hl]|(i & ac & Hac & Hl)].
    + rewrite Hn, Hl. cbn. eauto.
    + rewrite Hac in *. destruct (sm_buffer m) as [data|]; [|done]. cbn [default]. bool_to_prop.
      pose proof (dispatch_message_ok g a (sm_id m) data Hr ac Hac ltac:(lia)) as Hd.
      destruct (frames _ _ _) as [[ps rest] closed]. destruct Hd as (i' & g' & Hl' & Hd & Hr'). rewrite Hl in Hl'. simplify_eq.
      rewrite Hl. cbn [mbind option_bind]. rewrite (proj2 (Z.leb_le 0 _)) by lia. replace (sm_ud m) with (Z.of_nat (length data)) by lia. eauto.
  - rewrite Hlis. destruct (sm_id m =? a_listen a); [eauto|].
    destruct (lookup_rel g a (sm_id m) Hr) as [[Hn Hl]|(i & ac & Hac & Hl)]; rewrite Hl; cbn [mbind option_bind].
    + rewrite Hn. cbn. eauto.
    + rewrite Hac. rewrite (proj2 (Z.ltb_ge _ 0)) by lia. eauto.
  - rewrite <- Hlis. destruct (g_listen_id g =? sm_id m); [|done]. cbn [negb c_assert mbind option_bind] in *.
    pose proof Hr as [_ _ _ (mm & ls & fl & vs & Hm & _ & Hc)].
    rewrite (hashid_full_ok _ mm Hm), Hcap.
    replace (size mm) with (size (a_conns a)) by (rewrite <- !size_dom; by rewrite (cr_dom _ _ _ _ _ Hc)).
    destruct (Z.eqb_spec (Z.of_nat (size (a_conns a))) (a_max a)); [eauto|]. bool_to_prop.
    destruct (accept_ok g a (sm_ud m) (text_of (take 31 (sm_padding m))) Hr) as (hash & i & c & g' & -> & Hg & Hput & Hr'); auto; try lia.
    cbn [mbind option_bind set_conns g_conn g_mp]. rewrite Hg. cbn [mbind option_bind]. cbn [set_conns] in Hput. rewrite Hput.
    cbn [mbind option_bind c_id]. exists g'. rewrite (report_rel _ _ _ Hr'). done.
  - eauto.
  - eauto.
Qed.

(** A field outside the connections changed. *)
Lemma rel_fields g a lis bro : gate_rel g a →
  gate_rel (set_listen (set_broker g bro) lis) (mk_agate lis (a_watchdog a) bro (a_tag a) (a_hs a) (a_max a) (a_conns a)).
Proof. intros [(? & ? & ? & ? & ? & ?) Hhs Hlen Hc]. split; cbn; auto. by split_and!. Qed.

Lemma ctrl_ok hs names g a msg : names_of hs names → gate_rel g a → 0 ∉ msg →
  ∃ g', _ctrl hs g msg = Some (g', (spec_ctrl names a msg).2) ∧ gate_rel g' (spec_ctrl names a msg).1.
Proof.
  intros Hnm Hr Hz. pose proof (gr_fields _ _ Hr) as (Hlis & _ & Hbr & _). unfold spec_ctrl, _ctrl.
  rewrite (ctrl_command_ok msg Hz). cbn [mbind option_bind]. destruct (spec_command msg) as [|uid|fd ag cl|nm|uid| |s]; cbn [fst snd].
  - eauto.
  - destruct (lookup_rel g a uid Hr) as [[Hn Hl]|(i & ac & Hac & Hl)]; rewrite Hl; cbn [mbind option_bind].
    + rewrite Hn. cbn. eauto.
    + rewrite Hac. rewrite (proj2 (Z.leb_le 0 _)) by lia. eauto.
  - destruct (forward_agent_ok g a fd ag cl Hr) as (g' & -> & Hr'). cbn. eauto.
  - rewrite (query_ok hs names nm Hnm). destruct (spec_query names nm) as [b e]. cbn [mbind option_bind fst snd].
    exists (set_broker g b). split; [done|]. pose proof (rel_fields g a (a_listen a) b Hr) as H'. by rewrite <- Hlis in H' at 1.
  - destruct (lookup_rel g a uid Hr) as [[Hn Hl]|(i & ac & Hac & Hl)]; rewrite Hl; cbn [mbind option_bind].
    + rewrite Hn. cbn. eauto.
    + rewrite Hac. rewrite (proj2 (Z.leb_le 0 _)) by lia. eauto.
  - rewrite Hlis. destruct (0 <=? a_listen a); [|eauto]. exists (set_listen g (-1)). split; [done|].
    pose proof (rel_fields g a (-1) (a_broker a) Hr) as H'. rewrite <- Hbr in H' at 1. done.
  - eauto.
Qed.

Lemma cb_ok hs names g a ev : names_of hs names → gate_rel g a → event_ok a ev = true →
  match spec_cb names a ev with
  | Some (a', e, r) => ∃ g', _cb hs g ev = Some (g', e, r) ∧ gate_rel g' a'
  | None => _cb hs g ev = None
  end.
Proof.
  intros Hnm Hr Hs. destruct ev as [msg|source msg|m]; cbn [spec_cb _cb].
  - destruct (ctrl_ok hs names g a msg Hnm Hr) as (g' & -> & Hr'); [by apply bool_decide_eq_true in Hs|].
    destruct (spec_ctrl names a msg) as [a1 e1]. cbn. eauto.
  - destruct (Z.of_nat (length msg) <=? 4); [eauto|].
    set (uid := i32 (le_val (drop (Z.to_nat (Z.of_nat (length msg) - 4)) msg))) in *.
    destruct (lookup_rel g a uid Hr) as [[Hn Hl]|(i & ac & Hac & Hl)]; rewrite Hl; cbn [mbind option_bind].
    + rewrite Hn. cbn. eauto.
    + rewrite Hac. rewrite (proj2 (Z.leb_le 0 _)) by lia. eauto.
  - pose proof (socket_ok g a m Hr Hs) as Hst. unfold steps_rel in Hst. destruct (spec_socket a m) as [[a1 e1]|]; cbn [mbind option_bind].
    + destruct Hst as (g' & -> & Hr'). cbn. eauto.
    + by rewrite Hst.
Qed.

Lemma run_ok hs names evs : names_of hs names → ∀ g a, gate_rel g a → events_ok names a evs = true →
  run_cb hs g evs = run_spec names a evs.
Proof.
  intros Hnm. induction evs as [|ev evs IH]; intros g a Hr Hs; [done|]. cbn [events_ok run_spec run_cb] in *.
  apply andb_prop in Hs as [He Hs]. pose proof (cb_ok hs names g a ev Hnm Hr He) as Hc.
  destruct (spec_cb names a ev) as [[[a1 e1] r1]|]; [|by rewrite Hc].
  destruct Hc as (g' & -> & Hr'). cbn [mbind option_bind]. by rewrite (IH _ _ Hr' Hs).
Qed.

(** ** Start *)

(** The gate after a start that succeeds: the parameters are valid, the
    watchdog is known (or absent), the port is positive and the socket listens. *)
Definition spec_init (names : gmap (list Z) Z) (parm : list Z) (listen : Z) : option agate :=
  '(header, watchdog, binding, client_tag, max) ← scan_parm parm;
  w ← match watchdog with
      | 33 :: _ => Some 0
      | _ => let w := (spec_query names watchdog).1 in if w =? 0 then None else Some w
      end;
  if (0 <? max) && (max <=? 2 ^ 30) && ((header =? 83) || (header =? 76)) && (0 <=? listen) &&
     (0 <? i32 (strtol (match index_of 58 binding with None => binding | Some i => drop (S i) binding end)))
  then Some (mk_agate listen w 0 (if client_tag =? 0 then PTYPE_CLIENT else client_tag)
               (if header =? 83 then 2 else 4) max ∅)
  else None.

Lemma init_rel w tag hs max hash listen :
  hashid_map hash ∅ → cap hash = max → hs_ok hs → 0 < max →
  gate_rel (mk_gate listen w 0 tag hs max hash (replicate (Z.to_nat max) conn_zero) messagepool_zero)
    (mk_agate listen w 0 tag hs max ∅).
Proof.
  intros Hm Hc Hhs Hmax. split; cbn; auto.
  - by split_and!.
  - rewrite length_replicate. lia.
  - exists ∅, (replicate (Z.to_nat max) []), [], (replicate (Z.to_nat max) (0, [])). split_and!; auto.
    + rewrite fmap_replicate. apply world_init.
    + split; [by rewrite !dom_empty_L|intros id i ac Hi; by rewrite lookup_empty in Hi|].
      intros i c v _ [-> _]%lookup_replicate [-> _]%lookup_replicate. done.
Qed.

Lemma start_listen_ok g binding listen :
  0 <= listen → 0 < i32 (strtol (match index_of 58 binding with None => binding | Some i => drop (S i) binding end)) →
  ∃ e, start_listen g binding listen = (set_listen g listen, e, 0).
Proof.
  intros Hl Hp. unfold start_listen. destruct (index_of 58 binding) as [i|];
    rewrite (proj2 (Z.leb_gt _ 0)), (proj2 (Z.ltb_ge listen 0)) by lia; eauto.
Qed.

Lemma init_ok hs names parm listen a : names_of hs names → spec_init names parm listen = Some a →
  ∃ g e, gate_init hs gate_create parm listen = Some (g, e, 0) ∧ gate_rel g a.
Proof.
  unfold spec_init, gate_init. destruct (scan_parm parm) as [[[[[header watchdog] binding] tag] max]|]; [|done]. cbn [mbind option_bind].
  intros Hnm Hs. rewrite (query_ok hs names watchdog Hnm).
  assert (Hw : ∃ w e, (match watchdog with 33 :: _ => Some (0, [], false)
      | _ => '(w, e) ← Some (spec_query names watchdog); Some (w, e, w =? 0) end) = Some (w, e, false) ∧
    (match watchdog with 33 :: _ => Some 0
      | _ => if (spec_query names watchdog).1 =? 0 then None else Some (spec_query names watchdog).1 end) = Some w).
  { destruct (spec_query names watchdog) as [w e]; cbn [mbind option_bind fst] in *.
    destruct (w =? 0) eqn:Hw0; cbn [mbind option_bind] in *; repeat case_match; try done; eauto. }
  destruct Hw as (w & e & Hw1 & Hw2). rewrite Hw2 in Hs. cbn [mbind option_bind] in Hs.
  destruct (_ && _) eqn:Hok in Hs; [|done]. injection Hs as <-. apply andb_prop in Hok as [Hok Hport].
  apply andb_prop in Hok as [Hok Hlis]. apply andb_prop in Hok as [Hok Hhdr]. apply andb_prop in Hok as [Hm1 Hm2]. bool_to_prop.
  rewrite (proj2 (Z.leb_gt max 0)) by lia.
  assert (Hh : negb (header =? 83) && negb (header =? 76) = false) by (destruct Hhdr; zcases; done).
  rewrite Hh, Hw1. cbn [mbind option_bind]. destruct (hashid_init_ok max) as (hash & -> & Hm & Hc); [lia|]. cbn [mbind option_bind].
  destruct (start_listen_ok (mk_gate (-1) w 0 (if tag =? 0 then PTYPE_CLIENT else tag) (if header =? 83 then 2 else 4) max hash
    (replicate (Z.to_nat max) conn_zero) messagepool_zero) binding listen) as (e' & He); [lia|lia|].
  cbn [gate_create g_listen_id g_broker g_mp]. rewrite He. do 2 eexists. split; [reflexivity|].
  apply init_rel; auto. destruct (header =? 83); [by left|by right].
Qed.

(** C20. A gate started with valid parameters behaves, for every sequence of
    control commands, client messages and socket events, as a map from socket
    ids to connections with a stream of bytes each: the same packets are cut
    from the streams and sent to the same receivers, the same sockets are
    closed, started and written, in the same order; the commands are read as
    words ([spec_command]), and the slots, the hash chains and the shared pool
    of data blocks never show.  The process aborts exactly where the map does,
    at a connection accepted on another socket than the one the gate listens
    on (as after [close], [accept_after_close]), and nowhere else an assertion
    fails or a pointer is followed outside its memory.  The events are those of
    [events_ok]: texts without a 0, data with its size on streams that an int
    counts, new connections with fresh ids below the last of an int. *)
Theorem gate_refines hs names parm listen a evs :
  names_of hs names → spec_init names parm listen = Some a → events_ok names a evs = true →
  ∃ g e, gate_init hs gate_create parm listen = Some (g, e, 0) ∧ run_cb hs g evs = run_spec names a evs.
Proof.
  intros Hnm Hi Hs. destruct (init_ok _ _ _ _ _ Hnm Hi) as (g & e & Hg & Hr). exists g, e. split; [done|]. by apply run_ok.
Qed.

(** A session: two connections, packets cut in the middle, a command that
    gives one of them an agent, a reply, a kick. *)
Definition gate_session : list event :=
  let sock ty id ud buf pad := EvSocket (mk_smsg ty id ud buf pad) in
  [sock SOCKET_ACCEPT 3 7 None (lit "10.0.0.1:99"); sock SOCKET_ACCEPT 3 8 None (lit "10.0.0.2:99");
   EvText (lit "start 7"); sock SOCKET_DATA 7 3 (Some [0; 2; 65]) []; sock SOCKET_DATA 8 2 (Some [0; 1]) [];
   EvText (lit "forward 8 :a :b"); sock SOCKET_DATA 7 3 (Some [66; 0; 0]) []; sock SOCKET_DATA 8 1 (Some [67]) [];
   EvClient 5 (lit "hello" ++ [8; 0; 0; 0]); EvText (lit "kick 7"); sock SOCKET_CLOSE 7 0 None [];
   sock SOCKET_DATA 7 1 (Some [1]) []].

Lemma gate_refines_witness : ∃ g e,
  gate_init (skynet_handle_init 0) gate_create (lit "S :1 8888 0 64") 3 = Some (g, e, 0) ∧
  run_cb (skynet_handle_init 0) g gate_session = Some
    [([ESend 0 1 0 0 (lit "7 open 7 10.0.0.1:99:0"); EError "socket open: %x" [7]], 0);
     ([ESend 0 1 0 0 (lit "8 open 8 10.0.0.2:99:0"); EError "socket open: %x" [8]], 0);
     ([EStart 7], 0); ([], 0); ([], 0); ([], 0);
     ([ESend 0 1 65536 1 (lit "7 data AB")], 0); ([ESend 11 10 65539 1 [67]], 0);
     ([ESocketSend 8 (lit "hello")], 1); ([EClose 7], 0); ([ESend 0 1 0 0 (lit "7 close")], 0);
     ([EError "Drop unknown connection %d message" [7]; EClose 7], 0)].
Proof.
  destruct (gate_refines (skynet_handle_init 0) ∅ (lit "S :1 8888 0 64") 3 (mk_agate 3 1 0 3 2 64 ∅) gate_session (names_init 0))
    as (g & e & Hi & Hrun); [vm_compute; reflexivity|vm_compute; reflexivity|].
  exists g, e. split; [exact Hi|]. rewrite Hrun. vm_compute. reflexivity.
Defined.

(** A [close] with a connection of the socket still on its way: the next
    accept finds another [listen_id], and the assertion ends the process. *)
Example accept_after_close :
  ('(g, _, _) ← gate_init (skynet_handle_init 0) gate_create (lit "S :1 8888 0 64") 3;
   rs ← run_cb (skynet_handle_init 0) g [EvText (lit "close")];
   Some (rs, run_cb (skynet_handle_init 0) g [EvText (lit "close"); EvSocket (mk_smsg SOCKET_ACCEPT 3 7 None (lit "10.0.0.1:99"))]))
  = Some ([([EClose 3], 0)], None).
Proof. vm_compute. reflexivity. Qed.

(** A word shorter than a command selects it, and a message that starts with
    a space is taken for a kick. *)
Example ctrl_prefix : ctrl_command (lit "k 7") = Some (CmdKick 7) ∧ ctrl_command (lit " 7") = Some (CmdKick 7).
Proof. vm_compute. auto. Qed.

(** Without broker, agent and watchdog a packet's content is read as the next
    header: here the content 0 1 9 of the first packet makes the second. *)
Example frames_no_sink :
  frames 2 true [0; 3; 0; 1; 9] = ([[0; 1; 9]], [], false) ∧ frames 2 false [0; 3; 0; 1; 9] = ([], [9], false).
Proof. vm_compute. auto. Qed.

(** A header of four bytes with its top bit set never completes and is not
    refused. *)
Example frames_negative : frames 4 true ([255; 0; 0; 1] ++ replicate 9 1) = ([], [255; 0; 0; 1] ++ replicate 9 1, false).
Proof. vm_compute. reflexivity. Qed.

(** ** Packets cut anywhere *)

(** A packet as a client writes it. *)
Definition encode_packet (hs : Z) (p : list Z) : list Z := rev (le_bytes (Z.to_nat hs) (Z.of_nat (length p))) ++ p.

Definition packet_ok (hs : Z) (p : list Z) : Prop :=
  0 < Z.of_nat (length p) < 0x1000000 ∧ Z.of_nat (length p) < 256 ^ hs.

Lemma lor_bytes a b k : 0 <= k → 0 <= b < 2 ^ k → Z.lor (Z.shiftl a k) b = a * 2 ^ k + b.
Proof. apply lor_shiftl_add. Qed.

Lemma read_header_encode hs n : hs_ok hs → 0 < n < 0x1000000 → n < 256 ^ hs →
  read_header hs (rev (le_bytes (Z.to_nat hs) n)) = Some n.
Proof.
  intros [-> | ->] Hn Hp; unfold read_header; simpl.
  - rewrite lor_bytes by (change (2 ^ 8) with 256; dlia). f_equal. change (256 ^ 2) with 65536 in Hp. change (2 ^ 8) with 256. dlia.
  - change (Z.to_nat 4) with 4%nat.
    assert (Ha : n / 256 / 256 / 256 = 0) by dlia. rewrite Ha. change (0 mod 256) with 0. rewrite Z.shiftl_0_l, Z.lor_0_l.
    set (b := n / 256 / 256 mod 256). set (c := n / 256 mod 256). set (d := n mod 256).
    assert (Hb : 0 <= b < 256 ∧ 0 <= c < 256 ∧ 0 <= d < 256) by (unfold b, c, d; dlia).
    replace (Z.shiftl b 16) with (Z.shiftl (Z.shiftl b 8) 8) by (by rewrite Z.shiftl_shiftl by lia).
    rewrite <- Z.shiftl_lor, (lor_bytes b c 8) by (change (2 ^ 8) with 256; lia).
    rewrite lor_bytes by (change (2 ^ 8) with 256; lia). change (2 ^ 8) with 256. f_equal.
    assert ((b * 256 + c) * 256 + d = n) as -> by (unfold b, c, d; dlia). apply i32_small. unfold INT_MIN, INT_MAX. lia.
Qed.

Lemma frames_encode hs ps : hs_ok hs → Forall (packet_ok hs) ps →
  frames hs true (concat (encode_packet hs <$> ps)) = (ps, [], false).
Proof.
  intros Hhs. assert (0 < hs) by (destruct Hhs; lia). induction 1 as [|p ps [Hp1 Hp2] _ IH].
  { rewrite frames_short by (simpl; lia). done. }
  cbn [fmap list_fmap concat]. unfold encode_packet at 1. rewrite <- app_assoc.
  rewrite (frames_header hs true _ (Z.of_nat (length p))); [|lia|rewrite length_rev, le_bytes_length; lia|by apply read_header_encode].
  rewrite (proj2 (Z.eqb_neq _ 0)), (proj2 (Z.ltb_ge _ 0)), length_app, (proj2 (Z.ltb_ge _ _)) by lia. cbn [orb].
  rewrite (proj2 (Z.leb_gt _ _)), Nat2Z.id, drop_app_length, take_app_length by lia. by rewrite IH.
Qed.

(** A stream starts with too little for a header or with a header. *)
Lemma stream_cases hs s : hs_ok hs →
  Z.of_nat (length s) < hs ∨ ∃ hdr n d, s = hdr ++ d ∧ Z.of_nat (length hdr) = hs ∧ read_header hs hdr = Some n.
Proof.
  intros Hhs. destruct (decide (Z.of_nat (length s) < hs)) as [|Hge]; [by left|right].
  destruct (read_header_total hs (take (Z.to_nat hs) s) Hhs) as [n Hn]; [rewrite length_take; destruct Hhs; lia|].
  exists (take (Z.to_nat hs) s), n, (drop (Z.to_nat hs) s). rewrite take_drop, length_take. split_and!; auto. destruct Hhs; lia.
Qed.

(** The packets of a stream do not depend on where it is cut. *)
Lemma frames_cut hs s2 : hs_ok hs → ∀ k s1 ps rest closed, (length s1 < k)%nat →
  frames hs true s1 = (ps, rest, closed) →
  frames hs true (s1 ++ s2) =
    if closed then (ps, [], true)
    else let '(ps2, rest2, closed2) := frames hs true (rest ++ s2) in (ps ++ ps2, rest2, closed2).
Proof.
  intros Hhs. assert (0 < hs) by (destruct Hhs; lia).
  induction k as [|k IH]; intros s1 ps rest closed Hk Hf; [lia|].
  assert (Htriv : ps = [] → rest = s1 → closed = false → frames hs true (s1 ++ s2) =
    if closed then (ps, [], true)
    else let '(ps2, rest2, closed2) := frames hs true (rest ++ s2) in (ps ++ ps2, rest2, closed2)).
  { intros -> -> ->. by destruct (frames hs true (s1 ++ s2)) as [[? ?] ?]. }
  destruct (stream_cases hs s1 Hhs) as [Hs|(hdr & n & d & -> & Hl & Hr)].
  { rewrite frames_short in Hf by done. injection Hf as <- <- <-. by apply Htriv. }
  rewrite (frames_header hs true hdr n d) in Hf by done. rewrite length_app in Hk.
  destruct ((n <? 0) || (Z.of_nat (length d) <? n)) eqn:Hbad.
  - destruct (Z.eqb_spec n 0) as [->|Hn]; [|injection Hf as <- <- <-; by apply Htriv].
    apply orb_prop in Hbad as [Hb|Hb]; [done|]. apply Z.ltb_lt in Hb. lia.
  - rewrite <- app_assoc, (frames_header hs true hdr n (d ++ s2)) by done. apply orb_false_iff in Hbad as [Hn0 Hnd].
    rewrite Hn0. apply Z.ltb_ge in Hn0, Hnd. rewrite length_app, (proj2 (Z.ltb_ge _ n)) by lia. cbn [orb].
    destruct (n =? 0); [apply IH; auto; lia|]. destruct (0x1000000 <=? n); [by injection Hf as <- <- <-|].
    destruct (frames hs true (drop (Z.to_nat n) d)) as [[ps1 rest1] closed1] eqn:E. injection Hf as <- <- <-.
    assert (Hlt : (length (drop (Z.to_nat n) d) < k)%nat) by (rewrite length_drop; lia).
    rewrite drop_app_le, take_app_le, (IH _ _ _ _ Hlt E) by lia.
    destruct closed1; [done|]. by destruct (frames hs true (rest1 ++ s2)) as [[? ?] ?].
Qed.

Definition data_event (id : Z) (chunk : list Z) : event :=
  EvSocket (mk_smsg SOCKET_DATA id (Z.of_nat (length chunk)) (Some chunk) []).

Lemma frames_rest hs s ps rest : hs_ok hs → frames hs true s = (ps, rest, false) → frames hs true rest = ([], rest, false).
Proof.
  intros Hhs Hf. pose proof (frames_cut hs [] Hhs (S (length s)) s ps rest false ltac:(lia) Hf) as Ha.
  rewrite !app_nil_r, Hf in Ha. destruct (frames hs true rest) as [[ps2 r2] c2].
  injection Ha as Hps -> ->. assert (ps2 = []) as -> by (apply (f_equal length) in Hps; rewrite length_app in Hps; by apply nil_length_inv; lia).
  done.
Qed.

Lemma frames_le hs sink : hs_ok hs → ∀ k s ps rest closed, (length s < k)%nat → frames hs sink s = (ps, rest, closed) →
  (length rest <= length s)%nat.
Proof.
  intros Hhs. assert (0 < hs) by (destruct Hhs; lia).
  induction k as [|k IH]; intros s ps rest closed Hk Hf; [lia|].
  destruct (stream_cases hs s Hhs) as [Hs|(hdr & n & d & -> & Hl & Hr)].
  { rewrite frames_short in Hf by done. by injection Hf as <- <- <-. }
  rewrite (frames_header hs sink hdr n d) in Hf by done. rewrite length_app in *.
  destruct (n =? 0); [apply IH in Hf; lia|]. destruct (_ || _); [injection Hf as <- <- <-; by rewrite length_app|].
  destruct (0x1000000 <=? n); [injection Hf as <- <- <-; simpl; lia|]. destruct sink; [|apply IH in Hf; lia].
  destruct (frames hs true (drop (Z.to_nat n) d)) as [[ps1 rest1] closed1] eqn:E. injection Hf as <- <- <-. apply IH in E; rewrite length_drop in *; lia.
Qed.

Lemma run_chunks names id chunks : ∀ a ac ps rest,
  a_conns a !! id = Some ac → hs_ok (a_hs a) → has_sink (a_broker a) (a_agent ac) (a_watchdog a) = true →
  frames (a_hs a) true (a_stream ac) = ([], a_stream ac, false) →
  frames (a_hs a) true (a_stream ac ++ concat chunks) = (ps, rest, false) →
  Z.of_nat (length (a_stream ac)) + Z.of_nat (length (concat chunks)) <= INT_MAX →
  ∃ rs, run_spec names a (data_event id <$> chunks) = Some rs ∧ events_ok names a (data_event id <$> chunks) = true ∧
    concat (fst <$> rs) = packet (a_broker a) (a_tag a) (a_watchdog a) id (a_agent ac) (a_client ac) <$> ps.
Proof.
  induction chunks as [|c chunks IH]; intros a ac ps rest Hac Hhs Hsink H0 Hf Hmax.
  { exists []. cbn [concat] in Hf. rewrite app_nil_r, H0 in Hf. by simplify_eq. }
  cbn [fmap list_fmap run_spec events_ok event_ok spec_cb data_event spec_socket sm_type sm_id sm_buffer sm_ud default] in *. rewrite Hac.
  cbn [concat] in *. rewrite length_app in Hmax. rewrite app_assoc in Hf.
  rewrite Z.eqb_refl, (proj2 (Z.leb_le _ INT_MAX)) by lia. cbn [andb]. rewrite Hsink. change (Datatypes.id c) with c.
  destruct (frames (a_hs a) true (a_stream ac ++ c)) as [[ps1 r1] closed1] eqn:E1.
  rewrite (frames_cut (a_hs a) (concat chunks) Hhs _ _ _ _ _ (Nat.lt_succ_diag_r _) E1) in Hf.
  destruct closed1; [done|]. destruct (frames (a_hs a) true (r1 ++ concat chunks)) as [[ps2 r2] c2] eqn:E2. injection Hf as <- -> ->.
  cbn [mbind option_bind]. rewrite app_nil_r.
  pose proof (frames_le (a_hs a) true Hhs _ _ _ _ _ (Nat.lt_succ_diag_r _) E1) as Hle. rewrite length_app in Hle.
  destruct (IH (a_set_conns a (<[id := mk_aconn (a_agent ac) (a_client ac) r1]> (a_conns a)))
    (mk_aconn (a_agent ac) (a_client ac) r1) ps2 rest) as (rs & Hrs & Hok & Hc); cbn; auto.
  - by rewrite lookup_insert_eq.
  - by eapply frames_rest.
  - lia.
  - cbn [a_set_conns] in Hrs, Hok. rewrite Hrs. cbn [mbind option_bind]. eexists. split; [done|]. split; [exact Hok|].
    cbn [fmap list_fmap fst concat]. change (list_fmap _ _ fst rs) with (fst <$> rs). rewrite Hc. cbn. by rewrite fmap_app.
Qed.

(** The packets a client writes reach the watchdog as they were written:
    however the bytes of any sequence of packets (of at least one byte, less
    than 16M, and short enough for the header) are cut into socket messages,
    the gate sends exactly one message per packet, in order, with the socket's
    id and the packet's content. *)
Theorem gate_framing hst names parm listen a id name ps chunks :
  names_of hst names → spec_init names parm listen = Some a → a_watchdog a ≠ 0 → 0 <= id → id + a_max a <= 2 ^ 31 →
  Forall (packet_ok (a_hs a)) ps → concat chunks = concat (encode_packet (a_hs a) <$> ps) →
  Z.of_nat (length (concat chunks)) <= INT_MAX →
  ∃ g e r0 rs, gate_init hst gate_create parm listen = Some (g, e, 0) ∧
    run_cb hst g (EvSocket (mk_smsg SOCKET_ACCEPT listen id None name) :: (data_event id <$> chunks)) = Some (r0 :: rs) ∧
    concat (fst <$> rs) =
      (λ p, ESend 0 (a_watchdog a) PTYPE_TAG_DONTCOPY 1 (print_d id ++ lit " data " ++ p)) <$> ps.
Proof.
  intros Hnm Hi Hw Hid Hmax Hps Hcat Hlen. destruct (init_ok _ _ _ _ _ Hnm Hi) as (g & e & Hg & Hr). exists g, e.
  assert (Ha : a_listen a = listen ∧ a_broker a = 0 ∧ a_conns a = ∅ ∧ 0 < a_max a).
  { unfold spec_init in Hi. bind_inv. repeat case_match; simplify_eq; bind_inv; repeat case_match; simplify_eq; cbn; bool_to_prop; auto. }
  destruct Ha as (Hl & Hb & He & Hm). set (a1 := a_set_conns a {[id := mk_aconn 0 0 []]}).
  destruct (run_chunks names id chunks a1 (mk_aconn 0 0 []) ps []) as (rs & Hrs & Hok & Hc);
    cbn [a1 a_set_conns a_conns a_hs a_broker a_watchdog a_stream a_agent app length].
  - apply lookup_singleton_eq.
  - apply Hr.
  - unfold has_sink. rewrite (proj2 (Z.eqb_neq (a_watchdog a) 0)) by done. by rewrite orb_true_r.
  - apply frames_short. pose proof (gr_hs _ _ Hr) as [-> | ->]; simpl; lia.
  - rewrite Hcat. apply frames_encode; [apply Hr|done].
  - done.
  - eexists _, rs. split; [done|]. split.
    + rewrite (run_ok hst names _ Hnm g a Hr);
        cbn [run_spec events_ok event_ok spec_cb spec_socket sm_type sm_id sm_ud sm_padding];
        rewrite Hl, Z.eqb_refl, He, map_size_empty, (proj2 (Z.eqb_neq _ _)) by lia; cbn [negb mbind option_bind];
        rewrite insert_empty; fold a1; [by rewrite Hrs|].
      rewrite lookup_empty, bool_decide_true, (proj2 (Z.leb_le 0 id)), (proj2 (Z.leb_le _ (2 ^ 31))) by (done || lia). exact Hok.
    + rewrite Hc. change (a_broker a1) with (a_broker a). rewrite Hb. reflexivity.
Qed.

Lemma gate_framing_witness : ∃ g e r0 rs,
  gate_init (skynet_handle_init 0) gate_create (lit "L :1 8888 0 64") 3 = Some (g, e, 0) ∧
  run_cb (skynet_handle_init 0) g
    (EvSocket (mk_smsg SOCKET_ACCEPT 3 7 None []) :: (data_event 7 <$> [[0; 0]; [0; 2; 65]; [66; 0; 0; 0; 1; 67]])) = Some (r0 :: rs) ∧
  concat (fst <$> rs) = (λ p, ESend 0 1 PTYPE_TAG_DONTCOPY 1 (print_d 7 ++ lit " data " ++ p)) <$> [[65; 66]; [67]].
Proof.
  apply (gate_framing (skynet_handle_init 0) ∅ (lit "L :1 8888 0 64") 3 (mk_agate 3 1 0 3 4 64 ∅) 7 [] [[65; 66]; [67]]);
    [apply names_init|vm_compute; reflexivity|done|lia|vm_compute; congruence| |reflexivity|vm_compute; congruence].
  repeat constructor; vm_compute; congruence.
Defined.
