(* ===== verification/Majiang.v ===== *)
(** * The rules of mahjong: 3rd/majiang/majiang.cpp

    The server decides with this code whether a player's tiles win and what
    the win is worth.  A tile is a number of two digits, the suit (1, 2, 3) and
    the rank (1 to 9); a hand is a [std::map] from tiles to how many of them
    the player holds; [pg_map] are the tiles exposed by "peng" or one of the
    kinds of "gang".

    [compute_nor_hupai_info] searches for every way to split the hand into a
    pair ("jiang") and sets of three, either equal ("dui") or consecutive
    ("lian"), depth first on one shared map, list and result vector.
    [get_hupai_info] adds the special hands and the score.

    A [std::map] is a [gmap]; iteration is in the order of the keys.  Reading
    a missing key with [operator[]] stores 0 for it; every reader of these maps
    treats 0 as absent, so the store is not shown. *)

From Stdlib Require Import ZArith Lia.
From stdpp Require Import base tactics option numbers gmap list strings sorting.
From S2P Require Import Prelude.

Local Open Scope Z_scope.

Abbreviation PAI_MAP := (gmap Z Z) (only parsing).
Abbreviation PG_MAP := (gmap Z string) (only parsing).
Abbreviation KAI_GUAN := (gmap string bool) (only parsing).
Abbreviation MULTI_TYPES := (gmap string Z) (only parsing).

(** The pairs of a [std::map], by key. *)
Definition key_le {A} (p q : Z * A) : Prop := p.1 <= q.1.
#[global] Instance key_le_dec {A} (p q : Z * A) : Decision (key_le p q).
Proof. unfold key_le. apply _. Defined.

Definition items {A} (m : gmap Z A) : list (Z * A) := merge_sort key_le (map_to_list m).

Definition map_exists {A} (m : gmap Z A) (k : Z) : bool := bool_decide (is_Some (m !! k)).

(** [pai_map[s]] *)
Definition num (m : PAI_MAP) (s : Z) : Z := default 0 (m !! s).

(** The type of an item: 1 the pair, 2 three equal tiles, 3 three in a row
    that start at [pai_type]. *)
Record PaiItem := mk_item { type : Z; pai_type : Z }.

Record HuPaiData := mk_hpd { hpd_jiang_num : Z; hpd_list_pos : Z; hpd_list : list PaiItem }.

Record HuPaiInfo := mk_hpi { hu_type_info : gmap string Z; mul : Z; geng_num : Z }.

Definition zero_item : PaiItem := mk_item 0 0.

(** [ensure_pai_list(list, index) = item] *)
Definition ensure_pai_list (l : list PaiItem) (index : Z) (it : PaiItem) : list PaiItem :=
  <[Z.to_nat index := it]> (l ++ replicate (Z.to_nat (index + 1) - length l) zero_item).

(** ** The search *)

(** What the recursive calls share: the map, the list and the results. *)
Record hu_state := mk_hu { hm : PAI_MAP; hl : list PaiItem; hinfo : list HuPaiData }.

(** The loop over [s] up to the first tile the hand has. *)
Fixpoint first_pai (n : nat) (m : PAI_MAP) (s : Z) : option Z :=
  match n with
  | O => None
  | S n' => if map_exists m s && (0 <? num m s) then Some s else first_pai n' m (s + 1)
  end.

Definition add_num (m : PAI_MAP) (s d : Z) : PAI_MAP := <[s := num m s + d]> m.

Definition put_item (st : hu_state) (pos : Z) (it : PaiItem) : hu_state :=
  mk_hu (hm st) (ensure_pai_list (hl st) pos it) (hinfo st).

Definition push_info (st : hu_state) (jiang_num list_pos : Z) : hu_state :=
  mk_hu (hm st) (hl st) (hinfo st ++ [mk_hpd jiang_num list_pos (hl st)]).

Definition set_map (st : hu_state) (m : PAI_MAP) : hu_state := mk_hu m (hl st) (hinfo st).

(** Where a recursive call starts. *)
Definition next_pai (m : PAI_MAP) (s : Z) : Z := if num m s =? 0 then s + 1 else s.

(** The tiles an item takes. *)
Definition item_tiles (it : PaiItem) : list Z :=
  if type it =? 1 then [pai_type it; pai_type it]
  else if type it =? 2 then [pai_type it; pai_type it; pai_type it]
  else [pai_type it; pai_type it + 1; pai_type it + 2].

Definition take_tiles (d : Z) (m : PAI_MAP) (it : PaiItem) : PAI_MAP :=
  if type it =? 1 then add_num m (pai_type it) (2 * d)
  else if type it =? 2 then add_num m (pai_type it) (3 * d)
  else add_num (add_num (add_num m (pai_type it) d) (pai_type it + 1) d) (pai_type it + 2) d.

(** One of the three cases of the loop body: the item [it] of [k] tiles is
    put in the list; [inr] is the return from the function when it used up
    the tiles, [inl] what the next case continues with. *)
Definition try_item (rec : Z → Z → Z → Z → hu_state → option hu_state)
    (it : PaiItem) (k d : Z) (wins : bool) (all_num jiang_num list_pos : Z) (st : hu_state)
    : option (hu_state + hu_state) :=
  let st := put_item st list_pos it in
  if all_num - k =? 0 then Some (inr (if wins then push_info st jiang_num list_pos else st))
  else
    let st := set_map st (take_tiles (-1) (hm st) it) in
    st ← rec (next_pai (hm st) (pai_type it)) (all_num - k) (jiang_num + d) (list_pos + 1) st;
    Some (inl (set_map st (take_tiles 1 (hm st) it))).

Definition can_lian (m : PAI_MAP) (s : Z) : bool :=
  (s + 2 <=? 39) && map_exists m s && negb (num m (s + 1) =? 0) && map_exists m (s + 2) &&
  (0 <? num m (s + 1)) && (0 <? num m (s + 2)).

(** [compute_nor_hupai_info(pai_map, _s, all_num, jiang_num, list, list_pos, info)] *)
Fixpoint compute_nor_hupai_info (fuel : nat) (_s all_num jiang_num list_pos : Z) (st : hu_state) : option hu_state :=
  match fuel with
  | O => None
  | S f =>
      match first_pai (Z.to_nat (40 - _s)) (hm st) _s with
      | None => Some st
      | Some s =>
          let rec := compute_nor_hupai_info f in
          r ← (if 2 <? num (hm st) s
               then try_item rec (mk_item 2 s) 3 0 (jiang_num =? 1) all_num jiang_num list_pos st
               else Some (inl st));
          match r with
          | inr st => Some st
          | inl st =>
              r ← (if can_lian (hm st) s
                   then try_item rec (mk_item 3 s) 3 0 (jiang_num =? 1) all_num jiang_num list_pos st
                   else Some (inl st));
              match r with
              | inr st => Some st
              | inl st =>
                  r ← (if map_exists (hm st) s && (1 <? num (hm st) s) && (jiang_num =? 0)
                       then try_item rec (mk_item 1 s) 2 1 true all_num jiang_num list_pos st
                       else Some (inl st));
                  Some (match r with inr st => st | inl st => st end)
              end
          end
      end
  end.

(** The tiles left from [s] on bound the depth of the calls. *)
Fixpoint total_from (n : nat) (m : PAI_MAP) (s : Z) : Z :=
  match n with
  | O => 0
  | S n' => Z.max 0 (num m s) + total_from n' m (s + 1)
  end.

Definition hu_fuel (m : PAI_MAP) : nat := S (Z.to_nat (total_from 29 m 11)).

(** The call from [compute_hupai_info]. *)
Definition hu_search (m : PAI_MAP) (all_num : Z) : option (list HuPaiData) :=
  st ← compute_nor_hupai_info (hu_fuel m) 11 all_num 0 0 (mk_hu m [] []);
  Some (hinfo st).

(** A hand from a list of tiles. *)
Definition hand_of (tiles : list Z) : PAI_MAP := foldr (λ s m, add_num m s 1) ∅ tiles.

Example hu_search_test :
  hu_search (hand_of [11; 11; 11; 12; 13; 14; 25; 25]) 8 =
    Some [mk_hpd 0 2 [mk_item 2 11; mk_item 3 12; mk_item 1 25]] ∧
  hu_search (hand_of [11; 12; 14; 14; 14]) 5 = Some [].
Proof. vm_compute. auto. Qed.

(** ** The kinds of hands *)

Definition check_kg (kg : KAI_GUAN) (name : string) : bool := default false (kg !! name).

(** [c != 2 && c != 5 && c != 8] and the like, negated. *)
Definition one_of (l : list Z) (c : Z) : bool := existsb (Z.eqb c) l.

(** Exposed tiles as [get_geng_num] counts them. *)
Definition get_geng_num (pai_map : PAI_MAP) (pg_map : PG_MAP) : Z :=
  let n1 := foldl (λ n p,
    if p.2 =? 4 then n + 1
    else if (p.2 =? 1) && bool_decide (pg_map !! p.1 = Some "peng"%string) then n + 1 else n) 0 (items pai_map) in
  foldl (λ n p, if existsb (String.eqb p.2) ["wg"; "zg"; "ag"]%string then n + 1 else n) n1 (items pg_map).

Definition check_is_daduizi (l : list PaiItem) (kg : KAI_GUAN) : bool :=
  check_kg kg "da_dui_zi" && forallb (λ pi, (type pi =? 1) || (type pi =? 2)) l.

Definition check_is_jiangdui (l : list PaiItem) (pai_map : PAI_MAP) (pg_map : PG_MAP) (kg : KAI_GUAN) : bool :=
  check_kg kg "jiang_dui" && forallb (λ pi, (type pi =? 1) || (type pi =? 2)) l &&
  forallb (λ p, negb (0 <? p.2) || one_of [2; 5; 8] (Z.rem p.1 10)) (items pai_map) &&
  forallb (λ p, one_of [2; 5; 8] (Z.rem p.1 10)) (items pg_map).

Definition check_is_yaojiu (l : list PaiItem) (pg_map : PG_MAP) (kg : KAI_GUAN) : bool :=
  check_kg kg "yao_jiu" &&
  forallb (λ v, if type v =? 3 then one_of [1; 7] (Z.rem (pai_type v) 10) else one_of [1; 9] (Z.rem (pai_type v) 10)) l &&
  forallb (λ p, one_of [1; 9] (Z.rem p.1 10)) (items pg_map).

Definition check_7d_hupai_info (pai_map : PAI_MAP) (all_num : Z) (kg : KAI_GUAN) (maxShouPaiNum : Z) : bool :=
  check_kg kg "qi_dui" && (all_num =? maxShouPaiNum) &&
  forallb (λ p, negb (0 <? p.2) || (p.2 =? 2) || (p.2 =? 4)) (items pai_map).

Definition check_is_menqing (pg_map : PG_MAP) (kg : KAI_GUAN) : bool :=
  check_kg kg "men_qing" && forallb (λ p, String.eqb p.2 "ag") (items pg_map).

Definition check_is_zhongzhang (pai_map : PAI_MAP) (pg_map : PG_MAP) (kg : KAI_GUAN) : bool :=
  check_kg kg "zhong_zhang" &&
  forallb (λ p, negb (0 <? p.2) || negb (one_of [1; 9] (Z.rem p.1 10))) (items pai_map) &&
  forallb (λ p, negb (one_of [1; 9] (Z.rem p.1 10))) (items pg_map).

(** The loop of [check_is_jingoudiao], left early when the count exceeds 2. *)
Fixpoint jingou_loop (l : list (Z * Z)) (count : Z) : bool :=
  match l with
  | [] => count =? 2
  | p :: l' => let count := count + p.2 in if 2 <? count then false else jingou_loop l' count
  end.

Definition check_is_jingoudiao (pai_map : PAI_MAP) (kg : KAI_GUAN) : bool :=
  check_kg kg "jin_gou_diao" && jingou_loop (items pai_map) 0.

(** ** The result of a win *)

(** The best kind among the splittings: 1 plain, 2 sets, 4 ends, 5 pairs of
    2, 5 and 8. *)
Definition best_kind (pai_map : PAI_MAP) (pg_map : PG_MAP) (kg : KAI_GUAN) (info : list HuPaiData) : Z :=
  foldl (λ t hpd,
    let t := if (t <? 2) && check_is_daduizi (hpd_list hpd) kg then 2 else t in
    let t := if (t <? 5) && check_is_jiangdui (hpd_list hpd) pai_map pg_map kg then 5 else t in
    if (t <? 4) && check_is_yaojiu (hpd_list hpd) pg_map kg then 4 else t)
    1 info.

Definition multi (mt : MULTI_TYPES) (name : string) : Z := default 0 (mt !! name).

(** [res[name] = multi_types[name]] when the condition holds. *)
Definition add_kind (b : bool) (mt : MULTI_TYPES) (name : string) (res : gmap string Z) : gmap string Z :=
  if b then <[name := multi mt name]> res else res.

(** The entries of [res], once the kind is known: a seventh pair uses up one
    of the fours; [qys], [zz], [mq] and [jg] are the tests for one suit, middle
    tiles, nothing exposed and all exposed. *)
Definition hu_res (mt : MULTI_TYPES) (hupai_type geng : Z) (qys zz mq jg : bool) : gmap string Z * Z :=
  let long := (hupai_type =? 3) && (0 <? geng) in
  let geng := if long then geng - 1 else geng in
  let res := add_kind long mt "long_qi_dui" ∅ in
  let res := add_kind ((hupai_type =? 3) && negb long) mt "qi_dui" res in
  let res := add_kind (hupai_type =? 2) mt "da_dui_zi" res in
  let res := add_kind (hupai_type =? 5) mt "jiang_dui" res in
  let res := add_kind (hupai_type =? 4) mt "yao_jiu" res in
  let res := if 0 <? geng then <["dai_geng"%string := geng]> res else res in
  let res := add_kind qys mt "qing_yi_se" res in
  let res := add_kind zz mt "zhong_zhang" res in
  let res := add_kind mq mt "men_qing" res in
  let res := add_kind jg mt "jin_gou_diao" res in
  (res, geng).

Definition compute_hupai_info (pai_map : PAI_MAP) (pg_map : PG_MAP) (all_num huaSe_count : Z)
    (kg : KAI_GUAN) (mt : MULTI_TYPES) (maxShouPaiNum : Z) : option (option HuPaiInfo) :=
  info ← hu_search pai_map all_num;
  let hupai_type := match info with [] => 0 | _ => best_kind pai_map pg_map kg info end in
  let hupai_type :=
    if check_7d_hupai_info pai_map all_num kg maxShouPaiNum && ((hupai_type =? 0) || (hupai_type <? 3))
    then 3 else hupai_type in
  if negb (hupai_type =? 0) then
    let '(res, geng) := hu_res mt hupai_type (get_geng_num pai_map pg_map)
      ((huaSe_count =? 1) && check_kg kg "qing_yi_se") (check_is_zhongzhang pai_map pg_map kg)
      (check_is_menqing pg_map kg) (check_is_jingoudiao pai_map kg) in
    Some (Some (mk_hpi res (map_fold (λ _ v s, s + v) 0 res) geng))
  else Some None.

(** [tongji_pai_info(pai_map, &huaSe)]: the number of tiles and the suits. *)
Definition tongji_pai_info (pai_map : PAI_MAP) (huaSe : gmap Z Z) : Z * gmap Z Z :=
  foldl (λ a p, if 0 <? p.2 then (a.1 + p.2, <[Z.quot p.1 10 := 1]> a.2) else a) (0, huaSe) (items pai_map).

Definition tongji_penggang_info (pg_map : PG_MAP) (huaSe : gmap Z Z) : Z * gmap Z Z :=
  foldl (λ a p, (a.1 + 3, <[Z.quot p.1 10 := 1]> a.2)) (0, huaSe) (items pg_map).

(** The suits at the start of [get_hupai_info] and [get_ting_info]. *)
Definition no_suits : gmap Z Z := <[1 := 0]> (<[2 := 0]> (<[3 := 0]> ∅)).

(** The common start of the two: the number of tiles in the hand and of
    suits; [None] when the function returns false. *)
Definition count_hand (pai_map : PAI_MAP) (pg_map : PG_MAP) (must_que maxShouPaiNum : Z) : option (Z * Z) :=
  let '(count1, hs) := tongji_pai_info pai_map no_suits in
  let '(count2, hs) := tongji_penggang_info pg_map hs in
  let huaSe_count := num hs 1 + num hs 2 + num hs 3 in
  if negb (count1 + count2 =? maxShouPaiNum) || (2 <? huaSe_count) then None
  else if negb (must_que =? 0) && negb (num hs must_que =? 0) && (0 <? num hs must_que) then None
  else Some (count1, huaSe_count).

Definition get_hupai_info (pai_map : PAI_MAP) (pg_map : PG_MAP) (must_que : Z)
    (kg : KAI_GUAN) (mt : MULTI_TYPES) (maxShouPaiNum : Z) : option (option HuPaiInfo) :=
  match count_hand pai_map pg_map must_que maxShouPaiNum with
  | None => Some None
  | Some (count1, huaSe_count) => compute_hupai_info pai_map pg_map count1 huaSe_count kg mt maxShouPaiNum
  end.

(** ** Waiting tiles *)

Definition nonzero_pos (z : Z) : bool := negb (z =? 0) && (0 <? z).

Definition check_have_lianzi (pm : PAI_MAP) (s : Z) : bool :=
  ((s + 2 <? 40) && nonzero_pos (num pm s) && nonzero_pos (num pm (s + 1)) && nonzero_pos (num pm (s + 2))) ||
  ((10 <? s - 1) && (s + 1 <? 40) && nonzero_pos (num pm s) && nonzero_pos (num pm (s + 1)) && nonzero_pos (num pm (s - 1))) ||
  ((10 <? s - 2) && nonzero_pos (num pm s) && nonzero_pos (num pm (s - 1)) && nonzero_pos (num pm (s - 2))).

Record TingPaiInfo := mk_ting { ting_pai : Z; ting_info : HuPaiInfo }.

(** The loop over the tiles.  [pai_map_copy[s] or 0] is C++'s logical or: the
    number becomes 0 or 1.  The hand tested is [pai_map_copy_tmp], which is
    never filled. *)
Fixpoint ting_loop (n : nat) (s : Z) (copy : PAI_MAP) (pg_map : PG_MAP) (huaSe_count : Z)
    (kg : KAI_GUAN) (mt : MULTI_TYPES) (maxShouPaiNum : Z) (out : list TingPaiInfo) : option (list TingPaiInfo) :=
  match n with
  | O => Some out
  | S n' =>
      if Z.rem s 10 =? 0 then ting_loop n' (s + 1) copy pg_map huaSe_count kg mt maxShouPaiNum out
      else
        let copy := <[s := if num copy s =? 0 then 0 else 1]> copy in
        let copy := add_num copy s 1 in
        out ←
          (if (1 <? num copy s) || check_have_lianzi copy s then
             let count := (tongji_pai_info copy ∅).1 in
             r ← compute_hupai_info ∅ pg_map count huaSe_count kg mt maxShouPaiNum;
             Some (match r with Some i => out ++ [mk_ting s i] | None => out end)
           else Some out);
        let copy := add_num copy s (-1) in
        let copy := if num copy s =? 0 then delete s copy else copy in
        ting_loop n' (s + 1) copy pg_map huaSe_count kg mt maxShouPaiNum out
  end.

(** [None] is the return value false. *)
Definition get_ting_info (pai_map : PAI_MAP) (pg_map : PG_MAP) (must_que : Z)
    (kg : KAI_GUAN) (mt : MULTI_TYPES) (maxShouPaiNum : Z) : option (option (list TingPaiInfo)) :=
  match count_hand pai_map pg_map must_que maxShouPaiNum with
  | None => Some None
  | Some (_, huaSe_count) =>
      out ← ting_loop 29 11 pai_map pg_map huaSe_count kg mt maxShouPaiNum [];
      Some (Some out)
  end.

Definition all_kinds : KAI_GUAN :=
  list_to_map ((λ n, (n, true)) <$> ["da_dui_zi"; "jiang_dui"; "yao_jiu"; "qi_dui"; "men_qing"; "zhong_zhang";
    "jin_gou_diao"; "qing_yi_se"]%string).

(** Seven pairs of one suit, one of them twice: worth more than its parts. *)
Example hupai_test :
  (i ← get_hupai_info (hand_of [11; 11; 12; 12; 13; 13; 13; 13; 15; 15; 16; 16; 19; 19]) ∅ 2 all_kinds
         (list_to_map [("long_qi_dui", 4); ("qing_yi_se", 2); ("men_qing", 1)]%string) 14;
   i ← i; Some (mul i, geng_num i)) = Some (7, 0).
Proof. vm_compute. reflexivity. Qed.

(** ** Reference definition of a complete hand

    A hand is complete when its tiles are those of one pair and sets of three;
    a row lies within a suit. *)

Definition good_tile (s : Z) : Prop := 11 <= s <= 39 ∧ s mod 10 ≠ 0.

Definition good_item (it : PaiItem) : Prop :=
  good_tile (pai_type it) ∧
  (type it = 1 ∨ type it = 2 ∨ (type it = 3 ∧ pai_type it mod 10 <= 7)).

(** How often [s] is in a list of tiles. *)
Fixpoint occ (l : list Z) (s : Z) : Z :=
  match l with
  | [] => 0
  | t :: l' => (if t =? s then 1 else 0) + occ l' s
  end.

Definition tiles_of (l : list PaiItem) : list Z := l ≫= item_tiles.

(** The number of pairs. *)
Definition pairs (l : list PaiItem) : Z := Z.of_nat (length (filter (λ it, type it = 1) l)).

(** [l] splits the tiles of [m], with [k] pairs. *)
Definition splits (k : Z) (m : PAI_MAP) (l : list PaiItem) : Prop :=
  Forall good_item l ∧ pairs l = k ∧ ∀ s, occ (tiles_of l) s = num m s.

Definition complete (m : PAI_MAP) : Prop := ∃ l, splits 1 m l.

(** A hand as the services build it: no negative number, and only tiles of the
    three suits. *)
Definition wf_hand (m : PAI_MAP) : Prop :=
  (∀ s, 0 <= num m s) ∧ ∀ s, ¬ good_tile s → num m s = 0.

(** The number of tiles. *)
Definition total (m : PAI_MAP) : Z := total_from 29 m 11.

(** ** Lemmas on hands *)

Lemma occ_app l k s : occ (l ++ k) s = occ l s + occ k s.
Proof. induction l; simpl; lia. Qed.

Lemma occ_nonneg l s : 0 <= occ l s.
Proof. induction l; simpl; zcases; lia. Qed.

Lemma occ_pos l s : 0 < occ l s ↔ s ∈ l.
Proof.
  induction l as [|t l IH]; simpl; [set_solver by lia|].
  rewrite elem_of_cons, <- IH. pose proof (occ_nonneg l s). zcases; naive_solver lia.
Qed.

Lemma num_add m s d t : num (add_num m s d) t = num m t + (if s =? t then d else 0).
Proof.
  unfold num at 1, add_num. destruct (Z.eqb_spec s t) as [->|].
  - by rewrite lookup_insert_eq.
  - rewrite lookup_insert_ne by done. fold (num m t). lia.
Qed.

Lemma num_take d m it t : num (take_tiles d m it) t = num m t + d * occ (item_tiles it) t.
Proof.
  unfold take_tiles, item_tiles. repeat case_match; rewrite ?num_add; simpl; zcases.
Qed.

(** The guards test the number only. *)
Lemma num_exists m s : 0 < num m s → map_exists m s = true.
Proof.
  unfold num, map_exists. destruct (m !! s); simpl; [done|lia].
Qed.

Lemma exists_pos m s : map_exists m s && (0 <? num m s) = (0 <? num m s).
Proof. destruct (Z.ltb_spec 0 (num m s)); [|apply andb_false_r]. by rewrite num_exists. Qed.

Lemma can_lian_eq m s : 0 < num m s →
  can_lian m s = (s + 2 <=? 39) && (0 <? num m (s + 1)) && (0 <? num m (s + 2)).
Proof.
  intros Hs. unfold can_lian. rewrite num_exists by done.
  destruct (Z.ltb_spec 0 (num m (s + 2))).
  - rewrite num_exists by done. zcases; done.
  - by rewrite !andb_false_r.
Qed.

Lemma first_pai_spec n m s :
  match first_pai n m s with
  | Some t => s <= t < s + Z.of_nat n ∧ 0 < num m t ∧ ∀ u, s <= u < t → num m u <= 0
  | None => ∀ u, s <= u < s + Z.of_nat n → num m u <= 0
  end.
Proof.
  revert s. induction n as [|n IH]; intros s; cbn [first_pai]; [lia|].
  rewrite exists_pos. destruct (Z.ltb_spec 0 (num m s)) as [H|H].
  - split_and!; [lia..|]. intros; lia.
  - specialize (IH (s + 1)). destruct first_pai as [t|].
    + destruct IH as (? & ? & IH). split_and!; [lia..|]. intros u ?.
      destruct (Z.eq_dec u s) as [->|]; [done|]. apply IH. lia.
    + intros u ?. destruct (Z.eq_dec u s) as [->|]; [done|]. apply IH. lia.
Qed.

(** *** Totals *)

Lemma total_from_eq n m m' s :
  (∀ t, s <= t < s + Z.of_nat n → num m t = num m' t) → total_from n m s = total_from n m' s.
Proof.
  revert s. induction n as [|n IH]; intros s H; simpl; [done|].
  rewrite (H s), (IH (s + 1)) by first [lia | intros; apply H; lia]. done.
Qed.

Lemma total_from_nonneg n m s : 0 <= total_from n m s.
Proof. revert s. induction n as [|n IH]; intros s; simpl; [lia|]. specialize (IH (s + 1)). lia. Qed.

Lemma total_from_add n m u d s : 0 <= num m u → 0 <= num m u + d → s <= u < s + Z.of_nat n →
  total_from n (add_num m u d) s = total_from n m s + d.
Proof.
  intros ? ?. revert s. induction n as [|n IH]; intros s Hu; simpl; [lia|].
  rewrite num_add. destruct (Z.eqb_spec u s) as [->|].
  - rewrite (total_from_eq n _ m); [lia|]. intros t ?. rewrite num_add. zcases.
  - rewrite IH by lia. lia.
Qed.

Lemma total_add m u d : 0 <= num m u → 0 <= num m u + d → 11 <= u <= 39 →
  total (add_num m u d) = total m + d.
Proof. intros. unfold total. apply total_from_add; lia. Qed.

Lemma total_from_pos n m s t : s <= t < s + Z.of_nat n → 0 < num m t → 0 < total_from n m s.
Proof.
  revert s. induction n as [|n IH]; intros s Ht Hp; simpl; [lia|].
  pose proof (total_from_nonneg n m (s + 1)). destruct (Z.eq_dec t s) as [->|]; [lia|].
  specialize (IH (s + 1)). lia.
Qed.

Lemma total_from_zero n m s : (∀ t, s <= t < s + Z.of_nat n → num m t <= 0) → total_from n m s = 0.
Proof.
  revert s. induction n as [|n IH]; intros s H; simpl; [done|].
  rewrite IH by (intros; apply H; lia). specialize (H s). lia.
Qed.

(** *** Items *)

(** How many pairs an item is. *)
Definition is_pair (it : PaiItem) : Z := if type it =? 1 then 1 else 0.

(** The tiles of the item are in the hand. *)
Definition fits (m : PAI_MAP) (it : PaiItem) : Prop := ∀ s, occ (item_tiles it) s <= num m s.

Lemma is_pair_range it : 0 <= is_pair it <= 1.
Proof. unfold is_pair. case_match; lia. Qed.

Lemma pairs_cons it l : pairs (it :: l) = is_pair it + pairs l.
Proof.
  unfold pairs, is_pair. rewrite filter_cons. destruct (Z.eqb_spec (type it) 1); case_decide; try done; simpl; lia.
Qed.

Lemma item_tiles_length it : Z.of_nat (length (item_tiles it)) = 3 - is_pair it.
Proof. unfold item_tiles, is_pair. repeat case_match; simpl; lia. Qed.

Lemma item_first it : pai_type it ∈ item_tiles it.
Proof. unfold item_tiles. repeat case_match; set_solver. Qed.

Lemma item_range it t : t ∈ item_tiles it → pai_type it <= t <= pai_type it + 2.
Proof. unfold item_tiles. repeat case_match; rewrite !elem_of_cons, elem_of_nil; lia. Qed.

Lemma item_good it t : good_item it → t ∈ item_tiles it → good_tile t.
Proof.
  unfold item_tiles. intros [Hg Hty].
  destruct (Z.eqb_spec (type it) 1); [set_solver|]. destruct (Z.eqb_spec (type it) 2); [set_solver|].
  destruct Hty as [?|[?|[_ Hr]]]; [done..|]. unfold good_tile in *.
  rewrite !elem_of_cons, elem_of_nil. intros Ht. dlia.
Qed.

Lemma wf_take m it : wf_hand m → good_item it → fits m it → wf_hand (take_tiles (-1) m it).
Proof.
  intros [Hn Hz] Hg Hf. split; intros s.
  - rewrite num_take. specialize (Hf s). lia.
  - intros Hs. rewrite num_take, Hz by done. pose proof (occ_nonneg (item_tiles it) s).
    destruct (decide (0 < occ (item_tiles it) s)) as [Hp|]; [|lia].
    apply occ_pos in Hp. by destruct Hs; apply (item_good it).
Qed.

Lemma total_take m it : wf_hand m → good_item it → fits m it →
  total (take_tiles (-1) m it) = total m - (3 - is_pair it).
Proof.
  intros [Hn Hz] Hg Hf. assert (Hr : ∀ t, t ∈ item_tiles it → 11 <= t <= 39).
  { intros t Ht. apply (item_good it) in Ht; [|done]. by destruct Ht. }
  pose proof (Hf (pai_type it)) as H0. pose proof (Hf (pai_type it + 1)) as H1. pose proof (Hf (pai_type it + 2)) as H2.
  unfold take_tiles, item_tiles, is_pair in *.
  repeat case_match; bool_to_prop; try lia; simpl in H0, H1, H2; rewrite ?Z.eqb_refl in H0, H1, H2;
    repeat rewrite total_add; rewrite ?num_add; try (apply Hr; set_solver); try lia;
    repeat match goal with |- context [?a =? ?b] => destruct (Z.eqb_spec a b); try lia
      | H : context [?a =? ?b] |- _ => destruct (Z.eqb_spec a b); try lia end.
Qed.

(** *** Splittings *)

Lemma splits_eq k m m' l : (∀ s, num m s = num m' s) → splits k m l → splits k m' l.
Proof. intros H (? & ? & Ho). split_and!; try done. intros s. by rewrite Ho, H. Qed.

Lemma splits_cons k m it l : good_item it →
  splits (k - is_pair it) (take_tiles (-1) m it) l → splits k m (it :: l).
Proof.
  intros Hg (Hl & Hp & Ho). split_and!.
  - by constructor.
  - rewrite pairs_cons. lia.
  - intros s. unfold tiles_of. cbn. rewrite occ_app. fold (tiles_of l). rewrite Ho, num_take. lia.
Qed.

(** An item can be taken out of a splitting. *)
Lemma splits_remove k m l1 it l2 : splits k m (l1 ++ it :: l2) →
  good_item it ∧ fits m it ∧ splits (k - is_pair it) (take_tiles (-1) m it) (l1 ++ l2).
Proof.
  intros (Hl & Hp & Ho). apply Forall_app in Hl as [? Hl]. apply Forall_cons in Hl as [? ?].
  unfold tiles_of in Ho. rewrite bind_app in Ho. cbn in Ho.
  assert (∀ s, num m s = occ (l1 ≫= item_tiles) s + occ (item_tiles it) s + occ (l2 ≫= item_tiles) s) as Hm.
  { intros s. rewrite <- Ho, !occ_app. lia. }
  split_and!; [done| |].
  - intros s. rewrite Hm. pose proof (occ_nonneg (l1 ≫= item_tiles) s). pose proof (occ_nonneg (l2 ≫= item_tiles) s). lia.
  - split_and!.
    + by apply Forall_app.
    + revert Hp. unfold pairs, is_pair. rewrite !filter_app, filter_cons, !length_app.
      destruct (Z.eqb_spec (type it) 1); case_decide; simpl; lia.
    + intros s. unfold tiles_of. rewrite bind_app, occ_app, num_take, Hm. lia.
Qed.

Lemma splits_total k m l : wf_hand m → splits k m l → total m = 3 * Z.of_nat (length l) - k.
Proof.
  revert k m. induction l as [|it l IH]; intros k m Hw Hs.
  - destruct Hs as (_ & <- & Ho). unfold total. rewrite total_from_zero; [done|].
    intros t _. rewrite <- Ho. simpl. lia.
  - apply (splits_remove k m [] it l) in Hs as (Hg & Hf & Hs).
    apply IH in Hs; [|by apply wf_take]. rewrite total_take in Hs by done. cbn [length]. lia.
Qed.

(** The smallest tile of the hand starts an item of every splitting. *)
Lemma splits_min k m l s : (∀ t, t < s → num m t <= 0) → 0 < num m s → splits k m l →
  ∃ it l', l ≡ₚ it :: l' ∧ pai_type it = s ∧ good_item it ∧ fits m it ∧
    splits (k - is_pair it) (take_tiles (-1) m it) l'.
Proof.
  intros Hlow Hs Hsp. pose proof Hsp as (Hl & Hp & Ho). rewrite <- Ho in Hs.
  apply occ_pos in Hs. apply list_elem_of_bind in Hs as (it & Hit & Hin).
  apply list_elem_of_split in Hin as (l1 & l2 & ->).
  apply splits_remove in Hsp as (Hg & Hf & Hr). exists it, (l1 ++ l2). split_and!; try done.
  { by rewrite Permutation_middle. }
  pose proof (item_range it s Hit). pose proof (Hf (pai_type it)) as H1.
  pose proof (item_first it) as H2. apply occ_pos in H2.
  destruct (decide (pai_type it < s)) as [Hlt|]; [|lia]. specialize (Hlow _ Hlt). lia.
Qed.

(** *** The search *)

Ltac hu_simpl := cbn [hm hl hinfo put_item set_map push_info] in *.

Section search.
(** The number of tiles at the start. *)
Context (N : Z).

(** The state at a call: [n] tiles are left, none below [s]; [p] items are
    in the list, [j] of them pairs. *)
Record call_ok (s n j p : Z) (st : hu_state) : Prop := mk_call {
  co_wf : wf_hand (hm st);
  co_low : ∀ t, t < s → num (hm st) t <= 0;
  co_total : total (hm st) = n;
  co_pos : 0 < n;
  co_j : 0 <= j <= 1;
  co_start : 11 <= s;
  co_p : 0 <= p;
  co_N : 3 * p - j + n = N;
  co_len : p <= Z.of_nat (length (hl st)) <= (N + 1) / 3
}.

(** What holds between the start of a call and any later point of it: the
    map and the [p] items are as before, and each result is a splitting. *)
Record run_ok (j p : Z) (st st' : hu_state) (new : list HuPaiData) : Prop := mk_run {
  ro_map : ∀ t, num (hm st') t = num (hm st) t;
  ro_list : take (Z.to_nat p) (hl st') = take (Z.to_nat p) (hl st);
  ro_len : p <= Z.of_nat (length (hl st')) <= (N + 1) / 3;
  ro_info : hinfo st' = hinfo st ++ new;
  ro_sound : Forall (λ e, ∃ l, hpd_list e = take (Z.to_nat p) (hl st) ++ l ∧ splits (1 - j) (hm st) l) new
}.

(** Every splitting of what is left is in the results, in some order. *)
Definition finds (j p : Z) (st : hu_state) (new : list HuPaiData) : Prop :=
  ∀ l, splits (1 - j) (hm st) l → ∃ e, e ∈ new ∧ hpd_list e ≡ₚ take (Z.to_nat p) (hl st) ++ l.

(** The same for those that have the item. *)
Definition finds_item (j p : Z) (st : hu_state) (it : PaiItem) (new : list HuPaiData) : Prop :=
  ∀ l, splits (1 - j - is_pair it) (take_tiles (-1) (hm st) it) l →
  ∃ e, e ∈ new ∧ hpd_list e ≡ₚ take (Z.to_nat p) (hl st) ++ it :: l.

Definition call_spec (f : Z → Z → Z → Z → hu_state → option hu_state) (n : Z) : Prop :=
  ∀ s j p st, call_ok s n j p st →
  ∃ st' new, f s n j p st = Some st' ∧ run_ok j p st st' new ∧ finds j p st new.

Lemma ensure_take l p it : 0 <= p <= Z.of_nat (length l) →
  take (Z.to_nat (p + 1)) (ensure_pai_list l p it) = take (Z.to_nat p) l ++ [it].
Proof.
  intros Hp. unfold ensure_pai_list. replace (Z.to_nat (p + 1)) with (S (Z.to_nat p)) by lia.
  rewrite (take_S_r _ _ it).
  - rewrite take_insert_ge by lia. by rewrite take_app_le by lia.
  - apply list_lookup_insert_eq. rewrite length_app, length_replicate. lia.
Qed.

Lemma ensure_length l p it : 0 <= p <= Z.of_nat (length l) →
  Z.of_nat (length (ensure_pai_list l p it)) = Z.max (p + 1) (Z.of_nat (length l)).
Proof. intros. unfold ensure_pai_list. rewrite length_insert, length_app, length_replicate. lia. Qed.

Lemma ensure_prefix l p it : 0 <= p <= Z.of_nat (length l) →
  take (Z.to_nat p) (ensure_pai_list l p it) = take (Z.to_nat p) l.
Proof.
  intros Hp. unfold ensure_pai_list. rewrite take_insert_ge by lia. by rewrite take_app_le by lia.
Qed.

Lemma run_ok_refl s n j p st : call_ok s n j p st → run_ok j p st st [].
Proof. intros []. split; auto. by rewrite app_nil_r. Qed.

(** A later point of the same call is as good a start of a case. *)
Lemma run_call s n j p st st' new : call_ok s n j p st → run_ok j p st st' new → call_ok s n j p st'.
Proof.
  intros [[Hn Hg] Hl Ht] [Hm Hli Hle Hi Hs]. split; auto.
  - split; intros t; rewrite Hm; auto.
  - intros t. rewrite Hm. auto.
  - rewrite <- Ht. by apply total_from_eq.
Qed.

Lemma run_trans j p st st1 st2 new1 new2 :
  run_ok j p st st1 new1 → run_ok j p st1 st2 new2 → run_ok j p st st2 (new1 ++ new2).
Proof.
  intros [Hm1 Hl1 He1 Hi1 Hs1] [Hm2 Hl2 He2 Hi2 Hs2]. split; auto.
  - intros t. by rewrite Hm2.
  - by rewrite Hl2.
  - by rewrite Hi2, Hi1, app_assoc.
  - apply Forall_app. split; [done|]. eapply Forall_impl; [done|]. intros e (l & -> & Hl). exists l.
    rewrite Hl1. split; [done|]. by eapply splits_eq.
Qed.

Lemma total_empty m : wf_hand m → total m = 0 → splits 0 m [].
Proof.
  intros [Hn Hz] Ht. split_and!; [constructor|done|]. intros s. cbn.
  destruct (decide (0 < num m s)) as [Hp|]; [|specialize (Hn s); lia].
  destruct (decide (11 <= s <= 39)).
  - pose proof (total_from_pos 29 m 11 s). unfold total in Ht. lia.
  - symmetry. apply Hz. unfold good_tile. lia.
Qed.

Lemma next_low m it t : wf_hand m → fits m it → (∀ t, t < pai_type it → num m t <= 0) →
  t < next_pai (take_tiles (-1) m it) (pai_type it) → num (take_tiles (-1) m it) t <= 0.
Proof.
  intros [Hn _] Hf Hl. unfold next_pai. pose proof (occ_nonneg (item_tiles it) t).
  destruct (Z.eqb_spec (num (take_tiles (-1) m it) (pai_type it)) 0).
  - intros Ht. destruct (Z.eq_dec t (pai_type it)) as [->|]; [lia|]. rewrite num_take. specialize (Hl t). lia.
  - intros Ht. rewrite num_take. specialize (Hl t). lia.
Qed.

(** The call made by a case that takes the item [it]. *)
Lemma call_next s n j p st it :
  call_ok s n j p st → pai_type it = s → good_item it → fits (hm st) it → j + is_pair it <= 1 →
  n - (3 - is_pair it) ≠ 0 →
  let st1 := put_item st p it in
  let st2 := set_map st1 (take_tiles (-1) (hm st1) it) in
  call_ok (next_pai (hm st2) (pai_type it)) (n - (3 - is_pair it)) (j + is_pair it) (p + 1) st2.
Proof.
  intros [Hw Hl Ht Hp Hj Hs Hpp HN Hle] <- Hg Hf Hj1 Hn0. hu_simpl.
  pose proof (total_take _ _ Hw Hg Hf) as Htt.
  pose proof (total_from_nonneg 29 (take_tiles (-1) (hm st) it) 11) as Hnn. fold (total (take_tiles (-1) (hm st) it)) in Hnn.
  assert (0 <= is_pair it) by (unfold is_pair; case_match; lia).
  split; hu_simpl; try lia.
  - by apply wf_take.
  - intros t. by apply next_low.
  - unfold next_pai. case_match; lia.
  - rewrite ensure_length by lia. dlia.
Qed.

(** A hand of just the tiles of an item is split by that item only. *)
Lemma splits_last k m it l : wf_hand m → good_item it → fits m it → 0 < num m (pai_type it) →
  (∀ t, t < pai_type it → num m t <= 0) → total m = 3 - is_pair it → splits k m l → l = [it].
Proof.
  intros Hw Hg Hf Hpos Hl Ht Hsp. pose proof (splits_total _ _ _ Hw Hsp) as Hl1.
  destruct (splits_min _ _ _ _ Hl Hpos Hsp) as (it' & l' & Hp & Hs & Hg' & Hf' & Hsp').
  pose proof (splits_total _ _ _ (wf_take _ _ Hw Hg' Hf') Hsp') as Hl2. rewrite total_take in Hl2 by done.
  pose proof (is_pair_range it). pose proof (is_pair_range it'). destruct Hsp' as (_ & Hk & _).
  pose proof (length_filter (λ it, type it = 1) l') as Hlf.
  assert (l' = []) as -> by (apply length_zero_iff_nil; unfold pairs in Hk; lia).
  symmetry in Hp. apply Permutation_length_1_inv in Hp. subst l. f_equal.
  assert (Ho : ∀ t, occ (item_tiles it) t <= occ (item_tiles it') t).
  { intros t. destruct Hsp as (_ & _ & Ho). specialize (Ho t). specialize (Hf t). cbn [tiles_of mbind list_bind] in Ho.
    rewrite app_nil_r in Ho. lia. }
  pose proof (Ho (pai_type it)) as Ho0. pose proof (Ho (pai_type it + 1)) as Ho1. change (pairs []) with 0 in Hk. cbn [length] in *.
  destruct it as [ty s], it' as [ty' s']. cbn [pai_type] in *. subst s'. f_equal.
  unfold item_tiles, is_pair in *. cbn [type pai_type] in *. destruct Hg as [_ Hty], Hg' as [_ Hty']. cbn [type pai_type] in *.
  destruct Hty as [-> | [-> | [-> _]]], Hty' as [-> | [-> | [-> _]]]; try done; exfalso;
    cbn [Z.eqb Pos.eqb occ] in *; rewrite ?Z.eqb_refl in *; revert Ho0 Ho1; zcases; lia.
Qed.

Lemma try_last s n j p st it :
  call_ok s n j p st → pai_type it = s → 0 < num (hm st) s → good_item it → fits (hm st) it → j + is_pair it <= 1 →
  n - (3 - is_pair it) = 0 →
  let st1 := put_item st p it in
  let wins := j + is_pair it =? 1 in
  ∃ new, run_ok j p st (if wins then push_info st1 j p else st1) new ∧ finds j p st new.
Proof.
  intros [Hw Hl Ht Hp Hj Hs Hpp HN Hle] <- Hpos Hg Hf Hj1 Hn0. hu_simpl.
  destruct (Z.eqb_spec (j + is_pair it) 1) as [Hwin|Hwin].
  - assert (Hlen : Z.of_nat (length (ensure_pai_list (hl st) p it)) = p + 1) by (rewrite ensure_length; dlia).
    assert (Hens : ensure_pai_list (hl st) p it = take (Z.to_nat p) (hl st) ++ [it]).
    { rewrite <- (ensure_take (hl st) p it) by lia. rewrite firstn_all2; [done|lia]. }
    exists [mk_hpd j p (ensure_pai_list (hl st) p it)]. split.
    2: { intros l Hsp. eexists. split; [by apply list_elem_of_here|]. cbn [hpd_list].
         rewrite (splits_last _ _ it l Hw Hg Hf Hpos Hl) by (done || lia). by rewrite Hens. }
    split; hu_simpl; auto; try dlia.
    + apply ensure_prefix. lia.
    + constructor; [|constructor]. exists [it]. split; [done|]. apply splits_cons; [done|]. replace (1 - j - is_pair it) with 0 by lia. apply total_empty.
      * by apply wf_take.
      * rewrite total_take by done. lia.
  - exists []. split.
    + split; hu_simpl; auto; try rewrite app_nil_r; auto.
      * apply ensure_prefix. lia.
      * rewrite ensure_length by lia. dlia.
    + intros l Hsp. apply splits_total in Hsp; [|done]. unfold is_pair in *. case_match; lia.
Qed.

Lemma try_item_ok rec s n j p st it :
  call_ok s n j p st → pai_type it = s → 0 < num (hm st) s → good_item it → fits (hm st) it → j + is_pair it <= 1 →
  call_spec rec (n - (3 - is_pair it)) →
  ∃ (b : bool) st' new,
    try_item rec it (3 - is_pair it) (is_pair it) (j + is_pair it =? 1) n j p st = Some (if b then inr st' else inl st') ∧
    run_ok j p st st' new ∧ finds_item j p st it new ∧ (b = true → finds j p st new).
Proof.
  intros Hc Hs Hpos Hg Hf Hj1 Hrec. unfold try_item.
  destruct (Z.eqb_spec (n - (3 - is_pair it)) 0) as [Hn|Hn].
  - destruct (try_last s n j p st it) as (new & Hr & Hnew); try done.
    exists true. eexists _, new. split_and!; try done. intros l Hl. apply Hnew. by apply splits_cons.
  - pose proof (call_next s n j p st it Hc Hs Hg Hf Hj1 Hn) as Hc'.
    destruct (Hrec _ _ _ _ Hc') as (st' & new & Hst & Hr & Hnew).
    exists false. eexists _, new. rewrite Hst. cbn [mbind option_bind hm hl hinfo put_item set_map push_info]. split_and!; [done| |..|done].
    + destruct Hr as [Hm Hli Hle Hi Hsd]. destruct Hc. split; hu_simpl; auto.
      * intros t. rewrite num_take, Hm, num_take. lia.
      * apply (f_equal (take (Z.to_nat p))) in Hli. rewrite !take_take in Hli.
        replace (_ `min` _)%nat with (Z.to_nat p) in Hli by lia. rewrite Hli. apply ensure_prefix. lia.
      * lia.
      * eapply Forall_impl; [done|]. intros e (l & -> & Hl). exists (it :: l). rewrite ensure_take by lia.
        rewrite <- app_assoc. split; [done|]. apply splits_cons; [done|].
        by replace (1 - j - is_pair it) with (1 - (j + is_pair it)) by lia.
    + intros l Hl. replace (1 - j - is_pair it) with (1 - (j + is_pair it)) in Hl by lia.
      destruct (Hnew l Hl) as (e & He & Hp). exists e. split; [done|]. rewrite Hp. hu_simpl.
      destruct Hc. rewrite ensure_take by lia. by rewrite <- app_assoc.
Qed.

(** A case whose guard is a test for the item: it finds whatever starts with
    the item, and when it ends the call, whatever there is. *)
Lemma case_ok rec s n j p st it (g : bool) :
  call_ok s n j p st → pai_type it = s → 0 < num (hm st) s →
  (g = true ↔ good_item it ∧ fits (hm st) it ∧ j + is_pair it <= 1) →
  call_spec rec (n - (3 - is_pair it)) →
  ∃ (b : bool) st' new,
    (if g then try_item rec it (3 - is_pair it) (is_pair it) (j + is_pair it =? 1) n j p st else Some (inl st)) =
      Some (if b then inr st' else inl st') ∧
    run_ok j p st st' new ∧ (good_item it → fits (hm st) it → finds_item j p st it new) ∧
    (b = true → finds j p st new).
Proof.
  intros Hc Hs Hpos Hguard Hrec. destruct g.
  - destruct Hguard as [(Hg & Hf & Hj) _]; [done|].
    destruct (try_item_ok rec s n j p st it) as (b & st' & new & ? & ? & ? & ?); try done.
    exists b, st', new. split_and!; auto.
  - exists false, st, []. split_and!; [done|by eapply run_ok_refl| |done].
    intros Hg Hf l Hl. exfalso. destruct (decide (j + is_pair it <= 1)); [naive_solver|].
    destruct Hl as (_ & Hp & _). unfold pairs in Hp. lia.
Qed.

Lemma fits_dui m s : (∀ t, 0 <= num m t) → (2 <? num m s) = true ↔ fits m (mk_item 2 s).
Proof.
  intros Hn. rewrite Z.ltb_lt. split.
  - intros Hs t. specialize (Hn t). cbn [item_tiles type pai_type occ Z.eqb Pos.eqb]. zcases; subst; lia.
  - intros Hf. specialize (Hf s). cbn [item_tiles type pai_type occ Z.eqb Pos.eqb] in Hf. rewrite Z.eqb_refl in Hf. lia.
Qed.

Lemma fits_jiang m s : (∀ t, 0 <= num m t) → (1 <? num m s) = true ↔ fits m (mk_item 1 s).
Proof.
  intros Hn. rewrite Z.ltb_lt. split.
  - intros Hs t. specialize (Hn t). cbn [item_tiles type pai_type occ Z.eqb Pos.eqb]. zcases; subst; lia.
  - intros Hf. specialize (Hf s). cbn [item_tiles type pai_type occ Z.eqb Pos.eqb] in Hf. rewrite Z.eqb_refl in Hf. lia.
Qed.

Lemma fits_lian m s : wf_hand m → 0 < num m s → can_lian m s = true ↔ good_item (mk_item 3 s) ∧ fits m (mk_item 3 s).
Proof.
  intros [Hn Hz] Hs. rewrite can_lian_eq by done. split.
  - intros H. bool_to_prop. apply and_comm. split.
    + intros t. specialize (Hn t). cbn [item_tiles type pai_type occ Z.eqb Pos.eqb]. zcases; subst; lia.
    + destruct (decide (good_tile (s + 1))) as [G1|G1]; [|apply Hz in G1; lia].
      destruct (decide (good_tile (s + 2))) as [G2|G2]; [|apply Hz in G2; lia].
      destruct (decide (good_tile s)) as [G|G]; [|apply Hz in G; lia].
      split; [done|]. right; right. split; [done|]. destruct G, G1, G2. cbn [pai_type]. dlia.
  - intros [_ Hf]. pose proof (Hf (s + 1)) as H1. pose proof (Hf (s + 2)) as H2.
    cbn [item_tiles type pai_type occ Z.eqb Pos.eqb] in H1, H2.
    revert H1 H2. zcases; intros; try done.
    assert (G2 : ¬ good_tile (s + 2)) by (unfold good_tile; lia). apply Hz in G2. lia.
Qed.

(** What a case leaves: [b] tells whether it ended the call. *)
Definition case_spec (r : option (hu_state + hu_state)) (j p : Z) (st : hu_state) (it : PaiItem) : Prop :=
  ∃ (b : bool) st' new,
    r = Some (if b then inr st' else inl st') ∧ run_ok j p st st' new ∧
    (good_item it → fits (hm st) it → finds_item j p st it new) ∧ (b = true → finds j p st new).

Section cases.
Context (rec : Z → Z → Z → Z → hu_state → option hu_state) (s n j p : Z) (st : hu_state).
Context (Hc : call_ok s n j p st) (Hpos : 0 < num (hm st) s).
Context (Hrec : ∀ n', n' < n → call_spec rec n').

Lemma min_good : good_tile s.
Proof. destruct Hc as [[_ Hz]]. destruct (decide (good_tile s)) as [|G]; [done|]. apply Hz in G. lia. Qed.

Lemma dui_case :
  case_spec (if 2 <? num (hm st) s then try_item rec (mk_item 2 s) 3 0 (j =? 1) n j p st else Some (inl st))
    j p st (mk_item 2 s).
Proof.
  rewrite <- (Z.add_0_r j) at 1. apply (case_ok rec s n j p st (mk_item 2 s)); [done..| |apply Hrec; cbn; lia].
  rewrite fits_dui by apply Hc. pose proof (co_j _ _ _ _ _ Hc). cbn [is_pair type Z.eqb Pos.eqb].
  split; [intros; split_and!; [|done|lia]|naive_solver]. split; [apply min_good|]. by right; left.
Qed.

Lemma lian_case :
  case_spec (if can_lian (hm st) s then try_item rec (mk_item 3 s) 3 0 (j =? 1) n j p st else Some (inl st))
    j p st (mk_item 3 s).
Proof.
  rewrite <- (Z.add_0_r j) at 1. apply (case_ok rec s n j p st (mk_item 3 s)); [done..| |apply Hrec; cbn; lia].
  rewrite fits_lian by first [apply Hc|done]. pose proof (co_j _ _ _ _ _ Hc). cbn [is_pair type Z.eqb Pos.eqb].
  split; [intros []; split_and!; [done..|lia]|naive_solver].
Qed.

Lemma jiang_case :
  case_spec (if map_exists (hm st) s && (1 <? num (hm st) s) && (j =? 0)
             then try_item rec (mk_item 1 s) 2 1 true n j p st else Some (inl st))
    j p st (mk_item 1 s).
Proof.
  rewrite num_exists by done. rewrite andb_true_l.
  replace (if (_ && _)%bool then _ else _) with
    (if (1 <? num (hm st) s) && (j =? 0) then try_item rec (mk_item 1 s) 2 1 (j + 1 =? 1) n j p st else Some (inl st)).
  2: { destruct (Z.eqb_spec j 0) as [->|]; [done|]. by rewrite andb_false_r. }
  apply (case_ok rec s n j p st (mk_item 1 s)); [done..| |apply Hrec; cbn; lia].
  rewrite andb_true_iff, fits_jiang, Z.eqb_eq by apply Hc. pose proof (co_j _ _ _ _ _ Hc). cbn [is_pair type Z.eqb Pos.eqb].
  split; [intros [? Hj0]; split_and!; [|done|lia]|intros (? & ? & ?); split; [done|lia]].
  split; [apply min_good|]. by left.
Qed.
End cases.

Lemma finds_mono j p st new new' : (∀ e, e ∈ new → e ∈ new') → finds j p st new → finds j p st new'.
Proof. intros Hi Hf l Hl. destruct (Hf l Hl) as (e & ? & ?). eauto. Qed.

(** What a later case finds counts for the state at the start of the call. *)
Lemma finds_back j p st st1 new1 new : run_ok j p st st1 new1 → finds j p st1 new → finds j p st new.
Proof.
  intros [Hm Hl] Hf l Hsp. destruct (Hf l) as (e & He & Hp); [by apply (splits_eq _ (hm st))|]. exists e. by rewrite <- Hl.
Qed.

Lemma finds_item_back j p st st1 new1 it new : run_ok j p st st1 new1 → fits (hm st) it →
  (fits (hm st1) it → finds_item j p st1 it new) → finds_item j p st it new.
Proof.
  intros [Hm Hl] Hfit Hf l Hsp. destruct (λ H, Hf H l) as (e & He & Hp).
  - intros t. rewrite Hm. apply Hfit.
  - eapply splits_eq; [|done]. intros t. by rewrite !num_take, Hm.
  - exists e. by rewrite <- Hl.
Qed.

(** The loop stops at the smallest tile of the hand. *)
Lemma first_ok s0 n j p st : call_ok s0 n j p st →
  ∃ s, first_pai (Z.to_nat (40 - s0)) (hm st) s0 = Some s ∧ 0 < num (hm st) s ∧ call_ok s n j p st.
Proof.
  intros Hc. pose proof (first_pai_spec (Z.to_nat (40 - s0)) (hm st) s0) as Hfp.
  destruct first_pai as [s|]; [destruct Hfp as (Hs & Hpos & Hlow)|].
  - exists s. split_and!; [done..|]. destruct Hc as [? Hl]. split; auto; [|lia].
    intros t ?. destruct (Z.lt_ge_cases t s0); [by apply Hl|]. apply Hlow. lia.
  - exfalso. destruct Hc as [[Hn Hz] Hl Ht ? ? ?]. assert (total (hm st) = 0); [|lia].
    apply total_from_zero. intros t ?. destruct (Z.lt_ge_cases t s0); [by apply Hl|]. apply Hfp. lia.
Qed.

Lemma good_item_cases it : good_item it → ∃ s, it = mk_item 1 s ∨ it = mk_item 2 s ∨ it = mk_item 3 s.
Proof. destruct it as [ty s]. intros [_ H]. exists s. cbn in H. destruct H as [->|[->|[-> _]]]; auto. Qed.

Lemma compute_ok f n : n < Z.of_nat f → call_spec (compute_nor_hupai_info f) n.
Proof.
  revert n. induction f as [|f IH]; intros n Hf s0 j p st Hc0; [destruct Hc0; lia|].
  cbn [compute_nor_hupai_info]. destruct (first_ok _ _ _ _ _ Hc0) as (s & -> & Hpos & Hc). cbv zeta.
  assert (Hrec : ∀ n', n' < n → call_spec (compute_nor_hupai_info f) n') by (intros; apply IH; lia).
  destruct (dui_case _ s n j p st Hc Hpos Hrec) as (b1 & st1 & new1 & -> & R1 & C1 & B1).
  destruct b1; cbn [mbind option_bind]; [exists st1, new1; by auto|].
  pose proof (run_call _ _ _ _ _ _ _ Hc R1) as Hc1. pose proof (ro_map _ _ _ _ _ R1) as M1.
  destruct (lian_case (compute_nor_hupai_info f) s n j p st1 Hc1) as (b2 & st2 & new2 & -> & R2 & C2 & B2);
    [by rewrite M1|done|].
  pose proof (run_trans _ _ _ _ _ _ _ R1 R2) as R12. pose proof (ro_map _ _ _ _ _ R12) as M2.
  destruct b2; cbn [mbind option_bind].
  { exists st2, (new1 ++ new2). split_and!; [done..|].
    apply (finds_mono _ _ _ new2); [set_solver|]. apply (finds_back _ _ _ st1 new1); auto. }
  pose proof (run_call _ _ _ _ _ _ _ Hc R12) as Hc2.
  destruct (jiang_case (compute_nor_hupai_info f) s n j p st2 Hc2) as (b3 & st3 & new3 & -> & R3 & C3 & B3);
    [by rewrite M2|done|].
  exists st3, ((new1 ++ new2) ++ new3). split_and!; [by destruct b3|by eapply run_trans|].
  intros l Hl.
  destruct (splits_min (1 - j) (hm st) l s) as (it & l' & Hp & Hs & Hg & Hfit & Hl'); [apply Hc|done..|].
  assert (Hfound : finds_item j p st it new1 ∨ finds_item j p st it new2 ∨ finds_item j p st it new3).
  { destruct (good_item_cases it Hg) as (s' & Hit). destruct Hit as [-> | [-> | ->]]; cbn in Hs; subst s'.
    - right; right. eapply finds_item_back; [apply R12|done|]. auto.
    - left. auto.
    - right; left. eapply finds_item_back; [apply R1|done|]. auto. }
  destruct Hfound as [F|[F|F]]; destruct (F l' Hl') as (e & He & Hpe); exists e; (split; [set_solver|]);
    by rewrite Hpe, Hp.
Qed.
End search.

(** ** Results *)

Lemma wf_total_call m : wf_hand m → 0 < total m → call_ok (total m) 11 (total m) 0 0 (mk_hu m [] []).
Proof.
  intros Hw Ht. split; cbn [hm hl hinfo]; auto; try lia.
  - intros t Ht'. destruct Hw as [_ Hz]. rewrite Hz; [lia|]. unfold good_tile. lia.
  - cbn [length]. dlia.
Qed.

Lemma hu_search_spec m : wf_hand m → 0 < total m →
  ∃ info, hu_search m (total m) = Some info ∧
    Forall (λ e, splits 1 m (hpd_list e)) info ∧ ∀ l, splits 1 m l → ∃ e, e ∈ info ∧ hpd_list e ≡ₚ l.
Proof.
  intros Hw Ht. destruct (compute_ok (total m) (hu_fuel m) (total m)) with (s := 11) (j := 0) (p := 0) (st := mk_hu m [] [])
    as (st' & new & Hst & [_ _ _ Hi Hs] & Hn).
  - unfold hu_fuel. fold (total m). lia.
  - by apply wf_total_call.
  - exists new. unfold hu_search. rewrite Hst. cbn [mbind option_bind]. rewrite Hi. split_and!; [done| |done].
    eapply Forall_impl; [done|]. by intros e (l & -> & Hl).
Qed.

(** *** Iteration over a map *)

Lemma items_perm {A} (m : gmap Z A) : items m ≡ₚ map_to_list m.
Proof. apply merge_sort_Permutation. Qed.

Lemma elem_of_items {A} (m : gmap Z A) k v : (k, v) ∈ items m ↔ m !! k = Some v.
Proof. by rewrite items_perm, elem_of_map_to_list. Qed.

Lemma forallb_items {A} (f : Z * A → bool) m :
  forallb f (items m) = true ↔ ∀ k v, m !! k = Some v → f (k, v) = true.
Proof.
  rewrite forallb_forall. split.
  - intros H k v Hk. apply H, list_elem_of_In. by apply elem_of_items.
  - intros H [k v] Hk. apply H. by apply elem_of_items, list_elem_of_In.
Qed.

Lemma wf_insert m i x : m !! i = None → wf_hand (<[i:=x]> m) → wf_hand m ∧ 0 <= x ∧ (x = 0 ∨ good_tile i).
Proof.
  intros Hi [Hn Hz]. assert (Hne : ∀ s, s ≠ i → num (<[i:=x]> m) s = num m s).
  { intros s ?. unfold num. by rewrite lookup_insert_ne. }
  assert (H0 : num m i = 0) by (unfold num; by rewrite Hi).
  assert (Hx : num (<[i:=x]> m) i = x) by (unfold num; by rewrite lookup_insert_eq).
  split_and!.
  - split; intros s; destruct (Z.eq_dec s i) as [->|]; rewrite ?H0; try lia; rewrite <- Hne by done; auto.
  - rewrite <- Hx. apply Hn.
  - destruct (decide (good_tile i)) as [|G]; [by right|]. left. rewrite <- Hx. by apply Hz.
Qed.

Definition sum_pos (l : list (Z * Z)) : Z := foldr (λ p n, Z.max 0 p.2 + n) 0 l.

#[local] Instance sum_pos_proper : Proper (Permutation ==> eq) sum_pos.
Proof. intros l l' Hl. unfold sum_pos. apply foldr_permutation_proper; try done; try apply _. intros ? ? ?; lia. Qed.

Lemma sum_pos_total m : wf_hand m → sum_pos (items m) = total m.
Proof.
  rewrite items_perm. induction m as [|i x m Hi IH] using map_ind; intros Hw.
  - rewrite map_to_list_empty. symmetry. apply total_from_zero. intros. by unfold num.
  - destruct (wf_insert _ _ _ Hi Hw) as (Hm & Hx & Hg). rewrite map_to_list_insert by done.
    cbn [sum_pos foldr snd]. fold (sum_pos (map_to_list m)). rewrite IH by done.
    replace (<[i:=x]> m) with (add_num m i x) by (unfold add_num, num; rewrite Hi; done).
    destruct (Z.eq_dec x 0) as [->|].
    + rewrite Z.add_0_l. apply total_from_eq. intros t _. rewrite num_add. case_match; lia.
    + destruct Hg as [|[? _]]; [done|]. rewrite total_add; [lia|..|done]; (unfold num; rewrite Hi; simpl; lia).
Qed.

(** What the two counting loops leave: the number, and for each suit whether
    it has been seen. *)
Lemma count_loop {A} (w : Z * A → Z) (c : Z * A → bool) l n (hs : gmap Z Z) :
  foldl (λ a p, if c p then (a.1 + w p, <[Z.quot p.1 10 := 1]> a.2) else a) (n, hs) l =
    (n + foldr (λ p n, (if c p then w p else 0) + n) 0 l,
     foldl (λ a p, if c p then <[Z.quot p.1 10 := 1]> a else a) hs l).
Proof.
  revert n hs. induction l as [|p l IH]; intros n hs; simpl; [by rewrite Z.add_0_r|].
  destruct (c p); simpl; rewrite IH; f_equal; lia.
Qed.

Lemma suit_loop {A} (c : Z * A → bool) l (hs : gmap Z Z) q :
  num (foldl (λ a p, if c p then <[Z.quot p.1 10 := 1]> a else a) hs l) q =
    if existsb (λ p, c p && (Z.quot p.1 10 =? q)) l then 1 else num hs q.
Proof.
  revert hs. induction l as [|p l IH]; intros hs; simpl; [done|]. rewrite IH. destruct existsb; [by rewrite orb_true_r|].
  rewrite orb_false_r. destruct (c p); [|done]. simpl. unfold num at 1.
  destruct (Z.eqb_spec (Z.quot p.1 10) q) as [->|]; [by rewrite lookup_insert_eq|by rewrite lookup_insert_ne].
Qed.

(** A tile of the suit is in the hand or exposed. *)
Definition has_suit (m : PAI_MAP) (pg : PG_MAP) (q : Z) : Prop :=
  ∃ s, Z.quot s 10 = q ∧ (0 < num m s ∨ is_Some (pg !! s)).

Lemma existsb_items {A} (f : Z * A → bool) m :
  existsb f (items m) = true ↔ ∃ k v, m !! k = Some v ∧ f (k, v) = true.
Proof.
  rewrite existsb_exists. split.
  - intros ([k v] & Hk & Hf). exists k, v. split; [|done]. by apply elem_of_items, list_elem_of_In.
  - intros (k & v & Hk & Hf). exists (k, v). split; [|done]. by apply list_elem_of_In, elem_of_items.
Qed.

Lemma num_no_suits q : num no_suits q = 0.
Proof.
  unfold num, no_suits. destruct (decide (q = 1)) as [->|]; [done|]. destruct (decide (q = 2)) as [->|]; [done|].
  destruct (decide (q = 3)) as [->|]; [done|]. by rewrite !lookup_insert_ne by done.
Qed.

(** The suits and the number of tiles, as [count_hand] gets them. *)
Lemma tongji_ok m pg : wf_hand m →
  ∃ hs1 hs2, tongji_pai_info m no_suits = (total m, hs1) ∧
    tongji_penggang_info pg hs1 = (3 * Z.of_nat (size pg), hs2) ∧
    ∀ q, (num hs2 q = 0 ∧ ¬ has_suit m pg q) ∨ (num hs2 q = 1 ∧ has_suit m pg q).
Proof.
  intros Hw. eexists _, _. split_and!.
  - unfold tongji_pai_info. rewrite (count_loop (λ p, p.2) (λ p, 0 <? p.2)). f_equal.
    rewrite <- sum_pos_total by done. unfold sum_pos. rewrite Z.add_0_l.
    induction (items m) as [|p l IH]; simpl; [done|]. rewrite IH. zcases.
  - unfold tongji_penggang_info. rewrite (count_loop (λ _, 3) (λ _, true)). f_equal.
    rewrite <- length_map_to_list, <- (items_perm pg). generalize (items pg). intros l. induction l; simpl in *; lia.
  - intros q. rewrite (suit_loop (λ _, true) (items pg)), (suit_loop (λ p, 0 <? p.2) (items m)), num_no_suits.
    destruct (existsb _ (items pg)) eqn:E1; [|destruct (existsb _ (items m)) eqn:E2].
    + right. split; [done|]. apply existsb_items in E1 as (k & v & Hk & Hq). cbn in Hq. bool_to_prop. exists k. eauto.
    + right. split; [done|]. apply existsb_items in E2 as (k & v & Hk & Hq). cbn in Hq. bool_to_prop. exists k.
      split; [done|]. left. unfold num. by rewrite Hk.
    + left. split; [done|]. intros (s & Hq & [Hs|[v Hs]]).
      * apply not_true_iff_false in E2. apply E2, existsb_items. unfold num in Hs.
        destruct (m !! s) as [v|] eqn:Hm; [|simpl in Hs; lia]. exists s, v. split; [done|]. cbn. simpl in Hs. zcases; done.
      * apply not_true_iff_false in E1. apply E1, existsb_items. exists s, v. split; [done|]. cbn. by apply Z.eqb_eq.
Qed.

(** The tests before the search. *)
Definition may_win (m : PAI_MAP) (pg : PG_MAP) (must_que maxShouPaiNum : Z) : Prop :=
  total m + 3 * Z.of_nat (size pg) = maxShouPaiNum ∧
  ¬ (has_suit m pg 1 ∧ has_suit m pg 2 ∧ has_suit m pg 3) ∧
  (must_que = 0 ∨ ¬ has_suit m pg must_que).

Lemma count_hand_ok m pg must_que maxShouPaiNum : wf_hand m →
  (may_win m pg must_que maxShouPaiNum ∧ ∃ h, count_hand m pg must_que maxShouPaiNum = Some (total m, h)) ∨
  (¬ may_win m pg must_que maxShouPaiNum ∧ count_hand m pg must_que maxShouPaiNum = None).
Proof.
  intros Hw. destruct (tongji_ok m pg Hw) as (hs1 & hs2 & E1 & E2 & Hs). unfold count_hand, may_win.
  rewrite E1, E2. pose proof (Hs 1). pose proof (Hs 2). pose proof (Hs 3). pose proof (Hs must_que).
  destruct (Z.eqb_spec (total m + 3 * Z.of_nat (size pg)) maxShouPaiNum); simpl; [|right; tauto].
  destruct (Z.ltb_spec 2 (num hs2 1 + num hs2 2 + num hs2 3)); [right; naive_solver lia|].
  destruct (Z.eqb_spec must_que 0); simpl.
  - left. split; [|eauto]. split_and!; [done| |by left]. naive_solver lia.
  - destruct (Hs must_que) as [[-> Hq]|[-> Hq]]; simpl.
    + left. split; [|eauto]. split_and!; [done| |by right]. naive_solver lia.
    + right. split; [|done]. naive_solver.
Qed.

(** *** The best kind of hand *)

(** Seven pairs, four equal tiles counting as two. *)
Definition seven_pairs (m : PAI_MAP) (kg : KAI_GUAN) (maxShouPaiNum : Z) : Prop :=
  check_kg kg "qi_dui" = true ∧ total m = maxShouPaiNum ∧ ∀ s, num m s = 0 ∨ num m s = 2 ∨ num m s = 4.

Lemma seven_pairs_ok m kg maxShouPaiNum : wf_hand m →
  check_7d_hupai_info m (total m) kg maxShouPaiNum = true ↔ seven_pairs m kg maxShouPaiNum.
Proof.
  intros [Hn _]. unfold check_7d_hupai_info, seven_pairs. rewrite !andb_true_iff, Z.eqb_eq, forallb_items.
  enough (H : (∀ k v, m !! k = Some v → negb (0 <? v) || (v =? 2) || (v =? 4) = true) ↔
    ∀ s, num m s = 0 ∨ num m s = 2 ∨ num m s = 4) by (cbn [snd]; tauto).
  split.
  - intros H s. specialize (Hn s). unfold num in *. destruct (m !! s) as [v|] eqn:Hs; simpl in *; [|by left].
    specialize (H s v Hs). simpl in H. revert H. zcases; simpl; intros; auto; done.
  - intros H k v Hk. specialize (H k). unfold num in H. rewrite Hk in H. simpl in *. zcases; done.
Qed.

Definition kind_of (P5 P4 P2 : bool) : Z := if P5 then 5 else if P4 then 4 else if P2 then 2 else 1.

Lemma best_kind_eq m pg kg info :
  best_kind m pg kg info =
    kind_of (existsb (λ e, check_is_jiangdui (hpd_list e) m pg kg) info)
      (existsb (λ e, check_is_yaojiu (hpd_list e) pg kg) info) (existsb (λ e, check_is_daduizi (hpd_list e) kg) info).
Proof.
  assert (H : ∀ a b c l, foldl (λ t hpd,
    let t := if (t <? 2) && check_is_daduizi (hpd_list hpd) kg then 2 else t in
    let t := if (t <? 5) && check_is_jiangdui (hpd_list hpd) m pg kg then 5 else t in
    if (t <? 4) && check_is_yaojiu (hpd_list hpd) pg kg then 4 else t) (kind_of a b c) l =
    kind_of (a || existsb (λ e, check_is_jiangdui (hpd_list e) m pg kg) l)
      (b || existsb (λ e, check_is_yaojiu (hpd_list e) pg kg) l) (c || existsb (λ e, check_is_daduizi (hpd_list e) kg) l)).
  - intros a b c l. revert a b c. induction l as [|e l IH]; intros a b c; [simpl; by rewrite !orb_false_r|].
    cbn [foldl existsb]. rewrite !orb_assoc, <- IH. f_equal.
    destruct a, b, c, (check_is_daduizi _ _), (check_is_jiangdui _ _ _ _), (check_is_yaojiu _ _ _); done.
  - apply (H false false false).
Qed.

Lemma forallb_perm {A} (f : A → bool) l l' : l ≡ₚ l' → forallb f l = forallb f l'.
Proof. induction 1; simpl; [done| | |]; try congruence. by rewrite !andb_assoc, (andb_comm (f _)). Qed.

(** A test that does not see the order holds of a result iff it holds of a
    splitting. *)
Lemma found_iff (P : list PaiItem → bool) m info :
  (∀ l l', l ≡ₚ l' → P l = P l') → Forall (λ e, splits 1 m (hpd_list e)) info →
  (∀ l, splits 1 m l → ∃ e, e ∈ info ∧ hpd_list e ≡ₚ l) →
  existsb (λ e, P (hpd_list e)) info = true ↔ ∃ l, splits 1 m l ∧ P l = true.
Proof.
  intros HP Hs Hc. rewrite existsb_exists, Forall_forall in *. split.
  - intros (e & He & Hp). exists (hpd_list e). split; [|done]. by apply Hs, list_elem_of_In.
  - intros (l & Hl & Hp). destruct (Hc l Hl) as (e & He & Hpe). exists e. split; [by apply list_elem_of_In|].
    by rewrite (HP _ _ Hpe).
Qed.

(** The kinds a hand of sets can be, by any of its splittings. *)
Definition is_jiangdui (m : PAI_MAP) (pg : PG_MAP) (kg : KAI_GUAN) : Prop :=
  ∃ l, splits 1 m l ∧ check_is_jiangdui l m pg kg = true.
Definition is_yaojiu (m : PAI_MAP) (pg : PG_MAP) (kg : KAI_GUAN) : Prop :=
  ∃ l, splits 1 m l ∧ check_is_yaojiu l pg kg = true.
Definition is_daduizi (m : PAI_MAP) (kg : KAI_GUAN) : Prop :=
  ∃ l, splits 1 m l ∧ check_is_daduizi l kg = true.

Lemma hu_search_total m : wf_hand m →
  ∃ info, hu_search m (total m) = Some info ∧
    Forall (λ e, splits 1 m (hpd_list e)) info ∧ ∀ l, splits 1 m l → ∃ e, e ∈ info ∧ hpd_list e ≡ₚ l.
Proof.
  intros Hw. pose proof (total_from_nonneg 29 m 11) as Hn. fold (total m) in Hn.
  destruct (Z.eq_dec (total m) 0) as [H0|]; [|apply hu_search_spec; [done|lia]].
  exists []. split_and!; [|constructor|].
  - unfold hu_search, hu_fuel. cbn [compute_nor_hupai_info hm].
    pose proof (first_pai_spec (Z.to_nat (40 - 11)) m 11) as Hf. destruct first_pai as [t|]; [|done].
    destruct Hf as (Ht & Hp & _). pose proof (total_from_pos 29 m 11 t). unfold total in H0. lia.
  - intros l Hl. apply splits_total in Hl; [|done]. lia.
Qed.

Lemma best_kind_ok m pg kg info : wf_hand m → hu_search m (total m) = Some info →
  (info = [] ↔ ¬ complete m) ∧
  ∃ j y d, best_kind m pg kg info = kind_of j y d ∧
    (j = true ↔ is_jiangdui m pg kg) ∧ (y = true ↔ is_yaojiu m pg kg) ∧ (d = true ↔ is_daduizi m kg).
Proof.
  intros Hw Hi. destruct (hu_search_total m Hw) as (info' & Hi' & Hs & Hc). rewrite Hi in Hi'. injection Hi' as <-.
  split.
  - split; [intros -> [l Hl]; destruct (Hc l Hl) as (e & He & _); by apply not_elem_of_nil in He|].
    intros Hn. destruct info as [|e info]; [done|]. destruct Hn. inversion_clear Hs. by eexists.
  - rewrite best_kind_eq. eexists _, _, _. split_and!; [done| | |].
    + apply (found_iff (λ l, check_is_jiangdui l m pg kg)); [|done..]. intros l l' Hp. unfold check_is_jiangdui.
      by rewrite (forallb_perm _ _ _ Hp).
    + apply (found_iff (λ l, check_is_yaojiu l pg kg)); [|done..]. intros l l' Hp. unfold check_is_yaojiu.
      by rewrite (forallb_perm _ _ _ Hp).
    + apply (found_iff (λ l, check_is_daduizi l kg)); [|done..]. intros l l' Hp. unfold check_is_daduizi.
      by rewrite (forallb_perm _ _ _ Hp).
Qed.

Lemma num_hand_of tiles s : num (hand_of tiles) s = occ tiles s.
Proof.
  induction tiles as [|t tiles IH]; [done|]. cbn [hand_of foldr]. rewrite num_add.
  fold (hand_of tiles). rewrite IH. cbn [occ]. lia.
Qed.

Lemma wf_hand_of tiles : Forall good_tile tiles → wf_hand (hand_of tiles).
Proof.
  intros Hg. split; intros s; rewrite num_hand_of; [apply occ_nonneg|]. intros Hs.
  pose proof (occ_nonneg tiles s). destruct (decide (0 < occ tiles s)) as [Hp|]; [|lia].
  apply occ_pos in Hp. rewrite Forall_forall in Hg. by destruct Hs; apply Hg.
Qed.

Definition good_tileb (s : Z) : bool := (11 <=? s) && (s <=? 39) && negb (s mod 10 =? 0).

Lemma good_tiles_dec tiles : forallb good_tileb tiles = true → Forall good_tile tiles.
Proof.
  rewrite forallb_forall, Forall_forall. intros H s Hs. apply list_elem_of_In, H in Hs.
  unfold good_tileb in Hs. bool_to_prop. by split.
Qed.

Lemma add_kind_some b mt n res n' :
  is_Some (add_kind b mt n res !! n') ↔ (b = true ∧ n = n') ∨ is_Some (res !! n').
Proof.
  unfold add_kind. destruct b; [|naive_solver]. destruct (decide (n = n')) as [->|].
  - rewrite lookup_insert_eq. split; [by left|]. intros _. by eexists.
  - rewrite lookup_insert_ne by done. naive_solver.
Qed.

Lemma geng_some (g : Z) (res : gmap string Z) n' : n' ≠ "dai_geng"%string →
  is_Some ((if 0 <? g then <["dai_geng"%string := g]> res else res) !! n') ↔ is_Some (res !! n').
Proof. intros. destruct (0 <? g); [|done]. by rewrite lookup_insert_ne. Qed.

(** What the caller learns of a win. *)
Record win_info_ok (m : PAI_MAP) (pg : PG_MAP) (kg : KAI_GUAN) (maxShouPaiNum : Z) (i : HuPaiInfo) : Prop := mk_win {
  wi_mul : mul i = map_fold (λ _ v s, s + v) 0 (hu_type_info i);
  wi_jiangdui : is_Some (hu_type_info i !! "jiang_dui"%string) ↔ is_jiangdui m pg kg;
  wi_yaojiu : is_Some (hu_type_info i !! "yao_jiu"%string) ↔ is_yaojiu m pg kg ∧ ¬ is_jiangdui m pg kg;
  wi_7d : is_Some (hu_type_info i !! "qi_dui"%string) ∨ is_Some (hu_type_info i !! "long_qi_dui"%string) ↔
    seven_pairs m kg maxShouPaiNum ∧ ¬ is_jiangdui m pg kg ∧ ¬ is_yaojiu m pg kg;
  wi_daduizi : is_Some (hu_type_info i !! "da_dui_zi"%string) ↔
    is_daduizi m kg ∧ ¬ is_jiangdui m pg kg ∧ ¬ is_yaojiu m pg kg ∧ ¬ seven_pairs m kg maxShouPaiNum
}.

(** Which of the exclusive kinds the entries show. *)
Lemma hu_res_kinds mt T geng qys zz mq jg :
  let res := (hu_res mt T geng qys zz mq jg).1 in
  (is_Some (res !! "jiang_dui"%string) ↔ T = 5) ∧ (is_Some (res !! "yao_jiu"%string) ↔ T = 4) ∧
  (is_Some (res !! "qi_dui"%string) ∨ is_Some (res !! "long_qi_dui"%string) ↔ T = 3) ∧
  (is_Some (res !! "da_dui_zi"%string) ↔ T = 2).
Proof.
  intros res. unfold res, hu_res. cbn [fst]. split_and!;
    repeat first [rewrite add_kind_some | rewrite geng_some by done]; rewrite ?lookup_empty.
  - rewrite !Z.eqb_eq. split; [|auto 10]. intros; destruct_or?; destruct_and?; try done; by destruct (is_Some_None (A := Z)).
  - rewrite !Z.eqb_eq. split; [|auto 10]. intros; destruct_or?; destruct_and?; try done; by destruct (is_Some_None (A := Z)).
  - split.
    + intros; destruct_or?; destruct_and?; try done; bool_to_prop; try done; by destruct (is_Some_None (A := Z)).
    + intros ->. simpl. destruct (0 <? geng); simpl; [right|left]; auto 20.
  - rewrite !Z.eqb_eq. split; [|auto 10]. intros; destruct_or?; destruct_and?; try done; by destruct (is_Some_None (A := Z)).
Qed.

(** The kind after the test for seven pairs, from the kind of the splittings. *)
Lemma final_kind (c7 j y d : bool) (t : Z) (C S7 J Y D : Prop) :
  (c7 = true ↔ S7) → (j = true ↔ J) → (y = true ↔ Y) → (d = true ↔ D) → (J → C) → (Y → C) → (D → C) →
  (t = 0 ∧ ¬ C) ∨ (t = kind_of j y d ∧ C) →
  let T := if c7 && ((t =? 0) || (t <? 3)) then 3 else t in
  (T ≠ 0 ↔ C ∨ S7) ∧ (T = 5 ↔ J) ∧ (T = 4 ↔ Y ∧ ¬ J) ∧ (T = 3 ↔ S7 ∧ ¬ J ∧ ¬ Y) ∧
  (T = 2 ↔ D ∧ ¬ J ∧ ¬ Y ∧ ¬ S7).
Proof.
  intros H7 Hj Hy Hd HJ HY HD Ht.
  assert (R : ∀ (b : bool) P, (b = true ↔ P) → (b = true ∧ P) ∨ (b = false ∧ ¬ P)).
  { intros [] P []; [by left; auto|right]. split; [done|]. intros HP. by apply diff_false_true; auto. }
  destruct (R _ _ Hj) as [[-> ?]|[-> ?]], (R _ _ Hy) as [[-> ?]|[-> ?]], (R _ _ Hd) as [[-> ?]|[-> ?]],
    (R _ _ H7) as [[-> ?]|[-> ?]], Ht as [[-> ?]|[-> ?]]; simpl; clear - H H0 H1 H2 H3 HJ HY HD;
    split_and!; split; intros; try lia; tauto.
Qed.

Lemma compute_hupai_ok m pg h kg mt maxShouPaiNum : wf_hand m →
  ∃ r, compute_hupai_info m pg (total m) h kg mt maxShouPaiNum = Some r ∧
    (is_Some r ↔ complete m ∨ seven_pairs m kg maxShouPaiNum) ∧ ∀ i, r = Some i → win_info_ok m pg kg maxShouPaiNum i.
Proof.
  intros Hw. destruct (hu_search_total m Hw) as (info & Hi & Hs & _). unfold compute_hupai_info. rewrite Hi. cbn [mbind option_bind].
  destruct (best_kind_ok m pg kg info Hw Hi) as (Hnil & j & y & d & Hk & Hj & Hy & Hd).
  destruct (final_kind (check_7d_hupai_info m (total m) kg maxShouPaiNum) j y d
    (match info with [] => 0 | _ => best_kind m pg kg info end) (complete m) (seven_pairs m kg maxShouPaiNum)
    (is_jiangdui m pg kg) (is_yaojiu m pg kg) (is_daduizi m kg)) as (K0 & K5 & K4 & K3 & K2); [by apply seven_pairs_ok|done..| | | | |].
  1-3: intros (l & ? & _); by exists l.
  { destruct info as [|e info]; [left; tauto|right]. split; [done|]. inversion_clear Hs. by eexists. }
  revert K0 K5 K4 K3 K2. set (T := if _ && _ then 3 else _). intros K0 K5 K4 K3 K2.
  destruct (Z.eqb_spec T 0) as [HT|HT]; cbn [negb].
  - exists None. split_and!; [done| |done]. rewrite <- K0. split; [intros [? [=]]|done].
  - destruct hu_res as [res geng] eqn:E. eexists. split_and!; [done| |].
    + rewrite <- K0. split; [done|by eexists].
    + intros i [= <-]. destruct (hu_res_kinds mt T (get_geng_num m pg) ((h =? 1) && check_kg kg "qing_yi_se")
        (check_is_zhongzhang m pg kg) (check_is_menqing pg kg) (check_is_jingoudiao m kg)) as (R5 & R4 & R3 & R2).
      rewrite E in *. split; cbn [hu_type_info mul fst] in *; [done|..]; etrans; eauto.
Qed.

(** C21. The search ends and its results are, up to order, exactly the ways to
    split the hand into one pair and sets of three: every result is such a
    splitting, every splitting is among them, and so the hand is complete iff
    there is a result. *)
Theorem hu_search_exact m : wf_hand m →
  ∃ info, hu_search m (total m) = Some info ∧
    Forall (λ e, splits 1 m (hpd_list e)) info ∧
    (∀ l, splits 1 m l → ∃ e, e ∈ info ∧ hpd_list e ≡ₚ l) ∧
    (info ≠ [] ↔ complete m).
Proof.
  intros Hw. destruct (hu_search_total m Hw) as (info & Hi & Hs & Hc). exists info. split_and!; [done..|]. split.
  - intros Hn. destruct info as [|e info]; [done|]. inversion_clear Hs. by eexists.
  - intros [l Hl]. destruct (Hc l Hl) as (e & He & _). intros ->. by apply not_elem_of_nil in He.
Qed.

Definition test_hand : PAI_MAP := hand_of [11; 11; 11; 12; 13; 25; 25; 25; 26; 26; 27; 27; 28; 28].

Lemma hu_search_exact_witness :
  wf_hand test_hand ∧ ∃ info, hu_search test_hand (total test_hand) = Some info ∧ length info = 2%nat ∧ complete test_hand.
Proof.
  assert (Hw : wf_hand test_hand) by (apply wf_hand_of, good_tiles_dec; reflexivity).
  split; [exact Hw|]. destruct (hu_search_exact test_hand Hw) as (info & Hi & _ & _ & Hc).
  exists info. split; [exact Hi|]. vm_compute in Hi. injection Hi as <-. split; [reflexivity|]. apply Hc. discriminate.
Defined.

(** C22. A hand wins iff the number of tiles is right, a suit is missing, none of
    the suit to give up is held, and the tiles split into a pair and sets of
    three or are seven pairs.  The entries the caller gets name the best kind
    of any splitting (pairs of 2, 5 and 8 before ends before seven pairs
    before sets only), and the value is the sum of the entries. *)
Theorem get_hupai_info_ok m pg must_que kg mt maxShouPaiNum : wf_hand m →
  ∃ r, get_hupai_info m pg must_que kg mt maxShouPaiNum = Some r ∧
    (is_Some r ↔ may_win m pg must_que maxShouPaiNum ∧ (complete m ∨ seven_pairs m kg maxShouPaiNum)) ∧
    ∀ i, r = Some i → win_info_ok m pg kg maxShouPaiNum i.
Proof.
  intros Hw. unfold get_hupai_info.
  destruct (count_hand_ok m pg must_que maxShouPaiNum Hw) as [[Hm [h ->]]|[Hm ->]].
  - destruct (compute_hupai_ok m pg h kg mt maxShouPaiNum Hw) as (r & Hr & Hs & Hi).
    exists r. split_and!; [done|tauto|done].
  - exists None. split_and!; [done| |done]. split; [intros [? [=]]|tauto].
Qed.

Lemma get_hupai_info_ok_witness :
  wf_hand test_hand ∧
  ∃ i, get_hupai_info test_hand ∅ 3 all_kinds {["men_qing"%string := 1]} 14 = Some (Some i) ∧ mul i = 1 ∧ complete test_hand.
Proof.
  assert (Hw : wf_hand test_hand) by (apply wf_hand_of, good_tiles_dec; reflexivity).
  split; [exact Hw|].
  destruct (get_hupai_info_ok test_hand ∅ 3 all_kinds {["men_qing"%string := 1]} 14 Hw) as (r & Hr & Hs & _).
  vm_compute in Hr. injection Hr as <-. eexists. split; [vm_compute; reflexivity|]. split; [reflexivity|].
  destruct Hs as [Hs _]. destruct Hs as [_ [Hc|(_ & _ & H7)]]; [by eexists|exact Hc|].
  specialize (H7 12). vm_compute in H7. intuition discriminate.
Defined.

(** *** Waiting tiles *)

Lemma compute_hupai_empty pg n h kg mt maxShouPaiNum : check_kg kg "qi_dui" = false →
  compute_hupai_info ∅ pg n h kg mt maxShouPaiNum = Some None.
Proof. intros Hq. unfold compute_hupai_info, check_7d_hupai_info. rewrite Hq. reflexivity. Qed.

Lemma ting_loop_empty n s copy pg h kg mt maxShouPaiNum out : check_kg kg "qi_dui" = false →
  ting_loop n s copy pg h kg mt maxShouPaiNum out = Some out.
Proof.
  intros Hq. revert s copy. induction n as [|n IH]; intros s copy; cbn [ting_loop]; [done|].
  destruct (Z.rem s 10 =? 0); [apply IH|]. cbv zeta. rewrite compute_hupai_empty by done.
  destruct (_ || _); apply IH.
Qed.

(** The hand that [get_ting_info] tests is a map it never fills: without the
    switch for seven pairs it reports no waiting tile, whatever the hand. *)
Theorem ting_never m pg must_que kg mt maxShouPaiNum : check_kg kg "qi_dui" = false →
  get_ting_info m pg must_que kg mt maxShouPaiNum = Some None ∨
  get_ting_info m pg must_que kg mt maxShouPaiNum = Some (Some []).
Proof.
  intros Hq. unfold get_ting_info. destruct count_hand as [[c h]|]; [right|by left].
  by rewrite ting_loop_empty.
Qed.

Lemma ting_never_witness :
  let m := hand_of [11; 11; 11; 12; 13; 25; 25; 25; 26; 26; 27; 27; 28] in
  get_ting_info m ∅ 3 ∅ ∅ 13 = Some (Some []) ∧
  hu_search (add_num m 28 1) 14 ≠ Some [].
Proof.
  cbv zeta. split; [|vm_compute; discriminate].
  destruct (ting_never (hand_of [11; 11; 11; 12; 13; 25; 25; 25; 26; 26; 27; 27; 28]) ∅ 3 ∅ ∅ 13) as [H|H];
    [reflexivity|exfalso; vm_compute in H; discriminate|exact H].
Defined.

(** With the switch, the numbers cut down to 0 and 1 make the count right by
    accident: a hand of fourteen tiles with hardly a pair is said to wait for
    seven pairs. *)
Example ting_wrong :
  match get_ting_info (hand_of [11; 11; 13; 14; 15; 17; 19; 21; 23; 24; 25; 27; 28; 29]) ∅ 3 all_kinds ∅ 14 with
  | Some (Some t) => map ting_pai t
  | _ => []
  end = [11; 12; 13; 14; 15; 16; 17; 18; 19; 21; 22; 23; 24; 25; 26; 27; 28; 29].
Proof. vm_compute. reflexivity. Qed.
