(* ===== verification/MjHuTable.v ===== *)
(** * The table of winning hands: 3rd/majiang/mj_hupai_typ_compute.cpp

    The automatic player looks hands of one suit up by a code: the numbers of
    the nine tiles as the digits of a decimal number.  [create_hu_relation_hash]
    builds its tables: [get_hp_type_count] writes the codes of all hands made of
    at most four sets of three, without and with a pair, into two arrays of two
    million cells; [get_paixing_hp_relation] then follows every hand down by
    removing tiles, at most five times, and records for each code the codes it
    came from ("father").

    Numbers are [int]: overflow is [None].  Of an array that is only ever
    written at the next free cell, the model has the list of the cells
    written so far; a write beyond the allocation is [None]. *)

From Stdlib Require Import ZArith Lia.
From stdpp Require Import base tactics option numbers gmap list sorting.
From S2P Require Import Prelude Majiang.

Local Open Scope Z_scope.

(** ** Codes *)

Fixpoint hash_loop (i : nat) (pai_map : list Z) (v hash_v : Z) : option Z :=
  match i with
  | O => Some hash_v
  | S i' =>
      x ← arr_get pai_map (Z.of_nat i);
      hash_v ← (if x =? 0 then Some hash_v else p ← chk32 (x * v); chk32 (hash_v + p));
      v ← chk32 (v * 10);
      hash_loop i' pai_map v hash_v
  end.

Definition get_pai_hash_value (pai_map : list Z) : option Z := hash_loop 9 pai_map 1 0.

Fixpoint color_loop (i : nat) (pai_map : PAI_MAP) (s v hash_v : Z) : option Z :=
  match i with
  | O => Some hash_v
  | S i' =>
      hash_v ← (match pai_map !! (s + Z.of_nat i) with
                | Some x => p ← chk32 (x * v); chk32 (hash_v + p)
                | None => Some hash_v
                end);
      v ← chk32 (v * 10);
      color_loop i' pai_map s v hash_v
  end.

Definition get_pai_hash_value_by_color (pai_map : PAI_MAP) (color : Z) : option Z :=
  color_loop 9 pai_map (color * 10) 1 0.

(** The digits of [num] into the array; the loop is left when nothing is left
    of [num], and the cells above keep what they had. *)
Fixpoint num_loop (i : nat) (pai_map : list Z) (num count : Z) : option (Z * list Z) :=
  match i with
  | O => Some (count, pai_map)
  | S i' =>
      pai_map ← arr_set pai_map (Z.of_nat i) (Z.rem num 10);
      let count := count + Z.rem num 10 in
      let num := Z.quot num 10 in
      if num =? 0 then Some (count, pai_map) else num_loop i' pai_map num count
  end.

Definition get_pai_value_by_num (pai_map : list Z) (num : Z) : option (Z * list Z) := num_loop 9 pai_map num 0.

Fixpoint value_loop (i : nat) (pai_map : list Z) (re_pai_hash : PAI_MAP) (base count : Z) : option (Z * list Z) :=
  match i with
  | O => Some (count, pai_map)
  | S i' =>
      let x := default 0 (re_pai_hash !! (base + Z.of_nat i)) in
      pai_map ← arr_set pai_map (Z.of_nat i) x;
      value_loop i' pai_map re_pai_hash base (count + x)
  end.

Definition get_pai_value_by_pai_map (pai_map : list Z) (re_pai_hash : PAI_MAP) (color : Z) : option (Z * list Z) :=
  value_loop 9 pai_map re_pai_hash (color * 10) 0.

(** ** Adding and removing sets *)

(** [pai_map[i] + d < 5] *)
Definition room (pai_map : list Z) (i d : Z) : option bool := x ← arr_get pai_map i; Some (x + d <? 5).

(** [pai_map[i] = pai_map[i] + d] *)
Definition bump (pai_map : list Z) (i d : Z) : option (list Z) :=
  x ← arr_get pai_map i; arr_set pai_map i (x + d).

(** The three functions that add return 1 and the new values, or 0. *)
Definition add_jiang (pai_no pai_count : Z) (pai_map : list Z) : option (Z * Z * list Z) :=
  if pai_count + 2 <? 15 then
    b ← room pai_map pai_no 2;
    if b : bool then pm ← bump pai_map pai_no 2; Some (1, pai_count + 2, pm) else Some (0, pai_count, pai_map)
  else Some (0, pai_count, pai_map).

Definition bump3 (pai_map : list Z) (pai_no d : Z) : option (list Z) :=
  pm ← bump pai_map pai_no d; pm ← bump pm (pai_no + 1) d; bump pm (pai_no + 2) d.

Definition add_shunzi (pai_no pai_count : Z) (pai_map : list Z) : option (Z * Z * list Z) :=
  if (pai_no <? 8) && (pai_count + 3 <? 15) then
    b ← room pai_map pai_no 1;
    b ← (if b : bool then room pai_map (pai_no + 1) 1 else Some false);
    b ← (if b : bool then room pai_map (pai_no + 2) 1 else Some false);
    if b : bool then pm ← bump3 pai_map pai_no 1; Some (1, pai_count + 3, pm) else Some (0, pai_count, pai_map)
  else Some (0, pai_count, pai_map).

Definition add_duizi (pai_no pai_count : Z) (pai_map : list Z) : option (Z * Z * list Z) :=
  if pai_count + 3 <? 15 then
    b ← room pai_map pai_no 3;
    if b : bool then pm ← bump pai_map pai_no 3; Some (1, pai_count + 3, pm) else Some (0, pai_count, pai_map)
  else Some (0, pai_count, pai_map).

Definition reduce_jiang (pai_no pai_count : Z) (pai_map : list Z) : option (Z * list Z) :=
  pm ← bump pai_map pai_no (-2); Some (pai_count - 2, pm).

Definition reduce_shunzi (pai_no pai_count : Z) (pai_map : list Z) : option (Z * list Z) :=
  pm ← bump3 pai_map pai_no (-1); Some (pai_count - 3, pm).

Definition reduce_duizi (pai_no pai_count : Z) (pai_map : list Z) : option (Z * list Z) :=
  pm ← bump pai_map pai_no (-3); Some (pai_count - 3, pm).

(** ** Enumeration *)

(** [new int[2000000]] *)
Definition HP_LIST_SIZE : Z := 2000000.

(** What the calls share: [*count], [*pai_count], [pai_map] and the two arrays
    with their counters. *)
Record gen_state := mk_gen {
  gs_count : Z; gs_pai_count : Z; gs_pai : list Z;
  gs_hp : list Z; gs_hp_count : Z;
  gs_jiang : list Z; gs_jiang_count : Z
}.

(** [list[*list_count] = v; *list_count += 1] *)
Definition put_code (l : list Z) (n v : Z) : option (list Z * Z) :=
  if (n =? Z.of_nat (length l)) && (n <? HP_LIST_SIZE) then Some (l ++ [v], n + 1) else None.

(** [*count = *count + 1] and the code into the array for hands with or without
    a pair. *)
Definition record_hand (is_jiang : Z) (st : gen_state) : option gen_state :=
  h ← get_pai_hash_value (gs_pai st);
  if is_jiang =? 1 then
    r ← put_code (gs_jiang st) (gs_jiang_count st) h;
    Some (mk_gen (gs_count st + 1) (gs_pai_count st) (gs_pai st) (gs_hp st) (gs_hp_count st) r.1 r.2)
  else
    r ← put_code (gs_hp st) (gs_hp_count st) h;
    Some (mk_gen (gs_count st + 1) (gs_pai_count st) (gs_pai st) r.1 r.2 (gs_jiang st) (gs_jiang_count st)).

Definition set_pai (st : gen_state) (pc : Z) (pm : list Z) : gen_state :=
  mk_gen (gs_count st) pc pm (gs_hp st) (gs_hp_count st) (gs_jiang st) (gs_jiang_count st).

(** One of the three loops: [i] from [i] on, [n] rounds.  A round whose tiles
    can be added records the hand, goes on from it and removes the tiles;
    [is_jiang] is what the hand is recorded under. *)
Fixpoint type_loop (add : Z → Z → list Z → option (Z * Z * list Z)) (reduce : Z → Z → list Z → option (Z * list Z))
    (rec : gen_state → option gen_state) (is_jiang : Z) (n : nat) (i : Z) (st : gen_state) : option gen_state :=
  match n with
  | O => Some st
  | S n' =>
      r ← (if 0 <? i then add i (gs_pai_count st) (gs_pai st) else Some (0, gs_pai_count st, gs_pai st));
      let '(ok, pc, pm) := r in
      st ← (if ok =? 1 then
              st ← record_hand is_jiang (set_pai st pc pm);
              st ← rec st;
              p ← reduce i (gs_pai_count st) (gs_pai st);
              Some (set_pai st p.1 p.2)
            else Some st);
      type_loop add reduce rec is_jiang n' (i + 1) st
  end.

Fixpoint get_hp_type_count (fuel : nat) (is_jiang : Z) (st : gen_state) : option gen_state :=
  match fuel with
  | O => None
  | S f =>
      st ← (if is_jiang =? 0 then type_loop add_jiang reduce_jiang (get_hp_type_count f 1) 1 9 1 st else Some st);
      st ← type_loop add_shunzi reduce_shunzi (get_hp_type_count f is_jiang) is_jiang 10 0 st;
      type_loop add_duizi reduce_duizi (get_hp_type_count f is_jiang) is_jiang 10 0 st
  end.

Definition no_pai : list Z := [0; 0; 0; 0; 0; 0; 0; 0; 0; 0].

(** A call adds at least two of at most fourteen tiles. *)
Definition gen_fuel : nat := 8.

(** The call of [create_hu_relation_hash]. *)
Definition hp_types : option gen_state :=
  get_hp_type_count gen_fuel 0 (mk_gen 0 0 no_pai [] 0 [] 0).

(** ** Relation *)

(** The two maps that are global in the file: [hu_type_father] and
    [dp_hu_type_map[2]], of whose entries only the keys are used. *)
Record rel_state := mk_rel { father : gmap Z (list Z); dp0 : gmap Z bool; dp1 : gmap Z bool }.

Definition get_dp (st : rel_state) (pos : Z) : gmap Z bool := if pos =? 0 then dp0 st else dp1 st.
Definition set_dp (st : rel_state) (pos : Z) (m : gmap Z bool) : rel_state :=
  if pos =? 0 then mk_rel (father st) m (dp1 st) else mk_rel (father st) (dp0 st) m.

(** The body of the loop of [jisuan_next_level_type] for a code [v]. *)
Definition add_father (pos num v : Z) (st : rel_state) : rel_state :=
  let st := set_dp st pos (<[v := true]> (get_dp st pos)) in
  mk_rel (<[v := default [] (father st !! v) ++ [num]]> (father st)) (dp0 st) (dp1 st).

Fixpoint next_loop (n : nat) (i pos num : Z) (pai_map : list Z) (st : rel_state) : option rel_state :=
  match n with
  | O => Some st
  | S n' =>
      x ← arr_get pai_map i;
      if 0 <? x then
        pm ← bump pai_map i (-1);
        v ← get_pai_hash_value pm;
        let st := add_father pos num v st in
        pm ← bump pm i 1;
        next_loop n' (i + 1) pos num pm st
      else next_loop n' (i + 1) pos num pai_map st
  end.

Definition jisuan_next_level_type (pos num : Z) (st : rel_state) : option rel_state :=
  r ← get_pai_value_by_num no_pai num;
  next_loop 9 1 pos num r.2 st.

Definition my_dp_limit : Z := 5.

(** The loop over a map in the order of the keys. *)
Fixpoint level_loop (l : list (Z * bool)) (next_pos : Z) (st : rel_state) : option rel_state :=
  match l with
  | [] => Some st
  | p :: l' => st ← jisuan_next_level_type next_pos p.1 st; level_loop l' next_pos st
  end.

Fixpoint get_paixing_hp_relation_by_dp (fuel : nat) (r_count : Z) (st : rel_state) : option rel_state :=
  match fuel with
  | O => None
  | S f =>
      if my_dp_limit <? r_count then Some st
      else
        let pos := Z.rem (r_count + 1) 2 in
        let next_pos := if 1 <? pos + 1 then 0 else pos + 1 in
        st ← level_loop (items (get_dp st pos)) next_pos st;
        get_paixing_hp_relation_by_dp f (r_count + 1) (set_dp st pos ∅)
  end.

(** The loop over the codes of an array. *)
Definition init_codes (hp_list : list Z) (st : rel_state) : rel_state :=
  foldl (λ st c, mk_rel (<[c := []]> (father st)) (<[c := true]> (dp0 st)) (dp1 st)) st hp_list.

Definition get_paixing_hp_relation (hp_list : list Z) (st : rel_state) : option rel_state :=
  get_paixing_hp_relation_by_dp 6 1 (init_codes hp_list st).

(** The two tables, for hands without and with a pair, and what is left in the
    global maps. *)
Definition create_hu_relation_hash (st : rel_state) : option (gmap Z (list Z) * gmap Z (list Z) * rel_state) :=
  g ← hp_types;
  st1 ← get_paixing_hp_relation (gs_hp g) st;
  st2 ← get_paixing_hp_relation (gs_jiang g) (mk_rel ∅ ∅ ∅);
  Some (father st1, father st2, st2).

Example code_test :
  get_pai_hash_value [0; 3; 0; 1; 0; 0; 2; 0; 0; 4] = Some 301002004 ∧
  get_pai_value_by_num no_pai 301002004 = Some (10, [0; 3; 0; 1; 0; 0; 2; 0; 0; 4]) ∧
  get_pai_hash_value_by_color (hand_of [21; 21; 21; 29]) 2 = Some 300000001.
Proof. vm_compute. auto. Qed.

Example relation_test :
  (st ← get_paixing_hp_relation [300000000; 1110000] (mk_rel ∅ ∅ ∅); father st !! 1000000) = Some [1010000; 1100000].
Proof. vm_compute. reflexivity. Qed.

(** ** Lemmas on codes *)

(** The number whose digits are [f 1] .. [f i]. *)
Fixpoint val (i : nat) (f : Z → Z) : Z :=
  match i with
  | O => 0
  | S i' => 10 * val i' f + f (Z.of_nat i)
  end.

(** The code of a hand of one suit. *)
Definition code (f : Z → Z) : Z := val 9 f.

Definition digits (i : nat) (f : Z → Z) : Prop := ∀ k, 1 <= k <= Z.of_nat i → 0 <= f k <= 9.

(** The array holds the digits. *)
Definition holds (i : nat) (pm : list Z) (f : Z → Z) : Prop := ∀ k, 1 <= k <= Z.of_nat i → arr_get pm k = Some (f k).

Lemma digits_S i f : digits (S i) f → digits i f ∧ 0 <= f (Z.of_nat (S i)) <= 9.
Proof. intros H. split; [intros k ?|]; apply H; lia. Qed.

Lemma val_range i f : digits i f → 0 <= val i f < 10 ^ Z.of_nat i.
Proof.
  induction i as [|i IH]; intros H; [done|]. apply digits_S in H as [H1 H2]. apply IH in H1.
  rewrite Nat2Z.inj_succ, Z.pow_succ_r by lia. cbn [val]. lia.
Qed.

Lemma val_ext i f g : (∀ k, 1 <= k <= Z.of_nat i → f k = g k) → val i f = val i g.
Proof. induction i as [|i IH]; intros H; [done|]. cbn [val]. rewrite IH, H by first [lia|intros; apply H; lia]. done. Qed.

Lemma val_inj i f g : digits i f → digits i g → val i f = val i g → ∀ k, 1 <= k <= Z.of_nat i → f k = g k.
Proof.
  induction i as [|i IH]; intros Hf Hg He k Hk; [lia|]. cbn [val] in He.
  apply digits_S in Hf as [Hf Hf1], Hg as [Hg Hg1]. destruct (Z.eq_dec k (Z.of_nat (S i))) as [->|]; [lia|].
  apply IH; [done..|lia|lia].
Qed.

Lemma hash_step x v h : 0 <= x <= 9 → 0 <= h < v → v <= 10 ^ 8 →
  (if x =? 0 then Some h else p ← chk32 (x * v); chk32 (h + p)) = Some (h + x * v).
Proof.
  intros. destruct (Z.eqb_spec x 0) as [->|]; [by rewrite Z.add_0_r|].
  rewrite chk32_some by (unfold INT_MIN, INT_MAX; nia). cbn [mbind option_bind].
  apply chk32_some. unfold INT_MIN, INT_MAX. nia.
Qed.

Lemma hash_loop_ok i pm f v h : holds i pm f → digits i f → v * 10 ^ Z.of_nat i = 10 ^ 9 → 0 <= h < v →
  hash_loop i pm v h = Some (h + v * val i f).
Proof.
  revert v h. induction i as [|i IH]; intros v h Hh Hd Hv Hr; cbn [hash_loop].
  - f_equal. cbn [val]. lia.
  - apply digits_S in Hd as [Hd Hx]. rewrite (Hh (Z.of_nat (S i))) by lia. cbn [mbind option_bind].
    rewrite Nat2Z.inj_succ, Z.pow_succ_r in Hv by lia. assert (0 < 10 ^ Z.of_nat i) by (apply Z.pow_pos_nonneg; lia).
    rewrite hash_step by nia. cbn [mbind option_bind]. rewrite chk32_some by (unfold INT_MIN, INT_MAX; nia).
    cbn [mbind option_bind]. rewrite IH; [|intros k ?; apply Hh; lia|done|lia|nia].
    f_equal. cbn [val]. lia.
Qed.

Lemma hash_value_ok pm f : holds 9 pm f → digits 9 f → get_pai_hash_value pm = Some (code f).
Proof. intros. unfold get_pai_hash_value. rewrite (hash_loop_ok 9 pm f); [|done..]. f_equal. unfold code. lia. Qed.

Lemma color_loop_ok i m s f v h :
  (∀ k, 1 <= k <= Z.of_nat i → num m (s + k) = f k) → digits i f → v * 10 ^ Z.of_nat i = 10 ^ 9 → 0 <= h < v →
  color_loop i m s v h = Some (h + v * val i f).
Proof.
  revert v h. induction i as [|i IH]; intros v h Hh Hd Hv Hr; cbn [color_loop].
  - f_equal. cbn [val]. lia.
  - apply digits_S in Hd as [Hd Hx]. rewrite Nat2Z.inj_succ, Z.pow_succ_r in Hv by lia.
    assert (0 < 10 ^ Z.of_nat i) by (apply Z.pow_pos_nonneg; lia).
    assert (Hs : match m !! (s + Z.of_nat (S i)) with Some x => p ← chk32 (x * v); chk32 (h + p) | None => Some h end =
      Some (h + f (Z.of_nat (S i)) * v)).
    { rewrite <- (Hh (Z.of_nat (S i))) in * by lia. unfold num in *. destruct (m !! _) as [x|]; simpl in *.
      - rewrite <- hash_step by nia. destruct (Z.eqb_spec x 0) as [->|]; [|done]. rewrite Z.mul_0_l. simpl.
        rewrite Z.add_0_r. apply chk32_some. unfold INT_MIN, INT_MAX. nia.
      - f_equal. lia. }
    rewrite Hs. cbn [mbind option_bind]. rewrite chk32_some by (unfold INT_MIN, INT_MAX; nia).
    cbn [mbind option_bind]. rewrite IH; [|intros k ?; apply Hh; lia|done|lia|nia]. f_equal. cbn [val]. lia.
Qed.

Lemma hash_color_ok m color f : (∀ k, 1 <= k <= 9 → num m (color * 10 + k) = f k) → digits 9 f →
  get_pai_hash_value_by_color m color = Some (code f).
Proof.
  intros. unfold get_pai_hash_value_by_color. rewrite (color_loop_ok 9 m _ f); [|done..]. f_equal. unfold code. lia.
Qed.

Lemma arr_get_set (pm : list Z) k x j : 0 <= k < Z.of_nat (length pm) →
  arr_get (<[Z.to_nat k := x]> pm) j = if j =? k then Some x else arr_get pm j.
Proof.
  intros Hk. unfold arr_get. destruct (Z.eqb_spec j k) as [->|].
  - zcases. apply list_lookup_insert_eq. lia.
  - zcases; [|done]. apply list_lookup_insert_ne. lia.
Qed.

Lemma val_rem i f : digits (S i) f → Z.rem (val (S i) f) 10 = f (Z.of_nat (S i)) ∧ Z.quot (val (S i) f) 10 = val i f.
Proof.
  intros H. apply digits_S in H as [H1 H2]. apply val_range in H1. cbn [val].
  set (x := f (Z.of_nat (S i))) in *. set (y := val i f) in *. clearbody x y. dlia.
Qed.

Lemma val_zero i f : digits i f → val i f = 0 → ∀ k, 1 <= k <= Z.of_nat i → f k = 0.
Proof.
  intros Hd H0 k Hk. apply (val_inj i f (λ _, 0)); [done|by intros ? ?| |done]. rewrite H0. clear.
  induction i; simpl in *; lia.
Qed.

Lemma num_loop_ok i pm f c : length pm = 10%nat → (i <= 9)%nat → digits i f → holds i pm (λ _, 0) →
  (0 < i)%nat →
  ∃ c' pm', num_loop i pm (val i f) c = Some (c', pm') ∧ length pm' = 10%nat ∧ holds i pm' f ∧
    ∀ k, Z.of_nat i < k → arr_get pm' k = arr_get pm k.
Proof.
  revert pm c. induction i as [|i IH]; intros pm c Hl Hi Hd H0 Hpos; [lia|]. cbn [num_loop].
  destruct (val_rem i f Hd) as [-> ->]. rewrite arr_set_some by lia. cbn [mbind option_bind].
  pose proof (digits_S _ _ Hd) as [Hd' Hx].
  set (pm1 := <[_ := _]> pm).
  assert (G : ∀ j, arr_get pm1 j = if j =? Z.of_nat (S i) then Some (f (Z.of_nat (S i))) else arr_get pm j).
  { intros j. apply arr_get_set. lia. }
  assert (Hl1 : length pm1 = 10%nat) by (unfold pm1; by rewrite length_insert).
  destruct (Z.eqb_spec (val i f) 0) as [Hz|Hz].
  - eexists _, pm1. split_and!; [done..| |].
    + intros k Hk. rewrite G. zcases; [by subst|]. rewrite (val_zero i f Hd' Hz) by lia. apply H0. lia.
    + intros k Hk. rewrite G. zcases. done.
  - destruct i as [|i]; [done|].
    destruct (IH pm1 (c + f (Z.of_nat (S (S i))))) as (c' & pm' & -> & Hl' & Hh & Hk); [done|lia|done| |lia|].
    { intros k Hk. rewrite G. zcases. apply H0. lia. }
    eexists _, pm'. split_and!; [done..| |].
    + intros k Hk'. destruct (Z.eq_dec k (Z.of_nat (S (S i)))) as [->|]; [|apply Hh; lia].
      rewrite Hk by lia. rewrite G. by rewrite Z.eqb_refl.
    + intros k Hk'. rewrite Hk by lia. rewrite G. zcases. done.
Qed.

(** The array of a code. *)
Lemma value_by_num_ok f : digits 9 f →
  ∃ c pm, get_pai_value_by_num no_pai (code f) = Some (c, pm) ∧ length pm = 10%nat ∧ holds 9 pm f.
Proof.
  intros Hd. destruct (num_loop_ok 9 no_pai f 0) as (c & pm & ? & ? & ? & ?); [done|lia|done| |lia|eauto].
  intros k Hk. assert (Hc : k = 1 ∨ k = 2 ∨ k = 3 ∨ k = 4 ∨ k = 5 ∨ k = 6 ∨ k = 7 ∨ k = 8 ∨ k = 9) by lia.
  destruct_or? Hc; by subst.
Qed.

(** ** Reference enumeration

    A hand of one suit is built from a list of items on the tiles 1 to 9. *)

Definition rank_item (it : PaiItem) : Prop :=
  1 <= pai_type it <= 9 ∧ (type it = 1 ∨ type it = 2 ∨ (type it = 3 ∧ pai_type it <= 7)).
#[global] Instance rank_item_dec it : Decision (rank_item it).
Proof. unfold rank_item. apply _. Defined.

(** The number of tiles. *)
Definition tile_count (l : list PaiItem) : Z := 3 * Z.of_nat (length l) - pairs l.

(** No more than one pair, four equal tiles and fourteen tiles. *)
Definition legal (l : list PaiItem) : Prop :=
  Forall rank_item l ∧ pairs l <= 1 ∧ Forall (λ k, occ (tiles_of l) k <= 4) (seqZ 1 9) ∧ tile_count l <= 14.
#[global] Instance legal_dec l : Decision (legal l).
Proof. unfold legal. apply _. Defined.

Definition candidates : list PaiItem :=
  (mk_item 1 <$> seqZ 1 9) ++ (mk_item 3 <$> seqZ 1 9) ++ (mk_item 2 <$> seqZ 1 9).

(** The hands that extend [l], depth first. *)
Fixpoint enum (f : nat) (l : list PaiItem) : list (list PaiItem) :=
  match f with
  | O => []
  | S f' => candidates ≫= λ it, if decide (legal (l ++ [it])) then (l ++ [it]) :: enum f' (l ++ [it]) else []
  end.

(** *** Legal hands *)

Lemma tiles_snoc l it s : occ (tiles_of (l ++ [it])) s = occ (tiles_of l) s + occ (item_tiles it) s.
Proof. unfold tiles_of. rewrite bind_app, occ_app. cbn [mbind list_bind]. by rewrite app_nil_r. Qed.

Lemma pairs_app l l' : pairs (l ++ l') = pairs l + pairs l'.
Proof. unfold pairs. rewrite filter_app, length_app. lia. Qed.

Lemma pairs_nonneg l : 0 <= pairs l.
Proof. unfold pairs. lia. Qed.

Lemma pairs_snoc l it : pairs (l ++ [it]) = pairs l + is_pair it.
Proof. rewrite pairs_app, pairs_cons. change (pairs []) with 0. lia. Qed.

Lemma tile_count_snoc l it : tile_count (l ++ [it]) = tile_count l + (3 - is_pair it).
Proof. unfold tile_count. rewrite pairs_snoc, length_app. cbn [length]. lia. Qed.

Lemma tile_count_nonneg l : 0 <= tile_count l.
Proof.
  unfold tile_count, pairs. pose proof (length_filter (λ it, type it = 1) l). lia.
Qed.

Lemma legal_prefix l l' : legal (l ++ l') → legal l.
Proof.
  intros (Hr & Hp & Ho & Ht). apply Forall_app in Hr as [Hr Hr']. rewrite pairs_app in Hp. pose proof (pairs_nonneg l').
  split_and!; [done|lia| |].
  - eapply Forall_impl; [done|]. intros k. cbn beta. unfold tiles_of. rewrite bind_app, occ_app.
    pose proof (occ_nonneg (l' ≫= item_tiles) k). lia.
  - pose proof (tile_count_nonneg l'). unfold tile_count in *. rewrite pairs_app, length_app in Ht. lia.
Qed.

(** What a further item needs. *)
Lemma legal_snoc l it : legal l →
  legal (l ++ [it]) ↔ rank_item it ∧ pairs l + is_pair it <= 1 ∧ tile_count l + (3 - is_pair it) <= 14 ∧
    ∀ k, 1 <= k <= 9 → occ (tiles_of l) k + occ (item_tiles it) k <= 4.
Proof.
  intros (Hr & Hp & Ho & Ht). unfold legal. rewrite pairs_snoc, tile_count_snoc, Forall_app, Forall_singleton, (Forall_forall _ (seqZ 1 9)).
  split.
  - intros ((_ & ?) & ? & Ho' & ?). split_and!; try done. intros k Hk. rewrite <- tiles_snoc. apply Ho', elem_of_seqZ. lia.
  - intros (? & ? & ? & Ho'). split_and!; try done. intros k Hk. apply elem_of_seqZ in Hk. rewrite tiles_snoc. apply Ho'. lia.
Qed.

Lemma legal_occ l k : legal l → 1 <= k <= 9 → 0 <= occ (tiles_of l) k <= 4.
Proof.
  intros (_ & _ & Ho & _) Hk. split; [apply occ_nonneg|]. rewrite Forall_forall in Ho. apply Ho, elem_of_seqZ. lia.
Qed.

Lemma legal_digits l : legal l → digits 9 (occ (tiles_of l)).
Proof. intros Hl k Hk. pose proof (legal_occ l k Hl). lia. Qed.

Lemma elem_of_candidates it : rank_item it → it ∈ candidates.
Proof.
  destruct it as [ty k]. intros [Hk Hty]. cbn in *. unfold candidates. rewrite !elem_of_app, !list_elem_of_fmap.
  assert (k ∈ seqZ 1 9) by (apply elem_of_seqZ; lia). destruct Hty as [-> | [-> | [-> _]]]; eauto 10.
Qed.

Lemma enum_exact f l h : legal l → 14 - tile_count l < 2 * Z.of_nat f →
  h ∈ enum f l ↔ ∃ ext, ext ≠ [] ∧ h = l ++ ext ∧ legal h.
Proof.
  revert l. induction f as [|f IH]; intros l Hl Hf.
  { destruct Hl as (_ & _ & _ & Ht). lia. }
  cbn [enum]. rewrite list_elem_of_bind. split.
  - intros (it & Hh & Hc). case_decide as Hlit; [|by apply not_elem_of_nil in Hh].
    apply elem_of_cons in Hh as [->|Hh]; [exists [it]; by auto|].
    apply IH in Hh as (ext & _ & -> & Hx); [|done|].
    + exists (it :: ext). rewrite <- app_assoc. split_and!; [done..|]. by rewrite <- app_assoc in Hx.
    + rewrite tile_count_snoc. pose proof (is_pair_range it). lia.
  - intros (ext & Hne & -> & Hx). destruct ext as [|it ext]; [done|]. exists it.
    assert (Hlit : legal (l ++ [it])) by (apply (legal_prefix _ ext); by rewrite <- app_assoc).
    split; [|apply elem_of_candidates; destruct Hlit as [Hr _]; apply Forall_app in Hr as [_ Hr]; by inversion Hr].
    rewrite decide_True by done. destruct ext as [|it2 ext]; [left|right].
    apply IH; [done| |].
    + rewrite tile_count_snoc. pose proof (is_pair_range it). lia.
    + exists (it2 :: ext). rewrite <- app_assoc. auto.
Qed.

(** ** The enumeration of the code *)

(** The tiles of [l] in the array and the counter. *)
Definition corr (l : list PaiItem) (pc : Z) (pm : list Z) : Prop :=
  length pm = 10%nat ∧ holds 9 pm (occ (tiles_of l)) ∧ pc = tile_count l.

(** What the loop of [get_hp_type_count] needs of a pair of functions that add
    and remove an item of kind [ty]. *)
Class Adder (ty : Z) (add : Z → Z → list Z → option (Z * Z * list Z)) (reduce : Z → Z → list Z → option (Z * list Z)) := {
  add_ok l k pc pm : legal l → corr l pc pm → 1 <= k <= 9 → (ty = 1 → pairs l = 0) →
    ∃ ok pc' pm', add k pc pm = Some (ok, pc', pm') ∧
      ((ok = 1 ∧ legal (l ++ [mk_item ty k]) ∧ corr (l ++ [mk_item ty k]) pc' pm') ∨
       (ok = 0 ∧ ¬ legal (l ++ [mk_item ty k])));
  reduce_ok l k pc pm : legal (l ++ [mk_item ty k]) → corr (l ++ [mk_item ty k]) pc pm → 1 <= k <= 9 →
    ∃ pc' pm', reduce k pc pm = Some (pc', pm') ∧ corr l pc' pm'
}.

Lemma room_ok pm f i d : holds 9 pm f → 1 <= i <= 9 → room pm i d = Some (f i + d <? 5).
Proof. intros H Hi. unfold room. rewrite (H i) by lia. done. Qed.

Lemma bump_ok pm f i d : length pm = 10%nat → holds 9 pm f → 1 <= i <= 9 →
  ∃ pm', bump pm i d = Some pm' ∧ length pm' = 10%nat ∧ holds 9 pm' (λ k, f k + if i =? k then d else 0).
Proof.
  intros Hl H Hi. unfold bump. rewrite (H i) by lia. cbn [mbind option_bind]. rewrite arr_set_some by lia.
  eexists. split_and!; [done|by rewrite length_insert|]. intros k Hk. rewrite arr_get_set by lia.
  destruct (Z.eqb_spec k i) as [->|]; [by rewrite Z.eqb_refl|]. rewrite (H k) by lia. f_equal. zcases.
Qed.

Lemma bump3_ok pm f i d : length pm = 10%nat → holds 9 pm f → 1 <= i <= 7 →
  ∃ pm', bump3 pm i d = Some pm' ∧ length pm' = 10%nat ∧ holds 9 pm' (λ k, f k + d * occ [i; i + 1; i + 2] k).
Proof.
  intros Hl H Hi. unfold bump3.
  destruct (bump_ok pm f i d) as (pm1 & -> & Hl1 & H1); [done..|lia|]. cbn [mbind option_bind].
  destruct (bump_ok pm1 _ (i + 1) d Hl1 H1) as (pm2 & -> & Hl2 & H2); [lia|]. cbn [mbind option_bind].
  destruct (bump_ok pm2 _ (i + 2) d Hl2 H2) as (pm3 & -> & Hl3 & H3); [lia|].
  eexists. split_and!; [done..|]. intros k Hk. rewrite H3 by done. f_equal. cbn [occ]. zcases; lia.
Qed.

Lemma hu_holds_ext i pm f g : (∀ k, 1 <= k <= Z.of_nat i → f k = g k) → holds i pm f → holds i pm g.
Proof. intros He H k Hk. rewrite <- He by done. by apply H. Qed.

(** From the array after a change to the changed list. *)
Lemma corr_snoc l it pm pc f : length pm = 10%nat → holds 9 pm f → pc = tile_count l + (3 - is_pair it) →
  (∀ k, 1 <= k <= 9 → f k = occ (tiles_of l) k + occ (item_tiles it) k) → corr (l ++ [it]) pc pm.
Proof.
  intros Hl Hh -> Hf. split_and!; [done| |by rewrite tile_count_snoc].
  eapply hu_holds_ext; [|done]. intros k Hk. rewrite tiles_snoc. apply Hf. lia.
Qed.

Lemma corr_unsnoc l it pm pc f : length pm = 10%nat → holds 9 pm f → pc = tile_count (l ++ [it]) - (3 - is_pair it) →
  (∀ k, 1 <= k <= 9 → f k = occ (tiles_of (l ++ [it])) k - occ (item_tiles it) k) → corr l pc pm.
Proof.
  intros Hl Hh -> Hf. split_and!; [done| |rewrite tile_count_snoc; lia].
  eapply hu_holds_ext; [|done]. intros k Hk. rewrite Hf by lia. rewrite tiles_snoc. lia.
Qed.

Ltac item_simpl := cbn [item_tiles is_pair type pai_type Z.eqb Pos.eqb occ] in *.

(** The tests and the change of an array decide the two outcomes of an [add]. *)
Lemma add_outcome l it (b : bool) pm f pc (r : option (list Z)) :
  legal l → (b = true ↔ legal (l ++ [it])) → pc = tile_count l + (3 - is_pair it) →
  (b = true → ∃ pm', r = Some pm' ∧ length pm' = 10%nat ∧ holds 9 pm' f) →
  (∀ k, 1 <= k <= 9 → f k = occ (tiles_of l) k + occ (item_tiles it) k) →
  ∃ ok pc' pm', (if b then pm ← r; Some (1, pc, pm) else Some (0, tile_count l, pm)) = Some (ok, pc', pm') ∧
    ((ok = 1 ∧ legal (l ++ [it]) ∧ corr (l ++ [it]) pc' pm') ∨ (ok = 0 ∧ ¬ legal (l ++ [it]))).
Proof.
  intros Hl Hb -> Hr Hf. destruct b.
  - destruct Hr as (pm' & -> & Hlen & Hh); [done|]. eexists _, _, _. split; [done|]. left.
    split_and!; [done|by apply Hb|]. by eapply corr_snoc.
  - eexists _, _, _. split; [done|]. right. split; [done|]. intros H. by apply Hb in H.
Qed.

(** Items on one tile. *)
Lemma legal_same l ty k : ty = 1 ∨ ty = 2 → legal l → 1 <= k <= 9 → (ty = 1 → pairs l = 0) →
  (tile_count l + (ty + 1) <? 15) && (occ (tiles_of l) k + (ty + 1) <? 5) = true ↔ legal (l ++ [mk_item ty k]).
Proof.
  intros Hty Hl Hk Hp. rewrite legal_snoc, andb_true_iff, !Z.ltb_lt by done. pose proof Hl as (_ & Hp1 & _).
  assert (Ho : ∀ k', occ (item_tiles (mk_item ty k)) k' = if k =? k' then ty + 1 else 0).
  { intros k'. destruct Hty as [-> | ->]; item_simpl; zcases; lia. }
  assert (Hi : is_pair (mk_item ty k) = 2 - ty) by (destruct Hty as [-> | ->]; done).
  rewrite Hi. split.
  - intros [H1 H2]. split_and!; [|destruct Hty; subst; lia..|].
    + split; [done|]. cbn. tauto.
    + intros k' Hk'. rewrite Ho. pose proof (legal_occ l k' Hl Hk'). zcases; subst; lia.
  - intros (_ & _ & H1 & H2). specialize (H2 k Hk). rewrite Ho, Z.eqb_refl in H2. lia.
Qed.

Lemma add_same l ty k pm : ty = 1 ∨ ty = 2 → legal l → length pm = 10%nat → holds 9 pm (occ (tiles_of l)) →
  1 <= k <= 9 → (ty = 1 → pairs l = 0) →
  ∃ ok pc' pm',
    (if tile_count l + (ty + 1) <? 15 then
       b ← room pm k (ty + 1);
       if b : bool then pm ← bump pm k (ty + 1); Some (1, tile_count l + (ty + 1), pm) else Some (0, tile_count l, pm)
     else Some (0, tile_count l, pm)) = Some (ok, pc', pm') ∧
    ((ok = 1 ∧ legal (l ++ [mk_item ty k]) ∧ corr (l ++ [mk_item ty k]) pc' pm') ∨
     (ok = 0 ∧ ¬ legal (l ++ [mk_item ty k]))).
Proof.
  intros Hty Hl Hlen Hh Hk Hp. rewrite (room_ok _ _ _ _ Hh Hk). cbn [mbind option_bind].
  destruct (add_outcome l (mk_item ty k) ((tile_count l + (ty + 1) <? 15) && (occ (tiles_of l) k + (ty + 1) <? 5)) pm (λ k', occ (tiles_of l) k' + if k =? k' then ty + 1 else 0)
    (tile_count l + (ty + 1)) (bump pm k (ty + 1)) Hl) as (ok & pc' & pm' & Hr & Hd).
  - by apply legal_same.
  - destruct Hty as [-> | ->]; item_simpl; lia.
  - intros _. by apply bump_ok.
  - intros k' Hk'. destruct Hty as [-> | ->]; item_simpl; zcases; lia.
  - exists ok, pc', pm'. split; [|done]. rewrite <- Hr. by destruct (_ <? 15), (_ <? 5).
Qed.

#[global] Instance jiang_adder : Adder 1 add_jiang reduce_jiang.
Proof.
  split.
  - intros l k pc pm Hl (Hlen & Hh & ->) Hk Hp. apply (add_same l 1); auto.
  - intros l k pc pm Hl (Hlen & Hh & ->) Hk. unfold reduce_jiang.
    destruct (bump_ok pm _ k (-2) Hlen Hh Hk) as (pm' & -> & Hl' & Hh'). eexists _, _. split; [done|].
    eapply (corr_unsnoc l (mk_item 1 k)); [done..|]. intros k' Hk'. item_simpl. zcases; lia.
Qed.

#[global] Instance duizi_adder : Adder 2 add_duizi reduce_duizi.
Proof.
  split.
  - intros l k pc pm Hl (Hlen & Hh & ->) Hk Hp. apply (add_same l 2); auto.
  - intros l k pc pm Hl (Hlen & Hh & ->) Hk. unfold reduce_duizi.
    destruct (bump_ok pm _ k (-3) Hlen Hh Hk) as (pm' & -> & Hl' & Hh'). eexists _, _. split; [done|].
    eapply (corr_unsnoc l (mk_item 2 k)); [done..|]. intros k' Hk'. item_simpl. zcases; lia.
Qed.

Lemma legal_row l k : legal l → 1 <= k <= 7 →
  (tile_count l + 3 <? 15) && (occ (tiles_of l) k + 1 <? 5) && (occ (tiles_of l) (k + 1) + 1 <? 5) &&
    (occ (tiles_of l) (k + 2) + 1 <? 5) = true ↔ legal (l ++ [mk_item 3 k]).
Proof.
  intros Hl Hk. rewrite legal_snoc, !andb_true_iff, !Z.ltb_lt by done. pose proof Hl as (_ & Hp1 & _). item_simpl. split.
  - intros [[[H1 H2] H3] H4]. split_and!; [|lia..|].
    + split; cbn; [lia|]. right; right. lia.
    + intros k' Hk'. pose proof (legal_occ l k' Hl Hk'). zcases; subst; lia.
  - intros (_ & _ & H1 & H2). pose proof (H2 k) as Ha. pose proof (H2 (k + 1)) as Hb. pose proof (H2 (k + 2)) as Hc.
    rewrite ?Z.eqb_refl in Ha, Hb, Hc. revert Ha Hb Hc. zcases; lia.
Qed.

#[global] Instance shunzi_adder : Adder 3 add_shunzi reduce_shunzi.
Proof.
  split.
  - intros l k pc pm Hl (Hlen & Hh & ->) Hk _. unfold add_shunzi. destruct (Z.ltb_spec k 8); cbn [andb].
    + assert (Hk7 : 1 <= k <= 7) by lia. rewrite !(room_ok _ _ _ _ Hh) by lia. cbn [mbind option_bind].
      destruct (add_outcome l (mk_item 3 k) ((tile_count l + 3 <? 15) && (occ (tiles_of l) k + 1 <? 5) &&
        (occ (tiles_of l) (k + 1) + 1 <? 5) && (occ (tiles_of l) (k + 2) + 1 <? 5)) pm (λ k', occ (tiles_of l) k' + 1 * occ [k; k + 1; k + 2] k')
        (tile_count l + 3) (bump3 pm k 1) Hl) as (ok & pc' & pm' & Hr & Hd);
        [by apply legal_row|done|intros _; by apply bump3_ok|intros; item_simpl; lia|].
      exists ok, pc', pm'. split; [|done]. rewrite <- Hr. rewrite <- !andb_assoc.
      destruct (tile_count l + 3 <? 15), (_ + 1 <? 5), (_ + 1 <? 5), (_ + 1 <? 5); done.
    + eexists _, _, _. split; [done|]. right. split; [done|]. rewrite legal_snoc by done.
      intros ([_ Hr] & _). cbn in Hr. lia.
  - intros l k pc pm Hl (Hlen & Hh & ->) Hk. unfold reduce_shunzi.
    assert (Hk7 : k <= 7). { destruct Hl as [Hr _]. apply Forall_app in Hr as [_ Hr]. inversion_clear Hr as [|? ? [_ Hr'] _]. cbn in Hr'. lia. }
    destruct (bump3_ok pm _ k (-1) Hlen Hh) as (pm' & -> & Hl' & Hh'); [lia|]. eexists _, _. split; [done|].
    eapply (corr_unsnoc l (mk_item 3 k)); [done..|]. intros k' Hk'. item_simpl. lia.
Qed.

(** *** Runs that write codes *)

Definition hand_code (h : list PaiItem) : Z := code (occ (tiles_of h)).

(** The codes of the hands with [q] pairs. *)
Definition codes (q : Z) (hs : list (list PaiItem)) : list Z := hand_code <$> filter (λ h, pairs h = q) hs.

Lemma codes_app q hs hs' : codes q (hs ++ hs') = codes q hs ++ codes q hs'.
Proof. unfold codes. by rewrite filter_app, fmap_app. Qed.

Definition at_hand (l : list PaiItem) (st : gen_state) : Prop :=
  corr l (gs_pai_count st) (gs_pai st) ∧ gs_hp_count st = Z.of_nat (length (gs_hp st)) ∧
  gs_jiang_count st = Z.of_nat (length (gs_jiang st)).

(** The hands [hs] have been recorded. *)
Definition grown (l : list PaiItem) (st st' : gen_state) (hs : list (list PaiItem)) : Prop :=
  at_hand l st' ∧ gs_hp st' = gs_hp st ++ codes 0 hs ∧ gs_jiang st' = gs_jiang st ++ codes 1 hs ∧
  gs_count st' = gs_count st + Z.of_nat (length hs).

Definition room_for (st : gen_state) (hs : list (list PaiItem)) : Prop :=
  Z.of_nat (length (gs_hp st)) + Z.of_nat (length (codes 0 hs)) <= HP_LIST_SIZE ∧
  Z.of_nat (length (gs_jiang st)) + Z.of_nat (length (codes 1 hs)) <= HP_LIST_SIZE.

Definition emits (run : gen_state → option gen_state) (l : list PaiItem) (hs : list (list PaiItem)) : Prop :=
  ∀ st, at_hand l st → room_for st hs → ∃ st', run st = Some st' ∧ grown l st st' hs.

Lemma emits_nil l : emits Some l [].
Proof. intros st Ha _. exists st. split; [done|]. split_and!; [done| | |simpl; lia]; by rewrite app_nil_r. Qed.

Lemma emits_seq r1 r2 l h1 h2 : emits r1 l h1 → emits r2 l h2 → emits (λ st, st ← r1 st; r2 st) l (h1 ++ h2).
Proof.
  intros H1 H2 st Ha [Hr0 Hr1]. rewrite !codes_app, !length_app in Hr0, Hr1.
  destruct (H1 st Ha) as (st1 & -> & Ha1 & E0 & E1 & Ec); [split; lia|]. cbn [mbind option_bind].
  destruct (H2 st1 Ha1) as (st2 & -> & Ha2 & F0 & F1 & Fc); [split; rewrite ?E0, ?E1, length_app; lia|].
  exists st2. split; [done|]. split_and!; [done|..].
  - by rewrite F0, E0, codes_app, app_assoc.
  - by rewrite F1, E1, codes_app, app_assoc.
  - rewrite Fc, Ec, length_app. lia.
Qed.

Lemma emits_ext r1 r2 l hs : (∀ st, r1 st = r2 st) → emits r1 l hs → emits r2 l hs.
Proof. intros He H st Ha Hr. destruct (H st Ha Hr) as (st' & Hs & Hg). exists st'. by rewrite <- He. Qed.

Lemma codes_single q l : codes q [l] = if decide (pairs l = q) then [hand_code l] else [].
Proof. unfold codes. rewrite filter_cons, filter_nil. by case_decide. Qed.

Lemma put_code_ok l n v : n = Z.of_nat (length l) → Z.of_nat (length l) + 1 <= HP_LIST_SIZE →
  put_code l n v = Some (l ++ [v], Z.of_nat (length (l ++ [v]))).
Proof.
  intros -> Hn. unfold put_code. rewrite Z.eqb_refl, (proj2 (Z.ltb_lt _ _)) by lia. cbn [andb].
  rewrite length_app. do 2 f_equal. cbn [length]. lia.
Qed.

Lemma record_ok l : legal l → emits (record_hand (pairs l)) l [l].
Proof.
  intros Hl st (Hcorr & Hc0 & Hc1) [Hr0 Hr1]. unfold record_hand. destruct Hcorr as (Hlen & Hh & Hpc).
  rewrite (hash_value_ok _ _ Hh) by (by apply legal_digits). cbn [mbind option_bind]. fold (hand_code l).
  assert (Hp : pairs l = 0 ∨ pairs l = 1) by (pose proof (pairs_nonneg l); destruct Hl as (_ & ? & _); lia).
  unfold grown. rewrite !codes_single in *. destruct Hp as [Hp|Hp]; rewrite Hp in *; cbn [Z.eqb Pos.eqb].
  - rewrite decide_True, decide_False in * by done. cbn [length] in *. rewrite put_code_ok by (done || lia).
    eexists. split; [done|]. cbn. rewrite app_nil_r. done.
  - rewrite decide_False, decide_True in * by done. cbn [length] in *. rewrite put_code_ok by (done || lia).
    eexists. split; [done|]. cbn. rewrite app_nil_r. done.
Qed.

(** A round that adds an item, and the loop over the tiles. *)
Section loop.
Context {ty : Z} {add : Z → Z → list Z → option (Z * Z * list Z)} {reduce : Z → Z → list Z → option (Z * list Z)}.
Context `{!Adder ty add reduce}.
Context (rec : gen_state → option gen_state) (l : list PaiItem) (E : PaiItem → list (list PaiItem)) (j : Z).
Context (Hl : legal l) (Hj : ∀ k, j = pairs (l ++ [mk_item ty k])) (Hty : ty = 1 → pairs l = 0).
Context (Hrec : ∀ k, legal (l ++ [mk_item ty k]) → emits rec (l ++ [mk_item ty k]) (E (mk_item ty k))).

Definition extensions (it : PaiItem) : list (list PaiItem) :=
  if decide (legal (l ++ [it])) then (l ++ [it]) :: E it else [].

Lemma round_emits k : 1 <= k <= 9 →
  emits (λ st,
    r ← add k (gs_pai_count st) (gs_pai st);
    let '(ok, pc, pm) := r in
    if ok =? 1 then
      st ← record_hand j (set_pai st pc pm);
      st ← rec st;
      p ← reduce k (gs_pai_count st) (gs_pai st);
      Some (set_pai st p.1 p.2)
    else Some st) l (extensions (mk_item ty k)).
Proof.
  intros Hk st (Hc & Hc0 & Hc1). unfold extensions.
  destruct (add_ok l k _ _ Hl Hc Hk Hty) as (ok & pc & pm & -> & [(-> & Hlit & Hcorr)|[-> Hn]]); cbn [mbind option_bind Z.eqb Pos.eqb].
  - rewrite decide_True by done. intros Hroom.
    destruct (emits_seq _ _ _ _ _ (record_ok _ Hlit) (Hrec k Hlit) (set_pai st pc pm)) as (st' & Hrun & Hg); [done..|].
    rewrite <- (Hj k) in Hrun. destruct (record_hand j _) as [st1|]; [|done]. cbn [mbind option_bind] in *.
    rewrite Hrun. cbn [mbind option_bind]. destruct Hg as ((Hc' & D0 & D1) & G0 & G1 & Gc).
    destruct (reduce_ok l k _ _ Hlit Hc' Hk) as (pc' & pm' & -> & Hcorr'). eexists. split; [done|]. done.
  - rewrite decide_False by done. intros _. exists st. split; [done|]. split_and!; try done; rewrite ?app_nil_r; try done. cbn. lia.
Qed.

Lemma loop_emits n i : 1 <= i → i + Z.of_nat n <= 10 →
  emits (type_loop add reduce rec j n i) l ((mk_item ty <$> seqZ i (Z.of_nat n)) ≫= extensions).
Proof.
  revert i. induction n as [|n IH]; intros i Hi Hn; [apply emits_nil|].
  rewrite seqZ_cons by lia. cbn [fmap list_fmap mbind list_bind].
  replace (Z.pred (Z.of_nat (S n))) with (Z.of_nat n) by lia. replace (Z.succ i) with (i + 1) by lia.
  eapply emits_ext; [|apply emits_seq; [apply (round_emits i); lia|apply (IH (i + 1)); lia]].
  intros st. cbn [type_loop]. rewrite (proj2 (Z.ltb_lt 0 i)) by lia.
  destruct (add i (gs_pai_count st) (gs_pai st)) as [[[ok pc] pm]|]; done.
Qed.

(** The loops that start at 0 skip it. *)
Lemma loop0_emits : emits (type_loop add reduce rec j 10 0) l ((mk_item ty <$> seqZ 1 9) ≫= extensions).
Proof. apply (loop_emits 9 1); lia. Qed.
End loop.

Lemma bind_all_nil {A B} (g : A → list B) l : (∀ x, x ∈ l → g x = []) → l ≫= g = [].
Proof. induction l as [|x l IH]; intros H; [done|]. cbn. rewrite H by set_solver. apply IH. set_solver. Qed.

Lemma get_hp_emits f l : legal l → 14 - tile_count l < 2 * Z.of_nat f → emits (get_hp_type_count f (pairs l)) l (enum f l).
Proof.
  revert l. induction f as [|f IH]; intros l Hl Hf; [destruct Hl as (_ & _ & _ & ?); lia|].
  assert (Hrec : ∀ it, legal (l ++ [it]) → emits (get_hp_type_count f (pairs (l ++ [it]))) (l ++ [it]) (enum f (l ++ [it]))).
  { intros it Hit. apply IH; [done|]. rewrite tile_count_snoc. pose proof (is_pair_range it). lia. }
  assert (Hp : pairs l = 0 ∨ pairs l = 1) by (pose proof (pairs_nonneg l); destruct Hl as (_ & ? & _); lia).
  cbn [enum]. unfold candidates. rewrite !bind_app. cbn [get_hp_type_count].
  apply (emits_seq (λ st, if pairs l =? 0 then type_loop add_jiang reduce_jiang (get_hp_type_count f 1) 1 9 1 st else Some st)).
  - destruct Hp as [Hp|Hp]; rewrite Hp; cbn [Z.eqb].
    + apply (loop_emits (ty := 1) _ l (λ it, enum f (l ++ [it])) 1 Hl); try lia.
      * intros k. rewrite pairs_snoc, Hp. done.
      * intros k Hk. specialize (Hrec _ Hk). by rewrite pairs_snoc, Hp in Hrec.
    + rewrite bind_all_nil; [apply emits_nil|]. intros it (k & -> & _)%list_elem_of_fmap. rewrite decide_False; [done|].
      rewrite legal_snoc, Hp by done. item_simpl. lia.
  - apply emits_seq.
    + apply (loop0_emits (ty := 3) _ l (λ it, enum f (l ++ [it])) (pairs l) Hl); try lia.
      * intros k. rewrite pairs_snoc. item_simpl. lia.
      * intros k Hk. specialize (Hrec _ Hk). rewrite pairs_snoc in Hrec. item_simpl. by rewrite Z.add_0_r in Hrec.
    + apply (loop0_emits (ty := 2) _ l (λ it, enum f (l ++ [it])) (pairs l) Hl); try lia.
      * intros k. rewrite pairs_snoc. item_simpl. lia.
      * intros k Hk. specialize (Hrec _ Hk). rewrite pairs_snoc in Hrec. item_simpl. by rewrite Z.add_0_r in Hrec.
Qed.

(** ** How many hands there are

    The pair and the sets of equal tiles lie on different tiles, which bounds
    the choices at every step. *)

Definition heads (l : list PaiItem) : list Z := pai_type <$> filter (λ it, type it ≠ 3) l.

Lemma heads_snoc l it : heads (l ++ [it]) = heads l ++ (if decide (type it ≠ 3) then [pai_type it] else []).
Proof. unfold heads. rewrite filter_app, fmap_app, filter_cons, filter_nil. by case_decide. Qed.

Lemma occ_elem l it s : it ∈ l → occ (item_tiles it) s <= occ (tiles_of l) s.
Proof.
  intros (l1 & l2 & ->)%list_elem_of_split. unfold tiles_of. rewrite bind_app, occ_app. cbn [mbind list_bind].
  rewrite occ_app. pose proof (occ_nonneg (l1 ≫= item_tiles) s). pose proof (occ_nonneg (l2 ≫= item_tiles) s).
  unfold mbind in *. lia.
Qed.

Lemma heads_new l it : legal (l ++ [it]) → type it ≠ 3 → pai_type it ∉ heads l.
Proof.
  intros Hl Hty Hin. apply list_elem_of_fmap in Hin as (it' & Heq & Hin). apply list_elem_of_filter in Hin as [Hty' Hin].
  pose proof (legal_prefix _ _ Hl) as Hl1. apply legal_snoc in Hl as (Hr & Hp & _ & Ho); [|done].
  specialize (Ho (pai_type it)). pose proof (occ_elem l it' (pai_type it) Hin) as Hocc.
  destruct Hl1 as (Hrl & _). rewrite Forall_forall in Hrl. destruct (Hrl _ Hin) as [_ Hk'], Hr as [Hk Hr].
  destruct it as [ty k], it' as [ty' k']. cbn [type pai_type] in *. subst k'. specialize (Ho Hk).
  assert (Hpl : ty' = 1 → 1 <= pairs l).
  { intros ->. apply list_elem_of_split in Hin as (l1 & l2 & ->). rewrite pairs_app, pairs_cons. item_simpl.
    pose proof (pairs_nonneg l1). pose proof (pairs_nonneg l2). lia. }
  destruct Hk' as [-> | [-> | [-> _]]]; [|clear Hpl|done]; destruct Hr as [-> | [-> | [-> _]]]; try done;
    item_simpl; rewrite ?Z.eqb_refl in *; lia.
Qed.

Lemma heads_nodup l : legal l → NoDup (heads l).
Proof.
  induction l as [|it l IH] using rev_ind; intros Hl; [constructor|]. rewrite heads_snoc.
  specialize (IH (legal_prefix _ _ Hl)). case_decide as Hty; [|by rewrite app_nil_r].
  apply NoDup_app. split_and!; [done| |apply NoDup_singleton].
  intros k Hk ->%list_elem_of_singleton. by apply (heads_new l it).
Qed.

Lemma heads_range l k : legal l → k ∈ heads l → 1 <= k <= 9.
Proof.
  intros (Hr & _) (it & -> & Hin)%list_elem_of_fmap. apply list_elem_of_filter in Hin as [_ Hin].
  rewrite Forall_forall in Hr. by destruct (Hr _ Hin).
Qed.

Lemma nodup_range (xs : list Z) n : NoDup xs → (∀ k, k ∈ xs → 1 <= k <= n) → 0 <= n → Z.of_nat (length xs) <= n.
Proof.
  intros Hd Hr Hn. assert (Hs : xs ⊆+ seqZ 1 n).
  { apply NoDup_submseteq; [done|]. intros k Hk. apply elem_of_seqZ. specialize (Hr k Hk). lia. }
  apply submseteq_length in Hs. rewrite length_seqZ in Hs. lia.
Qed.

(** The tiles on which an item of kind [ty] can be added. *)
Definition choices (l : list PaiItem) (ty : Z) : list Z := filter (λ k, legal (l ++ [mk_item ty k])) (seqZ 1 9).

Lemma choices_elem l ty k : k ∈ choices l ty ↔ legal (l ++ [mk_item ty k]) ∧ 1 <= k <= 9.
Proof. unfold choices. rewrite list_elem_of_filter, elem_of_seqZ. intuition lia. Qed.

Lemma choices_row l : legal l → Z.of_nat (length (choices l 3)) <= 7.
Proof.
  intros Hl. apply nodup_range; [apply NoDup_filter, NoDup_seqZ| |lia]. intros k [Hk Hr]%choices_elem.
  apply legal_snoc in Hk as ([_ Hk] & _); [|done]. cbn in Hk. lia.
Qed.

Lemma choices_same l ty : legal l → ty ≠ 3 → Z.of_nat (length (choices l ty)) <= 9 - Z.of_nat (length (heads l)).
Proof.
  intros Hl Hty. assert (Hn : NoDup (choices l ty ++ heads l)).
  { apply NoDup_app. split_and!; [apply NoDup_filter, NoDup_seqZ| |by apply heads_nodup].
    intros k [Hk _]%choices_elem. by apply (heads_new l (mk_item ty k)). }
  apply (nodup_range _ 9) in Hn; [rewrite length_app in Hn; lia| |lia].
  intros k [[_ Hk]%choices_elem|Hk]%elem_of_app; [done|]. by apply (heads_range l).
Qed.

(** *** The bound *)

Definition cnt (q : Z) (hs : list (list PaiItem)) : Z := Z.of_nat (length (filter (λ h, pairs h = q) hs)).

Definition one_if (b : bool) : Z := if b then 1 else 0.

(** [h] tiles have a pair or a set of equal tiles, [k] sets may be added. *)
Fixpoint bnd (f : nat) (q j h k : Z) : Z :=
  match f with
  | O => 0
  | S f' =>
      (if j =? 0 then Z.max 0 (9 - h) * (one_if (q =? 1) + bnd f' q 1 (h + 1) k) else 0) +
      (if 0 <? k then 7 * (one_if (q =? j) + bnd f' q j h (k - 1)) +
                      Z.max 0 (9 - h) * (one_if (q =? j) + bnd f' q j (h + 1) (k - 1)) else 0)
  end.

Lemma one_if_nonneg b : 0 <= one_if b.
Proof. by destruct b. Qed.

Lemma bnd_nonneg f q j h k : 0 <= bnd f q j h k.
Proof.
  revert q j h k. induction f as [|f IH]; intros q j h k; cbn [bnd]; [lia|].
  pose proof (IH q 1 (h + 1) k). pose proof (IH q j h (k - 1)). pose proof (IH q j (h + 1) (k - 1)).
  pose proof (one_if_nonneg (q =? 1)). pose proof (one_if_nonneg (q =? j)). repeat case_match; nia.
Qed.

Lemma cnt_app q hs hs' : cnt q (hs ++ hs') = cnt q hs + cnt q hs'.
Proof. unfold cnt. rewrite filter_app, length_app. lia. Qed.

Lemma cnt_cons q h hs : cnt q (h :: hs) = one_if (q =? pairs h) + cnt q hs.
Proof. unfold cnt. rewrite filter_cons. destruct (Z.eqb_spec q (pairs h)); case_decide; simpl; lia. Qed.

(** A loop over the tiles records at most [b] hands for each choice. *)
Lemma cnt_choices q ty l (E : PaiItem → list (list PaiItem)) b :
  (∀ k, k ∈ choices l ty → cnt q (extensions l E (mk_item ty k)) <= b) →
  cnt q ((mk_item ty <$> seqZ 1 9) ≫= extensions l E) <= Z.of_nat (length (choices l ty)) * b.
Proof.
  unfold choices. induction (seqZ 1 9) as [|k ks IH]; intros H; [by cbn|].
  cbn [fmap list_fmap mbind list_bind]. rewrite cnt_app. rewrite filter_cons in H |- *.
  destruct (decide (legal (l ++ [mk_item ty k]))) as [Hk|Hk].
  - cbn [length]. specialize (IH (λ k' Hk', H k' (list_elem_of_further _ _ _ Hk'))).
    specialize (H k (list_elem_of_here _ _)). unfold mbind in *. lia.
  - specialize (IH H). unfold extensions at 1. rewrite decide_False by done. change (cnt q []) with 0. unfold mbind in *. lia.
Qed.

Definition sets_left (l : list PaiItem) : Z := 4 - (Z.of_nat (length l) - pairs l).

Lemma heads_length_snoc l it :
  Z.of_nat (length (heads (l ++ [it]))) = Z.of_nat (length (heads l)) + (if decide (type it ≠ 3) then 1 else 0).
Proof. rewrite heads_snoc, length_app. case_decide; simpl; lia. Qed.

Lemma sets_left_snoc l it : sets_left (l ++ [it]) = sets_left l - (1 - is_pair it).
Proof. unfold sets_left. rewrite pairs_snoc, length_app. cbn [length]. lia. Qed.

(** The hands from one choice on, by the bound for the longer list. *)
Lemma extension_bound f q l it :
  (∀ l, legal l → cnt q (enum f l) <= bnd f q (pairs l) (Z.of_nat (length (heads l))) (sets_left l)) →
  legal (l ++ [it]) →
  cnt q (extensions l (λ it, enum f (l ++ [it])) it) <=
    one_if (q =? pairs l + is_pair it) +
    bnd f q (pairs l + is_pair it) (Z.of_nat (length (heads l)) + (if decide (type it ≠ 3) then 1 else 0))
      (sets_left l - (1 - is_pair it)).
Proof.
  intros IH Hit. unfold extensions. rewrite decide_True, cnt_cons by done.
  specialize (IH _ Hit). rewrite heads_length_snoc, sets_left_snoc, pairs_snoc in IH. rewrite pairs_snoc. lia.
Qed.

Lemma loop_bound q ty l E b m : 0 <= b → Z.of_nat (length (choices l ty)) <= m →
  (∀ k, k ∈ choices l ty → cnt q (extensions l E (mk_item ty k)) <= b) →
  cnt q ((mk_item ty <$> seqZ 1 9) ≫= extensions l E) <= m * b.
Proof. intros Hb Hm H. apply cnt_choices in H. nia. Qed.

Lemma choices_left l ty : legal l → ty ≠ 1 → choices l ty ≠ [] → 0 < sets_left l.
Proof.
  intros Hl Hty Hc. destruct (choices l ty) as [|k ks] eqn:E; [done|].
  assert (Hk : k ∈ choices l ty) by (rewrite E; left). apply choices_elem in Hk as [Hk _].
  apply legal_snoc in Hk as (_ & Hp & Ht & _); [|done]. unfold tile_count, sets_left, is_pair in *. cbn [type] in *.
  pose proof (pairs_nonneg l). case_match; bool_to_prop; lia.
Qed.

Lemma enum_bound f q l : legal l → cnt q (enum f l) <= bnd f q (pairs l) (Z.of_nat (length (heads l))) (sets_left l).
Proof.
  revert l. induction f as [|f IH]; intros l Hl; [done|]. cbn [bnd].
  set (h := Z.of_nat (length (heads l))). set (E := λ it, enum f (l ++ [it])).
  change (enum (S f) l) with (candidates ≫= extensions l E). unfold candidates. rewrite !bind_app, !cnt_app.
  assert (Hb : ∀ ty k, k ∈ choices l ty → _) by (intros ty k [Hk _]%choices_elem; exact (extension_bound f q l _ IH Hk)).
  assert (Hnil : ∀ ty, choices l ty = [] → cnt q ((mk_item ty <$> seqZ 1 9) ≫= extensions l E) <= 0).
  { intros ty Hc. pose proof (cnt_choices q ty l E 0) as Hz. rewrite Hc in Hz. apply Hz. intros k Hk. by apply not_elem_of_nil in Hk. }
  assert (H1 : cnt q ((mk_item 1 <$> seqZ 1 9) ≫= extensions l E) <=
    if pairs l =? 0 then Z.max 0 (9 - h) * (one_if (q =? 1) + bnd f q 1 (h + 1) (sets_left l)) else 0).
  { destruct (Z.eqb_spec (pairs l) 0) as [Hp|Hp].
    - apply loop_bound; [pose proof (one_if_nonneg (q =? 1)); pose proof (bnd_nonneg f q 1 (h + 1) (sets_left l)); lia| |].
      + pose proof (choices_same l 1 Hl). lia.
      + intros k Hk. specialize (Hb 1 k Hk). rewrite Hp in Hb. cbn in Hb. by rewrite Z.sub_0_r in Hb.
    - apply Hnil. destruct (choices l 1) as [|k ks] eqn:Ec; [done|]. exfalso.
      assert (Hk : k ∈ choices l 1) by (rewrite Ec; left). apply choices_elem in Hk as [Hk _].
      apply legal_snoc in Hk as (_ & Hp' & _); [|done]. pose proof (pairs_nonneg l). item_simpl. lia. }
  destruct (Z.ltb_spec 0 (sets_left l)) as [Hs|Hs].
  2: { assert (Hc : ∀ ty, ty ≠ 1 → choices l ty = []).
       { intros ty Hty. destruct (choices l ty) eqn:Ec; [done|]. pose proof (choices_left l ty Hl Hty). rewrite Ec in *. 
         exfalso. enough (0 < sets_left l) by lia. auto. }
       pose proof (Hnil 2 (Hc 2 ltac:(done))). pose proof (Hnil 3 (Hc 3 ltac:(done))). lia. }
  assert (H3 : cnt q ((mk_item 3 <$> seqZ 1 9) ≫= extensions l E) <=
    7 * (one_if (q =? pairs l) + bnd f q (pairs l) h (sets_left l - 1))).
  { apply loop_bound; [pose proof (one_if_nonneg (q =? pairs l)); pose proof (bnd_nonneg f q (pairs l) h (sets_left l - 1)); lia| |].
    - by apply choices_row.
    - intros k Hk. specialize (Hb 3 k Hk). item_simpl. rewrite decide_False in Hb by tauto. by rewrite !Z.add_0_r in Hb. }
  assert (H2 : cnt q ((mk_item 2 <$> seqZ 1 9) ≫= extensions l E) <=
    Z.max 0 (9 - h) * (one_if (q =? pairs l) + bnd f q (pairs l) (h + 1) (sets_left l - 1))).
  { apply loop_bound; [pose proof (one_if_nonneg (q =? pairs l)); pose proof (bnd_nonneg f q (pairs l) (h + 1) (sets_left l - 1)); lia| |].
    - pose proof (choices_same l 2 Hl). lia.
    - intros k Hk. specialize (Hb 2 k Hk). item_simpl. rewrite decide_True in Hb by done. by rewrite Z.add_0_r in Hb. }
  unfold mbind in *. lia.
Qed.

(** ** Hands of a suit *)

(** A hand of tiles of the suit, as many as there can be. *)
Definition suit_hand (color : Z) (m : PAI_MAP) : Prop :=
  wf_hand m ∧ (∀ s, num m s ≠ 0 → s / 10 = color) ∧ (∀ s, num m s <= 4) ∧ total m <= 14.

Definition shift (color : Z) (it : PaiItem) : PaiItem := mk_item (type it) (color * 10 + pai_type it).

Lemma tiles_cons it l : tiles_of (it :: l) = item_tiles it ++ tiles_of l.
Proof. done. Qed.

Lemma shift_occ color l k : occ (tiles_of (shift color <$> l)) (color * 10 + k) = occ (tiles_of l) k.
Proof.
  induction l as [|it l IH]; [done|]. rewrite fmap_cons, !tiles_cons, !occ_app, IH. f_equal.
  unfold item_tiles. cbn [type pai_type shift]. repeat case_match; cbn [occ]; zcases; lia.
Qed.

Lemma shift_pairs color l : pairs (shift color <$> l) = pairs l.
Proof. induction l as [|it l IH]; [done|]. by rewrite fmap_cons, !pairs_cons, IH. Qed.

Lemma shift_good color it : 1 <= color <= 3 → good_item (shift color it) ∧ pai_type (shift color it) / 10 = color ↔ rank_item it.
Proof.
  intros Hc. destruct it as [ty k]. unfold good_item, good_tile, rank_item, shift. cbn [type pai_type]. split.
  - intros [[[Hk Hm] Hty] Hd]. split; [dlia|]. destruct Hty as [?|[?|[? Hr]]]; auto. right; right. split; [done|]. dlia.
  - intros [Hk Hty]. split_and!; [dlia..| |dlia]. destruct Hty as [?|[?|[? Hr]]]; auto. right; right. split; [done|]. dlia.
Qed.

Lemma item_suit color it t : rank_item it → t ∈ item_tiles (shift color it) → t / 10 = color.
Proof.
  destruct it as [ty k]. intros [Hk Hty]. unfold item_tiles. cbn [type pai_type shift] in *.
  destruct Hty as [-> | [-> | [-> ?]]]; cbn [Z.eqb Pos.eqb]; rewrite !elem_of_cons, elem_of_nil; intros Ht; dlia.
Qed.

(** The hand made of items, and its code. *)
Lemma items_hand color h : 1 <= color <= 3 → legal h →
  ∃ m, suit_hand color m ∧ splits (pairs h) m (shift color <$> h) ∧ total m = tile_count h ∧
    get_pai_hash_value_by_color m color = Some (hand_code h).
Proof.
  intros Hc Hl. set (m := hand_of (tiles_of (shift color <$> h))).
  assert (Hg : ∀ t, t ∈ tiles_of (shift color <$> h) → good_tile t ∧ t / 10 = color).
  { intros t (it & Ht & Hit)%list_elem_of_bind. apply list_elem_of_fmap in Hit as (it' & -> & Hit).
    destruct Hl as (Hr & _). rewrite Forall_forall in Hr. specialize (Hr _ Hit).
    pose proof (proj2 (shift_good color it' Hc) Hr) as [Hgi Hd]. split; [by apply (item_good (shift color it'))|].
    by apply (item_suit color it'). }
  assert (Hw : wf_hand m).
  { apply wf_hand_of. apply Forall_forall. intros t Ht. by destruct (Hg t Ht). }
  assert (Hsp : splits (pairs h) m (shift color <$> h)).
  { split_and!; [|apply shift_pairs|intros s; symmetry; apply num_hand_of].
    apply Forall_fmap. destruct Hl as (Hr & _). eapply Forall_impl; [done|]. intros it Hit. by apply shift_good. }
  assert (Ht : total m = tile_count h).
  { rewrite (splits_total _ _ _ Hw Hsp), length_fmap. done. }
  exists m. split_and!; [|done..|].
  - split_and!; [done| | |rewrite Ht; apply Hl].
    + intros s Hs. apply Hg. apply occ_pos. unfold m in Hs. rewrite num_hand_of in Hs.
      pose proof (occ_nonneg (tiles_of (shift color <$> h)) s). lia.
    + intros s. destruct (decide (s ∈ tiles_of (shift color <$> h))) as [Hs|Hs].
      * destruct (Hg s Hs) as [[Hr Hm] Hd]. unfold m. rewrite num_hand_of. replace s with (color * 10 + (s - color * 10)) by lia.
        rewrite shift_occ. apply legal_occ; [done|]. dlia.
      * unfold m. rewrite num_hand_of. rewrite <- occ_pos in Hs. lia.
  - apply hash_color_ok; [|by apply legal_digits]. intros k Hk. unfold m. by rewrite num_hand_of, shift_occ.
Qed.

(** A splitting of a hand of the suit comes from items. *)
Lemma hand_items color m q l : 1 <= color <= 3 → suit_hand color m → splits q m l → q <= 1 →
  ∃ h, legal h ∧ l = shift color <$> h ∧ pairs h = q ∧ tile_count h = total m ∧
    get_pai_hash_value_by_color m color = Some (hand_code h).
Proof.
  intros Hc (Hw & Hsuit & H4 & Ht) Hsp Hq. set (h := (λ it, mk_item (type it) (pai_type it - color * 10)) <$> l).
  assert (Hlh : l = shift color <$> h).
  { unfold h. rewrite <- list_fmap_compose. rewrite <- (list_fmap_id l) at 1. apply list_fmap_ext. intros i it _.
    destruct it as [ty k]. unfold shift. cbn. f_equal. lia. }
  clearbody h. subst l. pose proof Hsp as (Hg & Hp & Ho). rewrite shift_pairs in Hp.
  assert (Hr : Forall rank_item h).
  { apply Forall_forall. intros it Hit. apply (shift_good color it Hc). rewrite Forall_fmap, Forall_forall in Hg.
    split; [by apply Hg|]. apply Hsuit. rewrite <- Ho. apply not_eq_sym, Z.lt_neq, occ_pos, list_elem_of_bind.
    exists (shift color it). split; [apply item_first|]. by apply list_elem_of_fmap_2. }
  assert (Htc : tile_count h = total m) by (rewrite (splits_total _ _ _ Hw Hsp), length_fmap, <- Hp; done).
  assert (Hl : legal h).
  { split_and!; [done|lia| |lia]. apply Forall_forall. intros k Hk. rewrite <- (shift_occ color), Ho. apply H4. }
  exists h. split_and!; [done..|]. apply hash_color_ok; [|by apply legal_digits].
  intros k Hk. by rewrite <- Ho, shift_occ.
Qed.

(** ** Results *)

Lemma legal_nil : legal [].
Proof. apply (bool_decide_unpack _). vm_compute. exact I. Qed.

Lemma codes_length q hs : Z.of_nat (length (codes q hs)) = cnt q hs.
Proof. unfold codes, cnt. by rewrite length_fmap. Qed.

Lemma bnd_hp : bnd gen_fuel 0 0 0 4 = 56998 ∧ bnd gen_fuel 1 0 0 4 = 1957059.
Proof. vm_compute. auto. Qed.

Lemma gen_run f : 14 < 2 * Z.of_nat f → bnd f 0 0 0 4 <= HP_LIST_SIZE → bnd f 1 0 0 4 <= HP_LIST_SIZE →
  ∃ g, get_hp_type_count f 0 (mk_gen 0 0 no_pai [] 0 [] 0) = Some g ∧
    gs_hp g = codes 0 (enum f []) ∧ gs_jiang g = codes 1 (enum f []) ∧
    gs_hp_count g = Z.of_nat (length (gs_hp g)) ∧ gs_jiang_count g = Z.of_nat (length (gs_jiang g)) ∧
    Z.of_nat (length (gs_hp g)) <= bnd f 0 0 0 4 ∧ Z.of_nat (length (gs_jiang g)) <= bnd f 1 0 0 4.
Proof.
  intros Hf B0 B1. pose proof (enum_bound f 0 [] legal_nil) as C0. pose proof (enum_bound f 1 [] legal_nil) as C1.
  change (cnt 0 (enum f []) <= bnd f 0 0 0 4) in C0. change (cnt 1 (enum f []) <= bnd f 1 0 0 4) in C1.
  destruct (get_hp_emits f [] legal_nil ltac:(done) (mk_gen 0 0 no_pai [] 0 [] 0)) as (g & Hg & (_ & D0 & D1) & G0 & G1 & _).
  - split_and!; [|done..]. split_and!; [done| |done]. intros k Hk.
    assert (Hc : k = 1 ∨ k = 2 ∨ k = 3 ∨ k = 4 ∨ k = 5 ∨ k = 6 ∨ k = 7 ∨ k = 8 ∨ k = 9) by lia. destruct_or? Hc; by subst.
  - unfold room_for. rewrite !codes_length. cbn [gs_hp gs_jiang length]. lia.
  - exists g. cbn [gs_hp gs_jiang app] in G0, G1. split_and!; [done..| |]; [rewrite G0|rewrite G1]; by rewrite codes_length.
Qed.

(** The codes without pair: at most 56998; with one: at most 1957059. *)
Lemma hp_types_run :
  ∃ g, hp_types = Some g ∧ gs_hp g = codes 0 (enum gen_fuel []) ∧ gs_jiang g = codes 1 (enum gen_fuel []) ∧
    gs_hp_count g = Z.of_nat (length (gs_hp g)) ∧ gs_jiang_count g = Z.of_nat (length (gs_jiang g)) ∧
    Z.of_nat (length (gs_hp g)) <= 56998 ∧ Z.of_nat (length (gs_jiang g)) <= 1957059.
Proof.
  destruct bnd_hp as [<- <-]. apply gen_run; [done|..]; destruct bnd_hp as [B0 B1]; rewrite ?B0, ?B1; unfold HP_LIST_SIZE; lia.
Qed.

(** ** The relation *)

Definition is_code (c : Z) : Prop := ∃ f, digits 9 f ∧ c = code f.

Definition without (f : Z → Z) (k : Z) : Z → Z := λ i, f i + (if k =? i then -1 else 0).

(** [v] is the code of [n] without one tile. *)
Definition less1 (n v : Z) : Prop := ∃ f k, digits 9 f ∧ n = code f ∧ 1 <= k <= 9 ∧ 0 < f k ∧ v = code (without f k).

Lemma without_digits f k : digits 9 f → 0 < f k → digits 9 (without f k).
Proof. intros Hd Hk i Hi. specialize (Hd i Hi). unfold without. destruct (Z.eqb_spec k i); subst; lia. Qed.

Lemma less1_code n v : less1 n v → is_code v.
Proof. intros (f & k & Hd & _ & _ & Hk & ->). exists (without f k). split; [by apply without_digits|done]. Qed.

(** [n] is among the fathers of [v]. *)
Definition has_father (st : rel_state) (v n : Z) : Prop := ∃ fs, father st !! v = Some fs ∧ n ∈ fs.

(** The pairs of [P] have been entered, with level [pos]. *)
Record entered (pos : Z) (P : Z → Z → Prop) (st st' : rel_state) : Prop := mk_entered {
  en_other : get_dp st' (1 - pos) = get_dp st (1 - pos);
  en_dp : ∀ v, is_Some (get_dp st' pos !! v) ↔ is_Some (get_dp st pos !! v) ∨ ∃ n, P n v;
  en_key : ∀ v, is_Some (father st' !! v) ↔ is_Some (father st !! v) ∨ ∃ n, P n v;
  en_father : ∀ v n, has_father st' v n ↔ has_father st v n ∨ P n v
}.

Lemma entered_refl pos st : entered pos (λ _ _, False) st st.
Proof. split; naive_solver. Qed.

Lemma entered_trans pos P Q st st1 st2 :
  entered pos P st st1 → entered pos Q st1 st2 → entered pos (λ n v, P n v ∨ Q n v) st st2.
Proof.
  intros [A1 A2 A3 A4] [B1 B2 B3 B4]. split.
  - by rewrite B1.
  - intros v. rewrite B2, A2. naive_solver.
  - intros v. rewrite B3, A3. naive_solver.
  - intros v n. rewrite B4, A4. tauto.
Qed.

Lemma entered_iff pos P Q st st' : (∀ n v, P n v ↔ Q n v) → entered pos P st st' → entered pos Q st st'.
Proof. intros He [A1 A2 A3 A4]. split; [done|..]; intros; rewrite ?A2, ?A3, ?A4; setoid_rewrite He; done. Qed.

Lemma get_set_dp st pos m q : pos = 0 ∨ pos = 1 → q = 0 ∨ q = 1 →
  get_dp (set_dp st pos m) q = if q =? pos then m else get_dp st q.
Proof. intros [-> | ->] [-> | ->]; done. Qed.

Lemma father_set_dp st pos m : father (set_dp st pos m) = father st.
Proof. unfold set_dp. by destruct (pos =? 0). Qed.

Lemma insert_some {A} (m : gmap Z A) k x v : is_Some (<[k := x]> m !! v) ↔ is_Some (m !! v) ∨ k = v.
Proof. rewrite lookup_insert_is_Some. destruct (decide (k = v)); naive_solver. Qed.

Lemma add_father_ok pos num v st : pos = 0 ∨ pos = 1 →
  entered pos (λ n w, n = num ∧ w = v) st (add_father pos num v st).
Proof.
  intros Hp. unfold add_father. set (st1 := set_dp _ _ _). assert (Hf : father st1 = father st) by apply father_set_dp.
  assert (Hdp : ∀ q, get_dp (mk_rel (<[v := default [] (father st1 !! v) ++ [num]]> (father st1)) (dp0 st1) (dp1 st1)) q = get_dp st1 q)
    by done.
  split; [| | |unfold has_father]; intros; rewrite ?Hdp; cbn [father]; rewrite ?Hf.
  - unfold st1. rewrite get_set_dp by (destruct Hp; subst; auto). destruct Hp; by subst.
  - unfold st1. rewrite get_set_dp by auto. rewrite Z.eqb_refl, insert_some. naive_solver.
  - rewrite insert_some. naive_solver.
  - destruct (decide (v = v0)) as [->|Hne].
    + rewrite lookup_insert_eq. split.
      * intros (fs & [= <-] & [Hn|Hn]%elem_of_app); [left|right; set_solver].
        destruct (father st !! v0) as [fs|]; [eauto|by apply not_elem_of_nil in Hn].
      * intros Hn. eexists. split; [done|]. apply elem_of_app. destruct Hn as [(fs & -> & Hn)|[-> _]]; [by left|right; set_solver].
    + rewrite lookup_insert_ne by done. naive_solver.
Qed.

Lemma next_loop_ok n i pos f pm st : pos = 0 ∨ pos = 1 → 1 <= i → i + Z.of_nat n <= 10 →
  length pm = 10%nat → holds 9 pm f → digits 9 f →
  ∃ st', next_loop n i pos (code f) pm st = Some st' ∧
    entered pos (λ n' v, n' = code f ∧ ∃ k, i <= k < i + Z.of_nat n ∧ 0 < f k ∧ v = code (without f k)) st st'.
Proof.
  intros Hp. revert i pm st. induction n as [|n IH]; intros i pm st Hi Hn Hl Hh Hd; cbn [next_loop].
  - exists st. split; [done|]. eapply entered_iff; [|apply entered_refl]. intros. split; [done|]. intros (_ & k & ? & _). lia.
  - rewrite (Hh i) by lia. cbn [mbind option_bind]. destruct (Z.ltb_spec 0 (f i)) as [Hk|Hk].
    + destruct (bump_ok pm f i (-1) Hl Hh) as (pm1 & -> & Hl1 & Hh1); [lia|]. cbn [mbind option_bind].
      change (λ k, f k + _) with (without f i) in Hh1. rewrite (hash_value_ok _ _ Hh1) by (by apply without_digits).
      cbn [mbind option_bind]. destruct (bump_ok pm1 _ i 1 Hl1 Hh1) as (pm2 & -> & Hl2 & Hh2); [lia|]. cbn [mbind option_bind].
      destruct (IH (i + 1) pm2 (add_father pos (code f) (code (without f i)) st)) as (st' & -> & He); [lia..|done| |done|].
      { eapply hu_holds_ext; [|exact Hh2]. intros k _. unfold without. destruct (i =? k); lia. }
      exists st'. split; [done|]. eapply entered_iff; [|eapply entered_trans; [by apply add_father_ok|exact He]].
      intros n' v. split.
      * intros [[-> ->]|(-> & k & ? & ? & ->)]; (split; [done|]); eexists; (split_and!; [..|done]); lia.
      * intros (-> & k & ? & ? & ->). destruct (Z.eq_dec k i) as [->|]; [by left|right]. split; [done|]. exists k. split_and!; [lia..|done].
    + destruct (IH (i + 1) pm st) as (st' & -> & He); [lia..|done|done|done|].
      exists st'. split; [done|]. eapply entered_iff; [|exact He]. intros n' v. split.
      * intros (-> & k & ? & ? & ->). split; [done|]. exists k. split_and!; [lia..|done].
      * intros (-> & k & ? & ? & ->). split; [done|]. exists k. destruct (Z.eq_dec k i) as [->|]; [lia|]. split_and!; [lia..|done].
Qed.

Lemma jisuan_ok pos num st : pos = 0 ∨ pos = 1 → is_code num →
  ∃ st', jisuan_next_level_type pos num st = Some st' ∧ entered pos (λ n v, n = num ∧ less1 n v) st st'.
Proof.
  intros Hp (f & Hd & ->). unfold jisuan_next_level_type.
  destruct (value_by_num_ok f Hd) as (c & pm & -> & Hl & Hh). cbn [mbind option_bind snd].
  destruct (next_loop_ok 9 1 pos f pm st) as (st' & -> & He); [done|lia..|done|done|done|].
  exists st'. split; [done|]. eapply entered_iff; [|exact He]. intros n v. split.
  - intros (-> & k & Hk & Hf & ->). split; [done|]. exists f, k. split_and!; [done..|lia|lia|done|done].
  - intros (-> & g & k & Hg & Heq & Hk & Hgk & ->). split; [done|]. exists k.
    pose proof (val_inj 9 f g Hd Hg Heq) as Hfg. split_and!; [lia..|rewrite Hfg; lia|].
    apply val_ext. intros i Hi. unfold without. rewrite Hfg by lia. done.
Qed.

Lemma level_loop_ok l pos st : pos = 0 ∨ pos = 1 → (∀ p, p ∈ l → is_code p.1) →
  ∃ st', level_loop l pos st = Some st' ∧ entered pos (λ n v, n ∈ l.*1 ∧ less1 n v) st st'.
Proof.
  intros Hp. revert st. induction l as [|p l IH]; intros st Hc; cbn [level_loop].
  - exists st. split; [done|]. eapply entered_iff; [|apply entered_refl]. intros. split; [done|]. by intros [?%elem_of_nil _].
  - destruct (jisuan_ok pos p.1 st Hp) as (st1 & -> & H1); [apply Hc; left|]. cbn [mbind option_bind].
    destruct (IH st1) as (st2 & -> & H2); [intros q Hq; apply Hc; by right|].
    exists st2. split; [done|]. eapply entered_iff; [|eapply entered_trans; [exact H1|exact H2]].
    intros n v. cbn [fmap list_fmap]. rewrite elem_of_cons. tauto.
Qed.

(** The codes [d] tiles below those of [L]. *)
Fixpoint level (L : list Z) (d : nat) (v : Z) : Prop :=
  match d with
  | O => v ∈ L
  | S d' => ∃ n, level L d' n ∧ less1 n v
  end.

Lemma level_code L d v : Forall is_code L → level L d v → is_code v.
Proof.
  intros HL. destruct d as [|d]; cbn [level].
  - rewrite Forall_forall in HL. apply HL.
  - intros (n & _ & Hn). by eapply less1_code.
Qed.

(** The maps when the levels up to [d] are done. *)
Record at_level (L : list Z) (d : nat) (pos : Z) (st : rel_state) : Prop := mk_level {
  al_dp : ∀ v, is_Some (get_dp st pos !! v) ↔ level L d v;
  al_other : get_dp st (1 - pos) = ∅;
  al_key : ∀ v, is_Some (father st !! v) ↔ ∃ e, (e <= d)%nat ∧ level L e v;
  al_father : ∀ v n, has_father st v n ↔ ∃ e, (e < d)%nat ∧ level L e n ∧ less1 n v
}.

Lemma at_level_next L d pos st st' : pos = 0 ∨ pos = 1 → at_level L d pos st →
  entered (1 - pos) (λ n v, level L d n ∧ less1 n v) st st' → at_level L (S d) (1 - pos) (set_dp st' pos ∅).
Proof.
  intros Hp [A1 A2 A3 A4] [B1 B2 B3 B4].
  assert (Hother : get_dp (set_dp st' pos ∅) (1 - pos) = get_dp st' (1 - pos)).
  { rewrite get_set_dp by (destruct Hp; subst; auto). destruct Hp; by subst. }
  split.
  - intros v. rewrite Hother, B2, A2, lookup_empty. cbn [level]. split; [|by right]. intros [[? [=]]|H]; done.
  - replace (1 - (1 - pos)) with pos by lia. rewrite get_set_dp by auto. by rewrite Z.eqb_refl.
  - intros v. rewrite father_set_dp, B3, A3. split.
    + intros [(e & He & Hl)|(n & Hn)]; [exists e; split; [lia|done]|]. exists (S d). split; [lia|]. by exists n.
    + intros (e & He & Hl). destruct (decide (e = S d)) as [->|]; [right; exact Hl|]. left. exists e. split; [lia|done].
  - intros v n. unfold has_father. rewrite father_set_dp. fold (has_father st' v n). rewrite B4, A4. split.
    + intros [(e & He & Hl)|Hl]; [exists e; split; [lia|done]|]. exists d. split; [lia|done].
    + intros (e & He & Hl). destruct (decide (e = d)) as [->|]; [by right|]. left. exists e. split; [lia|done].
Qed.

Lemma by_dp_ok L d f st : Forall is_code L → (d + f = 6)%nat → (0 < f)%nat → at_level L d (Z.of_nat d mod 2) st →
  ∃ st' pos, get_paixing_hp_relation_by_dp f (Z.of_nat d + 1) st = Some st' ∧ at_level L 5 pos st'.
Proof.
  intros HL. revert d st. induction f as [|f IH]; intros d st Hf Hpos Ha; [lia|]. cbn [get_paixing_hp_relation_by_dp].
  unfold my_dp_limit. destruct (Z.ltb_spec 5 (Z.of_nat d + 1)).
  - exists st, (Z.of_nat d mod 2). split; [done|]. by replace d with 5%nat in * by lia.
  - set (pos := Z.of_nat d mod 2) in *. assert (Hp : pos = 0 ∨ pos = 1) by (unfold pos; dlia).
    replace (Z.rem (Z.of_nat d + 1 + 1) 2) with pos by (unfold pos; dlia).
    replace (if 1 <? pos + 1 then 0 else pos + 1) with (1 - pos) by (destruct Hp as [-> | ->]; done).
    destruct (level_loop_ok (items (get_dp st pos)) (1 - pos) st) as (st1 & -> & He); [lia| |].
    { intros [c b] Hc%elem_of_items. apply (level_code L d); [done|]. apply (al_dp _ _ _ _ Ha). by eexists. }
    cbn [mbind option_bind]. replace (Z.of_nat d + 1 + 1) with (Z.of_nat (S d) + 1) by lia.
    apply IH; [lia..|]. replace (Z.of_nat (S d) mod 2) with (1 - pos) by (unfold pos; dlia).
    apply (at_level_next _ _ _ st); [done..|]. eapply entered_iff; [|exact He]. intros n v. cbn beta.
    rewrite list_elem_of_fmap, <- (al_dp _ _ _ _ Ha). split.
    + intros [([c b] & -> & Hc%elem_of_items) Hv]. split; [by eexists|done].
    + intros [[b Hb] Hv]. split; [|done]. exists (n, b). split; [done|]. by apply elem_of_items.
Qed.

Lemma init_codes_ok L : at_level L 0 0 (init_codes L (mk_rel ∅ ∅ ∅)).
Proof.
  assert (H : ∀ L st, (∀ v n, ¬ has_father st v n) →
    dp1 (init_codes L st) = dp1 st ∧
    (∀ v, is_Some (dp0 (init_codes L st) !! v) ↔ is_Some (dp0 st !! v) ∨ v ∈ L) ∧
    (∀ v, is_Some (father (init_codes L st) !! v) ↔ is_Some (father st !! v) ∨ v ∈ L) ∧
    ∀ v n, ¬ has_father (init_codes L st) v n).
  { clear. induction L as [|c L IH]; intros st Hn; [set_solver|].
    destruct (IH (mk_rel (<[c := []]> (father st)) (<[c := true]> (dp0 st)) (dp1 st))) as (H1 & H2 & H3 & H4).
    - intros v n (fs & Hv & Hin). cbn [father] in Hv. apply lookup_insert_Some in Hv as [[_ <-]|[_ Hv]]; [by apply not_elem_of_nil in Hin|].
      apply (Hn v n). by exists fs.
    - split_and!; [done|..|done]; intros v; [rewrite (H2 v)|rewrite (H3 v)]; cbn [dp0 father]; rewrite insert_some, elem_of_cons; naive_solver. }
  destruct (H L (mk_rel ∅ ∅ ∅)) as (H1 & H2 & H3 & H4).
  { intros v n (fs & Hv & _). cbn [father] in Hv. by rewrite lookup_empty in Hv. }
  split.
  - intros v. cbn [level get_dp Z.eqb]. rewrite H2. cbn [dp0]. rewrite lookup_empty. split; [intros [[? [=]]|]|]; auto.
  - done.
  - intros v. rewrite H3. cbn [father]. rewrite lookup_empty. split.
    + intros [[? [=]]|Hv]. exists 0%nat. split; [lia|done].
    + intros (e & He & Hl). replace e with 0%nat in Hl by lia. by right.
  - intros v n. split; [intros Hf; by destruct (H4 v n)|]. intros (e & ? & _). lia.
Qed.

Lemma relation_run L : Forall is_code L →
  ∃ st pos, get_paixing_hp_relation L (mk_rel ∅ ∅ ∅) = Some st ∧ at_level L 5 pos st.
Proof.
  intros HL. apply (by_dp_ok L 0 6); [done|lia|lia|]. apply init_codes_ok.
Qed.

Lemma elem_codes q c : q <= 1 →
  c ∈ codes q (enum gen_fuel []) ↔ ∃ h, h ≠ [] ∧ legal h ∧ pairs h = q ∧ c = hand_code h.
Proof.
  intros Hq. unfold codes. rewrite list_elem_of_fmap. split.
  - intros (h & -> & [Hp Hh]%list_elem_of_filter). apply enum_exact in Hh as (ext & Hne & -> & Hl); [|apply legal_nil|done].
    exists ext. done.
  - intros (h & Hne & Hl & Hp & ->). exists h. split; [done|]. apply list_elem_of_filter. split; [done|].
    apply enum_exact; [apply legal_nil|done|]. by exists h.
Qed.

Lemma codes_are_codes q : Forall is_code (codes q (enum gen_fuel [])).
Proof.
  apply Forall_forall. intros c (h & -> & [_ Hh]%list_elem_of_filter)%list_elem_of_fmap.
  apply enum_exact in Hh as (ext & _ & -> & Hl); [|apply legal_nil|done].
  exists (occ (tiles_of ext)). split; [by apply legal_digits|done].
Qed.

(** C24. The enumeration of all winning hands of a suit ends, writes every code
    within the arrays of two million cells, and counts what it has written:
    at most 56998 hands without and 1957059 with a pair. *)
Theorem hp_list_bounds :
  ∃ g, hp_types = Some g ∧
    gs_hp_count g = Z.of_nat (length (gs_hp g)) ∧ gs_jiang_count g = Z.of_nat (length (gs_jiang g)) ∧
    0 <= gs_hp_count g <= 56998 ∧ 0 <= gs_jiang_count g <= 1957059.
Proof.
  destruct hp_types_run as (g & Hg & _ & _ & H0 & H1 & B0 & B1). exists g. split_and!; [exact Hg|exact H0|exact H1|clear Hg; lia..].
Qed.

(** C23. The array for hands with a pair holds exactly the codes of the complete
    hands of a suit by the rules of majiang.cpp, the other one those of the
    hands that split into sets only. *)
Theorem hp_types_exact color : 1 <= color <= 3 →
  ∃ g, hp_types = Some g ∧ ∀ c,
    (c ∈ gs_jiang g ↔ ∃ m, suit_hand color m ∧ complete m ∧ get_pai_hash_value_by_color m color = Some c) ∧
    (c ∈ gs_hp g ↔ ∃ m, suit_hand color m ∧ 0 < total m ∧ (∃ l, splits 0 m l) ∧
      get_pai_hash_value_by_color m color = Some c).
Proof.
  intros Hc. destruct hp_types_run as (g & Hg & E0 & E1 & _). exists g. split; [exact Hg|]. intros c.
  rewrite E0, E1, !elem_codes by lia. clear Hg E0 E1. split; split.
  - intros (h & _ & Hl & Hp & ->). destruct (items_hand color h Hc Hl) as (m & Hm & Hs & _ & Hh). rewrite Hp in Hs.
    exists m. split_and!; [done|by eexists|done].
  - intros (m & Hm & [l Hl] & Hh). destruct (hand_items color m 1 l Hc Hm Hl) as (h & Hlh & -> & Hp & _ & Hh'); [lia|].
    exists h. rewrite Hh in Hh'. injection Hh' as ->. split_and!; [|done..]. by intros ->.
  - intros (h & Hne & Hl & Hp & ->). destruct (items_hand color h Hc Hl) as (m & Hm & Hs & Ht & Hh). rewrite Hp in Hs.
    exists m. split_and!; [done| |by eexists|done]. rewrite Ht. unfold tile_count. rewrite Hp. clear Hh. destruct h; [by destruct Hne|]. cbn [length]. lia.
  - intros (m & Hm & Hpos & [l Hl] & Hh). destruct (hand_items color m 0 l Hc Hm Hl) as (h & Hlh & -> & Hp & Ht & Hh'); [lia|].
    exists h. rewrite Hh in Hh'. injection Hh' as ->. split_and!; [|done..]. intros ->. change (tile_count []) with 0 in Ht. lia.
Qed.

Lemma test_suit_hand : suit_hand 2 (hand_of [21; 22; 23; 29; 29]) ∧ complete (hand_of [21; 22; 23; 29; 29]).
Proof.
  assert (Hsp : splits 1 (hand_of [21; 22; 23; 29; 29]) [mk_item 3 21; mk_item 1 29]).
  { split_and!; [|reflexivity|intros s; symmetry; apply num_hand_of].
    repeat constructor; cbn; try lia; done. }
  assert (Hw : wf_hand (hand_of [21; 22; 23; 29; 29])) by (apply wf_hand_of, good_tiles_dec; reflexivity).
  split; [|by eexists]. split_and!; [done| | |rewrite (splits_total _ _ _ Hw Hsp); cbn; lia].
  - intros s. rewrite num_hand_of. cbn [occ]. zcases; subst; intros; done.
  - intros s. rewrite num_hand_of. cbn [occ]. zcases; lia.
Qed.

Lemma hp_types_exact_witness : 1 <= 2 <= 3 ∧ ∃ g, hp_types = Some g ∧ 111000002 ∈ gs_jiang g.
Proof.
  split; [lia|]. destruct (hp_types_exact 2 ltac:(lia)) as (g & Hg & H). exists g. split; [exact Hg|]. clear Hg.
  apply (proj1 (H 111000002)). exists (hand_of [21; 22; 23; 29; 29]). destruct test_suit_hand as [Hs Hc].
  split; [exact Hs|]. split; [exact Hc|]. vm_compute. reflexivity.
Defined.

(** [t] has an entry for each code at most five tiles below a code of [L], with
    the codes above it by one tile that were followed down. *)
Definition relation_of (L : list Z) (t : gmap Z (list Z)) : Prop :=
  (∀ v, is_Some (t !! v) ↔ ∃ e, (e <= 5)%nat ∧ level L e v) ∧
  ∀ v fs n, t !! v = Some fs → n ∈ fs ↔ ∃ e, (e < 5)%nat ∧ level L e n ∧ less1 n v.

(** [create_hu_relation_hash] leaves in its two tables the relation "one
    tile less" below the winning hands, five levels deep. *)
Theorem hu_relation_exact :
  ∃ g t1 t2 st, hp_types = Some g ∧ create_hu_relation_hash (mk_rel ∅ ∅ ∅) = Some (t1, t2, st) ∧
    relation_of (gs_hp g) t1 ∧ relation_of (gs_jiang g) t2.
Proof.
  assert (Hof : ∀ L pos st, at_level L 5 pos st → relation_of L (father st)).
  { intros L pos st [_ _ Hk Hf]. split; [exact Hk|]. intros v fs n Hv. rewrite <- Hf. unfold has_father. rewrite Hv. naive_solver. }
  destruct hp_types_run as (g & Hg & H0 & H1 & _).
  destruct (relation_run (gs_hp g)) as (st1 & p1 & E1 & A1); [rewrite H0; apply codes_are_codes|].
  destruct (relation_run (gs_jiang g)) as (st2 & p2 & E2 & A2); [rewrite H1; apply codes_are_codes|].
  exists g, (father st1), (father st2), st2. unfold create_hu_relation_hash. rewrite Hg. cbn [mbind option_bind].
  rewrite E1. cbn [mbind option_bind]. rewrite E2. split_and!; [reflexivity..|by eapply Hof|by eapply Hof].
Qed.
