(* ===== verification/LandCards.v ===== *)
(** * Cards of "Dou Dizhu": 3rd/land/GameLogic.cpp, the rules

    A card is a byte, the suit in the high and the rank (1 to 13) in the low
    four bits; 0x41 and 0x42 are the jokers.  The code orders cards by a
    "logic value" (3 to 13, ace 14, two 15, jokers 16 and 17), sorts hands,
    groups equal values, recognises the kinds of plays and compares plays.

    Arrays are lists with checked access ([None] outside).  The exception
    that [SortCardList] throws is [None] too.  [BYTE] arithmetic that could
    leave the byte is wrapped. *)

From Stdlib Require Import ZArith Lia.
From stdpp Require Import base tactics option numbers gmap list sorting.
From S2P Require Import Prelude.

Local Open Scope Z_scope.

(** ** Constants *)

Definition MAX_COUNT : Z := 20.
Definition FULL_COUNT : Z := 54.
Definition MASK_COLOR : Z := 240.
Definition MASK_VALUE : Z := 15.

Definition ST_ORDER : Z := 0.
Definition ST_COUNT : Z := 1.
Definition ST_CUSTOM : Z := 2.

Definition CT_ERROR : Z := 0.
Definition CT_SINGLE : Z := 1.
Definition CT_DOUBLE : Z := 2.
Definition CT_THREE : Z := 3.
Definition CT_SINGLE_LINE : Z := 4.
Definition CT_DOUBLE_LINE : Z := 5.
Definition CT_THREE_LINE : Z := 6.
Definition CT_THREE_TAKE_ONE : Z := 7.
Definition CT_THREE_TAKE_TWO : Z := 8.
Definition CT_FOUR_TAKE_ONE : Z := 9.
Definition CT_FOUR_TAKE_TWO : Z := 10.
Definition CT_BOMB_CARD : Z := 11.
Definition CT_MISSILE_CARD : Z := 12.

Definition RULE_3_0 : Z := 1.
Definition RULE_4_1 : Z := 2.
Definition RULE_Off : Z := 256.
Definition RULE_3_2 : Z := 1024.
Definition RULE_4_2 : Z := 2048.

(** [m_cbCardData]: the 54 cards. *)
Definition m_cbCardData : list Z :=
  seqZ 1 13 ++ seqZ 17 13 ++ seqZ 33 13 ++ seqZ 49 13 ++ [65; 66].

(** ** Single cards *)

Definition GetCardValue (cbCardData : Z) : Z := Z.land cbCardData MASK_VALUE.
Definition GetCardColor (cbCardData : Z) : Z := Z.land cbCardData MASK_COLOR.

Definition IsValidCard (cbCardData : Z) : bool :=
  (cbCardData =? 65) || (cbCardData =? 66) ||
  ((GetCardColor cbCardData <=? 48) && (1 <=? GetCardValue cbCardData) && (GetCardValue cbCardData <=? 13)).

Definition GetCardLogicValue (cbCardData : Z) : Z :=
  if cbCardData =? 0 then 0
  else if GetCardColor cbCardData =? 64 then GetCardValue cbCardData + 15
  else if GetCardValue cbCardData <=? 2 then GetCardValue cbCardData + 13 else GetCardValue cbCardData.

Definition MakeCardData (cbValueIndex cbColorIndex : Z) : Z :=
  u8 (Z.lor (Z.shiftl cbColorIndex 4) (cbValueIndex + 1)).

(** ** Groups of equal cards *)

Record tagAnalyseResult := mk_analyse {
  cbBlockCount : list Z;          (** how many groups of 1, 2, 3, 4 cards *)
  cbCardData : list (list Z);     (** their cards, four rows of 40 *)
  cbCardType : Z;
  cbLogicValue : Z
}.

Definition zero_analyse : tagAnalyseResult :=
  mk_analyse (replicate 4 0) (replicate 4 (replicate 40 0)) 0 0.

(** The search for equal cards from [j] on; at most four count. *)
Fixpoint same_loop (n : nat) (j : Z) (data : list Z) (v same : Z) : option Z :=
  match n with
  | O => Some same
  | S n' =>
      c ← arr_get data j;
      if negb (GetCardLogicValue c =? v) then Some same
      else if 4 <? same + 1 then Some 4 else same_loop n' (j + 1) data v (same + 1)
  end.

(** [AnalyseResult.cbCardData[cbSameCount-1][cbIndex*cbSameCount+j] = cbCardData[i+j]] *)
Fixpoint block_loop (n : nat) (j i : Z) (data row : list Z) (base : Z) : option (list Z) :=
  match n with
  | O => Some row
  | S n' =>
      c ← arr_get data (i + j);
      row ← arr_set row (base + j) c;
      block_loop n' (j + 1) i data row base
  end.

(** A group of [same] cards that starts at [i]. *)
Definition put_block (r : tagAnalyseResult) (data : list Z) (i same : Z) : option tagAnalyseResult :=
  cbIndex ← arr_get (cbBlockCount r) (same - 1);
  bc ← arr_set (cbBlockCount r) (same - 1) (u8 (cbIndex + 1));
  row ← arr_get (cbCardData r) (same - 1);
  row ← block_loop (Z.to_nat same) 0 i data row (cbIndex * same);
  cd ← arr_set (cbCardData r) (same - 1) row;
  Some (mk_analyse bc cd (cbCardType r) (cbLogicValue r)).

(** The loop over the cards, [n] bounding the rounds left. *)
Fixpoint analyse_loop (n : nat) (i cbCardCount : Z) (data : list Z) (r : tagAnalyseResult) : option tagAnalyseResult :=
  match n with
  | O => Some r
  | S n' =>
      if i <? cbCardCount then
        c ← arr_get data i;
        let v := GetCardLogicValue c in
        if v =? 0 then Some r
        else
          same ← same_loop (Z.to_nat (cbCardCount - (i + 1))) (i + 1) data v 1;
          r ← put_block r data i same;
          analyse_loop n' (i + (same - 1) + 1) cbCardCount data r
      else Some r
  end.

Definition AnalysebCardData (data : list Z) (cbCardCount : Z) : option tagAnalyseResult :=
  analyse_loop (Z.to_nat cbCardCount) 0 cbCardCount data zero_analyse.

(** ** Sorting *)

(** [a] goes behind [b]. *)
Definition card_before (va vb a b : Z) : bool := (va <? vb) || ((va =? vb) && (a <? b)).

(** One pass over the first [n] neighbours; the flag is [bSorted]. *)
Fixpoint bubble_pass (n : nat) (i : Z) (bSorted : bool) (data vals : list Z) : option (bool * list Z * list Z) :=
  match n with
  | O => Some (bSorted, data, vals)
  | S n' =>
      va ← arr_get vals i; vb ← arr_get vals (i + 1);
      a ← arr_get data i; b ← arr_get data (i + 1);
      if card_before va vb a b then
        data ← arr_set data i b; data ← arr_set data (i + 1) a;
        vals ← arr_set vals i vb; vals ← arr_set vals (i + 1) va;
        bubble_pass n' (i + 1) false data vals
      else bubble_pass n' (i + 1) bSorted data vals
  end.

Fixpoint sort_loop (fuel : nat) (cbLast : Z) (data vals : list Z) : option (list Z) :=
  match fuel with
  | O => None
  | S f =>
      r ← bubble_pass (Z.to_nat cbLast) 0 true data vals;
      let '(bSorted, data, vals) := r in
      if bSorted : bool then Some data else sort_loop f (u8 (cbLast - 1)) data vals
  end.

(** [cbSortValue[i] = GetCardLogicValue(cbCardData[i])] for the cards. *)
Definition sort_values (data : list Z) (cbCardCount : Z) : option (list Z) :=
  mapM (λ i, c ← arr_get data i; Some (GetCardLogicValue c)) (seqZ 0 cbCardCount).

(** The groups copied back, the largest first. *)
Fixpoint count_loop (n : nat) (cbCardIndex : Z) (data : list Z) (r : tagAnalyseResult) : option (list Z) :=
  match n with
  | O => Some data
  | S cbIndex =>
      bc ← arr_get (cbBlockCount r) (Z.of_nat cbIndex);
      row ← arr_get (cbCardData r) (Z.of_nat cbIndex);
      let len := bc * (Z.of_nat cbIndex + 1) in
      if (0 <=? cbCardIndex) && (0 <=? len) && (len <=? Z.of_nat (length row)) &&
         (cbCardIndex + len <=? Z.of_nat (length data))
      then count_loop cbIndex (cbCardIndex + len)
             (take (Z.to_nat cbCardIndex) data ++ take (Z.to_nat len) row ++ drop (Z.to_nat (cbCardIndex + len)) data) r
      else None
  end.

Definition SortCardList (data : list Z) (cbCardCount cbSortType : Z) : option (list Z) :=
  if cbCardCount =? 0 then Some data
  else if cbSortType =? ST_CUSTOM then Some data
  else if FULL_COUNT <? cbCardCount then None
  else
    vals ← sort_values data cbCardCount;
    data ← sort_loop (S (Z.to_nat cbCardCount)) (u8 (cbCardCount - 1)) data vals;
    if cbSortType =? ST_COUNT then
      r ← AnalysebCardData data cbCardCount;
      count_loop 4 0 data r
    else Some data.

Example sort_test :
  SortCardList [3; 66; 17; 35; 2; 0] 5 ST_ORDER = Some [66; 2; 17; 35; 3; 0] ∧
  SortCardList [3; 66; 17; 35; 2; 19] 6 ST_COUNT = Some [35; 19; 3; 66; 2; 17].
Proof. vm_compute. auto. Qed.

(** ** The kind of a play *)

Definition IsValidType (m_ppRule Type_ cardCount : Z) : bool :=
  let on r := 0 <? Z.land m_ppRule r in
  if m_ppRule =? 0 then true
  else if (Type_ =? CT_THREE) || (Type_ =? CT_THREE_LINE) then
    (on RULE_3_0 && on RULE_Off) || (Z.rem cardCount 3 =? 0)
  else if Type_ =? CT_THREE_TAKE_TWO then on RULE_3_2
  else if Type_ =? CT_FOUR_TAKE_ONE then (on RULE_4_1 && on RULE_Off) || (Z.rem cardCount 6 =? 0)
  else if Type_ =? CT_FOUR_TAKE_TWO then on RULE_4_2
  else true.

(** Case 0: a card that does not exist. *)
Definition wrong_card (c : Z) : bool :=
  (GetCardValue c =? 0) || (64 <? GetCardColor c) || ((GetCardColor c <? 64) && (13 <? GetCardValue c)).

(** Cases 4 to 6: how many groups follow each other from [cbTypeValue] down. *)
Fixpoint link_loop (n : nat) (i cbSameCount cbTypeValue : Z) (row : list Z) (cbLinkCount : Z) : option Z :=
  match n with
  | O => Some cbLinkCount
  | S n' =>
      c ← arr_get row (i * cbSameCount);
      if cbTypeValue - GetCardLogicValue c =? i
      then link_loop n' (i + 1) cbSameCount cbTypeValue row (cbLinkCount + 1)
      else Some cbLinkCount
  end.

(** [Some None] is the [break] to the next case. *)
Definition line_case (r : tagAnalyseResult) (data : list Z) (cbCardCount cbSameCount cbMinLink : Z) : option (option Z) :=
  bc ← arr_get (cbBlockCount r) (cbSameCount - 1);
  if negb (bc * cbSameCount =? cbCardCount) then Some None
  else
    c0 ← arr_get data 0;
    let cbTypeValue := GetCardLogicValue c0 in
    if 15 <=? cbTypeValue then Some None
    else
      row ← arr_get (cbCardData r) (cbSameCount - 1);
      cbLinkCount ← link_loop (Z.to_nat bc) 0 cbSameCount cbTypeValue row 0;
      if cbLinkCount <? cbMinLink then Some None
      else if negb (cbLinkCount * cbSameCount =? cbCardCount) then Some None
      else Some (Some cbTypeValue).

(** Cases 7 and 8: the first run of groups of three.  [cbTypeValue] is 255
    until a group is taken; twos are skipped in plays of more than five cards. *)
Fixpoint plane_loop (n : nat) (i cbCardCount : Z) (row : list Z) (cbLinkCount cbTypeValue : Z) : option (Z * Z) :=
  match n with
  | O => Some (cbLinkCount, cbTypeValue)
  | S n' =>
      c ← arr_get row (3 * i);
      let cbValue := GetCardLogicValue c in
      if (cbTypeValue =? 255) && ((cbValue =? 15) && (5 <? cbCardCount)) then
        plane_loop n' (i + 1) cbCardCount row cbLinkCount 255
      else
        let cbTypeValue := if cbTypeValue =? 255 then cbValue else cbTypeValue in
        if cbTypeValue - cbValue =? cbLinkCount then
          plane_loop n' (i + 1) cbCardCount row (cbLinkCount + 1) cbTypeValue
        else if cbLinkCount <? 2 then plane_loop n' (i + 1) cbCardCount row 1 cbValue
        else Some (cbLinkCount, cbTypeValue)
  end.

Definition set_kind (r : tagAnalyseResult) (ty v : Z) : Z * tagAnalyseResult :=
  (ty, mk_analyse (cbBlockCount r) (cbCardData r) ty v).

Definition plane_case (m_ppRule : Z) (r : tagAnalyseResult) (cbCardCount : Z) : option (option (Z * Z)) :=
  b4 ← arr_get (cbBlockCount r) 3;
  if 0 <? b4 then Some None
  else
    b3 ← arr_get (cbBlockCount r) 2;
    row ← arr_get (cbCardData r) 2;
    lt ← plane_loop (Z.to_nat b3) 0 cbCardCount row 0 255;
    let '(cbLinkCount, cbTypeValue) := lt in
    b2 ← arr_get (cbBlockCount r) 1;
    if cbLinkCount * 4 =? cbCardCount then Some (Some (CT_THREE_TAKE_ONE, cbTypeValue))
    else if (cbLinkCount * 5 =? cbCardCount) && (b2 =? cbLinkCount) && IsValidType m_ppRule CT_THREE_TAKE_TWO 0
    then Some (Some (CT_THREE_TAKE_TWO, cbTypeValue))
    else Some None.

(** The logic value of the first card of four equal ones. *)
Definition four_value (r : tagAnalyseResult) : option Z :=
  row ← arr_get (cbCardData r) 3; c ← arr_get row 0; Some (GetCardLogicValue c).

(** The two arrays of 20 cards that hold the play: zeros, then the cards. *)
Definition copy_cards (turn : list Z) (count : Z) : option (list Z) :=
  if (0 <=? count) && (count <=? MAX_COUNT) && (count <=? Z.of_nat (length turn))
  then Some (take (Z.to_nat count) turn ++ replicate (Z.to_nat (MAX_COUNT - count)) 0) else None.

(** The cases of the switch after the check for errors, in their order. *)
Definition classify (m_ppRule : Z) (data : list Z) (n : Z) (r : tagAnalyseResult) : option (Z * tagAnalyseResult) :=
  c0 ← arr_get data 0; c1 ← arr_get data 1;
  let v0 := GetCardLogicValue c0 in
  b3 ← arr_get (cbBlockCount r) 2; b4 ← arr_get (cbBlockCount r) 3; b2 ← arr_get (cbBlockCount r) 1;
  if n =? 1 then Some (set_kind r CT_SINGLE v0)
  else if (n =? 2) && (v0 =? GetCardLogicValue c1) then Some (set_kind r CT_DOUBLE v0)
  else if (n =? 3) && (b3 =? 1) && IsValidType m_ppRule CT_THREE n then Some (set_kind r CT_THREE v0)
  else
    l ← line_case r data n 1 5;
    match l with
    | Some v => Some (set_kind r CT_SINGLE_LINE v)
    | None =>
    l ← line_case r data n 2 3;
    match l with
    | Some v => Some (set_kind r CT_DOUBLE_LINE v)
    | None =>
    l ← line_case r data n 3 2;
    match l with
    | Some v => Some (set_kind r CT_THREE_LINE v)
    | None =>
    p ← plane_case m_ppRule r n;
    match p with
    | Some (ty, v) => Some (set_kind r ty v)
    | None =>
    if (n =? 6) && (b4 =? 1) && IsValidType m_ppRule CT_FOUR_TAKE_ONE n then
      v ← four_value r; Some (set_kind r CT_FOUR_TAKE_ONE v)
    else if (n =? 8) && (b4 =? 1) && (b2 =? 2) then
      v ← four_value r; Some (set_kind r CT_FOUR_TAKE_TWO v)
    else if (n =? 4) && (b4 =? 1) then
      v ← four_value r; Some (set_kind r CT_BOMB_CARD (GetCardLogicValue v))
    else if (c0 =? 66) && (c1 =? 65) then Some (set_kind r CT_MISSILE_CARD 17)
    else Some (CT_ERROR, r)
    end end end end.

Definition AnalyseOutCard (m_ppRule : Z) (turn : list Z) (cbTurnCardCount : Z) : option (Z * tagAnalyseResult) :=
  data ← copy_cards turn cbTurnCardCount;
  data ← SortCardList data cbTurnCardCount ST_ORDER;
  r ← AnalysebCardData data cbTurnCardCount;
  c0 ← arr_get data 0; c1 ← arr_get data 1;
  if cbTurnCardCount =? 0 then Some (CT_ERROR, r)
  else if (2 <? cbTurnCardCount) && (c0 =? 66) && (c1 =? 65) then Some (CT_ERROR, r)
  else if existsb wrong_card (take (Z.to_nat cbTurnCardCount) data) then Some (CT_ERROR, r)
  else classify m_ppRule data cbTurnCardCount r.

Definition GetCardType (m_ppRule : Z) (cards : list Z) (cbCardCount : Z) : option Z :=
  r ← AnalyseOutCard m_ppRule cards cbCardCount; Some r.1.

(** ** Comparing plays *)

Definition CompareCard (m_ppRule : Z) (cbFirstCard cbNextCard : list Z) (cbFirstCount cbNextCount : Z) : option bool :=
  next ← AnalyseOutCard m_ppRule cbNextCard cbNextCount;
  first ← AnalyseOutCard m_ppRule cbFirstCard cbFirstCount;
  let '(cbNextType, stNextResult) := next in
  let '(cbFirstType, stFirstResult) := first in
  Some
    (if (cbNextType =? CT_ERROR) || (cbFirstType =? CT_ERROR) then false
     else if cbFirstType =? CT_MISSILE_CARD then false
     else if cbNextType =? CT_MISSILE_CARD then true
     else if negb (cbFirstType =? CT_BOMB_CARD) && (cbNextType =? CT_BOMB_CARD) then true
     else if (cbFirstType =? CT_BOMB_CARD) && negb (cbNextType =? CT_BOMB_CARD) then false
     else if negb (cbFirstType =? cbNextType) || negb (cbFirstCount =? cbNextCount) then false
     else cbLogicValue stFirstResult <? cbLogicValue stNextResult).

Example type_test :
  GetCardType 0 [3; 4; 5; 6; 7] 5 = Some CT_SINGLE_LINE ∧
  GetCardType 0 [3; 19; 35; 4; 20; 36; 5; 6] 8 = Some CT_THREE_TAKE_ONE ∧
  GetCardType 0 [66; 65] 2 = Some CT_MISSILE_CARD ∧
  CompareCard 0 [3; 19; 35; 51] [66; 65] 4 2 = Some true ∧
  CompareCard 0 [4; 5; 6; 7; 8] [3; 4; 5; 6; 7] 5 5 = Some false.
Proof. vm_compute. auto. Qed.

(** Five groups of three in a row and a single card are no play, although
    four of the groups with four cards would be one. *)
Example plane_too_long :
  GetCardType 0 [3; 19; 35; 4; 20; 36; 5; 21; 37; 6; 22; 38; 7; 23; 39; 8] 16 = Some CT_ERROR.
Proof. vm_compute. reflexivity. Qed.

(** ** Lemmas: sorting *)

(** The order of the sort: by value, then by the byte. *)
Definition key (c : Z) : Z := 256 * GetCardLogicValue c + c.

Definition card_ge (a b : Z) : Prop := key b <= key a.
#[global] Instance card_ge_dec a b : Decision (card_ge a b).
Proof. unfold card_ge. apply _. Defined.

Lemma card_before_key a b : is_byte a → is_byte b →
  card_before (GetCardLogicValue a) (GetCardLogicValue b) a b = (key a <? key b).
Proof. unfold is_byte, card_before, key. intros. zcases; done. Qed.

Lemma arr_get_mid {A} (pre : list A) x post i : i = Z.of_nat (length pre) → arr_get (pre ++ x :: post) i = Some x.
Proof. intros ->. rewrite arr_get_lookup by lia. by rewrite Nat2Z.id, list_lookup_middle. Qed.

Lemma arr_set_mid {A} (pre : list A) x y post i : i = Z.of_nat (length pre) →
  arr_set (pre ++ x :: post) i y = Some (pre ++ y :: post).
Proof.
  intros ->. rewrite arr_set_some by (rewrite length_app; cbn [length]; lia).
  f_equal. rewrite Nat2Z.id, <- (Nat.add_0_r (length pre)) at 1. by rewrite insert_app_r.
Qed.

(** A pass on a list. *)
Fixpoint bpass (n : nat) (l : list Z) : bool * list Z :=
  match n, l with
  | S n', a :: b :: l' =>
      if key a <? key b then (false, b :: (bpass n' (a :: l')).2)
      else ((bpass n' (b :: l')).1, a :: (bpass n' (b :: l')).2)
  | _, _ => (true, l)
  end.

Lemma bpass_length n l : length (bpass n l).2 = length l.
Proof.
  revert l. induction n as [|n IH]; intros l; [done|]. destruct l as [|a [|b l]]; [done..|]. cbn [bpass].
  destruct (key a <? key b); cbn [snd length]; by rewrite IH.
Qed.

Lemma bpass_perm n l : (bpass n l).2 ≡ₚ l.
Proof.
  revert l. induction n as [|n IH]; intros l; [done|]. destruct l as [|a [|b l]]; [done..|]. cbn [bpass].
  destruct (key a <? key b); cbn [snd]; rewrite IH; [apply perm_swap|done].
Qed.

(** Two neighbours of an array. *)
Lemma arr_get_mid2 {A} (pre : list A) x y post i : i = Z.of_nat (length pre) →
  arr_get (pre ++ x :: y :: post) (i + 1) = Some y.
Proof.
  intros ->. replace (pre ++ x :: y :: post) with ((pre ++ [x]) ++ y :: post) by (rewrite <- app_assoc; reflexivity).
  apply arr_get_mid. rewrite length_app. simpl. lia.
Qed.

Lemma arr_set_mid2 {A} (pre : list A) x y z post i : i = Z.of_nat (length pre) →
  arr_set (pre ++ x :: y :: post) (i + 1) z = Some (pre ++ x :: z :: post).
Proof.
  intros ->. replace (pre ++ x :: y :: post) with ((pre ++ [x]) ++ y :: post) by (rewrite <- app_assoc; reflexivity).
  rewrite arr_set_mid by (rewrite length_app; simpl; lia). by rewrite <- app_assoc.
Qed.

Lemma bubble_pass_ok n cur pre post s : Forall is_byte cur → (n < length cur)%nat →
  bubble_pass n (Z.of_nat (length pre)) s (pre ++ cur ++ post) ((GetCardLogicValue <$> pre) ++ (GetCardLogicValue <$> cur)) =
    Some (s && (bpass n cur).1, pre ++ (bpass n cur).2 ++ post,
          (GetCardLogicValue <$> pre) ++ (GetCardLogicValue <$> (bpass n cur).2)).
Proof.
  revert cur pre s. induction n as [|n IH]; intros cur pre s Hb Hn; cbn [bubble_pass bpass fst snd]; [by rewrite andb_true_r|].
  destruct cur as [|a [|b cur]]; [simpl in Hn; lia..|]. apply Forall_cons in Hb as [Ha Hb]. pose proof Hb as Hb0.
  apply Forall_cons in Hb as [Hbb Hb].
  assert (Hv : Z.of_nat (length pre) = Z.of_nat (length (GetCardLogicValue <$> pre))) by (by rewrite length_fmap).
  rewrite !fmap_cons. cbn [app]. rewrite (arr_get_mid _ _ _ _ Hv). cbn [mbind option_bind].
  rewrite (arr_get_mid2 _ _ _ _ _ Hv). cbn [mbind option_bind]. rewrite (arr_get_mid pre a (b :: cur ++ post) _ eq_refl). cbn [mbind option_bind].
  rewrite (arr_get_mid2 pre a b (cur ++ post) _ eq_refl). cbn [mbind option_bind]. rewrite card_before_key by done.
  assert (Hnext : ∀ x y c s, Forall is_byte (y :: c) → (n < length (y :: c))%nat →
    bubble_pass n (Z.of_nat (length pre) + 1) s (pre ++ x :: y :: c ++ post)
      ((GetCardLogicValue <$> pre) ++ GetCardLogicValue x :: GetCardLogicValue y :: (GetCardLogicValue <$> c)) =
    Some (s && (bpass n (y :: c)).1, pre ++ x :: (bpass n (y :: c)).2 ++ post,
          (GetCardLogicValue <$> pre) ++ GetCardLogicValue x :: (GetCardLogicValue <$> (bpass n (y :: c)).2))).
  { intros x y c s' Hy Hl. specialize (IH (y :: c) (pre ++ [x]) s' Hy Hl).
    rewrite length_app, Nat2Z.inj_add in IH. cbn [length] in IH.
    rewrite !fmap_app, fmap_cons, fmap_nil in IH. repeat rewrite <- !app_assoc in IH. cbn [app] in IH.
    rewrite fmap_cons in IH. exact IH. }
  destruct (key a <? key b) eqn:E.
  - rewrite (arr_set_mid pre _ _ _ _ eq_refl). cbn [mbind option_bind]. rewrite (arr_set_mid2 pre _ _ _ _ _ eq_refl). cbn [mbind option_bind].
    rewrite (arr_set_mid _ _ _ _ _ Hv). cbn [mbind option_bind]. rewrite (arr_set_mid2 _ _ _ _ _ _ Hv). cbn [mbind option_bind].
    rewrite Hnext; [|by constructor|simpl in *; lia]. cbn [fst snd app]. by rewrite fmap_cons, andb_false_r.
  - rewrite Hnext; [|done|simpl in *; lia]. cbn [fst snd app]. by rewrite fmap_cons.
Qed.

(** What a pass over [n + 1] cards leaves: the smallest at the end of them. *)
Lemma bpass_min n l : (n < length l)%nat →
  ∃ l' m, (bpass n l).2 = l' ++ m :: drop (S n) l ∧ length l' = n ∧ Forall (λ x, card_ge x m) (take (S n) l).
Proof.
  revert l. induction n as [|n IH]; intros l Hn.
  - destruct l as [|a l]; [simpl in Hn; lia|]. exists [], a. split_and!; [done..|]. repeat constructor. unfold card_ge. lia.
  - destruct l as [|a [|b l]]; [simpl in Hn; lia..|]. cbn [bpass].
    destruct (Z.ltb_spec (key a) (key b)) as [E|E]; cbn [snd].
    + destruct (IH (a :: l)) as (l' & m & He & Hl & Hf); [simpl in *; lia|]. exists (b :: l'), m. rewrite He.
      split_and!; [done|simpl; lia|]. cbn [take] in *. apply Forall_cons in Hf as [Ha Hf].
      repeat constructor; [done| |done]. unfold card_ge in *. lia.
    + destruct (IH (b :: l)) as (l' & m & He & Hl & Hf); [simpl in *; lia|]. exists (a :: l'), m. rewrite He.
      split_and!; [done|simpl; lia|]. cbn [take] in *. apply Forall_cons in Hf as [Hb Hf].
      repeat constructor; [|done|done]. unfold card_ge in *. lia.
Qed.

(** A pass without exchange finds the cards in order. *)
Lemma bpass_sorted n l : (n < length l)%nat → (bpass n l).1 = true →
  (bpass n l).2 = l ∧ StronglySorted card_ge (take (S n) l).
Proof.
  revert l. induction n as [|n IH]; intros l Hn Hs.
  - split; [done|]. destruct l as [|a l]; [constructor|]. repeat constructor.
  - destruct l as [|a [|b l]]; [simpl in Hn; lia..|]. cbn [bpass] in *.
    destruct (Z.ltb_spec (key a) (key b)) as [E|E]; cbn [fst snd] in *; [done|].
    destruct (IH (b :: l)) as [He Hss]; [simpl in *; lia|done|]. rewrite He. split; [done|]. cbn [take] in *.
    constructor; [done|]. constructor; [done|]. inversion_clear Hss as [|? ? _ Hall].
    eapply Forall_impl; [done|]. intros x Hx. unfold card_ge in *. lia.
Qed.

(** The rounds of the sort: the cards behind [last] are in place. *)
Lemma sort_loop_ok f last cards post :
  Forall is_byte cards → 0 <= last < 256 → (Z.to_nat last < length cards)%nat → (Z.to_nat last < f)%nat →
  StronglySorted card_ge (drop (S (Z.to_nat last)) cards) →
  (∀ a b, a ∈ take (S (Z.to_nat last)) cards → b ∈ drop (S (Z.to_nat last)) cards → card_ge a b) →
  ∃ cards', sort_loop f last (cards ++ post) (GetCardLogicValue <$> cards) = Some (cards' ++ post) ∧
    cards' ≡ₚ cards ∧ StronglySorted card_ge cards'.
Proof.
  revert last cards. induction f as [|f IH]; intros last cards Hb Hr Hl Hf Hs Hge; [lia|]. cbn [sort_loop].
  pose proof (bubble_pass_ok (Z.to_nat last) cards [] post true Hb Hl) as Hp. cbn [length app fmap list_fmap] in Hp.
  change (Z.of_nat 0) with 0 in Hp. rewrite Hp. cbn [mbind option_bind andb]. clear Hp.
  destruct (bpass (Z.to_nat last) cards).1 eqn:E.
  - destruct (bpass_sorted _ _ Hl E) as [-> Hss]. exists cards. split_and!; [done..|].
    rewrite <- (take_drop (S (Z.to_nat last)) cards). by apply StronglySorted_app_2.
  - destruct (bpass_min _ _ Hl) as (l' & m & He & Hlen & Hmin).
    assert (Hpos : 0 < last). { destruct (Z.eq_dec last 0) as [->|]; [|lia]. cbn in E. by destruct cards. }
    pose proof (bpass_perm (Z.to_nat last) cards) as Hperm. rewrite He in *.
    assert (Hperm' : l' ++ [m] ≡ₚ take (S (Z.to_nat last)) cards).
    { rewrite <- (take_drop (S (Z.to_nat last)) cards) in Hperm at 2. rewrite cons_middle, app_assoc in Hperm.
      by apply Permutation_app_inv_r in Hperm. }
    rewrite Forall_forall in Hmin. unfold u8. rewrite Z.mod_small by lia.
    assert (Hn : S (Z.to_nat (last - 1)) = length l') by lia.
    destruct (IH (last - 1) (l' ++ m :: drop (S (Z.to_nat last)) cards)) as (cards' & Hc & Hp & Hss).
    + by rewrite Hperm.
    + lia.
    + rewrite length_app. cbn [length]. lia.
    + lia.
    + rewrite Hn, drop_app_length. constructor; [done|]. apply Forall_forall. intros b Hb'. apply Hge; [|done].
      rewrite <- Hperm'. set_solver.
    + rewrite Hn, drop_app_length, take_app_length. intros a b Ha Hb'. assert (Ha' : a ∈ take (S (Z.to_nat last)) cards).
      { rewrite <- Hperm'. set_solver. }
      apply elem_of_cons in Hb' as [->|Hb']; [by apply Hmin|by apply Hge].
    + exists cards'. split_and!; [done| |done]. by rewrite Hp.
Qed.

Lemma sort_values_ok cards post :
  sort_values (cards ++ post) (Z.of_nat (length cards)) = Some (GetCardLogicValue <$> cards).
Proof.
  unfold sort_values.
  assert (H : ∀ cs pre, mapM (λ i, c ← arr_get (pre ++ cs ++ post) i; Some (GetCardLogicValue c))
    (seqZ (Z.of_nat (length pre)) (Z.of_nat (length cs))) = Some (GetCardLogicValue <$> cs)).
  { induction cs as [|c cs IH]; intros pre; [done|]. rewrite seqZ_cons by (simpl; lia). cbn [mapM app].
    rewrite arr_get_mid by done. cbn [mbind option_bind].
    specialize (IH (pre ++ [c])). rewrite <- app_assoc, length_app in IH. cbn [app length] in IH.
    replace (Z.of_nat (length pre + 1)) with (Z.succ (Z.of_nat (length pre))) in IH by lia.
    replace (Z.pred (Z.of_nat (length (c :: cs)))) with (Z.of_nat (length cs)) by (simpl; lia).
    rewrite IH. done. }
  apply (H cards []).
Qed.

(** The cards of a hand are sorted in place; what is behind them stays. *)
Lemma sort_order_ok cards post : Forall is_byte cards → Z.of_nat (length cards) <= FULL_COUNT →
  ∃ cards', SortCardList (cards ++ post) (Z.of_nat (length cards)) ST_ORDER = Some (cards' ++ post) ∧
    cards' ≡ₚ cards ∧ StronglySorted card_ge cards'.
Proof.
  intros Hb Hn. unfold SortCardList, FULL_COUNT in *. cbn [ST_ORDER ST_CUSTOM ST_COUNT Z.eqb].
  destruct (Z.eqb_spec (Z.of_nat (length cards)) 0) as [E|E].
  - destruct cards; [|simpl in E; lia]. exists []. split_and!; [done..|constructor].
  - rewrite (proj2 (Z.ltb_ge _ _)) by lia. rewrite sort_values_ok. cbn [mbind option_bind].
    unfold u8. rewrite Z.mod_small by lia.
    destruct (sort_loop_ok (S (Z.to_nat (Z.of_nat (length cards)))) (Z.of_nat (length cards) - 1) cards post)
      as (cards' & -> & Hp & Hs); [done|lia..| | |exists cards'; done].
    + rewrite drop_ge by lia. constructor.
    + rewrite drop_ge by lia. intros a b _ Hb'. by apply not_elem_of_nil in Hb'.
Qed.

(** ** Lemmas: groups *)

(** The cards of value [v] at the front, at most [n]. *)
Fixpoint grab (n : nat) (v : Z) (l : list Z) : list Z :=
  match n, l with
  | S n', c :: l' => if GetCardLogicValue c =? v then c :: grab n' v l' else []
  | _, _ => []
  end.

(** The groups of equal cards of a sorted hand. *)
Fixpoint groups (n : nat) (l : list Z) : list (list Z) :=
  match n, l with
  | S n', c :: l' =>
      let g := c :: grab 3 (GetCardLogicValue c) l' in g :: groups n' (drop (length g) l)
  | _, _ => []
  end.

Lemma grab_length n v l : (length (grab n v l) <= n)%nat.
Proof. revert l. induction n as [|n IH]; intros [|c l]; simpl; try lia. case_match; simpl; [|lia]. specialize (IH l). lia. Qed.

Lemma grab_prefix n v l : grab n v l = take (length (grab n v l)) l.
Proof. revert l. induction n as [|n IH]; intros [|c l]; simpl; try done. case_match; simpl; [|done]. by rewrite <- IH. Qed.

Lemma grab_length_le n v l : (length (grab n v l) <= length l)%nat.
Proof. rewrite grab_prefix, length_take. lia. Qed.

Lemma same_loop_ok rest pre post v same : 1 <= same <= 4 →
  same_loop (length rest) (Z.of_nat (length pre)) (pre ++ rest ++ post) v same =
    Some (same + Z.of_nat (length (grab (Z.to_nat (4 - same)) v rest))).
Proof.
  revert pre same. induction rest as [|c rest IH]; intros pre same Hs; cbn [same_loop length].
  - f_equal. destruct (Z.to_nat (4 - same)); simpl; lia.
  - cbn [app]. rewrite arr_get_mid by done. cbn [mbind option_bind].
    destruct (Z.ltb_spec 4 (same + 1)).
    + replace (Z.to_nat (4 - same)) with 0%nat by lia. cbn [grab]. destruct (negb _); f_equal; simpl; lia.
    + replace (Z.to_nat (4 - same)) with (S (Z.to_nat (4 - (same + 1)))) by lia. cbn [grab].
      destruct (GetCardLogicValue c =? v); cbn [negb]; [|f_equal; simpl; lia].
      specialize (IH (pre ++ [c]) (same + 1)). rewrite <- app_assoc, length_app in IH. cbn [length app] in IH.
      replace (Z.of_nat (length pre + 1)) with (Z.of_nat (length pre) + 1) in IH by lia. rewrite IH by lia.
      f_equal. cbn [length]. lia.
Qed.

Lemma block_loop_ok g gpre gpost dn m j i base :
  i + j = Z.of_nat (length gpre) → base + j = Z.of_nat (length dn) → (length g <= m)%nat →
  block_loop (length g) j i (gpre ++ g ++ gpost) (dn ++ replicate m 0) base = Some (dn ++ g ++ replicate (m - length g) 0).
Proof.
  revert gpre dn m j. induction g as [|c g IH]; intros gpre dn m j Hi Hb Hm; cbn [block_loop length].
  - by rewrite Nat.sub_0_r.
  - cbn [app]. rewrite arr_get_mid by done. cbn [mbind option_bind]. cbn [length] in Hm.
    destruct m as [|m]; [lia|]. cbn [replicate]. rewrite arr_set_mid by done. cbn [mbind option_bind].
    specialize (IH (gpre ++ [c]) (dn ++ [c]) m (j + 1)). rewrite <- !app_assoc, !length_app in IH. cbn [length app] in IH.
    rewrite IH by lia. done.
Qed.

(** The groups of [k] cards. *)
Definition of_size (k : nat) (gs : list (list Z)) : list (list Z) := filter (λ g, length g = k) gs.

Definition pad (l : list Z) : list Z := l ++ replicate (40 - length l) 0.

(** The result holds the groups. *)
Definition rep (r : tagAnalyseResult) (gs : list (list Z)) : Prop :=
  cbBlockCount r = (λ k, Z.of_nat (length (of_size k gs))) <$> [1; 2; 3; 4]%nat ∧
  cbCardData r = (λ k, pad (concat (of_size k gs))) <$> [1; 2; 3; 4]%nat.

Lemma of_size_snoc k gs g : of_size k (gs ++ [g]) = of_size k gs ++ (if decide (length g = k) then [g] else []).
Proof. unfold of_size. rewrite filter_app, filter_cons, filter_nil. by case_decide. Qed.

Lemma concat_of_size k gs : length (concat (of_size k gs)) = (length (of_size k gs) * k)%nat.
Proof.
  induction gs as [|g gs IH]; [done|]. unfold of_size in *. rewrite filter_cons. case_decide; [|done].
  cbn [concat length]. rewrite length_app, IH. lia.
Qed.

Lemma concat_of_size_le k gs : (length (concat (of_size k gs)) <= length (concat gs))%nat.
Proof.
  induction gs as [|g gs IH]; [done|]. unfold of_size in *. rewrite filter_cons. cbn [concat]. case_decide; cbn [concat];
    rewrite ?length_app; lia.
Qed.

(** Entering the group [g], which becomes one of those of size [k]. *)
Lemma put_row gs g k gpre gpost : length g = k → (length (concat gs) + length g <= 40)%nat →
  block_loop k 0 (Z.of_nat (length gpre)) (gpre ++ g ++ gpost) (pad (concat (of_size k gs)))
    (Z.of_nat (length (of_size k gs)) * Z.of_nat k) = Some (pad (concat (of_size k (gs ++ [g])))).
Proof.
  intros Hk Hl. subst k. pose proof (concat_of_size_le (length g) gs). unfold pad at 1.
  rewrite block_loop_ok; [|lia|rewrite concat_of_size; lia|lia]. f_equal. rewrite of_size_snoc, decide_True, concat_app by done.
  unfold pad. cbn [concat]. rewrite app_nil_r, <- app_assoc, length_app. do 3 f_equal. lia.
Qed.

(** Arrays of four, by the size of the group. *)
Lemma four_get {A} (f : nat → A) k : (1 <= k <= 4)%nat → arr_get (f <$> [1; 2; 3; 4]%nat) (Z.of_nat k - 1) = Some (f k).
Proof. intros Hk. destruct k as [|[|[|[|[|k]]]]]; [lia|done..|lia]. Qed.

Lemma four_set {A} (f f' : nat → A) k x : (1 <= k <= 4)%nat → f' k = x → (∀ k', k' ≠ k → f' k' = f k') →
  arr_set (f <$> [1; 2; 3; 4]%nat) (Z.of_nat k - 1) x = Some (f' <$> [1; 2; 3; 4]%nat).
Proof.
  intros Hk <- Ho. cbn [fmap list_fmap]. destruct k as [|[|[|[|[|k]]]]]; [lia|..|lia];
    try rewrite (Ho 1%nat) by lia; try rewrite (Ho 2%nat) by lia; try rewrite (Ho 3%nat) by lia; try rewrite (Ho 4%nat) by lia; done.
Qed.

Lemma put_block_ok r gs g gpre gpost : rep r gs → (1 <= length g <= 4)%nat → (length (concat gs) + length g <= 40)%nat →
  ∃ r', put_block r (gpre ++ g ++ gpost) (Z.of_nat (length gpre)) (Z.of_nat (length g)) = Some r' ∧ rep r' (gs ++ [g]) ∧
    cbCardType r' = cbCardType r ∧ cbLogicValue r' = cbLogicValue r.
Proof.
  intros [Hbc Hcd] Hg Hl. unfold put_block.
  pose proof (concat_of_size (length g) gs) as Hlen. pose proof (concat_of_size_le (length g) gs) as Hle.
  assert (Hother : ∀ k, k ≠ length g → of_size k (gs ++ [g]) = of_size k gs).
  { intros k Hk. rewrite of_size_snoc, decide_False by done. apply app_nil_r. }
  rewrite Hbc, Hcd, (four_get (λ k, Z.of_nat (length (of_size k gs)))) by done. cbn [mbind option_bind].
  erewrite (four_set _ (λ k, Z.of_nat (length (of_size k (gs ++ [g]))))); [|done| |intros k' ?; by rewrite Hother].
  2: { rewrite of_size_snoc, decide_True, length_app by done. cbn [length]. rewrite u8_small by nia. lia. }
  cbn [mbind option_bind]. rewrite (four_get (λ k, pad (concat (of_size k gs)))) by done. cbn [mbind option_bind].
  rewrite Nat2Z.id, put_row by done. cbn [mbind option_bind].
  erewrite (four_set _ (λ k, pad (concat (of_size k (gs ++ [g]))))); [|done|done|intros k' ?; by rewrite Hother].
  eexists. split_and!; done.
Qed.

(** The loop enters the groups one after the other. *)
Lemma analyse_loop_ok n rest gs post r m :
  (length rest <= n)%nat → (length rest <= m)%nat → Forall (λ c, GetCardLogicValue c ≠ 0) rest → rep r gs →
  (length (concat gs) + length rest <= 40)%nat →
  ∃ r', analyse_loop n (Z.of_nat (length (concat gs))) (Z.of_nat (length (concat gs) + length rest))
      (concat gs ++ rest ++ post) r = Some r' ∧
    rep r' (gs ++ groups m rest) ∧ cbCardType r' = cbCardType r ∧ cbLogicValue r' = cbLogicValue r.
Proof.
  revert rest gs r m. induction n as [|n IH]; intros rest gs r m Hn Hm Hv Hr Hl; cbn [analyse_loop].
  { destruct rest; [|simpl in Hn; lia]. exists r. destruct m; by rewrite app_nil_r. }
  destruct rest as [|c rest].
  { rewrite (proj2 (Z.ltb_ge _ _)) by (simpl; lia). exists r. destruct m; by rewrite app_nil_r. }
  cbn [length] in *. destruct m as [|m]; [lia|]. rewrite (proj2 (Z.ltb_lt _ _)) by lia. cbn [app].
  rewrite arr_get_mid by done. cbn [mbind option_bind]. apply Forall_cons in Hv as [Hc Hv].
  rewrite (proj2 (Z.eqb_neq _ _) Hc). set (v := GetCardLogicValue c) in *.
  set (g := c :: grab 3 v rest). set (rest' := drop (length (grab 3 v rest)) rest).
  assert (Hsplit : rest = grab 3 v rest ++ rest').
  { unfold rest'. rewrite (grab_prefix 3 v rest) at 1. by rewrite take_drop. }
  pose proof (same_loop_ok rest (concat gs ++ [c]) post v 1) as Hsame. rewrite <- app_assoc, length_app in Hsame. cbn [app length] in Hsame.
  replace (Z.to_nat (Z.of_nat (length (concat gs) + S (length rest)) - (Z.of_nat (length (concat gs)) + 1))) with (length rest) by lia.
  replace (Z.of_nat (length (concat gs)) + 1) with (Z.of_nat (length (concat gs) + 1)) by lia. rewrite Hsame by lia. clear Hsame.
  cbn [mbind option_bind]. change (Z.to_nat (4 - 1)) with 3%nat.
  assert (Hg : 1 + Z.of_nat (length (grab 3 v rest)) = Z.of_nat (length g)) by (unfold g; simpl; lia). rewrite Hg.
  pose proof (grab_length 3 v rest) as Hgl. pose proof (grab_length_le 3 v rest) as Hgl2.
  assert (Hlr : length rest = (length (grab 3 v rest) + length rest')%nat) by (rewrite Hsplit at 1; apply length_app).
  destruct (put_block_ok r gs g (concat gs) (rest' ++ post) Hr) as (r1 & Hp & Hr1 & Ht1 & Hv1); [unfold g; cbn [length]; lia..|].
  replace (concat gs ++ c :: rest ++ post) with (concat gs ++ g ++ rest' ++ post).
  2: { unfold g. cbn [app]. do 2 f_equal. rewrite app_assoc. by rewrite <- Hsplit. }
  rewrite Hp. cbn [mbind option_bind].
  destruct (IH rest' (gs ++ [g]) r1 m) as (r2 & Hr2 & Hrep & Ht2 & Hv2);
    [unfold g in *; cbn [length] in *; lia|lia| |done|rewrite concat_app, length_app; cbn [concat]; rewrite app_nil_r; unfold g; cbn [length]; lia|].
  { rewrite Hsplit in Hv. by apply Forall_app in Hv as [_ Hv]. }
  rewrite concat_app in Hr2. cbn [concat] in Hr2. rewrite app_nil_r, <- app_assoc, length_app in Hr2.
  exists r2. split_and!.
  - rewrite <- Hr2. f_equal; unfold g; cbn [length]; lia.
  - cbn [groups]. fold v. fold g. change (drop (length g) (c :: rest)) with rest'. by rewrite <- app_assoc in Hrep.
  - by rewrite Ht2.
  - by rewrite Hv2.
Qed.

Lemma analyse_ok cards post : (length cards <= 40)%nat → Forall (λ c, GetCardLogicValue c ≠ 0) cards →
  ∃ r, AnalysebCardData (cards ++ post) (Z.of_nat (length cards)) = Some r ∧ rep r (groups (length cards) cards) ∧
    cbCardType r = 0 ∧ cbLogicValue r = 0.
Proof.
  intros Hl Hv. unfold AnalysebCardData. rewrite Nat2Z.id.
  destruct (analyse_loop_ok (length cards) cards [] post zero_analyse (length cards)) as (r & Hr & Hrep & Ht & Hlv); [done..|simpl; lia|].
  exists r. done.
Qed.

(** ** Hands from the deck *)

Abbreviation lv := GetCardLogicValue (only parsing).

(** A play: different cards of the deck, no more than fit. *)
Definition deck_hand (cards : list Z) : Prop :=
  NoDup cards ∧ Forall (λ c, c ∈ m_cbCardData) cards ∧ (length cards <= 20)%nat.

(** How many cards have the value. *)
Definition cntv (cards : list Z) (v : Z) : Z := Z.of_nat (length (filter (λ c, lv c = v) cards)).

(** What is checked for each of the 54 cards. *)
Definition deck_card_ok (c : Z) : bool :=
  (0 <=? c) && (c <? 256) && (3 <=? lv c) && (lv c <=? 17) && negb (wrong_card c) &&
  Bool.eqb (lv c =? 17) (c =? 66) && Bool.eqb (lv c =? 16) (c =? 65).

Lemma deck_cards c : c ∈ m_cbCardData → deck_card_ok c = true.
Proof.
  assert (H : forallb deck_card_ok m_cbCardData = true) by (vm_compute; reflexivity).
  rewrite forallb_forall in H. intros Hc. by apply H, list_elem_of_In.
Qed.

Lemma deck_values c : c ∈ m_cbCardData →
  is_byte c ∧ 3 <= lv c <= 17 ∧ wrong_card c = false ∧ (lv c = 17 ↔ c = 66) ∧ (lv c = 16 ↔ c = 65).
Proof.
  intros Hc. apply deck_cards in Hc. unfold deck_card_ok in Hc. bool_to_prop. unfold is_byte.
  repeat match goal with H : Bool.eqb _ _ = true |- _ => apply eqb_prop in H end.
  split_and!; try lia; done.
Qed.

Lemma cntv_pos cards v : 0 < cntv cards v ↔ ∃ c, c ∈ cards ∧ lv c = v.
Proof.
  unfold cntv. split.
  - intros H. destruct (filter (λ c, lv c = v) cards) as [|c l] eqn:E; [simpl in H; lia|].
    assert (Hc : c ∈ filter (λ c, lv c = v) cards) by (rewrite E; left). apply list_elem_of_filter in Hc as [? ?]. eauto.
  - intros (c & Hc & Hv). assert (Hin : c ∈ filter (λ c, lv c = v) cards) by (by apply list_elem_of_filter).
    destruct (filter _ _); [by apply not_elem_of_nil in Hin|simpl; lia].
Qed.

Lemma cntv_nonneg cards v : 0 <= cntv cards v.
Proof. unfold cntv. lia. Qed.

Lemma deck_count v : cntv m_cbCardData v <= 4.
Proof.
  destruct (decide (3 <= v <= 17)) as [Hv|Hv].
  - assert (H : forallb (λ v, cntv m_cbCardData v <=? 4) (seqZ 3 15) = true) by (vm_compute; reflexivity).
    rewrite forallb_forall in H. apply Z.leb_le, H, list_elem_of_In, elem_of_seqZ. lia.
  - destruct (decide (0 < cntv m_cbCardData v)) as [Hp|]; [|lia]. apply cntv_pos in Hp as (c & Hc & <-).
    apply deck_values in Hc as (_ & ? & _). lia.
Qed.

Lemma hand_count cards v : deck_hand cards → cntv cards v <= 4.
Proof.
  intros (Hd & Hf & _). etrans; [|apply (deck_count v)]. unfold cntv. apply Nat2Z.inj_le, submseteq_length.
  apply NoDup_submseteq; [by apply NoDup_filter|]. intros c [Hv Hc]%list_elem_of_filter. apply list_elem_of_filter.
  rewrite Forall_forall in Hf. auto.
Qed.

Lemma deck_hand_perm cards cards' : cards ≡ₚ cards' → deck_hand cards → deck_hand cards'.
Proof. intros Hp (Hd & Hf & Hl). unfold deck_hand. by rewrite <- Hp. Qed.

#[local] Instance cntv_proper : Proper (Permutation ==> eq ==> eq) cntv.
Proof. intros l l' Hl v ? <-. unfold cntv. by rewrite Hl. Qed.

Lemma cntv_cons c cards v : cntv (c :: cards) v = (if lv c =? v then 1 else 0) + cntv cards v.
Proof. unfold cntv. rewrite filter_cons. destruct (Z.eqb_spec (lv c) v); case_decide; simpl; lia. Qed.

Lemma cntv_app l l' v : cntv (l ++ l') v = cntv l v + cntv l' v.
Proof. unfold cntv. rewrite filter_app, length_app. lia. Qed.

(** ** The groups of a sorted hand *)

Definition gv (g : list Z) : Z := match g with c :: _ => lv c | [] => 0 end.

(** The groups, their values falling. *)
Record grouped (cards : list Z) (gs : list (list Z)) : Prop := mk_grouped {
  gr_concat : concat gs = cards;
  gr_same : Forall (λ g, g ≠ [] ∧ Forall (λ c, lv c = gv g) g) gs;
  gr_desc : StronglySorted (λ g h, gv h < gv g) gs
}.

(** Sorted by value. *)
Definition vsorted (l : list Z) : Prop := StronglySorted (λ a b, lv b <= lv a) l.

Lemma card_ge_lv l : Forall is_byte l → StronglySorted card_ge l → vsorted l.
Proof.
  unfold vsorted. induction l as [|c l IH]; intros Hb Hs; [constructor|]. apply Forall_cons in Hb as [Hc Hb].
  inversion_clear Hs as [|? ? Hs' Hall]. constructor; [by apply IH|]. apply Forall_forall. intros d Hd.
  rewrite Forall_forall in Hall, Hb. specialize (Hall d Hd). specialize (Hb d Hd). unfold card_ge, key, is_byte in *. lia.
Qed.

(** All cards of the first value are grabbed. *)
Lemma grab_all n v l : vsorted l → Forall (λ c, lv c <= v) l → cntv l v <= Z.of_nat n →
  Forall (λ c, lv c = v) (grab n v l) ∧ Forall (λ c, lv c < v) (drop (length (grab n v l)) l).
Proof.
  revert n. induction l as [|c l IH]; intros n Hs Hle Hn.
  - by destruct n.
  - inversion_clear Hs as [|? ? Hs' Hall]. apply Forall_cons in Hle as [Hc Hle]. rewrite cntv_cons in Hn.
    pose proof (cntv_nonneg l v). destruct (Z.eqb_spec (lv c) v) as [E|E].
    + destruct n as [|n]; [lia|]. cbn [grab]. rewrite (proj2 (Z.eqb_eq _ _) E). cbn [length drop].
      destruct (IH n Hs' Hle) as [H1 H2]; [lia|]. split; [by constructor|done].
    + assert (Hlt : Forall (λ c, lv c < v) (c :: l)).
      { constructor; [lia|]. eapply Forall_impl; [done|]. intros d Hd. cbn in Hd. lia. }
      replace (grab n v (c :: l)) with (@nil Z); [by split; [constructor|]|].
      destruct n; cbn [grab]; [done|]. by rewrite (proj2 (Z.eqb_neq _ _) E).
Qed.

Lemma sorted_drop {A} (R : A → A → Prop) n l : StronglySorted R l → StronglySorted R (drop n l).
Proof. revert l. induction n as [|n IH]; intros l Hs; [done|]. destruct Hs; [constructor|]. by apply IH. Qed.

Lemma groups_ok n l : (length l <= n)%nat → vsorted l → (∀ v, cntv l v <= 4) → grouped l (groups n l).
Proof.
  revert l. induction n as [|n IH]; intros l Hn Hs H4.
  { destruct l; [|simpl in Hn; lia]. split; [done|constructor..]. }
  destruct l as [|c l]; [split; [done|constructor..]|]. cbn [groups]. cbn [length drop].
  set (v := lv c). set (g := grab 3 v l). inversion_clear Hs as [|? ? Hs' Hall].
  destruct (grab_all 3 v l Hs') as [Hsame Hless].
  { eapply Forall_impl; [done|]. done. }
  { specialize (H4 v). rewrite cntv_cons in H4. unfold v in *. rewrite Z.eqb_refl in H4. lia. }
  fold g in Hsame, Hless. assert (Hsplit : l = g ++ drop (length g) l).
  { unfold g at 1. rewrite (grab_prefix 3 v l). fold g. by rewrite take_drop. }
  destruct (IH (drop (length g) l)) as [Hc Hg Hd].
  - rewrite length_drop. simpl in Hn. lia.
  - by apply sorted_drop.
  - intros u. specialize (H4 u). rewrite cntv_cons in H4. rewrite Hsplit, cntv_app in H4.
    pose proof (cntv_nonneg g u). case_match; lia.
  - split.
    + cbn [concat]. rewrite Hc. cbn [app]. by rewrite <- Hsplit.
    + constructor; [|done]. split; [done|]. constructor; done.
    + constructor; [done|]. apply Forall_forall. intros h Hh. cbn [gv]. fold v.
      rewrite Forall_forall in Hg. rewrite Forall_forall in Hless. destruct (Hg h Hh) as [Hne Hsh]. destruct h as [|x h]; [done|]. cbn [gv]. apply Hless.
      rewrite <- Hc. apply list_elem_of_In, in_concat. exists (x :: h). split; apply list_elem_of_In; [done|left].
Qed.

(** The group of a value holds all its cards. *)
Lemma cntv_same g v : Forall (λ c, lv c = v) g → ∀ u, cntv g u = if v =? u then Z.of_nat (length g) else 0.
Proof.
  induction 1 as [|c g Hc _ IH]; intros u; [by case_match|]. rewrite cntv_cons, IH, Hc. cbn [length]. zcases; lia.
Qed.

Lemma grouped_cons g gs cards : grouped cards (g :: gs) →
  grouped (concat gs) gs ∧ g ≠ [] ∧ Forall (λ c, lv c = gv g) g ∧ Forall (λ h, gv h < gv g) gs ∧ cards = g ++ concat gs.
Proof.
  intros [Hc Hs Hd]. apply Forall_cons in Hs as [[Hne Hg] Hs]. inversion_clear Hd. split_and!; try done.
Qed.

Lemma grouped_absent cards gs v : grouped cards gs → Forall (λ h, gv h ≠ v) gs → cntv cards v = 0.
Proof.
  revert cards. induction gs as [|g gs IH]; intros cards Hg Hv; [by destruct Hg as [<- _ _]|].
  apply grouped_cons in Hg as (Hg & _ & Hs & _ & ->). apply Forall_cons in Hv as [Hv1 Hv].
  rewrite cntv_app, (IH _ Hg Hv), (cntv_same _ _ Hs). zcases; lia.
Qed.

Lemma grouped_count cards gs g : grouped cards gs → g ∈ gs → cntv cards (gv g) = Z.of_nat (length g).
Proof.
  revert cards. induction gs as [|h gs IH]; intros cards Hg Hin; [by apply not_elem_of_nil in Hin|].
  apply grouped_cons in Hg as (Hg & _ & Hs & Hlt & ->). rewrite cntv_app, (cntv_same _ _ Hs).
  apply elem_of_cons in Hin as [->|Hin].
  - rewrite Z.eqb_refl, (grouped_absent _ gs); [lia|done|]. eapply Forall_impl; [done|]. intros k Hk. cbn in Hk. lia.
  - rewrite (IH _ Hg Hin). rewrite Forall_forall in Hlt. specialize (Hlt g Hin). zcases.
Qed.

Lemma grouped_value cards gs v : grouped cards gs → 0 < cntv cards v → ∃ g, g ∈ gs ∧ gv g = v.
Proof.
  intros Hg Hv. destruct (decide (Exists (λ g, gv g = v) gs)) as [He|He]; [by apply Exists_exists in He as (g & ? & ?); eauto|].
  rewrite (grouped_absent _ _ v Hg) in Hv; [lia|]. apply Forall_forall. intros h Hh E. apply He, Exists_exists. eauto.
Qed.

(** All groups have [k] cards iff the number of those is right. *)
Lemma all_of_size cards gs k : grouped cards gs → (0 < k)%nat →
  (length (of_size k gs) * k = length cards)%nat ↔ Forall (λ g, length g = k) gs.
Proof.
  intros [<- Hs _] Hk. split.
  - induction gs as [|g gs IH]; intros H; [constructor|]. apply Forall_cons in Hs as [[Hne _] Hs].
    cbn [concat] in H. rewrite length_app in H. unfold of_size in *. rewrite filter_cons in H.
    pose proof (concat_of_size k gs) as H1. pose proof (concat_of_size_le k gs) as H2. unfold of_size in H1, H2.
    destruct g as [|c g]; [done|]. case_decide as E; cbn [length] in *; [|lia].
    constructor; [done|]. apply IH; [done|]. lia.
  - induction 1 as [|g gs Hg Hf IH]; [done|]. apply Forall_cons in Hs as [_ Hs]. unfold of_size in *. rewrite filter_cons.
    rewrite decide_True by done. cbn [concat length]. rewrite length_app, <- IH by done. lia.
Qed.

(** ** Lines *)

(** How many groups follow each other from the value [v] down. *)
Fixpoint runlen (gs : list (list Z)) (v : Z) : nat :=
  match gs with
  | g :: gs' => if gv g =? v then S (runlen gs' (v - 1)) else 0
  | [] => 0
  end.

Lemma runlen_le gs v : (runlen gs v <= length gs)%nat.
Proof. revert v. induction gs as [|g gs IH]; intros v; simpl; [lia|]. case_match; [|lia]. specialize (IH (v - 1)). lia. Qed.

Lemma concat_length_size k (gs : list (list Z)) : Forall (λ g, length g = k) gs → length (concat gs) = (length gs * k)%nat.
Proof. induction 1 as [|g gs Hg _ IH]; [done|]. cbn [concat length]. rewrite length_app, IH. lia. Qed.

(** The first card of a group in the row of its size. *)
Lemma row_get k gs1 g gs2 z : Forall (λ g, length g = k) (gs1 ++ g :: gs2) → g ≠ [] →
  ∃ c, arr_get (concat (gs1 ++ g :: gs2) ++ z) (Z.of_nat (length gs1) * Z.of_nat k) = Some c ∧ lv c = gv g.
Proof.
  intros Hf Hne. apply Forall_app in Hf as [H1 H2]. destruct g as [|c g]; [done|]. exists c. split; [|done].
  rewrite concat_app. cbn [concat app]. rewrite <- app_assoc. cbn [app]. apply arr_get_mid. rewrite (concat_length_size k) by done. lia.
Qed.

Lemma link_loop_ok k v gs2 gs1 z : Forall (λ g, length g = k) (gs1 ++ gs2) → Forall (λ g, g ≠ []) gs2 →
  link_loop (length gs2) (Z.of_nat (length gs1)) (Z.of_nat k) v (concat (gs1 ++ gs2) ++ z) (Z.of_nat (length gs1)) =
    Some (Z.of_nat (length gs1 + runlen gs2 (v - Z.of_nat (length gs1)))).
Proof.
  revert gs1. induction gs2 as [|g gs2 IH]; intros gs1 Hf Hne; cbn [link_loop length runlen].
  - by rewrite Nat.add_0_r.
  - apply Forall_cons in Hne as [Hg Hne]. destruct (row_get k gs1 g gs2 z Hf Hg) as (c & -> & Hc). cbn [mbind option_bind].
    rewrite Hc. destruct (Z.eqb_spec (gv g) (v - Z.of_nat (length gs1))) as [E|E].
    + rewrite (proj2 (Z.eqb_eq _ _)) by lia. specialize (IH (gs1 ++ [g])). rewrite <- app_assoc, length_app in IH. cbn [app length] in IH.
      replace (Z.of_nat (length gs1 + 1)) with (Z.of_nat (length gs1) + 1) in IH by lia. rewrite IH by done. f_equal.
      replace (v - (Z.of_nat (length gs1) + 1)) with (v - Z.of_nat (length gs1) - 1) by lia. lia.
    + rewrite (proj2 (Z.eqb_neq _ _)) by lia. f_equal. lia.
Qed.

(** A line: [m] values from [v] down, [k] cards each, below the two. *)
Definition is_line (k mn : Z) (cards : list Z) (v : Z) : Prop :=
  ∃ m, mn <= m ∧ v <= 14 ∧ ∀ u, cntv cards u = if (v - m <? u) && (u <=? v) then k else 0.

Lemma runlen_full gs v : runlen gs v = length gs → ∀ i g, gs !! i = Some g → gv g = v - Z.of_nat i.
Proof.
  revert v. induction gs as [|g gs IH]; intros v Hr i h Hi; [done|]. cbn [runlen length] in Hr.
  destruct (Z.eqb_spec (gv g) v) as [E|E]; [|lia]. destruct i as [|i]; cbn in Hi; [injection Hi as <-; lia|].
  rewrite (IH (v - 1) ltac:(lia) i h Hi). lia.
Qed.

(** Falling values that fill an interval. *)
Lemma run_of_interval gs v m : 0 <= m → StronglySorted (λ g h, gv h < gv g) gs →
  (∀ u, (∃ g, g ∈ gs ∧ gv g = u) ↔ v - m < u <= v) → runlen gs v = length gs ∧ Z.of_nat (length gs) = m.
Proof.
  revert v m. induction gs as [|g gs IH]; intros v m Hm Hs Hu.
  - split; [done|]. destruct (Z.eq_dec m 0); [done|]. destruct (proj2 (Hu v)) as (g & Hg & _); [lia|]. by apply not_elem_of_nil in Hg.
  - inversion_clear Hs as [|? ? Hs' Hall]. rewrite Forall_forall in Hall.
    pose proof (proj1 (Hu (gv g)) (ex_intro _ g (conj (list_elem_of_here _ _) eq_refl))) as Hg.
    assert (E : gv g = v).
    { destruct (proj2 (Hu v)) as (h & Hh & Hv); [lia|]. apply elem_of_cons in Hh as [->|Hh]; [done|]. specialize (Hall h Hh). lia. }
    destruct (IH (v - 1) (m - 1)) as [H1 H2]; [lia|done| |].
    + intros u. split.
      * intros (h & Hh & <-). pose proof (proj1 (Hu (gv h)) (ex_intro _ h (conj (list_elem_of_further _ _ _ Hh) eq_refl))). specialize (Hall h Hh). lia.
      * intros Hr. destruct (proj2 (Hu u)) as (h & Hh & Hv); [lia|]. apply elem_of_cons in Hh as [->|Hh]; [lia|eauto].
    + cbn [runlen length]. rewrite (proj2 (Z.eqb_eq _ _) E). lia.
Qed.

Lemma line_of_run cards gs k v : grouped cards gs → Forall (λ g, length g = k) gs → (0 < k)%nat →
  runlen gs v = length gs →
  ∀ u, cntv cards u = if (v - Z.of_nat (length gs) <? u) && (u <=? v) then Z.of_nat k else 0.
Proof.
  intros Hg Hk Hpos Hr u. destruct (_ && _) eqn:E.
  - bool_to_prop. destruct (lookup_lt_is_Some_2 gs (Z.to_nat (v - u))) as [g Hi]; [lia|].
    pose proof (runlen_full _ _ Hr _ _ Hi) as Hv. assert (Hin : g ∈ gs) by (by eapply list_elem_of_lookup_2).
    replace u with (gv g) by lia. rewrite (grouped_count _ _ _ Hg Hin). rewrite Forall_forall in Hk. by rewrite Hk.
  - destruct (decide (0 < cntv cards u)) as [Hp|]; [|pose proof (cntv_nonneg cards u); lia]. exfalso.
    destruct (grouped_value _ _ _ Hg Hp) as (g & Hin & Hv). apply list_elem_of_lookup_1 in Hin as [i Hi].
    pose proof (runlen_full _ _ Hr _ _ Hi). apply lookup_lt_Some in Hi. bool_to_prop. destruct E; bool_to_prop; lia.
Qed.

Lemma run_of_line cards gs k mn v : grouped cards gs → (0 < k)%nat → 0 < mn → is_line (Z.of_nat k) mn cards v →
  Forall (λ g, length g = k) gs ∧ runlen gs v = length gs ∧ mn <= Z.of_nat (length gs) ∧ v <= 14.
Proof.
  intros Hg Hk Hmn (m & Hm & Hv & Hc).
  assert (Hsize : Forall (λ g, length g = k) gs).
  { apply Forall_forall. intros g Hin. pose proof (grouped_count _ _ _ Hg Hin) as H1. rewrite Hc in H1.
    destruct Hg as [_ Hs _]. rewrite Forall_forall in Hs. destruct (Hs g Hin) as [Hne _].
    destruct g; [done|]. case_match; cbn [length] in *; lia. }
  destruct (run_of_interval gs v m) as [H1 H2]; [lia|apply Hg| |by split_and!; [..|lia|]].
  intros u. split.
  - intros (g & Hin & <-). pose proof (grouped_count _ _ _ Hg Hin) as H1. rewrite Hc in H1.
    rewrite Forall_forall in Hsize. rewrite (Hsize g Hin) in H1. case_match; bool_to_prop; lia.
  - intros Hr. apply (grouped_value _ _ _ Hg). rewrite Hc. zcases. simpl. lia.
Qed.

Lemma of_size_all k (gs : list (list Z)) : Forall (λ g, length g = k) gs → of_size k gs = gs.
Proof. unfold of_size. induction 1 as [|g gs Hg _ IH]; [done|]. rewrite filter_cons, decide_True by done. by rewrite IH. Qed.

Lemma grouped_head cards gs c l : grouped cards gs → cards = c :: l → ∃ g gs', gs = g :: gs' ∧ gv g = lv c.
Proof.
  intros [<- Hs _] Hc. destruct gs as [|g gs]; [done|]. exists g, gs. split; [done|]. apply Forall_cons in Hs as [[Hne _] _].
  destruct g as [|d g]; [done|]. cbn in Hc. by injection Hc as -> _.
Qed.

Lemma line_case_ok r c l post gs k mn : rep r gs → grouped (c :: l) gs → (1 <= k <= 4)%nat → 0 < mn →
  ∃ o, line_case r ((c :: l) ++ post) (Z.of_nat (length (c :: l))) (Z.of_nat k) mn = Some o ∧
    ∀ v, o = Some v ↔ is_line (Z.of_nat k) mn (c :: l) v.
Proof.
  intros [Hbc Hcd] Hg Hk Hmn. unfold line_case. rewrite Hbc, Hcd, (four_get (λ k, Z.of_nat (length (of_size k gs)))) by done.
  cbn [mbind option_bind]. rewrite (four_get (λ k, pad (concat (of_size k gs)))) by done. cbn [mbind option_bind].
  destruct (grouped_head _ _ _ _ Hg eq_refl) as (g & gs' & Hgs & Hgv).
  assert (Hline : ∀ v, is_line (Z.of_nat k) mn (c :: l) v →
    Forall (λ g, length g = k) gs ∧ runlen gs v = length gs ∧ mn <= Z.of_nat (length gs) ∧ v <= 14 ∧ v = lv c).
  { intros v Hv. destruct (run_of_line (c :: l) gs k mn v Hg ltac:(lia) Hmn Hv) as (H1 & H2 & H3 & H4). split_and!; [done..|].
    rewrite Hgs in H2. cbn [runlen length] in H2. destruct (Z.eqb_spec (gv g) v); lia. }
  destruct (Z.eqb_spec (Z.of_nat (length (of_size k gs)) * Z.of_nat k) (Z.of_nat (length (c :: l)))) as [E|E]; cbn [negb].
  2: { exists None. split; [done|]. intros v. split; [done|]. intros Hv. apply Hline in Hv as (Hf & _).
       apply (all_of_size _ _ _ Hg) in Hf; [|lia]. exfalso. apply E. rewrite <- Hf. lia. }
  assert (Hf : Forall (λ g, length g = k) gs) by (apply (all_of_size _ _ _ Hg); [lia|]; apply Nat2Z.inj; rewrite <- E; lia).
  change (arr_get ((c :: l) ++ post) 0) with (Some c). cbn [mbind option_bind].
  destruct (Z.leb_spec 15 (lv c)) as [H15|H15].
  { exists None. split; [done|]. intros v. split; [done|]. intros Hv. apply Hline in Hv as (_ & _ & _ & ? & ->). lia. }
  rewrite (of_size_all k gs Hf), Nat2Z.id. unfold pad.
  pose proof (link_loop_ok k (lv c) gs [] (replicate (40 - length (concat gs)) 0) Hf) as Hlink. cbn [length app Nat.add] in Hlink.
  change (Z.of_nat 0) with 0 in Hlink. rewrite Z.sub_0_r in Hlink. rewrite Hlink; [|destruct Hg as [_ Hs _]; eapply Forall_impl; [exact Hs|]; intros x Hx; apply Hx].
  clear Hlink. cbn [mbind option_bind].
  assert (Hcl : length (c :: l) = (length gs * k)%nat) by (destruct Hg as [Hcc _ _]; rewrite <- Hcc; by apply concat_length_size).
  destruct (Z.ltb_spec (Z.of_nat (runlen gs (lv c))) mn).
  { exists None. split; [done|]. intros v. split; [done|]. intros Hv. apply Hline in Hv as (_ & H2 & H3 & _ & ->). lia. }
  destruct (Z.eqb_spec (Z.of_nat (runlen gs (lv c)) * Z.of_nat k) (Z.of_nat (length (c :: l)))) as [E2|E2]; cbn [negb].
  2: { exists None. split; [done|]. intros v. split; [done|]. intros Hv. apply Hline in Hv as (_ & H2 & H3 & _ & ->). nia. }
  exists (Some (lv c)). split; [done|]. intros v. split; [|intros Hv; apply Hline in Hv as (_ & _ & _ & _ & ->); done].
  intros [= <-]. exists (Z.of_nat (length gs)). split_and!; [|lia|].
  - pose proof (runlen_le gs (lv c)). lia.
  - apply line_of_run; [done..|lia|nia].
Qed.

(** ** Groups of three with cards *)

(** What [plane_loop] knows: no run yet, or a run of [link] groups from [tv]
    down, the last of value [last]. *)
Definition plane_inv (hs : list (list Z)) (n link tv last : Z) : Prop :=
  (link = 0 ∧ tv = 255) ∨
  (1 <= link ∧ tv ≠ 255 ∧ (5 < n → tv ≠ 15) ∧ last = tv - link + 1 ∧ tv <= 15 ∧
   ∀ u, tv - link < u <= tv → ∃ h, h ∈ hs ∧ gv h = u).

Lemma plane_loop_ok n gs2 gs1 z link tv last :
  Forall (λ g, length g = 3%nat) (gs1 ++ gs2) → Forall (λ g, g ≠ [] ∧ gv g <= 15) gs2 →
  StronglySorted (λ g h, gv h < gv g) gs2 → Forall (λ g, gv g < last) gs2 ∨ link = 0 →
  plane_inv (gs1 ++ gs2) n link tv last →
  ∃ link' tv' last', plane_loop (length gs2) (Z.of_nat (length gs1)) n (concat (gs1 ++ gs2) ++ z) link tv = Some (link', tv') ∧
    plane_inv (gs1 ++ gs2) n link' tv' last'.
Proof.
  revert gs1 link tv last. induction gs2 as [|g gs2 IH]; intros gs1 link tv last Hf Hne Hs Hlast Hinv; cbn [plane_loop length].
  { eauto. }
  apply Forall_cons in Hne as [[Hg H15] Hne]. inversion_clear Hs as [|? ? Hs' Hall].
  destruct (row_get 3 gs1 g gs2 z Hf Hg) as (c & Hc & Hv). rewrite Z.mul_comm in Hc. change (Z.of_nat 3) with 3 in Hc.
  rewrite Hc. cbn [mbind option_bind]. rewrite Hv. clear Hc c Hv.
  assert (Hin : ∃ h, h ∈ gs1 ++ g :: gs2 ∧ gv h = gv g) by (exists g; set_solver).
  assert (Hnext : ∀ link' tv' last', Forall (λ g, gv g < last') gs2 ∨ link' = 0 → plane_inv (gs1 ++ g :: gs2) n link' tv' last' →
    ∃ l t la, plane_loop (length gs2) (Z.of_nat (length gs1) + 1) n (concat (gs1 ++ g :: gs2) ++ z) link' tv' = Some (l, t) ∧
      plane_inv (gs1 ++ g :: gs2) n l t la).
  { intros link' tv' last' Hl' Hi'. specialize (IH (gs1 ++ [g]) link' tv' last'). rewrite <- app_assoc, length_app in IH. cbn [app length] in IH.
    replace (Z.of_nat (length gs1 + 1)) with (Z.of_nat (length gs1) + 1) in IH by lia. by apply IH. }
  clear IH. destruct Hinv as [[-> ->]|(Hl & Htv & Hn15 & -> & Ht15 & Hu)].
  - rewrite Z.eqb_refl. cbn [andb]. destruct ((gv g =? 15) && (5 <? n)) eqn:E.
    + apply (Hnext 0 255 0); [by right|by left].
    + rewrite (proj2 (Z.eqb_eq _ _)) by lia. apply (Hnext (0 + 1) (gv g) (gv g)); [by left|]. right.
      split_and!; try lia. intros u Hu. by replace u with (gv g) by lia.
  - rewrite (proj2 (Z.eqb_neq _ _) Htv). cbn [andb].
    destruct Hlast as [Hlast|]; [|lia]. apply Forall_cons in Hlast as [Hlt _].
    destruct (Z.eqb_spec (tv - gv g) link) as [E|E].
    + apply (Hnext (link + 1) tv (gv g)); [by left|]. right. split_and!; try done; try lia. intros u Hu'.
      destruct (Z.eq_dec u (gv g)) as [->|]; [done|]. apply Hu. lia.
    + destruct (Z.ltb_spec link 2).
      * apply (Hnext 1 (gv g) (gv g)); [by left|]. right. split_and!; try lia. intros u Hu'. by replace u with (gv g) by lia.
      * exists link, tv, (tv - link + 1). split; [done|]. right. split_and!; done.
Qed.

(** [m] groups of three from [v] down, no four equal cards. *)
Definition has_plane (cards : list Z) (v m : Z) : Prop :=
  1 <= m ∧ (2 <= m → v <= 14) ∧ (∀ u, v - m < u <= v → cntv cards u = 3) ∧ ∀ u, cntv cards u ≠ 4.

(** Exactly [m] values have two cards. *)
Definition pair_count (cards : list Z) (m : Z) : Prop :=
  ∃ us, NoDup us ∧ Z.of_nat (length us) = m ∧ ∀ u, u ∈ us ↔ cntv cards u = 2.

Lemma size_values cards gs k : grouped cards gs → (0 < k)%nat →
  let us := gv <$> of_size k gs in NoDup us ∧ ∀ u, u ∈ us ↔ cntv cards u = Z.of_nat k.
Proof.
  intros Hg Hk us. split.
  - unfold us, of_size. destruct Hg as [_ _ Hd]. clear - Hd. induction Hd as [|g gs _ IH Hall]; [constructor|].
    rewrite filter_cons. case_decide; [|done]. cbn [fmap list_fmap]. constructor; [|done].
    intros (h & Hh & [_ Hin]%list_elem_of_filter)%list_elem_of_fmap. rewrite Forall_forall in Hall. specialize (Hall h Hin). lia.
  - intros u. unfold us. rewrite list_elem_of_fmap. split.
    + intros (g & -> & [Hl Hin]%list_elem_of_filter). by rewrite (grouped_count _ _ _ Hg Hin), Hl.
    + intros Hu. destruct (grouped_value _ _ u Hg) as (g & Hin & <-); [lia|]. exists g. split; [done|].
      apply list_elem_of_filter. split; [|done]. rewrite (grouped_count _ _ _ Hg Hin) in Hu. lia.
Qed.

Lemma no_size cards gs k : grouped cards gs → (0 < k)%nat → length (of_size k gs) = 0%nat ↔ ∀ u, cntv cards u ≠ Z.of_nat k.
Proof.
  intros Hg Hk. destruct (size_values _ _ _ Hg Hk) as [_ Hu]. split.
  - intros H u Hc. apply Hu in Hc. apply length_zero_iff_nil in H. rewrite H in Hc. by apply not_elem_of_nil in Hc.
  - intros H. destruct (of_size k gs) as [|g l] eqn:E; [done|]. exfalso. apply (H (gv g)), Hu. cbn [fmap list_fmap]. left.
Qed.

(** ** The plays of the game *)

Definition rocket (cards : list Z) : Prop := 66 ∈ cards ∧ 65 ∈ cards.

(** [play cards ty v]: the cards have the shape of a play of kind [ty] and
    value [v]. *)
Inductive play (cards : list Z) : Z → Z → Prop :=
| play_single v : length cards = 1%nat → cntv cards v = 1 → play cards CT_SINGLE v
| play_double v : length cards = 2%nat → cntv cards v = 2 → play cards CT_DOUBLE v
| play_three v : length cards = 3%nat → cntv cards v = 3 → play cards CT_THREE v
| play_single_line v : is_line 1 5 cards v → play cards CT_SINGLE_LINE v
| play_double_line v : is_line 2 3 cards v → play cards CT_DOUBLE_LINE v
| play_three_line v : is_line 3 2 cards v → play cards CT_THREE_LINE v
| play_three_one v m : has_plane cards v m → Z.of_nat (length cards) = 4 * m → ¬ rocket cards →
    play cards CT_THREE_TAKE_ONE v
| play_three_two v m : has_plane cards v m → Z.of_nat (length cards) = 5 * m → pair_count cards m →
    ¬ rocket cards → play cards CT_THREE_TAKE_TWO v
| play_four_one v : length cards = 6%nat → cntv cards v = 4 → ¬ rocket cards → play cards CT_FOUR_TAKE_ONE v
| play_four_two v : length cards = 8%nat → cntv cards v = 4 → pair_count cards 2 → play cards CT_FOUR_TAKE_TWO v
| play_bomb v : length cards = 4%nat → cntv cards v = 4 → play cards CT_BOMB_CARD v
| play_missile : length cards = 2%nat → rocket cards → play cards CT_MISSILE_CARD 17.

(** The plays that the rules of a table allow, as CMD_Game.h documents its
    flags: three cards without others ([RULE_3_0]), three with a pair
    ([RULE_3_2]), four with two cards ([RULE_4_1]) and with two pairs
    ([RULE_4_2]) have to be allowed; without any flag everything is. *)
Definition permits (rule ty : Z) : bool :=
  let on r := 0 <? Z.land rule r in
  if rule =? 0 then true
  else if (ty =? CT_THREE) || (ty =? CT_THREE_LINE) then on RULE_3_0
  else if ty =? CT_THREE_TAKE_TWO then on RULE_3_2
  else if ty =? CT_FOUR_TAKE_ONE then on RULE_4_1
  else if ty =? CT_FOUR_TAKE_TWO then on RULE_4_2
  else true.

(** The code's own test of three and of four with two never says no. *)
Lemma valid_three rule : IsValidType rule CT_THREE 3 = true.
Proof. unfold IsValidType. destruct (rule =? 0); [done|]. cbn. by rewrite orb_true_r. Qed.

Lemma valid_four_one rule : IsValidType rule CT_FOUR_TAKE_ONE 6 = true.
Proof. unfold IsValidType. destruct (rule =? 0); [done|]. cbn. by rewrite orb_true_r. Qed.

Lemma cntv_le cards v : cntv cards v <= Z.of_nat (length cards).
Proof. unfold cntv. pose proof (length_filter (λ c, lv c = v) cards). lia. Qed.

(** All cards have the value. *)
Lemma cntv_all cards v : cntv cards v = Z.of_nat (length cards) → Forall (λ c, lv c = v) cards.
Proof.
  induction cards as [|c cards IH]; intros H; [constructor|]. rewrite cntv_cons in H. pose proof (cntv_le cards v). cbn [length] in H.
  destruct (Z.eqb_spec (lv c) v); [|lia]. constructor; [done|]. apply IH. lia.
Qed.

Lemma line_counts k mn cards v u : is_line k mn cards v → cntv cards u = 0 ∨ cntv cards u = k.
Proof. intros (m & _ & _ & H). rewrite H. case_match; auto. Qed.

Lemma line_high k mn cards v u : is_line k mn cards v → 14 < u → cntv cards u = 0.
Proof. intros (m & _ & ? & H) Hu. rewrite H. zcases; by rewrite ?andb_false_r. Qed.

Lemma cntv_head c l : 0 < cntv (c :: l) (lv c).
Proof. apply cntv_pos. exists c. split; [left|done]. Qed.

(** *** The parts of [classify] *)

Section classify.
Context (rule : Z) (c : Z) (l post : list Z) (gs : list (list Z)) (r : tagAnalyseResult).
Context (Hrep : rep r gs) (Hg : grouped (c :: l) gs) (Hhand : deck_hand (c :: l)).

Definition blocks (k : nat) : Z := Z.of_nat (length (of_size k gs)).

Lemma get_blocks k : (1 <= k <= 4)%nat → arr_get (cbBlockCount r) (Z.of_nat k - 1) = Some (blocks k).
Proof. intros Hk. destruct Hrep as [-> _]. by rewrite (four_get (λ k, Z.of_nat (length (of_size k gs)))). Qed.

Lemma get_row k : (1 <= k <= 4)%nat → arr_get (cbCardData r) (Z.of_nat k - 1) = Some (pad (concat (of_size k gs))).
Proof. intros Hk. destruct Hrep as [_ ->]. by rewrite (four_get (λ k, pad (concat (of_size k gs)))). Qed.

Lemma blocks_le k : blocks k * Z.of_nat k <= Z.of_nat (length (c :: l)).
Proof.
  unfold blocks. pose proof (concat_of_size k gs) as H1. pose proof (concat_of_size_le k gs) as H2.
  destruct Hg as [Hc _ _]. rewrite Hc in H2. lia.
Qed.

Lemma blocks_le2 j k : (j ≠ k)%nat → blocks j * Z.of_nat j + blocks k * Z.of_nat k <= Z.of_nat (length (c :: l)).
Proof.
  intros Hjk. unfold blocks. destruct Hg as [Hc _ _]. rewrite <- Hc. clear - Hjk.
  induction gs as [|g gs' IH]; [done|]. unfold of_size in *. rewrite !filter_cons. cbn [concat]. rewrite length_app.
  repeat case_decide; cbn [length]; lia.
Qed.

Lemma blocks_pos k v : (0 < k)%nat → cntv (c :: l) v = Z.of_nat k → 1 <= blocks k.
Proof.
  intros Hk Hv. destruct (size_values _ _ _ Hg Hk) as [_ Hu]. apply Hu in Hv. unfold blocks.
  destruct (of_size k gs); [by apply not_elem_of_nil in Hv|]. cbn [length]. lia.
Qed.

Lemma blocks_one k : (0 < k)%nat → blocks k = 1 → ∃ g, of_size k gs = [g] ∧ g ≠ [] ∧
  ∀ u, cntv (c :: l) u = Z.of_nat k ↔ u = gv g.
Proof.
  intros Hk Hb. unfold blocks in Hb. destruct (of_size k gs) as [|g [|? ?]] eqn:E; [simpl in Hb; lia| |simpl in Hb; lia].
  exists g. split; [done|]. split.
  - assert (Hin : g ∈ of_size k gs) by (rewrite E; left). apply list_elem_of_filter in Hin as [Hl _]. destruct g; [simpl in Hl; lia|done].
  - intros u. destruct (size_values _ _ _ Hg Hk) as [_ Hu]. rewrite <- Hu, E. cbn [fmap list_fmap]. apply list_elem_of_singleton.
Qed.

Lemma four_value_ok : blocks 4 = 1 → ∃ v, four_value r = Some v ∧ ∀ u, cntv (c :: l) u = 4 ↔ u = v.
Proof.
  intros Hb. destruct (blocks_one 4 ltac:(lia) Hb) as (g & Hs & Hne & Hu). exists (gv g). split; [|done].
  unfold four_value. pose proof (get_row 4 ltac:(lia)) as Hrow. change (Z.of_nat 4 - 1) with 3 in Hrow. rewrite Hrow, Hs. cbn [mbind option_bind concat]. rewrite app_nil_r.
  destruct g as [|d g]; [done|]. unfold pad. cbn [app]. done.
Qed.

Lemma pair_count_blocks m : blocks 2 = m ↔ pair_count (c :: l) m.
Proof.
  destruct (size_values _ _ 2 Hg) as [Hn Hu]; [lia|]. split.
  - intros <-. exists (gv <$> of_size 2 gs). split_and!; [done|by rewrite length_fmap|done].
  - intros (us & Hd & <- & Hus). unfold blocks. rewrite <- (length_fmap gv). apply f_equal, Permutation_length, NoDup_Permutation; [done..|].
    intros u. by rewrite Hu, Hus.
Qed.

Lemma triple_values k : (3 <= k)%nat → Forall (λ g, g ≠ [] ∧ gv g <= 15) (of_size k gs).
Proof.
  intros Hk. apply Forall_forall. intros g Hin. pose proof Hin as [Hl Hin']%list_elem_of_filter. destruct Hhand as (Hd & Hf & _).
  pose proof (grouped_count _ _ _ Hg Hin') as Hc. split; [intros ->; simpl in Hl; lia|].
  destruct (decide (gv g <= 15)); [done|]. exfalso. rewrite Hl in Hc.
  assert (Hjoker : ∀ d, d ∈ c :: l → lv d = gv g → d = 65 ∨ d = 66).
  { intros d Hd' Hv. rewrite Forall_forall in Hf. apply Hf, deck_values in Hd' as (_ & ? & _ & H17 & H16).
    destruct (Z.eq_dec (lv d) 17); [right; tauto|]. left. apply H16. lia. }
  assert (Hsub : filter (λ d, lv d = gv g) (c :: l) ⊆+ [65; 66]).
  { apply NoDup_submseteq; [by apply NoDup_filter|]. intros d [Hv Hd']%list_elem_of_filter. destruct (Hjoker d Hd' Hv); set_solver. }
  apply submseteq_length in Hsub. unfold cntv in Hc. cbn [length] in Hsub. lia.
Qed.

Let n := Z.of_nat (length (c :: l)).
Context (Hrocket : 2 < n → ¬ rocket (c :: l)).

Lemma of_size_desc k : StronglySorted (λ g h, gv h < gv g) (of_size k gs).
Proof.
  destruct Hg as [_ _ Hd]. unfold of_size. clear - Hd. induction Hd as [|g gs' _ IH Hall]; [constructor|].
  rewrite filter_cons. case_decide; [|done]. constructor; [done|]. apply Forall_forall.
  intros h [_ Hh]%list_elem_of_filter. rewrite Forall_forall in Hall. by apply Hall.
Qed.

Lemma plane_case_ok : ∃ o, plane_case rule r n = Some o ∧
  (∀ ty v, o = Some (ty, v) → play (c :: l) ty v ∧ (ty = CT_THREE_TAKE_ONE ∨ ty = CT_THREE_TAKE_TWO)) ∧
  (0 < blocks 4 ∨ n < 4 → o = None).
Proof.
  unfold plane_case. pose proof (get_blocks 4 ltac:(lia)) as B4. pose proof (get_blocks 3 ltac:(lia)) as B3.
  pose proof (get_blocks 2 ltac:(lia)) as B2. pose proof (get_row 3 ltac:(lia)) as R3.
  change (Z.of_nat 4 - 1) with 3 in B4. change (Z.of_nat 3 - 1) with 2 in B3, R3. change (Z.of_nat 2 - 1) with 1 in B2.
  rewrite B4. cbn [mbind option_bind]. destruct (Z.ltb_spec 0 (blocks 4)) as [E4|E4]; [by exists None|].
  rewrite B3. cbn [mbind option_bind]. rewrite R3. cbn [mbind option_bind]. unfold blocks at 1. rewrite Nat2Z.id.
  destruct (plane_loop_ok n (of_size 3 gs) [] (replicate (40 - length (concat (of_size 3 gs))) 0) 0 255 0)
    as (link & tv & last & Hl & Hinv);
    [cbn [app]; apply Forall_forall; by intros g [? _]%list_elem_of_filter|by apply triple_values|apply of_size_desc|by right|by left|].
  cbn [app length] in Hl. change (Z.of_nat 0) with 0 in Hl. unfold pad. rewrite Hl. cbn [mbind option_bind]. rewrite B2. cbn [mbind option_bind].
  assert (H4 : ∀ u, cntv (c :: l) u ≠ 4) by (apply (no_size _ _ 4 Hg); [lia|unfold blocks in E4; lia]).
  assert (Hn1 : 1 <= n) by (unfold n; cbn [length]; lia).
  assert (Hplane : link * 4 = n ∨ link * 5 = n → has_plane (c :: l) tv link).
  { intros Hn. destruct Hinv as [[-> ->]|(H1 & _ & H15 & _ & Ht & Hu)]; [lia|]. split_and!; [lia|intros; lia| |done].
    intros u Hr. destruct (Hu u Hr) as (h & Hh & <-). cbn [app] in Hh. apply list_elem_of_filter in Hh as [Hlen Hin].
    rewrite (grouped_count _ _ _ Hg Hin), Hlen. done. }
  destruct (Z.eqb_spec (link * 4) n) as [E1|E1]; [|destruct (_ && _) eqn:E2].
  - exists (Some (CT_THREE_TAKE_ONE, tv)). split_and!; [done| |lia]. intros ty v [= <- <-]. split; [|by left].
    apply (play_three_one _ _ link); [by apply Hplane; left|fold n; lia|]. apply Hrocket.
    destruct (Hplane (or_introl E1)) as [? _]. lia.
  - bool_to_prop. exists (Some (CT_THREE_TAKE_TWO, tv)). split_and!; [done| |lia]. intros ty v [= <- <-]. split; [|by right].
    apply (play_three_two _ _ link); [by apply Hplane; right|fold n; lia|by apply pair_count_blocks|]. apply Hrocket.
    destruct Hplane as [? _]; [by right|]. lia.
  - exists None. done.
Qed.

Context (c1 : Z) (Hc1 : arr_get ((c :: l) ++ post) 1 = Some c1).
Context (Hrk : 2 <= n → (c = 66 ∧ c1 = 65) ↔ rocket (c :: l)).

Lemma line_nonempty k mn v : 0 < k → is_line k mn (c :: l) v → cntv (c :: l) (lv c) = k.
Proof. intros Hk Hl. pose proof (cntv_head c l). destruct (line_counts _ _ _ _ (lv c) Hl); lia. Qed.

Lemma line_length k mn v : (0 < k)%nat → 0 < mn → is_line (Z.of_nat k) mn (c :: l) v → mn * Z.of_nat k <= n.
Proof.
  intros Hk Hmn Hl. destruct (run_of_line _ _ _ _ _ Hg Hk Hmn Hl) as (Hf & _ & Hm & _).
  unfold n. destruct Hg as [Hcc _ _]. rewrite <- Hcc, (concat_length_size k) by done. nia.
Qed.

(** The outcome of a whole [classify]: sound, and complete for the plays
    whose kind is not three with others. *)
Definition classified (res : option (Z * tagAnalyseResult)) : Prop :=
  ∃ ty r', res = Some (ty, r') ∧
    (ty ≠ CT_ERROR → cbCardType r' = ty ∧ play (c :: l) ty (cbLogicValue r')) ∧
    ∀ ty' v, play (c :: l) ty' v → ty' ≠ CT_THREE_TAKE_ONE → ty' ≠ CT_THREE_TAKE_TWO → ty = ty' ∧ cbLogicValue r' = v.

Lemma found_kind ty v : play (c :: l) ty v →
  (∀ ty' v', play (c :: l) ty' v' → ty' ≠ CT_THREE_TAKE_ONE → ty' ≠ CT_THREE_TAKE_TWO → ty = ty' ∧ v = v') →
  classified (Some (set_kind r ty v)).
Proof. intros Hp Hu. eexists _, _. split; [done|]. split; [done|]. exact Hu. Qed.

(** Facts of each kind that tell it from the others. *)
Definition kind_facts (ty v : Z) : Prop :=
  (ty = CT_SINGLE ∧ n = 1 ∧ v = lv c) ∨
  (ty = CT_DOUBLE ∧ n = 2 ∧ v = lv c ∧ lv c1 = lv c) ∨
  (ty = CT_THREE ∧ n = 3 ∧ v = lv c ∧ blocks 3 = 1) ∨
  (ty = CT_SINGLE_LINE ∧ 5 <= n ∧ is_line 1 5 (c :: l) v) ∨
  (ty = CT_DOUBLE_LINE ∧ 6 <= n ∧ is_line 2 3 (c :: l) v) ∨
  (ty = CT_THREE_LINE ∧ 6 <= n ∧ is_line 3 2 (c :: l) v) ∨
  (ty = CT_THREE_TAKE_ONE ∨ ty = CT_THREE_TAKE_TWO) ∨
  (ty = CT_FOUR_TAKE_ONE ∧ n = 6 ∧ blocks 4 = 1 ∧ cntv (c :: l) v = 4) ∨
  (ty = CT_FOUR_TAKE_TWO ∧ n = 8 ∧ blocks 4 = 1 ∧ blocks 2 = 2 ∧ cntv (c :: l) v = 4) ∨
  (ty = CT_BOMB_CARD ∧ n = 4 ∧ blocks 4 = 1 ∧ cntv (c :: l) v = 4) ∨
  (ty = CT_MISSILE_CARD ∧ n = 2 ∧ c = 66 ∧ c1 = 65 ∧ v = 17).

Lemma play_facts ty v : play (c :: l) ty v → kind_facts ty v.
Proof.
  intros Hp. unfold kind_facts. destruct Hp as [v Hl Hv|v Hl Hv|v Hl Hv|v Hv|v Hv|v Hv|v m|v m|v Hl Hv _|v Hl Hv Hpc|v Hl Hv|Hl Hr].
  - left. split_and!; [done|unfold n; lia|]. pose proof (cntv_all _ _ (eq_trans Hv (eq_sym (f_equal Z.of_nat Hl)))) as Ha.
    by inversion Ha.
  - right; left. pose proof (cntv_all _ _ (eq_trans Hv (eq_sym (f_equal Z.of_nat Hl)))) as Ha.
    destruct l as [|d [|? ?]]; [done| |done]. apply Forall_cons in Ha as [Ha Hb]. apply Forall_cons in Hb as [Hb _].
    cbn in Hc1. injection Hc1 as <-. split_and!; [done|unfold n; by rewrite Hl|done|by rewrite Ha].
  - right; right; left. pose proof (cntv_all _ _ (eq_trans Hv (eq_sym (f_equal Z.of_nat Hl)))) as Ha.
    pose proof (blocks_pos 3 v ltac:(lia) Hv). pose proof (blocks_le 3). fold n in H0.
    split_and!; [done|unfold n; by rewrite Hl| |unfold n in *; lia]. by inversion Ha.
  - do 3 right; left. pose proof (line_length 1 5 v ltac:(lia) ltac:(lia) Hv). split_and!; [done|lia|done].
  - do 4 right; left. pose proof (line_length 2 3 v ltac:(lia) ltac:(lia) Hv). split_and!; [done|lia|done].
  - do 5 right; left. pose proof (line_length 3 2 v ltac:(lia) ltac:(lia) Hv). split_and!; [done|lia|done].
  - do 6 right; left. by left.
  - do 6 right; left. by right.
  - do 7 right; left. pose proof (blocks_pos 4 v ltac:(lia) Hv). pose proof (blocks_le 4). fold n in H0.
    split_and!; [done|unfold n; by rewrite Hl|unfold n in *; lia|done].
  - do 8 right; left. pose proof (blocks_pos 4 v ltac:(lia) Hv). pose proof (blocks_le2 4 2 ltac:(lia)). fold n in H0.
    apply pair_count_blocks in Hpc. split_and!; [done|unfold n; by rewrite Hl|unfold n in *; lia|done|done].
  - do 9 right; left. pose proof (blocks_pos 4 v ltac:(lia) Hv). pose proof (blocks_le 4). fold n in H0.
    split_and!; [done|unfold n; by rewrite Hl|unfold n in *; lia|done].
  - do 10 right. apply Hrk in Hr as [-> ->]; [|unfold n; rewrite Hl; lia]. split_and!; try done. unfold n. by rewrite Hl.
Qed.

(** A line excludes every other kind. *)
Lemma line_only (k : nat) mn v ty' v' : (1 <= k <= 3)%nat → 3 < mn * Z.of_nat k → 0 < mn →
  is_line (Z.of_nat k) mn (c :: l) v → kind_facts ty' v' → ty' ≠ CT_THREE_TAKE_ONE → ty' ≠ CT_THREE_TAKE_TWO →
  (ty' = CT_SINGLE_LINE ∧ k = 1%nat ∧ is_line 1 5 (c :: l) v') ∨ (ty' = CT_DOUBLE_LINE ∧ k = 2%nat ∧ is_line 2 3 (c :: l) v') ∨
  (ty' = CT_THREE_LINE ∧ k = 3%nat ∧ is_line 3 2 (c :: l) v').
Proof.
  intros Hk Hmn Hm0 Hl Hf N1 N2. pose proof (line_length k mn v ltac:(lia) Hm0 Hl) as Hn. pose proof (line_nonempty (Z.of_nat k) mn v ltac:(lia) Hl) as Hc.
  unfold kind_facts in Hf. destruct_or? Hf; destruct_and? Hf; try lia; try done.
  - left. split_and!; [done| |done]. pose proof (line_nonempty 1 5 v' ltac:(lia) ltac:(done)). lia.
  - right; left. split_and!; [done| |done]. pose proof (line_nonempty 2 3 v' ltac:(lia) ltac:(done)). lia.
  - right; right. split_and!; [done| |done]. pose proof (line_nonempty 3 2 v' ltac:(lia) ltac:(done)). lia.
  - exfalso. destruct (line_counts _ _ _ _ v' Hl); lia.
  - exfalso. destruct (line_counts _ _ _ _ v' Hl); lia.
  - exfalso. destruct (line_counts _ _ _ _ v' Hl); lia.
Qed.

(** The bomb's value is taken twice, which changes nothing. *)
Lemma four_twice v : (∀ u, cntv (c :: l) u = 4 ↔ u = v) → blocks 4 = 1 → GetCardLogicValue v = v.
Proof.
  intros Hu Hb. destruct (blocks_one 4 ltac:(lia) Hb) as (g & Hs & _ & Hug). assert (v = gv g) as -> by (apply Hug, Hu; done).
  pose proof (triple_values 4 ltac:(lia)) as Ht. rewrite Hs in Ht. apply Forall_singleton in Ht as [_ Ht].
  assert (Hp : 0 < cntv (c :: l) (gv g)) by (rewrite (proj2 (Hug _) eq_refl); lia).
  apply cntv_pos in Hp as (d & Hd & Hv). destruct Hhand as (_ & Hf & _). rewrite Forall_forall in Hf. apply Hf in Hd.
  assert (H : forallb (λ d, (lv (lv d) =? lv d) || (15 <? lv d)) m_cbCardData = true) by (vm_compute; reflexivity).
  rewrite forallb_forall in H. specialize (H d (proj1 (list_elem_of_In _ _) Hd)). rewrite Hv in H. bool_to_prop.
  destruct H; bool_to_prop; [done|lia].
Qed.

Ltac by_kind Hf := unfold kind_facts in Hf; destruct_or? Hf; destruct_and? Hf; try lia; try done; subst; auto.

Ltac no_lines Hf L1 L2 L3 :=
  unfold kind_facts in Hf; destruct_or? Hf; destruct_and? Hf;
  try lia; try done; try (exfalso; by eapply L1); try (exfalso; by eapply L2); try (exfalso; by eapply L3).

(** The last four cases. *)
Lemma classify_tail : n ≠ 1 → ¬ (n = 2 ∧ lv c = lv c1) → ¬ (n = 3 ∧ blocks 3 = 1) →
  (∀ v, ¬ is_line 1 5 (c :: l) v) → (∀ v, ¬ is_line 2 3 (c :: l) v) → (∀ v, ¬ is_line 3 2 (c :: l) v) →
  classified
    (if (n =? 6) && (blocks 4 =? 1) && IsValidType rule CT_FOUR_TAKE_ONE n then
       v ← four_value r; Some (set_kind r CT_FOUR_TAKE_ONE v)
     else if (n =? 8) && (blocks 4 =? 1) && (blocks 2 =? 2) then
       v ← four_value r; Some (set_kind r CT_FOUR_TAKE_TWO v)
     else if (n =? 4) && (blocks 4 =? 1) then
       v ← four_value r; Some (set_kind r CT_BOMB_CARD (GetCardLogicValue v))
     else if (c =? 66) && (c1 =? 65) then Some (set_kind r CT_MISSILE_CARD 17)
     else Some (CT_ERROR, r)).
Proof.
  intros N1 N2 N3 L1 L2 L3.
  destruct ((n =? 6) && (blocks 4 =? 1) && IsValidType rule CT_FOUR_TAKE_ONE n) eqn:E6.
  { bool_to_prop. destruct four_value_ok as (v & -> & Hu); [done|]. cbn [mbind option_bind]. apply found_kind.
    - apply play_four_one; [unfold n in *; lia|by apply Hu|apply Hrocket; lia].
    - intros ty' v' Hp%play_facts M1 M2. no_lines Hp L1 L2 L3. split; [done|]. symmetry. by apply Hu. }
  destruct ((n =? 8) && (blocks 4 =? 1) && (blocks 2 =? 2)) eqn:E8.
  { bool_to_prop. destruct four_value_ok as (v & -> & Hu); [done|]. cbn [mbind option_bind]. apply found_kind.
    - apply play_four_two; [unfold n in *; lia|by apply Hu|by apply pair_count_blocks].
    - intros ty' v' Hp%play_facts M1 M2. no_lines Hp L1 L2 L3. split; [done|]. symmetry. by apply Hu. }
  destruct ((n =? 4) && (blocks 4 =? 1)) eqn:E4.
  { bool_to_prop. destruct four_value_ok as (v & -> & Hu); [done|]. cbn [mbind option_bind]. rewrite (four_twice v Hu) by done. apply found_kind.
    - apply play_bomb; [unfold n in *; lia|by apply Hu].
    - intros ty' v' Hp%play_facts M1 M2. no_lines Hp L1 L2 L3. split; [done|]. symmetry. by apply Hu. }
  assert (Hn2 : 2 <= n) by (unfold n in *; cbn [length] in *; lia).
  destruct ((c =? 66) && (c1 =? 65)) eqn:Er.
  { bool_to_prop. assert (Hr : rocket (c :: l)) by (by apply Hrk). assert (n = 2) by (destruct (decide (2 < n)); [by destruct Hrocket|lia]).
    apply found_kind; [apply play_missile; [unfold n in *; lia|done]|]. intros ty' v' Hp%play_facts M1 M2. by_kind Hp. }
  eexists _, _. split; [done|]. split; [done|]. intros ty' v' Hp%play_facts M1 M2. exfalso. unfold kind_facts in Hp.
  destruct_or? Hp; destruct_and? Hp; try done; try (by eapply L1); try (by eapply L2); try (by eapply L3); try tauto.
  - apply N2. split; congruence.
  - rewrite H1, valid_four_one, H0 in E6. done.
  - bool_to_prop. lia.
  - bool_to_prop. lia.
  - subst. done.
Qed.

Lemma classify_ok : classified (classify rule ((c :: l) ++ post) n r).
Proof.
  unfold classify. change (arr_get ((c :: l) ++ post) 0) with (Some c). cbn [mbind option_bind]. rewrite Hc1. cbn [mbind option_bind].
  pose proof (get_blocks 4 ltac:(lia)) as B4. pose proof (get_blocks 3 ltac:(lia)) as B3. pose proof (get_blocks 2 ltac:(lia)) as B2.
  change (Z.of_nat 4 - 1) with 3 in B4. change (Z.of_nat 3 - 1) with 2 in B3. change (Z.of_nat 2 - 1) with 1 in B2.
  rewrite B3. cbn [mbind option_bind]. rewrite B4. cbn [mbind option_bind]. rewrite B2. cbn [mbind option_bind]. clear B2 B3 B4.
  pose proof (cntv_head c l) as Hhd. pose proof (cntv_le (c :: l) (lv c)) as Hle. fold n in Hle.
  destruct (Z.eqb_spec n 1) as [E1|E1].
  { apply found_kind; [apply play_single; [unfold n in E1; lia|lia]|]. intros ty' v' Hp%play_facts N1 N2. by_kind Hp. }
  destruct ((n =? 2) && (lv c =? lv c1)) eqn:E2.
  { bool_to_prop. apply found_kind; [apply play_double; [unfold n in *; lia|]|].
    - destruct l as [|d [|? ?]]; [unfold n in *; simpl in *; lia| |unfold n in *; simpl in *; lia]. cbn in Hc1. injection Hc1 as ->.
      rewrite !cntv_cons, H0, Z.eqb_refl. done.
    - intros ty' v' Hp%play_facts N1 N2. by_kind Hp. exfalso. vm_compute in H0. done. }
  destruct ((n =? 3) && (blocks 3 =? 1) && IsValidType rule CT_THREE n) eqn:E3.
  { bool_to_prop. destruct (blocks_one 3 ltac:(lia) ltac:(done)) as (g & _ & _ & Hu).
    assert (Hall : cntv (c :: l) (gv g) = 3) by (by apply Hu). apply found_kind; [apply play_three; [unfold n in *; lia|]|].
    - rewrite <- Hall. f_equal. pose proof (cntv_all (c :: l) (gv g)) as Ha. fold n in Ha. rewrite Hall in Ha.
      specialize (Ha (eq_sym H)). by inversion Ha.
    - intros ty' v' Hp%play_facts N1 N2. by_kind Hp. }
  destruct (line_case_ok r c l post gs 1 5 Hrep Hg) as (o1 & Eo1 & L1); [lia..|]. fold n in Eo1. change (Z.of_nat 1) with 1 in Eo1, L1.
  rewrite Eo1. clear Eo1. cbn [mbind option_bind].
  destruct o1 as [v|].
  { pose proof (proj1 (L1 v) eq_refl) as Hl. apply found_kind; [by apply play_single_line|]. intros ty' v' Hp%play_facts N1 N2.
    destruct (line_only 1 5 v ty' v') as [(-> & _ & Hl')|[(_ & [=] & _)|(_ & [=] & _)]]; [lia..|done|done|done|done|].
    split; [done|]. apply L1 in Hl'. by injection Hl'. }
  destruct (line_case_ok r c l post gs 2 3 Hrep Hg) as (o2 & Eo2 & L2); [lia..|]. fold n in Eo2. change (Z.of_nat 2) with 2 in Eo2, L2.
  rewrite Eo2. clear Eo2. cbn [mbind option_bind].
  destruct o2 as [v|].
  { pose proof (proj1 (L2 v) eq_refl) as Hl. apply found_kind; [by apply play_double_line|]. intros ty' v' Hp%play_facts N1 N2.
    destruct (line_only 2 3 v ty' v') as [(_ & [=] & _)|[(-> & _ & Hl')|(_ & [=] & _)]]; [lia..|done|done|done|done|].
    split; [done|]. apply L2 in Hl'. by injection Hl'. }
  destruct (line_case_ok r c l post gs 3 2 Hrep Hg) as (o3 & Eo3 & L3); [lia..|]. fold n in Eo3. change (Z.of_nat 3) with 3 in Eo3, L3.
  rewrite Eo3. clear Eo3. cbn [mbind option_bind].
  destruct o3 as [v|].
  { pose proof (proj1 (L3 v) eq_refl) as Hl. apply found_kind; [by apply play_three_line|]. intros ty' v' Hp%play_facts N1 N2.
    destruct (line_only 3 2 v ty' v') as [(_ & [=] & _)|[(_ & [=] & _)|(-> & _ & Hl')]]; [lia..|done|done|done|done|].
    split; [done|]. apply L3 in Hl'. by injection Hl'. }
  assert (Hno : (∀ v, ¬ is_line 1 5 (c :: l) v) ∧ (∀ v, ¬ is_line 2 3 (c :: l) v) ∧ (∀ v, ¬ is_line 3 2 (c :: l) v)).
  { split_and!; intros v Hv; [apply L1 in Hv|apply L2 in Hv|apply L3 in Hv]; done. }
  destruct Hno as (Hno1 & Hno2 & Hno3). clear L1 L2 L3.
  destruct plane_case_ok as (p & -> & Hp & Hpn). cbn [mbind option_bind].
  destruct p as [[ty v]|].
  - destruct (Hp ty v eq_refl) as [Hplay Hty]. apply found_kind; [done|]. intros ty' v' Hf%play_facts N1 N2. exfalso.
    unfold kind_facts in Hf. destruct_or? Hf; destruct_and? Hf; try done; try (by eapply Hno1); try (by eapply Hno2); try (by eapply Hno3);
      first [enough (Some (ty, v) = None) by done; apply Hpn; lia].
  - apply classify_tail; try done; intros [Hn Hb].
    + apply andb_false_iff in E2 as [E2|E2]; bool_to_prop; lia.
    + rewrite Hn, valid_three, Hb in E3. done.
Qed.
End classify.

(** ** Results *)

Lemma cntv_perm cards cards' v : cards ≡ₚ cards' → cntv cards v = cntv cards' v.
Proof. intros Hp. by rewrite Hp. Qed.

Lemma rocket_perm cards cards' : cards ≡ₚ cards' → rocket cards ↔ rocket cards'.
Proof. intros Hp. unfold rocket. by rewrite Hp. Qed.

Lemma is_line_perm k mn cards cards' v : cards ≡ₚ cards' → is_line k mn cards v → is_line k mn cards' v.
Proof. intros Hp (m & ? & ? & H). exists m. split_and!; [done..|]. intros u. by rewrite <- (cntv_perm _ _ u Hp). Qed.

Lemma has_plane_perm cards cards' v m : cards ≡ₚ cards' → has_plane cards v m → has_plane cards' v m.
Proof.
  intros Hp (? & ? & H3 & H4). split_and!; [done..| |]; intros u; rewrite <- (cntv_perm _ _ u Hp); auto.
Qed.

Lemma pair_count_perm cards cards' m : cards ≡ₚ cards' → pair_count cards m → pair_count cards' m.
Proof. intros Hp (us & ? & ? & H). exists us. split_and!; [done..|]. intros u. by rewrite H, (cntv_perm _ _ u Hp). Qed.

#[local] Hint Resolve is_line_perm has_plane_perm pair_count_perm : land.

(** The order of the cards does not matter for what they are. *)
Lemma play_perm cards cards' ty v : cards ≡ₚ cards' → play cards ty v → play cards' ty v.
Proof.
  intros Hp H. pose proof (Permutation_length Hp) as Hl. pose proof (λ u, cntv_perm _ _ u Hp) as Hc. pose proof (rocket_perm _ _ Hp) as Hr.
  destruct H; econstructor; rewrite <- ?Hl, <- ?Hc, <- ?Hr; eauto with land.
Qed.

(** The two highest cards of a sorted hand are the jokers if it has both. *)
Lemma rocket_first c d l : deck_hand (c :: d :: l) → vsorted (c :: d :: l) → (c = 66 ∧ d = 65) ↔ rocket (c :: d :: l).
Proof.
  intros (Hd & Hf & _) Hs. assert (Hv : ∀ x, x ∈ c :: d :: l → x ∈ m_cbCardData) by (by apply Forall_forall).
  inversion_clear Hs as [|? ? Hs1 Hc]. inversion_clear Hs1 as [|? ? Hs2 Hd2]. split; [intros [-> ->]; unfold rocket; set_solver|].
  intros [H66 H65].
  assert (E : c = 66).
  { destruct (deck_values c (Hv c ltac:(left))) as (_ & Hr & _ & H17 & _). apply H17.
    apply elem_of_cons in H66 as [<-|H66]; [vm_compute; done|]. rewrite Forall_forall in Hc. specialize (Hc 66 H66).
    change (lv 66) with 17 in Hc. lia. }
  split; [done|]. subst c. apply elem_of_cons in H65 as [?|H65]; [done|].
  destruct (deck_values d (Hv d ltac:(right; left))) as (_ & Hr & _ & H17 & H16).
  apply elem_of_cons in H65 as [<-|H65]; [done|]. rewrite Forall_forall in Hd2. specialize (Hd2 65 H65).
  change (lv 65) with 16 in Hd2. apply H16. destruct (Z.eq_dec (lv d) 17) as [E|]; [|lia]. apply H17 in E. subst d.
  apply NoDup_cons in Hd as [Hd _]. set_solver.
Qed.

Lemma cntv_sum cards vs : NoDup vs → foldr (λ v a, cntv cards v + a) 0 vs <= Z.of_nat (length cards).
Proof.
  intros Hd. induction cards as [|c cards IH].
  - cbn [length]. clear Hd. induction vs as [|v vs IHv]; cbn [foldr]; [lia|]. change (cntv [] v) with 0. lia.
  - cbn [length]. enough (foldr (λ v a, cntv (c :: cards) v + a) 0 vs <= 1 + foldr (λ v a, cntv cards v + a) 0 vs) by lia.
    clear IH. assert (H : ∀ vs, lv c ∉ vs → foldr (λ v a, cntv (c :: cards) v + a) 0 vs = foldr (λ v a, cntv cards v + a) 0 vs).
    { clear. induction vs as [|v vs IHv]; intros Hn; [done|]. cbn [foldr]. rewrite cntv_cons, IHv by set_solver. zcases. set_solver. }
    induction Hd as [|v vs Hv Hd IHv]; [simpl; lia|]. cbn [foldr]. rewrite cntv_cons. destruct (Z.eqb_spec (lv c) v) as [<-|]; [|lia].
    rewrite H by done. lia.
Qed.

Lemma joker_count cards v : deck_hand cards → 15 < v → cntv cards v <= 1.
Proof.
  intros (Hd & Hf & _) Hv. unfold cntv. assert (Hs : filter (λ c, lv c = v) cards ⊆+ [if v =? 17 then 66 else 65]).
  { apply NoDup_submseteq; [by apply NoDup_filter|]. intros c [Hc Hin]%list_elem_of_filter. rewrite Forall_forall in Hf.
    apply Hf, deck_values in Hin as (_ & Hr & _ & H17 & H16). apply list_elem_of_singleton. destruct (Z.eqb_spec v 17); [apply H17; lia|apply H16; lia]. }
  apply submseteq_length in Hs. cbn [length] in Hs. lia.
Qed.

(** Both jokers with other cards are no play. *)
Lemma rocket_alone cards ty v : deck_hand cards → rocket cards → (2 < length cards)%nat → play cards ty v →
  ty ≠ CT_THREE_TAKE_ONE → ty ≠ CT_THREE_TAKE_TWO → False.
Proof.
  intros Hh Hr Hn Hp N1 N2.
  assert (H17 : 0 < cntv cards 17) by (apply cntv_pos; exists 66; split; [apply Hr|done]).
  assert (H16 : 0 < cntv cards 16) by (apply cntv_pos; exists 65; split; [apply Hr|done]).
  pose proof (joker_count cards 17 Hh ltac:(lia)). pose proof (joker_count cards 16 Hh ltac:(lia)).
  assert (Hsame : ∀ v, cntv cards v = Z.of_nat (length cards) → False).
  { intros u Hu%cntv_all. rewrite Forall_forall in Hu. pose proof (Hu 66 (proj1 Hr)) as A. pose proof (Hu 65 (proj2 Hr)) as B.
    vm_compute in A, B. congruence. }
  destruct Hp as [? Hl Hv|? Hl Hv|? Hl Hv|? Hv|? Hv|? Hv|? ? ?|? ? ?|? Hl Hv Hnr|? Hl Hv Hpc|? Hl Hv|Hl _]; try lia; try done.
  - apply (Hsame v). lia.
  - rewrite (line_high _ _ _ _ 17 Hv) in H17; lia.
  - rewrite (line_high _ _ _ _ 17 Hv) in H17; lia.
  - rewrite (line_high _ _ _ _ 17 Hv) in H17; lia.
  - destruct Hpc as (us & Hd & Hlen & Hus). destruct us as [|u1 [|u2 [|? ?]]]; simpl in Hlen; try lia.
    pose proof (proj1 (Hus u1) ltac:(left)) as C1. pose proof (proj1 (Hus u2) ltac:(right; left)) as C2.
    apply NoDup_cons in Hd as [Hne _]. assert (Hnd : NoDup [v; u1; u2; 16]).
    { assert (v ≠ u1 ∧ v ≠ u2 ∧ v ≠ 16 ∧ u1 ≠ 16 ∧ u2 ≠ 16) by (split_and!; intros E; subst; lia).
      assert (u1 ≠ u2) by (intros ->; apply Hne; left).
      repeat (apply NoDup_cons; split; [set_solver by lia|]). apply NoDup_nil_2. }
    apply (cntv_sum cards) in Hnd. cbn [foldr] in Hnd. lia.
  - apply (Hsame v). lia.
Qed.

Lemma no_wrong cards : Forall (λ c, c ∈ m_cbCardData) cards → existsb wrong_card cards = false.
Proof.
  induction 1 as [|c cards Hc _ IH]; [done|]. cbn [existsb]. rewrite IH. by apply deck_values in Hc as (_ & _ & -> & _).
Qed.

Lemma empty_play ty v : play [] ty v → False.
Proof.
  assert (Hl : ∀ k mn v, 0 < k → 0 < mn → is_line k mn [] v → False).
  { intros k mn u Hk Hm (m & ? & ? & H). specialize (H u). change (cntv [] u) with 0 in H. revert H. zcases; simpl; lia. }
  intros Hp. destruct Hp as [| | |? Hv|? Hv|? Hv|? m Hp _ _|? m Hp _ _ _|?|?|?|]; try done; try (by eapply Hl in Hv).
  - destruct Hp as (? & _ & H & _). specialize (H v). change (cntv [] v) with 0 in H. lia.
  - destruct Hp as (? & _ & H & _). specialize (H v). change (cntv [] v) with 0 in H. lia.
Qed.

Lemma analyse_out_ok rule cards : deck_hand cards →
  ∃ ty r, AnalyseOutCard rule cards (Z.of_nat (length cards)) = Some (ty, r) ∧
    (ty ≠ CT_ERROR → cbCardType r = ty ∧ play cards ty (cbLogicValue r)) ∧
    ∀ ty' v, play cards ty' v → ty' ≠ CT_THREE_TAKE_ONE → ty' ≠ CT_THREE_TAKE_TWO → ty = ty' ∧ cbLogicValue r = v.
Proof.
  intros Hh. pose proof Hh as (Hd & Hf & Hl). unfold AnalyseOutCard, copy_cards, MAX_COUNT.
  rewrite !(proj2 (Z.leb_le _ _)) by lia. cbn [andb mbind option_bind]. rewrite Nat2Z.id, firstn_all.
  set (post := replicate _ 0).
  assert (Hb : Forall is_byte cards) by (eapply Forall_impl; [done|]; intros c Hc; by apply deck_values in Hc as [? _]).
  destruct (sort_order_ok cards post Hb) as (cards' & -> & Hp & Hs); [unfold FULL_COUNT; lia|]. cbn [mbind option_bind].
  pose proof (Permutation_length Hp) as Hlen. assert (Hh' : deck_hand cards') by (by apply (deck_hand_perm cards)).
  assert (Hvs : vsorted cards') by (apply card_ge_lv; [by rewrite Hp|done]).
  assert (Hnz : Forall (λ c, lv c ≠ 0) cards').
  { destruct Hh' as (_ & Hf' & _). eapply Forall_impl; [done|]. intros c Hc. apply deck_values in Hc as (_ & ? & _). lia. }
  rewrite <- Hlen. destruct (analyse_ok cards' post) as (r & -> & Hrep & Ht & Hv); [lia|done|]. cbn [mbind option_bind].
  assert (Hg : grouped cards' (groups (length cards') cards')) by (apply groups_ok; [lia|done|intros v; by apply hand_count]).
  assert (Hpost : length (cards' ++ post) = 20%nat) by (unfold post; rewrite length_app, length_replicate; lia).
  rewrite take_app_length, no_wrong by apply Hh'.
  destruct cards' as [|c l].
  { assert (cards = []) as -> by (by destruct cards). unfold post. cbn. eexists _, _. split; [done|]. split; [done|].
    intros ty' v Hplay. by apply empty_play in Hplay. }
  destruct (arr_get_some ((c :: l) ++ post) 1) as [c1 Hc1]; [rewrite Hpost; lia|].
  change (arr_get ((c :: l) ++ post) 0) with (Some c). cbn [mbind option_bind]. rewrite Hc1. cbn [mbind option_bind].
  rewrite (proj2 (Z.eqb_neq _ _)) by (cbn [length]; lia).
  assert (Hrk : 2 <= Z.of_nat (length (c :: l)) → (c = 66 ∧ c1 = 65) ↔ rocket (c :: l)).
  { intros Hn. destruct l as [|d l]; [simpl in Hn; lia|]. cbn in Hc1. injection Hc1 as <-. by apply rocket_first. }
  destruct ((2 <? Z.of_nat (length (c :: l))) && (c =? 66) && (c1 =? 65)) eqn:E.
  - bool_to_prop. eexists _, _. split; [done|]. split; [done|]. intros ty' v Hplay N1 N2. exfalso.
    apply (rocket_alone cards ty' v); try done; [|lia]. apply (rocket_perm _ _ Hp), Hrk; [lia|done].
  - destruct (classify_ok rule c l post _ r Hrep Hg Hh') with (c1 := c1) as (ty & r' & -> & Hsound & Hcomp); [|done|done|].
    { intros Hn Hr. apply Hrk in Hr as [-> ->]; [|lia]. rewrite (proj2 (Z.ltb_lt _ _) Hn) in E. done. }
    exists ty, r'. split; [done|]. split.
    + intros Hty. destruct (Hsound Hty) as [? Hplay]. split; [done|]. by apply (play_perm (c :: l)).
    + intros ty' v Hplay. apply Hcomp. apply (play_perm cards); [done|done].
Qed.

(** ** Sorting by size of the group *)

(** The groups of four, of three, of two and of one. *)
Definition by_count (gs : list (list Z)) : list Z :=
  concat (of_size 4 gs) ++ concat (of_size 3 gs) ++ concat (of_size 2 gs) ++ concat (of_size 1 gs).

Lemma count_step r gs k A B :
  rep r gs → (k < 4)%nat → (length (concat (of_size (S k) gs)) <= length B)%nat → (length (concat (of_size (S k) gs)) <= 40)%nat →
  count_loop (S k) (Z.of_nat (length A)) (A ++ B) r =
  count_loop k (Z.of_nat (length (A ++ concat (of_size (S k) gs))))
    ((A ++ concat (of_size (S k) gs)) ++ drop (length (concat (of_size (S k) gs))) B) r.
Proof.
  intros [Hb Hc] Hk HB H40. cbn [count_loop]. rewrite Hb, Hc.
  replace (Z.of_nat k) with (Z.of_nat (S k) - 1) by lia. rewrite !four_get by lia. cbn [mbind option_bind].
  set (g := concat (of_size (S k) gs)) in *.
  replace (Z.of_nat (length (of_size (S k) gs)) * (Z.of_nat (S k) - 1 + 1)) with (Z.of_nat (length g))
    by (unfold g; rewrite concat_of_size; lia).
  assert (Hp : length (pad g) = 40%nat) by (unfold pad; rewrite length_app, length_replicate; lia).
  rewrite !(proj2 (Z.leb_le _ _)) by (rewrite ?Hp, ?length_app; lia). cbn [andb].
  rewrite <- Nat2Z.inj_add, !Nat2Z.id, take_app_length, <- length_app. f_equal.
  unfold pad. rewrite take_app_length, <- app_assoc. do 2 f_equal. rewrite length_app, <- drop_drop, drop_app_length. done.
Qed.

Lemma by_count_perm gs : Forall (λ g, 1 <= length g <= 4)%nat gs → by_count gs ≡ₚ concat gs.
Proof.
  induction 1 as [|g gs Hg _ IH]; [done|]. unfold by_count, of_size in *. rewrite !filter_cons. cbn [concat]. rewrite <- IH.
  assert (length g = 1 ∨ length g = 2 ∨ length g = 3 ∨ length g = 4)%nat as [E|[E|[E|E]]] by lia; rewrite E; cbn; solve_Permutation.
Qed.

Lemma count_loop_ok r gs post : rep r gs → Forall (λ g, 1 <= length g <= 4)%nat gs → (length (concat gs) <= 40)%nat →
  count_loop 4 0 (concat gs ++ post) r = Some (by_count gs ++ post).
Proof.
  intros Hr Hg Hl. pose proof (Permutation_length (by_count_perm gs Hg)) as Hp. unfold by_count in *. rewrite !length_app in Hp.
  pose proof (count_step r gs 3 [] (concat gs ++ post) Hr) as H. cbn [app length] in H. change (Z.of_nat 0) with 0 in H.
  rewrite H; clear H; [|rewrite ?length_app; lia..].
  do 3 (rewrite (count_step r gs); [|done|lia|rewrite ?length_drop, ?length_app; lia|lia]).
  cbn [count_loop]. rewrite !drop_drop, drop_app_ge by lia. f_equal. rewrite <- !app_assoc. do 4 f_equal.
  rewrite Hp, Nat.sub_diag. done.
Qed.

(** [a] may stand before [b] when larger groups come first. *)
Definition count_ge (cards : list Z) (a b : Z) : Prop :=
  cntv cards (lv b) < cntv cards (lv a) ∨ (cntv cards (lv a) = cntv cards (lv b) ∧ card_ge a b).

Lemma size_count cards gs k c : grouped cards gs → c ∈ concat (of_size k gs) → cntv cards (lv c) = Z.of_nat k.
Proof.
  intros Hg Hc. apply list_elem_of_In, in_concat in Hc as (g & Hin & Hcg). apply list_elem_of_In in Hin, Hcg.
  apply list_elem_of_filter in Hin as [Hk Hin]. pose proof (gr_same _ _ Hg) as Hs. rewrite Forall_forall in Hs. destruct (Hs g Hin) as [_ Hs'].
  rewrite Forall_forall in Hs'. rewrite (Hs' c Hcg), (grouped_count cards gs g) by done. lia.
Qed.

Lemma of_size_sorted k gs : StronglySorted card_ge (concat gs) → StronglySorted card_ge (concat (of_size k gs)).
Proof.
  induction gs as [|g gs IH]; intros Hs; [done|]. cbn [concat] in Hs. apply StronglySorted_app in Hs as (Hx & Hs1 & Hs2).
  unfold of_size in *. rewrite filter_cons. case_decide; [|by apply IH]. cbn [concat]. apply StronglySorted_app_2; [|done|by apply IH].
  intros a b Ha Hb. apply Hx; [done|]. apply list_elem_of_In, in_concat in Hb as (h & Hh & Hb). apply list_elem_of_In, in_concat.
  exists h. split; [|done]. apply list_elem_of_In. by apply list_elem_of_In, list_elem_of_filter in Hh as [_ Hh].
Qed.

Lemma by_count_sorted cards gs : grouped cards gs → StronglySorted card_ge cards → StronglySorted (count_ge cards) (by_count gs).
Proof.
  intros Hg Hs. assert (Hone : ∀ k, StronglySorted (count_ge cards) (concat (of_size k gs))).
  { intros k. assert (H : StronglySorted card_ge (concat (of_size k gs))) by (apply of_size_sorted; by rewrite (gr_concat _ _ Hg)).
    pose proof (λ c, size_count cards gs k c Hg) as Hc. revert H Hc. generalize (concat (of_size k gs)). clear.
    induction l as [|c l IH]; intros H Hc; [constructor|]. inversion_clear H as [|? ? H1 H2]. constructor; [apply IH; set_solver|].
    apply Forall_forall. intros d Hd. right. rewrite !Hc by set_solver. split; [done|]. rewrite Forall_forall in H2. auto. }
  assert (Hlt : ∀ k k' a b, (k' < k)%nat → a ∈ concat (of_size k gs) → b ∈ concat (of_size k' gs) → count_ge cards a b).
  { intros k k' a b Hk Ha Hb. left. rewrite (size_count cards gs k a), (size_count cards gs k' b) by done. lia. }
  unfold by_count. repeat apply StronglySorted_app_2; auto; intros a b Ha; rewrite ?elem_of_app; intros Hb; destruct_or? Hb;
    (eapply Hlt; [|eassumption|eassumption]; lia).
Qed.

Lemma groups_sizes n l : Forall (λ g, 1 <= length g <= 4)%nat (groups n l).
Proof.
  revert l. induction n as [|n IH]; intros [|c l]; cbn [groups]; try constructor; [|apply IH].
  cbn [length]. pose proof (grab_length 3 (lv c) l). lia.
Qed.

(** Sorting a hand by the sizes of its groups. *)
Lemma sort_count_ok cards post : deck_hand cards →
  ∃ cards', SortCardList (cards ++ post) (Z.of_nat (length cards)) ST_COUNT = Some (cards' ++ post) ∧
    cards' ≡ₚ cards ∧ StronglySorted (count_ge cards) cards'.
Proof.
  intros Hh. pose proof Hh as (Hd & Hf & Hl).
  assert (Hb : Forall is_byte cards) by (eapply Forall_impl; [done|]; intros c Hc; by apply deck_values in Hc as [? _]).
  destruct (sort_order_ok cards post Hb) as (s & Ho & Hp & Hs); [unfold FULL_COUNT; lia|].
  pose proof (Permutation_length Hp) as Hlen. assert (Hh' : deck_hand s) by (by apply (deck_hand_perm cards)).
  unfold SortCardList in *. cbn [ST_ORDER ST_COUNT ST_CUSTOM Z.eqb] in *.
  destruct (Z.eqb_spec (Z.of_nat (length cards)) 0) as [E|E].
  { destruct cards; [|done]. exists []. split_and!; [done..|constructor]. }
  rewrite (proj2 (Z.ltb_ge _ _)) in * by (unfold FULL_COUNT; lia). change (1 =? 0) with false. change (0 =? 1) with false in Ho.
  cbn [Z.eqb Pos.eqb] in *. destruct (sort_values _ _); [|done]. cbn [mbind option_bind] in *.
  destruct (sort_loop _ _ _ _) as [d|]; [|done]. cbn [mbind option_bind] in *. injection Ho as ->.
  assert (Hnz : Forall (λ c, lv c ≠ 0) s).
  { destruct Hh' as (_ & Hf' & _). eapply Forall_impl; [done|]. intros c Hc. apply deck_values in Hc as (_ & ? & _). lia. }
  rewrite <- Hlen. destruct (analyse_ok s post) as (r & -> & Hrep & _); [lia|done|]. cbn [mbind option_bind].
  assert (Hvs : vsorted s) by (apply card_ge_lv; [by rewrite Hp|done]).
  assert (Hg : grouped s (groups (length s) s)) by (apply groups_ok; [lia|done|intros v; by apply hand_count]).
  pose proof (groups_sizes (length s) s) as Hsz. pose proof (by_count_sorted _ _ Hg Hs) as Hsort.
  pose proof (by_count_perm _ Hsz) as Hperm. rewrite (gr_concat _ _ Hg) in Hperm.
  exists (by_count (groups (length s) s)). split_and!.
  - rewrite <- (gr_concat _ _ Hg) at 1. apply count_loop_ok; [done..|]. rewrite (gr_concat _ _ Hg). lia.
  - by rewrite Hperm.
  - revert Hsort. clear -Hp. induction 1 as [|? ? ? IH Hall]; constructor; [done|]. eapply Forall_impl; [done|].
    intros b. unfold count_ge. by rewrite !(cntv_perm _ _ _ Hp).
Qed.

#[global] Instance deck_hand_dec cards : Decision (deck_hand cards).
Proof. unfold deck_hand. apply _. Defined.

(** Concrete hands. *)
Ltac solve_hand := apply (bool_decide_unpack _); vm_compute; exact I.

(** A hand sorted in place: the cards behind the hand stay where they
    are, the hand becomes a permutation of itself, and it is ordered by value
    and suit ([ST_ORDER]) or by the size of the group of equal values first
    ([ST_COUNT]).  The loop ends, and no array is left. *)
Theorem sort_card_list_ok cards post : deck_hand cards →
  (∃ s, SortCardList (cards ++ post) (Z.of_nat (length cards)) ST_ORDER = Some (s ++ post) ∧ s ≡ₚ cards ∧
    StronglySorted card_ge s) ∧
  (∃ s, SortCardList (cards ++ post) (Z.of_nat (length cards)) ST_COUNT = Some (s ++ post) ∧ s ≡ₚ cards ∧
    StronglySorted (count_ge cards) s).
Proof.
  intros Hh. split; [|by apply sort_count_ok]. apply sort_order_ok; [|destruct Hh as (_ & _ & ?); unfold FULL_COUNT; lia].
  destruct Hh as (_ & Hf & _). eapply Forall_impl; [done|]. intros c Hc. by apply deck_values in Hc as [? _].
Qed.

Lemma sort_card_list_ok_witness : deck_hand [3; 66; 17; 35] ∧
  ∃ s, SortCardList [3; 66; 17; 35; 9] 4 ST_ORDER = Some (s ++ [9]) ∧ s ≡ₚ [3; 66; 17; 35] ∧ StronglySorted card_ge s.
Proof.
  assert (H : deck_hand [3; 66; 17; 35]) by solve_hand.
  split; [exact H|]. exact (proj1 (sort_card_list_ok [3; 66; 17; 35] [9] H)).
Defined.






(** A table that allows three with a pair only: three cards, two runs of three,
    and four with two cards or two pairs are classified as plays all the same. *)
Example rules_ignored :
  let rule := RULE_3_2 in
  (permits rule CT_THREE = false ∧ GetCardType rule [3; 19; 35] 3 = Some CT_THREE) ∧
  (permits rule CT_THREE_LINE = false ∧ GetCardType rule [3; 19; 35; 4; 20; 36] 6 = Some CT_THREE_LINE) ∧
  (permits rule CT_FOUR_TAKE_ONE = false ∧ GetCardType rule [3; 19; 35; 51; 4; 5] 6 = Some CT_FOUR_TAKE_ONE) ∧
  (permits rule CT_FOUR_TAKE_TWO = false ∧ GetCardType rule [3; 19; 35; 51; 4; 20; 5; 21] 8 = Some CT_FOUR_TAKE_TWO) ∧
  (permits RULE_4_1 CT_THREE_TAKE_TWO = false ∧ GetCardType RULE_4_1 [3; 19; 35; 4; 20] 5 = Some CT_ERROR).
Proof. vm_compute. auto 10. Qed.

(** The kinds of three cards, or runs of them, with others. *)
Definition wings (ty : Z) : Prop := ty = CT_THREE_TAKE_ONE ∨ ty = CT_THREE_TAKE_TWO.

Lemma play_kind cards ty v : play cards ty v → ty ≠ CT_ERROR.
Proof. by destruct 1. Qed.

(** [b] beats [a]. *)
Definition beats (rule : Z) (a b : list Z) : Prop :=
  CompareCard rule a b (Z.of_nat (length a)) (Z.of_nat (length b)) = Some true.

(** What [CompareCard] does with what the classification returns. *)
Lemma beats_kinds rule a b ta ra tb rb :
  AnalyseOutCard rule a (Z.of_nat (length a)) = Some (ta, ra) → AnalyseOutCard rule b (Z.of_nat (length b)) = Some (tb, rb) →
  beats rule a b ↔ ta ≠ CT_ERROR ∧ tb ≠ CT_ERROR ∧ ta ≠ CT_MISSILE_CARD ∧
    (tb = CT_MISSILE_CARD ∨ (ta ≠ CT_BOMB_CARD ∧ tb = CT_BOMB_CARD) ∨
     (ta = tb ∧ length a = length b ∧ cbLogicValue ra < cbLogicValue rb)).
Proof.
  intros Ha Hb. unfold beats, CompareCard. rewrite Ha, Hb. cbn [mbind option_bind].
  unfold CT_ERROR, CT_MISSILE_CARD, CT_BOMB_CARD. destruct (Z.eqb_spec (Z.of_nat (length a)) (Z.of_nat (length b)));
    zcases; cbn [negb andb orb]; split; intros HH; try congruence; try lia; try (split_and!; lia); f_equal; lia.
Qed.

(** C30. Beating is a strict order on hands of different cards: the comparison
    returns, no hand beats itself, and what beats a hand that beats a third one
    beats the third one.  For plays other than triples with wings it is the
    order of the game: the two jokers beat everything, four equal cards beat
    what is not four equal cards, and otherwise a play beats one of the same
    kind with as many cards and a lower value. *)
Theorem compare_order rule a b c : deck_hand a → deck_hand b → deck_hand c →
  (∃ x, CompareCard rule a b (Z.of_nat (length a)) (Z.of_nat (length b)) = Some x) ∧
  ¬ beats rule a a ∧ (beats rule a b → beats rule b c → beats rule a c) ∧
  ∀ ta va tb vb, play a ta va → play b tb vb → ¬ wings ta → ¬ wings tb →
    beats rule a b ↔ ta ≠ CT_MISSILE_CARD ∧
      (tb = CT_MISSILE_CARD ∨ (ta ≠ CT_BOMB_CARD ∧ tb = CT_BOMB_CARD) ∨ (ta = tb ∧ length a = length b ∧ va < vb)).
Proof.
  intros Ha Hb Hc. destruct (analyse_out_ok rule a Ha) as (ta & ra & Ea & _ & Ca). destruct (analyse_out_ok rule b Hb) as (tb & rb & Eb & _ & Cb).
  destruct (analyse_out_ok rule c Hc) as (tc & rc & Ec & _).
  split_and!; [unfold CompareCard; rewrite Ea, Eb; by eexists| | |].
  - rewrite (beats_kinds rule a a) by done. lia.
  - rewrite (beats_kinds rule a b), (beats_kinds rule b c), (beats_kinds rule a c) by done. unfold CT_BOMB_CARD, CT_MISSILE_CARD. lia.
  - intros ta' va tb' vb Hpa Hpb Na Nb. unfold wings in *. destruct (Ca ta' va Hpa) as [<- <-]; [tauto..|]. destruct (Cb tb' vb Hpb) as [<- <-]; [tauto..|].
    rewrite (beats_kinds rule a b) by done. pose proof (play_kind _ _ _ Hpa). pose proof (play_kind _ _ _ Hpb). tauto.
Qed.

Lemma compare_order_witness :
  beats 0 [3; 19] [4; 20] ∧ beats 0 [4; 20] [3; 19; 35; 51] ∧ beats 0 [3; 19] [3; 19; 35; 51].
Proof.
  assert (Ha : deck_hand [3; 19]) by solve_hand.
  assert (Hb : deck_hand [4; 20]) by solve_hand.
  assert (Hc : deck_hand [3; 19; 35; 51]) by solve_hand.
  destruct (compare_order 0 [3; 19] [4; 20] [3; 19; 35; 51] Ha Hb Hc) as (_ & _ & Ht & Hk).
  assert (H1 : beats 0 [3; 19] [4; 20]).
  { apply (Hk CT_DOUBLE 3 CT_DOUBLE 4); [by apply play_double|by apply play_double|intros [?|?]; discriminate|intros [?|?]; discriminate|].
    split; [discriminate|]. right; right. split; [reflexivity|]. split; [reflexivity|lia]. }
  assert (H2 : beats 0 [4; 20] [3; 19; 35; 51]) by (vm_compute; reflexivity).
  split; [exact H1|]. split; [exact H2|exact (Ht H1 H2)].
Defined.
