(* ===== verification/LandTable.v ===== *)
(** * The table of "Dou Dizhu": dealing, hands and the player's view

    3rd/land/GameLogic.cpp from the shuffling on, without the search for a
    play, and 3rd/land/GameUserItemSink.cpp: the state of one computer player.
    The player keeps the hands of all three chairs in its [CGameLogic] and its
    own hand and the numbers of cards a second time in [CGameUserItemSink].

    [rand] is a list of the numbers it will return.  A failed [ASSERT] (the
    build leaves them on) and an exception are [None], as is an access outside
    of an array.  The check macros and the printing are those of the build
    without [LYX_DEBUG]. *)

From Stdlib Require Import ZArith Lia.
From stdpp Require Import base tactics option numbers gmap list sorting.
From S2P Require Import Prelude LandCards.

Local Open Scope Z_scope.

Definition GAME_PLAYER : Z := 3.
Definition NORMAL_COUNT : Z := 17.
Definition INVALID_CHAIR : Z := 255.
Definition RULE_ShuangWang : Z := 8.
Definition RULE_3Zhua : Z := 16.

(** [CopyMemory(dst + off, src, n)] *)
Definition CopyMemory (dst : list Z) (off : Z) (src : list Z) (n : Z) : option (list Z) :=
  if (0 <=? n) && (n <=? Z.of_nat (length src)) && (0 <=? off) && (off + n <=? Z.of_nat (length dst))
  then Some (take (Z.to_nat off) dst ++ take (Z.to_nat n) src ++ drop (Z.to_nat (off + n)) dst)
  else None.

(** ** Dealing *)

(** The loop that all shuffles share: the card at a random place among those
    left from [base] on goes to [out[k]], and the last one takes its place. *)
Fixpoint pick_loop (n : nat) (size base k : Z) (rands out src : list Z) : option (list Z * list Z * list Z) :=
  match n with
  | O => Some (rands, out, src)
  | S n' =>
      match rands with
      | [] => None
      | r :: rands =>
          if size - k =? 0 then None
          else
            let cbPosition := u8 (base + Z.rem r (size - k)) in
            x ← arr_get src cbPosition;
            out ← arr_set out k x;
            y ← arr_get src (base + size - (k + 1));
            src ← arr_set src cbPosition y;
            pick_loop n' size base (k + 1) rands out src
      end
  end.

(** A do loop runs at least once. *)
Definition rounds (n : Z) : nat := Z.to_nat (Z.max 1 n).

Definition RandCardList (rands cbCardBuffer : list Z) (cbBufferCount : Z) : option (list Z * list Z) :=
  r ← pick_loop (rounds cbBufferCount) cbBufferCount 0 0 rands cbCardBuffer m_cbCardData;
  let '(rands, buffer, _) := r in Some (rands, buffer).

(** The first [cbCount] of the four cards of a value, in random order unless
    all are wanted. *)
Definition RandCardColor (rands : list Z) (cbCardValue cbCount : Z) : option (list Z * list Z) :=
  let CardTemp := (λ index, u8 (16 * index + cbCardValue)) <$> [0; 1; 2; 3] in
  if cbCount =? 4 then Some (rands, CardTemp)
  else
    r ← pick_loop 4 4 0 0 rands (replicate 4 0) CardTemp;
    let '(rands, CardCode, _) := r in
    code ← CopyMemory (replicate 4 0) 0 CardCode cbCount; Some (rands, code).

(** [CardType[k]] groups of [cbCount] cards into [GoodCard]. *)
Fixpoint good_loop (n : nat) (cbCount : Z) (rands GoodCard CardValue : list Z) (CardCount TempIndex : Z) :
    option (list Z * list Z * Z * Z) :=
  match n with
  | O => Some (rands, GoodCard, CardCount, TempIndex)
  | S n' =>
      v ← arr_get CardValue TempIndex;
      r ← RandCardColor rands v cbCount;
      GoodCard ← CopyMemory GoodCard CardCount r.2 cbCount;
      good_loop n' cbCount r.1 GoodCard CardValue (u8 (CardCount + cbCount)) (u8 (TempIndex + 1))
  end.

(** The search for [GoodCard[i]] in the buffer; it is exchanged with the card
    at its place in the player's hand. *)
Fixpoint good_search (n : nat) (j place card : Z) (buffer : list Z) : option (list Z) :=
  match n with
  | O => Some buffer
  | S n' =>
      c ← arr_get buffer j;
      if card =? c then
        temp ← arr_get buffer place;
        buffer ← arr_set buffer place card;
        arr_set buffer j temp
      else good_search n' (j + 1) place card buffer
  end.

Fixpoint good_place (n : nat) (i UserChairID cbBufferCount : Z) (GoodCard buffer : list Z) : option (list Z) :=
  match n with
  | O => Some buffer
  | S n' =>
      card ← arr_get GoodCard i;
      buffer ← good_search (Z.to_nat cbBufferCount) 0 (i + UserChairID * NORMAL_COUNT) card buffer;
      good_place n' (i + 1) UserChairID cbBufferCount GoodCard buffer
  end.

(** The hand of a chair in random order. *)
Definition mix_hand (rands buffer : list Z) (chair : Z) : option (list Z * list Z) :=
  let CurIndex := u8 (NORMAL_COUNT * chair) in
  r ← pick_loop (rounds NORMAL_COUNT) NORMAL_COUNT CurIndex 0 rands (replicate 17 0) buffer;
  let '(rands, cards, buffer) := r in
  buffer ← CopyMemory buffer CurIndex cards NORMAL_COUNT; Some (rands, buffer).

Definition RandGoodCardList (rands cbCardBuffer : list Z) (cbBufferCount UserChairID three four : Z) :
    option (list Z * list Z) :=
  r ← RandCardList rands cbCardBuffer cbBufferCount;
  let '(rands, buffer) := r in
  let CardCount := u8 (three * 3 + four * 4) in
  if (NORMAL_COUNT <? CardCount) || (CardCount =? 0) then Some (rands, buffer)
  else
    r ← pick_loop 11 13 0 0 rands (replicate 11 0) [1; 2; 3; 4; 5; 6; 8; 9; 11; 12; 13];
    let '(rands, CardValue, _) := r in
    r ← good_loop (Z.to_nat three) 3 rands (replicate 17 0) CardValue 0 0;
    let '(rands, GoodCard, CardCount, TempIndex) := r in
    r ← good_loop (Z.to_nat four) 4 rands GoodCard CardValue CardCount TempIndex;
    let '(rands, GoodCard, CardCount, _) := r in
    buffer ← good_place (Z.to_nat CardCount) 0 UserChairID cbBufferCount GoodCard buffer;
    mix_hand rands buffer UserChairID.

(** The first card below a king from [k] on changes places with the one at [i]. *)
Fixpoint low_search (n : nat) (k i : Z) (buffer : list Z) : option (list Z) :=
  match n with
  | O => Some buffer
  | S n' =>
      c ← arr_get buffer k;
      if GetCardLogicValue c <? 13 then
        temp ← arr_get buffer i;
        buffer ← arr_set buffer i c;
        arr_set buffer k temp
      else low_search n' (k + 1) i buffer
  end.

Fixpoint high_loop (n : nat) (i GoodChairID : Z) (buffer : list Z) : option (list Z) :=
  match n with
  | O => Some buffer
  | S n' =>
      c ← arr_get buffer i;
      buffer ← (if 13 <? GetCardLogicValue c then low_search 17 (GoodChairID * NORMAL_COUNT) i buffer else Some buffer);
      high_loop n' (i + 1) GoodChairID buffer
  end.

(** The first card equal to [card] from [j] on is given away. *)
Fixpoint bomb_search (n : nat) (j card GoodChairID : Z) (buffer : list Z) : option (list Z) :=
  match n with
  | O => Some buffer
  | S n' =>
      c ← arr_get buffer j;
      if c =? card then low_search 17 (GoodChairID * NORMAL_COUNT) j buffer
      else bomb_search n' (j + 1) card GoodChairID buffer
  end.

Fixpoint bomb_loop (n : nat) (i UserChairID GoodChairID : Z) (fours buffer : list Z) : option (list Z) :=
  match n with
  | O => Some buffer
  | S n' =>
      card ← arr_get fours (i * 4);
      buffer ← bomb_search 17 (UserChairID * NORMAL_COUNT) card GoodChairID buffer;
      bomb_loop n' (i + 1) UserChairID GoodChairID fours buffer
  end.

Definition RandBadCardList (rands cbCardBuffer : list Z) (cbBufferCount UserChairID : Z) : option (list Z * list Z) :=
  r ← RandCardList rands cbCardBuffer cbBufferCount;
  let '(rands, buffer) := r in
  let GoodChairID := Z.rem (UserChairID + 1) GAME_PLAYER in
  let at_ := Z.to_nat (UserChairID * NORMAL_COUNT) in
  buffer ← high_loop 17 (UserChairID * NORMAL_COUNT) GoodChairID buffer;
  hand ← SortCardList (drop at_ buffer) NORMAL_COUNT ST_ORDER;
  let buffer := take at_ buffer ++ hand in
  r ← AnalysebCardData hand NORMAL_COUNT;
  b4 ← arr_get (cbBlockCount r) 3;
  fours ← arr_get (cbCardData r) 3;
  buffer ← bomb_loop (Z.to_nat b4) 0 UserChairID GoodChairID fours buffer;
  mix_hand rands buffer GoodChairID.

(** ** Removing cards *)

(** The first card equal to [c] from [j] on becomes 0; the flag tells if there
    was one. *)
Fixpoint zero_first (n : nat) (j c : Z) (tmp : list Z) : option (bool * list Z) :=
  match n with
  | O => Some (false, tmp)
  | S n' =>
      d ← arr_get tmp j;
      if c =? d then tmp ← arr_set tmp j 0; Some (true, tmp)
      else zero_first n' (j + 1) c tmp
  end.

Fixpoint zero_loop (n : nat) (i : Z) (cbRemoveCard : list Z) (cbCardCount : Z) (tmp : list Z) (cbDeleteCount : Z) :
    option (Z * list Z) :=
  match n with
  | O => Some (cbDeleteCount, tmp)
  | S n' =>
      c ← arr_get cbRemoveCard i;
      r ← zero_first (Z.to_nat cbCardCount) 0 c tmp;
      zero_loop n' (i + 1) cbRemoveCard cbCardCount r.2 (if r.1 : bool then u8 (cbDeleteCount + 1) else cbDeleteCount)
  end.

(** The cards left move to the front. *)
Fixpoint compact_loop (n : nat) (i cbCardPos : Z) (tmp data : list Z) : option (list Z) :=
  match n with
  | O => Some data
  | S n' =>
      c ← arr_get tmp i;
      if c =? 0 then compact_loop n' (i + 1) cbCardPos tmp data
      else data ← arr_set data cbCardPos c; compact_loop n' (i + 1) (cbCardPos + 1) tmp data
  end.

Definition RemoveCard (cbRemoveCard : list Z) (cbRemoveCount : Z) (data : list Z) (cbCardCount : Z) : option (bool * list Z) :=
  if cbCardCount <? cbRemoveCount then Some (true, data)
  else if FULL_COUNT <? cbCardCount then Some (false, data)
  else
    tmp ← CopyMemory (replicate 54 0) 0 data cbCardCount;
    r ← zero_loop (Z.to_nat cbRemoveCount) 0 cbRemoveCard cbCardCount tmp 0;
    let '(cbDeleteCount, tmp) := r in
    if negb (cbDeleteCount =? cbRemoveCount) then Some (false, data)
    else
      zeroed ← CopyMemory data 0 (replicate (Z.to_nat cbCardCount) 0) cbCardCount;
      data ← compact_loop (Z.to_nat cbCardCount) 0 0 tmp zeroed;
      Some (true, data).

Example remove_test :
  RemoveCard [4; 66] 2 [66; 65; 4; 3; 0] 4 = Some (true, [65; 3; 0; 0; 0]) ∧
  RemoveCard [4; 5] 2 [66; 65; 4; 3; 0] 4 = Some (false, [66; 65; 4; 3; 0]) ∧
  RemoveCard [4; 5; 66] 3 [66; 65] 2 = Some (true, [66; 65]).
Proof. vm_compute. auto. Qed.

(** ** The hands of the chairs *)

Record tagOutCard := mk_out {
  oc_cbCardData : list Z;
  oc_cbCardCount : Z;
  oc_cbCardType : Z;
  oc_cbLogicValue : Z
}.

Definition zero_out : tagOutCard := mk_out (replicate 20 0) 0 0 0.

Record tagLastOutCard := mk_last { wOutUser : Z; stLastCard : tagOutCard }.

Definition zero_last : tagLastOutCard := mk_last 0 zero_out.

Record CGameLogic := mk_logic {
  m_cbLandScoreCardData : list Z;
  m_cbAllCount : list Z;
  m_cbAllCardData : list (list Z);
  m_wBankerUser : Z;
  gl_cbOutCount : list Z;
  m_LastOutCard : tagLastOutCard;
  m_ppRule : Z
}.

Definition new_logic : CGameLogic :=
  mk_logic (replicate 20 0) (replicate 3 0) (replicate 3 (replicate 20 0)) INVALID_CHAIR (replicate 3 0) zero_last 0.

Definition set_hands (g : CGameLogic) (counts : list Z) (rows : list (list Z)) : CGameLogic :=
  mk_logic (m_cbLandScoreCardData g) counts rows (m_wBankerUser g) (gl_cbOutCount g) (m_LastOutCard g) (m_ppRule g).

Definition SetppRule (g : CGameLogic) (rule : Z) : CGameLogic :=
  mk_logic (m_cbLandScoreCardData g) (m_cbAllCount g) (m_cbAllCardData g) (m_wBankerUser g) (gl_cbOutCount g) (m_LastOutCard g) rule.

(** The play is analysed and copied over the first bytes of the last one. *)
Definition AnalyseOutCard_out (rule : Z) (cards : list Z) (count : Z) (st : tagOutCard) : option (Z * tagOutCard) :=
  r ← AnalyseOutCard rule cards count;
  data ← CopyMemory (oc_cbCardData st) 0 cards count;
  Some (cbCardType r.2, mk_out data count (cbCardType r.2) (cbLogicValue r.2)).

Definition SetUserCard (g : CGameLogic) (wChairID : Z) (cards : list Z) (cbCardCount : Z) : option CGameLogic :=
  if GAME_PLAYER <=? wChairID then Some g
  else
    row ← arr_get (m_cbAllCardData g) wChairID;
    row ← CopyMemory row 0 cards cbCardCount;
    counts ← arr_set (m_cbAllCount g) wChairID cbCardCount;
    row ← SortCardList row cbCardCount ST_ORDER;
    rows ← arr_set (m_cbAllCardData g) wChairID row;
    Some (set_hands g counts rows).

Definition SetBackCard (g : CGameLogic) (wChairID : Z) (cbBackCardData : list Z) (cbCardCount : Z) : option CGameLogic :=
  if GAME_PLAYER <=? wChairID then Some g
  else
    cbTmpCount ← arr_get (m_cbAllCount g) wChairID;
    row ← arr_get (m_cbAllCardData g) wChairID;
    row ← CopyMemory row cbTmpCount cbBackCardData cbCardCount;
    let n := u8 (cbTmpCount + cbCardCount) in
    counts ← arr_set (m_cbAllCount g) wChairID n;
    row ← SortCardList row n ST_ORDER;
    rows ← arr_set (m_cbAllCardData g) wChairID row;
    Some (set_hands g counts rows).

Definition SetBanker (g : CGameLogic) (wBanker : Z) : CGameLogic :=
  mk_logic (m_cbLandScoreCardData g) (m_cbAllCount g) (m_cbAllCardData g) wBanker (gl_cbOutCount g) (m_LastOutCard g) (m_ppRule g).

Definition SetLandScoreCardData (g : CGameLogic) (cards : list Z) (cbCardCount : Z) : option CGameLogic :=
  _ ← c_assert (cbCardCount =? MAX_COUNT);
  data ← CopyMemory (m_cbLandScoreCardData g) 0 cards cbCardCount;
  data ← SortCardList data cbCardCount ST_ORDER;
  Some (mk_logic data (m_cbAllCount g) (m_cbAllCardData g) (m_wBankerUser g) (gl_cbOutCount g) (m_LastOutCard g) (m_ppRule g)).

Definition RemoveUserCardData (g : CGameLogic) (wChairID : Z) (cards : list Z) (n : Z) : option CGameLogic :=
  _ ← c_assert ((wChairID <? GAME_PLAYER) && (n <=? MAX_COUNT));
  row ← arr_get (m_cbAllCardData g) wChairID;
  count ← arr_get (m_cbAllCount g) wChairID;
  r ← RemoveCard cards n row count;
  _ ← c_assert r.1;
  _ ← c_assert (n <=? count);
  rows ← arr_set (m_cbAllCardData g) wChairID r.2;
  counts ← arr_set (m_cbAllCount g) wChairID (count - n);
  Some (set_hands g counts rows).

(** [None] for the cards is a null pointer. *)
Definition SetLastOutCard (g : CGameLogic) (wUser : Z) (cards : option (list Z)) (n : Z) : option CGameLogic :=
  let keep last := mk_logic (m_cbLandScoreCardData g) (m_cbAllCount g) (m_cbAllCardData g) (m_wBankerUser g) (gl_cbOutCount g) last (m_ppRule g) in
  match cards with
  | Some cards =>
      if (wUser <? GAME_PLAYER) && (0 <? n) then
        r ← AnalyseOutCard_out (m_ppRule g) cards n (stLastCard (m_LastOutCard g));
        Some (keep (mk_last wUser r.2))
      else Some (keep zero_last)
  | None => Some (keep zero_last)
  end.

Definition SetOutCount (g : CGameLogic) (cbOutCount : list Z) : option CGameLogic :=
  outs ← CopyMemory (gl_cbOutCount g) 0 cbOutCount GAME_PLAYER;
  Some (mk_logic (m_cbLandScoreCardData g) (m_cbAllCount g) (m_cbAllCardData g) (m_wBankerUser g) outs (m_LastOutCard g) (m_ppRule g)).

(** ** Calling the landlord *)

(** How many cards from [j] on have the value, without a limit. *)
Fixpoint same_run (n : nat) (j : Z) (data : list Z) (v same : Z) : option Z :=
  match n with
  | O => Some same
  | S n' =>
      c ← arr_get data j;
      if negb (GetCardLogicValue c =? v) then Some same else same_run n' (j + 1) data v (u8 (same + 1))
  end.

(** The bombs of a sorted hand, entered from [CardIndex] on. *)
Fixpoint bom_loop (n : nat) (i cbHandCardCount : Z) (data bom : list Z) (CardIndex cbBomCardCount : Z) : option (list Z * Z) :=
  match n with
  | O => Some (bom, cbBomCardCount)
  | S n' =>
      if i <? cbHandCardCount then
        c ← arr_get data i;
        same ← same_run (Z.to_nat (cbHandCardCount - (i + 1))) (i + 1) data (GetCardLogicValue c) 1;
        if same =? 4 then
          c1 ← arr_get data (i + 1); c2 ← arr_get data (i + 2); c3 ← arr_get data (i + 3);
          bom ← CopyMemory bom CardIndex [c; c1; c2; c3] 4;
          bom_loop n' (i + (same - 1) + 1) cbHandCardCount data bom (CardIndex + 4) (u8 (cbBomCardCount + 1))
        else bom_loop n' (i + (same - 1) + 1) cbHandCardCount data bom CardIndex cbBomCardCount
      else Some (bom, cbBomCardCount)
  end.

Definition GetAllBomCard (cards : list Z) (cbHandCardCount : Z) (bom : list Z) (cbBomCardCount : Z) : option (list Z * Z) :=
  tmp ← copy_cards cards cbHandCardCount;
  tmp ← SortCardList tmp cbHandCardCount ST_ORDER;
  if cbHandCardCount <? 2 then Some (bom, cbBomCardCount)
  else
    c0 ← arr_get tmp 0; c1 ← arr_get tmp 1;
    if (c0 =? 66) && (c1 =? 65) then
      bom ← CopyMemory bom 0 [c0; c1] 2;
      bom_loop (Z.to_nat cbHandCardCount) 0 cbHandCardCount tmp bom 2 (u8 (cbBomCardCount + 1))
    else bom_loop (Z.to_nat cbHandCardCount) 0 cbHandCardCount tmp bom 0 cbBomCardCount.

(** Jokers and twos. *)
Fixpoint head_loop (n : nat) (i : Z) (cards : list Z) (cbWangCount cbErCount : Z) : option (Z * Z) :=
  match n with
  | O => Some (cbWangCount, cbErCount)
  | S n' =>
      c ← arr_get cards i;
      head_loop n' (i + 1) cards
        (if (c =? 65) || (c =? 66) then u8 (cbWangCount + 1) else cbWangCount)
        (if GetCardLogicValue c =? 15 then u8 (cbErCount + 1) else cbErCount)
  end.

(** The decision from the numbers of jokers, twos and bombs. *)
Definition must_call (Rule wang er bom : Z) : bool :=
  if (Z.land Rule 255 <? RULE_ShuangWang) &&
     ((wang =? 2) || (er =? 4) || ((0 <? wang) && (2 <=? er)) || ((0 <? bom) && (0 <? wang) && (0 <? er)) ||
      ((0 <? bom) && (3 <=? er)) || ((2 <=? bom) && (2 <=? er)) || ((3 <=? bom) && (1 <=? er)) || (4 <=? bom))
  then true
  else if (0 <? Z.land Rule RULE_ShuangWang) && (1 <? wang) then true
  else (0 <? Z.land Rule RULE_3Zhua) && (3 <=? wang + er + bom).

Definition AnalyseLandScore (g : CGameLogic) (cards : list Z) (cbCardCount Rule : Z) : option (CGameLogic * bool) :=
  let g := if negb (Rule =? 0) then SetppRule g Rule else g in
  h ← head_loop (Z.to_nat cbCardCount) 0 cards 0 0;
  b ← GetAllBomCard cards cbCardCount (replicate 20 0) 0;
  Some (g, must_call Rule h.1 h.2 b.2).

Example land_score_test :
  (snd <$> AnalyseLandScore new_logic [66; 65; 3; 4] 4 0) = Some true ∧
  (snd <$> AnalyseLandScore new_logic [3; 19; 35; 51; 4; 20; 36; 52; 2; 18] 10 0) = Some true ∧
  (snd <$> AnalyseLandScore new_logic [3; 4; 5; 2] 4 0) = Some false.
Proof. vm_compute. auto. Qed.

(** ** The player *)

Record CGameUserItemSink := mk_sink {
  m_GameLogic : CGameLogic;
  m_wMeChairID : Z;
  m_wOutChairID : Z;
  m_cbOutCount : list Z;
  m_cbTurnCardCount : Z;
  m_cbTurnCardData : list Z;
  m_cbHandCardData : list Z;
  m_cbHandCardCount : list Z
}.

(** The constructor leaves the numbers of plays as they were in memory. *)
Definition new_sink (garbage : list Z) : CGameUserItemSink :=
  mk_sink new_logic INVALID_CHAIR INVALID_CHAIR garbage 0 (replicate 20 0) (replicate 20 0) (replicate 3 0).

(** The comparisons of the player with its logic. *)
Definition equalCardData (data1 : list Z) (len1 : Z) (data2 : list Z) (len2 : Z) : option bool :=
  if negb (len1 =? len2) then Some false
  else
    l ← mapM (λ i, a ← arr_get data1 i; b ← arr_get data2 i; Some (a =? b)) (seqZ 0 len1);
    Some (forallb id l).

Definition CheckGameLogicData (s : CGameUserItemSink) : option unit :=
  let g := m_GameLogic s in
  row ← arr_get (m_cbAllCardData g) (m_wMeChairID s);
  n ← arr_get (m_cbAllCount g) (m_wMeChairID s);
  hn ← arr_get (m_cbHandCardCount s) (m_wMeChairID s);
  eq ← equalCardData row n (m_cbHandCardData s) hn;
  _ ← c_assert eq;
  _ ← c_assert (bool_decide (take 3 (m_cbAllCount g) = take 3 (m_cbHandCardCount s)));
  _ ← c_assert (wOutUser (m_LastOutCard g) =? m_wOutChairID s);
  c_assert (bool_decide (take 3 (gl_cbOutCount g) = take 3 (m_cbOutCount s))).

Definition sink_SetUserCard (s : CGameUserItemSink) (wChairID : Z) (cards : list Z) (cbCardCount : Z) : option CGameUserItemSink :=
  outs ← arr_set (m_cbOutCount s) wChairID 0;
  counts ← arr_set (m_cbHandCardCount s) wChairID cbCardCount;
  g ← SetUserCard (m_GameLogic s) wChairID cards NORMAL_COUNT;
  g ← SetOutCount g outs;
  if wChairID =? m_wMeChairID s then
    hand ← CopyMemory (m_cbHandCardData s) 0 cards NORMAL_COUNT;
    n ← arr_get counts (m_wMeChairID s);
    hand ← SortCardList hand n ST_ORDER;
    Some (mk_sink g (m_wMeChairID s) (m_wOutChairID s) outs (m_cbTurnCardCount s) (m_cbTurnCardData s) hand counts)
  else
    Some (mk_sink g (m_wMeChairID s) (m_wOutChairID s) outs (m_cbTurnCardCount s) (m_cbTurnCardData s) (m_cbHandCardData s) counts).

(** The cards of an empty vector are a null pointer; none are copied then. *)
Definition sink_SetLastOutCard (s : CGameUserItemSink) (wUser : Z) (cards : option (list Z)) (n : Z) : option CGameUserItemSink :=
  turn ← CopyMemory (m_cbTurnCardData s) 0 (default [] cards) n;
  g ← SetLastOutCard (m_GameLogic s) wUser cards n;
  Some (mk_sink g (m_wMeChairID s) wUser (m_cbOutCount s) n turn (m_cbHandCardData s) (m_cbHandCardCount s)).

Definition sink_SetOutCount (s : CGameUserItemSink) (outs : list Z) : option CGameUserItemSink :=
  o ← CopyMemory (m_cbOutCount s) 0 outs GAME_PLAYER;
  g ← SetOutCount (m_GameLogic s) outs;
  Some (mk_sink g (m_wMeChairID s) (m_wOutChairID s) o (m_cbTurnCardCount s) (m_cbTurnCardData s) (m_cbHandCardData s) (m_cbHandCardCount s)).

Definition sink_SetBackCard (s : CGameUserItemSink) (wChairID : Z) (cards : list Z) (cbCardCount : Z) : option CGameUserItemSink :=
  have ← arr_get (m_cbHandCardCount s) wChairID;
  _ ← c_assert (have <=? NORMAL_COUNT);
  counts ← arr_set (m_cbHandCardCount s) wChairID (u8 (have + cbCardCount));
  hand ← (if wChairID =? m_wMeChairID s then
      hand ← CopyMemory (m_cbHandCardData s) have cards cbCardCount;
      SortCardList hand (u8 (have + cbCardCount)) ST_ORDER
    else Some (m_cbHandCardData s));
  g ← SetBackCard (m_GameLogic s) wChairID cards cbCardCount;
  Some (mk_sink g (m_wMeChairID s) (m_wOutChairID s) (m_cbOutCount s) (m_cbTurnCardCount s) (m_cbTurnCardData s) hand counts).

Definition SetMeChairId (s : CGameUserItemSink) (wMeChairID : Z) : CGameUserItemSink :=
  mk_sink (m_GameLogic s) wMeChairID (m_wOutChairID s) (m_cbOutCount s) (m_cbTurnCardCount s) (m_cbTurnCardData s)
    (m_cbHandCardData s) (m_cbHandCardCount s).

Definition OnUserOutCard (s : CGameUserItemSink) (wUser : Z) (cards : list Z) (n : Z) : option CGameUserItemSink :=
  out ← arr_get (m_cbOutCount s) wUser;
  outs ← arr_set (m_cbOutCount s) wUser (u8 (out + 1));
  g ← SetLastOutCard (m_GameLogic s) wUser (Some cards) n;
  turn ← CopyMemory (m_cbTurnCardData s) 0 cards n;
  hand ← (if m_wMeChairID s =? wUser then
      have ← arr_get (m_cbHandCardCount s) (m_wMeChairID s);
      r ← RemoveCard cards n (m_cbHandCardData s) have; Some r.2
    else Some (m_cbHandCardData s));
  g ← RemoveUserCardData g wUser cards n;
  g ← SetOutCount g outs;
  have ← arr_get (m_cbHandCardCount s) wUser;
  counts ← arr_set (m_cbHandCardCount s) wUser (u8 (have - n));
  let s := mk_sink g (m_wMeChairID s) wUser outs n turn hand counts in
  _ ← CheckGameLogicData s; Some s.

(** The choice of a play, for any search. *)
Section calc.
Context (SearchOutCard : CGameLogic → list Z → Z → list Z → Z → Z → Z → option (CGameLogic * tagOutCard)).

(** The smallest card of the hand. *)
Definition smallest_card (s : CGameUserItemSink) (have : Z) (st : tagOutCard) : option tagOutCard :=
  let n := Z.min have MAX_COUNT in
  cards ← CopyMemory (replicate 20 0) 0 (m_cbHandCardData s) n;
  cards ← SortCardList cards n ST_ORDER;
  c ← arr_get cards (n - 1);
  data ← arr_set (oc_cbCardData st) 0 c;
  Some (mk_out data 1 CT_SINGLE (oc_cbLogicValue st)).

(** The result with the play and the state of the player. *)
Definition CalcOutCard (s : CGameUserItemSink) (isMust : bool) : option (Z * tagOutCard * CGameUserItemSink) :=
  if GAME_PLAYER <=? m_wMeChairID s then Some (-1, zero_out, s)
  else
    let turn_n := if isMust then 0 else m_cbTurnCardCount s in
    let turn := if isMust then replicate 20 0 else m_cbTurnCardData s in
    g ← SetOutCount (m_GameLogic s) (m_cbOutCount s);
    let out := if (turn_n =? 0) || (m_wOutChairID s =? m_wMeChairID s) then INVALID_CHAIR else m_wOutChairID s in
    have ← arr_get (m_cbHandCardCount s) (m_wMeChairID s);
    r ← SearchOutCard g (m_cbHandCardData s) have turn turn_n out (m_wMeChairID s);
    let '(g, st) := r in
    let s := mk_sink g (m_wMeChairID s) out (m_cbOutCount s) turn_n turn (m_cbHandCardData s) (m_cbHandCardCount s) in
    if have <? oc_cbCardCount st then None
    else
      ty ← (if 0 <? oc_cbCardCount st then GetCardType (m_ppRule g) (oc_cbCardData st) (oc_cbCardCount st) else Some CT_SINGLE);
      if ty =? CT_ERROR then Some (-3, zero_out, s)
      else if isMust then
        if oc_cbCardCount st =? 0 then
          if have =? 0 then Some (-4, st, s)
          else st ← smallest_card s have st; Some (1, st, s)
        else Some (1, st, s)
      else
        c ← CompareCard (m_ppRule g) turn (oc_cbCardData st) turn_n (oc_cbCardCount st);
        if negb c then Some (0, st, s)
        else if oc_cbCardCount st <=? 0 then Some (0, st, s) else Some (1, st, s).
End calc.

(** ** Dealing gives every card once *)

(** Taking the card at a place out of a window and closing the gap with the
    last one keeps the others. *)
Lemma take_last_perm (w : list Z) p x y : w !! p = Some x → last w = Some y →
  x :: take (length w - 1) (<[p := y]> w) ≡ₚ w.
Proof.
  intros Hp Hy. destruct w as [|a w _] using rev_ind; [done|]. rewrite last_snoc in Hy. injection Hy as ->.
  rewrite length_app, Nat.add_sub. destruct (decide (p < length w)%nat) as [Hlt|Hge].
  - rewrite lookup_app_l in Hp by done. rewrite insert_app_l, <- (length_insert w p y), take_app_length by done.
    rewrite <- (take_drop_middle w p x) at 2 by done. rewrite insert_take_drop by done.
    rewrite <- app_assoc. cbn [app]. solve_Permutation.
  - rewrite lookup_app_r in Hp by lia. destruct (p - length w)%nat as [|k] eqn:E; [|done]. injection Hp as ->.
    rewrite insert_app_r_alt, take_app_length by lia. apply Permutation_cons_append.
Qed.

(** The loop moves the window [w] behind [pre] into [out] in some order. *)
Lemma pick_loop_ok n k size rands out pre w junk post out' :
  length w = n → size = Z.of_nat k + Z.of_nat n → size = Z.of_nat (length (w ++ junk)) → Z.of_nat (length pre) + size <= 256 →
  length out = k → length out' = n → (n <= length rands)%nat → Forall (λ r, 0 <= r) rands → ∀ tail,
  ∃ picked junk', pick_loop n size (Z.of_nat (length pre)) (Z.of_nat k) rands (out ++ out' ++ tail) (pre ++ w ++ junk ++ post) =
      Some (drop n rands, out ++ picked ++ tail, pre ++ junk' ++ post) ∧
    picked ≡ₚ w ∧ length junk' = length (w ++ junk).
Proof.
  revert k rands out w junk out'. induction n as [|n IH]; intros k rands out w junk out' Hw Hs Hj Hpre Ho Ho' Hr Hpos tail.
  - apply nil_length_inv in Hw, Ho'. subst. exists [], junk. split_and!; done.
  - destruct rands as [|r rands]; [simpl in Hr; lia|]. inversion_clear Hpos as [|? ? Hr0 Hpos'].
    cbn [pick_loop]. destruct (Z.eqb_spec (size - Z.of_nat k) 0); [lia|].
    set (p := Z.to_nat (Z.rem r (size - Z.of_nat k))).
    assert (Hp : 0 <= Z.rem r (size - Z.of_nat k) < Z.of_nat (length w)).
    { pose proof (Z.rem_bound_pos r (size - Z.of_nat k)). rewrite Hw. lia. }
    rewrite u8_small by lia.
    replace (Z.of_nat (length pre) + Z.rem r (size - Z.of_nat k)) with (Z.of_nat (length pre + p)) by lia.
    destruct (lookup_lt_is_Some_2 w p) as [x Hx]; [lia|].
    destruct (last w) as [y|] eqn:Hy; [|apply last_None in Hy; subst w; done].
    assert (Hpl : (p < length w)%nat) by lia.
    rewrite (arr_get_lookup _ (Z.of_nat (length pre + p))), Nat2Z.id by lia.
    rewrite lookup_app_r by lia. replace (length pre + p - length pre)%nat with p by lia. rewrite lookup_app_l, Hx by lia. cbn [mbind option_bind].
    destruct out' as [|o out']; [done|]. rewrite <- Ho. cbn [app].
    rewrite (arr_set_mid out o x (out' ++ tail)) by done. cbn [mbind option_bind].
    replace (Z.of_nat (length pre) + size - (Z.of_nat (length out) + 1)) with (Z.of_nat (length pre + n)) by lia.
    rewrite last_lookup, Hw in Hy. cbn [pred] in Hy.
    rewrite arr_get_lookup, Nat2Z.id by lia. rewrite lookup_app_r by lia.
    replace (length pre + n - length pre)%nat with n by lia. rewrite lookup_app_l, Hy by lia. cbn [mbind option_bind].
    rewrite arr_set_some by (rewrite !length_app; lia). cbn [mbind option_bind].
    rewrite Nat2Z.id, insert_app_r, insert_app_l by done.
    pose proof (take_last_perm w p x y Hx) as Hperm. rewrite last_lookup, Hw in Hperm. cbn [pred] in Hperm. specialize (Hperm Hy).
    replace (S n - 1)%nat with n in Hperm by lia.
    rewrite <- (take_drop n (<[p:=y]> w)), <- app_assoc, (app_assoc (drop n _)).
    destruct (IH (S k) rands (out ++ [x]) (take n (<[p:=y]> w)) (drop n (<[p:=y]> w) ++ junk) out') with (tail := tail)
      as (picked & junk' & Hrun & Hpk & Hjl).
    + rewrite length_take, length_insert. lia.
    + lia.
    + rewrite app_assoc, take_drop, length_app, length_insert, <- length_app. lia.
    + lia.
    + rewrite length_app. simpl. lia.
    + simpl in Ho'. lia.
    + simpl in Hr. lia.
    + done.
    + exists (x :: picked), junk'. split_and!.
      * rewrite Ho. replace (Z.of_nat k + 1) with (Z.of_nat (S k)) by lia. rewrite <- app_assoc in Hrun. cbn [app] in Hrun.
        rewrite <- !app_assoc in Hrun. rewrite <- !app_assoc. rewrite Hrun. cbn [drop app]. done.
      * rewrite Hpk. done.
      * rewrite Hjl, app_assoc, take_drop, !length_app, length_insert. done.
Qed.

Lemma rand_list_ok rands buffer : length buffer = 54%nat → (54 <= length rands)%nat → Forall (λ r, 0 <= r) rands →
  ∃ deck, RandCardList rands buffer 54 = Some (drop 54 rands, deck) ∧ deck ≡ₚ m_cbCardData.
Proof.
  intros Hb Hr Hpos. unfold RandCardList. change (rounds 54) with 54%nat.
  destruct (pick_loop_ok 54 0 54 rands [] [] m_cbCardData [] [] buffer) with (tail := @nil Z) as (picked & junk & Hrun & Hp & _); try done.
  exists picked. cbn [app length] in Hrun. rewrite !app_nil_r in Hrun. change (Z.of_nat 0) with 0 in Hrun. rewrite Hrun. done.
Qed.

Lemma deck_nodup : NoDup m_cbCardData.
Proof. apply (bool_decide_unpack _). vm_compute. exact I. Qed.

(** A part of the dealt deck is a hand. *)
Lemma deal_hand deck a n : deck ≡ₚ m_cbCardData → (n <= 20)%nat → deck_hand (take n (drop a deck)).
Proof.
  intros Hp Hn. assert (Hsub : take n (drop a deck) ⊆+ m_cbCardData).
  { rewrite <- Hp. etrans; [apply sublist_submseteq, sublist_take|]. apply sublist_submseteq, sublist_drop. }
  unfold deck_hand. split_and!.
  - apply submseteq_Permutation in Hsub as [k Hk]. pose proof deck_nodup as Hd. rewrite Hk in Hd. by apply NoDup_app in Hd as [? _].
  - apply Forall_forall. intros c Hc. by apply (elem_of_submseteq _ _ _ Hc Hsub).
  - rewrite length_take. lia.
Qed.

(** ** Hands made bad on purpose keep the deck *)

(** Two cards of the buffer change places. *)
Lemma swap_ok (l : list Z) i k a b : 0 <= i → 0 <= k → l !! Z.to_nat i = Some a → l !! Z.to_nat k = Some b →
  ∃ l', (l ← arr_set l i b; arr_set l k a) = Some l' ∧ l' ≡ₚ l.
Proof.
  intros H0 H1 Hi Hk. pose proof (lookup_lt_Some _ _ _ Hi). pose proof (lookup_lt_Some _ _ _ Hk).
  rewrite arr_set_some by lia. cbn [mbind option_bind]. rewrite arr_set_some by (rewrite length_insert; lia).
  eexists. split; [done|]. by apply Permutation_insert_swap.
Qed.

Lemma low_search_ok n k i l : 0 <= k → k + Z.of_nat n <= Z.of_nat (length l) → 0 <= i < Z.of_nat (length l) →
  ∃ l', low_search n k i l = Some l' ∧ l' ≡ₚ l.
Proof.
  revert k. induction n as [|n IH]; intros k Hk Hn Hi; [by eexists|]. cbn [low_search].
  rewrite (arr_get_lookup l k) by lia. destruct (lookup_lt_is_Some_2 l (Z.to_nat k)) as [c Hc]; [lia|].
  destruct (lookup_lt_is_Some_2 l (Z.to_nat i)) as [d Hd]; [lia|]. rewrite Hc. cbn [mbind option_bind].
  destruct (_ <? _); [|by apply IH; lia]. rewrite arr_get_lookup, Hd by lia. cbn [mbind option_bind]. apply swap_ok; [lia..|done|done].
Qed.

Lemma high_loop_ok n i good l : 0 <= i → 0 <= good <= 2 → i + Z.of_nat n <= 54 → length l = 54%nat →
  ∃ l', high_loop n i good l = Some l' ∧ l' ≡ₚ l.
Proof.
  revert i l. induction n as [|n IH]; intros i l Hi Hg Hn Hl; [by eexists|]. cbn [high_loop].
  rewrite (arr_get_lookup l i) by lia. destruct (lookup_lt_is_Some_2 l (Z.to_nat i)) as [c Hc]; [lia|]. rewrite Hc. cbn [mbind option_bind].
  destruct (_ <? _).
  - destruct (low_search_ok 17 (good * NORMAL_COUNT) i l) as (l' & -> & Hp); [unfold NORMAL_COUNT; lia..|]. cbn [mbind option_bind].
    destruct (IH (i + 1) l') as (l'' & -> & Hp'); [lia..|by rewrite Hp|]. exists l''. split; [done|by rewrite Hp'].
  - cbn [mbind option_bind]. apply IH; lia.
Qed.

Lemma bomb_search_ok n j card good l : 0 <= j → 0 <= good <= 2 → j + Z.of_nat n <= 54 → length l = 54%nat →
  ∃ l', bomb_search n j card good l = Some l' ∧ l' ≡ₚ l.
Proof.
  revert j. induction n as [|n IH]; intros j Hj Hg Hn Hl; [by eexists|]. cbn [bomb_search].
  rewrite (arr_get_lookup l j) by lia. destruct (lookup_lt_is_Some_2 l (Z.to_nat j)) as [c Hc]; [lia|]. rewrite Hc. cbn [mbind option_bind].
  destruct (_ =? _); [apply low_search_ok; unfold NORMAL_COUNT; lia|apply IH; lia].
Qed.

Lemma bomb_loop_ok n i user good fours l : 0 <= i → 0 <= user <= 2 → 0 <= good <= 2 → (i + Z.of_nat n) * 4 <= Z.of_nat (length fours) →
  length l = 54%nat → ∃ l', bomb_loop n i user good fours l = Some l' ∧ l' ≡ₚ l.
Proof.
  revert i l. induction n as [|n IH]; intros i l Hi Hu Hg Hn Hl; [by eexists|]. cbn [bomb_loop].
  rewrite (arr_get_lookup fours) by lia. destruct (lookup_lt_is_Some_2 fours (Z.to_nat (i * 4))) as [c Hc]; [lia|]. rewrite Hc.
  cbn [mbind option_bind]. destruct (bomb_search_ok 17 (user * NORMAL_COUNT) c good l) as (l' & -> & Hp); [unfold NORMAL_COUNT; lia..|done|].
  cbn [mbind option_bind]. destruct (IH (i + 1) l') as (l'' & -> & Hp'); [lia..|by rewrite Hp|]. exists l''. split; [done|by rewrite Hp'].
Qed.

Lemma mix_hand_ok rands l chair : 0 <= chair <= 2 → length l = 54%nat → (17 <= length rands)%nat → Forall (λ r, 0 <= r) rands →
  ∃ l', mix_hand rands l chair = Some (drop 17 rands, l') ∧ l' ≡ₚ l.
Proof.
  intros Hc Hl Hr Hpos. unfold mix_hand, NORMAL_COUNT. rewrite u8_small by lia. change (rounds 17) with 17%nat.
  set (a := Z.to_nat (17 * chair)).
  assert (Hsplit : l = take a l ++ take 17 (drop a l) ++ drop 17 (drop a l)) by (by rewrite !take_drop).
  assert (Ha : length (take a l) = a) by (rewrite length_take; lia).
  assert (Hw : length (take 17 (drop a l)) = 17%nat) by (rewrite length_take, length_drop; lia).
  destruct (pick_loop_ok 17 0 17 rands [] (take a l) (take 17 (drop a l)) [] (drop 17 (drop a l)) (replicate 17 0)) with (tail := @nil Z)
    as (picked & junk & Hrun & Hp & Hj); try done; [by rewrite app_nil_r, Hw|rewrite Ha; lia|].
  rewrite Ha in Hrun. replace (Z.of_nat a) with (17 * chair) in Hrun by lia. cbn [app] in Hrun. rewrite !app_nil_r, <- Hsplit in Hrun.
  change (Z.of_nat 0) with 0 in Hrun. rewrite Hrun. cbn [mbind option_bind].
  rewrite app_nil_r, Hw in Hj. pose proof (Permutation_length Hp) as Hpl. rewrite Hw in Hpl.
  unfold CopyMemory. rewrite !length_app, Hj, Ha, Hpl, length_drop, length_drop, Hl.
  rewrite !(proj2 (Z.leb_le _ _)) by lia. cbn [andb mbind option_bind].
  eexists. split; [done|]. rewrite (take_ge picked) by lia.
  rewrite (take_app_length' (take a l)) by lia. replace (Z.to_nat (17 * chair + 17)) with (length (take a l) + length junk)%nat by lia.
  rewrite <- drop_drop, drop_app_length, drop_app_length. rewrite Hsplit at 3. by rewrite Hp.
Qed.

(** A deal of the deck: the sort of the cards from a place on keeps it. *)
Lemma rand_bad_ok rands buffer user : 0 <= user <= 2 → length buffer = 54%nat → (71 <= length rands)%nat → Forall (λ r, 0 <= r) rands →
  ∃ deck, RandBadCardList rands buffer 54 user = Some (drop 71 rands, deck) ∧ deck ≡ₚ m_cbCardData.
Proof.
  intros Hu Hb Hr Hpos. unfold RandBadCardList. destruct (rand_list_ok rands buffer) as (d0 & -> & H0); [done|lia|done|]. cbn [mbind option_bind].
  pose proof (Permutation_length H0) as Hl0. change (length m_cbCardData) with 54%nat in Hl0.
  assert (Hg : 0 <= Z.rem (user + 1) GAME_PLAYER <= 2) by (unfold GAME_PLAYER; pose proof (Z.rem_bound_pos (user + 1) 3); lia).
  set (good := Z.rem (user + 1) GAME_PLAYER) in *.
  destruct (high_loop_ok 17 (user * NORMAL_COUNT) good d0) as (d1 & -> & H1); [unfold NORMAL_COUNT; lia..|done|]. cbn [mbind option_bind].
  set (a := Z.to_nat (user * NORMAL_COUNT)). pose proof (Permutation_length H1) as Hl1.
  assert (Hsplit : d1 = take a d1 ++ take 17 (drop a d1) ++ drop 17 (drop a d1)) by (by rewrite !take_drop).
  assert (Hh : deck_hand (take 17 (drop a d1))) by (apply deal_hand; [by rewrite H1|lia]).
  assert (Hw : length (take 17 (drop a d1)) = 17%nat) by (rewrite length_take, length_drop; unfold a, NORMAL_COUNT; lia).
  destruct (sort_order_ok (take 17 (drop a d1)) (drop 17 (drop a d1))) as (s & Hs & Hsp & _).
  { destruct Hh as (_ & Hf & _). eapply Forall_impl; [done|]. intros c Hc. by apply deck_values in Hc as [? _]. }
  { rewrite Hw. unfold FULL_COUNT. lia. }
  rewrite Hw, take_drop in Hs. change (Z.of_nat 17) with NORMAL_COUNT in Hs. rewrite Hs. cbn [mbind option_bind].
  pose proof (Permutation_length Hsp) as Hsl. rewrite Hw in Hsl.
  destruct (analyse_ok s (drop 17 (drop a d1))) as (r & Han & [Hbc Hcd] & _); [lia| |].
  { destruct Hh as (_ & Hf & _). rewrite Hsp. eapply Forall_impl; [done|]. intros c Hc. apply deck_values in Hc as (_ & ? & _). lia. }
  rewrite Hsl in Han. change (Z.of_nat 17) with NORMAL_COUNT in Han. rewrite Han. cbn [mbind option_bind]. rewrite Hbc, Hcd.
  set (gs := groups (length s) s). change (arr_get ?l 3) with (arr_get l (Z.of_nat 4 - 1)). rewrite !four_get by lia. cbn [mbind option_bind].
  assert (H2 : take a d1 ++ s ++ drop 17 (drop a d1) ≡ₚ d1) by (rewrite Hsplit at 3; by rewrite Hsp).
  pose proof (Permutation_length H2) as Hl2.
  destruct (bomb_loop_ok (Z.to_nat (Z.of_nat (length (of_size 4 gs)))) 0 user good (pad (concat (of_size 4 gs)))
    (take a d1 ++ s ++ drop 17 (drop a d1))) as (d2 & -> & H3); [lia..| |lia|].
  { unfold pad. rewrite length_app, concat_of_size. lia. }
  cbn [mbind option_bind]. pose proof (Permutation_length H3) as Hl3.
  destruct (mix_hand_ok (drop 54 rands) d2 good) as (d3 & -> & H4); [done|lia|rewrite length_drop; lia|by apply Forall_drop|].
  exists d3. rewrite drop_drop. split; [done|]. by rewrite H4, H3, H2, H1, H0.
Qed.

(** C29. Whatever numbers the generator returns, shuffling gives each of the 54
    cards exactly once, so that the three hands of 17 and the three cards left
    are hands of different cards.  The deal that gives one chair a bad hand is
    still a deal of the whole deck. *)
Theorem rand_card_list_ok rands buffer : length buffer = 54%nat → (71 <= length rands)%nat → Forall (λ r, 0 <= r) rands →
  (∃ deck, RandCardList rands buffer 54 = Some (drop 54 rands, deck) ∧ deck ≡ₚ m_cbCardData ∧
    (∀ c, deck_hand (take 17 (drop (17 * c) deck))) ∧ deck_hand (drop 51 deck)) ∧
  (∀ user, 0 <= user <= 2 → ∃ deck, RandBadCardList rands buffer 54 user = Some (drop 71 rands, deck) ∧ deck ≡ₚ m_cbCardData).
Proof.
  intros Hb Hr Hpos. split; [|intros user Hu; by apply rand_bad_ok].
  destruct (rand_list_ok rands buffer) as (deck & Hrun & Hp); [done|lia|done|]. exists deck. split_and!; [done..| |].
  - intros c. by apply deal_hand; [|lia].
  - rewrite <- (take_ge (drop 51 deck) 3); [by apply deal_hand; [|lia]|]. rewrite length_drop, Hp. vm_compute. lia.
Qed.

Lemma rand_card_list_ok_witness :
  ∃ deck, RandCardList (seqZ 100 72) (replicate 54 0) 54 = Some (seqZ 154 18, deck) ∧ deck ≡ₚ m_cbCardData.
Proof.
  destruct (rand_card_list_ok (seqZ 100 72) (replicate 54 0)) as [(deck & H & Hp & _) _]; [done|by vm_compute; lia| |].
  - apply Forall_forall. intros r Hr. apply elem_of_seqZ in Hr. lia.
  - exists deck. split; [exact H|exact Hp].
Defined.

(** [RandGoodCardList] leaves an array: it draws from 13 values where its
    array has 11, so that, whenever it has groups to place, the first round
    already reads [CardTemp[12]], whatever the generator returns. *)
Theorem rand_good_fails rands buffer user three four :
  0 < u8 (three * 3 + four * 4) <= NORMAL_COUNT → RandGoodCardList rands buffer 54 user three four = None.
Proof.
  intros Hc. unfold RandGoodCardList. destruct (RandCardList rands buffer 54) as [[rands' b]|]; [|done]. cbn [mbind option_bind].
  destruct (_ || _) eqn:E; [bool_to_prop; lia|]. destruct rands' as [|r rands']; [done|]. cbn [pick_loop].
  change (13 - 0 =? 0) with false. cbn iota. destruct (arr_get _ (u8 (0 + _))) as [x|]; [|done]. cbn [mbind option_bind].
  destruct (arr_set _ 0 x); done.
Qed.

Lemma rand_good_fails_witness : RandGoodCardList (seqZ 100 200) (replicate 54 0) 54 1 2 1 = None.
Proof. apply rand_good_fails. vm_compute. split; [done|discriminate]. Defined.

(** ** Removing cards from a hand *)

(** The hand with the cards of [rem] blanked. *)
Definition mask (rem s : list Z) : list Z := (λ c, if decide (c ∈ rem) then 0 else c) <$> s.

Lemma mask_length rem s : length (mask rem s) = length s.
Proof. apply length_fmap. Qed.

Lemma mask_skip c rem s : c ∉ s → mask (c :: rem) s = mask rem s.
Proof.
  intros Hc. apply list_fmap_ext. intros i d Hd%list_elem_of_lookup_2. repeat case_decide; set_solver.
Qed.

(** The search from the place behind [p] on. *)
Lemma zero_first_found n p q c r : c ∉ q → (length q < n)%nat →
  zero_first n (Z.of_nat (length p)) c (p ++ q ++ c :: r) = Some (true, p ++ q ++ 0 :: r).
Proof.
  revert n p. induction q as [|d q IH]; intros n p Hc Hn; (destruct n as [|n]; [simpl in Hn; lia|]); cbn [zero_first app].
  - rewrite arr_get_mid by done. cbn [mbind option_bind]. rewrite Z.eqb_refl, (arr_set_mid p c 0 r) by done. done.
  - rewrite arr_get_mid by done. cbn [mbind option_bind]. rewrite (proj2 (Z.eqb_neq _ _)) by set_solver.
    specialize (IH n (p ++ [d])). rewrite length_app, Nat2Z.inj_add, <- !app_assoc in IH. cbn [app length] in IH. change (Z.of_nat 1) with 1 in IH.
    rewrite IH; [done|set_solver|simpl in Hn; lia].
Qed.

Lemma zero_first_missing p q c r : c ∉ q →
  zero_first (length q) (Z.of_nat (length p)) c (p ++ q ++ r) = Some (false, p ++ q ++ r).
Proof.
  revert p. induction q as [|d q IH]; intros p Hc; cbn [zero_first app length]; [done|].
  rewrite arr_get_mid by done. cbn [mbind option_bind]. rewrite (proj2 (Z.eqb_neq _ _)) by set_solver.
  specialize (IH (p ++ [d])). rewrite length_app, Nat2Z.inj_add, <- !app_assoc in IH. cbn [app length] in IH. change (Z.of_nat 1) with 1 in IH.
  apply IH. set_solver.
Qed.

Lemma mask_in c rem s : c ≠ 0 → c ∈ mask rem s → c ∈ s.
Proof. intros H0 Hc. apply list_elem_of_fmap in Hc as (d & -> & Hd). case_decide; done. Qed.

(** Blanking one more card. *)
Lemma zero_first_mask c rem s r : c ≠ 0 → NoDup s → c ∉ rem →
  zero_first (length s) 0 c (mask rem s ++ r) = Some (bool_decide (c ∈ s), mask (c :: rem) s ++ r).
Proof.
  intros H0 Hd Hr. case_bool_decide as Hc.
  - apply list_elem_of_split in Hc as (p & q & ->). apply NoDup_app in Hd as (_ & Hx & Hq). apply NoDup_cons in Hq as [Hq _].
    assert (Hp : c ∉ p) by (intros Hp; apply (Hx c Hp); left).
    unfold mask. rewrite !fmap_app, !fmap_cons. rewrite decide_False, (decide_True (P := c ∈ c :: rem)) by set_solver.
    change (fmap ?f p) with (mask rem p) at 1. fold (mask rem q). fold (mask rem p). fold (mask (c :: rem) p). fold (mask (c :: rem) q).
    rewrite !(mask_skip c rem) by done. rewrite <- !app_assoc. cbn [app].
    pose proof (zero_first_found (length (p ++ c :: q)) [] (mask rem p) c (mask rem q ++ r)) as H. cbn [app length] in H.
    change (Z.of_nat 0) with 0 in H. apply H; [|rewrite length_app, mask_length; cbn [length]; lia].
    intros Hin%mask_in; done.
  - rewrite mask_skip by done. pose proof (zero_first_missing [] (mask rem s) c r) as H. rewrite mask_length in H. cbn [app length] in H.
    change (Z.of_nat 0) with 0 in H. apply H. intros Hin%mask_in; done.
Qed.

Lemma mask_ext rem rem' s : (∀ c, c ∈ rem ↔ c ∈ rem') → mask rem s = mask rem' s.
Proof. intros H. apply list_fmap_ext. intros i d _. repeat case_decide; naive_solver. Qed.

Lemma zero_loop_ok b a extra s r del : NoDup s → NoDup (a ++ b) → Forall (λ c, c ≠ 0) b → 0 <= del → del + Z.of_nat (length b) < 256 →
  zero_loop (length b) (Z.of_nat (length a)) (a ++ b ++ extra) (Z.of_nat (length s)) (mask a s ++ r) del =
  Some (del + Z.of_nat (length (filter (λ c, c ∈ s) b)), mask (a ++ b) s ++ r).
Proof.
  revert a del. induction b as [|c b IH]; intros a del Hs Hd H0 Hdel Hlt; cbn [zero_loop length app].
  - rewrite Z.add_0_r, app_nil_r. done.
  - rewrite arr_get_mid by done. cbn [mbind option_bind]. inversion_clear H0 as [|? ? Hc H0'].
    assert (Hca : c ∉ a) by (apply NoDup_app in Hd as (_ & Hx & _); intros Hin; apply (Hx c Hin); left).
    rewrite Nat2Z.id, zero_first_mask by done. cbn [mbind option_bind fst snd].
    rewrite (mask_ext (c :: a) (a ++ [c])) by set_solver.
    specialize (IH (a ++ [c])). rewrite length_app, Nat2Z.inj_add, <- !app_assoc in IH. cbn [app length] in IH. change (Z.of_nat 1) with 1 in IH.
    cbn [length] in Hlt. rewrite filter_cons. case_bool_decide as Hin.
    + rewrite (decide_True (P := c ∈ s)) by done. rewrite u8_small, IH by (done || lia). do 2 f_equal. cbn [length]. lia.
    + rewrite (decide_False (P := c ∈ s)) by done. rewrite IH by (done || lia). done.
Qed.

Lemma compact_loop_ok t p r kept k post :
  compact_loop (length t) (Z.of_nat (length p)) (Z.of_nat (length kept)) (p ++ t ++ r) (kept ++ replicate (length t + k) 0 ++ post) =
  Some (kept ++ filter (λ c, c ≠ 0) t ++ replicate (length t + k - length (filter (λ c, c ≠ 0) t)) 0 ++ post).
Proof.
  revert p kept k. induction t as [|c t IH]; intros p kept k; cbn [compact_loop length app].
  - by rewrite Nat.sub_0_r.
  - rewrite arr_get_mid by done. cbn [mbind option_bind]. rewrite filter_cons. destruct (Z.eqb_spec c 0) as [->|Hc].
    + rewrite decide_False by lia. specialize (IH (p ++ [0]) kept (S k)). rewrite length_app, Nat2Z.inj_add, <- !app_assoc in IH.
      cbn [app length] in IH. change (Z.of_nat 1) with 1 in IH. rewrite Nat.add_succ_r in IH. rewrite Nat.add_succ_l. exact IH.
    + rewrite decide_True by done. rewrite Nat.add_succ_l. cbn [replicate app]. rewrite (arr_set_mid kept 0 c) by done. cbn [mbind option_bind].
      specialize (IH (p ++ [c]) (kept ++ [c]) k). rewrite !length_app, !Nat2Z.inj_add, <- !app_assoc in IH.
      cbn [app length] in IH. change (Z.of_nat 1) with 1 in IH. exact IH.
Qed.

Lemma mask_filter rem s : Forall (λ c, c ≠ 0) s → filter (λ c, c ≠ 0) (mask rem s) = filter (λ c, c ∉ rem) s.
Proof.
  induction 1 as [|c s Hc _ IH]; [done|]. unfold mask in *. rewrite fmap_cons, !filter_cons. repeat case_decide; try done.
  by rewrite IH.
Qed.

Lemma filter_all_length {A} (P : A → Prop) `{∀ x, Decision (P x)} l : length (filter P l) = length l ↔ Forall P l.
Proof.
  induction l as [|x l IH]; [split; [constructor|done]|]. rewrite filter_cons, Forall_cons. pose proof (length_filter P l).
  case_decide; cbn [length]; [rewrite <- IH; naive_solver lia|split; [lia|tauto]].
Qed.

Lemma copy_ok a b c m x off n : off = Z.of_nat (length a) → n = Z.of_nat (length m) → length b = length m →
  CopyMemory (a ++ b ++ c) off (m ++ x) n = Some (a ++ m ++ c).
Proof.
  intros -> -> Hb. unfold CopyMemory. rewrite !length_app, !(proj2 (Z.leb_le _ _)) by lia. cbn [andb].
  rewrite <- Nat2Z.inj_add, !Nat2Z.id, !take_app_length, <- drop_drop, drop_app_length, <- Hb, drop_app_length. done.
Qed.

(** Removing different cards from a hand: all of them, or nothing. *)
Lemma remove_card_ok rem s post : NoDup s → Forall (λ c, c ≠ 0) s → (length s <= 54)%nat →
  NoDup rem → Forall (λ c, c ≠ 0) rem → (length rem <= length s)%nat →
  RemoveCard rem (Z.of_nat (length rem)) (s ++ post) (Z.of_nat (length s)) =
  Some (if decide (Forall (λ c, c ∈ s) rem)
        then (true, filter (λ c, c ∉ rem) s ++ replicate (length s - length (filter (λ c, c ∉ rem) s)) 0 ++ post)
        else (false, s ++ post)).
Proof.
  intros Hs Hs0 Hl Hr Hr0 Hle. unfold RemoveCard, FULL_COUNT. rewrite !(proj2 (Z.ltb_ge _ _)) by lia.
  replace (replicate 54 0) with ([] ++ replicate (length s) 0 ++ replicate (54 - length s) 0)
    by (cbn [app]; rewrite <- replicate_add; f_equal; lia).
  rewrite copy_ok by (rewrite ?length_replicate; done). cbn [mbind option_bind app]. rewrite !Nat2Z.id.
  pose proof (zero_loop_ok rem [] [] s (replicate (54 - length s) 0) 0) as H. cbn [app length] in H. rewrite app_nil_r in H.
  assert (Hm : mask [] s = s).
  { unfold mask. rewrite <- (list_fmap_id s) at 2. apply list_fmap_ext. intros i d _. case_decide; set_solver. }
  rewrite Hm in H. change (Z.of_nat 0) with 0 in H. rewrite H by (done || lia). clear H. cbn [mbind option_bind]. rewrite Z.add_0_l.
  destruct (decide (Forall (λ c, c ∈ s) rem)) as [Hin|Hin].
  - rewrite (proj2 (filter_all_length (λ c, c ∈ s) rem)) by done. rewrite Z.eqb_refl. cbn [negb].
    pose proof (copy_ok [] s post (replicate (length s) 0) [] 0 (Z.of_nat (length s))) as H. cbn [app] in H.
    rewrite app_nil_r in H. rewrite H by (rewrite ?length_replicate; done). clear H. cbn [mbind option_bind].
    pose proof (compact_loop_ok (mask rem s) [] (replicate (54 - length s) 0) [] 0 post) as H. cbn [app length] in H.
    rewrite mask_length, Nat.add_0_r, mask_filter in H by done. change (Z.of_nat 0) with 0 in H. rewrite H. done.
  - rewrite (proj2 (Z.eqb_neq _ _)); [done|]. intros E. apply Hin, (filter_all_length (λ c, c ∈ s)). lia.
Qed.

(** ** What the player keeps track of *)

(** The table: the player's chair, the cards in the hands, and how often each
    chair has played. *)
Record table := mk_table {
  t_me : Z;
  t_hands : list (list Z);
  t_outs : list Z
}.

Inductive event :=
| EMe (chair : Z)
| EUser (chair : Z) (cards : list Z)
| EBack (chair : Z) (cards : list Z)
| EOut (chair : Z) (cards : list Z)
| ELast (user : Z) (cards : list Z)
| ECount (outs : list Z)
| EBanker (chair : Z)
| EScore (cards : list Z)
| ERule (rule : Z).

Definition on_logic (s : CGameUserItemSink) (g : CGameLogic) : CGameUserItemSink :=
  mk_sink g (m_wMeChairID s) (m_wOutChairID s) (m_cbOutCount s) (m_cbTurnCardCount s) (m_cbTurnCardData s) (m_cbHandCardData s)
    (m_cbHandCardCount s).

(** The calls from outside, as 3rd/land/lua-land.cpp makes them. *)
Definition sink_step (s : CGameUserItemSink) (e : event) : option CGameUserItemSink :=
  match e with
  | EMe c => Some (SetMeChairId s c)
  | EUser c cards => sink_SetUserCard s c cards (u8 (Z.of_nat (length cards)))
  | EBack c cards => sink_SetBackCard s c cards (u8 (Z.of_nat (length cards)))
  | EOut c cards => OnUserOutCard s c cards (u8 (Z.of_nat (length cards)))
  | ELast u cards => sink_SetLastOutCard s u (if decide (cards = []) then None else Some cards) (u8 (Z.of_nat (length cards)))
  | ECount outs => sink_SetOutCount s outs
  | EBanker c => Some (on_logic s (SetBanker (m_GameLogic s) c))
  | EScore cards => g ← SetLandScoreCardData (m_GameLogic s) cards (u8 (Z.of_nat (length cards))); Some (on_logic s g)
  | ERule r => Some (on_logic s (SetppRule (m_GameLogic s) r))
  end.

(** The event on the table. *)
Definition table_step (t : table) (e : event) : table :=
  match e with
  | EMe c => mk_table c (t_hands t) (t_outs t)
  | EUser c cards => mk_table (t_me t) (<[Z.to_nat c := cards]> (t_hands t)) (<[Z.to_nat c := 0]> (t_outs t))
  | EBack c cards => mk_table (t_me t) (alter (λ h, h ++ cards) (Z.to_nat c) (t_hands t)) (t_outs t)
  | EOut c cards =>
      mk_table (t_me t) (alter (filter (λ d, d ∉ cards)) (Z.to_nat c) (t_hands t)) (alter (λ n, u8 (n + 1)) (Z.to_nat c) (t_outs t))
  | ECount outs => mk_table (t_me t) (t_hands t) outs
  | ELast _ _ | EBanker _ | EScore _ | ERule _ => t
  end.

(** The events of a game: the player takes its chair before it has cards, 17
    different cards are dealt, the landlord gets more, and who plays plays
    cards from the hand. *)
Definition legal (t : table) (e : event) : Prop :=
  match e with
  | EMe c => 0 <= c < 3 ∧ t_hands t !! Z.to_nat c = Some []
  | EUser c cards => 0 <= c < 3 ∧ deck_hand cards ∧ length cards = 17%nat
  | EBack c cards => 0 <= c < 3 ∧ ∃ h, t_hands t !! Z.to_nat c = Some h ∧ (length h <= 17)%nat ∧ deck_hand (h ++ cards)
  | EOut c cards =>
      0 <= t_me t < 3 ∧ 0 <= c < 3 ∧
      ∃ h, t_hands t !! Z.to_nat c = Some h ∧ cards ≠ [] ∧ NoDup cards ∧ Forall (λ d, d ∈ h) cards
  | ELast u cards => 0 <= u ∧ deck_hand cards
  | ECount outs => length outs = 3%nat
  | EScore cards => deck_hand cards ∧ length cards = 20%nat
  | EBanker _ | ERule _ => True
  end.

(** An array with the hand [h] at its front, in order. *)
Definition holds (h row : list Z) : Prop :=
  ∃ s post, row = s ++ post ∧ s ≡ₚ h ∧ StronglySorted card_ge s ∧ length row = 20%nat.

Record rel (t : table) (s : CGameUserItemSink) : Prop := mk_rel {
  rel_me : m_wMeChairID s = t_me t ∧ 0 <= t_me t;
  rel_outs : m_cbOutCount s = t_outs t ∧ length (t_outs t) = 3%nat;
  rel_gouts : length (gl_cbOutCount (m_GameLogic s)) = 3%nat;
  rel_hands : length (t_hands t) = 3%nat ∧ Forall deck_hand (t_hands t);
  rel_counts : m_cbHandCardCount s = Z.of_nat ∘ length <$> t_hands t;
  rel_gcounts : m_cbAllCount (m_GameLogic s) = Z.of_nat ∘ length <$> t_hands t;
  rel_rows : Forall2 holds (t_hands t) (m_cbAllCardData (m_GameLogic s));
  rel_hand : length (m_cbHandCardData s) = 20%nat ∧
    ∀ h, t_hands t !! Z.to_nat (t_me t) = Some h → holds h (m_cbHandCardData s);
  rel_turn : length (m_cbTurnCardData s) = 20%nat;
  rel_last : length (oc_cbCardData (stLastCard (m_LastOutCard (m_GameLogic s)))) = 20%nat;
  rel_score : length (m_cbLandScoreCardData (m_GameLogic s)) = 20%nat
}.

(** *** Hands in arrays *)

Lemma deck_hand_bytes h : deck_hand h → Forall is_byte h.
Proof. intros (_ & Hf & _). eapply Forall_impl; [done|]. intros c Hc. by apply deck_values in Hc as [? _]. Qed.

Lemma deck_hand_nonzero h : deck_hand h → Forall (λ c, c ≠ 0) h.
Proof. intros (_ & Hf & _). eapply Forall_impl; [done|]. intros c Hc ->.
  apply deck_values in Hc as (_ & Hv & _). change (GetCardLogicValue 0) with 0 in Hv. lia.
Qed.

Lemma deck_hand_sub h h' : deck_hand h → NoDup h' → Forall (λ c, c ∈ h) h' → deck_hand h'.
Proof.
  intros (Hd & Hf & Hl) Hd' Hin. rewrite Forall_forall in Hin.
  assert (Hsub : h' ⊆+ h) by (by apply NoDup_submseteq). split_and!; [done| |apply submseteq_length in Hsub; lia].
  rewrite Forall_forall in Hf. apply Forall_forall. auto.
Qed.

(** The order determines the array up to what is behind the hand. *)
Lemma holds_unique h r1 r2 : deck_hand h → holds h r1 → holds h r2 → take (length h) r1 = take (length h) r2.
Proof.
  intros Hh (s1 & p1 & -> & Hp1 & Hs1 & _) (s2 & p2 & -> & Hp2 & Hs2 & _).
  rewrite <- (Permutation_length Hp1) at 1. rewrite <- (Permutation_length Hp2), !take_app_length.
  apply (StronglySorted_unique_strong card_ge); [|done|done|by rewrite Hp1, Hp2].
  pose proof (deck_hand_bytes h Hh) as Hb. rewrite Forall_forall in Hb. intros x y Hx Hy.
  rewrite Hp1 in Hx. rewrite Hp2 in Hy. apply Hb in Hx, Hy. unfold card_ge, key, is_byte in *. lia.
Qed.

Lemma holds_sort h s post : deck_hand h → s ≡ₚ h → length (s ++ post) = 20%nat →
  ∃ row, SortCardList (s ++ post) (Z.of_nat (length h)) ST_ORDER = Some row ∧ holds h row.
Proof.
  intros Hh Hp Hl. pose proof Hh as (_ & _ & H20). pose proof (Permutation_length Hp) as Hpl.
  destruct (sort_order_ok s post) as (s' & Hs & Hp' & Ho); [by rewrite Hp; apply deck_hand_bytes|unfold FULL_COUNT; lia|].
  rewrite Hpl in Hs. exists (s' ++ post). split; [done|]. exists s', post. split_and!; [done|by rewrite Hp'|done|].
  rewrite length_app, Hp', <- length_app. done.
Qed.

Lemma hand_sorted_filter (P : Z → Prop) `{∀ c, Decision (P c)} s : StronglySorted card_ge s → StronglySorted card_ge (filter P s).
Proof.
  induction 1 as [|c s Hs IH Hc]; [constructor|]. rewrite filter_cons. case_decide; [|done]. constructor; [done|].
  apply Forall_forall. intros d [_ Hd]%list_elem_of_filter. rewrite Forall_forall in Hc. auto.
Qed.

Lemma holds_set cards row : length row = 20%nat → deck_hand cards →
  ∃ row1 row2, CopyMemory row 0 cards (Z.of_nat (length cards)) = Some row1 ∧
    SortCardList row1 (Z.of_nat (length cards)) ST_ORDER = Some row2 ∧ holds cards row2.
Proof.
  intros Hr Hh. pose proof Hh as (_ & _ & Hl).
  pose proof (copy_ok [] (take (length cards) row) (drop (length cards) row) cards [] 0 (Z.of_nat (length cards))) as H.
  cbn [app] in H. rewrite take_drop, app_nil_r in H. destruct (holds_sort cards cards (drop (length cards) row)) as (row2 & H2 & Ho);
    [done|done|rewrite length_app, length_drop; lia|].
  exists (cards ++ drop (length cards) row), row2. split_and!; [|done|done]. apply H; [done|done|]. rewrite length_take. lia.
Qed.

Lemma holds_back h cards row : holds h row → deck_hand (h ++ cards) →
  ∃ row1 row2, CopyMemory row (Z.of_nat (length h)) cards (Z.of_nat (length cards)) = Some row1 ∧
    SortCardList row1 (Z.of_nat (length (h ++ cards))) ST_ORDER = Some row2 ∧ holds (h ++ cards) row2.
Proof.
  intros (s & post & -> & Hp & _ & Hr) Hh. pose proof Hh as (_ & _ & Hl). pose proof (Permutation_length Hp) as Hpl.
  rewrite length_app in Hl, Hr.
  pose proof (copy_ok s (take (length cards) post) (drop (length cards) post) cards [] (Z.of_nat (length s)) (Z.of_nat (length cards))) as H.
  rewrite take_drop, app_nil_r in H. destruct (holds_sort (h ++ cards) (s ++ cards) (drop (length cards) post)) as (row2 & H2 & Ho);
    [done|by rewrite Hp|rewrite !length_app, length_drop; lia|].
  rewrite <- Hpl. exists ((s ++ cards) ++ drop (length cards) post), row2. split_and!; [|done|done]. rewrite <- app_assoc. apply H; [done|done|].
  rewrite length_take. lia.
Qed.

Lemma holds_remove h rem row : holds h row → deck_hand h → NoDup rem → Forall (λ c, c ∈ h) rem →
  ∃ row', RemoveCard rem (Z.of_nat (length rem)) row (Z.of_nat (length h)) = Some (true, row') ∧ holds (filter (λ c, c ∉ rem) h) row'.
Proof.
  intros (s & post & -> & Hp & Ho & Hr) Hh Hd Hin. pose proof (Permutation_length Hp) as Hpl.
  pose proof (deck_hand_sub _ _ Hh Hd Hin) as Hrem. assert (Hs : deck_hand s) by (by apply (deck_hand_perm h)).
  assert (Hin' : Forall (λ c, c ∈ s) rem) by (eapply Forall_impl; [done|]; intros c Hc; by rewrite Hp).
  assert (Hsub : rem ⊆+ s) by (apply NoDup_submseteq; [done|by apply Forall_forall]). apply submseteq_length in Hsub.
  rewrite <- Hpl, remove_card_ok; [|apply Hs|by apply deck_hand_nonzero|destruct Hs as (_ & _ & ?); lia|done|by apply deck_hand_nonzero|done].
  rewrite decide_True by done. eexists. split; [done|]. eexists _, _. split_and!; [done|by rewrite Hp|by apply hand_sorted_filter|].
  pose proof (length_filter (λ c, c ∉ rem) s). rewrite !length_app, length_replicate in *. lia.
Qed.

(** *** Arrays of three *)

Lemma chair_get {A} (l : list A) c x : 0 <= c → l !! Z.to_nat c = Some x → arr_get l c = Some x.
Proof. intros Hc Hl. by rewrite arr_get_lookup. Qed.

Lemma chair_set {A} (l : list A) c x y : 0 <= c → l !! Z.to_nat c = Some y → arr_set l c x = Some (<[Z.to_nat c := x]> l).
Proof. intros Hc Hl%lookup_lt_Some. apply arr_set_some. lia. Qed.

Lemma chair_lookup {A} (l : list A) c : length l = 3%nat → 0 <= c < 3 → ∃ x, l !! Z.to_nat c = Some x.
Proof. intros Hl Hc. apply lookup_lt_is_Some_2. lia. Qed.

Lemma count_get (hands : list (list Z)) c h : 0 <= c → hands !! Z.to_nat c = Some h →
  arr_get (Z.of_nat ∘ length <$> hands) c = Some (Z.of_nat (length h)).
Proof. intros Hc Hh. apply chair_get; [done|]. by rewrite list_lookup_fmap, Hh. Qed.

Lemma count_set (hands : list (list Z)) c h h' n : 0 <= c → hands !! Z.to_nat c = Some h → n = Z.of_nat (length h') →
  arr_set (Z.of_nat ∘ length <$> hands) c n = Some (Z.of_nat ∘ length <$> <[Z.to_nat c := h']> hands).
Proof.
  intros Hc Hh ->. rewrite (chair_set _ _ _ (Z.of_nat (length h))), list_fmap_insert by (done || by rewrite list_lookup_fmap, Hh). done.
Qed.

Lemma equal_data_ok d1 d2 n : (n <= length d1)%nat → (n <= length d2)%nat → take n d1 = take n d2 →
  equalCardData d1 (Z.of_nat n) d2 (Z.of_nat n) = Some true.
Proof.
  intros H1 H2 He. unfold equalCardData. rewrite Z.eqb_refl. cbn [negb].
  rewrite (mapM_Some_2 _ _ ((λ _, true) <$> seqZ 0 (Z.of_nat n))).
  - cbn [mbind option_bind]. f_equal. induction (seqZ 0 (Z.of_nat n)); [done|]. cbn. done.
  - apply Forall2_fmap_r, Forall_Forall2_diag, Forall_forall. intros i Hi%elem_of_seqZ. rewrite !arr_get_lookup by lia.
    destruct (lookup_lt_is_Some_2 d1 (Z.to_nat i)) as [x Hx]; [lia|]. assert (Hy : d2 !! Z.to_nat i = Some x).
    { rewrite <- (lookup_take_lt d2 n), <- He, lookup_take_lt by lia. done. }
    rewrite Hx, Hy. cbn [mbind option_bind]. by rewrite Z.eqb_refl.
Qed.

(** *** The operations *)

Lemma logic_user_ok g hands c h cards : 0 <= c < 3 → hands !! Z.to_nat c = Some h → deck_hand cards → length cards = 17%nat →
  m_cbAllCount g = Z.of_nat ∘ length <$> hands → Forall2 holds hands (m_cbAllCardData g) →
  ∃ rows, SetUserCard g c cards 17 = Some (set_hands g (Z.of_nat ∘ length <$> <[Z.to_nat c := cards]> hands) rows) ∧
    Forall2 holds (<[Z.to_nat c := cards]> hands) rows.
Proof.
  intros Hc Hh Hd Hl Hcount Hrows. unfold SetUserCard, GAME_PLAYER. rewrite (proj2 (Z.leb_gt _ _)) by lia.
  destruct (Forall2_lookup_l _ _ _ _ _ Hrows Hh) as (row & Hrow & Hold). rewrite (chair_get _ _ _ (proj1 Hc) Hrow). cbn [mbind option_bind].
  destruct (holds_set cards row) as (r1 & r2 & H1 & H2 & Hr2); [by destruct Hold as (? & ? & _ & _ & _ & ?)|done|].
  rewrite Hl in H1, H2. change (Z.of_nat 17) with 17 in H1, H2. rewrite H1. cbn [mbind option_bind].
  rewrite Hcount, (count_set hands c h cards) by (lia || done). cbn [mbind option_bind]. rewrite H2. cbn [mbind option_bind].
  rewrite (chair_set _ _ _ _ (proj1 Hc) Hrow). eexists. split; [done|]. by apply Forall2_insert.
Qed.

Lemma logic_back_ok g hands c h cards : 0 <= c < 3 → hands !! Z.to_nat c = Some h → deck_hand (h ++ cards) →
  m_cbAllCount g = Z.of_nat ∘ length <$> hands → Forall2 holds hands (m_cbAllCardData g) →
  ∃ rows, SetBackCard g c cards (Z.of_nat (length cards)) =
      Some (set_hands g (Z.of_nat ∘ length <$> <[Z.to_nat c := h ++ cards]> hands) rows) ∧
    Forall2 holds (<[Z.to_nat c := h ++ cards]> hands) rows.
Proof.
  intros Hc Hh Hd Hcount Hrows. unfold SetBackCard, GAME_PLAYER. rewrite (proj2 (Z.leb_gt _ _)) by lia.
  destruct (Forall2_lookup_l _ _ _ _ _ Hrows Hh) as (row & Hrow & Hold). rewrite Hcount, (count_get hands c h) by (lia || done).
  cbn [mbind option_bind]. rewrite (chair_get _ _ _ (proj1 Hc) Hrow). cbn [mbind option_bind].
  destruct (holds_back h cards row) as (r1 & r2 & H1 & H2 & Hr2); [done|done|]. rewrite H1. cbn [mbind option_bind].
  pose proof Hd as (_ & _ & H20). rewrite length_app in H20.
  rewrite u8_small, <- Nat2Z.inj_add, <- length_app by lia. rewrite (count_set hands c h (h ++ cards)) by (lia || done). cbn [mbind option_bind].
  rewrite H2. cbn [mbind option_bind]. rewrite (chair_set _ _ _ _ (proj1 Hc) Hrow). eexists. split; [done|]. by apply Forall2_insert.
Qed.

Lemma logic_remove_ok g hands c h cards : 0 <= c < 3 → hands !! Z.to_nat c = Some h → deck_hand h → NoDup cards → Forall (λ d, d ∈ h) cards →
  m_cbAllCount g = Z.of_nat ∘ length <$> hands → Forall2 holds hands (m_cbAllCardData g) →
  let h' := filter (λ d, d ∉ cards) h in
  Z.of_nat (length h') = Z.of_nat (length h) - Z.of_nat (length cards) ∧
  ∃ rows, RemoveUserCardData g c cards (Z.of_nat (length cards)) = Some (set_hands g (Z.of_nat ∘ length <$> <[Z.to_nat c := h']> hands) rows) ∧
    Forall2 holds (<[Z.to_nat c := h']> hands) rows.
Proof.
  intros Hc Hh Hd Hn Hin Hcount Hrows h'.
  assert (Hlen : Z.of_nat (length h') = Z.of_nat (length h) - Z.of_nat (length cards)).
  { assert (Hp : h ≡ₚ cards ++ h').
    { apply NoDup_Permutation; [apply Hd| |].
      - apply NoDup_app. split_and!; [done| |apply NoDup_filter, Hd]. intros d Hd1 [Hd2 _]%list_elem_of_filter. done.
      - intros d. rewrite elem_of_app. unfold h'. rewrite list_elem_of_filter. rewrite Forall_forall in Hin.
        split; [destruct (decide (d ∈ cards)); tauto|naive_solver]. }
    apply Permutation_length in Hp. rewrite length_app in Hp. lia. }
  split; [done|]. pose proof (deck_hand_sub _ _ Hd Hn Hin) as (_ & _ & H20).
  unfold RemoveUserCardData, GAME_PLAYER, MAX_COUNT. rewrite (proj2 (Z.ltb_lt _ _)), (proj2 (Z.leb_le _ _)) by lia. cbn [andb c_assert mbind option_bind].
  destruct (Forall2_lookup_l _ _ _ _ _ Hrows Hh) as (row & Hrow & Hold). rewrite (chair_get _ _ _ (proj1 Hc) Hrow). cbn [mbind option_bind].
  rewrite Hcount, (count_get hands c h) by (lia || done). cbn [mbind option_bind].
  destruct (holds_remove h cards row) as (row' & -> & Hrow'); [done..|]. cbn [mbind option_bind fst snd c_assert].
  rewrite (proj2 (Z.leb_le _ _)) by lia. cbn [c_assert mbind option_bind]. rewrite (chair_set _ _ _ _ (proj1 Hc) Hrow). cbn [mbind option_bind].
  rewrite (count_set hands c h h') by (lia || done). cbn [mbind option_bind]. eexists. split; [done|]. by apply Forall2_insert.
Qed.

Lemma copy_length dst off src n r : CopyMemory dst off src n = Some r → length r = length dst.
Proof.
  unfold CopyMemory. destruct (_ && _) eqn:E; [|done]. intros [= <-]. bool_to_prop.
  rewrite !length_app, !length_take, length_drop. lia.
Qed.

Lemma logic_last_ok g u cards : 0 <= u → deck_hand cards →
  length (oc_cbCardData (stLastCard (m_LastOutCard g))) = 20%nat →
  ∃ last, SetLastOutCard g u (if decide (cards = []) then None else Some cards) (Z.of_nat (length cards)) =
      Some (mk_logic (m_cbLandScoreCardData g) (m_cbAllCount g) (m_cbAllCardData g) (m_wBankerUser g) (gl_cbOutCount g) last (m_ppRule g)) ∧
    length (oc_cbCardData (stLastCard last)) = 20%nat ∧ (cards ≠ [] → u < 3 → wOutUser last = u).
Proof.
  intros Hu Hd Hl. unfold SetLastOutCard. destruct (decide (cards = [])) as [E|E]; [by eexists|].
  destruct (_ && _) eqn:Hc.
  - unfold AnalyseOutCard_out. destruct (analyse_out_ok (m_ppRule g) cards Hd) as (ty & r & -> & _). cbn [mbind option_bind snd].
    destruct (holds_set cards (oc_cbCardData (stLastCard (m_LastOutCard g)))) as (r1 & r2 & H1 & H2 & Hr2); [done..|].
    rewrite H1. cbn [mbind option_bind snd]. eexists. split; [done|]. cbn. split; [|done].
    by rewrite (copy_length _ _ _ _ _ H1).
  - eexists. split; [done|]. split; [done|]. intros _ Hu3. exfalso. unfold GAME_PLAYER in Hc. rewrite (proj2 (Z.ltb_lt u 3)) in Hc by lia.
    destruct cards; [done|]. done.
Qed.

Lemma copy_all (dst src : list Z) n : length dst = length src → n = Z.of_nat (length src) → CopyMemory dst 0 src n = Some src.
Proof.
  intros Hl Hn. pose proof (copy_ok [] dst [] src [] 0 n) as H. cbn [app] in H. rewrite !app_nil_r in H. by apply H.
Qed.

Lemma copy_fits dst src : (length src <= length dst)%nat → ∃ r, CopyMemory dst 0 src (Z.of_nat (length src)) = Some r ∧ length r = length dst.
Proof.
  intros Hl. unfold CopyMemory. rewrite !(proj2 (Z.leb_le _ _)) by lia. eexists. split; [done|].
  rewrite !length_app, !length_take, length_drop. lia.
Qed.

Lemma out_count_ok g outs : length (gl_cbOutCount g) = 3%nat → length outs = 3%nat →
  SetOutCount g outs =
  Some (mk_logic (m_cbLandScoreCardData g) (m_cbAllCount g) (m_cbAllCardData g) (m_wBankerUser g) outs (m_LastOutCard g) (m_ppRule g)).
Proof. intros Hg Ho. unfold SetOutCount, GAME_PLAYER. rewrite copy_all by lia. done. Qed.

Lemma hand_length h : deck_hand h → u8 (Z.of_nat (length h)) = Z.of_nat (length h).
Proof. intros (_ & _ & ?). apply u8_small. lia. Qed.

(** Replacing a hand. *)
Lemma hands_insert (hands : list (list Z)) c h : length hands = 3%nat ∧ Forall deck_hand hands → deck_hand h →
  length (<[c := h]> hands) = 3%nat ∧ Forall deck_hand (<[c := h]> hands).
Proof. intros [Hl Hf] Hh. rewrite length_insert. split; [done|]. by apply Forall_insert. Qed.

(** The other hands stay what the player's array holds. *)
Lemma hand_kept (hands : list (list Z)) me c h hand : c ≠ me → (∀ x, hands !! me = Some x → holds x hand) →
  ∀ x, <[c := h]> hands !! me = Some x → holds x hand.
Proof. intros Hne H x. rewrite list_lookup_insert_ne by done. apply H. Qed.

Lemma hand_set (hands : list (list Z)) me c h hand : c = me → (c < length hands)%nat → holds h hand →
  ∀ x, <[c := h]> hands !! me = Some x → holds x hand.
Proof. intros <- Hc Hh x. rewrite list_lookup_insert_eq by done. intros [= <-]. done. Qed.

Lemma alter_set {A} (f : A → A) (l : list A) (i : nat) x : l !! i = Some x → alter f i l = <[i := f x]> l.
Proof.
  intros Hx. pose proof (lookup_lt_Some _ _ _ Hx). apply list_eq. intros j. rewrite list_lookup_alter, list_lookup_insert.
  repeat case_decide; subst; rewrite ?Hx; try done; lia.
Qed.

Lemma user_step_ok t s c cards : rel t s → legal t (EUser c cards) →
  ∃ s', sink_step s (EUser c cards) = Some s' ∧ rel (table_step t (EUser c cards)) s'.
Proof.
  intros [[Hme Hme0] [Ho Hol] Hgo Hh Hc Hgc Hr [Hhl Hhand] Ht Hla Hsc] (Hc3 & Hd & Hl). cbn [sink_step]. rewrite hand_length by done.
  destruct (chair_lookup (t_hands t) c (proj1 Hh) Hc3) as [h Hhc]. destruct (chair_lookup (t_outs t) c Hol Hc3) as [o Hoc].
  unfold sink_SetUserCard. rewrite Ho, (chair_set _ _ _ _ (proj1 Hc3) Hoc), Hc, (count_set (t_hands t) c h cards) by (lia || done).
  cbn [mbind option_bind]. destruct (logic_user_ok (m_GameLogic s) (t_hands t) c h cards) as (rows & Hs & Hrows); [done..|].
  change NORMAL_COUNT with 17. rewrite Hs. cbn [mbind option_bind]. rewrite out_count_ok by (cbn; rewrite ?length_insert; done).
  cbn [mbind option_bind]. rewrite Hme. pose proof (hands_insert (t_hands t) (Z.to_nat c) cards Hh Hd) as Hh'.
  destruct (Z.eqb_spec c (t_me t)) as [E|E].
  - destruct (holds_set cards (m_cbHandCardData s)) as (r1 & r2 & H1 & H2 & Hr2); [done..|]. rewrite Hl in H1, H2.
    change (Z.of_nat 17) with 17 in H1, H2. rewrite H1. cbn [mbind option_bind].
    rewrite (count_get _ (t_me t) cards), Hl; [|done|]. 2: { rewrite <- E. apply list_lookup_insert_eq. destruct Hh. lia. }
    cbn [mbind option_bind]. change (Z.of_nat 17) with 17. rewrite H2. eexists. split; [done|]. constructor; cbn; try done.
    + split; [done|]. by rewrite length_insert.
    + by rewrite length_insert.
    + split; [by destruct Hr2 as (? & ? & _ & _ & _ & ?)|]. apply hand_set; [lia|destruct Hh; lia|done].
  - eexists. split; [done|]. constructor; cbn; try done.
    + split; [done|]. by rewrite length_insert.
    + by rewrite length_insert.
    + split; [done|]. apply hand_kept; [lia|done].
Qed.

Lemma back_step_ok t s c cards : rel t s → legal t (EBack c cards) →
  ∃ s', sink_step s (EBack c cards) = Some s' ∧ rel (table_step t (EBack c cards)) s'.
Proof.
  intros [[Hme Hme0] [Ho Hol] Hgo Hh Hc Hgc Hr [Hhl Hhand] Ht Hla Hsc] (Hc3 & h & Hhc & H17 & Hd). cbn [sink_step table_step].
  rewrite (alter_set _ _ _ _ Hhc). pose proof Hd as (_ & _ & H20). rewrite length_app in H20. rewrite u8_small by lia.
  unfold sink_SetBackCard. rewrite Hc, (count_get (t_hands t) c h) by (lia || done). cbn [mbind option_bind].
  unfold NORMAL_COUNT. rewrite (proj2 (Z.leb_le _ _)) by lia. cbn [c_assert mbind option_bind].
  rewrite u8_small, <- Nat2Z.inj_add, <- length_app by lia. rewrite (count_set (t_hands t) c h (h ++ cards)) by (lia || done). cbn [mbind option_bind].
  destruct (logic_back_ok (m_GameLogic s) (t_hands t) c h cards) as (rows & Hs & Hrows); [done..|].
  pose proof (hands_insert (t_hands t) (Z.to_nat c) _ Hh Hd) as Hh'. rewrite Hme.
  destruct (Z.eqb_spec c (t_me t)) as [E|E].
  - destruct (holds_back h cards (m_cbHandCardData s)) as (r1 & r2 & H1 & H2 & Hr2); [apply Hhand; by rewrite <- E|done|].
    rewrite H1. cbn [mbind option_bind]. rewrite H2. cbn [mbind option_bind]. rewrite Hs. cbn [mbind option_bind].
    eexists. split; [done|]. constructor; cbn; try done.
    split; [by destruct Hr2 as (? & ? & _ & _ & _ & ?)|]. apply hand_set; [lia|destruct Hh; lia|done].
  - cbn [mbind option_bind]. rewrite Hs. cbn [mbind option_bind]. eexists. split; [done|]. constructor; cbn; try done.
    split; [done|]. apply hand_kept; [lia|done].
Qed.

(** The player's own comparison with its logic succeeds. *)
Lemma check_data_ok t s h : m_wMeChairID s = t_me t → 0 <= t_me t → t_hands t !! Z.to_nat (t_me t) = Some h → deck_hand h →
  m_cbHandCardCount s = Z.of_nat ∘ length <$> t_hands t → m_cbAllCount (m_GameLogic s) = Z.of_nat ∘ length <$> t_hands t →
  Forall2 holds (t_hands t) (m_cbAllCardData (m_GameLogic s)) → holds h (m_cbHandCardData s) →
  wOutUser (m_LastOutCard (m_GameLogic s)) = m_wOutChairID s → gl_cbOutCount (m_GameLogic s) = m_cbOutCount s →
  CheckGameLogicData s = Some tt.
Proof.
  intros Hme H0 Hh Hd Hc Hgc Hr Hhand Hw Ho. unfold CheckGameLogicData. rewrite Hme, Hc, Hgc, Hw, Ho.
  destruct (Forall2_lookup_l _ _ _ _ _ Hr Hh) as (row & Hrow & Hold). rewrite (chair_get _ _ _ H0 Hrow), (count_get _ _ h) by done.
  cbn [mbind option_bind]. destruct Hd as (? & ? & H20) eqn:E.
  rewrite equal_data_ok; [|by destruct Hold as (? & ? & _ & _ & _ & ->)|by destruct Hhand as (? & ? & _ & _ & _ & ->)|by apply (holds_unique h)].
  cbn [mbind option_bind c_assert]. rewrite bool_decide_eq_true_2 by done. cbn [c_assert mbind option_bind]. rewrite Z.eqb_refl.
  cbn [c_assert mbind option_bind]. by rewrite bool_decide_eq_true_2.
Qed.

Lemma out_step_ok t s c cards : rel t s → legal t (EOut c cards) →
  ∃ s', sink_step s (EOut c cards) = Some s' ∧ rel (table_step t (EOut c cards)) s'.
Proof.
  intros [[Hme Hme0] [Ho Hol] Hgo Hh Hc Hgc Hr [Hhl Hhand] Ht Hla Hsc] (Hm3 & Hc3 & h & Hhc & Hne & Hn & Hin). cbn [sink_step table_step].
  assert (Hd : deck_hand h) by (destruct Hh as [_ Hf]; by eapply Forall_lookup in Hf).
  pose proof (deck_hand_sub _ _ Hd Hn Hin) as Hcards. rewrite hand_length by done.
  destruct (chair_lookup (t_outs t) c Hol Hc3) as [o Hoc]. rewrite (alter_set _ _ _ _ Hhc), (alter_set _ _ _ _ Hoc).
  unfold OnUserOutCard. rewrite Ho, (chair_get _ _ _ (proj1 Hc3) Hoc). cbn [mbind option_bind].
  rewrite (chair_set _ _ _ _ (proj1 Hc3) Hoc). cbn [mbind option_bind].
  destruct (logic_last_ok (m_GameLogic s) c cards) as (last & Hlast & Hlast20 & Hlastu); [lia|done|done|].
  rewrite decide_False in Hlast by done. rewrite Hlast. cbn [mbind option_bind]. clear Hlast.
  destruct (copy_fits (m_cbTurnCardData s) cards) as (turn & -> & Hturn); [rewrite Ht; by destruct Hcards as (_ & _ & ?)|]. cbn [mbind option_bind].
  set (g := mk_logic _ _ _ _ _ _ _). destruct (logic_remove_ok g (t_hands t) c h cards) as (Hlen & rows & Hrem & Hrows); [done..|].
  set (h' := filter (λ d, d ∉ cards) h) in *.
  assert (Hd' : deck_hand h').
  { apply (deck_hand_sub h); [done|apply NoDup_filter, Hd|]. apply Forall_forall. by intros d [_ ?]%list_elem_of_filter. }
  pose proof (hands_insert (t_hands t) (Z.to_nat c) _ Hh Hd') as Hh'.
  assert (∃ hand, (if m_wMeChairID s =? c then
      have ← arr_get (m_cbHandCardCount s) (m_wMeChairID s);
      r ← RemoveCard cards (Z.of_nat (length cards)) (m_cbHandCardData s) have; Some r.2
    else Some (m_cbHandCardData s)) = Some hand ∧ length hand = 20%nat ∧
    ∀ x, <[Z.to_nat c := h']> (t_hands t) !! Z.to_nat (t_me t) = Some x → holds x hand) as (hand & -> & Hhand20 & Hhand').
  { rewrite Hme. destruct (Z.eqb_spec (t_me t) c) as [E|E].
    - rewrite Hc, (count_get _ _ h) by (done || by rewrite E). cbn [mbind option_bind].
      destruct (holds_remove h cards (m_cbHandCardData s)) as (hand & -> & Hhold); [apply Hhand; by rewrite E|done..|].
      eexists. split; [done|]. split; [by destruct Hhold as (? & ? & _ & _ & _ & ?)|]. apply hand_set; [lia|destruct Hh; lia|done].
    - eexists. split; [done|]. split; [done|]. apply hand_kept; [lia|done]. }
  cbn [mbind option_bind]. rewrite Hrem. cbn [mbind option_bind]. rewrite out_count_ok by (cbn; rewrite ?length_insert; done).
  cbn [mbind option_bind]. rewrite Hc, (count_get _ _ h) by (done || lia). cbn [mbind option_bind].
  pose proof Hd as (_ & _ & H20). rewrite (u8_small (Z.of_nat (length h) - _)) by lia. rewrite (count_set _ _ h h') by (done || lia). cbn [mbind option_bind].
  destruct (chair_lookup (<[Z.to_nat c := h']> (t_hands t)) (t_me t) (proj1 Hh') Hm3) as [x Hx].
  rewrite (check_data_ok (mk_table (t_me t) (<[Z.to_nat c := h']> (t_hands t)) (t_outs t)) _ x);
    [|done|done|done|destruct Hh' as [_ Hf]; by eapply Forall_lookup in Hf|done|done|done|by apply Hhand'|cbn; apply Hlastu; [done|lia]|done].
  cbn [mbind option_bind]. eexists. split; [done|]. constructor; cbn; try done.
  - split; [done|]. by rewrite length_insert.
  - by rewrite length_insert.
  - congruence.
Qed.

Lemma last_step_ok t s u cards : rel t s → legal t (ELast u cards) →
  ∃ s', sink_step s (ELast u cards) = Some s' ∧ rel (table_step t (ELast u cards)) s'.
Proof.
  intros [[Hme Hme0] [Ho Hol] Hgo Hh Hc Hgc Hr [Hhl Hhand] Ht Hla Hsc] (Hu & Hd). cbn [sink_step table_step]. rewrite hand_length by done.
  unfold sink_SetLastOutCard.
  replace (default [] (if decide (cards = []) then None else Some cards)) with cards by (case_decide; by subst).
  destruct (copy_fits (m_cbTurnCardData s) cards) as (turn & -> & Hturn); [rewrite Ht; by destruct Hd as (_ & _ & ?)|]. cbn [mbind option_bind].
  destruct (logic_last_ok (m_GameLogic s) u cards) as (last & -> & Hlast20 & _); [done..|]. eexists. split; [done|].
  constructor; cbn; try done. congruence.
Qed.

(** One event. *)
Lemma sink_step_ok t s e : rel t s → legal t e → ∃ s', sink_step s e = Some s' ∧ rel (table_step t e) s'.
Proof.
  intros HR HL. destruct e as [c|c cards|c cards|c cards|u cards|outs|c|cards|r];
    [|by apply user_step_ok|by apply back_step_ok|by apply out_step_ok|by apply last_step_ok|..]; cbn [sink_step table_step];
    destruct HR as [[Hme Hme0] [Ho Hol] Hgo Hh Hc Hgc Hr [Hhl Hhand] Ht Hla Hsc].
  - destruct HL as [Hc3 Hempty]. eexists. split; [done|]. constructor; cbn; try done; [by split; [|lia]|]. split; [done|].
    rewrite Hempty. intros h [= <-]. exists [], (m_cbHandCardData s). split_and!; [done..|constructor|done].
  - unfold sink_SetOutCount. rewrite copy_all, out_count_ok by (unfold GAME_PLAYER; cbn in HL; rewrite ?Ho; congruence || lia).
    eexists. split; [done|]. by constructor.
  - eexists. split; [done|]. by constructor.
  - destruct HL as [Hd H20]. rewrite hand_length by done. unfold SetLandScoreCardData, MAX_COUNT. rewrite H20.
    change (Z.of_nat 20 =? 20) with true. cbn [c_assert mbind option_bind].
    destruct (holds_set cards (m_cbLandScoreCardData (m_GameLogic s))) as (r1 & r2 & H1 & H2 & Hr2); [done..|]. rewrite H20 in H1, H2.
    rewrite H1. cbn [mbind option_bind]. rewrite H2. cbn [mbind option_bind]. eexists. split; [done|]. constructor; cbn; try done.
    by destruct Hr2 as (? & ? & _ & _ & _ & ?).
  - eexists. split; [done|]. by constructor.
Qed.

Fixpoint sink_run (s : CGameUserItemSink) (es : list event) : option CGameUserItemSink :=
  match es with [] => Some s | e :: es => s ← sink_step s e; sink_run s es end.

Fixpoint legal_run (t : table) (es : list event) : Prop :=
  match es with [] => True | e :: es => legal t e ∧ legal_run (table_step t e) es end.

Definition new_table (garbage : list Z) : table := mk_table INVALID_CHAIR [[]; []; []] garbage.

Lemma rel_new garbage : length garbage = 3%nat → rel (new_table garbage) (new_sink garbage).
Proof.
  intros Hg. constructor; cbn; try done.
  - split; [done|]. repeat constructor; apply NoDup_nil_2.
  - repeat (apply Forall2_cons; split; [exists [], (replicate 20 0); split_and!; [done..|constructor|done]|]). constructor.
Qed.

(** C28. The player keeps track of the table.  From its construction on, a legal
    sequence of events goes through: no assertion fails, in particular not the
    comparison of the player's two copies after each play, and no array is
    left; and the arrays hold, in order, the cards that are in the hands. *)
Theorem land_table_refines garbage es : length garbage = 3%nat → legal_run (new_table garbage) es →
  ∃ s, sink_run (new_sink garbage) es = Some s ∧ rel (foldl table_step (new_table garbage) es) s.
Proof.
  intros Hg. generalize (rel_new garbage Hg). generalize (new_table garbage) (new_sink garbage). clear Hg garbage.
  induction es as [|e es IH]; intros t s HR HL; [by eexists|]. destruct HL as [HL HLs].
  destruct (sink_step_ok t s e HR HL) as (s' & Hs & HR'). cbn [sink_run foldl]. rewrite Hs. cbn [mbind option_bind]. by apply IH.
Qed.

Lemma land_table_refines_witness :
  let es := [EMe 0; EUser 0 (seqZ 1 13 ++ seqZ 17 4); EUser 1 (seqZ 21 9 ++ seqZ 33 8); EBack 0 [65; 66]; EOut 0 [66; 65]; EOut 1 [33]] in
  ∃ s, sink_run (new_sink [7; 8; 9]) es = Some s ∧ m_cbHandCardCount s = [17; 16; 0] ∧ m_cbOutCount s = [1; 1; 9].
Proof.
  cbv zeta. match goal with |- ∃ s, sink_run _ ?l = _ ∧ _ => destruct (land_table_refines [7; 8; 9] l) as (s & Hs & HR) end.
  - reflexivity.
  - cbn [legal_run]. unfold legal, new_table, table_step. cbn [t_hands t_me t_outs].
    split_and!; try done; try lia; try (vm_compute; exact I);
      try (exact I); try (by apply (bool_decide_unpack _); vm_compute);
      try (eexists; split; [vm_compute; reflexivity|]; split_and!; try (simpl; lia); try done; by apply (bool_decide_unpack _); vm_compute).
  - exists s. split; [exact Hs|]. destruct HR as [_ [Ho _] _ _ Hc _ _ _ _ _ _]. split; [rewrite Hc|rewrite Ho]; vm_compute; reflexivity.
Defined.

(** ** Choosing a play *)

(** Only the cards counted matter. *)
Lemma analyse_prefix rule data n : 0 <= n <= Z.of_nat (length data) →
  AnalyseOutCard rule data n = AnalyseOutCard rule (take (Z.to_nat n) data) n.
Proof.
  intros Hn. unfold AnalyseOutCard, copy_cards. rewrite length_take, take_take, Nat.min_id.
  destruct (Z.leb_spec n (Z.of_nat (length data))); [|lia]. by rewrite (proj2 (Z.leb_le n (Z.of_nat (Z.to_nat n `min` length data)))) by lia.
Qed.

Lemma analyse_array rule data n : 0 <= n <= Z.of_nat (length data) → deck_hand (take (Z.to_nat n) data) →
  ∃ ty r, AnalyseOutCard rule data n = Some (ty, r) ∧ (ty ≠ CT_ERROR → play (take (Z.to_nat n) data) ty (cbLogicValue r)).
Proof.
  intros Hn Hd. rewrite analyse_prefix by done. destruct (analyse_out_ok rule _ Hd) as (ty & r & Hr & Hp & _).
  rewrite length_take_le, Z2Nat.id in Hr by lia. exists ty, r. split; [done|]. intros Hty. by apply Hp.
Qed.

(** The smallest card of a hand is played when the search finds nothing. *)
Lemma smallest_card_ok s h st : holds h (m_cbHandCardData s) → deck_hand h → h ≠ [] → length (oc_cbCardData st) = 20%nat →
  ∃ c data, smallest_card s (Z.of_nat (length h)) st = Some (mk_out data 1 CT_SINGLE (oc_cbLogicValue st)) ∧
    data !! 0%nat = Some c ∧ c ∈ h ∧ ∀ d, d ∈ h → card_ge d c.
Proof.
  intros (s0 & post & Hrow & Hp & Ho & Hl) Hd Hne H20. pose proof Hd as (_ & _ & Hh20). unfold smallest_card, MAX_COUNT.
  rewrite Z.min_l by lia. pose proof (Permutation_length Hp) as Hpl. rewrite Hrow in *.
  pose proof (copy_ok [] (replicate (length h) 0) (replicate (20 - length h) 0) s0 post 0 (Z.of_nat (length h))) as Hc.
  cbn [app] in Hc. rewrite <- replicate_add, length_replicate in Hc. replace (length h + (20 - length h))%nat with 20%nat in Hc by lia.
  rewrite Hc; [|done|lia|lia]. cbn [mbind option_bind].
  destruct (holds_sort h s0 (replicate (20 - length h) 0)) as (row & -> & s1 & p1 & -> & Hp1 & Ho1 & _);
    [done|done|rewrite length_app, length_replicate; lia|].
  cbn [mbind option_bind]. pose proof (Permutation_length Hp1) as Hl1. destruct s1 as [|c s1 _] using rev_ind.
  { apply Permutation_nil_l in Hp1. done. }
  rewrite length_app in Hl1. cbn [length] in Hl1. rewrite <- app_assoc. cbn [app]. rewrite arr_get_mid by lia. cbn [mbind option_bind].
  rewrite arr_set_some by lia. cbn [mbind option_bind]. eexists c, _. split_and!; [done| | |].
  - apply list_lookup_insert_eq. simpl. lia.
  - rewrite <- Hp1. set_solver.
  - intros d Hdin. rewrite <- Hp1 in Hdin. apply elem_of_app in Hdin as [Hdin|Hdin].
    + apply StronglySorted_app in Ho1 as (Hx & _). apply Hx; [done|set_solver].
    + apply list_elem_of_singleton in Hdin as ->. unfold card_ge. lia.
Qed.

(** What [CalcOutCard] does with a result of the search, which is a parameter.
    Where the search returns different cards of the deck, no more than the hand
    has, the choice ends; a play that is returned (1) beats the cards on the
    table or, when the player leads, is a play or the smallest card of the
    hand; and a player that leads with cards left passes only if the search
    gave cards that are no play.  That the cards are of the hand is up to the
    search. *)
Lemma calc_out_card_ok Search t s h g st isMust :
  rel t s → 0 <= t_me t < 3 → t_hands t !! Z.to_nat (t_me t) = Some h →
  (∀ g0 hand n turn k out me, Search g0 hand n turn k out me = Some (g, st)) →
  length (oc_cbCardData st) = 20%nat → 0 <= oc_cbCardCount st <= Z.of_nat (length h) →
  deck_hand (take (Z.to_nat (oc_cbCardCount st)) (oc_cbCardData st)) →
  0 <= m_cbTurnCardCount s <= 20 → deck_hand (take (Z.to_nat (m_cbTurnCardCount s)) (m_cbTurnCardData s)) →
  ∃ ret out s', CalcOutCard Search s isMust = Some (ret, out, s') ∧
    (ret = 1 → 0 < oc_cbCardCount out) ∧
    (ret = 1 → isMust = false →
      CompareCard (m_ppRule g) (m_cbTurnCardData s) (oc_cbCardData out) (m_cbTurnCardCount s) (oc_cbCardCount out) = Some true) ∧
    (ret = 1 → isMust = true →
      (∃ ty v, play (take (Z.to_nat (oc_cbCardCount out)) (oc_cbCardData out)) ty v) ∨
      (oc_cbCardCount out = 1 ∧ ∃ c, oc_cbCardData out !! 0%nat = Some c ∧ c ∈ h ∧ ∀ d, d ∈ h → card_ge d c)) ∧
    (isMust = true → h ≠ [] → ret = 1 ∨ ret = -3).
Proof.
  intros [[Hme Hme0] [Ho Hol] Hgo Hh Hc Hgc Hr [Hhl Hhand] Ht Hla Hsc] Hm3 Hhm Hsearch H20 Hcount Hst Htn Hturn.
  assert (Hd : deck_hand h) by (destruct Hh as [_ Hf]; by eapply Forall_lookup in Hf).
  unfold CalcOutCard. rewrite Hme. unfold GAME_PLAYER. rewrite (proj2 (Z.leb_gt _ _)) by lia. rewrite out_count_ok by (cbn; congruence).
  cbn [mbind option_bind]. rewrite Hc, (count_get _ _ h) by (done || lia). cbn [mbind option_bind]. rewrite Hsearch. cbn [mbind option_bind].
  rewrite (proj2 (Z.ltb_ge _ _)) by lia.
  destruct (analyse_array (m_ppRule g) (oc_cbCardData st) (oc_cbCardCount st)) as (ty & r & Hty & Hplay);
    [destruct Hd as (_ & _ & ?); lia|done|].
  assert (Hg : GetCardType (m_ppRule g) (oc_cbCardData st) (oc_cbCardCount st) = Some ty) by (unfold GetCardType; by rewrite Hty).
  destruct (Z.ltb_spec 0 (oc_cbCardCount st)) as [Hpos|Hz].
  - rewrite Hg. cbn [mbind option_bind]. destruct (Z.eqb_spec ty CT_ERROR) as [E|E].
    { eexists _, _, _. split; [done|]. split_and!; try done. auto. }
    destruct isMust.
    + rewrite (proj2 (Z.eqb_neq _ _)) by lia. eexists _, _, _. split; [done|]. split_and!; try done; [|auto]. left. eauto.
    + destruct (analyse_array (m_ppRule g) (m_cbTurnCardData s) (m_cbTurnCardCount s)) as (ty' & r' & Hty' & _); [lia|done|].
      assert (∃ b, CompareCard (m_ppRule g) (m_cbTurnCardData s) (oc_cbCardData st) (m_cbTurnCardCount s) (oc_cbCardCount st) = Some b)
        as [b Hb] by (unfold CompareCard; rewrite Hty, Hty'; by eexists).
      rewrite Hb. cbn [mbind option_bind]. rewrite (proj2 (Z.leb_gt _ _)) by lia.
      destruct b; (eexists _, _, _; split; [done|]; split_and!; done).
  - cbn [mbind option_bind]. change (CT_SINGLE =? CT_ERROR) with false. cbn iota. assert (E0 : oc_cbCardCount st = 0) by lia. rewrite E0 in *.
    destruct isMust.
    + change (0 =? 0) with true. cbn iota. destruct (Z.eqb_spec (Z.of_nat (length h)) 0) as [E|E].
      { eexists _, _, _. split; [done|]. split_and!; try done. intros _ Hne. by destruct h. }
      match goal with |- context [smallest_card ?s' _ _] =>
        destruct (smallest_card_ok s' h st) as (c & data & -> & Hc0 & Hin & Hmin); [by apply Hhand|done|by intros ->|done|] end.
      cbn [mbind option_bind]. eexists _, _, _. split; [done|]. split_and!; try done; [|auto]. right. eauto.
    + destruct (analyse_array (m_ppRule g) (m_cbTurnCardData s) (m_cbTurnCardCount s)) as (ty' & r' & Hty' & _); [lia|done|].
      assert (∃ b, CompareCard (m_ppRule g) (m_cbTurnCardData s) (oc_cbCardData st) (m_cbTurnCardCount s) 0 = Some b)
        as [b Hb] by (unfold CompareCard; rewrite Hty, Hty'; by eexists).
      rewrite Hb. cbn [mbind option_bind]. change (0 <=? 0) with true. destruct b; (eexists _, _, _; split; [done|]; split_and!; done).
Qed.

Lemma calc_out_card_ok_witness : ∃ s s' data,
  sink_run (new_sink [0; 0; 0]) [EMe 0; EUser 0 (seqZ 1 13 ++ seqZ 17 4)] = Some s ∧
  CalcOutCard (λ _ _ _ _ _ _ _, Some (new_logic, zero_out)) s true = Some (1, mk_out data 1 CT_SINGLE 0, s') ∧ data !! 0%nat = Some 3.
Proof.
  pose proof (rel_new [0; 0; 0] eq_refl) as H0.
  destruct (sink_step_ok _ _ (EMe 0) H0) as (s1 & Hs1 & H1); [split; [lia|reflexivity]|].
  assert (Hc : deck_hand (seqZ 1 13 ++ seqZ 17 4)) by solve_hand.
  destruct (sink_step_ok _ _ (EUser 0 (seqZ 1 13 ++ seqZ 17 4)) H1) as (s2 & Hs2 & H2); [split; [lia|split; [exact Hc|reflexivity]]|].
  injection Hs1 as <-. vm_compute in Hs2. injection Hs2 as <-.
  match type of H2 with rel _ ?s2 => destruct (calc_out_card_ok (λ _ _ _ _ _ _ _, Some (new_logic, zero_out)) _ s2
    (seqZ 1 13 ++ seqZ 17 4) new_logic zero_out true H2) as (ret & out & s' & Hr & Hp & _ & Hl & Hm) end;
    [split; done|reflexivity|done|reflexivity|vm_compute; split; discriminate|solve_hand|vm_compute; split; discriminate|solve_hand|].
  destruct (Hm eq_refl) as [->| ->]; [done| |vm_compute in Hr; discriminate].
  eexists _, s', _. split; [vm_compute; reflexivity|]. split; [rewrite Hr; vm_compute in Hr; injection Hr as <- <-; reflexivity|]. reflexivity.
Defined.
