(* ===== verification/Server.v ===== *)
(** * Contexts of services: skynet-src/skynet_server.c, skynet_harbor.c

    A context is reached through the table of handles and through the
    references that running threads hold; it is freed when the count of both
    drops to zero.  Threads interleave at the locks and atomic operations of
    the code: taking a handle out of the table, raising a count, dropping it
    are actions of their own.

    A context that is freed is no longer in the heap, and any access to it is
    [None].  What a context keeps for its module, the processor time, the text
    of command results and what is logged are left out; the module's functions
    are code outside of this file and run between the actions.  Handing a new
    queue to the global queue, or releasing it when the launch fails, are steps
    of [Scheduler].

    The table is used through the class [HandleTable], which skynet_handle.c
    ([HandleStorage]) implements. *)

From Stdlib Require Import ZArith Lia.
From stdpp Require Import base tactics option numbers gmap list sorting fin_maps relations.
From S2P Require Import Prelude MessageQueue HandleStorage Libc.

Local Open Scope Z_scope.

(** ** The interface of the table *)

(** The table maps handles to contexts; it reads the handle of a context
    through the context itself, here by the function of the first argument.
    A context that has just been registered still has the handle 0 there: the
    function that is read [masks] the one by which the table is sorted, and
    such a context is not found.  The table may only grow, which sorts it
    again, while no handle is masked. *)
Definition masks (ch' ch : ctxid → Z) : Prop := ∀ c, ch' c = ch c ∨ ch' c = 0.

Definition visible (ch' : ctxid → Z) (m : gmap Z ctxid) (h : Z) : option ctxid :=
  c ← m !! h; if ch' c =? h then Some c else None.

Class HandleTable (T : Type) := {
  ht_register : (ctxid → Z) → ctxid → T → option (Z * T);
  ht_retire : (ctxid → Z) → Z → T → option (option ctxid * T);
  ht_grab : (ctxid → Z) → Z → T → option (option ctxid);
  ht_members : T → list ctxid;
  ht_room : T → Prop;
  ht_spare : T → Prop;
  ht_repr : (ctxid → Z) → T → gmap Z ctxid → Prop;
  ht_ext ch ch' t m : (∀ c, c ∈ ht_members t → ch c = ch' c) → ht_repr ch t m → ht_repr ch' t m;
  ht_members_ok ch t m c : ht_repr ch t m → c ∈ ht_members t ↔ m !! ch c = Some c;
  ht_handle ch t m h c : ht_repr ch t m → m !! h = Some c → ch c = h;
  ht_register_ok ch ch' t m c : ht_repr ch t m → ht_room t → c ∉ ht_members t → masks ch' ch →
    (∀ d, d ∈ ht_members t → ch' d = ch d) ∨ ht_spare t →
    ∃ h t', ht_register ch' c t = Some (h, t') ∧ m !! h = None ∧ h ≠ 0 ∧ ht_repr (set_handle ch c h) t' (<[h := c]> m);
  ht_retire_ok ch ch' t m h : ht_repr ch t m → masks ch' ch → h ≠ 0 →
    ∃ t', ht_retire ch' h t = Some (visible ch' m h, t') ∧ ht_repr ch t' (if visible ch' m h then delete h m else m);
  ht_grab_ok ch ch' t m h : ht_repr ch t m → masks ch' ch → h ≠ 0 → ht_grab ch' h t = Some (visible ch' m h)
}.

(** ** Contexts *)

Record skynet_context := mk_context {
  ctx_cb : bool;                (** a callback is set *)
  ctx_queue : option positive;  (** [None]: not set *)
  ctx_logfile : bool;
  ctx_handle : Z;
  ctx_session_id : Z;
  ctx_ref : Z;
  ctx_message_count : Z;
  ctx_init : bool;
  ctx_endless : bool
}.

Definition set_ref (x : skynet_context) (r : Z) : skynet_context :=
  mk_context (ctx_cb x) (ctx_queue x) (ctx_logfile x) (ctx_handle x) (ctx_session_id x) r (ctx_message_count x) (ctx_init x) (ctx_endless x).

Definition set_ctx_handle (x : skynet_context) (h : Z) : skynet_context :=
  mk_context (ctx_cb x) (ctx_queue x) (ctx_logfile x) h (ctx_session_id x) (ctx_ref x) (ctx_message_count x) (ctx_init x) (ctx_endless x).

Definition set_session (x : skynet_context) (i : Z) : skynet_context :=
  mk_context (ctx_cb x) (ctx_queue x) (ctx_logfile x) (ctx_handle x) i (ctx_ref x) (ctx_message_count x) (ctx_init x) (ctx_endless x).

Definition set_init (x : skynet_context) (b : bool) : skynet_context :=
  mk_context (ctx_cb x) (ctx_queue x) (ctx_logfile x) (ctx_handle x) (ctx_session_id x) (ctx_ref x) (ctx_message_count x) b (ctx_endless x).

Definition set_endless (x : skynet_context) (b : bool) : skynet_context :=
  mk_context (ctx_cb x) (ctx_queue x) (ctx_logfile x) (ctx_handle x) (ctx_session_id x) (ctx_ref x) (ctx_message_count x) (ctx_init x) b.

Definition set_cb (x : skynet_context) (b : bool) : skynet_context :=
  mk_context b (ctx_queue x) (ctx_logfile x) (ctx_handle x) (ctx_session_id x) (ctx_ref x) (ctx_message_count x) (ctx_init x) (ctx_endless x).

Definition set_queue (x : skynet_context) (q : positive) : skynet_context :=
  mk_context (ctx_cb x) (Some q) (ctx_logfile x) (ctx_handle x) (ctx_session_id x) (ctx_ref x) (ctx_message_count x) (ctx_init x) (ctx_endless x).

(** [struct remote_message] *)
Record remote_message := mk_remote {
  rm_handle : Z;
  rm_name : list Z;
  rm_message : Z;
  rm_sz : Z;
  rm_type : Z
}.

(** The node: the contexts by address, the table, [G_NODE.total], the queues
    with what has been pushed to them, those that are given up, the blocks of
    message data and the remote messages by address, [HARBOR] and [REMOTE]. *)
Record server (T : Type) := mk_server {
  sv_heap : gmap ctxid skynet_context;
  sv_table : T;
  sv_total : Z;
  sv_queues : gmap positive (list skynet_message);
  sv_marked : list positive;
  sv_mem : gmap Z (list Z);
  sv_rmsg : gmap Z remote_message;
  sv_harbor : Z;
  sv_remote : option ctxid
}.
Arguments mk_server {T}.
Arguments sv_heap {T}.
Arguments sv_table {T}.
Arguments sv_total {T}.
Arguments sv_queues {T}.
Arguments sv_marked {T}.
Arguments sv_mem {T}.
Arguments sv_rmsg {T}.
Arguments sv_harbor {T}.
Arguments sv_remote {T}.

Section server.
Context {T : Type} {HT : HandleTable T}.
Implicit Types (s : server T) (c : ctxid).

Definition with_heap s (h : gmap ctxid skynet_context) : server T :=
  mk_server h (sv_table s) (sv_total s) (sv_queues s) (sv_marked s) (sv_mem s) (sv_rmsg s) (sv_harbor s) (sv_remote s).

Definition with_table s (t : T) : server T :=
  mk_server (sv_heap s) t (sv_total s) (sv_queues s) (sv_marked s) (sv_mem s) (sv_rmsg s) (sv_harbor s) (sv_remote s).

Definition with_queues s (q : gmap positive (list skynet_message)) : server T :=
  mk_server (sv_heap s) (sv_table s) (sv_total s) q (sv_marked s) (sv_mem s) (sv_rmsg s) (sv_harbor s) (sv_remote s).

Definition with_mem s (m : gmap Z (list Z)) : server T :=
  mk_server (sv_heap s) (sv_table s) (sv_total s) (sv_queues s) (sv_marked s) m (sv_rmsg s) (sv_harbor s) (sv_remote s).

Definition with_rmsg s (m : gmap Z remote_message) : server T :=
  mk_server (sv_heap s) (sv_table s) (sv_total s) (sv_queues s) (sv_marked s) (sv_mem s) m (sv_harbor s) (sv_remote s).

Definition put_ctx s c (x : skynet_context) : server T := with_heap s (<[c := x]> (sv_heap s)).

(** [G_NODE.total] *)
Definition context_add s (d : Z) : server T :=
  mk_server (sv_heap s) (sv_table s) (i32 (sv_total s + d)) (sv_queues s) (sv_marked s) (sv_mem s) (sv_rmsg s) (sv_harbor s) (sv_remote s).

(** [skynet_context_handle] of what the table holds. *)
Definition skynet_context_handle (heap : gmap ctxid skynet_context) (c : ctxid) : Z :=
  match heap !! c with Some x => ctx_handle x | None => 0 end.

(** No context of the table is freed: what the table dereferences. *)
Definition table_alive s : bool := forallb (λ c, bool_decide (is_Some (sv_heap s !! c))) (ht_members (sv_table s)).

(** ** Counting references *)

Definition skynet_context_grab c s : option (server T) :=
  x ← sv_heap s !! c; Some (put_ctx s c (set_ref x (i32 (ctx_ref x + 1)))).

(** [skynet_mq_mark_release] is the last that is done with the queue here. *)
Definition delete_context c s : option (server T) :=
  x ← sv_heap s !! c;
  q ← ctx_queue x;
  Some (context_add (mk_server (delete c (sv_heap s)) (sv_table s) (sv_total s) (sv_queues s) (q :: sv_marked s)
    (sv_mem s) (sv_rmsg s) (sv_harbor s) (sv_remote s)) (-1)).

(** The flag is false when the context is gone. *)
Definition skynet_context_release c s : option (bool * server T) :=
  x ← sv_heap s !! c;
  let r := i32 (ctx_ref x - 1) in
  let s := put_ctx s c (set_ref x r) in
  if r =? 0 then s ← delete_context c s; Some (false, s) else Some (true, s).

Definition skynet_context_reserve c s : option (server T) :=
  s ← skynet_context_grab c s; Some (context_add s (-1)).

(** [skynet_handle_grab], with the reference it takes under the lock. *)
Definition handle_grab (h : Z) s : option (option ctxid * server T) :=
  _ ← c_assert (table_alive s);
  r ← ht_grab (skynet_context_handle (sv_heap s)) h (sv_table s);
  match r with
  | None => Some (None, s)
  | Some c => s ← skynet_context_grab c s; Some (Some c, s)
  end.

(** [skynet_handle_retire] under the lock: the context, if any, is out of the
    table, and its reference is the caller's to release. *)
Definition handle_unlink (h : Z) s : option (option ctxid * server T) :=
  _ ← c_assert (table_alive s);
  r ← ht_retire (skynet_context_handle (sv_heap s)) h (sv_table s);
  Some (r.1, with_table s r.2).

Definition handle_retire (h : Z) s : option (server T) :=
  r ← handle_unlink h s;
  match r.1 with
  | None => Some r.2
  | Some c => q ← skynet_context_release c r.2; Some q.2
  end.

(** ** Queues of contexts *)

(** [skynet_mq_push] on a queue that is not given up. *)
Definition queue_push (q : positive) (m : skynet_message) s : option (server T) :=
  if bool_decide (q ∈ sv_marked s) then None
  else l ← sv_queues s !! q; Some (with_queues s (<[q := l ++ [m]]> (sv_queues s))).

Definition context_push c (m : skynet_message) s : option (server T) :=
  x ← sv_heap s !! c; q ← ctx_queue x; queue_push q m s.

Definition skynet_context_push (h : Z) (m : skynet_message) s : option (Z * server T) :=
  r ← handle_grab h s;
  match r.1 with
  | None => Some (-1, r.2)
  | Some c =>
      s ← context_push c m r.2;
      r ← skynet_context_release c s; Some (0, r.2)
  end.

Definition mark_endless c s : option (server T) :=
  x ← sv_heap s !! c; Some (put_ctx s c (set_endless x true)).

Definition skynet_context_endless (h : Z) s : option (server T) :=
  r ← handle_grab h s;
  match r.1 with
  | None => Some r.2
  | Some c => s ← mark_endless c r.2; r ← skynet_context_release c s; Some r.2
  end.

(** *** skynet_monitor.c *)

Record skynet_monitor := mk_monitor { mon_version : Z; check_version : Z; mon_source : Z; mon_destination : Z }.

Definition skynet_monitor_new : skynet_monitor := mk_monitor 0 0 0 0.

Definition skynet_monitor_trigger (sm : skynet_monitor) (src destination : Z) : skynet_monitor :=
  mk_monitor (i32 (mon_version sm + 1)) (check_version sm) src destination.

(** A message that is still handled at the second check marks its service. *)
Definition skynet_monitor_check (sm : skynet_monitor) s : option (skynet_monitor * server T) :=
  if mon_version sm =? check_version sm then
    if negb (mon_destination sm =? 0) then s ← skynet_context_endless (mon_destination sm) s; Some (sm, s)
    else Some (sm, s)
  else Some (mk_monitor (mon_version sm) (mon_version sm) (mon_source sm) (mon_destination sm), s).

(** A session number is positive; the increment of the largest [int] is
    undefined. *)
Definition skynet_context_newsession c s : option (Z * server T) :=
  x ← sv_heap s !! c;
  session ← chk32 (ctx_session_id x + 1);
  if session <=? 0 then Some (1, put_ctx s c (set_session x 1)) else Some (session, put_ctx s c (set_session x session)).

Definition skynet_callback c s : option (server T) := x ← sv_heap s !! c; Some (put_ctx s c (set_cb x true)).

(** ** Launching a service *)

(** The context at the address [c] is filled and entered in the table, from
    where other threads can reach it; its own handle is still 0.  The result is
    the handle. *)
Definition launch_register c s : option (Z * server T) :=
  _ ← c_assert (bool_decide (sv_heap s !! c = None));
  let s := put_ctx s c (mk_context false None false 0 0 2 0 false false) in
  _ ← c_assert (table_alive s);
  r ← ht_register (skynet_context_handle (sv_heap s)) c (sv_table s);
  Some (r.1, with_table s r.2).

(** [ctx->handle = ...] *)
Definition launch_handle c (h : Z) s : option (server T) :=
  x ← sv_heap s !! c; Some (put_ctx s c (set_ctx_handle x h)).

(** [ctx->queue = skynet_mq_create(ctx->handle)], a queue at the address [q],
    and [context_inc]. *)
Definition launch_queue c (q : positive) s : option (server T) :=
  x ← sv_heap s !! c;
  _ ← c_assert (bool_decide (sv_queues s !! q = None));
  let s := put_ctx s c (set_queue x q) in
  Some (context_add (with_queues s (<[q := []]> (sv_queues s))) 1).

(** The three, up to the module's init function. *)
Definition launch_begin c (q : positive) s : option (server T) :=
  r ← launch_register c s; s ← launch_handle c r.1 r.2; launch_queue c q s.

(** After the init function: the creator's reference is dropped ... *)
Definition launch_release c s : option (bool * server T) := skynet_context_release c s.

(** ... [ctx->init = true] ... *)
Definition launch_init c s : option (server T) := x ← sv_heap s !! c; Some (put_ctx s c (set_init x true)).

(** ... and the handle is printed. *)
Definition launch_done c s : option (server T) := _ ← sv_heap s !! c; Some s.

(** The init function failed: the creator's reference and the handle go. *)
Definition launch_failed c s : option (server T) :=
  x ← sv_heap s !! c;
  r ← skynet_context_release c s;
  handle_retire (ctx_handle x) r.2.

Definition skynet_context_new c (q : positive) (r : Z) s : option (option ctxid * server T) :=
  s ← launch_begin c q s;
  if r =? 0 then
    k ← launch_release c s;
    s ← (if k.1 : bool then launch_init c k.2 else Some k.2);
    s ← launch_done c s;
    Some (if k.1 : bool then Some c else None, s)
  else s ← launch_failed c s; Some (None, s).

(** ** Sending messages *)

(** [skynet_free]; a block is freed once. *)
Definition skynet_free (addr : Z) s : option (server T) :=
  if addr =? 0 then Some s else _ ← sv_mem s !! addr; Some (with_mem s (delete addr (sv_mem s))).

(** The copy of a message: [skynet_malloc] returns [addr]. *)
Definition copy_message (addr data_ sz_ : Z) s : option (server T) :=
  msg ← sv_mem s !! data_;
  _ ← c_assert ((sz_ <=? Z.of_nat (length msg)) && negb (addr =? 0) && bool_decide (sv_mem s !! addr = None));
  Some (with_mem s (<[addr := take (Z.to_nat sz_) msg ++ [0]]> (sv_mem s))).

(** The session, the data and the size with the type in its high byte. *)
Definition _filter_args (context : option ctxid) (type session_ data_ sz_ addr : Z) s : option (Z * Z * Z * server T) :=
  let needcopy := Z.land type PTYPE_TAG_DONTCOPY =? 0 in
  let allocsession := negb (Z.land type PTYPE_TAG_ALLOCSESSION =? 0) in
  let type := Z.land type 255 in
  r ← (if allocsession then
      _ ← c_assert (session_ =? 0);
      c ← context; skynet_context_newsession c s
    else Some (session_, s));
  let '(session_, s) := r in
  r ← (if needcopy && negb (data_ =? 0) then s ← copy_message addr data_ sz_ s; Some (addr, s) else Some (data_, s));
  let '(data_, s) := r in
  Some (session_, data_, u64 (Z.lor sz_ (u64 (Z.shiftl type MESSAGE_TYPE_SHIFT))), s).

Definition skynet_context_send c (msg sz_ src type session_ : Z) s : option (server T) :=
  context_push c (mk_message src session_ msg (u64 (Z.lor sz_ (u64 (Z.shiftl type MESSAGE_TYPE_SHIFT))))) s.

(** *** skynet_harbor.c *)

Definition invalid_type (type : Z) : bool := negb (type =? PTYPE_SYSTEM) && negb (type =? PTYPE_HARBOR).

(** [~HANDLE_MASK] of the 32-bit handle. *)
Definition skynet_harbor_message_isremote (handle : Z) s : option bool :=
  _ ← c_assert (negb (sv_harbor s =? 2 ^ 32 - 1));
  let h := Z.land handle (2 ^ 32 - 1 - HANDLE_MASK) in
  Some (negb (h =? sv_harbor s) && negb (h =? 0)).

(** With the id of the other node. *)
Definition skynet_isremote (handle : Z) s : option (bool * Z) :=
  ret ← skynet_harbor_message_isremote handle s; Some (ret, Z.shiftr handle HANDLE_REMOTE_SHIFT).

(** The size of a [struct remote_message] is 48. *)
Definition skynet_harbor_send (rmsg src session_ : Z) s : option (server T) :=
  r ← sv_rmsg s !! rmsg;
  _ ← c_assert (invalid_type (rm_type r));
  c ← sv_remote s;
  skynet_context_send c rmsg 48 src PTYPE_SYSTEM session_ s.

Definition with_harbor s (hb : Z) (r : option ctxid) : server T :=
  mk_server (sv_heap s) (sv_table s) (sv_total s) (sv_queues s) (sv_marked s) (sv_mem s) (sv_rmsg s) hb r.

Definition skynet_harbor_init (harbor_ : Z) s : server T := with_harbor s (u32 (Z.shiftl (u32 harbor_) HANDLE_REMOTE_SHIFT)) (sv_remote s).

Definition skynet_harbor_start c s : option (server T) := s ← skynet_context_reserve c s; Some (with_harbor s (sv_harbor s) (Some c)).

Definition skynet_harbor_exit s : option (server T) :=
  match sv_remote s with
  | None => Some s
  | Some c => r ← skynet_context_release c (with_harbor s (sv_harbor s) None); Some r.2
  end.

(** A message for another node; [rmsg] is the address of its block. *)
Definition send_remote (rmsg handle : Z) (name_ : list Z) (data_ sz_ src session_ : Z) s : option (server T) :=
  _ ← c_assert (bool_decide (sv_rmsg s !! rmsg = None));
  let r := mk_remote handle name_ data_ (Z.land sz_ MESSAGE_TYPE_MASK) (Z.shiftr sz_ MESSAGE_TYPE_SHIFT) in
  skynet_harbor_send rmsg src session_ (with_rmsg s (<[rmsg := r]> (sv_rmsg s))).

(** *** skynet_send *)

(** [addr] and [rmsg] are the blocks that [skynet_malloc] returns. *)
Definition skynet_send (context : option ctxid) (src destination type session_ data_ sz_ addr rmsg : Z) s : option (Z * server T) :=
  if negb (Z.land sz_ MESSAGE_TYPE_MASK =? sz_) then
    s ← (if Z.land type PTYPE_TAG_DONTCOPY =? 0 then Some s else skynet_free data_ s); Some (-1, s)
  else
    r ← _filter_args context type session_ data_ sz_ addr s;
    let '(session_, data_, sz_, s) := r in
    src ← (if src =? 0 then c ← context; x ← sv_heap s !! c; Some (ctx_handle x) else Some src);
    if destination =? 0 then Some (session_, s)
    else
      remote ← skynet_harbor_message_isremote destination s;
      if remote : bool then
        s ← send_remote rmsg destination [] data_ sz_ src session_ s; Some (session_, s)
      else
        r ← skynet_context_push destination (mk_message src session_ data_ sz_) s;
        if r.1 =? 0 then Some (session_, r.2)
        else s ← skynet_free data_ r.2; Some (-1, s).

(** ** Delivering messages *)

(** What the callback is called with: type, session, source, data and size. *)
Definition callback_args (m : skynet_message) : Z * Z * Z * Z * Z :=
  (Z.shiftr (sz m) MESSAGE_TYPE_SHIFT, session m, source m, data m, Z.land (sz m) MESSAGE_TYPE_MASK).

Definition set_message_count (x : skynet_context) (k : Z) : skynet_context :=
  mk_context (ctx_cb x) (ctx_queue x) (ctx_logfile x) (ctx_handle x) (ctx_session_id x) (ctx_ref x) k (ctx_init x) (ctx_endless x).

(** [reserve] is what the callback returns. *)
Definition ctx_dispatch_message c (m : skynet_message) (reserve : bool) s : option (Z * Z * Z * Z * Z * server T) :=
  x ← sv_heap s !! c;
  _ ← c_assert (ctx_init x);
  k ← chk32 (ctx_message_count x + 1);
  let s := put_ctx s c (set_message_count x k) in
  s ← (if reserve then Some s else skynet_free (data m) s);
  Some (callback_args m, s).

(** A message that no service will get; its source is told. *)
Definition drop_message (m : skynet_message) (handle addr rmsg : Z) s : option (server T) :=
  s ← skynet_free (data m) s;
  _ ← c_assert (negb (handle =? 0));
  r ← skynet_send None handle (source m) PTYPE_ERROR 0 0 0 addr rmsg s; Some r.2.

Definition copy_name_cell (addr : list Z) (i : nat) : Z := default 0 (addr !! i).

(** The first 16 bytes of the name, filled up with 0; [addr] is the text
    without its final 0. *)
Definition copy_name (addr : list Z) : list Z := copy_name_cell addr <$> seq 0 16.
End server.

(** ** skynet_handle.c implements the interface *)

Lemma members_in (t : handle_storage) c : c ∈ omap id (slot t) ↔ in_table t c.
Proof.
  rewrite list_elem_of_omap. unfold in_table. split.
  - intros (y & Hy & E). apply list_elem_of_lookup in Hy as [i Hi]. cbn in E. subst y. by exists i.
  - intros [i Hi]. exists (Some c). split; [by apply list_elem_of_lookup_2 in Hi|done].
Qed.

Lemma storage_ext ch ch' t m : (∀ c, in_table t c → ch c = ch' c) → storage_repr ch t m → storage_repr ch' t m.
Proof.
  intros He [[k [? ? ? ? ? Hs]] Hm Hn]. split; [exists k; split; auto| |done].
  - intros i c Hi. rewrite <- He by (by exists i). by apply Hs.
  - intros h c. rewrite (Hm h c). split; intros [Hin E]; (split; [done|]); rewrite <- E; [symmetry|]; by apply He.
Qed.

(** Without growth no handle is read. *)
Lemma register_first ch ch' c t h fuel : find_slot (Z.to_nat (slot_size t)) 0 t = Some (Some h) →
  register_loop ch' (S fuel) c t = register_loop ch (S fuel) c t.
Proof. intros Hf. cbn [register_loop]. by rewrite Hf. Qed.

Lemma register_spare ch ch' t k c : table_wf ch t k → has_room t → None ∈ slot t →
  skynet_handle_register ch' c t = skynet_handle_register ch c t.
Proof.
  intros Hwf [Hroom Hst] Hsp. destruct (find_free _ _ _ Hwf) as (h & Hf & _).
  - pose proof (tw_size _ _ _ Hwf). pose proof (pow_k_pos _ _ _ Hwf). lia.
  - apply list_elem_of_lookup in Hsp. destruct Hst; auto.
  - exact (register_first ch ch' c t h 23 Hf).
Qed.

Lemma rehash_ext ch ch' old : (∀ c, Some c ∈ old → ch' c = ch c) → ∀ new size2, rehash ch' old new size2 = rehash ch old new size2.
Proof.
  induction old as [|o old IH]; intros He new size2; [done|]. cbn [rehash]. destruct o as [c|]; [|done]. cbn [mbind option_bind].
  rewrite (He c) by left. destruct (arr_get new _) as [d|]; [|done]. cbn [mbind option_bind]. destruct (c_assert _); [|done]. cbn [mbind option_bind].
  destruct (arr_set new _ _); [|done]. cbn [mbind option_bind]. apply IH. intros d' Hd. apply He. by right.
Qed.

Lemma rehash_elems ch old : ∀ new size2 sl, rehash ch old new size2 = Some sl → ∀ c, Some c ∈ sl → Some c ∈ old ∨ Some c ∈ new.
Proof.
  induction old as [|o old IH]; intros new size2 sl Hr c Hc; cbn [rehash] in Hr; [injection Hr as <-; by right|].
  destruct o as [d|]; [|done]. cbn [mbind option_bind] in Hr. bind_inv.
  match goal with H : arr_set _ _ _ = Some _ |- _ => unfold arr_set in H; case_match; [|done]; injection H as <- end.
  match goal with H : rehash _ _ _ _ = Some sl |- _ => destruct (IH _ _ _ H c Hc) as [?|Hin] end; [left; by right|].
  apply list_elem_of_lookup in Hin as [i Hi]. apply list_lookup_insert_Some in Hi as [(_ & [= ->] & _)|[_ Hi]]; [left; left|right].
  by eapply list_elem_of_lookup_2.
Qed.

(** Registration reads the handles of the contexts of the table only. *)
Lemma register_ext ch ch' c fuel : ∀ t, (∀ d, in_table t d → ch' d = ch d) →
  register_loop ch' fuel c t = register_loop ch fuel c t.
Proof.
  induction fuel as [|fuel IH]; intros t He; [done|]. cbn [register_loop]. destruct (find_slot _ _ t) as [[h|]|]; [done| |done].
  cbn [mbind option_bind]. unfold grow. rewrite (rehash_ext ch ch') by (intros d Hd; apply He; by apply list_elem_of_lookup in Hd).
  destruct (c_assert _) as [[]|]; [|done]. cbn [mbind option_bind]. destruct (rehash _ _ _ _) as [sl|] eqn:E; [|done]. cbn [mbind option_bind].
  apply IH. intros d [i Hi]. cbn in Hi. destruct (rehash_elems _ _ _ _ _ E d) as [Hd|Hd]; [by eapply list_elem_of_lookup_2| |].
  - apply He. by apply list_elem_of_lookup in Hd.
  - apply elem_of_replicate in Hd as [? _]. done.
Qed.

#[global] Program Instance storage_table : HandleTable handle_storage := {|
  ht_register := skynet_handle_register;
  ht_retire := skynet_handle_retire;
  ht_grab := skynet_handle_grab;
  ht_members t := omap id (slot t);
  ht_room := has_room;
  ht_spare t := None ∈ slot t;
  ht_repr ch t m := ∃ nm, storage_repr ch t (mk_handles m nm)
|}.
Next Obligation. intros ch ch' t m He [nm Hr]. exists nm. eapply storage_ext; [|done]. intros c Hc. by apply He, members_in. Qed.
Next Obligation. intros ch t m c [nm [_ Hm _]]. rewrite members_in, (Hm (ch c) c). naive_solver. Qed.
Next Obligation. intros ch t m h c [nm [_ Hm _]] Hc. by apply Hm in Hc as [_ ?]. Qed.
Next Obligation.
  intros ch ch' t m c [nm Hr] Hroom Hc Hmask Hgrow. destruct (register_repr _ c _ _ Hr Hroom) as (h & t' & Hreg & Hhb & H2 & Hnone & Hr' & _).
  { intros h Hh. apply Hc, members_in. destruct Hr as [_ Hm _]. by apply Hm in Hh as [? _]. }
  assert (Hh0 : h ≠ 0) by (intros ->; vm_compute in H2; by apply H2).
  exists h, t'. split_and!; [|done|done|by exists nm]. rewrite <- Hreg. destruct Hr as [[k Hwf] _ _].
  destruct Hgrow as [Hsame|Hsp]; [|by eapply register_spare].
  apply register_ext. intros d Hd. by apply Hsame, members_in.
Qed.
Next Obligation.
  intros ch ch' t m h [nm Hr] Hmask Hh. pose proof Hr as [[k Hwf] Hm [l [Hrl Hn]]].
  destruct (retire_ok _ _ _ h _ _ _ Hwf Hm Hrl Hn) as (t' & Hret & Hwf' & Hs'). cbn in *.
  pose proof (grab_lookup _ _ _ Hwf _ h Hm) as Hg. unfold skynet_handle_grab in Hg. unfold skynet_handle_retire, visible in *.
  destruct (slot_get _ _ _ Hwf h) as (o & Hget & _). rewrite Hget in *. cbn [mbind option_bind] in *.
  destruct o as [c|]; [|injection Hg as Hg; rewrite <- Hg in *; exists t; cbn; by eauto].
  destruct (Z.eqb_spec (ch' c) h) as [E|E].
  - assert (Ec : ch c = h) by (destruct (Hmask c); congruence). rewrite Ec, Z.eqb_refl in Hg, Hret. injection Hg as Hg. cbn [hs_ctx] in Hg.
    rewrite <- Hg in *. cbn [mbind option_bind]. rewrite E, Z.eqb_refl, Hret. destruct Hs' as [Ht Hl]. exists t'. split; [done|].
    eexists. split; [by eexists|done|]. done.
  - exists t. destruct (m !! h) as [d|] eqn:Ed; cbn [mbind option_bind]; [|by eauto].
    destruct (ch c =? h); [|done]. injection Hg as ->. rewrite (proj2 (Z.eqb_neq _ _)) by done. by eauto.
Qed.
Next Obligation.
  intros ch ch' t m h [nm Hr] Hmask Hh. pose proof Hr as [[k Hwf] Hm _]. pose proof (grab_lookup _ _ _ Hwf _ h Hm) as Hg.
  unfold skynet_handle_grab, visible in *. destruct (slot_get _ _ _ Hwf h) as (o & Hget & _). rewrite Hget in *. cbn [mbind option_bind hs_ctx] in *.
  destruct o as [c|]; injection Hg as Hg; rewrite <- Hg; [|done].
  destruct (Z.eqb_spec (ch c) h) as [E|E]; [done|]. cbn. destruct (Z.eqb_spec (ch' c) h); [|done]. destruct (Hmask c); congruence.
Qed.

(** ** Threads

    [held] are the references threads hold; [ini] the contexts whose launch has
    not dropped its reference, with the handle that registration returned;
    [pub] those whose creator has dropped its reference and still writes to
    them; [n] counts the reserved contexts. *)

Section threads.
Context {T : Type} {HT : HandleTable T}.
Implicit Types (s : server T) (c : ctxid) (ini : gmap ctxid Z).

Inductive cfg :=
| Live (s : server T) (held : list ctxid) (ini : gmap ctxid Z) (pub : list ctxid) (n : nat)
| Failed.

Definition after (r : option (server T)) (k : server T → cfg) : cfg :=
  match r with Some s => k s | None => Failed end.

(** Fewer than 2^31 references to a context. *)
Definition refs_fit s : Prop := ∀ c x, sv_heap s !! c = Some x → ctx_ref x < INT_MAX.

(** How far a launch is. *)
Definition has_handle s c : Prop := ∃ x, sv_heap s !! c = Some x ∧ ctx_handle x ≠ 0.
Definition has_queue s c : Prop := ∃ x, sv_heap s !! c = Some x ∧ is_Some (ctx_queue x).

(** The steps.  What the code does not guard against is left out by a premise:
    the table does not grow while a context that was registered has not got its
    handle (the growth would sort it in at handle 0), a context is not retired
    before its launch is over and gets no message before its queue is made, and
    handle 0 is not looked up. *)
Inductive cstep : cfg → cfg → Prop :=
| st_register s held ini pub n c :
    sv_heap s !! c = None → ht_room (sv_table s) → (∀ d h, ini !! d = Some h → has_handle s d) ∨ ht_spare (sv_table s) →
    cstep (Live s held ini pub n)
      (match launch_register c s with Some (h, s) => Live s (c :: held) (<[c := h]> ini) pub n | None => Failed end)
| st_handle s held ini pub n c h :
    ini !! c = Some h → ~ has_handle s c → cstep (Live s held ini pub n) (after (launch_handle c h s) (λ s, Live s held ini pub n))
| st_queue s held ini pub n c h q :
    ini !! c = Some h → has_handle s c → ~ has_queue s c → sv_queues s !! q = None →
    cstep (Live s held ini pub n) (after (launch_queue c q s) (λ s, Live s held ini pub n))
| st_launch s held held' ini pub n c h :
    ini !! c = Some h → has_queue s c → held ≡ₚ c :: held' →
    cstep (Live s held ini pub n) (after (snd <$> launch_release c s) (λ s, Live s held' (delete c ini) (c :: pub) n))
| st_init s held ini pub n c :
    c ∈ pub → cstep (Live s held ini pub n) (after (launch_init c s) (λ s, Live s held ini pub n))
| st_done s held ini pub pub' n c :
    pub ≡ₚ c :: pub' → cstep (Live s held ini pub n) (after (launch_done c s) (λ s, Live s held ini pub' n))
| st_init_failed s held ini pub n c h :
    (* the reference and the handle go in the actions below *)
    ini !! c = Some h → has_queue s c →
    cstep (Live s held ini pub n) (after (launch_done c s) (λ s, Live s held (delete c ini) pub n))
| st_grab s held ini pub n h :
    h ≠ 0 → refs_fit s →
    cstep (Live s held ini pub n)
      (match handle_grab h s with Some (r, s) => Live s (option_list r ++ held) ini pub n | None => Failed end)
| st_release s held held' ini pub n c :
    held ≡ₚ c :: held' → (is_Some (ini !! c) → c ∈ held') →
    cstep (Live s held ini pub n) (after (snd <$> skynet_context_release c s) (λ s, Live s held' ini pub n))
| st_retire s held ini pub n h :
    h ≠ 0 → (∀ c, ht_grab (skynet_context_handle (sv_heap s)) h (sv_table s) = Some (Some c) → ini !! c = None ∧ c ∉ pub) →
    cstep (Live s held ini pub n)
      (match handle_unlink h s with Some (r, s) => Live s (option_list r ++ held) ini pub n | None => Failed end)
| st_reserve s held ini pub n c :
    c ∈ held → refs_fit s →
    cstep (Live s held ini pub n) (after (skynet_context_reserve c s) (λ s, Live s (c :: held) ini pub (S n)))
| st_push s held ini pub n c m :
    c ∈ held → has_queue s c → cstep (Live s held ini pub n) (after (context_push c m s) (λ s, Live s held ini pub n))
| st_session s held ini pub n c :
    c ∈ held → (∀ x, sv_heap s !! c = Some x → 0 <= ctx_session_id x < INT_MAX) →
    cstep (Live s held ini pub n) (after (snd <$> skynet_context_newsession c s) (λ s, Live s held ini pub n))
| st_endless s held ini pub n c :
    c ∈ held → cstep (Live s held ini pub n) (after (mark_endless c s) (λ s, Live s held ini pub n))
| st_callback s held ini pub n c :
    c ∈ held → cstep (Live s held ini pub n) (after (skynet_callback c s) (λ s, Live s held ini pub n)).

(** *** The invariant *)

Definition cnt c (l : list ctxid) : Z := Z.of_nat (length (filter (λ d, d = c) l)).

Definition listed (m : gmap Z ctxid) (h : Z) c : Z := if decide (m !! h = Some c) then 1 else 0.

(** The handle a context has, or is about to get. *)
Definition handle_of ini (heap : gmap ctxid skynet_context) (c : ctxid) : Z :=
  default (skynet_context_handle heap c) (ini !! c).

(** The contexts that [G_NODE.total] counts. *)
Definition counted (heap : gmap ctxid skynet_context) : Z := Z.of_nat (size (filter (λ p, is_Some (ctx_queue p.2)) heap)).

(** The count of a context is the number of its references. *)
Record inv s (held : list ctxid) ini (pub : list ctxid) (n : nat) (m : gmap Z ctxid) : Prop := mk_inv {
  i_repr : ht_repr (handle_of ini (sv_heap s)) (sv_table s) m;
  i_alive : ∀ h c, m !! h = Some c → is_Some (sv_heap s !! c);
  i_held : ∀ c, c ∈ held → is_Some (sv_heap s !! c);
  i_ref : ∀ c x, sv_heap s !! c = Some x → ctx_ref x = listed m (handle_of ini (sv_heap s) c) c + cnt c held ∧ 0 < ctx_ref x <= INT_MAX;
  i_ini : ∀ c h, ini !! c = Some h → c ∈ held ∧ m !! h = Some c ∧ h ≠ 0 ∧
    ∀ x, sv_heap s !! c = Some x → ctx_handle x = h ∨ (ctx_handle x = 0 ∧ ctx_queue x = None);
  i_pub : ∀ c, c ∈ pub → ∃ h, m !! h = Some c;
  i_queue : ∀ c x, sv_heap s !! c = Some x →
    match ctx_queue x with
    | Some q => is_Some (sv_queues s !! q) ∧ q ∉ sv_marked s
    | None => is_Some (ini !! c)
    end;
  i_qinj : ∀ c d x y q, sv_heap s !! c = Some x → sv_heap s !! d = Some y → ctx_queue x = Some q → ctx_queue y = Some q → c = d;
  i_marked : ∀ q, q ∈ sv_marked s → is_Some (sv_queues s !! q);
  i_total : sv_total s = i32 (counted (sv_heap s) - Z.of_nat n)
}.

Lemma refcnt_cons c d l : cnt c (d :: l) = (if decide (d = c) then 1 else 0) + cnt c l.
Proof. unfold cnt. rewrite filter_cons. case_decide; cbn [length]; lia. Qed.

Lemma refcnt_perm c l l' : l ≡ₚ l' → cnt c l = cnt c l'.
Proof. intros H. unfold cnt. by rewrite H. Qed.

Lemma refcnt_pos c l : 0 < cnt c l ↔ c ∈ l.
Proof.
  unfold cnt. split.
  - intros H. destruct (filter _ l) as [|d k] eqn:E; [cbn in H; lia|].
    assert (Hd : d ∈ filter (λ d, d = c) l) by (rewrite E; left). by apply list_elem_of_filter in Hd as [-> ?].
  - intros Hc. assert (Hd : c ∈ filter (λ d, d = c) l) by (by apply list_elem_of_filter). destruct (filter _ l); [by apply not_elem_of_nil in Hd|cbn; lia].
Qed.

Lemma refcnt_nonneg c l : 0 <= cnt c l.
Proof. unfold cnt. lia. Qed.

(** The handle that is read is the right one, or 0 where it is not set yet. *)
Lemma inv_masks s held ini pub n m : inv s held ini pub n m → masks (skynet_context_handle (sv_heap s)) (handle_of ini (sv_heap s)).
Proof.
  intros Hi c. unfold handle_of. destruct (ini !! c) as [h|] eqn:E; [|by left]. cbn. unfold skynet_context_handle.
  destruct (sv_heap s !! c) as [x|] eqn:Hx; [|by right]. destruct (i_ini _ _ _ _ _ _ Hi c h E) as (_ & _ & _ & Hh). destruct (Hh x Hx) as [?|[? _]]; auto.
Qed.

Lemma counted_put (heap : gmap ctxid skynet_context) c x x' : heap !! c = Some x → (is_Some (ctx_queue x') ↔ is_Some (ctx_queue x)) →
  counted (<[c := x']> heap) = counted heap.
Proof.
  intros Hx Hq. unfold counted. f_equal. rewrite <- (insert_id heap c x Hx) at 2.
  destruct (decide (is_Some (ctx_queue x))) as [Hs|Hs].
  - rewrite !map_filter_insert_True by naive_solver. by rewrite !map_size_insert.
  - rewrite !map_filter_insert_False by naive_solver. done.
Qed.

Lemma handle_put ini (heap : gmap ctxid skynet_context) c x x' d : heap !! c = Some x → ctx_handle x' = ctx_handle x →
  handle_of ini (<[c := x']> heap) d = handle_of ini heap d.
Proof.
  intros Hx Hh. unfold handle_of, skynet_context_handle. destruct (decide (d = c)) as [->|]; [by rewrite lookup_insert_eq, Hx, Hh|by rewrite lookup_insert_ne].
Qed.

Lemma repr_same (ch ch' : ctxid → Z) t m : (∀ d, ch' d = ch d) → ht_repr ch t m → ht_repr ch' t m.
Proof. intros He. apply ht_ext. intros c _. by rewrite He. Qed.

(** A context is changed in place. *)
Lemma inv_put s held held' ini pub n m c x x' :
  inv s held ini pub n m → sv_heap s !! c = Some x →
  ctx_queue x' = ctx_queue x → ctx_handle x' = ctx_handle x →
  (∀ d, d ∈ held' → d ∈ held ∨ d = c) → (∀ d, d ≠ c → cnt d held' = cnt d held) →
  ctx_ref x' = listed m (handle_of ini (sv_heap s) c) c + cnt c held' → 0 < ctx_ref x' <= INT_MAX →
  (∀ d h, ini !! d = Some h → d ∈ held') →
  inv (put_ctx s c x') held' ini pub n m.
Proof.
  intros [Hr Ha Hh Href Hini Hpub Hq Hqi Hm Ht] Hx Eq Eh Hh' Hcnt Hrc Hpos Hini'.
  assert (Hl : ∀ d, is_Some (sv_heap s !! d) → is_Some (<[c := x']> (sv_heap s) !! d)).
  { intros d Hd. rewrite lookup_insert_is_Some'. auto. }
  assert (Hback : ∀ d y, <[c := x']> (sv_heap s) !! d = Some y →
    ∃ y', sv_heap s !! d = Some y' ∧ ctx_queue y' = ctx_queue y ∧ ctx_handle y' = ctx_handle y ∧ (d ≠ c → y' = y)).
  { intros d y. destruct (decide (d = c)) as [->|]; [rewrite lookup_insert_eq; intros [= <-]; exists x; naive_solver|].
    rewrite lookup_insert_ne by done; eauto. }
  constructor; cbn.
  - revert Hr. apply repr_same. intros d. by apply handle_put with x.
  - intros h d Hd. by eapply Hl, Ha.
  - intros d Hd. apply Hl. apply Hh' in Hd as [Hd| ->]; [by apply Hh|by eexists].
  - intros d y. rewrite (handle_put ini _ c x x' d) by done. destruct (decide (d = c)) as [->|Hne].
    + rewrite lookup_insert_eq. intros [= <-]. done.
    + rewrite lookup_insert_ne by done. intros Hy. rewrite Hcnt by done. by apply Href.
  - intros d h Hd. destruct (Hini d h Hd) as (_ & ? & ? & Hst). split_and!; [by eapply Hini'|done|done|].
    intros y (y' & Hy & <- & <- & _)%Hback. by apply Hst.
  - done.
  - intros d y (y' & Hy & <- & _ & _)%Hback. by apply Hq.
  - intros d e y z q (y' & Hy & <- & _ & _)%Hback (z' & Hz & <- & _ & _)%Hback. by eapply Hqi.
  - done.
  - by rewrite (counted_put _ c x x') by (done || by rewrite Eq).
Qed.

Lemma put_put s c x y : put_ctx (put_ctx s c x) c y = put_ctx s c y.
Proof. unfold put_ctx, with_heap. cbn. by rewrite insert_insert_eq. Qed.

Lemma i32_add a b : i32 (i32 a + b) = i32 (a + b).
Proof. unfold i32. dlia. Qed.

Lemma inv_member s held ini pub n m c : inv s held ini pub n m → c ∈ ht_members (sv_table s) → is_Some (sv_heap s !! c).
Proof. intros Hi Hc. apply (ht_members_ok _ _ _ _ (i_repr _ _ _ _ _ _ Hi)) in Hc. by eapply i_alive. Qed.

Lemma table_alive_ok s held ini pub n m : inv s held ini pub n m → table_alive s = true.
Proof.
  intros Hi. apply forallb_forall. intros c Hc%list_elem_of_In. apply bool_decide_eq_true_2. by eapply inv_member.
Qed.

(** The last reference is dropped. *)
Lemma inv_delete s held held' ini pub n m c x x' :
  inv s held ini pub n m → sv_heap s !! c = Some x → ctx_queue x' = ctx_queue x → held ≡ₚ c :: held' →
  listed m (handle_of ini (sv_heap s) c) c = 0 → cnt c held' = 0 → ini !! c = None →
  ∃ s', delete_context c (put_ctx s c x') = Some s' ∧ inv s' held' ini pub n m.
Proof.
  intros [Hr Ha Hh Href Hini Hpub Hq Hqi Hm Ht] Hx Eq Hp Hl Hc Hci. unfold delete_context. cbn.
  pose proof (Hq c x Hx) as Hqc. destruct (ctx_queue x) as [q|] eqn:Eqx; [|rewrite Hci in Hqc; by destruct Hqc].
  rewrite lookup_insert_eq. cbn [mbind option_bind]. rewrite Eq. cbn [mbind option_bind]. eexists. split; [done|]. rewrite delete_insert_eq.
  assert (Hnm : ∀ h d, m !! h = Some d → d ≠ c).
  { intros h d Hd ->. pose proof (ht_handle _ _ _ _ _ Hr Hd) as E. unfold listed in Hl. rewrite E, decide_True in Hl by done. lia. }
  assert (Hnh : ∀ d, d ∈ held' → d ≠ c) by (intros d Hd ->; apply refcnt_pos in Hd; lia).
  assert (Hsub : ∀ d, d ∈ held' → d ∈ held) by (intros d Hd; rewrite Hp; by right).
  assert (Hho : ∀ d, d ≠ c → handle_of ini (delete c (sv_heap s)) d = handle_of ini (sv_heap s) d).
  { intros d Hd. unfold handle_of, skynet_context_handle. by rewrite lookup_delete_ne. }
  constructor; cbn.
  - eapply ht_ext; [|exact Hr]. intros d Hd. apply (ht_members_ok _ _ _ _ Hr) in Hd. symmetry. apply Hho. by eapply Hnm.
  - intros h d Hd. rewrite lookup_delete_ne; [by eapply Ha|]. intros ->. by apply (Hnm _ _ Hd).
  - intros d Hd. rewrite lookup_delete_ne; [by apply Hh, Hsub|]. intros ->. by apply (Hnh _ Hd).
  - intros d y [Hne Hy]%lookup_delete_Some. destruct (Href d y Hy) as [E Hb]. split; [|done].
    rewrite Hho by done. rewrite E, (refcnt_perm _ _ _ Hp), refcnt_cons, decide_False by done. lia.
  - intros d h Hd. destruct (Hini d h Hd) as (Hdh & ? & ? & Hst). split_and!; [|done|done|].
    + rewrite Hp in Hdh. apply elem_of_cons in Hdh as [->|?]; [congruence|done].
    + intros y [_ Hy]%lookup_delete_Some. by apply Hst.
  - done.
  - intros d y [Hne Hy]%lookup_delete_Some. pose proof (Hq d y Hy) as Hqd. destruct (ctx_queue y) as [r|] eqn:Er; [|done].
    destruct Hqd as [? Hnin]. split; [done|]. apply not_elem_of_cons. split; [|done]. intros ->. apply Hne. by eapply Hqi.
  - intros d e y z r [_ Hy]%lookup_delete_Some [_ Hz]%lookup_delete_Some. by eapply Hqi.
  - intros r [->|Hqm]%elem_of_cons; [by apply Hqc|by apply Hm].
  - rewrite Ht, i32_add. unfold counted. rewrite map_filter_delete, map_size_delete.
    assert (Hf : filter (λ p, is_Some (ctx_queue p.2)) (sv_heap s) !! c = Some x).
    { apply map_lookup_filter_Some. split; [done|]. cbn. rewrite Eqx. by eexists. }
    rewrite Hf. f_equal. assert (size (filter (λ p, is_Some (ctx_queue p.2)) (sv_heap s)) ≠ 0)%nat.
    { intros E. apply map_size_empty_iff in E. by rewrite E in Hf. }
    lia.
Qed.

Lemma inv_release s held held' ini pub n m c :
  inv s held ini pub n m → held ≡ₚ c :: held' → (is_Some (ini !! c) → c ∈ held') →
  ∃ k s', skynet_context_release c s = Some (k, s') ∧ inv s' held' ini pub n m.
Proof.
  intros Hi Hp Hc. assert (Hin : c ∈ held) by (rewrite Hp; left). destruct (i_held _ _ _ _ _ _ Hi c Hin) as [x Hx].
  destruct (i_ref _ _ _ _ _ _ Hi c x Hx) as [Hr Hb]. pose proof (i_ini _ _ _ _ _ _ Hi) as Hini.
  rewrite (refcnt_perm _ _ _ Hp), refcnt_cons, decide_True in Hr by done. pose proof (refcnt_nonneg c held').
  unfold skynet_context_release. rewrite Hx. cbn [mbind option_bind].
  assert (Hl : 0 <= listed m (handle_of ini (sv_heap s) c) c) by (unfold listed; case_decide; lia).
  rewrite i32_small by (unfold INT_MIN, INT_MAX in *; lia). destruct (Z.eqb_spec (ctx_ref x - 1) 0) as [E|E].
  - assert (Hnc : cnt c held' = 0) by lia.
    destruct (inv_delete s held held' ini pub n m c x (set_ref x (ctx_ref x - 1))) as (s' & -> & Hi'); try done; [lia| |].
    + destruct (ini !! c) as [h|] eqn:Ec; [|done]. assert (Hcp : c ∈ held') by (apply Hc; by eexists). apply refcnt_pos in Hcp. lia.
    + by eexists _, _.
  - eexists _, _. split; [done|]. eapply inv_put; try done.
    + intros d Hd. left. rewrite Hp. by right.
    + intros d Hd. by rewrite (refcnt_perm _ _ _ Hp), refcnt_cons, decide_False.
    + cbn. lia.
    + cbn. lia.
    + intros d h Hd. destruct (decide (d = c)) as [->|]; [apply Hc; by eexists|]. destruct (Hini d h Hd) as [Hdh _]. rewrite Hp in Hdh. set_solver.
Qed.

(** A reference is taken. *)
Lemma inv_grab s held ini pub n m c : inv s held ini pub n m → refs_fit s → is_Some (sv_heap s !! c) →
  ∃ s', skynet_context_grab c s = Some s' ∧ inv s' (c :: held) ini pub n m.
Proof.
  intros Hi Hfit [x Hx]. pose proof (Hfit c x Hx). destruct (i_ref _ _ _ _ _ _ Hi c x Hx) as [Hr Hb].
  unfold skynet_context_grab. rewrite Hx. eexists. split; [done|]. rewrite i32_small by (unfold INT_MIN, INT_MAX in *; lia).
  pose proof (i_ini _ _ _ _ _ _ Hi) as Hini. eapply inv_put; try done.
  - set_solver.
  - intros d Hd. by rewrite refcnt_cons, decide_False.
  - cbn. rewrite refcnt_cons, decide_True by done. lia.
  - cbn. lia.
  - intros d h Hd. right. by eapply Hini.
Qed.

(** Looking up a handle: a context whose handle is not set is not found. *)
Lemma grab_visible s held ini pub n m h : inv s held ini pub n m → h ≠ 0 →
  ht_grab (skynet_context_handle (sv_heap s)) h (sv_table s) = Some (visible (skynet_context_handle (sv_heap s)) m h).
Proof. intros Hi Hh. apply (ht_grab_ok (handle_of ini (sv_heap s))); [apply Hi|by eapply inv_masks|done]. Qed.

Lemma visible_some ch m h c : visible ch m h = Some c → m !! h = Some c.
Proof. unfold visible. intros Hv. destruct (m !! h) as [d|]; [|done]. cbn in Hv. destruct (_ =? _); by simplify_eq. Qed.

Lemma inv_unlink s held ini pub n m h : inv s held ini pub n m → h ≠ 0 →
  let r := visible (skynet_context_handle (sv_heap s)) m h in
  (∀ c, r = Some c → ini !! c = None ∧ c ∉ pub) →
  ∃ s', handle_unlink h s = Some (r, s') ∧ inv s' (option_list r ++ held) ini pub n (if r then delete h m else m).
Proof.
  intros Hi Hh0 r Hfree. unfold handle_unlink. rewrite (table_alive_ok _ _ _ _ _ _ Hi). cbn [c_assert mbind option_bind].
  destruct (ht_retire_ok _ _ _ _ h (i_repr _ _ _ _ _ _ Hi) (inv_masks _ _ _ _ _ _ Hi) Hh0) as (t' & -> & Hr'). cbn [mbind option_bind fst snd].
  eexists. split; [done|]. fold r in Hr' |- *. destruct Hi as [Hr Ha Hh Href Hini Hpub Hq Hqi Hm Ht].
  destruct r as [d|] eqn:Er; cbn [option_list app]; [|by constructor].
  destruct (Hfree d eq_refl) as [Hdi Hdp]. apply visible_some in Er.
  assert (Hkeep : ∀ c g, c ≠ d → m !! g = Some c → delete h m !! g = Some c).
  { intros c g Hc Hg. rewrite lookup_delete_ne; [done|]. intros ->. congruence. }
  constructor; cbn; try done.
  - intros g c [_ Hg]%lookup_delete_Some. by eapply Ha.
  - intros c [->|Hc]%elem_of_cons; [by eapply Ha|by apply Hh].
  - intros c x Hx. destruct (Href c x Hx) as [Hrf Hb]. split; [|done]. rewrite Hrf, refcnt_cons. unfold listed.
    pose proof (ht_handle _ _ _ _ _ Hr Er) as Ed. destruct (decide (d = c)) as [->|Hne].
    + rewrite Ed, lookup_delete_eq, Er, decide_True, decide_False by done. lia.
    + assert (Hiff : delete h m !! handle_of ini (sv_heap s) c = Some c ↔ m !! handle_of ini (sv_heap s) c = Some c).
      { split; [by intros [_ ?]%lookup_delete_Some|by apply Hkeep]. }
      repeat case_decide; tauto || lia.
  - intros c g Hc. destruct (Hini c g Hc) as (? & ? & ? & ?). split_and!; [by right| |done|done]. apply Hkeep; [congruence|done].
  - intros c Hc. destruct (Hpub c Hc) as [g Hg]. exists g. apply Hkeep; [congruence|done].
Qed.

(** The fields of a context that is being launched. *)
Definition fresh_context : skynet_context := mk_context false None false 0 0 2 0 false false.

Lemma fresh_handle heap c d : heap !! c = None →
  skynet_context_handle (<[c := fresh_context]> heap) d = skynet_context_handle heap d.
Proof.
  intros Hc. unfold skynet_context_handle. destruct (decide (d = c)) as [->|]; [by rewrite lookup_insert_eq, Hc|by rewrite lookup_insert_ne].
Qed.

(** The table takes a context, under a handle that is not in use. *)
Lemma register_call s held ini pub n m c : inv s held ini pub n m → sv_heap s !! c = None → ht_room (sv_table s) →
  (∀ d h, ini !! d = Some h → has_handle s d) ∨ ht_spare (sv_table s) →
  ∃ h t', launch_register c s = Some (h, with_table (put_ctx s c fresh_context) t') ∧ m !! h = None ∧ h ≠ 0 ∧
    ht_repr (set_handle (handle_of ini (sv_heap s)) c h) t' (<[h := c]> m).
Proof.
  intros Hi Hc Hroom Hgrow. pose proof (inv_masks _ _ _ _ _ _ Hi) as Hmask. pose proof (λ d, inv_member _ _ _ _ _ _ d Hi) as Hmem.
  unfold launch_register. rewrite bool_decide_eq_true_2 by done. cbn [c_assert mbind option_bind].
  assert (Hal : table_alive (put_ctx s c fresh_context) = true).
  { apply forallb_forall. intros d Hd%list_elem_of_In. apply bool_decide_eq_true_2. cbn. apply lookup_insert_is_Some'. right. by apply Hmem. }
  fold fresh_context. rewrite Hal. cbn [c_assert mbind option_bind sv_heap put_ctx with_heap sv_table].
  assert (Hnc : c ∉ ht_members (sv_table s)) by (intros Hin; apply Hmem in Hin as [x Hx]; congruence).
  destruct (ht_register_ok (handle_of ini (sv_heap s)) (skynet_context_handle (<[c := fresh_context]> (sv_heap s))) _ _ c
    (i_repr _ _ _ _ _ _ Hi) Hroom Hnc) as (h & t' & -> & Hnone & Hh0 & Hr').
  { intros d. rewrite fresh_handle by done. apply Hmask. }
  { destruct Hgrow as [Hset|?]; [left|by right]. intros d Hd. rewrite fresh_handle by done. unfold handle_of.
    destruct (ini !! d) as [g|] eqn:E; [|done]. cbn. destruct (Hset d g E) as (x & Hx & Hne). unfold skynet_context_handle. rewrite Hx.
    destruct (i_ini _ _ _ _ _ _ Hi d g E) as (_ & _ & _ & Hst). destruct (Hst x Hx) as [?|[? _]]; done. }
  exists h, t'. done.
Qed.

(** A context is entered in the table. *)
Lemma inv_register s held ini pub n m c : inv s held ini pub n m → sv_heap s !! c = None → ht_room (sv_table s) →
  (∀ d h, ini !! d = Some h → has_handle s d) ∨ ht_spare (sv_table s) →
  ∃ h s', launch_register c s = Some (h, s') ∧ inv s' (c :: held) (<[c := h]> ini) pub n (<[h := c]> m) ∧
    sv_heap s' = <[c := fresh_context]> (sv_heap s) ∧ sv_queues s' = sv_queues s.
Proof.
  intros Hi Hc Hroom Hgrow. destruct (register_call _ _ _ _ _ _ _ Hi Hc Hroom Hgrow) as (h & t' & -> & Hnone & Hh0 & Hr').
  destruct Hi as [Hr Ha Hh Href Hini Hpub Hq Hqi Hm Ht]. exists h. eexists. split; [done|]. split; [|done].
  set (x0 := fresh_context).
  assert (Hold : ∀ d, d ≠ c → <[c := x0]> (sv_heap s) !! d = sv_heap s !! d) by (intros; by rewrite lookup_insert_ne).
  assert (Hic : ini !! c = None) by (destruct (ini !! c) as [g|] eqn:E; [|done]; destruct (Hini c g E) as (Hcm%Hh & _); rewrite Hc in Hcm; by destruct Hcm).
  assert (Hcm : ∀ g d, m !! g = Some d → d ≠ c) by (intros g d Hg ->; apply Ha in Hg as [? ?]; congruence).
  assert (Hch : ∀ d, d ∈ held → d ≠ c) by (intros d Hd ->; apply Hh in Hd as [? ?]; congruence).
  assert (Hmk : ∀ g d, m !! g = Some d → <[h := c]> m !! g = Some d).
  { intros g d Hg. rewrite lookup_insert_ne; [done|]. intros ->. congruence. }
  assert (Hho : ∀ d, handle_of (<[c := h]> ini) (<[c := x0]> (sv_heap s)) d = set_handle (handle_of ini (sv_heap s)) c h d).
  { intros d. unfold handle_of, set_handle. case_decide as E; [subst; by rewrite lookup_insert_eq|]. rewrite lookup_insert_ne by done. by rewrite fresh_handle. }
  constructor; cbn.
  - revert Hr'. by apply repr_same.
  - intros g d. destruct (decide (g = h)) as [->|Hg]; [rewrite lookup_insert_eq; intros [= <-]; rewrite lookup_insert_eq; by eexists|].
    rewrite lookup_insert_ne by done. intros Hd. rewrite Hold by (by eapply Hcm). by eapply Ha.
  - intros d [->|Hd]%elem_of_cons; [rewrite lookup_insert_eq; by eexists|]. rewrite Hold by (by apply Hch). by apply Hh.
  - intros d y. rewrite Hho. unfold set_handle. destruct (decide (d = c)) as [->|Hd].
    + rewrite lookup_insert_eq. intros [= <-]. unfold listed. cbn. rewrite lookup_insert_eq, decide_True, refcnt_cons, decide_True by done.
      assert (cnt c held = 0) as -> by (pose proof (refcnt_nonneg c held); destruct (decide (0 < cnt c held)) as [Hp%refcnt_pos|]; [by apply Hch in Hp|lia]).
      split; [lia|]. unfold INT_MAX. lia.
    + rewrite Hold by done. intros Hy. destruct (Href d y Hy) as [E Hb]. split; [|done]. rewrite E, refcnt_cons, decide_False by done.
      assert (listed (<[h := c]> m) (handle_of ini (sv_heap s) d) d = listed m (handle_of ini (sv_heap s) d) d) as ->; [|lia].
      unfold listed. destruct (decide (handle_of ini (sv_heap s) d = h)) as [->|].
      * rewrite lookup_insert_eq, Hnone. by rewrite !decide_False by congruence.
      * by rewrite lookup_insert_ne.
  - intros d g. destruct (decide (d = c)) as [->|Hd].
    + rewrite lookup_insert_eq. intros [= <-]. split_and!; [left|apply lookup_insert_eq|done|]. rewrite lookup_insert_eq. intros y [= <-]. by right.
    + rewrite lookup_insert_ne by done. intros Hg. destruct (Hini d g Hg) as (? & ? & ? & Hst). split_and!; [by right|by apply Hmk|done|].
      rewrite Hold by done. done.
  - intros d Hd. destruct (Hpub d Hd) as [g Hg]. exists g. by apply Hmk.
  - intros d y. destruct (decide (d = c)) as [->|Hd].
    + rewrite lookup_insert_eq. intros [= <-]. cbn. rewrite lookup_insert_eq. by eexists.
    + rewrite Hold by done. intros Hy. pose proof (Hq d y Hy). rewrite lookup_insert_ne by done. done.
  - intros d e y z q. destruct (decide (d = c)) as [->|Hd]; [rewrite lookup_insert_eq; intros [= <-]; done|].
    destruct (decide (e = c)) as [->|He]; [rewrite lookup_insert_eq; intros _ [= <-]; done|]. rewrite !Hold by done. apply Hqi.
  - done.
  - rewrite Ht. unfold counted. rewrite map_filter_insert_False by (cbn; by intros [? ?]). by rewrite delete_id.
Qed.

(** Its handle is stored. *)
Lemma inv_handle s held ini pub n m c h : inv s held ini pub n m → ini !! c = Some h →
  ∃ x, sv_heap s !! c = Some x ∧ inv (put_ctx s c (set_ctx_handle x h)) held ini pub n m.
Proof.
  intros Hi Hc. destruct (i_ini _ _ _ _ _ _ Hi c h Hc) as (Hch & Hmc & Hh0 & Hst). destruct (i_held _ _ _ _ _ _ Hi c Hch) as [x Hx].
  exists x. split; [done|]. destruct Hi as [Hr Ha Hh Href Hini Hpub Hq Hqi Hm Ht].
  assert (Hho : ∀ d, handle_of ini (<[c := set_ctx_handle x h]> (sv_heap s)) d = handle_of ini (sv_heap s) d).
  { intros d. unfold handle_of, skynet_context_handle. destruct (decide (d = c)) as [->|]; [by rewrite Hc|by rewrite lookup_insert_ne]. }
  assert (Hback : ∀ d y, <[c := set_ctx_handle x h]> (sv_heap s) !! d = Some y →
    ∃ y', sv_heap s !! d = Some y' ∧ ctx_queue y' = ctx_queue y ∧ ctx_ref y' = ctx_ref y ∧ (d ≠ c → y' = y) ∧ (d = c → ctx_handle y = h)).
  { intros d y. destruct (decide (d = c)) as [->|]; [rewrite lookup_insert_eq; intros [= <-]; exists x; naive_solver|].
    rewrite lookup_insert_ne by done. naive_solver. }
  constructor; cbn; try done.
  - revert Hr. by apply repr_same.
  - intros g d Hd. apply lookup_insert_is_Some'. right. by eapply Ha.
  - intros d Hd. apply lookup_insert_is_Some'. right. by apply Hh.
  - intros d y (y' & Hy & _ & <- & _ & _)%Hback. rewrite Hho. by apply Href.
  - intros d g Hd. destruct (Hini d g Hd) as (? & ? & ? & Hs'). split_and!; [done..|]. intros y (y' & Hy & _ & _ & He & Hhc)%Hback.
    destruct (decide (d = c)) as [->|Hne]; [left; rewrite Hhc by done; congruence|]. rewrite <- He by done. by apply Hs'.
  - intros d y (y' & Hy & <- & _ & _ & _)%Hback. by apply Hq.
  - intros d e y z q (y' & Hy & <- & _)%Hback (z' & Hz & <- & _)%Hback. by eapply Hqi.
  - by rewrite (counted_put _ c x) by done.
Qed.

(** Its queue is made. *)
Lemma inv_queue s held ini pub n m c h q : inv s held ini pub n m → ini !! c = Some h → has_handle s c → ¬ has_queue s c → sv_queues s !! q = None →
  ∃ s', launch_queue c q s = Some s' ∧ inv s' held ini pub n m.
Proof.
  intros Hi Hc (x & Hx & Hne) Hnq Hq0. destruct (i_ini _ _ _ _ _ _ Hi c h Hc) as (Hch & Hmc & Hh0 & Hst).
  assert (Eh : ctx_handle x = h) by (destruct (Hst x Hx) as [?|[? _]]; done).
  assert (Eq : ctx_queue x = None) by (destruct (ctx_queue x) eqn:E; [|done]; destruct Hnq; exists x; split; [done|rewrite E; by eexists]).
  unfold launch_queue. rewrite Hx. cbn [mbind option_bind]. rewrite bool_decide_eq_true_2 by done. cbn [c_assert mbind option_bind].
  eexists. split; [done|]. destruct Hi as [Hr Ha Hh Href Hini Hpub Hq Hqi Hm Ht].
  assert (Hback : ∀ d y, <[c := set_queue x q]> (sv_heap s) !! d = Some y → (d = c ∧ y = set_queue x q) ∨ (d ≠ c ∧ sv_heap s !! d = Some y)).
  { intros d y. destruct (decide (d = c)) as [->|]; [rewrite lookup_insert_eq; naive_solver|rewrite lookup_insert_ne by done; auto]. }
  assert (Hho : ∀ d, handle_of ini (<[c := set_queue x q]> (sv_heap s)) d = handle_of ini (sv_heap s) d) by (intros d; by apply handle_put with x).
  assert (Hqn : ∀ d y, sv_heap s !! d = Some y → ctx_queue y ≠ Some q).
  { intros d y Hy E. pose proof (Hq d y Hy) as Hs. rewrite E, Hq0 in Hs. by destruct Hs as [[? ?] _]. }
  constructor; cbn; try done.
  - revert Hr. by apply repr_same.
  - intros g d Hd. apply lookup_insert_is_Some'. right. by eapply Ha.
  - intros d Hd. apply lookup_insert_is_Some'. right. by apply Hh.
  - intros d y Hy. rewrite Hho. apply Hback in Hy as [[-> ->]|[_ Hy]]; [by apply (Href c x)|by apply Href].
  - intros d g Hd. destruct (Hini d g Hd) as (? & ? & ? & Hs'). split_and!; [done..|]. intros y [[-> ->]|[_ Hy]]%Hback; [left; cbn; congruence|by apply Hs'].
  - intros d y [[-> ->]|[_ Hy]]%Hback; cbn.
    + rewrite lookup_insert_eq. split; [by eexists|]. intros Hin%Hm. rewrite Hq0 in Hin. by destruct Hin.
    + pose proof (Hq d y Hy) as Hs. destruct (ctx_queue y); [|done]. destruct Hs as [? ?]. split; [|done]. apply lookup_insert_is_Some'. auto.
  - intros d e y z r [[-> ->]|[Hd Hy]]%Hback [[-> ->]|[He Hz]]%Hback; cbn; intros E1 E2; [done|simplify_eq|simplify_eq|by eapply Hqi].
    + by destruct (Hqn e z Hz).
    + by destruct (Hqn d y Hy).
  - intros p Hp. apply lookup_insert_is_Some'. auto.
  - rewrite Ht, i32_add. unfold counted. rewrite map_filter_insert_True by (cbn; by eexists). rewrite map_size_insert.
    assert (filter (λ p, is_Some (ctx_queue p.2)) (sv_heap s) !! c = None) as ->.
    { apply map_lookup_filter_None. right. intros y Hy. cbn. rewrite Hx in Hy. injection Hy as <-. rewrite Eq. by intros [? ?]. }
    f_equal. lia.
Qed.

(** The three steps without another one between them. *)
Lemma inv_begin s held ini pub n m c q : inv s held ini pub n m → sv_heap s !! c = None → sv_queues s !! q = None → ht_room (sv_table s) →
  (∀ d h, ini !! d = Some h → has_handle s d) ∨ ht_spare (sv_table s) →
  ∃ s' h, launch_begin c q s = Some s' ∧ inv s' (c :: held) (<[c := h]> ini) pub n (<[h := c]> m).
Proof.
  intros Hi Hc Hq Hroom Hgrow. destruct (inv_register s held ini pub n m c Hi Hc Hroom Hgrow) as (h & s1 & E1 & Hi1 & Eh & Eq).
  assert (Hic : <[c := h]> ini !! c = Some h) by apply lookup_insert_eq.
  destruct (inv_handle _ _ _ _ _ _ c h Hi1 Hic) as (x & Hx & Hi2). pose proof Hx as Hx'. rewrite Eh, lookup_insert_eq in Hx'. injection Hx' as <-.
  destruct (i_ini _ _ _ _ _ _ Hi1 c h Hic) as (_ & _ & Hh0 & _).
  destruct (inv_queue _ _ _ _ _ _ c h q Hi2 Hic) as (s3 & E3 & Hi3).
  - eexists. cbn. rewrite lookup_insert_eq. by split.
  - intros (y & Hy & Hs). cbn in Hy. rewrite lookup_insert_eq in Hy. injection Hy as <-. by destruct Hs.
  - cbn. by rewrite Eq.
  - exists s3, h. split; [|done]. unfold launch_begin. rewrite E1. cbn [mbind option_bind fst snd]. unfold launch_handle. rewrite Hx. cbn [mbind option_bind]. exact E3.
Qed.

(** An access that keeps the references. *)
Lemma inv_touch s held ini pub n m c (f : skynet_context → skynet_context) :
  inv s held ini pub n m → is_Some (sv_heap s !! c) →
  (∀ x, ctx_queue (f x) = ctx_queue x ∧ ctx_handle (f x) = ctx_handle x ∧ ctx_ref (f x) = ctx_ref x) →
  ∃ x, sv_heap s !! c = Some x ∧ inv (put_ctx s c (f x)) held ini pub n m.
Proof.
  intros Hi [x Hx] Hf. exists x. split; [done|]. destruct (Hf x) as (Eq & Eh & Er). destruct (i_ref _ _ _ _ _ _ Hi c x Hx) as [Hr Hb].
  pose proof (i_ini _ _ _ _ _ _ Hi) as Hini. eapply inv_put; try done; rewrite ?Er; try done; auto. intros d h Hd. by eapply Hini.
Qed.

Lemma inv_push s held ini pub n m c msg : inv s held ini pub n m → has_queue s c →
  ∃ s', context_push c msg s = Some s' ∧ inv s' held ini pub n m.
Proof.
  intros Hi (x & Hx & [q Eq]). pose proof (i_queue _ _ _ _ _ _ Hi c x Hx) as Hqx. rewrite Eq in Hqx. destruct Hqx as [[l Hl] Hm].
  unfold context_push, queue_push. rewrite Hx. cbn [mbind option_bind]. rewrite Eq. cbn [mbind option_bind].
  rewrite bool_decide_eq_false_2, Hl by done. eexists. split; [done|].
  destruct Hi as [Hr Ha Hh Href Hini Hpub Hq Hqi Hmk Ht]. constructor; cbn; try done.
  - intros d y Hy. pose proof (Hq d y Hy) as Hd. destruct (ctx_queue y); [|done]. destruct Hd as [? ?]. split; [|done]. apply lookup_insert_is_Some'. auto.
  - intros r Hr'. apply lookup_insert_is_Some'. auto.
Qed.

(** A launch is over, except for what its creator still writes. *)
Lemma inv_launched s held ini pub pub' n m c h : inv s held ini pub n m → ini !! c = Some h → has_queue s c →
  (∀ d, d ∈ pub' → d = c ∨ d ∈ pub) → inv s held (delete c ini) pub' n m.
Proof.
  intros [Hr Ha Hh Href Hini Hpub Hq Hqi Hmk Ht] Hc (x & Hx & Hxq) Hp'. destruct (Hini c h Hc) as (Hch & Hmc & Hh0 & Hst).
  assert (Eh : ctx_handle x = h) by (destruct (Hst x Hx) as [?|[_ E]]; [done|rewrite E in Hxq; by destruct Hxq]).
  assert (Hho : ∀ d, handle_of (delete c ini) (sv_heap s) d = handle_of ini (sv_heap s) d).
  { intros d. unfold handle_of. destruct (decide (d = c)) as [->|]; [|by rewrite lookup_delete_ne]. rewrite lookup_delete_eq, Hc. cbn.
    unfold skynet_context_handle. by rewrite Hx. }
  constructor; try done.
  - revert Hr. by apply repr_same.
  - intros d y Hy. rewrite Hho. by apply Href.
  - intros d g [_ Hg]%lookup_delete_Some. by apply Hini.
  - intros d Hd. apply Hp' in Hd as [->|Hd]; [by eexists|by apply Hpub].
  - intros d y Hy. pose proof (Hq d y Hy) as Hd. destruct (ctx_queue y) eqn:E; [done|]. rewrite lookup_delete_ne; [done|].
    intros <-. rewrite Hx in Hy. injection Hy as ->. rewrite E in Hxq. by destruct Hxq.
Qed.

Lemma inv_pub s held ini pub pub' n m : inv s held ini pub n m → (∀ d, d ∈ pub' → d ∈ pub) → inv s held ini pub' n m.
Proof. intros [? ? ? ? ? Hpub ? ? ? ?] Hp. constructor; try done. auto. Qed.

Definition inv_cfg (k : cfg) : Prop :=
  match k with Live s held ini pub n => ∃ m, inv s held ini pub n m | Failed => False end.

Lemma step_inv k k' : cstep k k' → inv_cfg k → inv_cfg k'.
Proof.
  intros Hstep. destruct Hstep as [s held ini pub n c Hc Hroom Hgrow|s held ini pub n c h Hc _|s held ini pub n c h q Hc Hh Hnq Hq
    |s held held' ini pub n c h Hc Hq Hp|s held ini pub n c Hc|s held ini pub pub' n c Hp|s held ini pub n c h Hc Hq|s held ini pub n h Hh Hfit
    |s held held' ini pub n c Hp Hci|s held ini pub n h Hh Hfree|s held ini pub n c Hc Hfit|s held ini pub n c msg Hc Hq|s held ini pub n c Hc Hs
    |s held ini pub n c Hc|s held ini pub n c Hc]; intros [m Hi]; cbn [inv_cfg].
  - destruct (inv_register s held ini pub n m c) as (h & s' & -> & Hi' & _); [done..|]. by exists (<[h := c]> m).
  - destruct (inv_handle s held ini pub n m c h Hi Hc) as (x & Hx & Hi'). unfold launch_handle. rewrite Hx. by exists m.
  - destruct (inv_queue s held ini pub n m c h q) as (s' & -> & Hi'); [done..|]. by exists m.
  - pose proof (inv_launched s held ini pub (c :: pub) n m c h Hi Hc Hq ltac:(set_solver)) as Hi0.
    destruct (inv_release s held held' (delete c ini) (c :: pub) n m c) as (b & s' & Hr & Hi'); [done..| |].
    { rewrite lookup_delete_eq. by intros [? ?]. }
    unfold launch_release. rewrite Hr. by exists m.
  - destruct (i_pub _ _ _ _ _ _ Hi c Hc) as [h Hh]. pose proof (i_alive _ _ _ _ _ _ Hi h c Hh) as Hx.
    destruct (inv_touch s held ini pub n m c (λ x, set_init x true) Hi Hx) as (x & Hx' & Hi'); [done|]. unfold launch_init. rewrite Hx'. by exists m.
  - destruct (i_pub _ _ _ _ _ _ Hi c) as [h Hh]; [rewrite Hp; left|]. destruct (i_alive _ _ _ _ _ _ Hi h c Hh) as [x Hx].
    unfold launch_done. rewrite Hx. exists m. apply (inv_pub _ _ _ pub); [done|]. intros d Hd. rewrite Hp. by right.
  - pose proof (inv_launched s held ini pub pub n m c h Hi Hc Hq ltac:(by right)) as Hi0. destruct Hq as (x & Hx & _).
    unfold launch_done. rewrite Hx. by exists m.
  - unfold handle_grab. rewrite (table_alive_ok _ _ _ _ _ _ Hi). cbn [c_assert mbind option_bind].
    rewrite (grab_visible _ _ _ _ _ _ h Hi Hh). cbn [mbind option_bind]. destruct (visible _ m h) as [c|] eqn:E; [|by exists m].
    destruct (inv_grab s held ini pub n m c) as (s' & -> & Hi'); [done..|eapply i_alive; [done|by eapply visible_some]|]. by exists m.
  - destruct (inv_release s held held' ini pub n m c) as (b & s' & -> & Hi'); [done..|]. by exists m.
  - destruct (inv_unlink s held ini pub n m h Hi Hh) as (s' & -> & Hi'); [|by eexists].
    intros c Hc. apply Hfree. by rewrite (grab_visible _ _ _ _ _ _ h Hi Hh), Hc.
  - unfold skynet_context_reserve. destruct (inv_grab s held ini pub n m c) as (s' & -> & Hi'); [done..|by eapply i_held|].
    exists m. destruct Hi' as [? ? ? ? ? ? ? ? ? Ht]. constructor; try done. cbn. rewrite Ht, i32_add. f_equal. lia.
  - destruct (inv_push s held ini pub n m c msg) as (s' & -> & Hi'); [done..|]. by exists m.
  - pose proof (i_held _ _ _ _ _ _ Hi c Hc) as [x Hx]. pose proof (Hs x Hx) as Hsx. unfold skynet_context_newsession. rewrite Hx. cbn [mbind option_bind].
    rewrite chk32_some by (unfold INT_MIN; lia). cbn [mbind option_bind]. rewrite (proj2 (Z.leb_gt _ _)) by lia. cbn.
    destruct (inv_touch s held ini pub n m c (λ y, set_session y (ctx_session_id x + 1)) Hi) as (x' & Hx' & Hi'); [by eexists|done|].
    rewrite Hx in Hx'. injection Hx' as <-. by exists m.
  - destruct (inv_touch s held ini pub n m c (λ x, set_endless x true) Hi) as (x & Hx & Hi'); [by eapply i_held|done|].
    unfold mark_endless. rewrite Hx. by exists m.
  - destruct (inv_touch s held ini pub n m c (λ x, set_cb x true) Hi) as (x & Hx & Hi'); [by eapply i_held|done|].
    unfold skynet_callback. rewrite Hx. by exists m.
Qed.

Definition new_server (t : T) (hb : Z) : server T := mk_server ∅ t 0 ∅ [] ∅ ∅ hb None.

Lemma inv_new t hb : ht_repr (λ _, 0) t ∅ → inv (new_server t hb) [] ∅ [] 0 ∅.
Proof.
  intros Ht. constructor; cbn; try done; try (by intros ? Hc; apply not_elem_of_nil in Hc).
Qed.

Lemma reach_inv t hb k : ht_repr (λ _, 0) t ∅ → rtc cstep (Live (new_server t hb) [] ∅ [] 0) k → inv_cfg k.
Proof.
  intros Ht Hr. assert (H0 : inv_cfg (Live (new_server t hb) [] ∅ [] 0)) by (exists ∅; by apply inv_new).
  revert H0. induction Hr as [|k1 k2 k3 Hs _ IH]; [done|]. intros Hi. by eapply IH, step_inv.
Qed.
End threads.

(** What holds in a reachable state. *)
Definition contexts_sound (k : cfg (T := handle_storage)) : Prop :=
  match k with
  | Failed => False
  | Live s held ini pub n =>
      (∀ c, c ∈ held ∨ c ∈ ht_members (sv_table s) → is_Some (sv_heap s !! c)) ∧
      (∀ c x, sv_heap s !! c = Some x → ctx_ref x = (if decide (c ∈ ht_members (sv_table s)) then 1 else 0) + cnt c held ∧ 0 < ctx_ref x) ∧
      (∀ c x q, sv_heap s !! c = Some x → ctx_queue x = Some q → q ∉ sv_marked s) ∧
      sv_total s = i32 (counted (sv_heap s) - Z.of_nat n)
  end.

(** C25. Contexts live exactly as long as they are used.  From a new node on,
    however the steps of launches (registration, the handle, the queue, the
    release, what the creator writes after it), grabs, releases, retirements
    and uses of contexts by any threads interleave, no access goes to a freed
    context and nothing is pushed to a queue that is given up; the count of a
    context is the number of references to it, so it is freed with the last
    one, and no context stays without one; and the number of contexts is right
    up to the reserved ones.  The steps are those of [cstep]: the code does not
    guard against, and the theorem leaves out, retiring a context before its
    launch is over ([launch_race]), a message to it before its queue is made
    ([push_too_early]), and a growth of the table between the registration of
    another context and the storing of its handle ([growth_race]). *)
Theorem context_lifetime (h hb : Z) k :
  rtc cstep (Live (new_server (skynet_handle_init h) hb) [] ∅ [] 0) k → contexts_sound k.
Proof.
  intros Hr. apply reach_inv in Hr; [|exists ∅; apply handle_init_repr]. destruct k as [s held ini pub n|]; [|done].
  destruct Hr as [m [Hrep Ha Hh Href Hini Hpub Hq Hqi Hm Ht]]. cbn [contexts_sound]. split_and!; [| | |done].
  - intros c [Hc|Hc]; [by apply Hh|]. apply (ht_members_ok _ _ _ _ Hrep) in Hc. by eapply Ha.
  - intros c x Hx. destruct (Href c x Hx) as [E ?]. split; [|lia]. rewrite E. unfold listed. f_equal.
    pose proof (ht_members_ok _ _ _ c Hrep) as Hmem. repeat case_decide; naive_solver.
  - intros c x q Hx Eq. pose proof (Hq c x Hx) as Hs. rewrite Eq in Hs. apply Hs.
Qed.

(** A context retired while it is launched: its creator writes to it after it
    has been freed. *)
Example launch_race :
  (s ← launch_begin 1%positive 1%positive (new_server (skynet_handle_init 0) 0);
   r ← launch_release 1%positive s;
   s ← handle_retire 2 r.2;
   Some (launch_init 1%positive s, launch_done 1%positive s)) = Some (None, None).
Proof. vm_compute. reflexivity. Qed.

(** A message for a context that is registered and has its handle, but no
    queue: the pointer is not set. *)
Example push_too_early :
  (r ← launch_register 1%positive (new_server (skynet_handle_init 0) 0);
   s ← launch_handle 1%positive r.1 r.2;
   Some (r.1, skynet_context_push 2 (mk_message 7 0 0 0) s)) = Some (2, None).
Proof. vm_compute. reflexivity. Qed.

(** The table grows after a fourth context has been registered and before its
    handle is stored: the context is sorted in at handle 0, and its handle is
    not found any more. *)
Example growth_race :
  (s ← launch_begin 1%positive 1%positive (new_server (skynet_handle_init 0) 0);
   s ← launch_begin 2%positive 2%positive s;
   s ← launch_begin 3%positive 3%positive s;
   r ← launch_register 4%positive s;
   s ← launch_begin 5%positive 5%positive r.2;
   s ← launch_handle 4%positive r.1 s;
   g ← ht_grab (skynet_context_handle (sv_heap s)) r.1 (sv_table s);
   Some (r.1, g)) = Some (5, None).
Proof. vm_compute. reflexivity. Qed.

(** One context is launched, and the next one is registered. *)
Definition demo_states : list (server handle_storage) :=
  Eval vm_compute in
  let s0 := new_server (skynet_handle_init 5) 0 in
  default [] (r ← launch_register 1%positive s0; s2 ← launch_handle 1%positive r.1 r.2; s3 ← launch_queue 1%positive 1%positive s2;
    k ← launch_release 1%positive s3; q ← launch_register 2%positive k.2; Some [s0; r.2; s2; s3; k.2; q.2]).

Definition demo_state (i : nat) : server handle_storage := default (new_server (skynet_handle_init 5) 0) (demo_states !! i).

Lemma context_lifetime_witness : let s := demo_state 5 in
  rtc cstep (Live (new_server (skynet_handle_init 5) 0) [] ∅ [] 0) (Live s [2%positive] {[2%positive := 83886083]} [1%positive] 0) ∧
  contexts_sound (Live s [2%positive] {[2%positive := 83886083]} [1%positive] 0) ∧ size (sv_heap s) = 2%nat.
Proof.
  intros s.
  assert (Hr : rtc cstep (Live (new_server (skynet_handle_init 5) 0) [] ∅ [] 0) (Live s [2%positive] {[2%positive := 83886083]} [1%positive] 0)).
  { apply rtc_l with (Live (demo_state 1) [1%positive] {[1%positive := 83886082]} [] 0).
    { refine (st_register (demo_state 0) [] ∅ [] 0 1%positive _ _ _); [done| |left; done].
      change (sv_table (demo_state 0)) with (skynet_handle_init 5). split; [by vm_compute|]. right. intros c [i [[=] _]%lookup_replicate_1]. }
    apply rtc_l with (Live (demo_state 2) [1%positive] {[1%positive := 83886082]} [] 0).
    { refine (st_handle (demo_state 1) [1%positive] {[1%positive := 83886082]} [] 0 1%positive 83886082 _ _); [done|]. by intros (x & [= <-] & ?). }
    apply rtc_l with (Live (demo_state 3) [1%positive] {[1%positive := 83886082]} [] 0).
    { refine (st_queue (demo_state 2) [1%positive] {[1%positive := 83886082]} [] 0 1%positive 83886082 1%positive _ _ _ _);
        [done|by eexists|by intros (x & [= <-] & [? ?])|done]. }
    apply rtc_l with (Live (demo_state 4) [] ∅ [1%positive] 0).
    { refine (st_launch (demo_state 3) [1%positive] [] {[1%positive := 83886082]} [] 0 1%positive 83886082 _ _ _); [done|by do 2 eexists|done]. }
    apply rtc_once. refine (st_register (demo_state 4) [] ∅ [1%positive] 0 2%positive _ _ _); [done| |left; done].
    split; [by vm_compute|]. left. by vm_compute. }
  split; [exact Hr|]. split; [exact (context_lifetime 5 0 _ Hr)|]. vm_compute. reflexivity.
Defined.

(** ** Messages *)

(** [skynet_sendname]; [addr_] is the text of the address. *)
Definition skynet_sendname (context : option ctxid) (src : Z) (addr_ : list Z) (type session_ data_ sz_ addr rmsg : Z)
    (s : server handle_storage) : option (Z * server handle_storage) :=
  src ← (if src =? 0 then c ← context; x ← sv_heap s !! c; Some (ctx_handle x) else Some src);
  match addr_ with
  | 58 :: text => skynet_send context src (u32 (strtoul16 text)) type session_ data_ sz_ addr rmsg s
  | 46 :: text =>
      des ← skynet_handle_findname text (sv_table s);
      if des =? 0 then
        s ← (if Z.land type PTYPE_TAG_DONTCOPY =? 0 then Some s else skynet_free data_ s); Some (-1, s)
      else skynet_send context src des type session_ data_ sz_ addr rmsg s
  | _ =>
      r ← _filter_args context type session_ data_ sz_ addr s;
      let '(session_, data_, sz_, s) := r in
      s ← send_remote rmsg 0 (copy_name addr_) data_ sz_ src session_ s; Some (session_, s)
  end.

Section sending.
Context {T : Type} {HT : HandleTable T}.
Implicit Types (s : server T) (c : ctxid).

(** The size word: type and size come out again. *)
Lemma size_word t z : 0 <= t < 256 → 0 <= z < 2 ^ 56 →
  let w := u64 (Z.lor z (u64 (Z.shiftl t MESSAGE_TYPE_SHIFT))) in
  Z.shiftr w MESSAGE_TYPE_SHIFT = t ∧ Z.land w MESSAGE_TYPE_MASK = z.
Proof.
  intros Ht Hz. unfold MESSAGE_TYPE_SHIFT, MESSAGE_TYPE_MASK.
  assert (E : Z.shiftl t 56 = t * 2 ^ 56) by (by rewrite Z.shiftl_mul_pow2).
  rewrite (u64_small (Z.shiftl t 56)) by lia. rewrite Z.lor_comm, lor_shiftl_add by lia. rewrite u64_small by lia.
  split; [rewrite Z.shiftr_div_pow2 by lia; dlia|]. rewrite land_ones_mod by lia. dlia.
Qed.

Lemma inv_ext s s' held ini pub n m : inv s held ini pub n m → sv_heap s' = sv_heap s → sv_table s' = sv_table s →
  sv_total s' = sv_total s → sv_queues s' = sv_queues s → sv_marked s' = sv_marked s → inv s' held ini pub n m.
Proof. intros [? ? ? ? ? ? ? ? ? ?] E1 E2 E3 E4 E5. constructor; rewrite ?E1, ?E2, ?E3, ?E4, ?E5; done. Qed.

Lemma lookup_put s c x c' : sv_heap (put_ctx s c x) !! c' = if decide (c = c') then Some x else sv_heap s !! c'.
Proof. cbn. by rewrite lookup_insert. Qed.

(** A context that has its queue is found by its handle. *)
Lemma queue_visible s held ini pub n m h d y : inv s held ini pub n m → m !! h = Some d → sv_heap s !! d = Some y → is_Some (ctx_queue y) →
  visible (skynet_context_handle (sv_heap s)) m h = Some d.
Proof.
  intros Hi Hm Hy Hq. unfold visible. rewrite Hm. cbn [mbind option_bind]. assert (skynet_context_handle (sv_heap s) d = h) as ->; [|by rewrite Z.eqb_refl].
  pose proof (ht_handle _ _ _ _ _ (i_repr _ _ _ _ _ _ Hi) Hm) as E. unfold handle_of in E. destruct (ini !! d) as [g|] eqn:Hg; [|done].
  cbn in E. subst g. unfold skynet_context_handle. rewrite Hy. destruct (i_ini _ _ _ _ _ _ Hi d h Hg) as (_ & _ & _ & Hst).
  destruct (Hst y Hy) as [?|[_ E]]; [done|]. rewrite E in Hq. by destruct Hq.
Qed.

(** A message reaches the queue of the context, and the reference taken for it
    is given back. *)
Lemma push_ok s held ini pub n m h d y q l msg : inv s held ini pub n m → refs_fit s → h ≠ 0 → m !! h = Some d →
  sv_heap s !! d = Some y → ctx_queue y = Some q → sv_queues s !! q = Some l →
  ∃ s', skynet_context_push h msg s = Some (0, s') ∧ sv_queues s' = <[q := l ++ [msg]]> (sv_queues s) ∧
    sv_mem s' = sv_mem s ∧ inv s' held ini pub n m.
Proof.
  intros Hi Hfit Hh Hm Hy Hq Hl. unfold skynet_context_push, handle_grab. rewrite (table_alive_ok _ _ _ _ _ _ Hi). cbn [c_assert mbind option_bind].
  rewrite (grab_visible _ _ _ _ _ _ h Hi Hh), (queue_visible _ _ _ _ _ _ h d y Hi Hm Hy) by (rewrite Hq; by eexists). cbn [mbind option_bind].
  destruct (inv_grab s held ini pub n m d Hi Hfit) as (s1 & Hg & Hi1); [by eexists|]. unfold skynet_context_grab in Hg. rewrite Hy in Hg.
  injection Hg as <-. unfold skynet_context_grab. rewrite Hy. cbn [mbind option_bind fst snd].
  set (s1 := put_ctx s d _) in *. destruct (inv_push s1 (d :: held) ini pub n m d msg Hi1) as (s2 & Hp & Hi2).
  { eexists. unfold s1. rewrite lookup_put, decide_True by done. split; [done|]. cbn. rewrite Hq. by eexists. }
  rewrite Hp. cbn [mbind option_bind]. assert (Hs2 : sv_queues s2 = <[q := l ++ [msg]]> (sv_queues s) ∧ sv_mem s2 = sv_mem s).
  { unfold context_push, queue_push in Hp. unfold s1 in Hp. rewrite lookup_put, decide_True in Hp by done. cbn [mbind option_bind set_ref ctx_queue] in Hp.
    rewrite Hq in Hp. cbn [mbind option_bind] in Hp. destruct (bool_decide _); [done|]. cbn in Hp. rewrite Hl in Hp. cbn in Hp. injection Hp as <-. done. }
  destruct (inv_release s2 (d :: held) held ini pub n m d Hi2) as (b & s3 & Hr & Hi3); [done|intros [g Hd]; by apply (i_ini _ _ _ _ _ _ Hi d g)|].
  rewrite Hr. cbn [mbind option_bind snd]. exists s3. split; [done|]. unfold skynet_context_release in Hr.
  destruct (sv_heap s2 !! d) as [z|]; [|done]. cbn [mbind option_bind] in Hr. destruct (_ =? 0).
  - unfold delete_context in Hr. rewrite lookup_put, decide_True in Hr by done. cbn [mbind option_bind set_ref ctx_queue] in Hr.
    destruct (ctx_queue z); [|done]. cbn [mbind option_bind] in Hr. injection Hr as <- <-. cbn. naive_solver.
  - injection Hr as <- <-. cbn. naive_solver.
Qed.

(** The arguments of a message: the session is new if asked for, the data a
    copy unless the block is given away. *)
Lemma filter_ok s held ini pub n m c x type session_ data_ sz_ addr blk :
  inv s held ini pub n m → refs_fit s → sv_heap s !! c = Some x → 0 <= ctx_session_id x < INT_MAX →
  (Z.land type PTYPE_TAG_ALLOCSESSION ≠ 0 → session_ = 0) →
  0 <= sz_ < 2 ^ 56 → data_ ≠ 0 → sv_mem s !! data_ = Some blk → sz_ <= Z.of_nat (length blk) → addr ≠ 0 → sv_mem s !! addr = None →
  ∃ ses dat s', _filter_args (Some c) type session_ data_ sz_ addr s =
      Some (ses, dat, u64 (Z.lor sz_ (u64 (Z.shiftl (Z.land type 255) MESSAGE_TYPE_SHIFT))), s') ∧
    ses = (if Z.land type PTYPE_TAG_ALLOCSESSION =? 0 then session_ else ctx_session_id x + 1) ∧
    (∃ blk', sv_mem s' !! dat = Some blk' ∧ take (Z.to_nat sz_) blk' = take (Z.to_nat sz_) blk) ∧
    inv s' held ini pub n m ∧ refs_fit s' ∧ sv_queues s' = sv_queues s ∧ sv_harbor s' = sv_harbor s ∧
    (∀ d y, sv_heap s !! d = Some y → ∃ y', sv_heap s' !! d = Some y' ∧ ctx_queue y' = ctx_queue y ∧ ctx_handle y' = ctx_handle y).
Proof.
  intros Hi Hfit Hx Hs Hses Hz Hd Hblk Hlen Ha Hfresh. unfold _filter_args. cbv zeta.
  assert (∃ s1, (if negb (Z.land type PTYPE_TAG_ALLOCSESSION =? 0) then
      _ ← c_assert (session_ =? 0); skynet_context_newsession c s else Some (session_, s)) =
      Some (if Z.land type PTYPE_TAG_ALLOCSESSION =? 0 then session_ else ctx_session_id x + 1, s1) ∧
      sv_mem s1 = sv_mem s ∧ sv_queues s1 = sv_queues s ∧ sv_harbor s1 = sv_harbor s ∧ inv s1 held ini pub n m ∧ refs_fit s1 ∧
      ∀ d y, sv_heap s !! d = Some y → ∃ y', sv_heap s1 !! d = Some y' ∧ ctx_queue y' = ctx_queue y ∧ ctx_handle y' = ctx_handle y) as
    (s1 & E1 & Em & Eq & Eh & Hi1 & Hfit1 & Hold1).
  { destruct (Z.eqb_spec (Z.land type PTYPE_TAG_ALLOCSESSION) 0) as [E|E]; cbn [negb].
    - exists s. split_and!; try done. eauto.
    - rewrite (Hses E). cbn [Z.eqb c_assert mbind option_bind]. unfold skynet_context_newsession. rewrite Hx. cbn [mbind option_bind].
      rewrite chk32_some by (unfold INT_MIN; lia). cbn [mbind option_bind]. rewrite (proj2 (Z.leb_gt _ _)) by lia. eexists. split; [done|].
      destruct (inv_touch s held ini pub n m c (λ y, set_session y (ctx_session_id x + 1)) Hi) as (x' & Hx' & Hi'); [by eexists|done|].
      rewrite Hx in Hx'. injection Hx' as <-. split_and!; try done.
      + intros d y. rewrite lookup_put. case_decide as Hdc; [|apply Hfit]. subst d. intros [= <-]. cbn. by apply (Hfit c x).
      + intros d y Hy. rewrite lookup_put. case_decide as Hdc; [|by eexists]. subst d. rewrite Hx in Hy. injection Hy as <-. by eexists. }
  cbn [mbind option_bind] in E1. cbn [mbind option_bind]. rewrite E1. cbn [mbind option_bind]. rewrite (proj2 (Z.eqb_neq data_ 0)) by done. cbn [negb]. rewrite andb_true_r.
  destruct (Z.land type PTYPE_TAG_DONTCOPY =? 0).
  - unfold copy_message. rewrite Em, Hblk. cbn [mbind option_bind]. rewrite (proj2 (Z.leb_le _ _)), (proj2 (Z.eqb_neq addr 0)), bool_decide_eq_true_2 by done.
    cbn [negb andb c_assert mbind option_bind]. eexists _, _, _. split; [done|]. split_and!; try done.
    + eexists. cbn. rewrite lookup_insert_eq. split; [done|]. rewrite take_app_le, take_take, Nat.min_id; [done|rewrite length_take; lia].
    + by apply (inv_ext s1).
  - cbn [mbind option_bind]. eexists _, _, _. split; [done|]. split_and!; try done. exists blk. by rewrite Em.
Qed.
End sending.

(** C26. A message arrives as it was sent.  Sending the first [sz] bytes of a
    block to a context of this node puts one message at the end of its queue,
    from which the callback gets the low byte of the type, the session (a new
    positive one if asked for, which is also what is returned), the source (the
    sender's handle if 0 is given), the size, and data with these bytes; and
    no reference is left over. *)
Theorem send_delivers (s : server handle_storage) held ini pub n m c x d y q l src dest type session_ data_ sz_ addr rmsg blk :
  inv s held ini pub n m → refs_fit s → sv_heap s !! c = Some x → 0 <= ctx_session_id x < INT_MAX →
  m !! dest = Some d → sv_heap s !! d = Some y → ctx_queue y = Some q → sv_queues s !! q = Some l → dest ≠ 0 →
  sv_harbor s ≠ 2 ^ 32 - 1 → Z.land dest (2 ^ 32 - 1 - HANDLE_MASK) = sv_harbor s →
  (Z.land type PTYPE_TAG_ALLOCSESSION ≠ 0 → session_ = 0) →
  0 <= sz_ < 2 ^ 56 → data_ ≠ 0 → sv_mem s !! data_ = Some blk → sz_ <= Z.of_nat (length blk) → addr ≠ 0 → sv_mem s !! addr = None →
  ∃ ses msg s', skynet_send (Some c) src dest type session_ data_ sz_ addr rmsg s = Some (ses, s') ∧
    sv_queues s' = <[q := l ++ [msg]]> (sv_queues s) ∧
    callback_args msg = (Z.land type 255, ses, if src =? 0 then ctx_handle x else src, data msg, sz_) ∧
    ses = (if Z.land type PTYPE_TAG_ALLOCSESSION =? 0 then session_ else ctx_session_id x + 1) ∧
    (∃ blk', sv_mem s' !! data msg = Some blk' ∧ take (Z.to_nat sz_) blk' = take (Z.to_nat sz_) blk) ∧
    inv s' held ini pub n m.
Proof.
  intros Hi Hfit Hx Hs Hm Hy Hq Hl Hd Hhb Hlocal Hses Hz Hdat Hblk Hlen Ha Hfresh.
  destruct (filter_ok s held ini pub n m c x type session_ data_ sz_ addr blk) as (ses & dat & s1 & Hf & Eses & Hb & Hi1 & Hfit1 & Eq & Eh & Hold); [done..|].
  assert (Ht : 0 <= Z.land type 255 < 256) by (change 255 with (2 ^ 8 - 1); rewrite land_ones_mod by lia; apply Z.mod_pos_bound; lia).
  unfold skynet_send. unfold MESSAGE_TYPE_MASK at 1. rewrite land_ones_mod, Z.mod_small, Z.eqb_refl by lia. cbn [negb]. rewrite Hf. cbn [mbind option_bind].
  destruct (Hold c x Hx) as (x' & Hx' & _ & Ehx). assert (∃ src', (if src =? 0 then x ← sv_heap s1 !! c; Some (ctx_handle x) else Some src) = Some src' ∧
    src' = if src =? 0 then ctx_handle x else src) as (src' & Esrc & Hsrc) by (rewrite Hx'; cbn; rewrite Ehx; destruct (src =? 0); by eexists).
  cbn [mbind option_bind] in Esrc. rewrite Esrc. cbn [mbind option_bind]. rewrite (proj2 (Z.eqb_neq dest 0)) by done.
  unfold skynet_harbor_message_isremote. rewrite Eh, (proj2 (Z.eqb_neq (sv_harbor s) _)) by done. cbn [negb c_assert mbind option_bind].
  rewrite Hlocal, Z.eqb_refl. cbn [negb andb]. destruct (Hold d y Hy) as (y' & Hy' & Eqy & _).
  destruct (push_ok s1 held ini pub n m dest d y' q l (mk_message src' ses dat (u64 (Z.lor sz_ (u64 (Z.shiftl (Z.land type 255) MESSAGE_TYPE_SHIFT))))))
    as (s2 & Hp & Eq2 & Em2 & Hi2); [done..|by rewrite Eqy|by rewrite Eq|]. rewrite Hp. cbn [mbind option_bind fst snd Z.eqb].
  eexists _, _, s2. split; [done|]. split_and!; [by rewrite Eq2, Eq| |done| |done].
  - unfold callback_args. cbn [sz session source data]. destruct (size_word (Z.land type 255) sz_ Ht Hz) as [-> ->]. by rewrite Hsrc.
  - cbn [data]. by rewrite Em2.
Qed.

Lemma send_delivers_witness : ∃ (s s' : server handle_storage) msg,
  launch_begin 1%positive 1%positive (with_mem (new_server (skynet_handle_init 0) 0) {[100 := [7; 8; 9]]}) = Some s ∧
  skynet_send (Some 1%positive) 0 2 (PTYPE_TAG_ALLOCSESSION + 10) 0 100 2 200 300 s = Some (1, s') ∧
  callback_args msg = (10, 1, 2, data msg, 2) ∧ sv_queues s' !! 1%positive = Some [msg].
Proof.
  set (s0 := with_mem (new_server (skynet_handle_init 0) 0) {[100 := [7; 8; 9]]}).
  assert (H0 : inv s0 [] ∅ [] 0 ∅).
  { apply (inv_ext (new_server (skynet_handle_init 0) 0)); try reflexivity. apply inv_new. exists ∅. apply handle_init_repr. }
  destruct (inv_begin s0 [] ∅ [] 0 ∅ 1%positive 1%positive H0) as (s & h & E & Hi); [reflexivity|reflexivity| |by left|].
  { split; [by vm_compute|]. right. intros c [i [[=] _]%lookup_replicate_1]. }
  assert (Eh : h = 2) by (pose proof (i_ini _ _ _ _ _ _ Hi 1%positive h ltac:(apply lookup_insert_eq)) as (_ & _ & Hh0 & Hst);
    vm_compute in E; injection E as <-; destruct (Hst _ eq_refl) as [<-|[? _]]; done).
  subst h. pose proof E as E'. vm_compute in E'. injection E' as E'.
  destruct (send_delivers s [1%positive] (<[1%positive := 2]> ∅) [] 0 (<[2 := 1%positive]> ∅) 1 (mk_context false (Some 1%positive) false 2 0 2 0 false false) 1
    (mk_context false (Some 1%positive) false 2 0 2 0 false false) 1 [] 0 2 (PTYPE_TAG_ALLOCSESSION + 10) 0 100 2 200 300 [7; 8; 9] Hi)
    as (ses & msg & s' & Hs & Hq & Hc & Hses & _);
    [change (map_Forall (λ _ x, ctx_ref x < INT_MAX) (sv_heap s)); subst s; apply (bool_decide_unpack _); vm_compute; exact I
    |subst s; reflexivity|cbn; unfold INT_MAX; lia|reflexivity|subst s; reflexivity|reflexivity|subst s; reflexivity|lia|subst s; cbn; lia
    |subst s; reflexivity|reflexivity|lia|lia|subst s; reflexivity|cbn; lia|lia|subst s; reflexivity|].
  exists s, s', msg. change (ses = 1) in Hses. subst ses. split; [exact E|]. split; [exact Hs|]. split; [exact Hc|].
  rewrite Hq. apply lookup_insert_eq.
Defined.

(** A message without a destination: the copy that was made stays allocated. *)
Example send_leaks :
  (s ← launch_begin 1%positive 1%positive (with_mem (new_server (skynet_handle_init 0) 0) {[100 := [7; 8; 9]]});
   r ← skynet_send (Some 1%positive) 0 0 10 5 100 2 200 300 s; Some (r.1, sv_mem r.2 !! 200)) = Some (5, Some [7; 8; 0]).
Proof. vm_compute. reflexivity. Qed.
