(* ===== verification/HarborService.v ===== *)
(** * The harbor service: service-src/service_harbor.c

    Every node of a skynet network runs a harbor service.  It keeps a link to
    each other node, sends messages for other nodes over these links and
    delivers what arrives to the services of its own node.  Messages to a node
    that is not connected, and to a global name that is not known yet, wait in
    queues.

    Blocks of message data are addresses; [mem] gives their contents, which
    nothing here changes.  [known] says which local handles have a service:
    it decides what [skynet_send] returns.  The calls the service makes are the
    list of effects a function returns, in order. *)

From Stdlib Require Import ZArith Lia.
From stdpp Require Import base tactics option numbers gmap list strings.
From S2P Require Import Prelude MessageQueue HandleStorage Netpack Libc Server.

Definition HASH_SIZE : Z := 4096.
Definition DEFAULT_QUEUE_SIZE : Z := 1024.
Definition HEADER_COOKIE_LENGTH : Z := 12.
Definition GLOBALNAME_LENGTH : Z := 16.
Definition REMOTE_MAX : Z := 256.

Record remote_message_header := mk_header { hd_source : Z; hd_destination : Z; hd_session : Z }.

Record harbor_msg := mk_hmsg { hm_header : remote_message_header; hm_buffer : Z; hm_size : Z }.

Record harbor_msg_queue := mk_hqueue {
  hq_size : Z;
  hq_head : Z;
  hq_tail : Z;
  hq_data : list (option harbor_msg)
}.

(** A node of the hash; the chain is a list instead of [next]. *)
Record keyvalue := mk_kv {
  kv_key : list Z;
  kv_hash : Z;
  kv_value : Z;
  kv_queue : option harbor_msg_queue
}.

Definition hashmap := list (list keyvalue).

(** The address of a node: its chain and its place in it. *)
Definition kv_ptr := (Z * nat)%type.

Definition STATUS_WAIT : Z := 0.
Definition STATUS_HANDSHAKE : Z := 1.
Definition STATUS_HEADER : Z := 2.
Definition STATUS_CONTENT : Z := 3.
Definition STATUS_DOWN : Z := 4.

Record slave := mk_slave {
  s_fd : Z;
  s_queue : option harbor_msg_queue;
  s_status : Z;
  s_length : Z;
  s_read : Z;
  s_size : list Z;
  s_recv_buffer : list (option Z)
}.

Record harbor := mk_harbor {
  hb_id : Z;
  hb_slave : Z;
  hb_map : hashmap;
  hb_s : list slave
}.

(** The data of a message sent: nothing, bytes, or a block that is given away. *)
Inductive payload := Null | Bytes (l : list Z) | Block (addr size : Z).

Inductive heffect :=
  | HSend (source destination type session : Z) (data : payload)   (* skynet_send *)
  | HSocketSend (fd : Z) (data : list Z)                            (* skynet_socket_send *)
  | HStart (fd : Z)                                                 (* skynet_socket_start *)
  | HClose (fd : Z)                                                 (* skynet_socket_close *)
  | HFree (addr : Z)                                                (* skynet_free of a message block *)
  | HFreeData (l : list Z)                                          (* skynet_free of socket data *)
  | HRegister                                                       (* skynet_callback, skynet_harbor_start *)
  | HError (text : string) (args : list Z).                         (* skynet_error *)

(** Updates of the fields. *)
Definition set_fd (s : slave) (fd : Z) : slave :=
  mk_slave fd (s_queue s) (s_status s) (s_length s) (s_read s) (s_size s) (s_recv_buffer s).
Definition set_queue (s : slave) (q : option harbor_msg_queue) : slave :=
  mk_slave (s_fd s) q (s_status s) (s_length s) (s_read s) (s_size s) (s_recv_buffer s).
Definition set_status (s : slave) (st : Z) : slave :=
  mk_slave (s_fd s) (s_queue s) st (s_length s) (s_read s) (s_size s) (s_recv_buffer s).
Definition set_reading (s : slave) (st len rd : Z) (size : list Z) (buf : list (option Z)) : slave :=
  mk_slave (s_fd s) (s_queue s) st len rd size buf.
Definition set_slaves (h : harbor) (l : list slave) : harbor := mk_harbor (hb_id h) (hb_slave h) (hb_map h) l.
Definition set_map (h : harbor) (m : hashmap) : harbor := mk_harbor (hb_id h) (hb_slave h) m (hb_s h).

Definition put_slave (h : harbor) (id : Z) (s : slave) : option harbor := l ← arr_set (hb_s h) id s; Some (set_slaves h l).

(** ** Queues *)

(** [new_buffer[i] = queue->data[(i+queue->head) % queue->size]] for [n]
    values of [i]. *)
Fixpoint copy_ring (n : nat) (i : Z) (q : harbor_msg_queue) : option (list (option harbor_msg)) :=
  match n with
  | O => Some []
  | S n' => c ← arr_get (hq_data q) ((i + hq_head q) mod hq_size q); l ← copy_ring n' (i + 1) q; Some (c :: l)
  end.

Definition expand_queue (q : harbor_msg_queue) : option harbor_msg_queue :=
  size2 ← chk32 (hq_size q * 2);
  cells ← copy_ring (Z.to_nat (hq_size q - 1)) 0 q;
  Some (mk_hqueue size2 0 (hq_size q - 1) (cells ++ replicate (Z.to_nat (size2 - (hq_size q - 1))) None)).

Definition push_queue_msg (q : harbor_msg_queue) (m : harbor_msg) : option harbor_msg_queue :=
  q ← (if (hq_tail q + 1) mod hq_size q =? hq_head q then expand_queue q else Some q);
  data ← arr_set (hq_data q) (hq_tail q) (Some m);
  Some (mk_hqueue (hq_size q) (hq_head q) ((hq_tail q + 1) mod hq_size q) data).

Definition push_queue (q : harbor_msg_queue) (buffer sz : Z) (header : remote_message_header) : option harbor_msg_queue :=
  push_queue_msg q (mk_hmsg header buffer sz).

Definition pop_queue (q : harbor_msg_queue) : option (option harbor_msg * harbor_msg_queue) :=
  if hq_head q =? hq_tail q then Some (None, q)
  else
    c ← arr_get (hq_data q) (hq_head q);
    m ← c;
    Some (Some m, mk_hqueue (hq_size q) ((hq_head q + 1) mod hq_size q) (hq_tail q) (hq_data q)).

Definition new_queue : harbor_msg_queue :=
  mk_hqueue DEFAULT_QUEUE_SIZE 0 0 (replicate (Z.to_nat DEFAULT_QUEUE_SIZE) None).

(** [while ((m = pop_queue(queue)) != NULL) body] *)
Fixpoint while_pop {A} (fuel : nat) (body : A → harbor_msg → option A) (a : A) (q : harbor_msg_queue)
    : option (A * harbor_msg_queue) :=
  match fuel with
  | O => None
  | S f =>
      '(m, q) ← pop_queue q;
      match m with
      | None => Some (a, q)
      | Some m => a ← body a m; while_pop f body a q
      end
  end.

(** A queue holds fewer messages than its size. *)
Definition queue_fuel (q : harbor_msg_queue) : nat := S (Z.to_nat (hq_size q)).

Definition release_queue (q : option harbor_msg_queue) : option (list heffect) :=
  match q with
  | None => Some []
  | Some q => '(e, _) ← while_pop (queue_fuel q) (λ e m, Some (e ++ [HFree (hm_buffer m)])) [] q; Some e
  end.

(** ** The hash of global names *)

(** [ptr[i]] *)
Definition name_word (name : list Z) (i : nat) : Z := le_val (take 4 (drop (4 * i) name)).

Definition name_hash (name : list Z) : Z :=
  Z.lxor (Z.lxor (Z.lxor (name_word name 0) (name_word name 1)) (name_word name 2)) (name_word name 3).

Fixpoint search_chain (c : list keyvalue) (h : Z) (name : list Z) (pos : nat) : option (option nat) :=
  match c with
  | [] => Some None
  | node :: c' =>
      if kv_hash node =? h then
        eq ← strncmp_eq (Z.to_nat GLOBALNAME_LENGTH) (kv_key node) name;
        if (eq : bool) then Some (Some pos) else search_chain c' h name (S pos)
      else search_chain c' h name (S pos)
  end.

Definition hash_search (hash : hashmap) (name : list Z) : option (option kv_ptr) :=
  let h := name_hash name in
  c ← arr_get hash (h mod HASH_SIZE);
  pos ← search_chain c h name 0;
  Some (p ← pos; Some (h mod HASH_SIZE, p)).

Definition hash_insert (hash : hashmap) (name : list Z) : option (kv_ptr * hashmap) :=
  let h := name_hash name in
  c ← arr_get hash (h mod HASH_SIZE);
  hash ← arr_set hash (h mod HASH_SIZE) (mk_kv (take (Z.to_nat GLOBALNAME_LENGTH) name) h 0 None :: c);
  Some ((h mod HASH_SIZE, 0%nat), hash).

Definition hash_new : hashmap := replicate (Z.to_nat HASH_SIZE) [].

(** Reading and writing through the address of a node. *)
Definition node_get (hash : hashmap) (p : kv_ptr) : option keyvalue := c ← arr_get hash p.1; c !! p.2.

Definition node_set (hash : hashmap) (p : kv_ptr) (n : keyvalue) : option hashmap :=
  c ← arr_get hash p.1; _ ← c !! p.2; arr_set hash p.1 (<[p.2 := n]> c).

Definition set_value (n : keyvalue) (v : Z) : keyvalue := mk_kv (kv_key n) (kv_hash n) v (kv_queue n).
Definition set_kv_queue (n : keyvalue) (q : option harbor_msg_queue) : keyvalue := mk_kv (kv_key n) (kv_hash n) (kv_value n) q.

(** The nodes of one chain released. *)
Fixpoint chain_delete (c : list keyvalue) : option (list heffect) :=
  match c with
  | [] => Some []
  | n :: c' => e ← release_queue (kv_queue n); e' ← chain_delete c'; Some (e ++ e')
  end.

Fixpoint hash_delete (hash : hashmap) : option (list heffect) :=
  match hash with
  | [] => Some []
  | c :: hash' => e ← chain_delete c; e' ← hash_delete hash'; Some (e ++ e')
  end.

(** ** Links *)

Definition close_harbor (h : harbor) (id : Z) : option (harbor * list heffect) :=
  s ← arr_get (hb_s h) id;
  let s := set_status s STATUS_DOWN in
  let e := if s_fd s =? 0 then [] else [HClose (s_fd s)] in
  e' ← release_queue (s_queue s);
  h ← put_slave h id (set_queue s None);
  Some (h, e ++ e').

Definition report_harbor_down (h : harbor) (id : Z) : list heffect :=
  [HSend 0 (hb_slave h) PTYPE_TEXT 0 (Bytes (lit "D " ++ print_d id))].

Definition slave_zero : slave := mk_slave 0 None STATUS_WAIT 0 0 [0; 0; 0; 0] [].

(** Cleared memory and an empty hash. *)
Definition harbor_create : harbor := mk_harbor 0 0 hash_new (replicate (Z.to_nat REMOTE_MAX) slave_zero).

(** The loop over the links from [i] on. *)
Fixpoint release_links (n : nat) (i : Z) (h : harbor) : option (harbor * list heffect) :=
  match n with
  | O => Some (h, [])
  | S n' =>
      s ← arr_get (hb_s h) i;
      '(h, e) ← (if negb (s_fd s =? 0) && negb (s_status s =? STATUS_DOWN) then close_harbor h i else Some (h, []));
      '(h, e') ← release_links n' (i + 1) h;
      Some (h, e ++ e')
  end.

Definition harbor_release (h : harbor) : option (list heffect) :=
  '(h, e) ← release_links (Z.to_nat (REMOTE_MAX - 1)) 1 h;
  e' ← hash_delete (hb_map h);
  Some (e ++ e').

(** ** Headers *)

Definition to_bigendian (n : Z) : list Z :=
  [Z.land (Z.shiftr n 24) 0xff; Z.land (Z.shiftr n 16) 0xff; Z.land (Z.shiftr n 8) 0xff; Z.land n 0xff].

Definition header_to_message (header : remote_message_header) : list Z :=
  to_bigendian (hd_source header) ++ to_bigendian (hd_destination header) ++ to_bigendian (hd_session header).

(** The bytes are those of the number in memory; a shift into the sign bit of
    an [int] keeps the bits, as the compilers used define it. *)
Definition from_bigendian (bytes : list Z) : option Z :=
  match bytes with
  | [b0; b1; b2; b3] => Some (u32 (Z.lor (Z.lor (Z.lor (Z.shiftl b0 24) (Z.shiftl b1 16)) (Z.shiftl b2 8)) b3))
  | _ => None
  end.

Definition message_to_header (message : list Z) : option remote_message_header :=
  src ← from_bigendian (take 4 message);
  dst ← from_bigendian (take 4 (drop 4 message));
  ses ← from_bigendian (take 4 (drop 8 message));
  Some (mk_header src dst ses).

Section service.
Context (mem : Z → list Z) (known : Z → bool).

(** ** Messages over a link *)

(** [skynet_send] of [skynet_server.c] to a local handle returns the session,
    or -1 when no service has the handle. *)
Definition send_result (destination session : Z) : Z := if known destination then session else -1.

Definition forward_local_messsage (h : harbor) (msg : list (option Z)) (sz : Z) : option (list heffect) :=
  _ ← c_assert (HEADER_COOKIE_LENGTH <=? sz);
  cookie ← mapM (λ c, c) (drop (Z.to_nat (sz - HEADER_COOKIE_LENGTH)) msg);
  content ← mapM (λ c, c) (take (Z.to_nat (sz - HEADER_COOKIE_LENGTH)) msg);
  header ← message_to_header cookie;
  let type := Z.shiftr (hd_destination header) HANDLE_REMOTE_SHIFT in
  let destination := Z.lor (Z.land (hd_destination header) HANDLE_MASK) (u32 (Z.shiftl (hb_id h) HANDLE_REMOTE_SHIFT)) in
  let session := i32 (hd_session header) in
  Some (HSend (hd_source header) destination (Z.lor type PTYPE_TAG_DONTCOPY) session (Bytes content) ::
        (if send_result destination session <? 0 then
           (if negb (type =? PTYPE_ERROR) then [HSend destination (hd_source header) PTYPE_ERROR session Null] else []) ++
           [HError "Unknown destination :%x from :%x type(%d)" [destination; hd_source header; type]]
         else [])).

Definition send_remote (fd buffer sz : Z) (cookie : remote_message_header) : option (list heffect) :=
  let sz_header := u64 (sz + HEADER_COOKIE_LENGTH) in
  if 2 ^ 32 - 1 <? sz_header then
    Some [HError "remote message from :%08x to :%08x is too large." [hd_source cookie; hd_destination cookie]]
  else
    _ ← c_assert ((0 <=? sz) && (sz <=? Z.of_nat (length (mem buffer))));
    Some [HSocketSend fd (to_bigendian sz_header ++ take (Z.to_nat sz) (mem buffer) ++ header_to_message cookie)].

(** One message of a queue sent and freed. *)
Definition send_and_free (fd : Z) (e : list heffect) (m : harbor_msg) (header : remote_message_header) : option (list heffect) :=
  e' ← send_remote fd (hm_buffer m) (hm_size m) header; Some (e ++ e' ++ [HFree (hm_buffer m)]).

(** [m->header.destination |= (handle & HANDLE_MASK)] *)
Definition named_header (handle : Z) (header : remote_message_header) : remote_message_header :=
  mk_header (hd_source header) (Z.lor (hd_destination header) (Z.land handle HANDLE_MASK)) (hd_session header).

(** The body of the loop for a name of this node. *)
Definition send_local (handle : Z) (e : list heffect) (m : harbor_msg) : option (list heffect) :=
  let type := Z.shiftr (hd_destination (hm_header m)) HANDLE_REMOTE_SHIFT in
  Some (e ++ [HSend (hd_source (hm_header m)) handle (Z.lor type PTYPE_TAG_DONTCOPY) (i32 (hd_session (hm_header m)))
                (Block (hm_buffer m) (hm_size m))]).

(** The queue of a name moved to the link of its node, or delivered when the
    node is this one. *)
Definition queue_to_link (h : harbor) (p : kv_ptr) (node : keyvalue) (queue : harbor_msg_queue) (harbor_id : Z) (s : slave)
    : option (harbor * list heffect) :=
  '(s, node) ←
    match s_queue s with
    | None => Some (set_queue s (Some queue), set_kv_queue node None)
    | Some sq =>
        '(sq, queue) ← while_pop (queue_fuel queue) push_queue_msg sq queue;
        Some (set_queue s (Some sq), set_kv_queue node (Some queue))
    end;
  map ← node_set (hb_map h) p node;
  if harbor_id =? Z.shiftr (hb_slave h) HANDLE_REMOTE_SHIFT then
    sq ← s_queue s;
    '(e, sq) ← while_pop (queue_fuel sq) (send_local (kv_value node)) [] sq;
    e' ← release_queue (Some sq);
    h ← put_slave (set_map h map) harbor_id (set_queue s None);
    Some (h, e ++ e')
  else
    h ← put_slave (set_map h map) harbor_id s;
    Some (h, []).

Definition dispatch_name_queue (h : harbor) (p : kv_ptr) : option (harbor * list heffect) :=
  node ← node_get (hb_map h) p;
  queue ← kv_queue node;
  let handle := kv_value node in
  let harbor_id := Z.shiftr handle HANDLE_REMOTE_SHIFT in
  s ← arr_get (hb_s h) harbor_id;
  if s_fd s =? 0 then
    if s_status s =? STATUS_DOWN then
      Some (h, [HError "Drop message to %s (in harbor %d)" (kv_key node ++ [harbor_id])])
    else queue_to_link h p node queue harbor_id s
  else
    '(e, queue) ← while_pop (queue_fuel queue) (λ e m, send_and_free (s_fd s) e m (named_header handle (hm_header m))) [] queue;
    map ← node_set (hb_map h) p (set_kv_queue node (Some queue));
    Some (set_map h map, e).

Definition dispatch_queue (h : harbor) (id : Z) : option (harbor * list heffect) :=
  s ← arr_get (hb_s h) id;
  _ ← c_assert (negb (s_fd s =? 0));
  match s_queue s with
  | None => Some (h, [])
  | Some queue =>
      '(e, queue) ← while_pop (queue_fuel queue) (λ e m, send_and_free (s_fd s) e m (hm_header m)) [] queue;
      e' ← release_queue (Some queue);
      h ← put_slave h id (set_queue s None);
      Some (h, e ++ e')
  end.

(** ** Data from a link *)

(** How a round of the loop of [push_socket_data] ends: [return], or back to
    the top with what is left of the data. *)
Inductive round := Done (h : harbor) | Again (h : harbor) (buffer : list Z).

(** [memcpy(s->size + s->read, buffer, n)] *)
Definition copy_size (size : list Z) (rd : Z) (buffer : list Z) (n : Z) : option (list Z) :=
  _ ← c_assert ((0 <=? n) && (n <=? Z.of_nat (length buffer)) && (0 <=? rd) && (rd + n <=? Z.of_nat (length size)));
  Some (take (Z.to_nat rd) size ++ take (Z.to_nat n) buffer ++ drop (Z.to_nat (rd + n)) size).

(** [case STATUS_CONTENT] *)
Definition status_content (h : harbor) (id : Z) (buffer : list Z) : option (round * list heffect) :=
  s ← arr_get (hb_s h) id;
  let size := Z.of_nat (length buffer) in
  let need := s_length s - s_read s in
  if size <? need then
    buf ← memcpy (s_recv_buffer s) (s_read s) buffer size;
    h ← put_slave h id (set_reading s (s_status s) (s_length s) (s_read s + size) (s_size s) buf);
    Some (Done h, [])
  else
    buf ← memcpy (s_recv_buffer s) (s_read s) buffer need;
    e ← forward_local_messsage h buf (s_length s);
    h ← put_slave h id (set_reading s STATUS_HEADER 0 0 (s_size s) []);
    let buffer := drop (Z.to_nat need) buffer in
    Some (if Z.of_nat (length buffer) =? 0 then Done h else Again h buffer, e).

(** [case STATUS_HEADER], which goes through to the next case *)
Definition status_header (h : harbor) (id : Z) (buffer : list Z) : option (round * list heffect) :=
  s ← arr_get (hb_s h) id;
  let size := Z.of_nat (length buffer) in
  let need := 4 - s_read s in
  if size <? need then
    sz ← copy_size (s_size s) (s_read s) buffer size;
    h ← put_slave h id (set_reading s (s_status s) (s_length s) (s_read s + size) sz (s_recv_buffer s));
    Some (Done h, [])
  else
    sz ← copy_size (s_size s) (s_read s) buffer need;
    let buffer := drop (Z.to_nat need) buffer in
    match sz with
    | [b0; b1; b2; b3] =>
        if negb (b0 =? 0) then
          h ← put_slave h id (set_reading s (s_status s) (s_length s) (s_read s) sz (s_recv_buffer s));
          '(h, e) ← close_harbor h id;
          Some (Done h, HError "Message is too long from harbor %d" [id] :: e)
        else
          let len := Z.lor (Z.lor (Z.shiftl b1 16) (Z.shiftl b2 8)) b3 in
          h ← put_slave h id (set_reading s STATUS_CONTENT len 0 sz (malloc len));
          if Z.of_nat (length buffer) =? 0 then Some (Done h, []) else status_content h id buffer
    | _ => None
    end.

(** [case STATUS_HANDSHAKE], which goes through to the next case *)
Definition status_handshake (h : harbor) (id fd : Z) (buffer : list Z) : option (round * list heffect) :=
  remote_id ← arr_get buffer 0;
  if negb (remote_id =? id) then
    '(h, e) ← close_harbor h id;
    Some (Done h, HError "Invalid shakehand id (%d) from fd = %d , harbor = %d" [id; fd; remote_id] :: e)
  else
    let buffer := drop 1 buffer in
    s ← arr_get (hb_s h) id;
    h ← put_slave h id (set_status s STATUS_HEADER);
    '(h, e) ← dispatch_queue h id;
    if Z.of_nat (length buffer) =? 0 then Some (Again h buffer, e)
    else '(r, e') ← status_header h id buffer; Some (r, e ++ e').

(** One round: the switch. *)
Definition data_round (h : harbor) (id fd : Z) (buffer : list Z) : option (round * list heffect) :=
  s ← arr_get (hb_s h) id;
  if s_status s =? STATUS_HANDSHAKE then status_handshake h id fd buffer
  else if s_status s =? STATUS_HEADER then status_header h id buffer
  else if s_status s =? STATUS_CONTENT then status_content h id buffer
  else Some (Done h, []).

Fixpoint data_loop (fuel : nat) (h : harbor) (id fd : Z) (buffer : list Z) : option (harbor * list heffect) :=
  match fuel with
  | O => None
  | S f =>
      '(r, e) ← data_round h id fd buffer;
      match r with
      | Done h => Some (h, e)
      | Again h buffer => '(h, e') ← data_loop f h id fd buffer; Some (h, e ++ e')
      end
  end.

(** The first link from [i] on with the descriptor. *)
Fixpoint find_fd (n : nat) (i : Z) (l : list slave) (fd : Z) : option Z :=
  match n with
  | O => Some 0
  | S n' => s ← arr_get l i; if s_fd s =? fd then Some i else find_fd n' (i + 1) l fd
  end.

(** 0 when there is none *)
Definition harbor_id (h : harbor) (fd : Z) : option Z := find_fd (Z.to_nat (REMOTE_MAX - 1)) 1 (hb_s h) fd.

(** A round takes at least one byte, but for the first. *)
Definition push_socket_data (h : harbor) (message : socket_message) : option (harbor * list heffect) :=
  let fd := sm_id message in
  id ← harbor_id h fd;
  if id =? 0 then Some (h, [HError "Invalid socket fd (%d) data" [fd]])
  else
    buffer ← sm_buffer message;
    _ ← c_assert ((0 <=? sm_ud message) && (sm_ud message <=? Z.of_nat (length buffer)));
    let buffer := take (Z.to_nat (sm_ud message)) buffer in
    data_loop (length buffer + 2) h id fd buffer.

(** ** Names *)

(** [hash_search], with [hash_insert] when there is no node *)
Definition search_insert (hash : hashmap) (name : list Z) : option (kv_ptr * hashmap) :=
  p ← hash_search hash name;
  match p with
  | Some p => Some (p, hash)
  | None => hash_insert hash name
  end.

Definition update_name (h : harbor) (name : list Z) (handle : Z) : option (harbor * list heffect) :=
  '(p, map) ← search_insert (hb_map h) name;
  node ← node_get map p;
  let node := set_value node handle in
  map ← node_set map p node;
  let h := set_map h map in
  match kv_queue node with
  | None => Some (h, [])
  | Some _ =>
      '(h, e) ← dispatch_name_queue h p;
      node ← node_get (hb_map h) p;
      e' ← release_queue (kv_queue node);
      map ← node_set (hb_map h) p (set_kv_queue node None);
      Some (set_map h map, e ++ e')
  end.

(** ** Messages for other nodes

    The functions return 1 when the message is kept or given away, and its
    block must not be freed. *)

(** [(type << HANDLE_REMOTE_SHIFT) | (destination & HANDLE_MASK)] *)
Definition typed_destination (type destination : Z) : Z :=
  Z.lor (u32 (Z.shiftl type HANDLE_REMOTE_SHIFT)) (Z.land destination HANDLE_MASK).

Definition remote_send_handle (h : harbor) (source destination type session msg sz : Z) : option (harbor * list heffect * Z) :=
  let harbor_id := Z.shiftr destination HANDLE_REMOTE_SHIFT in
  if harbor_id =? hb_id h then
    Some (h, [HSend source destination (Z.lor type PTYPE_TAG_DONTCOPY) session (Block msg sz)], 1)
  else
    s ← arr_get (hb_s h) harbor_id;
    if (s_fd s =? 0) || (s_status s =? STATUS_HANDSHAKE) then
      if s_status s =? STATUS_DOWN then
        Some (h, [HSend destination source PTYPE_ERROR 0 Null;
                  HError "Drop message to harbor %d from %x to %x (session = %d, msgsz = %d)"
                    [harbor_id; source; destination; session; i32 sz]], 0)
      else
        let queue := default new_queue (s_queue s) in
        let header := mk_header source (typed_destination type destination) (u32 session) in
        queue ← push_queue queue msg sz header;
        h ← put_slave h harbor_id (set_queue s (Some queue));
        Some (h, [], 1)
    else
      let cookie := mk_header source (typed_destination type destination) (u32 session) in
      e ← send_remote (s_fd s) msg sz cookie;
      Some (h, e, 0).

(** The text up to its 0, at most 16 bytes. *)
Fixpoint name_text (l : list Z) : list Z :=
  match l with
  | [] => []
  | b :: l' => if b =? 0 then [] else b :: name_text l'
  end.

Definition remote_send_name (h : harbor) (source : Z) (name : list Z) (type session msg sz : Z) : option (harbor * list heffect * Z) :=
  '(p, map) ← search_insert (hb_map h) name;
  node ← node_get map p;
  if kv_value node =? 0 then
    let queue := default new_queue (kv_queue node) in
    let header := mk_header source (u32 (Z.shiftl type HANDLE_REMOTE_SHIFT)) (u32 session) in
    queue ← push_queue queue msg sz header;
    map ← node_set map p (set_kv_queue node (Some queue));
    let query := lit "Q " ++ name_text (take (Z.to_nat GLOBALNAME_LENGTH) name) in
    Some (set_map h map, [HSend 0 (hb_slave h) PTYPE_TEXT 0 (Bytes query)], 1)
  else remote_send_handle (set_map h map) source (kv_value node) type session msg sz.

(** ** Commands *)

Definition handshake (h : harbor) (id : Z) : option (list heffect) :=
  s ← arr_get (hb_s h) id;
  Some [HSocketSend (s_fd s) [u8 (hb_id h)]].

(** [sscanf(buffer, "%d %d", &fd, &id)] with both 0 before *)
Definition scan_fd_id (buffer : list Z) : Z * Z :=
  match scan_d buffer with
  | None => (0, 0)
  | Some (fd, r) => (fd, match scan_d r with Some (id, _) => id | None => 0 end)
  end.

(** [case 'S'] and [case 'A'] *)
Definition command_link (h : harbor) (cmd : Z) (buffer : list Z) : option (harbor * list heffect) :=
  let '(fd, id) := scan_fd_id buffer in
  if (fd =? 0) || (id <=? 0) || (REMOTE_MAX <=? id) then Some (h, [HError "Invalid command %c %s" (cmd :: buffer)])
  else
    s ← arr_get (hb_s h) id;
    if negb (s_fd s =? 0) then Some (h, [HError "Harbor %d alreay exist" [id]])
    else
      h ← put_slave h id (set_fd s fd);
      e ← handshake h id;
      if cmd =? 83 then
        h ← put_slave h id (set_status (set_fd s fd) STATUS_HANDSHAKE);
        Some (h, HStart fd :: e)
      else
        h ← put_slave h id (set_status (set_fd s fd) STATUS_HEADER);
        '(h, e') ← dispatch_queue h id;
        Some (h, HStart fd :: e ++ e').

(** A message without data has no [msg[0]]; the text of a command of one byte
    would have a negative length. *)
Definition harbor_command (h : harbor) (msg : list Z) (session source : Z) : option (harbor * list heffect) :=
  c ← arr_get msg 0;
  let name := drop 2 msg in
  let s := Z.of_nat (length msg) - 2 in
  if c =? 78 then
    if (s <=? 0) || (GLOBALNAME_LENGTH <=? s) then Some (h, [HError "Invalid global name %s" name])
    else update_name h (name ++ replicate (Z.to_nat (GLOBALNAME_LENGTH - s)) 0) source
  else if (c =? 83) || (c =? 65) then
    _ ← c_assert (0 <=? s);
    buffer ← cstr_at (name ++ [0]) 0;
    command_link h c buffer
  else Some (h, [HError "Unknown command %s" msg]).

(** ** The callback *)

(** A message of the service by its type. *)
Inductive hevent :=
  | HvSocket (m : socket_message)                              (* PTYPE_SOCKET *)
  | HvHarbor (session source : Z) (msg : list Z)               (* PTYPE_HARBOR *)
  | HvSystem (session source : Z) (rmsg : remote_message)      (* PTYPE_SYSTEM *)
  | HvOther (type session source : Z).

Definition socket_event (h : harbor) (m : socket_message) : option (harbor * list heffect) :=
  match sm_type m with
  | SOCKET_DATA =>
      '(h, e) ← push_socket_data h m;
      Some (h, e ++ [HFreeData (default [] (sm_buffer m))])
  | SOCKET_ERROR | SOCKET_CLOSE =>
      id ← harbor_id h (sm_id m);
      Some (h, if negb (id =? 0) then report_harbor_down h id else [HError "Unkown fd (%d) closed" [sm_id m]])
  | SOCKET_CONNECT => Some (h, [])
  | SOCKET_WARNING =>
      id ← harbor_id h (sm_id m);
      Some (h, if negb (id =? 0) then [HError "message havn't send to Harbor (%d) reach %d K" [id; sm_ud m]] else [])
  | SOCKET_ACCEPT | SOCKET_UDP => Some (h, [HError "recv invalid socket message type %d" [PTYPE_SOCKET]])
  end.

(** The callback always returns 0. *)
Definition mainloop (h : harbor) (ev : hevent) : option (harbor * list heffect) :=
  match ev with
  | HvSocket m => socket_event h m
  | HvHarbor session source msg => harbor_command h msg session source
  | HvSystem session source rmsg =>
      '(h, e, kept) ←
        (if rm_handle rmsg =? 0 then
           remote_send_name h source (rm_name rmsg) (rm_type rmsg) session (rm_message rmsg) (rm_sz rmsg)
         else remote_send_handle h source (rm_handle rmsg) (rm_type rmsg) session (rm_message rmsg) (rm_sz rmsg));
      Some (h, if negb (kept =? 0) then e else e ++ [HFree (rm_message rmsg)])
  | HvOther type session source =>
      Some (h, HError "recv invalid message from %x,  type = %d" [source; type] ::
               (if negb (session =? 0) && negb (type =? PTYPE_ERROR) then [HSend 0 source PTYPE_ERROR session Null] else []))
  end.

(** The harbor and what [harbor_init] returns. *)
Definition harbor_init (h : harbor) (args : list Z) : harbor * list heffect * Z :=
  let '(id, slave) :=
    match scan_d args with
    | None => (0, 0)
    | Some (id, r) => (id, match scan_u r with Some (slave, _) => slave | None => 0 end)
    end in
  if slave =? 0 then (h, [], 1) else (mk_harbor id slave (hb_map h) (hb_s h), [HRegister], 0).

(** A sequence of messages. *)
Fixpoint harbor_run (h : harbor) (evs : list hevent) : option (harbor * list heffect) :=
  match evs with
  | [] => Some (h, [])
  | ev :: evs' => '(h, e) ← mainloop h ev; '(h, e') ← harbor_run h evs'; Some (h, e ++ e')
  end.
End service.
