(* ===== verification/HarborProof.v ===== *)
(** * The parts of the harbor service

    The ring of a queue is a list, the chained hash a map from names, and the
    headers of messages are numbers in big-endian order. *)

From Stdlib Require Import ZArith Lia.
From stdpp Require Import base tactics option numbers gmap list strings.
From S2P Require Import Prelude MessageQueue HandleStorage Netpack Libc Server HarborService.

#[global] Arguments queue_fuel : simpl never.
#[global] Arguments hash_new : simpl never.

(** ** Queues *)

(** The index of the [i]th message. *)
Definition ring_at (q : harbor_msg_queue) (i : nat) : nat := Z.to_nat ((hq_head q + Z.of_nat i) mod hq_size q).

Record hq_repr (q : harbor_msg_queue) (l : list harbor_msg) : Prop := mk_hq_repr {
  hqr_size : ∃ k, 10 <= k <= 30 ∧ hq_size q = 2 ^ k;
  hqr_data : Z.of_nat (length (hq_data q)) = hq_size q;
  hqr_head : 0 <= hq_head q < hq_size q;
  hqr_len : Z.of_nat (length l) < hq_size q;
  hqr_tail : hq_tail q = (hq_head q + Z.of_nat (length l)) mod hq_size q;
  hqr_cells : ∀ i m, l !! i = Some m → hq_data q !! ring_at q i = Some (Some m)
}.

(** The most messages a queue can hold. *)
Definition QUEUE_MAX : Z := 2 ^ 30 - 1.

Lemma pow2_bounds k : 10 <= k <= 30 → 1024 <= 2 ^ k <= 2 ^ 30.
Proof.
  intros Hk. split; [change 1024 with (2 ^ 10)|]; apply Z.pow_le_mono_r; lia.
Qed.

Lemma hq_size_bounds q l : hq_repr q l → 1024 <= hq_size q <= 2 ^ 30.
Proof. intros [(k & Hk & ->) ]. by apply pow2_bounds. Qed.

Lemma mod_wrap a s : 0 <= a < 2 * s → a mod s = if a <? s then a else a - s.
Proof.
  intros Ha. destruct (Z.ltb_spec a s); [apply Z.mod_small; lia|].
  replace a with (a - s + 1 * s) at 1 by lia. rewrite Z_mod_plus_full. apply Z.mod_small. lia.
Qed.

Lemma mod_inj s h i j : 0 <= h < s → 0 <= i < s → 0 <= j < s → (h + i) mod s = (h + j) mod s → i = j.
Proof. intros. rewrite !mod_wrap in * by lia. zcases; revert H2; zcases; lia. Qed.

Lemma ring_at_inj q l i j : hq_repr q l → Z.of_nat i < hq_size q → Z.of_nat j < hq_size q → ring_at q i = ring_at q j → i = j.
Proof.
  intros Hq Hi Hj E. pose proof (hqr_head _ _ Hq). pose proof (hq_size_bounds _ _ Hq). unfold ring_at in E.
  apply Z2Nat.inj in E; [|apply Z.mod_pos_bound; lia..]. apply (mod_inj (hq_size q)) in E; lia.
Qed.

Lemma hq_new_repr : hq_repr new_queue [].
Proof.
  split; cbn [new_queue hq_size hq_data hq_head hq_tail length]; try done.
  - exists 10. done.
Qed.

(** A message put behind the last one. *)
Lemma ring_set q l m : hq_repr q l → Z.of_nat (length l) + 1 < hq_size q →
  ∃ q', (data ← arr_set (hq_data q) (hq_tail q) (Some m);
         Some (mk_hqueue (hq_size q) (hq_head q) ((hq_tail q + 1) mod hq_size q) data)) = Some q' ∧ hq_repr q' (l ++ [m]).
Proof.
  intros Hq Hlen. pose proof (hq_size_bounds _ _ Hq) as Hsz. pose proof Hq as [Hk Hd Hh Hl Ht Hc].
  assert (0 <= hq_tail q < hq_size q) by (rewrite Ht; apply Z.mod_pos_bound; lia).
  rewrite arr_set_some by lia. simpl. eexists. split; [done|]. split; simpl; try done.
  - by rewrite length_insert.
  - rewrite length_app. simpl. lia.
  - rewrite Ht, length_app. simpl. rewrite Z.add_mod_idemp_l by lia. f_equal. lia.
  - intros i x Hi. assert (Htl : Z.to_nat (hq_tail q) = ring_at q (length l)) by (unfold ring_at; by rewrite Ht).
    unfold ring_at in *. simpl. apply lookup_app_Some in Hi as [Hi|[Hge Hi]].
    + rewrite list_lookup_insert_ne; [by apply Hc|]. rewrite Htl. intros E.
      apply lookup_lt_Some in Hi. assert (length l = i); [|lia]. eapply (ring_at_inj q l); [done|lia|lia|done].
    + apply list_lookup_singleton_Some in Hi as [Hi <-]. replace i with (length l) by lia. rewrite Htl.
      apply list_lookup_insert_eq. rewrite <- Htl. lia.
Qed.

Lemma hq_copy_ok q l n i : hq_repr q l → 0 <= i → Z.of_nat n + i <= hq_size q →
  ∃ cells, copy_ring n i q = Some cells ∧ length cells = n ∧
    ∀ j, (j < n)%nat → cells !! j = hq_data q !! ring_at q (Z.to_nat i + j).
Proof.
  intros Hq. revert i. induction n as [|n IH]; intros i Hi Hn; [exists []; split_and!; [done..|lia]|].
  pose proof (hq_size_bounds _ _ Hq) as Hsz. pose proof (hqr_data _ _ Hq) as Hd.
  assert (Hm : 0 <= (i + hq_head q) mod hq_size q < hq_size q) by (apply Z.mod_pos_bound; lia).
  destruct (arr_get_some (hq_data q) ((i + hq_head q) mod hq_size q)) as [c Hc]; [lia|].
  destruct (IH (i + 1)) as (cells & E & Hlen & Hj); [lia..|]. cbn [copy_ring]. rewrite Hc. simpl. rewrite E. simpl.
  eexists. split; [done|]. split; [simpl; lia|]. intros [|j] Hlt; simpl.
  - rewrite arr_get_lookup in Hc by lia. rewrite <- Hc. unfold ring_at. do 2 f_equal. f_equal. lia.
  - rewrite Hj by lia. f_equal. unfold ring_at. f_equal. f_equal. lia.
Qed.

Lemma expand_ok q l : hq_repr q l → Z.of_nat (length l) = hq_size q - 1 → Z.of_nat (length l) < QUEUE_MAX →
  ∃ q', expand_queue q = Some q' ∧ hq_repr q' l ∧ Z.of_nat (length l) + 1 < hq_size q'.
Proof.
  intros Hq Hl Hmax. pose proof (hq_size_bounds _ _ Hq) as Hsz. pose proof Hq as [(k & Hk & Hs) Hd Hh _ Ht Hc].
  assert (Hk29 : k <= 29). { destruct (decide (k = 30)) as [->|]; [|lia]. unfold QUEUE_MAX in Hmax. lia. }
  assert (H2 : hq_size q * 2 = 2 ^ (k + 1)) by (rewrite Z.pow_add_r; lia). pose proof (pow2_bounds (k + 1) ltac:(lia)) as Hb.
  destruct (hq_copy_ok q l (Z.to_nat (hq_size q - 1)) 0 Hq) as (cells & E & Hlen & Hcells); [lia..|].
  unfold expand_queue. rewrite chk32_some by (unfold INT_MIN, INT_MAX; lia). simpl. rewrite E. simpl.
  eexists. split; [done|]. split; [|simpl; lia]. split; simpl.
  - exists (k + 1). split; [lia|done].
  - rewrite length_app, length_replicate, Hlen. lia.
  - lia.
  - lia.
  - rewrite Z.mod_small; lia.
  - intros i m Hi. pose proof (lookup_lt_Some _ _ _ Hi) as Hlt.
    match goal with |- _ !! ?r = _ => replace r with i by (unfold ring_at; simpl; rewrite Z.mod_small; lia) end.
    rewrite lookup_app_l by lia. rewrite Hcells by lia. by apply Hc.
Qed.

Lemma hq_push_ok q l m : hq_repr q l → Z.of_nat (length l) < QUEUE_MAX →
  ∃ q', push_queue_msg q m = Some q' ∧ hq_repr q' (l ++ [m]).
Proof.
  intros Hq Hmax. pose proof (hq_size_bounds _ _ Hq) as Hsz. unfold push_queue_msg. pose proof Hq as [_ _ Hh Hl Ht _].
  assert (Hfull : (hq_tail q + 1) mod hq_size q = hq_head q ↔ Z.of_nat (length l) = hq_size q - 1).
  { rewrite Ht, Z.add_mod_idemp_l, mod_wrap by lia. zcases; lia. }
  destruct (Z.eqb_spec ((hq_tail q + 1) mod hq_size q) (hq_head q)) as [E|E].
  - destruct (expand_ok q l Hq) as (q1 & -> & Hq1 & Hr); [by apply Hfull|done|]. simpl. by apply ring_set.
  - simpl. apply ring_set; [done|]. rewrite Hfull in E. lia.
Qed.

Lemma hq_pop_empty q : hq_repr q [] → pop_queue q = Some (None, q).
Proof.
  intros [_ _ Hh _ Ht _]. unfold pop_queue. rewrite Ht. simpl. rewrite Z.add_0_r, Z.mod_small, Z.eqb_refl by lia. done.
Qed.

Lemma pop_cons q m l : hq_repr q (m :: l) → ∃ q', pop_queue q = Some (Some m, q') ∧ hq_repr q' l ∧ hq_size q' = hq_size q.
Proof.
  intros Hq. pose proof (hq_size_bounds _ _ Hq) as Hsz. pose proof Hq as [Hk Hd Hh Hl Ht Hc]. simpl in Hl, Ht. unfold pop_queue.
  assert (hq_head q ≠ hq_tail q) by (rewrite Ht, mod_wrap by lia; zcases).
  rewrite (proj2 (Z.eqb_neq _ _)) by done.
  pose proof (Hc 0%nat m eq_refl) as H0. unfold ring_at in H0. rewrite Z.add_0_r, Z.mod_small in H0 by lia.
  rewrite arr_get_lookup, H0 by lia. simpl. eexists. split; [done|]. split; [|done]. split; simpl; try done.
  - apply Z.mod_pos_bound. lia.
  - lia.
  - rewrite Ht, Z.add_mod_idemp_l by lia. f_equal. lia.
  - intros i x Hi. specialize (Hc (S i) x Hi). rewrite <- Hc. unfold ring_at. simpl. rewrite Z.add_mod_idemp_l by lia.
    do 3 f_equal. lia.
Qed.

(** A loop over a queue is a fold over its messages. *)
Lemma while_pop_ok {A} (body : A → harbor_msg → option A) (R : A → list harbor_msg → Prop) fuel a q l :
  hq_repr q l → (length l < fuel)%nat → R a l →
  (∀ a m l, R a (m :: l) → ∃ a', body a m = Some a' ∧ R a' l) →
  ∃ a' q', while_pop fuel body a q = Some (a', q') ∧ R a' [] ∧ hq_repr q' [].
Proof.
  intros Hq Hf HR Hbody. revert a q l Hq Hf HR. induction fuel as [|f IH]; intros a q l Hq Hf HR; [lia|]. cbn [while_pop].
  destruct l as [|m l].
  - rewrite hq_pop_empty by done. simpl. eauto.
  - destruct (pop_cons q m l Hq) as (q' & -> & Hq' & _). simpl. destruct (Hbody a m l HR) as (a' & -> & HR'). simpl.
    apply (IH a' q' l); [done| |done]. simpl in Hf. lia.
Qed.

(** The loops whose body appends effects. *)
Lemma while_pop_effects (body : list heffect → harbor_msg → option (list heffect)) (f : harbor_msg → list heffect) (P : harbor_msg → Prop) q l :
  (∀ e m, P m → body e m = Some (e ++ f m)) → hq_repr q l → Forall P l →
  ∃ q', while_pop (queue_fuel q) body [] q = Some (concat (f <$> l), q') ∧ hq_repr q' [].
Proof.
  intros Hb Hq HP. pose proof (hq_size_bounds _ _ Hq) as Hsz. pose proof (hqr_len _ _ Hq) as Hl.
  destruct (while_pop_ok body (λ e r, Forall P r ∧ e ++ concat (f <$> r) = concat (f <$> l)) (queue_fuel q) [] q l)
    as (e & q' & E & [_ He] & Hq'); [done|unfold queue_fuel; lia|done| |].
  - intros e m r [Hr He]. inversion Hr as [|?? Hm Hr']; subst. exists (e ++ f m). split; [by apply Hb|]. split; [done|].
    rewrite <- He. simpl. by rewrite app_assoc.
  - exists q'. split; [|done]. rewrite E. do 2 f_equal. simpl in He. by rewrite app_nil_r in He.
Qed.

Definition opt_repr (q : option harbor_msg_queue) (l : list harbor_msg) : Prop :=
  match q with None => l = [] | Some q => hq_repr q l end.

Definition frees (l : list harbor_msg) : list heffect := (λ m, HFree (hm_buffer m)) <$> l.

Lemma concat_singles {A B} (f : A → B) l : concat ((λ x, [f x]) <$> l) = f <$> l.
Proof. induction l as [|x l IH]; [done|]. cbn. f_equal. exact IH. Qed.

Lemma release_ok q l : opt_repr q l → release_queue q = Some (frees l).
Proof.
  destruct q as [q|]; [|by intros ->]. intros Hq. unfold release_queue.
  destruct (while_pop_effects (λ e m, Some (e ++ [HFree (hm_buffer m)])) (λ m, [HFree (hm_buffer m)]) (λ _, True) q l)
    as (q' & -> & _); [done|done|by apply Forall_true|]. simpl. by rewrite concat_singles.
Qed.

(** All messages of one queue moved to another. *)
Lemma move_ok sq p q l : hq_repr sq p → hq_repr q l → Z.of_nat (length (p ++ l)) <= QUEUE_MAX →
  ∃ sq' q', while_pop (queue_fuel q) push_queue_msg sq q = Some (sq', q') ∧ hq_repr sq' (p ++ l) ∧ hq_repr q' [].
Proof.
  intros Hp Hq Hmax. pose proof (hqr_len _ _ Hq). pose proof (hq_size_bounds _ _ Hq).
  destruct (while_pop_ok push_queue_msg (λ sq r, ∃ d, l = d ++ r ∧ hq_repr sq (p ++ d)) (queue_fuel q) sq q l)
    as (sq' & q' & E & (d & Hd & Hsq) & Hq'); [done|unfold queue_fuel; lia|exists []; by rewrite app_nil_r| |].
  - intros sq1 m r (d & -> & Hd). destruct (hq_push_ok sq1 (p ++ d) m Hd) as (sq2 & E2 & Hsq2).
    { rewrite !length_app in *. simpl in *. lia. }
    exists sq2. split; [done|]. exists (d ++ [m]). split; [by rewrite <- app_assoc|]. by rewrite app_assoc.
  - rewrite app_nil_r in Hd. subst. eauto.
Qed.

Lemma opt_push q l m : opt_repr q l → Z.of_nat (length l) < QUEUE_MAX →
  ∃ q', push_queue_msg (default new_queue q) m = Some q' ∧ hq_repr q' (l ++ [m]).
Proof.
  intros Hq Hl. apply hq_push_ok; [|done]. destruct q as [q|]; simpl in *; [done|]. subst. apply hq_new_repr.
Qed.

(** ** Names *)

Definition is_zero (x : Z) : bool := x =? 0.

(** A name in an array: the text and zeros. *)
Fixpoint padded (l : list Z) : bool :=
  match l with
  | [] => true
  | x :: l' => if x =? 0 then forallb is_zero l' else padded l'
  end.

Definition is_name (name : list Z) : Prop := length name = 16%nat ∧ padded name = true.

Lemma zeros_eq a b : length a = length b → forallb is_zero a = true → forallb is_zero b = true → a = b.
Proof.
  revert b. induction a as [|x a IH]; intros [|y b] Hl Ha Hb; simpl in *; try done. apply andb_true_iff in Ha as [Hx Ha], Hb as [Hy Hb].
  unfold is_zero in Hx, Hy. bool_to_prop. subst. f_equal. apply IH; [lia|done..].
Qed.

Lemma strncmp_names n a b : length a = n → length b = n → padded a = true → padded b = true →
  strncmp_eq n a b = Some (bool_decide (a = b)).
Proof.
  revert a b. induction n as [|n IH]; intros [|x a] [|y b] Ha Hb Pa Pb; simpl in *; try done.
  destruct (Z.eqb_spec x y) as [->|Hne]; simpl; [|rewrite bool_decide_eq_false_2; congruence].
  destruct (y =? 0).
  - rewrite bool_decide_eq_true_2; [done|]. f_equal. apply zeros_eq; [lia|done..].
  - rewrite IH by (lia || done). f_equal. apply bool_decide_ext. split; [by intros ->|congruence].
Qed.

(** The node of a name, and a chain with the nodes of its names. *)
Definition chain_ok (b : Z) (c : list keyvalue) : Prop :=
  Forall (λ n, is_name (kv_key n) ∧ kv_hash n = name_hash (kv_key n) ∧ name_hash (kv_key n) mod HASH_SIZE = b) c.

Definition has_key (name : list Z) (n : keyvalue) : Prop := kv_key n = name.
#[global] Instance has_key_dec name n : Decision (has_key name n).
Proof. unfold has_key. apply _. Defined.

Definition bucket (name : list Z) : Z := name_hash name mod HASH_SIZE.

Definition node_of (hash : hashmap) (name : list Z) : option keyvalue :=
  c ← arr_get hash (bucket name); snd <$> list_find (has_key name) c.

(** A name has a queue only when messages wait for it. *)
Definition strict_repr (q : option harbor_msg_queue) (l : list harbor_msg) : Prop :=
  match q with None => l = [] | Some q => hq_repr q l ∧ l ≠ [] end.

Definition kv_repr (n : keyvalue) (v : Z * list harbor_msg) : Prop := kv_value n = v.1 ∧ strict_repr (kv_queue n) v.2.

Record map_repr (hash : hashmap) (names : gmap (list Z) (Z * list harbor_msg)) : Prop := mk_map_repr {
  mr_len : Z.of_nat (length hash) = HASH_SIZE;
  mr_chain : ∀ b c, arr_get hash b = Some c → chain_ok b c;
  mr_node : ∀ name, is_name name → option_Forall2 kv_repr (node_of hash name) (names !! name);
  mr_names : ∀ name, is_Some (names !! name) → is_name name
}.

Lemma name_bucket_range name : 0 <= bucket name < HASH_SIZE.
Proof. apply Z.mod_pos_bound. done. Qed.

Lemma search_chain_ok b c name pos : chain_ok b c → is_name name →
  search_chain c (name_hash name) name pos = Some ((λ r, (pos + r.1)%nat) <$> list_find (has_key name) c).
Proof.
  intros Hc Hn. revert pos. induction Hc as [|n c (Hk & Hh & _) _ IH]; intros pos; [done|]. cbn [search_chain list_find].
  unfold has_key at 1. destruct (decide (kv_key n = name)) as [<-|Hne].
  - rewrite Hh, Z.eqb_refl. rewrite strncmp_names by (apply Hk || apply Hn || done). rewrite bool_decide_eq_true_2 by done. simpl.
    f_equal. f_equal. lia.
  - assert (Hrest : search_chain c (name_hash name) name (S pos) =
      Some ((λ r, (pos + r.1)%nat) <$> (prod_map S id <$> list_find (has_key name) c))).
    { rewrite IH. destruct (list_find (has_key name) c) as [[i x]|]; [|done]. simpl. do 2 f_equal. lia. }
    destruct (kv_hash n =? name_hash name); [|done]. destruct Hk, Hn. rewrite strncmp_names by done.
    by rewrite bool_decide_eq_false_2.
Qed.

(** [p] is the address of the node of [name]. *)
Definition points (hash : hashmap) (p : kv_ptr) (name : list Z) (n : keyvalue) : Prop :=
  p.1 = bucket name ∧ ∃ c, arr_get hash p.1 = Some c ∧ list_find (has_key name) c = Some (p.2, n).

Lemma points_get hash p name n : points hash p name n → node_get hash p = Some n ∧ kv_key n = name ∧ node_of hash name = Some n.
Proof.
  intros (Hp & c & Hc & Hf). unfold node_get, node_of. rewrite <- Hp, Hc. simpl. rewrite Hf.
  by apply list_find_Some in Hf as (? & ? & _).
Qed.

Lemma arr_get_after {A} (l l' : list A) i j x : arr_set l i x = Some l' →
  arr_get l' j = if decide (j = i) then Some x else arr_get l j.
Proof.
  unfold arr_set. destruct (_ && _) eqn:E; [|done]. intros [= <-]. bool_to_prop. unfold arr_get.
  case_decide as Hj; [subst; zcases; rewrite list_lookup_insert_eq by lia; done|].
  destruct (Z.leb_spec 0 j); [|done]. by rewrite list_lookup_insert_ne by lia.
Qed.

(** A chain replaced by one that differs in the node of one name. *)
Lemma map_repr_chain hash hash' names name c c' n' v :
  map_repr hash names → is_name name → arr_get hash (bucket name) = Some c → arr_set hash (bucket name) c' = Some hash' →
  chain_ok (bucket name) c' → snd <$> list_find (has_key name) c' = Some n' → kv_repr n' v →
  (∀ name', name' ≠ name → snd <$> list_find (has_key name') c' = snd <$> list_find (has_key name') c) →
  map_repr hash' (<[name := v]> names).
Proof.
  intros [Hl Hch Hno Hna] Hn Hc Hset Hok Hf Hv Hother. pose proof (λ j, arr_get_after _ _ _ j _ Hset) as Hget. split.
  - unfold arr_set in Hset. destruct (_ && _); [|done]. injection Hset as <-. by rewrite length_insert.
  - intros b d. rewrite Hget. case_decide; [intros [= <-]; by subst|apply Hch].
  - intros m Hm. destruct (decide (m = name)) as [->|Hne].
    + rewrite lookup_insert_eq. unfold node_of. rewrite Hget, decide_True by done. simpl. rewrite Hf. by constructor.
    + rewrite lookup_insert_ne by done. unfold node_of. rewrite Hget. specialize (Hno m Hm). unfold node_of in Hno.
      case_decide as Hb; [|done]. rewrite Hb, Hc in Hno. simpl in *. by rewrite Hother.
  - intros m. destruct (decide (m = name)) as [->|Hne]; [done|]. rewrite lookup_insert_ne by done. apply Hna.
Qed.

Lemma find_insert_other (c : list keyvalue) i n n' name name' : c !! i = Some n → kv_key n = name → kv_key n' = name →
  name' ≠ name → snd <$> list_find (has_key name') (<[i := n']> c) = snd <$> list_find (has_key name') c.
Proof.
  revert i. induction c as [|x c IH]; intros i Hi Hn Hn' Hne; [done|]. destruct i as [|i]; simpl in *.
  - injection Hi as ->. unfold has_key. rewrite !decide_False by congruence. done.
  - case_decide; [done|]. rewrite <- !option_fmap_compose. specialize (IH i Hi Hn Hn' Hne).
    destruct (list_find _ (<[i:=n']> c)) as [[]|], (list_find _ c) as [[]|]; simpl in *; congruence.
Qed.

Lemma find_insert_same (c : list keyvalue) i n n' name : list_find (has_key name) c = Some (i, n) → kv_key n' = name →
  list_find (has_key name) (<[i := n']> c) = Some (i, n').
Proof.
  intros (Hi & Hk & Hfirst)%list_find_Some Hk'. apply list_find_Some. pose proof (lookup_lt_Some _ _ _ Hi). split_and!.
  - by apply list_lookup_insert_eq.
  - done.
  - intros j y Hj Hlt. rewrite list_lookup_insert_ne in Hj by lia. eauto.
Qed.

Lemma node_set_ok hash names p name n n' v : map_repr hash names → is_name name → points hash p name n →
  kv_key n' = name → kv_hash n' = name_hash name → kv_repr n' v →
  ∃ hash', node_set hash p n' = Some hash' ∧ map_repr hash' (<[name := v]> names) ∧ points hash' p name n'.
Proof.
  intros Hm Hn (Hp & c & Hc & Hf) Hk Hh Hv. pose proof (name_bucket_range name) as Hb. rewrite Hp in Hc.
  assert (Hset : arr_set hash (bucket name) (<[p.2 := n']> c) = Some (<[Z.to_nat (bucket name) := <[p.2 := n']> c]> hash)).
  { apply arr_set_some. rewrite (mr_len _ _ Hm). lia. }
  pose proof (find_insert_same _ _ _ _ _ Hf Hk) as Hf'. pose proof Hf as (Hi & Hkn & _)%list_find_Some.
  unfold node_set. rewrite Hp, Hc. simpl. rewrite Hi. simpl. eexists. split; [exact Hset|]. split.
  - eapply (map_repr_chain _ _ _ name); [done..| | |done|].
    + apply Forall_insert; [by apply (mr_chain _ _ Hm)|]. by rewrite Hk.
    + by rewrite Hf'.
    + intros name' Hne. by apply (find_insert_other _ _ n _ name).
  - split; [done|]. exists (<[p.2 := n']> c). split; [|done]. by rewrite Hp, (arr_get_after _ _ _ _ _ Hset), decide_True.
Qed.

(** Stores to one node, one after the other. *)
Lemma node_set_some hash p name n n' : points hash p name n → kv_key n' = name →
  ∃ hash', node_set hash p n' = Some hash' ∧ points hash' p name n' ∧ ∀ n2, node_set hash' p n2 = node_set hash p n2.
Proof.
  unfold hashmap in *. intros (Hp & c & Hc & Hf) Hk. pose proof Hf as (Hi & _)%list_find_Some. pose proof (lookup_lt_Some _ _ _ Hi) as Hlt.
  assert (Hb : 0 <= p.1 < Z.of_nat (length hash)).
  { pose proof (name_bucket_range name). rewrite arr_get_lookup in Hc by lia. apply lookup_lt_Some in Hc. lia. }
  assert (Hset : ∀ x, arr_set hash p.1 x = Some (<[Z.to_nat p.1 := x]> hash)) by (intros; by apply arr_set_some).
  unfold node_set. rewrite Hc. cbn [mbind option_bind]. rewrite Hi. cbn [mbind option_bind]. rewrite Hset. eexists. split; [done|].
  assert (Hg : arr_get (<[Z.to_nat p.1 := <[p.2 := n']> c]> hash) p.1 = Some (<[p.2 := n']> c)).
  { by rewrite (arr_get_after _ _ _ _ _ (Hset _)), decide_True. }
  split; [split; [done|]; exists (<[p.2 := n']> c); split; [done|]; by apply (find_insert_same c p.2 n)|]. intros n2.
  rewrite Hg. cbn [mbind option_bind].
  rewrite list_lookup_insert_eq by done. cbn [mbind option_bind]. rewrite Hset.
  assert (Hb' : 0 <= p.1 < Z.of_nat (length (<[Z.to_nat p.1 := <[p.2 := n']> c]> hash))) by by rewrite length_insert.
  rewrite (arr_set_some _ _ _ Hb'). by rewrite !list_insert_insert_eq.
Qed.

(** The value of a name, 0 and no messages for one that was never used. *)
Definition name_val (names : gmap (list Z) (Z * list harbor_msg)) (name : list Z) : Z * list harbor_msg := default (0, []) (names !! name).

Lemma search_insert_ok hash names name : map_repr hash names → is_name name →
  ∃ p hash' n, search_insert hash name = Some (p, hash') ∧ map_repr hash' (<[name := name_val names name]> names) ∧
    points hash' p name n ∧ kv_repr n (name_val names name) ∧ kv_hash n = name_hash name.
Proof.
  intros Hm Hn. pose proof (name_bucket_range name) as Hb. pose proof (mr_len _ _ Hm) as Hl.
  destruct (arr_get_some hash (bucket name)) as [c Hc]; [lia|]. pose proof (mr_chain _ _ Hm _ _ Hc) as Hok.
  pose proof (mr_node _ _ Hm name Hn) as Hno. unfold node_of in Hno. rewrite Hc in Hno. simpl in Hno.
  unfold search_insert, hash_search. fold (bucket name). rewrite Hc. simpl. rewrite (search_chain_ok (bucket name)) by done.
  unfold name_val. destruct (list_find (has_key name) c) as [[i n]|] eqn:Hf; simpl in *.
  - inversion Hno as [?? Hkv Hv|]; subst. exists (bucket name, i), hash, n. simpl. split; [done|]. rewrite insert_id by done.
    split; [done|]. split; [split; [done|]; exists c; by split|]. split; [done|].
    apply list_find_Some in Hf as (Hi & Hk & _). unfold has_key in Hk. rewrite <- Hk. eapply Forall_lookup_1 in Hok; [|done]. naive_solver.
  - inversion Hno as [|Hv]; subst. unfold hash_insert. fold (bucket name). rewrite Hc. simpl.
    set (n := mk_kv (take (Z.to_nat GLOBALNAME_LENGTH) name) (name_hash name) 0 None).
    assert (Hkn : kv_key n = name) by (apply firstn_all2; destruct Hn as [-> _]; done).
    rewrite (arr_set_some hash (bucket name)) by lia. simpl.
    assert (Hset : arr_set hash (bucket name) (n :: c) = Some (<[Z.to_nat (bucket name) := n :: c]> hash)) by (apply arr_set_some; lia).
    assert (Hfn : list_find (has_key name) (n :: c) = Some (0%nat, n)) by (simpl; by rewrite decide_True).
    exists (bucket name, 0%nat), (<[Z.to_nat (bucket name) := n :: c]> hash), n. split; [done|]. split; [|split].
    + eapply (map_repr_chain hash _ _ name c (n :: c) n); [done..| | |by split|].
      * constructor; [by rewrite Hkn|done].
      * by rewrite Hfn.
      * intros name' Hne. simpl. rewrite decide_False by (unfold has_key; congruence).
        rewrite <- option_fmap_compose. by destruct (list_find _ c) as [[]|].
    + split; [done|]. exists (n :: c). split; [|done]. simpl. by rewrite (arr_get_after _ _ _ _ _ Hset), decide_True.
    + by split.
Qed.

Lemma hash_new_repr : map_repr hash_new ∅.
Proof.
  assert (Hc : ∀ b c, arr_get hash_new b = Some c → c = []).
  { intros b c. unfold arr_get, hash_new. destruct (0 <=? b); [|done]. by intros [-> _]%lookup_replicate. }
  split.
  - done.
  - intros b c ->%Hc. constructor.
  - intros name _. unfold node_of. destruct (arr_get hash_new (bucket name)) as [c|] eqn:E; [|constructor].
    apply Hc in E as ->. constructor.
  - intros name [v Hv]. by rewrite lookup_empty in Hv.
Qed.

(** ** Headers *)

(** The number with the bytes [l], most significant first. *)
Definition be_val (l : list Z) : Z := foldl (λ a b, a * 256 + b) 0 l.

Lemma to_bigendian_div n : to_bigendian n = [n / 2 ^ 24 mod 256; n / 2 ^ 16 mod 256; n / 2 ^ 8 mod 256; n mod 256].
Proof.
  unfold to_bigendian. change 255 with (2 ^ 8 - 1). rewrite !land_ones_mod, !Z.shiftr_div_pow2 by lia. reflexivity.
Qed.

Lemma to_bigendian_bytes n : Forall is_byte (to_bigendian n).
Proof. rewrite to_bigendian_div. repeat constructor; apply Z.mod_pos_bound; lia. Qed.

Lemma to_bigendian_length n : length (to_bigendian n) = 4%nat.
Proof. done. Qed.

Lemma be_val_bigendian n : 0 <= n < 2 ^ 32 → be_val (to_bigendian n) = n.
Proof. intros Hn. rewrite to_bigendian_div. unfold be_val. cbn [foldl]. dlia. Qed.

Lemma from_bigendian_val l : length l = 4%nat → Forall is_byte l → from_bigendian l = Some (be_val l).
Proof.
  intros Hl Hb. destruct l as [|b0 [|b1 [|b2 [|b3 [|]]]]]; try done.
  repeat match goal with H : Forall _ (_ :: _) |- _ => inversion H; clear H; subst end. unfold is_byte in *.
  unfold from_bigendian, be_val. cbn [foldl]. rewrite <- !Z.lor_assoc.
  rewrite (lor_shiftl_add b2 b3), (lor_shiftl_add b1), (lor_shiftl_add b0) by lia.
  rewrite u32_small by lia. f_equal. lia.
Qed.

Lemma size_bytes_val b1 b2 b3 : is_byte b1 → is_byte b2 → is_byte b3 →
  Z.lor (Z.lor (Z.shiftl b1 16) (Z.shiftl b2 8)) b3 = be_val [0; b1; b2; b3].
Proof.
  unfold is_byte. intros. rewrite <- Z.lor_assoc, (lor_shiftl_add b2 b3), (lor_shiftl_add b1) by lia. unfold be_val. cbn [foldl]. lia.
Qed.

Lemma be_val_range l : Forall is_byte l → 0 <= be_val l < 256 ^ Z.of_nat (length l).
Proof.
  unfold be_val. induction l as [|b l IH] using rev_ind; intros H; [done|]. apply Forall_app in H as [Hl Hb].
  rewrite Forall_singleton in Hb. unfold is_byte in Hb. specialize (IH Hl). rewrite foldl_app. simpl.
  replace (Z.of_nat (length (l ++ [b]))) with (Z.succ (Z.of_nat (length l))) by (rewrite length_app; simpl; lia).
  rewrite Z.pow_succ_r by lia. lia.
Qed.

(** What the receiving node does with the content of a message. *)
Definition deliver (known : Z → bool) (id : Z) (content : list Z) : list heffect :=
  let k := (length content - 12)%nat in
  let cookie := drop k content in
  let src := be_val (take 4 cookie) in
  let dst := be_val (take 4 (drop 4 cookie)) in
  let ses := i32 (be_val (drop 8 cookie)) in
  let type := dst / 2 ^ 24 in
  let destination := id * 2 ^ 24 + dst mod 2 ^ 24 in
  HSend src destination (Z.lor type PTYPE_TAG_DONTCOPY) ses (Bytes (take k content)) ::
  (if send_result known destination ses <? 0 then
     (if type =? PTYPE_ERROR then [] else [HSend destination src PTYPE_ERROR ses Null]) ++
     [HError "Unknown destination :%x from :%x type(%d)" [destination; src; type]]
   else []).

Lemma message_to_header_val c : length c = 12%nat → Forall is_byte c →
  message_to_header c = Some (mk_header (be_val (take 4 c)) (be_val (take 4 (drop 4 c))) (be_val (drop 8 c))).
Proof.
  intros Hl Hb. unfold message_to_header.
  rewrite !from_bigendian_val by (rewrite ?length_take, ?length_drop; lia || auto using Forall_take, Forall_drop). simpl.
  rewrite (firstn_all2 (drop 8 c)) by (rewrite length_drop; lia). done.
Qed.

Lemma lor_mask_harbor d id : 0 <= d → 0 <= id < 256 →
  Z.lor (Z.land d HANDLE_MASK) (u32 (Z.shiftl id HANDLE_REMOTE_SHIFT)) = id * 2 ^ 24 + d mod 2 ^ 24.
Proof.
  intros Hd Hid. unfold HANDLE_MASK, HANDLE_REMOTE_SHIFT. change 16777215 with (2 ^ 24 - 1). rewrite land_ones_mod by lia.
  rewrite u32_small by (rewrite Z.shiftl_mul_pow2; lia). rewrite Z.lor_comm. apply lor_shiftl_add; [lia|]. apply Z.mod_pos_bound. lia.
Qed.

Lemma forward_local_ok known h content : 0 <= hb_id h < 256 → Forall is_byte content → 12 <= Z.of_nat (length content) →
  forward_local_messsage known h (Some <$> content) (Z.of_nat (length content)) = Some (deliver known (hb_id h) content).
Proof.
  intros Hid Hb Hl. unfold forward_local_messsage, HEADER_COOKIE_LENGTH. zcases. simpl c_assert. cbn [mbind option_bind].
  replace (Z.to_nat (Z.of_nat (length content) - 12)) with (length content - 12)%nat by lia.
  rewrite <- fmap_drop, <- fmap_take, !mapM_written. cbn [mbind option_bind].
  assert (Hc : length (drop (length content - 12) content) = 12%nat) by (rewrite length_drop; lia).
  assert (Hcb : Forall is_byte (drop (length content - 12) content)) by by apply Forall_drop.
  rewrite message_to_header_val by done. cbn [mbind option_bind hd_source hd_destination hd_session].
  assert (Hd : 0 <= be_val (take 4 (drop 4 (drop (length content - 12) content)))) by (apply be_val_range, Forall_take, Forall_drop; done).
  rewrite lor_mask_harbor, Z.shiftr_div_pow2 by (done || lia). unfold deliver. change (2 ^ HANDLE_REMOTE_SHIFT) with (2 ^ 24).
  do 2 f_equal. destruct (send_result _ _ _ <? 0); [|done]. f_equal. by destruct (_ =? PTYPE_ERROR).
Qed.

(** ** Sending *)

Definition frame (data : list Z) (cookie : remote_message_header) : list Z :=
  to_bigendian (Z.of_nat (length data) + 12) ++ data ++ header_to_message cookie.

(** A message with its block: the data it has. *)
Definition msg_data (mem : Z → list Z) (buffer sz : Z) : list Z := take (Z.to_nat sz) (mem buffer).

Definition block_ok (mem : Z → list Z) (buffer sz : Z) : Prop := 0 <= sz <= Z.of_nat (length (mem buffer)) ∧ sz < 2 ^ 56.

Definition send_effects (mem : Z → list Z) (fd buffer sz : Z) (cookie : remote_message_header) : list heffect :=
  if 2 ^ 32 - 1 <? sz + 12 then
    [HError "remote message from :%08x to :%08x is too large." [hd_source cookie; hd_destination cookie]]
  else [HSocketSend fd (frame (msg_data mem buffer sz) cookie)].

Lemma send_remote_ok mem fd buffer sz cookie : block_ok mem buffer sz →
  send_remote mem fd buffer sz cookie = Some (send_effects mem fd buffer sz cookie).
Proof.
  intros [Hs Hmax]. unfold send_remote, send_effects, HEADER_COOKIE_LENGTH. rewrite u64_small by lia.
  destruct (_ <? sz + 12); [done|]. zcases. unfold frame, msg_data. rewrite length_take.
  by replace (Z.of_nat (Z.to_nat sz `min` length (mem buffer)) + 12) with (sz + 12) by lia.
Qed.
