(* ===== verification/HarborSpec.v ===== *)
(** * What the harbor service promises

    A link to another node is waiting for a connection, shaking hands, open or
    down, with the messages that wait for it and the bytes of a message that
    has not arrived in full; a global name is a handle, or the messages that
    wait for it.  [harbor_refines] states that the service, with its rings, its
    hash and its reader of lengths and contents, behaves so. *)

From Stdlib Require Import ZArith Lia.
From stdpp Require Import base tactics option numbers gmap list strings.
From S2P Require Import Prelude MessageQueue HandleStorage Netpack Libc Server HarborService HarborProof.

Inductive astatus := AWait | AShake | AOpen | ADown.

Record alink := mk_alink {
  l_fd : Z;
  l_status : astatus;
  l_pending : list harbor_msg;
  l_bytes : list Z
}.

Record aharbor := mk_aharbor {
  ah_id : Z;
  ah_slave : Z;
  ah_names : gmap (list Z) (Z * list harbor_msg);
  ah_links : list alink
}.

Definition get_link (a : aharbor) (id : Z) : option alink := arr_get (ah_links a) id.
Definition put_link (a : aharbor) (id : Z) (l : alink) : aharbor :=
  mk_aharbor (ah_id a) (ah_slave a) (ah_names a) (<[Z.to_nat id := l]> (ah_links a)).
Definition put_name (a : aharbor) (name : list Z) (v : Z * list harbor_msg) : aharbor :=
  mk_aharbor (ah_id a) (ah_slave a) (<[name := v]> (ah_names a)) (ah_links a).
Definition set_pending (l : alink) (p : list harbor_msg) : alink := mk_alink (l_fd l) (l_status l) p (l_bytes l).
Definition set_bytes (l : alink) (b : list Z) : alink := mk_alink (l_fd l) (l_status l) (l_pending l) b.

Section spec.
Context (mem : Z → list Z) (known : Z → bool).

(** ** The specification *)

(** Waiting messages sent and freed. *)
Definition flush (fd : Z) (hdr : remote_message_header → remote_message_header) (l : list harbor_msg) : list heffect :=
  concat ((λ m, send_effects mem fd (hm_buffer m) (hm_size m) (hdr (hm_header m)) ++ [HFree (hm_buffer m)]) <$> l).

(** Waiting messages given to a service of this node. *)
Definition hand_over (handle : Z) (l : list harbor_msg) : list heffect :=
  (λ m, HSend (hd_source (hm_header m)) handle (Z.lor (hd_destination (hm_header m) / 2 ^ 24) PTYPE_TAG_DONTCOPY)
          (i32 (hd_session (hm_header m))) (Block (hm_buffer m) (hm_size m))) <$> l.

(** The link closed; what waits for it is dropped. *)
Definition take_down (a : aharbor) (id : Z) (l : alink) : aharbor * list heffect :=
  (put_link a id (mk_alink (l_fd l) ADown [] []), HClose (l_fd l) :: frees (l_pending l)).

(** The messages of a stream: what is done with them, the bytes left, and
    whether a length of 16M or more ended it.  A content shorter than a header
    is not allowed. *)
Fixpoint cut_f (fuel : nat) (id : Z) (s : list Z) : option (list heffect * list Z * bool) :=
  match fuel with
  | O => None
  | S f =>
      if decide (length s < 4)%nat then Some ([], s, false)
      else
        let n := be_val (take 4 s) in
        if 2 ^ 24 <=? n then Some ([], s, true)
        else if n <? 12 then None
        else if decide (length s < 4 + Z.to_nat n)%nat then Some ([], s, false)
        else
          '(e, r, bad) ← cut_f f id (drop (4 + Z.to_nat n) s);
          Some (deliver known id (take (Z.to_nat n) (drop 4 s)) ++ e, r, bad)
  end.

Definition cut (id : Z) (s : list Z) : option (list heffect * list Z * bool) := cut_f (S (length s)) id s.

(** The bytes of an open link. *)
Definition parse (a : aharbor) (id : Z) (l : alink) (bytes : list Z) : option (aharbor * list heffect) :=
  '(e, r, bad) ← cut (ah_id a) bytes;
  if (bad : bool) then
    let '(a, e') := take_down a id l in
    Some (a, e ++ HError "Message is too long from harbor %d" [id] :: e')
  else Some (put_link a id (set_bytes l r), e).

Definition spec_data (a : aharbor) (id fd : Z) (data : list Z) : option (aharbor * list heffect) :=
  l ← get_link a id;
  match l_status l with
  | AWait | ADown => Some (a, [])
  | AOpen => parse a id l (l_bytes l ++ data)
  | AShake =>
      match data with
      | [] => None
      | b :: data =>
          if negb (b =? id) then
            let '(a, e) := take_down a id l in
            Some (a, HError "Invalid shakehand id (%d) from fd = %d , harbor = %d" [id; fd; b] :: e)
          else
            let l' := mk_alink (l_fd l) AOpen [] [] in
            '(a, e) ← parse (put_link a id l') id l' data;
            Some (a, flush (l_fd l) (λ h, h) (l_pending l) ++ e)
      end
  end.

Fixpoint link_of (n : nat) (i : Z) (l : list alink) (fd : Z) : option Z :=
  match n with
  | O => Some 0
  | S n' => x ← arr_get l i; if l_fd x =? fd then Some i else link_of n' (i + 1) l fd
  end.

Definition find_link (a : aharbor) (fd : Z) : option Z := link_of 255 1 (ah_links a) fd.

Definition room (l : list harbor_msg) : option unit := c_assert (Z.of_nat (length l) <=? QUEUE_MAX).

(** The messages that wait for a name whose handle is known now: sent, put
    with those that wait for its node, or delivered on this node. *)
Definition send_waiting (a : aharbor) (handle : Z) (waiting : list harbor_msg) : option (aharbor * list heffect) :=
  let id := handle / 2 ^ 24 in
  l ← get_link a id;
  if l_fd l =? 0 then
    _ ← room (l_pending l ++ waiting);
    if id =? ah_slave a / 2 ^ 24 then Some (put_link a id (set_pending l []), hand_over handle (l_pending l ++ waiting))
    else Some (put_link a id (set_pending l (l_pending l ++ waiting)), [])
  else Some (a, flush (l_fd l) (named_header handle) waiting).

(** A name gets its handle. *)
Definition spec_update_name (a : aharbor) (name : list Z) (handle : Z) : option (aharbor * list heffect) :=
  let '(_, waiting) := name_val (ah_names a) name in
  '(a, e) ← (match waiting with [] => Some (a, []) | _ => send_waiting a handle waiting end);
  Some (put_name a name (handle, []), e).

(** The third result says that the message is not to be freed. *)
Definition spec_send_handle (a : aharbor) (source destination type session msg sz : Z) : option (aharbor * list heffect * bool) :=
  let id := destination / 2 ^ 24 in
  if id =? ah_id a then
    Some (a, [HSend source destination (Z.lor type PTYPE_TAG_DONTCOPY) session (Block msg sz)], true)
  else
    l ← get_link a id;
    let header := mk_header source (typed_destination type destination) (u32 session) in
    match l_status l with
    | AWait | AShake =>
        let p := l_pending l ++ [mk_hmsg header msg sz] in
        _ ← room p;
        Some (put_link a id (set_pending l p), [], true)
    | AOpen | ADown => Some (a, send_effects mem (l_fd l) msg sz header, false)
    end.

Definition spec_send_name (a : aharbor) (source : Z) (name : list Z) (type session msg sz : Z) : option (aharbor * list heffect * bool) :=
  let '(v, waiting) := name_val (ah_names a) name in
  if v =? 0 then
    let header := mk_header source (u32 (Z.shiftl type HANDLE_REMOTE_SHIFT)) (u32 session) in
    let p := waiting ++ [mk_hmsg header msg sz] in
    _ ← room p;
    Some (put_name a name (0, p), [HSend 0 (ah_slave a) PTYPE_TEXT 0 (Bytes (lit "Q " ++ name_text name))], true)
  else spec_send_handle (put_name a name (v, waiting)) source v type session msg sz.

(** A connection to a node: [S] waits for its answer, [A] is open. *)
Definition spec_link (a : aharbor) (cmd : Z) (buffer : list Z) : option (aharbor * list heffect) :=
  let '(fd, id) := scan_fd_id buffer in
  if (fd =? 0) || (id <=? 0) || (REMOTE_MAX <=? id) then Some (a, [HError "Invalid command %c %s" (cmd :: buffer)])
  else
    l ← get_link a id;
    if negb (l_fd l =? 0) then Some (a, [HError "Harbor %d alreay exist" [id]])
    else
      let e := [HStart fd; HSocketSend fd [u8 (ah_id a)]] in
      if cmd =? 83 then Some (put_link a id (mk_alink fd AShake (l_pending l) []), e)
      else Some (put_link a id (mk_alink fd AOpen [] []), e ++ flush fd (λ h, h) (l_pending l)).

Definition spec_command (a : aharbor) (msg : list Z) (source : Z) : option (aharbor * list heffect) :=
  match msg with
  | [] => None
  | c :: _ =>
      let name := drop 2 msg in
      if c =? 78 then
        if (length msg <=? 2)%nat || (18 <=? length msg)%nat then Some (a, [HError "Invalid global name %s" name])
        else spec_update_name a (name ++ replicate (16 - length name) 0) source
      else if (c =? 83) || (c =? 65) then
        if (length msg <=? 1)%nat then None else spec_link a c name
      else Some (a, [HError "Unknown command %s" msg])
  end.

Definition spec_step (a : aharbor) (ev : hevent) : option (aharbor * list heffect) :=
  match ev with
  | HvSocket m =>
      match sm_type m with
      | SOCKET_DATA =>
          id ← find_link a (sm_id m);
          let data := default [] (sm_buffer m) in
          '(a, e) ← (if id =? 0 then Some (a, [HError "Invalid socket fd (%d) data" [sm_id m]]) else spec_data a id (sm_id m) data);
          Some (a, e ++ [HFreeData data])
      | SOCKET_ERROR | SOCKET_CLOSE =>
          id ← find_link a (sm_id m);
          Some (a, if id =? 0 then [HError "Unkown fd (%d) closed" [sm_id m]]
                   else [HSend 0 (ah_slave a) PTYPE_TEXT 0 (Bytes (lit "D " ++ print_d id))])
      | SOCKET_CONNECT => Some (a, [])
      | SOCKET_WARNING =>
          id ← find_link a (sm_id m);
          Some (a, if id =? 0 then [] else [HError "message havn't send to Harbor (%d) reach %d K" [id; sm_ud m]])
      | SOCKET_ACCEPT | SOCKET_UDP => Some (a, [HError "recv invalid socket message type %d" [PTYPE_SOCKET]])
      end
  | HvHarbor _ source msg => spec_command a msg source
  | HvSystem session source r =>
      '(a, e, kept) ←
        (if rm_handle r =? 0 then spec_send_name a source (rm_name r) (rm_type r) session (rm_message r) (rm_sz r)
         else spec_send_handle a source (rm_handle r) (rm_type r) session (rm_message r) (rm_sz r));
      Some (a, if (kept : bool) then e else e ++ [HFree (rm_message r)])
  | HvOther type session source =>
      Some (a, HError "recv invalid message from %x,  type = %d" [source; type] ::
               (if (session =? 0) || (type =? PTYPE_ERROR) then [] else [HSend 0 source PTYPE_ERROR session Null]))
  end.

Fixpoint spec_run (a : aharbor) (evs : list hevent) : option (aharbor * list heffect) :=
  match evs with
  | [] => Some (a, [])
  | ev :: evs' => '(a, e) ← spec_step a ev; '(a, e') ← spec_run a evs'; Some (a, e ++ e')
  end.

(** ** The relation *)

Definition msg_ok (m : harbor_msg) : Prop := block_ok mem (hm_buffer m) (hm_size m).

(** What the reader of an open link holds of the bytes [b]. *)
Definition reading (s : slave) (b : list Z) : Prop :=
  Forall is_byte b ∧ length (s_size s) = 4%nat ∧
  ((s_status s = STATUS_HEADER ∧ s_read s = Z.of_nat (length b) ∧ (length b < 4)%nat ∧ take (length b) (s_size s) = b) ∨
   (s_status s = STATUS_CONTENT ∧ (4 <= length b)%nat ∧ s_length s = be_val (take 4 b) ∧ 12 <= s_length s < 2 ^ 24 ∧
    Z.of_nat (length b) < 4 + s_length s ∧ s_read s = Z.of_nat (length b) - 4 ∧
    s_recv_buffer s = partial (s_length s) (drop 4 b))).

Definition link_repr (s : slave) (l : alink) : Prop :=
  s_fd s = l_fd l ∧ opt_repr (s_queue s) (l_pending l) ∧
  match l_status l with
  | AWait => l_fd l = 0 ∧ s_status s = STATUS_WAIT ∧ s_read s = 0 ∧ length (s_size s) = 4%nat
  | AShake => l_fd l ≠ 0 ∧ s_status s = STATUS_HANDSHAKE ∧ s_read s = 0 ∧ length (s_size s) = 4%nat
  | AOpen => l_fd l ≠ 0 ∧ reading s (l_bytes l)
  | ADown => l_fd l ≠ 0 ∧ s_status s = STATUS_DOWN
  end.

Record harbor_repr (h : harbor) (a : aharbor) : Prop := mk_harbor_repr {
  hr_id : hb_id h = ah_id a;
  hr_range : 0 <= ah_id a < 256;
  hr_slave : hb_slave h = ah_slave a;
  hr_map : map_repr (hb_map h) (ah_names a);
  hr_links : Forall2 link_repr (hb_s h) (ah_links a);
  hr_len : length (ah_links a) = 256%nat;
  hr_names_ok : map_Forall (λ _ v, Forall msg_ok v.2) (ah_names a);
  hr_links_ok : Forall (λ l, Forall msg_ok (l_pending l)) (ah_links a)
}.

(** ** Links *)

Lemma get_link_ok h a id l : harbor_repr h a → get_link a id = Some l →
  ∃ s, arr_get (hb_s h) id = Some s ∧ link_repr s l ∧ Forall msg_ok (l_pending l) ∧ 0 <= id < 256.
Proof.
  intros Hr Hl. unfold get_link, arr_get in *. destruct (Z.leb_spec 0 id); [|done].
  destruct (Forall2_lookup_r _ _ _ _ _ (hr_links _ _ Hr) Hl) as (s & Hs & Hls). exists s. split_and!; [done..| |done|].
  - apply (Forall_lookup_1 _ _ _ _ (hr_links_ok _ _ Hr) Hl).
  - apply lookup_lt_Some in Hl. rewrite (hr_len _ _ Hr) in Hl. lia.
Qed.

Lemma put_slave_eq h id s : 0 <= id < Z.of_nat (length (hb_s h)) → put_slave h id s = Some (set_slaves h (<[Z.to_nat id := s]> (hb_s h))).
Proof. intros. unfold put_slave. by rewrite arr_set_some. Qed.

Lemma repr_slaves h a : harbor_repr h a → Z.of_nat (length (hb_s h)) = 256.
Proof. intros Hr. by rewrite (Forall2_length _ _ _ (hr_links _ _ Hr)), (hr_len _ _ Hr). Qed.

(** The array after a store to one link. *)
Definition with_slave (h : harbor) (id : Z) (s : slave) : harbor := set_slaves h (<[Z.to_nat id := s]> (hb_s h)).

Lemma put_ok h a id s l : harbor_repr h a → 0 <= id < 256 → link_repr s l → Forall msg_ok (l_pending l) →
  put_slave h id s = Some (with_slave h id s) ∧ harbor_repr (with_slave h id s) (put_link a id l).
Proof.
  intros Hr Hid Hl Hm. split; [apply put_slave_eq; rewrite (repr_slaves _ _ Hr); lia|]. destruct Hr. split; simpl; try done.
  - by apply Forall2_insert.
  - by rewrite length_insert.
  - by apply Forall_insert.
Qed.

Lemma with_slave_get h id s : 0 <= id < Z.of_nat (length (hb_s h)) → arr_get (hb_s (with_slave h id s)) id = Some s.
Proof. intros. rewrite arr_get_lookup by lia. simpl. apply list_lookup_insert_eq. lia. Qed.

Lemma with_slave_put h id s s' : 0 <= id < Z.of_nat (length (hb_s h)) →
  put_slave (with_slave h id s) id s' = Some (with_slave h id s').
Proof.
  intros. rewrite put_slave_eq by (simpl; rewrite length_insert; lia). unfold with_slave, set_slaves. simpl.
  by rewrite list_insert_insert_eq.
Qed.

Lemma put_link_get a id l l0 : get_link a id = Some l0 → get_link (put_link a id l) id = Some l.
Proof.
  unfold get_link, arr_get. destruct (0 <=? id); [|done]. intros H. simpl. apply list_lookup_insert_eq. by eapply lookup_lt_Some.
Qed.

Lemma put_link_put a id l l' : put_link (put_link a id l) id l' = put_link a id l'.
Proof. unfold put_link. simpl. by rewrite list_insert_insert_eq. Qed.

Lemma put_link_same a id l : get_link a id = Some l → put_link a id l = a.
Proof.
  unfold get_link, arr_get, put_link. destruct (0 <=? id); [|done]. intros H. rewrite list_insert_id by done. by destruct a.
Qed.

Lemma frees_nil : frees [] = [].
Proof. done. Qed.

(** A link that is connected is closed. *)
Lemma close_link_ok h a id l : harbor_repr h a → get_link a id = Some l → l_fd l ≠ 0 →
  ∃ h', close_harbor h id = Some (h', (take_down a id l).2) ∧ harbor_repr h' (take_down a id l).1.
Proof.
  intros Hr Hl Hfd. destruct (get_link_ok _ _ _ _ Hr Hl) as (s & Hs & (Hf & Hq & Hst) & Hm & Hid).
  unfold close_harbor. rewrite Hs. cbn [mbind option_bind set_status s_fd s_queue]. rewrite Hf, (proj2 (Z.eqb_neq _ _)) by done.
  rewrite (release_ok _ _ Hq). cbn [mbind option_bind].
  destruct (put_ok h a id (set_queue (set_status s STATUS_DOWN) None) (mk_alink (l_fd l) ADown [] [])) as [-> Hr']; [done|done| |by constructor|].
  - by split_and!.
  - simpl. eexists. by split.
Qed.

Lemma send_loop_ok fd hdr q l : hq_repr q l → Forall msg_ok l →
  ∃ q', while_pop (queue_fuel q) (λ e m, send_and_free mem fd e m (hdr (hm_header m))) [] q = Some (flush fd hdr l, q') ∧ hq_repr q' [].
Proof.
  intros Hq Hm. apply (while_pop_effects _ _ msg_ok); [|done..]. intros e m Hok. unfold send_and_free.
  by rewrite send_remote_ok.
Qed.

(** The messages that wait for a link are sent. *)
Lemma dispatch_queue_ok h a id l : harbor_repr h a → get_link a id = Some l → l_fd l ≠ 0 →
  ∃ h', dispatch_queue mem h id = Some (h', flush (l_fd l) (λ h, h) (l_pending l)) ∧ harbor_repr h' (put_link a id (set_pending l [])).
Proof.
  intros Hr Hl Hfd. destruct (get_link_ok _ _ _ _ Hr Hl) as (s & Hs & (Hf & Hq & Hst) & Hm & Hid).
  assert (Hput : put_slave h id (set_queue s None) = Some (with_slave h id (set_queue s None)) ∧
                 harbor_repr (with_slave h id (set_queue s None)) (put_link a id (set_pending l []))).
  { apply put_ok; [done|done| |by constructor]. by split_and!. }
  unfold dispatch_queue. rewrite Hs. cbn [mbind option_bind]. rewrite Hf, (proj2 (Z.eqb_neq _ _)) by done. cbn [negb c_assert mbind option_bind].
  destruct (s_queue s) as [q|] eqn:Eq; simpl in Hq.
  - destruct (send_loop_ok (l_fd l) (λ h, h) q _ Hq Hm) as (q' & -> & Hq'). cbn [mbind option_bind].
    rewrite (release_ok (Some q') []) by done. cbn [mbind option_bind]. destruct Hput as [-> Hr']. simpl.
    rewrite app_nil_r. eauto.
  - rewrite Hq. exists h. split; [done|]. replace (set_pending l []) with l by (unfold set_pending; destruct l; simpl in *; congruence).
    by rewrite put_link_same.
Qed.

(** ** Data *)

Lemma cut_f_enough f g id s r : cut_f f id s = Some r → (length s < g)%nat → cut_f g id s = Some r.
Proof.
  revert g s r. induction f as [|f IH]; intros g s r H Hg; [done|]. destruct g as [|g]; [lia|]. cbn [cut_f] in *.
  case_decide; [done|]. destruct (2 ^ 24 <=? _); [done|]. destruct (_ <? 12); [done|]. case_decide; [done|].
  apply bind_Some in H as ([[e r'] bad] & H & Hr). rewrite (IH g _ _ H) by (rewrite length_drop; lia). done.
Qed.

(** One message off a stream. *)
Lemma cut_cons id s n e r bad : n = be_val (take 4 s) → 12 <= n < 2 ^ 24 → (4 + Z.to_nat n <= length s)%nat →
  cut id s = Some (e, r, bad) →
  ∃ e', e = deliver known id (take (Z.to_nat n) (drop 4 s)) ++ e' ∧ cut id (drop (4 + Z.to_nat n) s) = Some (e', r, bad).
Proof.
  intros Hn Hr Hl H. unfold cut in *. cbn [cut_f] in H. rewrite decide_False in H by lia. rewrite <- Hn in H.
  destruct (Z.leb_spec (2 ^ 24) n); [lia|]. destruct (Z.ltb_spec n 12); [lia|]. rewrite decide_False in H by lia.
  apply bind_Some in H as ([[e' r'] bad'] & H & [= <- <- <-]). exists e'. split; [done|].
  by apply (cut_f_enough _ (S (length (drop (4 + Z.to_nat n) s)))) in H; [|lia].
Qed.

Definition next (h : harbor) (rest : list Z) : round := if decide (rest = []) then Done h else Again h rest.

(** What one round does with the bytes [w] of an open link. *)
Definition round_spec (a : aharbor) (id : Z) (l : alink) (w : list Z) (out : option (round * list heffect)) : Prop :=
  let n := be_val (take 4 w) in
  if decide (length w < 4)%nat then ∃ h', out = Some (Done h', []) ∧ harbor_repr h' (put_link a id (set_bytes l w))
  else if 2 ^ 24 <=? n then
    ∃ h', out = Some (Done h', HError "Message is too long from harbor %d" [id] :: (take_down a id l).2) ∧ harbor_repr h' (take_down a id l).1
  else if n <? 12 then True
  else if decide (length w < 4 + Z.to_nat n)%nat then ∃ h', out = Some (Done h', []) ∧ harbor_repr h' (put_link a id (set_bytes l w))
  else ∃ h', out = Some (next h' (drop (4 + Z.to_nat n) w), deliver known (ah_id a) (take (Z.to_nat n) (drop 4 w))) ∧
             harbor_repr h' (put_link a id (set_bytes l [])).

Lemma next_eq h rest : (if Z.of_nat (length rest) =? 0 then Done h else Again h rest) = next h rest.
Proof. unfold next. destruct rest; [done|]. by rewrite decide_False. Qed.

Lemma set_bytes_set l b b' : set_bytes (set_bytes l b) b' = set_bytes l b'.
Proof. done. Qed.

(** The reader inside a content. *)
Lemma content_ok h a id l s d : harbor_repr h a → get_link a id = Some l → l_status l = AOpen →
  arr_get (hb_s h) id = Some s → s_status s = STATUS_CONTENT → link_repr s l → Forall is_byte d →
  round_spec a id l (l_bytes l ++ d) (status_content known h id d).
Proof.
  intros Hr Hl Ho Hs Hc (Hf & Hq & Hst) Hd. destruct (get_link_ok _ _ _ _ Hr Hl) as (_ & _ & _ & Hm & Hid).
  rewrite Ho in Hst. destruct Hst as (Hfd & Hb & H4 & Hrd). set (b := l_bytes l) in *.
  destruct Hrd as [(Hx & _)|(_ & Hlb & Hlen & Hn & Hlt & Hrd & Hbuf)]; [by rewrite Hc in Hx|].
  assert (Htk : take 4 (b ++ d) = take 4 b) by (rewrite take_app_le by lia; done).
  unfold round_spec. rewrite Htk, <- Hlen. rewrite decide_False by (rewrite length_app; lia).
  destruct (Z.leb_spec (2 ^ 24) (s_length s)); [lia|]. destruct (Z.ltb_spec (s_length s) 12); [done|].
  unfold status_content. rewrite Hs. cbn [mbind option_bind]. rewrite Hrd, Hbuf. set (n := s_length s) in *.
  assert (Hcopy : ∀ m, 0 <= m <= Z.of_nat (length d) → Z.of_nat (length b) - 4 + m <= n →
    memcpy (partial n (drop 4 b)) (Z.of_nat (length b) - 4) d m = Some (partial n (drop 4 b ++ take (Z.to_nat m) d))).
  { intros m Hm1 Hm2. rewrite <- (memcpy_partial n (drop 4 b) d m); rewrite ?length_drop; [f_equal; lia|lia|lia]. }
  rewrite length_app. case_decide as Hsh.
  - rewrite (proj2 (Z.ltb_lt _ _)) by lia. rewrite Hcopy by lia. cbn [mbind option_bind].
    destruct (put_ok h a id (set_reading s (s_status s) n (Z.of_nat (length b) - 4 + Z.of_nat (length d)) (s_size s)
      (partial n (drop 4 b ++ take (Z.to_nat (Z.of_nat (length d))) d))) (set_bytes l (b ++ d))) as [-> Hr']; [done|done| |done|].
    + split_and!; [done..|]. simpl. rewrite Ho. split; [done|]. split; [by apply Forall_app|]. split; [done|]. right. simpl.
      rewrite Htk, length_app, <- Hlen, Nat2Z.id, (firstn_all d), drop_app_le by lia. split_and!; try done; lia.
    + simpl. eauto.
  - rewrite (proj2 (Z.ltb_ge _ _)) by lia. rewrite Hcopy by lia. cbn [mbind option_bind].
    set (need := Z.to_nat (n - (Z.of_nat (length b) - 4))).
    assert (Hcont : drop 4 b ++ take need d = take (Z.to_nat n) (drop 4 (b ++ d))).
    { rewrite drop_app_le by lia. rewrite take_app_ge by (rewrite length_drop; lia). f_equal. f_equal. rewrite length_drop. unfold need. lia. }
    assert (Hrest : drop need d = drop (4 + Z.to_nat n) (b ++ d)) by (rewrite drop_app_ge by lia; f_equal; unfold need; lia).
    rewrite Hcont, Hrest. set (c := take (Z.to_nat n) (drop 4 (b ++ d))).
    assert (Hcl : Z.of_nat (length c) = n) by (unfold c; rewrite length_take, length_drop, length_app; lia).
    assert (Hfw : forward_local_messsage known h (partial n c) n = Some (deliver known (ah_id a) c)).
    { rewrite <- (hr_id _ _ Hr). rewrite <- Hcl. rewrite partial_full. apply forward_local_ok.
      - rewrite (hr_id _ _ Hr). apply (hr_range _ _ Hr).
      - by apply Forall_take, Forall_drop, Forall_app.
      - lia. }
    rewrite Hfw.
    cbn [mbind option_bind].
    destruct (put_ok h a id (set_reading s STATUS_HEADER 0 0 (s_size s) []) (set_bytes l [])) as [-> Hr']; [done|done| |done|].
    + split_and!; [done..|]. simpl. rewrite Ho. split; [done|]. split; [done|]. split; [done|]. left. simpl. split_and!; [done..|lia|done].
    + cbn [mbind option_bind]. rewrite next_eq. eauto.
Qed.

Lemma take_prefix_app (b d : list Z) k : (length b <= k)%nat → take k (b ++ d) = b ++ take (k - length b) d.
Proof. intros. rewrite take_app_ge by lia. done. Qed.

Lemma copy_size_ok size b d m : take (length b) size = b → (length b <= length size)%nat → (m <= length d)%nat → (length b + m <= length size)%nat →
  copy_size size (Z.of_nat (length b)) d (Z.of_nat m) = Some (b ++ take m d ++ drop (length b + m) size).
Proof.
  intros Ht Hl Hm Hs. unfold copy_size. zcases. cbn [andb c_assert mbind option_bind]. rewrite <- Nat2Z.inj_add, !Nat2Z.id, Ht. done.
Qed.

(** Four bytes and the number they are. *)
Lemma four_bytes (w : list Z) : length w = 4%nat → Forall is_byte w →
  ∃ b0 b1 b2 b3, w = [b0; b1; b2; b3] ∧ is_byte b1 ∧ is_byte b2 ∧ is_byte b3 ∧ (b0 ≠ 0 ↔ 2 ^ 24 <= be_val w).
Proof.
  intros Hl Hb. destruct w as [|b0 [|b1 [|b2 [|b3 [|]]]]]; try done. exists b0, b1, b2, b3.
  repeat match goal with H : Forall _ (_ :: _) |- _ => inversion H; clear H; subst end. unfold is_byte in *.
  split_and!; try lia; [done|]. unfold be_val. cbn [foldl]. lia.
Qed.

(** The reader inside a length. *)
Lemma header_ok h a id l s d : harbor_repr h a → get_link a id = Some l → l_status l = AOpen →
  arr_get (hb_s h) id = Some s → s_status s = STATUS_HEADER → link_repr s l → Forall is_byte d →
  round_spec a id l (l_bytes l ++ d) (status_header known h id d).
Proof.
  intros Hr Hl Ho Hs Hc (Hf & Hq & Hst) Hd. destruct (get_link_ok _ _ _ _ Hr Hl) as (_ & _ & _ & Hm & Hid).
  rewrite Ho in Hst. destruct Hst as (Hfd & Hb & H4 & Hrd). set (b := l_bytes l) in *. pose proof (repr_slaves _ _ Hr) as H256.
  destruct Hrd as [(_ & Hrd & Hlt & Htk)|(Hx & _)]; [|by rewrite Hc in Hx].
  unfold status_header. rewrite Hs. cbn [mbind option_bind]. rewrite Hrd.
  assert (Hwb : Forall is_byte (b ++ d)) by by apply Forall_app.
  unfold round_spec. destruct (decide (length (b ++ d) < 4)%nat) as [Hsh|Hge]; [rewrite length_app in Hsh|rewrite length_app in Hge].
  - rewrite (proj2 (Z.ltb_lt _ _)) by lia. rewrite copy_size_ok by (done || lia). cbn [mbind option_bind]. rewrite (firstn_all d).
    destruct (put_ok h a id (set_reading s (s_status s) (s_length s) (Z.of_nat (length b) + Z.of_nat (length d))
      (b ++ d ++ drop (length b + length d) (s_size s)) (s_recv_buffer s)) (set_bytes l (b ++ d))) as [-> Hr']; [done|done| |done|].
    + split_and!; [done..|]. simpl. rewrite Ho. split; [done|]. split; [done|]. split; [simpl; rewrite !length_app, length_drop; lia|].
      left. simpl. rewrite !length_app. split_and!; [done|lia|lia|]. rewrite app_assoc, <- length_app. by rewrite take_app_length.
    + simpl. eauto.
  - rewrite (proj2 (Z.ltb_ge _ _)) by lia. replace (4 - Z.of_nat (length b)) with (Z.of_nat (4 - length b)) by lia.
    rewrite copy_size_ok by (done || lia). cbn [mbind option_bind].
    rewrite (drop_ge (s_size s)), app_nil_r by lia. rewrite <- take_prefix_app by lia.
    rewrite Nat2Z.id. assert (Hrest : drop (4 - length b) d = drop 4 (b ++ d)) by (rewrite drop_app_ge by lia; done). rewrite Hrest.
    set (w := b ++ d) in *. assert (Hlw : (4 <= length w)%nat) by (unfold w; rewrite length_app; lia).
    destruct (four_bytes (take 4 w)) as (b0 & b1 & b2 & b3 & Ew & B1 & B2 & B3 & Hbig); [rewrite length_take; lia|by apply Forall_take|].
    rewrite Ew. rewrite Ew in Hbig. destruct (Z.leb_spec (2 ^ 24) (be_val [b0; b1; b2; b3])) as [Hbg|Hsm].
    + rewrite (proj2 (Z.eqb_neq b0 0)) by tauto. cbn [negb].
      destruct (put_ok h a id (set_reading s (s_status s) (s_length s) (Z.of_nat (length b)) [b0; b1; b2; b3] (s_recv_buffer s)) l) as [-> Hr'];
        [done|done| |done|].
      * split_and!; [done..|]. rewrite Ho. split; [done|]. split; [done|]. split; [done|]. left. simpl. fold b. split_and!; [done..|].
        rewrite <- Ew. unfold w. rewrite take_take, Nat.min_l, take_app_le, firstn_all by lia. done.
      * cbn [mbind option_bind]. destruct (close_link_ok _ _ id l Hr') as (h' & -> & Hr''); [by eapply put_link_get|done|].
        cbn [mbind option_bind]. eexists. split; [done|]. unfold take_down in *. simpl in *. by rewrite put_link_put in Hr''.
    + assert (b0 = 0) as -> by (destruct (decide (b0 = 0)); [done|]; tauto || lia). cbn [Z.eqb negb].
      rewrite size_bytes_val by done. set (n := be_val [0; b1; b2; b3]) in *. destruct (Z.ltb_spec n 12) as [|Hn12]; [done|].
      set (s1 := set_reading s STATUS_CONTENT n 0 [0; b1; b2; b3] (malloc n)).
      destruct (put_ok h a id s1 (set_bytes l (take 4 w))) as [-> Hr']; [done|done| |done|].
      { split_and!; [done..|]. simpl. rewrite Ho. split; [done|]. split; [by apply Forall_take|]. split; [done|]. right. simpl.
        rewrite take_take. change (4 `min` 4)%nat with 4%nat. rewrite Ew. cbn [take length drop]. split_and!; try done; try lia. apply malloc_partial. }
      cbn [mbind option_bind]. destruct (drop 4 w) as [|x dw] eqn:Edw.
      * simpl. assert (length w = 4)%nat by (apply (f_equal length) in Edw; rewrite length_drop in Edw; simpl in Edw; lia).
        rewrite decide_True by lia. eexists. split; [done|]. by rewrite firstn_all2 in Hr' by lia.
      * rewrite (proj2 (Z.eqb_neq _ _)) by (simpl; lia). rewrite <- Edw in *.
        assert (Hcont : round_spec (put_link a id (set_bytes l (take 4 w))) id (set_bytes l (take 4 w)) (take 4 w ++ drop 4 w)
          (status_content known (with_slave h id s1) id (drop 4 w))).
        { assert (Hg : get_link (put_link a id (set_bytes l (take 4 w))) id = Some (set_bytes l (take 4 w))) by by eapply put_link_get.
          apply (content_ok _ _ _ _ s1 _ Hr' Hg Ho); [by apply with_slave_get; lia|done| |by apply Forall_drop].
          destruct (get_link_ok _ _ id _ Hr' Hg) as (s2 & Hs2 & Hrep & _). rewrite with_slave_get in Hs2 by lia. by injection Hs2 as <-. }
        unfold round_spec in Hcont. rewrite (firstn_skipn 4 w), Ew in Hcont.
        fold n in Hcont. rewrite decide_False in Hcont by lia. destruct (Z.leb_spec (2 ^ 24) n); [lia|]. destruct (Z.ltb_spec n 12); [lia|].
        by rewrite !put_link_put in Hcont.
Qed.

(** A round of an open link. *)
Lemma open_round_ok h a id fd l d : harbor_repr h a → get_link a id = Some l → l_status l = AOpen → Forall is_byte d →
  round_spec a id l (l_bytes l ++ d) (data_round mem known h id fd d).
Proof.
  intros Hr Hl Ho Hd. destruct (get_link_ok _ _ _ _ Hr Hl) as (s & Hs & Hrep & _). unfold data_round. rewrite Hs. cbn [mbind option_bind].
  pose proof Hrep as (_ & _ & Hst). rewrite Ho in Hst. destruct Hst as (_ & _ & _ & [(Est & _)|(Est & _)]); rewrite Est.
  - by eapply header_ok.
  - by eapply content_ok.
Qed.

Lemma parse_nil a id l : get_link a id = Some l → (length (l_bytes l) < 4)%nat → parse a id l (l_bytes l) = Some (a, []).
Proof.
  intros Hl Hb. unfold parse, cut. cbn [cut_f]. rewrite decide_True by done. cbn [mbind option_bind].
  replace (set_bytes l (l_bytes l)) with l by by destruct l. by rewrite put_link_same.
Qed.

Lemma parse_cons a id l w n a' e : n = be_val (take 4 w) → 12 <= n < 2 ^ 24 → (4 + Z.to_nat n <= length w)%nat →
  parse a id l w = Some (a', e) →
  ∃ e', parse (put_link a id (set_bytes l [])) id (set_bytes l []) (drop (4 + Z.to_nat n) w) = Some (a', e') ∧
    e = deliver known (ah_id a) (take (Z.to_nat n) (drop 4 w)) ++ e'.
Proof.
  intros Hn Hr Hl Hp. unfold parse in *. apply bind_Some in Hp as ([[e1 r] bad] & Hcut & Hp).
  destruct (cut_cons _ _ n _ _ _ Hn Hr Hl Hcut) as (e2 & -> & Hrest).
  change (ah_id (put_link a id (set_bytes l []))) with (ah_id a). rewrite Hrest. cbn [mbind option_bind]. unfold take_down in *.
  rewrite !put_link_put. clear Hcut. generalize dependent (deliver known (ah_id a) (take (Z.to_nat n) (drop 4 w))). intros dl Hp.
  destruct bad; injection Hp as <- <-; eexists; (split; [done|]); by rewrite <- ?app_assoc.
Qed.

(** The bytes of an open link, and the part of a message that has arrived. *)
Lemma open_reading h a id l : harbor_repr h a → get_link a id = Some l → l_status l = AOpen →
  Forall is_byte (l_bytes l) ∧ ((length (l_bytes l) < 4)%nat ∨ (4 <= length (l_bytes l))%nat ∧ Z.of_nat (length (l_bytes l)) < 4 + be_val (take 4 (l_bytes l))).
Proof.
  intros Hr Hl Ho. destruct (get_link_ok _ _ _ _ Hr Hl) as (s & ? & (? & ? & Hx) & _). rewrite Ho in Hx.
  destruct Hx as (_ & Hb & _ & [(_ & _ & ? & _)|(_ & ? & Hsl & ? & ? & _)]); (split; [done|]); [by left|right]. split; [done|lia].
Qed.

(** All the data of a message of the socket. *)
Lemma open_loop_ok f h a id fd l d a' e : harbor_repr h a → get_link a id = Some l → l_status l = AOpen → Forall is_byte d →
  (length d < f)%nat → parse a id l (l_bytes l ++ d) = Some (a', e) →
  ∃ h', data_loop mem known f h id fd d = Some (h', e) ∧ harbor_repr h' a'.
Proof.
  revert h a l d e. induction f as [|f IH]; intros h a l d e Hr Hl Ho Hd Hf Hp; [lia|]. cbn [data_loop].
  pose proof (open_round_ok h a id fd l d Hr Hl Ho Hd) as Hround. set (w := l_bytes l ++ d) in *.
  pose proof (open_reading _ _ _ _ Hr Hl Ho) as [Hbb Hblen].
  unfold round_spec in Hround. pose proof Hp as Hp'. unfold parse, cut in Hp'. cbn [cut_f] in Hp'. case_decide as H4.
  { destruct Hround as (h' & -> & Hr'). injection Hp' as <- <-. simpl. eauto. }
  destruct (Z.leb_spec (2 ^ 24) (be_val (take 4 w))).
  { destruct Hround as (h' & -> & Hr'). injection Hp' as <- <-. simpl. eauto. }
  destruct (Z.ltb_spec (be_val (take 4 w)) 12); [done|]. set (n := be_val (take 4 w)) in *. case_decide as Hlen.
  { destruct Hround as (h' & -> & Hr'). injection Hp' as <- <-. simpl. eauto. }
  destruct Hround as (h' & -> & Hr'). cbn [mbind option_bind]. clear Hp'.
  destruct (parse_cons a id l w n a' e eq_refl ltac:(lia) ltac:(lia) Hp) as (e3 & Hp1 & ->).
  assert (Hl1 : get_link (put_link a id (set_bytes l [])) id = Some (set_bytes l [])) by by eapply put_link_get.
  unfold next. case_decide as Hnil.
  - rewrite Hnil in Hp1. pose proof (parse_nil _ id (set_bytes l []) Hl1 ltac:(simpl; lia)) as Hpn. cbn [set_bytes l_bytes] in Hpn.
    rewrite Hpn in Hp1. injection Hp1 as <- <-. rewrite app_nil_r. eauto.
  - destruct (IH h' _ _ (drop (4 + Z.to_nat n) w) e3 Hr' Hl1) as (h'' & -> & Hr''); [done| | |done|].
    + by apply Forall_drop, Forall_app.
    + assert (length w = length (l_bytes l) + length d)%nat by apply length_app.
      rewrite length_drop. destruct Hblen as [|[Hb4 Hbn]]; [lia|].
      assert (be_val (take 4 (l_bytes l)) = n) by (unfold n, w; by rewrite take_app_le by lia). lia.
    + cbn [mbind option_bind]. eauto.
Qed.

Lemma data_loop_eq f h id fd d : data_loop mem known (S f) h id fd d =
  ('(r, e) ← data_round mem known h id fd d;
   match r with Done h => Some (h, e) | Again h d => '(h, e') ← data_loop mem known f h id fd d; Some (h, e ++ e') end).
Proof. done. Qed.

Lemma data_loop_more f h id fd d r : data_loop mem known f h id fd d = Some r → data_loop mem known (S f) h id fd d = Some r.
Proof.
  revert h d r. induction f as [|f IH]; intros h d r H; [done|]. rewrite data_loop_eq in H. rewrite data_loop_eq.
  apply bind_Some in H as ([[h'|h' d'] e] & -> & H); cbn [mbind option_bind]; [done|].
  apply bind_Some in H as ([h2 e2] & H & Hr). by rewrite (IH _ _ _ H).
Qed.

(** The first byte of a link that shakes hands. *)
Lemma shake_ok h a id fd l b d a' e : harbor_repr h a → get_link a id = Some l → l_status l = AShake → is_byte b → Forall is_byte d →
  spec_data a id fd (b :: d) = Some (a', e) →
  ∃ h', data_loop mem known (length (b :: d) + 2) h id fd (b :: d) = Some (h', e) ∧ harbor_repr h' a'.
Proof.
  intros Hr Hl Hsh Hb Hd Hsp. destruct (get_link_ok _ _ _ _ Hr Hl) as (s & Hs & (Hf & Hq & Hst) & Hm & Hid). rewrite Hsh in Hst.
  destruct Hst as (Hfd & Est & Hrd & Hsz). unfold spec_data in Hsp. rewrite Hl in Hsp. cbn [mbind option_bind] in Hsp. rewrite Hsh in Hsp.
  replace (length (b :: d) + 2)%nat with (S (S (S (length d)))) by (simpl; lia). rewrite data_loop_eq.
  unfold data_round. rewrite Hs. cbn [mbind option_bind]. rewrite Est. cbn [Z.eqb STATUS_HANDSHAKE Pos.eqb]. unfold status_handshake.
  change (arr_get (b :: d) 0) with (Some b). cbn [mbind option_bind]. destruct (b =? id); cbn [negb] in *.
  - change (drop 1 (b :: d)) with d. rewrite Hs. cbn [mbind option_bind]. set (l0 := mk_alink (l_fd l) AOpen (l_pending l) []).
    destruct (put_ok h a id (set_status s STATUS_HEADER) l0) as [-> Hr0]; [done|done| |done|].
    { split_and!; [done..|]. split; [done|]. split; [done|]. split; [done|]. left. simpl. split_and!; [done|lia|lia|done]. }
    cbn [mbind option_bind]. assert (Hl0 : get_link (put_link a id l0) id = Some l0) by by eapply put_link_get.
    destruct (dispatch_queue_ok _ _ id l0 Hr0 Hl0 Hfd) as (h1 & -> & Hr1). cbn [mbind option_bind]. rewrite put_link_put in Hr1.
    change (set_pending l0 []) with (mk_alink (l_fd l) AOpen [] []) in Hr1. set (l1 := mk_alink (l_fd l) AOpen [] []) in *.
    assert (Hl1 : get_link (put_link a id l1) id = Some l1) by by eapply put_link_get.
    apply bind_Some in Hsp as ([a1 e1] & Hp & [= <- <-]).
    destruct (open_loop_ok (S (S (length d))) h1 (put_link a id l1) id fd l1 d a1 e1) as (h2 & Hloop & Hr2); [done|done|done|done|lia|done|].
    destruct d as [|x d].
    + change (Z.of_nat (length []) =? 0) with true. cbv iota. cbn [mbind option_bind]. rewrite Hloop. cbn [mbind option_bind]. eauto.
    + rewrite (proj2 (Z.eqb_neq _ _)) by (simpl; lia). destruct (get_link_ok _ _ _ _ Hr1 Hl1) as (s1 & Hs1 & Hrep1 & _).
      assert (Est1 : s_status s1 = STATUS_HEADER).
      { destruct Hrep1 as (_ & _ & Hx). simpl in Hx. destruct Hx as (_ & _ & _ & [(? & _)|(_ & Hx & _)]); [done|]. simpl in Hx. lia. }
      rewrite data_loop_eq in Hloop. unfold data_round in Hloop. rewrite Hs1 in Hloop. cbn [mbind option_bind] in Hloop.
      rewrite Est1 in Hloop. change (STATUS_HEADER =? STATUS_HANDSHAKE) with false in Hloop. change (STATUS_HEADER =? STATUS_HEADER) with true in Hloop.
      cbv iota in Hloop. apply bind_Some in Hloop as ([r1 e2] & -> & Hloop). cbn [mbind option_bind].
      destruct r1 as [h3|h3 rest].
      * injection Hloop as -> ->. eauto.
      * apply bind_Some in Hloop as ([h4 e3] & Hl4 & [= -> <-]).
        rewrite (data_loop_more _ _ _ _ _ _ Hl4). cbn [mbind option_bind]. rewrite <- app_assoc. eauto.
  - destruct (close_link_ok _ _ _ _ Hr Hl Hfd) as (h' & -> & Hr'). cbn [mbind option_bind]. unfold take_down in *. injection Hsp as <- <-.
    eauto.
Qed.

Lemma data_ok h a id fd d a' e : harbor_repr h a → Forall is_byte d → spec_data a id fd d = Some (a', e) →
  ∃ h', data_loop mem known (length d + 2) h id fd d = Some (h', e) ∧ harbor_repr h' a'.
Proof.
  intros Hr Hd Hsp. pose proof Hsp as Hsp'. unfold spec_data in Hsp. apply bind_Some in Hsp as (l & Hl & Hsp).
  assert (Hskip : (l_status l = AWait ∨ l_status l = ADown) → data_loop mem known (length d + 2) h id fd d = Some (h, [])).
  { intros Hwd. destruct (get_link_ok _ _ _ _ Hr Hl) as (s & Hs & (_ & _ & Hst) & _). rewrite Nat.add_comm. cbn [Nat.add]. rewrite data_loop_eq.
    unfold data_round. rewrite Hs. cbn [mbind option_bind]. by destruct Hwd as [E|E]; rewrite E in Hst; destruct Hst as (_ & ->) || destruct Hst as (_ & -> & _). }
  destruct (l_status l) eqn:E.
  - injection Hsp as <- <-. exists h. auto.
  - destruct d as [|b d]; [done|]. inversion Hd; subst. by eapply shake_ok.
  - eapply open_loop_ok; [done..|lia|done].
  - injection Hsp as <- <-. exists h. auto.
Qed.

Lemma find_ok h a n i fd : harbor_repr h a → find_fd n i (hb_s h) fd = link_of n i (ah_links a) fd.
Proof.
  intros Hr. revert i. induction n as [|n IH]; intros i; [done|]. cbn [find_fd link_of]. pose proof (hr_links _ _ Hr) as Hf.
  unfold arr_get at 1 2. destruct (0 <=? i); [|done]. destruct (ah_links a !! Z.to_nat i) as [l|] eqn:El.
  - destruct (Forall2_lookup_r _ _ _ _ _ Hf El) as (s & -> & (Hfd & _)). cbn [mbind option_bind]. by rewrite Hfd, IH.
  - apply lookup_ge_None in El. rewrite lookup_ge_None_2; [done|]. by rewrite (Forall2_length _ _ _ Hf).
Qed.

(** ** Names *)

Lemma map_ok h a map name v : harbor_repr h a → map_repr map (<[name := v]> (ah_names a)) → Forall msg_ok v.2 →
  harbor_repr (set_map h map) (put_name a name v).
Proof. intros [] Hm Hv. split; simpl; try done. by apply map_Forall_insert_2. Qed.

Lemma with_slave_map h id s map : with_slave (set_map h map) id s = set_map (with_slave h id s) map.
Proof. done. Qed.

Lemma hand_over_ok handle q l : hq_repr q l →
  ∃ q', while_pop (queue_fuel q) (send_local handle) [] q = Some (hand_over handle l, q') ∧ hq_repr q' [].
Proof.
  intros Hq. unfold hand_over. rewrite <- concat_singles.
  apply (while_pop_effects _ _ (λ _, True)); [|done|by apply Forall_true]. intros e m _. unfold send_local.
  by rewrite Z.shiftr_div_pow2 by done.
Qed.

(** The messages of a name whose node is not connected; [map] is the hash
    with the handle of the name. *)
Lemma queue_to_link_ok h a map p name n q l w id a' e :
  harbor_repr h a → points map p name n → get_link a id = Some l → l_status l = AWait → hq_repr q w → Forall msg_ok w →
  (_ ← room (l_pending l ++ w);
   if id =? ah_slave a / 2 ^ 24 then Some (put_link a id (set_pending l []), hand_over (kv_value n) (l_pending l ++ w))
   else Some (put_link a id (set_pending l (l_pending l ++ w)), [])) = Some (a', e) →
  ∃ s h' map' q', arr_get (hb_s h) id = Some s ∧ queue_to_link (set_map h map) p n q id s = Some (set_map h' map', e) ∧
    harbor_repr h' a' ∧ node_set map p (set_kv_queue n q') = Some map' ∧ opt_repr q' [].
Proof.
  intros Hr Hp Hl Hw Hq Hwm Hsp. destruct (get_link_ok _ _ _ _ Hr Hl) as (s & Hs & (Hf & Hsq & Hst) & Hm & Hid).
  rewrite Hw in Hst. pose proof (repr_slaves _ _ Hr) as H256.
  apply bind_Some in Hsp as ([] & Hroom & Hsp).
  unfold room, c_assert in Hroom. destruct (Z.leb_spec (Z.of_nat (length (l_pending l ++ w))) QUEUE_MAX) as [Hroom'|]; [|done]. clear Hroom.
  assert (Hmove : ∃ sq q', match s_queue s with
      | None => Some (set_queue s (Some q), set_kv_queue n None)
      | Some sq => '(sq, queue) ← while_pop (queue_fuel q) push_queue_msg sq q; Some (set_queue s (Some sq), set_kv_queue n (Some queue))
      end = Some (set_queue s (Some sq), set_kv_queue n q') ∧ hq_repr sq (l_pending l ++ w) ∧ opt_repr q' []).
  { destruct (s_queue s) as [sq|]; cbn [opt_repr] in Hsq.
    - destruct (move_ok sq _ q w Hsq Hq Hroom') as (sq' & q' & -> & ? & ?). exists sq', (Some q'). by cbn [mbind option_bind].
    - rewrite Hsq. exists q, None. done. }
  destruct Hmove as (sq & q' & Emove & Hsq' & Hq'). exists s. unfold queue_to_link. rewrite Emove. cbn [mbind option_bind].
  destruct (node_set_some map p name n (set_kv_queue n q') Hp (proj1 (proj2 (points_get _ _ _ _ Hp)))) as (map' & Eset & _ & _).
  change (hb_map (set_map h map)) with map. rewrite Eset. cbn [mbind option_bind]. change (hb_slave (set_map h map)) with (hb_slave h).
  rewrite (hr_slave _ _ Hr). rewrite Z.shiftr_div_pow2 by done. change (2 ^ HANDLE_REMOTE_SHIFT) with (2 ^ 24).
  destruct (id =? ah_slave a / 2 ^ 24); injection Hsp as <- <-; cbn [set_queue s_queue mbind option_bind].
  - destruct (hand_over_ok (kv_value n) sq _ Hsq') as (sq2 & E2 & Hsq2). cbn [kv_value set_kv_queue]. rewrite E2. cbn [mbind option_bind].
    rewrite (release_ok (Some sq2) []) by done. cbn [mbind option_bind]. rewrite put_slave_eq by (simpl; lia).
    cbn [mbind option_bind]. rewrite app_nil_r. exists (with_slave h id (set_queue s None)), map', q'. split_and!; [done|done| |done|done].
    apply put_ok; [done|done| |by constructor]. split_and!; [done..|]. cbn [set_pending l_status]. by rewrite Hw.
  - rewrite put_slave_eq by (simpl; lia). cbn [mbind option_bind].
    exists (with_slave h id (set_queue s (Some sq))), map', q'. split_and!; [done|done| |done|done].
    apply put_ok; [done|done| |by apply Forall_app]. split_and!; [done..|]. cbn [set_pending l_status]. by rewrite Hw.
Qed.

Lemma wait_iff h a id l : harbor_repr h a → get_link a id = Some l → l_fd l = 0 ↔ l_status l = AWait.
Proof.
  intros Hr Hl. destruct (get_link_ok _ _ _ _ Hr Hl) as (s & _ & (_ & _ & Hst) & _). destruct (l_status l); naive_solver.
Qed.

(** The messages of a name are sent, queued or delivered. *)
Lemma dispatch_name_ok h a map p name n q w a' e :
  harbor_repr h a → points map p name n → kv_queue n = Some q → hq_repr q w → Forall msg_ok w →
  send_waiting a (kv_value n) w = Some (a', e) →
  ∃ h' map' q', dispatch_name_queue mem (set_map h map) p = Some (set_map h' map', e) ∧ harbor_repr h' a' ∧
    node_set map p (set_kv_queue n q') = Some map' ∧ opt_repr q' [].
Proof.
  intros Hr Hp Hkq Hq Hw Hsp. destruct (points_get _ _ _ _ Hp) as (Hn & Hkey & _).
  apply bind_Some in Hsp as (l & Hl & Hsp). set (id := kv_value n / 2 ^ 24) in *.
  unfold dispatch_name_queue. change (hb_map (set_map h map)) with map. change (hb_s (set_map h map)) with (hb_s h). rewrite Hn.
  cbn [mbind option_bind]. rewrite Hkq. cbn [mbind option_bind]. rewrite Z.shiftr_div_pow2 by done. change (2 ^ HANDLE_REMOTE_SHIFT) with (2 ^ 24). fold id.
  destruct (get_link_ok _ _ _ _ Hr Hl) as (s & Hs & (Hf & Hsq & Hst) & Hm & Hid). rewrite Hs. cbn [mbind option_bind]. rewrite Hf.
  destruct (Z.eqb_spec (l_fd l) 0) as [E0|E0].
  - pose proof (proj1 (wait_iff _ _ _ _ Hr Hl) E0) as Hwait. rewrite Hwait in Hst. destruct Hst as (_ & -> & _). change (STATUS_WAIT =? STATUS_DOWN) with false. cbv iota.
    destruct (queue_to_link_ok h a map p name n q l w id a' e) as (s' & h' & map' & q' & Hs' & E & ? & ? & ?); [done..|].
    rewrite Hs in Hs'. injection Hs' as <-. eauto 10.
  - destruct (send_loop_ok (l_fd l) (named_header (kv_value n)) q w Hq Hw) as (q' & -> & Hq'). cbn [mbind option_bind].
    destruct (node_set_some map p name n (set_kv_queue n (Some q')) Hp Hkey) as (map' & Eset & _ & _). rewrite Eset. cbn [mbind option_bind].
    injection Hsp as <- <-. exists h, map', (Some q'). done.
Qed.

Lemma waiting_ok h a name v w : harbor_repr h a → name_val (ah_names a) name = (v, w) → Forall msg_ok w.
Proof.
  intros Hr Ev. unfold name_val in Ev. destruct (ah_names a !! name) as [x|] eqn:Ex; simpl in Ev; [|by injection Ev as <- <-].
  pose proof (hr_names_ok _ _ Hr name x Ex) as Hx. by rewrite Ev in Hx.
Qed.

Lemma update_name_ok h a name handle a' e : harbor_repr h a → is_name name → spec_update_name a name handle = Some (a', e) →
  ∃ h', update_name mem h name handle = Some (h', e) ∧ harbor_repr h' a'.
Proof.
  intros Hr Hname Hsp. unfold spec_update_name in Hsp. destruct (name_val (ah_names a) name) as [v w] eqn:Ev.
  destruct (search_insert_ok _ _ name (hr_map _ _ Hr) Hname) as (p & map1 & n & Es & Hm1 & Hp1 & [Hkv Hkq] & Hkh). rewrite Ev in *. simpl in Hkv, Hkq.
  destruct (points_get _ _ _ _ Hp1) as (Hg1 & Hkey & _). unfold update_name. rewrite Es. cbn [mbind option_bind]. rewrite Hg1. cbn [mbind option_bind].
  assert (Hfinal : ∀ n', kv_key n' = name → kv_hash n' = name_hash name → kv_value n' = handle → kv_queue n' = None →
    ∃ map', node_set map1 p n' = Some map' ∧ ∀ h1 a1, harbor_repr h1 a1 → ah_names a1 = ah_names a →
      harbor_repr (set_map h1 map') (put_name a1 name (handle, []))).
  { intros n' K1 K2 K3 K4. destruct (node_set_ok map1 _ p name n n' (handle, []) Hm1 Hname Hp1 K1 K2) as (map' & -> & Hm' & _).
    { split; [done|]. by rewrite K4. }
    exists map'. split; [done|]. intros h1 a1 Hr1 Hn1. apply map_ok; [done| |done]. rewrite Hn1. by rewrite insert_insert_eq in Hm'. }
  destruct (node_set_some map1 p name n (set_value n handle) Hp1 Hkey) as (map2 & Eset2 & Hp2 & Hset2). rewrite Eset2. cbn [mbind option_bind].
  cbn [set_value kv_queue]. apply bind_Some in Hsp as ([a1 e1] & Hsp & [= <- <-]). destruct (kv_queue n) as [q|] eqn:Eq.
  - cbn [strict_repr] in Hkq. destruct Hkq as [Hq Hne].
    pose proof (waiting_ok _ _ _ _ _ Hr Ev) as Hw.
    destruct w as [|m w]; [done|].
    destruct (dispatch_name_ok h a map2 p name (set_value n handle) q (m :: w) a1 e1) as (h' & map3 & q' & -> & Hr' & Eset3 & Hq'); [done..|].
    cbn [mbind option_bind]. destruct (node_set_some map2 p name _ (set_kv_queue (set_value n handle) q') Hp2) as (map3' & Eset3' & Hp3 & Hset3); [done|].
    rewrite Eset3 in Eset3'. injection Eset3' as <-. change (hb_map (set_map h' map3)) with map3.
    rewrite (proj1 (points_get _ _ _ _ Hp3)). cbn [mbind option_bind set_kv_queue kv_queue]. rewrite (release_ok q' []) by done.
    cbn [mbind option_bind]. rewrite Hset3, Hset2.
    destruct (Hfinal (set_kv_queue (set_kv_queue (set_value n handle) q') None)) as (map4 & -> & Hr4); [done..|]. cbn [mbind option_bind].
    rewrite app_nil_r. eexists. split; [done|]. apply (Hr4 h' a1 Hr').
    unfold send_waiting in Hsp. repeat (apply bind_Some in Hsp as (? & _ & Hsp) || case_match); by injection Hsp as <- _.
  - cbn [strict_repr] in Hkq. subst w. injection Hsp as <- <-.
    destruct (Hfinal (set_value n handle)) as (map' & Eset & Hr'); [done..|]. rewrite Eset2 in Eset. injection Eset as <-. eauto.
Qed.

(** ** Messages out *)

(** What the functions return. *)
Definition kept_flag (kept : bool) : Z := if kept then 1 else 0.

Lemma send_handle_ok h a src dst type ses msg sz a' e kept : harbor_repr h a → block_ok mem msg sz →
  spec_send_handle a src dst type ses msg sz = Some (a', e, kept) →
  ∃ h', remote_send_handle mem h src dst type ses msg sz = Some (h', e, kept_flag kept) ∧ harbor_repr h' a'.
Proof.
  intros Hr Hblk Hsp. unfold spec_send_handle in Hsp. unfold remote_send_handle. rewrite Z.shiftr_div_pow2 by done.
  change (2 ^ HANDLE_REMOTE_SHIFT) with (2 ^ 24). rewrite (hr_id _ _ Hr). destruct (dst / 2 ^ 24 =? ah_id a).
  { injection Hsp as <- <- <-. eauto. }
  apply bind_Some in Hsp as (l & Hl & Hsp). destruct (get_link_ok _ _ _ _ Hr Hl) as (s & Hs & (Hf & Hq & Hst) & Hm & Hid).
  rewrite Hs. cbn [mbind option_bind]. rewrite Hf. set (header := mk_header src (typed_destination type dst) (u32 ses)) in *.
  assert (Hqueue : l_status l = AWait ∨ l_status l = AShake →
    (_ ← room (l_pending l ++ [mk_hmsg header msg sz]); Some (put_link a (dst / 2 ^ 24) (set_pending l (l_pending l ++ [mk_hmsg header msg sz])), [], true))
      = Some (a', e, kept) →
    ∃ h', (queue ← push_queue (default new_queue (s_queue s)) msg sz header; h ← put_slave h (dst / 2 ^ 24) (set_queue s (Some queue)); Some (h, [], 1))
      = Some (h', e, kept_flag kept) ∧ harbor_repr h' a').
  { intros Hws Hsp'. apply bind_Some in Hsp' as ([] & Hroom & [= <- <- <-]). unfold room, c_assert in Hroom.
    destruct (Z.leb_spec (Z.of_nat (length (l_pending l ++ [mk_hmsg header msg sz]))) QUEUE_MAX) as [Hmax|]; [|done].
    rewrite length_app in Hmax. simpl in Hmax.
    destruct (opt_push _ _ (mk_hmsg header msg sz) Hq) as (q' & E & Hq'); [lia|]. unfold push_queue. rewrite E. cbn [mbind option_bind].
    destruct (put_ok h a (dst / 2 ^ 24) (set_queue s (Some q')) (set_pending l (l_pending l ++ [mk_hmsg header msg sz]))) as [-> Hr'];
      [done|done| |by apply Forall_app; split; [|by constructor]|cbn [mbind option_bind]; eauto].
    split_and!; [done..|]. cbn [set_pending l_status]. destruct Hws as [E'|E']; rewrite E' in *; done. }
  destruct (l_status l) eqn:Est.
  - destruct Hst as (-> & -> & _). cbn [Z.eqb orb]. change (STATUS_WAIT =? STATUS_DOWN) with false. cbv iota. apply Hqueue; [by left|done].
  - destruct Hst as (Hfd & -> & _). rewrite orb_true_r. change (STATUS_HANDSHAKE =? STATUS_DOWN) with false. cbv iota. apply Hqueue; [by right|done].
  - destruct Hst as (Hfd & _ & _ & Hrd). rewrite (proj2 (Z.eqb_neq _ _)) by done.
    replace (s_status s =? STATUS_HANDSHAKE) with false by (destruct Hrd as [(-> & _)|(-> & _)]; done). cbn [orb].
    rewrite send_remote_ok by done. injection Hsp as <- <- <-. cbn [mbind option_bind]. eauto.
  - destruct Hst as (Hfd & ->). rewrite (proj2 (Z.eqb_neq _ _)) by done. change (STATUS_DOWN =? STATUS_HANDSHAKE) with false. cbn [orb].
    rewrite send_remote_ok by done. injection Hsp as <- <- <-. cbn [mbind option_bind]. eauto.
Qed.

Lemma send_name_ok h a src name type ses msg sz a' e kept : harbor_repr h a → is_name name → block_ok mem msg sz →
  spec_send_name a src name type ses msg sz = Some (a', e, kept) →
  ∃ h', remote_send_name mem h src name type ses msg sz = Some (h', e, kept_flag kept) ∧ harbor_repr h' a'.
Proof.
  intros Hr Hname Hblk Hsp. unfold spec_send_name in Hsp. destruct (name_val (ah_names a) name) as [v w] eqn:Ev.
  destruct (search_insert_ok _ _ name (hr_map _ _ Hr) Hname) as (p & map1 & n & Es & Hm1 & Hp1 & [Hkv Hkq] & Hkh). rewrite Ev in *. simpl in Hkv, Hkq.
  destruct (points_get _ _ _ _ Hp1) as (Hg1 & Hkey & _). unfold remote_send_name. rewrite Es. cbn [mbind option_bind]. rewrite Hg1.
  cbn [mbind option_bind]. rewrite Hkv.
  pose proof (waiting_ok _ _ _ _ _ Hr Ev) as Hw.
  destruct (Z.eqb_spec v 0) as [E0|E0].
  - apply bind_Some in Hsp as ([] & Hroom & [= <- <- <-]). set (m := mk_hmsg _ msg sz) in *. unfold room, c_assert in Hroom.
    destruct (Z.leb_spec (Z.of_nat (length (w ++ [m]))) QUEUE_MAX) as [Hmax|]; [|done]. rewrite length_app in Hmax. simpl in Hmax.
    assert (Hopt : opt_repr (kv_queue n) w) by (destruct (kv_queue n); cbn in *; naive_solver).
    destruct (opt_push _ _ m Hopt) as (q' & E & Hq'); [lia|]. unfold push_queue. fold m. rewrite E. cbn [mbind option_bind].
    destruct (node_set_ok map1 _ p name n (set_kv_queue n (Some q')) (0, w ++ [m]) Hm1 Hname Hp1) as (map2 & -> & Hm2 & _); [done|done| |].
    { split; [simpl; lia|]. split; [done|]. by destruct w. }
    cbn [mbind option_bind]. rewrite insert_insert_eq in Hm2. rewrite (firstn_all2 name) by (destruct Hname as [-> _]; done).
    rewrite (hr_slave _ _ Hr). eexists. split; [done|]. apply map_ok; [done..|]. apply Forall_app. split; [done|]. by constructor.
  - apply (send_handle_ok (set_map h map1) (put_name a name (v, w))); [|done|done]. by apply map_ok.
Qed.

(** ** Commands *)

Lemma link_command_ok h a cmd buffer a' e : harbor_repr h a → spec_link a cmd buffer = Some (a', e) →
  ∃ h', command_link mem h cmd buffer = Some (h', e) ∧ harbor_repr h' a'.
Proof.
  intros Hr Hsp. unfold spec_link in Hsp. unfold command_link. destruct (scan_fd_id buffer) as [fd id].
  destruct ((fd =? 0) || (id <=? 0) || (REMOTE_MAX <=? id)) eqn:Ebad; [injection Hsp as <- <-; eauto|]. bool_to_prop.
  apply bind_Some in Hsp as (l & Hl & Hsp). destruct (get_link_ok _ _ _ _ Hr Hl) as (s & Hs & (Hf & Hq & Hst) & Hm & Hid).
  rewrite Hs. cbn [mbind option_bind]. rewrite Hf. pose proof (repr_slaves _ _ Hr) as H256.
  destruct (Z.eqb_spec (l_fd l) 0) as [E0|E0]; cbn [negb] in *; [|injection Hsp as <- <-; eauto].
  rewrite (proj1 (wait_iff _ _ _ _ Hr Hl) E0) in Hst. destruct Hst as (_ & _ & Hrd & Hsz).
  rewrite put_slave_eq by lia. fold (with_slave h id (set_fd s fd)). cbn [mbind option_bind]. unfold handshake.
  rewrite with_slave_get by lia. cbn [mbind option_bind set_fd s_fd]. change (hb_id (with_slave h id (set_fd s fd))) with (hb_id h).
  rewrite (hr_id _ _ Hr). rewrite !with_slave_put by lia. cbn [mbind option_bind]. destruct (cmd =? 83).
  - injection Hsp as <- <-. eexists. split; [done|]. apply put_ok; [done|done| |done]. by split_and!.
  - injection Hsp as <- <-.
    destruct (put_ok h a id (set_status (set_fd s fd) STATUS_HEADER) (mk_alink fd AOpen (l_pending l) [])) as [_ Hr1]; [done|done| |done|].
    { split_and!; [done..|]. split; [done|]. split; [done|]. split; [done|]. left. simpl. split_and!; [done|lia|lia|done]. }
    destruct (dispatch_queue_ok _ _ id _ Hr1 ltac:(by eapply put_link_get) ltac:(done)) as (h2 & -> & Hr2). cbn [mbind option_bind].
    rewrite put_link_put in Hr2. eauto.
Qed.

(** A text without 0. *)
Definition is_text (l : list Z) : Prop := Forall (λ b, b ≠ 0) l.

Lemma until_nul_text l r : is_text l → until_nul (l ++ 0 :: r) = Some l.
Proof.
  induction 1 as [|b l Hb _ IH]; [done|]. cbn [app until_nul]. rewrite (proj2 (Z.eqb_neq _ _)) by done. by rewrite IH.
Qed.

Lemma padded_text l k : is_text l → padded (l ++ replicate k 0) = true.
Proof.
  induction 1 as [|b l Hb _ IH]; cbn [app padded].
  - induction k as [|k IH]; [done|]. simpl in *. clear. induction k; [done|]. simpl. done.
  - by rewrite (proj2 (Z.eqb_neq _ _)).
Qed.

Lemma command_ok h a msg ses src a' e : harbor_repr h a → is_text msg → spec_command a msg src = Some (a', e) →
  ∃ h', harbor_command mem h msg ses src = Some (h', e) ∧ harbor_repr h' a'.
Proof.
  intros Hr Ht Hsp. unfold spec_command in Hsp. destruct msg as [|c msg]; [done|]. unfold harbor_command.
  change (arr_get (c :: msg) 0) with (Some c). cbn [mbind option_bind]. set (m := c :: msg) in *.
  assert (Htn : is_text (drop 2 m)) by by apply Forall_drop.
  destruct (c =? 78).
  - destruct (((length m <=? 2)%nat || (18 <=? length m)%nat)) eqn:Elen.
    + rewrite orb_true_iff, Nat.leb_le, Nat.leb_le in Elen. unfold GLOBALNAME_LENGTH.
      replace ((Z.of_nat (length m) - 2 <=? 0) || (16 <=? Z.of_nat (length m) - 2)) with true by (symmetry; apply orb_true_iff; rewrite !Z.leb_le; lia).
      injection Hsp as <- <-. eauto.
    + apply orb_false_iff in Elen as [E1 E2]. apply Nat.leb_gt in E1, E2. unfold GLOBALNAME_LENGTH.
      rewrite (proj2 (Z.leb_gt _ _)), (proj2 (Z.leb_gt 16 _)) by lia. cbn [orb].
      assert (Hl : length (drop 2 m) = (length m - 2)%nat) by apply length_drop.
      replace (Z.to_nat (16 - (Z.of_nat (length m) - 2))) with (16 - length (drop 2 m))%nat by lia.
      apply (update_name_ok h a); [done| |done]. split; [rewrite length_app, length_replicate; lia|by apply padded_text].
  - destruct ((c =? 83) || (c =? 65)); [|injection Hsp as <- <-; eauto].
    destruct (Nat.leb_spec (length m) 1); [done|]. rewrite (proj2 (Z.leb_le _ _)) by lia. cbn [c_assert mbind option_bind].
    unfold cstr_at. cbn [Z.leb Z.compare]. rewrite drop_0, until_nul_text by done. cbn [mbind option_bind]. by apply (link_command_ok h a).
Qed.

(** ** The service *)

(** The events the rest of the system can send: socket data are bytes, names
    and commands are texts, and blocks have their sizes. *)
Definition valid_event (ev : hevent) : Prop :=
  match ev with
  | HvSocket m => sm_type m = SOCKET_DATA → ∃ d, sm_buffer m = Some d ∧ sm_ud m = Z.of_nat (length d) ∧ Forall is_byte d
  | HvHarbor _ _ msg => is_text msg
  | HvSystem _ _ r => block_ok mem (rm_message r) (rm_sz r) ∧ (rm_handle r = 0 → is_name (rm_name r))
  | HvOther _ _ _ => True
  end.

Lemma socket_event_ok h a m a' e : harbor_repr h a → valid_event (HvSocket m) → spec_step a (HvSocket m) = Some (a', e) →
  ∃ h', socket_event mem known h m = Some (h', e) ∧ harbor_repr h' a'.
Proof.
  intros Hr Hv Hsp. unfold spec_step in Hsp. unfold socket_event, push_socket_data, harbor_id. rewrite !(find_ok _ _ _ _ _ Hr).
  change (link_of (Z.to_nat (REMOTE_MAX - 1)) 1 (ah_links a) (sm_id m)) with (find_link a (sm_id m)). unfold report_harbor_down. rewrite (hr_slave _ _ Hr).
  destruct (sm_type m) eqn:Et.
  1: { destruct (Hv Et) as (d & Hb & Hud & Hd). apply bind_Some in Hsp as (id & -> & Hsp). cbn [mbind option_bind].
    rewrite Hb in *. cbn [default] in *. destruct (id =? 0).
    - cbn [mbind option_bind] in *. injection Hsp as <- <-. eauto.
    - apply bind_Some in Hsp as ([a1 e1] & Hsp & [= <- <-]). rewrite Hud. cbn [mbind option_bind].
      rewrite (proj2 (Z.leb_le _ _)), (proj2 (Z.leb_le _ _)) by lia. cbn [andb c_assert mbind option_bind]. rewrite Nat2Z.id, firstn_all.
      destruct (data_ok _ _ _ _ _ _ _ Hr Hd Hsp) as (h' & -> & Hr'). cbn [mbind option_bind]. eauto. }
  all: try (apply bind_Some in Hsp as (id & -> & Hsp); cbn [mbind option_bind]); injection Hsp as <- <-; try destruct (id =? 0); eauto.
Qed.

Lemma step_ok h a ev a' e : harbor_repr h a → valid_event ev → spec_step a ev = Some (a', e) →
  ∃ h', mainloop mem known h ev = Some (h', e) ∧ harbor_repr h' a'.
Proof.
  intros Hr Hv Hsp. destruct ev as [m|ses src msg|ses src r|type ses src].
  - by eapply socket_event_ok.
  - by apply (command_ok h a).
  - cbn [mainloop]. destruct Hv as [Hblk Hname]. apply bind_Some in Hsp as ([[a1 e1] kept] & Hsp & [= <- <-]).
    destruct (Z.eqb_spec (rm_handle r) 0) as [E0|E0].
    + destruct (send_name_ok _ _ _ _ _ _ _ _ _ _ _ Hr (Hname E0) Hblk Hsp) as (h' & -> & Hr'). cbn [mbind option_bind]. destruct kept; eauto.
    + destruct (send_handle_ok _ _ _ _ _ _ _ _ _ _ _ Hr Hblk Hsp) as (h' & -> & Hr'). cbn [mbind option_bind]. destruct kept; eauto.
  - cbn [mainloop]. injection Hsp as <- <-. exists h. split; [|done]. do 3 f_equal. by destruct (ses =? 0), (type =? PTYPE_ERROR).
Qed.

Lemma harbor_run_ok h a evs a' e : harbor_repr h a → Forall valid_event evs → spec_run a evs = Some (a', e) →
  ∃ h', harbor_run mem known h evs = Some (h', e) ∧ harbor_repr h' a'.
Proof.
  revert h a e. induction evs as [|ev evs IH]; intros h a e Hr Hv Hsp; cbn [spec_run harbor_run] in *; [injection Hsp as <- <-; eauto|].
  inversion Hv as [|?? Hv1 Hv2]; subst. apply bind_Some in Hsp as ([a1 e1] & Hs1 & Hsp). apply bind_Some in Hsp as ([a2 e2] & Hs2 & [= <- <-]).
  destruct (step_ok _ _ _ _ _ Hr Hv1 Hs1) as (h1 & -> & Hr1). cbn [mbind option_bind].
  destruct (IH _ _ _ Hr1 Hv2 Hs2) as (h2 & -> & Hr2). cbn [mbind option_bind]. eauto.
Qed.

(** The state after [harbor_create] and [harbor_init]. *)
Definition spec_init (id slave : Z) : aharbor := mk_aharbor id slave ∅ (replicate 256 (mk_alink 0 AWait [] [])).

Lemma init_repr id slave : 0 <= id < 256 →
  harbor_repr (mk_harbor id slave (hb_map harbor_create) (hb_s harbor_create)) (spec_init id slave).
Proof.
  intros Hid. split; try done.
  - apply hash_new_repr.
  - cbn [hb_s harbor_create spec_init ah_links]. apply Forall2_replicate. by split_and!.
  - by apply Forall_replicate.
Qed.

End spec.
