(* ===== verification/HarborLink.v ===== *)
(** * Two nodes, and the blocks of a node

    What one harbor service writes to a link the other one reads: messages
    arrive in order with their source, destination, type, session and data,
    however the stream is cut ([harbor_delivers]).  A service frees or gives
    away every block it is sent exactly once ([harbor_buffers_once]). *)

From Stdlib Require Import ZArith Lia.
From stdpp Require Import base tactics option numbers gmap list strings.
From S2P Require Import Prelude MessageQueue HandleStorage Netpack Libc Server HarborService HarborProof HarborSpec.

(** ** Reading what was written *)

Lemma header_to_message_length hd : length (header_to_message hd) = 12%nat.
Proof. done. Qed.

Lemma frame_length d hd : length (frame d hd) = (16 + length d)%nat.
Proof. unfold frame. rewrite !length_app, header_to_message_length. simpl. lia. Qed.

Lemma be_val_prefix n rest : 0 <= n < 2 ^ 32 → be_val (take 4 (to_bigendian n ++ rest)) = n.
Proof. intros. rewrite take_app_length' by done. by apply be_val_bigendian. Qed.

Definition u32_header (hd : remote_message_header) : Prop :=
  0 <= hd_source hd < 2 ^ 32 ∧ 0 <= hd_destination hd < 2 ^ 32 ∧ 0 <= hd_session hd < 2 ^ 32.

Section link.
Context (mem : Z → list Z) (known : Z → bool).

(** The message of a header and its data, on the node [id]. *)
Lemma deliver_content id d hd : u32_header hd →
  deliver known id (d ++ header_to_message hd) =
  let type := hd_destination hd / 2 ^ 24 in
  let destination := id * 2 ^ 24 + hd_destination hd mod 2 ^ 24 in
  let ses := i32 (hd_session hd) in
  HSend (hd_source hd) destination (Z.lor type PTYPE_TAG_DONTCOPY) ses (Bytes d) ::
  (if send_result known destination ses <? 0 then
     (if type =? PTYPE_ERROR then [] else [HSend destination (hd_source hd) PTYPE_ERROR ses Null]) ++
     [HError "Unknown destination :%x from :%x type(%d)" [destination; hd_source hd; type]]
   else []).
Proof.
  intros (H1 & H2 & H3). unfold deliver. rewrite length_app, header_to_message_length.
  replace (length d + 12 - 12)%nat with (length d) by lia. rewrite drop_app_length, take_app_length. unfold header_to_message.
  rewrite (drop_app_length' _ _ 4) by done. rewrite !be_val_prefix by done.
  change (drop 8 (to_bigendian (hd_source hd) ++ to_bigendian (hd_destination hd) ++ to_bigendian (hd_session hd)))
    with (to_bigendian (hd_session hd)).
  by rewrite be_val_bigendian.
Qed.

(** Frames on the stream. *)
Lemma cut_frame id d hd rest e r bad : u32_header hd → Z.of_nat (length d) + 12 < 2 ^ 24 →
  cut known id rest = Some (e, r, bad) →
  cut known id (frame d hd ++ rest) = Some (deliver known id (d ++ header_to_message hd) ++ e, r, bad).
Proof.
  intros Hh Hd Hc. unfold cut in *. cbn [cut_f]. pose proof (frame_length d hd) as Hl.
  rewrite decide_False by (rewrite length_app; lia).
  assert (Hn : be_val (take 4 (frame d hd ++ rest)) = Z.of_nat (length d) + 12).
  { unfold frame. rewrite <- app_assoc. apply be_val_prefix. lia. }
  rewrite Hn. destruct (Z.leb_spec (2 ^ 24) (Z.of_nat (length d) + 12)); [lia|]. destruct (Z.ltb_spec (Z.of_nat (length d) + 12) 12); [lia|].
  rewrite decide_False by (rewrite length_app; lia).
  assert (Hr : drop (4 + Z.to_nat (Z.of_nat (length d) + 12)) (frame d hd ++ rest) = rest) by (apply drop_app_length'; lia).
  assert (Hct : take (Z.to_nat (Z.of_nat (length d) + 12)) (drop 4 (frame d hd ++ rest)) = d ++ header_to_message hd).
  { unfold frame. rewrite <- !app_assoc. rewrite (drop_app_length' (to_bigendian _)) by done. rewrite app_assoc. apply take_app_length'.
    rewrite length_app, header_to_message_length. lia. }
  rewrite Hr, Hct. rewrite (cut_f_enough known _ (length (frame d hd ++ rest)) _ _ _ Hc) by (rewrite length_app; lia). done.
Qed.

Lemma cut_nil id : cut known id [] = Some ([], [], false).
Proof. done. Qed.

(** A stream read in two parts. *)
Lemma cut_app id s1 s2 e r : cut known id (s1 ++ s2) = Some (e, r, false) →
  ∃ e1 r1 e2, cut known id s1 = Some (e1, r1, false) ∧ cut known id (r1 ++ s2) = Some (e2, r, false) ∧ e = e1 ++ e2.
Proof.
  remember (length s1) as k eqn:Hk. revert s1 Hk e. induction (lt_wf k) as [k _ IH]. intros s1 -> e Hc.
  assert (Hstop : cut known id s1 = Some ([], s1, false) →
    ∃ e1 r1 e2, cut known id s1 = Some (e1, r1, false) ∧ cut known id (r1 ++ s2) = Some (e2, r, false) ∧ e = e1 ++ e2).
  { intros H. exists [], s1, e. done. }
  unfold cut in Hstop at 1. cbn [cut_f] in Hstop. case_decide as H4; [by apply Hstop|].
  assert (Htk : take 4 (s1 ++ s2) = take 4 s1) by (apply take_app_le; lia).
  assert (Hn : 12 <= be_val (take 4 s1) < 2 ^ 24).
  { unfold cut in Hc. cbn [cut_f] in Hc. rewrite decide_False in Hc by (rewrite length_app; lia). rewrite Htk in Hc.
    destruct (Z.leb_spec (2 ^ 24) (be_val (take 4 s1))); [done|]. destruct (Z.ltb_spec (be_val (take 4 s1)) 12); [done|lia]. }
  destruct (Z.leb_spec (2 ^ 24) (be_val (take 4 s1))); [lia|]. destruct (Z.ltb_spec (be_val (take 4 s1)) 12); [lia|].
  set (n := be_val (take 4 s1)) in *. case_decide as Hlen; [by apply Hstop|]. clear Hstop.
  destruct (cut_cons known id (s1 ++ s2) n e r false) as (e' & -> & Hc'); [by rewrite Htk|done|rewrite length_app; lia|done|].
  rewrite drop_app_le in Hc' by lia.
  destruct (IH (length (drop (4 + Z.to_nat n) s1)) ltac:(rewrite length_drop; lia) _ eq_refl _ Hc') as (e1 & r1 & e2 & Hc1 & Hc2 & ->).
  exists (deliver known id (take (Z.to_nat n) (drop 4 s1)) ++ e1), r1, e2. split_and!; [|done|].
  - unfold cut. cbn [cut_f]. rewrite decide_False by done. fold n. destruct (Z.leb_spec (2 ^ 24) n); [lia|]. destruct (Z.ltb_spec n 12); [lia|].
    rewrite decide_False by done. rewrite (cut_f_enough known _ (length s1) _ _ _ Hc1) by (rewrite length_drop; lia). done.
  - rewrite drop_app_le, take_app_le by (rewrite ?length_drop; lia). by rewrite app_assoc.
Qed.

(** ** The receiving node *)

Definition data_event (fd : Z) (chunk : list Z) : hevent := HvSocket (data_message fd chunk).

Definition is_hsend (x : heffect) : Prop := match x with HSend _ _ _ _ _ => True | _ => False end.
#[global] Instance is_hsend_dec x : Decision (is_hsend x).
Proof. destruct x; simpl; apply _. Defined.

(** The messages a node sends to services. *)
Definition sent (e : list heffect) : list heffect := filter is_hsend e.

Lemma sent_app e e' : sent (e ++ e') = sent e ++ sent e'.
Proof. apply filter_app. Qed.

Lemma link_of_ext n i l l' fd : l_fd <$> l = l_fd <$> l' → link_of n i l fd = link_of n i l' fd.
Proof.
  intros H. revert i. induction n as [|n IH]; intros i; [done|]. cbn [link_of]. unfold arr_get. destruct (0 <=? i); [|done].
  assert (E : l_fd <$> l !! Z.to_nat i = l_fd <$> l' !! Z.to_nat i) by (by rewrite <- !list_lookup_fmap, H).
  destruct (l !! Z.to_nat i), (l' !! Z.to_nat i); try done. cbn in *. injection E as ->. by rewrite IH.
Qed.

Lemma find_put_link b id l l' fd : get_link b id = Some l → l_fd l' = l_fd l → find_link (put_link b id l') fd = find_link b fd.
Proof.
  intros Hl Hfd. apply link_of_ext. cbn [put_link ah_links]. rewrite list_fmap_insert, Hfd. apply list_insert_id.
  unfold get_link, arr_get in Hl. destruct (0 <=? id); [|done]. by rewrite list_lookup_fmap, Hl.
Qed.

(** What is left of a stream holds no whole message. *)
Lemma cut_left id s e r : cut known id s = Some (e, r, false) → cut known id r = Some ([], r, false).
Proof.
  unfold cut. generalize (S (length s)) as f. intros f. revert s e. induction f as [|f IH]; intros s e Hc; [done|]. pose proof Hc as Hc0.
  cbn [cut_f] in Hc. case_decide as H4; [injection Hc as <- <-; cbn [cut_f]; by rewrite decide_True|].
  destruct (2 ^ 24 <=? _) eqn:E1; [done|]. destruct (_ <? 12) eqn:E2; [done|]. case_decide as H5.
  - injection Hc as <- <-. cbn [cut_f]. by rewrite decide_False, E1, E2, decide_True.
  - apply bind_Some in Hc as ([[e' r'] bad] & Hc & [= <- <- ->]). by eapply IH.
Qed.

Lemma run_cons b ev evs b1 e1 b2 e2 : spec_step mem known b ev = Some (b1, e1) → spec_run mem known b1 evs = Some (b2, e2) →
  spec_run mem known b (ev :: evs) = Some (b2, e1 ++ e2).
Proof. intros H1 H2. cbn [spec_run]. rewrite H1. cbn [mbind option_bind]. by rewrite H2. Qed.

Lemma run_app b evs evs' b1 e1 b2 e2 : spec_run mem known b evs = Some (b1, e1) → spec_run mem known b1 evs' = Some (b2, e2) →
  spec_run mem known b (evs ++ evs') = Some (b2, e1 ++ e2).
Proof.
  revert b e1. induction evs as [|ev evs IH]; intros b e1 H1 H2; cbn [app]; [by injection H1 as <- <-|].
  cbn [spec_run] in H1. apply bind_Some in H1 as ([b3 e3] & Hs & H1). apply bind_Some in H1 as ([b4 e4] & Hr & [= <- <-]).
  rewrite <- app_assoc. eapply run_cons; [done|]. by apply IH.
Qed.

Lemma step_data b id fd c b' e : find_link b fd = Some id → id ≠ 0 → spec_data mem known b id fd c = Some (b', e) →
  spec_step mem known b (data_event fd c) = Some (b', e ++ [HFreeData c]).
Proof.
  intros Hf Hid Hs. unfold spec_step, data_event, data_message. cbn [sm_type sm_id sm_buffer]. rewrite Hf. cbn [mbind option_bind].
  rewrite (proj2 (Z.eqb_neq _ _)) by done. change (default [] (Some c)) with c. by rewrite Hs.
Qed.

(** Data of an open link, in any pieces. *)
Lemma feed_open b id l fd chunks e r : get_link b id = Some l → l_status l = AOpen → find_link b fd = Some id → id ≠ 0 →
  cut known (ah_id b) (l_bytes l) = Some ([], l_bytes l, false) →
  cut known (ah_id b) (l_bytes l ++ concat chunks) = Some (e, r, false) →
  ∃ b' eb, spec_run mem known b (data_event fd <$> chunks) = Some (b', eb) ∧ sent eb = sent e.
Proof.
  intros Hl Ho Hf Hid. revert b l e Hl Ho Hf. induction chunks as [|c cs IH]; intros b l e Hl Ho Hf Hres Hc.
  - exists b, []. split; [done|]. cbn [concat] in Hc. rewrite app_nil_r, Hres in Hc. by injection Hc as <- _.
  - cbn [concat] in Hc. rewrite app_assoc in Hc. destruct (cut_app _ _ _ _ _ Hc) as (e1 & r1 & e2 & Hc1 & Hc2 & ->).
    set (b1 := put_link b id (set_bytes l r1)).
    destruct (IH b1 (set_bytes l r1) e2) as (b2 & eb & Hrun & Hs); [by eapply put_link_get|done| | |done|].
    { rewrite <- Hf. by eapply find_put_link. }
    { by eapply cut_left. }
    exists b2, ((e1 ++ [HFreeData c]) ++ eb). split.
    + rewrite fmap_cons. eapply run_cons; [|exact Hrun]. apply (step_data _ id); [done..|]. unfold spec_data. rewrite Hl. cbn [mbind option_bind].
      rewrite Ho. unfold parse. rewrite Hc1. done.
    + rewrite !sent_app, Hs. cbn. by rewrite app_nil_r.
Qed.

(** The same from the first byte on. *)
Lemma feed_shake b id l fd chunks s e r : get_link b id = Some l → l_status l = AShake → l_pending l = [] → find_link b fd = Some id → id ≠ 0 →
  Forall (λ c, c ≠ []) chunks → concat chunks = id :: s → cut known (ah_id b) s = Some (e, r, false) →
  ∃ b' eb, spec_run mem known b (data_event fd <$> chunks) = Some (b', eb) ∧ sent eb = sent e.
Proof.
  intros Hl Ho Hp Hf Hid Hne Hcc Hc. destruct chunks as [|c cs]; [done|]. inversion Hne as [|?? Hc0 _]; subst. destruct c as [|x c]; [done|].
  cbn [concat app] in Hcc. injection Hcc as -> <-. destruct (cut_app _ _ _ _ _ Hc) as (e1 & r1 & e2 & Hc1 & Hc2 & ->).
  set (l1 := mk_alink (l_fd l) AOpen [] r1). set (b1 := put_link b id l1).
  destruct (feed_open b1 id l1 fd cs e2 r) as (b2 & eb & Hrun & Hs); [by eapply put_link_get|done| |done| |done|].
  { rewrite <- Hf. by eapply find_put_link. }
  { by eapply cut_left. }
  exists b2, ((e1 ++ [HFreeData (id :: c)]) ++ eb). split.
  - rewrite fmap_cons. eapply run_cons; [|exact Hrun]. apply (step_data _ id); [done..|]. unfold spec_data. rewrite Hl. cbn [mbind option_bind].
    rewrite Ho, Z.eqb_refl. cbn [negb]. unfold parse. cbn [put_link ah_id set_bytes l_fd l_status l_pending]. rewrite Hc1. cbn [mbind option_bind].
    rewrite Hp. unfold flush. cbn [fmap list_fmap concat app]. by rewrite put_link_put.
  - rewrite !sent_app, Hs. cbn. by rewrite app_nil_r.
Qed.

(** ** The sending node *)

(** A message for a service of another node. *)
Record omsg := mk_omsg { om_session : Z; om_source : Z; om_remote : remote_message }.

Definition om_event (m : omsg) : hevent := HvSystem (om_session m) (om_source m) (om_remote m).

Definition om_header (m : omsg) : remote_message_header :=
  mk_header (om_source m) (typed_destination (rm_type (om_remote m)) (rm_handle (om_remote m))) (u32 (om_session m)).

Definition om_hmsg (m : omsg) : harbor_msg := mk_hmsg (om_header m) (rm_message (om_remote m)) (rm_sz (om_remote m)).

Definition om_data (m : omsg) : list Z := msg_data mem (rm_message (om_remote m)) (rm_sz (om_remote m)).

(** What the message is when it was sent to a service of the same node. *)
Definition om_local (m : omsg) : heffect :=
  HSend (om_source m) (rm_handle (om_remote m)) (Z.lor (rm_type (om_remote m)) PTYPE_TAG_DONTCOPY) (om_session m) (Bytes (om_data m)).

(** The messages for node [id]: handles and sessions have their widths, and the
    data fits a frame. *)
Definition om_ok (id : Z) (m : omsg) : Prop :=
  block_ok mem (rm_message (om_remote m)) (rm_sz (om_remote m)) ∧ rm_sz (om_remote m) + 12 < 2 ^ 24 ∧
  rm_handle (om_remote m) / 2 ^ 24 = id ∧ 0 <= om_source m < 2 ^ 32 ∧ 0 <= om_session m <= INT_MAX ∧ 0 <= rm_type (om_remote m) < 256.

Lemma om_data_length m id : om_ok id m → Z.of_nat (length (om_data m)) = rm_sz (om_remote m).
Proof. intros ([Hs _] & _). unfold om_data, msg_data. rewrite length_take. lia. Qed.

Lemma typed_destination_val type dst : 0 <= type < 256 → typed_destination type dst = type * 2 ^ 24 + dst mod 2 ^ 24.
Proof.
  intros Ht. unfold typed_destination, HANDLE_MASK, HANDLE_REMOTE_SHIFT. change 16777215 with (2 ^ 24 - 1). rewrite land_ones_mod by lia.
  rewrite u32_small by (rewrite Z.shiftl_mul_pow2; lia). apply lor_shiftl_add; [lia|]. apply Z.mod_pos_bound. lia.
Qed.

(** The receiving node delivers the message as the sending node would. *)
Lemma om_deliver id m : om_ok id m → known (rm_handle (om_remote m)) = true →
  u32_header (om_header m) ∧ deliver known id (om_data m ++ header_to_message (om_header m)) = [om_local m].
Proof.
  intros (_ & _ & Hid & Hsrc & Hses & Hty) Hk. unfold INT_MAX in *. set (dst := rm_handle (om_remote m)) in *.
  pose proof (Z.mod_pos_bound dst (2 ^ 24) ltac:(lia)) as Hm.
  assert (Hu : u32_header (om_header m)).
  { split_and!; cbn [om_header hd_source hd_destination hd_session]; rewrite ?typed_destination_val; fold dst; try lia; try apply u32_range. }
  split; [done|]. rewrite deliver_content by done. cbn [om_header hd_source hd_destination hd_session]. rewrite typed_destination_val by done.
  fold dst. rewrite Z.div_add_l, (Z.div_small (dst mod 2 ^ 24)), Z.add_0_r by lia.
  rewrite (Z.add_comm (_ * 2 ^ 24) (dst mod 2 ^ 24)), Z_mod_plus_full, Z.mod_mod by lia.
  replace (id * 2 ^ 24 + dst mod 2 ^ 24) with dst by (rewrite <- Hid; pose proof (Z.div_mod dst (2 ^ 24)); lia).
  rewrite u32_small, i32_small by (unfold INT_MIN, INT_MAX; lia). unfold send_result. rewrite Hk.
  rewrite (proj2 (Z.ltb_ge _ _)) by lia. done.
Qed.

Lemma send_effects_small fd m id : om_ok id m →
  send_effects mem fd (rm_message (om_remote m)) (rm_sz (om_remote m)) (om_header m) = [HSocketSend fd (frame (om_data m) (om_header m))].
Proof. intros (_ & Hsz & _). unfold send_effects. by rewrite (proj2 (Z.ltb_ge _ _)) by lia. Qed.

(** The part of a message to node [id] in the specification. *)
Lemma om_step a id l m : om_ok id m → get_link a id = Some l → id ≠ ah_id a → 0 < id →
  spec_step mem known a (om_event m) =
  match l_status l with
  | AWait | AShake => _ ← room (l_pending l ++ [om_hmsg m]); Some (put_link a id (set_pending l (l_pending l ++ [om_hmsg m])), [])
  | AOpen | ADown => Some (a, [HSocketSend (l_fd l) (frame (om_data m) (om_header m)); HFree (rm_message (om_remote m))])
  end.
Proof.
  intros Hok Hl Hne Hpos. pose proof Hok as (_ & _ & Hid & _). unfold spec_step, om_event.
  assert (rm_handle (om_remote m) ≠ 0) by (intros E; rewrite E in Hid; change (0 / 2 ^ 24) with 0 in Hid; lia).
  rewrite (proj2 (Z.eqb_neq _ _)) by done. unfold spec_send_handle. rewrite Hid, (proj2 (Z.eqb_neq _ _)) by done. rewrite Hl. cbn [mbind option_bind].
  change (mk_header (om_source m) (typed_destination (rm_type (om_remote m)) (rm_handle (om_remote m))) (u32 (om_session m))) with (om_header m).
  change (mk_hmsg (om_header m) (rm_message (om_remote m)) (rm_sz (om_remote m))) with (om_hmsg m).
  destruct (l_status l); rewrite ?(send_effects_small _ _ id) by done; try done; by destruct (room _).
Qed.

(** Messages that wait for the connection, ... *)
Lemma wait_run a id l ms : Forall (om_ok id) ms → get_link a id = Some l → l_status l = AWait → id ≠ ah_id a → 0 < id →
  Z.of_nat (length (l_pending l ++ (om_hmsg <$> ms))) <= QUEUE_MAX →
  spec_run mem known a (om_event <$> ms) = Some (put_link a id (set_pending l (l_pending l ++ (om_hmsg <$> ms))), []).
Proof.
  intros Hok Hl Hw Hne Hpos. revert a l Hl Hw Hne. induction Hok as [|m ms Hm _ IH]; intros a l Hl Hw Hne Hmax.
  - cbn [fmap list_fmap]. rewrite app_nil_r. replace (set_pending l (l_pending l)) with l by by destruct l. by rewrite put_link_same.
  - rewrite fmap_cons. set (l1 := set_pending l (l_pending l ++ [om_hmsg m])).
    assert (E : l_pending l1 ++ (om_hmsg <$> ms) = l_pending l ++ (om_hmsg <$> (m :: ms))) by (cbn; by rewrite <- app_assoc).
    replace (@nil heffect) with (@nil heffect ++ []) by done. eapply run_cons.
    + rewrite (om_step a id l m) by done. rewrite Hw. unfold room, c_assert. rewrite (proj2 (Z.leb_le _ _)); [done|].
      rewrite length_app, length_fmap in Hmax. rewrite length_app. simpl in *. lia.
    + pose proof (IH (put_link a id l1) l1 ltac:(by eapply put_link_get) Hw Hne ltac:(by rewrite E)) as Hrest.
      rewrite put_link_put, E in Hrest. exact Hrest.
Qed.

(** ... and messages of an open link. *)
Lemma open_run a id l ms : Forall (om_ok id) ms → get_link a id = Some l → l_status l = AOpen → id ≠ ah_id a → 0 < id →
  spec_run mem known a (om_event <$> ms) =
  Some (a, concat ((λ m, [HSocketSend (l_fd l) (frame (om_data m) (om_header m)); HFree (rm_message (om_remote m))]) <$> ms)).
Proof.
  intros Hok Hl Ho Hne Hpos. induction Hok as [|m ms Hm _ IH]; [done|]. rewrite !fmap_cons. cbn [concat]. eapply run_cons; [|exact IH].
  rewrite (om_step a id l m) by done. by rewrite Ho.
Qed.

(** The command that an accepted connection to node [id] is [fd]. *)
Definition accept_text (fd id : Z) : list Z := lit "A " ++ print_d fd ++ 32 :: print_d id.

Lemma accept_scan fd id : 0 <= fd <= INT_MAX → 0 <= id <= INT_MAX → scan_fd_id (drop 2 (accept_text fd id)) = (fd, id).
Proof.
  intros Hfd Hid. change (drop 2 (accept_text fd id)) with (print_d fd ++ 32 :: print_d id). unfold scan_fd_id.
  rewrite scan_d_print by done. change (scan_d (32 :: print_d id)) with (scan_d (print_d id)).
  rewrite <- (app_nil_r (print_d id)). by rewrite scan_d_print.
Qed.

Lemma dec_digits_text fuel z acc : 0 <= z → is_text acc → is_text (dec_digits fuel z acc).
Proof.
  revert z acc. induction fuel as [|f IH]; intros z acc Hz Ha; [done|]. cbn [dec_digits].
  assert (is_text (48 + z mod 10 :: acc)) by (constructor; [pose proof (Z.mod_pos_bound z 10); lia|done]).
  destruct (z <? 10); [done|]. apply IH; [apply Z.div_pos; lia|done].
Qed.

Lemma print_d_text z : 0 <= z → is_text (print_d z).
Proof. intros Hz. unfold print_d. rewrite (proj2 (Z.ltb_ge z 0)) by lia. apply dec_digits_text; [done|constructor]. Qed.

Lemma accept_is_text fd id : 0 <= fd → 0 <= id → is_text (accept_text fd id).
Proof.
  intros. unfold accept_text. apply Forall_app. split; [by repeat constructor|]. apply Forall_app. split; [by apply print_d_text|].
  constructor; [done|by apply print_d_text].
Qed.

Lemma accept_step a id l fd ses src : get_link a id = Some l → l_fd l = 0 → 0 < fd <= INT_MAX → 0 < id < 256 →
  spec_step mem known a (HvHarbor ses src (accept_text fd id)) =
  Some (put_link a id (mk_alink fd AOpen [] []), [HStart fd; HSocketSend fd [u8 (ah_id a)]] ++ flush mem fd (λ h, h) (l_pending l)).
Proof.
  intros Hl H0 Hfd Hid. pose proof (accept_scan fd id ltac:(lia) ltac:(unfold INT_MAX; lia)) as Hscan. unfold spec_step, spec_command.
  unfold accept_text in *. change (lit "A ") with [65; 32] in *. cbn [app]. cbn [Z.eqb Pos.eqb orb length Nat.leb]. unfold spec_link.
  cbn [app] in Hscan. rewrite Hscan. rewrite (proj2 (Z.eqb_neq _ _)), (proj2 (Z.leb_gt _ _)), (proj2 (Z.leb_gt REMOTE_MAX _)) by (unfold REMOTE_MAX; lia).
  cbn [orb]. rewrite Hl. cbn [mbind option_bind]. rewrite H0. done.
Qed.

(** The bytes written to a socket. *)
Definition wire (fd : Z) (e : list heffect) : list Z :=
  concat (omap (λ x, match x with HSocketSend f d => if f =? fd then Some d else None | _ => None end) e).

Lemma wire_app fd e e' : wire fd (e ++ e') = wire fd e ++ wire fd e'.
Proof. unfold wire. by rewrite omap_app, concat_app. Qed.

Definition om_frames (ms : list omsg) : list Z := concat ((λ m, frame (om_data m) (om_header m)) <$> ms).

Lemma wire_frames fd ms :
  wire fd (concat ((λ m, [HSocketSend fd (frame (om_data m) (om_header m)); HFree (rm_message (om_remote m))]) <$> ms)) = om_frames ms.
Proof.
  induction ms as [|m ms IH]; [done|]. rewrite fmap_cons. cbn [concat]. rewrite wire_app, IH. unfold wire. cbn. rewrite Z.eqb_refl.
  cbn. by rewrite app_nil_r.
Qed.

Lemma flush_frames fd id ms : Forall (om_ok id) ms →
  flush mem fd (λ h, h) (om_hmsg <$> ms) = concat ((λ m, [HSocketSend fd (frame (om_data m) (om_header m)); HFree (rm_message (om_remote m))]) <$> ms).
Proof.
  induction 1 as [|m ms Hm _ IH]; [done|]. unfold flush in *. rewrite !fmap_cons. cbn [concat]. rewrite IH. f_equal.
  change (hm_buffer (om_hmsg m)) with (rm_message (om_remote m)). change (hm_size (om_hmsg m)) with (rm_sz (om_remote m)).
  change (hm_header (om_hmsg m)) with (om_header m). by rewrite (send_effects_small _ _ id).
Qed.

(** The stream of a connection: the handshake, then every message in order. *)
Lemma sender_run a id l fd ms1 ms2 ses src : get_link a id = Some l → l_status l = AWait → l_fd l = 0 → l_pending l = [] → id ≠ ah_id a →
  0 < id < 256 → 0 < fd <= INT_MAX → Forall (om_ok id) (ms1 ++ ms2) → Z.of_nat (length ms1) <= QUEUE_MAX →
  ∃ a' e, spec_run mem known a ((om_event <$> ms1) ++ HvHarbor ses src (accept_text fd id) :: (om_event <$> ms2)) = Some (a', e) ∧
    wire fd e = u8 (ah_id a) :: om_frames (ms1 ++ ms2).
Proof.
  intros Hl Hw H0 Hp Hne Hid Hfd [Hok1 Hok2]%Forall_app Hmax.
  assert (Hwait : spec_run mem known a (om_event <$> ms1) = Some (put_link a id (set_pending l (om_hmsg <$> ms1)), [])).
  { rewrite (wait_run a id l); [by rewrite Hp|done..|lia|]. rewrite Hp. cbn [app]. by rewrite length_fmap. }
  set (a1 := put_link a id (set_pending l (om_hmsg <$> ms1))) in *. set (l2 := mk_alink fd AOpen [] []).
  pose proof (accept_step a1 id (set_pending l (om_hmsg <$> ms1)) fd ses src ltac:(by eapply put_link_get) H0 Hfd Hid) as Hacc.
  unfold a1 in Hacc at 2. rewrite put_link_put in Hacc. fold l2 in Hacc.
  pose proof (open_run (put_link a id l2) id l2 ms2 Hok2 ltac:(by eapply put_link_get) eq_refl Hne ltac:(lia)) as Hopen.
  do 2 eexists. split; [eapply run_app; [exact Hwait|]; eapply run_cons; [exact Hacc|exact Hopen]|].
  cbn [l_pending set_pending l_fd l2 app]. rewrite (flush_frames fd id) by done. change (ah_id a1) with (ah_id a).
  rewrite !app_comm_cons, wire_app, wire_frames. unfold wire at 1. cbn [omap list_omap]. rewrite Z.eqb_refl. cbn [concat app].
  fold (wire fd (concat ((λ m, [HSocketSend fd (frame (om_data m) (om_header m)); HFree (rm_message (om_remote m))]) <$> ms1))).
  rewrite wire_frames. unfold om_frames. by rewrite fmap_app, concat_app.
Qed.

Lemma cut_frames id ms : Forall (om_ok id) ms → Forall (λ m, known (rm_handle (om_remote m)) = true) ms →
  cut known id (om_frames ms) = Some (om_local <$> ms, [], false).
Proof.
  induction 1 as [|m ms Hm _ IH]; intros Hk; [done|]. inversion Hk as [|?? Hk1 Hk2]; subst. destruct (om_deliver id m Hm Hk1) as [Hu Hd].
  change (om_frames (m :: ms)) with (frame (om_data m) (om_header m) ++ om_frames ms). rewrite fmap_cons.
  rewrite (cut_frame id (om_data m) (om_header m) (om_frames ms) (om_local <$> ms) [] false Hu); [by rewrite Hd| |by apply IH].
  rewrite (om_data_length _ id) by done. by destruct Hm as (_ & ? & _).
Qed.

Lemma om_valid id m : om_ok id m → 0 < id → valid_event mem (om_event m).
Proof.
  intros (Hb & _ & Hid & _) Hpos. split; [done|]. intros E. rewrite E in Hid. change (0 / 2 ^ 24) with 0 in Hid. lia.
Qed.

Lemma frames_bytes id ms : (∀ a, Forall is_byte (mem a)) → Forall (om_ok id) ms → Forall is_byte (om_frames ms).
Proof.
  intros Hmem. induction 1 as [|m ms Hm _ IH]; [constructor|]. unfold om_frames. rewrite fmap_cons. cbn [concat]. apply Forall_app. split; [|done].
  unfold frame, header_to_message. rewrite !Forall_app. split_and!; try apply to_bigendian_bytes. by apply Forall_take.
Qed.

(** C17. Messages that are sent to a handle of another node arrive, in the case
    where that node accepts the connection.  Node [ida] gets messages for
    handles of node [idb] before there is a link ([ms1], as many as a queue can
    hold) and after ([ms2]); each is below the 16M of a frame and its service
    exists ([om_ok], [known]); node [idb] has a connection on which it waits for
    the handshake of [ida].  Then node [ida] handles all its messages, and when
    the bytes it writes to the link reach the other node, in order but cut into
    any pieces, that node sends exactly these messages to its services, in
    order, each with the source, destination, type, session and data it was
    sent with.  Messages sent to a name are not among them: they can lose their
    destination and overtake ([named_message_loses_destination],
    [named_message_overtakes]). *)
Theorem harbor_delivers ha a hb b ida idb la lb fda fdb ms1 ms2 ses src :
  harbor_repr mem ha a → ah_id a = ida → get_link a idb = Some la → l_status la = AWait → l_pending la = [] →
  harbor_repr mem hb b → ah_id b = idb → get_link b ida = Some lb → l_status lb = AShake → l_pending lb = [] → find_link b fdb = Some ida →
  0 < ida < 256 → 0 < idb < 256 → ida ≠ idb → 0 < fda <= INT_MAX →
  (∀ x, Forall is_byte (mem x)) → Forall (om_ok idb) (ms1 ++ ms2) → Forall (λ m, known (rm_handle (om_remote m)) = true) (ms1 ++ ms2) →
  Z.of_nat (length ms1) <= QUEUE_MAX →
  ∃ ha' ea, harbor_run mem known ha ((om_event <$> ms1) ++ HvHarbor ses src (accept_text fda idb) :: (om_event <$> ms2)) = Some (ha', ea) ∧
    ∀ chunks, Forall (λ c, c ≠ []) chunks → concat chunks = wire fda ea →
      ∃ hb' eb, harbor_run mem known hb (data_event fdb <$> chunks) = Some (hb', eb) ∧ sent eb = om_local <$> (ms1 ++ ms2).
Proof.
  intros Hra Hida Hla Hwa Hpa Hrb Hidb Hlb Hsb Hpb Hfb Hra' Hrb' Hne Hfd Hmem Hok Hk Hmax.
  assert (H0 : l_fd la = 0) by (by eapply (wait_iff mem known ha a idb la)).
  destruct (sender_run a idb la fda ms1 ms2 ses src) as (a' & ea & Hrun & Hw); [done..|congruence|done|done|done|done|].
  assert (Hva : Forall (valid_event mem) ((om_event <$> ms1) ++ HvHarbor ses src (accept_text fda idb) :: (om_event <$> ms2))).
  { apply Forall_app in Hok as [Hok1 Hok2]. apply Forall_app. split; [|constructor].
    - apply Forall_fmap. eapply Forall_impl; [exact Hok1|]. intros m Hm. cbn. eapply om_valid; [done|lia].
    - apply accept_is_text; lia.
    - apply Forall_fmap. eapply Forall_impl; [exact Hok2|]. intros m Hm. cbn. eapply om_valid; [done|lia]. }
  destruct (harbor_run_ok mem known _ _ _ _ _ Hra Hva Hrun) as (ha' & Hrun' & _).
  exists ha', ea. split; [done|]. intros chunks Hnn Hcc. rewrite Hw, Hida, u8_small in Hcc by lia.
  destruct (feed_shake b ida lb fdb chunks (om_frames (ms1 ++ ms2)) (om_local <$> (ms1 ++ ms2)) []) as (b' & eb & Hrunb & Hsent); [done..|lia|done|done| |].
  { rewrite Hidb. by apply cut_frames. }
  assert (Hvb : Forall (valid_event mem) (data_event fdb <$> chunks)).
  { apply Forall_fmap. assert (Hbytes : Forall is_byte (concat chunks)) by (rewrite Hcc; constructor; [unfold is_byte; lia|by eapply frames_bytes]).
    clear -Hbytes. induction chunks as [|c cs IH]; [constructor|]. apply Forall_app in Hbytes as [Hb1 Hb2]. constructor; [|by apply IH].
    intros _. exists c. done. }
  destruct (harbor_run_ok mem known _ _ _ _ _ Hrb Hvb Hrunb) as (hb' & Hrunb' & _).
  exists hb', eb. split; [done|]. rewrite Hsent. clear. induction (ms1 ++ ms2) as [|m ms IH]; [done|]. unfold sent in *. rewrite fmap_cons, filter_cons.
  cbn [om_local is_hsend]. rewrite decide_True by done. by rewrite IH.
Qed.

(** ** The blocks of a node *)

(** The blocks a service is sent, and those it frees or gives away. *)
Definition taken (evs : list hevent) : list Z := omap (λ ev, match ev with HvSystem _ _ r => Some (rm_message r) | _ => None end) evs.

Definition released (e : list heffect) : list Z :=
  omap (λ x, match x with HFree a => Some a | HSend _ _ _ _ (Block a _) => Some a | _ => None end) e.

Definition blocks (l : list harbor_msg) : list Z := hm_buffer <$> l.

(** The blocks in its queues. *)
Definition held_links (ls : list alink) : list Z := concat ((λ l, blocks (l_pending l)) <$> ls).
Definition held_names (names : gmap (list Z) (Z * list harbor_msg)) : list Z := concat ((λ p, blocks p.2.2) <$> map_to_list names).
Definition held (a : aharbor) : list Z := held_links (ah_links a) ++ held_names (ah_names a).

Lemma released_app e e' : released (e ++ e') = released e ++ released e'.
Proof. apply omap_app. Qed.

Lemma blocks_app l l' : blocks (l ++ l') = blocks l ++ blocks l'.
Proof. apply fmap_app. Qed.

Lemma held_link_split a id l : get_link a id = Some l →
  ∃ rest, held a ≡ₚ blocks (l_pending l) ++ rest ∧ ∀ l', held (put_link a id l') ≡ₚ blocks (l_pending l') ++ rest.
Proof.
  unfold get_link, arr_get. destruct (0 <=? id); [|done]. intros Hl. apply list_elem_of_split_length in Hl as (l1 & l2 & E & Hlen).
  exists (held_links l1 ++ held_links l2 ++ held_names (ah_names a)).
  assert (Hgen : ∀ x, held_links (l1 ++ x :: l2) ≡ₚ blocks (l_pending x) ++ held_links l1 ++ held_links l2).
  { intros x. unfold held_links. rewrite fmap_app, fmap_cons, concat_app. cbn [concat]. solve_Permutation. }
  unfold held. cbn [put_link ah_links ah_names]. rewrite E. split; [by rewrite Hgen, <- !app_assoc|].
  intros l'. rewrite insert_app_r_alt, Hlen, Nat.sub_diag by lia. cbn [list_insert insert]. rewrite Hgen, <- !app_assoc. done.
Qed.

Lemma held_names_insert names name v : held_names (<[name := v]> names) ≡ₚ blocks v.2 ++ held_names (delete name names).
Proof.
  rewrite <- insert_delete_eq. unfold held_names. rewrite map_to_list_insert by apply lookup_delete_eq. done.
Qed.

Lemma held_name_split a name :
  ∃ rest, held a ≡ₚ blocks (name_val (ah_names a) name).2 ++ rest ∧ ∀ v, held (put_name a name v) ≡ₚ blocks v.2 ++ rest.
Proof.
  exists (held_links (ah_links a) ++ held_names (delete name (ah_names a))). unfold held. cbn [put_name ah_links ah_names]. split.
  - unfold name_val. destruct (ah_names a !! name) as [v|] eqn:E; cbn.
    + rewrite <- (insert_id _ _ _ E) at 1. rewrite held_names_insert. solve_Permutation.
    + by rewrite delete_id.
  - intros v. rewrite held_names_insert. solve_Permutation.
Qed.

Lemma released_frees l : released (frees l) = blocks l.
Proof. induction l as [|m l IH]; [done|]. unfold released, frees, blocks in *. cbn. f_equal. exact IH. Qed.

Lemma released_hand_over handle l : released (hand_over handle l) = blocks l.
Proof. induction l as [|m l IH]; [done|]. unfold released, hand_over, blocks in *. cbn. f_equal. exact IH. Qed.

Lemma released_send fd buffer sz hd : released (send_effects mem fd buffer sz hd) = [].
Proof. unfold send_effects. by destruct (_ <? _). Qed.

Lemma released_flush fd hdr l : released (flush mem fd hdr l) = blocks l.
Proof.
  unfold flush. induction l as [|m l IH]; [done|]. rewrite fmap_cons. cbn [concat]. rewrite !released_app, released_send, IH. done.
Qed.

Lemma released_deliver id c : released (deliver known id c) = [].
Proof. unfold deliver. destruct (_ <? 0); [|done]. by destruct (_ =? PTYPE_ERROR). Qed.

Lemma released_cut id s e r bad : cut known id s = Some (e, r, bad) → released e = [].
Proof.
  unfold cut. generalize (S (length s)) as f. intros f. revert s e. induction f as [|f IH]; intros s e Hc; [done|]. cbn [cut_f] in Hc.
  case_decide; [by injection Hc as <- _ _|]. destruct (2 ^ 24 <=? _); [by injection Hc as <- _ _|]. destruct (_ <? 12); [done|].
  case_decide; [by injection Hc as <- _ _|]. apply bind_Some in Hc as ([[e' r'] bad'] & Hc & He).
  injection He as <- -> ->. apply IH in Hc.
  trans (released (deliver known id (take (Z.to_nat (be_val (take 4 s))) (drop 4 s)) ++ e')); [done|]. by rewrite released_app, released_deliver, Hc.
Qed.

Lemma parse_blocks a id l bytes a' e : get_link a id = Some l → parse known a id l bytes = Some (a', e) → held a ≡ₚ released e ++ held a'.
Proof.
  intros Hl Hp. unfold parse in Hp. apply bind_Some in Hp as ([[e1 r] bad] & Hc & Hp). apply released_cut in Hc.
  destruct (held_link_split a id l Hl) as (rest & Hh & Hput). destruct bad; injection Hp as <- <-.
  - rewrite released_app, Hc. cbn [app released omap list_omap]. fold (released (frees (l_pending l))). rewrite released_frees, Hput, Hh. done.
  - rewrite Hc, Hput. cbn [app set_bytes l_pending]. done.
Qed.

Lemma data_blocks a id fd d a' e : spec_data mem known a id fd d = Some (a', e) → held a ≡ₚ released e ++ held a'.
Proof.
  intros Hs. unfold spec_data in Hs. apply bind_Some in Hs as (l & Hl & Hs). destruct (held_link_split a id l Hl) as (rest & Hh & Hput).
  destruct (l_status l); [by injection Hs as <- <-| |by eapply parse_blocks|by injection Hs as <- <-].
  destruct d as [|b d]; [done|]. destruct (negb (b =? id)).
  - injection Hs as <- <-. cbn [app released omap list_omap]. fold (released (frees (l_pending l))). rewrite released_frees, Hput, Hh. done.
  - apply bind_Some in Hs as ([a1 e1] & Hp & [= <- <-]). apply parse_blocks in Hp; [|by eapply put_link_get].
    rewrite released_app, released_flush, <- app_assoc, <- Hp, Hput, Hh. done.
Qed.

Lemma update_blocks a name handle a' e : spec_update_name mem a name handle = Some (a', e) → held a ≡ₚ released e ++ held a'.
Proof.
  intros Hs. unfold spec_update_name in Hs. destruct (held_name_split a name) as (rest & Hh & Hput).
  destruct (name_val (ah_names a) name) as [v w]. cbn [snd] in Hh. apply bind_Some in Hs as ([a1 e1] & Hs & [= <- <-]).
  assert (Hw : w = [] ∧ a1 = a ∧ e1 = [] ∨ send_waiting mem a handle w = Some (a1, e1)) by (destruct w; [injection Hs as <- <-; by left|by right]).
  clear Hs. destruct Hw as [(-> & -> & ->)|Hs]; [rewrite Hput; by rewrite Hh|]. unfold send_waiting in Hs. apply bind_Some in Hs as (l & Hl & Hs).
  destruct (held_link_split (put_name a name (handle, [])) (handle / 2 ^ 24) l Hl) as (rest' & Hh' & Hput').
  rewrite Hput in Hh'. cbn [snd blocks app] in Hh'. cbn [snd] in Hput.
  destruct (l_fd l =? 0); [apply bind_Some in Hs as ([] & _ & Hs); destruct (_ =? _)|]; injection Hs as <- <-.
  - change (put_name (put_link a (handle / 2 ^ 24) (set_pending l [])) name (handle, []))
      with (put_link (put_name a name (handle, [])) (handle / 2 ^ 24) (set_pending l [])).
    rewrite Hput', released_hand_over, blocks_app, Hh. cbn [set_pending l_pending blocks fmap list_fmap app]. rewrite Hh'. solve_Permutation.
  - change (put_name (put_link a (handle / 2 ^ 24) (set_pending l (l_pending l ++ w))) name (handle, []))
      with (put_link (put_name a name (handle, [])) (handle / 2 ^ 24) (set_pending l (l_pending l ++ w))).
    rewrite Hput', Hh. cbn [set_pending l_pending released omap list_omap app]. rewrite blocks_app, Hh'. solve_Permutation.
  - rewrite released_flush, Hput, Hh. done.
Qed.

Lemma send_handle_blocks a src dst type ses msg sz a' e kept : spec_send_handle mem a src dst type ses msg sz = Some (a', e, kept) →
  (if kept then msg :: held a else held a) ≡ₚ released e ++ held a'.
Proof.
  intros Hs. unfold spec_send_handle in Hs. destruct (_ =? ah_id a); [by injection Hs as <- <- <-|].
  apply bind_Some in Hs as (l & Hl & Hs). destruct (held_link_split a _ l Hl) as (rest & Hh & Hput).
  assert (Hq : ∀ m, hm_buffer m = msg → msg :: held a ≡ₚ held (put_link a (dst / 2 ^ 24) (set_pending l (l_pending l ++ [m])))).
  { intros m Hm. rewrite Hput, Hh. cbn [set_pending l_pending]. rewrite blocks_app. cbn. rewrite Hm. solve_Permutation. }
  destruct (l_status l); try (injection Hs as <- <- <-; by rewrite released_send);
    apply bind_Some in Hs as ([] & _ & [= <- <- <-]); by apply Hq.
Qed.

Lemma send_name_blocks a src name type ses msg sz a' e kept : spec_send_name mem a src name type ses msg sz = Some (a', e, kept) →
  (if kept then msg :: held a else held a) ≡ₚ released e ++ held a'.
Proof.
  intros Hs. unfold spec_send_name in Hs. destruct (held_name_split a name) as (rest & Hh & Hput).
  destruct (name_val (ah_names a) name) as [v w]. cbn [snd] in Hh. destruct (v =? 0).
  - apply bind_Some in Hs as ([] & _ & [= <- <- <-]). rewrite Hput, Hh. cbn. rewrite blocks_app. cbn. solve_Permutation.
  - apply send_handle_blocks in Hs. destruct kept; rewrite Hput in Hs; cbn [snd] in Hs; by rewrite Hh.
Qed.

Lemma link_blocks a cmd buffer a' e : spec_link mem a cmd buffer = Some (a', e) → held a ≡ₚ released e ++ held a'.
Proof.
  intros Hs. unfold spec_link in Hs. destruct (scan_fd_id buffer) as [fd id]. destruct (_ || _ || _); [by injection Hs as <- <-|].
  apply bind_Some in Hs as (l & Hl & Hs). destruct (held_link_split a _ l Hl) as (rest & Hh & Hput).
  destruct (negb _); [by injection Hs as <- <-|]. destruct (cmd =? 83); injection Hs as <- <-.
  - rewrite Hput, Hh. done.
  - change (HStart fd :: HSocketSend fd [u8 (ah_id a)] :: flush mem fd (λ h, h) (l_pending l))
      with ([HStart fd; HSocketSend fd [u8 (ah_id a)]] ++ flush mem fd (λ h, h) (l_pending l)).
    rewrite released_app, released_flush, Hput, Hh. done.
Qed.

Lemma step_blocks a ev a' e : spec_step mem known a ev = Some (a', e) → taken [ev] ++ held a ≡ₚ released e ++ held a'.
Proof.
  intros Hs. destruct ev as [m|ses src msg|ses src r|ty ses src]; cbn [spec_step] in Hs.
  - change (taken [HvSocket m]) with (@nil Z). cbn [app]. destruct (sm_type m); try (apply bind_Some in Hs as (id & _ & Hs)).
    + apply bind_Some in Hs as ([a1 e1] & Hs & [= <- <-]). rewrite released_app. cbn. rewrite app_nil_r.
      destruct (id =? 0); [by injection Hs as <- <-|by eapply data_blocks].
    + by injection Hs as <- <-.
    + injection Hs as <- <-. by destruct (id =? 0).
    + by injection Hs as <- <-.
    + injection Hs as <- <-. by destruct (id =? 0).
    + by injection Hs as <- <-.
    + injection Hs as <- <-. by destruct (id =? 0).
  - change (taken [HvHarbor ses src msg]) with (@nil Z). cbn [app]. unfold spec_command in Hs. destruct msg as [|c msg]; [done|].
    destruct (c =? 78); [destruct (_ || _); [by injection Hs as <- <-|by eapply update_blocks]|].
    destruct (_ || _); [|by injection Hs as <- <-]. destruct (_ <=? 1)%nat; [done|]. by eapply link_blocks.
  - change (taken [HvSystem ses src r]) with [rm_message r]. cbn [app]. apply bind_Some in Hs as ([[a1 e1] kept] & Hs & [= <- <-]).
    assert (Hb : (if kept then rm_message r :: held a else held a) ≡ₚ released e1 ++ held a1)
      by (destruct (rm_handle r =? 0); [by eapply send_name_blocks|by eapply send_handle_blocks]).
    destruct kept; [done|]. rewrite released_app, Hb. cbn. solve_Permutation.
  - injection Hs as <- <-. by destruct (_ || _).
Qed.

Lemma run_blocks a evs a' e : spec_run mem known a evs = Some (a', e) → taken evs ++ held a ≡ₚ released e ++ held a'.
Proof.
  revert a e. induction evs as [|ev evs IH]; intros a e Hs; cbn [spec_run] in Hs; [by injection Hs as <- <-|].
  apply bind_Some in Hs as ([a1 e1] & H1 & Hs). apply bind_Some in Hs as ([a2 e2] & H2 & [= <- <-]).
  apply step_blocks in H1. apply IH in H2. change (ev :: evs) with ([ev] ++ evs). unfold taken in *. rewrite omap_app, released_app, <- !app_assoc, <- H2.
  rewrite (Permutation_app_swap_app (released e1)), <- H1. solve_Permutation.
Qed.

End link.

(** ** The service *)

Section theorems.
Context (mem : Z → list Z) (known : Z → bool).

(** A node with its id and the handle of its slave service. *)
Definition started (id slave : Z) : harbor := mk_harbor id slave (hb_map harbor_create) (hb_s harbor_create).

Lemma held_init id slave : held (spec_init id slave) = [].
Proof. done. Qed.

(** C18. The harbor service is a map of names and an array of links: whatever
    messages it gets, it makes the calls the specification makes, with its rings
    that grow, its chains of names and its reader that takes data in any pieces. *)
Theorem harbor_refines id slave evs a e : 0 <= id < 256 → Forall (valid_event mem) evs →
  spec_run mem known (spec_init id slave) evs = Some (a, e) →
  ∃ h, harbor_run mem known (started id slave) evs = Some (h, e) ∧ harbor_repr mem h a.
Proof. intros Hid Hv Hs. eapply harbor_run_ok; [by apply init_repr|done|done]. Qed.

(** C19. Every block of data the service is sent is freed or given to a service
    once, or is still in one of its queues. *)
Theorem harbor_buffers_once id slave evs a e : 0 <= id < 256 → Forall (valid_event mem) evs →
  spec_run mem known (spec_init id slave) evs = Some (a, e) →
  ∃ h, harbor_run mem known (started id slave) evs = Some (h, e) ∧ harbor_repr mem h a ∧ taken evs ≡ₚ released e ++ held a.
Proof.
  intros Hid Hv Hs. pose proof (run_blocks mem known _ _ _ _ Hs) as Hb. rewrite held_init, app_nil_r in Hb.
  destruct (harbor_run_ok mem known _ _ _ _ _ (init_repr mem id slave Hid) Hv Hs) as (h & ? & ?). eauto.
Qed.

(** A message for a node whose link was closed is written to the closed
    socket and freed; its source is not told, although the code has a branch for
    that: it is under a condition that a closed link never meets. *)
Theorem harbor_down_unreported h a l ses src r : harbor_repr mem h a → get_link a (rm_handle r / 2 ^ 24) = Some l → l_status l = ADown →
  rm_handle r / 2 ^ 24 ≠ ah_id a → rm_handle r ≠ 0 → block_ok mem (rm_message r) (rm_sz r) →
  ∃ h', mainloop mem known h (HvSystem ses src r) =
    Some (h', send_effects mem (l_fd l) (rm_message r) (rm_sz r) (mk_header src (typed_destination (rm_type r) (rm_handle r)) (u32 ses)) ++
              [HFree (rm_message r)]) ∧ harbor_repr mem h' a.
Proof.
  intros Hr Hl Hd Hid Hh Hb. eapply step_ok; [done|by split|]. cbn [spec_step]. rewrite (proj2 (Z.eqb_neq _ _)) by done.
  unfold spec_send_handle. rewrite (proj2 (Z.eqb_neq _ _)) by done. rewrite Hl. cbn [mbind option_bind]. by rewrite Hd.
Qed.

End theorems.

(** ** Examples *)

Definition demo_mem (a : Z) : list Z := [a mod 256; 7].

(** Messages for service 9 of node 2. *)
Definition demo_msg (block : Z) : omsg := mk_omsg 3 0x1000005 (mk_remote 0x2000009 [] block 2 10).

Lemma demo_mem_bytes x : Forall is_byte (demo_mem x).
Proof. repeat constructor; try lia; apply Z.mod_pos_bound; lia. Qed.

Lemma demo_ok block : om_ok demo_mem 2 (demo_msg block).
Proof. by repeat split. Qed.

Lemma harbor_delivers_witness : ∃ hb ha ea,
  harbor_run demo_mem (λ _, true) (started 2 200) [HvHarbor 0 0 (lit "S 9 1")] = Some (hb, [HStart 9; HSocketSend 9 [2]]) ∧
  harbor_run demo_mem (λ _, true) (started 1 100) [om_event (demo_msg 5); HvHarbor 0 0 (accept_text 4 2); om_event (demo_msg 6)] = Some (ha, ea) ∧
  ∀ chunks, Forall (λ c, c ≠ []) chunks → concat chunks = wire 4 ea →
    ∃ hb' eb, harbor_run demo_mem (λ _, true) hb (data_event 9 <$> chunks) = Some (hb', eb) ∧
      sent eb = om_local demo_mem <$> [demo_msg 5; demo_msg 6].
Proof.
  set (b := put_link (spec_init 2 200) 1 (mk_alink 9 AShake [] [])).
  destruct (harbor_run_ok demo_mem (λ _, true) (started 2 200) (spec_init 2 200) [HvHarbor 0 0 (lit "S 9 1")] b [HStart 9; HSocketSend 9 [2]])
    as (hb & Hb & Hrb); [by apply init_repr|repeat constructor; done|vm_compute; reflexivity|].
  destruct (harbor_delivers demo_mem (λ _, true) (started 1 100) (spec_init 1 100) hb b 1 2 (mk_alink 0 AWait [] []) (mk_alink 9 AShake [] []) 4 9
    [demo_msg 5] [demo_msg 6] 0 0) as (ha & ea & Ha & Hc); try done.
  - by apply init_repr.
  - apply demo_mem_bytes.
  - repeat constructor; apply demo_ok.
  - repeat constructor.
  - exists hb, ha, ea. split; [exact Hb|]. split; [exact Ha|exact Hc].
Defined.

(** A name used before it is known, then the name and a link to its node. *)
Definition demo_name : list Z := lit "FOO" ++ replicate 13 0.

Definition demo_events : list hevent :=
  [HvSystem 3 0x1000005 (mk_remote 0 demo_name 5 2 10); HvHarbor 0 0 (accept_text 4 2); HvHarbor 0 0x2000009 (lit "N FOO");
   HvSystem 3 0x1000005 (mk_remote 0 demo_name 6 2 10)].

Lemma demo_valid : Forall (valid_event demo_mem) demo_events.
Proof.
  assert (Hn : is_name demo_name) by done. repeat constructor; try done; try (intros _; done); vm_compute; done.
Qed.

Lemma harbor_refines_witness : ∃ h a e,
  harbor_run demo_mem (λ _, true) (started 1 100) demo_events = Some (h, e) ∧ harbor_repr demo_mem h a ∧
  e = [HSend 0 100 PTYPE_TEXT 0 (Bytes (lit "Q FOO")); HStart 4; HSocketSend 4 [1];
       HSocketSend 4 [0; 0; 0; 14; 5; 7; 1; 0; 0; 5; 10; 0; 0; 9; 0; 0; 0; 3]; HFree 5;
       HSocketSend 4 [0; 0; 0; 14; 6; 7; 1; 0; 0; 5; 10; 0; 0; 9; 0; 0; 0; 3]; HFree 6].
Proof.
  destruct (spec_run demo_mem (λ _, true) (spec_init 1 100) demo_events) as [[a e]|] eqn:E; [|vm_compute in E; discriminate].
  destruct (harbor_refines demo_mem (λ _, true) 1 100 demo_events a e) as (h & Hh & Hr); [lia|apply demo_valid|exact E|].
  exists h, a, e. split; [exact Hh|]. split; [exact Hr|]. vm_compute in E. by injection E as _ <-.
Defined.

Lemma harbor_buffers_once_witness : ∃ h a e,
  harbor_run demo_mem (λ _, true) (started 1 100) demo_events = Some (h, e) ∧ harbor_repr demo_mem h a ∧
  taken demo_events ≡ₚ released e ++ held a ∧ released e = [5; 6].
Proof.
  destruct (spec_run demo_mem (λ _, true) (spec_init 1 100) demo_events) as [[a e]|] eqn:E; [|vm_compute in E; discriminate].
  destruct (harbor_buffers_once demo_mem (λ _, true) 1 100 demo_events a e) as (h & Hh & Hr & Hp); [lia|apply demo_valid|exact E|].
  exists h, a, e. split; [exact Hh|]. split; [exact Hr|]. split; [exact Hp|]. vm_compute in E. by injection E as _ <-.
Defined.

(** A link that got the wrong handshake. *)
Definition down_events : list hevent := [HvHarbor 0 0 (lit "S 4 2"); data_event 4 [3]].

Lemma harbor_down_unreported_witness : ∃ h h' e,
  harbor_run demo_mem (λ _, true) (started 1 100) down_events = Some (h, e) ∧ HClose 4 ∈ e ∧
  mainloop demo_mem (λ _, true) h (HvSystem 3 0x1000005 (mk_remote 0x2000009 [] 5 2 10)) =
    Some (h', [HSocketSend 4 [0; 0; 0; 14; 5; 7; 1; 0; 0; 5; 10; 0; 0; 9; 0; 0; 0; 3]; HFree 5]).
Proof.
  set (a := put_link (spec_init 1 100) 2 (mk_alink 4 ADown [] [])).
  destruct (harbor_run_ok demo_mem (λ _, true) (started 1 100) (spec_init 1 100) down_events a
    [HStart 4; HSocketSend 4 [1]; HError "Invalid shakehand id (%d) from fd = %d , harbor = %d" [2; 4; 3]; HClose 4; HFreeData [3]])
    as (h & Hh & Hr); [by apply init_repr| |vm_compute; reflexivity|].
  { repeat constructor; try done. intros _. exists [3]. split; [done|]. split; [done|]. by repeat constructor. }
  destruct (harbor_down_unreported demo_mem (λ _, true) h a (mk_alink 4 ADown [] []) 3 0x1000005 (mk_remote 0x2000009 [] 5 2 10))
    as (h' & Hm & _); try done.
  exists h, h'. eexists. split; [exact Hh|]. split; [set_solver|exact Hm].
Defined.

(** A message to a name whose node is not connected when the name becomes known
    loses its destination: what is sent when the link is there carries handle 0. *)
Lemma named_message_loses_destination :
  snd <$> harbor_run demo_mem (λ _, true) (started 1 100)
    [HvSystem 3 0x1000005 (mk_remote 0 demo_name 5 2 10); HvHarbor 0 0x2000009 (lit "N FOO"); HvHarbor 0 0 (accept_text 4 2)] =
  Some [HSend 0 100 PTYPE_TEXT 0 (Bytes (lit "Q FOO")); HStart 4; HSocketSend 4 [1];
        HSocketSend 4 [0; 0; 0; 14; 5; 7; 1; 0; 0; 5; 10; 0; 0; 0; 0; 0; 0; 3]; HFree 5].
Proof. vm_compute. reflexivity. Qed.

(** A frame too short for a header is read out of bounds. *)
Lemma short_frame_overread :
  harbor_run demo_mem (λ _, true) (started 1 100) [HvHarbor 0 0 (accept_text 4 2); data_event 4 [0; 0; 0; 4; 1; 2; 3; 4]] = None.
Proof. vm_compute. reflexivity. Qed.

(** Messages that overtake: those of a name are sent while those for the node
    still wait for the handshake. *)
Lemma named_message_overtakes :
  snd <$> harbor_run demo_mem (λ _, true) (started 1 100)
    [HvHarbor 0 0 (lit "S 4 2"); om_event (demo_msg 5); HvSystem 3 0x1000005 (mk_remote 0 demo_name 6 2 10);
     HvHarbor 0 0x2000009 (lit "N FOO"); data_event 4 [2]] =
  Some [HStart 4; HSocketSend 4 [1]; HSend 0 100 PTYPE_TEXT 0 (Bytes (lit "Q FOO"));
        HSocketSend 4 [0; 0; 0; 14; 6; 7; 1; 0; 0; 5; 10; 0; 0; 9; 0; 0; 0; 3]; HFree 6;
        HSocketSend 4 [0; 0; 0; 14; 5; 7; 1; 0; 0; 5; 10; 0; 0; 9; 0; 0; 0; 3]; HFree 5; HFreeData [2]].
Proof. vm_compute. reflexivity. Qed.

(** The messages that wait for a node that never connected are not freed when
    the service is released. *)
Lemma release_leaks_waiting :
  ('(h, _) ← harbor_run demo_mem (λ _, true) (started 1 100) [om_event (demo_msg 5)]; harbor_release h) = Some [].
Proof. vm_compute. reflexivity. Qed.
