(* ===== verification/SocketServer.v ===== *)
(** * The socket server: skynet-src/socket_server.c

    One thread owns the sockets of a node.  It polls the kernel for events,
    reads, writes, accepts and connects, and turns what happened into messages
    for services.  Other threads ask it for something by writing a request to
    a pipe; only a send may touch the socket directly, when nothing else waits
    to be written.

    The functions are translated into a monad whose state is the server, the
    requests in the pipe, the kernel's poll set, the log of what was done to
    the outside (bytes written, descriptors closed, buffers freed) and the
    message under construction ([struct socket_message *result]).  [None] is a
    failed assertion, a call through NULL or an access outside a buffer.

    - A pointer to a [struct socket] is the index of its slot.
    - A list of write buffers is a list; its tail pointer is the last element.
    - A buffer is an address; [mem] gives its bytes, which nobody changes while
      the server owns it.
    - The kernel answers system calls by the functions of the record [OS], each
      with the number of calls made before, so that any two calls may differ.
      A negative number is minus the error number.
    - The lock of a socket is the atomicity of what it protects; [os_locked]
      says when an attempt to take it fails. *)

From Stdlib Require Import ZArith Lia.
From stdpp Require Import base tactics option numbers gmap list strings.
From S2P Require Import Prelude.

Local Open Scope Z_scope.

(** ** Constants *)

Definition EINTR : Z := 4.
Definition EAGAIN : Z := 11.
Definition ENFILE : Z := 23.
Definition EMFILE : Z := 24.
Definition EEXIST : Z := 17.
Definition EINPROGRESS : Z := 115.

Definition MIN_READ_BUFFER : Z := 64.
Definition MAX_EVENT : Z := 64.
Definition MAX_SOCKET_P : Z := 16.
Definition MAX_SOCKET : Z := Z.shiftl 1 MAX_SOCKET_P.
Definition WARNING_SIZE : Z := 1024 * 1024.
Definition UDP_ADDRESS_SIZE : Z := 19.
Definition MAX_UDP_PACKAGE : Z := 65535.

Definition HASH_ID (id : Z) : Z := u32 id mod MAX_SOCKET.
Definition ID_TAG16 (id : Z) : Z := Z.land (Z.shiftr id MAX_SOCKET_P) 65535.

Inductive sock_type :=
  | SOCKET_TYPE_INVALID | SOCKET_TYPE_RESERVE | SOCKET_TYPE_PLISTEN | SOCKET_TYPE_LISTEN
  | SOCKET_TYPE_CONNECTING | SOCKET_TYPE_CONNECTED | SOCKET_TYPE_HALFCLOSE
  | SOCKET_TYPE_PACCEPT | SOCKET_TYPE_BIND.

#[global] Instance sock_type_eq_dec : EqDecision sock_type.
Proof. solve_decision. Defined.

Definition PROTOCOL_TCP : Z := 0.
Definition PROTOCOL_UDP : Z := 1.
Definition PROTOCOL_UDPv6 : Z := 2.
Definition PROTOCOL_UNKNOWN : Z := 255.

(** The messages [socket_server_poll] returns; -1 is none. *)
Definition SOCKET_DATA : Z := 0.
Definition SOCKET_CLOSE : Z := 1.
Definition SOCKET_OPEN : Z := 2.
Definition SOCKET_ACCEPT : Z := 3.
Definition SOCKET_ERR : Z := 4.
Definition SOCKET_EXIT : Z := 5.
Definition SOCKET_UDP : Z := 6.
Definition SOCKET_WARNING : Z := 7.

(** [PRIORITY_HIGH] and [PRIORITY_LOW] *)
Inductive priority := HIGH | LOW.

#[global] Instance priority_eq_dec : EqDecision priority.
Proof. solve_decision. Defined.

(** ** Data *)

(** [ptr] is [wb_off] bytes behind [wb_base]. *)
Record write_buffer := mk_wb {
  wb_buffer : positive;
  wb_base : positive;
  wb_off : Z;
  wb_sz : Z;
  userobject : bool;
  wb_udp_address : list Z }.

(** The union [p] of a socket: the size of the next read of a TCP socket, the
    default address of a UDP socket. *)
Inductive sock_p := P_size (size : Z) | P_address (udp_address : list Z).

Record socket := mk_socket {
  opaque : Z;
  high : list write_buffer;
  low : list write_buffer;
  wb_size : Z;
  sending : Z;
  fd : Z;
  id : Z;
  protocol : Z;
  type : sock_type;
  udpconnecting : Z;
  warn_size : Z;
  p : sock_p;
  dw_offset : Z;
  dw_buffer : option positive;
  dw_size : Z }.

(** [void *(buffer)(void * )] and [int (size)(void * )] *)
Record socket_object_interface := mk_soi { soi_buffer : positive → positive; soi_size : positive → Z }.

(** [ev_s]: the slot, or NULL for the pipe. *)
Record event := mk_event { ev_s : option Z; ev_read : bool; ev_write : bool; ev_error : bool }.

Record socket_server := mk_server {
  checkctrl : bool;
  alloc_id : Z;
  event_index : Z;
  soi : option socket_object_interface;
  ev : list event;
  slot : gmap Z socket }.

(** An address of the internet: port and address in network byte order. *)
Inductive sockaddr_all := SA_v4 (sin_port sin_addr : list Z) | SA_v6 (sin6_port sin6_addr : list Z).

Definition AF_INET6_of (sa : sockaddr_all) : bool := match sa with SA_v4 _ _ => false | SA_v6 _ _ => true end.

(** What [result->data] points to: NULL, a constant text, a text made from an
    address, the message of an error number or of [errno], or a buffer that
    now belongs to the receiver. *)
Inductive rdata :=
  | DNull | DConst (s : string) | DText (l : list Z) | DStrerror (e : Z) | DErrno | DGai (e : Z) | DBuf (l : list Z).

Record socket_message := mk_smsg { sm_id : Z; sm_opaque : Z; sm_ud : Z; sm_data : rdata }.

(** The requests of the pipe, one constructor for each letter. *)
Inductive request :=
  | ReqStart (rid ropaque : Z)
  | ReqBind (rid rfd ropaque : Z)
  | ReqListen (rid rfd ropaque : Z)
  | ReqClose (rid : Z) (shutdown : bool) (ropaque : Z)
  | ReqOpen (rid port ropaque : Z) (host : list Z)
  | ReqExit
  | ReqSend (pri : priority) (rid rsz : Z) (rbuffer : positive)
  | ReqSendUdp (rid rsz : Z) (rbuffer : positive) (address : list Z)
  | ReqSetopt (rid what value : Z)
  | ReqUdp (rid rfd : Z) (inet6 : bool) (ropaque : Z)
  | ReqSetUdp (rid : Z) (address : list Z).

(** What the server does to the outside.  Two events are marks for the
    statements: [EvTake] when a thread calls a function to send a buffer, which
    then owns the buffer, [EvPost] when its place among the buffers to be sent
    is fixed, because it is written at once or because its request enters the
    pipe. *)
Inductive sys_event :=
  | EvPost (id : Z) (pri : priority) (buffer : positive) (data : list Z)
  | EvWrite (id fd : Z) (data : list Z)
  | EvSendto (id fd : Z) (data : list Z) (addr : option sockaddr_all)
  | EvClose (fd : Z)
  | EvFree (user : bool) (buffer : positive)
  | EvTake (buffer : positive).

(** ** The kernel *)

Record OS := mk_os {
  os_eintr : nat;  (* a call is interrupted fewer times in a row *)
  os_write : nat → Z → list Z → Z;
  os_read : nat → Z → Z → list Z + Z;
  os_sendto : nat → Z → list Z → option sockaddr_all → Z;
  os_recvfrom : nat → Z → Z → (list Z * sockaddr_all) + Z;
  os_accept : nat → Z → (Z * option (list Z)) + Z;
  os_getsockopt : nat → Z → option Z;
  os_getpeername : nat → Z → option (list Z);
  os_getaddrinfo : nat → list Z → Z → list sockaddr_all + Z;
  os_ntop : sockaddr_all → option (list Z);
  os_socket : nat → Z;
  os_connect : nat → Z → sockaddr_all → option Z;
  os_setsockopt : nat → Z → bool;
  os_bind : nat → Z → sockaddr_all → bool;
  os_listen : nat → Z → Z → bool;
  os_epoll_add : nat → Z → bool;
  os_epoll_wait : nat → gmap Z (Z * bool) → list event + Z;
  os_locked : nat → bool }.

(** The poll set maps a descriptor to its slot and whether it is polled for
    writing. *)
Record sys := mk_sys {
  ss : socket_server;
  pipe : list request;
  epoll : gmap Z (Z * bool);
  tick : nat;
  log : list sys_event;
  result : socket_message;
  more : bool }.

(** ** The monad *)

Definition M (A : Type) : Type := sys → option (A * sys).

#[global] Instance M_ret : MRet M := λ A a st, Some (a, st).
#[global] Instance M_bind : MBind M := λ A B k m st,
  match m st with Some (a, st') => k a st' | None => None end.

Definition crash {A} : M A := λ _, None.
Definition get_sys : M sys := λ st, Some (st, st).
Definition put_sys (st : sys) : M unit := λ _, Some (tt, st).
Definition assert (b : bool) : M unit := if b then mret tt else crash.
Definition when (b : bool) (m : M unit) : M unit := if b then m else mret tt.

Definition set_ss (st : sys) (x : socket_server) : sys :=
  mk_sys x (pipe st) (epoll st) (tick st) (log st) (result st) (more st).
Definition set_pipe (st : sys) (x : list request) : sys :=
  mk_sys (ss st) x (epoll st) (tick st) (log st) (result st) (more st).
Definition set_epoll (st : sys) (x : gmap Z (Z * bool)) : sys :=
  mk_sys (ss st) (pipe st) x (tick st) (log st) (result st) (more st).
Definition set_tick (st : sys) (x : nat) : sys :=
  mk_sys (ss st) (pipe st) (epoll st) x (log st) (result st) (more st).
Definition set_log (st : sys) (x : list sys_event) : sys :=
  mk_sys (ss st) (pipe st) (epoll st) (tick st) x (result st) (more st).
Definition set_result (st : sys) (x : socket_message) : sys :=
  mk_sys (ss st) (pipe st) (epoll st) (tick st) (log st) x (more st).
Definition set_more (st : sys) (x : bool) : sys :=
  mk_sys (ss st) (pipe st) (epoll st) (tick st) (log st) (result st) x.

Definition set_checkctrl (x : bool) (a : socket_server) : socket_server :=
  mk_server x (alloc_id a) (event_index a) (soi a) (ev a) (slot a).
Definition set_alloc_id (x : Z) (a : socket_server) : socket_server :=
  mk_server (checkctrl a) x (event_index a) (soi a) (ev a) (slot a).
Definition set_events (n : Z) (l : list event) (a : socket_server) : socket_server :=
  mk_server (checkctrl a) (alloc_id a) n (soi a) l (slot a).
Definition set_soi (x : option socket_object_interface) (a : socket_server) : socket_server :=
  mk_server (checkctrl a) (alloc_id a) (event_index a) x (ev a) (slot a).
Definition set_slot (x : gmap Z socket) (a : socket_server) : socket_server :=
  mk_server (checkctrl a) (alloc_id a) (event_index a) (soi a) (ev a) x.

Definition modify_ss (f : socket_server → socket_server) : M unit :=
  λ st, Some (tt, set_ss st (f (ss st))).
Definition emit (e : sys_event) : M unit := λ st, Some (tt, set_log st (log st ++ [e])).
Definition set_res (r : socket_message) : M unit := λ st, Some (tt, set_result st r).
Definition set_res_data (d : rdata) : M unit := λ st,
  Some (tt, set_result st (mk_smsg (sm_id (result st)) (sm_opaque (result st)) (sm_ud (result st)) d)).

(** The number of the next system call. *)
Definition next_tick : M nat := λ st, Some (tick st, set_tick st (S (tick st))).

(** A slot as [socket_server_create] leaves it; only the type and the lists are
    written, the rest is read after [reserve_id] and [new_fd] set it. *)
Definition socket0 : socket :=
  mk_socket 0 [] [] 0 0 (-1) (-1) PROTOCOL_UNKNOWN SOCKET_TYPE_INVALID 0 0 (P_size 0) 0 None 0.

(** [&ss->slot[i]] *)
Definition sock (st : sys) (i : Z) : socket := default socket0 (slot (ss st) !! i).
Definition get_s (i : Z) : M socket := λ st, Some (sock st i, st).
Definition put_s (i : Z) (s : socket) : M unit := modify_ss (λ a, set_slot (<[i := s]> (slot a)) a).
Definition upd_s (i : Z) (f : socket → socket) : M unit := s ← get_s i; put_s i (f s).

Definition set_lists (h l : list write_buffer) (s : socket) : socket :=
  mk_socket (opaque s) h l (wb_size s) (sending s) (fd s) (id s) (protocol s) (type s)
    (udpconnecting s) (warn_size s) (p s) (dw_offset s) (dw_buffer s) (dw_size s).
Definition set_wb_size (x : Z) (s : socket) : socket :=
  mk_socket (opaque s) (high s) (low s) x (sending s) (fd s) (id s) (protocol s) (type s)
    (udpconnecting s) (warn_size s) (p s) (dw_offset s) (dw_buffer s) (dw_size s).
Definition set_sending (x : Z) (s : socket) : socket :=
  mk_socket (opaque s) (high s) (low s) (wb_size s) x (fd s) (id s) (protocol s) (type s)
    (udpconnecting s) (warn_size s) (p s) (dw_offset s) (dw_buffer s) (dw_size s).
Definition set_type (x : sock_type) (s : socket) : socket :=
  mk_socket (opaque s) (high s) (low s) (wb_size s) (sending s) (fd s) (id s) (protocol s) x
    (udpconnecting s) (warn_size s) (p s) (dw_offset s) (dw_buffer s) (dw_size s).
Definition set_opaque (x : Z) (s : socket) : socket :=
  mk_socket x (high s) (low s) (wb_size s) (sending s) (fd s) (id s) (protocol s) (type s)
    (udpconnecting s) (warn_size s) (p s) (dw_offset s) (dw_buffer s) (dw_size s).
Definition set_udpconnecting (x : Z) (s : socket) : socket :=
  mk_socket (opaque s) (high s) (low s) (wb_size s) (sending s) (fd s) (id s) (protocol s) (type s)
    x (warn_size s) (p s) (dw_offset s) (dw_buffer s) (dw_size s).
Definition set_warn_size (x : Z) (s : socket) : socket :=
  mk_socket (opaque s) (high s) (low s) (wb_size s) (sending s) (fd s) (id s) (protocol s) (type s)
    (udpconnecting s) x (p s) (dw_offset s) (dw_buffer s) (dw_size s).
Definition set_p (x : sock_p) (s : socket) : socket :=
  mk_socket (opaque s) (high s) (low s) (wb_size s) (sending s) (fd s) (id s) (protocol s) (type s)
    (udpconnecting s) (warn_size s) x (dw_offset s) (dw_buffer s) (dw_size s).
Definition set_dw (off : Z) (b : option positive) (sz : Z) (s : socket) : socket :=
  mk_socket (opaque s) (high s) (low s) (wb_size s) (sending s) (fd s) (id s) (protocol s) (type s)
    (udpconnecting s) (warn_size s) (p s) off b sz.

Definition get_list (pri : priority) (s : socket) : list write_buffer :=
  match pri with HIGH => high s | LOW => low s end.
Definition set_list (pri : priority) (l : list write_buffer) (s : socket) : socket :=
  match pri with HIGH => set_lists l (low s) s | LOW => set_lists (high s) l s end.

Section Server.
Context (os : OS) (mem : positive → list Z).

(** ** System calls *)

(** [sz] bytes behind [base + off]. *)
Definition bytes_at (base : positive) (off sz : Z) : M (list Z) :=
  if (0 <=? off) && (0 <=? sz) && (off + sz <=? Z.of_nat (length (mem base)))
  then mret (take (Z.to_nat sz) (drop (Z.to_nat off) (mem base)))
  else crash.

Definition wb_data (wb : write_buffer) : M (list Z) := bytes_at (wb_base wb) (wb_off wb) (wb_sz wb).

(** [write(s->fd, data, length)] *)
Definition sys_write (i : Z) (data : list Z) : M Z :=
  s ← get_s i;
  t ← next_tick;
  let r := os_write os t (fd s) data in
  when (0 <=? r) (emit (EvWrite (id s) (fd s) (take (Z.to_nat r) data)));;
  mret r.

Definition sys_sendto (i : Z) (data : list Z) (sa : option sockaddr_all) : M Z :=
  s ← get_s i;
  t ← next_tick;
  let r := os_sendto os t (fd s) data sa in
  when (0 <=? r) (emit (EvSendto (id s) (fd s) data sa));;
  mret r.

Definition sp_del (f : Z) : M unit := λ st, Some (tt, set_epoll st (delete f (epoll st))).

(** [close(fd)]; the kernel stops polling it. *)
Definition sys_close (f : Z) : M unit := emit (EvClose f);; sp_del f.

(** [sp_add]: true when it fails; a descriptor can be added once. *)
Definition sp_add (f i : Z) : M bool :=
  t ← next_tick;
  st ← get_sys;
  if os_epoll_add os t f || bool_decide (is_Some (epoll st !! f)) then mret true
  else put_sys (set_epoll st (<[f := (i, false)]> (epoll st)));; mret false.

(** [sp_write]: nothing happens to a descriptor that is not polled. *)
Definition sp_write (f i : Z) (enable : bool) : M unit := λ st,
  Some (tt, match epoll st !! f with
            | Some _ => set_epoll st (<[f := (i, enable)]> (epoll st))
            | None => st
            end).

(** [socket_trylock]: whether it succeeds. *)
Definition socket_trylock : M bool := t ← next_tick; mret (negb (os_locked os t)).

(** ** Objects and buffers *)

(** [so->buffer], [so->sz] and whether it is a user object. *)
Definition send_object_init (object : positive) (sz : Z) : M (positive * Z * bool) :=
  if sz <? 0 then
    st ← get_sys;
    match soi (ss st) with
    | Some f => mret (soi_buffer f object, soi_size f object, true)
    | None => crash
    end
  else mret (object, sz, false).

(** The bytes of an object to be sent. *)
Definition object_data (f : option socket_object_interface) (object : positive) (sz : Z) : list Z :=
  match f with
  | Some f => if sz <? 0 then take (Z.to_nat (soi_size f object)) (mem (soi_buffer f object)) else take (Z.to_nat sz) (mem object)
  | None => take (Z.to_nat sz) (mem object)
  end.

Definition write_buffer_free (wb : write_buffer) : M unit := emit (EvFree (userobject wb) (wb_buffer wb)).

Fixpoint free_wb_list (l : list write_buffer) : M unit :=
  match l with
  | [] => mret tt
  | wb :: l => write_buffer_free wb;; free_wb_list l
  end.

Definition free_buffer (buffer : positive) (sz : Z) : M unit :=
  so ← send_object_init buffer sz;
  emit (EvFree so.2 buffer).

(** ** Identifiers and slots *)

Fixpoint reserve_loop (n : nat) : M Z :=
  match n with
  | O => mret (-1)
  | S n =>
      modify_ss (λ a, set_alloc_id (i32 (alloc_id a + 1)) a);;
      st ← get_sys;
      when (alloc_id (ss st) <? 0) (modify_ss (λ a, set_alloc_id (Z.land (alloc_id a) 0x7fffffff) a));;
      st ← get_sys;
      let nid := alloc_id (ss st) in
      s ← get_s (HASH_ID nid);
      if bool_decide (type s = SOCKET_TYPE_INVALID) then
        put_s (HASH_ID nid)
          (mk_socket (opaque s) (high s) (low s) (wb_size s) (sending s) (-1) nid PROTOCOL_UNKNOWN
             SOCKET_TYPE_RESERVE 0 (warn_size s) (p s) (dw_offset s) (dw_buffer s) (dw_size s));;
        mret nid
      else reserve_loop n
  end.

Definition reserve_id : M Z := reserve_loop (Z.to_nat MAX_SOCKET).

Definition server0 : socket_server := mk_server true 0 0 None [] ∅.

Definition socket_server_create : sys :=
  mk_sys server0 [] ∅ 0 [] (mk_smsg 0 0 0 DNull) true.

Definition force_close (i : Z) : M unit :=
  s ← get_s i;
  set_res (mk_smsg (id s) (opaque s) 0 DNull);;
  if bool_decide (type s = SOCKET_TYPE_INVALID) then mret tt else
  assert (bool_decide (type s ≠ SOCKET_TYPE_RESERVE));;
  free_wb_list (high s);;
  upd_s i (λ s, set_lists [] (low s) s);;
  free_wb_list (low s);;
  upd_s i (λ s, set_lists (high s) [] s);;
  when (bool_decide (type s ≠ SOCKET_TYPE_PACCEPT ∧ type s ≠ SOCKET_TYPE_PLISTEN)) (sp_del (fd s));;
  when (bool_decide (type s ≠ SOCKET_TYPE_BIND)) (sys_close (fd s));;
  upd_s i (set_type SOCKET_TYPE_INVALID);;
  match dw_buffer s with
  | Some b => free_buffer b (dw_size s);; upd_s i (λ s, set_dw (dw_offset s) None (dw_size s) s)
  | None => mret tt
  end.

(** [socket_server_release]: all sockets, then its own descriptors. *)
Fixpoint release_loop (l : list Z) : M unit :=
  match l with
  | [] => mret tt
  | i :: l =>
      s ← get_s i;
      when (bool_decide (type s ≠ SOCKET_TYPE_RESERVE)) (force_close i);;
      release_loop l
  end.

Definition socket_server_release : M unit := release_loop (seqZ 0 MAX_SOCKET).

(** The slot gets the descriptor; false when the kernel cannot poll it. *)
Definition new_fd (nid nfd nprotocol nopaque : Z) (add : bool) : M bool :=
  let i := HASH_ID nid in
  s ← get_s i;
  assert (bool_decide (type s = SOCKET_TYPE_RESERVE));;
  failed ← (if add then sp_add nfd i else mret false);
  if (failed : bool) then upd_s i (set_type SOCKET_TYPE_INVALID);; mret false
  else
    s ← get_s i;
    assert (bool_decide (high s = []));;
    assert (bool_decide (low s = []));;
    put_s i (mk_socket nopaque (high s) (low s) 0 (u32 (Z.lor (Z.shiftl (ID_TAG16 nid) 16) 0)) nfd nid nprotocol
               (type s) (udpconnecting s) 0 (P_size MIN_READ_BUFFER) (dw_offset s) None 0);;
    mret true.

(** ** Connecting *)

(** The loop over the addresses: the socket, the status of [connect] and the
    address, or [None] when no address works. *)
Fixpoint connect_loop (l : list sockaddr_all) : M (option (Z * Z * sockaddr_all)) :=
  match l with
  | [] => mret None
  | ai :: l =>
      t ← next_tick;
      let so := os_socket os t in
      if so <? 0 then connect_loop l
      else
        t ← next_tick;
        match os_connect os t so ai with
        | None => mret (Some (so, 0, ai))
        | Some e =>
            if e =? EINPROGRESS then mret (Some (so, -1, ai))
            else sys_close so;; connect_loop l
        end
  end.

Definition open_failed (i : Z) : M Z :=
  upd_s i (set_type SOCKET_TYPE_INVALID);; mret SOCKET_ERR.

Definition open_socket (rid port ropaque : Z) (host : list Z) : M Z :=
  let i := HASH_ID rid in
  set_res (mk_smsg rid ropaque 0 DNull);;
  t ← next_tick;
  match os_getaddrinfo os t host port with
  | inr status => set_res_data (DGai status);; open_failed i
  | inl ai_list =>
      r ← connect_loop ai_list;
      match r with
      | None => set_res_data DErrno;; open_failed i
      | Some (so, status, ai) =>
          ok ← new_fd rid so PROTOCOL_TCP ropaque true;
          if negb ok then
            sys_close so;;
            set_res_data (DConst "reach skynet socket number limit");;
            open_failed i
          else if status =? 0 then
            upd_s i (set_type SOCKET_TYPE_CONNECTED);;
            match os_ntop os ai with Some l => set_res_data (DText l) | None => mret tt end;;
            mret SOCKET_OPEN
          else
            upd_s i (set_type SOCKET_TYPE_CONNECTING);;
            s ← get_s i;
            sp_write (fd s) i true;;
            mret (-1)
      end
  end.

(** ** Writing *)

(** The inner loop of [send_list_tcp]: an interrupted write is repeated. *)
Fixpoint write_retry (n : nat) (i : Z) (data : list Z) : M Z :=
  match n with
  | O => crash
  | S n => r ← sys_write i data; if r =? - EINTR then write_retry n i data else mret r
  end.

(** [l] is the list of slot [i] with priority [pri]. *)
Fixpoint send_list_tcp (i : Z) (pri : priority) (l : list write_buffer) : M Z :=
  match l with
  | [] => mret (-1)
  | tmp :: next =>
      data ← wb_data tmp;
      sz ← write_retry (os_eintr os) i data;
      if sz <? 0 then
        if sz =? - EAGAIN then mret (-1)
        else force_close i;; mret SOCKET_CLOSE
      else
        upd_s i (λ s, set_wb_size (wb_size s - sz) s);;
        if negb (sz =? wb_sz tmp) then
          upd_s i (set_list pri (mk_wb (wb_buffer tmp) (wb_base tmp) (wb_off tmp + sz) (wb_sz tmp - sz)
                                   (userobject tmp) (wb_udp_address tmp) :: next));;
          mret (-1)
        else
          upd_s i (set_list pri next);;
          write_buffer_free tmp;;
          send_list_tcp i pri next
  end.

(** The address of the right protocol; [None]: no address ([sasz] is 0). *)
Definition udp_socket_address (prot : Z) (udp_address : list Z) : option sockaddr_all :=
  match udp_address with
  | [] => None
  | ty :: rest =>
      if negb (ty =? prot) then None
      else if prot =? PROTOCOL_UDP then Some (SA_v4 (take 2 rest) (take 4 (drop 2 rest)))
      else if prot =? PROTOCOL_UDPv6 then Some (SA_v6 (take 2 rest) (take 16 (drop 2 rest)))
      else None
  end.

(** [tmp->udp_address]; a buffer that was allocated with [SIZEOF_TCPBUFFER] has
    no such member. *)
Definition wb_address (tmp : write_buffer) : M (list Z) :=
  match wb_udp_address tmp with [] => crash | a => mret a end.

Fixpoint send_list_udp (i : Z) (pri : priority) (l : list write_buffer) : M Z :=
  match l with
  | [] => mret (-1)
  | tmp :: next =>
      s ← get_s i;
      addr ← wb_address tmp;
      data ← wb_data tmp;
      err ← sys_sendto i data (udp_socket_address (protocol s) addr);
      if err <? 0 then mret (-1)
      else
        upd_s i (λ s, set_wb_size (wb_size s - wb_sz tmp) s);;
        upd_s i (set_list pri next);;
        write_buffer_free tmp;;
        send_list_udp i pri next
  end.

Definition send_list (i : Z) (pri : priority) : M Z :=
  s ← get_s i;
  if protocol s =? PROTOCOL_TCP then send_list_tcp i pri (get_list pri s)
  else send_list_udp i pri (get_list pri s).

(** [wb->ptr != wb->buffer] for the first buffer *)
Definition list_uncomplete (l : list write_buffer) : bool :=
  match l with
  | [] => false
  | wb :: _ => negb (bool_decide (wb_base wb = wb_buffer wb) && (wb_off wb =? 0))
  end.

Definition raise_uncomplete (i : Z) : M unit :=
  s ← get_s i;
  match low s with
  | [] => crash
  | tmp :: next =>
      upd_s i (set_list LOW next);;
      assert (bool_decide (high s = []));;
      upd_s i (set_list HIGH [tmp])
  end.

Definition send_buffer_empty (s : socket) : bool := bool_decide (high s = []) && bool_decide (low s = []).

(** What [send_buffer_] does when nothing is left to send. *)
Definition send_done (i : Z) : M Z :=
  s ← get_s i;
  assert (send_buffer_empty s && (wb_size s =? 0));;
  sp_write (fd s) i false;;
  if bool_decide (type s = SOCKET_TYPE_HALFCLOSE) then force_close i;; mret SOCKET_CLOSE
  else if 0 <? warn_size s then
    upd_s i (set_warn_size 0);;
    set_res (mk_smsg (id s) (opaque s) 0 DNull);;
    mret SOCKET_WARNING
  else mret (-1).

Definition send_buffer_ (i : Z) : M Z :=
  s ← get_s i;
  assert (negb (list_uncomplete (low s)));;
  r ← send_list i HIGH;
  if r =? SOCKET_CLOSE then mret SOCKET_CLOSE else
  s ← get_s i;
  match high s with
  | _ :: _ => mret (-1)
  | [] =>
      match low s with
      | [] => send_done i
      | _ :: _ =>
          r ← send_list i LOW;
          if r =? SOCKET_CLOSE then mret SOCKET_CLOSE else
          s ← get_s i;
          if list_uncomplete (low s) then raise_uncomplete i;; mret (-1)
          else match low s with [] => send_done i | _ :: _ => mret (-1) end
      end
  end.

(** The buffer a direct write left over goes before the others. *)
Definition take_dw_buffer (i : Z) : M unit :=
  s ← get_s i;
  match dw_buffer s with
  | None => mret tt
  | Some b =>
      so ← send_object_init b (dw_size s);
      let buf := mk_wb b so.1.1 (dw_offset s) (so.1.2 - dw_offset s) so.2 [] in
      upd_s i (λ s, set_wb_size (wb_size s + wb_sz buf) s);;
      upd_s i (λ s, set_list HIGH (buf :: high s) s);;
      upd_s i (λ s, set_dw (dw_offset s) None (dw_size s) s)
  end.

Definition send_buffer (i : Z) : M Z :=
  ok ← socket_trylock;
  if negb ok then mret (-1) else
  take_dw_buffer i;;
  send_buffer_ i.

(** [append_sendbuffer_] and the update of [wb_size] of its callers. *)
Definition append_sendbuffer_ (i : Z) (pri : priority) (sz : Z) (buffer : positive) (address : list Z) : M unit :=
  so ← send_object_init buffer sz;
  let buf := mk_wb buffer so.1.1 0 so.1.2 so.2 address in
  upd_s i (λ s, set_list pri (get_list pri s ++ [buf]) s);;
  upd_s i (λ s, set_wb_size (wb_size s + wb_sz buf) s).

Definition append_sendbuffer_udp (i : Z) (pri : priority) (sz : Z) (buffer : positive) (address : list Z) : M unit :=
  append_sendbuffer_ i pri sz buffer (take (Z.to_nat UDP_ADDRESS_SIZE) address).
Definition append_sendbuffer (i sz : Z) (buffer : positive) : M unit := append_sendbuffer_ i HIGH sz buffer [].
Definition append_sendbuffer_low (i sz : Z) (buffer : positive) : M unit := append_sendbuffer_ i LOW sz buffer [].

(** ** Requests *)

(** The warning when much data waits. *)
Definition send_warning (i : Z) : M Z :=
  s ← get_s i;
  if (WARNING_SIZE <=? wb_size s) && (warn_size s <=? wb_size s) then
    upd_s i (set_warn_size (if warn_size s =? 0 then WARNING_SIZE * 2 else warn_size s * 2));;
    set_res (mk_smsg (id s) (opaque s)
               (i32 (if Z.rem (wb_size s) 1024 =? 0 then Z.quot (wb_size s) 1024 else Z.quot (wb_size s) 1024 + 1)) DNull);;
    mret SOCKET_WARNING
  else mret (-1).

(** [p.udp_address], when the caller gives no address. *)
Definition default_address (i : Z) (udp_address : option (list Z)) : M (list Z) :=
  match udp_address with
  | Some a => mret a
  | None => s ← get_s i; match p s with P_address a => mret a | P_size _ => crash end
  end.

Definition send_socket (rid rsz : Z) (rbuffer : positive) (pri : priority) (udp_address : option (list Z)) : M Z :=
  let i := HASH_ID rid in
  s ← get_s i;
  so ← send_object_init rbuffer rsz;
  if bool_decide (type s = SOCKET_TYPE_INVALID) || negb (id s =? rid)
     || bool_decide (type s = SOCKET_TYPE_HALFCLOSE) || bool_decide (type s = SOCKET_TYPE_PACCEPT) then
    emit (EvFree so.2 rbuffer);; mret (-1)
  else if bool_decide (type s = SOCKET_TYPE_PLISTEN) || bool_decide (type s = SOCKET_TYPE_LISTEN) then
    emit (EvFree so.2 rbuffer);; mret (-1)
  else if send_buffer_empty s && bool_decide (type s = SOCKET_TYPE_CONNECTED) then
    if protocol s =? PROTOCOL_TCP then
      append_sendbuffer i rsz rbuffer;;
      sp_write (fd s) i true;;
      send_warning i
    else
      addr ← default_address i udp_address;
      data ← bytes_at so.1.1 0 so.1.2;
      n ← sys_sendto i data (udp_socket_address (protocol s) addr);
      if negb (n =? so.1.2) then
        append_sendbuffer_udp i pri rsz rbuffer addr;;
        sp_write (fd s) i true;;
        send_warning i
      else emit (EvFree so.2 rbuffer);; mret (-1)
  else if protocol s =? PROTOCOL_TCP then
    match pri with
    | LOW => append_sendbuffer_low i rsz rbuffer
    | HIGH => append_sendbuffer i rsz rbuffer
    end;;
    send_warning i
  else
    addr ← default_address i udp_address;
    append_sendbuffer_udp i pri rsz rbuffer addr;;
    send_warning i.

Definition listen_socket (rid rfd ropaque : Z) : M Z :=
  let i := HASH_ID rid in
  ok ← new_fd rid rfd PROTOCOL_TCP ropaque false;
  if (ok : bool) then upd_s i (set_type SOCKET_TYPE_PLISTEN);; mret (-1)
  else
    sys_close rfd;;
    set_res (mk_smsg rid ropaque 0 (DConst "reach skynet socket number limit"));;
    upd_s i (set_type SOCKET_TYPE_INVALID);;
    mret SOCKET_ERR.

Definition nomore_sending_data (s : socket) : bool :=
  send_buffer_empty s && bool_decide (dw_buffer s = None) && (Z.land (sending s) 65535 =? 0).

(** What [close_socket] does once it has tried to send. *)
Definition close_rest (i rid ropaque : Z) (shutdown : bool) : M Z :=
  s ← get_s i;
  if shutdown || nomore_sending_data s then
    force_close i;;
    st ← get_sys;
    set_res (mk_smsg rid ropaque (sm_ud (result st)) (sm_data (result st)));;
    mret SOCKET_CLOSE
  else
    upd_s i (set_type SOCKET_TYPE_HALFCLOSE);;
    mret (-1).

Definition close_socket (rid : Z) (shutdown : bool) (ropaque : Z) : M Z :=
  let i := HASH_ID rid in
  s ← get_s i;
  if bool_decide (type s = SOCKET_TYPE_INVALID) || negb (id s =? rid) then
    set_res (mk_smsg rid ropaque 0 DNull);;
    mret SOCKET_CLOSE
  else if negb (nomore_sending_data s) then
    ty ← send_buffer i;
    if negb (ty =? -1) && negb (ty =? SOCKET_WARNING) then mret ty
    else close_rest i rid ropaque shutdown
  else close_rest i rid ropaque shutdown.

Definition bind_socket (rid rfd ropaque : Z) : M Z :=
  let i := HASH_ID rid in
  set_res (mk_smsg rid ropaque 0 DNull);;
  ok ← new_fd rid rfd PROTOCOL_TCP ropaque true;
  if negb ok then
    set_res_data (DConst "reach skynet socket number limit");;
    mret SOCKET_ERR
  else
    upd_s i (set_type SOCKET_TYPE_BIND);;
    set_res_data (DConst "binding");;
    mret SOCKET_OPEN.

Definition start_socket (rid ropaque : Z) : M Z :=
  let i := HASH_ID rid in
  set_res (mk_smsg rid ropaque 0 DNull);;
  s ← get_s i;
  if bool_decide (type s = SOCKET_TYPE_INVALID) || negb (id s =? rid) then
    set_res_data (DConst "invalid socket");;
    mret SOCKET_ERR
  else if bool_decide (type s = SOCKET_TYPE_PACCEPT) || bool_decide (type s = SOCKET_TYPE_PLISTEN) then
    failed ← sp_add (fd s) i;
    if (failed : bool) then
      force_close i;;
      set_res_data DErrno;;
      mret SOCKET_ERR
    else
      upd_s i (set_type (if bool_decide (type s = SOCKET_TYPE_PACCEPT) then SOCKET_TYPE_CONNECTED else SOCKET_TYPE_LISTEN));;
      upd_s i (set_opaque ropaque);;
      set_res_data (DConst "start");;
      mret SOCKET_OPEN
  else if bool_decide (type s = SOCKET_TYPE_CONNECTED) then
    upd_s i (set_opaque ropaque);;
    set_res_data (DConst "transfer");;
    mret SOCKET_OPEN
  else mret (-1).

(** [setsockopt] on the socket's descriptor; its result is not looked at. *)
Definition setopt_socket (rid what value : Z) : M unit :=
  s ← get_s (HASH_ID rid);
  if bool_decide (type s = SOCKET_TYPE_INVALID) || negb (id s =? rid) then mret tt
  else t ← next_tick; mret tt.

Definition add_udp_socket (rid rfd : Z) (inet6 : bool) (ropaque : Z) : M unit :=
  let i := HASH_ID rid in
  ok ← new_fd rid rfd (if inet6 then PROTOCOL_UDPv6 else PROTOCOL_UDP) ropaque true;
  if negb ok then
    sys_close rfd;;
    upd_s i (set_type SOCKET_TYPE_INVALID)
  else
    upd_s i (set_type SOCKET_TYPE_CONNECTED);;
    upd_s i (set_p (P_address (replicate (Z.to_nat UDP_ADDRESS_SIZE) 0))).

(** [memcpy(s->p.udp_address, address, n)] *)
Definition copy_address (s : socket) (address : list Z) (n : Z) : option (list Z) :=
  match p s with
  | P_address a =>
      if (n <=? Z.of_nat (length address)) && (n <=? Z.of_nat (length a))
      then Some (take (Z.to_nat n) address ++ drop (Z.to_nat n) a) else None
  | P_size _ => None
  end.

Definition set_udp_address (rid : Z) (address : list Z) : M Z :=
  let i := HASH_ID rid in
  s ← get_s i;
  if bool_decide (type s = SOCKET_TYPE_INVALID) || negb (id s =? rid) then mret (-1)
  else match address with
  | [] => crash
  | ty :: _ =>
      if negb (ty =? protocol s) then
        set_res (mk_smsg (id s) (opaque s) 0 (DConst "protocol mismatch"));;
        mret SOCKET_ERR
      else match copy_address s address (if ty =? PROTOCOL_UDP then 1 + 2 + 4 else 1 + 2 + 16) with
      | None => crash
      | Some a =>
          upd_s i (set_p (P_address a));;
          upd_s i (λ s, set_udpconnecting (u16 (udpconnecting s - 1)) s);;
          mret (-1)
      end
  end.

(** Whether the reference was counted; false when the counter is full and the
    caller has to try again. *)
Definition inc_sending_ref (i rid : Z) : M bool :=
  s ← get_s i;
  if negb (protocol s =? PROTOCOL_TCP) then mret true
  else if Z.shiftr (sending s) 16 =? ID_TAG16 rid then
    if Z.land (sending s) 65535 =? 65535 then mret false
    else upd_s i (λ s, set_sending (u32 (sending s + 1)) s);; mret true
  else mret true.

Definition dec_sending_ref (rid : Z) : M unit :=
  let i := HASH_ID rid in
  s ← get_s i;
  if (id s =? rid) && (protocol s =? PROTOCOL_TCP) then
    assert (negb (Z.land (sending s) 65535 =? 0));;
    upd_s i (λ s, set_sending (u32 (sending s - 1)) s)
  else mret tt.

(** [has_cmd] *)
Definition has_cmd : M bool := st ← get_sys; mret (bool_decide (pipe st ≠ [])).

Definition run_request (r : request) : M Z :=
  match r with
  | ReqStart rid ro => start_socket rid ro
  | ReqBind rid rfd ro => bind_socket rid rfd ro
  | ReqListen rid rfd ro => listen_socket rid rfd ro
  | ReqClose rid sh ro => close_socket rid sh ro
  | ReqOpen rid port ro host => open_socket rid port ro host
  | ReqExit => set_res (mk_smsg 0 0 0 DNull);; mret SOCKET_EXIT
  | ReqSend pri rid sz b =>
      ret ← send_socket rid sz b pri None;
      dec_sending_ref rid;;
      mret ret
  | ReqSendUdp rid sz b addr => send_socket rid sz b HIGH (Some addr)
  | ReqSetUdp rid addr => set_udp_address rid addr
  | ReqSetopt rid what v => setopt_socket rid what v;; mret (-1)
  | ReqUdp rid rfd inet6 ro => add_udp_socket rid rfd inet6 ro;; mret (-1)
  end.

(** Reads one request from the pipe; called only when there is one. *)
Definition ctrl_cmd : M Z :=
  st ← get_sys;
  match pipe st with
  | [] => crash
  | r :: rest => put_sys (set_pipe st rest);; run_request r
  end.

(** ** Events *)

Definition forward_message_tcp (i : Z) : M Z :=
  s ← get_s i;
  match p s with
  | P_address _ => crash
  | P_size sz =>
      t ← next_tick;
      match os_read os t (fd s) sz with
      | inr e =>
          if (e =? EINTR) || (e =? EAGAIN) then mret (-1)
          else force_close i;; set_res_data DErrno;; mret SOCKET_ERR
      | inl [] => force_close i;; mret SOCKET_CLOSE
      | inl data =>
          let n := Z.of_nat (length data) in
          if bool_decide (type s = SOCKET_TYPE_HALFCLOSE) then mret (-1)
          else
            sz' ← match (if n =? sz then chk32 (sz * 2)
                         else if (MIN_READ_BUFFER <? sz) && (n * 2 <? sz) then Some (Z.quot sz 2) else Some sz) with
                  | Some z => mret z
                  | None => crash
                  end;
            upd_s i (set_p (P_size sz'));;
            set_res (mk_smsg (id s) (opaque s) n (DBuf data));;
            mret SOCKET_DATA
      end
  end.

(** The bytes of an address behind the data of a UDP message. *)
Definition gen_udp_address (prot : Z) (sa : sockaddr_all) : list Z :=
  u8 prot :: match sa with SA_v4 port addr | SA_v6 port addr => port ++ addr end.

Definition forward_message_udp (i : Z) : M Z :=
  s ← get_s i;
  t ← next_tick;
  match os_recvfrom os t (fd s) MAX_UDP_PACKAGE with
  | inr e =>
      if (e =? EINTR) || (e =? EAGAIN) then mret (-1)
      else force_close i;; set_res_data DErrno;; mret SOCKET_ERR
  | inl (data, sa) =>
      let prot := match sa with SA_v4 _ _ => PROTOCOL_UDP | SA_v6 _ _ => PROTOCOL_UDPv6 end in
      if negb (protocol s =? prot) then mret (-1)
      else
        set_res (mk_smsg (id s) (opaque s) (Z.of_nat (length data)) (DBuf (data ++ gen_udp_address prot sa)));;
        mret SOCKET_UDP
  end.

Definition report_connect (i : Z) : M Z :=
  s ← get_s i;
  t ← next_tick;
  match os_getsockopt os t (fd s) with
  | None => force_close i;; set_res_data DErrno;; mret SOCKET_ERR
  | Some error =>
      if negb (error =? 0) then force_close i;; set_res_data (DStrerror error);; mret SOCKET_ERR
      else
        upd_s i (set_type SOCKET_TYPE_CONNECTED);;
        when (nomore_sending_data s) (sp_write (fd s) i false);;
        t ← next_tick;
        set_res (mk_smsg (id s) (opaque s) 0
                   (match os_getpeername os t (fd s) with Some l => DText l | None => DNull end));;
        mret SOCKET_OPEN
  end.

Definition report_accept (i : Z) : M Z :=
  s ← get_s i;
  t ← next_tick;
  match os_accept os t (fd s) with
  | inr e =>
      if (e =? EMFILE) || (e =? ENFILE) then
        set_res (mk_smsg (id s) (opaque s) 0 DErrno);; mret (-1)
      else mret 0
  | inl (client_fd, peer) =>
      nid ← reserve_id;
      if nid <? 0 then sys_close client_fd;; mret 0
      else
        ok ← new_fd nid client_fd PROTOCOL_TCP (opaque s) false;
        if negb ok then sys_close client_fd;; mret 0
        else
          upd_s (HASH_ID nid) (set_type SOCKET_TYPE_PACCEPT);;
          set_res (mk_smsg (id s) (opaque s) nid (match peer with Some l => DText l | None => DNull end));;
          mret 1
  end.

(** The first event from position [n] on of the socket that was closed. *)
Fixpoint clear_loop (st : sys) (cid : Z) (l : list event) : list event :=
  match l with
  | [] => []
  | e :: l =>
      match ev_s e with
      | Some i =>
          if bool_decide (type (sock st i) = SOCKET_TYPE_INVALID) && (id (sock st i) =? cid)
          then mk_event None (ev_read e) (ev_write e) (ev_error e) :: l
          else e :: clear_loop st cid l
      | None => e :: clear_loop st cid l
      end
  end.

Definition clear_closed_event (ty : Z) : M unit :=
  st ← get_sys;
  when ((ty =? SOCKET_CLOSE) || (ty =? SOCKET_ERR))
    (let n := Z.to_nat (event_index (ss st)) in
     modify_ss (λ a, set_events (event_index a) (take n (ev a) ++ clear_loop st (sm_id (result st)) (drop n (ev a))) a)).

Definition event_n (a : socket_server) : Z := Z.of_nat (length (ev a)).

(** The event of a socket that is neither connecting nor listening; [None]:
    nothing to report. *)
Definition handle_write (i : Z) (e : event) : M (option Z) :=
  if ev_write e then
    ty ← send_buffer i;
    mret (if ty =? -1 then None else Some ty)
  else if ev_error e then
    s ← get_s i;
    t ← next_tick;
    let err := match os_getsockopt os t (fd s) with
               | None => DErrno
               | Some error => if negb (error =? 0) then DStrerror error else DConst "Unknown error"
               end in
    force_close i;;
    set_res_data err;;
    mret (Some SOCKET_ERR)
  else mret None.

(** [--ss->event_index], and [e->read = read] *)
Definition again (e : event) (read : bool) : M unit :=
  modify_ss (λ a, set_events (event_index a - 1)
    (<[Z.to_nat (event_index a - 1) := mk_event (ev_s e) read (ev_write e) (ev_error e)]> (ev a)) a).

Definition handle_event (i : Z) (e : event) : M (option Z) :=
  s ← get_s i;
  if ev_read e then
    if protocol s =? PROTOCOL_TCP then
      ty ← forward_message_tcp i;
      when (ev_write e && negb (ty =? SOCKET_CLOSE) && negb (ty =? SOCKET_ERR)) (again e false);;
      mret (if ty =? -1 then None else Some ty)
    else
      ty ← forward_message_udp i;
      if ty =? SOCKET_UDP then again e true;; mret (Some SOCKET_UDP)
      else
        when (ev_write e && negb (ty =? SOCKET_CLOSE) && negb (ty =? SOCKET_ERR)) (again e false);;
        mret (if ty =? -1 then None else Some ty)
  else handle_write i e.

Definition dispatch_event (e : event) : M (option Z) :=
  match ev_s e with
  | None => mret None
  | Some i =>
      s ← get_s i;
      match type s with
      | SOCKET_TYPE_CONNECTING => ty ← report_connect i; mret (Some ty)
      | SOCKET_TYPE_LISTEN =>
          ok ← report_accept i;
          mret (if 0 <? ok then Some SOCKET_ACCEPT else if ok <? 0 then Some SOCKET_ERR else None)
      | SOCKET_TYPE_INVALID => mret None
      | _ => handle_event i e
      end
  end.

Definition set_no_more : M unit := λ st, Some (tt, set_more st false).

(** [sp_wait] when all events are handled.  [inr e]: no events, [errno] is
    [e].  The result is what the round of [socket_server_poll] ends with: to
    go on ([None] inside) or to return. *)
Definition wait_events : M (option (option Z)) :=
  st ← get_sys;
  t ← next_tick;
  modify_ss (set_checkctrl true);;
  set_no_more;;
  match os_epoll_wait os t (epoll st) with
  | inl l => modify_ss (set_events 0 l);; mret (match l with [] => Some (Some (-1)) | _ => None end)
  | inr e => modify_ss (set_events 0 []);; mret (Some (if e =? EINTR then None else Some (-1)))
  end.

(** The next event: [ss->ev[ss->event_index++]]. *)
Definition next_event : M event :=
  st ← get_sys;
  match arr_get (ev (ss st)) (event_index (ss st)) with
  | None => crash
  | Some e => modify_ss (λ a, set_events (event_index a + 1) (ev a) a);; mret e
  end.

(** The second half of a round: wait for events if there are none, handle one. *)
Definition poll_event : M (option Z) :=
  st ← get_sys;
  w ← (if event_index (ss st) =? event_n (ss st) then wait_events else mret None);
  match w with
  | Some r => mret r
  | None => e ← next_event; dispatch_event e
  end.

(** One round of the loop of [socket_server_poll]; [None]: it goes on. *)
Definition poll_round : M (option Z) :=
  st ← get_sys;
  if checkctrl (ss st) then
    c ← has_cmd;
    if (c : bool) then
      ty ← ctrl_cmd;
      if negb (ty =? -1) then clear_closed_event ty;; mret (Some ty) else mret None
    else modify_ss (set_checkctrl false);; poll_event
  else poll_event.

(** [socket_server_poll] for at most [n] rounds; [None]: not returned yet. *)
Fixpoint socket_server_poll (n : nat) : M (option Z) :=
  match n with
  | O => mret None
  | S n => r ← poll_round; match r with Some ty => mret (Some ty) | None => socket_server_poll n end
  end.

(** ** What the other threads call *)

Definition send_request (r : request) : M unit := λ st, Some (tt, set_pipe st (pipe st ++ [r])).

(** [sizeof(struct request_open)] *)
Definition SIZEOF_REQUEST_OPEN : Z := 24.

Definition socket_server_connect (ropaque : Z) (addr : list Z) (port : Z) : M Z :=
  if 256 <=? Z.of_nat (length addr) + SIZEOF_REQUEST_OPEN then mret (-1)
  else
    nid ← reserve_id;
    if nid <? 0 then mret (-1)
    else send_request (ReqOpen nid port ropaque addr);; mret nid.

Definition can_direct_write (s : socket) (rid : Z) : bool :=
  (id s =? rid) && nomore_sending_data s && bool_decide (type s = SOCKET_TYPE_CONNECTED) && (udpconnecting s =? 0).

(** What a send does before it has to write a request: [Some r] when it
    returns [r], [None] when the request is to be written. *)
Definition send_direct (rid : Z) (buffer : positive) (sz : Z) : M (option Z) :=
  let i := HASH_ID rid in
  emit (EvTake buffer);;
  s ← get_s i;
  if negb (id s =? rid) || bool_decide (type s = SOCKET_TYPE_INVALID) then
    free_buffer buffer sz;; mret (Some (-1))
  else if can_direct_write s rid then
    ok ← socket_trylock;
    if (ok : bool) then
      so ← send_object_init buffer sz;
      data ← bytes_at so.1.1 0 so.1.2;
      emit (EvPost rid HIGH buffer data);;
      n ← (if protocol s =? PROTOCOL_TCP then sys_write i data
           else match p s with
                | P_address a => sys_sendto i data (udp_socket_address (protocol s) a)
                | P_size _ => crash
                end);
      let n := if n <? 0 then 0 else n in
      if n =? so.1.2 then emit (EvFree so.2 buffer);; mret (Some 0)
      else
        upd_s i (set_dw n (Some buffer) sz);;
        sp_write (fd s) i true;;
        mret (Some 0)
    else mret None
  else mret None.

(** The request of a send. *)
Definition post_send (pri : priority) (rid : Z) (buffer : positive) (sz : Z) : M unit :=
  st ← get_sys;
  emit (EvPost rid pri buffer (object_data (soi (ss st)) buffer sz));;
  send_request (ReqSend pri rid sz buffer).

(** [socket_server_send]; [None]: [inc_sending_ref] still waits. *)
Definition socket_server_send (rid : Z) (buffer : positive) (sz : Z) : M (option Z) :=
  r ← send_direct rid buffer sz;
  match r with
  | Some r => mret (Some r)
  | None =>
      ok ← inc_sending_ref (HASH_ID rid) rid;
      if (ok : bool) then post_send HIGH rid buffer sz;; mret (Some 0) else mret None
  end.

(** What a send of low priority does before its request. *)
Definition send_check (rid : Z) (buffer : positive) (sz : Z) : M (option Z) :=
  emit (EvTake buffer);;
  s ← get_s (HASH_ID rid);
  if negb (id s =? rid) || bool_decide (type s = SOCKET_TYPE_INVALID) then
    free_buffer buffer sz;; mret (Some (-1))
  else mret None.

Definition socket_server_send_lowpriority (rid : Z) (buffer : positive) (sz : Z) : M (option Z) :=
  r ← send_check rid buffer sz;
  match r with
  | Some r => mret (Some r)
  | None =>
      ok ← inc_sending_ref (HASH_ID rid) rid;
      if (ok : bool) then post_send LOW rid buffer sz;; mret (Some 0) else mret None
  end.

Definition socket_server_exit : M unit := send_request ReqExit.
Definition socket_server_close (ropaque rid : Z) : M unit := send_request (ReqClose rid false ropaque).
Definition socket_server_shutdown (ropaque rid : Z) : M unit := send_request (ReqClose rid true ropaque).

(** [IPPROTO_TCP] or [IPPROTO_UDP] is a hint for [getaddrinfo]; the result is
    the descriptor and whether its family is [AF_INET6]. *)
Definition do_bind (host : list Z) (port : Z) : M (option (Z * bool)) :=
  let host := match host with [] => [48; 46; 48; 46; 48; 46; 48] (* "0.0.0.0" *) | _ => host end in
  t ← next_tick;
  match os_getaddrinfo os t host port with
  | inr _ => mret None
  | inl [] => crash
  | inl (ai :: _) =>
      t ← next_tick;
      let f := os_socket os t in
      if f <? 0 then mret None
      else
        t ← next_tick;
        if os_setsockopt os t f then sys_close f;; mret None
        else
          t ← next_tick;
          if os_bind os t f ai then sys_close f;; mret None
          else mret (Some (f, AF_INET6_of ai))
  end.

Definition do_listen (host : list Z) (port backlog : Z) : M (option Z) :=
  r ← do_bind host port;
  match r with
  | None => mret None
  | Some (f, _) =>
      t ← next_tick;
      if os_listen os t f backlog then sys_close f;; mret None else mret (Some f)
  end.

Definition socket_server_listen (ropaque : Z) (addr : list Z) (port backlog : Z) : M Z :=
  r ← do_listen addr port backlog;
  match r with
  | None => mret (-1)
  | Some f =>
      nid ← reserve_id;
      if nid <? 0 then sys_close f;; mret nid
      else send_request (ReqListen nid f ropaque);; mret nid
  end.

Definition socket_server_bind (ropaque f : Z) : M Z :=
  nid ← reserve_id;
  if nid <? 0 then mret (-1)
  else send_request (ReqBind nid f ropaque);; mret nid.

Definition socket_server_start (ropaque rid : Z) : M unit := send_request (ReqStart rid ropaque).

Definition TCP_NODELAY : Z := 1.
Definition socket_server_nodelay (rid : Z) : M unit := send_request (ReqSetopt rid TCP_NODELAY 1).

Definition socket_server_userobject (f : socket_object_interface) : M unit := modify_ss (set_soi (Some f)).

(** [addr]: [None] is NULL. *)
Definition socket_server_udp (ropaque : Z) (addr : option (list Z)) (port : Z) : M Z :=
  r ← (if negb (port =? 0) || bool_decide (is_Some addr) then do_bind (default [] addr) port
       else t ← next_tick; let f := os_socket os t in mret (if f <? 0 then None else Some (f, false)));
  match r with
  | None => mret (-1)
  | Some (f, inet6) =>
      nid ← reserve_id;
      if nid <? 0 then sys_close f;; mret (-1)
      else send_request (ReqUdp nid f inet6 ropaque);; mret nid
  end.

(** The length of an address by its first byte. *)
Definition addrsz (address : list Z) : option Z :=
  match address with
  | [] => None
  | ty :: _ => if ty =? PROTOCOL_UDP then Some (1 + 2 + 4) else if ty =? PROTOCOL_UDPv6 then Some (1 + 2 + 16) else None
  end.

Definition socket_server_udp_send (rid : Z) (addr : list Z) (buffer : positive) (sz : Z) : M Z :=
  let i := HASH_ID rid in
  emit (EvTake buffer);;
  s ← get_s i;
  if negb (id s =? rid) || bool_decide (type s = SOCKET_TYPE_INVALID) then
    free_buffer buffer sz;; mret (-1)
  else match addrsz addr with
  | None => free_buffer buffer sz;; mret (-1)
  | Some n =>
      let post := send_request (ReqSendUdp rid sz buffer (take (Z.to_nat n) addr));; mret 0 in
      if can_direct_write s rid then
        ok ← socket_trylock;
        if (ok : bool) then
          so ← send_object_init buffer sz;
          data ← bytes_at so.1.1 0 so.1.2;
          r ← sys_sendto i data (udp_socket_address (protocol s) addr);
          if 0 <=? r then emit (EvFree so.2 buffer);; mret 0 else post
        else post
      else post
  end.

Definition socket_server_udp_connect (rid : Z) (addr : list Z) (port : Z) : M Z :=
  let i := HASH_ID rid in
  s ← get_s i;
  if negb (id s =? rid) || bool_decide (type s = SOCKET_TYPE_INVALID) then mret (-1)
  else
    upd_s i (λ s, set_udpconnecting (u16 (udpconnecting s + 1)) s);;
    t ← next_tick;
    match os_getaddrinfo os t addr port with
    | inr _ => mret (-1)
    | inl [] => crash
    | inl (ai :: _) =>
        let prot := if AF_INET6_of ai then PROTOCOL_UDPv6 else PROTOCOL_UDP in
        send_request (ReqSetUdp rid (gen_udp_address prot ai));;
        mret 0
    end.

(** The address behind the data of a message, and its length. *)
Definition socket_server_udp_address (data : list Z) (ud : Z) : option (list Z * Z) :=
  let address := drop (Z.to_nat ud) data in
  n ← addrsz address; Some (take (Z.to_nat n) address, n).

End Server.
