(* ===== verification/SocketProof.v ===== *)
(** * The socket server is correct

    The functions of [SocketServer] are specified by weakest preconditions:
    [wp m Q st] says that [m] does not fail in [st] and what it does satisfies
    [Q].  A function that works on one socket has a specification [slot_op],
    which says what happened to that socket, to the buffers it held and to the
    stream of bytes it sends, and that nothing else changed. *)

From Stdlib Require Import ZArith Lia.
From stdpp Require Import base tactics option numbers gmap list strings sorting.
From S2P Require Import Prelude SocketServer.

Local Open Scope Z_scope.

(** ** Weakest preconditions *)

Definition wp {A} (m : M A) (Q : A → sys → Prop) (st : sys) : Prop :=
  match m st with Some (a, st') => Q a st' | None => False end.

Lemma wp_mono {A} (m : M A) (Q Q' : A → sys → Prop) st :
  wp m Q st → (∀ a st', Q a st' → Q' a st') → wp m Q' st.
Proof. unfold wp. destruct (m st) as [[a st']|]; auto. Qed.

Lemma wp_bind {A B} (m : M A) (k : A → M B) Q st :
  wp m (λ a st', wp (k a) Q st') st → wp (m ≫= k) Q st.
Proof. unfold wp, mbind, M_bind. destruct (m st) as [[a st']|]; auto. Qed.

Lemma wp_ret {A} (a : A) (Q : A → sys → Prop) st : Q a st → wp (mret a) Q st.
Proof. done. Qed.

Lemma wp_some {A} (m : M A) Q st : wp m Q st → ∃ a st', m st = Some (a, st') ∧ Q a st'.
Proof. unfold wp. destruct (m st) as [[a st']|]; [eauto|done]. Qed.

(** The states after the primitive actions. *)
Definition upd (st : sys) (i : Z) (s : socket) : sys :=
  set_ss st (set_slot (<[i := s]> (slot (ss st))) (ss st)).
Definition addlog (st : sys) (e : sys_event) : sys := set_log st (log st ++ [e]).
Definition ticked (st : sys) : sys := set_tick st (S (tick st)).

Lemma sock_upd st i s j : sock (upd st i s) j = if decide (j = i) then s else sock st j.
Proof.
  unfold sock, upd. simpl. case_decide as E; [subst; by rewrite lookup_insert_eq|].
  by rewrite lookup_insert_ne.
Qed.

Lemma sock_upd_eq st i s : sock (upd st i s) i = s.
Proof. rewrite sock_upd. by rewrite decide_True. Qed.

Lemma sock_upd_ne st i s j : j ≠ i → sock (upd st i s) j = sock st j.
Proof. intros. rewrite sock_upd. by rewrite decide_False. Qed.

Lemma wp_get_sys Q st : Q st st → wp get_sys Q st.
Proof. done. Qed.
Lemma wp_put_sys st' Q st : Q tt st' → wp (put_sys st') Q st.
Proof. done. Qed.
Lemma wp_get_s i Q st : Q (sock st i) st → wp (get_s i) Q st.
Proof. done. Qed.
Lemma wp_put_s i s Q st : Q tt (upd st i s) → wp (put_s i s) Q st.
Proof. done. Qed.
Lemma wp_upd_s i f Q st : Q tt (upd st i (f (sock st i))) → wp (upd_s i f) Q st.
Proof. done. Qed.
Lemma wp_emit e Q st : Q tt (addlog st e) → wp (emit e) Q st.
Proof. done. Qed.
Lemma wp_next_tick Q st : Q (tick st) (ticked st) → wp next_tick Q st.
Proof. done. Qed.
Lemma wp_set_res r Q st : Q tt (set_result st r) → wp (set_res r) Q st.
Proof. done. Qed.
Lemma wp_set_res_data d Q st :
  Q tt (set_result st (mk_smsg (sm_id (result st)) (sm_opaque (result st)) (sm_ud (result st)) d)) →
  wp (set_res_data d) Q st.
Proof. done. Qed.
Lemma wp_modify_ss f Q st : Q tt (set_ss st (f (ss st))) → wp (modify_ss f) Q st.
Proof. done. Qed.
Lemma wp_sp_del f Q st : Q tt (set_epoll st (delete f (epoll st))) → wp (sp_del f) Q st.
Proof. done. Qed.
Lemma wp_assert b Q st : b = true → Q tt st → wp (assert b) Q st.
Proof. by intros ->. Qed.
Lemma wp_when b m (Q : unit → sys → Prop) st :
  (b = true → wp m Q st) → (b = false → Q tt st) → wp (when b m) Q st.
Proof. destruct b; intros H1 H2; [by apply H1|by apply H2]. Qed.
Lemma wp_send_request r Q st : Q tt (set_pipe st (pipe st ++ [r])) → wp (send_request r) Q st.
Proof. done. Qed.
Lemma wp_set_no_more Q st : Q tt (set_more st false) → wp set_no_more Q st.
Proof. done. Qed.

(** One step of a program in the goal. *)
Ltac wp_step :=
  lazymatch goal with
  | |- wp (mbind _ _) _ _ => apply wp_bind
  | |- wp (mret _) _ _ => apply wp_ret
  | |- wp get_sys _ _ => apply wp_get_sys
  | |- wp (put_sys _) _ _ => apply wp_put_sys
  | |- wp (get_s _) _ _ => apply wp_get_s
  | |- wp (put_s _ _) _ _ => apply wp_put_s
  | |- wp (upd_s _ _) _ _ => apply wp_upd_s
  | |- wp (emit _) _ _ => apply wp_emit
  | |- wp next_tick _ _ => apply wp_next_tick
  | |- wp (set_res _) _ _ => apply wp_set_res
  | |- wp (set_res_data _) _ _ => apply wp_set_res_data
  | |- wp (modify_ss _) _ _ => apply wp_modify_ss
  | |- wp (sp_del _) _ _ => apply wp_sp_del
  | |- wp (send_request _) _ _ => apply wp_send_request
  | |- wp set_no_more _ _ => apply wp_set_no_more
  | |- wp (if true then ?m else _) ?Q ?s => change (wp m Q s)
  | |- wp (if false then _ else ?m) ?Q ?s => change (wp m Q s)
  | |- wp (if negb false then ?m else _) ?Q ?s => change (wp m Q s)
  | |- wp (if negb true then _ else ?m) ?Q ?s => change (wp m Q s)
  end; cbv beta.
Ltac wp_steps := repeat wp_step.

(** Reads through the updates of a state. *)
Lemma sock_set_log st l j : sock (set_log st l) j = sock st j. Proof. done. Qed.
Lemma sock_addlog st e j : sock (addlog st e) j = sock st j. Proof. done. Qed.
Lemma sock_ticked st j : sock (ticked st) j = sock st j. Proof. done. Qed.
Lemma sock_set_result st r j : sock (set_result st r) j = sock st j. Proof. done. Qed.
Lemma sock_set_epoll st r j : sock (set_epoll st r) j = sock st j. Proof. done. Qed.
Lemma sock_set_pipe st r j : sock (set_pipe st r) j = sock st j. Proof. done. Qed.
Lemma sock_set_tick st t j : sock (set_tick st t) j = sock st j. Proof. done. Qed.
Lemma sock_set_more st r j : sock (set_more st r) j = sock st j. Proof. done. Qed.
Lemma pipe_upd st i s : pipe (upd st i s) = pipe st. Proof. done. Qed.
Lemma epoll_upd st i s : epoll (upd st i s) = epoll st. Proof. done. Qed.
Lemma tick_upd st i s : tick (upd st i s) = tick st. Proof. done. Qed.
Lemma log_upd st i s : log (upd st i s) = log st. Proof. done. Qed.
Lemma result_upd st i s : result (upd st i s) = result st. Proof. done. Qed.
Lemma alloc_upd st i s : alloc_id (ss (upd st i s)) = alloc_id (ss st). Proof. done. Qed.
Lemma ev_upd st i s : ev (ss (upd st i s)) = ev (ss st). Proof. done. Qed.
Lemma index_upd st i s : event_index (ss (upd st i s)) = event_index (ss st). Proof. done. Qed.
Lemma soi_upd st i s : soi (ss (upd st i s)) = soi (ss st). Proof. done. Qed.
Lemma check_upd st i s : checkctrl (ss (upd st i s)) = checkctrl (ss st). Proof. done. Qed.
#[export] Hint Rewrite sock_upd_eq sock_set_log sock_addlog sock_ticked sock_set_result sock_set_epoll
  sock_set_pipe sock_set_more sock_set_tick pipe_upd epoll_upd tick_upd log_upd result_upd alloc_upd ev_upd index_upd soi_upd check_upd : sockdb.

Ltac ssimpl := repeat (progress (autorewrite with sockdb in *; cbn [ss pipe epoll tick log result more set_ss set_pipe
  set_epoll set_tick set_log set_result set_more addlog ticked set_slot checkctrl alloc_id event_index soi ev slot
  opaque high low wb_size sending fd id protocol type udpconnecting warn_size p dw_offset dw_buffer dw_size
  set_lists set_wb_size set_sending set_type set_opaque set_udpconnecting set_warn_size set_p set_dw
  sm_id sm_opaque sm_ud sm_data wb_buffer wb_base wb_off wb_sz userobject wb_udp_address] in * )).

(** How the proofs about one socket end. *)
Ltac wp_if E := match goal with |- wp (if ?b then _ else _) _ _ => destruct b eqn:E end.
Ltac sock_others := intros; ssimpl; repeat (rewrite sock_upd_ne by done; ssimpl); done.
Ltac solve_changed := split; ssimpl; try reflexivity; try sock_others; rewrite ?app_nil_r, <- ?app_assoc; try reflexivity.
Ltac solve_closes := split; ssimpl; try done; try sock_others;
  [eexists; rewrite <- ?app_assoc; split; [first [reflexivity|symmetry; apply app_nil_r]|by repeat constructor]
  |intros ?f ?v ?Hv; rewrite ?lookup_delete_Some, ?lookup_insert_Some in Hv; simpl; naive_solver].
Ltac solve_epoll_sub := ssimpl; intros ?f ?v ?Hv; rewrite ?lookup_delete_Some in Hv; naive_solver.

(** ** What a socket holds *)

(** What the kernel promises.  A write or read transfers at most what it was
    asked for, and a read less than a gigabyte; a write is not interrupted
    forever; the addresses that are found have the sizes of their families; an
    event is reported for a polled descriptor, once. *)
Class OSLaws (os : OS) : Prop := {
  law_write t f d : os_write os t f d <= Z.of_nat (length d);
  law_sendto t f d sa : os_sendto os t f d sa <= Z.of_nat (length d);
  law_eintr t f d : ∃ k, (k < os_eintr os)%nat ∧ os_write os (t + k) f d ≠ - EINTR;
  law_read t f n d : os_read os t f n = inl d → Z.of_nat (length d) <= n ∧ Z.of_nat (length d) < 2 ^ 30;
  law_getaddrinfo t h po l : os_getaddrinfo os t h po = inl l → l ≠ [] ∧
    Forall (λ sa, match sa with SA_v4 a b => length a = 2%nat ∧ length b = 4%nat
                              | SA_v6 a b => length a = 2%nat ∧ length b = 16%nat end) l;
  law_wait t ep l : os_epoll_wait os t ep = inl l →
    NoDup (omap ev_s l) ∧ ∀ e i, e ∈ l → ev_s e = Some i → ∃ f w, ep !! f = Some (i, w) }.

Section Proof.
Context {os : OS} `{!OSLaws os} {mem : positive → list Z}.

(** The bytes a buffer still has to send, and those of a socket: first what a
    direct write left over, then the list of high priority. *)
Definition wbd (wb : write_buffer) : list Z := take (Z.to_nat (wb_sz wb)) (drop (Z.to_nat (wb_off wb)) (mem (wb_base wb))).
Definition dwd (s : socket) : list Z :=
  match dw_buffer s with
  | Some b => drop (Z.to_nat (dw_offset s)) (take (Z.to_nat (dw_size s)) (mem b))
  | None => []
  end.
Definition pend (s : socket) : list Z := dwd s ++ concat (wbd <$> high s).
Definition lowd (s : socket) : list (list Z) := wbd <$> low s.

(** The buffers a socket owns. *)
Definition held (s : socket) : list positive :=
  (wb_buffer <$> high s) ++ (wb_buffer <$> low s) ++ option_list (dw_buffer s).

Definition wb_ok (wb : write_buffer) : Prop :=
  0 <= wb_off wb ∧ 0 <= wb_sz wb ∧ wb_off wb + wb_sz wb <= Z.of_nat (length (mem (wb_base wb))).
Definition wb_addr (wb : write_buffer) : Prop := wb_udp_address wb ≠ [].
Definition wb_fresh (wb : write_buffer) : Prop := wb_base wb = wb_buffer wb ∧ wb_off wb = 0.
Definition total (l : list write_buffer) : Z := foldr (λ wb n, wb_sz wb + n) 0 l.

(** Types of sockets in use. *)
Definition live (t : sock_type) : Prop := t ≠ SOCKET_TYPE_INVALID ∧ t ≠ SOCKET_TYPE_RESERVE.

Record sock_ok (s : socket) : Prop := {
  ok_size : live (type s) → wb_size s = total (high s) + total (low s);
  ok_high : Forall wb_ok (high s);
  ok_low : Forall wb_ok (low s);
  ok_empty : type s = SOCKET_TYPE_INVALID ∨ type s = SOCKET_TYPE_RESERVE →
    high s = [] ∧ low s = [] ∧ dw_buffer s = None;
  ok_dw : ∀ b, dw_buffer s = Some b → 0 <= dw_offset s <= dw_size s ∧ dw_size s <= Z.of_nat (length (mem b));
  ok_p : live (type s) →
    match p s with
    | P_size n => protocol s = PROTOCOL_TCP ∧ 0 < n
    | P_address a => (protocol s = PROTOCOL_UDP ∨ protocol s = PROTOCOL_UDPv6) ∧ length a = 19%nat
    end;
  ok_udp : live (type s) → protocol s ≠ PROTOCOL_TCP →
    Forall wb_addr (high s) ∧ Forall wb_addr (low s) ∧ dw_buffer s = None }.

(** What is in a log. *)
Definition free_of (e : sys_event) : list positive := match e with EvFree _ b => [b] | _ => [] end.
Definition frees (l : list sys_event) : list positive := concat (free_of <$> l).
Definition take_of (e : sys_event) : list positive := match e with EvTake b => [b] | _ => [] end.
Definition takes (l : list sys_event) : list positive := concat (take_of <$> l).
Definition write_of (x : Z) (e : sys_event) : list Z :=
  match e with EvWrite y _ d => if y =? x then d else [] | _ => [] end.
Definition writes (x : Z) (l : list sys_event) : list Z := concat (write_of x <$> l).
Definition post_of (x : Z) (pri : priority) (e : sys_event) : list (list Z) :=
  match e with EvPost y pri' _ d => if (y =? x) && bool_decide (pri' = pri) then [d] else [] | _ => [] end.
Definition posts (x : Z) (pri : priority) (l : list sys_event) : list (list Z) := concat (post_of x pri <$> l).

(** The events of a handler: no marks, and only socket [x] is written to. *)
Definition ev_local (x : Z) (e : sys_event) : Prop :=
  match e with EvPost _ _ _ _ | EvTake _ => False | EvWrite y _ _ => y = x | _ => True end.

Lemma concat_fmap_app {A B} (f : A → list B) l1 l2 : concat (f <$> (l1 ++ l2)) = concat (f <$> l1) ++ concat (f <$> l2).
Proof. by rewrite fmap_app, concat_app. Qed.

Lemma frees_app l1 l2 : frees (l1 ++ l2) = frees l1 ++ frees l2.
Proof. apply concat_fmap_app. Qed.
Lemma takes_app l1 l2 : takes (l1 ++ l2) = takes l1 ++ takes l2.
Proof. apply concat_fmap_app. Qed.
Lemma writes_app x l1 l2 : writes x (l1 ++ l2) = writes x l1 ++ writes x l2.
Proof. apply concat_fmap_app. Qed.
Lemma posts_app x pri l1 l2 : posts x pri (l1 ++ l2) = posts x pri l1 ++ posts x pri l2.
Proof. apply concat_fmap_app. Qed.

(** The stream of a socket while the bytes [w] are written and the first
    buffers [C] of the low list are taken up.  A socket that is closed loses
    the rest. *)
Inductive stream_op (s : socket) (w : list Z) (s' : socket) : Prop :=
  | stream_live C :
      lowd s = C ++ lowd s' → pend s ++ concat C = w ++ pend s' → stream_op s w s'
  | stream_dead C R :
      type s' = SOCKET_TYPE_INVALID → lowd s = C ++ R → w `prefix_of` pend s ++ concat C → stream_op s w s'.

Definition epoll_ok (st : sys) : Prop :=
  ∀ f i w, epoll st !! f = Some (i, w) → fd (sock st i) = f ∧ live (type (sock st i)).

(** A function worked on socket [i], given the buffers [G]; [R] says what it did
    to the stream of the socket. *)
Record slot_rel (R : socket → list Z → socket → Prop) (i : Z) (G : list positive) (st st' : sys) : Prop := {
  op_pipe : pipe st' = pipe st;
  op_alloc : alloc_id (ss st') = alloc_id (ss st);
  op_ev : ev (ss st') = ev (ss st);
  op_index : event_index (ss st') = event_index (ss st);
  op_soi : soi (ss st') = soi (ss st);
  op_check : checkctrl (ss st') = checkctrl (ss st);
  op_others : ∀ j, j ≠ i → sock st' j = sock st j;
  op_log : ∃ evs, log st' = log st ++ evs ∧ Forall (ev_local (id (sock st i))) evs ∧
    held (sock st i) ++ G ≡ₚ held (sock st' i) ++ frees evs ∧
    (protocol (sock st i) = PROTOCOL_TCP →
     R (sock st i) (writes (id (sock st i)) evs) (sock st' i)) ∧
    (protocol (sock st i) ≠ PROTOCOL_TCP → writes (id (sock st i)) evs = []);
  op_id : id (sock st' i) = id (sock st i);
  op_protocol : protocol (sock st' i) = protocol (sock st i);
  op_sending : sending (sock st' i) = sending (sock st i);
  op_type : type (sock st i) = SOCKET_TYPE_INVALID → type (sock st' i) = SOCKET_TYPE_INVALID;
  op_reserve : type (sock st' i) = SOCKET_TYPE_RESERVE ↔ type (sock st i) = SOCKET_TYPE_RESERVE;
  op_epoll : epoll_ok st → epoll_ok st' }.

Notation slot_op := (slot_rel stream_op).

Lemma stream_op_trans s w1 s1 w2 s2 :
  stream_op s w1 s1 → stream_op s1 w2 s2 →
  (type s1 = SOCKET_TYPE_INVALID → pend s1 = [] ∧ lowd s1 = [] ∧ type s2 = SOCKET_TYPE_INVALID) →
  stream_op s (w1 ++ w2) s2.
Proof.
  intros [C1 Hl1 Hp1|C1 R1 Ht1 Hl1 Hp1] H2 Hdead.
  - destruct H2 as [C2 Hl2 Hp2|C2 R2 Ht2 Hl2 Hp2].
    + apply (stream_live _ _ _ (C1 ++ C2)); [by rewrite Hl1, Hl2, app_assoc|].
      by rewrite concat_app, app_assoc, Hp1, <- app_assoc, Hp2, app_assoc.
    + apply (stream_dead _ _ _ (C1 ++ C2) R2); [done|by rewrite Hl1, Hl2, app_assoc|].
      rewrite concat_app, app_assoc, Hp1, <- app_assoc. by apply prefix_app.
  - destruct (Hdead Ht1) as (Hp & Hl & Ht2). apply (stream_dead _ _ _ C1 R1); [done..|].
    assert (w2 = []) as ->; [|by rewrite app_nil_r].
    destruct H2 as [C2 Hl2 Hp2|C2 R2 _ Hl2 Hp2]; rewrite Hl in Hl2; symmetry in Hl2;
      apply app_nil in Hl2 as [-> ?]; rewrite Hp in Hp2; simpl in Hp2.
    + symmetry in Hp2. by apply app_nil in Hp2 as [-> _].
    + by apply prefix_nil_inv in Hp2.
Qed.

Lemma sock_ok_dead s : sock_ok s → type s = SOCKET_TYPE_INVALID → pend s = [] ∧ lowd s = [].
Proof.
  intros Hok Ht. destruct (ok_empty s Hok) as (Hh & Hl & Hd); [auto|].
  unfold pend, lowd, dwd. by rewrite Hh, Hl, Hd.
Qed.

Lemma slot_op_trans i G1 G2 st st1 st2 :
  sock_ok (sock st1 i) → slot_op i G1 st st1 → slot_op i G2 st1 st2 → slot_op i (G1 ++ G2) st st2.
Proof.
  intros Hok H1 H2. destruct H1, H2. destruct op_log0 as (e1 & Hl1 & He1 & Hh1 & Hs1 & Hu1).
  destruct op_log1 as (e2 & Hl2 & He2 & Hh2 & Hs2 & Hu2). rewrite op_id0 in *. rewrite op_protocol0 in *.
  split; try congruence.
  - intros j Hj. rewrite op_others1, op_others0; done.
  - exists (e1 ++ e2). split; [by rewrite Hl2, Hl1, app_assoc|]. split; [by apply Forall_app|]. split_and!.
    + rewrite frees_app, app_assoc, Hh1. rewrite <- app_assoc, (Permutation_app_comm (frees e1) G2), app_assoc, Hh2.
      rewrite <- app_assoc. by rewrite (Permutation_app_comm (frees e2)).
    + intros Hp. rewrite writes_app. apply (stream_op_trans _ _ (sock st1 i)); [auto..|].
      intros Ht. destruct (sock_ok_dead _ Hok Ht). auto.
    + intros Hp. by rewrite writes_app, Hu1, Hu2.
  - auto.
  - by rewrite op_reserve1.
  - auto.
Qed.

(** Changing the message under construction or the clock is no operation. *)
Definition same_but_result (st st' : sys) : Prop :=
  ss st' = ss st ∧ pipe st' = pipe st ∧ epoll st' = epoll st ∧ log st' = log st.

Lemma slot_op_result R i G st st1 st2 : same_but_result st1 st2 → slot_rel R i G st st1 → slot_rel R i G st st2.
Proof.
  intros (Hs & Hp & He & Hl) H. destruct st1, st2; simpl in *; subst. destruct H. split; assumption.
Qed.

Lemma slot_op_refl i st : slot_op i [] st st.
Proof.
  split; try done. exists []. rewrite !app_nil_r. repeat split; [done..|].
  intros _. apply (stream_live _ _ _ []); [done|]. by rewrite app_nil_r.
Qed.

Lemma wp_free_wb_list l Q st :
  Q tt (set_log st (log st ++ ((λ wb, EvFree (userobject wb) (wb_buffer wb)) <$> l))) → wp (free_wb_list l) Q st.
Proof.
  revert st. induction l as [|wb l IH]; intros st H; simpl.
  - unfold wp. simpl. rewrite app_nil_r in H. by destruct st.
  - apply wp_bind. apply IH. simpl. by rewrite <- app_assoc.
Qed.

Lemma frees_list l : frees ((λ wb, EvFree (userobject wb) (wb_buffer wb)) <$> l) = wb_buffer <$> l.
Proof. unfold frees. induction l as [|wb l IH]; simpl; [done|]. by f_equal. Qed.

Lemma wp_send_object_init b sz Q st :
  0 <= sz → Q (b, sz, false) st → wp (send_object_init b sz) Q st.
Proof. intros Hs H. unfold send_object_init. zcases. done. Qed.

Lemma wp_free_buffer b sz Q st : 0 <= sz → Q tt (addlog st (EvFree false b)) → wp (free_buffer b sz) Q st.
Proof. intros Hs H. apply wp_bind, wp_send_object_init; done. Qed.

Lemma sock_ok_closed s : type s = SOCKET_TYPE_INVALID → high s = [] → low s = [] → dw_buffer s = None → sock_ok s.
Proof.
  intros Ht Hh Hl Hd. unfold live. split; rewrite ?Hh, ?Hl, ?Hd, ?Ht; try done; intros []; done.
Qed.

(** What a function did to the server, apart from the poll set: socket [i] is
    now [s'] and the events [evs] happened. *)
Record changed (i : Z) (s' : socket) (evs : list sys_event) (st st' : sys) : Prop := {
  ch_pipe : pipe st' = pipe st;
  ch_alloc : alloc_id (ss st') = alloc_id (ss st);
  ch_ev : ev (ss st') = ev (ss st);
  ch_index : event_index (ss st') = event_index (ss st);
  ch_soi : soi (ss st') = soi (ss st);
  ch_check : checkctrl (ss st') = checkctrl (ss st);
  ch_sock : sock st' i = s';
  ch_others : ∀ j, j ≠ i → sock st' j = sock st j;
  ch_log : log st' = log st ++ evs }.

Lemma slot_op_of R i G st st' s' evs :
  changed i s' evs st st' → (epoll_ok st → epoll_ok st') →
  id s' = id (sock st i) → protocol s' = protocol (sock st i) → sending s' = sending (sock st i) →
  (type (sock st i) = SOCKET_TYPE_INVALID → type s' = SOCKET_TYPE_INVALID) →
  (type s' = SOCKET_TYPE_RESERVE ↔ type (sock st i) = SOCKET_TYPE_RESERVE) →
  Forall (ev_local (id (sock st i))) evs →
  held (sock st i) ++ G ≡ₚ held s' ++ frees evs →
  (protocol (sock st i) = PROTOCOL_TCP → R (sock st i) (writes (id (sock st i)) evs) s') →
  (protocol (sock st i) ≠ PROTOCOL_TCP → writes (id (sock st i)) evs = []) →
  slot_rel R i G st st'.
Proof. intros []. subst s'. intros. split; try assumption. exists evs. auto. Qed.

(** Closing forgets the descriptor of the slot. *)
Lemma epoll_ok_closed st st' i f :
  epoll st' = delete f (epoll st) → fd (sock st i) = f → (∀ j, j ≠ i → sock st' j = sock st j) →
  epoll_ok st → epoll_ok st'.
Proof.
  intros He Hf Ho H g j w Hg. rewrite He in Hg. apply lookup_delete_Some in Hg as [Hne Hg].
  destruct (H _ _ _ Hg) as [Hfd Hp]. rewrite Ho; [done|]. intros ->. congruence.
Qed.

(** The poll set is as it was and the slot stays in use with its descriptor. *)
Lemma epoll_ok_same st st' i :
  epoll st' = epoll st → (∀ j, j ≠ i → sock st' j = sock st j) →
  fd (sock st' i) = fd (sock st i) → (live (type (sock st i)) → live (type (sock st' i))) →
  epoll_ok st → epoll_ok st'.
Proof.
  intros He Ho Hf Ht H g j w Hg. rewrite He in Hg. destruct (H _ _ _ Hg) as [Hfd Hp].
  destruct (decide (j = i)) as [->|Hj]; [rewrite Hf; auto|by rewrite Ho].
Qed.

(** The state in which [force_close] has closed the descriptor. *)
Definition closing_events (s : socket) : list sys_event :=
  ((λ wb, EvFree (userobject wb) (wb_buffer wb)) <$> high s) ++ ((λ wb, EvFree (userobject wb) (wb_buffer wb)) <$> low s) ++
  (if bool_decide (type s ≠ SOCKET_TYPE_BIND) then [EvClose (fd s)] else []) ++
  (match dw_buffer s with Some b => [EvFree false b] | None => [] end).

Lemma closing_events_ok x s :
  Forall (ev_local x) (closing_events s) ∧ held s ≡ₚ frees (closing_events s) ∧ writes x (closing_events s) = [].
Proof.
  unfold closing_events. split_and!.
  - repeat apply Forall_app_2; try (apply Forall_fmap, Forall_true; done); [by case_bool_decide; repeat constructor|].
    destruct (dw_buffer s); repeat constructor.
  - rewrite !frees_app, !frees_list. unfold held. by case_bool_decide; destruct (dw_buffer s).
  - assert (∀ l, writes x ((λ wb, EvFree (userobject wb) (wb_buffer wb)) <$> l) = []) as Hw by (intros l; by induction l).
    rewrite !writes_app, !Hw. by case_bool_decide; destruct (dw_buffer s).
Qed.

Lemma force_close_changed i st :
  sock_ok (sock st i) → type (sock st i) ≠ SOCKET_TYPE_RESERVE → type (sock st i) ≠ SOCKET_TYPE_INVALID →
  wp (force_close i) (λ _ st', ∃ s', changed i s' (closing_events (sock st i)) st st' ∧
    epoll st' = delete (fd (sock st i)) (epoll st) ∧
    type s' = SOCKET_TYPE_INVALID ∧ high s' = [] ∧ low s' = [] ∧ dw_buffer s' = None ∧ id s' = id (sock st i) ∧
    protocol s' = protocol (sock st i) ∧ sending s' = sending (sock st i) ∧
    result st' = mk_smsg (id (sock st i)) (opaque (sock st i)) 0 DNull) st.
Proof.
  intros Hok Hr Hi. unfold force_close. wp_steps. rewrite bool_decide_eq_false_2 by done.
  apply wp_bind, wp_assert; [by apply bool_decide_eq_true|].
  apply wp_bind, wp_free_wb_list. wp_steps. apply wp_free_wb_list. wp_steps.
  apply wp_when; intros Hp; wp_steps; apply wp_when; intros Hb; unfold sys_close; wp_steps;
    (destruct (dw_buffer (sock st i)) as [b|] eqn:Edw;
      [destruct (ok_dw _ Hok b Edw) as [Hd1 Hd2]; apply wp_bind, wp_free_buffer; [lia|]|]; wp_steps);
    (eexists; split; [unfold closing_events; rewrite Edw, Hb; solve_changed|]); ssimpl; split_and!; try done;
    rewrite ?delete_delete_eq; try done.
  all: apply bool_decide_eq_false, dec_stable in Hb; by rewrite Hb in Hp.
Qed.

Lemma force_close_spec i st :
  sock_ok (sock st i) → type (sock st i) ≠ SOCKET_TYPE_RESERVE →
  wp (force_close i) (λ _ st', slot_op i [] st st' ∧ sock_ok (sock st' i) ∧
    type (sock st' i) = SOCKET_TYPE_INVALID ∧
    result st' = mk_smsg (id (sock st i)) (opaque (sock st i)) 0 DNull) st.
Proof.
  intros Hok Hr. destruct (decide (type (sock st i) = SOCKET_TYPE_INVALID)) as [Hi|Hi].
  { unfold force_close. wp_steps. rewrite bool_decide_eq_true_2 by done. wp_steps.
    split_and!; [|done..]. apply (slot_op_result _ _ _ _ st); [done|apply slot_op_refl]. }
  eapply wp_mono; [by apply force_close_changed|].
  intros _ st' (s' & Hch & He & Ht & Hh & Hl & Hd & Hid & Hpr & Hse & Hres).
  destruct (closing_events_ok (id (sock st i)) (sock st i)) as (Hev & Hfr & Hw).
  rewrite (ch_sock _ _ _ _ _ Hch). split_and!; [|by apply sock_ok_closed|done..].
  eapply slot_op_of; try done.
  - eapply epoll_ok_closed; [done..|]. apply Hch.
  - by rewrite Ht.
  - unfold held at 2. by rewrite Hh, Hl, Hd, app_nil_r.
  - intros _. rewrite Hw. apply (stream_dead _ _ _ [] (lowd (sock st i))); [done..|]. apply prefix_nil.
Qed.

(** ** Sending a list *)

(** The first buffer may be sent in part: [w] of it is gone. *)
Definition part (l : list write_buffer) (w : list Z) (l' : list write_buffer) : Prop :=
  (l' = l ∧ w = []) ∨
  ∃ wb wb' rest, l = wb :: rest ∧ l' = wb' :: rest ∧ wbd wb = w ++ wbd wb' ∧ wb_buffer wb' = wb_buffer wb ∧
    wb_ok wb' ∧ 0 < wb_off wb' ∧ wb_udp_address wb' = wb_udp_address wb.

(** The buffers [dn] and the bytes [w] of the list of priority [pri] are sent. *)
Definition sent (i : Z) (pri : priority) (st st' : sys) : Prop :=
  let s := sock st i in
  ∃ dn l w l' evs, get_list pri s = dn ++ l ∧ part l w l' ∧
    changed i (set_wb_size (wb_size s - total (dn ++ l) + total l') (set_list pri l' s)) evs st st' ∧
    epoll st' = epoll st ∧ Forall (ev_local (id s)) evs ∧ frees evs = wb_buffer <$> dn ∧
    (protocol s = PROTOCOL_TCP → writes (id s) evs = concat (wbd <$> dn) ++ w) ∧
    (protocol s ≠ PROTOCOL_TCP → writes (id s) evs = []).

Lemma wp_write_retry n i d Q st :
  (∃ k, (k < n)%nat ∧ os_write os (tick st + k) (fd (sock st i)) d ≠ - EINTR) →
  (∀ r t, r <= Z.of_nat (length d) →
     Q r (set_tick (set_log st (log st ++ (if 0 <=? r then [EvWrite (id (sock st i)) (fd (sock st i)) (take (Z.to_nat r) d)] else []))) t)) →
  wp (write_retry os n i d) Q st.
Proof.
  revert st. induction n as [|n IH]; intros st (k & Hk & Hne) H; [lia|]. simpl. unfold sys_write. wp_steps. ssimpl.
  pose proof (law_write (tick st) (fd (sock st i)) d) as Hle.
  set (r := os_write os (tick st) (fd (sock st i)) d) in *. specialize (H r (S (tick st)) Hle) as Hr.
  apply wp_when; intros Hr0; rewrite Hr0 in Hr; wp_steps; ssimpl.
  - destruct (Z.eqb_spec r (- EINTR)); [unfold EINTR in *; bool_to_prop; lia|]. exact Hr.
  - rewrite app_nil_r in Hr. destruct (Z.eqb_spec r (- EINTR)) as [Hre|].
    + destruct k as [|k]; [by rewrite Nat.add_0_r in Hne|]. apply IH.
      * exists k. ssimpl. split; [lia|]. by replace (S (tick st) + k)%nat with (tick st + S k)%nat by lia.
      * intros r' t Hr'. specialize (H r' t Hr'). ssimpl. exact H.
    + destruct st; exact Hr.
Qed.

Lemma wbd_length wb : wb_ok wb → Z.of_nat (length (wbd wb)) = wb_sz wb.
Proof. intros (H1 & H2 & H3). unfold wbd. rewrite length_take, length_drop. lia. Qed.

Lemma wp_wb_data wb Q st : wb_ok wb → Q (wbd wb) st → wp (wb_data mem wb) Q st.
Proof. intros (H1 & H2 & H3) H. unfold wb_data, bytes_at. zcases. exact H. Qed.

Lemma wp_wb_address wb Q st : wb_addr wb → Q (wb_udp_address wb) st → wp (wb_address wb) Q st.
Proof. unfold wb_addr, wb_address. by destruct (wb_udp_address wb). Qed.

Lemma sent_refl i pri st st' :
  same_but_result st st' → sent i pri st st'.
Proof.
  intros (Hs & Hp & He & Hl). exists [], (get_list pri (sock st i)), [], (get_list pri (sock st i)), [].
  split_and!; try done; [by left|].
  assert (Hso : ∀ j, sock st' j = sock st j) by (intros; unfold sock; by rewrite Hs).
  split; rewrite ?Hs, ?Hp, ?Hl, ?app_nil_r; try done. rewrite Hso, app_nil_l, Z.sub_add.
  by destruct pri; destruct (sock st i).
Qed.

Lemma set_set pri a l1 b l2 s :
  set_wb_size b (set_list pri l2 (set_wb_size a (set_list pri l1 s))) = set_wb_size b (set_list pri l2 s).
Proof. by destruct pri. Qed.

Lemma set_set_list pri a l s : set_list pri l (set_wb_size a s) = set_wb_size a (set_list pri l s).
Proof. by destruct pri. Qed.

Lemma sent_trans i pri st st1 st2 wb next :
  get_list pri (sock st i) = wb :: next → sent i pri st1 st2 →
  (∃ evs, changed i (set_wb_size (wb_size (sock st i) - wb_sz wb) (set_list pri next (sock st i))) evs st st1 ∧
     epoll st1 = epoll st ∧ Forall (ev_local (id (sock st i))) evs ∧ frees evs = [wb_buffer wb] ∧
     (protocol (sock st i) = PROTOCOL_TCP → writes (id (sock st i)) evs = wbd wb) ∧
     (protocol (sock st i) ≠ PROTOCOL_TCP → writes (id (sock st i)) evs = [])) →
  sent i pri st st2.
Proof.
  intros Hl (dn & l & w & l' & evs & Hg & Hp & Hc & He & Hev & Hf & Hw & Hu) (evs1 & Hc1 & He1 & Hev1 & Hf1 & Hw1 & Hu1).
  rewrite (ch_sock _ _ _ _ _ Hc1) in *. set (s := sock st i) in *.
  assert (Hg' : get_list pri (set_wb_size (wb_size s - wb_sz wb) (set_list pri next s)) = next) by (by destruct pri).
  assert (Hid : id (set_wb_size (wb_size s - wb_sz wb) (set_list pri next s)) = id s) by (by destruct pri).
  assert (Hpr : protocol (set_wb_size (wb_size s - wb_sz wb) (set_list pri next s)) = protocol s) by (by destruct pri).
  rewrite Hid, Hpr in *. rewrite Hg' in Hg. unfold sent. cbv zeta. fold s. exists (wb :: dn), l, w, l', (evs1 ++ evs). split_and!; try done.
  - by rewrite Hl, Hg.
  - destruct Hc1, Hc. split; try congruence; [|intros; rewrite ch_others1 by done; auto|by rewrite ch_log1, ch_log0, app_assoc].
    rewrite ch_sock1. change (total ((wb :: dn) ++ l)) with (wb_sz wb + total (dn ++ l)).
    rewrite set_set. f_equal. simpl. lia.
  - by rewrite He.
  - by apply Forall_app.
  - by rewrite frees_app, Hf1, Hf.
  - intros Ht. rewrite writes_app, Hw1, Hw by done. simpl. by rewrite app_assoc.
  - intros Ht. by rewrite writes_app, Hu1, Hu.
Qed.

Lemma total_app l1 l2 : total (l1 ++ l2) = total l1 + total l2.
Proof. induction l1 as [|wb l IH]; simpl; [done|]. unfold total in *. lia. Qed.

(** A list was sent as far as possible, or the socket was closed on an error. *)
Definition sent_or_closed (i : Z) (pri : priority) (st : sys) (r : Z) (st' : sys) : Prop :=
  (r = -1 ∧ sent i pri st st') ∨
  (r = SOCKET_CLOSE ∧ ∃ st1, sent i pri st st1 ∧
    slot_op i [] st1 st' ∧ sock_ok (sock st' i) ∧ type (sock st' i) = SOCKET_TYPE_INVALID ∧
    result st' = mk_smsg (id (sock st i)) (opaque (sock st i)) 0 DNull).

Lemma sent_or_closed_trans i pri st st1 r st2 wb next :
  get_list pri (sock st i) = wb :: next → sent_or_closed i pri st1 r st2 →
  (∃ evs, changed i (set_wb_size (wb_size (sock st i) - wb_sz wb) (set_list pri next (sock st i))) evs st st1 ∧
     epoll st1 = epoll st ∧ Forall (ev_local (id (sock st i))) evs ∧ frees evs = [wb_buffer wb] ∧
     (protocol (sock st i) = PROTOCOL_TCP → writes (id (sock st i)) evs = wbd wb) ∧
     (protocol (sock st i) ≠ PROTOCOL_TCP → writes (id (sock st i)) evs = [])) →
  sent_or_closed i pri st r st2.
Proof.
  intros Hl [[Hr H]|(Hr & st' & H & Ho & Hok & Ht & Hres)] Hc; [left; eauto using sent_trans|right].
  split; [done|]. exists st'. split_and!; try done; [eauto using sent_trans|].
  destruct Hc as (evs & Hc & _). rewrite Hres, (ch_sock _ _ _ _ _ Hc). by destruct pri.
Qed.

(** A socket stays well formed when its list of one priority gets shorter. *)
Lemma sock_ok_shorter pri s l l' :
  live (type s) → sock_ok s → get_list pri s = l → Forall wb_ok l' → (protocol s ≠ PROTOCOL_TCP → Forall wb_addr l') →
  sock_ok (set_wb_size (wb_size s - total l + total l') (set_list pri l' s)).
Proof.
  intros Hlive Hok Hl Hl' Ha. destruct Hok. specialize (ok_size0 Hlive). specialize (ok_udp0 Hlive). destruct pri; simpl in Hl; subst l;
    (split; simpl; [intros _; lia|done|done| |done|done|naive_solver]); intros [E|E]; destruct Hlive; congruence.
Qed.

Lemma ok_list pri s : sock_ok s → Forall wb_ok (get_list pri s).
Proof. intros []. by destruct pri. Qed.

Lemma sent_sock i pri st st' :
  sent i pri st st' → ∃ l' w, sock st' i = set_wb_size w (set_list pri l' (sock st i)).
Proof. intros (dn & l & w & l' & evs & _ & _ & Hc & _). eexists _, _. apply Hc. Qed.

Lemma part_ok l w l' : part l w l' → Forall wb_ok l → Forall wb_ok l'.
Proof.
  intros [[-> _]|(wb & wb' & rest & -> & -> & _ & _ & Hok & _)] H; [done|]. constructor; [done|]. by inversion H.
Qed.

Lemma part_addr l w l' : part l w l' → Forall wb_addr l → Forall wb_addr l'.
Proof.
  intros [[-> _]|(wb & wb' & rest & -> & -> & _ & _ & _ & _ & Ha)] H; [done|]. inversion_clear H. constructor; [|done].
  unfold wb_addr in *. by rewrite Ha.
Qed.

Lemma ok_addr pri s : live (type s) → protocol s ≠ PROTOCOL_TCP → sock_ok s → Forall wb_addr (get_list pri s).
Proof. intros Hl Hp []. destruct (ok_udp0 Hl Hp) as (? & ? & _). by destruct pri. Qed.

Lemma sent_ok i pri st st' :
  live (type (sock st i)) → sock_ok (sock st i) → sent i pri st st' → sock_ok (sock st' i).
Proof.
  intros Hlive Hok (dn & l & w & l' & evs & Hg & Hp & Hc & _). rewrite (ch_sock _ _ _ _ _ Hc).
  apply sock_ok_shorter; [done..| |].
  - apply (part_ok _ _ _ Hp). pose proof (ok_list pri _ Hok) as H. rewrite Hg in H. by apply Forall_app in H as [_ ?].
  - intros Hu. apply (part_addr _ _ _ Hp). pose proof (ok_addr pri _ Hlive Hu Hok) as H. rewrite Hg in H. by apply Forall_app in H as [_ ?].
Qed.

Lemma send_list_tcp_spec i pri l st :
  live (type (sock st i)) → sock_ok (sock st i) → get_list pri (sock st i) = l → protocol (sock st i) = PROTOCOL_TCP →
  wp (send_list_tcp os mem i pri l) (sent_or_closed i pri st) st.
Proof.
  revert st. induction l as [|tmp next IH]; intros st Hlive Hok Hl Htcp; simpl.
  { wp_steps. left. split; [done|]. by apply sent_refl. }
  assert (wb_ok tmp ∧ Forall wb_ok next) as [Hwb Hnext].
  { pose proof (ok_list pri _ Hok) as H. rewrite Hl in H. by inversion H. }
  apply wp_bind, wp_wb_data; [done|]. apply wp_bind, wp_write_retry; [apply law_eintr|]. intros r t Hr.
  rewrite wbd_length in Hr by done. destruct (Z.ltb_spec r 0) as [Hneg|Hpos].
  - rewrite (proj2 (Z.leb_gt 0 r)), app_nil_r by lia. destruct (Z.eqb_spec r (- EAGAIN)).
    { wp_steps. left. split; [done|]. by apply sent_refl. }
    apply wp_bind. eapply wp_mono; [apply force_close_spec; [done|apply Hlive]|].
    intros _ st' (Ho & Hok' & Ht & Hres). wp_steps. right. split; [done|].
    eexists. split_and!; [|done..]. by apply sent_refl.
  - rewrite (proj2 (Z.leb_le 0 r)) by lia. wp_steps.
    destruct (Z.eqb_spec r (wb_sz tmp)) as [Hrs|Hrs]; simpl negb.
    + assert (Htake : take (Z.to_nat r) (wbd tmp) = wbd tmp).
      { apply take_ge. pose proof (wbd_length _ Hwb). lia. }
      wp_steps. unfold write_buffer_free. wp_steps. ssimpl.
      match goal with |- wp _ _ ?s => set (st1 := s) end.
      assert (Hch : changed i (set_wb_size (wb_size (sock st i) - wb_sz tmp) (set_list pri next (sock st i)))
                      [EvWrite (id (sock st i)) (fd (sock st i)) (wbd tmp); EvFree (userobject tmp) (wb_buffer tmp)] st st1).
      { subst st1. solve_changed; [by rewrite Hrs, set_set_list|by rewrite Htake]. }
      eapply wp_mono; [apply IH|].
      * rewrite (ch_sock _ _ _ _ _ Hch). by destruct pri.
      * rewrite (ch_sock _ _ _ _ _ Hch). replace (wb_size (sock st i) - wb_sz tmp)
          with (wb_size (sock st i) - total (tmp :: next) + total next) by (unfold total; simpl; lia). by apply sock_ok_shorter.
      * rewrite (ch_sock _ _ _ _ _ Hch). by destruct pri.
      * rewrite (ch_sock _ _ _ _ _ Hch). by destruct pri.
      * intros r' st' H. eapply sent_or_closed_trans; [done..|]. eexists. split; [done|]. split_and!; try done.
        { by repeat constructor. }
        intros _. unfold writes. simpl. by rewrite Z.eqb_refl, app_nil_r.
    + wp_steps. left. split; [done|]. ssimpl.
      set (tmp' := mk_wb (wb_buffer tmp) (wb_base tmp) (wb_off tmp + r) (wb_sz tmp - r) (userobject tmp) (wb_udp_address tmp)).
      destruct Hwb as (Hw1 & Hw2 & Hw3). exists [], (tmp :: next), (take (Z.to_nat r) (wbd tmp)), (tmp' :: next),
        [EvWrite (id (sock st i)) (fd (sock st i)) (take (Z.to_nat r) (wbd tmp))]. split_and!; try done.
      * destruct (decide (r = 0)) as [->|Hr0].
        { left. split; [|done]. subst tmp'. destruct tmp. simpl in *. by rewrite Z.add_0_r, Z.sub_0_r. }
        right. exists tmp, tmp', next. split_and!; try done; [|subst tmp'; unfold wb_ok; simpl; lia..].
        unfold wbd, tmp'. cbn [wb_sz wb_off wb_base].
        replace (Z.to_nat (wb_off tmp + r)) with (Z.to_nat (wb_off tmp) + Z.to_nat r)%nat by lia.
        replace (Z.to_nat (wb_sz tmp - r)) with (Z.to_nat (wb_sz tmp) - Z.to_nat r)%nat by lia.
        rewrite <- drop_drop, <- List.skipn_firstn_comm. by rewrite take_drop.
      * solve_changed. rewrite set_set_list. f_equal. unfold total, tmp'. simpl. lia.
      * by repeat constructor.
      * intros _. unfold writes. simpl. by rewrite Z.eqb_refl, app_nil_r.
Qed.

Lemma send_list_udp_spec i pri l st :
  live (type (sock st i)) → sock_ok (sock st i) → get_list pri (sock st i) = l → protocol (sock st i) ≠ PROTOCOL_TCP →
  wp (send_list_udp os mem i pri l) (sent_or_closed i pri st) st.
Proof.
  revert st. induction l as [|tmp next IH]; intros st Hlive Hok Hl Htcp; simpl.
  { wp_steps. left. split; [done|]. by apply sent_refl. }
  assert (wb_ok tmp ∧ Forall wb_ok next) as [Hwb Hnext].
  { pose proof (ok_list pri _ Hok) as H. rewrite Hl in H. by inversion H. }
  assert (wb_addr tmp ∧ Forall wb_addr next) as [Ha Hnexta].
  { pose proof (ok_addr pri _ Hlive Htcp Hok) as H. rewrite Hl in H. by inversion H. }
  wp_steps. apply wp_wb_address; [done|]. wp_steps. apply wp_wb_data; [done|]. unfold sys_sendto. wp_steps. ssimpl.
  set (r := os_sendto os _ _ _ _). apply wp_when; intros Hr; wp_steps; bool_to_prop.
  - rewrite (proj2 (Z.ltb_ge r 0)) by lia. unfold write_buffer_free. wp_steps. ssimpl.
    match goal with |- wp _ _ ?s => set (st1 := s) end.
    assert (Hch : ∃ e, changed i (set_wb_size (wb_size (sock st i) - wb_sz tmp) (set_list pri next (sock st i)))
                    [e; EvFree (userobject tmp) (wb_buffer tmp)] st st1 ∧ ev_local (id (sock st i)) e ∧ free_of e = [] ∧
                    write_of (id (sock st i)) e = []).
    { subst st1. eexists. split; [solve_changed; by rewrite set_set_list|done]. }
    destruct Hch as (e & Hch & He & Hfe & Hwe). eapply wp_mono; [apply IH|].
    * rewrite (ch_sock _ _ _ _ _ Hch). by destruct pri.
    * rewrite (ch_sock _ _ _ _ _ Hch). replace (wb_size (sock st i) - wb_sz tmp)
        with (wb_size (sock st i) - total (tmp :: next) + total next) by (unfold total; simpl; lia). by apply sock_ok_shorter.
    * rewrite (ch_sock _ _ _ _ _ Hch). by destruct pri.
    * rewrite (ch_sock _ _ _ _ _ Hch). by destruct pri.
    * intros r' st' H. eapply sent_or_closed_trans; [done..|]. eexists. split; [done|]. split_and!; try done.
      { by repeat constructor. }
      { unfold frees. simpl. by rewrite Hfe. }
      intros _. unfold writes. simpl. by rewrite Hwe.
  - rewrite (proj2 (Z.ltb_lt r 0)) by lia. wp_steps. left. split; [done|]. by apply sent_refl.
Qed.

Lemma send_list_spec i pri st :
  live (type (sock st i)) → sock_ok (sock st i) → wp (send_list os mem i pri) (sent_or_closed i pri st) st.
Proof.
  intros Hlive Hok. unfold send_list. wp_steps. destruct (Z.eqb_spec (protocol (sock st i)) PROTOCOL_TCP).
  - by apply send_list_tcp_spec.
  - by apply send_list_udp_spec.
Qed.

(** The parts of [slot_op] that follow from what [sent] leaves alone. *)
Lemma sent_slot_op i pri st st' :
  sent i pri st st' →
  (∀ w s', s' = sock st' i → w = writes (id (sock st i)) (drop (length (log st)) (log st')) →
     protocol (sock st i) = PROTOCOL_TCP → stream_op (sock st i) w s') →
  slot_op i [] st st'.
Proof.
  intros (dn & l & w & l' & evs & Hg & Hp & Hc & He & Hev & Hf & Hw & Hu) Hs.
  set (s' := set_wb_size _ _) in Hc. assert (Hs' : sock st' i = s') by apply Hc.
  eapply slot_op_of; [exact Hc|..]; try (by destruct pri); [| |].
  - eapply epoll_ok_same; [done|apply Hc|..]; rewrite Hs'; by destruct pri.
  - rewrite app_nil_r, Hf. assert (Hb : wb_buffer <$> l' = wb_buffer <$> l).
    { destruct Hp as [[-> _]|(wb & wb' & rest & -> & -> & _ & Hb & _)]; [done|]. simpl. by rewrite Hb. }
    unfold held, s'. destruct pri; simpl in *; rewrite Hg, Hb, fmap_app; [|set (h := wb_buffer <$> high _)];
      rewrite <- ?app_assoc; [|apply Permutation_app_head]; rewrite Permutation_app_comm, <- !app_assoc; done.
  - intros Ht. apply Hs; [done| |done]. rewrite (ch_log _ _ _ _ _ Hc), drop_app_length. done.
Qed.

Lemma sent_log i pri st st' : sent i pri st st' →
  ∃ dn l w l', get_list pri (sock st i) = dn ++ l ∧ part l w l' ∧
    sock st' i = set_wb_size (wb_size (sock st i) - total (dn ++ l) + total l') (set_list pri l' (sock st i)) ∧
    (protocol (sock st i) = PROTOCOL_TCP →
     writes (id (sock st i)) (drop (length (log st)) (log st')) = concat (wbd <$> dn) ++ w).
Proof.
  intros (dn & l & w & l' & evs & Hg & Hp & Hc & He & Hev & Hf & Hw & Hu). exists dn, l, w, l'.
  split_and!; [done..|apply Hc|]. intros Ht. by rewrite (ch_log _ _ _ _ _ Hc), drop_app_length, Hw.
Qed.

Lemma part_data l w l' : part l w l' → concat (wbd <$> l) = w ++ concat (wbd <$> l').
Proof.
  intros [[-> ->]|(wb & wb' & rest & -> & -> & Hd & _)]; [done|]. simpl. by rewrite Hd, app_assoc.
Qed.

Lemma sent_high i st st' : dw_buffer (sock st i) = None → sent i HIGH st st' → slot_op i [] st st'.
Proof.
  intros Hd Hs. apply (sent_slot_op _ HIGH); [done|]. intros w s' -> -> Ht.
  destruct (sent_log _ _ _ _ Hs) as (dn & l & w & l' & Hg & Hp & -> & Hw). rewrite Hw by done.
  apply (stream_live _ _ _ []); [done|]. unfold pend, dwd. simpl in *.
  by rewrite Hd, Hg, fmap_app, concat_app, (part_data _ _ _ Hp), app_nil_r, <- app_assoc.
Qed.

(** Sending of low priority that stops between two buffers. *)
Lemma sent_low i st st' :
  dw_buffer (sock st i) = None → high (sock st i) = [] → Forall wb_fresh (low (sock st i)) →
  list_uncomplete (low (sock st' i)) = false → sent i LOW st st' →
  slot_op i [] st st' ∧ Forall wb_fresh (low (sock st' i)).
Proof.
  intros Hd Hh Hfr Hun Hs. destruct (sent_log _ _ _ _ Hs) as (dn & l & w & l' & Hg & Hp & Hs' & Hw). simpl in Hg.
  assert (l' = l ∧ w = []) as [-> ->].
  { destruct Hp as [?|(wb & wb' & rest & _ & -> & _ & _ & _ & Hoff)]; [done|]. rewrite Hs' in Hun. simpl in Hun.
    apply negb_false_iff, andb_true_iff in Hun as [_ ?%Z.eqb_eq]. lia. }
  split; [|rewrite Hs'; simpl; rewrite Hg in Hfr; by apply Forall_app in Hfr as [_ ?]].
  apply (sent_slot_op _ LOW); [done|]. intros w s' -> -> Ht. rewrite Hw, Hs', app_nil_r by done.
  apply (stream_live _ _ _ (wbd <$> dn)); unfold lowd, pend, dwd; simpl.
  - by rewrite Hg, fmap_app.
  - rewrite Hd, Hh. simpl. by rewrite ?app_nil_r.
Qed.

(** Sending of low priority that stops inside a buffer, which is then raised to
    the high list. *)
Lemma sent_low_raise i st st' :
  dw_buffer (sock st i) = None → high (sock st i) = [] → Forall wb_fresh (low (sock st i)) →
  live (type (sock st i)) → sock_ok (sock st i) →
  list_uncomplete (low (sock st' i)) = true → sent i LOW st st' →
  wp (raise_uncomplete i) (λ _ st2, slot_op i [] st st2 ∧ Forall wb_fresh (low (sock st2 i)) ∧ sock_ok (sock st2 i) ∧
    type (sock st2 i) = type (sock st i)) st'.
Proof.
  intros Hd Hh Hfr Hlive Hok Hun Hs. pose proof (sent_ok _ _ _ _ Hlive Hok Hs) as Hok'.
  destruct Hs as (dn & l & w & l' & evs & Hg & Hp & Hc & He & Hev & Hf & Hw & Hu). simpl in Hg.
  pose proof (ch_sock _ _ _ _ _ Hc) as Hs'. rewrite Hs' in Hun, Hok'. simpl in Hun.
  rewrite Hg in Hfr. apply Forall_app in Hfr as [Hfd Hfl].
  destruct Hp as [[-> ->]|(wb & wb' & rest & -> & -> & Hd' & Hb & Hwb & Hoff)].
  { destruct l as [|wb l]; [done|]. inversion_clear Hfl as [|?? [Hb Ho]]. simpl in Hun. rewrite Hb, Ho in Hun.
    by rewrite bool_decide_eq_true_2 in Hun. }
  inversion_clear Hfl as [|?? _ Hfr]. unfold raise_uncomplete. wp_steps. rewrite Hs'. simpl low. cbn iota.
  wp_steps. apply wp_assert; [simpl; rewrite Hh; by apply bool_decide_eq_true|]. wp_steps. ssimpl. rewrite Hs'.
  match goal with |- context [sock_ok ?x] => set (s2 := x) end.
  assert (Hok2 : sock_ok s2).
  { destruct Hok'. split; simpl in *; try done.
    - intros Hl. rewrite ok_size0 by done. rewrite Hh. unfold total. simpl. lia.
    - by constructor; [|constructor].
    - by inversion ok_low0.
    - intros [E|E]; destruct Hlive; congruence.
    - intros Hl Hup. destruct (ok_udp0 Hl Hup) as (_ & Ha & ?). inversion_clear Ha. by split_and!; [by constructor; [|constructor]|..]. }
  split_and!; [|done|done|done].
  eapply (slot_op_of _ _ _ _ _ s2 evs).
  - destruct Hc. split; ssimpl; try done. intros. rewrite !sock_upd_ne by done. auto.
  - intros Hep. assert (Hep' : epoll_ok st') by (eapply epoll_ok_same; [done|apply Hc|by rewrite Hs'..|done]).
    eapply epoll_ok_same; [..|exact Hep']; [done|intros; by rewrite !sock_upd_ne by done|..]; ssimpl; by rewrite Hs'.
  - done.
  - done.
  - done.
  - done.
  - done.
  - done.
  - rewrite Hf. unfold held. simpl. rewrite Hh, Hg, Hd, Hb, !app_nil_r, fmap_app, fmap_cons. simpl.
    by rewrite Permutation_app_comm.
  - intros Ht. rewrite Hw by done. apply (stream_live _ _ _ (wbd <$> (dn ++ [wb]))); unfold lowd, pend, dwd; simpl.
    + by rewrite Hg, !fmap_app, <- app_assoc.
    + rewrite Hd, Hh. simpl. rewrite fmap_app, concat_app. simpl. by rewrite !app_nil_r, Hd', app_assoc.
  - done.
Qed.

(** The poll set after [sp_write]. *)
Definition after_sp_write (st : sys) (f i : Z) (b : bool) : sys :=
  match epoll st !! f with Some _ => set_epoll st (<[f := (i, b)]> (epoll st)) | None => st end.

Lemma wp_sp_write f i b Q st : Q tt (after_sp_write st f i b) → wp (sp_write f i b) Q st.
Proof. done. Qed.

Lemma sp_write_sock st f i b j : sock (after_sp_write st f i b) j = sock st j.
Proof. unfold after_sp_write. by destruct (epoll st !! f). Qed.
Lemma sp_write_ss st f i b : ss (after_sp_write st f i b) = ss st.
Proof. unfold after_sp_write. by destruct (epoll st !! f). Qed.
Lemma sp_write_log st f i b : log (after_sp_write st f i b) = log st.
Proof. unfold after_sp_write. by destruct (epoll st !! f). Qed.
Lemma sp_write_pipe st f i b : pipe (after_sp_write st f i b) = pipe st.
Proof. unfold after_sp_write. by destruct (epoll st !! f). Qed.
Lemma sp_write_result st f i b : result (after_sp_write st f i b) = result st.
Proof. unfold after_sp_write. by destruct (epoll st !! f). Qed.

Lemma sp_write_op i st b : live (type (sock st i)) → slot_op i [] st (after_sp_write st (fd (sock st i)) i b).
Proof.
  intros Hl. eapply (slot_op_of _ _ _ _ _ (sock st i) []); try done.
  - split; rewrite ?sp_write_ss, ?sp_write_log, ?sp_write_pipe, ?app_nil_r; try done; intros; apply sp_write_sock.
  - intros Hep g j w. unfold after_sp_write. destruct (epoll st !! fd (sock st i)) eqn:E; [|by apply Hep]. simpl.
    destruct (decide (g = fd (sock st i))) as [->|Hne]; [rewrite lookup_insert_eq; by intros [= <- <-]|].
    rewrite lookup_insert_ne by done. apply Hep.
  - intros _. apply (stream_live _ _ _ []); [done|by rewrite app_nil_r].
Qed.

(** How a socket fared: it kept its type and no closing is reported, or it was
    closed and the message to be returned says so. *)
Definition kept_or_closed (i : Z) (st : sys) (r : Z) (st' : sys) : Prop :=
  (type (sock st' i) = type (sock st i) ∧ r ≠ SOCKET_CLOSE ∧ r ≠ SOCKET_ERR) ∨
  (type (sock st' i) = SOCKET_TYPE_INVALID ∧ (r = SOCKET_CLOSE ∨ r = SOCKET_ERR) ∧ sm_id (result st') = id (sock st i)).

Definition handled (i : Z) (G : list positive) (st : sys) (r : Z) (st' : sys) : Prop :=
  slot_op i G st st' ∧ sock_ok (sock st' i) ∧ Forall wb_fresh (low (sock st' i)) ∧ kept_or_closed i st r st'.

Lemma closed_low s : sock_ok s → type s = SOCKET_TYPE_INVALID → Forall wb_fresh (low s).
Proof. intros Hok Ht. destruct (ok_empty _ Hok) as (_ & -> & _); [auto|constructor]. Qed.

Lemma handled_trans i G1 G2 st st1 r st2 :
  sock_ok (sock st1 i) → slot_op i G1 st st1 → type (sock st1 i) = type (sock st i) →
  handled i G2 st1 r st2 → handled i (G1 ++ G2) st r st2.
Proof.
  intros Hok Ho Ht (Ho2 & Hok2 & Hf & Hk). split_and!; [by apply (slot_op_trans _ _ _ _ st1)|done..|].
  unfold kept_or_closed in *. by rewrite <- Ht, <- (op_id _ _ _ _ _ Ho).
Qed.

Lemma send_done_spec i st :
  live (type (sock st i)) → sock_ok (sock st i) → high (sock st i) = [] → low (sock st i) = [] →
  wp (send_done i) (handled i [] st) st.
Proof.
  intros Hl Hok Hh Hlo. unfold send_done. wp_steps. apply wp_assert.
  { unfold send_buffer_empty. rewrite Hh, Hlo, (ok_size _ Hok Hl), Hh, Hlo. done. }
  apply wp_bind, wp_sp_write. set (st1 := after_sp_write st (fd (sock st i)) i false).
  assert (Hs1 : sock st1 i = sock st i) by apply sp_write_sock.
  assert (Ho1 : slot_op i [] st st1) by (by apply sp_write_op).
  assert (Hok1 : sock_ok (sock st1 i)) by (by rewrite Hs1).
  assert (Hlo1 : Forall wb_fresh (low (sock st1 i))) by (rewrite Hs1, Hlo; constructor).
  change (@nil positive) with (@nil positive ++ []).
  case_bool_decide as Hhc.
  - apply wp_bind. eapply wp_mono; [apply force_close_spec; [done|rewrite Hs1; apply Hl]|].
    intros _ st2 (Ho & Hok2 & Ht & Hres). wp_steps. eapply handled_trans; [exact Hok1|done|by rewrite Hs1|].
    split_and!; [done..|by apply closed_low|]. right. rewrite Hres. auto.
  - destruct (Z.ltb_spec 0 (warn_size (sock st i))).
    + wp_steps. eapply handled_trans; [exact Hok1|done|by rewrite Hs1|]. ssimpl. split_and!; ssimpl; [|destruct Hok1; by split|done|].
      * eapply (slot_op_of _ _ _ _ _ _ []); [solve_changed|..]; try done.
        { eapply epoll_ok_same; [done|sock_others|by ssimpl..]. }
        intros _. apply (stream_live _ _ _ []); [done|by rewrite app_nil_r].
      * left. split; [by ssimpl|]. done.
    + wp_steps. eapply handled_trans; [exact Hok1|done|by rewrite Hs1|]. split_and!; [apply slot_op_refl|done..|].
      left. done.
Qed.

Lemma fresh_complete l : Forall wb_fresh l → list_uncomplete l = false.
Proof. destruct 1 as [|wb l [Hb Ho]]; [done|]. simpl. rewrite Hb, Ho. by rewrite bool_decide_eq_true_2. Qed.

Lemma sent_fields i pri st st' : sent i pri st st' →
  type (sock st' i) = type (sock st i) ∧ dw_buffer (sock st' i) = dw_buffer (sock st i) ∧
  id (sock st' i) = id (sock st i) ∧
  (pri = HIGH → low (sock st' i) = low (sock st i)) ∧ (pri = LOW → high (sock st' i) = high (sock st i)).
Proof. intros (l' & w & ->)%sent_sock. by destruct pri. Qed.

(** The list of low priority is sent while the high list is empty. *)
Definition send_low (i : Z) : M Z :=
  r ← send_list os mem i LOW;
  if r =? SOCKET_CLOSE then mret SOCKET_CLOSE else
  s ← get_s i;
  if list_uncomplete (low s) then raise_uncomplete i;; mret (-1)
  else match low s with [] => send_done i | _ :: _ => mret (-1) end.

Lemma send_low_spec i st :
  live (type (sock st i)) → sock_ok (sock st i) → high (sock st i) = [] → dw_buffer (sock st i) = None →
  Forall wb_fresh (low (sock st i)) → wp (send_low i) (handled i [] st) st.
Proof.
  intros Hl Hok Hh Hd Hf. unfold send_low. wp_steps. eapply wp_mono; [by apply send_list_spec|].
  intros r st1 [[-> Hs]|(-> & st' & Hs & Ho & Hok' & Ht & Hres)]; simpl Z.eqb; wp_steps.
  - pose proof (sent_ok _ _ _ _ Hl Hok Hs) as Hok1. destruct (sent_fields _ _ _ _ Hs) as (Ht & Hd1 & Hid & _ & Hh1).
    destruct (list_uncomplete (low (sock st1 i))) eqn:Hun.
    + apply wp_bind. eapply wp_mono; [by apply (sent_low_raise i st)|].
      intros _ st2 (Ho & Hf2 & Hok2 & Ht2). wp_steps. split_and!; try done. left. by rewrite Ht2.
    + destruct (sent_low i st st1) as [Ho Hf1]; [done..|]. destruct (low (sock st1 i)) as [|wb l] eqn:Elow.
      * eapply wp_mono; [apply send_done_spec; try done; [by rewrite Ht|by rewrite Hh1]|].
        intros r2 st2 H2. change (@nil positive) with (@nil positive ++ []). by eapply handled_trans.
      * wp_steps. split_and!; try done; [by rewrite Elow|]. left. by rewrite Ht.
  - (* closed in the middle of the list: what was written is a prefix of it *)
    pose proof (sent_ok _ _ _ _ Hl Hok Hs) as Hok1. destruct (sent_fields _ _ _ _ Hs) as (Hts & Hd1 & Hid & _ & Hh1).
    split_and!; [|done|by apply closed_low|right; rewrite Hres; auto].
    destruct Hs as (dn & l & w & l' & evs & Hg & Hp & Hc & He & Hev & Hfr & Hw & Hu). simpl in Hg.
    set (s1 := set_wb_size _ _) in Hc. assert (Hs1 : sock st' i = s1) by apply Hc.
    destruct Ho as [? ? ? ? ? ? Hoth (evs2 & Hl2 & He2 & Hh2 & Hst2 & Hu2) Hi2 Hpr2 Hse2 _ Hre2 Hep2]. rewrite Hs1 in *.
    destruct Hc. split; try congruence; rewrite ?Hs1; try done.
    + intros j Hj. rewrite Hoth; auto.
    + exists (evs ++ evs2). split; [by rewrite Hl2, ch_log0, app_assoc|]. split; [by apply Forall_app|]. split_and!.
      * rewrite frees_app, Hfr, app_nil_r. rewrite app_nil_r in Hh2.
        assert (Hb : wb_buffer <$> l' = wb_buffer <$> l).
        { destruct Hp as [[-> _]|(wb & wb' & rest & -> & -> & _ & Hb & _)]; [done|]. simpl. by rewrite Hb. }
        rewrite (Permutation_app_comm (wb_buffer <$> dn)), app_assoc, <- Hh2. unfold held. simpl.
        rewrite Hg, Hb, fmap_app, Hh, Hd. simpl. rewrite !app_nil_r. apply Permutation_app_comm.
      * intros Htcp. rewrite writes_app, Hw by done.
        assert (Hdead : writes (id (sock st i)) evs2 `prefix_of` concat (wbd <$> l')).
        { destruct (Hst2 Htcp) as [C HC HP|C R _ HC HP]; unfold lowd, pend, dwd in HC, HP; simpl in HC, HP;
            rewrite Hh, Hd in HP; simpl in HP; rewrite HC, concat_app.
          - destruct (sock_ok_dead _ Hok' Ht) as [Hp2 Hl2']. unfold pend, dwd in Hp2. rewrite Hp2 in HP. rewrite app_nil_r in HP.
            exists (concat (lowd (sock st1 i))). by rewrite <- HP.
          - by apply prefix_app_r. }
        apply (stream_dead _ _ _ (lowd (sock st i)) []); [done|by rewrite app_nil_r|].
        unfold lowd, pend, dwd. rewrite Hd, Hh, Hg, fmap_app, concat_app, (part_data _ _ _ Hp). simpl.
        rewrite <- app_assoc. do 2 apply prefix_app. done.
      * intros Hnt. rewrite writes_app, Hu by done. by apply Hu2.
    + intros Hep. apply Hep2. eapply epoll_ok_same; [..|exact Hep]; try done; rewrite Hs1; done.
Qed.

Lemma send_buffer__spec i st :
  live (type (sock st i)) → sock_ok (sock st i) → dw_buffer (sock st i) = None →
  Forall wb_fresh (low (sock st i)) → wp (send_buffer_ os mem i) (handled i [] st) st.
Proof.
  intros Hl Hok Hd Hf. unfold send_buffer_. wp_steps. apply wp_assert; [by rewrite fresh_complete|].
  wp_steps. eapply wp_mono; [by apply send_list_spec|].
  intros r st1 [[-> Hs]|(-> & st' & Hs & Ho & Hok' & Ht & Hres)]; simpl Z.eqb; wp_steps;
    pose proof (sent_ok _ _ _ _ Hl Hok Hs) as Hok1;
    destruct (sent_fields _ _ _ _ Hs) as (Hts & Hd1 & Hid & Hlo & _);
    pose proof (sent_high i st _ Hd Hs) as Ho1; specialize (Hlo eq_refl); rewrite <- Hlo in Hf;
    change (@nil positive) with (@nil positive ++ []).
  - destruct (high (sock st1 i)) as [|wb h] eqn:Eh.
    + assert (handled_next : ∀ m, wp m (handled i [] st1) st1 → wp m (handled i ([] ++ []) st) st1).
      { intros m Hm. eapply wp_mono; [exact Hm|]. intros r2 st2 H2. by apply (handled_trans _ _ _ _ st1). }
      destruct (low (sock st1 i)) as [|wl l] eqn:El; apply handled_next.
      * apply send_done_spec; try done. by rewrite Hts.
      * apply (send_low_spec i st1); rewrite ?Hts, ?Hd1, ?El; done.
    + wp_steps. split_and!; try done. left. by rewrite Hts.
  - split_and!; [by apply (slot_op_trans _ _ _ _ st')|done|by apply closed_low|]. right. rewrite Hres. auto.
Qed.

Lemma take_dw_buffer_spec i st :
  live (type (sock st i)) → sock_ok (sock st i) →
  wp (take_dw_buffer i) (λ _ st', slot_op i [] st st' ∧ sock_ok (sock st' i) ∧ dw_buffer (sock st' i) = None ∧
    type (sock st' i) = type (sock st i) ∧ low (sock st' i) = low (sock st i)) st.
Proof.
  intros Hl Hok. unfold take_dw_buffer. wp_steps. destruct (dw_buffer (sock st i)) as [b|] eqn:Hd.
  2: { wp_steps. split_and!; try done. apply slot_op_refl. }
  destruct (ok_dw _ Hok b Hd) as [Ho Hsz]. apply wp_bind, wp_send_object_init; [lia|]. cbn [fst snd]. wp_steps. ssimpl.
  match goal with |- context [sock_ok ?x] => set (s' := x) end. split_and!; try done.
  - eapply (slot_op_of _ _ _ _ _ s' []); [solve_changed|..]; try done.
    + eapply epoll_ok_same; [done|sock_others|by ssimpl..].
    + unfold held, s'. simpl. rewrite Hd, !app_nil_r, app_assoc. rewrite Permutation_app_comm. done.
    + intros _. apply (stream_live _ _ _ []); [done|]. unfold s', pend, dwd. simpl. rewrite Hd, app_nil_r. f_equal.
      unfold wbd. simpl. by rewrite List.skipn_firstn_comm, Z2Nat.inj_sub by lia.
  - destruct Hok. split; simpl; try done.
    + intros _. rewrite ok_size0 by done. unfold total. simpl. lia.
    + constructor; [unfold wb_ok; simpl; lia|done].
    + intros [E|E]; destruct Hl; congruence.
    + intros _ Hup. destruct (ok_udp0 Hl Hup) as (_ & _ & E). congruence.
Qed.

Lemma send_buffer_spec i st :
  live (type (sock st i)) → sock_ok (sock st i) → Forall wb_fresh (low (sock st i)) →
  wp (send_buffer os mem i) (handled i [] st) st.
Proof.
  intros Hl Hok Hf. unfold send_buffer, socket_trylock. wp_steps. destruct (os_locked os (tick st)); simpl negb; wp_steps.
  { split_and!; try done; [apply (slot_op_result _ _ _ _ st); [done|apply slot_op_refl]|]. by left. }
  eapply wp_mono; [by apply take_dw_buffer_spec|]. intros _ st1 (Ho & Hok1 & Hd1 & Ht1 & Hl1).
  eapply wp_mono; [apply send_buffer__spec; rewrite ?Ht1, ?Hl1; done|].
  intros r st2 H. change (@nil positive) with (@nil positive ++ []).
  apply (handled_trans _ _ _ _ st1); try done. destruct Ho. by split.
Qed.

(** ** Requests *)

(** A packet [d] of priority [pri] enters the stream: behind what is pending, in
    the low list only if that has the priority. *)
Definition accept_op (pri : priority) (d : list Z) (s : socket) (w : list Z) (s' : socket) : Prop :=
  w = [] ∧ ((pend s' = pend s ++ d ∧ lowd s' = lowd s ∧ (pri = LOW → lowd s = [])) ∨
            (pri = LOW ∧ pend s' = pend s ∧ lowd s' = lowd s ++ [d])).

Definition object (b : positive) (sz : Z) : list Z := take (Z.to_nat sz) (mem b).

(** Appending a buffer to a list. *)
Lemma wp_append i pri sz b addr Q st :
  0 <= sz →
  Q tt (upd st i (set_wb_size (wb_size (sock st i) + sz)
          (set_list pri (get_list pri (sock st i) ++ [mk_wb b b 0 sz false addr]) (sock st i)))) →
  wp (append_sendbuffer_ i pri sz b addr) Q st.
Proof.
  intros Hs HQ. unfold append_sendbuffer_. apply wp_bind, wp_send_object_init; [done|]. cbn [fst snd]. wp_steps. ssimpl.
  replace (wb_size (set_list pri (get_list pri (sock st i) ++ [mk_wb b b 0 sz false addr]) (sock st i)))
    with (wb_size (sock st i)) by (by destruct pri).
  revert HQ. unfold upd. simpl. by rewrite insert_insert_eq.
Qed.

Definition appended (pri : priority) (sz : Z) (b : positive) (addr : list Z) (s : socket) : socket :=
  set_wb_size (wb_size s + sz) (set_list pri (get_list pri s ++ [mk_wb b b 0 sz false addr]) s).

Lemma appended_ok pri sz b addr s :
  live (type s) → sock_ok s → Forall wb_fresh (low s) → 0 <= sz <= Z.of_nat (length (mem b)) →
  (protocol s ≠ PROTOCOL_TCP → addr ≠ []) →
  sock_ok (appended pri sz b addr s) ∧ Forall wb_fresh (low (appended pri sz b addr s)).
Proof.
  intros Hl Hok Hf Hs Ha. destruct Hok. specialize (ok_udp0 Hl). assert (Hw : wb_ok (mk_wb b b 0 sz false addr)) by (unfold wb_ok; simpl; lia).
  split; [|destruct pri; simpl; [done|apply Forall_app; split; [done|by constructor]]].
  destruct pri; (split; simpl; [intros _; rewrite ok_size0 by done; rewrite total_app; unfold total; simpl; lia|..]; try done;
    [apply Forall_app; split; [done|by constructor]|intros [E|E]; destruct Hl; congruence|]);
    intros _ Hu; destruct (ok_udp0 Hu) as (? & ? & ?); split_and!; try done; apply Forall_app; (split; [done|]);
    by constructor; [apply Ha|constructor].
Qed.

Lemma appended_op pri pri' sz b addr i st :
  live (type (sock st i)) → 0 <= sz <= Z.of_nat (length (mem b)) →
  (protocol (sock st i) = PROTOCOL_TCP → pri' = pri ∨ pri = HIGH ∧ low (sock st i) = []) →
  slot_rel (accept_op pri' (object b sz)) i [b] st (upd st i (appended pri sz b addr (sock st i))).
Proof.
  intros Hl Hs Hpri. eapply (slot_op_of _ _ _ _ _ _ []); [solve_changed|..]; try (by destruct pri).
  - eapply epoll_ok_same; [done|sock_others|..]; ssimpl; by destruct pri.
  - unfold held, appended. destruct pri; simpl; rewrite ?fmap_app; simpl; solve_Permutation.
  - intros Ht. specialize (Hpri Ht). split; [done|]. unfold appended, pend, lowd, dwd, object.
    assert (Hw : wbd (mk_wb b b 0 sz false addr) = take (Z.to_nat sz) (mem b)) by done.
    destruct pri; simpl.
    + left. rewrite fmap_app, concat_app, app_assoc. simpl. rewrite Hw, app_nil_r. split_and!; try done.
      intros ->. destruct Hpri as [?|[_ ->]]; done.
    + right. destruct Hpri as [->|[? _]]; [|done]. rewrite fmap_app. simpl. by rewrite Hw.
Qed.

(** Changes that touch neither the buffers nor the state of a socket. *)
Definition quiet_sock (s s' : socket) : Prop :=
  high s' = high s ∧ low s' = low s ∧ wb_size s' = wb_size s ∧ dw_buffer s' = dw_buffer s ∧ dw_offset s' = dw_offset s ∧
  dw_size s' = dw_size s ∧ id s' = id s ∧ protocol s' = protocol s ∧ sending s' = sending s ∧ type s' = type s ∧ p s' = p s.

Definition quiet (i : Z) (st st' : sys) : Prop :=
  changed i (sock st' i) [] st st' ∧ (epoll_ok st → epoll_ok st') ∧ quiet_sock (sock st i) (sock st' i).

Lemma quiet_sock_ok s s' : quiet_sock s s' → sock_ok s → sock_ok s'.
Proof.
  intros (Hh & Hl & Hw & Hd & Ho & Hz & Hi & Hp & Hs & Ht & Hpp) []. split; rewrite ?Hh, ?Hl, ?Hw, ?Hd, ?Ho, ?Hz, ?Hp, ?Ht, ?Hpp; done.
Qed.

Lemma quiet_trans i st st1 st2 : quiet i st st1 → quiet i st1 st2 → quiet i st st2.
Proof.
  intros (Hc1 & He1 & Hq1) (Hc2 & He2 & Hq2). split_and!; [|auto|unfold quiet_sock in *; intuition congruence].
  destruct Hc1, Hc2. split; try congruence; [intros; rewrite ch_others1; auto|by rewrite ch_log1, ch_log0, <- app_assoc].
Qed.

(** Relations between streams that look at the pending data and the type. *)
Definition stream_rel (R : socket → list Z → socket → Prop) : Prop :=
  ∀ s w s1 s2, quiet_sock s1 s2 → R s w s1 → R s w s2.

Lemma quiet_data s s' : quiet_sock s s' → pend s' = pend s ∧ lowd s' = lowd s ∧ held s' = held s.
Proof.
  intros (Hh & Hl & Hw & Hd & Ho & Hz & Hi & Hp & Hs & Ht & Hpp). unfold pend, lowd, dwd, held.
  by rewrite Hh, Hl, Hd, Ho, Hz.
Qed.

Lemma stream_op_rel : stream_rel stream_op.
Proof.
  intros s w s1 s2 Hq [C Hl Hp|C R Ht Hl Hp]; destruct (quiet_data _ _ Hq) as (E1 & E2 & _).
  - apply (stream_live _ _ _ C); by rewrite ?E1, ?E2.
  - apply (stream_dead _ _ _ C R); [|done..]. rewrite <- Ht. apply Hq.
Qed.

Lemma accept_op_rel pri d : stream_rel (accept_op pri d).
Proof.
  intros s w s1 s2 Hq H. destruct (quiet_data _ _ Hq) as (E1 & E2 & _). unfold accept_op in *. by rewrite E1, E2.
Qed.

Lemma slot_rel_quiet R i G st st1 st2 :
  stream_rel R → slot_rel R i G st st1 → quiet i st1 st2 → slot_rel R i G st st2.
Proof.
  intros HR [] (Hc & He & Hq). destruct (quiet_data _ _ Hq) as (E1 & E2 & E3).
  pose proof Hq as (Hh & Hl & Hw & Hd & Ho & Hz & Hi & Hp & Hs & Ht & Hpp). destruct Hc.
  split; try congruence; auto.
  - intros. rewrite ch_others0; auto.
  - destruct op_log0 as (evs & L & F & P & S & U). exists evs. rewrite ch_log0, app_nil_r, E3. split_and!; try done.
    intros Htcp. eapply HR; [exact Hq|auto].
  - by rewrite Ht.
Qed.

Lemma quiet_slot_op i st st' : quiet i st st' → slot_op i [] st st'.
Proof. intros H. eapply slot_rel_quiet; [apply stream_op_rel|apply slot_op_refl|done]. Qed.

Lemma quiet_sp_write i st b : live (type (sock st i)) → quiet i st (after_sp_write st (fd (sock st i)) i b).
Proof.
  intros Hl. destruct (sp_write_op i st b Hl). split_and!; [|done|by rewrite sp_write_sock].
  split; try done; intros; rewrite ?sp_write_sock, ?sp_write_log, ?app_nil_r; done.
Qed.

Lemma quiet_result i st st' : same_but_result st st' → quiet i st st'.
Proof.
  intros (Hs & Hp & He & Hl). assert (Hso : ∀ j, sock st' j = sock st j) by (intros; unfold sock; by rewrite Hs).
  split_and!; [|unfold epoll_ok; rewrite He; by setoid_rewrite Hso|by rewrite Hso].
  split; rewrite ?Hs, ?Hp, ?Hl, ?app_nil_r; done.
Qed.

Lemma quiet_upd i st s' : quiet_sock (sock st i) s' → fd s' = fd (sock st i) → quiet i st (upd st i s').
Proof.
  intros Hq Hf. split_and!; [solve_changed|..|by ssimpl].
  eapply epoll_ok_same; [done|sock_others|by ssimpl|]. ssimpl. destruct Hq as (_ & _ & _ & _ & _ & _ & _ & _ & _ & -> & _). done.
Qed.

Lemma quiet_set_result i st st1 r : quiet i st st1 → quiet i st (set_result st1 r).
Proof. intros H. eapply quiet_trans; [exact H|]. by apply quiet_result. Qed.

Lemma send_warning_spec i st :
  wp (send_warning i) (λ r st', quiet i st st' ∧ (r = -1 ∨ r = SOCKET_WARNING)) st.
Proof.
  unfold send_warning. wp_steps. destruct (_ && _).
  - wp_steps. split; [|auto]. by apply quiet_set_result, quiet_upd.
  - wp_steps. split; [by apply quiet_result|auto].
Qed.

(** A request to send: the packet is dropped or it enters the stream. *)
Definition sent_packet (i rid : Z) (pri : priority) (sz : Z) (b : positive) (st : sys) (r : Z) (st' : sys) : Prop :=
  (slot_op i [b] st st' ∨
   slot_rel (accept_op pri (object b sz)) i [b] st st' ∧ id (sock st i) = rid ∧ live (type (sock st i))) ∧
  sock_ok (sock st' i) ∧ Forall wb_fresh (low (sock st' i)) ∧
  type (sock st' i) = type (sock st i) ∧ r ≠ SOCKET_CLOSE ∧ r ≠ SOCKET_ERR.

Lemma drop_packet i rid pri sz b st r st' :
  sock_ok (sock st i) → Forall wb_fresh (low (sock st i)) → r = -1 →
  quiet i st st' → sent_packet i rid pri sz b st r (addlog st' (EvFree false b)).
Proof.
  intros Hok Hf -> (Hc & He & Hq). destruct (quiet_data _ _ Hq) as (E1 & E2 & E3).
  pose proof Hq as (Hh & Hl & Hw & Hd & Ho & Hz & Hi & Hp & Hs & Ht & Hpp).
  split_and!; ssimpl; rewrite ?Hl; try done; [left|by eapply quiet_sock_ok].
  eapply (slot_op_of _ _ _ _ _ (sock st' i) [EvFree false b]); try done.
  - destruct Hc. split; ssimpl; try done. by rewrite ch_log0, app_nil_r.
  - intros ?. by rewrite Ht.
  - by rewrite Ht.
  - by repeat constructor.
  - by rewrite E3.
  - intros _. apply (stream_live _ _ _ []); by rewrite ?E1, ?E2, ?app_nil_r.
Qed.

(** The end of [send_socket] after a buffer was appended. *)
Lemma append_tail i rid pri pri' sz b addr st (wr : bool) :
  id (sock st i) = rid → live (type (sock st i)) → sock_ok (sock st i) → Forall wb_fresh (low (sock st i)) →
  0 <= sz <= Z.of_nat (length (mem b)) →
  (protocol (sock st i) = PROTOCOL_TCP → pri' = pri ∨ pri = HIGH ∧ low (sock st i) = []) →
  (protocol (sock st i) ≠ PROTOCOL_TCP → addr ≠ []) →
  wp (append_sendbuffer_ i pri sz b addr;; when wr (sp_write (fd (sock st i)) i true);; send_warning i)
     (sent_packet i rid pri' sz b st) st.
Proof.
  intros Hrid Hl Hok Hf Hs Hpri Ha. apply wp_bind, wp_append; [lia|].
  set (st1 := upd st i _). change (upd st i _) with (upd st i (appended pri sz b addr (sock st i))) in st1.
  destruct (appended_ok pri sz b addr (sock st i) Hl Hok Hf Hs Ha) as [Hok1 Hf1].
  assert (Hs1 : sock st1 i = appended pri sz b addr (sock st i)) by apply sock_upd_eq.
  assert (Ht1 : type (sock st1 i) = type (sock st i)) by (rewrite Hs1; by destruct pri).
  assert (Hfd1 : fd (sock st1 i) = fd (sock st i)) by (rewrite Hs1; by destruct pri).
  pose proof (appended_op pri pri' sz b addr i st Hl Hs Hpri) as Ho. fold st1 in Ho. rewrite <- Hs1 in Hok1, Hf1.
  assert (Hq : ∀ st2 r st3, quiet i st1 st2 → quiet i st2 st3 → r = -1 ∨ r = SOCKET_WARNING → sent_packet i rid pri' sz b st r st3).
  { intros st2 r st3 H1 H2 Hr. pose proof (quiet_trans _ _ _ _ H1 H2) as H3.
    pose proof H3 as (_ & _ & Hq). pose proof Hq as (_ & Hlo & _ & _ & _ & _ & Hi & _ & _ & Ht & _).
    split_and!; [right|..].
    - split; [eapply slot_rel_quiet; [apply accept_op_rel|done..]|done].
    - by eapply quiet_sock_ok.
    - by rewrite Hlo.
    - by rewrite Ht.
    - by destruct Hr as [-> | ->].
    - by destruct Hr as [-> | ->]. }
  apply wp_bind, wp_when; intros _.
  - apply wp_sp_write. rewrite <- Hfd1. eapply wp_mono; [apply send_warning_spec|].
    intros r st3 [H3 Hr]. eapply Hq; [|done..]. apply quiet_sp_write. by rewrite Ht1.
  - eapply wp_mono; [apply send_warning_spec|]. intros r st3 [H3 Hr]. eapply Hq; [|done..]. by apply quiet_result.
Qed.

(** The stream of a socket that is not TCP is nobody's concern. *)
Lemma slot_rel_udp R R' i G st st' : protocol (sock st i) ≠ PROTOCOL_TCP → slot_rel R i G st st' → slot_rel R' i G st st'.
Proof. intros Hp []. split; try done. destruct op_log0 as (evs & ? & ? & ? & _ & ?). by exists evs. Qed.

Lemma sent_packet_udp i rid pri sz b st st1 r st2 :
  protocol (sock st i) ≠ PROTOCOL_TCP → sock_ok (sock st1 i) → slot_op i [] st st1 → type (sock st1 i) = type (sock st i) →
  sent_packet i rid pri sz b st1 r st2 → sent_packet i rid pri sz b st r st2.
Proof.
  intros Hp Hok Ho Ht ([H|[H _]] & Hok2 & Hf & Ht2 & Hr); (split_and!; [left|done|done|by rewrite <- Ht|apply Hr..]);
    apply (slot_op_trans i [] [b] st st1 st2); try done.
  apply (slot_rel_udp (accept_op pri (object b sz))); [|done]. by rewrite (op_protocol _ _ _ _ _ Ho).
Qed.

Lemma wp_sendto i d sa Q st :
  protocol (sock st i) ≠ PROTOCOL_TCP →
  (∀ r st1, slot_op i [] st st1 → sock st1 i = sock st i → Q r st1) →
  wp (sys_sendto os i d sa) Q st.
Proof.
  intros Hp HQ. unfold sys_sendto. wp_steps. ssimpl. set (r := os_sendto os _ _ _ _). apply wp_when; intros Hr; wp_steps; apply HQ; try done.
  - eapply (slot_op_of _ _ _ _ _ (sock st i) [_]); [solve_changed|..]; try done. by repeat constructor.
  - by apply quiet_slot_op, quiet_result.
Qed.

Lemma wp_bytes b sz Q st : 0 <= sz <= Z.of_nat (length (mem b)) → Q (object b sz) st → wp (bytes_at mem b 0 sz) Q st.
Proof. intros Hs HQ. unfold bytes_at. zcases. exact HQ. Qed.

Lemma take_19 (a : list Z) : a ≠ [] → take (Z.to_nat UDP_ADDRESS_SIZE) a ≠ [].
Proof. by destruct a. Qed.

Lemma send_socket_spec rid sz b pri ua st :
  let i := HASH_ID rid in
  sock_ok (sock st i) → Forall wb_fresh (low (sock st i)) →
  (id (sock st i) = rid → type (sock st i) ≠ SOCKET_TYPE_RESERVE) → 0 <= sz <= Z.of_nat (length (mem b)) → ua ≠ Some [] →
  wp (send_socket os mem rid sz b pri ua) (sent_packet i rid pri sz b st) st.
Proof.
  intros i Hok Hf Hres Hs Hua. unfold send_socket. fold i. wp_steps. apply wp_send_object_init; [lia|]. cbn [fst snd].
  wp_if E1.
  { wp_steps. by apply drop_packet; [..|apply quiet_result]. }
  wp_if E2.
  { wp_steps. by apply drop_packet; [..|apply quiet_result]. }
  bool_to_prop. assert (Hl : live (type (sock st i))) by (split; auto).
  assert (Haddr : ∀ (Q : list Z → sys → Prop), protocol (sock st i) ≠ PROTOCOL_TCP → (∀ a, a ≠ [] → Q a st) → wp (default_address i ua) Q st).
  { intros Q Hp HQ. unfold default_address. destruct ua as [a|]; wp_steps; [apply HQ; congruence|].
    pose proof (ok_p _ Hok Hl) as Hpp. destruct (p (sock st i)) as [|a]; [by destruct Hpp|]. wp_steps. apply HQ.
    intros ->. by destruct Hpp. }
  wp_if E3.
  - apply andb_true_iff in E3 as [E3 _]. unfold send_buffer_empty in E3. bool_to_prop.
    destruct (Z.eqb_spec (protocol (sock st i)) PROTOCOL_TCP) as [Hp|Hp].
    + apply (append_tail i rid HIGH pri sz b [] st true); auto.
    + apply wp_bind, Haddr; [done|]. intros a Ha. apply wp_bind, wp_bytes; [done|]. apply wp_bind, wp_sendto; [done|].
      intros r st1 Ho Hs1. wp_if En.
      * eapply wp_mono; [rewrite <- Hs1; apply (append_tail i rid pri pri sz b _ _ true); rewrite ?Hs1; auto using take_19|].
        intros r2 st2 Hst2. apply (sent_packet_udp _ _ _ _ _ _ st1); rewrite ?Hs1; done.
      * wp_steps. apply (sent_packet_udp _ _ _ _ _ _ st1); rewrite ?Hs1; try done.
        apply drop_packet; rewrite ?Hs1; try done. by apply quiet_result.
  - destruct (Z.eqb_spec (protocol (sock st i)) PROTOCOL_TCP) as [Hp|Hp].
    + destruct pri.
      * apply (append_tail i rid HIGH HIGH sz b [] st false); auto.
      * apply (append_tail i rid LOW LOW sz b [] st false); auto.
    + apply wp_bind, Haddr; [done|]. intros a Ha. apply (append_tail i rid pri pri sz b _ st false); auto using take_19.
Qed.

(** What a request about an open socket does. *)
Definition req_ok (i : Z) (G : list positive) (st : sys) (r : Z) (st' : sys) : Prop :=
  slot_op i G st st' ∧ sock_ok (sock st' i) ∧ Forall wb_fresh (low (sock st' i)) ∧
  (type (sock st' i) = SOCKET_TYPE_INVALID → type (sock st i) = SOCKET_TYPE_INVALID ∨
     (r = SOCKET_CLOSE ∨ r = SOCKET_ERR) ∧ sm_id (result st') = id (sock st i)).

Lemma handled_req i G st r st' : handled i G st r st' → req_ok i G st r st'.
Proof. intros (Ho & Hok & Hf & [(Ht & _)|(_ & Hr & Hid)]); split_and!; auto. intros ?. left. congruence. Qed.

Lemma quiet_req i st r st' : sock_ok (sock st i) → Forall wb_fresh (low (sock st i)) → quiet i st st' → req_ok i [] st r st'.
Proof.
  intros Hok Hf Hq. pose proof Hq as (_ & _ & Hs). pose proof Hs as (_ & Hl & _ & _ & _ & _ & _ & _ & _ & Ht & _).
  split_and!; [by apply quiet_slot_op|by eapply quiet_sock_ok|by rewrite Hl|]. intros ?. left. congruence.
Qed.

(** Changing the state of an open socket, its owner or its address. *)
Definition retyped (s s' : socket) : Prop :=
  high s' = high s ∧ low s' = low s ∧ wb_size s' = wb_size s ∧ dw_buffer s' = dw_buffer s ∧ dw_offset s' = dw_offset s ∧
  dw_size s' = dw_size s ∧ id s' = id s ∧ protocol s' = protocol s ∧ sending s' = sending s ∧ fd s' = fd s ∧
  live (type s) ∧ live (type s') ∧
  match p s' with
  | P_size n => protocol s = PROTOCOL_TCP ∧ 0 < n
  | P_address a => (protocol s = PROTOCOL_UDP ∨ protocol s = PROTOCOL_UDPv6) ∧ length a = 19%nat
  end.

Lemma retyped_op i st s' r st' :
  sock_ok (sock st i) → Forall wb_fresh (low (sock st i)) → retyped (sock st i) s' →
  changed i s' [] st st' → epoll st' = epoll st → req_ok i [] st r st'.
Proof.
  intros Hok Hf (Hh & Hl & Hw & Hd & Ho & Hz & Hi & Hp & Hs & Hfd & Hl1 & Hl2 & Hpp) Hc He.
  pose proof (ch_sock _ _ _ _ _ Hc) as Hs'. split_and!; rewrite ?Hs', ?Hl; try done.
  - eapply slot_op_of; try done.
    + eapply epoll_ok_same; [done|apply Hc|by rewrite Hs'..].
    + intros E. by destruct Hl1.
    + destruct Hl1, Hl2. tauto.
    + unfold held. by rewrite Hh, Hl, Hd.
    + intros _. apply (stream_live _ _ _ []); unfold lowd, pend, dwd; by rewrite ?Hh, ?Hl, ?Hd, ?Ho, ?Hz, ?app_nil_r.
  - destruct Hok. split; rewrite ?Hh, ?Hl, ?Hw, ?Hd, ?Ho, ?Hz, ?Hp; try done.
    + intros _. auto.
    + intros [E|E]; destruct Hl2; congruence.
    + intros _. auto.
  - intros E. by destruct Hl2.
Qed.

Lemma close_rest_spec i rid ro sh st :
  live (type (sock st i)) → sock_ok (sock st i) → Forall wb_fresh (low (sock st i)) → id (sock st i) = rid →
  wp (close_rest i rid ro sh) (req_ok i [] st) st.
Proof.
  intros Hl Hok Hf Hid. unfold close_rest. wp_steps. wp_if E.
  - apply wp_bind. eapply wp_mono; [apply force_close_spec; [done|apply Hl]|]. intros _ st1 (Ho & Hok1 & Ht & Hr). wp_steps.
    split_and!; ssimpl; [by apply (slot_op_result _ _ _ _ st1)|done|by apply closed_low|]. right. auto.
  - wp_steps. eapply (retyped_op i st (set_type SOCKET_TYPE_HALFCLOSE (sock st i))); [done..|split_and!; try done|solve_changed|done].
    exact (ok_p _ Hok Hl).
Qed.

Lemma req_ok_trans i st st1 r st2 :
  sock_ok (sock st1 i) → slot_op i [] st st1 → type (sock st1 i) = type (sock st i) →
  req_ok i [] st1 r st2 → req_ok i [] st r st2.
Proof.
  intros Hok Ho Ht (Ho2 & Hok2 & Hf & Hk). split_and!; [by apply (slot_op_trans _ [] [] _ st1)|done..|].
  by rewrite <- Ht, <- (op_id _ _ _ _ _ Ho).
Qed.

Lemma close_socket_spec rid sh ro st :
  let i := HASH_ID rid in
  sock_ok (sock st i) → Forall wb_fresh (low (sock st i)) → (id (sock st i) = rid → type (sock st i) ≠ SOCKET_TYPE_RESERVE) →
  wp (close_socket os mem rid sh ro) (req_ok i [] st) st.
Proof.
  intros i Hok Hf Hres. unfold close_socket. fold i. wp_steps. wp_if E.
  { wp_steps. apply quiet_req; [done..|]. by apply quiet_result. }
  bool_to_prop. assert (Hl : live (type (sock st i))) by (split; auto). wp_if E2; [|by apply close_rest_spec].
  apply wp_bind. eapply wp_mono; [by apply send_buffer_spec|]. intros r st1 Hsb. wp_if E3.
  - wp_steps. by apply handled_req.
  - destruct Hsb as (Ho & Hok1 & Hf1 & [(Ht & _)|(_ & Hr & _)]).
    + eapply wp_mono; [apply close_rest_spec; rewrite ?Ht; try done; by rewrite (op_id _ _ _ _ _ Ho)|].
      intros r2 st2 Hst2. by apply (req_ok_trans _ _ st1).
    + exfalso. destruct Hr as [-> | ->]; done.
Qed.

Lemma wp_sp_add f i (Q : bool → sys → Prop) st :
  Q true (ticked st) →
  (epoll st !! f = None → Q false (set_epoll (ticked st) (<[f := (i, false)]> (epoll st)))) →
  wp (sp_add os f i) Q st.
Proof.
  intros H1 H2. unfold sp_add. wp_steps. wp_if E; wp_steps; [done|]. bool_to_prop. apply H2. by apply eq_None_not_Some.
Qed.

Lemma epoll_ok_insert st st' i f :
  epoll_ok st → epoll st' = <[f := (i, false)]> (epoll st) → (∀ j, j ≠ i → sock st' j = sock st j) →
  fd (sock st' i) = f → live (type (sock st' i)) →
  (∀ g w, epoll st !! g = Some (i, w) → g = f) → epoll_ok st'.
Proof.
  intros Hep He Ho Hf Hl Hu g j w. rewrite He. destruct (decide (g = f)) as [->|Hne].
  - rewrite lookup_insert_eq. by intros [= <- <-].
  - rewrite lookup_insert_ne by done. intros Hg. destruct (decide (j = i)) as [->|Hj]; [by apply Hu in Hg|].
    rewrite Ho by done. by apply (Hep _ _ w).
Qed.

Lemma start_socket_spec rid ro st :
  let i := HASH_ID rid in
  sock_ok (sock st i) → Forall wb_fresh (low (sock st i)) → (id (sock st i) = rid → type (sock st i) ≠ SOCKET_TYPE_RESERVE) →
  wp (start_socket os rid ro) (req_ok i [] st) st.
Proof.
  intros i Hok Hf Hres. unfold start_socket. fold i. wp_steps. ssimpl. wp_if E.
  { wp_steps. apply quiet_req; [done..|]. by apply quiet_result. }
  bool_to_prop. assert (Hl : live (type (sock st i))) by (split; auto). wp_if E2.
  - apply wp_bind, wp_sp_add.
    + wp_steps. eapply wp_mono; [apply force_close_spec; [done|apply Hl]|]. intros _ st1 (Ho & Hok1 & Ht & Hr). wp_steps.
      split_and!; ssimpl; [|done|by apply closed_low|right; rewrite Hr; auto].
      apply (slot_op_result _ _ _ _ st1); [done|]. destruct Ho. by split.
    + intros He. wp_steps. ssimpl.
      match goal with |- req_ok _ _ _ _ ?s => set (st' := s) end.
      assert (Hs' : ∃ t, live t ∧ sock st' i = set_opaque ro (set_type t (sock st i))).
      { eexists. subst st'. ssimpl. split; [|done]. by case_bool_decide. }
      destruct Hs' as (t & Hlt & Hs').
      assert (Hst : req_ok i [] st SOCKET_OPEN (set_epoll st' (epoll st))).
      { eapply (retyped_op i st (sock st' i)); [done..| |subst st'; solve_changed|done]. rewrite Hs'. split_and!; try done. exact (ok_p _ Hok Hl). }
      destruct Hst as (Ho & Hok1 & Hf1 & Hk). split_and!; try done. destruct Ho. split; try done.
      intros Hep. eapply (epoll_ok_insert st st' i (fd (sock st i))); try done; rewrite ?Hs'; try done.
      intros g w Hg. symmetry. by apply (Hep _ _ w).
  - wp_if E3; wp_steps.
    + eapply (retyped_op i st (set_opaque ro (sock st i))); [done..|split_and!; try done|solve_changed|done]. exact (ok_p _ Hok Hl).
    + apply quiet_req; [done..|]. by apply quiet_result.
Qed.

Lemma setopt_spec rid what v st :
  wp (setopt_socket rid what v) (λ _ st', same_but_result st st') st.
Proof. unfold setopt_socket. wp_steps. wp_if E; by wp_steps. Qed.

Lemma set_udp_address_spec rid addr st :
  let i := HASH_ID rid in
  sock_ok (sock st i) → Forall wb_fresh (low (sock st i)) → (id (sock st i) = rid → type (sock st i) ≠ SOCKET_TYPE_RESERVE) →
  (∃ n, addrsz addr = Some n ∧ Z.of_nat (length addr) = n) →
  wp (set_udp_address rid addr) (req_ok i [] st) st.
Proof.
  intros i Hok Hf Hres (n & Hn & Hlen). unfold set_udp_address. fold i. wp_steps. wp_if E.
  { wp_steps. apply quiet_req; [done..|]. by apply quiet_result. }
  bool_to_prop. assert (Hl : live (type (sock st i))) by (split; auto).
  destruct addr as [|ty rest]; [done|]. simpl in Hn. wp_if E2; wp_steps.
  { apply quiet_req; [done..|]. by apply quiet_result. }
  bool_to_prop. pose proof (ok_p _ Hok Hl) as Hpp. unfold copy_address.
  destruct (p (sock st i)) as [z|a] eqn:Ep.
  { exfalso. destruct Hpp as [Hpt _]. rewrite Hpt in E2. subst ty. done. }
  destruct Hpp as [Hpr Ha]. rewrite Ha.
  assert (Hn' : n = if ty =? PROTOCOL_UDP then 1 + 2 + 4 else 1 + 2 + 16) by (destruct (ty =? PROTOCOL_UDP), (ty =? PROTOCOL_UDPv6); congruence).
  rewrite <- Hn', Hlen, Z.leb_refl. simpl andb. destruct (Z.leb_spec n (Z.of_nat 19)) as [Hle|Hgt].
  2: { exfalso. destruct (ty =? PROTOCOL_UDP); lia. }
  wp_steps. ssimpl. eapply (retyped_op i st); [done..| |solve_changed|done]. split_and!; try done. simpl. split; [done|].
  rewrite length_app, length_take, length_drop. lia.
Qed.

(** ** Opening a socket *)

Definition is_close (e : sys_event) : Prop := match e with EvClose _ => True | _ => False end.

(** Only descriptors were closed, apart from what slot [i] is now. *)
Record closes (i : Z) (s' : socket) (st st' : sys) : Prop := {
  cl_pipe : pipe st' = pipe st;
  cl_alloc : alloc_id (ss st') = alloc_id (ss st);
  cl_ev : ev (ss st') = ev (ss st);
  cl_index : event_index (ss st') = event_index (ss st);
  cl_soi : soi (ss st') = soi (ss st);
  cl_check : checkctrl (ss st') = checkctrl (ss st);
  cl_sock : sock st' i = s';
  cl_others : ∀ j, j ≠ i → sock st' j = sock st j;
  cl_log : ∃ evs, log st' = log st ++ evs ∧ Forall is_close evs;
  cl_epoll : ∀ f v, epoll st' !! f = Some v → epoll st !! f = Some v ∨ v.1 = i ∧ f = fd s' }.

(** A slot that was reserved for [rid] is in use, or free again. *)
Definition opened (rid : Z) (st st' : sys) : Prop :=
  let i := HASH_ID rid in let s' := sock st' i in
  closes i s' st st' ∧ (epoll_ok st → epoll_ok st') ∧ sock_ok s' ∧ high s' = [] ∧ low s' = [] ∧ dw_buffer s' = None ∧
  id s' = rid ∧
  ((type s' = SOCKET_TYPE_INVALID ∧ protocol s' = protocol (sock st i)) ∨
   (live (type s') ∧ sending s' = ID_TAG16 rid * 2 ^ 16)).

Lemma ID_TAG16_range rid : 0 <= ID_TAG16 rid < 2 ^ 16.
Proof. unfold ID_TAG16. change 65535 with (2 ^ 16 - 1). rewrite land_ones_mod by lia. apply Z.mod_pos_bound. lia. Qed.

(** The slot that [new_fd] leaves. *)
Definition new_socket (s : socket) (rid nfd prot ro : Z) : socket :=
  mk_socket ro [] [] 0 (ID_TAG16 rid * 2 ^ 16) nfd rid prot (type s) (udpconnecting s) 0 (P_size MIN_READ_BUFFER)
    (dw_offset s) None 0.

Lemma wp_new_fd rid nfd prot ro add (Q : bool → sys → Prop) st :
  let i := HASH_ID rid in
  type (sock st i) = SOCKET_TYPE_RESERVE → sock_ok (sock st i) →
  (∀ t, Q false (upd (set_tick st t) i (set_type SOCKET_TYPE_INVALID (sock st i)))) →
  (∀ ep t, ep = (if (add : bool) then <[nfd := (i, false)]> (epoll st) else epoll st) →
     Q true (upd (set_epoll (set_tick st t) ep) i (new_socket (sock st i) rid nfd prot ro))) →
  wp (new_fd os rid nfd prot ro add) Q st.
Proof.
  intros i Hr Hok H1 H2. destruct (ok_empty _ Hok (or_intror Hr)) as (Hh & Hl & Hd). unfold new_fd. fold i. wp_steps.
  apply wp_assert; [by apply bool_decide_eq_true|]. apply wp_bind.
  assert (Hnew : ∀ ep t, ep = (if add then <[nfd := (i, false)]> (epoll st) else epoll st) →
    wp (s0 ← get_s i; assert (bool_decide (high s0 = []));; assert (bool_decide (low s0 = []));;
        put_s i (mk_socket ro (high s0) (low s0) 0 (u32 (Z.lor (Z.shiftl (ID_TAG16 rid) 16) 0)) nfd rid prot
                  (type s0) (udpconnecting s0) 0 (P_size MIN_READ_BUFFER) (dw_offset s0) None 0);; mret true)
      Q (set_epoll (set_tick st t) ep)).
  { intros ep t Hep. wp_steps. ssimpl. apply wp_assert; [by apply bool_decide_eq_true|].
    wp_steps. apply wp_assert; [by apply bool_decide_eq_true|]. wp_steps.
    specialize (H2 ep t Hep). unfold new_socket in H2. rewrite Hh, Hl.
    pose proof (ID_TAG16_range rid). rewrite lor_shiftl_add, Z.add_0_r, u32_small by lia. exact H2. }
  destruct add.
  - apply wp_sp_add.
    + wp_steps. ssimpl. apply (H1 (S (tick st))).
    + intros He. by apply (Hnew _ (S (tick st))).
  - apply wp_ret. specialize (Hnew (epoll st) (tick st) eq_refl).
    replace (set_epoll (set_tick st (tick st)) (epoll st)) with st in Hnew by (by destruct st). exact Hnew.
Qed.

Lemma epoll_ok_reserve st i f w : epoll_ok st → type (sock st i) = SOCKET_TYPE_RESERVE → epoll st !! f ≠ Some (i, w).
Proof. intros He Ht Hf. destruct (He _ _ _ Hf) as [_ [_ Hr]]. done. Qed.

(** Closing the descriptors, and possibly polling the new one, keeps the poll
    set right. *)
Lemma closes_epoll i s' st st' :
  closes i s' st st' → type (sock st i) = SOCKET_TYPE_RESERVE →
  (live (type s') ∨ (∀ f v, epoll st' !! f = Some v → epoll st !! f = Some v)) → epoll_ok st → epoll_ok st'.
Proof.
  intros Hc Hr Hl Hep f j w Hf. pose proof (cl_epoll _ _ _ _ Hc _ _ Hf) as Hor. simpl in Hor.
  assert (Hold : epoll st !! f = Some (j, w) → fd (sock st' j) = f ∧ live (type (sock st' j))).
  { intros Hj. destruct (decide (j = i)) as [->|Hne]; [by apply epoll_ok_reserve in Hj|].
    rewrite (cl_others _ _ _ _ Hc) by done. by apply (Hep _ _ w). }
  destruct Hor as [Hj|[-> ->]]; [auto|]. destruct Hl as [Hl|Hl]; [|auto]. by rewrite (cl_sock _ _ _ _ Hc).
Qed.

Lemma closes_refl i st st' :
  same_but_result st st' → closes i (sock st i) st st'.
Proof.
  intros (Hs & Hp & He & Hl). assert (Hso : ∀ j, sock st' j = sock st j) by (intros; unfold sock; by rewrite Hs).
  split; rewrite ?Hs, ?Hp, ?He, ?Hl; try done; [|by left]. exists []. by rewrite app_nil_r.
Qed.

Lemma closes_close i s' st st1 f :
  closes i s' st st1 → closes i s' st (set_epoll (addlog st1 (EvClose f)) (delete f (epoll st1))).
Proof.
  intros []. split; ssimpl; try done.
  - destruct cl_log0 as (evs & -> & He). exists (evs ++ [EvClose f]). rewrite app_assoc. split; [done|].
    apply Forall_app. split; [done|by repeat constructor].
  - intros g v Hg. apply lookup_delete_Some in Hg as [_ Hg]. auto.
Qed.

Lemma connect_loop_spec i l st Q :
  (∀ r st1, closes i (sock st i) st st1 → epoll_ok st → result st1 = result st →
     (∀ f v, epoll st1 !! f = Some v → epoll st !! f = Some v) → Q r st1) →
  epoll_ok st → wp (connect_loop os l) Q st.
Proof.
  intros HQ Hep. assert (Hgen : ∀ st1, closes i (sock st i) st st1 → result st1 = result st →
      (∀ f v, epoll st1 !! f = Some v → epoll st !! f = Some v) → wp (connect_loop os l) Q st1).
  2: { apply Hgen; [by apply closes_refl|done|done]. }
  induction l as [|ai l IH]; intros st1 Hc Hres He; simpl; wp_steps; [by apply HQ|].
  assert (Hc1 : closes i (sock st i) st (ticked st1)) by (destruct Hc; by split).
  wp_if E; [by apply IH|]. wp_steps. destruct (os_connect _ _ _ _) as [e|].
  - wp_if E2; wp_steps.
    + apply HQ; try done. destruct Hc1; by split.
    + unfold sys_close. wp_steps. ssimpl. apply IH; try done.
      * apply (closes_close i _ st (ticked (ticked st1))). destruct Hc1; by split.
      * ssimpl. intros g v Hg. apply lookup_delete_Some in Hg as [_ Hg]. auto.
  - wp_steps. apply HQ; try done. destruct Hc1; by split.
Qed.

Lemma opened_fail rid st st' s' :
  let i := HASH_ID rid in
  closes i s' st st' → (∀ f v, epoll st' !! f = Some v → epoll st !! f = Some v) →
  type (sock st i) = SOCKET_TYPE_RESERVE → sock_ok (sock st i) → id (sock st i) = rid →
  s' = set_type SOCKET_TYPE_INVALID (sock st i) → opened rid st st'.
Proof.
  intros i Hc He Hr Hok Hid Hs. unfold opened. fold i. pose proof (cl_sock _ _ _ _ Hc) as Hs'. rewrite Hs'.
  destruct (ok_empty _ Hok (or_intror Hr)) as (Hh & Hl & Hd).
  split_and!; [done| |subst s'; by apply sock_ok_closed|by subst s'..|by left; subst s'].
  eapply closes_epoll; [done..|]. by right.
Qed.

Lemma opened_live rid st st' s' :
  let i := HASH_ID rid in
  closes i s' st st' → type (sock st i) = SOCKET_TYPE_RESERVE → live (type s') →
  high s' = [] → low s' = [] → dw_buffer s' = None → wb_size s' = 0 → id s' = rid → sending s' = ID_TAG16 rid * 2 ^ 16 →
  match p s' with
  | P_size n => protocol s' = PROTOCOL_TCP ∧ 0 < n
  | P_address a => (protocol s' = PROTOCOL_UDP ∨ protocol s' = PROTOCOL_UDPv6) ∧ length a = 19%nat
  end → opened rid st st'.
Proof.
  intros i Hc Hr Hlive Hh Hl Hd Hw Hid Hse Hp. unfold opened. fold i. pose proof (cl_sock _ _ _ _ Hc) as Hs'. rewrite Hs'.
  split_and!; try done; [|by split; rewrite ?Hh, ?Hl, ?Hd|by right]. eapply closes_epoll; [done..|]. by left.
Qed.

Lemma closes_trans i s1 s2 st st1 st2 :
  closes i s1 st st1 → (∀ f v, epoll st1 !! f = Some v → epoll st !! f = Some v) → closes i s2 st1 st2 → closes i s2 st st2.
Proof.
  intros [] He []. split; try congruence.
  - intros. rewrite cl_others1; auto.
  - destruct cl_log0 as (e1 & L1 & F1), cl_log1 as (e2 & L2 & F2). exists (e1 ++ e2).
    split; [by rewrite L2, L1, app_assoc|by apply Forall_app].
  - intros f v Hv. destruct (cl_epoll1 _ _ Hv); auto.
Qed.

Lemma closes_sp_write i s' st st1 f b : closes i s' st st1 → f = fd s' → closes i s' st (after_sp_write st1 f i b).
Proof.
  intros [] ->. split; rewrite ?sp_write_ss, ?sp_write_log, ?sp_write_pipe, ?sp_write_sock; try done.
  - intros. rewrite sp_write_sock. auto.
  - intros g v. unfold after_sp_write. destruct (epoll st1 !! fd s'); [|auto]. simpl.
    destruct (decide (g = fd s')) as [->|Hne]; [rewrite lookup_insert_eq; intros [= <-]; auto|rewrite lookup_insert_ne by done; auto].
Qed.

Lemma opened_trans rid st st1 st2 :
  closes (HASH_ID rid) (sock st (HASH_ID rid)) st st1 → (∀ f v, epoll st1 !! f = Some v → epoll st !! f = Some v) →
  (epoll_ok st → epoll_ok st1) → opened rid st1 st2 → opened rid st st2.
Proof.
  intros Hc He Hep (Hc2 & Hep2 & Hok & Hh & Hl & Hd & Hid & Ht). unfold opened. split_and!; auto.
  - by eapply closes_trans.
  - by rewrite (cl_sock _ _ _ _ Hc) in Ht.
Qed.

Lemma listen_socket_spec rid rfd ro st :
  let i := HASH_ID rid in
  type (sock st i) = SOCKET_TYPE_RESERVE → sock_ok (sock st i) → id (sock st i) = rid → epoll_ok st →
  wp (listen_socket os rid rfd ro) (λ _ st', opened rid st st') st.
Proof.
  intros i Hr Hok Hid Hep. unfold listen_socket. fold i. apply wp_bind, wp_new_fd; [done..| |]; fold i.
  - intros t. unfold sys_close. wp_steps. ssimpl.
    eapply (opened_fail rid _ _ (set_type SOCKET_TYPE_INVALID (sock st i))); fold i; try done; [solve_closes|solve_epoll_sub].
  - intros ep t ->. wp_steps. ssimpl. eapply (opened_live rid); fold i; [solve_closes|done..].
Qed.

Lemma bind_socket_spec rid rfd ro st :
  let i := HASH_ID rid in
  type (sock st i) = SOCKET_TYPE_RESERVE → sock_ok (sock st i) → id (sock st i) = rid → epoll_ok st →
  wp (bind_socket os rid rfd ro) (λ _ st', opened rid st st') st.
Proof.
  intros i Hr Hok Hid Hep. unfold bind_socket. fold i. wp_steps. apply wp_new_fd; [done..| |]; fold i.
  - intros t. wp_steps. ssimpl.
    eapply (opened_fail rid _ _ (set_type SOCKET_TYPE_INVALID (sock st i))); fold i; try done. solve_closes.
  - intros ep t ->. wp_steps. ssimpl. eapply (opened_live rid); fold i; [solve_closes|done..].
Qed.

Lemma add_udp_socket_spec rid rfd inet6 ro st :
  let i := HASH_ID rid in
  type (sock st i) = SOCKET_TYPE_RESERVE → sock_ok (sock st i) → id (sock st i) = rid → epoll_ok st →
  wp (add_udp_socket os rid rfd inet6 ro) (λ _ st', opened rid st st') st.
Proof.
  intros i Hr Hok Hid Hep. unfold add_udp_socket. fold i. apply wp_bind, wp_new_fd; [done..| |]; fold i.
  - intros t. unfold sys_close. wp_steps. ssimpl.
    eapply (opened_fail rid _ _ (set_type SOCKET_TYPE_INVALID (sock st i))); fold i; try done; [solve_closes|solve_epoll_sub].
  - intros ep t ->. wp_steps. ssimpl. eapply (opened_live rid); fold i; [solve_closes|done..|].
    simpl. split; [destruct inet6; auto|done].
Qed.

Lemma open_socket_spec rid port ro host st :
  let i := HASH_ID rid in
  type (sock st i) = SOCKET_TYPE_RESERVE → sock_ok (sock st i) → id (sock st i) = rid → epoll_ok st →
  wp (open_socket os rid port ro host) (λ _ st', opened rid st st') st.
Proof.
  intros i Hr Hok Hid Hep. unfold open_socket, open_failed. fold i. wp_steps. ssimpl.
  destruct (os_getaddrinfo _ _ _ _) as [l|e].
  2: { wp_steps. ssimpl. eapply (opened_fail rid _ _ (set_type SOCKET_TYPE_INVALID (sock st i))); fold i; try done. solve_closes. }
  apply wp_bind, (connect_loop_spec i); [|done]. intros r st1 Hc _ Hres He. ssimpl.
  assert (Hs1 : sock st1 i = sock st i) by apply (cl_sock _ _ _ _ Hc).
  assert (Hc' : closes i (sock st i) st st1) by (destruct Hc; by split).
  assert (Hep1 : epoll_ok st1).
  { intros f j w Hf. apply He in Hf as Hf'. assert (Hj : sock st1 j = sock st j).
    { destruct (decide (j = i)) as [->|]; [done|]. by rewrite (cl_others _ _ _ _ Hc'). }
    rewrite Hj. by apply (Hep _ _ w). }
  assert (Hgo : ∀ st2, opened rid st1 st2 → opened rid st st2) by (intros st2; by apply opened_trans).
  destruct r as [[[so status] ai]|].
  2: { wp_steps. apply Hgo. ssimpl. eapply (opened_fail rid _ _ (set_type SOCKET_TYPE_INVALID (sock st i))); fold i;
       rewrite ?Hs1; try done. solve_closes. }
  apply wp_bind, wp_new_fd; fold i; rewrite ?Hs1; [done..| |].
  - intros t. unfold sys_close. wp_steps. simpl negb. wp_steps. apply Hgo. ssimpl.
    eapply (opened_fail rid _ _ (set_type SOCKET_TYPE_INVALID (sock st i))); fold i; rewrite ?Hs1; try done; [solve_closes|solve_epoll_sub].
  - intros ep t ->. simpl negb. wp_steps. wp_if E.
    + wp_steps. assert (Hfin : ∀ d, opened rid st (set_result (upd (upd (set_epoll (set_tick st1 t) (<[so:=(i, false)]> (epoll st1))) i
          (new_socket (sock st i) rid so PROTOCOL_TCP ro)) i (set_type SOCKET_TYPE_CONNECTED (new_socket (sock st i) rid so PROTOCOL_TCP ro))) d)).
      { intros d. apply Hgo. ssimpl. eapply (opened_live rid); fold i; rewrite ?Hs1; [solve_closes|done..]. }
      ssimpl. destruct (os_ntop os ai); wp_steps; apply Hfin.
    + wp_steps. apply wp_sp_write. wp_steps. ssimpl. apply Hgo.
      eapply (opened_live rid); fold i; rewrite ?Hs1; [apply closes_sp_write; [solve_closes|done]|done..].
Qed.

End Proof.
