(* ===== verification/SocketEvents.v ===== *)
(** * The socket server: events, and what holds of it in every run

    Continues [SocketProof] with the events of the kernel, the rounds of
    [socket_server_poll] and the calls of other threads, and proves by
    induction on runs that the server never fails an assertion, that each
    socket sends whole packets in the right order, and that every buffer is
    freed once. *)

From Stdlib Require Import ZArith Lia.
From stdpp Require Import base tactics option numbers gmap list strings sorting.
From S2P Require Import Prelude SocketServer SocketProof.

Local Open Scope Z_scope.

Section Events.
Context {os : OS} `{!OSLaws os} {mem : positive → list Z}.

Local Notation wbd := (@wbd mem).
Local Notation pend := (@pend mem).
Local Notation lowd := (@lowd mem).
Local Notation sock_ok := (@sock_ok mem).
Local Notation stream_op := (@stream_op mem).
Local Notation slot_op := (slot_rel stream_op).
Local Notation handled := (@handled mem).
Local Notation req_ok := (@req_ok mem).
Local Notation opened := (@opened mem).
Local Notation accept_op := (@accept_op mem).
Local Notation object := (@object mem).
Local Notation sent_packet := (@sent_packet mem).

(** ** Events *)

Lemma retyped_handled i st s' r st' :
  sock_ok (sock st i) → Forall wb_fresh (low (sock st i)) → retyped (sock st i) s' → type s' = type (sock st i) →
  changed i s' [] st st' → epoll st' = epoll st → r ≠ SOCKET_CLOSE → r ≠ SOCKET_ERR → handled i [] st r st'.
Proof.
  intros Hok Hf Hr Ht Hc He H1 H2. destruct (retyped_op i st s' r st' Hok Hf Hr Hc He) as (Ho & Hok' & Hf' & _).
  split_and!; try done. left. by rewrite (ch_sock _ _ _ _ _ Hc).
Qed.

Lemma quiet_handled i st r st' :
  sock_ok (sock st i) → Forall wb_fresh (low (sock st i)) → quiet i st st' → r ≠ SOCKET_CLOSE → r ≠ SOCKET_ERR →
  handled i [] st r st'.
Proof.
  intros Hok Hf Hq H1 H2. destruct (quiet_req i st r st' Hok Hf Hq) as (Ho & Hok' & Hf' & _). split_and!; try done.
  left. split; [|done]. apply Hq.
Qed.

(** A socket that is closed on an error, whatever the text of the message. *)
Lemma force_close_err i st r d :
  sock_ok (sock st i) → type (sock st i) ≠ SOCKET_TYPE_RESERVE → r = SOCKET_CLOSE ∨ r = SOCKET_ERR →
  wp (force_close i;; set_res_data d;; mret r) (handled i [] st) st.
Proof.
  intros Hok Hr Hc. apply wp_bind. eapply wp_mono; [by apply (force_close_spec (mem:=mem))|]. intros _ st1 (Ho & Hok1 & Ht & Hres). wp_steps.
  split_and!; ssimpl; [by apply (slot_op_result _ _ _ _ st1)|done|by eapply closed_low|]. right. ssimpl. rewrite Hres. auto.
Qed.

Lemma handled_tick i st t r st' : handled i [] (set_tick st t) r st' → handled i [] st r st'.
Proof. intros (Ho & H). split; [|exact H]. destruct Ho. by split. Qed.

Lemma forward_message_tcp_spec i st :
  live (type (sock st i)) → sock_ok (sock st i) → Forall wb_fresh (low (sock st i)) → protocol (sock st i) = PROTOCOL_TCP →
  wp (forward_message_tcp os i) (handled i [] st) st.
Proof.
  intros Hl Hok Hf Hp. unfold forward_message_tcp. wp_steps. pose proof (ok_p _ Hok Hl) as Hpp.
  destruct (p (sock st i)) as [sz|a] eqn:Ep; [|destruct Hpp as [[E|E] _]; by rewrite Hp in E].
  destruct Hpp as [_ Hsz]. wp_steps.
  destruct (os_read _ _ _ _) as [data|e] eqn:Er.
  2: { wp_if E; [wp_steps; by apply quiet_handled; [..|apply quiet_result| |]|].
       eapply wp_mono; [apply (force_close_err i (ticked st)); [done|apply Hl|auto]|]. intros r st'. apply handled_tick. }
  apply law_read in Er as [Hn Hg]. destruct data as [|d0 data].
  { apply wp_bind. eapply wp_mono; [apply (force_close_spec (mem:=mem) i (ticked st)); [done|apply Hl]|].
    intros _ st1 (Ho & Hok1 & Ht & Hres). wp_steps. split_and!; [destruct Ho; by split|done|by eapply closed_low|].
    right. rewrite Hres. auto. }
  cbv zeta. set (n := Z.of_nat (length (d0 :: data))) in *. assert (0 < n) by (unfold n; simpl; lia).
  wp_if E; wp_steps; [by apply quiet_handled; [..|apply quiet_result| |]|].
  set (z := if n =? sz then _ else _). assert (∃ sz', z = Some sz' ∧ 0 < sz') as (sz' & -> & Hsz').
  { unfold z. destruct (Z.eqb_spec n sz) as [->|].
    - exists (sz * 2). split; [|lia]. apply chk32_some. unfold INT_MIN, INT_MAX. lia.
    - destruct (_ && _) eqn:E2; [|by exists sz]. bool_to_prop. unfold MIN_READ_BUFFER in *. eexists. split; [done|].
      rewrite Z.quot_div_nonneg by lia. apply Z.div_str_pos. lia. }
  wp_steps. ssimpl. eapply (retyped_handled i st (set_p (P_size sz') (sock st i))); try done. solve_changed.
Qed.

Lemma forward_message_udp_spec i st :
  live (type (sock st i)) → sock_ok (sock st i) → Forall wb_fresh (low (sock st i)) →
  wp (forward_message_udp os i) (handled i [] st) st.
Proof.
  intros Hl Hok Hf. unfold forward_message_udp. wp_steps. destruct (os_recvfrom _ _ _ _) as [[data sa]|e].
  - wp_if E; wp_steps; by apply quiet_handled; [..|apply quiet_result| |].
  - wp_if E; [wp_steps; by apply quiet_handled; [..|apply quiet_result| |]|].
    eapply wp_mono; [apply (force_close_err i (ticked st)); [done|apply Hl|auto]|]. intros r st'. apply handled_tick.
Qed.

Lemma report_connect_spec i st :
  live (type (sock st i)) → sock_ok (sock st i) → Forall wb_fresh (low (sock st i)) →
  wp (report_connect os i) (req_ok i [] st) st.
Proof.
  intros Hl Hok Hf. unfold report_connect. wp_steps. ssimpl.
  assert (Herr : ∀ d, wp (force_close i;; set_res_data d;; mret SOCKET_ERR) (req_ok i [] st) (ticked st)).
  { intros d. eapply wp_mono; [apply (force_close_err i (ticked st)); [done|apply Hl|auto]|].
    intros r st' H. apply handled_req. by apply (handled_tick _ _ (S (tick st))). }
  destruct (os_getsockopt _ _ _) as [e|]; [|apply Herr]. wp_if E; [apply Herr|]. wp_steps.
  assert (Hreq : req_ok i [] st SOCKET_OPEN (upd (ticked st) i (set_type SOCKET_TYPE_CONNECTED (sock st i)))).
  { eapply (retyped_op i st (set_type SOCKET_TYPE_CONNECTED (sock st i))); [done..|split_and!; try done|solve_changed|done].
    exact (ok_p _ Hok Hl). }
  set (u := upd (ticked st) i (set_type SOCKET_TYPE_CONNECTED (sock st i))) in *.
  assert (Hu : sock u i = set_type SOCKET_TYPE_CONNECTED (sock st i)) by apply sock_upd_eq.
  assert (Hend : ∀ st1 st2, quiet i u st1 → same_but_result st1 st2 → req_ok i [] st SOCKET_OPEN st2).
  { intros st1 st2 Hq Hs. destruct Hreq as (Ho & Hok1 & Hf1 & Hk).
    pose proof (quiet_trans _ _ _ _ Hq (quiet_result i _ _ Hs)) as Hq2. pose proof Hq2 as (_ & _ & Hqs).
    pose proof Hqs as (_ & Hlo & _ & _ & _ & _ & _ & _ & _ & Ht & _). split_and!.
    - eapply (slot_rel_quiet (mem:=mem)); [apply stream_op_rel|done..].
    - by eapply quiet_sock_ok.
    - by rewrite Hlo.
    - by rewrite Ht, Hu. }
  apply wp_when; intros _; [apply wp_sp_write|]; wp_steps.
  - apply (Hend (after_sp_write u (fd (sock st i)) i false)); [|done].
    replace (fd (sock st i)) with (fd (sock u i)) by (by rewrite Hu). apply (quiet_sp_write (mem:=mem)). by rewrite Hu.
  - apply (Hend u); [|done]. by apply quiet_result.

Qed.

(** The state after [again]. *)
Definition again_st (e : event) (rd : bool) (st : sys) : sys :=
  set_ss st (set_events (event_index (ss st) - 1)
    (<[Z.to_nat (event_index (ss st) - 1) := mk_event (ev_s e) rd (ev_write e) (ev_error e)]> (ev (ss st))) (ss st)).

Lemma wp_again e rd Q st : Q tt (again_st e rd st) → wp (again e rd) Q st.
Proof. done. Qed.

(** An event was handled; it comes up again only if the socket stays open. *)
Definition event_op (i : Z) (e : event) (st st' : sys) : Prop :=
  ∃ ty st1, req_ok i [] st ty st1 ∧
    (st' = st1 ∨ ∃ rd, type (sock st1 i) = type (sock st i) ∧ st' = again_st e rd st1).

Lemma handled_event i e st ty st1 : handled i [] st ty st1 → event_op i e st st1.
Proof. intros H. exists ty, st1. split; [by apply handled_req|auto]. Qed.

Lemma handled_again i e rd st ty st1 :
  handled i [] st ty st1 → ty ≠ SOCKET_CLOSE → ty ≠ SOCKET_ERR → event_op i e st (again_st e rd st1).
Proof.
  intros H H1 H2. exists ty, st1. split; [by apply handled_req|]. right. exists rd. split; [|done].
  destruct H as (_ & _ & _ & [[Ht _]|(_ & [->| ->] & _)]); done.
Qed.

Lemma handle_event_spec i e st :
  live (type (sock st i)) → sock_ok (sock st i) → Forall wb_fresh (low (sock st i)) →
  wp (handle_event os mem i e) (λ _ st', event_op i e st st') st.
Proof.
  intros Hl Hok Hf. unfold handle_event. wp_steps.
  assert (Hend : ∀ ty st1, handled i [] st ty st1 →
    wp (when (ev_write e && negb (ty =? SOCKET_CLOSE) && negb (ty =? SOCKET_ERR)) (again e false);;
        mret (if ty =? -1 then None else Some ty)) (λ _ st', event_op i e st st') st1).
  { intros ty st1 H. apply wp_bind, wp_when; intros E; wp_steps.
    - apply wp_again. wp_steps. bool_to_prop. by eapply handled_again.
    - by eapply handled_event. }
  wp_if Er.
  - destruct (Z.eqb_spec (protocol (sock st i)) PROTOCOL_TCP) as [Hp|Hp]; apply wp_bind.
    + eapply wp_mono; [by apply (forward_message_tcp_spec i st)|]. apply Hend.
    + eapply wp_mono; [by apply (forward_message_udp_spec i st)|]. intros ty st1 H. wp_if E; [|by apply Hend].
      apply wp_bind, wp_again. wp_steps. bool_to_prop. subst ty. by eapply handled_again.
  - unfold handle_write. wp_if Ew; [|wp_if Ee].
    + apply wp_bind. eapply wp_mono; [by apply (send_buffer_spec i st)|]. intros ty st1 H. wp_steps. by eapply handled_event.
    + wp_steps. eapply wp_mono with (Q := λ _ st1, slot_op i [] (ticked st) st1 ∧ sock_ok (sock st1 i) ∧
        type (sock st1 i) = SOCKET_TYPE_INVALID ∧ result st1 = mk_smsg (id (sock st i)) (opaque (sock st i)) 0 DNull).
      { apply (force_close_spec (mem:=mem) i (ticked st)); [done|apply Hl]. }
      intros _ st1 (Ho & Hok1 & Ht & Hres). wp_steps. apply (handled_event i e st SOCKET_ERR). split_and!; ssimpl.
      * destruct Ho. by split.
      * done.
      * by eapply closed_low.
      * right. ssimpl. rewrite Hres. auto.
    + wp_steps. apply (handled_event i e st (-1)). by apply quiet_handled; [..|apply quiet_result| |].
Qed.

(** ** Reserving a slot *)

Definition reserved_sock (s : socket) (nid : Z) : socket :=
  mk_socket (opaque s) (high s) (low s) (wb_size s) (sending s) (-1) nid PROTOCOL_UNKNOWN
    SOCKET_TYPE_RESERVE 0 (warn_size s) (p s) (dw_offset s) (dw_buffer s) (dw_size s).

Definition set_alloc (st : sys) (a : Z) : sys := set_ss st (set_alloc_id a (ss st)).

Lemma sock_set_alloc st a j : sock (set_alloc st a) j = sock st j. Proof. done. Qed.

Lemma wp_reserve_loop n Q st :
  0 <= alloc_id (ss st) → alloc_id (ss st) + Z.of_nat n <= INT_MAX →
  (∀ a, alloc_id (ss st) <= a → Q (-1) (set_alloc st a)) →
  (∀ nid, alloc_id (ss st) < nid <= INT_MAX → type (sock st (HASH_ID nid)) = SOCKET_TYPE_INVALID →
     Q nid (upd (set_alloc st nid) (HASH_ID nid) (reserved_sock (sock st (HASH_ID nid)) nid))) →
  wp (reserve_loop n) Q st.
Proof.
  revert st. induction n as [|n IH]; intros st H0 Hn H1 H2; simpl.
  { wp_steps. specialize (H1 (alloc_id (ss st))). destruct st as [[]]. by apply H1. }
  unfold INT_MAX in *. wp_steps. simpl alloc_id. rewrite i32_small by (unfold INT_MIN, INT_MAX; lia).
  apply wp_when; intros E; [bool_to_prop; lia|]. wp_steps. simpl alloc_id.
  wp_if E2; wp_steps; bool_to_prop.
  - by apply (H2 (alloc_id (ss st) + 1)); [lia|].
  - apply IH; simpl; [lia|lia| |].
    + intros a Ha. apply (H1 a). lia.
    + intros nid Hnid Ht. apply (H2 nid); [lia|done].
Qed.

Lemma wp_reserve_id Q st :
  0 <= alloc_id (ss st) → alloc_id (ss st) + MAX_SOCKET <= INT_MAX →
  (∀ a, alloc_id (ss st) <= a → Q (-1) (set_alloc st a)) →
  (∀ nid, alloc_id (ss st) < nid <= INT_MAX → type (sock st (HASH_ID nid)) = SOCKET_TYPE_INVALID →
     Q nid (upd (set_alloc st nid) (HASH_ID nid) (reserved_sock (sock st (HASH_ID nid)) nid))) →
  wp reserve_id Q st.
Proof. intros H0 Hn. apply wp_reserve_loop; [done|]. rewrite Z2Nat.id by done. done. Qed.
End Events.
