(* ===== verification/SocketInv.v ===== *)
(** * Runs of the socket server

    Any number of threads call the functions of the server while its own
    thread polls.  An action is one call or one round of the poll loop; a send
    that cannot write at once is two actions, since other threads may act
    between the moment it counts itself in [sending] and the moment its request
    is in the pipe.  The theorems hold for every sequence of actions and every
    behaviour of the kernel. *)

From Stdlib Require Import ZArith Lia.
From stdpp Require Import base tactics option numbers gmap list strings sorting.
From S2P Require Import Prelude SocketServer SocketProof SocketEvents.

Local Open Scope Z_scope.

(** ** Actions *)

(** [c_wait]: the sends that have counted themselves and not yet posted. *)
Record config := mk_config { c_sys : sys; c_wait : list request }.

Inductive action :=
  | APoll
  | AConnect (ro : Z) (addr : list Z) (port : Z)
  | AListen (ro : Z) (addr : list Z) (port backlog : Z)
  | ABind (ro f : Z)
  | AUdp (ro : Z) (addr : option (list Z)) (port : Z)
  | AStart (ro rid : Z)
  | AClose (ro rid : Z)
  | AShutdown (ro rid : Z)
  | ANodelay (rid : Z)
  | AExit
  | ASend (pri : priority) (rid : Z) (b : positive) (sz : Z)
  | APost (n : nat)
  | AUdpSend (rid : Z) (addr : list Z) (b : positive) (sz : Z)
  | AUdpConnect (rid : Z) (addr : list Z) (port : Z).

Section Runs.
Context (os : OS) (mem : positive → list Z).

Definition run_m {A} (m : M A) (c : config) : option config :=
  match m (c_sys c) with Some (_, st) => Some (mk_config st (c_wait c)) | None => None end.

(** A send up to its request.  When the counter of the socket is full the
    thread waits: the action has not happened. *)
Definition exec_send (pri : priority) (rid : Z) (b : positive) (sz : Z) (c : config) : option config :=
  match (match pri with HIGH => send_direct os mem rid b sz | LOW => send_check rid b sz end) (c_sys c) with
  | None => None
  | Some (Some _, st) => Some (mk_config st (c_wait c))
  | Some (None, st) =>
      match inc_sending_ref (HASH_ID rid) rid st with
      | None => None
      | Some (true, st) => Some (mk_config st (c_wait c ++ [ReqSend pri rid sz b]))
      | Some (false, _) => Some c
      end
  end.

Definition exec (a : action) (c : config) : option config :=
  match a with
  | APoll => run_m (poll_round os mem) c
  | AConnect ro addr port => run_m (socket_server_connect ro addr port) c
  | AListen ro addr port backlog => run_m (socket_server_listen os ro addr port backlog) c
  | ABind ro f => run_m (socket_server_bind ro f) c
  | AUdp ro addr port => run_m (socket_server_udp os ro addr port) c
  | AStart ro rid => run_m (socket_server_start ro rid) c
  | AClose ro rid => run_m (socket_server_close ro rid) c
  | AShutdown ro rid => run_m (socket_server_shutdown ro rid) c
  | ANodelay rid => run_m (socket_server_nodelay rid) c
  | AExit => run_m socket_server_exit c
  | ASend pri rid b sz => exec_send pri rid b sz c
  | APost n =>
      match c_wait c !! n with
      | Some (ReqSend pri rid sz b) =>
          match post_send mem pri rid b sz (c_sys c) with
          | Some (_, st) => Some (mk_config st (delete n (c_wait c)))
          | None => None
          end
      | _ => Some c
      end
  | AUdpSend rid addr b sz => run_m (socket_server_udp_send os mem rid addr b sz) c
  | AUdpConnect rid addr port => run_m (socket_server_udp_connect os rid addr port) c
  end.

(** A buffer with its size. *)
Definition buffer_ok (b : positive) (sz : Z) : Prop := 0 <= sz <= Z.of_nat (length (mem b)).

(** The slot of [rid] is not one that is still reserved for it. *)
Definition not_reserved (st : sys) (rid : Z) : Prop :=
  id (sock st (HASH_ID rid)) = rid → type (sock st (HASH_ID rid)) ≠ SOCKET_TYPE_RESERVE.

(** What callers respect: an identifier has been handed out; a socket is sent
    to only after it was opened, and to a UDP address only if it is a UDP
    socket; [socket_server_send] is for TCP; and no run allocates two thousand
    million identifiers.  (test/testudp.lua does not keep to this: it writes to
    UDP sockets with [socket_server_send], and right after asking for them.) *)
Definition allowed (a : action) (c : config) : Prop :=
  let st := c_sys c in
  alloc_id (ss st) + MAX_SOCKET <= INT_MAX ∧
  match a with
  | AStart _ rid | AClose _ rid | AShutdown _ rid | ANodelay rid | AUdpConnect rid _ _ => rid <= alloc_id (ss st)
  | ASend pri rid b sz => buffer_ok b sz ∧ not_reserved st rid ∧
      (id (sock st (HASH_ID rid)) = rid → pri = LOW ∨ protocol (sock st (HASH_ID rid)) = PROTOCOL_TCP)
  | AUdpSend rid _ b sz => buffer_ok b sz ∧ not_reserved st rid ∧
      (id (sock st (HASH_ID rid)) = rid → protocol (sock st (HASH_ID rid)) ≠ PROTOCOL_TCP)
  | _ => True
  end.

Definition config0 : config := mk_config socket_server_create [].

Inductive reachable : config → Prop :=
  | reach_init : reachable config0
  | reach_step c a c' : reachable c → allowed a c → exec a c = Some c' → reachable c'.

(** ** Invariants *)

Definition req_id (r : request) : option Z :=
  match r with
  | ReqStart x _ | ReqBind x _ _ | ReqListen x _ _ | ReqClose x _ _ | ReqOpen x _ _ _ | ReqSend _ x _ _
  | ReqSendUdp x _ _ _ | ReqSetopt x _ _ | ReqUdp x _ _ _ | ReqSetUdp x _ => Some x
  | ReqExit => None
  end.
Definition opening (r : request) : option Z :=
  match r with ReqBind x _ _ | ReqListen x _ _ | ReqOpen x _ _ _ | ReqUdp x _ _ _ => Some x | _ => None end.
Definition is_send (r : request) : option Z :=
  match r with ReqSend _ x _ _ => Some x | _ => None end.
Definition req_held (r : request) : list positive :=
  match r with ReqSend _ _ _ b | ReqSendUdp _ _ b _ => [b] | _ => [] end.
Definition req_data (st : sys) (r : request) : Prop :=
  match r with
  | ReqSend _ _ sz b => buffer_ok b sz
  | ReqSendUdp x sz b a => buffer_ok b sz ∧ a ≠ [] ∧ not_reserved st x ∧ (id (sock st (HASH_ID x)) = x → protocol (sock st (HASH_ID x)) ≠ PROTOCOL_TCP)
  | ReqSetUdp _ a => ∃ n, addrsz a = Some n ∧ Z.of_nat (length a) = n
  | _ => True
  end.

Record slots_ok (st : sys) : Prop := {
  so_soi : soi (ss st) = None;
  so_alloc : 0 <= alloc_id (ss st);
  so_sock i : @sock_ok mem (sock st i) ∧ Forall wb_fresh (low (sock st i));
  so_id i : (id (sock st i) = -1 ∧ type (sock st i) = SOCKET_TYPE_INVALID ∧ protocol (sock st i) = PROTOCOL_UNKNOWN) ∨
    (HASH_ID (id (sock st i)) = i ∧ 0 <= id (sock st i) <= alloc_id (ss st));
  so_reserve i : type (sock st i) = SOCKET_TYPE_RESERVE → protocol (sock st i) = PROTOCOL_UNKNOWN;
  so_epoll : epoll_ok st }.

(** [pp]: the requests in the pipe; [wt]: those not yet in it. *)
Record pipe_ok (st : sys) (pp wt : list request) : Prop := {
  po_id r x : r ∈ pp ++ wt → req_id r = Some x → x <= alloc_id (ss st);
  po_open l1 r l2 x : pp = l1 ++ r :: l2 → opening r = Some x →
    type (sock st (HASH_ID x)) = SOCKET_TYPE_RESERVE ∧ id (sock st (HASH_ID x)) = x ∧ ∀ r', r' ∈ l1 → req_id r' ≠ Some x;
  po_reserve i : type (sock st i) = SOCKET_TYPE_RESERVE → ∃ r, r ∈ pp ∧ opening r = Some (id (sock st i));
  po_send r x : r ∈ pp ++ wt → is_send r = Some x → not_reserved st x;
  po_data r : r ∈ pp ++ wt → req_data st r;
  po_wait r : r ∈ wt → opening r = None }.

(** The number of sends to [x] on their way. *)
Definition cnt (x : Z) (l : list request) : Z := Z.of_nat (length (filter (λ r, is_send r = Some x) l)).

Definition cnt_ok (st : sys) (l : list request) : Prop :=
  ∀ i, protocol (sock st i) = PROTOCOL_TCP →
    sending (sock st i) = ID_TAG16 (id (sock st i)) * 2 ^ 16 + cnt (id (sock st i)) l ∧ cnt (id (sock st i)) l < 2 ^ 16.

Definition pending_events (st : sys) : list event := drop (Z.to_nat (event_index (ss st))) (ev (ss st)).

Record ev_ok (st : sys) : Prop := {
  ev_range : 0 <= event_index (ss st) <= Z.of_nat (length (ev (ss st)));
  ev_nodup : NoDup (omap ev_s (pending_events st));
  ev_live e i : e ∈ pending_events st → ev_s e = Some i → live (type (sock st i)) }.

(** Every buffer handed over is freed or held, once. *)
Definition held_all (st : sys) : list positive := concat ((λ i, held (sock st i)) <$> seqZ 0 MAX_SOCKET).

Definition own_ok (st : sys) (l : list request) : Prop :=
  takes (log st) ≡ₚ frees (log st) ++ held_all st ++ concat (req_held <$> l).

(** Packets of one priority. *)
Definition packets (pri : priority) (out : list (priority * list Z)) : list (list Z) :=
  snd <$> filter (λ pk, pk.1 = pri) out.
Definition req_packet (x : Z) (pri : priority) (r : request) : list (list Z) :=
  match r with
  | ReqSend pri' y sz b => if (y =? x) && bool_decide (pri' = pri) then [@object mem b sz] else []
  | _ => []
  end.
Definition in_pipe (x : Z) (pri : priority) (l : list request) : list (list Z) := concat (req_packet x pri <$> l).

(** [out] is the order in which the packets for [x] leave: what was written is
    the beginning of it, and what is pending the rest.  Packets of one priority
    leave in the order in which they were sent. *)
Record stream_inv (x : Z) (st : sys) (l : list request) (out : list (priority * list Z)) : Prop := {
  si_prefix : writes x (log st) `prefix_of` concat (snd <$> out);
  si_live : id (sock st (HASH_ID x)) = x → protocol (sock st (HASH_ID x)) = PROTOCOL_TCP → live (type (sock st (HASH_ID x))) →
    writes x (log st) ++ @pend mem (sock st (HASH_ID x)) = concat (snd <$> out);
  si_high : packets HIGH out ++ in_pipe x HIGH l `sublist_of` posts x HIGH (log st);
  si_low : packets LOW out ++
    (if bool_decide (id (sock st (HASH_ID x)) = x ∧ protocol (sock st (HASH_ID x)) = PROTOCOL_TCP)
     then @lowd mem (sock st (HASH_ID x)) else []) ++ in_pipe x LOW l `sublist_of` posts x LOW (log st) }.

Record stream_ok (st : sys) (l : list request) : Prop := {
  st_inv x : 0 <= x → ∃ out, stream_inv x st l out;
  st_posts x pri : 0 <= x → posts x pri (log st) ≠ [] → x <= alloc_id (ss st) ∧ not_reserved st x }.

Record core (st : sys) (pp wt : list request) : Prop := {
  core_slots : slots_ok st;
  core_pipe : pipe_ok st pp wt;
  core_cnt : cnt_ok st (pp ++ wt);
  core_own : own_ok st (pp ++ wt);
  core_stream : stream_ok st pp }.

Definition inv (c : config) : Prop := core (c_sys c) (pipe (c_sys c)) (c_wait c) ∧ ev_ok (c_sys c).

(** ** Steps on one socket *)

Local Notation stream_op := (@stream_op mem).
Local Notation accept_op := (@accept_op mem).

Lemma slots_rel R i G st st' :
  slots_ok st → slot_rel R i G st st' → @sock_ok mem (sock st' i) → Forall wb_fresh (low (sock st' i)) → slots_ok st'.
Proof.
  intros [] [] Hok Hf. split; try congruence; [| | |auto].
  - intros j. destruct (decide (j = i)) as [->|Hj]; [done|]. by rewrite op_others.
  - intros j. destruct (decide (j = i)) as [->|Hj]; [|rewrite op_others, op_alloc by done; auto].
    rewrite op_id, op_protocol, op_alloc. destruct (so_id0 i) as [(H1 & H2 & H3)|H]; auto.
  - intros j. destruct (decide (j = i)) as [->|Hj]; [rewrite op_protocol, op_reserve; auto|rewrite op_others by done; auto].
Qed.

(** Identifiers, protocols and reservations stay. *)
Record coarse (st st' : sys) : Prop := {
  co_alloc : alloc_id (ss st') = alloc_id (ss st);
  co_id j : id (sock st' j) = id (sock st j);
  co_protocol j : protocol (sock st' j) = protocol (sock st j);
  co_reserve j : type (sock st' j) = SOCKET_TYPE_RESERVE ↔ type (sock st j) = SOCKET_TYPE_RESERVE }.

Lemma rel_coarse R i G st st' : slot_rel R i G st st' → coarse st st'.
Proof. intros []. split; try done; intros j; destruct (decide (j = i)) as [->|Hj]; rewrite ?op_others by done; done. Qed.

Lemma coarse_not_reserved st st' x : coarse st st' → not_reserved st x → not_reserved st' x.
Proof. intros [] H. unfold not_reserved. rewrite co_id0, co_reserve0. auto. Qed.

Lemma coarse_data st st' r : coarse st st' → req_data st r → req_data st' r.
Proof.
  intros Hc. destruct r; simpl; try done. intros (H1 & Ha & H2 & H3). split_and!; [done|done|by eapply coarse_not_reserved|].
  destruct Hc. by rewrite co_id0, co_protocol0.
Qed.

Lemma pipe_coarse st st' pp wt : coarse st st' → pipe_ok st pp wt → pipe_ok st' pp wt.
Proof.
  intros Hc []. pose proof Hc as []. split; rewrite ?co_alloc0; try done.
  - intros l1 r l2 x Hp Ho. rewrite co_reserve0, co_id0. eauto.
  - intros i. rewrite co_reserve0, co_id0. auto.
  - intros r x Hr Hs. eapply coarse_not_reserved; eauto.
  - intros r Hr. eapply coarse_data; eauto.
Qed.

Lemma cnt_coarse st st' l : coarse st st' → (∀ j, sending (sock st' j) = sending (sock st j)) → cnt_ok st l → cnt_ok st' l.
Proof. intros [] Hs H i. rewrite co_id0, co_protocol0, Hs. apply H. Qed.

Lemma rel_sending R i G st st' : slot_rel R i G st st' → ∀ j, sending (sock st' j) = sending (sock st j).
Proof. intros [] j. destruct (decide (j = i)) as [->|Hj]; [done|]. by rewrite op_others. Qed.

Lemma ev_rel R i G st st' :
  slot_rel R i G st st' → ev_ok st →
  (live (type (sock st' i)) ∨ ∀ e, e ∈ pending_events st → ev_s e ≠ Some i) → ev_ok st'.
Proof.
  intros [] [] Hl. unfold pending_events in *. split; unfold pending_events; rewrite ?op_index, ?op_ev; try done.
  intros e j He Hj. destruct (decide (j = i)) as [->|Hne]; [|rewrite op_others by done; eauto].
  destruct Hl as [Hl|Hl]; [done|]. by apply Hl in He.
Qed.

(** ** Buffers *)

Lemma seqZ_split i : 0 <= i < MAX_SOCKET →
  ∃ l1 l2, seqZ 0 MAX_SOCKET = l1 ++ i :: l2 ∧ i ∉ l1 ∧ i ∉ l2.
Proof.
  intros Hi. assert (i ∈ seqZ 0 MAX_SOCKET) as Hin by (apply elem_of_seqZ; lia).
  apply list_elem_of_split in Hin as (l1 & l2 & E). exists l1, l2. split; [done|].
  pose proof (NoDup_seqZ 0 MAX_SOCKET) as Hnd. rewrite E in Hnd.
  apply NoDup_app in Hnd as (_ & H1 & [H2 _]%NoDup_cons). split; [|done].
  intros H. apply (H1 i H). apply elem_of_cons. by left.
Qed.

Lemma concat_ext {A B} (f g : A → list B) l : (∀ x, x ∈ l → f x = g x) → concat (f <$> l) = concat (g <$> l).
Proof.
  induction l as [|x l IH]; intros H; simpl; [done|]. f_equal; [apply H; by left|].
  apply IH. intros y Hy. apply H. by right.
Qed.

Lemma held_all_ext st st' : (∀ j, held (sock st' j) = held (sock st j)) → held_all st' = held_all st.
Proof. intros H. apply concat_ext. intros j _. apply H. Qed.

(** The buffers of all sockets but [i]. *)
Lemma held_all_split i st : 0 <= i < MAX_SOCKET →
  ∃ rest, ∀ st', (∀ j, j ≠ i → sock st' j = sock st j) → held_all st' ≡ₚ held (sock st' i) ++ rest.
Proof.
  intros Hi. destruct (seqZ_split i Hi) as (l1 & l2 & E & H1 & H2).
  exists (concat ((λ j, held (sock st j)) <$> l1) ++ concat ((λ j, held (sock st j)) <$> l2)). intros st' Ho.
  unfold held_all. rewrite E, fmap_app, concat_app, fmap_cons. simpl.
  rewrite (concat_ext (λ j, held (sock st' j)) (λ j, held (sock st j)) l1), (concat_ext (λ j, held (sock st' j)) (λ j, held (sock st j)) l2).
  - rewrite !app_assoc. apply Permutation_app_tail. apply Permutation_app_comm.
  - intros j Hj. rewrite Ho; [done|]. by intros ->.
  - intros j Hj. rewrite Ho; [done|]. by intros ->.
Qed.

Lemma HASH_ID_range x : 0 <= HASH_ID x < MAX_SOCKET.
Proof. apply Z.mod_pos_bound. done. Qed.

Lemma local_marks x evs : Forall (ev_local x) evs →
  takes evs = [] ∧ (∀ y pri, posts y pri evs = []) ∧ (∀ y, y ≠ x → writes y evs = []).
Proof.
  induction 1 as [|e evs He _ (IH1 & IH2 & IH3)]; [done|]. split_and!.
  - change (takes (e :: evs)) with (take_of e ++ takes evs). rewrite IH1. by destruct e.
  - intros y pri. change (posts y pri (e :: evs)) with (post_of y pri e ++ posts y pri evs). rewrite IH2. by destruct e.
  - intros y Hy. change (writes y (e :: evs)) with (write_of y e ++ writes y evs). rewrite IH3 by done.
    destruct e; simpl in *; try done. subst. destruct (Z.eqb_spec x y); [congruence|done].
Qed.

Lemma own_rel R i G st st' l l' :
  0 <= i < MAX_SOCKET → slot_rel R i G st st' → own_ok st l →
  concat (req_held <$> l) ≡ₚ G ++ concat (req_held <$> l') → own_ok st' l'.
Proof.
  intros Hi [] Hown Hl. destruct op_log as (evs & Hlog & Hloc & Hheld & _).
  destruct (local_marks _ _ Hloc) as (Htk & _ & _). destruct (held_all_split i st Hi) as (rest & Hrest).
  unfold own_ok in *. rewrite Hlog, takes_app, frees_app, Htk, app_nil_r, Hown, Hl, (Hrest st), (Hrest st') by done.
  rewrite <- !app_assoc. apply Permutation_app_head.
  trans ((held (sock st i) ++ G) ++ rest ++ concat (req_held <$> l')); [solve_Permutation|].
  rewrite Hheld. solve_Permutation.
Qed.
(** ** Streams *)

Lemma packets_app pri o1 o2 : packets pri (o1 ++ o2) = packets pri o1 ++ packets pri o2.
Proof. unfold packets. by rewrite filter_app, fmap_app. Qed.

Definition tag (pri : priority) (C : list (list Z)) : list (priority * list Z) := (λ d, (pri, d)) <$> C.

Lemma tag_data pri C : snd <$> tag pri C = C.
Proof. unfold tag. rewrite <- list_fmap_compose. apply list_fmap_id. Qed.

Lemma packets_tag pri pri' C : packets pri (tag pri' C) = if decide (pri' = pri) then C else [].
Proof.
  unfold packets, tag. induction C as [|d C IH]; simpl; [by case_decide|].
  rewrite filter_cons. simpl. case_decide; simpl; [by f_equal|done].
Qed.

Definition attached (st : sys) (x : Z) : Prop :=
  id (sock st (HASH_ID x)) = x ∧ protocol (sock st (HASH_ID x)) = PROTOCOL_TCP.

(** Whoever the stream does not belong to leaves it alone. *)
Lemma stream_inv_other x st st' l l' out :
  stream_inv x st l out → writes x (log st') = writes x (log st) →
  (∀ pri, posts x pri (log st') = posts x pri (log st)) → (∀ pri, in_pipe x pri l' `sublist_of` in_pipe x pri l) →
  (sock st' (HASH_ID x) = sock st (HASH_ID x) ∨ ¬ attached st' x) → stream_inv x st' l' out.
Proof.
  intros [] Hw Hp Hl Ho. split; rewrite ?Hw, ?Hp; try done.
  - destruct Ho as [->|Hn]; [done|]. intros ? ?. by destruct Hn.
  - etrans; [|done]. by apply sublist_app.
  - etrans; [|done]. apply sublist_app; [done|]. apply sublist_app; [|done].
    destruct Ho as [->|Hn]; [done|]. rewrite bool_decide_eq_false_2 by done. apply sublist_nil_l.
Qed.

Lemma attached_rel R i G st st' x : slot_rel R i G st st' → attached st' x ↔ attached st x.
Proof. intros Hc%rel_coarse. destruct Hc. unfold attached. by rewrite co_id0, co_protocol0. Qed.

(** What the relation of a step does to the stream of its socket. *)
Lemma stream_rel_step R i G st st' l l' :
  slots_ok st → slot_rel R i G st st' → stream_ok st l → (∀ x pri, in_pipe x pri l' `sublist_of` in_pipe x pri l) →
  (∀ x out w, HASH_ID x = i → attached st x → stream_inv x st l out → R (sock st i) w (sock st' i) →
     writes x (log st') = writes x (log st) ++ w → (∀ pri, posts x pri (log st') = posts x pri (log st)) →
     ∃ out', stream_inv x st' l' out') →
  stream_ok st' l'.
Proof.
  intros Hso Hr Hst Hl HR. pose proof (rel_coarse _ _ _ _ _ Hr) as Hco. pose proof Hr as [].
  destruct op_log as (evs & Hlog & Hloc & _ & HS & HU). destruct (local_marks _ _ Hloc) as (_ & Hp & Hw).
  assert (Hp' : ∀ x pri, posts x pri (log st') = posts x pri (log st)) by (intros; by rewrite Hlog, posts_app, Hp, app_nil_r).
  split.
  - intros x Hx. destruct (st_inv _ _ Hst x Hx) as [out Hout].
    destruct (decide (HASH_ID x = i)) as [Hi|Hi].
    + destruct (decide (id (sock st i) = x)) as [Hid|Hid].
      * destruct (decide (protocol (sock st i) = PROTOCOL_TCP)) as [Htcp|Htcp].
        -- eapply HR; [done|unfold attached; by rewrite Hi|done|by apply HS| |done].
           by rewrite Hlog, writes_app, Hid.
        -- exists out. eapply stream_inv_other; [done| |done|done|].
           ++ by rewrite Hlog, writes_app, <- Hid, HU, app_nil_r.
           ++ right. rewrite (attached_rel _ _ _ _ _ _ Hr). unfold attached. rewrite Hi. tauto.
      * exists out. eapply stream_inv_other; [done| |done|done|].
        -- by rewrite Hlog, writes_app, Hw, app_nil_r.
        -- right. rewrite (attached_rel _ _ _ _ _ _ Hr). unfold attached. rewrite Hi. tauto.
    + exists out. eapply stream_inv_other; [done| |done|done|left; by apply op_others].
      rewrite Hlog, writes_app. destruct (decide (id (sock st i) = x)) as [Hid|Hid]; [|by rewrite Hw, app_nil_r].
      destruct (so_id _ Hso i) as [(E & _)|(E & _)]; [lia|]. by rewrite Hid in E.
  - intros x pri Hx. rewrite Hp', op_alloc. intros Hne. destruct (st_posts _ _ Hst x pri Hx Hne). split; [done|].
    by eapply coarse_not_reserved.
Qed.

Lemma not_live_empty s : @sock_ok mem s → ¬ live (type s) → @pend mem s = [] ∧ @lowd mem s = [].
Proof.
  intros Hok Hl. destruct (ok_empty _ Hok) as (Hh & Hlo & Hd).
  { destruct (decide (type s = SOCKET_TYPE_INVALID)); [auto|]. destruct (decide (type s = SOCKET_TYPE_RESERVE)); [auto|].
    exfalso. by apply Hl. }
  unfold pend, lowd, dwd. by rewrite Hh, Hlo, Hd.
Qed.

Lemma stream_slot_op i G st st' l l' :
  slots_ok st → slot_rel stream_op i G st st' → @sock_ok mem (sock st' i) → stream_ok st l →
  (∀ x pri, in_pipe x pri l' `sublist_of` in_pipe x pri l) → stream_ok st' l'.
Proof.
  intros Hso Hr Hok' Hst Hl. eapply stream_rel_step; [done..|]. intros x out w Hi Ha Hout Hop Hw Hp.
  pose proof (proj2 (attached_rel _ _ _ _ _ x Hr) Ha) as Ha'. destruct (so_sock _ Hso i) as [Hok _].
  destruct Hout. unfold attached in Ha, Ha'. subst i. destruct Ha as [Hid Htcp]. rewrite bool_decide_eq_true_2 in si_low0 by done.
  assert (Hlows : ∀ C, @lowd mem (sock st (HASH_ID x)) = C ++ @lowd mem (sock st' (HASH_ID x)) ∨
       (@lowd mem (sock st' (HASH_ID x)) = [] ∧ ∃ R, @lowd mem (sock st (HASH_ID x)) = C ++ R) →
     packets LOW (out ++ tag LOW C) ++ @lowd mem (sock st' (HASH_ID x)) ++ in_pipe x LOW l' `sublist_of` posts x LOW (log st)).
  { intros C HC. rewrite packets_app, packets_tag. simpl. etrans; [|exact si_low0]. rewrite <- app_assoc.
    apply sublist_app; [done|]. rewrite (app_assoc C). apply sublist_app; [|done].
    destruct HC as [->|[-> [R ->]]]; [done|]. rewrite app_nil_r. by apply sublist_inserts_r. }
  assert (Hhigh : ∀ C, packets HIGH (out ++ tag LOW C) ++ in_pipe x HIGH l' `sublist_of` posts x HIGH (log st)).
  { intros C. rewrite packets_app, packets_tag. simpl. rewrite app_nil_r. etrans; [|exact si_high0]. by apply sublist_app. }
  destruct (decide (live (type (sock st (HASH_ID x))))) as [Hlive|Hdead].
  - specialize (si_live0 Hid Htcp Hlive). destruct Hop as [C HC HP|C R Ht HC HP]; exists (out ++ tag LOW C);
      (split; rewrite ?Hw, ?Hp, ?bool_decide_eq_true_2 by done; [| |apply Hhigh|]); rewrite ?fmap_app, ?concat_app, ?tag_data, <- ?si_live0.
    + rewrite <- app_assoc. apply prefix_app. rewrite HP. by apply prefix_app_r.
    + intros _ _ _. by rewrite <- !app_assoc, HP.
    + apply Hlows. by left.
    + rewrite <- app_assoc. by apply prefix_app.
    + intros _ _ [Hn _]. done.
    + apply Hlows. right. split; [|eauto]. by apply (sock_ok_dead _ Hok').
  - destruct (not_live_empty _ Hok Hdead) as [Hp0 Hl0]. exists out.
    assert (w = []) as ->.
    { destruct Hop as [C HC HP|C R _ HC HP]; rewrite Hl0 in HC; symmetry in HC; apply app_nil in HC as [-> _]; rewrite Hp0 in HP; simpl in HP.
      - symmetry in HP. by apply app_nil in HP as [-> _].
      - by apply prefix_nil_inv in HP. }
    assert (Hdead' : ¬ live (type (sock st' (HASH_ID x)))).
    { intros [H1 H2]. apply Hdead. split; [|by rewrite <- (op_reserve _ _ _ _ _ Hr)].
      intros E. by apply H1, (op_type _ _ _ _ _ Hr). }
    split; rewrite ?Hw, ?Hp, ?app_nil_r, ?bool_decide_eq_true_2 by done; [done|done| |].
    + specialize (Hhigh []). by rewrite app_nil_r in Hhigh.
    + specialize (Hlows []). rewrite app_nil_r in Hlows. apply Hlows. right.
      split; [by apply (not_live_empty _ Hok')|]. exists (@lowd mem (sock st (HASH_ID x))). done.
Qed.
(** A packet that enters the stream leaves the pipe. *)
Lemma stream_accept pri rid sz b st st' l :
  slots_ok st → slot_rel (accept_op pri (@object mem b sz)) (HASH_ID rid) [b] st st' →
  id (sock st (HASH_ID rid)) = rid → live (type (sock st (HASH_ID rid))) →
  stream_ok st (ReqSend pri rid sz b :: l) → stream_ok st' l.
Proof.
  intros Hso Hr Hid Hlive Hst. eapply stream_rel_step; [done..| |].
  { intros x pri'. unfold in_pipe. simpl. by apply sublist_inserts_l. }
  intros x out w Hi Ha Hout (-> & Hop) Hw Hp. rewrite app_nil_r in Hw.
  pose proof (proj2 (attached_rel _ _ _ _ _ x Hr) Ha) as Ha'.
  assert (x = rid) as ->. { destruct Ha as [Hx _]. rewrite Hi in Hx. congruence. }
  destruct Hout. unfold attached in Ha, Ha'. rewrite bool_decide_eq_true_2 in si_low0 by done.
  specialize (si_live0 Hid (proj2 Ha) Hlive). set (d := @object mem b sz) in *.
  assert (Hin : ∀ pri', in_pipe rid pri' (ReqSend pri rid sz b :: l) = (if decide (pri = pri') then [d] else []) ++ in_pipe rid pri' l).
  { intros pri'. unfold in_pipe. simpl. rewrite Z.eqb_refl. simpl. case_decide; by case_bool_decide. }
  rewrite Hin in si_high0, si_low0. destruct Hop as [(HP & HL & Hlow)|(-> & HP & HL)].
  - exists (out ++ [(pri, d)]).
    assert (Hpk : ∀ pri', packets pri' (out ++ [(pri, d)]) = packets pri' out ++ (if decide (pri = pri') then [d] else [])).
    { intros pri'. rewrite packets_app. f_equal. apply (packets_tag pri' pri [d]). }
    split; rewrite ?Hw, ?Hp, ?Hpk, ?bool_decide_eq_true_2 by done.
    + rewrite fmap_app, concat_app. by apply prefix_app_r.
    + intros _ _ _. rewrite fmap_app, concat_app, <- si_live0, HP. simpl. by rewrite app_nil_r, app_assoc.
    + by rewrite <- app_assoc.
    + rewrite HL, <- app_assoc. destruct (decide (pri = LOW)) as [->|]; [|done]. rewrite Hlow in * by done. done.
  - exists out. split; rewrite ?Hw, ?Hp, ?HP, ?HL, ?bool_decide_eq_true_2 by done; try done.
    by rewrite <- app_assoc.
Qed.

(** ** Requests *)

Context `{!OSLaws os}.

Lemma sends_cons x r l : cnt x (r :: l) = (if decide (is_send r = Some x) then 1 else 0) + cnt x l.
Proof. unfold cnt. rewrite filter_cons. case_decide; simpl; lia. Qed.

Lemma cnt_other x r l : is_send r ≠ Some x → cnt x (r :: l) = cnt x l.
Proof. intros H. rewrite sends_cons. by rewrite decide_False. Qed.

Lemma cnt_insert x l1 r l2 : is_send r ≠ Some x → cnt x (l1 ++ r :: l2) = cnt x (l1 ++ l2).
Proof. intros H. unfold cnt. rewrite !filter_app, filter_cons. by rewrite decide_False. Qed.

Lemma cnt_perm x l l' : l ≡ₚ l' → cnt x l = cnt x l'.
Proof. intros H. unfold cnt. by rewrite H. Qed.

Lemma cnt_nonneg x l : 0 <= cnt x l.
Proof. unfold cnt. lia. Qed.

Lemma pipe_pop st r pp wt :
  pipe_ok st (r :: pp) wt → opening r = None →
  pipe_ok st pp wt ∧ (∀ x, req_id r = Some x → not_reserved st x) ∧ req_data st r.
Proof.
  intros [] Ho. split; [split|split].
  - intros r' x Hr'. apply po_id0. rewrite <- app_comm_cons. by right.
  - intros l1 r' l2 x -> Hx. destruct (po_open0 (r :: l1) r' l2 x) as (H1 & H2 & H3); [done..|]. split_and!; try done.
    intros r2 Hr2. apply H3. by right.
  - intros i Hi. destruct (po_reserve0 i Hi) as (r' & Hr' & Hx). apply elem_of_cons in Hr' as [->|Hr']; [congruence|eauto].
  - intros r' x Hr'. apply po_send0. rewrite <- app_comm_cons. by right.
  - intros r' Hr'. apply po_data0. rewrite <- app_comm_cons. by right.
  - done.
  - intros x Hx Hid Ht. destruct (po_reserve0 _ Ht) as (r' & Hr' & Hx'). rewrite Hid in Hx'.
    apply elem_of_cons in Hr' as [->|Hr']; [congruence|]. apply list_elem_of_split in Hr' as (l1 & l2 & ->).
    destruct (po_open0 (r :: l1) r' l2 x) as (_ & _ & H3); [done..|]. apply (H3 r); [by left|done].
  - apply po_data0. by left.
Qed.

Lemma in_pipe_cons x pri r l : in_pipe x pri (r :: l) = req_packet x pri r ++ in_pipe x pri l.
Proof. done. Qed.

Lemma in_pipe_app x pri l1 l2 : in_pipe x pri (l1 ++ l2) = in_pipe x pri l1 ++ in_pipe x pri l2.
Proof. apply concat_fmap_app. Qed.

(** A request about an open socket, other than a send. *)
Lemma core_slot i st st' r pp wt :
  core st (r :: pp) wt → opening r = None → is_send r = None → 0 <= i < MAX_SOCKET →
  slot_rel stream_op i (req_held r) st st' → @sock_ok mem (sock st' i) → Forall wb_fresh (low (sock st' i)) →
  core st' pp wt.
Proof.
  intros [] Ho Hs Hi Hr Hok Hf. destruct (pipe_pop _ _ _ _ core_pipe0 Ho) as (Hpp & _ & _).
  pose proof (rel_coarse _ _ _ _ _ Hr) as Hc. split.
  - by eapply slots_rel.
  - by eapply pipe_coarse.
  - eapply cnt_coarse; [done|by eapply rel_sending|]. intros j Hj. specialize (core_cnt0 j Hj).
    rewrite <- app_comm_cons, sends_cons in core_cnt0. rewrite decide_False in core_cnt0 by (by rewrite Hs). done.
  - eapply own_rel; [done..|]. done.
  - eapply stream_slot_op; [done..|]. intros x pri. rewrite in_pipe_cons. by apply sublist_inserts_l.
Qed.

(** An event of a socket. *)
Lemma core_event i st st' pp wt :
  core st pp wt → 0 <= i < MAX_SOCKET → slot_rel stream_op i [] st st' → @sock_ok mem (sock st' i) →
  Forall wb_fresh (low (sock st' i)) → core st' pp wt.
Proof.
  intros [] Hi Hr Hok Hf. pose proof (rel_coarse _ _ _ _ _ Hr) as Hc. split.
  - by eapply slots_rel.
  - by eapply pipe_coarse.
  - eapply cnt_coarse; [done|by eapply rel_sending|done].
  - eapply own_rel; [done..|]. done.
  - by eapply stream_slot_op.
Qed.
(** Only the counter of a socket changes. *)
Definition sending_st (st : sys) (i v : Z) : sys := upd st i (set_sending v (sock st i)).

Lemma sending_sock st i v j : ∃ v', sock (sending_st st i v) j = set_sending v' (sock st j).
Proof.
  unfold sending_st. rewrite sock_upd. case_decide as E; [subst; eauto|]. exists (sending (sock st j)). by destruct (sock st j).
Qed.

Lemma sending_core st i v pp wt l :
  slots_ok st → pipe_ok st pp wt → own_ok st l → stream_ok st pp →
  let st' := sending_st st i v in slots_ok st' ∧ pipe_ok st' pp wt ∧ own_ok st' l ∧ stream_ok st' pp.
Proof.
  intros Hs Hp Ho Hst st'. assert (Hsock : ∀ j, ∃ v', sock st' j = set_sending v' (sock st j)) by apply sending_sock.
  assert (Hc : coarse st st') by (split; try done; intros j; destruct (Hsock j) as [v' ->]; done).
  split_and!.
  - destruct Hs. split; try done.
    + intros j. destruct (Hsock j) as [v' ->], (so_sock0 j) as [[] Hf]. by split.
    + intros j. destruct (Hsock j) as [v' ->]. apply so_id0.
    + intros j. destruct (Hsock j) as [v' ->]. apply so_reserve0.
    + intros f j w Hf. destruct (Hsock j) as [v' ->]. by apply (so_epoll0 f j w).
  - by eapply pipe_coarse.
  - unfold own_ok in *. change (log st') with (log st). rewrite Ho, (held_all_ext st st'); [done|]. intros j.
    by destruct (Hsock j) as [v' ->].
  - destruct Hst. split.
    + intros x Hx. destruct (st_inv0 x Hx) as [out []]. exists out. destruct (Hsock (HASH_ID x)) as [v' E].
      split; try done; by rewrite E.
    + intros x pri Hx Hne. destruct (st_posts0 x pri Hx Hne). split; [done|]. by eapply coarse_not_reserved.
Qed.

Lemma sending_bits t c : 0 <= t < 2 ^ 16 → 0 <= c < 2 ^ 16 →
  Z.land (t * 2 ^ 16 + c) 65535 = c ∧ Z.shiftr (t * 2 ^ 16 + c) 16 = t.
Proof.
  intros Ht Hc. split.
  - change 65535 with (2 ^ 16 - 1). rewrite land_ones_mod by lia. rewrite Z.add_comm, Z_mod_plus_full. apply Z.mod_small. lia.
  - rewrite Z.shiftr_div_pow2 by lia. rewrite Z.add_comm, Z.div_add by lia. rewrite Z.div_small; lia.
Qed.

(** A request to send, with the counting. *)
Lemma core_send pri rid sz b pp wt st :
  core st (ReqSend pri rid sz b :: pp) wt →
  wp (ret ← send_socket os mem rid sz b pri None; dec_sending_ref rid;; mret ret)
    (λ r st', core st' pp wt ∧ pipe st' = pipe st ∧ ev (ss st') = ev (ss st) ∧ event_index (ss st') = event_index (ss st) ∧
       (∀ j, type (sock st' j) = type (sock st j)) ∧ checkctrl (ss st') = checkctrl (ss st) ∧
       alloc_id (ss st') = alloc_id (ss st)) st.
Proof.
  intros [Hso Hpo Hcnt Hown Hst]. set (r := ReqSend pri rid sz b) in *. set (i := HASH_ID rid).
  destruct (pipe_pop _ _ _ _ Hpo) as (Hpp & Hnr & Hdata); [done|]. destruct (so_sock _ Hso i) as [Hok Hf].
  apply wp_bind. eapply wp_mono; [apply (send_socket_spec (mem:=mem)); [done|done|by apply Hnr|done|done]|].
  fold i. intros ret st1 (Hor & Hok1 & Hf1 & Ht1 & Hr1 & Hr2).
  assert (∃ R, slot_rel R i [b] st st1) as [R Hrel] by (destruct Hor as [?|[? _]]; eauto).
  assert (Hst1 : stream_ok st1 pp).
  { destruct Hor as [Hop|(Hop & Hid & Hl)].
    - eapply stream_slot_op; [done..|]. intros x p'. rewrite in_pipe_cons. by apply sublist_inserts_l.
    - by eapply stream_accept. }
  pose proof (rel_coarse _ _ _ _ _ Hrel) as Hco.
  assert (Hcnt1 : cnt_ok st1 ((r :: pp) ++ wt)) by (eapply cnt_coarse; [done|by eapply rel_sending|done]).
  assert (Hso1 : slots_ok st1) by (by eapply slots_rel).
  assert (Hpo1 : pipe_ok st1 pp wt) by (by eapply pipe_coarse).
  assert (Hown1 : own_ok st1 (pp ++ wt)).
  { eapply own_rel; [apply HASH_ID_range|done..|]. done. }
  assert (Htypes : ∀ j, type (sock st1 j) = type (sock st j)).
  { intros j. destruct (decide (j = i)) as [->|Hj]; [done|]. by rewrite (op_others _ _ _ _ _ Hrel). }
  unfold dec_sending_ref. fold i. wp_steps. wp_if E.
  - bool_to_prop. destruct (Hcnt1 i) as [Hse Hlt]; [done|]. rewrite H in Hse, Hlt. simpl in Hse, Hlt.
    rewrite sends_cons, decide_True in Hse, Hlt by done. pose proof (cnt_nonneg rid (pp ++ wt)) as Hnn.
    pose proof (ID_TAG16_range rid) as Htag. destruct (sending_bits (ID_TAG16 rid) (1 + cnt rid (pp ++ wt))) as [Hb _]; [lia..|].
    apply wp_bind, wp_assert; [rewrite Hse, Hb; apply negb_true_iff, Z.eqb_neq; lia|]. wp_steps.
    destruct (sending_core st1 i (u32 (sending (sock st1 i) - 1)) pp wt (pp ++ wt) Hso1 Hpo1 Hown1 Hst1) as (S1 & S2 & S3 & S4).
    fold (sending_st st1 i (u32 (sending (sock st1 i) - 1))). set (st2 := sending_st _ _ _) in *.
    split_and!; try done; try apply Hrel.
    + split; try done. intros j Hj. unfold st2, sending_st in *. destruct (decide (j = i)) as [->|Hne].
      * ssimpl. rewrite H, Hse, u32_small by lia. lia.
      * rewrite sock_upd_ne in * by done. destruct (Hcnt1 j Hj) as [Ha Hb'].
        assert (Hx : is_send r ≠ Some (id (sock st1 j))).
        { intros [= Hx]. destruct (so_id _ Hso1 j) as [(_ & _ & E2)|(E1 & _)]; [by rewrite E2 in Hj|].
          apply Hne. by rewrite <- E1, <- Hx. }
        rewrite <- app_comm_cons, cnt_other in Ha, Hb' by done. done.
    + intros j. destruct (sending_sock st1 i (u32 (sending (sock st1 i) - 1)) j) as [v' E']. unfold st2. rewrite E'. simpl. apply Htypes.
  - wp_steps. split_and!; try done; try apply Hrel.
    split; try done. intros j Hj. destruct (Hcnt1 j Hj) as [Ha Hb'].
    assert (Hx : is_send r ≠ Some (id (sock st1 j))).
    { intros [= Hx]. destruct (so_id _ Hso1 j) as [(E1 & _ & E2)|(E1 & _)]; [by rewrite E2 in Hj|].
      assert (j = i) as -> by (by rewrite <- E1, <- Hx). apply andb_false_iff in E as [E|E]; bool_to_prop; congruence. }
    rewrite <- app_comm_cons, cnt_other in Ha, Hb' by done. done.
Qed.
Lemma closes_marks evs : Forall is_close evs →
  takes evs = [] ∧ frees evs = [] ∧ (∀ y pri, posts y pri evs = []) ∧ (∀ y, writes y evs = []).
Proof.
  induction 1 as [|e evs He _ (IH1 & IH2 & IH3 & IH4)]; [done|]. by destruct e.
Qed.

Lemma cnt_zero x l : (∀ r, r ∈ l → is_send r ≠ Some x) → cnt x l = 0.
Proof.
  induction l as [|r l IH]; intros H; [done|]. rewrite cnt_other by (apply H; by left). apply IH.
  intros r' Hr'. apply H. by right.
Qed.

(** A slot holds no packet before it is opened. *)
Lemma stream_fresh x out st l :
  stream_inv x st l out → (∀ pri, posts x pri (log st) = []) → out = [].
Proof.
  intros [] Hnp. rewrite Hnp in si_high0, si_low0. apply sublist_nil_r in si_high0, si_low0.
  apply app_nil in si_high0 as [Hh _], si_low0 as [Hl _]. destruct out as [|[pr d] out]; [done|].
  unfold packets in Hh, Hl. rewrite filter_cons in Hh, Hl. by destruct pr.
Qed.

(** A reserved slot is opened; [r] is the request it was reserved for. *)
Section open.
Context (rid : Z) (st st' : sys) (r : request) (pp wt : list request).
Hypothesis Hso : slots_ok st.
Hypothesis Hpo : pipe_ok st (r :: pp) wt.
Hypothesis Ho : opening r = Some rid.
Hypothesis Hrid : req_id r = Some rid.
Hypothesis Hopen : @opened mem rid st st'.

Lemma open_was : type (sock st (HASH_ID rid)) = SOCKET_TYPE_RESERVE ∧ id (sock st (HASH_ID rid)) = rid.
Proof. destruct (po_open _ _ _ Hpo [] r pp rid) as (Hres & Hid0 & _); [done..|]. done. Qed.

Lemma open_not_reserve : type (sock st' (HASH_ID rid)) ≠ SOCKET_TYPE_RESERVE.
Proof. destruct Hopen as (_ & _ & _ & _ & _ & _ & _ & [[-> _]|[[_ ?] _]]); done. Qed.

Lemma open_others j : j ≠ HASH_ID rid → sock st' j = sock st j.
Proof. intros Hj. destruct Hopen as ([] & _). auto. Qed.

Lemma open_ids j : id (sock st' j) = id (sock st j).
Proof.
  destruct (decide (j = HASH_ID rid)) as [->|Hj]; [|by rewrite open_others].
  destruct open_was as [_ ->]. by destruct Hopen as (_ & _ & _ & _ & _ & _ & -> & _).
Qed.

Lemma open_alloc : alloc_id (ss st') = alloc_id (ss st).
Proof. destruct Hopen as ([] & _). done. Qed.

Lemma open_not_reserved x : not_reserved st x → not_reserved st' x.
Proof.
  intros Hx. unfold not_reserved in *. rewrite open_ids.
  destruct (decide (HASH_ID x = HASH_ID rid)) as [->|Hj]; [intros _; apply open_not_reserve|by rewrite open_others].
Qed.

Lemma open_slots : slots_ok st'.
Proof.
  destruct Hopen as ([] & Hep & Hok & _ & Hlo & _). destruct open_was as [Hres _]. pose proof Hso as [].
  split; try congruence; [| | |auto].
  - intros j. destruct (decide (j = HASH_ID rid)) as [->|Hj]; [rewrite Hlo; by split|by rewrite open_others].
  - intros j. rewrite open_ids, open_alloc. destruct (decide (j = HASH_ID rid)) as [->|Hj]; [|rewrite open_others by done; auto].
    destruct (so_id0 (HASH_ID rid)) as [(_ & E & _)|?]; [congruence|auto].
  - intros j. destruct (decide (j = HASH_ID rid)) as [->|Hj]; [intros E; by apply open_not_reserve in E|rewrite open_others by done; auto].
Qed.

Lemma open_pipe : pipe_ok st' pp wt.
Proof.
  pose proof Hpo as []. destruct open_was as [Hres Hid0]. split.
  - intros r' x Hr'. rewrite open_alloc. apply po_id0. rewrite <- app_comm_cons. by right.
  - intros l1 r' l2 x -> Hx. destruct (po_open0 (r :: l1) r' l2 x) as (H1 & H2 & H3); [done..|].
    assert (HASH_ID x ≠ HASH_ID rid) as Hne.
    { intros E. rewrite E in H2. apply (H3 r); [by left|]. rewrite Hrid. congruence. }
    rewrite open_others by done. split_and!; try done. intros r2 Hr2. apply H3. by right.
  - intros j Hj. assert (j ≠ HASH_ID rid) as Hne by (intros ->; by apply open_not_reserve). rewrite open_others in * by done.
    destruct (po_reserve0 j Hj) as (r' & Hr' & Hx). exists r'. split; [|done]. apply elem_of_cons in Hr' as [->|Hr']; [|done].
    exfalso. apply Hne. rewrite Ho in Hx. injection Hx as Hx.
    destruct (so_id _ Hso j) as [(_ & E & _)|(E & _)]; [congruence|]. by rewrite <- E, <- Hx.
  - intros r' x Hr' Hx. apply open_not_reserved. apply (po_send0 r'); [rewrite <- app_comm_cons; by right|done].
  - intros r' Hr'. assert (Hd : req_data st r') by (apply po_data0; rewrite <- app_comm_cons; by right).
    destruct r'; simpl in *; try done. destruct Hd as (Hd1 & Hda & Hd2 & Hd3).
    split_and!; [done|done|by apply open_not_reserved|]. rewrite open_ids. intros Hx.
    rewrite open_others; [auto|]. intros E. unfold not_reserved in Hd2. rewrite E in Hd2, Hx. by apply Hd2.
  - done.
Qed.

Lemma open_cnt : is_send r = None → cnt_ok st ((r :: pp) ++ wt) → cnt_ok st' (pp ++ wt).
Proof.
  intros Hs Hcnt j Hj. rewrite open_ids. destruct open_was as [Hres Hid0]. destruct (decide (j = HASH_ID rid)) as [->|Hne].
  - destruct Hopen as (_ & _ & _ & _ & _ & _ & _ & Hty). pose proof (so_reserve _ Hso _ Hres) as Hunk. rewrite Hid0, cnt_zero.
    + destruct Hty as [[_ E]|[_ E]]; [by rewrite E, Hunk in Hj|]. rewrite E. split; lia.
    + intros r' Hr' E. apply (po_send _ _ _ Hpo r' rid); [rewrite <- app_comm_cons; by right|done|done|done].
  - rewrite open_others in * by done. destruct (Hcnt j Hj) as [Ha Hb].
    rewrite <- app_comm_cons, cnt_other in Ha, Hb by (by rewrite Hs). done.
Qed.

Lemma open_own : req_held r = [] → own_ok st ((r :: pp) ++ wt) → own_ok st' (pp ++ wt).
Proof.
  intros Hh Hown. destruct Hopen as ([? ? ? ? ? ? ? ? (evs & Hlog & Hcl) ?] & _ & _ & Hhi & Hlo & Hdw & _). destruct open_was as [Hres _].
  destruct (closes_marks _ Hcl) as (Htk & Hfr & _). destruct (so_sock _ Hso (HASH_ID rid)) as [Hok0 _].
  destruct (ok_empty _ Hok0 (or_intror Hres)) as (Hhi0 & Hlo0 & Hdw0).
  unfold own_ok in *. rewrite Hlog, takes_app, frees_app, Htk, Hfr, !app_nil_r, Hown. rewrite <- app_comm_cons, fmap_cons. simpl. rewrite Hh.
  destruct (held_all_split (HASH_ID rid) st (HASH_ID_range rid)) as [rest Hrest].
  rewrite (Hrest st), (Hrest st') by (done || apply open_others).
  unfold held. by rewrite Hhi, Hlo, Hdw, Hhi0, Hlo0, Hdw0.
Qed.

Lemma open_stream : (∀ x pri, req_packet x pri r = []) → stream_ok st (r :: pp) → stream_ok st' pp.
Proof.
  intros Hpk Hst. destruct Hopen as ([? ? ? ? ? ? ? ? (evs & Hlog & Hcl) ?] & _ & _ & Hhi & Hlo & Hdw & Hid & _).
  destruct open_was as [Hres Hid0]. destruct (closes_marks _ Hcl) as (_ & _ & Hposts & Hwr).
  assert (Hp' : ∀ x pri, posts x pri (log st') = posts x pri (log st)) by (intros; by rewrite Hlog, posts_app, Hposts, app_nil_r).
  split; [|intros x pri Hx; rewrite Hp', open_alloc; intros Hne; destruct (st_posts _ _ Hst x pri Hx Hne);
           split; [done|by apply open_not_reserved]].
  intros x Hx. destruct (st_inv _ _ Hst x Hx) as [out Hout].
  assert (Hw' : writes x (log st') = writes x (log st)) by (by rewrite Hlog, writes_app, Hwr, app_nil_r).
  assert (Hl' : ∀ pri, in_pipe x pri pp `sublist_of` in_pipe x pri (r :: pp)) by (intros; by rewrite in_pipe_cons, Hpk).
  destruct (decide (HASH_ID x = HASH_ID rid)) as [Hi|Hi];
    [|exists out; eapply stream_inv_other; [done..|]; left; by apply open_others].
  destruct (decide (x = rid)) as [->|Hne];
    [|exists out; eapply stream_inv_other; [done..|]; right; intros [E _]; rewrite Hi, Hid in E; congruence].
  exists []. assert (Hnp : ∀ pri, posts rid pri (log st) = []).
  { intros pri. destruct (posts rid pri (log st)) eqn:E; [done|]. exfalso.
    destruct (st_posts _ _ Hst rid pri Hx) as [_ Hn]; [by rewrite E|]. by apply Hn. }
  rewrite (stream_fresh _ _ _ _ Hout Hnp) in Hout. destruct Hout. simpl in *.
  split; rewrite ?Hw', ?Hp'; simpl.
  - done.
  - intros _ _ _. unfold pend, dwd. rewrite Hhi, Hdw. apply prefix_nil_inv in si_prefix0. by rewrite si_prefix0.
  - etrans; [apply Hl'|]. by etrans; [|exact si_high0].
  - unfold lowd. rewrite Hlo. etrans; [|exact si_low0]. apply sublist_app; [|apply Hl'].
    match goal with |- (if ?b then _ else _) `sublist_of` _ => destruct b end; apply sublist_nil_l.
Qed.

Lemma open_ev : ev_ok st → ev_ok st'.
Proof.
  intros []. destruct Hopen as ([] & _). destruct open_was as [Hres _].
  split; unfold pending_events in *; rewrite ?cl_ev, ?cl_index; try done. intros e j He Hj.
  specialize (ev_live0 e j He Hj). rewrite open_others; [done|]. intros ->. destruct ev_live0. congruence.
Qed.

End open.

Lemma core_open rid st st' r pp wt :
  core st (r :: pp) wt → opening r = Some rid → is_send r = None → req_held r = [] → (∀ x pri, req_packet x pri r = []) →
  req_id r = Some rid → @opened mem rid st st' → core st' pp wt ∧ (ev_ok st → ev_ok st').
Proof.
  intros [] Ho Hs Hh Hpk Hrid Hopen. split; [split|].
  - by eapply open_slots.
  - by eapply open_pipe.
  - by eapply open_cnt.
  - by eapply open_own.
  - by eapply open_stream.
  - by eapply open_ev.
Qed.

(** ** Reserving *)

(** The state has not changed apart from descriptors closed. *)
Record only_closed (st st' : sys) : Prop := {
  oc_pipe : pipe st' = pipe st;
  oc_ss : ss st' = ss st;
  oc_log : ∃ evs, log st' = log st ++ evs ∧ Forall is_close evs;
  oc_epoll f v : epoll st' !! f = Some v → epoll st !! f = Some v }.

Lemma only_closed_refl st st' : same_but_result st st' → only_closed st st'.
Proof. intros (Hs & Hp & He & Hl). split; rewrite ?Hs, ?Hp, ?He; try done. exists []. by rewrite Hl, app_nil_r. Qed.

Lemma only_closed_trans st st1 st2 : only_closed st st1 → only_closed st1 st2 → only_closed st st2.
Proof.
  intros [] []. split; try congruence; [|auto]. destruct oc_log0 as (e1 & L1 & F1), oc_log1 as (e2 & L2 & F2).
  exists (e1 ++ e2). split; [by rewrite L2, L1, app_assoc|by apply Forall_app].
Qed.

(** Changes that keep the slots and leave no mark in the log. *)
Lemma core_same_slots st st' pp wt :
  core st pp wt → (∀ j, sock st' j = sock st j) → soi (ss st') = soi (ss st) → alloc_id (ss st) <= alloc_id (ss st') →
  (∃ evs, log st' = log st ++ evs ∧ Forall is_close evs) → (epoll_ok st → epoll_ok st') → core st' pp wt.
Proof.
  intros [Hso Hpo Hcnt Hown Hst] Hs Hsoi Hal (evs & Hlog & Hcl) Hep. destruct (closes_marks _ Hcl) as (Htk & Hfr & Hposts & Hwr).
  assert (Hnr : ∀ x, not_reserved st x → not_reserved st' x) by (intros x; unfold not_reserved; by rewrite Hs). split.
  - destruct Hso. split; [congruence|lia| | | |auto]; intros i; rewrite Hs; auto.
    destruct (so_id0 i) as [?|(? & ?)]; [auto|right; split; [done|lia]].
  - destruct Hpo. split; [|intros l1 r l2 x; rewrite Hs; apply po_open0|intros i; rewrite Hs; apply po_reserve0|eauto| |done].
    + intros r x Hr Hx. etrans; eauto.
    + intros r Hr. specialize (po_data0 r Hr). destruct r; simpl in *; try done. rewrite Hs. naive_solver.
  - intros i. rewrite Hs. apply Hcnt.
  - unfold own_ok in *. rewrite Hlog, takes_app, frees_app, Htk, Hfr, !app_nil_r, Hown.
    rewrite (held_all_ext st st'); [done|]. intros j. by rewrite Hs.
  - split.
    + intros x Hx. destruct (st_inv _ _ Hst x Hx) as [out Hout]. exists out.
      eapply stream_inv_other; [done|by rewrite Hlog, writes_app, Hwr, app_nil_r|
        intros; by rewrite Hlog, posts_app, Hposts, app_nil_r|done|left; apply Hs].
    + intros x pri Hx. rewrite Hlog, posts_app, Hposts, app_nil_r. intros Hne. destruct (st_posts _ _ Hst x pri Hx Hne).
      split; [lia|auto].
Qed.

Lemma core_closed st st' pp wt : core st pp wt → only_closed st st' → core st' pp wt.
Proof.
  intros Hc []. assert (Hs : ∀ j, sock st' j = sock st j) by (intros; unfold sock; by rewrite oc_ss0).
  apply (core_same_slots st); rewrite ?oc_ss0; try done. intros Hep f i w Hf. rewrite Hs. by apply (Hep f i w), oc_epoll0.
Qed.

Lemma core_set_alloc st a pp wt : core st pp wt → alloc_id (ss st) <= a → core (set_alloc st a) pp wt.
Proof. intros Hc Ha. apply (core_same_slots st); try done. exists []. by rewrite app_nil_r. Qed.

Lemma insert_split {A} (l1 l2 k1 k2 : list A) r r' : l1 ++ r :: l2 = k1 ++ r' :: k2 →
  (k1 = l1 ∧ r' = r ∧ k2 = l2) ∨ (∃ m, l1 = k1 ++ r' :: m ∧ k2 = m ++ r :: l2) ∨ (∃ m, k1 = l1 ++ r :: m ∧ l2 = m ++ r' :: k2).
Proof.
  intros H. apply app_eq_app in H as ([|y m] & [[-> E]|[-> E]]).
  - left. rewrite app_nil_r. simpl in E. by injection E as -> ->.
  - left. rewrite app_nil_r. simpl in E. by injection E as -> ->.
  - right. left. injection E as -> ->. eauto.
  - right. right. injection E as -> ->. eauto.
Qed.

(** A slot is reserved for [nid] and the request [r] to open it is queued. *)
Definition reserve_st (st : sys) (nid : Z) : sys :=
  upd (set_alloc st nid) (HASH_ID nid) (reserved_sock (sock st (HASH_ID nid)) nid).

Section reserve.
Context (st : sys) (nid : Z) (r : request) (l1 l2 wt : list request).
Hypothesis Hso : slots_ok st.
Hypothesis Hpo : pipe_ok st (l1 ++ l2) wt.
Hypothesis Hal : alloc_id (ss st) < nid.
Hypothesis Hinv : type (sock st (HASH_ID nid)) = SOCKET_TYPE_INVALID.
Hypothesis Ho : opening r = Some nid.
Hypothesis Hid : req_id r = Some nid.
Hypothesis Hs : is_send r = None.
Local Abbreviation st' := (reserve_st st nid).

Lemma reserve_at : sock st' (HASH_ID nid) = reserved_sock (sock st (HASH_ID nid)) nid.
Proof using. apply sock_upd_eq. Qed.

Lemma reserve_others j : j ≠ HASH_ID nid → sock st' j = sock st j.
Proof using. intros. unfold reserve_st. by rewrite sock_upd_ne. Qed.

Lemma reserve_was_empty : high (sock st (HASH_ID nid)) = [] ∧ low (sock st (HASH_ID nid)) = [] ∧ dw_buffer (sock st (HASH_ID nid)) = None.
Proof using Hso Hinv. destruct (so_sock _ Hso (HASH_ID nid)) as [Hok _]. exact (ok_empty _ Hok (or_introl Hinv)). Qed.

(** The ids given before are no longer in the slot. *)
Lemma reserve_old x : x <= alloc_id (ss st) → HASH_ID x = HASH_ID nid → id (sock st' (HASH_ID x)) ≠ x.
Proof using Hal. intros Hx E. rewrite E, reserve_at. simpl. lia. Qed.

Lemma reserve_not_reserved x : x <= alloc_id (ss st) → not_reserved st x → not_reserved st' x.
Proof using Hal.
  intros Hx Hn. unfold not_reserved in *. destruct (decide (HASH_ID x = HASH_ID nid)) as [E|E]; [|by rewrite reserve_others].
  intros E'. by apply reserve_old in E.
Qed.

Lemma reserve_keep y : type (sock st (HASH_ID y)) = SOCKET_TYPE_RESERVE → id (sock st (HASH_ID y)) = y →
  type (sock st' (HASH_ID y)) = SOCKET_TYPE_RESERVE ∧ id (sock st' (HASH_ID y)) = y ∧ y ≠ nid.
Proof using Hinv.
  intros H1 H2. assert (HASH_ID y ≠ HASH_ID nid) by congruence. rewrite reserve_others by done. split_and!; [done..|]. congruence.
Qed.

Lemma reserve_in r' : r' ∈ (l1 ++ r :: l2) ++ wt → r' = r ∨ r' ∈ (l1 ++ l2) ++ wt.
Proof using. rewrite !elem_of_app, elem_of_cons. tauto. Qed.

Lemma reserve_slots : slots_ok st'.
Proof using Hso Hal Hinv.
  destruct reserve_was_empty as (Hhi & Hlo & Hdw). pose proof Hso as []. split; try done.
  - change (0 <= nid). lia.
  - intros j. destruct (decide (j = HASH_ID nid)) as [->|Hj]; [|by rewrite reserve_others]. rewrite reserve_at. simpl.
    destruct (so_sock0 (HASH_ID nid)) as [[] Hf]. split; [|done].
    split; simpl; rewrite ?Hhi, ?Hlo, ?Hdw; try done; intros []; done.
  - intros j. change (alloc_id (ss st')) with nid. destruct (decide (j = HASH_ID nid)) as [->|Hj].
    + right. rewrite reserve_at. simpl. split; [done|lia].
    + rewrite reserve_others by done. destruct (so_id0 j) as [?|(? & ?)]; [auto|right; split; [done|lia]].
  - intros j. destruct (decide (j = HASH_ID nid)) as [->|Hj]; [by rewrite reserve_at|rewrite reserve_others by done; auto].
  - intros f j w Hfj. destruct (so_epoll0 f j w Hfj) as [Hfd Hlive].
    assert (j ≠ HASH_ID nid) as Hj by (intros ->; by destruct Hlive). by rewrite reserve_others.
Qed.

(** Every request that opens a slot finds it reserved. *)
Lemma reserve_opening k1 r' k2 x : l1 ++ r :: l2 = k1 ++ r' :: k2 → opening r' = Some x →
  type (sock st' (HASH_ID x)) = SOCKET_TYPE_RESERVE ∧ id (sock st' (HASH_ID x)) = x ∧ ∀ r2, r2 ∈ k1 → req_id r2 ≠ Some x.
Proof using Hpo Hal Hinv Ho Hid.
  intros Hk Hx. pose proof Hpo as [].
  destruct (insert_split _ _ _ _ _ _ Hk) as [(-> & -> & ->)|[(m & -> & ->)|(m & -> & ->)]].
  - rewrite Ho in Hx. injection Hx as <-. rewrite reserve_at. split_and!; [done..|]. intros r0 Hr0 E.
    assert (nid <= alloc_id (ss st)) by (eapply po_id0; [|done]; rewrite !elem_of_app; tauto). lia.
  - destruct (po_open0 k1 r' (m ++ l2) x) as (H1 & H2 & H3); [by rewrite <- app_assoc|done|].
    by destruct (reserve_keep x) as (? & ? & ?).
  - destruct (po_open0 (l1 ++ m) r' k2 x) as (H1 & H2 & H3); [by rewrite <- app_assoc|done|].
    destruct (reserve_keep x) as (? & ? & ?); [done..|]. split_and!; [done..|]. intros r0 Hr0.
    apply elem_of_app in Hr0 as [Hr0|[->|Hr0]%elem_of_cons]; [apply H3; rewrite elem_of_app; tauto|congruence|apply H3; rewrite elem_of_app; tauto].
Qed.

Lemma reserve_pipe : (∀ st', req_data st' r) → pipe_ok st' (l1 ++ r :: l2) wt.
Proof using Hpo Hal Hinv Ho Hid Hs.
  intros Hrd. pose proof Hpo as []. split.
  - intros r' x Hr' Hx. change (alloc_id (ss st')) with nid.
    apply reserve_in in Hr' as [->|Hr']; [|specialize (po_id0 r' x Hr' Hx); lia]. rewrite Hid in Hx. injection Hx as ->. lia.
  - apply reserve_opening.
  - intros j Hj. destruct (decide (j = HASH_ID nid)) as [->|Hne].
    + exists r. rewrite reserve_at. split; [rewrite elem_of_app, elem_of_cons; tauto|done].
    + rewrite reserve_others in * by done. destruct (po_reserve0 j Hj) as (r' & Hr' & Hx). exists r'. split; [|done].
      rewrite elem_of_app, elem_of_cons. rewrite elem_of_app in Hr'. tauto.
  - intros r' x Hr' Hx. apply reserve_in in Hr' as [->|Hr']; [congruence|]. apply reserve_not_reserved; [|by eapply po_send0].
    apply (po_id0 r'); [done|]. by destruct r'.
  - intros r' Hr'. apply reserve_in in Hr' as [->|Hr']; [done|]. specialize (po_data0 r' Hr').
    pose proof (po_id0 r') as Hle. destruct r'; simpl in *; try done. destruct po_data0 as (D1 & Da & D2 & D3).
    specialize (Hle rid Hr' eq_refl). split_and!; [done|done|by apply reserve_not_reserved|].
    destruct (decide (HASH_ID rid = HASH_ID nid)) as [E|E]; [|by rewrite reserve_others]. intros E'. by apply reserve_old in E.
  - done.
Qed.

Lemma reserve_cnt : cnt_ok st ((l1 ++ l2) ++ wt) → cnt_ok st' ((l1 ++ r :: l2) ++ wt).
Proof using Hs.
  intros Hcnt j Hj. destruct (decide (j = HASH_ID nid)) as [->|Hne]; [by rewrite reserve_at in Hj|].
  rewrite reserve_others in * by done. destruct (Hcnt j Hj) as [Ha Hb].
  rewrite <- !app_assoc, <- app_comm_cons, cnt_insert by (by rewrite Hs). by rewrite app_assoc.
Qed.

Lemma reserve_own : req_held r = [] → own_ok st ((l1 ++ l2) ++ wt) → own_ok st' ((l1 ++ r :: l2) ++ wt).
Proof using Hso Hinv.
  intros Hh Hown. destruct reserve_was_empty as (Hhi & Hlo & Hdw). unfold own_ok in *. change (log st') with (log st).
  rewrite Hown, <- !app_assoc, <- app_comm_cons, !fmap_app, fmap_cons, !concat_app. simpl. rewrite Hh.
  destruct (held_all_split (HASH_ID nid) st (HASH_ID_range nid)) as [rest Hrest].
  rewrite (Hrest st), (Hrest st') by (done || apply reserve_others).
  rewrite reserve_at, fmap_app, concat_app. unfold held. simpl. by rewrite Hhi, Hlo, Hdw.
Qed.

Lemma reserve_stream : (∀ x pri, req_packet x pri r = []) → stream_ok st (l1 ++ l2) → stream_ok st' (l1 ++ r :: l2).
Proof using Hal.
  intros Hpk Hst. split.
  - intros x Hx. destruct (st_inv _ _ Hst x Hx) as [out Hout]. exists out. eapply stream_inv_other; [done..| |].
    + intros pri. unfold in_pipe. rewrite !fmap_app, !concat_app, fmap_cons. simpl. by rewrite Hpk.
    + destruct (decide (HASH_ID x = HASH_ID nid)) as [E|E]; [right|left; by apply reserve_others].
      intros [_ Hp]. by rewrite E, reserve_at in Hp.
  - intros x pri Hx Hne. destruct (st_posts _ _ Hst x pri Hx Hne). change (alloc_id (ss st')) with nid.
    split; [lia|by apply reserve_not_reserved].
Qed.

End reserve.

Lemma core_reserve st nid r l1 l2 wt :
  core st (l1 ++ l2) wt → alloc_id (ss st) < nid → type (sock st (HASH_ID nid)) = SOCKET_TYPE_INVALID →
  opening r = Some nid → req_id r = Some nid → is_send r = None → req_held r = [] → (∀ x pri, req_packet x pri r = []) →
  (∀ st', req_data st' r) → core (reserve_st st nid) (l1 ++ r :: l2) wt.
Proof.
  intros [] Hal Hinv Ho Hid Hs Hh Hpk Hrd. split.
  - by apply reserve_slots.
  - by apply reserve_pipe.
  - by apply reserve_cnt.
  - by apply reserve_own.
  - by apply reserve_stream.
Qed.
End Runs.
