(* ===== verification/SocketRuns.v ===== *)
(** * What holds in every run of the socket server

    The invariant of [SocketInv] is kept by every action: the calls of the
    other threads first, then the rounds of [socket_server_poll].  From it
    follow the theorems about runs: no assertion of the server fails, every
    socket sends whole packets in the order in which they were handed over,
    and every buffer is freed once. *)

From Stdlib Require Import ZArith Lia.
From stdpp Require Import base tactics option numbers gmap list strings sorting.
From S2P Require Import Prelude SocketServer SocketProof SocketEvents SocketInv.

Local Open Scope Z_scope.

Section Runs.
Context {os : OS} `{!OSLaws os} {mem : positive → list Z}.

Local Notation core := (core mem).
Local Notation inv := (inv mem).
Local Notation slots_ok := (slots_ok mem).
Local Notation pipe_ok := (pipe_ok mem).
Local Notation stream_ok := (stream_ok mem).
Local Notation stream_inv := (stream_inv mem).
Local Notation stream_op := (@stream_op mem).
Local Notation slot_op := (slot_rel stream_op).
Local Notation in_pipe := (in_pipe mem).
Local Notation object := (@object mem).
Local Notation buffer_ok := (buffer_ok mem).
Local Notation req_data := (req_data mem).

(** ** Requests that are queued *)

(** A request that opens nothing joins those of the pipe ([pp]) or those that
    wait ([wt]). *)
Definition may_join (st : sys) (r : request) : Prop :=
  opening r = None ∧ (∀ x, req_id r = Some x → x <= alloc_id (ss st)) ∧
  (∀ x, is_send r = Some x → not_reserved st x) ∧ req_data st r.

Lemma pipe_join st pp wt r pp' wt' :
  pipe_ok st pp wt → may_join st r → (∀ r', r' ∈ pp' ++ wt' → r' = r ∨ r' ∈ pp ++ wt) →
  (pp' = pp ∨ pp' = pp ++ [r]) → (∀ r', r' ∈ wt' → r' = r ∨ r' ∈ wt) → pipe_ok st pp' wt'.
Proof.
  intros [] (Ho & Hid & Hs & Hd) Hin Hpp Hwt. split.
  - intros r' x [->|H]%Hin; eauto.
  - intros l1 r' l2 x E Hx. destruct Hpp as [->| ->]; [by eapply po_open|].
    symmetry in E. destruct (insert_split _ _ _ _ _ _ E) as [(_ & E2 & _)|[(m & _ & E2)|(m & -> & ->)]].
    + congruence.
    + by destruct m.
    + by eapply po_open.
  - intros i Hi. destruct (po_reserve i Hi) as (r' & Hr' & Hx). exists r'. split; [|done].
    destruct Hpp as [->| ->]; [done|]. apply elem_of_app. by left.
  - intros r' x [->|H]%Hin; eauto.
  - intros r' [->|H]%Hin; eauto.
  - intros r' [->|H]%Hwt; eauto.
Qed.

Lemma pipe_push st pp wt r : pipe_ok st pp wt → may_join st r → pipe_ok st (pp ++ [r]) wt.
Proof. intros Hp Hr. apply (pipe_join st pp wt r); try done; [set_solver|auto|auto]. Qed.

Lemma pipe_wait st pp wt r : pipe_ok st pp wt → may_join st r → pipe_ok st pp (wt ++ [r]).
Proof. intros Hp Hr. apply (pipe_join st pp wt r); try done; [set_solver|auto|set_solver]. Qed.

(** A request that waited enters the pipe. *)
Lemma pipe_post st pp wt r n : pipe_ok st pp wt → wt !! n = Some r → pipe_ok st (pp ++ [r]) (delete n wt).
Proof.
  intros Hp Hn. assert (Hr : r ∈ wt) by (by eapply list_elem_of_lookup_2).
  assert (Hd : ∀ r', r' ∈ delete n wt → r' ∈ wt) by (intros r' Hr'; eapply elem_of_Permutation_proper; [by apply (delete_Permutation wt n r)|by right]).
  apply (pipe_join st pp wt r); [done| |set_solver|auto|auto].
  destruct Hp. split_and!; [auto|..]; intros; [eapply po_id|eapply po_send|apply po_data]; try done; set_solver.
Qed.

(** Requests other than sends that hold no buffer. *)
Lemma core_queue st pp wt r :
  core st pp wt → may_join st r → is_send r = None → req_held r = [] → core st (pp ++ [r]) wt.
Proof.
  intros [] Hr Hs Hh. split; [done|by apply pipe_push|..].
  - intros i Hi. specialize (core_cnt i Hi). rewrite <- app_assoc. simpl. rewrite cnt_insert by (by rewrite Hs). done.
  - unfold own_ok in *. rewrite core_own, <- app_assoc, !fmap_app, !concat_app. simpl. by rewrite Hh.
  - destruct core_stream. split; [|done]. intros x Hx. destruct (st_inv x Hx) as [out Hout]. exists out.
    eapply stream_inv_other; [done..| |by left]. intros pri. rewrite in_pipe_app. simpl.
    destruct r; try done; by rewrite app_nil_r.
Qed.

(** ** Sends *)

(** The log has grown, by events that are neither writes nor posts. *)
Record logged (evs : list sys_event) (st st' : sys) : Prop := {
  lg_ss : ss st' = ss st;
  lg_epoll : epoll st' = epoll st;
  lg_log : log st' = log st ++ evs;
  lg_writes x : writes x evs = [];
  lg_posts x pri : posts x pri evs = [] }.

Lemma logged_sock evs st st' j : logged evs st st' → sock st' j = sock st j.
Proof. intros []. unfold sock. by rewrite lg_ss0. Qed.

Lemma own_grow {A} (T F H L L' tk fr : list A) :
  T ≡ₚ F ++ H ++ L → tk ++ L ≡ₚ fr ++ L' → T ++ tk ≡ₚ (F ++ fr) ++ H ++ L'.
Proof.
  intros HT HL. rewrite HT. trans (F ++ H ++ (tk ++ L)); [solve_Permutation|]. rewrite HL. solve_Permutation.
Qed.

Lemma logged_core evs st st' pp wt l :
  core st pp wt → logged evs st st' → takes evs ++ concat (req_held <$> (pp ++ wt)) ≡ₚ frees evs ++ concat (req_held <$> l) →
  slots_ok st' ∧ pipe_ok st' pp wt ∧ cnt_ok st' (pp ++ wt) ∧ own_ok st' l ∧ stream_ok st' pp.
Proof.
  intros [] Hlg Hown. assert (Hs : ∀ j, sock st' j = sock st j) by (intros; by eapply logged_sock).
  pose proof Hlg as []. assert (Hc : coarse st st') by (split; intros; rewrite ?lg_ss0, ?Hs; done). split_and!.
  - destruct core_slots. split; rewrite ?lg_ss0; try done; try (intros i; rewrite Hs; auto).
    intros f j w. rewrite lg_epoll0, Hs. apply so_epoll.
  - by eapply pipe_coarse.
  - eapply cnt_coarse; [done| |done]. intros j. by rewrite Hs.
  - unfold own_ok in *. rewrite lg_log0, takes_app, frees_app, (held_all_ext st st') by (intros; by rewrite Hs).
    by eapply own_grow.
  - destruct core_stream. split.
    + intros x Hx. destruct (st_inv x Hx) as [out Hout]. exists out.
      eapply stream_inv_other; [done|by rewrite lg_log0, writes_app, lg_writes0, app_nil_r|
        intros; by rewrite lg_log0, posts_app, lg_posts0, app_nil_r|done|left; apply Hs].
    + intros x pri Hx. rewrite lg_log0, posts_app, lg_posts0, app_nil_r, lg_ss0. intros Hne.
      destruct (st_posts x pri Hx Hne). split; [done|]. by eapply coarse_not_reserved.
Qed.

(** The core does not look at the rest of the state. *)
Lemma core_ext st st' pp wt :
  core st pp wt → ss st' = ss st → epoll st' = epoll st → log st' = log st → core st' pp wt.
Proof.
  intros Hc H1 H2 H3. destruct (logged_core [] st st' pp wt (pp ++ wt) Hc) as (? & ? & ? & ? & ?); [|done|by split].
  split; try done. by rewrite app_nil_r.
Qed.

(** A send counts itself and waits. *)
Lemma core_wait st st1 pri rid sz b pp wt :
  core st pp wt → logged [EvTake b] st st1 → live (type (sock st (HASH_ID rid))) → id (sock st (HASH_ID rid)) = rid →
  rid <= alloc_id (ss st) → buffer_ok b sz →
  wp (inc_sending_ref (HASH_ID rid) rid) (λ (ok : bool) st', if ok then core st' pp (wt ++ [ReqSend pri rid sz b]) ∧
    ev (ss st') = ev (ss st) ∧ event_index (ss st') = event_index (ss st) ∧ pipe st' = pipe st1 ∧
    (∀ j, type (sock st' j) = type (sock st j)) else True) st1.
Proof.
  intros Hcore Hlg Hl Hid Hle Hb. set (i := HASH_ID rid) in *. set (r := ReqSend pri rid sz b).
  assert (Hs1 : ∀ j, sock st1 j = sock st j) by (intros; by eapply logged_sock).
  pose proof Hcore as [_ _ Hcnt0 _ _].
  destruct (logged_core [EvTake b] st st1 pp wt (pp ++ wt ++ [r]) Hcore Hlg) as (H1 & H2 & H3 & H4 & H5).
  { rewrite (app_assoc pp), (fmap_app _ (pp ++ wt)), concat_app. simpl. solve_Permutation. }
  assert (Hnr : not_reserved st1 rid) by (intros _; fold i; rewrite Hs1; apply Hl).
  assert (Hj : may_join st1 r).
  { split_and!; [done| | |done]; intros x [= <-]; [by rewrite (lg_ss _ _ _ Hlg)|done]. }
  assert (Hothers : ∀ j, protocol (sock st1 j) = PROTOCOL_TCP → j ≠ i → cnt (id (sock st1 j)) (pp ++ wt ++ [r]) = cnt (id (sock st1 j)) (pp ++ wt)).
  { intros j Htcp Hne. rewrite app_assoc, cnt_insert, app_nil_r; [done|]. intros [= E].
    destruct (so_id _ _ H1 j) as [(_ & _ & E2)|(E2 & _)]; [by rewrite E2 in Htcp|]. apply Hne. unfold i. by rewrite <- E2, <- E. }
  assert (Hsame : protocol (sock st1 i) ≠ PROTOCOL_TCP → core st1 pp (wt ++ [r])).
  { intros Hn. split; [done|by apply pipe_wait| |done..]. intros j Hj'. rewrite Hothers; [by apply H3|done|by intros ->]. }
  unfold inc_sending_ref. wp_steps. wp_if Ep; [|wp_if Et; [wp_if Ef|]]; wp_steps; bool_to_prop; [|done|..].
  { rewrite (lg_ss _ _ _ Hlg). split_and!; auto. intros j. by rewrite Hs1. }
  - change (upd _ _ _) with (sending_st st1 i (u32 (sending (sock st1 i) + 1))). set (st' := sending_st _ _ _).
    destruct (H3 i Ep) as [Hsend Hlt]. rewrite Hs1, Hid in Hsend, Hlt.
    pose proof (cnt_nonneg rid (pp ++ wt)) as Hpos. pose proof (ID_TAG16_range rid) as Htag.
    destruct (sending_bits (ID_TAG16 rid) (cnt rid (pp ++ wt))) as [Hlow _]; [done|lia|].
    rewrite Hs1, Hsend, Hlow in Ef.
    destruct (sending_core mem st1 i (u32 (sending (sock st1 i) + 1)) pp (wt ++ [r]) (pp ++ wt ++ [r])) as (H1' & H2' & H4' & H5');
      [done|by apply pipe_wait|done..|].
    fold st' in H1', H2', H4', H5'. split_and!; [split; [done..| |done|done]|by rewrite <- (lg_ss _ _ _ Hlg)..|done|].
    + intros j Hj'. destruct (decide (j = i)) as [->|Hne].
      * unfold st', sending_st in *. rewrite sock_upd_eq in *. simpl in *. rewrite Hs1, Hid, Hsend.
        rewrite (cnt_perm rid (pp ++ wt ++ [r]) (r :: (pp ++ wt))), sends_cons, decide_True by (done || solve_Permutation).
        rewrite u32_small by lia. lia.
      * assert (sock st' j = sock st1 j) as E by (unfold st', sending_st; by rewrite sock_upd_ne). rewrite E in *.
        rewrite Hothers by done. by apply H3.
    + intros j. destruct (sending_sock st1 i (u32 (sending (sock st1 i) + 1)) j) as [v' E']. unfold st'. rewrite E'. simpl. by rewrite Hs1.
  - exfalso. destruct (H3 i Ep) as [Hsend Hlt]. rewrite Hs1, Hid in Hsend, Hlt.
    pose proof (cnt_nonneg rid (pp ++ wt)) as Hpos. pose proof (ID_TAG16_range rid) as Htag.
    destruct (sending_bits (ID_TAG16 rid) (cnt rid (pp ++ wt))) as [_ Hhi]; [done|lia|].
    rewrite Hs1, Hsend, Hhi in Et. done.
Qed.

(** A packet is posted: the log has it behind the others of its priority. *)
Definition posted (pri : priority) (rid sz : Z) (b : positive) (st st' : sys) : Prop :=
  ss st' = ss st ∧ epoll st' = epoll st ∧ log st' = log st ++ [EvPost rid pri b (object b sz)].

Lemma posted_posts pri rid sz b st st' x pri' : posted pri rid sz b st st' →
  posts x pri' (log st') = posts x pri' (log st) ++ req_packet mem x pri' (ReqSend pri rid sz b).
Proof.
  intros (_ & _ & ->). rewrite posts_app. f_equal. unfold posts. simpl. by rewrite app_nil_r.
Qed.

Lemma posted_stream pri rid sz b st st' pp :
  stream_ok st pp → posted pri rid sz b st st' → rid <= alloc_id (ss st) → not_reserved st rid →
  stream_ok st' (pp ++ [ReqSend pri rid sz b]).
Proof.
  intros Hst Hpo Hle Hnr. pose proof Hpo as (Hss & _ & Hlog).
  assert (Hs : ∀ j, sock st' j = sock st j) by (intros; unfold sock; by rewrite Hss).
  assert (Hw : ∀ x, writes x (log st') = writes x (log st)) by (intros; rewrite Hlog, writes_app; apply app_nil_r).
  pose proof (λ x pri', posted_posts _ _ _ _ _ _ x pri' Hpo) as Hp. destruct Hst. split.
  - intros x Hx. destruct (st_inv x Hx) as [out []]. exists out. split; rewrite ?Hw, ?Hs, ?Hp, ?in_pipe_app; try done.
    + rewrite (app_assoc (packets HIGH out)). apply sublist_app; [done|]. unfold SocketInv.in_pipe. simpl. by rewrite app_nil_r.
    + rewrite !(app_assoc (packets LOW out)), app_assoc. apply sublist_app; [by rewrite <- app_assoc|].
      unfold SocketInv.in_pipe. simpl. by rewrite app_nil_r.
  - intros x pri' Hx Hne. rewrite Hss. assert (not_reserved st x → not_reserved st' x) by (unfold not_reserved; by rewrite !Hs).
    rewrite Hp in Hne. simpl in Hne. destruct (Z.eqb_spec rid x) as [->|]; [auto|].
    rewrite app_nil_r in Hne. destruct (st_posts x pri' Hx Hne). auto.
Qed.

Lemma posted_core pri rid sz b st st' pp wt k l :
  slots_ok st → pipe_ok st pp wt → cnt_ok st k → own_ok st l → posted pri rid sz b st st' →
  slots_ok st' ∧ pipe_ok st' pp wt ∧ cnt_ok st' k ∧ own_ok st' l.
Proof.
  intros [] Hpp Hk Hl Hpo. pose proof Hpo as (Hss & Hep & Hlog).
  assert (Hs : ∀ j, sock st' j = sock st j) by (intros; unfold sock; by rewrite Hss).
  assert (Hc : coarse st st') by (split; intros; rewrite ?Hss, ?Hs; done). split_and!.
  - split; rewrite ?Hss; try done; try (intros i; rewrite Hs; auto).
    intros f j w. rewrite Hep, Hs. apply so_epoll.
  - by eapply pipe_coarse.
  - eapply cnt_coarse; [done| |done]. intros j. by rewrite Hs.
  - unfold own_ok in *. rewrite Hlog, takes_app, frees_app, (held_all_ext st st') by (intros; by rewrite Hs).
    simpl. by rewrite !app_nil_r.
Qed.

Lemma core_post st st' n pri rid sz b pp wt :
  core st pp wt → wt !! n = Some (ReqSend pri rid sz b) → posted pri rid sz b st st' →
  core st' (pp ++ [ReqSend pri rid sz b]) (delete n wt).
Proof.
  intros Hc Hn Hpo. set (r := ReqSend pri rid sz b) in *.
  assert (Hr : r ∈ pp ++ wt) by (apply elem_of_app; right; by eapply list_elem_of_lookup_2).
  assert (Hperm : (pp ++ [r]) ++ delete n wt ≡ₚ pp ++ wt).
  { rewrite <- app_assoc. apply Permutation_app_head. symmetry. by apply (delete_Permutation wt n r). }
  pose proof Hc as [].
  destruct (posted_core pri rid sz b st st' pp wt (pp ++ wt) (pp ++ wt)) as (H1 & H2 & H3 & H4); [done..|]. split; [done|by apply pipe_post|..].
  - intros i Hi. rewrite (cnt_perm _ _ _ Hperm). by apply H3.
  - unfold own_ok in *. by rewrite Hperm.
  - apply (posted_stream _ _ _ _ st); [done..| |]; destruct core_pipe; [by eapply po_id|by eapply po_send].
Qed.

(** ** Writing directly *)

(** A packet [d] is written at once, or its rest is left for the poll thread. *)
Definition direct_op (d : list Z) (s : socket) (w : list Z) (s' : socket) : Prop :=
  @pend mem s = [] ∧ @lowd mem s = [] ∧ @lowd mem s' = [] ∧ w ++ @pend mem s' = d.

Lemma cnt_in_pipe x pri l1 l2 : cnt x (l1 ++ l2) = 0 → in_pipe x pri l1 = [].
Proof.
  intros H. unfold cnt in H. rewrite filter_app, length_app in H. assert (H' : length (filter (λ r, is_send r = Some x) l1) = 0%nat) by lia.
  clear H. induction l1 as [|r l1 IH]; [done|]. rewrite filter_cons in H'. rewrite in_pipe_cons. case_decide as E; [done|].
  rewrite (IH H'), app_nil_r. destruct r; try done. simpl in *. destruct (Z.eqb_spec rid x); [congruence|done].
Qed.

Lemma direct_stream st st' rid sz b pp :
  let i := HASH_ID rid in
  slots_ok st → slot_rel (direct_op (object b sz)) i [b] st st' → id (sock st i) = rid → live (type (sock st i)) →
  (∀ pri, protocol (sock st i) = PROTOCOL_TCP → in_pipe rid pri pp = []) →
  stream_ok st (pp ++ [ReqSend HIGH rid sz b]) → stream_ok st' pp.
Proof.
  intros i Hso Hr Hid Hl Hno Hst. eapply stream_rel_step; [done..| |].
  { intros x pri. rewrite in_pipe_app. by apply sublist_inserts_r. }
  intros x out w Hi Ha Hout (Hp0 & Hl0 & Hl1 & Hd) Hw Hp.
  pose proof (proj2 (attached_rel _ _ _ _ _ x Hr) Ha) as Ha'.
  assert (x = rid) as ->. { destruct Ha as [Hx _]. rewrite Hi in Hx. congruence. }
  destruct Hout. unfold attached in Ha, Ha'. fold i in Ha, Ha', si_live, si_low. rewrite bool_decide_eq_true_2 in si_low by done.
  specialize (si_live Hid (proj2 Ha) Hl). rewrite Hp0, app_nil_r in si_live. set (d := object b sz) in *.
  assert (Hin : ∀ pri, in_pipe rid pri (pp ++ [ReqSend HIGH rid sz b]) = if decide (HIGH = pri) then [d] else []).
  { intros pri. rewrite in_pipe_app, Hno by apply Ha. unfold SocketInv.in_pipe. simpl. rewrite Z.eqb_refl. simpl.
    case_decide; by case_bool_decide. }
  rewrite Hin, ?Hl0 in si_high, si_low. simpl in si_high, si_low. exists (out ++ [(HIGH, d)]).
  split; fold i; rewrite ?Hw, ?Hp, ?packets_app, ?Hno, ?bool_decide_eq_true_2, ?Hl1 by (done || apply Ha).
  - rewrite fmap_app, concat_app, <- si_live. apply prefix_app. simpl. rewrite app_nil_r, <- Hd. by apply prefix_app_r.
  - intros _ _ _. rewrite fmap_app, concat_app, <- si_live, <- app_assoc. simpl. by rewrite app_nil_r, Hd.
  - by rewrite app_nil_r.
  - rewrite Hl0 in si_low. rewrite !app_nil_r in *. simpl. by rewrite ?app_nil_r.
Qed.

(** The state in which the packet is posted but not written. *)
Lemma core_direct st st1 st2 st' rid sz b pp wt :
  let i := HASH_ID rid in
  core st pp wt → logged [EvTake b] st st1 → posted HIGH rid sz b st1 st2 → slot_rel (direct_op (object b sz)) i [b] st2 st' →
  @sock_ok mem (sock st' i) → Forall wb_fresh (low (sock st' i)) →
  id (sock st i) = rid → live (type (sock st i)) → Z.land (sending (sock st i)) 65535 = 0 → core st' pp wt.
Proof.
  intros i Hc Hlg Hpo Hr Hok Hf Hid Hl Hse. set (r := ReqSend HIGH rid sz b).
  assert (Hs1 : ∀ j, sock st1 j = sock st j) by (intros; by eapply logged_sock).
  assert (Hs2 : ∀ j, sock st2 j = sock st j) by (intros; rewrite <- Hs1; unfold sock; by rewrite (proj1 Hpo)).
  destruct (logged_core [EvTake b] st st1 pp wt ((r :: pp) ++ wt) Hc Hlg) as (H1 & H2 & H3 & H4 & H5); [done|].
  assert (Hle : rid <= alloc_id (ss st1)).
  { destruct (so_id _ _ H1 i) as [(_ & E & _)|(_ & E)]; rewrite Hs1 in E; [by destruct Hl|]. rewrite <- Hid. lia. }
  assert (Hst2 : stream_ok st2 (pp ++ [r])).
  { apply (posted_stream _ _ _ _ st1); try done. intros _. fold i. rewrite Hs1. apply Hl. }
  assert (Hno : ∀ pri, protocol (sock st2 i) = PROTOCOL_TCP → in_pipe rid pri pp = []).
  { intros pri Htcp. apply (cnt_in_pipe rid pri pp wt). rewrite Hs2, <- Hs1 in Htcp. destruct (H3 i Htcp) as [E Hlt].
    rewrite Hs1, Hid in E, Hlt. pose proof (ID_TAG16_range rid). pose proof (cnt_nonneg rid (pp ++ wt)).
    destruct (sending_bits (ID_TAG16 rid) (cnt rid (pp ++ wt))) as [Hlow _]; [done|lia|]. congruence. }
  destruct (posted_core HIGH rid sz b st1 st2 pp wt (pp ++ wt) ((r :: pp) ++ wt)) as (H1' & H2' & H3' & H4'); [done..|].
  pose proof (rel_coarse _ _ _ _ _ Hr) as Hco. split.
  - by eapply slots_rel.
  - by eapply pipe_coarse.
  - eapply cnt_coarse; [done|by eapply rel_sending|done].
  - eapply own_rel; [apply HASH_ID_range|done..|]. done.
  - eapply direct_stream; try done; fold i; by rewrite Hs2.
Qed.

(** The sockets that have events stay in use. *)
Record same_events (st st' : sys) : Prop := {
  se_ev : ev (ss st') = ev (ss st);
  se_index : event_index (ss st') = event_index (ss st);
  se_live j : live (type (sock st j)) → live (type (sock st' j)) }.

Lemma same_events_ok st st' : same_events st st' → ev_ok st → ev_ok st'.
Proof.
  intros [] []. split; unfold pending_events in *; rewrite ?se_ev0, ?se_index0; try done. intros e i He Hi. eauto.
Qed.

Lemma same_events_ss st st' : ss st' = ss st → same_events st st'.
Proof. intros E. unfold sock. split; intros; unfold sock in *; by rewrite E. Qed.

Lemma direct_op_rel d : stream_rel (direct_op d).
Proof. intros s w s1 s2 Hq H. destruct (quiet_data (mem:=mem) _ _ Hq) as (E1 & E2 & _). unfold direct_op in *. by rewrite E1, E2. Qed.

(** What is left of a direct write. *)
Definition dw_sock (s : socket) (n : Z) (b : positive) (sz : Z) : socket := set_dw n (Some b) sz s.

Lemma dw_sock_ok s n b sz :
  live (type s) → protocol s = PROTOCOL_TCP → @sock_ok mem s → buffer_ok b sz → 0 <= n <= sz → @sock_ok mem (dw_sock s n b sz).
Proof.
  intros Hl Htcp [] Hb Hn. split; simpl; try done.
  - intros [E|E]; destruct Hl; congruence.
  - intros b' [= <-]. unfold SocketInv.buffer_ok in Hb. lia.
Qed.

Lemma direct_changed st st' i s' evs b sz w :
  live (type (sock st i)) → high (sock st i) = [] → low (sock st i) = [] → dw_buffer (sock st i) = None → buffer_ok b sz →
  changed i s' evs st st' → epoll st' = epoll st → Forall (ev_local (id (sock st i))) evs →
  (protocol (sock st i) = PROTOCOL_TCP → writes (id (sock st i)) evs = w) →
  (protocol (sock st i) ≠ PROTOCOL_TCP → writes (id (sock st i)) evs = []) →
  (s' = sock st i ∧ frees evs = [b] ∧ w = object b sz ∨
   ∃ n, 0 <= n <= sz ∧ s' = dw_sock (sock st i) n b sz ∧ frees evs = [] ∧ w = take (Z.to_nat n) (object b sz)) →
  slot_rel (direct_op (object b sz)) i [b] st st'.
Proof.
  intros Hl Hh Hlo Hd Hb Hc He Hloc Hw Hw' Hs.
  assert (Hsame : id s' = id (sock st i) ∧ protocol s' = protocol (sock st i) ∧ sending s' = sending (sock st i) ∧
    type s' = type (sock st i) ∧ fd s' = fd (sock st i)) by (destruct Hs as [(-> & _)|(n & _ & -> & _)]; done).
  destruct Hsame as (S1 & S2 & S3 & S4 & S5). eapply slot_op_of; try done.
  - eapply epoll_ok_same; [done|apply Hc|rewrite (ch_sock _ _ _ _ _ Hc); done..|by rewrite (ch_sock _ _ _ _ _ Hc), S4].
  - by rewrite S4.
  - by rewrite S4.
  - unfold held. rewrite Hh, Hlo, Hd. destruct Hs as [(-> & -> & _)|(n & _ & -> & -> & _)]; simpl; by rewrite ?Hh, ?Hlo, ?Hd.
  - intros Htcp. rewrite (Hw Htcp). unfold direct_op, pend, lowd, dwd. rewrite Hh, Hlo, Hd.
    destruct Hs as [(-> & _ & ->)|(n & Hn & -> & _ & ->)]; simpl; rewrite ?Hh, ?Hlo, ?Hd; simpl; rewrite ?app_nil_r; [done|].
    split_and!; try done. apply take_drop.
Qed.

(** The end of a call that has the buffer [b] no longer, or that goes on to
    queue it. *)
Definition call_done (st : sys) (wt : list request) (st' : sys) : Prop :=
  core st' (pipe st') wt ∧ same_events st st'.

Definition to_queue (b : positive) (rid : Z) (st st' : sys) : Prop :=
  logged [EvTake b] st st' ∧ pipe st' = pipe st ∧ live (type (sock st (HASH_ID rid))) ∧ id (sock st (HASH_ID rid)) = rid.

Lemma core_drop st st' b evs pp wt :
  core st pp wt → logged evs st st' → takes evs = [b] → frees evs = [b] → core st' pp wt.
Proof.
  intros Hc Hlg Ht Hf. destruct (logged_core _ _ _ _ _ (pp ++ wt) Hc Hlg) as (H1 & H2 & H3 & H4 & H5); [by rewrite Ht, Hf|by split].
Qed.

Lemma nomore_empty s : nomore_sending_data s = true →
  high s = [] ∧ low s = [] ∧ dw_buffer s = None ∧ Z.land (sending s) 65535 = 0.
Proof. unfold nomore_sending_data, send_buffer_empty. intros H. bool_to_prop. tauto. Qed.

Lemma can_direct_write_spec s rid : can_direct_write s rid = true →
  id s = rid ∧ live (type s) ∧ high s = [] ∧ low s = [] ∧ dw_buffer s = None ∧ Z.land (sending s) 65535 = 0.
Proof.
  unfold can_direct_write. intros H. apply andb_true_iff in H as [H _]. apply andb_true_iff in H as [H Ht].
  apply andb_true_iff in H as [Hi Hn]. apply nomore_empty in Hn as (H1 & H2 & H3 & H4). bool_to_prop. rewrite Ht. by split_and!.
Qed.

(** The direct write of a packet that was posted in [st2]. *)
Lemma direct_write_spec st2 rid b sz (Q : option Z → sys → Prop) :
  let i := HASH_ID rid in let s := sock st2 i in
  live (type s) → protocol s = PROTOCOL_TCP → high s = [] → low s = [] → dw_buffer s = None → @sock_ok mem s → buffer_ok b sz →
  (∀ st', slot_rel (direct_op (object b sz)) i [b] st2 st' → @sock_ok mem (sock st' i) → low (sock st' i) = [] →
     type (sock st' i) = type s → Q (Some 0) st') →
  wp (if protocol s =? PROTOCOL_TCP then sys_write os i (object b sz)
      else match p s with
           | P_address a => sys_sendto os i (object b sz) (udp_socket_address (protocol s) a)
           | P_size _ => crash
           end)
    (λ n, wp (let n := if n <? 0 then 0 else n in
      if n =? sz then emit (EvFree false b);; mret (Some 0)
      else upd_s i (set_dw n (Some b) sz);; sp_write (fd s) i true;; mret (Some 0)) Q) st2.
Proof.
  intros i s Hl Htcp Hh Hlo Hd Hok Hb HQ.
  assert (Hlen : Z.of_nat (length (object b sz)) = sz).
  { unfold SocketProof.object. rewrite length_take. unfold SocketInv.buffer_ok in Hb. lia. }
  assert (Hfin : ∀ n evs st3, n <= sz → changed i s evs st2 st3 → epoll st3 = epoll st2 → frees evs = [] →
    Forall (ev_local (id s)) evs →
    writes (id s) evs = take (Z.to_nat n) (object b sz) →
    wp (let n := if n <? 0 then 0 else n in
      if n =? sz then emit (EvFree false b);; mret (Some 0)
      else upd_s i (set_dw n (Some b) sz);; sp_write (fd s) i true;; mret (Some 0)) Q st3).
  { intros n evs st3 Hn Hc He Hfr Hloc Hw. cbv zeta. set (n' := if n <? 0 then 0 else n).
    assert (Hn' : 0 <= n' <= sz) by (unfold n', SocketInv.buffer_ok in *; destruct (Z.ltb_spec n 0); lia).
    pose proof (ch_sock _ _ _ _ _ Hc) as Hs3. fold s in Hs3.
    assert (Htk : take (Z.to_nat n) (object b sz) = take (Z.to_nat n') (object b sz)).
    { unfold n'. destruct (Z.ltb_spec n 0); [|done]. by rewrite (Z2Nat.inj_neg n) || (f_equal; lia). }
    wp_if E; wp_steps; bool_to_prop.
    - apply HQ; ssimpl; rewrite ?Hs3; try done.
      eapply (direct_changed _ _ _ s (evs ++ [EvFree false b]) b sz (object b sz)); try done.
      + destruct Hc. split; ssimpl; try done. by rewrite ch_log, app_assoc.
      + apply Forall_app. split; [done|by repeat constructor].
      + fold s. intros _. rewrite writes_app, Hw, Htk, E, take_ge by lia. apply app_nil_r.
      + left. by rewrite frees_app, Hfr.
    - apply wp_sp_write. wp_steps. set (u := upd st3 i _).
      assert (Hu : sock u i = dw_sock s n' b sz) by (unfold u; by rewrite sock_upd_eq, Hs3).
      assert (Hr : slot_rel (direct_op (object b sz)) i [b] st2 u).
      { eapply (direct_changed _ _ _ (dw_sock s n' b sz) evs b sz (take (Z.to_nat n') (object b sz))); try done.
        - destruct Hc. split; unfold u; ssimpl; try done; [by rewrite ch_sock|]. intros j Hj. rewrite sock_upd_ne by done. auto.
        - fold s. intros _. by rewrite Hw.
        - right. exists n'. split_and!; try done; lia. }
      apply HQ; rewrite ?sp_write_sock, ?Hu; try done; [|by apply dw_sock_ok].
      eapply (slot_rel_quiet (mem:=mem)); [apply direct_op_rel|done|].
      pose proof (quiet_sp_write (mem:=mem) i u true) as Hq. rewrite Hu in Hq. by apply Hq. }
  rewrite Htcp. simpl Z.eqb. unfold sys_write. wp_steps. ssimpl. fold i s.
  pose proof (law_write (tick st2) (fd s) (object b sz)) as Hle.
  set (r := os_write os _ _ _) in *. apply wp_when; intros E; wp_steps; bool_to_prop.
  - apply (Hfin r [EvWrite (id s) (fd s) (take (Z.to_nat r) (object b sz))]); [lia|solve_changed|done..|by repeat constructor|].
    unfold writes. simpl. by rewrite Z.eqb_refl, app_nil_r.
  - apply (Hfin r []); [lia|solve_changed|done..|constructor|]. by rewrite Z2Nat.nonpos by lia.
Qed.

(** The first half of a send. *)
Definition sent_first (rid : Z) (b : positive) (wt : list request) (st : sys) (r : option Z) (st' : sys) : Prop :=
  match r with Some _ => call_done st wt st' | None => to_queue b rid st st' end.

Lemma drop_done st st' b evs wt :
  core st (pipe st) wt → logged evs st st' → takes evs = [b] → frees evs = [b] → pipe st' = pipe st → call_done st wt st'.
Proof.
  intros Hc Hlg Ht Hf Hp. split; [rewrite Hp; by eapply core_drop|]. apply same_events_ss. apply Hlg.
Qed.

Lemma send_check_spec rid b sz st wt :
  core st (pipe st) wt → buffer_ok b sz → not_reserved st rid →
  wp (send_check rid b sz) (sent_first rid b wt st) st.
Proof.
  intros Hc Hb Hnr. unfold send_check. wp_steps. ssimpl. wp_if E; wp_steps; bool_to_prop.
  - apply wp_free_buffer; [apply Hb|]. wp_steps. apply (drop_done _ _ b [EvTake b; EvFree false b]); try done.
    split; ssimpl; try done. by rewrite <- app_assoc.
  - split_and!; [by split| |split; [done|by apply Hnr]|]; done.
Qed.

Lemma send_direct_spec rid b sz st wt :
  core st (pipe st) wt → buffer_ok b sz → not_reserved st rid →
  (id (sock st (HASH_ID rid)) = rid → protocol (sock st (HASH_ID rid)) = PROTOCOL_TCP) →
  wp (send_direct os mem rid b sz) (sent_first rid b wt st) st.
Proof.
  intros Hc Hb Hnr Htcp. pose proof Hc as [Hso _ _ _ _]. set (i := HASH_ID rid) in *.
  unfold send_direct. fold i. wp_steps. ssimpl. wp_if E; wp_steps; bool_to_prop.
  { apply wp_free_buffer; [apply Hb|]. wp_steps. apply (drop_done _ _ b [EvTake b; EvFree false b]); try done.
    split; ssimpl; try done. by rewrite <- app_assoc. }
  assert (Hl : live (type (sock st i))) by (split; [done|by apply Hnr]).
  wp_if Ed; [|wp_steps; split_and!; try done; by split].
  apply can_direct_write_spec in Ed as (_ & _ & Hh & Hlo & Hd & Hse). destruct (so_sock _ _ Hso i) as [Hok _].
  unfold socket_trylock. wp_steps. wp_if El; [|wp_steps; split_and!; try done; by split].
  apply wp_bind, wp_send_object_init; [apply Hb|]. cbn [fst snd]. apply wp_bind, wp_bytes; [apply Hb|]. wp_steps. ssimpl.
  match goal with |- wp _ _ ?x => set (st2 := x) end. apply (direct_write_spec st2 rid b sz (sent_first rid b wt st)); fold i; try done; [by apply Htcp|].
  intros st' Hr Hok' Hlo' Ht'. fold i in Hr.
  split.
  - rewrite (op_pipe _ _ _ _ _ Hr). change (pipe st2) with (pipe st).
    eapply (core_direct st (set_tick (addlog st (EvTake b)) (S (tick st))) st2); try done. fold i. rewrite Hlo'. constructor.
  - destruct Hr. split; [done..|]. intros j Hj. destruct (decide (j = i)) as [->|Hne]; [by rewrite Ht'|by rewrite op_others].
Qed.

(** The invariant, of the parts of a configuration. *)
Definition inv_at (st : sys) (wt : list request) : Prop := core st (pipe st) wt ∧ ev_ok st.

Lemma exec_send_inv pri rid b sz c :
  inv c → buffer_ok b sz → not_reserved (c_sys c) rid →
  (id (sock (c_sys c) (HASH_ID rid)) = rid → pri = LOW ∨ protocol (sock (c_sys c) (HASH_ID rid)) = PROTOCOL_TCP) →
  ∃ c', exec_send os mem pri rid b sz c = Some c' ∧ inv c'.
Proof.
  intros [Hc Hev] Hb Hnr Hpri. destruct c as [st wt]. simpl in *. unfold exec_send. simpl.
  assert (Hfst : wp (match pri with HIGH => send_direct os mem rid b sz | LOW => send_check rid b sz end) (sent_first rid b wt st) st).
  { destruct pri; [apply send_direct_spec; try done; intros E; by destruct (Hpri E)|by eapply send_check_spec]. }
  apply wp_some in Hfst as (r & st1 & -> & Hr). destruct r as [r|].
  - eexists. split; [done|]. destruct Hr as [Hc1 Hse]. split; [done|]. by eapply same_events_ok.
  - destruct Hr as (Hlg & Hp & Hl & Hid). assert (Hle : rid <= alloc_id (ss st)).
    { destruct (so_id _ _ (core_slots _ _ _ _ Hc) (HASH_ID rid)) as [(_ & E & _)|(_ & E)]; [by destruct Hl|lia]. }
    pose proof (core_wait st st1 pri rid sz b (pipe st) wt Hc Hlg Hl Hid Hle Hb) as Hw.
    apply wp_some in Hw as (ok & st2 & -> & Hok). destruct ok; [|by eexists; split; [done|split]].
    destruct Hok as (Hc2 & He & Hi & Hp2 & Ht). eexists. split; [done|]. split; simpl; [by rewrite Hp2, Hp|].
    apply (same_events_ok st); [|done]. split; [done..|]. intros j. by rewrite Ht.
Qed.

Lemma queue_inv st wt r :
  inv_at st wt → may_join st r → is_send r = None → req_held r = [] → inv_at (set_pipe st (pipe st ++ [r])) wt.
Proof.
  intros [Hc Hev] Hj Hs Hh. split; [|by apply (same_events_ok st); [apply same_events_ss|]].
  eapply core_ext; [by apply core_queue|done..].
Qed.

Lemma inv_done st wt st' : inv_at st wt → call_done st wt st' → inv_at st' wt.
Proof. intros [_ Hev] [Hc Hse]. split; [done|]. by eapply same_events_ok. Qed.

(** ** UDP *)

Lemma udp_queue st st' evs rid sz b addr wt :
  core st (pipe st) wt → logged evs st st' → takes evs = [b] → frees evs = [] → pipe st' = pipe st ++ [ReqSendUdp rid sz b addr] →
  may_join st (ReqSendUdp rid sz b addr) → call_done st wt st'.
Proof.
  intros Hc Hlg Ht Hf Hp (_ & Hid & _ & Hd). set (r := ReqSendUdp rid sz b addr) in *.
  assert (Hs : ∀ j, sock st' j = sock st j) by (intros; by eapply logged_sock).
  destruct (logged_core _ _ _ _ _ ((pipe st ++ [r]) ++ wt) Hc Hlg) as (H1 & H2 & H3 & H4 & H5).
  { rewrite Ht, Hf, !fmap_app, !concat_app. simpl. solve_Permutation. }
  split; [rewrite Hp|apply same_events_ss, Hlg]. split; try done.
  - apply pipe_push; [done|]. split_and!; [done| |done|].
    + intros x Hx. rewrite (lg_ss _ _ _ Hlg). auto.
    + simpl in *. unfold not_reserved in *. by rewrite !Hs.
  - intros i Hi. rewrite <- app_assoc. simpl. rewrite cnt_insert by done. by apply H3.
  - destruct H5. split; [|done]. intros x Hx. destruct (st_inv x Hx) as [out Hout]. exists out.
    eapply stream_inv_other; [done..| |by left]. intros pri. rewrite in_pipe_app. by rewrite app_nil_r.
Qed.

Lemma addrsz_take addr n : addrsz addr = Some n → take (Z.to_nat n) addr ≠ [].
Proof. destruct addr as [|ty l]; [done|]. simpl. repeat case_match; by intros [= <-]. Qed.

Lemma udp_send_inv rid addr b sz st wt :
  inv_at st wt → buffer_ok b sz → not_reserved st rid →
  (id (sock st (HASH_ID rid)) = rid → protocol (sock st (HASH_ID rid)) ≠ PROTOCOL_TCP) →
  wp (socket_server_udp_send os mem rid addr b sz) (λ _ st', inv_at st' wt) st.
Proof.
  intros Hinv Hb Hnr Hudp. pose proof Hinv as [Hc _]. set (i := HASH_ID rid) in *.
  eapply wp_mono; [|intros r st'; by apply inv_done].
  assert (Hdrop : ∀ evs st', logged evs st st' → takes evs = [b] → frees evs = [b] → pipe st' = pipe st → call_done st wt st').
  { intros. by eapply drop_done. }
  unfold socket_server_udp_send. fold i. wp_steps. ssimpl. wp_if E; wp_steps; bool_to_prop.
  { apply wp_free_buffer; [apply Hb|]. wp_steps. apply (Hdrop [EvTake b; EvFree false b]); try done.
    split; ssimpl; try done. by rewrite <- app_assoc. }
  assert (Hl : live (type (sock st i))) by (split; [done|by apply Hnr]).
  assert (Hle : rid <= alloc_id (ss st)).
  { destruct (so_id _ _ (core_slots _ _ _ _ Hc) i) as [(_ & E & _)|(_ & E)]; [by destruct Hl|lia]. }
  destruct (addrsz addr) as [n|] eqn:Ea.
  2: { apply wp_bind, wp_free_buffer; [apply Hb|]. wp_steps. apply (Hdrop [EvTake b; EvFree false b]); try done.
    split; ssimpl; try done. by rewrite <- app_assoc. }
  assert (Hq : ∀ evs st1, logged evs st st1 → takes evs = [b] → frees evs = [] → pipe st1 = pipe st →
    wp (send_request (ReqSendUdp rid sz b (take (Z.to_nat n) addr));; mret 0) (λ _ st', call_done st wt st') st1).
  { intros evs st1 [] Ht Hf Hp. wp_steps. eapply (udp_queue st _ evs rid sz b); try done; [by rewrite <- Hp|].
    split_and!; try done; [by intros x [= <-]|]. split; [done|]. split; [by apply addrsz_take|done]. }
  cbv zeta. wp_if Ed; [|by apply (Hq [EvTake b])].
  unfold socket_trylock. wp_steps. wp_if El; [|by apply (Hq [EvTake b])].
  apply wp_bind, wp_send_object_init; [apply Hb|]. cbn [fst snd]. apply wp_bind, wp_bytes; [apply Hb|].
  unfold sys_sendto. wp_steps. ssimpl. set (r := os_sendto os _ _ _ _). apply wp_when; intros Er; wp_steps; rewrite Er.
  - wp_steps. eapply (Hdrop [EvTake b; EvSendto _ _ _ _; EvFree false b]); try done.
    split; ssimpl; try done. by rewrite <- !app_assoc.
  - by apply (Hq [EvTake b]).
Qed.

Lemma udp_connect_inv rid addr port st wt :
  inv_at st wt → rid <= alloc_id (ss st) →
  wp (socket_server_udp_connect os rid addr port) (λ _ st', inv_at st' wt) st.
Proof.
  intros Hinv Hle. pose proof Hinv as [Hc Hev]. unfold socket_server_udp_connect. set (i := HASH_ID rid). wp_steps.
  wp_if E; wp_steps; [done|]. ssimpl. bool_to_prop. set (u := upd st i _).
  assert (Hu : inv_at u wt).
  { assert (Hq : quiet i st u) by (by apply (quiet_upd i)).
    assert (slot_op i [] st u) as Hop by (by apply quiet_slot_op). destruct (so_sock _ _ (core_slots _ _ _ _ Hc) i) as [Hok Hf].
    split.
    - change (pipe u) with (pipe st). eapply core_event; [done|apply HASH_ID_range|done|..]; unfold u; rewrite sock_upd_eq; [|done].
      eapply (quiet_sock_ok (mem:=mem)); [|done]. destruct Hq as (_ & _ & Hq). unfold u in Hq. by rewrite sock_upd_eq in Hq.
    - apply (same_events_ok st); [|done]. split; [done..|]. intros j. unfold u. rewrite sock_upd. case_decide as Ej; [|done]. by subst j. }
  destruct (os_getaddrinfo _ _ _ _) as [l|e] eqn:Eg.
  2: { wp_steps. destruct Hu as [H1 H2]. split; [by eapply core_ext|]. by apply (same_events_ok u); [apply same_events_ss|]. }
  apply law_getaddrinfo in Eg as [Hne Hsz]. destruct l as [|ai l]; [done|]. apply Forall_cons in Hsz as [Hai _]. wp_steps.
  apply (queue_inv (ticked u)); [|split_and!; try done|done..].
  - destruct Hu as [H1 H2]. split; [by eapply core_ext|]. by apply (same_events_ok u); [apply same_events_ss|].
  - intros x [= <-]. done.
  - simpl. destruct ai as [a p0|a p0]; simpl; rewrite length_app; destruct Hai as [-> ->]; eauto.
Qed.

(** ** Opening sockets *)

Lemma opening_facts r nid : opening r = Some nid →
  req_id r = Some nid ∧ is_send r = None ∧ req_held r = [] ∧ (∀ x pri, req_packet mem x pri r = []) ∧ ∀ st, req_data st r.
Proof. by destruct r; intros [= <-]. Qed.

Lemma inv_closed st st' wt : inv_at st wt → only_closed st st' → inv_at st' wt.
Proof.
  intros [Hc Hev] Ho. split; [|eapply same_events_ok; [apply same_events_ss, Ho|done]].
  rewrite (oc_pipe _ _ Ho). by eapply core_closed.
Qed.

Lemma reserve_inv st wt nid r l1 l2 :
  core st (l1 ++ l2) wt → ev_ok st → alloc_id (ss st) < nid → type (sock st (HASH_ID nid)) = SOCKET_TYPE_INVALID →
  opening r = Some nid → core (reserve_st st nid) (l1 ++ r :: l2) wt ∧ ev_ok (reserve_st st nid).
Proof.
  intros Hc Hev Hnid Ht Ho. destruct (opening_facts _ _ Ho) as (H1 & H2 & H3 & H4 & H5). split; [by apply core_reserve|].
  destruct Hev. split; [done..|]. intros e i He Hi. specialize (ev_live e i He Hi).
  unfold reserve_st. rewrite sock_upd. case_decide as E; [|done]. subst i. by destruct ev_live.
Qed.

Lemma open_call st wt (mk : Z → request) (fail : Z → M Z) :
  inv_at st wt → alloc_id (ss st) + MAX_SOCKET <= INT_MAX → (∀ nid, opening (mk nid) = Some nid) →
  (∀ nid st1, inv_at st1 wt → wp (fail nid) (λ _ st', inv_at st' wt) st1) →
  wp (nid ← reserve_id; if nid <? 0 then fail nid else send_request (mk nid);; mret nid) (λ _ st', inv_at st' wt) st.
Proof.
  intros [Hc Hev] Hmax Hmk Hfail. pose proof (so_alloc _ _ (core_slots _ _ _ _ Hc)) as H0. apply wp_bind, wp_reserve_id; [done..| |].
  - intros a Ha. wp_if E; [|done]. apply Hfail. split; [by apply core_set_alloc|]. apply (same_events_ok st); [|done]. by split.
  - intros nid [Hnid _] Ht. wp_if E; [bool_to_prop; lia|]. wp_steps. change (upd _ _ _) with (reserve_st st nid).
    destruct (reserve_inv st wt nid (mk nid) (pipe st) []) as [H1 H2]; try done; [by rewrite app_nil_r|].
    split; [by eapply core_ext|]. apply (same_events_ok (reserve_st st nid)); [by apply same_events_ss|done].
Qed.

Lemma sys_close_closed f st : wp (sys_close f) (λ _ st', only_closed st st') st.
Proof.
  unfold sys_close. wp_steps. split; ssimpl; try done.
  - exists [EvClose f]. split; [done|by repeat constructor].
  - intros g v Hg. apply lookup_delete_Some in Hg. tauto.
Qed.

Lemma do_bind_closed host port st : wp (do_bind os host port) (λ _ st', only_closed st st') st.
Proof.
  unfold do_bind. wp_steps. destruct (os_getaddrinfo _ _ _ _) as [l|e] eqn:Eg; [|wp_steps; by apply only_closed_refl].
  apply law_getaddrinfo in Eg as [Hne _]. destruct l as [|ai l]; [done|]. wp_steps.
  assert (Hf : ∀ f st1, same_but_result st st1 → wp (sys_close f;; mret (@None (Z * bool))) (λ _ st', only_closed st st') st1).
  { intros f st1 Hs. apply wp_bind. eapply wp_mono; [apply sys_close_closed|]. intros ? st2 Ho. wp_steps.
    eapply only_closed_trans; [by apply only_closed_refl|done]. }
  wp_if E; [wp_steps; by apply only_closed_refl|]. wp_steps. wp_if E2; [by apply Hf|]. wp_steps.
  wp_if E3; [by apply Hf|]. wp_steps. by apply only_closed_refl.
Qed.

Lemma do_listen_closed host port backlog st : wp (do_listen os host port backlog) (λ _ st', only_closed st st') st.
Proof.
  unfold do_listen. apply wp_bind. eapply wp_mono; [apply do_bind_closed|]. intros [[f inet6]|] st1 Ho; wp_steps; [|done].
  assert (Ho1 : only_closed st (ticked st1)) by (eapply only_closed_trans; [done|by apply only_closed_refl]).
  wp_if E; wp_steps; [|done]. eapply wp_mono; [apply sys_close_closed|]. intros ? st2 Ho2. wp_steps.
  by eapply only_closed_trans.
Qed.

Lemma close_fail {A} f (r : A) st wt : inv_at st wt → wp (sys_close f;; mret r) (λ _ st', inv_at st' wt) st.
Proof. intros H. apply wp_bind. eapply wp_mono; [apply sys_close_closed|]. intros ? st' Ho. wp_steps. by eapply inv_closed. Qed.

Lemma connect_inv ro addr port st wt :
  inv_at st wt → alloc_id (ss st) + MAX_SOCKET <= INT_MAX →
  wp (socket_server_connect ro addr port) (λ _ st', inv_at st' wt) st.
Proof.
  intros H Hm. unfold socket_server_connect. wp_if E; [by wp_steps|].
  apply (open_call _ _ (λ nid, ReqOpen nid port ro addr) (λ _, mret (-1))); done.
Qed.

Lemma bind_inv ro f st wt :
  inv_at st wt → alloc_id (ss st) + MAX_SOCKET <= INT_MAX → wp (socket_server_bind ro f) (λ _ st', inv_at st' wt) st.
Proof.
  intros H Hm. apply (open_call _ _ (λ nid, ReqBind nid f ro) (λ _, mret (-1))); done.
Qed.

Lemma listen_inv ro addr port backlog st wt :
  inv_at st wt → alloc_id (ss st) + MAX_SOCKET <= INT_MAX →
  wp (socket_server_listen os ro addr port backlog) (λ _ st', inv_at st' wt) st.
Proof.
  intros H Hm. unfold socket_server_listen. apply wp_bind. eapply wp_mono; [apply do_listen_closed|]. intros [f|] st1 Ho.
  - apply (open_call _ _ (λ nid, ReqListen nid f ro) (λ nid, sys_close f;; mret nid)); try done.
    + by eapply inv_closed.
    + by rewrite (oc_ss _ _ Ho).
    + intros. by apply close_fail.
  - wp_steps. by eapply inv_closed.
Qed.

Lemma udp_inv ro addr port st wt :
  inv_at st wt → alloc_id (ss st) + MAX_SOCKET <= INT_MAX →
  wp (socket_server_udp os ro addr port) (λ _ st', inv_at st' wt) st.
Proof.
  intros H Hm. unfold socket_server_udp. apply wp_bind.
  eapply wp_mono with (Q := λ _ st', only_closed st st').
  { wp_if E; [apply do_bind_closed|]. wp_steps. by apply only_closed_refl. }
  intros [[f inet6]|] st1 Ho.
  - apply (open_call _ _ (λ nid, ReqUdp nid f inet6 ro) (λ nid, sys_close f;; mret (-1))); try done.
    + by eapply inv_closed.
    + by rewrite (oc_ss _ _ Ho).
    + intros. by apply close_fail.
  - wp_steps. by eapply inv_closed.
Qed.

(** ** Closed sockets and their events *)

(** Like [ev_ok], but the event of a socket that was just closed may be left. *)
Definition ev_almost (ty : Z) (st : sys) : Prop :=
  0 <= event_index (ss st) <= Z.of_nat (length (ev (ss st))) ∧ NoDup (omap ev_s (pending_events st)) ∧
  ∃ i, ∀ e j, e ∈ pending_events st → ev_s e = Some j →
    live (type (sock st j)) ∨
    (j = i ∧ type (sock st i) = SOCKET_TYPE_INVALID ∧ (ty = SOCKET_CLOSE ∨ ty = SOCKET_ERR) ∧ sm_id (result st) = id (sock st i)).

Lemma ev_ok_almost ty st : ev_ok st → ev_almost ty st.
Proof. intros []. split; [done|]. split; [done|]. exists 0. intros e j He Hj. left. eauto. Qed.

Lemma clear_loop_length st cid l : length (clear_loop st cid l) = length l.
Proof. induction l as [|e l IH]; [done|]. simpl. destruct (ev_s e); [|by simpl; f_equal]. destruct (_ && _); simpl; by f_equal. Qed.

Lemma clear_loop_sublist st cid l : omap ev_s (clear_loop st cid l) `sublist_of` omap ev_s l.
Proof.
  induction l as [|e l IH]; [done|]. simpl. destruct (ev_s e) as [i|] eqn:E.
  - destruct (_ && _); simpl; [by apply sublist_cons|]. rewrite E. by apply sublist_skip.
  - simpl. by rewrite E.
Qed.

Lemma clear_loop_elem st cid l e j : e ∈ clear_loop st cid l → ev_s e = Some j → e ∈ l.
Proof.
  induction l as [|e0 l IH]; [done|]. simpl. destruct (ev_s e0) as [i|] eqn:E; [destruct (_ && _)|]; rewrite !elem_of_cons;
    intros [->|H] Hj; auto. done.
Qed.

(** A closed socket keeps no event, if it had at most one. *)
Lemma clear_loop_clears st cid l i e :
  NoDup (omap ev_s l) → type (sock st i) = SOCKET_TYPE_INVALID → id (sock st i) = cid →
  (∀ e j, e ∈ l → ev_s e = Some j → j ≠ i → live (type (sock st j))) →
  e ∈ clear_loop st cid l → ev_s e ≠ Some i.
Proof.
  intros Hnd Ht Hid. induction l as [|e0 l IH]; intros Hothers; [intros H; by apply elem_of_nil in H|].
  simpl in *. destruct (ev_s e0) as [k|] eqn:E.
  - apply NoDup_cons in Hnd as [Hk Hnd]. destruct (decide (k = i)) as [->|Hne].
    + rewrite bool_decide_eq_true_2, Hid, Z.eqb_refl by done. simpl. rewrite elem_of_cons. intros [->|He]; [done|].
      intros Hi. apply Hk. apply list_elem_of_omap. eauto.
    + rewrite bool_decide_eq_false_2 by (intros Hi; destruct (Hothers e0 k) as [Hn _]; [by left|done..]). simpl.
      rewrite elem_of_cons. intros [->|He]; [by rewrite E; intros [=]|]. apply IH; try done. intros e1 j He1. apply Hothers. by right.
  - rewrite elem_of_cons. intros [->|He]; [by rewrite E|]. apply IH; try done. intros e1 j He1. apply Hothers. by right.
Qed.

Lemma clear_closed_spec ty st wt :
  core st (pipe st) wt → ev_almost ty st → wp (clear_closed_event ty) (λ _ st', inv_at st' wt ∧ pipe st' = pipe st ∧ checkctrl (ss st') = checkctrl (ss st) ∧
    alloc_id (ss st') = alloc_id (ss st)) st.
Proof.
  intros Hc (Hr & Hnd & i & Hi). unfold clear_closed_event. wp_steps. apply wp_when; intros E.
  - wp_steps. set (n := Z.to_nat (event_index (ss st))). match goal with |- inv_at ?x _ ∧ _ => set (st' := x) end. split; [|done].
    assert (Hs : ∀ j, sock st' j = sock st j) by done.
    assert (Hp : pending_events st' = clear_loop st (sm_id (result st)) (pending_events st)).
    { unfold pending_events, st'. simpl. fold n. rewrite drop_app_ge by (rewrite length_take; lia). rewrite length_take.
      replace (n - n `min` length (ev (ss st)))%nat with 0%nat by lia. done. }
    split.
    + change (pipe st') with (pipe st). apply (core_same_slots mem st); try done. exists []. by rewrite app_nil_r.
    + split; rewrite ?Hp.
      * unfold st'. simpl. fold n. rewrite length_app, clear_loop_length, length_take, length_drop. lia.
      * eapply sublist_NoDup; [|apply clear_loop_sublist]. done.
      * intros e j He Hj. rewrite Hs. pose proof (clear_loop_elem _ _ _ _ _ He Hj) as He'.
        destruct (Hi e j He' Hj) as [Hl|(-> & Ht & _ & Hid)]; [done|]. exfalso.
        eapply (clear_loop_clears st (sm_id (result st)) (pending_events st) i e); try done.
        intros e1 k He1 Hk Hne. destruct (Hi e1 k He1 Hk) as [?|(? & _)]; done.
  - split; [|done]. split; [done|]. split; [done..|]. intros e j He Hj. destruct (Hi e j He Hj) as [?|(_ & _ & Hty & _)]; [done|].
    exfalso. bool_to_prop. destruct Hty; congruence.
Qed.

(** ** The poll thread *)

(** What a request leaves, before the events of a closed socket are cleared. *)
Definition request_done (st : sys) (wt : list request) (ty : Z) (st' : sys) : Prop :=
  core st' (pipe st) wt ∧ pipe st' = pipe st ∧ ev_almost ty st' ∧
  checkctrl (ss st') = checkctrl (ss st) ∧ alloc_id (ss st') = alloc_id (ss st).

Lemma req_almost i G st ty st' : @req_ok mem i G st ty st' → ev_ok st → ev_almost ty st'.
Proof.
  intros (Ho & Hok & Hf & Hk) []. destruct Ho. unfold ev_almost, pending_events in *. rewrite op_ev, op_index.
  split; [done|]. split; [done|]. exists i. intros e j He Hj. specialize (ev_live e j He Hj).
  destruct (decide (j = i)) as [->|Hne]; [|left; by rewrite op_others].
  destruct (decide (type (sock st' i) = SOCKET_TYPE_INVALID)) as [Ht|Ht].
  - right. destruct (Hk Ht) as [E|[Hty Hid]]; [by destruct ev_live|]. by rewrite op_id.
  - left. split; [done|]. rewrite op_reserve. apply ev_live.
Qed.

Lemma request_slot i st r wt ty st' :
  core st (r :: pipe st) wt → ev_ok st → opening r = None → is_send r = None → 0 <= i < MAX_SOCKET →
  @req_ok mem i (req_held r) st ty st' → request_done st wt ty st'.
Proof.
  intros Hc Hev Ho Hs Hi Hr. pose proof Hr as (Hop & Hok & Hf & _). split; [by eapply core_slot|]. split; [apply Hop|].
  split; [by eapply req_almost|]. split; apply Hop.
Qed.

Lemma sent_packet_req i rid pri sz b st r st' :
  protocol (sock st i) ≠ PROTOCOL_TCP → @sent_packet mem i rid pri sz b st r st' → @req_ok mem i [b] st r st'.
Proof.
  intros Hp ([Ho|[Ho _]] & Hok & Hf & Ht & _); (split_and!; [|done..|intros E; left; congruence]); [done|].
  by eapply slot_rel_udp.
Qed.

Lemma sent_packet_dropped i rid pri sz b st r st' :
  id (sock st i) ≠ rid → @sent_packet mem i rid pri sz b st r st' → @req_ok mem i [b] st r st'.
Proof. intros Hp ([Ho|(_ & E & _)] & Hok & Hf & Ht & _); [|done]. split_and!; try done. intros E. left. congruence. Qed.

(** A request that opens a slot. *)
Lemma request_open rid st r wt ty st' :
  core st (r :: pipe st) wt → ev_ok st → opening r = Some rid → @opened mem rid st st' → request_done st wt ty st'.
Proof.
  intros Hc Hev Ho Hop. destruct (opening_facts _ _ Ho) as (H1 & H2 & H3 & H4 & _).
  destruct (core_open mem rid st st' r (pipe st) wt) as [Hc' Hev']; try done.
  split; [done|]. split; [apply Hop|]. split; [by apply ev_ok_almost, Hev'|]. split; apply Hop.
Qed.

Lemma run_request_spec r st wt :
  core st (r :: pipe st) wt → ev_ok st → wp (run_request os mem r) (request_done st wt) st.
Proof.
  intros Hc Hev. pose proof Hc as [Hso Hpo _ _ _].
  assert (Hnr : opening r = None → (∀ x, req_id r = Some x → not_reserved st x) ∧ req_data st r) by (intros Ho; by destruct (pipe_pop _ _ _ _ _ Hpo Ho)).
  assert (Hres : ∀ x, opening r = Some x → type (sock st (HASH_ID x)) = SOCKET_TYPE_RESERVE ∧ id (sock st (HASH_ID x)) = x).
  { intros x Ho. destruct (po_open _ _ _ _ Hpo [] r (pipe st) x) as (? & ? & _); done. }
  assert (Hsock : ∀ i, @sock_ok mem (sock st i) ∧ Forall wb_fresh (low (sock st i))) by apply Hso.
  assert (Hep : epoll_ok st) by apply Hso.
  assert (Hopen : ∀ rid (m : M Z), opening r = Some rid → wp m (λ _ st', @opened mem rid st st') st → wp m (request_done st wt) st).
  { intros rid m Ho Hm. eapply wp_mono; [done|]. intros ty st'. by apply (request_open rid st r). }
  assert (Hslot : ∀ i (m : M Z), opening r = None → is_send r = None → 0 <= i < MAX_SOCKET →
    wp m (@req_ok mem i (req_held r) st) st → wp m (request_done st wt) st).
  { intros i m Ho Hs Hi Hm. eapply wp_mono; [done|]. intros ty st'. by apply (request_slot i st r). }
  destruct r as [rid ro|rid rfd ro|rid rfd ro|rid sh ro|rid port ro host| |pri rid sz b|rid sz b addr|rid what v|rid rfd inet6 ro|rid addr];
    simpl run_request.
  - apply (Hslot (HASH_ID rid)); [done..|apply HASH_ID_range|]. apply start_socket_spec; try apply Hsock. by apply Hnr.
  - apply (Hopen rid); [done|]. destruct (Hres rid eq_refl). apply bind_socket_spec; try done. apply Hsock.
  - apply (Hopen rid); [done|]. destruct (Hres rid eq_refl). apply listen_socket_spec; try done. apply Hsock.
  - apply (Hslot (HASH_ID rid)); [done..|apply HASH_ID_range|]. apply close_socket_spec; try apply Hsock. by apply Hnr.
  - apply (Hopen rid); [done|]. destruct (Hres rid eq_refl). apply open_socket_spec; try done. apply Hsock.
  - apply (Hslot 0); [done..|]. wp_steps. apply quiet_req; try apply Hsock. by apply quiet_result.
  - eapply wp_mono; [by apply core_send|]. intros ty st' (Hc' & Hp & He & Hi & Ht & Hck). split; [done|]. split; [done|].
    split; [|done]. apply ev_ok_almost, (same_events_ok st); [|done]. split; [done..|]. intros j. by rewrite Ht.
  - apply (Hslot (HASH_ID rid)); [done..|apply HASH_ID_range|]. destruct (Hnr eq_refl) as [Hn (Hb & Ha & _ & Hudp)].
    eapply wp_mono; [apply (send_socket_spec (mem:=mem)); [apply Hsock..|by apply Hn|done|by intros [=]]|]. intros ty st' Hs.
    destruct (decide (id (sock st (HASH_ID rid)) = rid)) as [E|E]; [by eapply sent_packet_req; [apply Hudp|]|by eapply sent_packet_dropped].
  - apply (Hslot (HASH_ID rid)); [done..|apply HASH_ID_range|]. apply wp_bind. eapply wp_mono; [apply setopt_spec|]. intros ? st' Hs. wp_steps.
    apply quiet_req; try apply Hsock. by apply quiet_result.
  - apply (Hopen rid); [done|]. destruct (Hres rid eq_refl). apply wp_bind. eapply wp_mono; [apply (add_udp_socket_spec (mem:=mem)); try done; apply Hsock|].
    intros ? st' Hs. by wp_steps.
  - apply (Hslot (HASH_ID rid)); [done..|apply HASH_ID_range|]. destruct (Hnr eq_refl) as [Hn Hd].
    apply set_udp_address_spec; try apply Hsock; [by apply Hn|done].
Qed.

(** ** Events *)

(** A connection is accepted: a slot is reserved and opened at once. *)
Lemma report_accept_inv i st wt :
  inv_at st wt → alloc_id (ss st) + MAX_SOCKET <= INT_MAX → wp (report_accept os i) (λ _ st', inv_at st' wt) st.
Proof.
  intros Hinv Hm. pose proof Hinv as [Hc Hev]. unfold report_accept. wp_steps. ssimpl.
  assert (Hsame : ∀ st', same_but_result st st' → inv_at st' wt).
  { intros st' Hs. eapply inv_closed; [done|by apply only_closed_refl]. }
  destruct (os_accept _ _ _) as [[cfd peer]|e]; [|by wp_if E; wp_steps; apply Hsame].
  assert (Hinv1 : inv_at (ticked st) wt) by (by apply Hsame). pose proof Hinv1 as [Hc1 Hev1].
  pose proof (so_alloc _ _ (core_slots _ _ _ _ Hc1)) as H0. apply wp_bind, wp_reserve_id; [done..| |].
  - intros a Ha. apply close_fail. split; [by apply core_set_alloc|]. apply (same_events_ok st); [|done]. by split.
  - intros nid [Hnid _] Ht. wp_if E; [bool_to_prop; lia|]. set (o := opaque (sock st i)).
    change (upd _ _ _) with (reserve_st (ticked st) nid). set (u := reserve_st (ticked st) nid).
    destruct (reserve_inv (ticked st) wt nid (ReqBind nid cfd o) [] (pipe st)) as [Hcu Hevu]; try done. fold u in Hcu, Hevu.
    assert (Hopen : ∀ st', @opened mem nid u st' → inv_at st' wt).
    { intros st' Ho. destruct (core_open mem nid u st' (ReqBind nid cfd o) (pipe st) wt) as [H1 H2]; try done.
      split; [|by apply H2]. destruct Ho as (Hcl & _). by rewrite (cl_pipe _ _ _ _ Hcl). }
    assert (Hres : type (sock u (HASH_ID nid)) = SOCKET_TYPE_RESERVE ∧ id (sock u (HASH_ID nid)) = nid).
    { unfold u, reserve_st. by rewrite sock_upd_eq. }
    destruct Hres as [Hres Hid]. destruct (so_sock _ _ (core_slots _ _ _ _ Hcu) (HASH_ID nid)) as [Hok _].
    apply wp_bind, (wp_new_fd (mem:=mem)); [done..| |].
    + intros t. simpl negb. unfold sys_close. wp_steps. ssimpl. apply Hopen.
      eapply (opened_fail nid _ _ (set_type SOCKET_TYPE_INVALID (sock u (HASH_ID nid)))); try done; [solve_closes|solve_epoll_sub].
    + intros ep t ->. simpl negb. wp_steps. apply Hopen. ssimpl. eapply (opened_live nid); [solve_closes|done..].
Qed.

(** The event that is being handled is in front of the pending ones. *)
Definition taken (e : event) (st : sys) : Prop :=
  ev_ok st ∧ 1 <= event_index (ss st) ∧
  ∀ i, ev_s e = Some i → live (type (sock st i)) ∧ ∀ e', e' ∈ pending_events st → ev_s e' ≠ Some i.

Lemma again_ok e rd st : taken e st → ev_ok (again_st e rd st).
Proof.
  intros ([] & H1 & Hi). set (n := Z.to_nat (event_index (ss st) - 1)).
  assert (Hn : S n = Z.to_nat (event_index (ss st))) by lia. assert (Hlt : (n < length (ev (ss st)))%nat) by lia.
  assert (Hp : pending_events (again_st e rd st) = mk_event (ev_s e) rd (ev_write e) (ev_error e) :: pending_events st).
  { unfold pending_events, again_st. simpl. fold n. rewrite <- Hn.
    rewrite (drop_S _ (mk_event (ev_s e) rd (ev_write e) (ev_error e)) n) by (by rewrite list_lookup_insert_eq).
    f_equal. apply drop_insert_lt. lia. }
  split; rewrite ?Hp.
  - unfold again_st. simpl. rewrite length_insert. lia.
  - simpl. destruct (ev_s e) as [i|] eqn:E; [|done]. apply NoDup_cons. split; [|done].
    intros (e' & He' & Hs)%list_elem_of_omap. destruct (Hi i eq_refl) as [_ Hno]. by apply (Hno e').
  - intros e' i He' Hs. change (sock (again_st e rd st) i) with (sock st i). apply elem_of_cons in He' as [->|He']; [|eauto].
    by apply Hi.
Qed.

Lemma event_done i e st wt ty st1 :
  core st (pipe st) wt → taken e st → ev_s e = Some i → 0 <= i < MAX_SOCKET → @req_ok mem i [] st ty st1 →
  inv_at st1 wt ∧ (type (sock st1 i) = type (sock st i) → taken e st1).
Proof.
  intros Hc (Hev & H1 & Hi) Hs Hr (Ho & Hok & Hf & _). destruct (Hi i Hs) as [Hl Hno].
  assert (Hev1 : ev_ok st1) by (eapply ev_rel; [done..|]; by right). split.
  - split; [|done]. rewrite (op_pipe _ _ _ _ _ Ho). by eapply core_event.
  - intros Ht. split; [done|]. unfold pending_events in *. rewrite (op_index _ _ _ _ _ Ho), (op_ev _ _ _ _ _ Ho). split; [done|].
    intros j Hj. assert (j = i) as -> by congruence. by rewrite Ht.
Qed.

Lemma dispatch_inv e st wt :
  core st (pipe st) wt → taken e st → (∀ i, ev_s e = Some i → 0 <= i < MAX_SOCKET) → alloc_id (ss st) + MAX_SOCKET <= INT_MAX →
  wp (dispatch_event os mem e) (λ _ st', inv_at st' wt) st.
Proof.
  intros Hc Htk Hr Hm. pose proof Htk as (Hev & _ & Hi). unfold dispatch_event. destruct (ev_s e) as [i|] eqn:E; [|by wp_steps].
  specialize (Hr i eq_refl). destruct (Hi i eq_refl) as [Hl _]. destruct (so_sock _ _ (core_slots _ _ _ _ Hc) i) as [Hok Hf]. wp_steps.
  assert (Hh : wp (handle_event os mem i e) (λ _ st', inv_at st' wt) st).
  { eapply wp_mono; [by apply handle_event_spec|]. intros ? st' (ty & st1 & Hreq & Hor).
    destruct (event_done i e st wt ty st1) as [Hinv1 Htk1]; try done.
    destruct Hor as [->|(rd & Ht & ->)]; [done|]. destruct Hinv1 as [Hc1 _]. split; [|by apply again_ok, Htk1].
    apply (core_same_slots mem st1); try done. exists []. by rewrite app_nil_r. }
  destruct (type (sock st i)) eqn:Et; try exact Hh; wp_steps; try (by split).
  - eapply wp_mono; [by apply report_accept_inv; [split|]|]. intros ? st' H. by wp_steps.
  - eapply wp_mono; [apply (report_connect_spec (mem:=mem)); by rewrite ?Et|]. intros ty st' H. wp_steps. by eapply event_done.
Qed.

Lemma live_range st i : slots_ok st → live (type (sock st i)) → 0 <= i < MAX_SOCKET.
Proof.
  intros Hso [Hl _]. destruct (so_id _ _ Hso i) as [(_ & E & _)|(E & _)]; [done|]. rewrite <- E. apply HASH_ID_range.
Qed.

Lemma next_event_spec st wt (Q : event → sys → Prop) :
  inv_at st wt → event_index (ss st) < event_n (ss st) →
  (∀ e st', core st' (pipe st') wt → taken e st' → alloc_id (ss st') = alloc_id (ss st) → Q e st') → wp next_event Q st.
Proof.
  intros [Hc Hev] Hlt HQ. unfold next_event, event_n, arr_get in *. wp_steps. pose proof Hev as []. zcases.
  destruct (ev (ss st) !! Z.to_nat (event_index (ss st))) as [e|] eqn:Ee.
  2: { apply lookup_ge_None in Ee. lia. }
  wp_steps. match goal with |- Q _ ?x => set (st' := x) end.
  assert (Hp : pending_events st = e :: pending_events st').
  { unfold pending_events, st'. simpl. rewrite (drop_S _ _ _ Ee). do 2 f_equal. lia. }
  apply HQ; [|split_and!|done].
  - apply (core_same_slots mem st); try done. exists []. by rewrite app_nil_r.
  - split.
    + unfold st'. simpl. lia.
    + rewrite Hp in ev_nodup. simpl in ev_nodup. destruct (ev_s e); [by apply NoDup_cons in ev_nodup as [_ ?]|done].
    + intros e' i He' Hi. apply (ev_live e'); [rewrite Hp; by right|done].
  - unfold st'. simpl. lia.
  - intros i Hi. split; [apply (ev_live e); [rewrite Hp; by left|done]|]. intros e' He' Hi'.
    rewrite Hp in ev_nodup. simpl in ev_nodup. rewrite Hi in ev_nodup. apply NoDup_cons in ev_nodup as [Hn _].
    apply Hn, list_elem_of_omap. eauto.
Qed.

Lemma wait_events_spec st wt :
  inv_at st wt →
  wp (wait_events os) (λ r st', inv_at st' wt ∧ alloc_id (ss st') = alloc_id (ss st) ∧
    (r = None → event_index (ss st') < event_n (ss st'))) st.
Proof.
  intros [Hc Hev]. unfold wait_events. wp_steps. ssimpl.
  assert (Hset : ∀ l st', NoDup (omap ev_s l) → (∀ e i, e ∈ l → ev_s e = Some i → ∃ f w, epoll st !! f = Some (i, w)) →
    st' = set_ss (set_more (set_ss (ticked st) (set_checkctrl true (ss st))) false) (set_events 0 l (set_checkctrl true (ss st))) → inv_at st' wt).
  { intros l st' Hnd Hl ->. split.
    - apply (core_same_slots mem st); try done. exists []. by rewrite app_nil_r.
    - split; [unfold event_n; simpl; lia|done|]. intros e i He Hi. destruct (Hl e i He Hi) as (f & w & Hf).
      by destruct (so_epoll _ _ (core_slots _ _ _ _ Hc) f i w Hf). }
  destruct (os_epoll_wait _ _ _) as [l|e] eqn:Ew; wp_steps.
  - apply law_wait in Ew as [Hnd Hl]. split_and!; [by eapply Hset|done|]. intros Hr. unfold event_n. simpl. destruct l; [done|simpl; lia].
  - split_and!; [eapply (Hset []); [constructor|intros ? ? H; by apply elem_of_nil in H|done]|done|done].
Qed.

Lemma poll_event_inv st wt :
  inv_at st wt → alloc_id (ss st) + MAX_SOCKET <= INT_MAX → wp (poll_event os mem) (λ _ st', inv_at st' wt) st.
Proof.
  intros Hinv Hm. unfold poll_event. wp_steps.
  apply wp_mono with (Q := λ r st', inv_at st' wt ∧ alloc_id (ss st') = alloc_id (ss st) ∧
    (r = None → event_index (ss st') < event_n (ss st'))).
  { wp_if E; [by apply wait_events_spec|]. wp_steps. split; [done|]. split; [done|]. intros _. destruct Hinv as [_ []].
    unfold event_n in *. bool_to_prop. lia. }
  intros [r|] st1 (Hinv1 & Ha & Hlt); [by wp_steps|]. apply wp_bind, (next_event_spec st1 wt); [done|auto|].
  intros e st2 Hc2 Htk Ha2. apply dispatch_inv; [done|done| |by rewrite Ha2, Ha].
  intros i Hi. destruct Htk as (_ & _ & Hl). destruct (Hl i Hi) as [Hlv _]. by eapply live_range; [apply Hc2|].
Qed.

(** A round that finds a request handles it. *)
Lemma request_round st wt r pp :
  inv_at st wt → checkctrl (ss st) = true → pipe st = r :: pp →
  wp (poll_round os mem) (λ _ st', inv_at st' wt ∧ pipe st' = pp ∧ checkctrl (ss st') = true ∧ alloc_id (ss st') = alloc_id (ss st)) st.
Proof.
  intros [Hc Hev] Hck Ep. unfold poll_round. wp_steps. rewrite Hck. unfold has_cmd. wp_steps. rewrite Ep. simpl. wp_steps.
  unfold ctrl_cmd. wp_steps. rewrite Ep. wp_steps. set (st1 := set_pipe st pp).
  assert (Hc1 : core st1 (r :: pipe st1) wt) by (rewrite Ep in Hc; by eapply core_ext).
  assert (Hev1 : ev_ok st1) by (by apply (same_events_ok st); [apply same_events_ss|]).
  eapply wp_mono; [by apply run_request_spec|]. intros ty st2 (Hc2 & Hp2 & Hal & Hck2 & Ha2). rewrite <- Hp2 in Hc2. wp_if E2.
  - apply wp_bind. eapply wp_mono; [by apply clear_closed_spec|]. intros ? st3 (H & H1 & H2 & H3). wp_steps.
    split; [done|]. by rewrite H1, H2, H3, Hp2, Hck2, Ha2.
  - wp_steps. bool_to_prop. subst ty. destruct Hal as (Hr & Hnd & i & Hi). split; [|by rewrite Hp2, Hck2, Ha2].
    split; [done|]. split; [done..|]. intros e j He Hj. destruct (Hi e j He Hj) as [?|(_ & _ & [?|?] & _)]; done.
Qed.

Lemma poll_round_inv st wt :
  inv_at st wt → alloc_id (ss st) + MAX_SOCKET <= INT_MAX → wp (poll_round os mem) (λ _ st', inv_at st' wt) st.
Proof.
  intros Hinv Hm. destruct (checkctrl (ss st)) eqn:E; [|unfold poll_round; wp_steps; rewrite E; by apply poll_event_inv].
  destruct (pipe st) as [|r pp] eqn:Ep; [|eapply wp_mono; [by apply (request_round st wt r pp)|by intros ? ? (? & _)]].
  unfold poll_round. wp_steps. rewrite E. unfold has_cmd. wp_steps. rewrite Ep. simpl. wp_steps.
  destruct Hinv as [Hc Hev]. apply poll_event_inv; [|done]. split; [apply (core_same_slots mem st); try done; exists []; by rewrite app_nil_r|].
  apply (same_events_ok st); [by split|done].
Qed.

(** ** Runs *)

Lemma held_all_init : held_all socket_server_create = [].
Proof.
  unfold held_all. rewrite (concat_ext _ (λ _, [])) by done. generalize (seqZ 0 MAX_SOCKET). intros l. by induction l.
Qed.

Lemma inv_init : inv config0.
Proof.
  split; [split|].
  - split; try done.
    + intros i. split; [|constructor]. by split; simpl; try done; intros [].
    + intros i. by left.
  - split; [intros r x H|intros l1 r l2 x Hl; by destruct l1|intros i|intros r x H|intros r H|intros r H]; try done; by apply elem_of_nil in H.
  - intros i. done.
  - unfold own_ok. simpl. by rewrite held_all_init.
  - split; [|done]. intros x Hx. exists []. split; try done. simpl. destruct (bool_decide _); done.
  - split; [done|constructor|]. intros e i H. by apply elem_of_nil in H.
Qed.

Lemma run_m_inv {A} (m : M A) c :
  wp m (λ _ st', inv_at st' (c_wait c)) (c_sys c) → ∃ c', run_m m c = Some c' ∧ inv c'.
Proof. intros H. apply wp_some in H as (a & st' & E & Hi). unfold run_m. rewrite E. eexists. split; [done|]. by destruct Hi. Qed.

Lemma exec_inv c a : inv c → allowed mem a c → ∃ c', exec os mem a c = Some c' ∧ inv c'.
Proof.
  intros Hinv [Hm Ha]. assert (Hat : inv_at (c_sys c) (c_wait c)) by (by destruct Hinv).
  assert (Hq : ∀ r, may_join (c_sys c) r → is_send r = None → req_held r = [] → ∃ c', run_m (send_request r) c = Some c' ∧ inv c').
  { intros r Hj Hs Hh. apply run_m_inv, wp_send_request. by apply queue_inv. }
  destruct a as [|ro addr port|ro addr port backlog|ro f|ro addr port|ro rid|ro rid|ro rid|rid| |pri rid b sz|n|rid addr b sz|rid addr port];
    simpl exec.
  - by apply run_m_inv, poll_round_inv.
  - by apply run_m_inv, connect_inv.
  - by apply run_m_inv, listen_inv.
  - by apply run_m_inv, bind_inv.
  - by apply run_m_inv, udp_inv.
  - apply Hq; try done. split_and!; try done. by intros x [= <-].
  - apply Hq; try done. split_and!; try done. by intros x [= <-].
  - apply Hq; try done. split_and!; try done. by intros x [= <-].
  - apply Hq; try done. split_and!; try done. by intros x [= <-].
  - by apply Hq.
  - destruct Ha as (? & ? & ?). by apply exec_send_inv.
  - destruct (c_wait c !! n) as [r|] eqn:En; [|eauto]. destruct r as [| | | | | |pri rid sz b| | | |]; try (by eauto).
    destruct c as [st wt]. simpl in *. destruct Hat as [Hc Hev]. eexists. split; [done|].
    split; simpl; [eapply core_post; [done..|]|by apply (same_events_ok st); [apply same_events_ss|]].
    split; [done|]. split; [done|]. simpl. rewrite (so_soi _ _ (core_slots _ _ _ _ Hc)). done.
  - destruct Ha as (H1 & H2 & H3). by apply run_m_inv, udp_send_inv.
  - by apply run_m_inv, udp_connect_inv.
Qed.

Lemma reachable_inv c : reachable os mem c → inv c.
Proof.
  induction 1 as [|c a c' _ IH Ha E]; [apply inv_init|]. destruct (exec_inv c a IH Ha) as (c2 & E2 & Hi). congruence.
Qed.

End Runs.
