(* ===== verification/SocketLive.v ===== *)
(** * The socket server gets things done

    A socket that is being closed writes what it was given, at every event
    where the kernel takes a byte, until it is done or a write fails; and the
    requests in the pipe are taken one a round. *)

From Stdlib Require Import ZArith Lia.
From stdpp Require Import base tactics option numbers gmap list strings sorting.
From S2P Require Import Prelude SocketServer SocketProof SocketEvents SocketInv SocketRuns.

Local Open Scope Z_scope.

(** The kernel's answers at moment [t] that keep data waiting: another thread
    holds the lock of the socket, or a write to descriptor [f] would block or
    takes nothing of some data. *)
Definition stalls (os : OS) (f : Z) (t : nat) : Prop :=
  os_locked os t = true ∨ ∃ d, os_write os t f d = - EAGAIN ∨ d ≠ [] ∧ os_write os t f d = 0.

(** A write that fails; the data that is left is lost. *)
Definition fails (os : OS) (f : Z) (t : nat) : Prop :=
  ∃ d, os_write os t f d < 0 ∧ os_write os t f d ≠ - EAGAIN ∧ os_write os t f d ≠ - EINTR.

Section Live.
Context {os : OS} `{!OSLaws os} {mem : positive → list Z}.

Local Notation wbd := (@wbd mem).
Local Notation pend := (@pend mem).
Local Notation lowd := (@lowd mem).
Local Notation sock_ok := (@sock_ok mem).
Local Notation sent := (@sent mem).
Local Notation slot_op := (slot_rel (@stream_op mem)).

Lemma wp_and {A} (m : M A) Q1 Q2 st : wp m Q1 st → wp m Q2 st → wp m (λ a st', Q1 a st' ∧ Q2 a st') st.
Proof. unfold wp. by destruct (m st) as [[a st']|]. Qed.

(** What a socket still has to send. *)
Definition rest (s : socket) : list Z := pend s ++ concat (lowd s).

(** Nothing is lost while the socket lives. *)
Lemma live_conserve i G st st' :
  slot_op i G st st' → protocol (sock st i) = PROTOCOL_TCP → type (sock st' i) ≠ SOCKET_TYPE_INVALID →
  writes (id (sock st i)) (log st') ++ rest (sock st' i) = writes (id (sock st i)) (log st) ++ rest (sock st i).
Proof.
  intros [] Htcp Ht. destruct op_log as (evs & -> & _ & _ & HS & _). destruct (HS Htcp) as [C HC HP|C R E]; [|done].
  unfold rest. rewrite HC, concat_app, writes_app. rewrite (app_assoc (pend (sock st i))), HP. by rewrite <- !app_assoc.
Qed.

(** Closing an empty socket writes nothing. *)
Lemma empty_conserve i st st' :
  slot_op i [] st st' → protocol (sock st i) = PROTOCOL_TCP → rest (sock st i) = [] → sock_ok (sock st' i) →
  type (sock st' i) = SOCKET_TYPE_INVALID → writes (id (sock st i)) (log st') = writes (id (sock st i)) (log st).
Proof.
  intros [] Htcp Hr Hok Ht. destruct op_log as (evs & -> & _ & _ & HS & _). rewrite writes_app.
  apply app_nil in Hr as [Hp Hl]. destruct (sock_ok_dead _ Hok Ht) as [Hp' Hl'].
  assert (writes (id (sock st i)) evs = []) as ->; [|apply app_nil_r].
  destruct (HS Htcp) as [C HC HP|C R _ HC HP]; rewrite HC, concat_app in Hl; apply app_nil in Hl as [Hl _]; rewrite Hp, Hl in HP.
  - rewrite Hp' in HP. simpl in HP. by rewrite app_nil_r in HP.
  - by apply prefix_nil_inv in HP.
Qed.

Lemma total_nonneg l : Forall (@wb_ok mem) l → 0 <= total l.
Proof. induction 1 as [|wb l (_ & H & _) _ IH]; [done|]. unfold total in *. simpl. lia. Qed.

Lemma bytes_total l : Forall (@wb_ok mem) l → Z.of_nat (length (concat (wbd <$> l))) = total l.
Proof.
  induction 1 as [|wb l Hwb _ IH]; [done|]. change (concat (wbd <$> wb :: l)) with (wbd wb ++ concat (wbd <$> l)).
  rewrite length_app, Nat2Z.inj_add, IH, wbd_length by done. done.
Qed.

(** ** Requests *)

(** [n] rounds of the poll loop. *)
Fixpoint poll_rounds (n : nat) : M unit :=
  match n with O => mret tt | S n => poll_round os mem;; poll_rounds n end.

Lemma rounds_empty n st wt :
  inv_at (mem:=mem) st wt → checkctrl (ss st) = true → n = length (pipe st) →
  wp (poll_rounds n) (λ _ st', pipe st' = []) st.
Proof.
  revert st. induction n as [|n IH]; intros st Hi Hck Hn; simpl; wp_steps.
  { by destruct (pipe st). }
  destruct (pipe st) as [|r pp] eqn:Ep; [done|]. injection Hn as Hn.
  eapply wp_mono; [by apply (request_round st wt r pp)|]. intros ? st1 (Hi1 & Hp1 & Hck1 & _). apply IH; [done..|]. by rewrite Hp1.
Qed.

(** ** Closing *)

(** What is written is the beginning of what there was to send. *)
Lemma written_split i st st' :
  slot_op i [] st st' → protocol (sock st i) = PROTOCOL_TCP →
  ∃ w r, rest (sock st i) = w ++ r ∧ writes (id (sock st i)) (log st') = writes (id (sock st i)) (log st) ++ w ∧
    (type (sock st' i) ≠ SOCKET_TYPE_INVALID → rest (sock st' i) = r).
Proof.
  intros Ho Htcp. pose proof (op_log _ _ _ _ _ Ho) as (evs & E & _ & _ & HS & _). exists (writes (id (sock st i)) evs).
  assert (Hw : writes (id (sock st i)) (log st') = writes (id (sock st i)) (log st) ++ writes (id (sock st i)) evs) by (by rewrite E, writes_app).
  destruct (decide (type (sock st' i) = SOCKET_TYPE_INVALID)) as [Ht|Ht].
  - assert (writes (id (sock st i)) evs `prefix_of` rest (sock st i)) as [r Hr].
    { unfold rest. destruct (HS Htcp) as [C HC HP|C R _ HC [r HP]]; rewrite HC, concat_app, (app_assoc (pend (sock st i))), HP, <- !app_assoc; by eexists. }
    exists r. done.
  - exists (rest (sock st' i)). split; [|done]. pose proof (live_conserve i [] st st' Ho Htcp Ht) as Hc. rewrite Hw, <- app_assoc in Hc.
    by apply app_inv_head in Hc.
Qed.

Lemma wp_write_tick n i d (Q : Z → sys → Prop) st :
  (∃ k, (k < n)%nat ∧ os_write os (tick st + k) (fd (sock st i)) d ≠ - EINTR) →
  (∀ t st', (tick st <= t < tick st')%nat → os_write os t (fd (sock st i)) d ≠ - EINTR → (∀ j, sock st' j = sock st j) →
     Q (os_write os t (fd (sock st i)) d) st') →
  wp (write_retry os n i d) Q st.
Proof.
  revert st. induction n as [|n IH]; intros st (k & Hk & Hne) H; [lia|]. simpl. unfold sys_write. wp_steps. ssimpl.
  set (r := os_write os (tick st) (fd (sock st i)) d) in *.
  assert (Hgo : ∀ st1, tick st1 = S (tick st) → (∀ j, sock st1 j = sock st j) →
    wp (if r =? - EINTR then write_retry os n i d else mret r) Q st1).
  { intros st1 Ht1 Hs1. destruct (Z.eqb_spec r (- EINTR)) as [Hr|Hr].
    - destruct k as [|k]; [by rewrite Nat.add_0_r in Hne|]. apply IH.
      + exists k. rewrite Hs1, Ht1. split; [lia|]. by replace (S (tick st) + k)%nat with (tick st + S k)%nat by lia.
      + rewrite Hs1, Ht1. intros t st2 Ht Hw Hs2. apply H; [lia|done|]. intros j. by rewrite Hs2.
    - wp_steps. apply H; [lia|done|done]. }
  apply wp_when; intros E; wp_steps; apply Hgo; done.
Qed.

(** Closing makes no system call that is answered. *)
Lemma force_close_tick i st : sock_ok (sock st i) → type (sock st i) ≠ SOCKET_TYPE_RESERVE →
  wp (force_close i) (λ _ st', tick st' = tick st) st.
Proof.
  intros Hok Hr. unfold force_close. wp_steps. case_bool_decide; wp_steps; [done|].
  apply wp_assert; [by rewrite bool_decide_eq_true_2|]. apply wp_bind, wp_free_wb_list. wp_steps. apply wp_free_wb_list. wp_steps.
  apply wp_when; intros _; wp_steps; apply wp_when; intros _; unfold sys_close; wp_steps;
    (destruct (dw_buffer (sock st i)) as [b|] eqn:Edw;
      [destruct (ok_dw _ Hok b Edw) as [Hd1 Hd2]; apply wp_bind, wp_free_buffer; [lia|]|]; wp_steps); done.
Qed.

(** A list is sent to its end, or in part, or the kernel takes nothing, or the
    write fails. *)
Lemma send_list_progress i pri l st :
  let f := fd (sock st i) in
  live (type (sock st i)) → sock_ok (sock st i) → get_list pri (sock st i) = l → protocol (sock st i) = PROTOCOL_TCP →
  wp (send_list_tcp os mem i pri l) (λ r st',
    (r = -1 ∧ fd (sock st' i) = f ∧ (tick st <= tick st')%nat ∧
     (get_list pri (sock st' i) = [] ∨ total (get_list pri (sock st' i)) < total l ∨ ∃ t, (tick st <= t < tick st')%nat ∧ stalls os f t)) ∨
    (r = SOCKET_CLOSE ∧ ∃ t, (tick st <= t < tick st')%nat ∧ fails os f t)) st.
Proof.
  revert st. induction l as [|tmp next IH]; intros st f Hlive Hok Hl Htcp; simpl.
  { wp_steps. left. rewrite Hl. auto. }
  assert (wb_ok (mem:=mem) tmp ∧ Forall (wb_ok (mem:=mem)) next) as [Hwb Hnext].
  { pose proof (ok_list pri _ Hok) as H. rewrite Hl in H. by inversion H. }
  apply wp_bind, wp_wb_data; [done|]. apply wp_bind, (wp_write_tick _ i (wbd tmp)); [apply law_eintr|]. intros t st1 Ht Hne Hs1.
  pose proof (law_write t (fd (sock st i)) (wbd tmp)) as Hle. fold f in Hne, Hle |- *. rewrite wbd_length in Hle by done.
  destruct (Z.ltb_spec (os_write os t f (wbd tmp)) 0) as [Hneg|Hpos].
  { destruct (Z.eqb_spec (os_write os t f (wbd tmp)) (- EAGAIN)) as [Ha|Ha].
    - wp_steps. left. rewrite Hs1. split_and!; [done|done|lia|]. right; right. exists t. split; [lia|]. right. eauto.
    - apply wp_bind. eapply wp_mono; [apply force_close_tick; rewrite Hs1; [done|apply Hlive]|].
      intros ? st2 Htk. cbv beta in Htk. wp_steps. right. split; [done|]. exists t. split; [lia|]. by exists (wbd tmp). }
  set (r := os_write os t f (wbd tmp)) in *. wp_steps.
  destruct (Z.eqb_spec r (wb_sz tmp)) as [Hrs|Hrs]; simpl negb; unfold write_buffer_free; wp_steps; ssimpl; rewrite Hs1.
  - match goal with |- wp _ _ ?x => set (st2 := x) end.
    assert (Hs2 : sock st2 i = set_wb_size (wb_size (sock st i) - wb_sz tmp) (set_list pri next (sock st i))).
    { unfold st2. ssimpl. by rewrite Hrs, set_set_list. }
    assert (Ht2 : tick st2 = tick st1) by done. assert (Hf2 : fd (sock st2 i) = f) by (rewrite Hs2; by destruct pri).
    assert (Htot : total next <= total (tmp :: next)) by (destruct Hwb as (_ & Hsz & _); unfold total; simpl; lia).
    eapply wp_mono; [apply IH; rewrite Hs2; try (by destruct pri)|].
    + replace (wb_size (sock st i) - wb_sz tmp) with (wb_size (sock st i) - total (tmp :: next) + total next) by (unfold total; simpl; lia).
      by apply sock_ok_shorter.
    + rewrite Hf2, Ht2. intros r' st' [(-> & Hf & Htk & Hor)|(-> & t' & Ht' & Hfl)]; [left|right; split; [done|]; exists t'; split; [lia|done]].
      split_and!; [done|done|lia|]. destruct Hor as [?|[?|(t' & Ht' & ?)]]; [by left|right; left; lia|right; right; exists t'; split; [lia|done]].
  - left. split_and!; [done|by destruct pri|simpl; lia|]. right. destruct (decide (r = 0)) as [E|E].
    + right. exists t. split; [simpl; lia|]. right. exists (wbd tmp). right. split; [|done].
      intros E0. pose proof (wbd_length _ Hwb) as Hlen. rewrite E0 in Hlen. simpl in Hlen. lia.
    + left. destruct pri; unfold total; simpl; lia.
Qed.

(** One writable event of a socket that is being closed: it is closed with
    everything written or after a failed write, or it stays and has less to
    send, unless the kernel took nothing. *)
Definition drained (i : Z) (st st' : sys) : Prop :=
  let x := id (sock st i) in let f := fd (sock st i) in
  (type (sock st' i) = SOCKET_TYPE_INVALID ∧
    (writes x (log st') = writes x (log st) ++ rest (sock st i) ∨ ∃ t, (tick st <= t < tick st')%nat ∧ fails os f t)) ∨
  (type (sock st' i) = SOCKET_TYPE_HALFCLOSE ∧ fd (sock st' i) = f ∧ (tick st <= tick st')%nat ∧
    ((length (rest (sock st' i)) < length (rest (sock st i)))%nat ∨ ∃ t, (tick st <= t < tick st')%nat ∧ stalls os f t)).

(** At the end of the lists the socket is closed. *)
Lemma send_done_drained i st st1 :
  slot_op i [] st st1 → protocol (sock st i) = PROTOCOL_TCP → type (sock st1 i) = SOCKET_TYPE_HALFCLOSE → sock_ok (sock st1 i) →
  dw_buffer (sock st1 i) = None → high (sock st1 i) = [] → low (sock st1 i) = [] →
  wp (send_done i) (λ _ st', drained i st st') st1.
Proof.
  intros Ho Htcp Ht Hok Hd Hh Hl. assert (Hlive : live (type (sock st1 i))) by (by rewrite Ht).
  assert (Hr1 : rest (sock st1 i) = []) by (unfold rest, SocketProof.pend, SocketProof.lowd, dwd; by rewrite Hd, Hh, Hl).
  assert (Htcp1 : protocol (sock st1 i) = PROTOCOL_TCP) by (by rewrite (op_protocol _ _ _ _ _ Ho)).
  assert (Hc : wp (send_done i) (λ r st', r = SOCKET_CLOSE) st1).
  { unfold send_done. wp_steps. apply wp_assert; [by unfold send_buffer_empty; rewrite Hh, Hl, (ok_size _ Hok Hlive), Hh, Hl|].
    apply wp_bind, wp_sp_write. rewrite bool_decide_eq_true_2 by done. apply wp_bind.
    eapply wp_mono; [apply (force_close_spec (mem:=mem)); rewrite sp_write_sock; [done|by rewrite Ht]|]. intros. by wp_steps. }
  eapply wp_mono; [apply wp_and; [exact Hc|by apply (send_done_spec (mem:=mem))]|].
  intros r st2 [-> (Ho2 & Hok2 & _ & [(_ & E & _)|(Ht2 & _ & _)])]; [done|].
  pose proof (empty_conserve i st1 st2 Ho2 Htcp1 Hr1 Hok2 Ht2) as Hw. rewrite (op_id _ _ _ _ _ Ho) in Hw.
  left. split; [done|]. left. rewrite Hw, <- (live_conserve i [] st st1), Hr1, app_nil_r by (done || by rewrite Ht). done.
Qed.

Lemma rest_length s :
  live (type s) → sock_ok s → dw_buffer s = None → Z.of_nat (length (rest s)) = wb_size s ∧ wb_size s = total (high s) + total (low s).
Proof.
  intros Hl [] Hd. split; [|auto]. unfold rest, SocketProof.pend, SocketProof.lowd, dwd. rewrite Hd, ok_size by done. simpl.
  rewrite length_app, Nat2Z.inj_add, !bytes_total by done. done.
Qed.

Lemma raise_fields i st : low (sock st i) ≠ [] → high (sock st i) = [] →
  wp (raise_uncomplete i) (λ _ st', wb_size (sock st' i) = wb_size (sock st i) ∧ dw_buffer (sock st' i) = dw_buffer (sock st i) ∧
    fd (sock st' i) = fd (sock st i) ∧ tick st' = tick st) st.
Proof.
  intros Hl Hh. unfold raise_uncomplete. wp_steps. destruct (low (sock st i)) as [|tmp next]; [done|]. wp_steps.
  apply wp_assert; [by rewrite Hh|]. wp_steps. by ssimpl.
Qed.

(** Sending a list, with the progress. *)
Lemma send_list_both i pri st :
  let f := fd (sock st i) in
  live (type (sock st i)) → sock_ok (sock st i) → protocol (sock st i) = PROTOCOL_TCP →
  wp (send_list os mem i pri) (λ r st',
    (r = -1 ∧ sent i pri st st' ∧ fd (sock st' i) = f ∧ (tick st <= tick st')%nat ∧
     (get_list pri (sock st' i) = [] ∨ total (get_list pri (sock st' i)) < total (get_list pri (sock st i)) ∨
      ∃ t, (tick st <= t < tick st')%nat ∧ stalls os f t)) ∨
    (r = SOCKET_CLOSE ∧ type (sock st' i) = SOCKET_TYPE_INVALID ∧ ∃ t, (tick st <= t < tick st')%nat ∧ fails os f t)) st.
Proof.
  intros f Hl Hok Htcp. eapply wp_mono.
  - apply wp_and; [by apply (send_list_spec (mem:=mem))|]. unfold send_list. wp_steps. rewrite Htcp. simpl Z.eqb. by apply send_list_progress.
  - intros r st' [[[-> Hs]|(-> & st1 & _ & _ & _ & Ht & _)] [(E & Hp)|(E & Hp)]]; [by left|done|done|by right].
Qed.

(** The totals of the lists, and what is left of them. *)
Lemma rest_shrinks i st st' :
  live (type (sock st i)) → sock_ok (sock st i) → dw_buffer (sock st i) = None →
  live (type (sock st' i)) → sock_ok (sock st' i) → dw_buffer (sock st' i) = None → wb_size (sock st' i) < wb_size (sock st i) →
  (length (rest (sock st' i)) < length (rest (sock st i)))%nat.
Proof. intros Hl Hok Hd Hl' Hok' Hd' Hlt. destruct (rest_length _ Hl Hok Hd). destruct (rest_length _ Hl' Hok' Hd'). lia. Qed.

Lemma send_buffer__drained i st :
  type (sock st i) = SOCKET_TYPE_HALFCLOSE → sock_ok (sock st i) → dw_buffer (sock st i) = None →
  Forall wb_fresh (low (sock st i)) → protocol (sock st i) = PROTOCOL_TCP →
  wp (send_buffer_ os mem i) (λ _ st', drained i st st') st.
Proof.
  intros Ht Hok Hd Hf Htcp. assert (Hl : live (type (sock st i))) by (by rewrite Ht). destruct (rest_length _ Hl Hok Hd) as [_ Hsz].
  pose proof (total_nonneg _ (ok_high _ Hok)) as Hth. unfold send_buffer_. wp_steps. apply wp_assert; [by rewrite fresh_complete|]. wp_steps.
  eapply wp_mono; [by apply send_list_both|].
  intros r st1 [(-> & Hs & Hf1 & Htk1 & Hp)|(-> & Ht1 & Hfl)]; simpl Z.eqb; wp_steps; [|left; by split; [|right]].
  pose proof (sent_ok _ _ _ _ Hl Hok Hs) as Hok1. destruct (sent_fields _ _ _ _ Hs) as (Ht1 & Hd1 & _ & Hlo1 & _).
  specialize (Hlo1 eq_refl). pose proof (sent_high i st _ Hd Hs) as Ho1. rewrite Hd in Hd1. rewrite Ht in Ht1. simpl in Hp.
  assert (Hl1 : live (type (sock st1 i))) by (by rewrite Ht1). destruct (rest_length _ Hl1 Hok1 Hd1) as [_ Hsz1].
  destruct (high (sock st1 i)) as [|wb h] eqn:Eh.
  2: { wp_steps. right. split_and!; try done. destruct Hp as [?|[Hp|?]]; [done|left|by right].
       apply rest_shrinks; try done. rewrite Hlo1 in Hsz1. lia. }
  destruct (low (sock st1 i)) as [|wl l] eqn:El; [by apply send_done_drained|]. wp_steps.
  assert (Htcp1 : protocol (sock st1 i) = PROTOCOL_TCP) by (by rewrite (op_protocol _ _ _ _ _ Ho1)).
  assert (Hfr1 : Forall wb_fresh (low (sock st1 i))) by (by rewrite El, Hlo1).
  assert (Hw1 : wb_size (sock st1 i) <= wb_size (sock st i)) by (rewrite Hsz, Hsz1, Hlo1; change (total []) with 0; lia).
  eapply wp_mono; [by apply send_list_both|].
  intros r st2 [(-> & Hs2 & Hf2 & Htk2 & Hp2)|(-> & Ht2 & t & Htt & Hfl)]; simpl Z.eqb; wp_steps.
  2: { left. split; [done|]. right. exists t. rewrite Hf1 in Hfl. split; [lia|done]. }
  rewrite Hf1 in Hf2, Hp2. pose proof (sent_ok _ _ _ _ Hl1 Hok1 Hs2) as Hok2. destruct (sent_fields _ _ _ _ Hs2) as (Ht2 & Hd2 & _ & _ & Hh2).
  specialize (Hh2 eq_refl). rewrite Eh in Hh2. rewrite Hd1 in Hd2. rewrite Ht1 in Ht2. simpl in Hp2.
  assert (Hl2 : live (type (sock st2 i))) by (by rewrite Ht2). destruct (rest_length _ Hl2 Hok2 Hd2) as [_ Hsz2].
  assert (Hlt : low (sock st2 i) ≠ [] → wb_size (sock st2 i) < wb_size (sock st i) ∨ ∃ t, (tick st <= t < tick st2)%nat ∧ stalls os (fd (sock st i)) t).
  { intros Hn. destruct Hp2 as [?|[Hp2|(t & Htt & ?)]]; [done|left|right; exists t; split; [lia|done]].
    assert (total (high (sock st2 i)) = 0) by (by rewrite Hh2). rewrite El in Hp2. change (total []) with 0 in Hsz1. lia. }
  destruct (list_uncomplete (low (sock st2 i))) eqn:Hun.
  - assert (Hne : low (sock st2 i) ≠ []) by (intros E; by rewrite E in Hun). apply wp_bind.
    eapply wp_mono; [apply wp_and; [by apply (sent_low_raise (mem:=mem) i st1)|by apply raise_fields]|].
    intros ? st3 [(_ & _ & Hok3 & Ht3) (Hw3 & Hd3 & Hf3 & Htk3)]. wp_steps. rewrite Ht1 in Ht3. rewrite Hd2 in Hd3. right.
    split_and!; [done|by rewrite Hf3|lia|]. rewrite Htk3. destruct (Hlt Hne) as [?|?]; [left|by right].
    apply rest_shrinks; try done; [by rewrite Ht3|by rewrite Hw3].
  - destruct (sent_low (mem:=mem) i st1 st2) as [Ho2 _]; [done..|].
    destruct (low (sock st2 i)) as [|w2 l2] eqn:El2; [apply send_done_drained; try done; by apply (slot_op_trans i [] [] st st1)|]. wp_steps.
    right. split_and!; [done|done|lia|]. destruct (Hlt ltac:(done)) as [?|?]; [left|by right]. by apply rest_shrinks.
Qed.

Lemma take_dw_fields i st : sock_ok (sock st i) →
  wp (take_dw_buffer i) (λ _ st', log st' = log st ∧ fd (sock st' i) = fd (sock st i) ∧ tick st' = tick st) st.
Proof.
  intros Hok. unfold take_dw_buffer. wp_steps. destruct (dw_buffer (sock st i)) as [b|] eqn:Hd; wp_steps; [|done].
  destruct (ok_dw _ Hok b Hd). apply wp_send_object_init; [lia|]. wp_steps. by ssimpl.
Qed.

Lemma send_buffer_drained i st :
  type (sock st i) = SOCKET_TYPE_HALFCLOSE → sock_ok (sock st i) → Forall wb_fresh (low (sock st i)) →
  protocol (sock st i) = PROTOCOL_TCP → wp (send_buffer os mem i) (λ _ st', drained i st st') st.
Proof.
  intros Ht Hok Hf Htcp. assert (Hl : live (type (sock st i))) by (by rewrite Ht).
  unfold send_buffer, socket_trylock. wp_steps. destruct (os_locked os (tick st)) eqn:Hlk; simpl negb; wp_steps.
  { right. ssimpl. split_and!; [done|done|simpl; lia|]. right. exists (tick st). split; [simpl; lia|by left]. }
  eapply wp_mono; [apply wp_and; [by apply (take_dw_buffer_spec (mem:=mem))|by apply take_dw_fields]|].
  intros ? st1 [(Ho & Hok1 & Hd1 & Ht1 & Hl1) (Hlog & Hf1 & Htk)]. ssimpl. rewrite Ht in Ht1.
  assert (Htcp1 : protocol (sock st1 i) = PROTOCOL_TCP) by (by rewrite (op_protocol _ _ _ _ _ Ho)).
  pose proof (live_conserve i [] _ st1 Ho Htcp) as Hw1. rewrite Ht1, Hlog in Hw1. ssimpl. specialize (Hw1 ltac:(done)). apply app_inv_head in Hw1.
  eapply wp_mono; [apply send_buffer__drained; rewrite ?Hl1; done|]. intros ? st2. unfold drained.
  rewrite (op_id _ _ _ _ _ Ho), Hlog, Hw1, Hf1, Htk. ssimpl. simpl tick. intros [(Ht2 & Hor)|(Ht2 & Hf2 & Htk2 & Hor)]; [left|right].
  - split; [done|]. destruct Hor as [?|(t & ? & ?)]; [by left|right]. exists t. split; [lia|done].
  - split_and!; [done|done|lia|]. destruct Hor as [?|(t & ? & ?)]; [by left|right]. exists t. split; [lia|done].
Qed.

(** Socket [i] is reported writable, up to [n] times, until it is closed. *)
Fixpoint drain (n : nat) (i : Z) : M unit :=
  match n with
  | O => mret tt
  | S n =>
      s ← get_s i;
      if bool_decide (type s = SOCKET_TYPE_INVALID) then mret tt
      else handle_event os mem i (mk_event (Some i) false true false);; drain n i
  end.

(** What [n] events do: each of them writes a byte or meets a stall. *)
Definition drained_n (n : nat) (i : Z) (st st' : sys) : Prop :=
  let x := id (sock st i) in let f := fd (sock st i) in
  ∃ w r, rest (sock st i) = w ++ r ∧ writes x (log st') = writes x (log st) ++ w ∧
    ((type (sock st' i) = SOCKET_TYPE_INVALID ∧ (r = [] ∨ ∃ t, (tick st <= t < tick st')%nat ∧ fails os f t)) ∨
     (type (sock st' i) = SOCKET_TYPE_HALFCLOSE ∧ rest (sock st' i) = r ∧ (tick st <= tick st')%nat ∧
      ∃ ts, NoDup ts ∧ Forall (λ t, (tick st <= t < tick st')%nat ∧ stalls os f t) ts ∧ (n <= length w + length ts)%nat)).

Lemma drain_drains n i st :
  type (sock st i) = SOCKET_TYPE_HALFCLOSE → sock_ok (sock st i) → Forall wb_fresh (low (sock st i)) →
  protocol (sock st i) = PROTOCOL_TCP → wp (drain n i) (λ _ st', drained_n n i st st') st.
Proof.
  revert st. induction n as [|n IH]; intros st Ht Hok Hf Htcp; simpl; wp_steps.
  { exists [], (rest (sock st i)). rewrite app_nil_r. split_and!; try done. right. split_and!; try done. exists []. split_and!; [constructor|constructor|done]. }
  rewrite bool_decide_eq_false_2 by (by rewrite Ht). unfold handle_event, handle_write. simpl ev_read. simpl ev_write. wp_steps.
  assert (Hl : live (type (sock st i))) by (by rewrite Ht).
  eapply wp_mono; [apply wp_and; [by apply send_buffer_drained|by apply (send_buffer_spec (mem:=mem))]|].
  intros ty st1 [Hdr (Ho & Hok1 & Hf1 & _)]. wp_steps. destruct (written_split i st st1 Ho Htcp) as (w & r & Hr & Hw & Hr').
  destruct Hdr as [(Ht1 & Hor)|(Ht1 & Hfd & Htk & Hor)].
  - assert (Hd : drained_n (S n) i st st1).
    { exists w, r. split_and!; try done. left. split; [done|]. destruct Hor as [Hall|?]; [left|by right].
      rewrite Hw in Hall. apply app_inv_head in Hall. rewrite <- Hall in Hr. apply (app_inv_head w). by rewrite app_nil_r. }
    destruct n; simpl; wp_steps; [done|]. rewrite bool_decide_eq_true_2 by done. by wp_steps.
  - assert (Htcp1 : protocol (sock st1 i) = PROTOCOL_TCP) by (by rewrite (op_protocol _ _ _ _ _ Ho)).
    rewrite Ht1 in Hr'. specialize (Hr' ltac:(done)).
    eapply wp_mono; [by apply IH|]. intros ? st2 (w2 & r2 & E2 & Hw2 & Hor2). rewrite (op_id _ _ _ _ _ Ho), Hfd in *. rewrite Hr' in E2.
    exists (w ++ w2), r2. rewrite <- app_assoc, <- E2, Hw2, Hw, <- app_assoc. split_and!; try done.
    destruct Hor2 as [(Ht2 & Hor2)|(Ht2 & Hr2 & Htk2 & ts & Hnd & Hts & Hn)]; [left|right].
    + split; [done|]. destruct Hor2 as [?|(t & ? & ?)]; [by left|right]. exists t. split; [lia|done].
    + split_and!; [done|done|lia|]. rewrite length_app. assert (Hts' : Forall (λ t, (tick st <= t < tick st2)%nat ∧ stalls os (fd (sock st i)) t) ts).
      { eapply Forall_impl; [exact Hts|]. intros t [? ?]. split; [lia|done]. }
      destruct Hor as [Hlt|(t & Htt & Hst)].
      * exists ts. split_and!; [done|done|]. rewrite Hr, Hr', length_app in Hlt. lia.
      * exists (t :: ts). split_and!; [|constructor; [|done]|simpl; lia].
        -- apply NoDup_cons. split; [|done]. intros Hin. rewrite Forall_forall in Hts. destruct (Hts t Hin). lia.
        -- split; [lia|done].
Qed.

End Live.
