(* ===== verification/SocketSpec.v ===== *)
(** * The socket server: what callers can rely on

    The theorems about every run, for every kernel that keeps [OSLaws], with a
    kernel and a run that meet their hypotheses; and runs that show what goes
    wrong when a caller does not keep to [allowed], and where a socket is left
    behind. *)

From Stdlib Require Import ZArith Lia.
From stdpp Require Import base tactics option numbers gmap list strings sorting.
From S2P Require Import Prelude SocketServer SocketProof SocketEvents SocketInv SocketRuns SocketLive.

Local Open Scope Z_scope.

(** ** Runs as lists of actions *)

#[global] Instance allowed_dec mem a c : Decision (allowed mem a c).
Proof. unfold allowed, buffer_ok, not_reserved. destruct a; apply _. Defined.

Section Trace.
Context (os : OS) (mem : positive → list Z).

Fixpoint trace (l : list action) (c : config) : option config :=
  match l with
  | [] => Some c
  | a :: l => if decide (allowed mem a c) then c' ← exec os mem a c; trace l c' else None
  end.

Lemma trace_reachable l c c' : reachable os mem c → trace l c = Some c' → reachable os mem c'.
Proof.
  revert c. induction l as [|a l IH]; intros c Hc H; simpl in H; [by injection H as <-|].
  case_decide as Ha; [|done]. destruct (exec os mem a c) as [c1|] eqn:E; [|done]. simpl in H.
  apply (IH c1); [by eapply reach_step|done].
Qed.
End Trace.

(** ** A kernel

    Connecting and writing succeed, at most four bytes at a time; nothing
    arrives; the first descriptor of the poll set is reported. *)
Definition demo_os : OS := {|
  os_eintr := 1;
  os_write _ _ d := Z.min 4 (Z.of_nat (length d));
  os_read _ _ _ := inr EAGAIN;
  os_sendto _ _ d _ := Z.of_nat (length d);
  os_recvfrom _ _ _ := inr EAGAIN;
  os_accept _ _ := inr EAGAIN;
  os_getsockopt _ _ := Some 0;
  os_getpeername _ _ := None;
  os_getaddrinfo _ _ _ := inl [SA_v4 [0; 80] [127; 0; 0; 1]];
  os_ntop _ := None;
  os_socket t := 10 + Z.of_nat t;
  os_connect _ _ _ := None;
  os_setsockopt _ _ := false;
  os_bind _ _ _ := false;
  os_listen _ _ _ := false;
  os_epoll_add _ _ := false;
  os_epoll_wait _ ep :=
    inl match map_to_list ep with [] => [] | (_, (i, w)) :: _ => [mk_event (Some i) false w false] end;
  os_locked _ := false |}.

#[global] Instance demo_laws : OSLaws demo_os.
Proof.
  split; simpl; try done.
  - lia.
  - intros t f d. exists 0%nat. split; [lia|]. unfold EINTR. lia.
  - intros t h po l [= <-]. split; [done|]. by repeat constructor.
  - intros t ep l [= <-]. destruct (map_to_list ep) as [|[f [i w]] m] eqn:E; simpl.
    + split; [constructor|]. intros e i H. by apply elem_of_nil in H.
    + split; [by apply NoDup_singleton|]. intros e j ->%list_elem_of_singleton [= <-]. exists f, w.
      apply elem_of_map_to_list. rewrite E. by left.
Qed.

Definition demo_mem (b : positive) : list Z :=
  match b with 1%positive => [1; 2; 3; 4; 5; 6] | 2%positive => [7; 8; 9] | 3%positive => [10; 11]
  | 4%positive => seqZ 20 20 | _ => [] end.

(** Connect; six bytes of which four are written at once, then a packet of low
    and one of high priority, in the pipe; then the socket is closed. *)
Definition demo_trace : list action :=
  [AConnect 0 [104] 80; APoll; ASend HIGH 1 1 6; ASend LOW 1 2 3; APost 0; ASend HIGH 1 3 2; APost 0; APoll; APoll; AClose 0 1].

Definition demo_config : config := default config0 (trace demo_os demo_mem demo_trace config0).

Lemma demo_reachable : reachable demo_os demo_mem demo_config.
Proof. apply (trace_reachable _ _ demo_trace config0); [constructor|]. vm_compute. reflexivity. Qed.

(** ** Reserving an identifier *)

(** The identifiers that are tried: they wrap at 2{^31}. *)
Definition try_id (a : Z) (k : nat) : Z := (a + Z.of_nat k) mod 2 ^ 31.

Lemma next_id a : 0 <= a <= INT_MAX →
  (if i32 (a + 1) <? 0 then Z.land (i32 (a + 1)) 0x7fffffff else i32 (a + 1)) = try_id a 1.
Proof.
  intros Ha. unfold try_id, INT_MAX in *. change (Z.of_nat 1) with 1. destruct (decide (a = 2147483647)) as [->|Hne]; [done|].
  rewrite i32_small by (unfold INT_MIN, INT_MAX; lia). rewrite Z.mod_small by lia. by destruct (Z.ltb_spec (a + 1) 0); [lia|].
Qed.

Lemma try_id_succ a k : 0 <= a → try_id (try_id a 1) k = try_id a (S k).
Proof. intros Ha. unfold try_id. rewrite Zplus_mod_idemp_l. f_equal. lia. Qed.

Lemma try_id_range a k : 0 <= try_id a k <= INT_MAX.
Proof. unfold try_id, INT_MAX. pose proof (Z.mod_pos_bound (a + Z.of_nat k) (2 ^ 31)). lia. Qed.

Lemma HASH_try a k : HASH_ID (try_id a k) = (a + Z.of_nat k) mod MAX_SOCKET.
Proof.
  pose proof (try_id_range a k) as Hr. unfold HASH_ID. rewrite u32_small by (unfold INT_MAX in *; lia). unfold try_id.
  symmetry. apply Znumtheory.Zmod_div_mod; [done..|]. by exists (2 ^ 15).
Qed.

Lemma reserve_loop_result n st :
  let a := alloc_id (ss st) in 0 <= a <= INT_MAX →
  wp (reserve_loop n) (λ nid st',
    (nid = -1 ∧ (∀ k, (1 <= k <= n)%nat → type (sock st (HASH_ID (try_id a k))) ≠ SOCKET_TYPE_INVALID) ∧ ∀ j, sock st' j = sock st j) ∨
    (0 <= nid <= INT_MAX ∧ type (sock st (HASH_ID nid)) = SOCKET_TYPE_INVALID ∧ sock st' (HASH_ID nid) = reserved_sock (sock st (HASH_ID nid)) nid ∧
     ∀ j, j ≠ HASH_ID nid → sock st' j = sock st j)) st.
Proof.
  revert st. induction n as [|n IH]; intros st a Ha; simpl.
  { wp_steps. left. split; [done|]. split; [|done]. intros k Hk. lia. }
  wp_steps. cbn [ss set_ss alloc_id set_alloc_id]. fold a. pose proof (next_id a Ha) as Hnext.
  assert (Hgo : ∀ st1, alloc_id (ss st1) = try_id a 1 → (∀ j, sock st1 j = sock st j) →
    wp (st2 ← get_sys; let nid := alloc_id (ss st2) in s ← get_s (HASH_ID nid);
        if bool_decide (type s = SOCKET_TYPE_INVALID) then
          put_s (HASH_ID nid) (mk_socket (opaque s) (high s) (low s) (wb_size s) (sending s) (-1) nid PROTOCOL_UNKNOWN
             SOCKET_TYPE_RESERVE 0 (warn_size s) (p s) (dw_offset s) (dw_buffer s) (dw_size s));; mret nid
        else reserve_loop n) (λ nid st',
    (nid = -1 ∧ (∀ k, (1 <= k <= S n)%nat → type (sock st (HASH_ID (try_id a k))) ≠ SOCKET_TYPE_INVALID) ∧ ∀ j, sock st' j = sock st j) ∨
    (0 <= nid <= INT_MAX ∧ type (sock st (HASH_ID nid)) = SOCKET_TYPE_INVALID ∧ sock st' (HASH_ID nid) = reserved_sock (sock st (HASH_ID nid)) nid ∧
     ∀ j, j ≠ HASH_ID nid → sock st' j = sock st j)) st1).
  { intros st1 Ha1 Hs1. wp_steps. cbv zeta. wp_steps. rewrite Ha1, Hs1. pose proof (try_id_range a 1) as Hr. wp_if E; wp_steps; bool_to_prop.
    - right. split_and!; try lia; [done|by rewrite sock_upd_eq|]. intros j Hj. by rewrite sock_upd_ne.
    - eapply wp_mono; [apply IH; by rewrite Ha1|]. rewrite Ha1. setoid_rewrite Hs1. intros nid st' [(-> & Hk & Ho)|?]; [left|by right].
      split; [done|]. split; [|done]. intros [|[|k]] Hk1; [lia|done|]. rewrite <- try_id_succ by lia. apply Hk. lia. }
  apply wp_when; intros E; wp_steps; rewrite E in Hnext; apply Hgo; done.
Qed.

(** C33. [reserve_id] returns, whatever slots are in use and however often
    identifiers have wrapped: a free slot, reserved for an identifier that is
    not negative and hashes to it, or -1 when all slots are in use; no other
    slot changes. *)
Theorem reserve_id_result st :
  0 <= alloc_id (ss st) <= INT_MAX →
  ∃ nid st', reserve_id st = Some (nid, st') ∧
    (nid = -1 ∧ (∀ i, 0 <= i < MAX_SOCKET → type (sock st i) ≠ SOCKET_TYPE_INVALID) ∧ (∀ j, sock st' j = sock st j) ∨
     0 <= nid <= INT_MAX ∧ type (sock st (HASH_ID nid)) = SOCKET_TYPE_INVALID ∧
     type (sock st' (HASH_ID nid)) = SOCKET_TYPE_RESERVE ∧ id (sock st' (HASH_ID nid)) = nid ∧
     ∀ j, j ≠ HASH_ID nid → sock st' j = sock st j).
Proof.
  intros Ha. destruct (wp_some _ _ _ (reserve_loop_result (Z.to_nat MAX_SOCKET) st Ha)) as (nid & st' & E & H).
  exists nid, st'. split; [exact E|]. destruct H as [(-> & Hk & Ho)|(Hr & Ht & Hs & Ho)].
  - left. split; [done|]. split; [|done]. intros i Hi.
    set (k := (i - alloc_id (ss st) - 1) mod MAX_SOCKET + 1).
    assert (Hkr : 1 <= k <= MAX_SOCKET) by (unfold k; pose proof (Z.mod_pos_bound (i - alloc_id (ss st) - 1) MAX_SOCKET ltac:(done)); lia).
    specialize (Hk (Z.to_nat k) ltac:(lia)). rewrite HASH_try, Z2Nat.id in Hk by lia.
    replace ((alloc_id (ss st) + k) mod MAX_SOCKET) with i in Hk; [done|].
    unfold k. replace (alloc_id (ss st) + _) with ((alloc_id (ss st) + 1) + (i - alloc_id (ss st) - 1) mod MAX_SOCKET) by lia.
    rewrite Zplus_mod_idemp_r. replace (alloc_id (ss st) + 1 + _) with i by lia. by rewrite Z.mod_small.
  - right. rewrite Hs. done.
Qed.

Lemma reserve_id_result_witness :
  0 <= alloc_id (ss socket_server_create) <= INT_MAX ∧ ∃ nid st', reserve_id socket_server_create = Some (nid, st') ∧ nid ≠ -1.
Proof.
  split; [done|]. destruct (reserve_id_result socket_server_create) as (nid & st' & E & H); [done|].
  exists nid, st'. split; [done|]. destruct H as [(_ & H & _)|(H & _)]; [by destruct (H 0)|lia].
Defined.

(** ** Every run *)



(** C31. In every run every slot of the server is well formed: it is free, or
    its identifier hashes to it and was handed out; the size of its queue is
    the sum of its buffers, which lie inside their blocks; a free slot holds
    nothing; and a descriptor in the poll set is that of an open socket. *)
Theorem socket_slots_ok os mem `{!OSLaws os} c : reachable os mem c → slots_ok mem (c_sys c).
Proof. by intros [[Hso _ _ _ _] _]%reachable_inv. Qed.

Lemma socket_slots_ok_witness : wb_size (sock (c_sys demo_config) 1) = 5 ∧ slots_ok demo_mem (c_sys demo_config).
Proof. split; [vm_compute; reflexivity|]. apply (socket_slots_ok demo_os demo_mem demo_config demo_reachable). Defined.



(** C6. Every buffer handed to the server is, at any time, freed exactly once
    or held exactly once: by a socket, or by a request on its way.  So a buffer
    that was handed over once is never freed twice, and never freed while it is
    still to be sent. *)
Theorem socket_buffers_once os mem `{!OSLaws os} c :
  reachable os mem c →
  let st := c_sys c in let on_way := concat (req_held <$> pipe st ++ c_wait c) in
  takes (log st) ≡ₚ frees (log st) ++ held_all st ++ on_way ∧
  (NoDup (takes (log st)) → NoDup (frees (log st)) ∧ ∀ b, b ∈ frees (log st) → b ∉ held_all st ∧ b ∉ on_way).
Proof.
  intros [[_ _ _ Hown _] _]%reachable_inv. simpl. split; [exact Hown|]. rewrite Hown, NoDup_app. intros (H1 & H2 & _). split; [done|].
  intros b Hb. apply H2 in Hb. rewrite elem_of_app in Hb. tauto.
Qed.

Lemma socket_buffers_once_witness :
  takes (log (c_sys demo_config)) = [1; 2; 3]%positive ∧
  (NoDup (takes (log (c_sys demo_config))) → NoDup (frees (log (c_sys demo_config)))).
Proof.
  split; [vm_compute; reflexivity|]. intros H.
  by apply (socket_buffers_once demo_os demo_mem demo_config demo_reachable).
Defined.

(** ** Progress *)

(** C7. What writable events do for a TCP socket that is being closed, for any
    kernel.  After [n] of them what was written is the beginning [w] of what
    there was to send, and then either the socket is closed, with everything
    written or because a write failed in the meantime with an error other than
    EAGAIN or EINTR (then the rest is dropped); or it is still half closed,
    still has exactly the rest to send, and each of the [n] events wrote a byte
    or met a moment at which the lock was taken or the kernel took nothing.  So
    a socket that is reported writable often enough is closed, unless the
    kernel stalls it for ever.  (Whether it is reported is another matter:
    [half_close_left_behind].) *)
Theorem half_close_drains os mem `{!OSLaws os} c i n :
  let st := c_sys c in let s := sock st i in
  reachable os mem c → type s = SOCKET_TYPE_HALFCLOSE → protocol s = PROTOCOL_TCP →
  ∃ st' w r, drain (os:=os) (mem:=mem) n i st = Some (tt, st') ∧
    rest (mem:=mem) s = w ++ r ∧ writes (id s) (log st') = writes (id s) (log st) ++ w ∧
    ((type (sock st' i) = SOCKET_TYPE_INVALID ∧ (r = [] ∨ ∃ t, (tick st <= t < tick st')%nat ∧ fails os (fd s) t)) ∨
     (type (sock st' i) = SOCKET_TYPE_HALFCLOSE ∧ rest (mem:=mem) (sock st' i) = r ∧
      ∃ ts, NoDup ts ∧ Forall (λ t, (tick st <= t < tick st')%nat ∧ stalls os (fd s) t) ts ∧ (n <= length w + length ts)%nat)).
Proof.
  simpl. intros [[Hso _ _ _ _] _]%reachable_inv Ht Hp. destruct (so_sock _ _ Hso i) as [Hok Hf].
  destruct (wp_some _ _ _ (drain_drains n i (c_sys c) Ht Hok Hf Hp)) as ([] & st' & E & w & r & Hr & Hw & Hor).
  exists st', w, r. split_and!; [done..|]. destruct Hor as [?|(? & ? & _ & ?)]; [by left|by right].
Qed.

(** A packet of twenty bytes, and the socket is closed while twelve are left. *)
Definition closing_trace : list action :=
  [AConnect 0 [104] 80; APoll; ASend HIGH 1 4 20; AClose 0 1; APoll].
Definition closing_config : config := default config0 (trace demo_os demo_mem closing_trace config0).

Lemma demo_no_stall f t : ~ stalls demo_os f t.
Proof.
  intros [[=]|(d & [H|[Hd H]])]; cbn [os_write demo_os] in H; unfold EAGAIN in *; [lia|]. destruct d; [done|cbn [length] in H; lia].
Qed.

Lemma demo_no_fail f t : ~ fails demo_os f t.
Proof. intros (d & H & _). cbn [os_write demo_os] in H. lia. Qed.

Lemma half_close_drains_witness :
  rest (mem:=demo_mem) (sock (c_sys closing_config) 1) = seqZ 28 12 ∧
  ∃ st', drain (os:=demo_os) (mem:=demo_mem) 13 1 (c_sys closing_config) = Some (tt, st') ∧
    type (sock st' 1) = SOCKET_TYPE_INVALID ∧ writes 1 (log st') = seqZ 20 20.
Proof.
  split; [vm_compute; reflexivity|].
  destruct (half_close_drains demo_os demo_mem closing_config 1 13) as (st' & w & r & E & Hr & Hw & Hor).
  - apply (trace_reachable _ _ closing_trace config0); [constructor|]. vm_compute. reflexivity.
  - vm_compute. reflexivity.
  - vm_compute. reflexivity.
  - assert (Hlen : length (rest (mem:=demo_mem) (sock (c_sys closing_config) 1)) = 12%nat) by (vm_compute; reflexivity).
    destruct Hor as [(Ht & [->|(t & _ & Hft)])|(_ & _ & ts & _ & Hts & Hn)].
    + exists st'. split; [exact E|]. split; [exact Ht|]. rewrite app_nil_r in Hr. subst w. etrans; [exact Hw|]. vm_compute. reflexivity.
    + by destruct (demo_no_fail _ t Hft).
    + destruct ts as [|t ts]; [|apply Forall_cons in Hts as [[_ Hst] _]; by destruct (demo_no_stall _ t Hst)].
      rewrite Hr, length_app in Hlen. cbn [length] in Hn. clear - Hlen Hn. lia.
Defined.

(** A kernel that would always block: the socket is still half closed, with
    everything left to send. *)
Definition blocking_os : OS :=
  mk_os (os_eintr demo_os) (λ _ _ _, - EAGAIN) (os_read demo_os) (os_sendto demo_os) (os_recvfrom demo_os)
    (os_accept demo_os) (os_getsockopt demo_os) (os_getpeername demo_os) (os_getaddrinfo demo_os) (os_ntop demo_os)
    (os_socket demo_os) (os_connect demo_os) (os_setsockopt demo_os) (os_bind demo_os) (os_listen demo_os)
    (os_epoll_add demo_os) (os_epoll_wait demo_os) (os_locked demo_os).

Example blocked_drain :
  ('(_, st) ← drain (os:=blocking_os) (mem:=demo_mem) 13 1 (c_sys closing_config);
   Some (type (sock st 1), rest (mem:=demo_mem) (sock st 1))) = Some (SOCKET_TYPE_HALFCLOSE, seqZ 28 12).
Proof. vm_compute. reflexivity. Qed.

(** The pipe is emptied: when the poll thread looks at it, each round takes one
    request out, and after as many rounds as there are requests it is empty.
    (A poll thread that gets an exit request makes no further rounds.) *)
Lemma requests_taken os mem `{!OSLaws os} c :
  let st := c_sys c in
  reachable os mem c → checkctrl (ss st) = true →
  ∃ st', poll_rounds (os:=os) (mem:=mem) (length (pipe st)) st = Some (tt, st') ∧ pipe st' = [].
Proof.
  simpl. intros [Hc Hev]%reachable_inv Hck.
  destruct (wp_some _ _ _ (rounds_empty (mem:=mem) (length (pipe (c_sys c))) (c_sys c) (c_wait c) (conj Hc Hev) Hck eq_refl)) as ([] & st' & E & H).
  eauto.
Qed.

Lemma requests_taken_witness :
  ∃ st', poll_rounds (os:=demo_os) (mem:=demo_mem) 1 (c_sys demo_config) = Some (tt, st') ∧ pipe st' = [].
Proof. apply (requests_taken demo_os demo_mem demo_config demo_reachable). vm_compute. reflexivity. Defined.

(** ** What goes wrong *)

(** A run in which a packet is sent to an identifier whose TCP socket is not
    opened yet.  It is not counted, since the slot has no protocol; the socket
    is opened, and the round that handles the packet's request takes the count
    down: it fails, at the assertion of [dec_sending_ref]. *)
Example send_before_open :
  (c1 ← exec demo_os demo_mem (AConnect 0 [104] 80) config0;
   c2 ← exec demo_os demo_mem (ASend HIGH 1 1 6) c1;
   c3 ← exec demo_os demo_mem (APost 0) c2;
   c4 ← exec demo_os demo_mem APoll c3;
   Some (pipe (c_sys c4), exec demo_os demo_mem APoll c4)) = Some ([ReqSend HIGH 1 6 1], None).
Proof. vm_compute. reflexivity. Qed.

(** A socket that is closed while a packet is between the count and the pipe:
    the packet is dropped, and the socket stays half closed with nothing to
    send; it is not polled for writing, so nothing closes it. *)
Lemma half_close_left_behind :
  (c ← trace demo_os demo_mem [AConnect 0 [104] 80; APoll; ASend LOW 1 2 3; AClose 0 1; APoll; APost 0; APoll] config0;
   let st := c_sys c in
   Some (type (sock st 1), nomore_sending_data (sock st 1), pipe st, c_wait c, map_to_list (epoll st), writes 1 (log st))) =
  Some (SOCKET_TYPE_HALFCLOSE, true, [], [], [(11, (1, false))], []).
Proof. vm_compute. reflexivity. Qed.

(** Data for a socket made by [socket_server_bind] is queued, but its descriptor
    is never polled for writing. *)
Lemma bind_never_writes :
  (c ← trace demo_os demo_mem [ABind 0 5; APoll; ASend HIGH 1 2 3; APost 0; APoll] config0;
   let st := c_sys c in
   Some (type (sock st 1), @pend demo_mem (sock st 1), pipe st, map_to_list (epoll st), writes 1 (log st))) =
  Some (SOCKET_TYPE_BIND, [7; 8; 9], [], [(5, (1, false))], []).
Proof. vm_compute. reflexivity. Qed.

(** A kernel that takes no datagram. *)
Definition busy_os : OS :=
  mk_os (os_eintr demo_os) (os_write demo_os) (os_read demo_os) (λ _ _ _ _, - EAGAIN) (os_recvfrom demo_os)
    (os_accept demo_os) (os_getsockopt demo_os) (os_getpeername demo_os) (os_getaddrinfo demo_os) (os_ntop demo_os)
    (os_socket demo_os) (os_connect demo_os) (os_setsockopt demo_os) (os_bind demo_os) (os_listen demo_os)
    (os_epoll_add demo_os) (os_epoll_wait demo_os) (os_locked demo_os).

(** A datagram that [socket_server_send] cannot write at once is put into a
    buffer that has no room for an address; when the socket is writable the
    address is read from behind the buffer. *)
Lemma udp_send_overread :
  (c1 ← exec busy_os demo_mem (AUdp 0 None 0) config0;
   c2 ← exec busy_os demo_mem APoll c1;
   c3 ← exec busy_os demo_mem (ASend HIGH 1 2 3) c2;
   Some (type (sock (c_sys c3) 1), dw_buffer (sock (c_sys c3) 1), exec busy_os demo_mem APoll c3)) =
  Some (SOCKET_TYPE_CONNECTED, Some 2%positive, None).
Proof. vm_compute. reflexivity. Qed.

(** When the address of [socket_server_udp_connect] is not found, the socket is
    left marked as connecting, for good: no packet is written directly. *)
Lemma udp_connect_left_marked os rid addr port st e st' r :
  let i := HASH_ID rid in
  os_getaddrinfo os (tick st) addr port = inr e → id (sock st i) = rid → type (sock st i) ≠ SOCKET_TYPE_INVALID →
  socket_server_udp_connect os rid addr port st = Some (r, st') →
  r = -1 ∧ udpconnecting (sock st' i) = u16 (udpconnecting (sock st i) + 1) ∧ pipe st' = pipe st.
Proof.
  intros i Hg Hid Ht E.
  assert (H : wp (socket_server_udp_connect os rid addr port)
    (λ r st', r = -1 ∧ udpconnecting (sock st' i) = u16 (udpconnecting (sock st i) + 1) ∧ pipe st' = pipe st) st).
  { unfold socket_server_udp_connect. fold i. wp_steps. rewrite Hid, Z.eqb_refl, bool_decide_eq_false_2 by done. simpl orb. wp_steps.
    rewrite tick_upd, Hg. wp_steps. by ssimpl. }
  unfold wp in H. by rewrite E in H.
Qed.
