(* ===== verification/SkynetSocket.v ===== *)
(** * Socket messages to services

    [skynet_socket.c]: the poll thread turns what the socket server reports
    into messages for the service that owns the socket.  The block that is sent
    is the [struct skynet_socket_message] that [Netpack] reads; a text (the
    address of a peer, an error) is copied behind the struct, data is passed as
    it is. *)

From Stdlib Require Import ZArith Lia.
From stdpp Require Import base tactics option numbers gmap list strings.
From S2P Require Import Prelude MessageQueue Server Netpack SocketServer SocketProof SocketInv SocketRuns SocketLive SocketSpec.

Local Open Scope Z_scope.

(** [sizeof(struct skynet_socket_message)] *)
Definition SIZEOF_SOCKET_MESSAGE : Z := 24.

(** The longest text that is copied. *)
Definition MAX_TEXT : Z := 128.

(** [strlen] of a block that ends with a zero byte *)
Fixpoint strlen (l : list Z) : Z :=
  match l with [] => 0 | b :: l => if b =? 0 then 0 else 1 + strlen l end.

Section Forward.
(** The texts of [strerror] and [gai_strerror], and of the current [errno]. *)
Context (strerror gai_strerror : Z → list Z) (errno_text : list Z).

(** [result->data]; [None] is NULL. *)
Definition data_bytes (d : rdata) : option (list Z) :=
  match d with
  | DNull => None
  | DConst s => Some ((λ c, Z.of_N (Ascii.N_of_ascii c)) <$> String.list_ascii_of_string s)
  | DText l | DBuf l => Some l
  | DStrerror e => Some (strerror e)
  | DErrno => Some errno_text
  | DGai e => Some (gai_strerror e)
  end.

(** The block and its size with the type of the message. *)
Definition forward_message (ty : Netpack.socket_type) (padding : bool) (result : socket_message) : Netpack.socket_message * Z :=
  let data := data_bytes (sm_data result) in
  let pad := if padding then
               match data with Some l => take (Z.to_nat (Z.min (strlen l) MAX_TEXT)) l | None => [] end
             else [] in
  let sz := SIZEOF_SOCKET_MESSAGE + Z.of_nat (length pad) in
  (Netpack.mk_smsg ty (sm_id result) (sm_ud result) (if padding then None else data) pad,
   u64 (Z.lor sz (u64 (Z.shiftl PTYPE_SOCKET MESSAGE_TYPE_SHIFT)))).

(** What becomes of a report: the thread ends, a message for a service, or
    nothing. *)
Inductive report :=
  | RExit
  | RMessage (opaque : Z) (m : Netpack.socket_message) (sz : Z)
  | RUnknown (ty : Z).

Definition poll_report (ty : Z) (result : socket_message) : report :=
  let send t padding := let '(m, sz) := forward_message t padding result in RMessage (u32 (sm_opaque result)) m sz in
  if ty =? SOCKET_EXIT then RExit
  else if ty =? SOCKET_DATA then send Netpack.SOCKET_DATA false
  else if ty =? SOCKET_CLOSE then send Netpack.SOCKET_CLOSE false
  else if ty =? SOCKET_OPEN then send Netpack.SOCKET_CONNECT true
  else if ty =? SOCKET_ERR then send Netpack.SOCKET_ERROR true
  else if ty =? SOCKET_ACCEPT then send Netpack.SOCKET_ACCEPT true
  else if ty =? SOCKET_UDP then send Netpack.SOCKET_UDP false
  else if ty =? SOCKET_WARNING then send Netpack.SOCKET_WARNING false
  else RUnknown ty.

Context (os : OS) (mem : positive → list Z).

(** [skynet_socket_poll] with at most [n] rounds of the server: its result and
    the message it sends; [None]: the server still polls.  Of a message that
    cannot be delivered the block and its buffer are freed. *)
Definition skynet_socket_poll (n : nat) : M (option (Z * report)) :=
  st0 ← get_sys;
  put_sys (set_more st0 true);;
  r ← socket_server_poll os mem n;
  match r with
  | None => mret None
  | Some ty =>
      st ← get_sys;
      mret (Some match poll_report ty (result st) with
                 | RExit => (0, RExit)
                 | RUnknown t => (-1, RUnknown t)
                 | RMessage o m z => (if more st then -1 else 1, RMessage o m z)
                 end)
  end.

(** The calls of the services; [source] is the handle of the context. *)
Definition skynet_socket_send (id : Z) (buffer : positive) (sz : Z) := socket_server_send os mem id buffer sz.
Definition skynet_socket_send_lowpriority (id : Z) (buffer : positive) (sz : Z) := socket_server_send_lowpriority mem id buffer sz.
Definition skynet_socket_listen (source : Z) (host : list Z) (port backlog : Z) := socket_server_listen os source host port backlog.
Definition skynet_socket_connect (source : Z) (host : list Z) (port : Z) := socket_server_connect source host port.
Definition skynet_socket_bind (source fd : Z) := socket_server_bind source fd.
Definition skynet_socket_close (source id : Z) := socket_server_close source id.
Definition skynet_socket_shutdown (source id : Z) := socket_server_shutdown source id.
Definition skynet_socket_start (source id : Z) := socket_server_start source id.
Definition skynet_socket_nodelay (id : Z) := socket_server_nodelay id.
Definition skynet_socket_udp (source : Z) (addr : option (list Z)) (port : Z) := socket_server_udp os source addr port.
Definition skynet_socket_udp_connect (id : Z) (addr : list Z) (port : Z) := socket_server_udp_connect os id addr port.
Definition skynet_socket_udp_send (id : Z) (address : list Z) (buffer : positive) (sz : Z) := socket_server_udp_send os mem id address buffer sz.

(** The address behind the data of a UDP message. *)
Definition skynet_socket_udp_address (m : Netpack.socket_message) : option (list Z * Z) :=
  match Netpack.sm_type m, Netpack.sm_buffer m with
  | Netpack.SOCKET_UDP, Some b => socket_server_udp_address b (Netpack.sm_ud m)
  | _, _ => None
  end.

(** ** What the service reads *)

Lemma strlen_bound l : 0 <= strlen l <= Z.of_nat (length l).
Proof. induction l as [|b l IH]; simpl; [lia|]. destruct (b =? 0); lia. Qed.

(** A text reaches the service cut at its end or after 128 bytes, with its
    size; data reaches it whole, with its own buffer.  The word that carries
    the size also carries the type of socket messages. *)
Theorem forward_message_ok ty padding result l :
  data_bytes (sm_data result) = Some l →
  let '(m, w) := forward_message ty padding result in
  Netpack.sm_type m = ty ∧ Netpack.sm_id m = sm_id result ∧ Netpack.sm_ud m = sm_ud result ∧
  Netpack.message_text m =
    (if padding then (take (Z.to_nat (Z.min (strlen l) MAX_TEXT)) l, Z.min (strlen l) MAX_TEXT) else (l, -1)) ∧
  Z.shiftr w MESSAGE_TYPE_SHIFT = PTYPE_SOCKET ∧
  Z.land w MESSAGE_TYPE_MASK = SIZEOF_SOCKET_MESSAGE + (if padding then Z.min (strlen l) MAX_TEXT else 0).
Proof.
  intros Hl. unfold forward_message. rewrite Hl. pose proof (strlen_bound l) as Hb.
  assert (Hlen : padding = true → Z.of_nat (length (take (Z.to_nat (Z.min (strlen l) MAX_TEXT)) l)) = Z.min (strlen l) MAX_TEXT).
  { intros _. rewrite length_take. unfold MAX_TEXT in *. lia. }
  set (pad := if padding then take (Z.to_nat (Z.min (strlen l) MAX_TEXT)) l else []).
  assert (Hpad : Z.of_nat (length pad) = if padding then Z.min (strlen l) MAX_TEXT else 0) by (by unfold pad; destruct padding; [apply Hlen|]).
  destruct (size_word PTYPE_SOCKET (SIZEOF_SOCKET_MESSAGE + Z.of_nat (length pad))) as [Hw1 Hw2].
  { done. }
  { unfold SIZEOF_SOCKET_MESSAGE, MAX_TEXT in *. destruct padding; lia. }
  split_and!; try done; [|by rewrite Hw2, Hpad].
  unfold Netpack.message_text. destruct padding; simpl; [|done]. unfold pad in *. by rewrite Hpad.
Qed.

(** The address of a datagram, in the sizes of its family. *)
Definition sockaddr_ok (sa : sockaddr_all) : Prop :=
  match sa with SA_v4 a b => length a = 2%nat ∧ length b = 4%nat | SA_v6 a b => length a = 2%nat ∧ length b = 16%nat end.
Definition protocol_of (sa : sockaddr_all) : Z := match sa with SA_v4 _ _ => PROTOCOL_UDP | SA_v6 _ _ => PROTOCOL_UDPv6 end.

Lemma gen_udp_address_ok sa : sockaddr_ok sa →
  addrsz (gen_udp_address (protocol_of sa) sa) = Some (Z.of_nat (length (gen_udp_address (protocol_of sa) sa))) ∧
  udp_socket_address (protocol_of sa) (gen_udp_address (protocol_of sa) sa) = Some sa.
Proof.
  destruct sa as [a b|a b]; intros [Ha Hb]; simpl; rewrite length_app, Ha, Hb; (split; [done|]); simpl;
    rewrite take_app_le, take_ge, drop_app_ge, Ha, drop_0, take_ge by lia; done.
Qed.

(** The service that receives a datagram finds behind the data the address
    of its sender: a packet sent to this address goes to the sender. *)
Theorem udp_reply_address i st data sa r st' :
  (∀ t f n, os_recvfrom os t f n = inl (data, sa)) → sockaddr_ok sa → protocol (sock st i) = protocol_of sa →
  forward_message_udp os i st = Some (r, st') →
  r = SOCKET_UDP ∧
  ∃ m z, poll_report r (result st') = RMessage (u32 (opaque (sock st i))) m z ∧ Netpack.sm_id m = id (sock st i) ∧
    ∃ addr n, skynet_socket_udp_address m = Some (addr, n) ∧ Z.of_nat (length addr) = n ∧
      udp_socket_address (protocol (sock st' i)) addr = Some sa.
Proof.
  intros Hr Hsa Hp Hf. destruct (gen_udp_address_ok sa Hsa) as [Hsz Hua].
  assert (Hrun : wp (forward_message_udp os i) (λ r st', r = SOCKET_UDP ∧ sock st' i = sock st i ∧
    result st' = mk_smsg (id (sock st i)) (opaque (sock st i)) (Z.of_nat (length data)) (DBuf (data ++ gen_udp_address (protocol_of sa) sa))) st).
  { unfold forward_message_udp. wp_steps. rewrite Hr. rewrite Hp. unfold protocol_of. rewrite Z.eqb_refl. by wp_steps. }
  unfold wp in Hrun. rewrite Hf in Hrun. destruct Hrun as (-> & Hs & Hres). split; [done|]. rewrite Hres, Hs, Hp.
  set (G := gen_udp_address (protocol_of sa) sa) in *. clearbody G.
  eexists _, _. split; [done|]. split; [done|]. unfold skynet_socket_udp_address, socket_server_udp_address. simpl.
  rewrite Nat2Z.id, drop_app_length, Hsz. simpl. rewrite Nat2Z.id, take_ge by lia. eauto.
Qed.

End Forward.

Definition no_text (_ : Z) : list Z := [].

Lemma forward_message_ok_witness :
  data_bytes no_text no_text [] (DText [65; 66]) = Some [65; 66] ∧
  Netpack.message_text (forward_message no_text no_text [] Netpack.SOCKET_ACCEPT true (mk_smsg 1 2 3 (DText [65; 66]))).1 = ([65; 66], 2).
Proof.
  split; [reflexivity|].
  apply (forward_message_ok no_text no_text [] Netpack.SOCKET_ACCEPT true (mk_smsg 1 2 3 (DText [65; 66])) [65; 66] eq_refl).
Defined.

(** A kernel that has a datagram from 127.0.0.1. *)
Definition datagram_os : OS :=
  mk_os (os_eintr demo_os) (os_write demo_os) (os_read demo_os) (os_sendto demo_os)
    (λ _ _ _, inl ([1; 2; 3], SA_v4 [31; 144] [127; 0; 0; 1])) (os_accept demo_os) (os_getsockopt demo_os)
    (os_getpeername demo_os) (os_getaddrinfo demo_os) (os_ntop demo_os) (os_socket demo_os) (os_connect demo_os)
    (os_setsockopt demo_os) (os_bind demo_os) (os_listen demo_os) (os_epoll_add demo_os) (os_epoll_wait demo_os) (os_locked demo_os).

Lemma udp_reply_address_witness :
  ∃ st r st', protocol (sock st 1) = PROTOCOL_UDP ∧ forward_message_udp datagram_os 1 st = Some (r, st') ∧ r = SOCKET_UDP.
Proof.
  set (st := c_sys (default config0 (trace demo_os demo_mem [AUdp 0 None 0; APoll] config0))).
  assert (Hp : protocol (sock st 1) = PROTOCOL_UDP) by (vm_compute; reflexivity).
  exists st. destruct (forward_message_udp datagram_os 1 st) as [[r st']|] eqn:E; [|vm_compute in E; discriminate E].
  exists r, st'. split; [exact Hp|]. split; [reflexivity|].
  by destruct (udp_reply_address no_text no_text [] datagram_os 1 st [1; 2; 3] (SA_v4 [31; 144] [127; 0; 0; 1]) r st'
    (λ _ _ _, eq_refl) (conj eq_refl eq_refl) Hp E) as [H _].
Defined.
