(* ===== verification/SocketBuffer.v ===== *)
(** * Buffers of Lua sockets: lualib-src/lua-socket.c

    A Lua service keeps, for every socket, a buffer of the blocks of data that
    came in and have not been read: a linked list of nodes, taken from a pool
    that all buffers of the service share.  The nodes of the pool are in chunks
    that are never freed; a free node is at the head of a list in the slot 1 of
    the table of the pool.

    A node is known by its index in all chunks, in the order they were
    allocated.  The values returned to Lua are a list; [Fail] is a Lua error,
    [Undef] undefined behaviour.  The other functions of the file are in
    [SocketDriver]. *)

From Stdlib Require Import ZArith Lia.
From stdpp Require Import base tactics option numbers gmap list strings.
From S2P Require Import Prelude SprotoTypes SprotoCodec.

(** ** Data *)

Definition LARGE_PAGE_NODE : Z := 12.

Record buffer_node := mk_bnode {
  n_msg : option (list Z);
  n_sz : Z;
  n_next : option Z
}.

Record socket_buffer := mk_sb {
  sb_size : Z;
  sb_offset : Z;
  sb_head : option Z;
  sb_tail : option Z
}.

(** [bp_free] is slot 1 of the table, [bp_len] the number of its slots. *)
Record buffer_pool := mk_bpool {
  bp_nodes : list buffer_node;
  bp_free : option Z;
  bp_len : Z
}.

Definition get_node (P : buffer_pool) (p : option Z) : res buffer_node :=
  a ← defined p; defined (arr_get (bp_nodes P) a).

Definition put_node (P : buffer_pool) (a : Z) (nd : buffer_node) : res buffer_pool :=
  ns ← defined (arr_set (bp_nodes P) a nd); Ok (mk_bpool ns (bp_free P) (bp_len P)).

Definition set_free (P : buffer_pool) (f : option Z) : buffer_pool := mk_bpool (bp_nodes P) f (bp_len P).

(** ** Operations *)

(** A chunk of [sz] nodes, linked; the result is its first node. *)
Definition lnewpool (P : buffer_pool) (sz : Z) : buffer_pool * Z :=
  let base := Z.of_nat (length (bp_nodes P)) in
  let chunk := map (λ i, mk_bnode None 0 (if i =? sz - 1 then None else Some (base + i + 1))) (seqZ 0 sz) in
  (mk_bpool (bp_nodes P ++ chunk) (bp_free P) (bp_len P), base).

Definition lnewbuffer : socket_buffer := mk_sb 0 0 None None.

(** The size of the next chunk. *)
Definition chunk_size (tsz : Z) : Z :=
  if tsz <=? LARGE_PAGE_NODE - 3 then Z.shiftl 8 tsz else Z.shiftl 8 (LARGE_PAGE_NODE - 3).

(** The free node to use, from a new chunk where there is none. *)
Definition find_free_node (P : buffer_pool) : buffer_pool * Z :=
  match bp_free P with
  | Some f => (P, f)
  | None =>
      let tsz := if bp_len P =? 0 then 1 else bp_len P in
      let '(P, first) := lnewpool P (chunk_size tsz) in
      (mk_bpool (bp_nodes P) (bp_free P) (tsz + 1), first)
  end.

(** The node becomes the last one of the buffer. *)
Definition link_node (P : buffer_pool) (sb : socket_buffer) (free_node : Z) : res (buffer_pool * socket_buffer) :=
  match sb_head sb with
  | None =>
      match sb_tail sb with
      | None => Ok (P, mk_sb (sb_size sb) (sb_offset sb) (Some free_node) (Some free_node))
      | Some _ => Undef
      end
  | Some h =>
      t ← defined (sb_tail sb);
      td ← get_node P (Some t);
      P ← put_node P t (mk_bnode (n_msg td) (n_sz td) (Some free_node));
      Ok (P, mk_sb (sb_size sb) (sb_offset sb) (Some h) (Some free_node))
  end.

(** The size that comes with the block [msg], a Lua integer, is its length. *)
Definition lpushbuffer (P : buffer_pool) (sb : socket_buffer) (msg : list Z) : res (buffer_pool * socket_buffer * Z) :=
  let sz := i32 (Z.of_nat (length msg)) in
  let '(P, free_node) := find_free_node P in
  nd ← get_node P (Some free_node);
  let P := set_free P (n_next nd) in
  P ← put_node P free_node (mk_bnode (Some msg) sz None);
  '(P, sb) ← link_node P sb free_node;
  size ← defined (chk32 (sb_size sb + sz));
  Ok (P, mk_sb size (sb_offset sb) (sb_head sb) (sb_tail sb), size).

Definition return_free_node (P : buffer_pool) (sb : socket_buffer) : res (buffer_pool * socket_buffer) :=
  h ← defined (sb_head sb);
  free_node ← get_node P (Some h);
  let sb := mk_sb (sb_size sb) 0 (n_next free_node) (match n_next free_node with None => None | Some _ => sb_tail sb end) in
  P ← put_node P h (mk_bnode None 0 (bp_free P));
  Ok (set_free P (Some h), sb).

(** [lua_pushlstring] and [luaL_addlstring] of [n] bytes at [off] of the data
    of a node; a negative size is one that Lua can not allocate. *)
Definition node_bytes (nd : buffer_node) (off n : Z) : res (list Z) :=
  if n <? 0 then Fail
  else
    msg ← defined (n_msg nd);
    if (0 <=? off) && (off + n <=? Z.of_nat (length msg)) then Ok (take (Z.to_nat n) (drop (Z.to_nat off) msg)) else Undef.

Fixpoint pop_loop (fuel : nat) (P : buffer_pool) (sb : socket_buffer) (sz skip : Z) (acc : list Z)
    : res (buffer_pool * socket_buffer * list Z) :=
  match fuel with
  | O => Undef
  | S fuel =>
      current ← get_node P (sb_head sb);
      let bytes := n_sz current - sb_offset sb in
      if sz <=? bytes then
        acc ← (if skip <? sz then s ← node_bytes current (sb_offset sb) (sz - skip); Ok (acc ++ s) else Ok acc);
        let sb := mk_sb (sb_size sb) (sb_offset sb + sz) (sb_head sb) (sb_tail sb) in
        if bytes =? sz then '(P, sb) ← return_free_node P sb; Ok (P, sb, acc) else Ok (P, sb, acc)
      else
        let real_sz := sz - skip in
        acc ← (if 0 <? real_sz then s ← node_bytes current (sb_offset sb) (if real_sz <? bytes then real_sz else bytes); Ok (acc ++ s)
               else Ok acc);
        '(P, sb) ← return_free_node P sb;
        let sz := sz - bytes in
        if sz =? 0 then Ok (P, sb, acc) else pop_loop fuel P sb sz skip acc
  end.

(** The string of [sz - skip] bytes; [sz] are taken. *)
Definition pop_lstring (P : buffer_pool) (sb : socket_buffer) (sz skip : Z) : res (buffer_pool * socket_buffer * list Z) :=
  current ← get_node P (sb_head sb);
  if sz <? n_sz current - sb_offset sb then
    s ← node_bytes current (sb_offset sb) (sz - skip);
    Ok (P, mk_sb (sb_size sb) (sb_offset sb + sz) (sb_head sb) (sb_tail sb), s)
  else if sz =? n_sz current - sb_offset sb then
    s ← node_bytes current (sb_offset sb) (sz - skip);
    '(P, sb) ← return_free_node P sb; Ok (P, sb, s)
  else pop_loop (length (bp_nodes P)) P sb sz skip [].

(** [sz] is a Lua integer, cut to an [int]. *)
Definition lpopbuffer (P : buffer_pool) (sb : socket_buffer) (sz : Z) : res (buffer_pool * socket_buffer * list lua_value) :=
  let sz := i32 sz in
  if (sb_size sb <? sz) || (sz =? 0) then Ok (P, sb, [LNil; LInteger (sb_size sb)])
  else
    '(P, sb, s) ← pop_lstring P sb sz 0;
    let sb := mk_sb (sb_size sb - sz) (sb_offset sb) (sb_head sb) (sb_tail sb) in
    Ok (P, sb, [LString s; LInteger (sb_size sb)]).

Fixpoint clear_loop (fuel : nat) (P : buffer_pool) (sb : socket_buffer) : res (buffer_pool * socket_buffer) :=
  match sb_head sb, fuel with
  | None, _ => Ok (P, sb)
  | Some _, O => Undef
  | Some _, S fuel => '(P, sb) ← return_free_node P sb; clear_loop fuel P sb
  end.

Definition lclearbuffer (P : buffer_pool) (sb : socket_buffer) : res (buffer_pool * socket_buffer) :=
  '(P, sb) ← clear_loop (length (bp_nodes P)) P sb;
  Ok (P, mk_sb 0 (sb_offset sb) (sb_head sb) (sb_tail sb)).

Fixpoint readall_loop (fuel : nat) (P : buffer_pool) (sb : socket_buffer) (acc : list Z) : res (buffer_pool * socket_buffer * list Z) :=
  match sb_head sb, fuel with
  | None, _ => Ok (P, sb, acc)
  | Some _, O => Undef
  | Some h, S fuel =>
      current ← get_node P (Some h);
      s ← node_bytes current (sb_offset sb) (n_sz current - sb_offset sb);
      '(P, sb) ← return_free_node P sb;
      readall_loop fuel P sb (acc ++ s)
  end.

Definition lreadall (P : buffer_pool) (sb : socket_buffer) : res (buffer_pool * socket_buffer * list Z) :=
  '(P, sb, s) ← readall_loop (length (bp_nodes P)) P sb [];
  Ok (P, mk_sb 0 (sb_offset sb) (sb_head sb) (sb_tail sb), s).

(** [memcmp(node->msg + from, sep, n) == 0] *)
Definition node_equal (nd : buffer_node) (from : Z) (sep : list Z) (n : Z) : res bool :=
  s ← node_bytes nd from n;
  if n <=? Z.of_nat (length sep) then Ok (bool_decide (s = take (Z.to_nat n) sep)) else Undef.

Fixpoint check_sep (fuel : nat) (P : buffer_pool) (node : option Z) (from : Z) (sep : list Z) : res bool :=
  match fuel with
  | O => Undef
  | S fuel =>
      nd ← get_node P node;
      let sz := n_sz nd - from in
      if Z.of_nat (length sep) <=? sz then node_equal nd from sep (Z.of_nat (length sep))
      else
        same ← (if 0 <? sz then node_equal nd from sep sz else Ok true);
        if negb same then Ok false
        else if sz <? 0 then Undef
        else check_sep fuel P (n_next nd) 0 (drop (Z.to_nat sz) sep)
  end.

(** The position of the separator, from [i] on; [k] is the number of positions
    left to try. *)
Fixpoint readline_loop (k : nat) (P : buffer_pool) (current : option Z) (from bytes : Z) (sep : list Z) (i : Z) : res (option Z) :=
  match k with
  | O => Ok None
  | S k =>
      found ← check_sep (length (bp_nodes P)) P current from sep;
      if found : bool then Ok (Some i)
      else
        let from := from + 1 in
        let bytes := bytes - 1 in
        if bytes =? 0 then
          nd ← get_node P current;
          match n_next nd with
          | None => Ok None
          | Some next => nd ← get_node P (Some next); readline_loop k P (Some next) 0 (n_sz nd) sep (i + 1)
          end
        else readline_loop k P current from bytes sep (i + 1)
  end.

(** With [check], only whether there is a line.  The length of the separator is
    an [int] for the loop: one of more than [INT_MAX] bytes is left [Undef]. *)
Definition lreadline (P : buffer_pool) (sb : socket_buffer) (check : bool) (sep : list Z)
    : res (buffer_pool * socket_buffer * list lua_value) :=
  match sb_head sb with
  | None => Ok (P, sb, [])
  | Some h =>
      seplen ← defined (chk32 (Z.of_nat (length sep)));
      current ← get_node P (Some h);
      let from := sb_offset sb in
      let bytes := n_sz current - from in
      r ← readline_loop (Z.to_nat (sb_size sb - seplen + 1)) P (Some h) from bytes sep 0;
      match r with
      | None => Ok (P, sb, [])
      | Some i =>
          if check then Ok (P, sb, [LBoolean true])
          else
            '(P, sb, s) ← pop_lstring P sb (i + seplen) seplen;
            Ok (P, mk_sb (sb_size sb - (i + seplen)) (sb_offset sb) (sb_head sb) (sb_tail sb), [LString s])
      end
  end.

(** ** Lists of nodes *)

(** From [p] on, the nodes at the addresses of [l] hold its blocks. *)
Fixpoint chain (ns : list buffer_node) (p : option Z) (l : list (Z * list Z)) : Prop :=
  match l with
  | [] => p = None
  | (a, m) :: l => p = Some a ∧ m ≠ [] ∧
      ∃ nx, arr_get ns a = Some (mk_bnode (Some m) (Z.of_nat (length m)) nx) ∧ chain ns nx l
  end.

(** From [p] on, the nodes at the addresses [l] are linked. *)
Fixpoint free_chain (ns : list buffer_node) (p : option Z) (l : list Z) : Prop :=
  match l with
  | [] => p = None
  | a :: l => p = Some a ∧ ∃ nd, arr_get ns a = Some nd ∧ free_chain ns (n_next nd) l
  end.

(** The two arrays agree on the addresses [l]. *)
Definition agree (ns ns' : list buffer_node) (l : list Z) : Prop := ∀ a, a ∈ l → arr_get ns' a = arr_get ns a.

Lemma agree_cons ns ns' a l : agree ns ns' (a :: l) → arr_get ns' a = arr_get ns a ∧ agree ns ns' l.
Proof. intros H. split; [apply H; by left|]. intros b Hb. apply H. by right. Qed.

Lemma chain_agree ns ns' p l : chain ns p l → agree ns ns' (map fst l) → chain ns' p l.
Proof.
  revert p. induction l as [|[a m] l IH]; intros p; cbn [chain map fst]; [done|].
  intros (-> & Hm & nx & Hg & Hc) [Ha Hl]%agree_cons. split_and!; [done|done|]. exists nx. rewrite Ha. auto.
Qed.

Lemma free_chain_agree ns ns' p l : free_chain ns p l → agree ns ns' l → free_chain ns' p l.
Proof.
  revert p. induction l as [|a l IH]; intros p; cbn [free_chain]; [done|].
  intros (-> & nd & Hg & Hc) [Ha Hl]%agree_cons. split; [done|]. exists nd. rewrite Ha. auto.
Qed.

Lemma arr_get_range {A} (l : list A) a x : arr_get l a = Some x → 0 <= a < Z.of_nat (length l).
Proof. unfold arr_get. case_match; [|done]. intros Hl%lookup_lt_Some. bool_to_prop. lia. Qed.

Lemma chain_range ns p l : chain ns p l → Forall (λ a, 0 <= a < Z.of_nat (length ns)) (map fst l).
Proof.
  revert p. induction l as [|[a m] l IH]; intros p; cbn [chain map fst]; [constructor|].
  intros (_ & _ & nx & Hg & Hc). constructor; [by eapply arr_get_range|eauto].
Qed.

Lemma free_chain_range ns p l : free_chain ns p l → Forall (λ a, 0 <= a < Z.of_nat (length ns)) l.
Proof.
  revert p. induction l as [|a l IH]; intros p; cbn [free_chain]; [constructor|].
  intros (_ & nd & Hg & Hc). constructor; [by eapply arr_get_range|eauto].
Qed.

(** Distinct addresses are at most as many as nodes. *)
Lemma nodes_bound (l : list Z) n : NoDup l → Forall (λ a, 0 <= a < Z.of_nat n) l → (length l <= n)%nat.
Proof.
  intros Hnd Hr. assert (Hl : (length l <= length (seqZ 0 (Z.of_nat n)))%nat); [|rewrite length_seqZ in Hl; lia].
  apply NoDup_incl_length; [by apply NoDup_ListNoDup|].
  intros a Ha. apply list_elem_of_In, elem_of_seqZ. rewrite Forall_forall in Hr. apply list_elem_of_In in Ha. specialize (Hr a Ha). lia.
Qed.

Lemma get_node_some P a nd : arr_get (bp_nodes P) a = Some nd → get_node P (Some a) = Ok nd.
Proof. intros H. unfold get_node. cbn [defined mbind res_bind]. by rewrite H. Qed.

Lemma put_node_ok P a nd : 0 <= a < Z.of_nat (length (bp_nodes P)) →
  ∃ ns, put_node P a nd = Ok (mk_bpool ns (bp_free P) (bp_len P)) ∧ length ns = length (bp_nodes P) ∧
    arr_get ns a = Some nd ∧ ∀ b, b ≠ a → arr_get ns b = arr_get (bp_nodes P) b.
Proof.
  intros Ha. unfold put_node. rewrite arr_set_some by done. cbn [defined mbind res_bind]. eexists. split; [done|].
  split; [by rewrite length_insert|]. split.
  - rewrite arr_get_lookup, list_lookup_insert_eq by lia. done.
  - intros b Hb. unfold arr_get. destruct (Z.leb_spec 0 b); [|done]. apply list_lookup_insert_ne. lia.
Qed.

(** ** One buffer and the free nodes *)

Record local (P : buffer_pool) (fl : list Z) (sb : socket_buffer) (l : list (Z * list Z)) : Prop := {
  lc_free : free_chain (bp_nodes P) (bp_free P) fl;
  lc_chain : chain (bp_nodes P) (sb_head sb) l;
  lc_tail : sb_tail sb = fst <$> last l;
  lc_nodup : NoDup (fl ++ map fst l);
  lc_offset : match l with [] => sb_offset sb = 0 | (_, m) :: _ => 0 <= sb_offset sb < Z.of_nat (length m) end
}.

(** The bytes in the buffer. *)
Definition bytes_of (sb : socket_buffer) (l : list (Z * list Z)) : list Z := drop (Z.to_nat (sb_offset sb)) (concat (map snd l)).

(** [P'] differs from [P] at the addresses [fp] only. *)
Definition framed (P P' : buffer_pool) (fp : list Z) : Prop :=
  length (bp_nodes P') = length (bp_nodes P) ∧ bp_len P' = bp_len P ∧
  ∀ a, a ∉ fp → arr_get (bp_nodes P') a = arr_get (bp_nodes P) a.

Lemma framed_refl P fp : framed P P fp.
Proof. done. Qed.

Lemma framed_trans P1 P2 P3 fp : framed P1 P2 fp → framed P2 P3 fp → framed P1 P3 fp.
Proof. intros (E1 & L1 & H1) (E2 & L2 & H2). split_and!; [congruence|congruence|]. intros a Ha. by rewrite H2, H1. Qed.

Lemma framed_weaken P P' fp fp' : framed P P' fp → fp ⊆ fp' → framed P P' fp'.
Proof. intros (E & L & H) Hs. split_and!; [done|done|]. intros a Ha. apply H. set_solver. Qed.

Lemma local_length P fl sb l : local P fl sb l → (length l <= length (bp_nodes P))%nat.
Proof.
  intros Hl. rewrite <- (length_map fst). apply nodes_bound; [|by eapply chain_range, (lc_chain _ _ _ _ Hl)].
  pose proof (lc_nodup _ _ _ _ Hl) as Hn. by apply NoDup_app in Hn as (_ & _ & ?).
Qed.

Lemma give_back_ok P fl sb a m l :
  local P fl sb ((a, m) :: l) →
  ∃ P' sb', return_free_node P sb = Ok (P', sb') ∧ local P' (a :: fl) sb' l ∧ sb_offset sb' = 0 ∧ sb_size sb' = sb_size sb ∧ framed P P' [a].
Proof.
  intros [Hf Hc Ht Hn Ho]. cbn [chain] in Hc. destruct Hc as (Hh & Hm & nx & Hg & Hc).
  unfold return_free_node, get_node. rewrite Hh. cbn [defined mbind res_bind]. rewrite Hg. cbn [defined mbind res_bind n_next].
  destruct (put_node_ok P a (mk_bnode None 0 (bp_free P)) (arr_get_range _ _ _ Hg)) as (ns & -> & Hl & Ha & Hne).
  cbn [mbind res_bind]. do 2 eexists. split; [done|].
  apply NoDup_app in Hn as (Hnf & Hd & Hnl). cbn [map fst] in Hnl, Hd. apply NoDup_cons in Hnl as [Hal Hnl].
  assert (Haf : a ∉ fl) by (intros Hin; apply (Hd a Hin); by left).
  split; [split; cbn|].
  - split; [done|]. eexists. split; [exact Ha|]. cbn. eapply free_chain_agree; [exact Hf|]. intros b Hb. apply Hne. by intros ->.
  - eapply chain_agree; [exact Hc|]. intros b Hb. apply Hne. by intros ->.
  - destruct l as [|[b m'] l]; cbn [chain] in Hc; [by rewrite Hc|]. destruct Hc as [-> _]. rewrite Ht. done.
  - apply NoDup_cons. split; [rewrite not_elem_of_app; done|]. apply NoDup_app. split_and!; [done| |done].
    intros x Hx. specialize (Hd x Hx). set_solver.
  - destruct l as [|[b m'] l]; [done|]. cbn [chain] in Hc. destruct Hc as (_ & Hm' & _). destruct m'; [done|cbn; lia].
  - split; [done|]. split; [done|]. split; [done|]. split; [done|]. intros b Hb. apply Hne. set_solver.
Qed.

(** ** Taking bytes *)

Definition after_op (P : buffer_pool) (fl : list Z) (l : list (Z * list Z)) (size : Z) (q : list Z)
    (P' : buffer_pool) (sb' : socket_buffer) : Prop :=
  ∃ fl' l', local P' fl' sb' l' ∧ bytes_of sb' l' = q ∧ sb_size sb' = size ∧
    fl' ++ map fst l' ≡ₚ fl ++ map fst l ∧ framed P P' (map fst l).

Lemma bytes_cons sb a m l :
  0 <= sb_offset sb < Z.of_nat (length m) →
  bytes_of sb ((a, m) :: l) = drop (Z.to_nat (sb_offset sb)) m ++ concat (map snd l).
Proof. intros Ho. unfold bytes_of. cbn [map snd concat]. rewrite drop_app_le by lia. done. Qed.

Lemma node_bytes_ok m nx off n :
  0 <= off → 0 <= n → off + n <= Z.of_nat (length m) →
  node_bytes (mk_bnode (Some m) (Z.of_nat (length m)) nx) off n = Ok (take (Z.to_nat n) (drop (Z.to_nat off) m)).
Proof.
  intros Ho Hn Hb. unfold node_bytes. rewrite (proj2 (Z.ltb_ge _ _)) by lia. cbn [n_msg defined mbind res_bind].
  repeat match goal with |- context [(?a <=? ?b)] => destruct (Z.leb_spec a b); [|lia] end. done.
Qed.

(** Bytes of the first block only. *)
Lemma advance_ok P fl sb a m l sz :
  local P fl sb ((a, m) :: l) → 0 <= sz < Z.of_nat (length m) - sb_offset sb →
  after_op P fl ((a, m) :: l) (sb_size sb) (drop (Z.to_nat sz) (bytes_of sb ((a, m) :: l))) P
    (mk_sb (sb_size sb) (sb_offset sb + sz) (sb_head sb) (sb_tail sb)).
Proof.
  intros [Hf Hc Ht Hn Ho] Hsz. exists fl, ((a, m) :: l). split; [split; cbn in *; try done; lia|].
  split; [|split; [done|split; [done|apply framed_refl]]]. unfold bytes_of. cbn [sb_offset]. rewrite drop_drop. f_equal. lia.
Qed.

(** The first block as a whole. *)
Lemma finish_block_ok P fl sb a m l :
  local P fl sb ((a, m) :: l) →
  ∃ P' sb', return_free_node P sb = Ok (P', sb') ∧
    after_op P fl ((a, m) :: l) (sb_size sb) (concat (map snd l)) P' sb' ∧
    local P' (a :: fl) sb' l ∧ bytes_of sb' l = concat (map snd l) ∧ sb_size sb' = sb_size sb ∧ framed P P' [a].
Proof.
  intros Hl. destruct (give_back_ok P fl sb a m l Hl) as (P' & sb' & He & Hl' & Ho & Hs & Hf). do 2 eexists. split; [exact He|].
  assert (Hb : bytes_of sb' l = concat (map snd l)) by (unfold bytes_of; by rewrite Ho).
  split; [|by split_and!]. exists (a :: fl), l. split_and!; [done|done|done| |].
  - cbn [map fst app]. by rewrite Permutation_middle.
  - eapply framed_weaken; [done|]. intros b Hb'. cbn. set_solver.
Qed.

Lemma after_op_cons P P1 fl a m l size q P' sb' :
  framed P P1 [a] → after_op P1 (a :: fl) l size q P' sb' → after_op P fl ((a, m) :: l) size q P' sb'.
Proof.
  intros Hf (fl' & l' & Hl & Hq & Hs & Hp & Hf'). exists fl', l'. split_and!; [done|done|done| |].
  - rewrite Hp. cbn [map fst app]. by rewrite Permutation_middle.
  - eapply framed_trans; eapply framed_weaken; [done| |done|]; intros b Hb; cbn; set_solver.
Qed.

Lemma bytes_nonempty sb l : bytes_of sb l ≠ [] → ∃ a m l', l = (a, m) :: l'.
Proof. destruct l as [|[a m] l]; [|eauto]. unfold bytes_of. cbn. by rewrite drop_nil. Qed.

Lemma local_head P fl sb a m l : local P fl sb ((a, m) :: l) →
  ∃ nx, get_node P (sb_head sb) = Ok (mk_bnode (Some m) (Z.of_nat (length m)) nx) ∧ 0 <= sb_offset sb < Z.of_nat (length m).
Proof.
  intros [_ Hc _ _ Ho]. cbn [chain] in Hc. destruct Hc as (-> & _ & nx & Hg & _). exists nx. unfold get_node. cbn [defined mbind res_bind].
  by rewrite Hg.
Qed.

Lemma pop_loop_ok fuel P fl sb l sz skip acc :
  local P fl sb l → 0 <= skip → 0 < sz <= Z.of_nat (length (bytes_of sb l)) → (length l <= fuel)%nat →
  ∃ P' sb', pop_loop fuel P sb sz skip acc = Ok (P', sb', acc ++ take (Z.to_nat (sz - skip)) (bytes_of sb l)) ∧
    after_op P fl l (sb_size sb) (drop (Z.to_nat sz) (bytes_of sb l)) P' sb'.
Proof.
  revert P fl sb l sz acc. induction fuel as [|fuel IH]; intros P fl sb l sz acc Hl Hk Hsz Hfu.
  { destruct l; [cbn in Hsz; unfold bytes_of in Hsz; cbn in Hsz; rewrite drop_nil in Hsz; cbn in Hsz; lia|cbn in Hfu; lia]. }
  destruct (bytes_nonempty sb l) as (a & m & l' & ->); [intros E; rewrite E in Hsz; cbn in Hsz; lia|].
  destruct (local_head _ _ _ _ _ _ Hl) as (nx & Hg & Ho). cbn [pop_loop]. rewrite Hg. cbn [mbind res_bind n_sz].
  rewrite (bytes_cons sb a m l' Ho) in *. rewrite length_app, length_drop in Hsz.
  set (off := sb_offset sb) in *. set (first := drop (Z.to_nat off) m) in *.
  assert (Hfl : Z.of_nat (length first) = Z.of_nat (length m) - off) by (unfold first; rewrite length_drop; lia).
  assert (Hread : ∀ n, 0 <= n <= Z.of_nat (length m) - off → node_bytes (mk_bnode (Some m) (Z.of_nat (length m)) nx) off n = Ok (take (Z.to_nat n) first))
    by (intros n Hn; apply node_bytes_ok; lia).
  destruct (Z.leb_spec sz (Z.of_nat (length m) - off)) as [Hle|Hgt].
  - assert (Hacc : (if skip <? sz then s ← node_bytes (mk_bnode (Some m) (Z.of_nat (length m)) nx) off (sz - skip); Ok (acc ++ s) else Ok acc) =
      Ok (acc ++ take (Z.to_nat (sz - skip)) (first ++ concat (map snd l')))).
    { rewrite take_app_le by lia. destruct (Z.ltb_spec skip sz); [by rewrite Hread by lia|].
      replace (Z.to_nat (sz - skip)) with 0%nat by lia. by rewrite take_0, app_nil_r. }
    rewrite Hacc. cbn [mbind res_bind]. destruct (Z.eqb_spec (Z.of_nat (length m) - off) sz) as [E|E].
    + destruct (finish_block_ok P fl sb a m l' Hl) as (P' & sb' & He & Ha & _).
      change (return_free_node P (mk_sb (sb_size sb) (off + sz) (sb_head sb) (sb_tail sb))) with (return_free_node P sb). rewrite He.
      cbn [mbind res_bind]. do 2 eexists. split; [done|]. rewrite drop_app, (drop_ge first) by lia.
      replace (Z.to_nat sz - length first)%nat with 0%nat by lia. exact Ha.
    + do 2 eexists. split; [done|]. pose proof (advance_ok P fl sb a m l' sz Hl ltac:(lia)) as Ha. by rewrite (bytes_cons sb a m l' Ho) in Ha.
  - assert (Hacc : (if 0 <? sz - skip then s ← node_bytes (mk_bnode (Some m) (Z.of_nat (length m)) nx) off
        (if sz - skip <? Z.of_nat (length m) - off then sz - skip else Z.of_nat (length m) - off); Ok (acc ++ s) else Ok acc) =
      Ok (acc ++ take (Z.to_nat (sz - skip)) first)).
    { destruct (Z.ltb_spec 0 (sz - skip)); [|replace (Z.to_nat (sz - skip)) with 0%nat by lia; by rewrite take_0, app_nil_r].
      destruct (Z.ltb_spec (sz - skip) (Z.of_nat (length m) - off)); rewrite Hread by lia; [done|]. cbn [mbind res_bind].
      by rewrite !take_ge by lia. }
    rewrite Hacc. cbn [mbind res_bind]. destruct (finish_block_ok P fl sb a m l' Hl) as (P1 & sb1 & -> & _ & Hl1 & Hb1 & Hs1 & Hf1).
    cbn [mbind res_bind]. rewrite (proj2 (Z.eqb_neq _ _)) by lia.
    destruct (IH P1 (a :: fl) sb1 l' (sz - (Z.of_nat (length m) - off)) (acc ++ take (Z.to_nat (sz - skip)) first) Hl1 Hk) as (P' & sb' & -> & Ha).
    { rewrite Hb1. lia. } { cbn in Hfu. lia. }
    do 2 eexists. split.
    + rewrite Hb1, <- app_assoc. do 3 f_equal. rewrite take_app. do 2 f_equal. lia.
    + rewrite Hb1 in Ha. rewrite <- Hs1. eapply after_op_cons; [done|]. rewrite drop_app, (drop_ge first) by lia. cbn [app].
      by replace (Z.to_nat sz - length first)%nat with (Z.to_nat (sz - (Z.of_nat (length m) - off))) by lia.
Qed.

Lemma pop_lstring_ok P fl sb l sz skip :
  local P fl sb l → 0 <= skip <= sz → sz <= Z.of_nat (length (bytes_of sb l)) → bytes_of sb l ≠ [] →
  ∃ P' sb', pop_lstring P sb sz skip = Ok (P', sb', take (Z.to_nat (sz - skip)) (bytes_of sb l)) ∧
    after_op P fl l (sb_size sb) (drop (Z.to_nat sz) (bytes_of sb l)) P' sb'.
Proof.
  intros Hl Hk Hsz Hne. destruct (bytes_nonempty sb l Hne) as (a & m & l' & ->).
  destruct (local_head _ _ _ _ _ _ Hl) as (nx & Hg & Ho). unfold pop_lstring. rewrite Hg. cbn [mbind res_bind n_sz].
  pose proof (bytes_cons sb a m l' Ho) as Hb.
  assert (Hfl : length (drop (Z.to_nat (sb_offset sb)) m) = (length m - Z.to_nat (sb_offset sb))%nat) by apply length_drop.
  destruct (Z.ltb_spec sz (Z.of_nat (length m) - sb_offset sb)) as [Hlt|Hge]; [|destruct (Z.eqb_spec sz (Z.of_nat (length m) - sb_offset sb)) as [E|E]].
  - rewrite node_bytes_ok by lia. cbn [mbind res_bind]. do 2 eexists. split; [rewrite Hb, take_app_le by lia; done|]. apply advance_ok; [done|lia].
  - rewrite node_bytes_ok by lia. cbn [mbind res_bind]. destruct (finish_block_ok P fl sb a m l' Hl) as (P' & sb' & -> & Ha & _).
    cbn [mbind res_bind]. do 2 eexists. split; [rewrite Hb, take_app_le by lia; done|].
    rewrite Hb, drop_app, (drop_ge (drop _ m)) by lia. replace (Z.to_nat sz - length (drop (Z.to_nat (sb_offset sb)) m))%nat with 0%nat by lia.
    exact Ha.
  - apply (pop_loop_ok _ _ _ _ _ _ _ [] Hl); [lia|lia|by eapply local_length].
Qed.

(** ** Emptying *)

Lemma empty_loop_ok fuel P fl sb l :
  local P fl sb l → (length l <= fuel)%nat →
  ∃ P' sb', clear_loop fuel P sb = Ok (P', sb') ∧ after_op P fl l (sb_size sb) [] P' sb'.
Proof.
  revert P fl sb l. induction fuel as [|fuel IH]; intros P fl sb l Hl Hf; destruct l as [|[a m] l].
  1, 3: pose proof (lc_chain _ _ _ _ Hl) as Hc; cbn [chain] in Hc; cbn [clear_loop]; rewrite Hc; do 2 eexists; (split; [done|]);
    exists fl, []; (split; [done|]); (split; [unfold bytes_of; cbn; by rewrite drop_nil|done]).
  - cbn in Hf. lia.
  - pose proof (lc_chain _ _ _ _ Hl) as Hc. cbn [chain] in Hc. destruct Hc as [Hh _]. cbn [clear_loop]. rewrite Hh.
    destruct (finish_block_ok P fl sb a m l Hl) as (P1 & sb1 & -> & _ & Hl1 & _ & Hs1 & Hf1). cbn [mbind res_bind].
    destruct (IH P1 (a :: fl) sb1 l Hl1) as (P' & sb' & -> & Ha); [cbn in Hf; lia|]. do 2 eexists. split; [done|].
    rewrite <- Hs1. by eapply after_op_cons.
Qed.

Lemma readall_loop_ok fuel P fl sb l acc :
  local P fl sb l → (length l <= fuel)%nat →
  ∃ P' sb', readall_loop fuel P sb acc = Ok (P', sb', acc ++ bytes_of sb l) ∧ after_op P fl l (sb_size sb) [] P' sb'.
Proof.
  revert P fl sb l acc. induction fuel as [|fuel IH]; intros P fl sb l acc Hl Hf; destruct l as [|[a m] l].
  1, 3: pose proof (lc_chain _ _ _ _ Hl) as Hc; cbn [chain] in Hc; cbn [readall_loop]; rewrite Hc; do 2 eexists;
    (split; [unfold bytes_of; cbn; by rewrite drop_nil, app_nil_r|]); exists fl, []; (split; [done|]); (split; [unfold bytes_of; cbn; by rewrite drop_nil|done]).
  - cbn in Hf. lia.
  - pose proof (lc_chain _ _ _ _ Hl) as Hc. cbn [chain] in Hc. destruct Hc as [Hh _]. cbn [readall_loop]. rewrite Hh, <- Hh.
    destruct (local_head _ _ _ _ _ _ Hl) as (nx & -> & Ho). cbn [mbind res_bind n_sz]. rewrite node_bytes_ok by lia. cbn [mbind res_bind].
    destruct (finish_block_ok P fl sb a m l Hl) as (P1 & sb1 & -> & _ & Hl1 & Hb1 & Hs1 & Hf1). cbn [mbind res_bind].
    destruct (IH P1 (a :: fl) sb1 l (acc ++ take (Z.to_nat (Z.of_nat (length m) - sb_offset sb)) (drop (Z.to_nat (sb_offset sb)) m)) Hl1)
      as (P' & sb' & -> & Ha); [cbn in Hf; lia|]. do 2 eexists. split; [|rewrite <- Hs1; by eapply after_op_cons].
    rewrite Hb1, (bytes_cons sb a m l Ho), <- app_assoc. by rewrite (take_ge (drop _ m)) by (rewrite length_drop; lia).
Qed.

(** ** Lines *)

(** The first position of [sep]. *)
Fixpoint find_sep (sep q : list Z) : option Z :=
  if bool_decide (take (length sep) q = sep) then Some 0
  else match q with [] => None | _ :: q => Z.succ <$> find_sep sep q end.

Lemma find_sep_short sep q : (length q < length sep)%nat → find_sep sep q = None.
Proof.
  induction q as [|x q IH]; intros Hl; cbn [find_sep]; (rewrite bool_decide_eq_false_2; [|intros E%(f_equal length); rewrite length_take in E; cbn in *; lia]).
  - done.
  - rewrite IH by (cbn in Hl; lia). done.
Qed.

Lemma find_sep_range sep q i : find_sep sep q = Some i → 0 <= i ∧ i + Z.of_nat (length sep) <= Z.of_nat (length q).
Proof.
  revert i. induction q as [|x q IH]; intros i; cbn [find_sep]; case_bool_decide as E; intros H; simplify_eq.
  - apply (f_equal length) in E. rewrite length_take in E. cbn in E. lia.
  - apply (f_equal length) in E. rewrite length_take in E. lia.
  - apply fmap_Some in H as (j & Hj & ->). specialize (IH j Hj). cbn [length]. lia.
Qed.

Lemma node_equal_ok m nx from sep n :
  0 <= from → 0 <= n <= Z.of_nat (length sep) → from + n <= Z.of_nat (length m) →
  node_equal (mk_bnode (Some m) (Z.of_nat (length m)) nx) from sep n =
    Ok (bool_decide (take (Z.to_nat n) (drop (Z.to_nat from) m) = take (Z.to_nat n) sep)).
Proof.
  intros Hf Hn Hb. unfold node_equal. rewrite node_bytes_ok by lia. cbn [mbind res_bind]. by rewrite (proj2 (Z.leb_le _ _)) by lia.
Qed.

Lemma check_sep_ok fuel P p l from sep :
  chain (bp_nodes P) p l → match l with [] => False | (_, m) :: _ => 0 <= from < Z.of_nat (length m) end →
  (length sep <= length (drop (Z.to_nat from) (concat (map snd l))))%nat → (length l <= fuel)%nat →
  check_sep fuel P p from sep = Ok (bool_decide (take (length sep) (drop (Z.to_nat from) (concat (map snd l))) = sep)).
Proof.
  revert p l from sep. induction fuel as [|fuel IH]; intros p l from sep Hc Hf Hlen Hfu; (destruct l as [|[a m] l]; [done|]); [cbn in Hfu; lia|].
  cbn [chain] in Hc. destruct Hc as (-> & Hm & nx & Hg & Hc). cbn [check_sep]. unfold get_node. cbn [defined mbind res_bind]. rewrite Hg.
  cbn [defined mbind res_bind n_sz n_next]. cbn [map snd concat] in *. rewrite drop_app_le in * by lia.
  set (first := drop (Z.to_nat from) m) in *. assert (Hfl : Z.of_nat (length first) = Z.of_nat (length m) - from) by (unfold first; rewrite length_drop; lia).
  destruct (Z.leb_spec (Z.of_nat (length sep)) (Z.of_nat (length m) - from)) as [Hle|Hgt].
  - rewrite node_equal_ok by lia. fold first. rewrite Nat2Z.id, take_app_le, (take_ge sep) by lia. done.
  - rewrite (proj2 (Z.ltb_lt 0 (Z.of_nat (length m) - from))), node_equal_ok by lia. fold first. cbn [mbind res_bind]. rewrite (take_ge first) by lia.
    rewrite take_app, (take_ge first) by lia. case_bool_decide as E1; cbn [negb].
    + rewrite (proj2 (Z.ltb_ge _ _)) by lia. rewrite length_app in Hlen.
      rewrite (IH nx l 0 (drop (Z.to_nat (Z.of_nat (length m) - from)) sep)); [|done| | |cbn in Hfu; lia].
      * f_equal. change (Z.to_nat 0) with 0%nat. rewrite drop_0, length_drop. apply bool_decide_ext.
        replace (length sep - Z.to_nat (Z.of_nat (length m) - from))%nat with (length sep - length first)%nat by lia.
        assert (Hsep : first ++ drop (Z.to_nat (Z.of_nat (length m) - from)) sep = sep) by (rewrite E1; apply take_drop).
        split; intros E; [by rewrite E|]. apply (app_inv_head first). by rewrite E.
      * destruct l as [|[b m'] l]; [cbn in Hlen; lia|]. cbn [chain] in Hc. destruct Hc as (_ & Hm' & _). destruct m'; [done|cbn; lia].
      * change (Z.to_nat 0) with 0%nat. rewrite drop_0, length_drop. lia.
    + rewrite bool_decide_eq_false_2; [done|]. intros E2. apply E1. rewrite <- E2.
      by rewrite take_app_le, take_ge by lia.
Qed.

Lemma readline_loop_ok k P p l from bytes sep i c :
  chain (bp_nodes P) p l → (length l <= length (bp_nodes P))%nat →
  match l with [] => False | (_, m) :: _ => 0 <= from ∧ 0 < bytes ∧ from + bytes = Z.of_nat (length m) end →
  c = drop (Z.to_nat from) (concat (map snd l)) → k = Z.to_nat (Z.of_nat (length c) - Z.of_nat (length sep) + 1) →
  readline_loop k P p from bytes sep i = Ok (Z.add i <$> find_sep sep c).
Proof.
  revert p l from bytes i c. induction k as [|k IH]; intros p l from bytes i c Hc Hn Hf Ec Ek; cbn [readline_loop].
  { by rewrite find_sep_short by lia. }
  destruct l as [|[a m] l]; [done|]. cbn [map snd concat] in Ec. destruct Hf as (Hf0 & Hb0 & Hfm).
  rewrite (check_sep_ok _ _ _ _ _ sep Hc); [|cbn; lia|cbn [map snd concat]; rewrite <- Ec; lia|done].
  cbn [mbind res_bind map snd concat]. rewrite <- Ec.
  assert (Hcut : c = drop (Z.to_nat from) m ++ concat (map snd l)) by (rewrite Ec; by rewrite drop_app_le by lia).
  destruct (drop (Z.to_nat from) m) as [|x rest] eqn:Er; [apply (f_equal length) in Er; rewrite length_drop in Er; cbn in Er; lia|].
  assert (Hrest : drop (Z.to_nat (from + 1)) m = rest).
  { replace (Z.to_nat (from + 1)) with (Z.to_nat from + 1)%nat by lia. by rewrite <- drop_drop, Er. }
  assert (Hrl : Z.of_nat (length rest) = bytes - 1) by (apply (f_equal length) in Er; rewrite length_drop in Er; cbn in Er; lia).
  cbn [app] in Hcut.
  assert (find_sep sep c = if bool_decide (take (length sep) c = sep) then Some 0 else Z.succ <$> find_sep sep (rest ++ concat (map snd l)))
    as -> by (by rewrite Hcut).
  case_bool_decide as E; [cbn; do 2 f_equal; lia|].
  assert (Hadd : ∀ o : option Z, Z.add i <$> (Z.succ <$> o) = Z.add (i + 1) <$> o) by (intros [j|]; [cbn; f_equal; lia|done]). rewrite Hadd.
  rewrite Hcut in Ek. cbn [length] in Ek. cbn [chain] in Hc. destruct Hc as (-> & Hm & nx & Hg & Hc).
  destruct (Z.eqb_spec (bytes - 1) 0) as [Hz|Hz].
  - destruct rest; [|cbn in Hrl; lia]. cbn [app] in *. rewrite (get_node_some _ _ _ Hg). cbn [mbind res_bind n_next].
    destruct l as [|[b m'] l]; cbn [chain] in Hc.
    + subst nx. cbn [map concat]. rewrite find_sep_short; [done|]. cbn. destruct sep; [|cbn; lia]. exfalso. apply E. done.
    + pose proof Hc as (-> & Hm' & nx' & Hg' & _). rewrite (get_node_some _ _ _ Hg'). cbn [mbind res_bind n_sz].
      apply (IH (Some b) ((b, m') :: l) 0); [done|cbn in Hn |- *; lia| |done|lia].
      destruct m'; [done|cbn [length]; lia].
  - apply (IH (Some a) ((a, m) :: l) (from + 1)).
    + cbn [chain]. split_and!; [done|done|]. by exists nx.
    + done.
    + lia.
    + cbn [map snd concat]. by rewrite drop_app_le, Hrest by lia.
    + lia.
Qed.

(** ** Adding a block *)

Lemma chunk_size_pos tsz : 0 <= tsz → 0 < chunk_size tsz.
Proof.
  intros Ht. unfold chunk_size, LARGE_PAGE_NODE. destruct (Z.leb_spec tsz (12 - 3)); [|done].
  rewrite Z.shiftl_mul_pow2 by lia. pose proof (Z.pow_pos_nonneg 2 tsz). lia.
Qed.

(** A new chunk is a list of free nodes behind the old ones. *)
Lemma newpool_ok P sz : 0 < sz →
  let '(P', base) := lnewpool P sz in
  base = Z.of_nat (length (bp_nodes P)) ∧ length (bp_nodes P') = (length (bp_nodes P) + Z.to_nat sz)%nat ∧
  free_chain (bp_nodes P') (Some base) (seqZ base sz) ∧ ∀ a, a < base → arr_get (bp_nodes P') a = arr_get (bp_nodes P) a.
Proof.
  intros Hsz. unfold lnewpool. cbn [bp_nodes]. set (base := Z.of_nat (length (bp_nodes P))). split; [done|].
  set (chunk := map _ _). assert (Hcl : length chunk = Z.to_nat sz) by (unfold chunk; by rewrite length_map, length_seqZ).
  assert (Hget : ∀ i, 0 <= i < sz → arr_get (bp_nodes P ++ chunk) (base + i) =
    Some (mk_bnode None 0 (if i =? sz - 1 then None else Some (base + i + 1)))).
  { intros i Hi. rewrite arr_get_lookup, lookup_app_r by lia. replace (Z.to_nat (base + i) - length (bp_nodes P))%nat with (Z.to_nat i) by lia.
    unfold chunk. rewrite list_lookup_fmap, lookup_seqZ_lt by lia. cbn. do 2 f_equal. replace (0 + Z.of_nat (Z.to_nat i)) with i by lia. done. }
  split; [by rewrite length_app, Hcl|]. split.
  - assert (Hgen : ∀ n i, 0 <= i → Z.of_nat n = sz - i → free_chain (bp_nodes P ++ chunk) (if i =? sz then None else Some (base + i)) (seqZ (base + i) (Z.of_nat n))).
    { induction n as [|n IH]; intros i Hi Hn.
      - rewrite (proj2 (Z.eqb_eq i sz)) by lia. done.
      - rewrite Nat2Z.inj_succ, seqZ_cons by lia. cbn [free_chain]. rewrite (proj2 (Z.eqb_neq i sz)) by lia. split; [done|].
        eexists. split; [apply Hget; lia|]. cbn [n_next]. specialize (IH (i + 1) ltac:(lia) ltac:(lia)).
        replace (i =? sz - 1) with (i + 1 =? sz) by (destruct (Z.eqb_spec (i + 1) sz), (Z.eqb_spec i (sz - 1)); lia || done).
        replace (base + i + 1) with (base + (i + 1)) by lia. replace (Z.succ (base + i)) with (base + (i + 1)) by lia.
        rewrite Z.pred_succ. done. }
    specialize (Hgen (Z.to_nat sz) 0 ltac:(lia) ltac:(lia)). rewrite Z.add_0_r, Z2Nat.id in Hgen by lia.
    by rewrite (proj2 (Z.eqb_neq 0 sz)) in Hgen by lia.
  - intros a Ha. unfold arr_get. destruct (Z.leb_spec 0 a); [|done]. apply lookup_app_l. lia.
Qed.

(** [P'] has the nodes of [P], changed at [fp] only, and maybe more. *)
Definition grown (P P' : buffer_pool) (fp : list Z) : Prop :=
  (length (bp_nodes P) <= length (bp_nodes P'))%nat ∧ 0 <= bp_len P' ∧
  ∀ a, a ∉ fp → a < Z.of_nat (length (bp_nodes P)) → arr_get (bp_nodes P') a = arr_get (bp_nodes P) a.

Lemma find_free_ok P fl sb l :
  local P fl sb l → 0 <= bp_len P →
  let '(P1, f) := find_free_node P in
  ∃ fl1, free_chain (bp_nodes P1) (Some f) (f :: fl1) ∧ chain (bp_nodes P1) (sb_head sb) l ∧ NoDup ((f :: fl1) ++ map fst l) ∧ grown P P1 [] ∧
    ∀ a, a ∈ f :: fl1 → a ∈ fl ∨ Z.of_nat (length (bp_nodes P)) <= a.
Proof.
  intros [Hf Hc Ht Hn Ho] Hlen. unfold find_free_node. destruct (bp_free P) as [f|] eqn:E.
  - destruct fl as [|f' fl1]; [done|]. pose proof Hf as ([= <-] & _). exists fl1. split_and!; [done|done|done|done|by left].
  - destruct fl; [|by destruct Hf]. set (tsz := if bp_len P =? 0 then 1 else bp_len P).
    assert (Htsz : 0 < tsz) by (unfold tsz; destruct (Z.eqb_spec (bp_len P) 0); lia).
    pose proof (chunk_size_pos tsz ltac:(lia)) as Hcs. pose proof (newpool_ok P (chunk_size tsz) Hcs) as Hnew.
    destruct (lnewpool P (chunk_size tsz)) as [P1 base]. destruct Hnew as (Hb & Hl1 & Hfc & Hold). cbn [bp_nodes].
    rewrite <- (Z.succ_pred (chunk_size tsz)), seqZ_cons in Hfc by lia. rewrite Z.pred_succ in Hfc. exists (seqZ (Z.succ base) (Z.pred (chunk_size tsz))).
    assert (Hin : ∀ a, a ∈ base :: seqZ (Z.succ base) (Z.pred (chunk_size tsz)) → base <= a)
      by (intros a [->|Ha]%elem_of_cons; [lia|]; apply elem_of_seqZ in Ha; lia).
    pose proof (chain_range _ _ _ Hc) as Hr. rewrite Forall_forall in Hr. split_and!.
    + exact Hfc.
    + eapply chain_agree; [exact Hc|]. intros a Ha. apply Hold. specialize (Hr a Ha). lia.
    + apply NoDup_app. split_and!; [| |by apply NoDup_app in Hn as (_ & _ & ?)].
      * apply NoDup_cons. split; [intros Hi%elem_of_seqZ; lia|apply NoDup_seqZ].
      * intros a Ha Hi. specialize (Hin a Ha). specialize (Hr a Hi). lia.
    + split; cbn [bp_nodes bp_len]; [lia|]. split; [lia|]. intros a _ Ha. apply Hold. lia.
    + intros a Ha. right. specialize (Hin a Ha). lia.
Qed.

Lemma chain_last ns p l t mt : chain ns p (l ++ [(t, mt)]) →
  ∃ nx, arr_get ns t = Some (mk_bnode (Some mt) (Z.of_nat (length mt)) nx) ∧ mt ≠ [].
Proof.
  revert p. induction l as [|[b mb] l IH]; intros p; cbn [app chain]; intros (_ & Hm & nx & Hg & Hc); [by exists nx|eauto].
Qed.

(** A node behind the last one. *)
Lemma chain_link ns ns' p l t mt a m :
  chain ns p (l ++ [(t, mt)]) → agree ns ns' (map fst l) → m ≠ [] →
  arr_get ns' t = Some (mk_bnode (Some mt) (Z.of_nat (length mt)) (Some a)) →
  arr_get ns' a = Some (mk_bnode (Some m) (Z.of_nat (length m)) None) → chain ns' p ((l ++ [(t, mt)]) ++ [(a, m)]).
Proof.
  intros Hc Hag Hm Ht Ha. revert p Hc Hag. induction l as [|[b mb] l IH]; intros p; cbn [app chain map fst].
  - intros (-> & Hmt & _) _. split_and!; [done|done|]. eexists. split; [done|]. split_and!; [done|done|]. by eexists.
  - intros (-> & Hmb & nx & Hg & Hc) [Hb Hag]%agree_cons. split_and!; [done|done|]. exists nx. rewrite Hb. auto.
Qed.

Definition push_node (P : buffer_pool) (sb : socket_buffer) (f : Z) (msg : list Z) : res (buffer_pool * socket_buffer) :=
  nd ← get_node P (Some f);
  P ← put_node (set_free P (n_next nd)) f (mk_bnode (Some msg) (Z.of_nat (length msg)) None);
  link_node P sb f.

Lemma push_node_ok P f fl1 sb l msg :
  free_chain (bp_nodes P) (Some f) (f :: fl1) → chain (bp_nodes P) (sb_head sb) l → NoDup ((f :: fl1) ++ map fst l) →
  sb_tail sb = fst <$> last l → msg ≠ [] →
  ∃ P' sb', push_node P sb f msg = Ok (P', sb') ∧
    free_chain (bp_nodes P') (bp_free P') fl1 ∧ chain (bp_nodes P') (sb_head sb') (l ++ [(f, msg)]) ∧ sb_tail sb' = Some f ∧
    sb_offset sb' = sb_offset sb ∧ sb_size sb' = sb_size sb ∧ framed P P' (f :: map fst l).
Proof.
  intros (_ & nd & Hg & Hf) Hc Hn Ht Hm. unfold push_node. rewrite (get_node_some _ _ _ Hg). cbn [mbind res_bind].
  destruct (put_node_ok (set_free P (n_next nd)) f (mk_bnode (Some msg) (Z.of_nat (length msg)) None)) as (ns & -> & Hl & Ha & Hne);
    [exact (arr_get_range _ _ _ Hg)|]. cbn [mbind res_bind bp_free bp_len set_free bp_nodes] in *.
  rewrite <- app_comm_cons in Hn. apply NoDup_cons in Hn as [Hfi Hn]. rewrite not_elem_of_app in Hfi. destruct Hfi as [Hff Hfl].
  apply NoDup_app in Hn as (_ & Hd & Hnl). unfold link_node.
  destruct l as [|[t mt] l0 _] using rev_ind.
  - cbn [chain] in Hc. rewrite Hc. cbn in Ht. rewrite Ht. do 2 eexists. split; [done|]. cbn. split_and!; try done.
    + eapply free_chain_agree; [exact Hf|]. intros b Hb. apply Hne. by intros ->.
    + by eexists.
    + split; [done|]. split; [done|]. intros b Hb. apply Hne. set_solver.
  - rewrite map_app in *. cbn [map fst] in *. apply NoDup_app in Hnl as (_ & Hdt & _).
    rewrite last_snoc in Ht. cbn in Ht. rewrite Ht. destruct (chain_last _ _ _ _ _ Hc) as (nx & Hgt & Hmt).
    assert (Hh : ∃ h, sb_head sb = Some h) by (destruct l0 as [|[b mb] l0]; cbn [app chain] in Hc; destruct Hc as [-> _]; eauto).
    destruct Hh as [h Hh]. rewrite Hh in *. cbn [defined mbind res_bind].
    assert (Htf : t ≠ f) by (intros ->; apply Hfl; set_solver).
    rewrite (get_node_some _ t (mk_bnode (Some mt) (Z.of_nat (length mt)) nx)) by (cbn [bp_nodes]; by rewrite Hne). cbn [mbind res_bind n_msg n_sz].
    destruct (put_node_ok (mk_bpool ns (n_next nd) (bp_len P)) t (mk_bnode (Some mt) (Z.of_nat (length mt)) (Some f))) as (ns' & -> & Hl' & Ha' & Hne');
      [cbn [bp_nodes]; rewrite Hl; exact (arr_get_range _ _ _ Hgt)|]. cbn [mbind res_bind bp_nodes bp_free bp_len] in *.
    do 2 eexists. split; [done|]. cbn [bp_nodes bp_free bp_len sb_head sb_tail sb_offset sb_size]. split_and!; try done.
    + eapply free_chain_agree; [exact Hf|]. intros b Hb. specialize (Hd b Hb). rewrite Hne', Hne; [done| |]; intros ->; [done|]. set_solver.
    + eapply chain_link; [exact Hc| |done|done|by rewrite Hne'].
      intros b Hb. specialize (Hdt b Hb). rewrite Hne', Hne; [done| |]; intros ->; set_solver.
    + split; [cbn; lia|]. split; [done|]. intros b Hb. rewrite Hne', Hne; [done| |]; intros ->; set_solver.
Qed.

(** ** The operations on one buffer *)

(** The buffer holds the bytes [q]. *)
Definition holds (P : buffer_pool) (fl : list Z) (sb : socket_buffer) (l : list (Z * list Z)) (q : list Z) : Prop :=
  local P fl sb l ∧ bytes_of sb l = q ∧ sb_size sb = Z.of_nat (length q).

(** The nodes used after an operation are those used before, or new. *)
Definition after (P : buffer_pool) (fl : list Z) (l : list (Z * list Z)) (q : list Z) (P' : buffer_pool) (sb' : socket_buffer) : Prop :=
  ∃ fl' l', holds P' fl' sb' l' q ∧ grown P P' (fl ++ map fst l) ∧
    ∀ a, a ∈ fl' ++ map fst l' → a ∈ fl ++ map fst l ∨ Z.of_nat (length (bp_nodes P)) <= a.

Lemma local_size P fl sb l size : local P fl (mk_sb size (sb_offset sb) (sb_head sb) (sb_tail sb)) l ↔ local P fl sb l.
Proof. split; intros [Hf Hc Ht Hn Ho]; by split. Qed.

Lemma after_op_after P fl l size q P' sb' :
  0 <= bp_len P → after_op P fl l size q P' sb' → after P fl l q P' (mk_sb (Z.of_nat (length q)) (sb_offset sb') (sb_head sb') (sb_tail sb')).
Proof.
  intros Hb (fl' & l' & Hl & Hq & _ & Hp & He & Hlen & Hf). exists fl', l'. split; [split; [by apply local_size|by split]|].
  split; [split; [lia|]; split; [lia|]; intros a Ha _; apply Hf; set_solver|]. intros a Ha. left. by rewrite <- Hp.
Qed.

(** The position of the line in the bytes [q]; there is none in an empty buffer. *)
Definition find_line (sep q : list Z) : option Z := match q with [] => None | _ => find_sep sep q end.

Section Buffer.
Context {P : buffer_pool} {fl : list Z} {sb : socket_buffer} {l : list (Z * list Z)} {q : list Z}.
Hypothesis Hlen : 0 <= bp_len P.
Hypothesis Hq : holds P fl sb l q.

Lemma after_same : after P fl l q P sb.
Proof. exists fl, l. split; [done|]. split; [split; [lia|by split]|]. by left. Qed.

Lemma lpush_ok msg : msg ≠ [] → Z.of_nat (length (q ++ msg)) <= INT_MAX →
  ∃ P' sb', lpushbuffer P sb msg = Ok (P', sb', Z.of_nat (length (q ++ msg))) ∧ after P fl l (q ++ msg) P' sb'.
Proof.
  intros Hm Hmax. destruct Hq as (Hl & Hb & Hs). pose proof (find_free_ok P fl sb l Hl Hlen) as Hff. unfold lpushbuffer.
  rewrite i32_small by (rewrite length_app in Hmax; unfold INT_MIN; lia).
  destruct (find_free_node P) as [P1 f]. destruct Hff as (fl1 & Hfc & Hc & Hn & (Hg1 & Hg2 & Hg3) & Hnew).
  destruct (push_node_ok P1 f fl1 sb l msg Hfc Hc Hn (lc_tail _ _ _ _ Hl) Hm) as (P' & sb' & He & Hf' & Hc' & Ht' & Ho' & Hs' & El & Eb & Hfr).
  rewrite length_app in Hmax |- *. assert (∀ k : buffer_pool * socket_buffer → res (buffer_pool * socket_buffer * Z),
    (nd ← get_node P1 (Some f); P ← put_node (set_free P1 (n_next nd)) f (mk_bnode (Some msg) (Z.of_nat (length msg)) None); x ← link_node P sb f; k x) =
    (x ← push_node P1 sb f msg; k x)) as ->.
  { intros k. unfold push_node. destruct (get_node P1 (Some f)); [|done..]. cbn [mbind res_bind]. by destruct (put_node _ _ _). }
  rewrite He. cbn [mbind res_bind]. rewrite Hs', Hs. unfold chk32. rewrite !(proj2 (Z.leb_le _ _)) by (unfold INT_MIN; lia).
  cbn [andb defined mbind res_bind]. do 2 eexists. split; [by rewrite Nat2Z.inj_add|].
  exists fl1, (l ++ [(f, msg)]). split; [split; [apply local_size; split; try done|split]|split].
  - by rewrite last_snoc.
  - rewrite map_app. cbn [map fst]. rewrite app_assoc, Permutation_app_comm. exact Hn.
  - rewrite Ho'. pose proof (lc_offset _ _ _ _ Hl) as Ho. destruct l as [|[a m] l']; [|done]. cbn in *. rewrite Ho. destruct msg; [done|cbn; lia].
  - rewrite <- Hb. unfold bytes_of. cbn [sb_offset]. rewrite Ho', map_app, concat_app. cbn [map snd concat]. rewrite app_nil_r. apply drop_app_le.
    pose proof (lc_offset _ _ _ _ Hl) as Ho. destruct l as [|[a m] l']; cbn in *; [lia|]. rewrite length_app. lia.
  - cbn. rewrite length_app. lia.
  - split; [lia|]. split; [lia|]. intros a Ha Hlt. rewrite Hfr; [apply Hg3; [set_solver|done]|]. specialize (Hnew a). set_solver by lia.
  - intros a Ha. rewrite map_app in Ha. cbn [map fst] in Ha. specialize (Hnew a). set_solver.
Qed.

Lemma lpop_ok sz : 0 <= sz <= INT_MAX →
  ∃ P' sb' q', lpopbuffer P sb sz = Ok (P', sb', if (Z.of_nat (length q) <? sz) || (sz =? 0) then [LNil; LInteger (Z.of_nat (length q))]
      else [LString (take (Z.to_nat sz) q); LInteger (Z.of_nat (length q'))]) ∧
    q' = (if Z.of_nat (length q) <? sz then q else drop (Z.to_nat sz) q) ∧ after P fl l q' P' sb'.
Proof.
  intros Hsz. pose proof Hq as (Hl & Hb & Hs). unfold lpopbuffer. rewrite i32_small by (unfold INT_MIN; lia). rewrite Hs.
  destruct (Z.ltb_spec (Z.of_nat (length q)) sz) as [Hlt|Hge]; cbn [orb].
  { exists P, sb, q. split; [done|]. split; [done|]. apply after_same. }
  destruct (Z.eqb_spec sz 0) as [->|Hz].
  { exists P, sb, q. split; [done|]. split; [done|]. apply after_same. }
  assert (Hne : bytes_of sb l ≠ []) by (rewrite Hb; intros ->; cbn in Hge; lia).
  destruct (pop_lstring_ok P fl sb l sz 0 Hl) as (P' & sb' & -> & Ha); [lia|rewrite Hb; lia|done|]. cbn [mbind res_bind sb_size].
  rewrite Hb, Z.sub_0_r in *. pose proof (after_op_after _ _ _ _ _ _ _ Hlen Ha) as Hfin.
  destruct Ha as (_ & _ & _ & _ & Hs' & _). rewrite Hs', Hs. rewrite length_drop in *.
  replace (Z.of_nat (length q - Z.to_nat sz)) with (Z.of_nat (length q) - sz) in * by lia.
  do 3 eexists. split; [|split; [done|exact Hfin]]. rewrite length_drop. do 5 f_equal. lia.
Qed.

Lemma lclear_ok : ∃ P' sb', lclearbuffer P sb = Ok (P', sb') ∧ after P fl l [] P' sb'.
Proof.
  pose proof Hq as (Hl & _). unfold lclearbuffer.
  destruct (empty_loop_ok (length (bp_nodes P)) P fl sb l Hl (local_length _ _ _ _ Hl)) as (P' & sb' & -> & Ha). cbn [mbind res_bind].
  do 2 eexists. split; [done|]. exact (after_op_after _ _ _ _ _ _ _ Hlen Ha).
Qed.

Lemma lreadall_ok : ∃ P' sb', lreadall P sb = Ok (P', sb', q) ∧ after P fl l [] P' sb'.
Proof.
  pose proof Hq as (Hl & Hb & _). unfold lreadall.
  destruct (readall_loop_ok (length (bp_nodes P)) P fl sb l [] Hl (local_length _ _ _ _ Hl)) as (P' & sb' & -> & Ha). cbn [mbind res_bind app].
  rewrite Hb. do 2 eexists. split; [done|]. exact (after_op_after _ _ _ _ _ _ _ Hlen Ha).
Qed.

Lemma lreadline_ok check sep : Z.of_nat (length sep) <= INT_MAX →
  ∃ P' sb', lreadline P sb check sep = Ok (P', sb', match find_line sep q with None => []
      | Some i => [if check : bool then LBoolean true else LString (take (Z.to_nat i) q)] end) ∧
    after P fl l (match find_line sep q with Some i => if check then q else drop (Z.to_nat i + length sep) q | None => q end) P' sb'.
Proof.
  intros Hsep. pose proof after_same as Hsame. pose proof Hq as (Hl & Hb & Hs). pose proof (lc_chain _ _ _ _ Hl) as Hc. unfold lreadline, find_line.
  destruct l as [|[a m] l']; cbn [chain] in Hc.
  { unfold bytes_of in Hb. cbn in Hb. rewrite drop_nil in Hb. rewrite Hc, <- Hb. do 2 eexists. split; [done|]. rewrite Hb. exact Hsame. }
  destruct Hc as [Hh _]. destruct (local_head _ _ _ _ _ _ Hl) as (nx & Hg & Ho). rewrite Hh, <- Hh, Hg.
  unfold chk32. rewrite !(proj2 (Z.leb_le _ _)) by (unfold INT_MIN; lia). cbn [andb defined mbind res_bind n_sz].
  pose proof (lc_chain _ _ _ _ Hl) as Hc. rewrite Hs.
  rewrite (readline_loop_ok _ _ _ _ _ _ sep 0 q Hc (local_length _ _ _ _ Hl)); [|lia|by rewrite <- Hb|lia]. cbn [mbind res_bind].
  assert (Hne : q ≠ []) by (rewrite <- Hb, (bytes_cons sb a m l' Ho); intros [Hd _]%app_eq_nil; apply (f_equal length) in Hd;
    rewrite length_drop in Hd; cbn in Hd; lia).
  assert ((match q with [] => None | _ :: _ => find_sep sep q end) = find_sep sep q) as -> by (by destruct q).
  assert (∀ o : option Z, Z.add 0 <$> o = o) as -> by (by intros []).
  destruct (find_sep sep q) as [i|] eqn:Hi; cbn [fmap]; [|do 2 eexists; split; [done|exact Hsame]].
  destruct check; [do 2 eexists; split; [done|exact Hsame]|].
  apply find_sep_range in Hi as [Hi0 Hi1].
  destruct (pop_lstring_ok P fl sb ((a, m) :: l') (i + Z.of_nat (length sep)) (Z.of_nat (length sep)) Hl) as (P' & sb' & -> & Ha);
    [lia|rewrite Hb; lia|by rewrite Hb|]. cbn [mbind res_bind].
  rewrite Hb in *. pose proof (after_op_after _ _ _ _ _ _ _ Hlen Ha) as Hfin. destruct Ha as (_ & _ & _ & _ & Hs' & _). rewrite Hs', Hs.
  rewrite length_drop in Hfin. do 2 eexists. split; [by rewrite Z.add_simpl_r|].
  replace (Z.to_nat (i + Z.of_nat (length sep))) with (Z.to_nat i + length sep)%nat in Hfin by lia.
  by replace (Z.of_nat (length q) - (i + Z.of_nat (length sep))) with (Z.of_nat (length q - (Z.to_nat i + length sep))) by lia.
Qed.
End Buffer.

(** ** The buffers of a service *)

(** The calls a service makes with its pool and the buffer of a socket. *)
Inductive buffer_op :=
  | op_new
  | op_push (msg : list Z)
  | op_pop (sz : Z)
  | op_clear
  | op_readall
  | op_readline (check : bool) (sep : list Z).

Definition call_buffer (P : buffer_pool) (sb : socket_buffer) (op : buffer_op) : res (buffer_pool * socket_buffer * list lua_value) :=
  match op with
  | op_new => Ok (P, lnewbuffer, [])
  | op_push msg => '(P, sb, size) ← lpushbuffer P sb msg; Ok (P, sb, [LInteger size])
  | op_pop sz => lpopbuffer P sb sz
  | op_clear => '(P, sb) ← lclearbuffer P sb; Ok (P, sb, [])
  | op_readall => '(P, sb, s) ← lreadall P sb; Ok (P, sb, [LString s])
  | op_readline check sep => lreadline P sb check sep
  end.

(** A sequence of calls, each with the id of its socket. *)
Fixpoint run_buffers (P : buffer_pool) (B : gmap Z socket_buffer) (ops : list (Z * buffer_op))
    : res (buffer_pool * gmap Z socket_buffer * list (list lua_value)) :=
  match ops with
  | [] => Ok (P, B, [])
  | (id, op) :: ops =>
      '(P, sb, r) ← call_buffer P (default lnewbuffer (B !! id)) op;
      '(P, B, rs) ← run_buffers P (<[id := sb]> B) ops;
      Ok (P, B, r :: rs)
  end.

(** What the calls mean for a queue of bytes: what is left, and the values. *)
Definition spec_buffer (q : list Z) (op : buffer_op) : list Z * list lua_value :=
  let len (q : list Z) := Z.of_nat (length q) in
  match op with
  | op_new => ([], [])
  | op_push msg => (q ++ msg, [LInteger (len (q ++ msg))])
  | op_pop sz =>
      if (len q <? sz) || (sz =? 0) then (q, [LNil; LInteger (len q)])
      else (drop (Z.to_nat sz) q, [LString (take (Z.to_nat sz) q); LInteger (len (drop (Z.to_nat sz) q))])
  | op_clear => ([], [])
  | op_readall => ([], [LString q])
  | op_readline check sep =>
      match find_line sep q with
      | None => (q, [])
      | Some i => if check then (q, [LBoolean true]) else (drop (Z.to_nat i + length sep) q, [LString (take (Z.to_nat i) q)])
      end
  end.

Fixpoint spec_buffers (Q : gmap Z (list Z)) (ops : list (Z * buffer_op)) : gmap Z (list Z) * list (list lua_value) :=
  match ops with
  | [] => (Q, [])
  | (id, op) :: ops =>
      let '(q, r) := spec_buffer (default [] (Q !! id)) op in
      let '(Q, rs) := spec_buffers (<[id := q]> Q) ops in
      (Q, r :: rs)
  end.

(** What the callers keep to: a buffer is made once for a socket, before it is
    used; no block is empty; a buffer holds at most [INT_MAX] bytes; a size that is
    asked for is an [int] and not negative; a separator has at most [INT_MAX] bytes. *)
Definition op_allowed (Q : gmap Z (list Z)) (id : Z) (op : buffer_op) : bool :=
  match op, Q !! id with
  | op_new, None => true
  | op_push msg, Some q => (1 <=? Z.of_nat (length msg)) && (Z.of_nat (length (q ++ msg)) <=? INT_MAX)
  | op_pop sz, Some _ => (0 <=? sz) && (sz <=? INT_MAX)
  | op_readline _ sep, Some _ => Z.of_nat (length sep) <=? INT_MAX
  | (op_clear | op_readall), Some _ => true
  | _, _ => false
  end.

Fixpoint ops_allowed (Q : gmap Z (list Z)) (ops : list (Z * buffer_op)) : bool :=
  match ops with
  | [] => true
  | (id, op) :: ops => op_allowed Q id op && ops_allowed (<[id := (spec_buffer (default [] (Q !! id)) op).1]> Q) ops
  end.

(** The nodes of the pool are free or in one of the buffers, [L]. *)
Record buffers_inv (P : buffer_pool) (B : gmap Z socket_buffer) (Q : gmap Z (list Z)) (fl : list Z) (L : Z → list (Z * list Z)) : Prop := {
  bi_len : 0 <= bp_len P;
  bi_free : free_chain (bp_nodes P) (bp_free P) fl;
  bi_nodup : NoDup fl;
  bi_holds id sb : B !! id = Some sb → ∃ q, Q !! id = Some q ∧ holds P fl sb (L id) q;
  bi_none id : B !! id = None → Q !! id = None ∧ L id = [];
  bi_disjoint i j : i ≠ j → map fst (L i) ## map fst (L j)
}.

(** A buffer keeps its bytes when another one is used. *)
Lemma holds_frame P fl (l : list (Z * list Z)) P' fl' l' sb' q' sb2 l2 q2 :
  holds P fl sb2 l2 q2 → map fst l ## map fst l2 → grown P P' (fl ++ map fst l) →
  (∀ a, a ∈ fl' ++ map fst l' → a ∈ fl ++ map fst l ∨ Z.of_nat (length (bp_nodes P)) <= a) →
  holds P' fl' sb' l' q' → holds P' fl' sb2 l2 q2 ∧ map fst l' ## map fst l2.
Proof.
  intros ([Hf Hc Ht Hn Ho] & Hb & Hs) Hd (_ & _ & Hg) Hnew ([Hf' _ _ Hn' _] & _ & _).
  pose proof (chain_range _ _ _ Hc) as Hr. rewrite Forall_forall in Hr. apply NoDup_app in Hn as (_ & Hdf & Hn2), Hn' as (Hnf & _ & _).
  assert (Hout : ∀ a, a ∈ map fst l2 → a ∉ fl ++ map fst l) by (intros a Ha [Hi|Hi]%elem_of_app; [by apply (Hdf a)|by apply (Hd a)]).
  assert (Hnew2 : ∀ a, a ∈ fl' ++ map fst l' → a ∉ map fst l2)
    by (intros a Ha Hi; destruct (Hnew a Ha) as [Hx|Hx]; [by apply (Hout a)|specialize (Hr a Hi); lia]).
  split; [|intros a Ha; apply Hnew2; set_solver]. split; [|done]. split; [done| |done| |done].
  - eapply chain_agree; [exact Hc|]. intros a Ha. apply Hg; [by apply Hout|by apply Hr].
  - apply NoDup_app. split_and!; [done| |done]. intros a Ha. apply Hnew2. set_solver.
Qed.

Lemma holds_new P fl : free_chain (bp_nodes P) (bp_free P) fl → NoDup fl → holds P fl lnewbuffer [] [].
Proof. intros Hf Hn. split; [split; try done; by rewrite app_nil_r|done]. Qed.

(** One buffer changes. *)
Lemma inv_update P B Q fl L id sb l q P' sb' q' :
  buffers_inv P B Q fl L → holds P fl sb l q → l = L id → after P fl l q' P' sb' →
  ∃ fl' L', buffers_inv P' (<[id := sb']> B) (<[id := q']> Q) fl' L'.
Proof.
  intros [Hlen Hfree Hnf Hh Hnone Hd] _ -> (fl' & l' & Hq' & Hg & Hnew). exists fl', (λ i, if decide (i = id) then l' else L i).
  pose proof Hg as (_ & Hlen' & _). pose proof Hq' as ([Hf' _ _ Hn' _] & _). apply NoDup_app in Hn' as (Hnf' & _ & _).
  assert (Hother : ∀ j sb2, j ≠ id → B !! j = Some sb2 → (∃ q2, Q !! j = Some q2 ∧ holds P' fl' sb2 (L j) q2) ∧ map fst l' ## map fst (L j)).
  { intros j sb2 Hj Hs2. destruct (Hh j sb2 Hs2) as (q2 & HQ & H2).
    destruct (holds_frame P fl (L id) P' fl' l' sb' q' sb2 (L j) q2 H2) as [H2' Hd2]; try done; [by apply Hd|eauto]. }
  assert (Hdis : ∀ j, j ≠ id → map fst l' ## map fst (L j)).
  { intros j Hj. destruct (B !! j) as [sb2|] eqn:Hs2; [by apply (Hother j sb2)|]. destruct (Hnone j Hs2) as [_ ->]. cbn. set_solver. }
  split; try done.
  - intros j sb2. destruct (decide (j = id)) as [->|Hj].
    + rewrite !lookup_insert_eq. intros [= <-]. eauto.
    + rewrite !lookup_insert_ne by done. intros Hs2. by apply Hother.
  - intros j. destruct (decide (j = id)) as [->|Hj]; [by rewrite lookup_insert_eq|]. rewrite !lookup_insert_ne by done. auto.
  - intros i j Hij. destruct (decide (i = id)) as [->|Hi], (decide (j = id)) as [->|Hj]; [done|by apply Hdis|intros a H1 H2; by apply (Hdis i Hi a)|by apply Hd].
Qed.

(** One call. *)
Lemma call_ok P fl sb l q op :
  0 <= bp_len P → holds P fl sb l q → op_allowed {[0 := q]} 0 op = true →
  ∃ P' sb', call_buffer P sb op = Ok (P', sb', (spec_buffer q op).2) ∧ after P fl l (spec_buffer q op).1 P' sb'.
Proof.
  intros Hlen Hq Ha. unfold op_allowed in Ha. rewrite lookup_singleton_eq in Ha. destruct op as [|msg|sz| | |check sep]; cbn [call_buffer spec_buffer fst snd].
  - done.
  - apply andb_true_iff in Ha as [H1%Z.leb_le H2%Z.leb_le].
    destruct (lpush_ok Hlen Hq msg) as (P' & sb' & -> & Hf); [by intros ->|done|]. cbn [mbind res_bind]. eauto.
  - bool_to_prop. destruct (lpop_ok Hlen Hq sz ltac:(lia)) as (P' & sb' & q' & -> & -> & Hf). exists P', sb'.
    destruct (Z.ltb_spec (Z.of_nat (length q)) sz); cbn [orb] in *; [done|]. destruct (Z.eqb_spec sz 0) as [->|]; done.
  - destruct (lclear_ok Hlen Hq) as (P' & sb' & -> & Hf). cbn [mbind res_bind]. eauto.
  - destruct (lreadall_ok Hlen Hq) as (P' & sb' & -> & Hf). cbn [mbind res_bind]. eauto.
  - apply Z.leb_le in Ha. destruct (lreadline_ok Hlen Hq check sep Ha) as (P' & sb' & -> & Hf). exists P', sb'.
    by destruct (find_line sep q), check.
Qed.

Lemma run_buffers_ok ops P B Q fl L :
  buffers_inv P B Q fl L → ops_allowed Q ops = true →
  ∃ P' B' fl' L', run_buffers P B ops = Ok (P', B', (spec_buffers Q ops).2) ∧ buffers_inv P' B' (spec_buffers Q ops).1 fl' L'.
Proof.
  revert P B Q fl L. induction ops as [|[id op] ops IH]; intros P B Q fl L Hi Ha.
  { exists P, B, fl, L. done. }
  cbn [ops_allowed] in Ha. apply andb_true_iff in Ha as [Ha Hrest]. cbn [run_buffers spec_buffers].
  assert (∃ P1 sb1 fl1 L1, call_buffer P (default lnewbuffer (B !! id)) op = Ok (P1, sb1, (spec_buffer (default [] (Q !! id)) op).2) ∧
    buffers_inv P1 (<[id := sb1]> B) (<[id := (spec_buffer (default [] (Q !! id)) op).1]> Q) fl1 L1) as (P1 & sb1 & fl1 & L1 & -> & Hi1).
  { destruct (B !! id) as [sb|] eqn:HB.
    - destruct (bi_holds _ _ _ _ _ Hi id sb HB) as (q & HQ & Hq). rewrite HQ. cbn [default].
      assert (Ha' : op_allowed {[0 := q]} 0 op = true) by (unfold op_allowed in *; rewrite lookup_singleton_eq; by rewrite HQ in Ha).
      destruct (call_ok P fl sb (L id) q op (bi_len _ _ _ _ _ Hi) Hq Ha') as (P' & sb' & He & Hf). exists P', sb'.
      destruct (inv_update _ _ _ _ _ id sb _ q _ _ _ Hi Hq eq_refl Hf) as (fl' & L' & Hi'). eauto.
    - destruct (bi_none _ _ _ _ _ Hi id HB) as [HQ HL]. unfold op_allowed in Ha. rewrite HQ in Ha |- *. destruct op; try done.
      cbn [default call_buffer spec_buffer fst snd].
      pose proof (holds_new P fl (bi_free _ _ _ _ _ Hi) (bi_nodup _ _ _ _ _ Hi)) as Hq.
      destruct (inv_update _ _ _ _ _ id _ _ _ _ _ _ Hi Hq (eq_sym HL) (after_same (bi_len _ _ _ _ _ Hi) Hq)) as (fl' & L' & Hi'). exists P, lnewbuffer. eauto. }
  cbn [mbind res_bind]. destruct (spec_buffer (default [] (Q !! id)) op) as [q r]. cbn [fst snd] in *.
  destruct (IH _ _ _ _ _ Hi1 Hrest) as (P' & B' & fl' & L' & -> & Hi'). cbn [mbind res_bind].
  destruct (spec_buffers _ ops) as [Q' rs]. cbn [fst snd] in *. exists P', B'. eauto.
Qed.

(** C15. The buffers that share a pool are independent queues of bytes: from an
    empty pool, a sequence of calls that keeps to [ops_allowed] (making a buffer for
    a socket before it is used, adding a block that is not empty, taking up to
    [INT_MAX] bytes, clearing, reading all or a line up to a separator, which may lie
    across blocks) touches no node outside the pool or without data, and gives
    the values the calls have on plain lists of bytes, one for each socket;
    the size kept with each buffer is the number of its bytes. *)
Theorem buffers_refine ops :
  ops_allowed ∅ ops = true →
  ∃ P B, run_buffers (mk_bpool [] None 0) ∅ ops = Ok (P, B, (spec_buffers ∅ ops).2) ∧
    ∀ id, sb_size <$> B !! id = (λ q, Z.of_nat (length q)) <$> (spec_buffers ∅ ops).1 !! id.
Proof.
  intros Ha. destruct (run_buffers_ok ops (mk_bpool [] None 0) ∅ ∅ [] (λ _, [])) as (P & B & fl & L & He & Hi); [|done|].
  { split; cbn; try done; [constructor|set_solver]. }
  exists P, B. split; [done|]. intros id. destruct (B !! id) as [sb|] eqn:HB.
  - destruct (bi_holds _ _ _ _ _ Hi id sb HB) as (q & -> & _ & _ & Hs). cbn. by rewrite Hs.
  - by destruct (bi_none _ _ _ _ _ Hi id HB) as [-> _].
Qed.

(** Two sockets; a line across three blocks, then bytes across two. *)
Definition example_ops : list (Z * buffer_op) :=
  [(1, op_new); (2, op_new); (1, op_push [71; 69; 84; 13]); (2, op_push [7; 8]); (1, op_push [10]); (1, op_readline true [13; 10]);
   (1, op_push [65; 66]); (1, op_readline false [13; 10]); (2, op_push [9]); (2, op_pop 3); (1, op_pop 5); (1, op_readall); (1, op_push [3]); (1, op_clear)].

Lemma buffers_refine_witness : ∃ P B, run_buffers (mk_bpool [] None 0) ∅ example_ops = Ok (P, B, (spec_buffers ∅ example_ops).2) ∧
  ∀ id, sb_size <$> B !! id = (λ q, Z.of_nat (length q)) <$> (spec_buffers ∅ example_ops).1 !! id.
Proof. apply (buffers_refine example_ops). vm_compute. reflexivity. Defined.

Example example_values : (spec_buffers ∅ example_ops).2 =
  [[]; []; [LInteger 4]; [LInteger 2]; [LInteger 5]; [LBoolean true]; [LInteger 7]; [LString [71; 69; 84]]; [LInteger 3];
   [LString [7; 8; 9]; LInteger 0]; [LNil; LInteger 2]; [LString [65; 66]]; [LInteger 1]; []].
Proof. vm_compute. reflexivity. Qed.

(** A negative size passes the check of [lpopbuffer], and so does one from 2^31
    on, which is cut; in an empty buffer there is no node to take it from. *)
Example pop_negative : lpopbuffer (mk_bpool [] None 0) lnewbuffer (-1) = Undef ∧ lpopbuffer (mk_bpool [] None 0) lnewbuffer (2 ^ 31) = Undef.
Proof. split; reflexivity. Qed.

(** An empty block in front: the search for a separator leaves it behind its end. *)
Example readline_empty_block :
  ('(P, sb, _) ← lpushbuffer (mk_bpool [] None 0) lnewbuffer []; '(P, sb, _) ← lpushbuffer P sb [65; 66; 10]; lreadline P sb false [10]) = Undef.
Proof. vm_compute. reflexivity. Qed.
