(* ===== verification/SocketDriver.v ===== *)
(** * Arguments of the socket calls: lualib-src/lua-socket.c

    What the binding to Lua does with addresses and data before it calls
    skynet_socket.c: the host and the port of an address as text, the strings of
    a table joined to one block, the text of a UDP address, the number in the
    header of a packet.

    A string is a list of bytes; as a C string it ends at the first 0.  [Fail]
    is a Lua error, [Undef] undefined behaviour. *)

From Stdlib Require Import ZArith Lia.
From stdpp Require Import base tactics option numbers list strings.
From S2P Require Import Prelude Libc SocketServer SprotoTypes.

(** ** Addresses *)

(** [strtoul(s, NULL, 10)] *)
Definition strtoul10 (s : list Z) : Z :=
  let '(neg, s) := read_sign (skip_space s) in
  let v := (digits_val 10 0 s).1 in
  if 2 ^ 64 - 1 <? v then 2 ^ 64 - 1 else if neg then u64 (- v) else v.

(** A Lua string as a C string: up to the first 0. *)
Definition c_string (s : list Z) : list Z := match index_of 0 s with Some i => take i s | None => s end.

(** [memcpy(tmp, addr + from, n); tmp[n] = 0] with [tmp] of [sz] bytes. *)
Definition copy_host (sz : Z) (addr : list Z) (from n : Z) : res (list Z) :=
  if (n <? 0) || (sz <=? n) then Undef else Ok (take (Z.to_nat n) (drop (Z.to_nat from) addr)).

(** The host and the port; [port] is the argument behind the address, if any. *)
Definition address_port (sz : Z) (addr : list Z) (port : option Z) : res (list Z * Z) :=
  match port with
  | Some p => Ok (addr, i32 p)
  | None =>
      match index_of 91 addr with
      | Some b =>
          match index_of 93 addr with
          | None => Fail
          | Some e =>
              host ← copy_host sz addr (Z.of_nat b + 1) (Z.of_nat e - (Z.of_nat b + 1));
              match index_of 58 (drop (S e) addr) with
              | None => Fail
              | Some c => Ok (host, i32 (strtoul10 (drop (S c) (drop (S e) addr))))
              end
          end
      | None =>
          match index_of 58 addr with
          | None => Fail
          | Some c => host ← copy_host sz addr 0 (Z.of_nat c); Ok (host, i32 (strtoul10 (drop (S c) addr)))
          end
      end
  end.

(** The host and the port [lconnect] passes on. *)
Definition lconnect_args (addr : list Z) (port : option Z) : res (list Z * Z) :=
  '(host, p) ← address_port (Z.of_nat (length addr)) (c_string addr) port;
  if p =? 0 then Fail else Ok (host, p).

(** Those of [ludp], where the address is optional. *)
Definition ludp_args (addr : option (list Z)) (port : option Z) : res (option (list Z) * Z) :=
  match addr with
  | None => Ok (None, 0)
  | Some addr => '(host, p) ← address_port (Z.of_nat (length addr)) (c_string addr) port; Ok (Some host, p)
  end.

(** ** Data to send *)

(** The argument: a block with its size, a table of values up to the first nil
    ([None] is a value that is no string or number), or a string. *)
Inductive send_arg := arg_block (data : list (option Z)) (sz : Z) | arg_table (l : list (option (list Z))) | arg_string (s : list Z) | arg_other.

Fixpoint count_size (l : list (option (list Z))) (tlen : Z) : res Z :=
  match l with
  | [] => Ok tlen
  | None :: _ => Fail
  | Some s :: l => count_size l (u64 (tlen + Z.of_nat (length s)))
  end.

(** The block [buffer] is filled from [ptr] on; [tlen] bytes are left. *)
Fixpoint concat_table (l : list (option (list Z))) (buffer : list (option Z)) (ptr tlen : Z) : res (list (option Z)) :=
  let finish := if negb (tlen =? 0) then Fail else Ok buffer in
  match l with
  | [] | None :: _ => finish
  | Some str :: l =>
      let len := Z.of_nat (length str) in
      if tlen <? len then finish
      else
        buffer ← defined (memcpy buffer ptr str len);
        concat_table l buffer (ptr + len) (tlen - len)
  end.

(** The block and its size, [*sz]. *)
Definition get_buffer (a : send_arg) : res (list (option Z) * Z) :=
  match a with
  | arg_block data sz => Ok (data, i32 sz)
  | arg_table l =>
      len ← count_size l 0;
      buffer ← concat_table l (malloc len) 0 len;
      Ok (buffer, i32 len)
  | arg_string str =>
      let len := Z.of_nat (length str) in
      buffer ← defined (memcpy (malloc len) 0 str len);
      Ok (buffer, i32 len)
  | arg_other => Fail
  end.

(** ** UDP addresses and headers *)

Section Udp.
(** [inet_ntop(family, src, ...)]: the text of an address of the family. *)
Variable inet_ntop : bool → list Z → option (list Z).

(** The text and the port; a Lua string has a 0 behind its last byte. *)
Definition ludp_address (addr : list Z) : res (list Z * Z) :=
  let sz := Z.of_nat (length addr) in
  hi ← defined (arr_get (addr ++ [0]) 1);
  lo ← defined (arr_get (addr ++ [0]) 2);
  let port := Z.lor (Z.shiftl hi 8) lo in
  if (sz =? 1 + 2 + 4) || (sz =? 1 + 2 + 16) then
    match inet_ntop (sz =? 1 + 2 + 4) (drop 3 addr) with Some t => Ok (t, port) | None => Fail end
  else Fail.
End Udp.

(** The big-endian number in a string of one to four bytes. *)
Fixpoint header_loop (s : list Z) (sz : Z) : Z :=
  match s with [] => sz | b :: s => header_loop s (Z.lor (u64 (Z.shiftl sz 8)) b) end.

Definition lheader (s : list Z) : res Z :=
  let len := Z.of_nat (length s) in
  if (4 <? len) || (len <? 1) then Fail else Ok (header_loop s 0).

(** ** Addresses, read as they are written *)

Lemma index_of_app c l r : c ∉ l → index_of c (l ++ c :: r) = Some (length l).
Proof.
  induction l as [|x l IH]; cbn [app index_of length]; intros Hn; [by rewrite Z.eqb_refl|].
  apply not_elem_of_cons in Hn as [Hx Hn]. rewrite (proj2 (Z.eqb_neq _ _)) by done. by rewrite IH.
Qed.

Lemma index_of_none c l : c ∉ l → index_of c l = None.
Proof.
  induction l as [|x l IH]; cbn [index_of]; [done|]. intros [Hx Hn]%not_elem_of_cons.
  rewrite (proj2 (Z.eqb_neq _ _)) by done. by rewrite IH.
Qed.

Lemma index_of_lt c l i : index_of c l = Some i → (i < length l)%nat.
Proof.
  revert i. induction l as [|x l IH]; intros i; cbn [index_of length]; [done|]. case_match; [intros [= <-]; lia|].
  intros (j & Hj & [= <-])%bind_Some. specialize (IH j Hj). lia.
Qed.

Lemma c_string_text s : 0 ∉ s → c_string s = s.
Proof. intros Hn. unfold c_string. by rewrite index_of_none. Qed.

Lemma strtoul10_print z : 0 <= z <= INT_MAX → strtoul10 (print_d z) = z.
Proof.
  intros Hz. unfold INT_MAX in Hz. assert (Hp : 10 ^ Z.of_nat 20 = 100000000000000000000) by reflexivity. unfold strtoul10, print_d.
  rewrite (proj2 (Z.ltb_ge z 0)) by lia. pose proof (read_digits 20 z [] ltac:(lia) ltac:(lia) I) as Hv. rewrite app_nil_r in Hv.
  destruct (dec_digits_first 20 z [] ltac:(lia) ltac:(lia)) as (d & l & He & Hd). rewrite He in *.
  rewrite skip_digit, sign_digit by done. rewrite Hv. cbn [fst]. by rewrite (proj2 (Z.ltb_ge _ _)) by lia.
Qed.

Lemma dec_digits_range fuel z acc : 0 <= z → Forall (λ c, 48 <= c < 58) acc → Forall (λ c, 48 <= c < 58) (dec_digits fuel z acc).
Proof.
  revert z acc. induction fuel as [|f IH]; intros z acc Hz Ha; cbn [dec_digits]; [done|].
  pose proof (Z.mod_pos_bound z 10 ltac:(lia)). case_match; [by constructor; [lia|]|]. apply IH; [apply Z.div_pos; lia|]. constructor; [lia|done].
Qed.

(** A byte that is no digit is not in a printed number. *)
Lemma print_d_free c z : 0 <= z → (c < 48 ∨ 58 <= c) → c ∉ print_d z.
Proof.
  intros Hz Hc Hi. unfold print_d in Hi. rewrite (proj2 (Z.ltb_ge z 0)) in Hi by lia.
  assert (Hd : Forall (λ c, 48 <= c < 58) (dec_digits 20 z [])) by (apply dec_digits_range; [done|constructor]). rewrite Forall_forall in Hd. specialize (Hd c Hi). lia.
Qed.

(** The text of an address: the host of an IPv6 address is in brackets. *)
Definition address_text (v6 : bool) (host : list Z) (port : Z) : list Z :=
  if v6 then 91 :: host ++ 93 :: 58 :: print_d port else host ++ 58 :: print_d port.

(** [socket.open] with the address in one string: an address written as
    host:port, or as [host]:port, is read back. *)
Theorem address_roundtrip (v6 : bool) host port :
  0 < port <= INT_MAX → 0 ∉ host → 93 ∉ host → (if v6 then True else 91 ∉ host ∧ 58 ∉ host) →
  lconnect_args (address_text v6 host port) None = Ok (host, port).
Proof.
  intros Hp H0 H93 Hv. assert (Htext : 0 ∉ address_text v6 host port).
  { pose proof (print_d_free 0 port ltac:(lia) ltac:(lia)). unfold address_text. destruct v6; rewrite ?elem_of_cons, ?elem_of_app, ?elem_of_cons; intros Hi; destruct_or?; done || lia. }
  unfold lconnect_args. rewrite c_string_text by done. unfold address_port, address_text, copy_host. destruct v6.
  - cbn [index_of]. rewrite Z.eqb_refl. change (91 =? 93) with false. cbn match. rewrite index_of_app by done. cbn [mbind option_bind mret].
    cbn [length]. rewrite length_app. cbn [length].
    replace (Z.of_nat (S (length host)) - (Z.of_nat 0 + 1)) with (Z.of_nat (length host)) by lia. zcases. cbn [orb mbind res_bind].
    replace (drop (S (S (length host))) (91 :: host ++ 93 :: 58 :: print_d port)) with (58 :: print_d port)
      by (cbn [drop]; by rewrite drop_app_ge, Nat.sub_succ_l, Nat.sub_diag by lia).
    cbn [index_of]. rewrite Z.eqb_refl. cbn [drop]. change (Z.to_nat (Z.of_nat 0 + 1)) with 1%nat. cbn [drop].
    rewrite !drop_0, Nat2Z.id, take_app_length, strtoul10_print, i32_small by (unfold INT_MIN; lia). cbn [mbind res_bind]. by rewrite (proj2 (Z.eqb_neq _ _)) by lia.
  - destruct Hv as [H91 H58]. rewrite index_of_none, index_of_app by (pose proof (print_d_free 91 port ltac:(lia) ltac:(lia)); rewrite ?not_elem_of_app, ?not_elem_of_cons; done).
    rewrite length_app. cbn [length]. zcases. cbn [orb mbind res_bind]. change (Z.to_nat 0) with 0%nat. rewrite drop_0, Nat2Z.id, take_app_length.
    replace (drop (S (length host)) (host ++ 58 :: print_d port)) with (print_d port) by (by rewrite drop_app_ge, Nat.sub_succ_l, Nat.sub_diag by lia).
    rewrite strtoul10_print, i32_small by (unfold INT_MIN; lia). cbn [mbind res_bind]. by rewrite (proj2 (Z.eqb_neq _ _)) by lia.
Qed.

(** Any text is an address or an error, where the first bracket is not a closing one. *)
Lemma address_port_safe addr port :
  (∀ b e, index_of 91 addr = Some b → index_of 93 addr = Some e → (b < e)%nat) →
  address_port (Z.of_nat (length addr)) addr port ≠ Undef.
Proof.
  intros Hbe. unfold address_port. destruct port; [done|]. destruct (index_of 91 addr) as [b|] eqn:Hb.
  - destruct (index_of 93 addr) as [e|] eqn:He; [|done]. specialize (Hbe b e eq_refl eq_refl). pose proof (index_of_lt _ _ _ He).
    unfold copy_host. zcases. cbn. by case_match.
  - destruct (index_of 58 addr) as [c|] eqn:Hc; [|done]. pose proof (index_of_lt _ _ _ Hc). unfold copy_host. zcases. done.
Qed.

(** A closing bracket before the opening one: the size of the copy is negative. *)
Example bracket_order : address_port 5 (lit "]a[:1") None = Undef.
Proof. vm_compute. reflexivity. Qed.

(** The number of a port is cut to an int, with no check of its range. *)
Example port_wraps : lconnect_args (lit "h:4294967376") None = Ok (lit "h", 80) ∧ lconnect_args (lit "h:-1") None = Ok (lit "h", -1).
Proof. vm_compute. done. Qed.

(** ** The strings of a table are joined *)

Lemma count_size_ok ls tlen : 0 <= tlen → tlen + Z.of_nat (length (concat ls)) < 2 ^ 64 →
  count_size (Some <$> ls) tlen = Ok (tlen + Z.of_nat (length (concat ls))).
Proof.
  revert tlen. induction ls as [|s ls IH]; intros tlen H0 Hl; cbn [fmap list_fmap count_size concat length] in *; [f_equal; lia|].
  rewrite length_app in *. rewrite u64_small by lia. rewrite IH by lia. f_equal. lia.
Qed.

Lemma concat_table_ok ls done_ n : Z.of_nat (length (done_ ++ concat ls)) = n →
  concat_table (Some <$> ls) (partial n done_) (Z.of_nat (length done_)) (Z.of_nat (length (concat ls))) = Ok (Some <$> (done_ ++ concat ls)).
Proof.
  revert done_. induction ls as [|s ls IH]; intros d Hn; cbn [fmap list_fmap concat_table concat] in *.
  - cbn. rewrite app_nil_r in *. subst n. by rewrite partial_full.
  - rewrite !length_app in *. rewrite (proj2 (Z.ltb_ge _ _)) by lia. rewrite memcpy_partial by lia. cbn [defined mbind res_bind].
    rewrite Nat2Z.id, take_ge by lia. rewrite app_assoc, <- IH by (rewrite !length_app; lia). rewrite length_app. f_equal; lia.
Qed.

(** The block sent for a table of strings is their concatenation. *)
Lemma get_buffer_table ls : Z.of_nat (length (concat ls)) <= INT_MAX →
  get_buffer (arg_table (Some <$> ls)) = Ok (Some <$> concat ls, Z.of_nat (length (concat ls))).
Proof.
  intros Hl. unfold get_buffer, INT_MAX in *. rewrite count_size_ok by lia. cbn [mbind res_bind]. rewrite malloc_partial, Z.add_0_l.
  pose proof (concat_table_ok ls [] _ eq_refl) as Hc. cbn [app length] in Hc; change (Z.of_nat 0) with 0 in Hc. rewrite Hc. cbn [mbind res_bind app]. by rewrite i32_small by (unfold INT_MIN, INT_MAX; lia).
Qed.

(** A value that is no string raises before the block is allocated. *)
Lemma get_buffer_mixed ls l : get_buffer (arg_table ((Some <$> ls) ++ None :: l)) = Fail.
Proof.
  unfold get_buffer. assert (∀ tlen, count_size ((Some <$> ls) ++ None :: l) tlen = Fail) as ->; [|done].
  induction ls as [|s ls IH]; intros tlen; [done|]. apply IH.
Qed.

(** ** UDP addresses and headers *)

(** The address of a datagram: a byte for the protocol, the port, the address. *)
Lemma ludp_address_ok ntop kind hi lo (a : list Z) (v4 : bool) :
  length a = (if v4 then 4 else 16)%nat → is_byte lo →
  ludp_address ntop (kind :: hi :: lo :: a) = match ntop v4 a with Some t => Ok (t, hi * 256 + lo) | None => Fail end.
Proof.
  intros Hl Hlo. unfold ludp_address. cbn [app arr_get]. change (arr_get (kind :: hi :: lo :: a ++ [0]) 1) with (Some hi).
  change (arr_get (kind :: hi :: lo :: a ++ [0]) 2) with (Some lo). cbn [defined mbind res_bind length drop].
  rewrite lor_shiftl_add by (unfold is_byte in *; lia). rewrite Hl. by destruct v4.
Qed.

(** The address that the server puts behind a datagram: its text and port. *)
Lemma ludp_address_sender ntop prot sa hi lo :
  is_byte lo → match sa with SA_v4 p a => p = [hi; lo] ∧ length a = 4%nat | SA_v6 p a => p = [hi; lo] ∧ length a = 16%nat end →
  ludp_address ntop (gen_udp_address prot sa) =
    match ntop (if sa is SA_v4 _ _ then true else false) (match sa with SA_v4 _ a | SA_v6 _ a => a end) with Some t => Ok (t, hi * 256 + lo) | None => Fail end.
Proof. intros Hlo. destruct sa as [p a|p a]; intros [-> Ha]; [by apply (ludp_address_ok ntop _ hi lo a true)|by apply (ludp_address_ok ntop _ hi lo a false)]. Qed.

(** A string of another length is refused, but the port is read before: in a
    string of less than two bytes that is behind its end. *)
Lemma ludp_address_short ntop addr : Z.of_nat (length addr) < 2 → ludp_address ntop addr = Undef.
Proof. destruct addr as [|x [|y addr]]; [done|done|cbn [length]; lia]. Qed.

Lemma ludp_address_other ntop addr :
  2 <= Z.of_nat (length addr) → length addr ≠ 7%nat → length addr ≠ 19%nat → ludp_address ntop addr = Fail.
Proof.
  intros H2 H7 H19. unfold ludp_address. destruct (arr_get_some (addr ++ [0]) 1) as [hi ->]; [rewrite length_app; cbn; lia|].
  destruct (arr_get_some (addr ++ [0]) 2) as [lo ->]; [rewrite length_app; cbn; lia|]. cbn [defined mbind res_bind]. zcases. done.
Qed.

Lemma header_loop_ok s v : Forall is_byte s → 0 <= v → v * 256 ^ Z.of_nat (length s) + 256 ^ Z.of_nat (length s) <= 2 ^ 64 →
  header_loop s v = foldl (λ v b, v * 256 + b) v s.
Proof.
  revert v. induction s as [|b s IH]; intros v Hs Hv Hb; cbn [header_loop foldl]; [done|]. apply Forall_cons in Hs as [Hb0 Hs].
  unfold is_byte in Hb0. cbn [length] in Hb. rewrite Nat2Z.inj_succ, Z.pow_succ_r in Hb by lia.
  pose proof (Z.pow_pos_nonneg 256 (Z.of_nat (length s)) ltac:(lia) ltac:(lia)) as Hp.
  rewrite u64_small by (rewrite Z.shiftl_mul_pow2 by lia; change (2 ^ 8) with 256; nia).
  rewrite lor_shiftl_add by lia. change (2 ^ 8) with 256. apply IH; [done|lia|nia].
Qed.

(** The header is a big-endian number; any other length is an error. *)
Lemma lheader_value s : Forall is_byte s →
  lheader s = if (1 <=? Z.of_nat (length s)) && (Z.of_nat (length s) <=? 4) then Ok (foldl (λ v b, v * 256 + b) 0 s) else Fail.
Proof.
  intros Hs. unfold lheader. destruct (Z.ltb_spec 4 (Z.of_nat (length s))), (Z.ltb_spec (Z.of_nat (length s)) 1); cbn [orb]; zcases; try done.
  cbn [andb]. f_equal. apply header_loop_ok; [done|lia|].
  pose proof (Z.pow_le_mono_r 256 (Z.of_nat (length s)) 4 ltac:(lia) ltac:(lia)). lia.
Qed.
